(* ===== verification/_CoqProject ===== *)
-Q . S2P
Prelude.v
Codec.v
Prog.v
Filepath.v
Order.v
Lockout.v
Model.v
Account.v
Session.v
Budget.v
ConnMgr.v
Identity.v
Journal.v
Execution.v
ExecRun.v
Governance.v
Terminal.v
FileBrowser.v
Version.v
ExecSessions.v
ExecStream.v
ExecProtocol.v
AuditRecord.v
SecurityStore.v
SecurityProtocol.v
Transition.v
LogTailer.v
Dropzone.v
AuthTokens.v
AccountStore.v
SignIn.v
AccountAdmin.v
SignInProtocol.v
Revocation.v
Administrators.v
AgentUpdates.v
UpdateProtocol.v
UpdateRuns.v
UpdateAuthority.v
UpdateMaintenance.v
AgentInstaller.v
InstallerProtocol.v
InstallerRuns.v
InstallerSuccess.v
NetAddr.v
AppTarget.v
AppStore.v
AppAccess.v
AppAdmin.v
AppProtocol.v
AppRuns.v
AppAudits.v
AppConn.v
