(* ===== verification/Prelude.v ===== *)
(** * Veyport: a verified model of the hub and agent core

    Veyport is a fleet-access service.  A _hub_ (Go, under src/hub) keeps
    accounts, sessions and security policy, holds one control connection per
    enrolled node, and brokers terminals, commands, file and log operations.  An
    _agent_ (src/agent) runs on each node, keeps the connection, and starts
    processes on the hub's behalf.  A command-line client (src/cli) and a web
    frontend talk to the hub.  This library models the parts that decide who may
    do what, and the concurrent bookkeeping both sides rely on.

    ** How the parts interact

    A person signs in with a password and a one-time code ([AuthTokens],
    [SignIn]) and holds tokens of a session row ([AccountStore]); every request is
    authenticated against the account ([Account], [Lockout]) and the session
    ([Session]), and administrators manage accounts and sessions through the same
    gates ([AccountAdmin]).  The whole of it, with requests interleaved call by
    call, is put together in [SignInProtocol].  If the security policy covers the actor or the node,
    [Governance] decides whether it may run at all and in which mode; the policy
    itself changes only by an approved, quorum-checked transition: a request,
    its approvals and its effects are transactions of the store
    ([SecurityStore]), applied by programs that archive audit records
    ([AuditRecord]) and move a marker outside the database ([Transition]).  An
    admitted
    operation is bound to the exact control connection of its node ([ConnMgr])
    and, if it is a shell or a command, to a registration ([Terminal]).  On the
    node, a command is prepared under an operating-system identity ([Identity])
    and a session slot ([Budget]), claimed in a durable journal ([Journal]),
    launched and tracked by the execution manager ([Execution]), and its input,
    protected script, output and result handled by its run ([ExecRun]).  The hub
    drives it through a command session ([ExecSessions]) and one stream
    ([ExecStream]), whose two ends are put together in [ExecProtocol].  The agents
    themselves are replaced by operations that an administrator starts and the
    agent of the node carries out and reports ([AgentUpdates]); while one is open,
    [ConnMgr] and [Terminal] keep the node free of other work, and on the node the
    agent, a bootstrap helper and a supervisor share its journal ([AgentInstaller]).
    The hub is also a gateway to web applications: a signed-in person launches one
    with a ticket of the store ([AppStore]), and every request of the session it
    opens is checked again ([AppAccess]); administrators say which applications there
    are and who may use them ([AppAdmin]), the hub or a node dials the backend
    ([AppTarget]), and the bytes to a node's backend travel in frames of a stream
    ([AppConn]).

    ** Files

    - [Prelude]: error values and results of Go code, 64-bit arithmetic with
      wrap-around, times and durations, byte strings and UTF-8 decoding, decimal
      parsing, shared tactics ([bool_hyps], [z_hyps], [guards_in]) and lemmas.
    - [Codec]: what the Go standard library computes for this code: SHA-256 (an
      executable definition with three published test vectors), hexadecimal,
      decimal and JSON string encoding.
    - [Prog]: programs as trees of calls, with the logic of what must precede
      each call ([justified]), of what a program owns ([owning]) and of threads
      that own identifiers ([owned]).
    - [Filepath]: strings.Split/Fields/TrimSpace and path/filepath Clean, IsAbs,
      Join, Dir and Base.
    - [Order]: cmp.Compare and strings.Compare, the class [CmpOrder] of three-way
      comparisons that are total orders, and its instances.
    - [Lockout]: hub/internal/lockout/lockout.go, the lockout and session policy
      and the transition a failed sign-in makes.
    - [Model]: hub/internal/model, the rows and security records used below, with
      roles, capabilities and the coverage test of a policy.
    - [Account]: hub/internal/account/account.go, the status of an account.
    - [Session]: hub/internal/session/session.go, the verdict on a session.
    - [Budget]: agent/internal/sessionlimit/budget.go, session slots, activities
      and the maintenance lease; and the class [SlotBudget], what the execution
      manager needs of a budget, with the instance the budget provides.
    - [ConnMgr]: hub/internal/connmgr (connmgr.go, activities.go), the control
      connection generations, admitted activities, uncertainty and maintenance.
    - [Identity]: agent/internal/executionidentity/identity.go.
    - [Journal]: agent/internal/execution/journal.go, the claim journal over a
      directory of files that crashes can damage.
    - [Execution]: agent/internal/execution (manager.go, script.go), the manager.
    - [ExecRun]: the Run type of agent/internal/execution/manager.go.
    - [Governance]: hub/internal/authorization (authorization.go,
      policy_continuity.go, the marker and anchor part of transition.go) with the
      integrity checks of hub/internal/store/security.go they call.
    - [Terminal]: hub/internal/grpcserver/terminalsessions.go and the registry
      part of interactive_terminal.go.
    - [FileBrowser]: agent/internal/filebrowser/filebrowser.go.
    - [Version]: proto/updateutil/version.go.
    - [ExecSessions]: hub/internal/grpcserver/exec_sessions.go, the hub's command
      sessions over [Terminal].
    - [ExecStream]: hub/internal/grpcserver/exec_stream.go, the stream of a
      command: handler, sender and receiver, and the protocol they follow.
    - [ExecProtocol]: the agent's end (agent/internal/client/execution.go) and the
      composition of hub, stream, manager and run.
    - [AuditRecord]: hub/internal/auditrecord, the schema of protected records and
      the strict JSON reader.
    - [SecurityStore]: hub/internal/store/security.go with the helpers it calls
      and the triggers of migrations 025 and 029, a transaction per function.
    - [SecurityProtocol]: sequences of these transactions, the invariant of the
      tables and the protocol of a change.
    - [Transition]: hub/internal/authorization/transition.go, Apply,
      ReconcileChange and Startup as trees of calls, run concurrently and with
      crashes.
    - [LogTailer]: agent/internal/logtailer/tailer.go, the path check, the polling
      loop and the line filter.
    - [Dropzone]: agent/internal/dropzone/dropzone.go and the deletion handler of
      agent/internal/client/client.go, over a directory whose calls can fail.

    - [AuthTokens]: hub/internal/auth (jwt.go, api_token.go, totp.go,
      totp_cache.go, blacklist.go, password.go) and the rate limiter of
      hub/internal/server/middleware.go.
    - [AccountStore]: the transactions of hub/internal/store on accounts,
      sessions, API tokens, passwords and second factors (users.go, sessions.go,
      session_refresh.go, api_tokens.go, lockout.go, lifecycle.go,
      account_management.go, account_lifecycle_audited.go, mfa_removal.go,
      totp_completion.go and the account part of security.go), over the tables of
      [SecurityStore].
    - [SignIn]: hub/internal/server, the handlers of handlers_auth.go and their
      helpers, the directory sign-in of ldap_auth.go and the authentication of
      requests of middleware.go, as programs.
    - [AccountAdmin]: the gates of middleware.go and the handlers of
      handlers_users.go, handlers_sessions.go and handlers_account_management.go.
    - [SignInProtocol]: the routes of router.go, what each call does to the hub's
      state, and runs of any number of requests.
    - [Revocation]: what a revoked token and a locked account can still do.
    - [Administrators]: who changes accounts in these runs.
    - [AgentUpdates]: hub/internal/grpcserver/agent_updates.go with its table
      (store/agent_updates.go, model/agent_update.go, migration 027) and
      proto/updateutil/bootstrap.go, the requests as programs.
    - [UpdateProtocol]: what each call does to the hub's state, runs of any number
      of requests with restarts, the protocol of an operation, and what each
      program knows when it writes.
    - [UpdateRuns]: the consequences for every run.
    - [UpdateAuthority]: the same runs with every fact tagged by the request that
      learned it, and what a request that authorizes an installation knows.
    - [UpdateMaintenance]: who owns an identifier, and how long a node is held.
    - [AgentInstaller]: agent/internal/update (files.go, verify.go, runtime.go,
      supervisor.go, bootstrap.go) and proto/updateutil/build.go: the journal and
      the checks of executables, and Begin, bootstrap and runOperation as programs.
    - [InstallerProtocol]: what each call does to the files of a node, runs of any
      number of processes that can be killed, and what each program knows when it
      copies a binary.
    - [InstallerRuns]: which binaries a node can come to have.
    - [InstallerSuccess]: who owns an operation, and why its success is final.
    - [NetAddr]: what the code uses of net/netip and net: addresses, prefixes and
      their parsing, host and port.
    - [AppTarget]: proto/applicationproxy/target.go, the destinations of
      applications and the dialing of one, as a program.
    - [AppStore]: hub/internal/store/applications.go, model/application.go and
      migrations 029 and 030: the tables of applications with their triggers, a
      transaction per function, and what a live session rests on; and the deletion of
      audit records (store/audit.go).
    - [AppAccess]: hub/internal/server, application_authority.go,
      application_pending_revocation.go, application_audit.go, the admission part
      of application_proxy.go, launches and ends of handlers_applications.go, and
      the housekeeping of session_prune.go, as programs.
    - [AppProtocol]: what each call does to the hub's state, runs of any number of
      requests with changes of the tables, failures and restarts, and what each
      program knows when it forwards a request.
    - [AppAdmin]: the handlers of handlers_applications.go by which applications,
      grants, groups and settings are changed, and the portal.
    - [AppRuns]: the consequences for every run.
    - [AppAudits]: what the audit log keeps of ended sessions.
    - [AppConn]: proto/applicationproxy/conn.go, the byte stream of a connection.

    Definitions keep the source's names; a record field carries a short prefix.
    Code that runs under one mutex is one function from state to state.  A call
    that takes its mutex several times is split at those points, and what its
    goroutine remembers in between is kept in the state, so that a step relation
    ([ConnMgr.step], [Execution.mstep]) or a list of operations ([Terminal.trun],
    [Budget], [SecurityProtocol.gsteps]) covers every interleaving.  A procedure
    that is not under one lock is a tree of calls ([Transition.prog],
    [Prog.prog]); a run ([Transition.wsteps], [SignInProtocol.erun]) interleaves
    any number of them, call by call (so does [UpdateProtocol.erun]).  Clocks, random ids, system calls,
    database answers, the JSON decoder and the caller's contexts are arguments of
    the operations; theorems quantify over them.

    ** What is shown

    - Execution, agent side: over the life of a journal directory, crashes and
      restarts included, no execution id is launched twice; every launched
      process was prepared, matched and unexpired; slots taken from the shared
      budget are exactly accounted for; a prepared command does start when
      nothing fails (so the safety theorems are not about a manager that never
      launches).  [at_most_once], [launch_integrity], [slots_conserved],
      [prepare_then_start].
    - Journal: a claim is spent for good, interrupted work is never reported as
      in progress, a recorded result is read back.  [claim_once],
      [result_roundtrip].
    - Run: input is delivered in sequence, a protected script is copied exactly
      or the run fails (with a bound on the copy loop), "exited" is reported
      exactly when the outcome and both streams are whole.  [input_in_order],
      [script_copy_exact], [exited_means_complete].
    - Identity: a resolved identity runs as itself.  [runs_as_resolved].
    - Connections, hub side: the activity counters are exact and bounded, a
      replaced generation cannot send or deliver, maintenance excludes work, and
      work lost with a connection is never forgotten; a reconnect ends.
      [activity_accounting], [generation_exclusive], [maintenance_exclusive],
      [uncertainty_persists], [register_installs].
    - Terminals, hub side: no sequence of operations closes or sends on a closed
      channel, the limits hold, nothing is written after revocation, disabling an
      account ends all its shells and no others, maintenance keeps a node idle.
      [registry_safe], [revocation_boundary], [EndByUser_complete],
      [terminal_maintenance_exclusive].
    - Commands across hub and agent: the stream follows the protocol the agent
      accepts (no Start of a protected command with a script before the whole
      script), a withdrawn command never starts, its authority is bounded, one
      complete result is reported, input reaches the process and output the
      caller in order.  [stream_refines_protocol], [agent_accepts_stream],
      [withdrawn_never_starts], [start_matches_preparation],
      [result_once_complete], [authority_is_bounded], [preparation_accepted],
      [input_reaches_process], [output_reaches_caller].
    - Security changes in the store: the tables stay consistent under any
      sequence of transactions, a change follows five steps, takes effect only
      with two live independent approvals, is blocked for good when an approval is
      lost, and a step-up proof authorizes one act.  [tables_consistent],
      [change_refines_protocol], [activation_needs_quorum], [lost_vote_blocks],
      [stepup_once].
    - Application of changes: under concurrency and crashes the programs make only
      calls the store's protocol allows, and a version in force always has its
      marker and its acknowledged records; a change in force is finished by a
      retry (under the conditions of the theorem, which the race shown here breaks);
      the records written satisfy the schema; and one theorem shows the
      marker can be put back by a stalled request.  [version_in_force_is_backed],
      [reconcile_finishes], [governance_records_valid], [marker_overtaken].
    - Audit records: the reader accepts exactly the strict JSON values that
      encoding/json decodes.
      [reader_strict].
    - Governance: two independent approvers, policies in force were approved
      (with termination of the chain walk), a rolled-back database is refused,
      covered access is never unprotected.  [quorum_two_independent],
      [approvals_independent], [policy_approved], [rollback_refused],
      [covered_never_unprotected].
    - File browser: listings and reads are confined to the requested path and
      away from restricted ones, and return exactly what they should.
      [listing_exact], [read_exact].
    - Uploads: the drop zone implements a simple promise (an acknowledged upload is
      under its name, whole; any other leaves no file; a deletion reported as done has
      removed the file it names, one reported as failed nothing) when no name is that of a
      temporary file, and one theorem shows what happens otherwise; each upload
      holds one activity.  [uploads_refine], [upload_clobbered],
      [upload_activities].
    - Log tailer: a file that only grows is followed without loss; a rotated one
      of more than 1 MiB is not.  [tail_lossless], [rotation_skips].
    - Versions: the comparison is a total order and is the documented
      precedence.  [version_total_order], [version_precedence].
    - Accounts and sessions: lockout, dormancy and deadlines behave as
      documented within the ranges stated; two theorems record where 64-bit
      overflow breaks the documented behaviour.  [threshold_failures_lock],
      [failures_during_lock], [refusal_exact], [verdict_ok_iff_deadlines],
      [refusal_is_permanent], [load_validates]; [load_window_overflow],
      [dormancy_overflow].
    - Sign-in and requests: every fact is known with the request that learned it.
      An endpoint serves an access token only when this request judged the session
      live, and the request that opened the session had itself accepted a one-time
      code and a token of the password stage, signed after the password; an account
      is changed only by a request that was itself authenticated and found its
      caller to be an administrator, and a second factor removed only by one that
      checked a code of the actor; a
      revoked token is refused whatever runs beside it; a locked account answers
      alike, except where one theorem shows it does not.
      [served_means_signed_in], [managed_by_administrator],
      [revoked_token_refused], [locked_answers_alike],
      [lock_not_seen_under_other_name].
    - Account store: a refresh token is spent once, its guard is the session
      verdict, every operation that takes a credential away (the changes approved
      under governance included) revokes the account's API tokens, advances its
      generation and, but for a governed password reset, ends its session rows, and
      management
      leaves an administrator.  [refresh_spent_once],
      [rotation_guard_is_verdict], [revocation_complete],
      [management_keeps_admin].
    - Credentials: codes are used once (but for the text they are compared by),
      revoked tokens stay revoked, attempts are bounded, generated passwords obey
      the rules.  [code_once], [code_again_with_space], [revoked_until_expiry],
      [attempts_bounded], [temporary_password_valid].
    - Updates of agents: the table of operations moves by steps of a protocol with
      at most one live operation per node; the request that authorizes an installation
      has itself checked a live administrator, the admitted connection, the time and
      the very artifact; success is the
      exact target running after a restart; no version goes down; and from the
      authorization of an installation until the operation has ended, across
      restarts of the hub, nothing else is admitted on the node.  One theorem shows
      that an operation opened again by a late rollback is not held.
      [update_refines_protocol], [install_is_authorized], [success_is_exact],
      [update_never_downgrades], [maintenance_held], [reopened_update_unheld].
    - Updates on the node: the binary changes only by verified copies that the hub
      authorized and whose original was put aside before; it is at every moment the
      first one or an authorized target; a confirmed success is never rolled back,
      and one theorem shows where that depends on the service manager's answer.
      [binary_only_authorized], [success_wins], [confirmed_update_rolled_back].
    - Web applications: whatever changes, a live session rests on an enabled
      application in the same configuration, a login that is not revoked, an
      enabled account and an unchanged revision of its access; a session that was
      denied once is never admitted again, although the database may fail and the
      memory of denials is bounded; and only requests of live sessions whose
      account holds a grant reach a backend.  A connection is attempted only to
      addresses the target permits; the end of a session is on record before its row
      goes; the portal shows what is granted; what a backend reads is what was
      written, in order.  [live_sessions_backed], [denied_never_admitted],
      [forwarded_is_authorized], [dial_only_permitted], [session_ends_recorded],
      [portal_shows_granted], [tunnel_preserves_bytes].
    - Budget: the bounds, the exact activity count and the exclusiveness of the
      maintenance lease.  [budget_safe].

    ** Fuel and bounds

    [ConnMgr.Register] is the loop of a reconnect; [register_installs] shows two
    turns are enough without interference (with interference the loop is the
    steps of [ConnMgr.step]).  [Governance.approved_loop] walks a policy's
    approval chain with fuel one more than the version, enough because every
    turn goes to a smaller version, which [policy_approved] proves.  The script
    copy is a recursion over what its source answers; [script_copy_exact] bounds
    it by one hundred reads per byte.  [Codec.dec] prints at most twenty digits,
    enough for 64 bits.  The event queue of a terminal holds 256 events.
    [AuditRecord.scan] takes one more than the number of tokens, enough because
    every call reads one, which [reader_strict] proves.  A program of
    [Transition] or [SignIn] is a finite tree, so its run needs no fuel;
    [revoked_token_refused] bounds the calls until the refusal by nine.  The waits
    of [AgentInstaller] ([waitConfirmed], [watchSupervisor]) take how often their
    timer fires before the time is over, over which theorems quantify;
    [receiveArtifact] takes one turn per byte of the target and one for the end,
    enough because every chunk has a byte.  [watchApplication] takes how often its
    ticker fires, over which the runs quantify.

    ** Assumptions

    Nothing is assumed as an axiom.  The journal theorems describe the file
    system by the outcomes of each call and a crash relation under which synced
    files survive.  Governance takes the JSON decoder and the database's answers
    as records of functions, and [policy_approved] the fact that a version read
    from the database is an unsigned 64-bit number.  Digest comparisons are
    comparisons of SHA-256 values: theorems speak of equal digests, not of equal
    preimages.  Mutual exclusion of Go mutexes and the atomicity of the sections
    they protect are part of the model, as is the isolation of a BEGIN IMMEDIATE
    transaction.  The theorems of [SecurityProtocol] assume what callers ensure
    ([SecurityProtocol.allowed]: the change they pass was read from the store);
    [version_in_force_is_backed] shows that the programs of transition.go ensure
    it.  [reconcile_finishes] assumes that the calls of the retry are answered, that
    marker and anchor agree with the version in force, that the payload of the
    change still decodes and prepares, that its accounts exist and that the record
    is one the archive accepts.  [uploads_refine]
    assumes that request ids have no path separator (the hub generates them) and
    that names do not begin with .upload-.  Signing and checking tokens, bcrypt,
    the one-time code algorithm and the directory are parameters or answers of the
    environment ([SignInProtocol.Oracle]); a token is read back as the claims it
    was signed with ([SignInProtocol.authentic]), that is, tokens are not forged.
    The rate limiters in front of the sign-in routes can only refuse requests and
    are left out of [SignInProtocol.handler]; [attempts_bounded] is about them.
    [managed_by_administrator] assumes that no account has an empty id and that
    identifiers that are drawn are not empty ([Administrators.drawn]).
    In runs of updates, identifiers drawn are new ([UpdateProtocol.fresh_ok]), an
    agent asks to install only what it was told of ([UpdateProtocol.informed]), a
    failed statement leaves the table as it was, and everything else that happens
    to connections and terminals leaves their maintenance alone, which is what
    connmgr and the registry offer.  On the node, the hub sends an operation once
    ([InstallerProtocol.once]), a section under agent-update.lock is atomic, and
    processes can be killed at any call but the files they wrote stay; what
    debug/elf and debug/buildinfo read of a file is a parameter.  [success_wins]
    assumes that a unit whose start was answered by an error has not started
    ([InstallerProtocol.honest]).  In runs of application access the identifiers of
    sessions are new ([AppProtocol.novel]), the token of a launch names the account
    of its login session ([AppProtocol.authentic]), records of the audit log carry no
    time and retention may delete any of them, what net/url, crypto/x509 and
    strings.ToLower compute is a parameter, the frames of one stream arrive in order
    and one whose sending failed does not arrive, a section under the mutex of
    the pending revocations is atomic, and the runs do not restrict what an
    administrator enters to what [AppAdmin] accepts: any change of the tables can happen between two calls.

    ** Not modelled

    The HTTP handlers other than sign-in, account and session management, agent
    updates and applications (of which the rewriting of a backend's answers, the
    registry of tunnels, the enrollment of nodes and the cache of directory lookups
    are left out), the decoding of requests, cookies and headers, the web frontend, the gRPC
    transport and generated code, the command-line client, the SSH gateway and
    certificate authorities, the SQL text of the store outside the governance,
    account, session, token, update and application tables, notification and audit archive delivery,
    the addresses and files the bootstrap helper checks before it begins, process
    signalling and /proc scanning: input/output, generated code or glue around the
    decisions modelled here.

    ** Plan

    Next: the cache of directory lookups; the registry of tunnels; pending
    requests and log sessions of the hub; the listing of accounts. *)

From stdpp Require Export gmap strings list fin_maps.
From Stdlib Require Export ZArith Lia.
Open Scope Z_scope.

(** * Results and errors *)

(** A Go [error] value.  A sentinel ([var ErrX = errors.New(..)]) is compared
    by identity in Go and is represented by its name; any other error is
    represented by its text. *)
Inductive goerr :=
| Sentinel (name : string)
| ErrText (text : string).

#[export] Instance goerr_eq_dec : EqDecision goerr.
Proof. solve_decision. Defined.

(** The [(T, error)] results of fallible code. *)
Inductive result (A : Type) :=
| Ok (a : A)
| Err (e : goerr).
Arguments Ok {A} a.
Arguments Err {A} e.

#[export] Instance result_eq_dec `{EqDecision A} : EqDecision (result A).
Proof. solve_decision. Defined.

Definition is_ok {A} (r : result A) : bool :=
  match r with Ok _ => true | Err _ => false end.

Declare Scope go_scope.
Delimit Scope go_scope with go.
Open Scope go_scope.

Notation "x <-! c1 ; c2" :=
  (match c1 with Ok x => c2 | Err e => Err e end)
  (at level 10, c1 at level 100, c2 at level 200) : go_scope.

(** [check! b , e ; k]: the guard [if b { return e }] of the source. *)
Notation "'check!' b ',' e ; k" :=
  (if b then Err e else k)
  (at level 10, b at level 100, e at level 100, k at level 200) : go_scope.

(** * Machine integers *)

Definition int64_min : Z := - 2 ^ 63.
Definition int64_max : Z := 2 ^ 63 - 1.

(** Two's complement wrap-around of a 64-bit signed result. *)
Definition i64 (z : Z) : Z := (z + 2 ^ 63) mod 2 ^ 64 - 2 ^ 63.
Definition u32 (z : Z) : Z := z mod 2 ^ 32.
Definition u64 (z : Z) : Z := z mod 2 ^ 64.

(** * Time

    A [time.Time] is a number of nanoseconds since the zero time; a
    [time.Duration] is a 64-bit number of nanoseconds. *)
Abbreviation Time := Z (only parsing).
Abbreviation Duration := Z (only parsing).

Definition Millisecond : Duration := 1000000.
Definition Second : Duration := 1000000000.
Definition Minute : Duration := 60 * Second.
Definition Hour : Duration := 60 * Minute.

(** [t.Sub(u)] saturates at the ends of the Duration range. *)
Definition time_sub (t u : Time) : Duration :=
  Z.max int64_min (Z.min int64_max (t - u)).
Definition Before (t u : Time) : bool := t <? u.
Definition After (t u : Time) : bool := u <? t.
Definition IsZeroTime (t : Time) : bool := t =? 0.

(** The Unix epoch on this scale (1970-01-01 is day 719162 after 0001-01-01). *)
Definition unix_epoch : Time := 719162 * 24 * Hour.
Definition UnixMilli (t : Time) : Z := (t - unix_epoch) / Millisecond.

(** * Strings: byte sequences, as in Go *)

Definition len (s : string) : Z := Z.of_nat (String.length s).
Definition byte_of (c : Ascii.ascii) : Z := Z.of_nat (Ascii.nat_of_ascii c).
Definition bytes (s : string) : list Z := byte_of <$> String.list_ascii_of_string s.

Fixpoint HasPrefix (s p : string) {struct p} : bool :=
  match p, s with
  | EmptyString, _ => true
  | String a p', String b s' => bool_decide (a = b) && HasPrefix s' p'
  | String _ _, EmptyString => false
  end.

(** * UTF-8 *)

(** One decoded rune with the number of bytes it took. *)
Definition RuneError : Z := 65533.
Definition between (lo hi x : Z) : bool := (lo <=? x) && (x <=? hi).

(** The decoding performed by [for _, r := range s]: an invalid byte gives
    [RuneError] and advances by one byte. *)
Fixpoint runes_sized (l : list Z) : list (Z * Z) :=
  match l with
  | [] => []
  | b0 :: t =>
      if b0 <? 128 then (b0, 1) :: runes_sized t
      else if between 194 223 b0 then
        match t with
        | b1 :: t1 =>
            if between 128 191 b1
            then ((b0 - 192) * 64 + (b1 - 128), 2) :: runes_sized t1
            else (RuneError, 1) :: runes_sized t
        | [] => (RuneError, 1) :: runes_sized t
        end
      else if between 224 239 b0 then
        match t with
        | b1 :: b2 :: t2 =>
            if between (if b0 =? 224 then 160 else 128)
                       (if b0 =? 237 then 159 else 191) b1
               && between 128 191 b2
            then ((b0 - 224) * 4096 + (b1 - 128) * 64 + (b2 - 128), 3)
                   :: runes_sized t2
            else (RuneError, 1) :: runes_sized t
        | _ => (RuneError, 1) :: runes_sized t
        end
      else if between 240 244 b0 then
        match t with
        | b1 :: b2 :: b3 :: t3 =>
            if between (if b0 =? 240 then 144 else 128)
                       (if b0 =? 244 then 143 else 191) b1
               && between 128 191 b2 && between 128 191 b3
            then ((b0 - 240) * 262144 + (b1 - 128) * 4096
                    + (b2 - 128) * 64 + (b3 - 128), 4) :: runes_sized t3
            else (RuneError, 1) :: runes_sized t
        | _ => (RuneError, 1) :: runes_sized t
        end
      else (RuneError, 1) :: runes_sized t
  end.

Definition runes (s : string) : list Z := fst <$> runes_sized (bytes s).

(** [utf8.ValidString]: no byte decodes to a one-byte [RuneError]. *)
Definition ValidUTF8 (s : string) : bool :=
  forallb (fun p : Z * Z => negb ((p.1 =? RuneError) && (p.2 =? 1)))
          (runes_sized (bytes s)).

(** [strings.ContainsRune(s, 0)] and [strings.IndexByte(s, 0) >= 0]: the zero
    byte is its own encoding and occurs in no other one. *)
Definition ContainsNUL (s : string) : bool := existsb (Z.eqb 0) (bytes s).

(** [strings.ContainsAny(s, chars)] for a list of ASCII characters. *)
Definition ContainsAnyByte (s : string) (chars : list Z) : bool :=
  existsb (fun b => existsb (Z.eqb b) chars) (bytes s).

(** Unicode White_Space, as [unicode.IsSpace]. *)
Definition is_space (r : Z) : bool :=
  between 9 13 r || (r =? 32) || (r =? 133) || (r =? 160) || (r =? 5760)
  || between 8192 8202 r || (r =? 8232) || (r =? 8233) || (r =? 8239)
  || (r =? 8287) || (r =? 12288).

Fixpoint drop_space (l : list Z) : list Z :=
  match l with
  | r :: t => if is_space r then drop_space t else l
  | [] => []
  end.

(** The runes of [strings.TrimSpace(s)]. *)
Definition TrimSpace_runes (s : string) : list Z :=
  rev (drop_space (rev (drop_space (runes s)))).

(** * Decimal numbers *)

Definition is_digit (r : Z) : bool := between 48 57 r.

(** The value of a list of digit characters, most significant first. *)
Fixpoint digits_value (acc : Z) (l : list Z) : option Z :=
  match l with
  | [] => Some acc
  | d :: t => if is_digit d then digits_value (10 * acc + (d - 48)) t else None
  end.

Definition signed_digits (neg : bool) (l : list Z) : option Z :=
  match l with
  | [] => None
  | _ => v ← digits_value 0 l;
         let z := if neg then - v else v in
         if between int64_min int64_max z then Some z else None
  end.

(** [strconv.Atoi] on the runes of its argument, for the 64-bit [int]. *)
Definition Atoi (l : list Z) : option Z :=
  match l with
  | 45 :: t => signed_digits true t
  | 43 :: t => signed_digits false t
  | _ => signed_digits false l
  end.

(** * Generic lemmas and automation *)

Create HintDb veyport discriminated.

(** Split a conjunction of boolean tests in the context. *)
Ltac bool_hyps :=
  repeat match goal with
  | H : (_ && _)%bool = true |- _ => apply andb_true_iff in H as [? ?]
  | H : (_ || _)%bool = false |- _ => apply orb_false_iff in H as [? ?]
  | H : negb _ = true |- _ => apply negb_true_iff in H
  | H : negb _ = false |- _ => apply negb_false_iff in H
  | H : bool_decide _ = true |- _ => apply bool_decide_eq_true in H
  | H : bool_decide _ = false |- _ => apply bool_decide_eq_false in H
  end.

(** Turn boolean comparisons in the context into propositions. *)
Ltac z_hyps :=
  repeat match goal with
  | H : (_ =? _) = true |- _ => apply Z.eqb_eq in H
  | H : (_ =? _) = false |- _ => apply Z.eqb_neq in H
  | H : (_ <? _) = true |- _ => apply Z.ltb_lt in H
  | H : (_ <? _) = false |- _ => apply Z.ltb_ge in H
  | H : (_ <=? _) = true |- _ => apply Z.leb_le in H
  | H : (_ <=? _) = false |- _ => apply Z.leb_gt in H
  end.

(** Follow the guards of a handler: case on the test that blocks [H]. *)
Ltac guard_in H :=
  match type of H with
  | context [if ?b then _ else _] => destruct b eqn:?
  | context [match ?x with _ => _ end] => destruct x eqn:?
  end; try discriminate H; simplify_eq/=.
Ltac guards_in H := repeat guard_in H.

(** The same, outermost test first. *)
Ltac head_in H :=
  match type of H with
  | (match ?x with _ => _ end) = _ => destruct x eqn:?
  end; try discriminate H; simplify_eq/=.
Ltac heads_in H := repeat head_in H.

Lemma i64_id z : int64_min ≤ z ≤ int64_max → i64 z = z.
Proof.
  unfold i64, int64_min, int64_max. intros Hz.
  rewrite Z.mod_small; lia.
Qed.

Lemma i64_range z : int64_min ≤ i64 z ≤ int64_max.
Proof.
  unfold i64, int64_min, int64_max.
  pose proof (Z.mod_pos_bound (z + 2 ^ 63) (2 ^ 64) ltac:(lia)). lia.
Qed.

Lemma time_sub_gt t u d : d < int64_max → int64_min ≤ d →
  (d <? time_sub t u) = (d <? t - u).
Proof.
  unfold time_sub. intros H1 H2.
  apply eq_true_iff_eq. rewrite !Z.ltb_lt. lia.
Qed.

Lemma time_sub_le t u d : int64_min ≤ d < int64_max →
  (time_sub t u <=? d) = (t - u <=? d).
Proof.
  unfold time_sub. intros H1.
  apply eq_true_iff_eq. rewrite !Z.leb_le. lia.
Qed.

Lemma HasPrefix_app s p : HasPrefix s p = true ↔ ∃ r, s = p +:+ r.
Proof.
  split.
  - revert s. induction p as [|a p IH]; intros s H; simpl in H; [by exists s|].
    destruct s as [|b s]; simpl in H; [discriminate H|]. bool_hyps. subst.
    destruct (IH s ltac:(assumption)) as [r ->]. by exists r.
  - intros [r ->]. induction p as [|a p IH]; [done|]. simpl.
    rewrite bool_decide_eq_true_2 by done. exact IH.
Qed.

Lemma last_cons {A} (x d : A) l : List.last (x :: l) d = List.last l x.
Proof.
  revert x d. induction l as [|y l IH]; intros x d; [done|].
  transitivity (List.last (y :: l) d); [done|]. by rewrite !IH.
Qed.

(** Counting the entries of a map that satisfy a predicate. *)
Lemma size_filter_delete `{Countable K} {A} (P : K * A → Prop) `{∀ x, Decision (P x)}
    (m : gmap K A) k v : m !! k = Some v →
  size (filter P m) = (size (filter P (delete k m)) + if decide (P (k, v)) then 1 else 0)%nat.
Proof.
  intros Hk. rewrite map_filter_delete. case_decide.
  - rewrite map_size_delete. rewrite (proj2 (map_lookup_filter_Some P m k v)) by done. simpl.
    assert (size (filter P m) ≠ 0%nat); [|lia]. apply map_size_non_empty_iff. intros He.
    assert (Hf : filter P m !! k = Some v) by by apply map_lookup_filter_Some.
    by rewrite He, lookup_empty in Hf.
  - rewrite delete_id; [lia|]. apply map_lookup_filter_None. right. intros v' Hv'. congruence.
Qed.

Lemma size_filter_insert `{Countable K} {A} (P : K * A → Prop) `{∀ x, Decision (P x)}
    (m : gmap K A) k v :
  size (filter P (<[k := v]> m)) = (size (filter P (delete k m)) + if decide (P (k, v)) then 1 else 0)%nat.
Proof.
  rewrite (size_filter_delete P (<[k := v]> m) k v) by apply lookup_insert_eq.
  by rewrite delete_insert_eq.
Qed.

Lemma len_app a b : len (a +:+ b) = len a + len b.
Proof.
  unfold len. rewrite <- Nat2Z.inj_add. f_equal.
  induction a as [|c a IH]; [done|]. simpl. by f_equal.
Qed.

Lemma len_nonneg s : 0 ≤ len s.
Proof. unfold len. lia. Qed.

Lemma string_app_assoc a b c : (a +:+ b) +:+ c = a +:+ (b +:+ c).
Proof.
  induction a as [|x a IH]; [done|].
  change (String x ((a +:+ b) +:+ c) = String x (a +:+ (b +:+ c))). by rewrite IH.
Qed.
