(* ===== verification/Codec.v ===== *)
(** Standard-library encodings the program relies on, executable: SHA-256
    ([crypto/sha256]), lower-case hexadecimal ([encoding/hex]), decimal
    ([strconv]) and JSON string literals ([encoding/json]). *)

From S2P Require Import Prelude.

(** ** SHA-256 *)

Definition w32 (z : Z) : Z := Z.land z 4294967295.
Definition rotr (n x : Z) : Z := Z.lor (Z.shiftr x n) (w32 (Z.shiftl x (32 - n))).
Definition bigS0 (x : Z) : Z := Z.lxor (Z.lxor (rotr 2 x) (rotr 13 x)) (rotr 22 x).
Definition bigS1 (x : Z) : Z := Z.lxor (Z.lxor (rotr 6 x) (rotr 11 x)) (rotr 25 x).
Definition smallS0 (x : Z) : Z := Z.lxor (Z.lxor (rotr 7 x) (rotr 18 x)) (Z.shiftr x 3).
Definition smallS1 (x : Z) : Z := Z.lxor (Z.lxor (rotr 17 x) (rotr 19 x)) (Z.shiftr x 10).
Definition ch (x y z : Z) : Z := Z.lxor (Z.land x y) (Z.land (Z.lxor x 4294967295) z).
Definition maj (x y z : Z) : Z := Z.lxor (Z.lxor (Z.land x y) (Z.land x z)) (Z.land y z).

Definition sha_k : list Z :=
  [1116352408; 1899447441; 3049323471; 3921009573; 961987163; 1508970993;
   2453635748; 2870763221; 3624381080; 310598401; 607225278; 1426881987;
   1925078388; 2162078206; 2614888103; 3248222580; 3835390401; 4022224774;
   264347078; 604807628; 770255983; 1249150122; 1555081692; 1996064986;
   2554220882; 2821834349; 2952996808; 3210313671; 3336571891; 3584528711;
   113926993; 338241895; 666307205; 773529912; 1294757372; 1396182291;
   1695183700; 1986661051; 2177026350; 2456956037; 2730485921; 2820302411;
   3259730800; 3345764771; 3516065817; 3600352804; 4094571909; 275423344;
   430227734; 506948616; 659060556; 883997877; 958139571; 1322822218;
   1537002063; 1747873779; 1955562222; 2024104815; 2227730452; 2361852424;
   2428436474; 2756734187; 3204031479; 3329325298].

Definition sha_init : list Z :=
  [1779033703; 3144134277; 1013904242; 2773480762; 1359893119; 2600822924;
   528734635; 1541459225].

(** The padded message: 0x80, zeros, and the bit length as 64 bits. *)
Definition be_bytes (n : nat) (z : Z) : list Z :=
  (fun i => Z.land (Z.shiftr z (8 * Z.of_nat (n - 1 - i))) 255) <$> seq 0 n.

Definition pad (m : list Z) : list Z :=
  let l := Z.of_nat (length m) in
  let zeros := Z.to_nat ((55 - l) mod 64) in
  m ++ 128 :: replicate zeros 0 ++ be_bytes 8 (8 * l).

Fixpoint words (fuel : nat) (m : list Z) : list Z :=
  match fuel, m with
  | S f, a :: b :: c :: d :: t =>
      (Z.shiftl a 24 + Z.shiftl b 16 + Z.shiftl c 8 + d) :: words f t
  | _, _ => []
  end.

(** The message schedule, most recent word first. *)
Fixpoint schedule (n : nat) (w : list Z) : list Z :=
  match n with
  | O => w
  | S n' =>
      let at_ i := nth i w 0 in
      schedule n' (w32 (smallS1 (at_ 1%nat) + at_ 6%nat + smallS0 (at_ 14%nat) + at_ 15%nat) :: w)
  end.

Definition round (st : list Z) (kw : Z * Z) : list Z :=
  match st with
  | [a; b; c; d; e; f; g; h] =>
      let t1 := h + bigS1 e + ch e f g + kw.1 + kw.2 in
      let t2 := bigS0 a + maj a b c in
      [w32 (t1 + t2); a; b; c; w32 (d + t1); e; f; g]
  | _ => st
  end.

Definition compress (st : list Z) (block : list Z) : list Z :=
  let w := rev (schedule 48 (rev (words 16 block))) in
  zip_with (fun x y => w32 (x + y)) st (foldl round st (zip sha_k w)).

Fixpoint blocks (fuel : nat) (m : list Z) : list (list Z) :=
  match fuel with
  | O => []
  | S f => match m with [] => [] | _ => take 64 m :: blocks f (drop 64 m) end
  end.

Definition sha256_bytes (m : list Z) : list Z :=
  let p := pad m in
  foldl compress sha_init (blocks (S (length p)) p) ≫= be_bytes 4.

(** Byte strings. *)
Definition string_of_bytes (l : list Z) : string :=
  String.string_of_list_ascii ((fun b => Ascii.ascii_of_nat (Z.to_nat b)) <$> l).

(** [sha256.Sum256([]byte(s))] as a 32-byte string. *)
Definition sha256 (s : string) : string := string_of_bytes (sha256_bytes (bytes s)).
Definition sha256_Size : Z := 32.

Lemma round_length st kw : length (round st kw) = length st.
Proof. unfold round. repeat (case_match; try done). Qed.

Lemma compress_length st block : length (compress st block) = length st.
Proof.
  unfold compress. rewrite length_zip_with.
  assert (H : ∀ l s, length (foldl round s l) = length s).
  { induction l as [|kw l IH]; intros s; [done|]. simpl. by rewrite IH, round_length. }
  rewrite H. lia.
Qed.

Lemma sha256_bytes_range m : Forall (fun b => 0 ≤ b < 256) (sha256_bytes m) ∧ length (sha256_bytes m) = 32%nat.
Proof.
  unfold sha256_bytes. set (st := foldl compress sha_init _).
  assert (Hl : length st = 8%nat).
  { assert (G : ∀ l s, length (foldl compress s l) = length s).
    { induction l as [|b l IH]; intros s; [done|]. simpl. by rewrite IH, compress_length. }
    unfold st. by rewrite G. }
  clearbody st. split.
  - apply Forall_bind, Forall_forall. intros w _. unfold be_bytes. apply Forall_forall. intros b Hb.
    apply list_elem_of_fmap in Hb as (i & -> & _). change 255 with (Z.ones 8). rewrite Z.land_ones by lia.
    apply Z.mod_pos_bound. lia.
  - do 9 (destruct st as [|? st]; try done).
Qed.

Lemma sha256_len s : len (sha256 s) = sha256_Size.
Proof.
  unfold len, sha256, string_of_bytes.
  assert (Hs : ∀ l, String.length (String.string_of_list_ascii l) = length l).
  { induction l as [|c l IH]; [done|]. simpl. by f_equal. }
  by rewrite Hs, length_fmap, (proj2 (sha256_bytes_range _)).
Qed.

Lemma sha256_nonempty s : sha256 s ≠ "".
Proof. intros E. pose proof (sha256_len s) as H. by rewrite E in H. Qed.

(** ** Hexadecimal and decimal *)

Definition hex_digit (n : Z) : Z := if n <? 10 then 48 + n else 87 + n.

Definition hex_encode (l : list Z) : list Z :=
  l ≫= (fun b => [hex_digit (Z.shiftr b 4); hex_digit (Z.land b 15)]).

Fixpoint dec_digits (fuel : nat) (n : Z) (acc : list Z) : list Z :=
  match fuel with
  | O => acc
  | S f => let acc' := (48 + n mod 10) :: acc in
           if n / 10 =? 0 then acc' else dec_digits f (n / 10) acc'
  end.

(** [strconv.FormatUint(n, 10)]; twenty digits hold every 64-bit number. *)
Definition dec (n : Z) : list Z := dec_digits 20 n [].

(** ** JSON *)

(** One rune of a JSON string literal, with the escapes of [json.Marshal]
    (which also escapes the HTML characters and the line separators, and
    replaces an invalid byte). *)
Definition json_u (r : Z) : list Z := [92; 117] ++ hex_encode (be_bytes 2 r).

Definition utf8_encode (r : Z) : list Z :=
  if r <? 128 then [r]
  else if r <? 2048 then [192 + Z.shiftr r 6; 128 + Z.land r 63]
  else if r <? 65536 then
    [224 + Z.shiftr r 12; 128 + Z.land (Z.shiftr r 6) 63; 128 + Z.land r 63]
  else [240 + Z.shiftr r 18; 128 + Z.land (Z.shiftr r 12) 63;
        128 + Z.land (Z.shiftr r 6) 63; 128 + Z.land r 63].

Definition json_rune (r : Z * Z) : list Z :=
  let '(c, size) := r in
  if (c =? 34) || (c =? 92) then [92; c]
  else if c =? 8 then [92; 98]
  else if c =? 12 then [92; 102]
  else if c =? 10 then [92; 110]
  else if c =? 13 then [92; 114]
  else if c =? 9 then [92; 116]
  else if (c <? 32) || (c =? 60) || (c =? 62) || (c =? 38) then json_u c
  else if (c =? RuneError) && (size =? 1) then json_u c
  else if (c =? 8232) || (c =? 8233) then json_u c
  else utf8_encode c.

Definition json_string (s : string) : list Z :=
  34 :: (runes_sized (bytes s) ≫= json_rune) ++ [34].

Fixpoint json_uints (l : list Z) : list Z :=
  match l with
  | [] => []
  | [x] => dec x
  | x :: t => dec x ++ 44 :: json_uints t
  end.

(** A nil slice marshals to [null], an empty one to [[]]. *)
Definition json_uint_array (l : option (list Z)) : list Z :=
  match l with
  | None => bytes "null"
  | Some l => 91 :: json_uints l ++ [93]
  end.

#[global] Opaque sha256_bytes.

(** ** Known answers *)

Example sha256_abc :
  hex_encode (sha256_bytes (bytes "abc")) =
    bytes "ba7816bf8f01cfea414140de5dae2223b00361a396177a9cb410ff61f20015ad".
Proof. vm_compute. reflexivity. Qed.

Example sha256_empty :
  hex_encode (sha256_bytes []) =
    bytes "e3b0c44298fc1c149afbf4c8996fb92427ae41e4649b934ca495991b7852b855".
Proof. vm_compute. reflexivity. Qed.

Example sha256_two_blocks :
  hex_encode (sha256_bytes (bytes "abcdbcdecdefdefgefghfghighijhijkijkljklmklmnlmnomnopnopq")) =
    bytes "248d6a61d20638b8e5c026930c3e6039a33ce45964ff2167f6ecedd419db06c1".
Proof. vm_compute. reflexivity. Qed.

(** ** Strings of bytes *)

Lemma byte_of_ascii b : 0 ≤ b < 256 → byte_of (Ascii.ascii_of_nat (Z.to_nat b)) = b.
Proof. intros H. unfold byte_of. rewrite Ascii.nat_ascii_embedding by lia. lia. Qed.

Lemma bytes_app s t : bytes (s +:+ t) = bytes s ++ bytes t.
Proof.
  induction s as [|c s IH]; [done|]. change (String c s +:+ t) with (String c (s +:+ t)). unfold bytes in *. cbn. by rewrite IH.
Qed.

Lemma bytes_of_string l : Forall (fun b => 0 ≤ b < 256) l → bytes (string_of_bytes l) = l.
Proof.
  unfold bytes, string_of_bytes. intros H. rewrite String.list_ascii_of_string_of_list_ascii, <- list_fmap_compose.
  induction H as [|b l Hb H IH]; [done|]. cbn. f_equal; [|exact IH]. by apply byte_of_ascii.
Qed.

Lemma len_bytes s : len s = Z.of_nat (length (bytes s)).
Proof.
  unfold len, bytes. rewrite length_fmap. f_equal. induction s as [|a s IH]; [done|]. cbn. by f_equal.
Qed.
