(* ===== verification/Prog.v ===== *)
(** Programs as trees of calls: a handler that is not under one lock is a tree
    whose nodes are the calls it makes and whose branches are their answers.  The
    logic [justified] follows what a program has learned from the answers: a call
    may require facts ([pre]), its answer gives facts ([post]), and facts are never
    lost, so that what other programs do in between cannot invalidate it. *)

From S2P Require Import Prelude.

Inductive prog (call : Type → Type) (A : Type) : Type :=
| Ret (a : A)
| Call {B : Type} (c : call B) (k : B → prog call A).
Arguments Ret {call A} a.
Arguments Call {call A B} c k.

Fixpoint bind {call A B} (p : prog call A) (f : A → prog call B) : prog call B :=
  match p with
  | Ret a => f a
  | Call c k => Call c (fun b => bind (k b) f)
  end.

(** [x <- c ; k] makes a call; [x <-? p ; k] runs a fallible program and returns
    its error, as [if err != nil { return .., err }]. *)
Definition call_ {call B} (c : call B) : prog call B := Call c Ret.
Definition try_ {call A B} (p : prog call (result A)) (f : A → prog call (result B)) : prog call (result B) :=
  bind p (fun r => match r with Ok a => f a | Err e => Ret (Err e) end).
Definition discard {call A} (p : prog call A) : prog call unit := bind p (fun _ => Ret tt).

Declare Scope prog_scope.
Delimit Scope prog_scope with prog.
Notation "x <- p ; k" := (bind p%prog (fun x => k)) (at level 10, p at level 100, k at level 200) : prog_scope.
Notation "x <-? p ; k" := (try_ p%prog (fun x => k)) (at level 10, p at level 100, k at level 200) : prog_scope.
Notation "'fail!' b ',' e ; k" := (if b then Ret (Err e) else k)
  (at level 10, b at level 100, e at level 100, k at level 200) : prog_scope.

(** ** What a program knows *)

(** Answers a call cannot give ([sane] fails) are left out. *)
Section justified.
Context {call : Type → Type} {fact : Type}.
Context (sane : ∀ B, call B → B → Prop) (pre : ∀ B, call B → (fact → Prop) → Prop) (post : ∀ B, call B → B → fact → Prop).

Definition knowledge := fact → Prop.
Definition knows_le (K K' : knowledge) : Prop := ∀ f, K f → K' f.

Fixpoint justified {A} (Q : knowledge → A → Prop) (K : knowledge) (p : prog call A) : Prop :=
  match p with
  | Ret a => Q K a
  | Call c k => pre _ c K ∧ ∀ b, sane _ c b → justified Q (fun f => K f ∨ post _ c b f) (k b)
  end.

Lemma justified_mono {A} (Q Q' : knowledge → A → Prop) (K : knowledge) (p : prog call A) :
  (∀ K' a, knows_le K K' → Q K' a → Q' K' a) → justified Q K p → justified Q' K p.
Proof using.
  revert K. induction p as [a|B c k IH]; intros K HQ; cbn; [intros H; apply HQ; [by intros f|done]|].
  intros [Hp Hk]. split; [done|]. intros b Hb. apply IH; [|by apply Hk].
  intros K' a Hle. apply HQ. intros f Hf. apply Hle. by left.
Qed.

Lemma justified_bind {A B} (Q : knowledge → A → Prop) (R : knowledge → B → Prop) (K : knowledge) (p : prog call A) (f : A → prog call B) :
  justified Q K p → (∀ K' a, knows_le K K' → Q K' a → justified R K' (f a)) → justified R K (bind p f).
Proof using.
  revert K. induction p as [a|C c k IH]; intros K; cbn.
  - intros HQ Hf. apply Hf; [by intros g|done].
  - intros [Hp Hk] Hf. split; [done|]. intros b Hb. apply IH; [by apply Hk|]. intros K' a Hle. apply Hf.
    intros g Hg. apply Hle. by left.
Qed.

Lemma justified_try {A B} (Q : knowledge → result A → Prop) (R : knowledge → result B → Prop) (K : knowledge)
    (p : prog call (result A)) (f : A → prog call (result B)) :
  justified Q K p → (∀ K' e, knows_le K K' → Q K' (Err e) → R K' (Err e)) →
  (∀ K' a, knows_le K K' → Q K' (Ok a) → justified R K' (f a)) → justified R K (try_ p f).
Proof using.
  intros Hp He Hf. apply (justified_bind Q); [done|]. intros K' [a|e] Hle Ha; [by apply Hf|by apply He].
Qed.

(** More knowledge does no harm, when no call asks for ignorance. *)
Context (pre_mono : ∀ B (c : call B) K K', knows_le K K' → pre B c K → pre B c K').

Lemma justified_weaken {A} (Q : knowledge → A → Prop) (K K' : knowledge) (p : prog call A) :
  (∀ K1 K2 a, knows_le K1 K2 → Q K1 a → Q K2 a) → knows_le K K' → justified Q K p → justified Q K' p.
Proof using pre_mono.
  revert K K'. induction p as [a|B c k IH]; intros K K' HQ Hle; cbn; [intros H; by eapply HQ|].
  intros [Hp Hk]. split; [by eapply pre_mono|]. intros b Hb. eapply IH; [done| |by apply Hk].
  intros f [Hf|Hf]; [left; by apply Hle|by right].
Qed.
End justified.

(** ** What a program owns *)

(** A program goes through states of its own: a call may require one ([own_pre])
    and lead to another ([own_next]); the calls that are [free] do neither. *)
Section owning.
Context {call : Type → Type} {S : Type}.
Context (own_pre : ∀ B, call B → S → Prop) (own_next : ∀ B, call B → S → B → S) (free : ∀ B, call B → bool).

Fixpoint owning {A} (m : S) (p : prog call A) : Prop :=
  match p with
  | Ret _ => True
  | Call c k => own_pre _ c m ∧ ∀ b, owning (own_next _ c m b) (k b)
  end.
(** Programs of free calls; [Q] is what they answer. *)
Fixpoint plain {A} (Q : A → Prop) (p : prog call A) : Prop :=
  match p with
  | Ret a => Q a
  | Call c k => free _ c = true ∧ ∀ b, plain Q (k b)
  end.

Lemma plain_bind {A B} (R : A → Prop) (Q : B → Prop) (p : prog call A) (f : A → prog call B) :
  plain R p → (∀ a, R a → plain Q (f a)) → plain Q (bind p f).
Proof using. intros Hp Hf. induction p as [a|C c k IH]; cbn in *; [auto|]. destruct Hp. split; auto. Qed.
Lemma owning_bind {A B} m (p : prog call A) (f : A → prog call B) : owning m p → (∀ m a, owning m (f a)) → owning m (bind p f).
Proof using. revert m. induction p as [a|C c k IH]; cbn; intros m Hp Hf; [auto|]. destruct Hp as [Hp Hk]. split; [done|]. auto. Qed.

Lemma owning_assoc {A B C} m (p : prog call A) (g : A → prog call B) (f : B → prog call C) :
  owning m (bind p (fun a => bind (g a) f)) → owning m (bind (bind p g) f).
Proof using. revert m. induction p as [a|D c k IH]; cbn; intros m; [done|]. intros [Hp Hk]. split; [done|]. auto. Qed.

Context (Hpre : ∀ B (c : call B) m, free B c = true → own_pre B c m) (Hnext : ∀ B (c : call B) m b, free B c = true → own_next B c m b = m).
Lemma plain_owning {A B} (R : A → Prop) m (p : prog call A) (f : A → prog call B) :
  plain R p → (∀ a, R a → owning m (f a)) → owning m (bind p f).
Proof using Hpre Hnext.
  intros Hp Hf. induction p as [a|C c k IH]; cbn in *; [auto|]. destruct Hp as [Hd Hk].
  split; [by apply Hpre|]. intros b. rewrite Hnext by done. auto.
Qed.
Lemma idle_owning {A} m (p : prog call A) : plain (fun _ => True) p → owning m p.
Proof using Hpre Hnext.
  intros Hp. induction p as [a|C c k IH]; cbn in *; [done|]. destruct Hp as [Hd Hk].
  split; [by apply Hpre|]. intros b. rewrite Hnext by done. auto.
Qed.
End owning.

(** ** Identifiers of threads *)

(** A table says of every identifier how far it has come; a thread that owns an
    identifier is alone in it, and the table agrees with what the thread knows. *)
Section identifiers.
Context {call : Type → Type} {P : Type}.
Context (own_pre : ∀ B, call B → option (string * P) → Prop) (own_next : ∀ B, call B → option (string * P) → B → option (string * P)).
Implicit Types (t : gmap string P) (m : option (string * P)).

Record owned t (ms : list (option (string * P))) (threads : list (prog call unit)) : Prop := {
  o_threads : Forall2 (owning own_pre own_next) ms threads;
  o_phase : ∀ i id ph, ms !! i = Some (Some (id, ph)) → t !! id = Some ph;
  o_apart : ∀ i j id ph ph', ms !! i = Some (Some (id, ph)) → ms !! j = Some (Some (id, ph')) → i = j;
}.

(** What a step of a thread does to the table: only its own identifiers change. *)
Definition own_step t t' m m' : Prop :=
  (∀ id ph, m' = Some (id, ph) → t' !! id = Some ph ∧ ((∃ ph', m = Some (id, ph')) ∨ t !! id = None))
  ∧ (∀ id, t' !! id = t !! id ∨ (∃ ph, m' = Some (id, ph)) ∨ ∃ ph, m = Some (id, ph)).
Lemma own_step_same t t' m : (∀ id ph, m = Some (id, ph) → t !! id = Some ph) → t' = t → own_step t t' m m.
Proof using. intros Hm ->. split; [intros id ph E; eauto|intros id; by left]. Qed.
Lemma own_step_insert t t' m id ph : t' = <[id := ph]> t → (∃ ph', m = Some (id, ph')) ∨ t !! id = None → own_step t t' m (Some (id, ph)).
Proof using.
  intros -> Hm. split.
  - intros i ph' [= <- <-]. by rewrite lookup_insert_eq.
  - intros i. destruct (decide (i = id)) as [->|]; [right; eauto|left; by rewrite lookup_insert_ne].
Qed.
Lemma own_step_give t t' id ph ph' : t' = <[id := ph']> t → own_step t t' (Some (id, ph)) None.
Proof using.
  intros ->. split; [done|]. intros i. destruct (decide (i = id)) as [->|]; [right; right; eauto|left; by rewrite lookup_insert_ne].
Qed.

Lemma owned_step t t' ms threads n m m' p' : owned t ms threads → ms !! n = Some m → owning own_pre own_next m' p' → own_step t t' m m' →
  owned t' (<[n := m']> ms) (<[n := p']> threads).
Proof using.
  intros [Ht Hp Ha] Hn Ho [Hs1 Hs2]. assert (Hlt : (n < length ms)%nat) by (by eapply lookup_lt_Some).
  assert (Hmine : ∀ i id ph ph', ms !! i = Some (Some (id, ph)) → m' = Some (id, ph') → i = n).
  { intros i id ph ph' Hi E. destruct (Hs1 id ph' E) as [_ [[ph'' ->]|Hnone]]; [by eapply Ha|]. specialize (Hp i id ph Hi). congruence. }
  split; [by apply Forall2_insert| |].
  - intros i id ph Hi. apply list_lookup_insert_Some in Hi as [(-> & Hi & _)|[Hne Hi]]; [by apply Hs1|].
    destruct (Hs2 id) as [->|[[ph' E]|[ph' ->]]]; [by eapply Hp| |]; exfalso; [by eapply Hne, eq_sym, Hmine|by eapply Hne, Ha].
  - intros i j id ph ph' Hi Hj. apply list_lookup_insert_Some in Hi as [(-> & Hi & _)|[Hi' Hi]]; apply list_lookup_insert_Some in Hj as [(-> & Hj & _)|[Hj' Hj]]; try done.
    + symmetry. by eapply Hmine.
    + by eapply Hmine.
    + by eapply Ha.
Qed.

(** A thread that starts with nothing, or with an identifier nobody owns. *)
Lemma owned_spawn t ms threads p : owned t ms threads → owning own_pre own_next None p → owned t (ms ++ [None]) (threads ++ [p]).
Proof using.
  intros [H1 H2 H3] Hp. assert (Hl : ∀ i x, (ms ++ [None]) !! i = Some (Some x) → ms !! i = Some (Some x)).
  { intros i x [Hi|[_ Hi]]%lookup_app_Some; [done|]. destruct (i - length ms)%nat as [|[]]; discriminate. }
  split; [by apply Forall2_app; [|constructor; [|constructor]]|intros i id ph Hi; by eapply H2, Hl|]. intros i j id ph ph' Hi Hj. by eapply H3; apply Hl.
Qed.
Lemma owned_spawn_with t ms threads id ph p : owned t ms threads → (∀ i ph', ms !! i ≠ Some (Some (id, ph'))) → owning own_pre own_next (Some (id, ph)) p →
  owned (<[id := ph]> t) (ms ++ [Some (id, ph)]) (threads ++ [p]).
Proof using.
  intros [H1 H2 H3] Hno Hp.
  assert (Hl : ∀ i x, (ms ++ [Some (id, ph)]) !! i = Some (Some x) → ms !! i = Some (Some x) ∨ i = length ms ∧ x = (id, ph)).
  { intros i x [Hi|[Hge Hi]]%lookup_app_Some; [by left|]. destruct (i - length ms)%nat as [|[]] eqn:E; [|discriminate..]. injection Hi as <-. right. split; [lia|done]. }
  split; [by apply Forall2_app; [|constructor; [|constructor]]| |].
  - intros i i' ph' [Hi|[_ [= -> ->]]]%Hl; [|by rewrite lookup_insert_eq]. rewrite lookup_insert_ne; [by eapply H2|]. intros ->. by eapply Hno.
  - intros i j i' ph1 ph2 [Hi|[-> [= -> ->]]]%Hl [Hj|[-> E]]%Hl; [by eapply H3| |by apply Hno in Hj|done]. injection E as -> ->. by apply Hno in Hi.
Qed.
Lemma owned_stop t ms threads n : owned t ms threads → owned t ms (<[n := Ret tt]> threads).
Proof using.
  intros [H1 H2 H3]. split; [|done|done]. destruct (decide (n < length threads)%nat) as [Hn|Hn]; [|by rewrite list_insert_ge by lia].
  destruct (lookup_lt_is_Some_2 ms n) as [m Hm]; [by rewrite (Forall2_length _ _ _ H1)|]. rewrite <- (list_insert_id ms n m Hm). by apply Forall2_insert.
Qed.
End identifiers.
