(* ===== verification/Filepath.v ===== *)
(** The parts of [strings] and [path/filepath] (Unix) the agent uses on paths
    and text: splitting, trimming, [Clean], [IsAbs], [Dir], [Base] and [Join]. *)

From S2P Require Import Prelude.

(** ** Strings *)

(** [strings.Split(s, sep)] for a one-byte separator. *)
Fixpoint split_at (sep : Ascii.ascii) (s : string) : list string :=
  match s with
  | EmptyString => [""]
  | String c s' =>
      if bool_decide (c = sep) then "" :: split_at sep s'
      else match split_at sep s' with
           | h :: t => String c h :: t
           | [] => [String c ""]
           end
  end.

Definition split (sep s : string) : list string :=
  match sep with
  | String c EmptyString => split_at c s
  | _ => [s]
  end.

(** [strings.Join(l, sep)]. *)
Fixpoint join (sep : string) (l : list string) : string :=
  match l with
  | [] => ""
  | [x] => x
  | x :: t => x +:+ sep +:+ join sep t
  end.

Definition of_runes_bytes (l : list Z) : string :=
  String.string_of_list_ascii ((fun b => Ascii.ascii_of_nat (Z.to_nat b)) <$> l).

(** The text as its runes, each with the bytes that encode it. *)
Fixpoint rune_chunks (fuel : nat) (l : list Z) : list (Z * list Z) :=
  match fuel, runes_sized l with
  | S f, (r, n) :: _ => (r, take (Z.to_nat n) l) :: rune_chunks f (drop (Z.to_nat n) l)
  | _, _ => []
  end.

Definition chunks (s : string) : list (Z * list Z) :=
  rune_chunks (String.length s) (bytes s).

Fixpoint drop_space_chunks (l : list (Z * list Z)) : list (Z * list Z) :=
  match l with
  | (r, b) :: t => if is_space r then drop_space_chunks t else l
  | [] => []
  end.

(** [strings.TrimSpace(s)]. *)
Definition TrimSpace (s : string) : string :=
  of_runes_bytes (rev (drop_space_chunks (rev (drop_space_chunks (chunks s)))) ≫= snd).

(** [strings.Fields(s)]: maximal runs of non-space runes. *)
Fixpoint fields_of (l : list (Z * list Z)) (cur : list Z) : list string :=
  let flush := match cur with [] => [] | _ => [of_runes_bytes cur] end in
  match l with
  | [] => flush
  | (r, b) :: t => if is_space r then flush ++ fields_of t [] else fields_of t (cur ++ b)
  end.

Definition fields (s : string) : list string := fields_of (chunks s) [].

(** The text before the first newline. *)
Definition first_line (s : string) : string :=
  match split_at (Ascii.ascii_of_nat 10) s with
  | h :: _ => h
  | [] => s
  end.

(** ** Paths *)

Definition slash : Ascii.ascii := Ascii.ascii_of_nat 47.

Definition IsAbs (p : string) : bool := HasPrefix p "/".

(** The elements [Clean] keeps, innermost first: [.] and empty elements are
    dropped, [..] removes the element before it, and at the root it is dropped. *)
Definition clean_step (rooted : bool) (stack : list string) (e : string) : list string :=
  if bool_decide (e = "") || bool_decide (e = ".") then stack
  else if bool_decide (e = "..") then
    match stack with
    | [] => if rooted then [] else [".."]
    | top :: rest => if bool_decide (top = "..") then ".." :: stack else rest
    end
  else e :: stack.

Definition clean_elements (rooted : bool) (l : list string) : list string :=
  rev (foldl (clean_step rooted) [] l).

Definition Clean (p : string) : string :=
  let body := join "/" (clean_elements (IsAbs p) (split_at slash p)) in
  if IsAbs p then "/" +:+ body
  else if bool_decide (body = "") then "." else body.

(** [filepath.Join]: the non-empty elements joined and cleaned. *)
Definition Join (l : list string) : string :=
  match filter (fun e => e ≠ "") l with
  | [] => ""
  | l' => Clean (join "/" l')
  end.

(** The last element of a path and what precedes it. *)
Definition Base (p : string) : string :=
  match filter (fun e => e ≠ "") (split_at slash p) with
  | [] => if bool_decide (p = "") then "." else "/"
  | l => List.last l ""
  end.

Definition Dir (p : string) : string :=
  Clean (join "/" (removelast (split_at slash p)) +:+ (if bool_decide (length (split_at slash p) = 1%nat) then "" else "/")).

Example clean_ex :
  (Clean "/a/./b/../../c//d/", Clean "a/../../b", Clean "/../x", Clean "", Dir "/a/b", Dir "a", Base "/a/b/")
  = ("/c/d", "../b", "/x", ".", "/a", ".", "b").
Proof. vm_compute. reflexivity. Qed.
