(* ===== verification/Order.v ===== *)
(** Three-way comparisons as Go writes them (cmp.Compare, strings.Compare), what
    makes one a total order, and the combinations that keep it one:
    lexicographic pairs and lists, and pulling back along an injection. *)

From S2P Require Import Prelude.

(** ** Comparisons returning a negative, zero or positive number *)

(** [cmp.Compare] on integers *)
Definition Compare (a b : Z) : Z := if a <? b then -1 else if b <? a then 1 else 0.

(** The first comparison that is not zero. *)
Definition lex (c d : Z) : Z := if negb (c =? 0) then c else d.

Fixpoint list_cmp {A} (f : A → A → Z) (x y : list A) : Z :=
  match x, y with
  | [], [] => 0
  | [], _ :: _ => -1
  | _ :: _, [] => 1
  | a :: x', b :: y' => lex (f a b) (list_cmp f x' y')
  end.

(** [strings.Compare]: bytewise lexicographic order. *)
Definition strings_Compare : list Z → list Z → Z := list_cmp Compare.

Definition zlen {A} (l : list A) : Z := Z.of_nat (length l).

(** ** Orders *)

(** What a three-way comparison has to satisfy to be a total order on [A]. *)
Class CmpOrder {A} (f : A → A → Z) : Prop := {
  cmp_range x y : f x y = -1 ∨ f x y = 0 ∨ f x y = 1;
  cmp_swap x y : f y x = - f x y;
  cmp_zero x y : f x y = 0 ↔ x = y;
  cmp_le_trans x y z : f x y ≤ 0 → f y z ≤ 0 → f x z ≤ 0;
}.

#[export] Instance Compare_order : CmpOrder Compare.
Proof.
  split; intros; unfold Compare in *;
    repeat match goal with
           | |- context [?a <? ?b] => destruct (Z.ltb_spec a b)
           | H : context [?a <? ?b] |- _ => destruct (Z.ltb_spec a b)
           end; lia.
Qed.

Section lexicographic.
Context {A} (f : A → A → Z) `{!CmpOrder f}.

Lemma cmp_refl x : f x x = 0.
Proof. by apply cmp_zero. Qed.

(** A comparison that is strict on one side stays strict. *)
Lemma cmp_lt_le x y z : f x y < 0 → f y z ≤ 0 → f x z < 0.
Proof.
  intros H1 H2. assert (f x z ≤ 0) by (apply (cmp_le_trans x y z); lia).
  destruct (Z.eq_dec (f x z) 0) as [E|]; [|lia]. apply (cmp_zero (f := f)) in E. subst z.
  rewrite (cmp_swap (f := f) x y) in H2. lia.
Qed.

Lemma cmp_le_lt x y z : f x y ≤ 0 → f y z < 0 → f x z < 0.
Proof.
  intros H1 H2. assert (f x z ≤ 0) by (apply (cmp_le_trans x y z); lia).
  destruct (Z.eq_dec (f x z) 0) as [E|]; [|lia]. apply (cmp_zero (f := f)) in E. subst z.
  rewrite (cmp_swap (f := f) x y) in H2. lia.
Qed.
End lexicographic.

Lemma lex_zero c d : lex c d = 0 ↔ c = 0 ∧ d = 0.
Proof. unfold lex. destruct (Z.eqb_spec c 0); simpl; lia. Qed.

Definition prod_cmp {A B} (f : A → A → Z) (g : B → B → Z) (x y : A * B) : Z := lex (f x.1 y.1) (g x.2 y.2).

(** The first component decides unless it ties. *)
Lemma lex_trans {A} (f : A → A → Z) `{!CmpOrder f} x y z d1 d2 d3 :
  (d1 ≤ 0 → d2 ≤ 0 → d3 ≤ 0) → lex (f x y) d1 ≤ 0 → lex (f y z) d2 ≤ 0 → lex (f x z) d3 ≤ 0.
Proof.
  intros Hd. unfold lex. destruct (Z.eqb_spec (f x y) 0) as [E1|E1], (Z.eqb_spec (f y z) 0) as [E2|E2]; simpl; intros H1 H2.
  - apply (cmp_zero (f := f)) in E1, E2. subst. rewrite (cmp_refl f). simpl. auto.
  - apply (cmp_zero (f := f)) in E1. subst. destruct (Z.eqb_spec (f y z) 0); simpl; lia.
  - apply (cmp_zero (f := f)) in E2. subst. destruct (Z.eqb_spec (f x z) 0); simpl; lia.
  - assert (f x z < 0) by (apply (cmp_lt_le f x y z); lia). destruct (Z.eqb_spec (f x z) 0); simpl; lia.
Qed.

#[export] Instance prod_order {A B} (f : A → A → Z) (g : B → B → Z) `{!CmpOrder f, !CmpOrder g} :
  CmpOrder (prod_cmp f g).
Proof.
  split; unfold prod_cmp.
  - intros x y. unfold lex. destruct (negb _); apply cmp_range.
  - intros x y. unfold lex. rewrite (cmp_swap (f := f) x.1 y.1), (cmp_swap (f := g) x.2 y.2).
    destruct (Z.eqb_spec (f x.1 y.1) 0), (Z.eqb_spec (- f x.1 y.1) 0); simpl; lia.
  - intros [x1 x2] [y1 y2]. rewrite lex_zero. simpl. rewrite !cmp_zero. split; [by intros [-> ->]|by intros [= -> ->]].
  - intros x y z. apply lex_trans; [done|]. apply cmp_le_trans.
Qed.

#[export] Instance list_order {A} (f : A → A → Z) `{!CmpOrder f} : CmpOrder (list_cmp f).
Proof.
  split.
  - intros x. induction x as [|a x IH]; intros [|b y]; simpl; try lia.
    unfold lex. destruct (negb _); [apply cmp_range|apply IH].
  - intros x. induction x as [|a x IH]; intros [|b y]; simpl; try lia.
    unfold lex. rewrite (cmp_swap (f := f) a b), IH. destruct (Z.eqb_spec (f a b) 0), (Z.eqb_spec (- f a b) 0); simpl; lia.
  - intros x. induction x as [|a x IH]; intros [|b y]; simpl; try (split; [lia|discriminate]); [done|].
    rewrite lex_zero, cmp_zero, IH. split; [by intros [-> ->]|by intros [= -> ->]].
  - intros x. induction x as [|a x IH]; intros [|b y] [|c z]; simpl; try lia.
    apply lex_trans; [done|]. apply IH.
Qed.

(** An order pulled back along an injection. *)
Lemma pullback_order {A B} (k : A → B) (f : B → B → Z) `{!CmpOrder f} `{!Inj (=) (=) k} :
  CmpOrder (fun x y => f (k x) (k y)).
Proof.
  split; intros.
  - apply cmp_range.
  - apply cmp_swap.
  - rewrite cmp_zero. split; [apply Inj0|by intros ->].
  - eapply cmp_le_trans; eassumption.
Qed.

Lemma CmpOrder_ext {A} (f g : A → A → Z) : (∀ x y, g x y = f x y) → CmpOrder f → CmpOrder g.
Proof.
  intros E O. split; intros; rewrite ?E in *.
  - apply cmp_range.
  - apply cmp_swap.
  - apply cmp_zero.
  - by eapply cmp_le_trans.
Qed.
