(* ===== verification/Lockout.v ===== *)
(** Per-account login lockout (hub/internal/lockout/lockout.go): the policy and
    how it is read from the configuration store, and the failure-counting state
    machine [NextState] that locks an account. *)

From S2P Require Import Prelude.

(** ** Policy *)

Definition KeyThreshold : string := "account.lockout_threshold".
Definition KeyWindowMinutes : string := "account.lockout_window_minutes".
Definition KeyDurationMinutes : string := "account.lockout_duration_minutes".
Definition KeyDormantDays : string := "account.dormant_days".
Definition KeySessionIdleMinutes : string := "account.session_idle_minutes".
Definition KeyCLISessionIdleMinutes : string := "account.cli_session_idle_minutes".
Definition KeySessionMaxHours : string := "account.session_max_hours".

Definition DefaultThreshold : Z := 5.
Definition DefaultWindow : Duration := 15 * Minute.
Definition DefaultDuration : Duration := 15 * Minute.
Definition DefaultDormantDays : Z := 35.
Definition DefaultSessionIdle : Duration := 15 * Minute.
Definition DefaultCLISessionIdle : Duration := 45 * Minute.
Definition MaxCLISessionIdleMinutes : Z := int64_max / Minute.
Definition DefaultSessionMax : Duration := 12 * Hour.

(** 9999-12-31 00:00:00 UTC, 3652058 days after 0001-01-01. *)
Definition NoAutoUnlock : Time := 3652058 * 24 * Hour.

Record Policy := mkPolicy {
  Threshold : Z;
  Window : Duration;
  LockDuration : Duration;
  DormantDays : Z;
  SessionIdle : Duration;
  CLISessionIdle : Duration;
  SessionMax : Duration;
}.

Definition Defaults : Policy :=
  {| Threshold := DefaultThreshold;
     Window := DefaultWindow;
     LockDuration := DefaultDuration;
     DormantDays := DefaultDormantDays;
     SessionIdle := DefaultSessionIdle;
     CLISessionIdle := DefaultCLISessionIdle;
     SessionMax := DefaultSessionMax |}.

Definition loadInt (get : string → result string) (key : string) (def : Z) : Z :=
  match get key with
  | Err _ => def
  | Ok raw =>
      match Atoi (TrimSpace_runes raw) with
      | None => def
      | Some parsed => if parsed <? 0 then def else parsed
      end
  end.

(** The products [time.Duration(n) * time.Minute] are 64-bit and wrap. *)
Definition Load (get : string → result string) : Policy :=
  let cliMinutes := loadInt get KeyCLISessionIdleMinutes (DefaultCLISessionIdle / Minute) in
  let cliMinutes := if MaxCLISessionIdleMinutes <? cliMinutes
                    then DefaultCLISessionIdle / Minute else cliMinutes in
  {| Threshold := loadInt get KeyThreshold DefaultThreshold;
     Window := i64 (loadInt get KeyWindowMinutes (DefaultWindow / Minute) * Minute);
     LockDuration := i64 (loadInt get KeyDurationMinutes (DefaultDuration / Minute) * Minute);
     DormantDays := loadInt get KeyDormantDays DefaultDormantDays;
     SessionIdle := i64 (loadInt get KeySessionIdleMinutes (DefaultSessionIdle / Minute) * Minute);
     CLISessionIdle := i64 (cliMinutes * Minute);
     SessionMax := i64 (loadInt get KeySessionMaxHours (DefaultSessionMax / Hour) * Hour) |}.

(** Every error wraps [ErrInvalidPolicy] and names the offending field; the
    offending value, which the source appends, is left out of the text. *)
Definition ErrInvalidPolicy (field : string) : goerr :=
  ErrText ("invalid lockout policy: " +:+ field +:+ " must be >= 0").

Definition Validate (p : Policy) : result unit :=
  check! Threshold p <? 0, ErrInvalidPolicy "threshold";
  check! Window p <? 0, ErrInvalidPolicy "window";
  check! LockDuration p <? 0, ErrInvalidPolicy "duration";
  check! DormantDays p <? 0, ErrInvalidPolicy "dormant_days";
  check! SessionIdle p <? 0, ErrInvalidPolicy "session_idle";
  check! CLISessionIdle p <? 0, ErrInvalidPolicy "cli_session_idle";
  check! SessionMax p <? 0, ErrInvalidPolicy "session_max";
  Ok tt.

(** ** The failure-counting state machine *)

Record LockState := mkLockState {
  Count : Z;
  LastFailedAt : option Time;
  LockedUntil : option Time;
}.

Definition IsLocked (lockedUntil : option Time) (now : Time) : bool :=
  match lockedUntil with
  | Some u => Before now u
  | None => false
  end.

Definition nextCount (prev : LockState) (now : Time) (p : Policy) : Z :=
  match LastFailedAt prev with
  | Some last => if time_sub now last <=? Window p then i64 (Count prev + 1) else 1
  | None => 1
  end.

Definition NextState (prev : LockState) (now : Time) (p : Policy) : LockState * bool :=
  let count := nextCount prev now p in
  if (0 <? Threshold p) && (Threshold p <=? count) && negb (IsLocked (LockedUntil prev) now)
  then
    let until := if LockDuration p =? 0 then NoAutoUnlock else now + LockDuration p in
    (mkLockState count (Some now) (Some until), true)
  else (mkLockState count (Some now) (LockedUntil prev), false).

(** A run of failed credential checks at the given instants: the state after
    them and, for each, whether it was the one that locked. *)
Fixpoint failures (p : Policy) (st : LockState) (times : list Time) : LockState * list bool :=
  match times with
  | [] => (st, [])
  | t :: rest =>
      let '(st1, b) := NextState st t p in
      let '(st2, bs) := failures p st1 rest in
      (st2, b :: bs)
  end.

(** Consecutive failures no further apart than the window. *)
Fixpoint within_window (w : Duration) (prev : Time) (times : list Time) : Prop :=
  match times with
  | [] => True
  | t :: rest => time_sub t prev ≤ w ∧ within_window w t rest
  end.

Definition fresh : LockState := mkLockState 0 None None.

(** When the lock taken at [now] ends. *)
Definition lock_expiry (p : Policy) (now : Time) : Time :=
  if LockDuration p =? 0 then NoAutoUnlock else now + LockDuration p.

(** The minutes or hours each key is read as. *)
Definition loadedInts (get : string → result string) : list (Z * Duration) :=
  [(loadInt get KeyWindowMinutes (DefaultWindow / Minute), Minute);
   (loadInt get KeyDurationMinutes (DefaultDuration / Minute), Minute);
   (loadInt get KeySessionIdleMinutes (DefaultSessionIdle / Minute), Minute);
   (loadInt get KeySessionMaxHours (DefaultSessionMax / Hour), Hour)].

(** ** Lemmas *)

Lemma loadInt_nonneg get key def : 0 ≤ def → 0 ≤ loadInt get key def.
Proof.
  intros Hd. unfold loadInt. destruct (get key); [|done].
  destruct (Atoi _) as [z|]; [|done]. destruct (Z.ltb_spec z 0); lia.
Qed.

Lemma NextState_below p st t :
  (Threshold p ≤ 0 ∨ nextCount st t p < Threshold p ∨ IsLocked (LockedUntil st) t = true) →
  NextState st t p = (mkLockState (nextCount st t p) (Some t) (LockedUntil st), false).
Proof.
  intros H. unfold NextState.
  destruct (Z.ltb_spec 0 (Threshold p)), (Z.leb_spec (Threshold p) (nextCount st t p)),
    (IsLocked (LockedUntil st) t) eqn:E; simpl; try done; intuition (lia || congruence).
Qed.

Lemma NextState_locks p st t :
  0 < Threshold p → Threshold p ≤ nextCount st t p →
  IsLocked (LockedUntil st) t = false →
  NextState st t p = (mkLockState (nextCount st t p) (Some t) (Some (lock_expiry p t)), true).
Proof.
  intros H1 H2 H3. unfold NextState, lock_expiry. rewrite H3.
  rewrite (proj2 (Z.ltb_lt _ _) H1), (proj2 (Z.leb_le _ _) H2). done.
Qed.

Lemma nextCount_within p st prev t :
  LastFailedAt st = Some prev → time_sub t prev ≤ Window p →
  0 ≤ Count st < int64_max → nextCount st t p = Count st + 1.
Proof.
  intros Hl Hw Hc. unfold nextCount. rewrite Hl, (proj2 (Z.leb_le _ _) Hw).
  apply i64_id. unfold int64_min, int64_max in *. lia.
Qed.

(** The general form of the counting argument: from a state whose last failure
    is recent, [length times] more failures inside the window stay below the
    threshold and only move the counter. *)
Lemma failures_counting p times st prev :
  LastFailedAt st = Some prev → within_window (Window p) prev times →
  0 ≤ Count st → Count st + Z.of_nat (length times) < Threshold p →
  Threshold p ≤ int64_max →
  failures p st times =
    (mkLockState (Count st + Z.of_nat (length times)) (Some (List.last times prev)) (LockedUntil st),
     replicate (length times) false).
Proof.
  revert st prev. induction times as [|t times IH]; intros st prev Hl Hw H0 Hn Hm.
  - simpl. destruct st; simpl in *. rewrite Z.add_0_r. by subst.
  - cbn [failures]. destruct Hw as [Hw Hws]. cbn [length] in *.
    rewrite NextState_below.
    2:{ right; left. rewrite (nextCount_within _ _ prev) by (done || lia). lia. }
    rewrite (nextCount_within _ _ prev) by (done || lia).
    rewrite (IH _ t); cbn [LastFailedAt Count LockedUntil]; [|done|done|lia|lia|lia].
    rewrite last_cons. cbn [replicate]. f_equal. f_equal. lia.
Qed.

Lemma failures_snoc p st times t :
  failures p st (times ++ [t]) =
    let '(s1, b1) := failures p st times in
    let '(s2, b2) := NextState s1 t p in (s2, b1 ++ [b2]).
Proof.
  revert st. induction times as [|x times IH]; intros st; simpl.
  - by destruct (NextState st t p).
  - destruct (NextState st x p) as [s b]. rewrite IH.
    destruct (failures p s times) as [s1 b1]. by destruct (NextState s1 t p).
Qed.

Lemma within_window_snoc w prev times t :
  within_window w prev (times ++ [t]) ↔
  within_window w prev times ∧ time_sub t (List.last times prev) ≤ w.
Proof.
  revert prev. induction times as [|x times IH]; intros prev; cbn [app within_window].
  - simpl. tauto.
  - rewrite IH, last_cons. tauto.
Qed.

(** ** Properties *)

(** "N consecutive failures inside a window lock the account for D
    minutes", for a whole run of failures: starting from a clean account, with
    each failure no later than the window after the previous one, the first
    [N-1] failures leave the account unlocked and the N-th locks it until its
    own time plus the policy duration (or [NoAutoUnlock] for a zero duration). *)
Theorem threshold_failures_lock (p : Policy) (t0 : Time) (times : list Time)
    (Hthr : 0 < Threshold p ≤ int64_max)
    (Hwin : within_window (Window p) t0 times)
    (Hlen : Z.of_nat (length (t0 :: times)) = Threshold p) :
  let tN := List.last times t0 in
  failures p fresh (t0 :: times) =
    (mkLockState (Threshold p) (Some tN) (Some (lock_expiry p tN)),
     replicate (length times) false ++ [true]).
Proof.
  destruct times as [|t1 rest _] using rev_ind; intros tN; cbn [failures].
  { simpl in Hlen. rewrite NextState_locks by (cbn; done || lia).
    cbn. by replace (Threshold p) with 1 by lia. }
  rewrite length_cons, length_app in Hlen. simpl in Hlen.
  apply within_window_snoc in Hwin as [Hw1 Hw2].
  rewrite NextState_below by (right; left; cbn; lia). cbn [nextCount LastFailedAt fresh].
  rewrite failures_snoc, (failures_counting _ _ _ t0) by (simpl; done || lia). simpl.
  assert (Hc : ∀ lu, nextCount (mkLockState (1 + Z.of_nat (length rest))
                 (Some (List.last rest t0)) lu) t1 p = Threshold p).
  { intros lu. rewrite (nextCount_within _ _ (List.last rest t0)) by (simpl; done || lia).
    simpl. lia. }
  rewrite NextState_locks by (simpl; rewrite ?Hc; done || lia).
  rewrite Hc. subst tN. rewrite last_last, length_app, replicate_add. simpl.
  by rewrite <- replicate_cons_app.
Qed.

Lemma threshold_failures_lock_witness :
  let p := mkPolicy 3 (15 * Minute) (15 * Minute) 0 0 0 0 in
  failures p fresh [0; Minute; 10 * Minute] =
    (mkLockState 3 (Some (10 * Minute)) (Some (25 * Minute)), [false; false; true]).
Proof.
  intros p.
  exact (threshold_failures_lock p 0 [Minute; 10 * Minute]
           ltac:(unfold p, int64_max; simpl; lia)
           ltac:(vm_compute; repeat split; discriminate)
           ltac:(reflexivity)).
Defined.

(** "An attempt during a lock never extends it": whatever failures are
    recorded while the lock is active, however many and under whatever policy
    threshold, none of them locks again and the expiry does not move. *)
Theorem failures_during_lock (p : Policy) (st : LockState) (u : Time) (times : list Time)
    (Hlock : LockedUntil st = Some u)
    (Hin : Forall (fun t => t < u) times) :
  LockedUntil (failures p st times).1 = Some u ∧
  (failures p st times).2 = replicate (length times) false.
Proof.
  revert st Hlock. induction Hin as [|t times Ht Hts IH]; intros st Hlock; simpl; [done|].
  rewrite NextState_below.
  2:{ right; right. rewrite Hlock. simpl. by apply Z.ltb_lt. }
  specialize (IH (mkLockState (nextCount st t p) (Some t) (LockedUntil st)) Hlock).
  destruct (failures p _ times) as [s bs]. simpl in *. destruct IH as [-> ->]. done.
Qed.

Lemma failures_during_lock_witness :
  let p := mkPolicy 1 Minute Minute 0 0 0 0 in
  let st := mkLockState 9 (Some 0) (Some 100) in
  LockedUntil (failures p st [10; 20; 30]).1 = Some 100 ∧
  (failures p st [10; 20; 30]).2 = [false; false; false].
Proof.
  intros p st.
  apply (failures_during_lock p st 100 [10; 20; 30]); [reflexivity|].
  repeat constructor.
Defined.

Lemma i64_nonneg_product n u : 0 ≤ n → 0 < u → n ≤ int64_max / u → 0 ≤ i64 (n * u).
Proof.
  intros Hn Hu Hb. rewrite i64_id; [nia|].
  pose proof (Z.mul_div_le int64_max u Hu). unfold int64_min. nia.
Qed.

(** The policy read from the configuration satisfies [Validate] whenever
    the four configured window, duration, idle and lifetime values fit in a
    64-bit number of nanoseconds; the CLI idle limit, the threshold and the
    dormancy days need no such hypothesis. *)
Theorem load_validates (get : string → result string)
    (Hfit : Forall (fun c : Z * Duration => c.1 ≤ int64_max / c.2) (loadedInts get)) :
  Validate (Load get) = Ok tt.
Proof.
  unfold loadedInts in Hfit. rewrite !Forall_cons in Hfit. destruct Hfit as (H1 & H2 & H3 & H4 & _). simpl in *.
  assert (Hnn : ∀ k d, 0 ≤ d → 0 ≤ loadInt get k d) by (intros; by apply loadInt_nonneg).
  assert (Hcli : let c := loadInt get KeyCLISessionIdleMinutes (DefaultCLISessionIdle / Minute) in
    0 ≤ i64 ((if MaxCLISessionIdleMinutes <? c then DefaultCLISessionIdle / Minute else c) * Minute)).
  { intros c. apply i64_nonneg_product; [|done|].
    - destruct (_ <? _); [done|]. by apply Hnn.
    - destruct (Z.ltb_spec MaxCLISessionIdleMinutes c); [done|]. done. }
  unfold Validate, Load; cbn [Threshold Window LockDuration DormantDays SessionIdle
    CLISessionIdle SessionMax].
  rewrite !(proj2 (Z.ltb_ge _ _)); try done;
    first [by apply Hnn | apply i64_nonneg_product; [by apply Hnn | done | done] | exact Hcli].
Qed.

Lemma load_validates_witness :
  Validate (Load (fun _ => Err (Sentinel "ErrNoRows"))) = Ok tt.
Proof.
  apply load_validates. repeat constructor; vm_compute; discriminate.
Defined.

(** The documented totality promise of [Load] ("the returned Policy always
    satisfies Validate") fails: 153722868 configured window minutes wrap to a
    negative window, which [Validate] rejects. *)
Theorem load_window_overflow :
  let get := fun key => if bool_decide (key = KeyWindowMinutes)
                        then Ok "153722868" else Err (Sentinel "ErrNoRows") in
  Window (Load get) < 0 ∧ Validate (Load get) = Err (ErrInvalidPolicy "window").
Proof. vm_compute. done. Qed.
