(* ===== verification/Model.v ===== *)
(** The hub's data types (hub/internal/model): users, sessions and the
    governance records, with the small methods the source defines on them.
    Record fields carry a short prefix because the projections of one Rocq
    library share a name space; roles, providers and states are the strings the
    source stores. *)

From S2P Require Import Prelude.

(** ** Roles and users (user.go, session.go) *)

Abbreviation Role := string (only parsing).
Definition RoleAdmin : Role := "admin".
Definition RoleAuditor : Role := "auditor".
Definition RoleViewer : Role := "viewer".
Definition AuthProviderLocal : string := "local".
Definition AuthProviderLDAP : string := "ldap".

Definition IsValidRole (role : Role) : bool :=
  bool_decide (role = RoleAdmin) || bool_decide (role = RoleAuditor)
  || bool_decide (role = RoleViewer).

Record User := mkUser {
  u_ID : string;
  u_Username : string;
  u_Email : string;
  u_PasswordHash : string;
  u_Role : Role;
  u_AuthProvider : string;
  u_ExternalID : string;
  u_LDAPDN : string;
  u_LDAPUsername : string;
  u_LDAPLastSyncAt : option Time;
  u_TerminalAccess : bool;
  u_TOTPSecret : option string;
  u_TOTPEnabled : bool;
  u_TokenGeneration : Z;
  u_Protected : bool;
  u_SecurityRevision : Z;
  u_SSHCredentialGeneration : Z;
  u_Roles : list Role;
  u_Capabilities : list string;
  u_PersonID : string;
  u_Avatar : option string;
  u_MustChangePassword : bool;
  u_TempPasswordExpiresAt : option Time;
  u_FailedLoginCount : Z;
  u_LastFailedLoginAt : option Time;
  u_LastLoginAt : option Time;
  u_LockedUntil : option Time;
  u_DisabledAt : option Time;
  u_DisabledBy : option string;
  u_ReactivatedAt : option Time;
  u_DormancyExempt : bool;
  u_LastActivityAt : option Time;
  u_Status : string;
  u_CreatedAt : Time;
  u_UpdatedAt : Time;
}.

Definition SessionKindWeb : string := "web".
Definition SessionKindCLI : string := "cli".
Definition SessionEndExpiredIdle : string := "expired_idle".
Definition SessionEndExpiredAbsolute : string := "expired_absolute".

Record Session := mkSession {
  s_ID : string;
  s_UserID : string;
  s_Kind : string;
  s_IP : string;
  s_UserAgent : string;
  s_CreatedAt : Time;
  s_LastSeenAt : Time;
  s_ExpiresAt : option Time;
  s_IdleDeadlineAt : option Time;
  s_EndedAt : option Time;
  s_EndReason : string;
  s_EndedBy : option string;
  s_Current : bool;
  s_Server : string;
  s_StartedAt : option Time;
  s_LastActivityAt : option Time;
}.

(** ** Governance records (security.go) *)

Definition RoleSecurityOfficer : Role := "security-officer".
Definition RoleSecurityApprover : Role := "security-approver".
Definition RoleOriginalReader : Role := "original-reader".

Definition IsSecurityRole (role : Role) : bool :=
  bool_decide (role = RoleSecurityOfficer) || bool_decide (role = RoleSecurityApprover)
  || bool_decide (role = RoleOriginalReader).

Record EffectiveCapabilities := mkEffective {
  e_UserID : string;
  e_PersonID : string;
  e_Roles : list Role;
  e_Capabilities : list string;
}.

Definition Can (e : EffectiveCapabilities) (capability : string) : bool :=
  existsb (fun c => bool_decide (c = capability)) (e_Capabilities e).

Record AuditPolicy := mkAuditPolicy {
  ap_Profile : string;
  ap_Actors : list string;
  ap_Nodes : list string;
  ap_RuntimeSeconds : Z;
  ap_RetentionHours : Z;
  ap_Destination : string;
  ap_CredentialRef : string;
  ap_TrustKeyIDs : list string;
  ap_QualificationSHA256 : string;
}.

Definition Covers (p : AuditPolicy) (actor node : string) : bool :=
  if negb (bool_decide (ap_Profile p = "enhanced")) then false
  else if bool_decide (ap_Actors p = []) && bool_decide (ap_Nodes p = []) then true
  else existsb (fun id => bool_decide (id = actor)) (ap_Actors p)
       || existsb (fun id => bool_decide (id = node)) (ap_Nodes p).

Record ExecutionPolicy := mkExecutionPolicy {
  xp_Version : Z;
  xp_SHA256 : string;
  xp_Enhanced : bool;
  xp_RuntimeSeconds : Z;
  xp_RecoveryRequired : bool;
}.

Record PolicyVersion := mkPolicyVersion {
  pv_Version : Z;
  pv_Policy : AuditPolicy;
  pv_SHA256 : string;
  pv_RequestID : string;
}.

Record PolicyState := mkPolicyState {
  ps_Active : PolicyVersion;
  ps_Pending : option PolicyVersion;
  ps_State : string;
  ps_Previous : option PolicyVersion;
  ps_PendingChange : string;
}.

Record SecurityNomination := mkNomination {
  n_UserID : string;
  n_PersonID : string;
  n_Roles : list Role;
  n_Verification : string;
}.

Record SecurityRoleChange := mkRoleChange {
  rc_UserID : string;
  rc_Role : Role;
  rc_Grant : bool;
}.

Record SecurityPersonChange := mkPersonChange {
  pc_UserID : string;
  pc_PersonID : string;
  pc_Verification : string;
}.

Record SecurityRecovery := mkRecovery {
  rv_UserID : string;
  rv_Operation : string;
  rv_SecretRef : string;
  rv_PreparedPasswordHash : string;
}.

(** The LDAP settings fields the validation and preparation code reads. *)
Record SecurityLDAPSettings := mkLDAPSettings {
  ld_Enabled : bool;
  ld_URL : string;
  ld_BindCredentialRef : string;
  ld_ClearBindPassword : bool;
  ld_StartTLS : bool;
  ld_CACertPEM : string;
}.

Record AuditSettings := mkAuditSettings {
  as_RetentionDays : Z;
  as_ReviewReminderDays : Z;
  as_PasswordHistoryCount : Z;
  as_TemporaryPasswordTTLHours : Z;
  as_LoginFailuresPerHour : Z;
  as_RegistrationFailuresPerHour : Z;
  as_PrivilegedActionsPerHour : Z;
}.

Record SecurityChangePayload := mkPayload {
  cp_Kind : string;
  cp_Policy : option AuditPolicy;
  cp_Nominations : list SecurityNomination;
  cp_Role : option SecurityRoleChange;
  cp_Person : option SecurityPersonChange;
  cp_AuditSettings : option AuditSettings;
  cp_LDAP : option SecurityLDAPSettings;
  cp_PreparedConfig : list (string * string);
  cp_Recovery : option SecurityRecovery;
}.

Record SecurityApproval := mkApproval {
  a_UserID : string;
  a_PersonID : string;
  a_ProofSHA256 : string;
  a_ApprovedAt : Time;
  a_TokenGeneration : Z;
  a_InvalidatedAt : option Time;
}.

Record SecurityChange := mkChange {
  c_ID : string;
  c_Revision : Z;
  c_RequesterID : string;
  c_RequesterPersonID : string;
  c_ApplierID : string;
  c_ApplierPersonID : string;
  c_ApplierRevision : Z;
  c_RequesterGeneration : Z;
  c_ExpectedVersion : Z;
  c_Digest : string;
  c_Reason : string;
  c_Payload : string;
  c_ApprovedBytes : string;
  c_State : string;
  c_CreatedAt : Time;
  c_ExpiresAt : Time;
  c_Approvals : list SecurityApproval;
  c_IntentRef : string;
  c_CommitRef : string;
  c_ResultRef : string;
}.

(** ** Lemmas *)

Lemma Can_iff e cap : Can e cap = true ↔ cap ∈ e_Capabilities e.
Proof.
  unfold Can. rewrite existsb_exists, list_elem_of_In. split.
  - intros (x & Hx & E). bool_hyps. by subst.
  - intros H. exists cap. split; [done|]. by apply bool_decide_eq_true.
Qed.
