(* ===== verification/Account.v ===== *)
(** The derived account status (hub/internal/account/account.go): dormancy, the
    precedence disabled > dormant > locked > active, and the refusal it means
    at every access path. *)

From S2P Require Import Prelude Lockout Model.

Inductive Status := StatusActive | StatusLocked | StatusDisabled | StatusDormant.

Definition MsgDisabled : string := "account disabled — contact an administrator".
Definition MsgDormant : string := "account dormant — contact an administrator".

Record Input := mkInput {
  in_DisabledAt : option Time;
  in_LockedUntil : option Time;
  in_LastActivityAt : option Time;
  in_ReactivatedAt : option Time;
  in_CreatedAt : Time;
  in_DormancyExempt : bool;
}.

(** [if p != nil && p.After(latest) { latest = *p }] *)
Definition later (p : option Time) (latest : Time) : Time :=
  match p with
  | Some t => if After t latest then t else latest
  | None => latest
  end.

Definition LatestActivity (i : Input) : Time :=
  later (in_ReactivatedAt i) (later (in_LastActivityAt i) (in_CreatedAt i)).

(** [time.Duration(dormantDays)*24*time.Hour]: two 64-bit products. *)
Definition dormantLimit (dormantDays : Z) : Duration :=
  i64 (i64 (dormantDays * 24) * Hour).

Definition IsDormant (i : Input) (now : Time) (dormantDays : Z) : bool :=
  if in_DormancyExempt i || (dormantDays <=? 0) then false
  else dormantLimit dormantDays <? time_sub now (LatestActivity i).

Definition Evaluate (i : Input) (now : Time) (p : Policy) : Status :=
  if bool_decide (is_Some (in_DisabledAt i)) then StatusDisabled
  else if IsDormant i now (DormantDays p) then StatusDormant
  else if IsLocked (in_LockedUntil i) now then StatusLocked
  else StatusActive.

Definition Refusal (s : Status) : string * bool :=
  match s with
  | StatusDisabled => (MsgDisabled, true)
  | StatusDormant => (MsgDormant, true)
  | _ => ("", false)
  end.

Definition InputFromUser (u : User) : Input :=
  {| in_DisabledAt := u_DisabledAt u;
     in_LockedUntil := u_LockedUntil u;
     in_LastActivityAt := u_LastActivityAt u;
     in_ReactivatedAt := u_ReactivatedAt u;
     in_CreatedAt := u_CreatedAt u;
     in_DormancyExempt := u_DormancyExempt u |}.

(** ** Lemmas *)

Definition day : Duration := 24 * Hour.

Lemma later_max p t : later p t = match p with Some x => Z.max x t | None => t end.
Proof.
  destruct p as [x|]; simpl; [|done]. unfold After.
  destruct (Z.ltb_spec t x); lia.
Qed.

Lemma dormantLimit_exact d : 0 ≤ d ≤ 106751 → dormantLimit d = d * 24 * Hour.
Proof.
  intros Hd. unfold dormantLimit, Hour, Minute, Second.
  rewrite (i64_id (d * 24)); rewrite ?i64_id; unfold int64_min, int64_max; lia.
Qed.

Lemma IsDormant_iff i now d : in_DormancyExempt i = false → 0 < d ≤ 106751 →
  IsDormant i now d = true ↔ LatestActivity i + d * 24 * Hour < now.
Proof.
  intros He Hd. unfold IsDormant. rewrite He, (proj2 (Z.leb_gt _ _)) by lia. simpl.
  rewrite dormantLimit_exact by lia. rewrite time_sub_gt.
  - rewrite Z.ltb_lt. lia.
  - unfold Hour, Minute, Second, int64_max. lia.
  - unfold Hour, Minute, Second, int64_min. lia.
Qed.

(** ** Properties *)

(** The access decision behind [Evaluate] and [Refusal], for every dormancy
    setting that fits the duration range: an account is refused exactly when an
    administrator disabled it or, unless exempt or with dormancy off, when none
    of its creation, last activity and last reactivation is within the
    configured number of days of now.  Locks never refuse here. *)
Theorem refusal_exact (i : Input) (now : Time) (p : Policy)
    (Hdays : DormantDays p ≤ 106751) :
  (Refusal (Evaluate i now p)).2 = true ↔
  is_Some (in_DisabledAt i) ∨
  (in_DormancyExempt i = false ∧ 0 < DormantDays p ∧
   let deadline t := t + DormantDays p * 24 * Hour in
   deadline (in_CreatedAt i) < now ∧
   (∀ t, in_LastActivityAt i = Some t → deadline t < now) ∧
   (∀ t, in_ReactivatedAt i = Some t → deadline t < now)).
Proof.
  unfold Evaluate. case_bool_decide as Hdis; [simpl; tauto|].
  transitivity (IsDormant i now (DormantDays p) = true).
  { destruct (IsDormant i now (DormantDays p)), (IsLocked (in_LockedUntil i) now); simpl; done. }
  destruct (in_DormancyExempt i) eqn:He.
  { unfold IsDormant. rewrite He. simpl. naive_solver. }
  destruct (Z.leb_spec (DormantDays p) 0) as [Hd|Hd].
  { unfold IsDormant. rewrite (proj2 (Z.leb_le _ _) Hd), orb_true_r. naive_solver lia. }
  rewrite IsDormant_iff by (done || lia). unfold LatestActivity. rewrite !later_max.
  destruct (in_LastActivityAt i) as [x|], (in_ReactivatedAt i) as [y|];
    (split; [intros H; right; repeat split; try done; intros; simplify_eq; lia
            |intros [?|(_ & _ & H1 & H2 & H3)]; [done|];
             try specialize (H2 _ eq_refl); try specialize (H3 _ eq_refl); lia]).
Qed.

Lemma refusal_exact_witness :
  (Refusal (Evaluate (mkInput None None (Some (10 * day)) None 0 false) (46 * day) Defaults)).2
    = true.
Proof.
  apply (refusal_exact (mkInput None None (Some (10 * day)) None 0 false) (46 * day) Defaults).
  - vm_compute. discriminate.
  - right. repeat split; intros; simplify_eq/=; vm_compute; done.
Defined.

(** Beyond 106751 days the two 64-bit products wrap: with 106752 configured
    days an account used one nanosecond ago is already dormant, so the setting
    meant to relax dormancy refuses every non-exempt account. *)
Theorem dormancy_overflow (i : Input) (now : Time)
    (Hex : in_DormancyExempt i = false) (Hrec : LatestActivity i = now - 1) :
  dormantLimit 106752 < 0 ∧ IsDormant i now 106752 = true.
Proof.
  split; [done|]. unfold IsDormant. rewrite Hex, Hrec. simpl.
  replace (now - (now - 1)) with 1 by lia. unfold time_sub.
  replace (now - (now - 1)) with 1 by lia. done.
Qed.

Lemma dormancy_overflow_witness :
  dormantLimit 106752 < 0 ∧ IsDormant (mkInput None None None None 4 false) 5 106752 = true.
Proof. apply dormancy_overflow; reflexivity. Defined.
