(* ===== verification/Session.v ===== *)
(** The session verdict (hub/internal/session/session.go): is a stored session
    usable at an instant, and if not, why. *)

From S2P Require Import Prelude Lockout Model.

Definition MsgExpired : string := "session expired — sign in again".
Definition MsgEnded : string := "session ended — sign in again".

Record State := mkState {
  st_Kind : string;
  st_CreatedAt : Time;
  st_LastSeenAt : Time;
  st_ExpiresAt : option Time;
  st_EndedAt : option Time;
}.

Inductive Verdict := VerdictOK | VerdictEnded | VerdictExpiredIdle | VerdictExpiredAbsolute.
#[export] Instance Verdict_eq_dec : EqDecision Verdict.
Proof. solve_decision. Defined.

Definition verdict_string (v : Verdict) : string :=
  match v with
  | VerdictOK => "ok"
  | VerdictEnded => "ended"
  | VerdictExpiredIdle => SessionEndExpiredIdle
  | VerdictExpiredAbsolute => SessionEndExpiredAbsolute
  end.

Definition IdleTimeout (kind : string) (p : Policy) : Duration :=
  if bool_decide (kind = SessionKindCLI) then CLISessionIdle p else SessionIdle p.

Definition Evaluate (st : State) (now : Time) (p : Policy) : Verdict :=
  let idle := IdleTimeout (st_Kind st) p in
  if bool_decide (is_Some (st_EndedAt st)) then VerdictEnded
  else if match st_ExpiresAt st with Some e => negb (Before now e) | None => false end
  then VerdictExpiredAbsolute
  else if (0 <? idle) && (idle <? time_sub now (st_LastSeenAt st)) then VerdictExpiredIdle
  else VerdictOK.

Definition IdleDeadline (st : State) (p : Policy) : option Time :=
  let idle := IdleTimeout (st_Kind st) p in
  if idle <=? 0 then None else Some (st_LastSeenAt st + idle).

Definition Message (v : Verdict) : string :=
  match v with
  | VerdictEnded => MsgEnded
  | VerdictExpiredIdle | VerdictExpiredAbsolute => MsgExpired
  | VerdictOK => ""
  end.

Definition StateFromModel (s : Session) : State :=
  {| st_Kind := s_Kind s;
     st_CreatedAt := s_CreatedAt s;
     st_LastSeenAt := s_LastSeenAt s;
     st_ExpiresAt := s_ExpiresAt s;
     st_EndedAt := s_EndedAt s |}.

(** ** Lemmas *)

Lemma Evaluate_ok_iff st now p :
  Evaluate st now p = VerdictOK ↔
  st_EndedAt st = None ∧
  match st_ExpiresAt st with Some e => negb (Before now e) | None => false end = false ∧
  (0 <? IdleTimeout (st_Kind st) p)
    && (IdleTimeout (st_Kind st) p <? time_sub now (st_LastSeenAt st)) = false.
Proof.
  unfold Evaluate. rewrite eq_None_not_Some. case_bool_decide as He.
  { split; [discriminate|tauto]. }
  destruct (match st_ExpiresAt st with Some e => negb (Before now e) | None => false end).
  { split; [discriminate|]. by intros (_ & ? & _). }
  destruct (_ && _); split; try discriminate; auto. by intros (_ & _ & ?).
Qed.

Lemma absolute_live_iff st now :
  match st_ExpiresAt st with Some e => negb (Before now e) | None => false end = false ↔
  (∀ e, st_ExpiresAt st = Some e → now < e).
Proof.
  unfold Before. destruct (st_ExpiresAt st) as [e|]; [|intuition discriminate].
  rewrite negb_false_iff, Z.ltb_lt. split; [intros H ? [= <-]|]; auto.
Qed.

Lemma idle_live_iff st now p : IdleTimeout (st_Kind st) p < int64_max →
  (0 <? IdleTimeout (st_Kind st) p)
    && (IdleTimeout (st_Kind st) p <? time_sub now (st_LastSeenAt st)) = false ↔
  (∀ d, IdleDeadline st p = Some d → now ≤ d).
Proof.
  intros Hm. unfold IdleDeadline.
  destruct (Z.leb_spec (IdleTimeout (st_Kind st) p) 0) as [Hi|Hi].
  - rewrite (proj2 (Z.ltb_ge _ _) Hi). intuition discriminate.
  - rewrite (proj2 (Z.ltb_lt _ _) Hi). cbn [andb].
    rewrite time_sub_gt, Z.ltb_ge by (unfold int64_min; lia).
    split; [intros H d [= <-]; lia|intros H; specialize (H _ eq_refl); lia].
Qed.

(** ** Properties *)

(** The verdict agrees with the deadlines shown to the user: a session is
    usable exactly when it was not ended, its absolute expiry lies strictly
    ahead and the idle deadline has not been passed (reaching it is still in
    time).  The idle limit is any one the policy can express below the largest
    duration. *)
Theorem verdict_ok_iff_deadlines (st : State) (now : Time) (p : Policy)
    (Hidle : IdleTimeout (st_Kind st) p < int64_max) :
  Evaluate st now p = VerdictOK ↔
  st_EndedAt st = None ∧
  (∀ e, st_ExpiresAt st = Some e → now < e) ∧
  (∀ d, IdleDeadline st p = Some d → now ≤ d).
Proof. rewrite Evaluate_ok_iff, absolute_live_iff, idle_live_iff by done. done. Qed.

Lemma verdict_ok_iff_deadlines_witness :
  Evaluate (mkState "web" 0 0 (Some (12 * Hour)) None) (15 * Minute) Defaults = VerdictOK.
Proof.
  apply (verdict_ok_iff_deadlines (mkState "web" 0 0 (Some (12 * Hour)) None)).
  - reflexivity.
  - split; [reflexivity|]. split; intros ? H; injection H as <-; vm_compute; done.
Defined.

(** A refused session stays refused: without a change of its row, no later
    instant makes an ended or expired session usable again. *)
Theorem refusal_is_permanent (st : State) (now later : Time) (p : Policy)
    (Hle : now ≤ later) (Href : Evaluate st now p ≠ VerdictOK) :
  Evaluate st later p ≠ VerdictOK.
Proof.
  rewrite Evaluate_ok_iff in *. intros (H1 & H2 & H3). apply Href.
  split; [done|]. split.
  - rewrite absolute_live_iff in *. intros e He. specialize (H2 e He). lia.
  - unfold time_sub in *. apply andb_false_iff in H3 as [H3|H3]; apply andb_false_iff; [by left|].
    right. apply Z.ltb_ge in H3. apply Z.ltb_ge. lia.
Qed.

Lemma refusal_is_permanent_witness :
  Evaluate (mkState "cli" 0 0 None None) (Hour + Hour) Defaults ≠ VerdictOK.
Proof.
  apply (refusal_is_permanent _ Hour); [done|]. vm_compute. discriminate.
Defined.
