(* ===== verification/Budget.v ===== *)
(** The agent's session budget (agent/internal/sessionlimit/budget.go): one
    mutex-protected counter object shared by terminals, executions, file
    operations and the updater's maintenance lease.  Every method holds the
    mutex for its whole body, so each is one atomic operation here.

    The [release] closure returned by [AcquireActivity] guards its body with a
    [sync.Once]; it is represented by a token that is live until the closure is
    first called.  The observer is represented by its identity, and what was
    emitted to it by a log, most recent first. *)

From S2P Require Import Prelude.

Record Budget := mkBudget {
  b_used : Z;
  b_maximum : Z;
  b_maintenance : bool;
  b_activities : Z;
  b_observer : option nat;
  b_live : gset nat;            (* release closures not yet called *)
  b_next : nat;                 (* next closure or observer identity *)
  b_emitted : list (nat * Z);   (* what each observer received *)
}.

Definition MaxActivities : Z := 128.

Definition New (maximum : Z) : Budget := mkBudget 0 maximum false 0 None ∅ 0 [].

Definition notifyActivity (b : Budget) : Budget :=
  match b_observer b with
  | Some o => mkBudget (b_used b) (b_maximum b) (b_maintenance b) (b_activities b)
                (b_observer b) (b_live b) (b_next b) ((o, b_activities b) :: b_emitted b)
  | None => b
  end.

(** Returns the closure's token, or [None] when the activity is refused. *)
Definition AcquireActivity (b : Budget) : Budget * option nat :=
  if b_maintenance b || (MaxActivities <=? b_activities b) then (b, None)
  else
    let tok := b_next b in
    (notifyActivity
       (mkBudget (b_used b) (b_maximum b) (b_maintenance b) (u32 (b_activities b + 1))
          (b_observer b) ({[tok]} ∪ b_live b) (S tok) (b_emitted b)), Some tok).

(** Calling the closure [tok]; a second call does nothing. *)
Definition releaseActivity (b : Budget) (tok : nat) : Budget :=
  if decide (tok ∈ b_live b) then
    notifyActivity
      (mkBudget (b_used b) (b_maximum b) (b_maintenance b) (u32 (b_activities b - 1))
         (b_observer b) (b_live b ∖ {[tok]}) (b_next b) (b_emitted b))
  else b.

Definition ActivityCount (b : Budget) : Z := b_activities b.

(** Installs a new observer, emits the current count to it and returns it. *)
Definition ObserveActivities (b : Budget) : Budget * nat :=
  let o := b_next b in
  (notifyActivity
     (mkBudget (b_used b) (b_maximum b) (b_maintenance b) (b_activities b)
        (Some o) (b_live b) (S o) (b_emitted b)), o).

(** The closure [ObserveActivities] returned for observer [o]. *)
Definition stopObserving (b : Budget) (o : nat) : Budget :=
  if bool_decide (b_observer b = Some o) then
    mkBudget (b_used b) (b_maximum b) (b_maintenance b) (b_activities b)
      None (b_live b) (b_next b) (b_emitted b)
  else b.

Definition Acquire (b : Budget) : Budget * bool :=
  if b_maintenance b || (b_maximum b <=? b_used b) then (b, false)
  else (mkBudget (b_used b + 1) (b_maximum b) (b_maintenance b) (b_activities b)
          (b_observer b) (b_live b) (b_next b) (b_emitted b), true).

Definition TryMaintenance (b : Budget) : Budget * bool :=
  if b_maintenance b || negb (b_used b =? 0) || negb (b_activities b =? 0) then (b, false)
  else (mkBudget (b_used b) (b_maximum b) true (b_activities b)
          (b_observer b) (b_live b) (b_next b) (b_emitted b), true).

Definition EndMaintenance (b : Budget) : Budget :=
  mkBudget (b_used b) (b_maximum b) false (b_activities b)
    (b_observer b) (b_live b) (b_next b) (b_emitted b).

Definition Release (b : Budget) : Budget :=
  if 0 <? b_used b then
    mkBudget (b_used b - 1) (b_maximum b) (b_maintenance b) (b_activities b)
      (b_observer b) (b_live b) (b_next b) (b_emitted b)
  else b.

(** ** Sequences of operations *)

Inductive op :=
| OpAcquire | OpRelease | OpAcquireActivity | OpReleaseActivity (tok : nat)
| OpObserve | OpStopObserving (o : nat) | OpTryMaintenance | OpEndMaintenance.

Definition run_op (b : Budget) (o : op) : Budget :=
  match o with
  | OpAcquire => (Acquire b).1
  | OpRelease => Release b
  | OpAcquireActivity => (AcquireActivity b).1
  | OpReleaseActivity tok => releaseActivity b tok
  | OpObserve => (ObserveActivities b).1
  | OpStopObserving o => stopObserving b o
  | OpTryMaintenance => (TryMaintenance b).1
  | OpEndMaintenance => EndMaintenance b
  end.

Definition run (b : Budget) (ops : list op) : Budget := foldl run_op b ops.

(** Bounds, exact accounting of the outstanding closures, exclusivity of the
    maintenance lease, and agreement of the observer's last message. *)
Record budget_inv (b : Budget) : Prop := {
  inv_used : 0 ≤ b_used b ≤ Z.max 0 (b_maximum b);
  inv_activities : b_activities b = Z.of_nat (size (b_live b));
  inv_cap : b_activities b ≤ MaxActivities;
  inv_fresh : ∀ tok, tok ∈ b_live b → (tok < b_next b)%nat;
  inv_maintenance : b_maintenance b = true → b_used b = 0 ∧ b_activities b = 0;
  inv_observer : ∀ o, b_observer b = Some o → head (b_emitted b) = Some (o, b_activities b);
}.

(** ** What the budget promises its clients *)

(** A capacity of sessions as the execution manager sees it: a test-and-take,
    a give-back, and the number of slots in use. *)
Class SlotBudget (B : Type) := {
  slot_acquire : B → B * bool;
  slot_release : B → B;
  slots : B → Z;
  slot_ok : B → Prop;
  slot_acquire_ok b : slot_ok b → slot_ok (slot_acquire b).1;
  slot_release_ok b : slot_ok b → slot_ok (slot_release b);
  slots_nonneg b : slot_ok b → 0 ≤ slots b;
  slot_acquire_true b b' : slot_acquire b = (b', true) → slots b' = slots b + 1;
  slot_acquire_false b b' : slot_acquire b = (b', false) → slots b' = slots b;
  slot_release_slots b : slots (slot_release b) = Z.max 0 (slots b - 1) ∨ slots b < 0;
}.

(** ** Lemmas *)

Lemma notify_used b : b_used (notifyActivity b) = b_used b.
Proof. unfold notifyActivity. by destruct (b_observer b). Qed.

Lemma notify_inv b :
  0 ≤ b_used b ≤ Z.max 0 (b_maximum b) →
  b_activities b = Z.of_nat (size (b_live b)) → b_activities b ≤ MaxActivities →
  (∀ tok, tok ∈ b_live b → (tok < b_next b)%nat) →
  (b_maintenance b = true → b_used b = 0 ∧ b_activities b = 0) →
  budget_inv (notifyActivity b).
Proof.
  intros H1 H2 H3 H4 H5. unfold notifyActivity.
  destruct (b_observer b) as [o|] eqn:E; split; simpl; try done.
  - by intros ? [= <-].
  - by rewrite E.
Qed.

Lemma u32_small z : 0 ≤ z ≤ MaxActivities → u32 z = z.
Proof. unfold u32, MaxActivities. intros. apply Z.mod_small. lia. Qed.

Lemma run_op_inv b o : budget_inv b → budget_inv (run_op b o).
Proof.
  intros [H1 H2 H3 H4 H5 H6]. destruct o as [| | |tok| |o| |]; simpl.
  - unfold Acquire. destruct (b_maintenance b || _) eqn:E; [done|]. bool_hyps.
    apply Z.leb_gt in H0. split; simpl; try done; [lia|congruence].
  - unfold Release. destruct (Z.ltb_spec 0 (b_used b)); [|done].
    split; simpl; try done; [lia|]. intros Hm. apply H5 in Hm. lia.
  - unfold AcquireActivity. destruct (b_maintenance b || _) eqn:E; [done|]. bool_hyps.
    apply Z.leb_gt in H0. simpl. rewrite u32_small by lia.
    assert (b_next b ∉ b_live b) by (intros Hin; apply H4 in Hin; lia).
    apply notify_inv; simpl; try done; [|lia| |congruence].
    + rewrite size_union, size_singleton by set_solver. lia.
    + intros t [->%elem_of_singleton|Ht]%elem_of_union; [lia|]. apply H4 in Ht. lia.
  - unfold releaseActivity. destruct (decide (tok ∈ b_live b)) as [Hin|]; [|done].
    assert (Hs : size (b_live b) = S (size (b_live b ∖ {[tok]}))).
    { rewrite (union_difference_L {[tok]} (b_live b)) at 1 by set_solver.
      rewrite size_union, size_singleton by set_solver. lia. }
    rewrite u32_small by lia. apply notify_inv; simpl; try done; [lia|lia| |].
    + intros t Ht. apply H4. set_solver.
    + intros Hm. apply H5 in Hm. lia.
  - apply notify_inv; simpl; try done. intros t Ht. apply H4 in Ht. lia.
  - unfold stopObserving. case_bool_decide; [|done]. split; simpl; done.
  - unfold TryMaintenance. destruct (_ || _ || _) eqn:E; [done|]. bool_hyps.
    apply Z.eqb_eq in H0, H7. split; simpl; done.
  - split; simpl; try done.
Qed.

Lemma NewBudget_inv m : budget_inv (New m).
Proof. split; simpl; try done. lia. Qed.

Lemma run_inv b ops : budget_inv b → budget_inv (run b ops).
Proof.
  revert b. induction ops as [|o ops IH]; intros b H; simpl; [done|].
  apply IH. by apply run_op_inv.
Qed.

Lemma run_op_maximum b o : b_maximum (run_op b o) = b_maximum b.
Proof.
  destruct o; simpl;
    unfold Acquire, Release, AcquireActivity, releaseActivity, ObserveActivities,
      stopObserving, TryMaintenance, EndMaintenance, notifyActivity;
    repeat case_match; simplify_eq/=; done.
Qed.

Lemma run_maximum b ops : b_maximum (run b ops) = b_maximum b.
Proof.
  revert b. induction ops as [|o ops IH]; intros b; simpl; [done|].
  by rewrite IH, run_op_maximum.
Qed.

#[export] Program Instance Budget_slots : SlotBudget Budget := {|
  slot_acquire := Acquire;
  slot_release := Release;
  slots := b_used;
  slot_ok := budget_inv;
|}.
Next Obligation. intros b H. exact (run_op_inv b OpAcquire H). Qed.
Next Obligation. intros b H. exact (run_op_inv b OpRelease H). Qed.
Next Obligation. intros b [H _ _ _ _ _]. lia. Qed.
Next Obligation.
  intros b b'. unfold Acquire. destruct (_ || _); intros [= <-]. done.
Qed.
Next Obligation.
  intros b b'. unfold Acquire. destruct (_ || _); intros [= <-]. done.
Qed.
Next Obligation.
  intros b. unfold Release. destruct (Z.ltb_spec 0 (b_used b)); simpl; lia.
Qed.

(** ** Properties *)

(** Whatever sequence of operations the agent performs on a budget: the
    used sessions stay within the maximum, the activity count is exactly the
    number of release closures still outstanding and at most 128 (so the 32-bit
    counter neither overflows nor goes below zero, and calling a closure twice
    is harmless), a maintenance lease coexists with no session and no activity,
    and the installed observer's last message is the current count. *)
Theorem budget_safe (maximum : Z) (ops : list op) :
  let b := run (New maximum) ops in
  0 ≤ b_used b ≤ Z.max 0 maximum ∧
  ActivityCount b = Z.of_nat (size (b_live b)) ∧
  0 ≤ ActivityCount b ≤ MaxActivities ∧
  (b_maintenance b = true → b_used b = 0 ∧ ActivityCount b = 0) ∧
  (∀ o, b_observer b = Some o → head (b_emitted b) = Some (o, ActivityCount b)).
Proof.
  intros b.
  assert (Hm : b_maximum b = maximum) by apply run_maximum.
  destruct (run_inv _ ops (NewBudget_inv maximum)) as [H1 H2 H3 _ H5 H6]. fold b in H1, H2, H3, H5, H6.
  rewrite Hm in H1. unfold ActivityCount. repeat split; try done; try lia; by apply H5.
Qed.
