(* ===== verification/ConnMgr.v ===== *)
(** The hub's agent connection manager (hub/internal/connmgr: connmgr.go and
    activities.go): connection generations and their retirement, the ordered
    send path, the accounting of remote activities and the maintenance
    reservation.

    A connection pointer is identified by its allocation number together with
    the fields that never change after construction; what does change (the
    closed [done] channel, the last-seen time) is part of the manager's state.
    The mutex [cm.mu] is held for the whole body of each operation below unless
    its comment says otherwise; the per-connection mutexes [GenerationMu] and
    [DeliveryMu], which are held across network I/O and callbacks, are state. *)

From S2P Require Import Prelude.

(** ** Data *)

Record AgentConn := mkConn {
  ac_ptr : nat;
  ac_ServerID : string;
  ac_Stream : nat;
  ac_GenerationID : string;
}.

#[export] Instance AgentConn_eq_dec : EqDecision AgentConn.
Proof. solve_decision. Defined.

#[export] Instance AgentConn_countable : Countable AgentConn.
Proof.
  refine (inj_countable' (fun c => (ac_ptr c, ac_ServerID c, ac_Stream c, ac_GenerationID c))
            (fun t => let '(a, b, s, g) := t in mkConn a b s g) _).
  by intros [].
Defined.

Abbreviation ActivityKind := string (only parsing).
Definition ActivityList : ActivityKind := "file-list".
Definition ActivityRead : ActivityKind := "file-read".
Definition ActivityDelete : ActivityKind := "file-delete".
Definition ActivityUpload : ActivityKind := "upload".
Definition ActivityLog : ActivityKind := "log".
Definition ActivityApplication : ActivityKind := "application".

Definition MaxNodeActivities : Z := 128.
Definition MaxActivities : Z := 4096.
Definition ErrActivityBusy : goerr := Sentinel "ErrActivityBusy".
Definition ErrActivityCapacity : goerr := Sentinel "ErrActivityCapacity".

(** [activityKey{connection, id, kind}] *)
Abbreviation activityKey := (AgentConn * string * string)%type.
Definition key_conn (k : activityKey) : AgentConn := k.1.1.
Definition key_node (k : activityKey) : string := ac_ServerID (key_conn k).

Record activityRecord := mkActivity { dispatched : bool; abandoned : bool }.

(** The payloads of [pb.HubMessage] the manager distinguishes. *)
Inductive HubMessage :=
| FileListRequest (id : string)
| FileReadRequest (id : string)
| FileDeleteRequest (id : string)
| FileUploadRequest (id filename : string)
| LogStreamRequest (id : string)
| ApplicationOpen (connectionId : string)
| TerminalOpenRequest
| ExecutionPrepareMsg
| ExecutionAttachMsg
| OtherHubMessage.

(** The agent responses that can complete an activity. *)
Inductive AgentResponse :=
| FileListResponse (id : string)
| FileReadResponse (id : string)
| FileDeleteResponse (id : string)
| FileUploadAck (id : string)
| LogStreamChunk (id : string) (done : bool)
| ApplicationClosed (connectionId : string)
| OtherResponse.

Record ConnManager := mkCM {
  cm_streams : gmap string AgentConn;
  cm_retiring : gmap string AgentConn;
  cm_maintenance : gmap string string;
  cm_activities : gmap activityKey activityRecord;
  cm_uncertain : gset string;
  cm_activityNodes : gmap string Z;
  cm_activityCounts : gmap AgentConn Z;
  cm_lastSeen : gmap AgentConn Time;
  cm_closed : gset AgentConn;       (* connections whose done channel is closed *)
  cm_sending : gset AgentConn;      (* holders of GenerationMu: an admitted send *)
  cm_delivering : gset AgentConn;   (* holders of DeliveryMu: a running callback *)
  cm_registered : gset AgentConn;   (* connections Register has returned *)
}.

Definition set_streams cm v := mkCM v (cm_retiring cm) (cm_maintenance cm) (cm_activities cm) (cm_uncertain cm) (cm_activityNodes cm) (cm_activityCounts cm) (cm_lastSeen cm) (cm_closed cm) (cm_sending cm) (cm_delivering cm) (cm_registered cm).
Definition set_retiring cm v := mkCM (cm_streams cm) v (cm_maintenance cm) (cm_activities cm) (cm_uncertain cm) (cm_activityNodes cm) (cm_activityCounts cm) (cm_lastSeen cm) (cm_closed cm) (cm_sending cm) (cm_delivering cm) (cm_registered cm).
Definition set_maintenance cm v := mkCM (cm_streams cm) (cm_retiring cm) v (cm_activities cm) (cm_uncertain cm) (cm_activityNodes cm) (cm_activityCounts cm) (cm_lastSeen cm) (cm_closed cm) (cm_sending cm) (cm_delivering cm) (cm_registered cm).
Definition set_activities cm v := mkCM (cm_streams cm) (cm_retiring cm) (cm_maintenance cm) v (cm_uncertain cm) (cm_activityNodes cm) (cm_activityCounts cm) (cm_lastSeen cm) (cm_closed cm) (cm_sending cm) (cm_delivering cm) (cm_registered cm).
Definition set_uncertain cm v := mkCM (cm_streams cm) (cm_retiring cm) (cm_maintenance cm) (cm_activities cm) v (cm_activityNodes cm) (cm_activityCounts cm) (cm_lastSeen cm) (cm_closed cm) (cm_sending cm) (cm_delivering cm) (cm_registered cm).
Definition set_nodes cm v := mkCM (cm_streams cm) (cm_retiring cm) (cm_maintenance cm) (cm_activities cm) (cm_uncertain cm) v (cm_activityCounts cm) (cm_lastSeen cm) (cm_closed cm) (cm_sending cm) (cm_delivering cm) (cm_registered cm).
Definition set_counts cm v := mkCM (cm_streams cm) (cm_retiring cm) (cm_maintenance cm) (cm_activities cm) (cm_uncertain cm) (cm_activityNodes cm) v (cm_lastSeen cm) (cm_closed cm) (cm_sending cm) (cm_delivering cm) (cm_registered cm).
Definition set_lastSeen cm v := mkCM (cm_streams cm) (cm_retiring cm) (cm_maintenance cm) (cm_activities cm) (cm_uncertain cm) (cm_activityNodes cm) (cm_activityCounts cm) v (cm_closed cm) (cm_sending cm) (cm_delivering cm) (cm_registered cm).
Definition set_closed cm v := mkCM (cm_streams cm) (cm_retiring cm) (cm_maintenance cm) (cm_activities cm) (cm_uncertain cm) (cm_activityNodes cm) (cm_activityCounts cm) (cm_lastSeen cm) v (cm_sending cm) (cm_delivering cm) (cm_registered cm).
Definition set_sending cm v := mkCM (cm_streams cm) (cm_retiring cm) (cm_maintenance cm) (cm_activities cm) (cm_uncertain cm) (cm_activityNodes cm) (cm_activityCounts cm) (cm_lastSeen cm) (cm_closed cm) v (cm_delivering cm) (cm_registered cm).
Definition set_delivering cm v := mkCM (cm_streams cm) (cm_retiring cm) (cm_maintenance cm) (cm_activities cm) (cm_uncertain cm) (cm_activityNodes cm) (cm_activityCounts cm) (cm_lastSeen cm) (cm_closed cm) (cm_sending cm) v (cm_registered cm).
Definition set_registered cm v := mkCM (cm_streams cm) (cm_retiring cm) (cm_maintenance cm) (cm_activities cm) (cm_uncertain cm) (cm_activityNodes cm) (cm_activityCounts cm) (cm_lastSeen cm) (cm_closed cm) (cm_sending cm) (cm_delivering cm) v.

Definition New : ConnManager := mkCM ∅ ∅ ∅ ∅ ∅ ∅ ∅ ∅ ∅ ∅ ∅ ∅.

(** ** Reads *)

Definition conn_done (cm : ConnManager) (c : AgentConn) : bool := bool_decide (c ∈ cm_closed cm).

(** [c.Close()]: closing twice is harmless ([closeOnce]). *)
Definition Close (cm : ConnManager) (c : AgentConn) : ConnManager :=
  set_closed cm ({[c]} ∪ cm_closed cm).

Definition GetConn (cm : ConnManager) (serverID : string) : option AgentConn :=
  match cm_streams cm !! serverID with
  | Some conn => if conn_done cm conn then None else Some conn
  | None => None
  end.

Definition liveLocked (cm : ConnManager) (conn : AgentConn) : bool :=
  if negb (bool_decide (cm_streams cm !! ac_ServerID conn = Some conn)) then false
  else negb (conn_done cm conn).

Definition maintenance_of (cm : ConnManager) (node : string) : string :=
  default "" (cm_maintenance cm !! node).
Definition nodes_of (cm : ConnManager) (node : string) : Z :=
  default 0 (cm_activityNodes cm !! node).
Definition count_of (cm : ConnManager) (conn : AgentConn) : Z :=
  default 0 (cm_activityCounts cm !! conn).

(** The enumeration order of the map is unspecified; callers treat the result
    as a set. *)
Definition ActiveServerIDs (cm : ConnManager) : list string :=
  omap (fun kv : string * AgentConn => if conn_done cm kv.2 then None else Some kv.1)
       (map_to_list (cm_streams cm)).

Definition StaleConnections (cm : ConnManager) (now : Time) (maxAge : Duration) : list string :=
  let cutoff := now - maxAge in
  omap (fun kv : string * AgentConn =>
          if Before (default 0 (cm_lastSeen cm !! kv.2)) cutoff then Some kv.1 else None)
       (map_to_list (cm_streams cm)).

Definition UpdateHeartbeat (cm : ConnManager) (serverID : string) (now : Time) : ConnManager :=
  match cm_streams cm !! serverID with
  | Some conn => set_lastSeen cm (<[conn := now]> (cm_lastSeen cm))
  | None => cm
  end.

(** ** Activities (activities.go) *)

Definition messageActivity (msg : HubMessage) : ActivityKind * string :=
  match msg with
  | FileListRequest id => (ActivityList, id)
  | FileReadRequest id => (ActivityRead, id)
  | FileDeleteRequest id => (ActivityDelete, id)
  | FileUploadRequest id _ => (ActivityUpload, id)
  | LogStreamRequest id => (ActivityLog, id)
  | ApplicationOpen id => (ActivityApplication, id)
  | _ => ("", "")
  end.

Definition validActivity (id : string) (kind : ActivityKind) : bool :=
  if bool_decide (id = "") || (128 <? len id) || ContainsAnyByte id [0; 13; 10] then false
  else bool_decide (kind ∈ [ActivityList; ActivityRead; ActivityDelete; ActivityUpload;
                            ActivityLog; ActivityApplication]).

Definition addActivityLocked (cm : ConnManager) (key : activityKey) : result ConnManager :=
  let node := key_node key in
  check! (MaxNodeActivities <=? nodes_of cm node)
         || (MaxActivities <=? Z.of_nat (size (cm_activities cm)) + Z.of_nat (size (cm_uncertain cm))),
    ErrActivityCapacity;
  Ok (set_nodes (set_activities cm (<[key := mkActivity false false]> (cm_activities cm)))
                (<[node := nodes_of cm node + 1]> (cm_activityNodes cm))).

Definition removeActivityLocked (cm : ConnManager) (key : activityKey) : ConnManager :=
  match cm_activities cm !! key with
  | None => cm
  | Some _ =>
      let cm1 := set_activities cm (delete key (cm_activities cm)) in
      let node := key_node key in
      let n := nodes_of cm node - 1 in
      if n =? 0 then
        if 0 <? count_of cm (key_conn key) then
          set_nodes (set_uncertain cm1 ({[node]} ∪ cm_uncertain cm))
                    (<[node := 1]> (cm_activityNodes cm))
        else set_nodes cm1 (delete node (cm_activityNodes cm))
      else set_nodes cm1 (<[node := n]> (cm_activityNodes cm))
  end.

(** The admission error texts. *)
Definition errBinding := ErrText "invalid activity binding".
Definition errConnChanged := ErrText "agent connection changed or closed".
Definition errMaintenance := ErrText "agent update maintenance is active".

(** [conn] is [None] for a nil connection; [conn.SendMu] is held as well. *)
Definition BeginActivity (cm : ConnManager) (conn : option AgentConn) (id : string)
    (kind : ActivityKind) : ConnManager * result activityKey :=
  match conn with
  | None => (cm, Err errBinding)
  | Some c =>
      if negb (validActivity id kind) then (cm, Err errBinding)
      else if negb (liveLocked cm c) then (cm, Err errConnChanged)
      else if negb (bool_decide (maintenance_of cm (ac_ServerID c) = ""))
      then (cm, Err errMaintenance)
      else
        let key := (c, id, kind) in
        match cm_activities cm !! key with
        | Some _ => (cm, Err (ErrText "activity already admitted"))
        | None =>
            match addActivityLocked cm key with
            | Err e => (cm, Err e)
            | Ok cm' => (cm', Ok key)
            end
        end
  end.

Definition BeginRequest (cm : ConnManager) (conn : option AgentConn) (msg : HubMessage)
    : ConnManager * result activityKey :=
  let '(kind, id) := messageActivity msg in BeginActivity cm conn id kind.

(** [Activity.Dispatched] *)
Definition Dispatched (cm : ConnManager) (key : activityKey) : bool :=
  match cm_activities cm !! key with
  | Some r => dispatched r
  | None => false
  end.

(** The check [Activity.Send] runs under the connection's send order: claim the
    dispatch of an admitted activity. *)
Definition claimDispatch (cm : ConnManager) (key : activityKey) : ConnManager * result unit :=
  match cm_activities cm !! key with
  | None => (cm, Err (ErrText "activity is no longer admitted"))
  | Some r =>
      if abandoned r then (cm, Err (ErrText "activity is no longer admitted"))
      else (set_activities cm (<[key := mkActivity true (abandoned r)]> (cm_activities cm)), Ok tt)
  end.

(** [Activity.Send] refuses a message that is not the activity's own. *)
Definition sendBindingOk (key : activityKey) (msg : HubMessage) : bool :=
  let '(kind, id) := messageActivity msg in
  bool_decide (kind = key.2) && bool_decide (id = key.1.2).

Definition is_admission (msg : HubMessage) : bool :=
  match msg with
  | TerminalOpenRequest | ExecutionPrepareMsg | ExecutionAttachMsg => true
  | _ => negb (bool_decide ((messageActivity msg).1 = ""))
  end.

Definition upload_filename (msg : HubMessage) : string :=
  match msg with FileUploadRequest _ f => f | _ => "" end.

Definition prepareActivitySend (cm : ConnManager) (conn : AgentConn) (msg : HubMessage)
    : ConnManager * result unit :=
  if negb (liveLocked cm conn) then (cm, Err errConnChanged)
  else
    let '(kind, id) := messageActivity msg in
    let key := (conn, id, kind) in
    if is_admission msg && negb (bool_decide (maintenance_of cm (ac_ServerID conn) = ""))
       && bool_decide (cm_activities cm !! key = None)
    then (cm, Err errMaintenance)
    else if bool_decide (kind = "") then (cm, Ok tt)
    else if negb (validActivity id kind) then (cm, Err errBinding)
    else
      match cm_activities cm !! key with
      | Some r =>
          (set_activities cm (<[key := mkActivity true (abandoned r)]> (cm_activities cm)), Ok tt)
      | None =>
          if bool_decide (kind = ActivityUpload) && bool_decide (upload_filename msg = "")
          then (cm, Err (ErrText "upload continuation has no admitted upload"))
          else
            match addActivityLocked cm key with
            | Err e => (cm, Err e)
            | Ok cm' =>
                (set_activities cm' (<[key := mkActivity true false]> (cm_activities cm')), Ok tt)
            end
      end.

Definition abandonActivity (cm : ConnManager) (key : activityKey) : ConnManager :=
  match cm_activities cm !! key with
  | None => cm
  | Some r =>
      if negb (dispatched r) then removeActivityLocked cm key
      else set_activities cm (<[key := mkActivity (dispatched r) true]> (cm_activities cm))
  end.

Definition abandonMessage (cm : ConnManager) (conn : AgentConn) (msg : HubMessage) : ConnManager :=
  let '(kind, id) := messageActivity msg in
  if bool_decide (kind = "") then cm else abandonActivity cm (conn, id, kind).

Definition CompleteActivity (cm : ConnManager) (node : string) (stream : nat)
    (id : string) (kind : ActivityKind) : ConnManager * bool :=
  match cm_streams cm !! node with
  | None => (cm, false)
  | Some conn =>
      if negb (bool_decide (ac_Stream conn = stream)) then (cm, false)
      else
        match cm_activities cm !! (conn, id, kind) with
        | None => (cm, false)
        | Some _ => (removeActivityLocked cm (conn, id, kind), true)
        end
  end.

Definition CompleteResponse (cm : ConnManager) (node : string) (stream : nat)
    (msg : AgentResponse) : ConnManager * bool :=
  match msg with
  | FileListResponse id => CompleteActivity cm node stream id ActivityList
  | FileReadResponse id => CompleteActivity cm node stream id ActivityRead
  | FileDeleteResponse id => CompleteActivity cm node stream id ActivityDelete
  | FileUploadAck id => CompleteActivity cm node stream id ActivityUpload
  | LogStreamChunk id done =>
      if done then CompleteActivity cm node stream id ActivityLog else (cm, false)
  | ApplicationClosed id => CompleteActivity cm node stream id ActivityApplication
  | OtherResponse => (cm, false)
  end.

(** The keys of the map that belong to one connection. *)
Definition keys_of_conn (cm : ConnManager) (conn : AgentConn) : list activityKey :=
  elements (filter (fun k : activityKey => key_conn k = conn) (dom (cm_activities cm))).

Definition remove_keys (cm : ConnManager) (keys : list activityKey) : ConnManager :=
  foldl removeActivityLocked cm keys.

Definition endActivitiesLocked (cm : ConnManager) (conn : AgentConn) : ConnManager :=
  let node := ac_ServerID conn in
  let keys := keys_of_conn cm conn in
  let unknown := (0 <? count_of cm conn) || existsb (Dispatched cm) keys in
  let cm1 := set_counts cm (delete conn (cm_activityCounts cm)) in
  let cm2 := remove_keys cm1 keys in
  if unknown && negb (bool_decide (node ∈ cm_uncertain cm2)) then
    set_nodes (set_uncertain cm2 ({[node]} ∪ cm_uncertain cm2))
              (<[node := nodes_of cm2 node + 1]> (cm_activityNodes cm2))
  else cm2.

Definition clearUncertainLocked (cm : ConnManager) (node : string) : ConnManager :=
  if bool_decide (node ∈ cm_uncertain cm) then
    let cm1 := set_uncertain cm (cm_uncertain cm ∖ {[node]}) in
    let n := nodes_of cm node - 1 in
    if n =? 0 then set_nodes cm1 (delete node (cm_activityNodes cm))
    else set_nodes cm1 (<[node := n]> (cm_activityNodes cm))
  else cm.

Definition errCapability := ErrText "unsupported activity capability".
Definition errStaleCapability := ErrText "stale activity capability".

(** The critical section of [ObserveActivityCapabilities] for connection [conn]. *)
Definition observeLocked (cm : ConnManager) (node : string) (conn : AgentConn) (count : Z)
    : ConnManager * result unit :=
  let full := MaxActivities <=? Z.of_nat (size (cm_activities cm)) + Z.of_nat (size (cm_uncertain cm)) in
  if (0 <? count) && (nodes_of cm node =? 0) && full then (cm, Err ErrActivityCapacity)
  else
    let cm1 := if (0 <? count) && (nodes_of cm node =? 0)
               then set_nodes (set_uncertain cm ({[node]} ∪ cm_uncertain cm))
                              (<[node := nodes_of cm node + 1]> (cm_activityNodes cm))
               else cm in
    if 0 <? count
    then (set_counts cm1 (<[conn := count]> (cm_activityCounts cm1)), Ok tt)
    else (clearUncertainLocked (set_counts cm1 (delete conn (cm_activityCounts cm1))) node, Ok tt).

Definition ObserveActivityCapabilities (cm : ConnManager) (node : string) (stream : nat)
    (version count : Z) : ConnManager * result unit :=
  if negb (version =? 1) || (MaxNodeActivities <? count) then (cm, Err errCapability)
  else
    match GetConn cm node with
    | None => (cm, Err errStaleCapability)
    | Some conn =>
        if negb (bool_decide (ac_Stream conn = stream)) || negb (liveLocked cm conn)
        then (cm, Err errStaleCapability)
        else observeLocked cm node conn count
    end.

Definition activityIdleLocked (cm : ConnManager) (conn : AgentConn) (manual : bool) : result unit :=
  check! 0 <? count_of cm conn, ErrActivityBusy;
  check! bool_decide (ac_ServerID conn ∈ cm_uncertain cm) && negb manual, ErrActivityBusy;
  check! existsb (fun kv : activityKey * activityRecord =>
                    bool_decide (key_node kv.1 = ac_ServerID conn)
                    && (negb manual || negb (abandoned kv.2)))
                 (map_to_list (cm_activities cm)), ErrActivityBusy;
  Ok tt.

Definition abandoned_keys (cm : ConnManager) (conn : AgentConn) : list activityKey :=
  elements (dom (filter (fun kv : activityKey * activityRecord =>
                           key_conn kv.1 = conn ∧ abandoned kv.2 = true) (cm_activities cm))).

Definition clearAbandonedActivitiesLocked (cm : ConnManager) (conn : AgentConn) : ConnManager :=
  clearUncertainLocked (remove_keys cm (abandoned_keys cm conn)) (ac_ServerID conn).

(** ** Generations (connmgr.go) *)

(** The critical section of [detachIfCurrent]; it waits for [conn.DeliveryMu]
    and starts [finishRetirement] in the background. *)
Definition detachIfCurrent (cm : ConnManager) (serverID : string) (conn : AgentConn)
    : ConnManager * bool :=
  if negb (bool_decide (cm_streams cm !! serverID = Some conn)) then (cm, false)
  else
    let cm1 := endActivitiesLocked (Close cm conn) conn in
    (set_retiring cm1 (<[serverID := conn]> (cm_retiring cm1)), true).

Definition Unregister (cm : ConnManager) (serverID : string) : ConnManager :=
  match cm_streams cm !! serverID with
  | Some conn => (detachIfCurrent cm serverID conn).1
  | None => cm
  end.

Definition UnregisterIfCurrent (cm : ConnManager) (serverID : string) (stream : nat)
    : ConnManager * bool :=
  match cm_streams cm !! serverID with
  | None => (cm, false)
  | Some conn =>
      if negb (bool_decide (ac_Stream conn = stream)) then (cm, false)
      else detachIfCurrent cm serverID conn
  end.

(** Runs once [conn.GenerationMu] is free. *)
Definition finishRetirement (cm : ConnManager) (conn : AgentConn) : ConnManager :=
  let s := ac_ServerID conn in
  if bool_decide (cm_retiring cm !! s = Some conn) then
    let cm1 := if bool_decide (cm_streams cm !! s = Some conn)
               then set_streams cm (delete s (cm_streams cm)) else cm in
    set_retiring cm1 (delete s (cm_retiring cm1))
  else cm.

Definition install (cm : ConnManager) (serverID : string) (c : AgentConn) (now : Time) : ConnManager :=
  set_registered
    (set_lastSeen (set_streams cm (<[serverID := c]> (cm_streams cm)))
                  (<[c := now]> (cm_lastSeen cm)))
    ({[c]} ∪ cm_registered cm).

(** The first critical section of [Register]'s loop: install when neither a
    current nor a retiring generation exists. *)
Definition registerInstall (cm : ConnManager) (serverID : string) (c : AgentConn) (now : Time)
    : ConnManager * bool :=
  match cm_streams cm !! serverID, cm_retiring cm !! serverID with
  | None, None => (install cm serverID c now, true)
  | _, _ => (cm, false)
  end.

(** The section that runs under [retiring.GenerationMu] and [cm.mu]. *)
Definition registerRetired (cm : ConnManager) (serverID : string) (retiring c : AgentConn)
    (now : Time) : ConnManager * bool :=
  if negb (bool_decide (cm_retiring cm !! serverID = Some retiring)) then (cm, false)
  else
    let cm1 := if bool_decide (cm_streams cm !! serverID = Some retiring)
               then set_streams cm (delete serverID (cm_streams cm)) else cm in
    let cm2 := set_retiring cm1 (delete serverID (cm_retiring cm1)) in
    match cm_streams cm2 !! serverID with
    | None => (install cm2 serverID c now, true)
    | Some _ => (cm2, false)
    end.

(** One pass through the loop of [Register], run without interference. *)
Definition registerPass (cm : ConnManager) (serverID : string) (c : AgentConn) (now : Time)
    : ConnManager * bool :=
  match cm_streams cm !! serverID, cm_retiring cm !! serverID with
  | None, None => registerInstall cm serverID c now
  | _, Some retiring => registerRetired cm serverID retiring c now
  | Some previous, None => ((detachIfCurrent cm serverID previous).1, false)
  end.

Fixpoint Register (fuel : nat) (cm : ConnManager) (serverID : string) (c : AgentConn) (now : Time)
    : ConnManager * bool :=
  match fuel with
  | O => (cm, false)
  | S fuel' =>
      let '(cm1, installed) := registerPass cm serverID c now in
      if installed then (cm1, true) else Register fuel' cm1 serverID c now
  end.

(** ** Sends and deliveries *)

(** The admission of [SendToConnectionGuarded]'s goroutine once it holds
    [SendMu] and [GenerationMu]: refuse a closed generation or an ended context
    (when both hold, the source may report either). *)
Definition sendAdmit (cm : ConnManager) (conn : AgentConn) (ctxDone : bool) : result ConnManager :=
  check! conn_done cm conn, ErrText ("agent disconnected: " +:+ ac_ServerID conn);
  check! ctxDone, ErrText "context ended";
  Ok (set_sending cm ({[conn]} ∪ cm_sending cm)).

(** The end of an admitted send: a failed transport send abandons the message's
    activity; both mutexes are released. *)
Definition sendFinish (cm : ConnManager) (conn : AgentConn) (msg : HubMessage) (failed : bool)
    : ConnManager :=
  let cm1 := if failed then abandonMessage cm conn msg else cm in
  set_sending cm1 (cm_sending cm1 ∖ {[conn]}).

(** [WithCurrentGeneration] before it takes [DeliveryMu]. *)
Definition deliveryLookup (cm : ConnManager) (serverID : string) (stream : nat)
    : option AgentConn :=
  conn ← cm_streams cm !! serverID;
  if bool_decide (ac_Stream conn = stream) && negb (conn_done cm conn) then Some conn else None.

(** Its second check, under [DeliveryMu]; on success the callback runs with the
    mutex held. *)
Definition deliveryAdmit (cm : ConnManager) (serverID : string) (stream : nat) (conn : AgentConn)
    : ConnManager * bool :=
  let current := bool_decide (cm_streams cm !! serverID = Some conn)
                 && bool_decide (ac_Stream conn = stream) && negb (conn_done cm conn) in
  if current then (set_delivering cm ({[conn]} ∪ cm_delivering cm), true) else (cm, false).

(** ** Maintenance *)

Definition errNotConnected := ErrText "agent not connected".
Definition errReserved := ErrText "agent maintenance is already reserved".

(** The final section of [ReserveMaintenanceWithIdleAssertion]. *)
Definition reserveCommit (cm : ConnManager) (conn : AgentConn) (id : string) (manual : bool)
    : ConnManager * result unit :=
  if negb (liveLocked cm conn)
  then (cm, Err (ErrText "agent connection changed during maintenance reservation"))
  else if negb (bool_decide (maintenance_of cm (ac_ServerID conn) = "")) then (cm, Err errReserved)
  else
    match activityIdleLocked cm conn manual with
    | Err e => (cm, Err e)
    | Ok _ =>
        let cm1 := if manual then clearAbandonedActivitiesLocked cm conn else cm in
        (set_maintenance cm1 (<[ac_ServerID conn := id]> (cm_maintenance cm1)), Ok tt)
    end.

(** [check] is the caller's callback.  It runs without [cm.mu], so the manager
    may have moved when it returns. *)
Definition ReserveMaintenanceWithIdleAssertion (cm : ConnManager) (conn : option AgentConn)
    (id : string) (manual : bool) (check : ConnManager → ConnManager * result unit)
    : ConnManager * result unit :=
  match conn with
  | None => (cm, Err errNotConnected)
  | Some c =>
      if negb (bool_decide (GetConn cm (ac_ServerID c) = Some c))
      then (cm, Err (ErrText "agent connection changed"))
      else if conn_done cm c then (cm, Err (ErrText "agent disconnected"))
      else if negb (bool_decide (maintenance_of cm (ac_ServerID c) = "")) then (cm, Err errReserved)
      else
        match activityIdleLocked cm c manual with
        | Err e => (cm, Err e)
        | Ok _ =>
            let '(cm1, r) := check cm in
            match r with
            | Err e => (cm1, Err e)
            | Ok _ => reserveCommit cm1 c id manual
            end
        end
  end.

Definition SetMaintenance (cm : ConnManager) (node id : string) : ConnManager :=
  if bool_decide (id = "") then set_maintenance cm (delete node (cm_maintenance cm))
  else set_maintenance cm (<[node := id]> (cm_maintenance cm)).

Definition ReleaseMaintenance (cm : ConnManager) (node id : string) : ConnManager :=
  if bool_decide (maintenance_of cm node = id)
  then set_maintenance cm (delete node (cm_maintenance cm)) else cm.

(** ** Interleavings *)

(** One atomic section of one of the manager's concurrent callers.  A section
    that needs a connection's mutex runs only while it is free. *)
Inductive step (cm : ConnManager) : ConnManager → Prop :=
| StInstall s c now :
    c ∉ cm_registered cm → ac_ServerID c = s → step cm (registerInstall cm s c now).1
| StRetired s r c now :
    c ∉ cm_registered cm → ac_ServerID c = s → r ∉ cm_sending cm →
    step cm (registerRetired cm s r c now).1
| StDetach s c :
    c ∉ cm_delivering cm → step cm (detachIfCurrent cm s c).1
| StFinishRetirement c :
    c ∉ cm_sending cm → step cm (finishRetirement cm c)
| StClose c : step cm (Close cm c)
| StHeartbeat s now : step cm (UpdateHeartbeat cm s now)
| StBegin c id kind : step cm (BeginActivity cm c id kind).1
| StClaim key : step cm (claimDispatch cm key).1
| StSendAdmit c ctxDone cm' :
    c ∈ cm_registered cm → c ∉ cm_sending cm → sendAdmit cm c ctxDone = Ok cm' → step cm cm'
| StPrepare c msg : step cm (prepareActivitySend cm c msg).1
| StSendFinish c msg failed : step cm (sendFinish cm c msg failed)
| StAbandon key : step cm (abandonActivity cm key)
| StComplete s stream msg : step cm (CompleteResponse cm s stream msg).1
| StObserve s stream version count :
    0 ≤ count → step cm (ObserveActivityCapabilities cm s stream version count).1
| StDeliver s stream c :
    c ∉ cm_delivering cm → step cm (deliveryAdmit cm s stream c).1
| StDelivered c : step cm (set_delivering cm (cm_delivering cm ∖ {[c]}))
| StReserve c id manual : step cm (reserveCommit cm c id manual).1
| StSetMaintenance node id : step cm (SetMaintenance cm node id)
| StReleaseMaintenance node id : step cm (ReleaseMaintenance cm node id).

Definition reachable (cm : ConnManager) : Prop := rtc step New cm.

(** Runs during which node [n] stays under maintenance. *)
Definition held (n : string) (a b : ConnManager) : Prop := step a b ∧ maintenance_of a n ≠ "".

(** What one generation's installation promises. *)
Definition installed (cm cm' : ConnManager) (s : string) (c : AgentConn) : Prop :=
  cm_streams cm' !! s = Some c ∧ cm_retiring cm' !! s = None ∧
  (∀ p, cm_streams cm !! s = Some p → p ∈ cm_closed cm') ∧
  (∀ k, key_node k = s → k ∉ dom (cm_activities cm')) ∧
  (∀ s', s' ≠ s → cm_streams cm' !! s' = cm_streams cm !! s').

(** A small concrete history: one node, its connection, a file listing. *)
Definition ex_conn : AgentConn := mkConn 0 "n" 7 "gen-a".
Definition ex_next : AgentConn := mkConn 1 "n" 8 "gen-b".
Definition ex_connected : ConnManager := (registerInstall New "n" ex_conn 5).1.
Definition ex_key : activityKey := (ex_conn, "r1", ActivityList).
Definition ex_admitted : ConnManager := (BeginActivity ex_connected (Some ex_conn) "r1" ActivityList).1.
Definition ex_dispatched : ConnManager := (claimDispatch ex_admitted ex_key).1.
Definition ex_lost : ConnManager := (detachIfCurrent ex_dispatched "n" ex_conn).1.
Definition ex_sending : ConnManager := set_sending ex_dispatched ({[ex_conn]} ∪ ∅).
Definition ex_reserved : ConnManager := (reserveCommit ex_connected ex_conn "m1" false).1.

(** ** The accounting invariant *)

Definition node_size (D : gset activityKey) (n : string) : nat :=
  size (filter (fun k : activityKey => key_node k = n) D).

Definition uncertain_slot (U : gset string) (n : string) : Z :=
  if bool_decide (n ∈ U) then 1 else 0.

(** The three accounting maps agree and stay within both capacities. *)
Record acct (cm : ConnManager) : Prop := {
  acct_exact : ∀ n, nodes_of cm n =
    Z.of_nat (node_size (dom (cm_activities cm)) n) + uncertain_slot (cm_uncertain cm) n;
  acct_pos : ∀ n z, cm_activityNodes cm !! n = Some z → 0 < z;
  acct_node_cap : ∀ n, nodes_of cm n ≤ MaxNodeActivities;
  acct_global_cap :
    Z.of_nat (size (cm_activities cm)) + Z.of_nat (size (cm_uncertain cm)) ≤ MaxActivities;
}.

Record inv (cm : ConnManager) : Prop := {
  i_acct : acct cm;
  i_act_current : ∀ k, k ∈ dom (cm_activities cm) →
    cm_streams cm !! key_node k = Some (key_conn k) ∧ cm_retiring cm !! key_node k = None;
  i_counts : ∀ c z, cm_activityCounts cm !! c = Some z →
    0 < z ∧ cm_streams cm !! ac_ServerID c = Some c ∧ cm_retiring cm !! ac_ServerID c = None ∧
    (ac_ServerID c ∈ cm_uncertain cm ∨
     ∃ k, k ∈ dom (cm_activities cm) ∧ key_conn k = c);
  i_retiring : ∀ s c, cm_retiring cm !! s = Some c →
    cm_streams cm !! s = Some c ∧ c ∈ cm_closed cm;
  i_streams : ∀ s c, cm_streams cm !! s = Some c → ac_ServerID c = s ∧ c ∈ cm_registered cm;
  i_open : ∀ c, c ∈ cm_registered cm → c ∉ cm_closed cm →
    cm_streams cm !! ac_ServerID c = Some c;
  i_sending : ∀ c, c ∈ cm_sending cm → cm_streams cm !! ac_ServerID c = Some c;
  i_delivering : ∀ c, c ∈ cm_delivering cm →
    cm_streams cm !! ac_ServerID c = Some c ∧ cm_retiring cm !! ac_ServerID c = None;
}.

(** *** Sizes *)

Lemma node_size_add k D n : k ∉ D →
  Z.of_nat (node_size ({[k]} ∪ D) n) = Z.of_nat (node_size D n) + (if decide (key_node k = n) then 1 else 0).
Proof.
  intros Hk. unfold node_size. rewrite filter_union_L by apply _. rewrite filter_singleton_L by apply _.
  destruct (decide (key_node k = n)).
  - rewrite size_union, size_singleton by set_solver. lia.
  - rewrite union_empty_l_L. lia.
Qed.

Lemma node_size_del k D n : k ∈ D →
  Z.of_nat (node_size D n) = Z.of_nat (node_size (D ∖ {[k]}) n) + (if decide (key_node k = n) then 1 else 0).
Proof.
  intros Hk. rewrite <- node_size_add by set_solver.
  by rewrite <- union_difference_L by set_solver.
Qed.

Lemma node_size_zero D n : node_size D n = 0%nat ↔ ∀ k, k ∈ D → key_node k ≠ n.
Proof.
  unfold node_size. rewrite size_empty_iff. set_unfold. naive_solver.
Qed.

Lemma uncertain_slot_add U n m :
  uncertain_slot ({[n]} ∪ U) m = if decide (n = m) then 1 else uncertain_slot U m.
Proof. unfold uncertain_slot. destruct (decide (n = m)); repeat case_bool_decide; set_solver. Qed.

Lemma uncertain_slot_del U n m :
  uncertain_slot (U ∖ {[n]}) m = if decide (n = m) then 0 else uncertain_slot U m.
Proof. unfold uncertain_slot. destruct (decide (n = m)); repeat case_bool_decide; set_solver. Qed.

Lemma size_add_new `{Countable A} (x : A) (X : gset A) : x ∉ X → size ({[x]} ∪ X) = S (size X).
Proof. intros. rewrite size_union, size_singleton by set_solver. lia. Qed.

Lemma size_add_le `{Countable A} (x : A) (X : gset A) : (size ({[x]} ∪ X) ≤ S (size X))%nat.
Proof. pose proof (size_union_alt ({[x]} : gset A) X). rewrite size_singleton in *.
  pose proof (subseteq_size (X ∖ {[x]}) X ltac:(set_solver)). lia. Qed.

Lemma nodes_of_insert cm n z m :
  default 0 ((<[n := z]> (cm_activityNodes cm)) !! m) = if decide (n = m) then z else nodes_of cm m.
Proof. rewrite lookup_insert. by destruct (decide (n = m)). Qed.

Lemma nodes_of_delete cm n m :
  default 0 ((delete n (cm_activityNodes cm)) !! m) = if decide (n = m) then 0 else nodes_of cm m.
Proof. rewrite lookup_delete. by destruct (decide (n = m)). Qed.

Lemma key_del_other (k key : activityKey) (D : gset activityKey) :
  k ∈ D → key_node k ≠ key_node key → k ∈ D ∖ {[key]}.
Proof. intros Hk Hne. apply elem_of_difference. split; [done|]. intros ->%elem_of_singleton. done. Qed.

Lemma slot_bounds U n : 0 ≤ uncertain_slot U n ≤ 1.
Proof. unfold uncertain_slot. case_bool_decide; lia. Qed.

Lemma slot_one U n : n ∈ U → uncertain_slot U n = 1.
Proof. intros. unfold uncertain_slot. by rewrite bool_decide_eq_true_2. Qed.

Lemma slot_zero U n : uncertain_slot U n = 0 → n ∉ U.
Proof. unfold uncertain_slot. case_bool_decide; [lia|done]. Qed.

Lemma live_facts cm c :
  liveLocked cm c = true → cm_streams cm !! ac_ServerID c = Some c ∧ c ∉ cm_closed cm.
Proof.
  unfold liveLocked, conn_done. intros H. guards_in H. bool_hyps. done.
Qed.

Lemma open_not_retiring cm s c : inv cm →
  cm_streams cm !! s = Some c → c ∉ cm_closed cm → cm_retiring cm !! s = None.
Proof.
  intros HI Hs Hc. apply eq_None_not_Some. intros [c' Hr].
  destruct (i_retiring _ HI _ _ Hr). congruence.
Qed.

Lemma node_size_pos D n : node_size D n ≠ 0%nat → ∃ k, k ∈ D ∧ key_node k = n.
Proof.
  unfold node_size. intros H.
  destruct (set_choose_or_empty (filter (fun k : activityKey => key_node k = n) D)) as [[k Hk]|He].
  - exists k. apply elem_of_filter in Hk. tauto.
  - apply size_empty_iff in He. done.
Qed.

(** *** Adding and removing an activity *)

Lemma addActivity_acct cm key cm' :
  acct cm → cm_activities cm !! key = None → addActivityLocked cm key = Ok cm' → acct cm'.
Proof.
  intros [A1 A2 A3 A4] Hnone Hadd. unfold addActivityLocked in Hadd. guards_in Hadd.
  bool_hyps. apply Z.leb_gt in H, H0.
  assert (Hnew : key ∉ dom (cm_activities cm)) by by apply not_elem_of_dom.
  pose proof (A1 (key_node key)) as Hn. pose proof (slot_bounds (cm_uncertain cm) (key_node key)).
  split; simpl.
  - intros n. unfold nodes_of at 1. simpl.
    rewrite nodes_of_insert, dom_insert_L, node_size_add by done.
    destruct (decide (key_node key = n)) as [<-|]; rewrite A1; lia.
  - intros n z. rewrite lookup_insert_Some. intros [[_ <-]|[_ Hz]]; [lia|by eapply A2].
  - intros n. unfold nodes_of at 1. simpl. rewrite nodes_of_insert.
    destruct (decide _); [lia|apply A3].
  - rewrite map_size_insert_None by done. lia.
Qed.

Lemma addActivity_frame cm key cm' : addActivityLocked cm key = Ok cm' →
  cm' = set_nodes (set_activities cm (<[key := mkActivity false false]> (cm_activities cm)))
                  (<[key_node key := nodes_of cm (key_node key) + 1]> (cm_activityNodes cm)).
Proof. unfold addActivityLocked. intros H. guards_in H. done. Qed.

Lemma addActivity_inv cm key cm' :
  inv cm → liveLocked cm (key_conn key) = true → cm_activities cm !! key = None →
  addActivityLocked cm key = Ok cm' → inv cm'.
Proof.
  intros HI Hlive Hnone Hadd. pose proof (addActivity_acct _ _ _ (i_acct _ HI) Hnone Hadd) as HA.
  apply live_facts in Hlive as [Hs Ho]. pose proof (open_not_retiring _ _ _ HI Hs Ho).
  apply addActivity_frame in Hadd. subst cm'.
  destruct HI as [_ I2 I3 I4 I5 I6 I7 I8]. split; simpl; try done.
  - intros k. rewrite dom_insert_L. intros [->%elem_of_singleton|Hk]%elem_of_union; [done|by apply I2].
  - intros c z Hc. destruct (I3 _ _ Hc) as (? & ? & ? & [?|(k & ? & ?)]).
    + repeat split; try done. by left.
    + repeat split; try done. right. exists k. rewrite dom_insert_L. set_solver.
Qed.

(** Rewriting the record of an admitted activity changes no accounting. *)
Lemma update_record_inv cm key r r' :
  inv cm → cm_activities cm !! key = Some r →
  inv (set_activities cm (<[key := r']> (cm_activities cm))).
Proof.
  intros [[A1 A2 A3 A4] I2 I3 I4 I5 I6 I7 I8] Hr.
  assert (Hd : dom (<[key := r']> (cm_activities cm)) = dom (cm_activities cm)).
  { rewrite dom_insert_lookup_L; [done|by eexists]. }
  assert (Hsz : size (<[key := r']> (cm_activities cm)) = size (cm_activities cm)).
  { by rewrite <- !size_dom, Hd. }
  split; simpl; rewrite ?Hd; try done. split; simpl; rewrite ?Hd, ?Hsz; done.
Qed.

Lemma removeActivity_frame cm key : let cm' := removeActivityLocked cm key in
  cm_streams cm' = cm_streams cm ∧ cm_retiring cm' = cm_retiring cm ∧
  cm_maintenance cm' = cm_maintenance cm ∧ cm_activities cm' = delete key (cm_activities cm) ∧
  cm_activityCounts cm' = cm_activityCounts cm ∧ cm_closed cm' = cm_closed cm ∧
  cm_sending cm' = cm_sending cm ∧ cm_delivering cm' = cm_delivering cm ∧
  cm_registered cm' = cm_registered cm ∧ cm_uncertain cm ⊆ cm_uncertain cm' ∧
  (count_of cm (key_conn key) ≤ 0 → cm_uncertain cm' = cm_uncertain cm).
Proof.
  unfold removeActivityLocked. destruct (cm_activities cm !! key) eqn:E.
  - destruct (_ =? 0); [destruct (Z.ltb_spec 0 (count_of cm (key_conn key)))|];
      simpl; repeat split; try done; try set_solver; lia.
  - simpl. rewrite delete_id by done. repeat split; done.
Qed.

Lemma removeActivity_acct cm key : acct cm → acct (removeActivityLocked cm key).
Proof.
  intros [A1 A2 A3 A4]. unfold removeActivityLocked.
  destruct (cm_activities cm !! key) as [r|] eqn:Hr; [|by split].
  assert (Hin : key ∈ dom (cm_activities cm)) by (apply elem_of_dom; by eexists).
  assert (Hsz : size (cm_activities cm) = S (size (delete key (cm_activities cm)))).
  { rewrite map_size_delete, Hr. assert (size (cm_activities cm) ≠ 0%nat); [|lia].
    apply map_size_non_empty_iff. intros He. by rewrite He, lookup_empty in Hr. }
  pose proof (A1 (key_node key)) as Hn. pose proof (A3 (key_node key)).
  pose proof (slot_bounds (cm_uncertain cm) (key_node key)).
  rewrite (node_size_del key) in Hn by done. rewrite decide_True in Hn by done.
  destruct (Z.eqb_spec (nodes_of cm (key_node key) - 1) 0) as [E|E];
    [destruct (Z.ltb_spec 0 (count_of cm (key_conn key)))|].
  - assert (key_node key ∉ cm_uncertain cm) by (apply slot_zero; lia).
    split; simpl; rewrite ?dom_delete_L.
    + intros m. unfold nodes_of at 1. simpl. rewrite nodes_of_insert, uncertain_slot_add, (A1 m).
      rewrite (node_size_del key _ m) by done.
      destruct (decide (key_node key = m)) as [<-|]; lia.
    + intros m z. rewrite lookup_insert_Some. intros [[_ <-]|[_ Hz]]; [lia|by eapply A2].
    + intros m. unfold nodes_of at 1. simpl. rewrite nodes_of_insert. destruct (decide _); [done|apply A3].
    + rewrite size_add_new by done. lia.
  - split; simpl; rewrite ?dom_delete_L.
    + intros m. unfold nodes_of at 1. simpl. rewrite nodes_of_delete, (A1 m).
      rewrite (node_size_del key _ m) by done.
      destruct (decide (key_node key = m)) as [<-|]; lia.
    + intros m z. rewrite lookup_delete_Some. intros [_ Hz]. by eapply A2.
    + intros m. unfold nodes_of at 1. simpl. rewrite nodes_of_delete. destruct (decide _); [done|apply A3].
    + lia.
  - split; simpl; rewrite ?dom_delete_L.
    + intros m. unfold nodes_of at 1. simpl. rewrite nodes_of_insert, (A1 m).
      rewrite (node_size_del key _ m) by done.
      destruct (decide (key_node key = m)) as [<-|]; lia.
    + intros m z. rewrite lookup_insert_Some. intros [[_ <-]|[_ Hz]]; [lia|by eapply A2].
    + intros m. unfold nodes_of at 1. simpl. rewrite nodes_of_insert. destruct (decide _); [lia|apply A3].
    + lia.
Qed.

(** The uncertainty slot owed for a reported count survives the removal. *)
Lemma removeActivity_owed cm key c z :
  inv cm → cm_activityCounts cm !! c = Some z →
  ac_ServerID c ∈ cm_uncertain (removeActivityLocked cm key) ∨
  ∃ k, k ∈ dom (delete key (cm_activities cm)) ∧ key_conn k = c.
Proof.
  intros HI Hc. destruct (i_counts _ HI _ _ Hc) as (Hz & Hsc & _ & Howed).
  pose proof (removeActivity_frame cm key) as (_&_&_&_&_&_&_&_&_&Hsub&_).
  destruct Howed as [Hu|(k & Hk & Hkc)]; [left; set_solver|].
  destruct (decide (key_node key = ac_ServerID c)) as [E|E].
  2:{ right. exists k. rewrite dom_delete_L. split; [|done]. apply key_del_other; [done|].
      unfold key_node at 1. by rewrite Hkc. }
  unfold removeActivityLocked in *. destruct (cm_activities cm !! key) as [r|] eqn:Hr.
  2:{ right. exists k. by rewrite delete_id. }
  assert (Hin : key ∈ dom (cm_activities cm)) by (apply elem_of_dom; by eexists).
  assert (Hkey : key_conn key = c).
  { destruct (i_act_current _ HI key Hin) as [Hs _]. rewrite E in Hs. congruence. }
  destruct (Z.eqb_spec (nodes_of cm (key_node key) - 1) 0) as [En|En].
  { left. unfold count_of. rewrite Hkey, Hc. simpl.
    rewrite (proj2 (Z.ltb_lt _ _) Hz). simpl. rewrite E. set_solver. }
  pose proof (acct_exact _ (i_acct _ HI) (key_node key)) as Hn.
  rewrite (node_size_del key) in Hn by done. rewrite decide_True in Hn by done.
  unfold uncertain_slot in Hn. case_bool_decide as Hu; [left; simpl; by rewrite <- E|].
  destruct (node_size_pos (dom (cm_activities cm) ∖ {[key]}) (key_node key)) as (k' & Hk' & Hn');
    [lia|].
  right. exists k'. rewrite dom_delete_L. split; [done|].
  destruct (i_act_current _ HI k') as [Hs _]; [set_solver|]. rewrite Hn', E in Hs. congruence.
Qed.

Lemma removeActivity_inv cm key : inv cm → inv (removeActivityLocked cm key).
Proof.
  intros HI. pose proof (removeActivity_acct _ key (i_acct _ HI)) as HA.
  pose proof (removeActivity_frame cm key) as (F1&F2&_&F4&F5&F6&F7&F8&F9&_&_).
  pose proof (fun c z => removeActivity_owed cm key c z HI) as Howed.
  destruct HI as [A I2 I3 I4 I5 I6 I7 I8].
  split; rewrite ?F1, ?F2, ?F4, ?F5, ?F6, ?F7, ?F8, ?F9; try done.
  - intros k. rewrite dom_delete_L. intros Hk. apply I2. set_solver.
  - intros c z Hc. destruct (I3 _ _ Hc) as (? & ? & ? & _). repeat split; try done.
    by apply (Howed c z).
Qed.

Lemma remove_keys_inv cm keys : inv cm → inv (remove_keys cm keys).
Proof.
  revert cm. induction keys as [|k keys IH]; intros cm HI; simpl; [done|].
  apply IH. by apply removeActivity_inv.
Qed.

Lemma remove_keys_frame cm keys : let cm' := remove_keys cm keys in
  cm_streams cm' = cm_streams cm ∧ cm_retiring cm' = cm_retiring cm ∧
  cm_maintenance cm' = cm_maintenance cm ∧
  dom (cm_activities cm') = dom (cm_activities cm) ∖ list_to_set keys ∧
  cm_activityCounts cm' = cm_activityCounts cm ∧ cm_closed cm' = cm_closed cm ∧
  cm_sending cm' = cm_sending cm ∧ cm_delivering cm' = cm_delivering cm ∧
  cm_registered cm' = cm_registered cm ∧ cm_uncertain cm ⊆ cm_uncertain cm' ∧
  ((∀ k, k ∈ keys → count_of cm (key_conn k) ≤ 0) → cm_uncertain cm' = cm_uncertain cm).
Proof.
  revert cm. induction keys as [|k keys IH]; intros cm; simpl.
  { repeat split; try done. set_solver. }
  specialize (IH (removeActivityLocked cm k)). simpl in IH.
  destruct IH as (G1&G2&G3&G4&G5&G6&G7&G8&G9&G10&G11).
  pose proof (removeActivity_frame cm k) as (F1&F2&F3&F4&F5&F6&F7&F8&F9&F10&F11).
  repeat split; try congruence.
  - rewrite G4, F4, dom_delete_L. set_solver.
  - set_solver.
  - intros Hk. rewrite G11, F11; [done|apply Hk; set_solver|].
    intros k' Hk'. unfold count_of in *. rewrite F5. apply Hk. set_solver.
Qed.

(** *** Uncertainty *)

(** Reserving the uncertainty slot of an idle node. *)
Lemma reserve_slot_acct cm node :
  acct cm → nodes_of cm node = 0 →
  Z.of_nat (size (cm_activities cm)) + Z.of_nat (size (cm_uncertain cm)) < MaxActivities →
  acct (set_nodes (set_uncertain cm ({[node]} ∪ cm_uncertain cm))
                  (<[node := nodes_of cm node + 1]> (cm_activityNodes cm))).
Proof.
  intros [A1 A2 A3 A4] Hz Hcap. pose proof (A1 node) as Hn.
  pose proof (slot_bounds (cm_uncertain cm) node).
  assert (node ∉ cm_uncertain cm) by (apply slot_zero; lia).
  split; simpl.
  - intros m. unfold nodes_of at 1. simpl. rewrite nodes_of_insert, uncertain_slot_add, (A1 m).
    destruct (decide (node = m)) as [<-|]; lia.
  - intros m z. rewrite lookup_insert_Some. intros [[_ <-]|[_ ?]]; [lia|by eapply A2].
  - intros m. unfold nodes_of at 1. simpl. rewrite nodes_of_insert. destruct (decide _); [|apply A3].
    unfold MaxNodeActivities. lia.
  - rewrite size_add_new by done. lia.
Qed.

Lemma clearUncertain_acct cm node : acct cm → acct (clearUncertainLocked cm node).
Proof.
  intros HA. pose proof HA as [A1 A2 A3 A4]. unfold clearUncertainLocked.
  case_bool_decide as Hu; [|done].
  pose proof (A1 node) as Hn. rewrite slot_one in Hn by done. pose proof (A3 node).
  assert (Hsz : size (cm_uncertain cm) = S (size (cm_uncertain cm ∖ {[node]}))).
  { rewrite (union_difference_L {[node]} (cm_uncertain cm)) at 1 by set_solver.
    apply size_add_new. set_solver. }
  destruct (Z.eqb_spec (nodes_of cm node - 1) 0); split; simpl.
  - intros m. unfold nodes_of at 1. simpl. rewrite nodes_of_delete, uncertain_slot_del, (A1 m).
    destruct (decide (node = m)) as [<-|]; lia.
  - intros m z. rewrite lookup_delete_Some. intros [_ Hz]. by eapply A2.
  - intros m. unfold nodes_of at 1. simpl. rewrite nodes_of_delete. destruct (decide _); [done|apply A3].
  - lia.
  - intros m. unfold nodes_of at 1. simpl. rewrite nodes_of_insert, uncertain_slot_del, (A1 m).
    destruct (decide (node = m)) as [<-|]; lia.
  - intros m z. rewrite lookup_insert_Some. intros [[_ <-]|[_ ?]]; [lia|by eapply A2].
  - intros m. unfold nodes_of at 1. simpl. rewrite nodes_of_insert. destruct (decide _); [lia|apply A3].
  - lia.
Qed.

Lemma clearUncertain_frame cm node : let cm' := clearUncertainLocked cm node in
  cm_streams cm' = cm_streams cm ∧ cm_retiring cm' = cm_retiring cm ∧
  cm_maintenance cm' = cm_maintenance cm ∧ cm_activities cm' = cm_activities cm ∧
  cm_activityCounts cm' = cm_activityCounts cm ∧ cm_closed cm' = cm_closed cm ∧
  cm_sending cm' = cm_sending cm ∧ cm_delivering cm' = cm_delivering cm ∧
  cm_registered cm' = cm_registered cm ∧ cm_uncertain cm' = cm_uncertain cm ∖ {[node]}.
Proof.
  unfold clearUncertainLocked. case_bool_decide.
  - destruct (_ =? 0); simpl; repeat split; done.
  - simpl. repeat split; try done. set_solver.
Qed.

Lemma clearUncertain_inv cm node :
  inv cm → (∀ c z, cm_activityCounts cm !! c = Some z → ac_ServerID c ≠ node) →
  inv (clearUncertainLocked cm node).
Proof.
  intros HI Hc. pose proof (clearUncertain_acct _ node (i_acct _ HI)) as HA.
  pose proof (clearUncertain_frame cm node) as (F1&F2&_&F4&F5&F6&F7&F8&F9&F10).
  destruct HI as [A I2 I3 I4 I5 I6 I7 I8].
  split; rewrite ?F1, ?F2, ?F4, ?F5, ?F6, ?F7, ?F8, ?F9; try done.
  intros c z Hcz. destruct (I3 _ _ Hcz) as (? & ? & ? & [Hu|?]); repeat split; try done.
  - left. rewrite F10. specialize (Hc _ _ Hcz). set_solver.
  - by right.
Qed.

Lemma set_counts_delete_inv cm c : inv cm → inv (set_counts cm (delete c (cm_activityCounts cm))).
Proof.
  intros [A I2 I3 I4 I5 I6 I7 I8]. split; simpl; try done.
  - by destruct A.
  - intros c' z. rewrite lookup_delete_Some. intros [_ Hz]. by apply I3.
Qed.

Lemma count_of_delete cm c k : key_conn k = c →
  count_of (set_counts cm (delete c (cm_activityCounts cm))) (key_conn k) ≤ 0.
Proof. intros ->. unfold count_of. simpl. by rewrite lookup_delete_eq. Qed.

Lemma keys_of_conn_spec cm c k :
  k ∈ keys_of_conn cm c ↔ k ∈ dom (cm_activities cm) ∧ key_conn k = c.
Proof. unfold keys_of_conn. rewrite elem_of_elements, elem_of_filter. tauto. Qed.

(** What ending a connection's activities leaves behind. *)
Lemma endActivities_frame cm c : let cm' := endActivitiesLocked cm c in
  cm_streams cm' = cm_streams cm ∧ cm_retiring cm' = cm_retiring cm ∧
  cm_maintenance cm' = cm_maintenance cm ∧
  dom (cm_activities cm') = dom (cm_activities cm) ∖ list_to_set (keys_of_conn cm c) ∧
  cm_activityCounts cm' = delete c (cm_activityCounts cm) ∧ cm_closed cm' = cm_closed cm ∧
  cm_sending cm' = cm_sending cm ∧ cm_delivering cm' = cm_delivering cm ∧
  cm_registered cm' = cm_registered cm ∧
  cm_uncertain cm ⊆ cm_uncertain cm' ∧
  (0 < count_of cm c ∨ (∃ k, k ∈ keys_of_conn cm c ∧ Dispatched cm k = true) →
   ac_ServerID c ∈ cm_uncertain cm').
Proof.
  unfold endActivitiesLocked.
  set (cm1 := set_counts cm (delete c (cm_activityCounts cm))).
  pose proof (remove_keys_frame cm1 (keys_of_conn cm c)) as (G1&G2&G3&G4&G5&G6&G7&G8&G9&G10&G11).
  set (cm2 := remove_keys cm1 (keys_of_conn cm c)) in *. simpl in *.
  assert (Hunk : 0 < count_of cm c ∨ (∃ k, k ∈ keys_of_conn cm c ∧ Dispatched cm k = true) →
            (0 <? count_of cm c) || existsb (Dispatched cm) (keys_of_conn cm c) = true).
  { intros [?|(k & Hk & Hd)]; apply orb_true_iff; [left; by apply Z.ltb_lt|right].
    apply existsb_exists. exists k. by rewrite <- list_elem_of_In. }
  clearbody cm2. destruct (_ && _) eqn:E; simpl; split_and!; try done.
  - etransitivity; [exact G10|]. apply union_subseteq_r.
  - intros _. apply elem_of_union_l, elem_of_singleton_2. done.
  - intros H. apply Hunk in H. rewrite H in E. simpl in E. bool_hyps. done.
Qed.

(** After the removals the node has no activity of any connection left. *)
Lemma end_node_empty cm c : inv cm → cm_streams cm !! ac_ServerID c = Some c →
  node_size (dom (cm_activities cm) ∖ list_to_set (keys_of_conn cm c)) (ac_ServerID c) = 0%nat.
Proof.
  intros HI Hs. apply node_size_zero. intros k Hk Hn.
  apply elem_of_difference in Hk as [Hk1 Hk2].
  destruct (i_act_current _ HI k Hk1) as [Hks _]. rewrite Hn in Hks.
  apply Hk2, elem_of_list_to_set, keys_of_conn_spec. split; [done|congruence].
Qed.

(** Outstanding work with no uncertainty slot yet means some activity is about
    to be removed, which makes room for the slot. *)
Lemma end_room cm c : inv cm →
  (0 <? count_of cm c) || existsb (Dispatched cm) (keys_of_conn cm c) = true →
  ac_ServerID c ∉ cm_uncertain cm →
  Z.of_nat (size (dom (cm_activities cm) ∖ list_to_set (keys_of_conn cm c)))
    + Z.of_nat (size (cm_uncertain cm)) < MaxActivities.
Proof.
  intros HI Eu En.
  assert (Hex : ∃ k, k ∈ keys_of_conn cm c).
  { apply orb_true_iff in Eu as [Eu|Eu].
    - apply Z.ltb_lt in Eu. unfold count_of in Eu.
      destruct (cm_activityCounts cm !! c) as [z|] eqn:Hc; [|done].
      destruct (i_counts _ HI _ _ Hc) as (_ & _ & _ & [Hu|(k & ? & ?)]); [done|].
      exists k. by apply keys_of_conn_spec.
    - apply existsb_exists in Eu as (k & Hk & _). exists k. by apply list_elem_of_In. }
  destruct Hex as [k Hk]. pose proof (acct_global_cap _ (i_acct _ HI)) as Hcap.
  rewrite <- (size_dom (cm_activities cm)) in Hcap.
  assert (size (dom (cm_activities cm) ∖ list_to_set (keys_of_conn cm c)) < size (dom (cm_activities cm)))%nat;
    [|lia].
  apply subset_size. apply keys_of_conn_spec in Hk as [Hk1 Hk2].
  split; [apply subseteq_difference_l; done|]. intros Hsub. apply Hsub in Hk1 as Hk3.
  apply elem_of_difference in Hk3 as [_ Hk3].
  apply Hk3, elem_of_list_to_set, keys_of_conn_spec. done.
Qed.

Lemma endActivities_inv cm c :
  inv cm → cm_streams cm !! ac_ServerID c = Some c → inv (endActivitiesLocked cm c).
Proof.
  intros HI Hs. unfold endActivitiesLocked.
  pose proof (set_counts_delete_inv _ c HI) as HI1.
  set (cm1 := set_counts cm (delete c (cm_activityCounts cm))) in *.
  pose proof (remove_keys_inv _ (keys_of_conn cm c) HI1) as HI2.
  pose proof (remove_keys_frame cm1 (keys_of_conn cm c)) as (_&_&_&G4&_&_&_&_&_&_&G11).
  specialize (G11 ltac:(intros k Hk; apply count_of_delete; apply keys_of_conn_spec in Hk; tauto)).
  set (cm2 := remove_keys cm1 (keys_of_conn cm c)) in *. clearbody cm2.
  destruct (_ && _) eqn:E; [|done]. apply andb_true_iff in E as [Eu En]. bool_hyps.
  change (cm_uncertain cm2 = cm_uncertain cm) in G11.
  change (dom (cm_activities cm2) = dom (cm_activities cm) ∖ list_to_set (keys_of_conn cm c)) in G4.
  pose proof (acct_exact _ (i_acct _ HI2) (ac_ServerID c)) as Hz.
  rewrite G4, end_node_empty in Hz by done.
  unfold uncertain_slot in Hz. rewrite bool_decide_eq_false_2 in Hz by done.
  assert (HA := reserve_slot_acct cm2 (ac_ServerID c) (i_acct _ HI2) ltac:(lia)
    ltac:(rewrite <- size_dom, G4, G11; apply end_room; congruence)).
  destruct HI2 as [A I2 I3 I4 I5 I6 I7 I8]. split; simpl; try done.
  intros c' z Hc. destruct (I3 _ _ Hc) as (? & ? & ? & [?|?]); split_and!; try done.
  - left. by apply elem_of_union_r.
  - by right.
Qed.

(** *** Every section preserves the invariant *)

Lemma Close_inv cm c : inv cm → inv (Close cm c).
Proof.
  intros [A I2 I3 I4 I5 I6 I7 I8]. split; simpl; try done.
  - by destruct A.
  - intros s c' Hc. destruct (I4 _ _ Hc). split; [done|]. by apply elem_of_union_r.
  - intros c' Hr Hn. apply I6; [done|]. set_solver.
Qed.

Lemma detach_inv cm s c : inv cm → c ∉ cm_delivering cm → inv (detachIfCurrent cm s c).1.
Proof.
  intros HI Hd. unfold detachIfCurrent.
  destruct (bool_decide _) eqn:E; simpl; [|done]. bool_hyps.
  destruct (i_streams _ HI _ _ E) as [Hsc _]. subst s.
  pose proof (endActivities_inv (Close cm c) c (Close_inv _ c HI) E) as HE.
  pose proof (endActivities_frame (Close cm c) c) as (F1&F2&_&F4&F5&F6&_&F8&_&_&_).
  assert (Hcl : c ∈ cm_closed (endActivitiesLocked (Close cm c) c)) by (rewrite F6; set_solver).
  assert (Hnk : ∀ k, k ∈ dom (cm_activities (endActivitiesLocked (Close cm c) c)) → key_conn k ≠ c).
  { intros k. rewrite F4. intros [Hk1 Hk2]%elem_of_difference Hk3.
    apply Hk2, elem_of_list_to_set, keys_of_conn_spec. done. }
  set (cm1 := endActivitiesLocked (Close cm c) c) in *. clearbody cm1. simpl in *.
  destruct HE as [A I2 I3 I4 I5 I6 I7 I8]. rewrite <- F1 in E.
  split; simpl; try done.
  - by destruct A.
  - intros k Hk. destruct (I2 _ Hk) as [Hk1 Hk2]. split; [done|].
    rewrite lookup_insert_ne; [done|]. intros Heq. apply (Hnk _ Hk). congruence.
  - intros c' z Hz. destruct (I3 _ _ Hz) as (? & Hc1 & Hc2 & ?). split_and!; try done.
    rewrite lookup_insert_ne; [done|]. intros Heq. rewrite F5, lookup_delete_Some in Hz.
    destruct Hz as [Hz _]. congruence.
  - intros s' c'. rewrite lookup_insert_Some. intros [[<- <-]|[_ Hc]]; [done|by apply I4].
  - intros c' Hc'. destruct (I8 _ Hc') as [Hc1 Hc2]. split; [done|].
    rewrite lookup_insert_ne; [done|]. intros Heq. rewrite F8 in Hc'. congruence.
Qed.

Lemma retire_inv cm c :
  inv cm → c ∉ cm_sending cm → cm_retiring cm !! ac_ServerID c = Some c →
  inv (set_retiring (set_streams cm (delete (ac_ServerID c) (cm_streams cm)))
                    (delete (ac_ServerID c) (cm_retiring cm))).
Proof.
  intros HI Hs Hr. destruct (i_retiring _ HI _ _ Hr) as [Hst Hcl].
  destruct HI as [A I2 I3 I4 I5 I6 I7 I8].
  assert (Hne : ∀ s, cm_retiring cm !! s = None → ac_ServerID c ≠ s) by congruence.
  split; simpl.
  - by destruct A.
  - intros k Hk. destruct (I2 _ Hk) as [? Hn]. specialize (Hne _ Hn).
    by rewrite !lookup_delete_ne by done.
  - intros c' z Hz. destruct (I3 _ _ Hz) as (? & ? & Hn & ?). specialize (Hne _ Hn).
    by rewrite !lookup_delete_ne by done.
  - intros s c'. rewrite lookup_delete_Some. intros [? Hc]. rewrite lookup_delete_ne by done. by apply I4.
  - intros s c'. rewrite lookup_delete_Some. intros [? Hc]. by apply I5.
  - intros c' Hreg Hop. specialize (I6 _ Hreg Hop). rewrite lookup_delete_ne; [done|]. congruence.
  - intros c' Hc'. specialize (I7 _ Hc'). rewrite lookup_delete_ne; [done|]. congruence.
  - intros c' Hc'. destruct (I8 _ Hc') as [? Hn]. specialize (Hne _ Hn).
    by rewrite !lookup_delete_ne by done.
Qed.

Lemma install_inv cm s c now :
  inv cm → c ∉ cm_registered cm → ac_ServerID c = s →
  cm_streams cm !! s = None → cm_retiring cm !! s = None → inv (install cm s c now).
Proof.
  intros [A I2 I3 I4 I5 I6 I7 I8] Hreg Hs Hn1 Hn2.
  split; simpl.
  - by destruct A.
  - intros k Hk. destruct (I2 _ Hk) as [Hk1 ?]. rewrite lookup_insert_ne by congruence. done.
  - intros c' z Hz. destruct (I3 _ _ Hz) as (? & ? & ? & ?). rewrite lookup_insert_ne by congruence. done.
  - intros s' c' Hc. destruct (I4 _ _ Hc). rewrite lookup_insert_ne by congruence. done.
  - intros s' c'. rewrite lookup_insert_Some. intros [[<- <-]|[_ Hc]].
    + split; [done|]. by apply elem_of_union_l, elem_of_singleton_2.
    + destruct (I5 _ _ Hc). split; [done|]. by apply elem_of_union_r.
  - intros c' [->%elem_of_singleton|Hr]%elem_of_union Hop.
    + rewrite Hs. apply lookup_insert_eq.
    + specialize (I6 _ Hr Hop). rewrite lookup_insert_ne by congruence. done.
  - intros c' Hc'. specialize (I7 _ Hc'). rewrite lookup_insert_ne by congruence. done.
  - intros c' Hc'. destruct (I8 _ Hc'). rewrite lookup_insert_ne by congruence. done.
Qed.

Lemma registerInstall_inv cm s c now :
  inv cm → c ∉ cm_registered cm → ac_ServerID c = s → inv (registerInstall cm s c now).1.
Proof.
  intros HI Hr Hs. unfold registerInstall.
  destruct (cm_streams cm !! s) eqn:E1, (cm_retiring cm !! s) eqn:E2; simpl; try done.
  by apply install_inv.
Qed.

Lemma finishRetirement_inv cm c : inv cm → c ∉ cm_sending cm → inv (finishRetirement cm c).
Proof.
  intros HI Hs. unfold finishRetirement. case_bool_decide as Hr; [|done].
  destruct (i_retiring _ HI _ _ Hr) as [Hst _]. rewrite bool_decide_eq_true_2 by done.
  exact (retire_inv _ _ HI Hs Hr).
Qed.

Lemma registerRetired_eq cm s r c now :
  cm_streams cm !! s = Some r → cm_retiring cm !! s = Some r →
  registerRetired cm s r c now =
    (install (set_retiring (set_streams cm (delete s (cm_streams cm))) (delete s (cm_retiring cm)))
             s c now, true).
Proof.
  intros Hst Hr. unfold registerRetired. rewrite !bool_decide_eq_true_2 by done. simpl.
  by rewrite lookup_delete_eq.
Qed.

Lemma registerRetired_inv cm s r c now :
  inv cm → c ∉ cm_registered cm → ac_ServerID c = s → r ∉ cm_sending cm →
  inv (registerRetired cm s r c now).1.
Proof.
  intros HI Hreg Hs Hsend. destruct (decide (cm_retiring cm !! s = Some r)) as [Hr|Hr].
  - destruct (i_retiring _ HI _ _ Hr) as [Hst _]. rewrite registerRetired_eq by done. simpl.
    destruct (i_streams _ HI _ _ Hst) as [Hrs _].
    pose proof (retire_inv _ _ HI Hsend ltac:(by rewrite Hrs)) as HR. rewrite Hrs in HR.
    apply install_inv; simpl; try done; apply lookup_delete_eq.
  - unfold registerRetired. by rewrite bool_decide_eq_false_2.
Qed.

Lemma UpdateHeartbeat_inv cm s now : inv cm → inv (UpdateHeartbeat cm s now).
Proof.
  intros HI. unfold UpdateHeartbeat. destruct (cm_streams cm !! s); [|done].
  destruct HI as [[A1 A2 A3 A4] I2 I3 I4 I5 I6 I7 I8]. split; simpl; done.
Qed.

Lemma BeginActivity_inv cm c id kind : inv cm → inv (BeginActivity cm c id kind).1.
Proof.
  intros HI. destruct c as [c|]; simpl; [|done].
  destruct (negb (validActivity _ _)); simpl; [done|].
  destruct (liveLocked cm c) eqn:El; simpl; [|done].
  destruct (negb _); simpl; [done|].
  destruct (cm_activities cm !! (c, id, kind)) eqn:E; simpl; [done|].
  destruct (addActivityLocked cm (c, id, kind)) eqn:Ea; simpl; [|done].
  by apply (addActivity_inv cm (c, id, kind)).
Qed.

Lemma claimDispatch_inv cm key : inv cm → inv (claimDispatch cm key).1.
Proof.
  intros HI. unfold claimDispatch. destruct (cm_activities cm !! key) eqn:E; simpl; [|done].
  destruct (abandoned _); simpl; [done|]. by apply (update_record_inv _ _ _ _ HI E).
Qed.

Lemma prepareActivitySend_inv cm c msg : inv cm → inv (prepareActivitySend cm c msg).1.
Proof.
  intros HI. unfold prepareActivitySend. destruct (liveLocked cm c) eqn:El; simpl; [|done].
  destruct (messageActivity msg) as [kind id]. destruct (_ && _ && _); simpl; [done|].
  destruct (bool_decide (kind = "")); simpl; [done|].
  destruct (negb (validActivity _ _)); simpl; [done|].
  destruct (cm_activities cm !! (c, id, kind)) eqn:E; simpl.
  { by apply (update_record_inv _ _ _ _ HI E). }
  destruct (_ && _); simpl; [done|].
  destruct (addActivityLocked cm (c, id, kind)) as [cm'|] eqn:Ea; simpl; [|done].
  pose proof (addActivity_inv cm (c, id, kind) _ HI El E Ea) as HI'.
  apply (update_record_inv _ _ (mkActivity false false) _ HI').
  apply addActivity_frame in Ea. subst cm'. simpl. apply lookup_insert_eq.
Qed.

Lemma abandonActivity_inv cm key : inv cm → inv (abandonActivity cm key).
Proof.
  intros HI. unfold abandonActivity. destruct (cm_activities cm !! key) eqn:E; [|done].
  destruct (negb _); [by apply removeActivity_inv|]. by apply (update_record_inv _ _ _ _ HI E).
Qed.

Lemma unlock_send_inv cm c : inv cm → inv (set_sending cm (cm_sending cm ∖ {[c]})).
Proof.
  intros [[A1 A2 A3 A4] I2 I3 I4 I5 I6 I7 I8]. split; simpl; try done.
  intros c' Hc'. apply I7. set_solver.
Qed.

Lemma sendFinish_inv cm c msg failed : inv cm → inv (sendFinish cm c msg failed).
Proof.
  intros HI. unfold sendFinish. apply unlock_send_inv. destruct failed; [|done].
  unfold abandonMessage. destruct (messageActivity msg) as [kind id].
  case_bool_decide; [done|]. by apply abandonActivity_inv.
Qed.

Lemma sendAdmit_inv cm c ctxDone cm' : inv cm → c ∈ cm_registered cm → sendAdmit cm c ctxDone = Ok cm' → inv cm'.
Proof.
  intros HI Hr Hs. unfold sendAdmit, conn_done in Hs. guards_in Hs. bool_hyps.
  pose proof (i_open _ HI _ Hr Heqb). destruct HI as [[A1 A2 A3 A4] I2 I3 I4 I5 I6 I7 I8].
  split; simpl; try done.
  by intros c' [->%elem_of_singleton|Hc']%elem_of_union; [|apply I7].
Qed.

Lemma CompleteActivity_inv cm s stream id kind : inv cm → inv (CompleteActivity cm s stream id kind).1.
Proof.
  intros HI. unfold CompleteActivity. repeat case_match; simpl; try done.
  by apply removeActivity_inv.
Qed.

Lemma CompleteResponse_inv cm s stream msg : inv cm → inv (CompleteResponse cm s stream msg).1.
Proof.
  intros HI. destruct msg as [| | | |? []| |]; simpl; try apply CompleteActivity_inv; done.
Qed.

(** On a live connection the only possible owner of a reported count is it. *)
Lemma counts_owner cm c c' z : inv cm → cm_streams cm !! ac_ServerID c = Some c →
  cm_activityCounts cm !! c' = Some z → ac_ServerID c' = ac_ServerID c → c' = c.
Proof.
  intros HI Hs Hz He. destruct (i_counts _ HI _ _ Hz) as (_ & Hs' & _). congruence.
Qed.

Lemma set_count_inv cm c z : inv cm → 0 < z → liveLocked cm c = true →
  nodes_of cm (ac_ServerID c) ≠ 0 → inv (set_counts cm (<[c := z]> (cm_activityCounts cm))).
Proof.
  intros HI Hz [Hs Ho]%live_facts Hn. pose proof (open_not_retiring _ _ _ HI Hs Ho).
  pose proof HI as [[A1 A2 A3 A4] I2 I3 I4 I5 I6 I7 I8]. split; simpl; try done.
  intros c' z'. rewrite lookup_insert_Some. intros [[<- <-]|[_ Hc']]; [|by apply I3].
  split_and!; try done. rewrite A1 in Hn. unfold uncertain_slot in Hn.
  case_bool_decide; [by left|]. right.
  destruct (node_size_pos (dom (cm_activities cm)) (ac_ServerID c)) as (k & Hk & Hkn); [lia|].
  exists k. split; [done|]. destruct (I2 _ Hk) as [Hks _]. rewrite Hkn in Hks. congruence.
Qed.

Lemma reserve_slot_inv cm node : inv cm → nodes_of cm node = 0 →
  Z.of_nat (size (cm_activities cm)) + Z.of_nat (size (cm_uncertain cm)) < MaxActivities →
  inv (set_nodes (set_uncertain cm ({[node]} ∪ cm_uncertain cm))
                 (<[node := nodes_of cm node + 1]> (cm_activityNodes cm))).
Proof.
  intros HI Hz Hcap. pose proof (reserve_slot_acct _ _ (i_acct _ HI) Hz Hcap).
  destruct HI as [A I2 I3 I4 I5 I6 I7 I8]. split; simpl; try done.
  intros c z Hc. destruct (I3 _ _ Hc) as (? & ? & ? & [?|?]); split_and!; try done.
  - left. by apply elem_of_union_r.
  - by right.
Qed.

Lemma observeLocked_inv cm c count : inv cm → 0 ≤ count → liveLocked cm c = true →
  inv (observeLocked cm (ac_ServerID c) c count).1.
Proof.
  intros HI Hc Hl. unfold observeLocked.
  destruct (Z.ltb_spec 0 count) as [Hp|Hp]; simpl.
  - destruct (Z.eqb_spec (nodes_of cm (ac_ServerID c)) 0) as [Hz|Hz]; simpl.
    + destruct (Z.leb_spec MaxActivities (Z.of_nat (size (cm_activities cm)) + Z.of_nat (size (cm_uncertain cm))));
        simpl; [done|].
      apply (set_count_inv _ c count (reserve_slot_inv _ _ HI Hz ltac:(lia)) Hp Hl).
      unfold nodes_of. simpl. rewrite lookup_insert_eq. simpl. unfold nodes_of in Hz. lia.
    + by apply set_count_inv.
  - apply clearUncertain_inv; [by apply set_counts_delete_inv|]. simpl.
    intros c' z. rewrite lookup_delete_Some. intros [Hne Hz] He.
    apply live_facts in Hl as [Hs _]. by pose proof (counts_owner _ _ _ _ HI Hs Hz He).
Qed.

Lemma GetConn_Some cm s c : GetConn cm s = Some c → cm_streams cm !! s = Some c ∧ c ∉ cm_closed cm.
Proof. unfold GetConn, conn_done. intros H. guards_in H. bool_hyps. done. Qed.

Lemma Observe_inv cm s stream v count : inv cm → 0 ≤ count →
  inv (ObserveActivityCapabilities cm s stream v count).1.
Proof.
  intros HI Hc. unfold ObserveActivityCapabilities. destruct (_ || _); simpl; [done|].
  destruct (GetConn cm s) as [c|] eqn:E; simpl; [|done]. apply GetConn_Some in E as [E _].
  destruct (liveLocked cm c) eqn:El; [|by destruct (negb _)].
  destruct (negb _); simpl; [done|].
  destruct (i_streams _ HI _ _ E) as [<- _]. by apply observeLocked_inv.
Qed.

Lemma deliveryAdmit_inv cm s stream c : inv cm → inv (deliveryAdmit cm s stream c).1.
Proof.
  intros HI. unfold deliveryAdmit, conn_done. destruct (_ && _ && _) eqn:E; simpl; [|done]. bool_hyps.
  destruct (i_streams _ HI _ _ H) as [<- _]. pose proof (open_not_retiring _ _ _ HI H H0).
  destruct HI as [[A1 A2 A3 A4] I2 I3 I4 I5 I6 I7 I8]. split; simpl; try done.
  by intros c' [->%elem_of_singleton|Hc']%elem_of_union; [|apply I8].
Qed.

Lemma delivered_inv cm c : inv cm → inv (set_delivering cm (cm_delivering cm ∖ {[c]})).
Proof.
  intros [[A1 A2 A3 A4] I2 I3 I4 I5 I6 I7 I8]. split; simpl; try done.
  intros c' Hc'. apply I8. set_solver.
Qed.

Lemma set_maintenance_inv cm m : inv cm → inv (set_maintenance cm m).
Proof. intros [[A1 A2 A3 A4] I2 I3 I4 I5 I6 I7 I8]. split; simpl; done. Qed.

Lemma idle_count cm c manual u : activityIdleLocked cm c manual = Ok u → count_of cm c ≤ 0.
Proof. unfold activityIdleLocked. intros H. guards_in H. apply Z.ltb_ge. done. Qed.

Lemma clearAbandoned_inv cm c : inv cm → cm_streams cm !! ac_ServerID c = Some c →
  count_of cm c ≤ 0 → inv (clearAbandonedActivitiesLocked cm c).
Proof.
  intros HI Hs Hc. unfold clearAbandonedActivitiesLocked.
  pose proof (remove_keys_frame cm (abandoned_keys cm c)) as (F1&_&_&_&F5&_).
  apply clearUncertain_inv; [by apply remove_keys_inv|].
  intros c' z Hz He. rewrite F5 in Hz. pose proof (counts_owner _ _ _ _ HI Hs Hz He) as ->.
  unfold count_of in Hc. rewrite Hz in Hc. simpl in Hc.
  destruct (i_counts _ HI _ _ Hz). lia.
Qed.

Lemma reserveCommit_inv cm c id manual : inv cm → inv (reserveCommit cm c id manual).1.
Proof.
  intros HI. unfold reserveCommit. destruct (liveLocked cm c) eqn:El; simpl; [|done].
  apply live_facts in El as [Hs _]. destruct (negb _); simpl; [done|].
  destruct (activityIdleLocked cm c manual) eqn:Ei; simpl; [|done].
  apply set_maintenance_inv. destruct manual; [|done].
  apply clearAbandoned_inv; try done. by eapply idle_count.
Qed.

Lemma SetMaintenance_inv cm n id : inv cm → inv (SetMaintenance cm n id).
Proof. intros HI. unfold SetMaintenance. case_bool_decide; by apply set_maintenance_inv. Qed.

Lemma ReleaseMaintenance_inv cm n id : inv cm → inv (ReleaseMaintenance cm n id).
Proof. intros HI. unfold ReleaseMaintenance. case_bool_decide; [|done]. by apply set_maintenance_inv. Qed.

#[export] Hint Resolve registerInstall_inv registerRetired_inv detach_inv finishRetirement_inv
  Close_inv UpdateHeartbeat_inv BeginActivity_inv claimDispatch_inv sendAdmit_inv
  prepareActivitySend_inv sendFinish_inv abandonActivity_inv CompleteResponse_inv Observe_inv
  deliveryAdmit_inv delivered_inv reserveCommit_inv SetMaintenance_inv ReleaseMaintenance_inv : veyport.

Lemma step_inv cm cm' : inv cm → step cm cm' → inv cm'.
Proof. intros HI Hst. destruct Hst; eauto with veyport. Qed.

Lemma New_inv : inv New.
Proof.
  split; try (intros; exfalso; set_solver). split; simpl; try done.
Qed.

Lemma reachable_inv cm : reachable cm → inv cm.
Proof.
  unfold reachable. intros Hr.
  refine (rtc_ind_l (fun x => inv x → inv cm) cm _ _ New Hr New_inv); [done|].
  intros x y Hxy _ IH HI. by apply IH, (step_inv x).
Qed.

(** *** Persistence of a maintenance reservation and of uncertainty *)

Lemma dom_update_record (m : gmap activityKey activityRecord) key r r' :
  m !! key = Some r → dom (<[key := r']> m) = dom m.
Proof. intros H. rewrite dom_insert_lookup_L; [done|by eexists]. Qed.

Lemma removeActivity_dom cm key :
  dom (cm_activities (removeActivityLocked cm key)) = dom (cm_activities cm) ∖ {[key]}.
Proof.
  pose proof (removeActivity_frame cm key) as (_&_&_&F4&_). by rewrite F4, dom_delete_L.
Qed.

Lemma abandonActivity_dom cm key :
  dom (cm_activities (abandonActivity cm key)) ⊆ dom (cm_activities cm).
Proof.
  unfold abandonActivity. destruct (cm_activities cm !! key) eqn:E; [|done].
  destruct (negb _); simpl.
  - rewrite removeActivity_dom. set_solver.
  - by rewrite (dom_update_record _ _ _ _ E).
Qed.

Lemma prepareActivitySend_dom cm c msg k :
  k ∈ dom (cm_activities (prepareActivitySend cm c msg).1) →
  maintenance_of cm (key_node k) ≠ "" → k ∈ dom (cm_activities cm).
Proof.
  unfold prepareActivitySend. destruct (negb _); simpl; [done|].
  assert (Hadm : bool_decide ((messageActivity msg).1 = "") = false → is_admission msg = true)
    by by destruct msg.
  destruct (messageActivity msg) as [kind id]. simpl in Hadm.
  destruct (is_admission msg && _ && _) eqn:Eg; simpl; [done|].
  destruct (bool_decide (kind = "")) eqn:Ek; simpl; [done|]. rewrite (Hadm eq_refl) in Eg.
  destruct (negb (validActivity _ _)); simpl; [done|].
  destruct (cm_activities cm !! (c, id, kind)) eqn:E; simpl.
  { by rewrite (dom_update_record _ _ _ _ E). }
  destruct (_ && bool_decide (upload_filename msg = "")); simpl; [done|].
  destruct (addActivityLocked cm (c, id, kind)) as [cm'|] eqn:Ea; simpl; [|done].
  apply addActivity_frame in Ea. subst cm'. simpl.
  rewrite !dom_insert_L. intros Hk Hm.
  assert (Hk' : k = (c, id, kind) ∨ k ∈ dom (cm_activities cm)) by set_solver.
  destruct Hk' as [->|?]; [|done]. exfalso. simpl in Eg.
  rewrite andb_true_r in Eg. bool_hyps. done.
Qed.

Lemma BeginActivity_dom cm c id kind k :
  k ∈ dom (cm_activities (BeginActivity cm c id kind).1) →
  maintenance_of cm (key_node k) ≠ "" → k ∈ dom (cm_activities cm).
Proof.
  destruct c as [c|]; simpl; [|done]. repeat (case_match; simpl; try done).
  match goal with H : addActivityLocked _ _ = _ |- _ => apply addActivity_frame in H; subst end.
  simpl. rewrite dom_insert_L. intros [->%elem_of_singleton|?]%elem_of_union; [|done].
  bool_hyps. done.
Qed.

Lemma Observe_frame cm s stream v count :
  let cm' := (ObserveActivityCapabilities cm s stream v count).1 in
  cm_activities cm' = cm_activities cm ∧ cm_maintenance cm' = cm_maintenance cm.
Proof.
  unfold ObserveActivityCapabilities, observeLocked.
  repeat (case_match; simpl; try done);
    match goal with |- context [clearUncertainLocked ?x ?n] =>
      pose proof (clearUncertain_frame x n) as (_&_&F3&F4&_); by rewrite F3, F4 end.
Qed.

Lemma CompleteResponse_frame cm s stream msg :
  let cm' := (CompleteResponse cm s stream msg).1 in
  dom (cm_activities cm') ⊆ dom (cm_activities cm) ∧ cm_uncertain cm ⊆ cm_uncertain cm'.
Proof.
  assert (H : ∀ id kind, let cm' := (CompleteActivity cm s stream id kind).1 in
     dom (cm_activities cm') ⊆ dom (cm_activities cm) ∧ cm_uncertain cm ⊆ cm_uncertain cm').
  { intros id kind. unfold CompleteActivity. repeat (case_match; simpl; try done).
    rewrite removeActivity_dom. split; [set_solver|].
    pose proof (removeActivity_frame cm (a, id, kind)) as (_&_&_&_&_&_&_&_&_&F&_). done. }
  destruct msg as [| | | |? []| |]; simpl; try done; apply H.
Qed.

Lemma clearAbandoned_dom cm c :
  dom (cm_activities (clearAbandonedActivitiesLocked cm c)) =
    dom (cm_activities cm) ∖ list_to_set (abandoned_keys cm c).
Proof.
  unfold clearAbandonedActivitiesLocked.
  pose proof (clearUncertain_frame (remove_keys cm (abandoned_keys cm c)) (ac_ServerID c)) as (_&_&_&->&_).
  pose proof (remove_keys_frame cm (abandoned_keys cm c)) as (_&_&_&->&_). done.
Qed.

Lemma reserveCommit_dom cm c id manual :
  dom (cm_activities (reserveCommit cm c id manual).1) ⊆ dom (cm_activities cm).
Proof.
  unfold reserveCommit. repeat (case_match; simpl; try done). rewrite clearAbandoned_dom. set_solver.
Qed.

(** No section adds an activity of a node under maintenance. *)
Lemma step_no_admission cm cm' k : step cm cm' → maintenance_of cm (key_node k) ≠ "" →
  k ∈ dom (cm_activities cm') → k ∈ dom (cm_activities cm).
Proof.
  intros Hst Hm. destruct Hst; try done.
  - unfold registerInstall, install. by repeat case_match.
  - unfold registerRetired, install. by repeat (case_match; simpl).
  - unfold detachIfCurrent. destruct (negb _); simpl; [done|].
    pose proof (endActivities_frame (Close cm c) c) as (_&_&_&F4&_). rewrite F4. set_solver.
  - unfold finishRetirement. by repeat case_bool_decide.
  - unfold UpdateHeartbeat. by case_match.
  - intros Hk. by eapply BeginActivity_dom.
  - unfold claimDispatch. destruct (cm_activities cm !! key) eqn:E; simpl; [|done].
    destruct (abandoned _); simpl; [done|]. by rewrite (dom_update_record _ _ _ _ E).
  - unfold sendAdmit in H1. guards_in H1. done.
  - intros Hk. by eapply prepareActivitySend_dom.
  - unfold sendFinish, abandonMessage. destruct failed; simpl; [|done].
    destruct (messageActivity msg). case_bool_decide; [done|]. apply abandonActivity_dom.
  - apply abandonActivity_dom.
  - apply CompleteResponse_frame.
  - pose proof (Observe_frame cm s stream version count) as [F _]. by rewrite F.
  - unfold deliveryAdmit. by case_match.
  - apply reserveCommit_dom.
  - unfold SetMaintenance. by case_match.
  - unfold ReleaseMaintenance. by case_match.
Qed.

(** What an accepted reservation saw. *)
Lemma reserveCommit_Ok cm c id manual cm' u : inv cm →
  reserveCommit cm c id manual = (cm', Ok u) →
  cm_maintenance cm' = <[ac_ServerID c := id]> (cm_maintenance cm) ∧
  (∀ k, key_node k = ac_ServerID c → k ∉ dom (cm_activities cm')) ∧
  ac_ServerID c ∉ cm_uncertain cm'.
Proof.
  intros HI. unfold reserveCommit.
  destruct (liveLocked cm c) eqn:El; simpl; [|done]. apply live_facts in El as [Hs _].
  destruct (negb _); simpl; [done|].
  destruct (activityIdleLocked cm c manual) eqn:Ei; [|done]. intros [= <- <-]. simpl.
  unfold activityIdleLocked in Ei. destruct (0 <? _); [done|].
  destruct (_ && negb manual) eqn:Eu; [done|]. destruct (existsb _ _) eqn:Ee; [done|]. clear Ei.
  rewrite <- not_true_iff_false, existsb_exists in Ee.
  assert (Hbusy : ∀ k, key_node k = ac_ServerID c → k ∈ dom (cm_activities cm) →
            manual = true ∧ k ∈ abandoned_keys cm c).
  { intros k Hk [r Hr]%elem_of_dom.
    destruct (negb manual || negb (abandoned r)) eqn:Eb.
    - exfalso. apply Ee. exists (k, r). rewrite <- list_elem_of_In, elem_of_map_to_list. simpl.
      by rewrite Eb, bool_decide_eq_true_2.
    - bool_hyps. split; [done|]. unfold abandoned_keys. apply elem_of_elements, elem_of_dom.
      exists r. apply map_lookup_filter_Some. split; [done|]. simpl. split; [|done].
      destruct (i_act_current _ HI k) as [Hks _]; [apply elem_of_dom; by eexists|].
      rewrite Hk in Hks. congruence. }
  destruct manual; simpl.
  - unfold clearAbandonedActivitiesLocked.
    pose proof (clearUncertain_frame (remove_keys cm (abandoned_keys cm c)) (ac_ServerID c))
      as (_&_&F3&F4&_&_&_&_&_&F10).
    pose proof (remove_keys_frame cm (abandoned_keys cm c)) as (_&_&G3&G4&_).
    rewrite F3, F4, F10, G3, G4. split_and!; [done| |set_solver].
    intros k Hk Hin. apply elem_of_difference in Hin as [Hin Hn].
    apply Hn, elem_of_list_to_set. by apply Hbusy.
  - rewrite andb_true_r in Eu. bool_hyps. split_and!; try done.
    intros k Hk Hin. by destruct (Hbusy k Hk Hin).
Qed.

Lemma not_in_minus_singleton (X : gset string) n m : n ∈ X → n ∉ X ∖ {[m]} → n = m.
Proof. intros Hn Hm. destruct (decide (n = m)); [done|]. exfalso. apply Hm. set_solver. Qed.

Lemma abandonActivity_uncertain cm key : cm_uncertain cm ⊆ cm_uncertain (abandonActivity cm key).
Proof.
  unfold abandonActivity. repeat (case_match; simpl; try done).
  pose proof (removeActivity_frame cm key) as (_&_&_&_&_&_&_&_&_&F&_). done.
Qed.

Lemma addActivity_uncertain cm key cm' : addActivityLocked cm key = Ok cm' → cm_uncertain cm' = cm_uncertain cm.
Proof. by intros ->%addActivity_frame. Qed.

Lemma observeLocked_uncertain cm n c count :
  0 < count → cm_uncertain cm ⊆ cm_uncertain (observeLocked cm n c count).1.
Proof.
  intros Hc. unfold observeLocked. rewrite (proj2 (Z.ltb_lt _ _) Hc). simpl.
  repeat (case_match; simpl; try done). set_solver.
Qed.

(** A node's uncertainty is cleared only by a report of no activity from its
    agent or by an accepted manual reservation. *)
Lemma step_uncertain cm cm' n : step cm cm' → n ∈ cm_uncertain cm → n ∉ cm_uncertain cm' →
  (∃ stream, ObserveActivityCapabilities cm n stream 1 0 = (cm', Ok tt)) ∨
  (∃ c id, ac_ServerID c = n ∧ reserveCommit cm c id true = (cm', Ok tt)).
Proof.
  intros Hst Hu Hn. assert (Hsub : ¬ cm_uncertain cm ⊆ cm_uncertain cm') by set_solver.
  destruct Hst; try done.
  - exfalso. apply Hsub. unfold registerInstall, install. by repeat case_match.
  - exfalso. apply Hsub. unfold registerRetired, install. by repeat (case_match; simpl).
  - exfalso. apply Hsub. unfold detachIfCurrent. destruct (negb _); simpl; [done|].
    pose proof (endActivities_frame (Close cm c) c) as (_&_&_&_&_&_&_&_&_&F&_). done.
  - exfalso. apply Hsub. unfold finishRetirement. by repeat case_bool_decide.
  - exfalso. apply Hsub. unfold UpdateHeartbeat. by case_match.
  - exfalso. apply Hsub. destruct c as [c|]; simpl; [|done]. repeat (case_match; simpl; try done).
    match goal with H : addActivityLocked _ _ = Ok _ |- _ => by rewrite <- (addActivity_uncertain _ _ _ H) end.
  - exfalso. apply Hsub. unfold claimDispatch. by repeat (case_match; simpl; try done).
  - exfalso. apply Hsub. unfold sendAdmit in H1. guards_in H1. done.
  - exfalso. apply Hsub. unfold prepareActivitySend. repeat (case_match; simpl; try done).
    match goal with H : addActivityLocked _ _ = Ok _ |- _ => by rewrite <- (addActivity_uncertain _ _ _ H) end.
  - exfalso. apply Hsub. unfold sendFinish, abandonMessage. destruct failed; simpl; [|done].
    destruct (messageActivity msg). case_bool_decide; [done|]. apply abandonActivity_uncertain.
  - exfalso. apply Hsub, abandonActivity_uncertain.
  - exfalso. apply Hsub, CompleteResponse_frame.
  - left. unfold ObserveActivityCapabilities in Hn, Hsub |- *.
    destruct (negb (version =? 1) || _) eqn:Ev; [done|]. bool_hyps. apply Z.eqb_eq in H0. subst version.
    destruct (GetConn cm s) as [c|] eqn:Eg; [|done].
    destruct (negb (bool_decide _) || _) eqn:El; [done|]. bool_hyps.
    destruct (Z.ltb_spec 0 count) as [Hp|Hp].
    { exfalso. by apply Hsub, observeLocked_uncertain. }
    assert (count = 0) as -> by lia. unfold observeLocked in *. simpl in *.
    pose proof (clearUncertain_frame (set_counts cm (delete c (cm_activityCounts cm))) s)
      as (_&_&_&_&_&_&_&_&_&F10). rewrite F10 in Hn. simpl in Hn.
    assert (n = s) as -> by by apply (not_in_minus_singleton (cm_uncertain cm)).
    exists stream. rewrite Eg.
    rewrite bool_decide_eq_true_2 by done. rewrite H2. done.
  - exfalso. apply Hsub. unfold deliveryAdmit. by case_match.
  - right. unfold reserveCommit in Hn, Hsub |- *.
    destruct (negb (liveLocked cm c)) eqn:El; [done|]. destruct (negb (bool_decide _)) eqn:Em; [done|].
    destruct (activityIdleLocked cm c manual) as [[]|] eqn:Ei; [|done].
    destruct manual; [|done]. exists c, id. rewrite El, Em, Ei. split; [|done]. simpl in Hn.
    unfold clearAbandonedActivitiesLocked in Hn.
    pose proof (clearUncertain_frame (remove_keys cm (abandoned_keys cm c)) (ac_ServerID c))
      as (_&_&_&_&_&_&_&_&_&F10).
    pose proof (remove_keys_frame cm (abandoned_keys cm c)) as (_&_&_&_&_&_&_&_&_&G10&_).
    rewrite F10 in Hn. symmetry. apply (not_in_minus_singleton (cm_uncertain (remove_keys cm (abandoned_keys cm c)))); [by apply G10|done].
  - exfalso. apply Hsub. unfold SetMaintenance. by case_match.
  - exfalso. apply Hsub. unfold ReleaseMaintenance. by case_match.
Qed.

Lemma held_no_activity n cm cm' : rtc (held n) cm cm' →
  (∀ k, key_node k = n → k ∉ dom (cm_activities cm)) →
  ∀ k, key_node k = n → k ∉ dom (cm_activities cm').
Proof.
  induction 1 as [|a b d [Hst Hm] _ IH]; [done|]. intros Ha. apply IH.
  intros k Hk Hin. apply (Ha k Hk). apply (step_no_admission a b); [done|by rewrite Hk|done].
Qed.

(** *** Registration *)

Lemma registerRetired_installs cm s r c now :
  cm_streams cm !! s = Some r → cm_retiring cm !! s = Some r → r ∈ cm_closed cm →
  (∀ k, key_node k = s → k ∉ dom (cm_activities cm)) →
  ∃ cm', registerRetired cm s r c now = (cm', true) ∧ installed cm cm' s c.
Proof.
  intros Hs Hr Hcl Hno. eexists. split; [by apply registerRetired_eq|].
  split_and!; simpl; try done.
  - apply lookup_insert_eq.
  - apply lookup_delete_eq.
  - intros p Hp. congruence.
  - intros s' Hne. by rewrite lookup_insert_ne, lookup_delete_ne.
Qed.

Lemma no_activity_unless_current cm s k : inv cm → key_node k = s →
  cm_streams cm !! s = None ∨ is_Some (cm_retiring cm !! s) → k ∉ dom (cm_activities cm).
Proof.
  intros HI <- Hs Hin. destruct (i_act_current _ HI _ Hin) as [H1 H2].
  destruct Hs as [Hs|[r Hs]]; congruence.
Qed.

Lemma detach_post cm s p : inv cm → cm_streams cm !! s = Some p →
  let cm1 := (detachIfCurrent cm s p).1 in
  cm_streams cm1 = cm_streams cm ∧ cm_retiring cm1 !! s = Some p ∧ p ∈ cm_closed cm1 ∧
  (∀ k, key_node k = s → k ∉ dom (cm_activities cm1)).
Proof.
  intros HI Hs. unfold detachIfCurrent. rewrite bool_decide_eq_true_2 by done. simpl.
  pose proof (endActivities_frame (Close cm p) p) as (F1&_&_&F4&_&F6&_).
  rewrite F1, F4, F6. split_and!; try done; [apply lookup_insert_eq|set_solver|].
  intros k <- [Hk Hn]%elem_of_difference. apply Hn, elem_of_list_to_set, keys_of_conn_spec.
  split; [done|]. destruct (i_act_current _ HI _ Hk) as [Hk1 _]. congruence.
Qed.

(** *** The concrete history is reachable *)

Lemma ex_connected_reachable : reachable ex_connected.
Proof. apply rtc_once. apply StInstall; [set_solver|done]. Qed.

Lemma ex_dispatched_reachable : reachable ex_dispatched.
Proof.
  eapply rtc_r; [eapply rtc_r; [exact ex_connected_reachable|]|].
  - apply StBegin.
  - apply StClaim.
Qed.

Lemma ex_sending_reachable : reachable ex_sending.
Proof.
  eapply rtc_r; [exact ex_dispatched_reachable|].
  apply (StSendAdmit _ ex_conn false); vm_compute; done.
Qed.

(** ** Properties *)

(** C22. In every state the connection manager can reach, under any
    interleaving of its callers' critical sections: the per-node counter is
    exactly the number of admitted activities of that node plus one if the node
    is uncertain; no counter is left at zero; a node never has more than 128
    and the hub never more than 4096; and every admitted activity belongs to
    the installed, unretired generation of its node. *)
Theorem activity_accounting (cm : ConnManager) :
  reachable cm →
  (∀ n, nodes_of cm n =
     Z.of_nat (node_size (dom (cm_activities cm)) n) + uncertain_slot (cm_uncertain cm) n) ∧
  (∀ n, cm_activityNodes cm !! n ≠ Some 0) ∧
  (∀ n, nodes_of cm n ≤ MaxNodeActivities) ∧
  Z.of_nat (size (cm_activities cm)) + Z.of_nat (size (cm_uncertain cm)) ≤ MaxActivities ∧
  (∀ k, k ∈ dom (cm_activities cm) →
     cm_streams cm !! key_node k = Some (key_conn k) ∧ cm_retiring cm !! key_node k = None).
Proof.
  intros HI%reachable_inv. destruct HI as [[A1 A2 A3 A4] I2 _ _ _ _ _ _].
  split_and!; try done. intros n Hn. apply A2 in Hn. lia.
Qed.

Lemma activity_accounting_witness :
  nodes_of ex_dispatched "n" = 1 ∧ nodes_of ex_dispatched "n" ≤ MaxNodeActivities.
Proof.
  destruct (activity_accounting ex_dispatched ex_dispatched_reachable) as (_ & _ & H & _).
  split; [by vm_compute|apply H].
Defined.

(** Generations are exclusive: in every reachable state a transport send
    or a delivery callback that is in progress belongs to the generation
    installed for its server, so two of them for one server are on the same
    connection; and a connection that is open is the installed one, so a
    replaced generation can neither send nor deliver any more. *)
Theorem generation_exclusive (cm : ConnManager) (c c' : AgentConn) :
  reachable cm → ac_ServerID c = ac_ServerID c' →
  (c ∈ cm_sending cm ∨ c ∈ cm_delivering cm ∨ (c ∈ cm_registered cm ∧ c ∉ cm_closed cm)) →
  (c' ∈ cm_sending cm ∨ c' ∈ cm_delivering cm ∨ (c' ∈ cm_registered cm ∧ c' ∉ cm_closed cm)) →
  c = c' ∧ cm_streams cm !! ac_ServerID c = Some c.
Proof.
  intros HI%reachable_inv Hs Hc Hc'.
  assert (Hcur : ∀ d, d ∈ cm_sending cm ∨ d ∈ cm_delivering cm ∨
            (d ∈ cm_registered cm ∧ d ∉ cm_closed cm) → cm_streams cm !! ac_ServerID d = Some d).
  { intros d [Hd|[Hd|[Hd1 Hd2]]].
    - by apply (i_sending _ HI).
    - by apply (i_delivering _ HI).
    - by apply (i_open _ HI). }
  pose proof (Hcur _ Hc) as H1. pose proof (Hcur _ Hc') as H2. rewrite <- Hs in H2. split; congruence.
Qed.

Lemma generation_exclusive_witness :
  ex_conn ∈ cm_sending ex_sending ∧ cm_streams ex_sending !! "n" = Some ex_conn.
Proof.
  assert (Hs : ex_conn ∈ cm_sending ex_sending) by by vm_compute.
  split; [exact Hs|].
  exact (proj2 (generation_exclusive ex_sending ex_conn ex_conn ex_sending_reachable eq_refl
                  (or_introl Hs) (or_introl Hs))).
Defined.

(** A maintenance reservation is exclusive: when it is granted, the node
    has no admitted activity and no uncertainty; and for as long as the
    reservation is held, whatever the hub's other goroutines do, no activity of
    that node is admitted and every attempt to open a terminal, prepare an
    execution or start a file, log or application operation on it is refused. *)
Theorem maintenance_exclusive (cm cm1 cm2 : ConnManager) (c c' : AgentConn) (id : string)
    (manual : bool) (msg : HubMessage) :
  reachable cm → reserveCommit cm c id manual = (cm1, Ok tt) →
  rtc (held (ac_ServerID c)) cm1 cm2 → maintenance_of cm2 (ac_ServerID c) ≠ "" →
  ac_ServerID c' = ac_ServerID c → is_admission msg = true →
  (∀ k, key_node k = ac_ServerID c → k ∉ dom (cm_activities cm2)) ∧
  (∃ e, prepareActivitySend cm2 c' msg = (cm2, Err e)).
Proof.
  intros HI%reachable_inv Hres Hrun Hm Hs Hadm.
  destruct (reserveCommit_Ok _ _ _ _ _ _ HI Hres) as (_ & Hno & _).
  pose proof (held_no_activity _ _ _ Hrun Hno) as Hno2. split; [done|].
  unfold prepareActivitySend. destruct (negb (liveLocked cm2 c')); [by eexists|].
  destruct (messageActivity msg) as [kind mid]. rewrite Hadm, Hs.
  rewrite (bool_decide_eq_false_2 _ Hm). rewrite bool_decide_eq_true_2; [by eexists|].
  apply not_elem_of_dom, Hno2. exact Hs.
Qed.

Lemma maintenance_exclusive_witness :
  reserveCommit ex_connected ex_conn "m1" false = (ex_reserved, Ok tt) ∧
  ∃ e, prepareActivitySend ex_reserved ex_conn TerminalOpenRequest = (ex_reserved, Err e).
Proof.
  assert (Hr : reserveCommit ex_connected ex_conn "m1" false = (ex_reserved, Ok tt)) by by vm_compute.
  split; [exact Hr|].
  refine (proj2 (maintenance_exclusive ex_connected ex_reserved ex_reserved ex_conn ex_conn "m1" false
           TerminalOpenRequest ex_connected_reachable Hr (rtc_refl _ _) _ eq_refl eq_refl)).
  by vm_compute.
Defined.

(** Lost work is never forgotten: when a generation is detached while one
    of its activities had been dispatched, or while the agent had reported
    running work, its node becomes uncertain; an uncertain node is refused an
    automatic maintenance reservation; and the only steps that clear the
    uncertainty are the agent's report of zero activities and a reservation
    made with the operator's manual assertion. *)
Theorem uncertainty_persists (cm : ConnManager) :
  reachable cm →
  (∀ s c cm', detachIfCurrent cm s c = (cm', true) →
     0 < count_of cm c ∨ (∃ k, k ∈ dom (cm_activities cm) ∧ key_conn k = c ∧ Dispatched cm k = true) →
     s ∈ cm_uncertain cm') ∧
  (∀ c id cm', ac_ServerID c ∈ cm_uncertain cm → reserveCommit cm c id false ≠ (cm', Ok tt)) ∧
  (∀ n cm', step cm cm' → n ∈ cm_uncertain cm → n ∉ cm_uncertain cm' →
     (∃ stream, ObserveActivityCapabilities cm n stream 1 0 = (cm', Ok tt)) ∨
     (∃ c id, ac_ServerID c = n ∧ reserveCommit cm c id true = (cm', Ok tt))).
Proof.
  intros HI%reachable_inv. split_and!; [|clear HI|].
  - intros s c cm'. unfold detachIfCurrent.
    destruct (bool_decide _) eqn:E; simpl; [|done]. bool_hyps. intros [= <-] Hw. simpl.
    destruct (i_streams _ HI _ _ E) as [<- _].
    pose proof (endActivities_frame (Close cm c) c) as (_&_&_&_&_&_&_&_&_&_&F). apply F.
    destruct Hw as [?|(k & ? & ? & ?)]; [by left|right]. exists k.
    rewrite keys_of_conn_spec. done.
  - intros c id cm' Hu. unfold reserveCommit. repeat (case_match; try done).
    unfold activityIdleLocked in *. rewrite bool_decide_eq_true_2 in * by done. simpl in *.
    repeat case_match; done.
  - intros. by eapply step_uncertain.
Qed.

Lemma uncertainty_persists_witness :
  Dispatched ex_dispatched ex_key = true ∧ "n" ∈ cm_uncertain ex_lost.
Proof.
  split; [by vm_compute|].
  refine (proj1 (uncertainty_persists ex_dispatched ex_dispatched_reachable) "n" ex_conn ex_lost _ _);
    [by vm_compute|].
  right. exists ex_key. by vm_compute.
Defined.

(** Registering a new generation terminates within two passes of its loop
    when nothing interferes: the new connection is installed, the previous one
    is closed and no longer retiring, the node's accounting holds no activity
    of it, and no other server's connection is touched. *)
Theorem register_installs (cm : ConnManager) (s : string) (c : AgentConn) (now : Time) (fuel : nat) :
  reachable cm → c ∉ cm_registered cm → ac_ServerID c = s → (2 ≤ fuel)%nat →
  ∃ cm', Register fuel cm s c now = (cm', true) ∧
    cm_streams cm' !! s = Some c ∧ cm_retiring cm' !! s = None ∧
    (∀ p, cm_streams cm !! s = Some p → p ∈ cm_closed cm') ∧
    (∀ k, key_node k = s → k ∉ dom (cm_activities cm')) ∧
    (∀ s', s' ≠ s → cm_streams cm' !! s' = cm_streams cm !! s').
Proof.
  intros HI%reachable_inv _ _ Hf.
  change (∃ cm', Register fuel cm s c now = (cm', true) ∧ installed cm cm' s c).
  destruct fuel as [|[|fuel]]; [lia..|]. cbn [Register]. unfold registerPass at 1.
  destruct (cm_retiring cm !! s) as [r|] eqn:Er.
  { destruct (i_retiring _ HI _ _ Er) as [Hst Hcl]. rewrite Hst.
    destruct (registerRetired_installs cm s r c now) as (cm' & -> & Hi); try done; [|by exists cm'].
    intros k Hk. apply (no_activity_unless_current _ s); eauto. }
  destruct (cm_streams cm !! s) as [p|] eqn:Es.
  - destruct (detach_post cm s p HI Es) as (D1 & D2 & D3 & D4).
    set (cm1 := (detachIfCurrent cm s p).1) in *. clearbody cm1. unfold registerPass. rewrite D1, Es, D2.
    destruct (registerRetired_installs cm1 s p c now) as (cm' & -> & Hi); try done; [by rewrite D1|].
    exists cm'. split; [done|]. unfold installed in *. by rewrite D1 in Hi.
  - unfold registerInstall. rewrite Es, Er. eexists. split; [done|].
    split_and!; simpl; try done.
    + apply lookup_insert_eq.
    + by intros p ?; simplify_eq.
    + intros k Hk. apply (no_activity_unless_current _ s); eauto.
    + intros s' Hne. by rewrite lookup_insert_ne.
Qed.

Lemma register_installs_witness :
  ∃ cm', Register 2 ex_dispatched "n" ex_next 9 = (cm', true) ∧ cm_streams cm' !! "n" = Some ex_next.
Proof.
  destruct (register_installs ex_dispatched "n" ex_next 9 2 ex_dispatched_reachable)
    as (cm' & H1 & H2 & _); [by vm_compute|reflexivity|lia|].
  exact (ex_intro _ cm' (conj H1 H2)).
Defined.
