(* ===== verification/Identity.v ===== *)
(** The operating-system identity an execution runs as
    (agent/internal/executionidentity/identity.go).  What the code asks the
    operating system (the NSS tools, the process's own ids, file metadata) is a
    record of answers [OS]; the decisions taken on those answers are the
    definitions below. *)

From stdpp Require Import sorting.
From S2P Require Import Prelude Codec Filepath.

Definition Path : string := "/usr/local/sbin:/usr/local/bin:/usr/sbin:/usr/bin:/sbin:/bin".

(** [Groups] is [None] for the nil slice. *)
Record Identity := mkIdentity {
  Username : string;
  UID : Z;
  GID : Z;
  Groups : option (list Z);
  Home : string;
  Shell : string;
  Cwd : string;
  SetCredential : bool;
}.

#[export] Instance Identity_eq_dec : EqDecision Identity.
Proof. solve_decision. Defined.

(** [os/user.User] *)
Record OSUser := mkOSUser { u_Username : string; u_Uid : string; u_Gid : string; u_HomeDir : string }.

Record FileInfo := mkFileInfo { fi_dir : bool; fi_mode : Z }.

(** What the program reads from the operating system. *)
Record OS := mkOS {
  os_getent : string → result string;      (* the bounded output of getent passwd NAME *)
  os_id : string → result string;          (* the bounded output of id -G -- NAME *)
  os_euid : Z;
  os_egid : Z;
  os_groups : result (list Z);
  os_stat : string → result FileInfo;
  os_shell_env : string;                   (* $SHELL *)
}.

(** ** Names *)

Definition username_rune (r : Z) : bool :=
  between 97 122 r || between 65 90 r || between 48 57 r || (r =? 95) || (r =? 45) || (r =? 46) || (r =? 64).

Definition ValidateUsername (username : string) : result unit :=
  check! bool_decide (username = "") || (128 <? len username) || HasPrefix username "-",
    ErrText "invalid execution user";
  check! negb (forallb username_rune (runes username)), ErrText "invalid execution user";
  Ok tt.

(** ** Parsing the NSS tools' output *)

Definition ParsePasswd (line : string) : result OSUser :=
  let fields := split ":" line in
  let field i := nth i fields "" in
  check! (Z.of_nat (length fields) <? 7) || bool_decide (field 0%nat = "")
         || bool_decide (field 2%nat = "") || bool_decide (field 3%nat = ""),
    ErrText "invalid passwd entry";
  Ok (mkOSUser (field 0%nat) (field 2%nat) (field 3%nat) (field 5%nat)).

Definition ParseGroups (output : string) : result (list string) :=
  let groups := fields output in
  check! bool_decide (groups = []), ErrText "no groups found";
  Ok groups.

(** [strconv.ParseUint(s, 10, 32)]: decimal digits only, at most [2^32-1]. *)
Definition ParseUint32 (s : string) : option Z :=
  match bytes s with
  | [] => None
  | l => v ← digits_value 0 l; if v <? 2 ^ 32 then Some v else None
  end.

Definition LookupUserWithGetent (os : OS) (username : string) : result OSUser :=
  output <-! os_getent os username;
  ParsePasswd (first_line (TrimSpace output)).

Definition LookupGroupIDsWithID (os : OS) (username : string) : result (list string) :=
  output <-! os_id os username;
  ParseGroups output.

(** ** Resolution *)

Record Resolver := mkResolver {
  LookupUser : string → result OSUser;
  LookupGroups : OSUser → result (list string);
  LookupNSSUser : string → result OSUser;
  LookupNSSGroups : string → result (list string);
}.

Fixpoint parse_groups (groups : list string) : result (list Z) :=
  match groups with
  | [] => Ok []
  | g :: t =>
      match ParseUint32 g with
      | None => Err (ErrText "execution user has invalid group")
      | Some z => rest <-! parse_groups t; Ok (z :: rest)
      end
  end.

(** [append] to a nil slice leaves it nil when there is nothing to append. *)
Definition go_slice (l : list Z) : option (list Z) :=
  match l with [] => None | _ => Some l end.

Definition ResolveNamed (r : Resolver) (username : string) : result Identity :=
  _ <-! ValidateUsername username;
  found <-! (match LookupUser r username with
             | Ok u =>
                 match LookupGroups r u with
                 | Ok groups => Ok (u, Ok groups)
                 | Err _ => Ok (u, LookupNSSGroups r username)
                 end
             | Err _ =>
                 match LookupNSSUser r username with
                 | Err _ => Err (ErrText "execution user not available")
                 | Ok u => Ok (u, LookupNSSGroups r username)
                 end
             end);
  let '(u, groups) := (found : OSUser * result (list string)) in
  match groups with
  | Err _ => Err (ErrText "execution user groups not available")
  | Ok groups =>
      match ParseUint32 (u_Uid u) with
      | None => Err (ErrText "execution user has invalid uid")
      | Some uid =>
          match ParseUint32 (u_Gid u) with
          | None => Err (ErrText "execution user has invalid gid")
          | Some gid =>
              gs <-! parse_groups groups;
              Ok (mkIdentity (u_Username u) uid gid (go_slice gs) (u_HomeDir u) "" "" true)
          end
      end
  end.

Fixpoint first_shell (os : OS) (candidates : list string) : result string :=
  match candidates with
  | [] => Err (ErrText "no supported shell found on agent")
  | c :: t =>
      if bool_decide (c = "") || negb (IsAbs c) then first_shell os t
      else
        match os_stat os c with
        | Ok info => if negb (fi_dir info) && negb (Z.land (fi_mode info) 73 =? 0) then Ok c
                     else first_shell os t
        | Err _ => first_shell os t
        end
  end.

Definition ResolveShell (os : OS) : result string :=
  first_shell os [os_shell_env os; "/bin/bash"; "/usr/bin/bash"; "/bin/sh"; "/usr/bin/sh"].

Definition WorkingDirectory (os : OS) (cwd : string) : result string :=
  let cleaned := Clean cwd in
  check! negb (IsAbs cleaned), ErrText "execution cwd must be absolute";
  match os_stat os cleaned with
  | Err _ => Err (ErrText "execution cwd not available")
  | Ok info => check! negb (fi_dir info), ErrText "execution cwd must be a directory"; Ok cleaned
  end.

Definition with_shell_cwd (i : Identity) (shell cwd : string) : Identity :=
  mkIdentity (Username i) (UID i) (GID i) (Groups i) (Home i) shell cwd (SetCredential i).

Definition Resolve (os : OS) (username cwd : string) : result Identity :=
  identity <-!
    (if negb (bool_decide (username = "")) then
       ResolveNamed (mkResolver (LookupUserWithGetent os)
                       (fun u => LookupGroupIDsWithID os (u_Username u))
                       (LookupUserWithGetent os) (LookupGroupIDsWithID os)) username
     else
       match LookupUserWithGetent os (string_of_bytes (dec (os_euid os))) with
       | Err _ => Err (ErrText "current execution user not available")
       | Ok u =>
           match os_groups os with
           | Err _ => Err (ErrText "current execution groups not available")
           | Ok gs => Ok (mkIdentity (u_Username u) (u32 (os_euid os)) (u32 (os_egid os))
                            (go_slice (u32 <$> gs)) (u_HomeDir u) "" "" false)
           end
       end);
  shell <-! ResolveShell os;
  let cwd := if bool_decide (cwd = "") then Home identity else cwd in
  check! bool_decide (cwd = ""), ErrText "execution home not available";
  dir <-! WorkingDirectory os cwd;
  Ok (with_shell_cwd identity shell dir).

(** ** Credentials *)

Definition sort_groups (l : list Z) : list Z := merge_sort Z.le l.

Definition Credential (i : Identity) : option (Z * Z * list Z) :=
  if SetCredential i then Some (UID i, GID i, default [] (Groups i)) else None.

(** [None] inherits the agent's own identity. *)
Definition CredentialForExecution (os : OS) (i : Identity) : option (Z * Z * list Z) :=
  if negb (UID i =? u32 (os_euid os)) || negb (GID i =? u32 (os_egid os)) then Credential i
  else
    match os_groups os with
    | Err _ => Credential i
    | Ok current =>
        if bool_decide (sort_groups (u32 <$> current) = sort_groups (default [] (Groups i)))
        then None else Credential i
    end.

(** ** Digests *)

Definition json_field (name : string) (value : list Z) : list Z :=
  json_string name ++ 58 :: value.

(** [json.Marshal] of the identity with its groups sorted; [SetCredential] is
    excluded by its tag. *)
Definition identity_json (i : Identity) : list Z :=
  123 :: json_field "Username" (json_string (Username i))
  ++ 44 :: json_field "UID" (dec (UID i))
  ++ 44 :: json_field "GID" (dec (GID i))
  ++ 44 :: json_field "Groups" (json_uint_array (go_slice (sort_groups (default [] (Groups i)))))
  ++ 44 :: json_field "Home" (json_string (Home i))
  ++ 44 :: json_field "Shell" (json_string (Shell i))
  ++ 44 :: json_field "Cwd" (json_string (Cwd i)) ++ [125].

Definition Digest (i : Identity) : string := string_of_bytes (sha256_bytes (identity_json i)).

Definition GroupsDigest (i : Identity) : string :=
  string_of_bytes (sha256_bytes (json_uint_array (go_slice (sort_groups (default [] (Groups i)))))).

Definition Env (i : Identity) : list string :=
  ["PATH=" +:+ Path; "SHELL=" +:+ Shell i; "LANG=C.UTF-8"; "USER=" +:+ Username i;
   "LOGNAME=" +:+ Username i; "HOME=" +:+ Home i].

(** ** The identity a process gets *)

(** Starting a process with a credential runs it as that credential; without one
    it inherits the agent's ids and groups. *)
Definition process_identity (os : OS) (c : option (Z * Z * list Z)) : result (Z * Z * list Z) :=
  match c with
  | Some x => Ok x
  | None => gs <-! os_groups os; Ok (u32 (os_euid os), u32 (os_egid os), u32 <$> gs)
  end.

(** An identity that is either to be set, or the agent's own. *)
Definition admissible (os : OS) (i : Identity) : Prop :=
  SetCredential i = true ∨
  (UID i = u32 (os_euid os) ∧ GID i = u32 (os_egid os) ∧
   ∃ gs, os_groups os = Ok gs ∧ default [] (Groups i) = u32 <$> gs).

Lemma default_go_slice l : default [] (go_slice l) = l.
Proof. by destruct l. Qed.

Lemma sort_groups_perm l k : sort_groups l = sort_groups k → l ≡ₚ k.
Proof.
  intros H. rewrite <- (merge_sort_Permutation Z.le l), <- (merge_sort_Permutation Z.le k).
  unfold sort_groups in H. by rewrite H.
Qed.

Lemma credential_process os i : admissible os i → ∃ gs,
  process_identity os (CredentialForExecution os i) = Ok (UID i, GID i, gs) ∧ gs ≡ₚ default [] (Groups i).
Proof.
  intros [Hs|(Hu & Hg & gs & Hgs & Hd)]; unfold CredentialForExecution.
  - assert (Hc : Credential i = Some (UID i, GID i, default [] (Groups i))) by (unfold Credential; by rewrite Hs).
    rewrite Hc. destruct (negb _ || negb _) eqn:G; [by eauto|]. bool_hyps. z_hyps.
    destruct (os_groups os) as [current|] eqn:Hgs; [|by eauto].
    destruct (bool_decide _) eqn:E; [|by eauto]. apply bool_decide_eq_true in E.
    eexists. simpl. rewrite Hgs, H, H0. split; [reflexivity|]. by apply sort_groups_perm.
  - rewrite Hu, Hg, !Z.eqb_refl, Hgs, Hd, bool_decide_eq_true_2 by done. simpl. rewrite Hgs. eauto.
Qed.

Lemma ResolveNamed_set r username i : ResolveNamed r username = Ok i → SetCredential i = true.
Proof. unfold ResolveNamed. intros H. by guards_in H. Qed.

Lemma first_shell_sound os cs shell : first_shell os cs = Ok shell →
  IsAbs shell = true ∧ ∃ info, os_stat os shell = Ok info ∧ fi_dir info = false ∧ Z.land (fi_mode info) 73 ≠ 0.
Proof.
  induction cs as [|c cs IH]; simpl; [done|]. intros H.
  destruct (bool_decide (c = "") || negb (IsAbs c)) eqn:G; [by apply IH|]. bool_hyps.
  destruct (os_stat os c) as [info|] eqn:S; [|by apply IH].
  destruct (negb (fi_dir info) && _) eqn:M; [|by apply IH]. injection H as <-. bool_hyps. z_hyps. eauto.
Qed.

Lemma WorkingDirectory_sound os cwd dir : WorkingDirectory os cwd = Ok dir →
  IsAbs dir = true ∧ ∃ info, os_stat os dir = Ok info ∧ fi_dir info = true.
Proof. unfold WorkingDirectory. intros H. guards_in H. bool_hyps. eauto. Qed.

Lemma Resolve_admissible os username cwd i : Resolve os username cwd = Ok i → ∃ i0,
  admissible os i0 ∧ ∃ shell dir home, ResolveShell os = Ok shell ∧ WorkingDirectory os home = Ok dir ∧
  i = with_shell_cwd i0 shell dir.
Proof.
  unfold Resolve. intros H. destruct (if negb _ then _ else _) as [i0|] eqn:R; [|done].
  destruct (ResolveShell os) as [shell|] eqn:S; [|done]. simpl in H.
  set (home := if bool_decide (cwd = "") then Home i0 else cwd) in H. destruct (bool_decide (home = "")); [done|].
  destruct (WorkingDirectory os home) as [dir|] eqn:W; [|done]. injection H as <-. exists i0. split; [|by eauto 6].
  destruct (negb (bool_decide (username = ""))); [left; by eapply ResolveNamed_set|]. right.
  destruct (LookupUserWithGetent _ _) as [u|]; [|done]. destruct (os_groups os) as [gs|] eqn:G; [|done].
  injection R as <-. simpl. rewrite default_go_slice. eauto.
Qed.

(** ** Properties *)

(** A resolved identity runs as itself: whenever [Resolve] returns an
    identity, for a named user or for the agent's own, the process started with
    [CredentialForExecution] (which may inherit the agent's identity instead of
    setting one) has exactly its uid and gid and, up to order, its groups; its
    shell is an absolute path of an executable file and its working directory an
    absolute path of a directory. *)
Theorem runs_as_resolved os username cwd i : Resolve os username cwd = Ok i →
  (∃ gs, process_identity os (CredentialForExecution os i) = Ok (UID i, GID i, gs) ∧ gs ≡ₚ default [] (Groups i)) ∧
  (IsAbs (Shell i) = true ∧ ∃ info, os_stat os (Shell i) = Ok info ∧ fi_dir info = false ∧
     Z.land (fi_mode info) 73 ≠ 0) ∧
  IsAbs (Cwd i) = true ∧ ∃ info, os_stat os (Cwd i) = Ok info ∧ fi_dir info = true.
Proof.
  intros H. destruct (Resolve_admissible os username cwd i H) as (i0 & Ha & shell & dir & home & S & W & ->).
  split; [exact (credential_process os (with_shell_cwd i0 shell dir) Ha)|].
  split; [exact (first_shell_sound os _ shell S)|exact (WorkingDirectory_sound os home dir W)].
Qed.

(** An agent running as uid 1000 that can look up its own user. *)
Definition sample_os : OS :=
  mkOS (fun name => if bool_decide (name = "alice")
                    then Ok "alice:x:1000:1000:Alice:/home/alice:/bin/bash" else Err (ErrText "unknown"))
       (fun _ => Ok "1000 27") 1000 1000 (Ok [27; 1000])
       (fun p => if bool_decide (p = "/bin/bash") then Ok (mkFileInfo false 493) else Ok (mkFileInfo true 493))
       "/bin/bash".
Definition alice : Identity :=
  mkIdentity "alice" 1000 1000 (Some [1000; 27]) "/home/alice" "/bin/bash" "/home/alice" true.

Lemma runs_as_resolved_witness : Resolve sample_os "alice" "" = Ok alice ∧
  CredentialForExecution sample_os alice = None ∧
  ∃ gs, process_identity sample_os (CredentialForExecution sample_os alice) = Ok (1000, 1000, gs).
Proof.
  assert (H : Resolve sample_os "alice" "" = Ok alice) by (vm_compute; reflexivity).
  split; [exact H|]. split; [vm_compute; reflexivity|].
  destruct (runs_as_resolved sample_os "alice" "" alice H) as ((gs & E & _) & _). exists gs. exact E.
Defined.
