(* ===== verification/Journal.v ===== *)
(** The agent's durable launch journal (agent/internal/execution/journal.go).

    The journal directory is a map from file names to contents, together with
    the set of names whose directory entry is known to survive a crash (the
    file and the directory were synced after it was created).  The outcome of
    every system call is an input of the operation that makes it.  The
    temporary files of [update] (".journal-*") never collide with an entry's
    name and are removed again; they have no entry here. *)

From S2P Require Import Prelude Codec.

(** ** Data *)

Record ExecutionBinding := mkBinding {
  ExecutionId : string;
  NodeId : string;
  PreparationId : string;
  BootId : string;
  ExpiresUnixMilli : Z;
}.

#[export] Instance ExecutionBinding_eq_dec : EqDecision ExecutionBinding.
Proof. solve_decision. Defined.

Record ExecutionResult := mkResult {
  r_Binding : ExecutionBinding;
  r_State : string;
  r_ExitCode : Z;
  r_Signal : string;
  r_Reason : string;
  r_StdoutComplete : bool;
  r_StderrComplete : bool;
}.

#[export] Instance ExecutionResult_eq_dec : EqDecision ExecutionResult.
Proof. solve_decision. Defined.

Record LaunchRecord := mkLaunch {
  l_Binding : option ExecutionBinding;
  CommandSHA256 : string;
  IdentitySHA256 : string;
  PolicyVersion : string;
  State : string;
  Result : option ExecutionResult;
}.

Definition ErrAlreadyClaimed : goerr := Sentinel "ErrAlreadyClaimed".

(** What a file holds: a marshalled record and its length in bytes, or bytes
    that do not unmarshal to a record (a torn write, foreign data). *)
Inductive fileContent :=
| FRecord (r : LaunchRecord) (n : Z)
| FGarbage.

Record Journal := mkJournal {
  j_files : gmap string fileContent;
  j_durable : gset string;
  j_records : gmap string LaunchRecord;
}.

(** Outcomes of the system calls; [true] is success. *)
Record read_io := mkReadIO { ro_open : bool; ro_read : bool }.
Record claim_io := mkClaimIO {
  co_open : bool; co_len : Z; co_write : bool; co_sync : bool; co_close : bool; co_dir : bool;
}.
Record update_io := mkUpdateIO {
  uo_read : read_io; uo_create : bool; uo_chmod : bool; uo_len : Z; uo_write : bool; uo_sync : bool;
  uo_close : bool; uo_rename : bool; uo_dir : bool;
}.
(** Opening, syncing and closing one directory of the journal's path. *)
Record dir_io := mkDirIO { do_open : bool; do_sync : bool; do_close : bool }.

(** ** Operations *)

(** [openJournal]: the directory is made, and it and its ancestors up to the
    root are synced; nothing is loaded. *)
Fixpoint sync_ancestors (dirs : list dir_io) : result unit :=
  match dirs with
  | [] => Ok tt
  | d :: t =>
      check! negb (do_open d), ErrText "open execution journal directory";
      check! negb (do_sync d), ErrText "execution journal directory not durable";
      check! negb (do_close d), ErrText "close execution journal directory";
      sync_ancestors t
  end.

Definition openJournal (files : gmap string fileContent) (durable : gset string)
    (abs mkdir chmod : bool) (dirs : list dir_io) : result Journal :=
  check! negb abs, ErrText "absolute path";
  check! negb mkdir, ErrText "create execution journal";
  check! negb chmod, ErrText "chmod execution journal";
  _ <-! sync_ancestors dirs;
  Ok (mkJournal files durable ∅).

Definition journalName (id : string) : string :=
  string_of_bytes (hex_encode (sha256_bytes (bytes id))) +:+ ".json".

Definition unknownRecord (id : string) : LaunchRecord :=
  mkLaunch (Some (mkBinding id "" "" "" 0)) "" "" "" "outcome_unknown" None.

Definition with_state (r : LaunchRecord) (state : string) (res : option ExecutionResult) : LaunchRecord :=
  mkLaunch (l_Binding r) (CommandSHA256 r) (IdentitySHA256 r) (PolicyVersion r) state res.

Definition readRecord (j : Journal) (id : string) (io : read_io) : option LaunchRecord :=
  match j_files j !! journalName id with
  | None => None
  | Some content =>
      if negb (ro_open io) then Some (unknownRecord id)
      else if negb (ro_read io) then Some (unknownRecord id)
      else
        match content with
        | FGarbage => Some (unknownRecord id)
        | FRecord r n =>
            if 65536 <? n then Some (unknownRecord id)
            else
              match l_Binding r with
              | None => Some (unknownRecord id)
              | Some b =>
                  if negb (bool_decide (ExecutionId b = id)) then Some (unknownRecord id)
                  else if bool_decide (State r = "claimed") || bool_decide (State r = "running")
                  then Some (with_state r "outcome_unknown" (Result r))
                  else Some r
              end
        end
  end.

Definition lookupRecord (j : Journal) (id : string) (io : read_io) : option LaunchRecord :=
  match j_records j !! id with
  | Some r => Some r
  | None => readRecord j id io
  end.

(** The returned copy is made through JSON. *)
Definition Status (j : Journal) (id : string) (io : read_io) : option LaunchRecord :=
  lookupRecord j id io.

Definition with_file (j : Journal) (name : string) (c : fileContent) : Journal :=
  mkJournal (<[name := c]> (j_files j)) (j_durable j) (j_records j).
Definition with_durable (j : Journal) (name : string) : Journal :=
  mkJournal (j_files j) ({[name]} ∪ j_durable j) (j_records j).
Definition with_record (j : Journal) (id : string) (r : LaunchRecord) : Journal :=
  mkJournal (j_files j) (j_durable j) (<[id := r]> (j_records j)).
Definition drop_record (j : Journal) (id : string) : Journal :=
  mkJournal (j_files j) (j_durable j) (delete id (j_records j)).

Definition Claim (j : Journal) (binding : ExecutionBinding) (commandHash identityHash policy : string)
    (io : claim_io) : Journal * result LaunchRecord :=
  let id := ExecutionId binding in
  match j_records j !! id with
  | Some _ => (j, Err ErrAlreadyClaimed)
  | None =>
      let record := mkLaunch (Some binding) commandHash identityHash policy "claimed" None in
      match j_files j !! journalName id with
      | Some _ => (j, Err ErrAlreadyClaimed)
      | None =>
          if negb (co_open io) then (j, Err (ErrText "claim execution journal"))
          else
            let j1 := with_record (with_file j (journalName id)
                        (if co_write io then FRecord record (co_len io) else FGarbage)) id record in
            if co_write io && co_sync io && co_close io && co_dir io
            then (with_durable j1 (journalName id), Ok record)
            else (drop_record j1 id, Err (ErrText "execution claim not durable"))
      end
  end.

Definition update (j : Journal) (id state : string) (res : option ExecutionResult) (io : update_io)
    : Journal * result unit :=
  match lookupRecord j id (uo_read io) with
  | None => (j, Err (ErrText "execution not claimed"))
  | Some old =>
      let next := with_state old state res in
      if negb (uo_create io) then (j, Err (ErrText "create journal temporary"))
      else if negb (uo_chmod io && uo_write io && uo_sync io && uo_close io && uo_rename io)
      then (drop_record j id, Err (ErrText "execution journal update not durable"))
      else
        let j1 := with_file j (journalName id) (FRecord next (uo_len io)) in
        if negb (uo_dir io)
        then (drop_record j1 id, Err (ErrText "execution journal update not durable"))
        else
          let j2 := with_durable j1 (journalName id) in
          (if bool_decide (state = "running") then with_record j2 id next else drop_record j2 id, Ok tt)
  end.

Definition RecordRunning (j : Journal) (id : string) (io : update_io) := update j id "running" None io.
Definition RecordResult (j : Journal) (r : ExecutionResult) (io : update_io) :=
  update j (ExecutionId (r_Binding r)) (r_State r) (Some r) io.

(** A crash or restart: memory is lost, and of the directory only the durable
    entries are known to remain; contents and other entries are arbitrary. *)
Definition crash (j j' : Journal) : Prop :=
  j_records j' = ∅ ∧ j_durable j' = j_durable j ∧
  ∀ n, n ∈ j_durable j → is_Some (j_files j' !! n).

Inductive jstep (j : Journal) : Journal → Prop :=
| JClaim b ch ih p io : jstep j (Claim j b ch ih p io).1
| JUpdate id st res io : jstep j (update j id st res io).1
| JCrash j' : crash j j' → jstep j j'.

(** Durable names have a file, and what is in memory is also on disk. *)
Definition journal_inv (j : Journal) : Prop :=
  (∀ n, n ∈ j_durable j → is_Some (j_files j !! n)) ∧
  (∀ id, is_Some (j_records j !! id) → is_Some (j_files j !! journalName id)).

Definition claimed (j : Journal) (id : string) : Prop := journalName id ∈ j_durable j.

Definition empty_journal : Journal := mkJournal ∅ ∅ ∅.
Definition ex_binding : ExecutionBinding := mkBinding "e1" "n1" "p1" "b1" 1000.
Definition io_ok : claim_io := mkClaimIO true 200 true true true true.
Definition ex_claimed : Journal := (Claim empty_journal ex_binding "c" "i" "v" io_ok).1.
Definition upd_ok : update_io := mkUpdateIO (mkReadIO true true) true true 200 true true true true true.

(** ** Lemmas *)

Lemma insert_is_Some {A} (m : gmap string A) k v n :
  is_Some (m !! n) ∨ n = k → is_Some (<[k := v]> m !! n).
Proof. rewrite lookup_insert_is_Some. destruct (decide (k = n)); naive_solver. Qed.

Lemma drop_record_inv j id : journal_inv j → journal_inv (drop_record j id).
Proof.
  intros [H1 H2]. split; simpl; [done|]. intros n [r Hr]. apply H2.
  apply lookup_delete_Some in Hr as [_ Hr]. by exists r.
Qed.

Lemma with_file_inv j name c : journal_inv j → journal_inv (with_file j name c).
Proof. intros [H1 H2]. split; simpl; intros n Hn; apply insert_is_Some; left; auto. Qed.

Lemma with_durable_inv j name : journal_inv j → is_Some (j_files j !! name) → journal_inv (with_durable j name).
Proof.
  intros [H1 H2] Hf. split; simpl; [|done].
  intros n [->%elem_of_singleton|Hn]%elem_of_union; auto.
Qed.

Lemma with_record_inv j id r : journal_inv j → is_Some (j_files j !! journalName id) → journal_inv (with_record j id r).
Proof.
  intros [H1 H2] Hf. split; simpl; [done|]. intros n Hn.
  apply lookup_insert_is_Some in Hn as [<-|[_ Hn]]; auto.
Qed.

#[export] Hint Resolve drop_record_inv with_file_inv with_durable_inv with_record_inv : veyport.

Lemma with_file_has j name c : is_Some (j_files (with_file j name c) !! name).
Proof. simpl. apply insert_is_Some. by right. Qed.
#[export] Hint Resolve with_file_has : veyport.

Lemma Claim_inv j b ch ih p io : journal_inv j → journal_inv (Claim j b ch ih p io).1.
Proof.
  intros HI. unfold Claim. destruct (j_records j !! _); [done|]. destruct (j_files j !! _); [done|].
  destruct (negb (co_open io)); [done|].
  set (c := if co_write io then _ else _). set (name := journalName (ExecutionId b)).
  pose proof (with_record_inv _ (ExecutionId b) (mkLaunch (Some b) ch ih p "claimed" None)
                (with_file_inv j name c HI) (with_file_has j name c)).
  destruct (_ && _); simpl; [|by apply drop_record_inv].
  apply with_durable_inv; [done|]. apply (with_file_has j name c).
Qed.

Lemma update_inv j id st res io : journal_inv j → journal_inv (update j id st res io).1.
Proof.
  intros HI. unfold update.
  repeat (case_match; simpl; auto with veyport).
  apply with_record_inv; [auto with veyport|]. apply with_file_has.
Qed.

Lemma jstep_inv j j' : journal_inv j → jstep j j' → journal_inv j'.
Proof.
  intros HI [b ch ih p io|id st res io|j2 (H1 & H2 & H3)]; [by apply Claim_inv|by apply update_inv|].
  split; [by rewrite H2|]. intros id. rewrite H1, lookup_empty. by intros [].
Qed.

(** Durable names are never given up. *)
Lemma Claim_durable j b ch ih p io : j_durable j ⊆ j_durable (Claim j b ch ih p io).1.
Proof. unfold Claim. repeat (case_match; simpl; try done). set_solver. Qed.

Lemma update_durable j id st res io : j_durable j ⊆ j_durable (update j id st res io).1.
Proof. unfold update. repeat (case_match; simpl; try done); set_solver. Qed.

Lemma jstep_durable j j' : jstep j j' → j_durable j ⊆ j_durable j'.
Proof.
  intros [b ch ih p io|id st res io|j2 (H1 & H2 & H3)];
    [apply Claim_durable|apply update_durable|by rewrite H2].
Qed.

Lemma jsteps_durable j j' : rtc jstep j j' → journal_inv j → j_durable j ⊆ j_durable j' ∧ journal_inv j'.
Proof.
  induction 1 as [|a b c Hab _ IH]; intros HI; [done|].
  destruct (IH (jstep_inv _ _ HI Hab)) as [H1 H2]. split; [|done].
  etransitivity; [by apply jstep_durable|done].
Qed.

(** An accepted claim found no file, and leaves a durable one. *)
Lemma Claim_Ok j b ch ih p io j' r : Claim j b ch ih p io = (j', Ok r) →
  j_files j !! journalName (ExecutionId b) = None ∧ claimed j' (ExecutionId b) ∧
  r = mkLaunch (Some b) ch ih p "claimed" None ∧ j_records j' !! ExecutionId b = Some r.
Proof.
  unfold Claim. intros H. guards_in H. unfold claimed. simpl.
  split_and!; try done; [set_solver|apply lookup_insert_eq].
Qed.

Lemma claimed_no_Claim j b ch ih p io : journal_inv j → claimed j (ExecutionId b) →
  Claim j b ch ih p io = (j, Err ErrAlreadyClaimed).
Proof.
  intros [H1 _] Hc. destruct (H1 _ Hc) as [c Hf]. unfold Claim. rewrite Hf.
  by destruct (j_records j !! _).
Qed.

Lemma claimed_Status j id io : journal_inv j → claimed j id → is_Some (Status j id io).
Proof.
  intros [H1 _] Hc. destruct (H1 _ Hc) as [c Hf]. unfold Status, lookupRecord, readRecord.
  rewrite Hf. repeat case_match; by eexists.
Qed.

Lemma Status_None j id io : Status j id io = None →
  j_records j !! id = None ∧ j_files j !! journalName id = None.
Proof.
  unfold Status, lookupRecord, readRecord. destruct (j_records j !! id); [done|].
  destruct (j_files j !! journalName id); [|done]. repeat (case_match; try done).
Qed.

Lemma readRecord_settled j id io r : readRecord j id io = Some r →
  State r ≠ "claimed" ∧ State r ≠ "running".
Proof.
  unfold readRecord. intros H. guards_in H; simpl; try done. bool_hyps. done.
Qed.

(** ** Properties *)

(** A claim is spent once and for all: after an execution id has been
    claimed, any number of later journal operations, failed writes, crashes and
    restarts later, another claim of it is refused with [ErrAlreadyClaimed] and
    its status is still known; and a status that is not held in memory never
    says "claimed" or "running", so work interrupted by a crash is reported as
    "outcome_unknown" and never as still in progress. *)
Theorem claim_once (j j1 j2 : Journal) (b b' : ExecutionBinding) (ch ih p ch' ih' p' : string)
    (io io' : claim_io) (r : LaunchRecord) (rio : read_io) :
  journal_inv j → Claim j b ch ih p io = (j1, Ok r) → rtc jstep j1 j2 →
  ExecutionId b' = ExecutionId b →
  Claim j2 b' ch' ih' p' io' = (j2, Err ErrAlreadyClaimed) ∧
  (∃ s, Status j2 (ExecutionId b) rio = Some s ∧
        (j_records j2 !! ExecutionId b = None → State s ≠ "claimed" ∧ State s ≠ "running")).
Proof.
  intros HI Hc Hrun He. pose proof (Claim_inv j b ch ih p io HI) as HI1. rewrite Hc in HI1.
  destruct (Claim_Ok _ _ _ _ _ _ _ _ Hc) as (_ & Hd & _).
  destruct (jsteps_durable _ _ Hrun HI1) as [Hsub HI2]. apply Hsub in Hd.
  split; [apply claimed_no_Claim; [done|by rewrite He]|].
  destruct (claimed_Status j2 (ExecutionId b) rio HI2 Hd) as [s Hs]. exists s. split; [done|].
  intros Hn. unfold Status, lookupRecord in Hs. rewrite Hn in Hs. by eapply readRecord_settled.
Qed.

Lemma claim_once_witness :
  Claim ex_claimed ex_binding "c2" "i2" "v2" io_ok = (ex_claimed, Err ErrAlreadyClaimed).
Proof.
  refine (proj1 (claim_once empty_journal ex_claimed ex_claimed ex_binding ex_binding "c" "i" "v"
     "c2" "i2" "v2" io_ok io_ok (mkLaunch (Some ex_binding) "c" "i" "v" "claimed" None)
     (mkReadIO true true) _ _ (rtc_refl _ _) eq_refl)).
  - split; intros n; rewrite ?lookup_empty; [set_solver|by intros []].
  - reflexivity.
Defined.

(** A recorded result is what is read back: after a result has been
    recorded for a claimed execution, its status is that result with the
    claimed binding and hashes, from the same process and from the file alone
    after a restart that kept the directory. *)
Theorem result_roundtrip (j j1 j2 : Journal) (b : ExecutionBinding) (ch ih p : string)
    (io : claim_io) (r : LaunchRecord) (res : ExecutionResult) (uio : update_io) (rio : read_io) :
  Claim j b ch ih p io = (j1, Ok r) → r_Binding res = b →
  r_State res ∉ ["claimed"; "running"] → uo_len uio ≤ 65536 →
  ro_open rio = true → ro_read rio = true →
  RecordResult j1 res uio = (j2, Ok tt) →
  Status j2 (ExecutionId b) rio = Some (mkLaunch (Some b) ch ih p (r_State res) (Some res)) ∧
  Status (mkJournal (j_files j2) (j_durable j2) ∅) (ExecutionId b) rio = Status j2 (ExecutionId b) rio.
Proof.
  intros Hc <- Hst Hlen Ho Hr Hu. destruct (Claim_Ok _ _ _ _ _ _ _ _ Hc) as (_ & _ & -> & Hrec).
  unfold RecordResult, update, lookupRecord in Hu. rewrite Hrec in Hu.
  rewrite bool_decide_eq_false_2 in Hu by set_solver. guards_in Hu.
  unfold Status, lookupRecord, readRecord. simpl. rewrite lookup_delete_eq, lookup_insert_eq, lookup_empty.
  rewrite Ho, Hr. simpl. destruct (Z.ltb_spec 65536 (uo_len uio)); [lia|].
  rewrite bool_decide_eq_true_2 by done. simpl.
  rewrite !bool_decide_eq_false_2 by set_solver. done.
Qed.

Lemma result_roundtrip_witness :
  let res := mkResult ex_binding "exited" 0 "" "" true true in
  Status (RecordResult ex_claimed res upd_ok).1 "e1" (mkReadIO true true)
    = Some (mkLaunch (Some ex_binding) "c" "i" "v" "exited" (Some res)).
Proof.
  refine (proj1 (result_roundtrip empty_journal ex_claimed _ ex_binding "c" "i" "v" io_ok
     (mkLaunch (Some ex_binding) "c" "i" "v" "claimed" None)
     (mkResult ex_binding "exited" 0 "" "" true true) upd_ok (mkReadIO true true) _ _ _ _ _ _ _));
    try reflexivity.
  - set_solver.
  - vm_compute. discriminate.
Defined.
