(* ===== verification/Execution.v ===== *)
(** The agent's execution manager (agent/internal/execution/manager.go and
    script.go): preparation of a command, its attachment, protected script
    delivery, the launch with its durable claim, cancellation, shutdown and the
    session slot each of them holds.

    [m.mu] protects the four maps; a [Prepare] or [Start] call runs several
    critical sections with I/O between them, so each is several operations
    here, and what its goroutine remembers between them is kept in the entry it
    owns ([m_pending], [m_launching]).  A slot is given back after the section
    that removed the entry; [m_owed] counts the goroutines between the two.
    [m_ext] counts the slots held by the other users of the budget and
    [m_launches] is the history of started processes; both are ghosts. *)

From S2P Require Import Prelude Codec Identity Budget Journal.

(** ** Messages *)

Record ExecutionLimits := mkLimits {
  l_MaxFrameBytes : Z; l_MaxBufferBytes : Z; l_RuntimeSeconds : Z;
  l_TermGraceSeconds : Z; l_BlockedConsumerSeconds : Z;
}.

#[export] Instance ExecutionLimits_eq_dec : EqDecision ExecutionLimits.
Proof. solve_decision. Defined.

Record ExecutionPrepare := mkPrepare {
  q_ExecutionId : string; q_NodeId : string; q_RunAsUser : string; q_Command : string;
  q_Cwd : string; q_Limits : option ExecutionLimits; q_Enhanced : bool;
  q_ScriptSha256 : string; q_ScriptLength : Z;
}.

Record ExecutionIdentity := mkExecIdentity {
  ei_Username : string; ei_Uid : Z; ei_Gid : Z; ei_Groups : list Z; ei_GroupsSha256 : string;
  ei_Home : string; ei_Shell : string; ei_Cwd : string; ei_IdentitySha256 : string;
}.

(** A successful [ExecutionPrepared]; a failed one is an [Err] with its text. *)
Record ExecutionPrepared := mkPrepared {
  ep_ExecutionId : string; ep_Binding : ExecutionBinding; ep_Identity : ExecutionIdentity;
  ep_CommandSha256 : string; ep_Limits : ExecutionLimits;
}.

Record ExecutionStart := mkStart {
  s_Binding : ExecutionBinding; s_CommandSha256 : string; s_IdentitySha256 : string;
  s_Limits : option ExecutionLimits; s_PolicyVersion : string; s_AdmissionReceipt : string;
  s_AdmissionExpiresUnixMilli : Z;
}.

Definition MaxCommandBytes : Z := 32 * 1024.
Definition MaxFrameBytes : Z := 64 * 1024.
Definition MaxBufferBytes : Z := 2 * 1024 * 1024.
Definition MaxScriptBytes : Z := 16 * 1024 * 1024.

(** ** State *)

Record preparation := mkPrep {
  p_ptr : nat;
  p_response : ExecutionPrepared;
  p_identity : Identity;
  p_command : string;
  p_runAsUser : string;
  p_attached : bool;
  p_enhanced : bool;
  p_scriptHash : string;
  p_scriptLength : Z;
  p_scriptOffset : Z;
  p_scriptComplete : bool;
  p_script : option string;      (* what was written to the spool file and its digest *)
}.

(** Where a [Start] call is, after its first section. *)
Inductive phase :=
| LResolving                     (* identity check and claim ahead *)
| LClaimed                       (* claimed; first authority check ahead *)
| LAuthorized                    (* second authority check and process start ahead *)
| LStarted                       (* process started, not yet recorded as running *)
| LRecorded                      (* recorded; not yet among the runs *)
| LDone (launched : bool).       (* only the deferred cleanup is left *)

Record launch := mkLaunching {
  la_prep : preparation;
  la_start : ExecutionStart;
  la_cancelled : bool;
  la_phase : phase;
}.

Record run := mkRun { run_binding : ExecutionBinding; run_reason : option string }.

(** A process the manager started. *)
Record launchEvent := mkEvent {
  le_prep : preparation; le_start : ExecutionStart; le_now : Time; le_boot : string;
}.
Definition le_id (e : launchEvent) : string := ExecutionId (s_Binding (le_start e)).

Record Manager (B : Type) := mkManager {
  m_nodeID : string;
  m_bootID : string;
  m_ttl : Duration;
  m_journal : Journal;
  m_budget : B;
  m_prepared : gmap string preparation;
  m_pending : gmap string bool;          (* the flag [installed] of the Prepare call *)
  m_launching : gmap string launch;
  m_runs : gmap string run;
  m_closed : bool;
  m_owed : nat;
  m_ext : nat;
  m_next : nat;
  m_launches : list launchEvent;
}.
Arguments mkManager {B}.
Arguments m_nodeID {B}. Arguments m_bootID {B}. Arguments m_ttl {B}. Arguments m_journal {B}.
Arguments m_budget {B}. Arguments m_prepared {B}. Arguments m_pending {B}. Arguments m_launching {B}.
Arguments m_runs {B}. Arguments m_closed {B}. Arguments m_owed {B}. Arguments m_ext {B}.
Arguments m_next {B}. Arguments m_launches {B}.

(** Limits, scripts and interpreters *)

Definition normalizeLimits (limits : option ExecutionLimits) : result ExecutionLimits :=
  match limits with
  | None => Ok (mkLimits MaxFrameBytes MaxBufferBytes 3600 5 60)
  | Some l =>
      check! (negb (l_MaxFrameBytes l =? 0) && negb (l_MaxFrameBytes l =? MaxFrameBytes))
             || (negb (l_MaxBufferBytes l =? 0) && negb (l_MaxBufferBytes l =? MaxBufferBytes))
             || (negb (l_TermGraceSeconds l =? 0) && negb (l_TermGraceSeconds l =? 5))
             || (negb (l_BlockedConsumerSeconds l =? 0) && negb (l_BlockedConsumerSeconds l =? 60))
             || (3600 <? l_RuntimeSeconds l),
        ErrText "unsupported execution limits";
      Ok (mkLimits MaxFrameBytes MaxBufferBytes
            (if negb (l_RuntimeSeconds l =? 0) then l_RuntimeSeconds l else 3600) 5 60)
  end.

Definition ScriptInterpreter (command : string) : string :=
  if bool_decide (command = "bash -s") || bool_decide (command = "/bin/bash -s") then "/bin/bash"
  else if bool_decide (command = "sh -s") || bool_decide (command = "/bin/sh -s") then "/bin/sh"
  else "".

Definition withInterpreter (stat : string → result FileInfo) (i : Identity) (interpreter : string)
    : result Identity :=
  match stat interpreter with
  | Err _ => Err (ErrText "protected interpreter unavailable")
  | Ok info =>
      check! fi_dir info || (Z.land (fi_mode info) 73 =? 0), ErrText "protected interpreter unavailable";
      Ok (with_shell_cwd i interpreter (Cwd i))
  end.

(** The identity of a request or preparation: [m.resolve], then the interpreter
    of a protected script. *)
Definition resolveFor (resolve : string → string → result Identity) (stat : string → result FileInfo)
    (user cwd command : string) (enhanced : bool) : result Identity :=
  i <-! resolve user cwd;
  if enhanced && negb (bool_decide (ScriptInterpreter command = ""))
  then withInterpreter stat i (ScriptInterpreter command)
  else Ok i.

Definition identityMessage (i : Identity) : ExecutionIdentity :=
  mkExecIdentity (Username i) (UID i) (GID i) (default [] (Groups i)) (GroupsDigest i)
    (Home i) (Shell i) (Cwd i) (Digest i).

(** The checks of [Prepare] before its first critical section.  [spool] is
    whether protected storage is configured and ready. *)
Definition prepareChecks (nodeID : string) (j : Journal) (spool : bool) (req : ExecutionPrepare)
    (io : read_io) : result ExecutionLimits :=
  check! bool_decide (q_ExecutionId req = "") || (128 <? len (q_ExecutionId req))
         || negb (bool_decide (q_NodeId req = nodeID)),
    ErrText "invalid execution ownership";
  let interpreter := ScriptInterpreter (q_Command req) in
  check! q_Enhanced req && negb spool, ErrText "protected encrypted input storage unavailable";
  check! q_Enhanced req &&
         ((MaxScriptBytes <? q_ScriptLength req)
          || (negb (bool_decide (interpreter = "")) && negb (len (q_ScriptSha256 req) =? sha256_Size))
          || (bool_decide (interpreter = "")
              && (negb (len (q_ScriptSha256 req) =? 0) || negb (q_ScriptLength req =? 0)))),
    ErrText "invalid protected script binding";
  check! negb (q_Enhanced req) && (negb (len (q_ScriptSha256 req) =? 0) || negb (q_ScriptLength req =? 0)),
    ErrText "script binding requires protected admission";
  check! bool_decide (q_Command req = "") || (MaxCommandBytes <? len (q_Command req))
         || negb (ValidUTF8 (q_Command req)) || ContainsNUL (q_Command req),
    ErrText "invalid execution command";
  match Status j (q_ExecutionId req) io with
  | Some _ => Err ErrAlreadyClaimed
  | None => normalizeLimits (q_Limits req)
  end.

(** ** Operations *)

Section manager.
Context {B : Type} `{SB : SlotBudget B}.
Abbreviation M := (Manager B) (only parsing).

Definition with_journal (m : M) v : M := mkManager (m_nodeID m) (m_bootID m) (m_ttl m) v (m_budget m) (m_prepared m) (m_pending m) (m_launching m) (m_runs m) (m_closed m) (m_owed m) (m_ext m) (m_next m) (m_launches m).
Definition with_budget (m : M) v : M := mkManager (m_nodeID m) (m_bootID m) (m_ttl m) (m_journal m) v (m_prepared m) (m_pending m) (m_launching m) (m_runs m) (m_closed m) (m_owed m) (m_ext m) (m_next m) (m_launches m).
Definition with_prepared (m : M) v : M := mkManager (m_nodeID m) (m_bootID m) (m_ttl m) (m_journal m) (m_budget m) v (m_pending m) (m_launching m) (m_runs m) (m_closed m) (m_owed m) (m_ext m) (m_next m) (m_launches m).
Definition with_pending (m : M) v : M := mkManager (m_nodeID m) (m_bootID m) (m_ttl m) (m_journal m) (m_budget m) (m_prepared m) v (m_launching m) (m_runs m) (m_closed m) (m_owed m) (m_ext m) (m_next m) (m_launches m).
Definition with_launching (m : M) v : M := mkManager (m_nodeID m) (m_bootID m) (m_ttl m) (m_journal m) (m_budget m) (m_prepared m) (m_pending m) v (m_runs m) (m_closed m) (m_owed m) (m_ext m) (m_next m) (m_launches m).
Definition with_runs (m : M) v : M := mkManager (m_nodeID m) (m_bootID m) (m_ttl m) (m_journal m) (m_budget m) (m_prepared m) (m_pending m) (m_launching m) v (m_closed m) (m_owed m) (m_ext m) (m_next m) (m_launches m).
Definition with_closed (m : M) v : M := mkManager (m_nodeID m) (m_bootID m) (m_ttl m) (m_journal m) (m_budget m) (m_prepared m) (m_pending m) (m_launching m) (m_runs m) v (m_owed m) (m_ext m) (m_next m) (m_launches m).
Definition with_owed (m : M) v : M := mkManager (m_nodeID m) (m_bootID m) (m_ttl m) (m_journal m) (m_budget m) (m_prepared m) (m_pending m) (m_launching m) (m_runs m) (m_closed m) v (m_ext m) (m_next m) (m_launches m).
Definition with_ext (m : M) v : M := mkManager (m_nodeID m) (m_bootID m) (m_ttl m) (m_journal m) (m_budget m) (m_prepared m) (m_pending m) (m_launching m) (m_runs m) (m_closed m) (m_owed m) v (m_next m) (m_launches m).
Definition with_next (m : M) v : M := mkManager (m_nodeID m) (m_bootID m) (m_ttl m) (m_journal m) (m_budget m) (m_prepared m) (m_pending m) (m_launching m) (m_runs m) (m_closed m) (m_owed m) (m_ext m) v (m_launches m).
Definition with_launches (m : M) v : M := mkManager (m_nodeID m) (m_bootID m) (m_ttl m) (m_journal m) (m_budget m) (m_prepared m) (m_pending m) (m_launching m) (m_runs m) (m_closed m) (m_owed m) (m_ext m) (m_next m) v.

(** [NewManager], after its configuration checks and defaults. *)
Definition NewManager (nodeID bootID : string) (hasJournal : bool) (j : Journal) (b : B)
    (ttl : Duration) : result M :=
  check! bool_decide (nodeID = "") || negb hasJournal,
    ErrText "node and durable execution journal required";
  Ok (mkManager nodeID bootID (if ttl <=? 0 then Minute else ttl) j b ∅ ∅ ∅ ∅ false 0 0 0 []).

(** *** Prepare *)

Definition errUnavailable := ErrText "execution manager unavailable".
Definition errPrepared := ErrText "execution already prepared".
Definition errPreparation := ErrText "invalid or expired execution preparation".
Definition errOwnership := ErrText "execution ownership mismatch".

(** Its first critical section. *)
Definition prepareBegin (m : M) (id : string) : M * result unit :=
  if m_closed m then (m, Err errUnavailable)
  else if bool_decide (is_Some (m_pending m !! id)) || bool_decide (is_Some (m_prepared m !! id))
          || bool_decide (is_Some (m_launching m !! id)) || bool_decide (is_Some (m_runs m !! id))
  then (m, Err errPrepared)
  else
    let '(b, ok) := slot_acquire (m_budget m) in
    if ok then (with_pending (with_budget m b) (<[id := false]> (m_pending m)), Ok tt)
    else (with_budget m b, Err (ErrText "too many active terminal/execution sessions")).

(** Its second one, once the identity is resolved and a preparation id drawn;
    [spool] is the outcome of creating the spool file. *)
Definition prepareInstall (m : M) (req : ExecutionPrepare) (limits : ExecutionLimits) (i : Identity)
    (prepID : string) (now : Time) (spool : bool) : M * result ExecutionPrepared :=
  let id := q_ExecutionId req in
  let script := q_Enhanced req && negb (bool_decide (ScriptInterpreter (q_Command req) = "")) in
  if m_closed m then (m, Err errUnavailable)
  else if bool_decide (is_Some (m_prepared m !! id)) then (m, Err errPrepared)
  else if bool_decide (is_Some (m_runs m !! id)) then (m, Err ErrAlreadyClaimed)
  else if script && negb spool
  then (m, Err (ErrText "protected encrypted input storage unavailable"))
  else
    let response := mkPrepared id
      (mkBinding id (m_nodeID m) prepID (m_bootID m) (UnixMilli (now + m_ttl m)))
      (identityMessage i) (sha256 (q_Command req)) limits in
    let p := mkPrep (m_next m) response i (q_Command req) (q_RunAsUser req) false (q_Enhanced req)
      (q_ScriptSha256 req) (q_ScriptLength req) 0
      (negb (q_Enhanced req) || bool_decide (ScriptInterpreter (q_Command req) = ""))
      (if script then Some "" else None) in
    (with_next (with_pending (with_prepared m (<[id := p]> (m_prepared m)))
                             (<[id := true]> (m_pending m))) (S (m_next m)), Ok response).

(** The deferred end of the call: [pending] is cleared, and a call that did not
    install its preparation owes its slot. *)
Definition prepareEnd (m : M) (id : string) : M :=
  match (m_pending m !! id : option bool) with
  | None => m
  | Some true => with_pending m (delete id (m_pending m))
  | Some false => with_owed (with_pending m (delete id (m_pending m))) (S (m_owed m))
  end.

(** A goroutine that owes its slot gives it back. *)
Definition releaseOwed (m : M) : M :=
  match m_owed m with
  | O => m
  | S n => with_owed (with_budget m (slot_release (m_budget m))) n
  end.

(** The whole call when nothing else runs. *)
Definition Prepare (m : M) (req : ExecutionPrepare) (spoolReady spoolCreate : bool) (io : read_io)
    (resolve : string → string → result Identity) (stat : string → result FileInfo)
    (prepID : string) (now : Time) : M * result ExecutionPrepared :=
  match prepareChecks (m_nodeID m) (m_journal m) spoolReady req io with
  | Err e => (m, Err e)
  | Ok limits =>
      match prepareBegin m (q_ExecutionId req) with
      | (m1, Err e) => (m1, Err e)
      | (m1, Ok _) =>
          let '(m2, r) :=
            match resolveFor resolve stat (q_RunAsUser req) (q_Cwd req) (q_Command req) (q_Enhanced req) with
            | Err e => (m1, Err e)
            | Ok i => prepareInstall m1 req limits i prepID now spoolCreate
            end in
          let m3 := prepareEnd m2 (q_ExecutionId req) in
          (match r with Ok _ => m3 | Err _ => releaseOwed m3 end, r)
      end
  end.

(** *** Expiry, attachment, scripts *)

(** Removing a preparation gives its slot back in the same section. *)
Definition dropPrepared (m : M) (id : string) : M :=
  with_budget (with_prepared m (delete id (m_prepared m))) (slot_release (m_budget m)).

(** The timer of preparation [ptr]. *)
Definition expire (m : M) (id : string) (ptr : nat) : M :=
  match m_prepared m !! id with
  | Some p => if bool_decide (p_ptr p = ptr) then dropPrepared m id else m
  | None => m
  end.

Definition set_attached (p : preparation) : preparation :=
  mkPrep (p_ptr p) (p_response p) (p_identity p) (p_command p) (p_runAsUser p) true (p_enhanced p)
    (p_scriptHash p) (p_scriptLength p) (p_scriptOffset p) (p_scriptComplete p) (p_script p).
Definition set_script (p : preparation) (offset : Z) (data : string) : preparation :=
  mkPrep (p_ptr p) (p_response p) (p_identity p) (p_command p) (p_runAsUser p) (p_attached p) (p_enhanced p)
    (p_scriptHash p) (p_scriptLength p) offset (p_scriptComplete p) (Some data).
Definition set_complete (p : preparation) : preparation :=
  mkPrep (p_ptr p) (p_response p) (p_identity p) (p_command p) (p_runAsUser p) (p_attached p) (p_enhanced p)
    (p_scriptHash p) (p_scriptLength p) (p_scriptOffset p) true (p_script p).

Definition Attach (m : M) (binding : option ExecutionBinding) (now : Time) : M * result unit :=
  match binding with
  | None => (m, Err errUnavailable)
  | Some b =>
      if m_closed m then (m, Err errUnavailable)
      else
        match m_prepared m !! ExecutionId b with
        | None => (m, Err errPreparation)
        | Some p =>
            if negb (bool_decide (ep_Binding (p_response p) = b)) || (ExpiresUnixMilli b <=? UnixMilli now)
            then (m, Err errPreparation)
            else if p_attached p then (m, Err (ErrText "execution transport already attached"))
            else (with_prepared m (<[ExecutionId b := set_attached p]> (m_prepared m)), Ok tt)
        end
  end.

Definition Status (m : M) (id : string) (io : read_io)
    : string * option ExecutionBinding * string * option ExecutionResult :=
  match Journal.Status (m_journal m) id io with
  | Some r => (id, l_Binding r, State r, Result r)
  | None =>
      match m_prepared m !! id with
      | Some p => (id, Some (ep_Binding (p_response p)), "prepared", None)
      | None => (id, None, "not_found", None)
      end
  end.

Definition errScriptPrep := ErrText "invalid or completed protected script preparation".

Definition scriptPreparation (m : M) (binding : option ExecutionBinding) (now : Time) : result preparation :=
  match binding with
  | None => Err (ErrText "invalid script ownership")
  | Some b =>
      check! m_closed m, ErrText "invalid script ownership";
      match m_prepared m !! ExecutionId b with
      | None => Err errScriptPrep
      | Some p =>
          check! negb (p_attached p) || negb (bool_decide (ep_Binding (p_response p) = b))
                 || (ExpiresUnixMilli b <=? UnixMilli now) || negb (p_enhanced p)
                 || bool_decide (p_script p = None) || p_scriptComplete p, errScriptPrep;
          Ok p
      end
  end.

Definition invalidateScript (m : M) (binding : option ExecutionBinding) : M :=
  match binding with
  | None => m
  | Some b =>
      match m_prepared m !! ExecutionId b with
      | None => m
      | Some p => if bool_decide (ep_Binding (p_response p) = b) then dropPrepared m (ExecutionId b) else m
      end
  end.

(** [chunk] is the offset and data of the message; [write] is whether the spool
    file took all the bytes. *)
Definition ScriptChunk (m : M) (binding : option ExecutionBinding) (chunk : option (Z * string))
    (now : Time) (write : bool) : M * result unit :=
  let r :=
    p <-! scriptPreparation m binding now;
    match chunk with
    | None => Err (ErrText "invalid protected script offset or length")
    | Some (offset, data) =>
        check! (len data =? 0) || (MaxFrameBytes <? len data) || negb (offset =? p_scriptOffset p)
               || (u64 (p_scriptLength p - p_scriptOffset p) <? len data),
          ErrText "invalid protected script offset or length";
        check! negb write, ErrText "protected script storage unavailable";
        Ok (set_script p (u64 (p_scriptOffset p + len data)) (default "" (p_script p) +:+ data))
    end in
  match r, binding with
  | Ok p, Some b => (with_prepared m (<[ExecutionId b := p]> (m_prepared m)), Ok tt)
  | Err e, _ => (invalidateScript m binding, Err e)
  | Ok _, None => (m, Ok tt)
  end.

(** [eof] is the length and hash of the message. *)
Definition ScriptEOF (m : M) (binding : option ExecutionBinding) (eof : option (Z * string))
    (now : Time) (seal : bool) : M * result unit :=
  let r :=
    p <-! scriptPreparation m binding now;
    match eof with
    | None => Err (ErrText "protected script content mismatch")
    | Some (length, hash) =>
        check! negb (length =? p_scriptLength p) || negb (p_scriptOffset p =? p_scriptLength p)
               || negb (bool_decide (hash = p_scriptHash p))
               || negb (bool_decide (sha256 (default "" (p_script p)) = p_scriptHash p)),
          ErrText "protected script content mismatch";
        check! negb seal, ErrText "protected script storage unavailable";
        Ok (set_complete p)
    end in
  match r, binding with
  | Ok p, Some b => (with_prepared m (<[ExecutionId b := p]> (m_prepared m)), Ok tt)
  | Err e, _ => (invalidateScript m binding, Err e)
  | Ok _, None => (m, Ok tt)
  end.

(** *** Start *)

Definition set_phase (la : launch) (ph : phase) : launch :=
  mkLaunching (la_prep la) (la_start la) (la_cancelled la) ph.
Definition set_cancelled (la : launch) : launch :=
  mkLaunching (la_prep la) (la_start la) true (la_phase la).

Definition with_launch (m : M) (id : string) (la : launch) : M :=
  with_launching m (<[id := la]> (m_launching m)).

(** Its checks and first critical section: the preparation moves from
    [prepared] to [launching]. *)
Definition startBegin (m : M) (start : option ExecutionStart) (now : Time) (io : read_io)
    : M * result unit :=
  match start with
  | None => (m, Err (ErrText "execution start binding required"))
  | Some st =>
      let b := s_Binding st in
      let id := ExecutionId b in
      if (128 <? len (s_PolicyVersion st)) || negb (ValidUTF8 (s_PolicyVersion st))
         || ContainsNUL (s_PolicyVersion st)
      then (m, Err (ErrText "invalid execution policy version"))
      else if m_closed m then (m, Err errUnavailable)
      else
        match Journal.Status (m_journal m) id io with
        | Some r => (m, Err (if bool_decide (l_Binding r = Some b) then ErrAlreadyClaimed else errOwnership))
        | None =>
            match m_prepared m !! id with
            | None => (m, Err errPreparation)
            | Some p =>
                if negb (bool_decide (ep_Binding (p_response p) = b)) || (ExpiresUnixMilli b <=? UnixMilli now)
                then (m, Err errPreparation)
                else if negb (bool_decide (s_CommandSha256 st = ep_CommandSha256 (p_response p)))
                     || negb (bool_decide (s_IdentitySha256 st = ei_IdentitySha256 (ep_Identity (p_response p))))
                     || negb (bool_decide (s_Limits st = Some (ep_Limits (p_response p))))
                then (m, Err (ErrText "execution admission binding mismatch"))
                else if p_enhanced p &&
                        ((len (s_AdmissionReceipt st) =? 0) || (16 * 1024 <? len (s_AdmissionReceipt st))
                         || negb (p_scriptComplete p)
                         || (s_AdmissionExpiresUnixMilli st <=? UnixMilli now)
                         || (ExpiresUnixMilli b <? s_AdmissionExpiresUnixMilli st))
                then (m, Err (ErrText "complete protected input and admission required"))
                else if negb (p_enhanced p) &&
                        (negb (len (s_AdmissionReceipt st) =? 0) || negb (s_AdmissionExpiresUnixMilli st =? 0))
                then (m, Err (ErrText "unexpected protected admission"))
                else (with_launch (with_prepared m (delete id (m_prepared m))) id
                        (mkLaunching p st false LResolving), Ok tt)
            end
        end
  end.

(** The identity is resolved again and compared, then the launch is claimed.
    [parentDone] is whether the caller's context has ended. *)
Definition startClaim (m : M) (id : string) (identity : result Identity) (parentDone : bool)
    (io : claim_io) : M :=
  match m_launching m !! id with
  | Some (mkLaunching p st cancelled LResolving as la) =>
      match identity with
      | Err _ => with_launch m id (set_phase la (LDone false))
      | Ok i =>
          if negb (bool_decide (Digest i = Digest (p_identity p))) then with_launch m id (set_phase la (LDone false))
          else if cancelled || parentDone then with_launch m id (set_phase la (LDone false))
          else
            let '(j, r) := Claim (m_journal m) (s_Binding st) (ep_CommandSha256 (p_response p))
                             (ei_IdentitySha256 (ep_Identity (p_response p))) (s_PolicyVersion st) io in
            with_launch (with_journal m j) id
              (set_phase la (match r with Ok _ => LClaimed | Err _ => LDone false end))
      end
  | _ => m
  end.

Definition launchAuthorityValid (la : launch) (parentDone : bool) (now : Time) : bool :=
  negb (la_cancelled la || parentDone)
  && (UnixMilli now <? ExpiresUnixMilli (s_Binding (la_start la)))
  && (negb (p_enhanced (la_prep la)) || (UnixMilli now <? s_AdmissionExpiresUnixMilli (la_start la))).

(** [launchFailure]: a best-effort record of the failure, then the cleanup. *)
Definition launchFailure (m : M) (id : string) (la : launch) (reason : string) (io : update_io) : M :=
  let res := mkResult (s_Binding (la_start la)) "launch_failed" 0 "" reason false false in
  with_launch (with_journal m (RecordResult (m_journal m) res io).1) id (set_phase la (LDone false)).

Definition reasonExpired : string := "execution authority expired or cancelled before launch".

Definition startAuthorize (m : M) (id : string) (parentDone : bool) (now : Time) (io : update_io) : M :=
  match m_launching m !! id with
  | Some (mkLaunching p st cancelled LClaimed as la) =>
      if launchAuthorityValid la parentDone now then with_launch m id (set_phase la LAuthorized)
      else launchFailure m id la reasonExpired io
  | _ => m
  end.

(** Outcomes of opening the script, the three pipes and starting the process. *)
Record launch_io := mkLaunchIO {
  io_script : bool; io_stdin : bool; io_stdout : bool; io_stderr : bool; io_start : bool;
}.

Definition startLaunch (m : M) (id : string) (parentDone : bool) (now : Time) (lio : launch_io)
    (io : update_io) : M :=
  match m_launching m !! id with
  | Some (mkLaunching p st cancelled LAuthorized as la) =>
      if bool_decide (is_Some (p_script p)) && negb (io_script lio)
      then with_launch m id (set_phase la (LDone false))
      else if negb (io_stdin lio) then launchFailure m id la "execution input pipe unavailable" io
      else if negb (io_stdout lio) then launchFailure m id la "execution output pipe unavailable" io
      else if negb (io_stderr lio) then launchFailure m id la "execution error pipe unavailable" io
      else if negb (launchAuthorityValid la parentDone now) then launchFailure m id la reasonExpired io
      else if negb (io_start lio) then launchFailure m id la "target process could not start" io
      else with_launches (with_launch m id (set_phase la LStarted))
             (mkEvent p st now (m_bootID m) :: m_launches m)
  | _ => m
  end.

(** The process is recorded as running; if that fails it is killed. *)
Definition startRecord (m : M) (id : string) (io : update_io) : M :=
  match m_launching m !! id with
  | Some (mkLaunching p st cancelled LStarted as la) =>
      let '(j, r) := RecordRunning (m_journal m) (ExecutionId (s_Binding st)) io in
      with_launch (with_journal m j) id
        (set_phase la (match r with Ok _ => LRecorded | Err _ => LDone false end))
  | _ => m
  end.

(** The section that makes it a run. *)
Definition startInstall (m : M) (id : string) : M :=
  match m_launching m !! id with
  | Some (mkLaunching p st cancelled LRecorded as la) =>
      with_runs (with_launch m id (set_phase la (LDone true)))
                (<[id := mkRun (s_Binding st) None]> (m_runs m))
  | _ => m
  end.

(** The deferred end of the call. *)
Definition startEnd (m : M) (id : string) : M :=
  match m_launching m !! id with
  | Some (mkLaunching p st cancelled (LDone launched)) =>
      with_owed (with_launching m (delete id (m_launching m)))
                (if launched then m_owed m else S (m_owed m))
  | _ => m
  end.

(** What the operating system and the caller's context do during one [Start]. *)
Record start_env := mkStartEnv {
  se_now : Time;
  se_parentDone : bool;
  se_identity : result Identity;
  se_read : read_io; se_claim : claim_io; se_launch : launch_io; se_update : update_io;
}.

(** The whole call when nothing else runs; the flag is its success. *)
Definition Start (m : M) (start : ExecutionStart) (env : start_env) : M * bool :=
  let id := ExecutionId (s_Binding start) in
  match startBegin m (Some start) (se_now env) (se_read env) with
  | (m1, Err _) => (m1, false)
  | (m1, Ok _) =>
      let m2 := startClaim m1 id (se_identity env) (se_parentDone env) (se_claim env) in
      let m3 := startAuthorize m2 id (se_parentDone env) (se_now env) (se_update env) in
      let m4 := startLaunch m3 id (se_parentDone env) (se_now env) (se_launch env) (se_update env) in
      let m5 := startInstall (startRecord m4 id (se_update env)) id in
      let launched := match m_launching m5 !! id with
                      | Some la => match la_phase la with LDone l => l | _ => false end
                      | None => false
                      end in
      let m6 := startEnd m5 id in
      (if launched then m6 else releaseOwed m6, launched)
  end.

(** Every system call of a launch succeeds. *)
Definition env_ok (env : start_env) : Prop :=
  se_parentDone env = false ∧ se_claim env = mkClaimIO true (co_len (se_claim env)) true true true true ∧
  se_launch env = mkLaunchIO true true true true true ∧
  se_update env = mkUpdateIO (uo_read (se_update env)) true true (uo_len (se_update env)) true true true true true.

(** The start request that matches a standard preparation. *)
Definition start_of (p : preparation) : ExecutionStart :=
  mkStart (ep_Binding (p_response p)) (ep_CommandSha256 (p_response p))
    (ei_IdentitySha256 (ep_Identity (p_response p))) (Some (ep_Limits (p_response p))) "" "" 0.

(** *** Runs *)

Definition normalizeReason (reason : string) : string :=
  if bool_decide (reason = "") || (128 <? len reason) || negb (ValidUTF8 reason) || ContainsNUL reason
  then "cancelled" else reason.

(** [Run.Cancel]: only the first call has an effect. *)
Definition cancelRun (r : run) (reason : string) : run :=
  match run_reason r with
  | Some _ => r
  | None => mkRun (run_binding r) (Some (normalizeReason reason))
  end.

(** The lifecycle's journal record of the result, and [finish]. *)
Definition runResult (m : M) (id : string) (res : ExecutionResult) (io : update_io) : M :=
  match m_runs m !! id with
  | Some _ => with_journal m (RecordResult (m_journal m) res io).1
  | None => m
  end.

Definition finish (m : M) (id : string) : M :=
  match m_runs m !! id with
  | Some _ => with_owed (with_runs m (delete id (m_runs m))) (S (m_owed m))
  | None => m
  end.

(** *** Cancellation and shutdown *)

Definition Cancel (m : M) (binding : option ExecutionBinding) (reason : string) (io : read_io)
    : M * result unit :=
  match binding with
  | None => (m, Err (ErrText "execution cancellation binding required"))
  | Some b =>
      let id := ExecutionId b in
      match m_prepared m !! id with
      | Some p => if negb (bool_decide (ep_Binding (p_response p) = b)) then (m, Err errOwnership)
                  else (dropPrepared m id, Ok tt)
      | None =>
          match m_launching m !! id with
          | Some la =>
              if negb (bool_decide (ep_Binding (p_response (la_prep la)) = b)) then (m, Err errOwnership)
              else (with_launch m id (set_cancelled la), Ok tt)
          | None =>
              match m_runs m !! id with
              | Some r =>
                  if negb (bool_decide (run_binding r = b)) then (m, Err errOwnership)
                  else (with_runs m (<[id := cancelRun r reason]> (m_runs m)), Ok tt)
              | None =>
                  match Journal.Status (m_journal m) id io with
                  | Some r => if bool_decide (l_Binding r = Some b) then (m, Ok tt)
                              else (m, Err (ErrText "execution not found"))
                  | None => (m, Err (ErrText "execution not found"))
                  end
              end
          end
      end
  end.

Definition releaseN (n : nat) (b : B) : B := Nat.iter n slot_release b.

(** The first section of [Close]. *)
Definition closeBegin (m : M) : M :=
  if m_closed m then m
  else
    with_launching
      (with_budget (with_prepared (with_closed m true) ∅) (releaseN (size (m_prepared m)) (m_budget m)))
      (set_cancelled <$> m_launching m).

(** Its second one, once no launch is in progress. *)
Definition closeRuns (m : M) : M :=
  with_runs m ((fun r => cancelRun r "control_transport_lost") <$> m_runs m).

(** ** Interleavings *)

(** A restarted agent: a new boot id, a fresh budget, no memory; the journal
    directory as the crash left it.  The history of launches goes on. *)
Definition restarted (m m' : M) : Prop :=
  ∃ boot j b, crash (m_journal m) j ∧ slot_ok b ∧ slots b = 0 ∧
    m' = mkManager (m_nodeID m) boot (m_ttl m) j b ∅ ∅ ∅ ∅ false 0 0 0 (m_launches m).

(** One atomic section of one of the agent's goroutines.  Contexts, clocks,
    system calls and the operating system's answers are arbitrary. *)
Inductive mstep (m : M) : M → Prop :=
| MPrepareBegin id : mstep m (prepareBegin m id).1
| MPrepareInstall req limits i prepID now spool :
    m_pending m !! q_ExecutionId req = Some false → 0 ≤ q_ScriptLength req →
    (∃ j ready io, prepareChecks (m_nodeID m) j ready req io = Ok limits) →
    mstep m (prepareInstall m req limits i prepID now spool).1
| MPrepareEnd id : mstep m (prepareEnd m id)
| MReleaseOwed : mstep m (releaseOwed m)
| MExpire id ptr : mstep m (expire m id ptr)
| MAttach b now : mstep m (Attach m b now).1
| MScriptChunk b c now write : mstep m (ScriptChunk m b c now write).1
| MScriptEOF b e now seal : mstep m (ScriptEOF m b e now seal).1
| MStartBegin st now io : mstep m (startBegin m st now io).1
| MStartClaim id i pd io : mstep m (startClaim m id i pd io)
| MStartAuthorize id pd now io : mstep m (startAuthorize m id pd now io)
| MStartLaunch id pd now lio io : mstep m (startLaunch m id pd now lio io)
| MStartRecord id io : mstep m (startRecord m id io)
| MStartInstall id : mstep m (startInstall m id)
| MStartEnd id : mstep m (startEnd m id)
| MRunResult id res io : mstep m (runResult m id res io)
| MFinish id : mstep m (finish m id)
| MCancel b reason io : mstep m (Cancel m b reason io).1
| MCloseBegin : mstep m (closeBegin m)
| MCloseRuns : m_launching m = ∅ → mstep m (closeRuns m)
| MOtherAcquire :
    mstep m (let '(b, ok) := slot_acquire (m_budget m) in
             with_ext (with_budget m b) (if ok then S (m_ext m) else m_ext m))
| MOtherRelease n :
    m_ext m = S n → mstep m (with_ext (with_budget m (slot_release (m_budget m))) n)
| MRestart m' : restarted m m' → mstep m m'.

Definition initial (m : M) : Prop :=
  ∃ node boot ttl j b, journal_inv j ∧ slot_ok b ∧ slots b = 0 ∧
    m = mkManager node boot ttl j b ∅ ∅ ∅ ∅ false 0 0 0 [].

Definition reachable (m : M) : Prop := ∃ m0, initial m0 ∧ rtc mstep m0 m.

(** ** Invariants *)

Definition waiting (la : launch) : Prop := la_phase la ≠ LDone true.

#[global] Instance waiting_dec la : Decision (waiting la).
Proof. unfold waiting. destruct (la_phase la) as [| | | | |[]]; (right; congruence) || (left; congruence). Defined.

Definition uninstalled (m : M) : Z := Z.of_nat (size (filter (fun kv : string * bool => kv.2 = false) (m_pending m))).
Definition unlaunched (m : M) : Z := Z.of_nat (size (filter (fun kv : string * launch => waiting kv.2) (m_launching m))).

(** The slots the manager and the others hold. *)
Definition held_slots (m : M) : Z :=
  uninstalled m + Z.of_nat (size (m_prepared m)) + unlaunched m + Z.of_nat (size (m_runs m))
  + Z.of_nat (m_owed m) + Z.of_nat (m_ext m).

Record slots_inv (m : M) : Prop := {
  sl_ok : slot_ok (m_budget m);
  sl_exact : slots (m_budget m) = held_slots m;
  sl_pending : ∀ id, m_pending m !! id = Some false →
    m_prepared m !! id = None ∧ m_launching m !! id = None ∧ m_runs m !! id = None;
  sl_prepared : ∀ id, is_Some (m_prepared m !! id) → m_launching m !! id = None ∧ m_runs m !! id = None;
  sl_launching : ∀ id la, m_launching m !! id = Some la → waiting la → m_runs m !! id = None;
}.

Definition claim_held (ph : phase) : Prop := ph = LClaimed ∨ ph = LAuthorized.

Record once_inv (m : M) : Prop := {
  o_journal : journal_inv (m_journal m);
  o_events : ∀ e, e ∈ m_launches m → claimed (m_journal m) (le_id e);
  o_key : ∀ id la, m_launching m !! id = Some la → ExecutionId (s_Binding (la_start la)) = id;
  o_claims : ∀ id la, m_launching m !! id = Some la → claim_held (la_phase la) →
    claimed (m_journal m) id ∧ id ∉ le_id <$> m_launches m;
  o_nodup : NoDup (le_id <$> m_launches m);
}.

(** What the manager knows of a preparation it holds. *)
Record prep_ok (node boot id : string) (p : preparation) : Prop := {
  po_id : ExecutionId (ep_Binding (p_response p)) = id;
  po_node : NodeId (ep_Binding (p_response p)) = node;
  po_boot : BootId (ep_Binding (p_response p)) = boot;
  po_command : ep_CommandSha256 (p_response p) = sha256 (p_command p);
  po_identity : ei_IdentitySha256 (ep_Identity (p_response p)) = Digest (p_identity p);
  po_length : 0 ≤ p_scriptLength p ≤ MaxScriptBytes;
  po_script :
    match p_script p with
    | None => p_enhanced p = true → ScriptInterpreter (p_command p) = ""
    | Some data =>
        p_scriptOffset p = len data ∧ len data ≤ p_scriptLength p ∧
        (p_scriptComplete p = true → sha256 data = p_scriptHash p ∧ len data = p_scriptLength p)
    end;
}.

(** ... and of a start request it accepted for it. *)
Record start_ok (p : preparation) (st : ExecutionStart) : Prop := {
  so_binding : ep_Binding (p_response p) = s_Binding st;
  so_command : s_CommandSha256 st = ep_CommandSha256 (p_response p);
  so_identity : s_IdentitySha256 st = ei_IdentitySha256 (ep_Identity (p_response p));
  so_limits : s_Limits st = Some (ep_Limits (p_response p));
  so_enhanced : p_enhanced p = true → p_scriptComplete p = true ∧ s_AdmissionReceipt st ≠ "";
}.

Definition in_time (p : preparation) (st : ExecutionStart) (now : Time) : Prop :=
  UnixMilli now < ExpiresUnixMilli (s_Binding st) ∧
  (p_enhanced p = true → UnixMilli now < s_AdmissionExpiresUnixMilli st).

Record integ_inv (m : M) : Prop := {
  g_prepared : ∀ id p, m_prepared m !! id = Some p → prep_ok (m_nodeID m) (m_bootID m) id p;
  g_launching : ∀ id la, m_launching m !! id = Some la →
    prep_ok (m_nodeID m) (m_bootID m) id (la_prep la) ∧ start_ok (la_prep la) (la_start la);
  g_events : ∀ e, e ∈ m_launches m →
    prep_ok (m_nodeID m) (le_boot e) (le_id e) (le_prep e) ∧ start_ok (le_prep e) (le_start e) ∧
    in_time (le_prep e) (le_start e) (le_now e);
}.

(** ** Slots *)

Implicit Type m : Manager B.

Lemma release_slot (b : B) : slot_ok b → 1 ≤ slots b → slots (slot_release b) = slots b - 1.
Proof. intros Hok Hb. destruct (slot_release_slots b); lia. Qed.

Lemma acquire_slot (b b' : B) ok : slot_ok b → slot_acquire b = (b', ok) →
  slot_ok b' ∧ slots b' = slots b + (if ok then 1 else 0).
Proof.
  intros Hok He. pose proof (slot_acquire_ok b Hok) as H. rewrite He in H. split; [done|].
  destruct ok; [by apply slot_acquire_true|]. rewrite (slot_acquire_false _ _ He). lia.
Qed.

Lemma releaseN_slots n (b : B) : slot_ok b → Z.of_nat n ≤ slots b →
  slot_ok (releaseN n b) ∧ slots (releaseN n b) = slots b - Z.of_nat n.
Proof.
  intros Hok. induction n as [|n IH]; intros Hn; simpl; [split; [done|lia]|].
  destruct IH as [H1 H2]; [lia|]. unfold releaseN in *. split; [by apply slot_release_ok|].
  rewrite release_slot by (done || lia). lia.
Qed.

Lemma held_nonneg m : 0 ≤ uninstalled m ∧ 0 ≤ unlaunched m.
Proof. unfold uninstalled, unlaunched. lia. Qed.

(** An entry of a map with a filtered count. *)
Lemma prepared_pos m id p : m_prepared m !! id = Some p → (1 ≤ size (m_prepared m))%nat.
Proof.
  intros Hp. assert (size (m_prepared m) ≠ 0%nat); [|lia].
  apply map_size_non_empty_iff. intros He. by rewrite He, lookup_empty in Hp.
Qed.

Lemma dropPrepared_slots m id p : slots_inv m → m_prepared m !! id = Some p → slots_inv (dropPrepared m id).
Proof.
  intros [S1 S2 S3 S4 S5] Hp. pose proof (prepared_pos _ _ _ Hp). pose proof (held_nonneg m) as [Hu Hl].
  split; simpl.
  - by apply slot_release_ok.
  - rewrite release_slot; [|done|unfold held_slots in S2; lia]. rewrite S2. unfold held_slots. simpl.
    rewrite map_size_delete, Hp. unfold uninstalled, unlaunched in *. simpl. lia.
  - intros i Hi. destruct (S3 i Hi) as (H1 & ? & ?). split_and!; try done.
    apply lookup_delete_None. by right.
  - intros i [q Hq]. apply lookup_delete_Some in Hq as [_ Hq]. apply S4. by exists q.
  - done.
Qed.

(** Rewriting a preparation in place. *)
Lemma update_prepared_slots m id p p' :
  slots_inv m → m_prepared m !! id = Some p → slots_inv (with_prepared m (<[id := p']> (m_prepared m))).
Proof.
  intros [S1 S2 S3 S4 S5] Hp. split; simpl; try done.
  - rewrite S2. unfold held_slots. simpl. by rewrite map_size_insert_Some by by exists p.
  - intros i Hi. destruct (S3 i Hi) as (H1 & ? & ?). split_and!; try done.
    rewrite lookup_insert_ne by congruence. done.
  - intros i Hi. apply S4. apply lookup_insert_is_Some in Hi as [<-|[_ ?]]; [by exists p|done].
Qed.

(** Moving a launch to another phase that holds the slot as before. *)
Lemma unlaunched_update m id la la' : m_launching m !! id = Some la →
  unlaunched (with_launch m id la') =
    unlaunched m - (if decide (waiting la) then 1 else 0) + (if decide (waiting la') then 1 else 0).
Proof.
  intros Hla. unfold unlaunched. simpl.
  rewrite (size_filter_insert (fun kv : string * launch => waiting kv.2)).
  rewrite (size_filter_delete (fun kv : string * launch => waiting kv.2) (m_launching m) id la) by done.
  simpl. repeat case_decide; lia.
Qed.

Lemma move_launch_slots m id la la' j ev :
  slots_inv m → m_launching m !! id = Some la → waiting la → waiting la' →
  slots_inv (with_launches (with_launch (with_journal m j) id la') ev).
Proof.
  intros [S1 S2 S3 S4 S5] Hla Hw Hw'. split; simpl; try done.
  - rewrite S2. unfold held_slots. simpl.
    change (unlaunched (with_launches (with_launch (with_journal m j) id la') ev))
      with (unlaunched (with_launch m id la')).
    rewrite (unlaunched_update m id la) by done. rewrite !decide_True by done.
    unfold uninstalled. simpl. lia.
  - intros i Hi. destruct (S3 i Hi) as (H1 & ? & ?). rewrite lookup_insert_ne by congruence. done.
  - intros i Hi. destruct (S4 i Hi) as [H1 ?]. rewrite lookup_insert_ne by congruence. done.
  - intros i l. rewrite lookup_insert_Some. intros [[<- <-]|[_ Hl]] Hwl; [by apply (S5 id la)|by apply (S5 i l)].
Qed.

Lemma move_launch_slots' m id la la' j :
  slots_inv m → m_launching m !! id = Some la → waiting la → waiting la' →
  slots_inv (with_launch (with_journal m j) id la').
Proof. intros. by apply (move_launch_slots m id la la' j (m_launches m)). Qed.

Lemma set_phase_slots m id la ph :
  slots_inv m → m_launching m !! id = Some la → waiting la → waiting (set_phase la ph) →
  slots_inv (with_launch m id (set_phase la ph)).
Proof. intros. by apply (move_launch_slots' m id la (set_phase la ph) (m_journal m)). Qed.

Lemma launchFailure_slots m id la reason io :
  slots_inv m → m_launching m !! id = Some la → waiting la → slots_inv (launchFailure m id la reason io).
Proof. intros. by apply (move_launch_slots' m id la). Qed.

Lemma prepareBegin_slots m id : slots_inv m → slots_inv (prepareBegin m id).1.
Proof.
  intros HI. unfold prepareBegin. destruct (m_closed m); [done|].
  destruct (_ || _ || _ || _) eqn:Eg; [done|]. bool_hyps.
  rewrite <- !eq_None_not_Some in *. pose proof HI as [S1 S2 S3 S4 S5].
  destruct (slot_acquire (m_budget m)) as [b ok] eqn:Ea.
  destruct (acquire_slot _ _ _ S1 Ea) as [Hok Hs]. destruct ok; simpl.
  - split; simpl; try done.
    + rewrite Hs, S2. unfold held_slots, uninstalled, unlaunched. simpl.
      rewrite (size_filter_insert (fun kv : string * bool => kv.2 = false)). simpl.
      rewrite delete_id by done. lia.
    + intros i. rewrite lookup_insert_Some. intros [[<- _]|[_ Hi]]; [done|by apply S3].
  - split; simpl; try done. rewrite Hs, S2. unfold held_slots, uninstalled, unlaunched. simpl. lia.
Qed.

Lemma prepareInstall_slots m req limits i prepID now spool :
  slots_inv m → m_pending m !! q_ExecutionId req = Some false →
  slots_inv (prepareInstall m req limits i prepID now spool).1.
Proof.
  intros HI Hp. pose proof HI as [S1 S2 S3 S4 S5]. unfold prepareInstall.
  destruct (m_closed m); [done|]. destruct (bool_decide _) eqn:E1; [done|].
  destruct (bool_decide (is_Some (m_runs _ !! _))); [done|]. destruct (_ && negb spool); [done|].
  bool_hyps. rewrite <- eq_None_not_Some in *. simpl. destruct (S3 _ Hp) as (_ & Hl & Hr).
  split; simpl; try done.
  - rewrite S2. unfold held_slots, uninstalled, unlaunched. simpl.
    rewrite map_size_insert_None by done.
    rewrite (size_filter_insert (fun kv : string * bool => kv.2 = false)).
    rewrite (size_filter_delete (fun kv : string * bool => kv.2 = false) (m_pending m) _ _ Hp).
    simpl. lia.
  - intros k. rewrite lookup_insert_Some. intros [[_ Hk]|[Hne Hk]]; [done|].
    rewrite lookup_insert_ne by done. by apply S3.
  - intros k Hk. apply lookup_insert_is_Some in Hk as [<-|[_ Hk]]; [done|by apply S4].
Qed.

Lemma prepareEnd_slots m id : slots_inv m → slots_inv (prepareEnd m id).
Proof.
  intros HI. unfold prepareEnd. destruct (m_pending m !! id) as [v|] eqn:E; [|done].
  pose proof HI as [S1 S2 S3 S4 S5].
  assert (Hsz := size_filter_delete (fun kv : string * bool => kv.2 = false) (m_pending m) _ _ E).
  destruct v; simpl in Hsz; (split; simpl; try done;
    [rewrite S2; unfold held_slots, uninstalled, unlaunched; simpl; lia
    |intros k [_ Hk]%lookup_delete_Some; by apply S3]).
Qed.

Lemma releaseOwed_slots m : slots_inv m → slots_inv (releaseOwed m).
Proof.
  intros HI. unfold releaseOwed. destruct (m_owed m) eqn:E; [done|].
  pose proof HI as [S1 S2 S3 S4 S5]. pose proof (held_nonneg m) as [Hu Hl].
  unfold held_slots in S2. split; simpl; try done; [by apply slot_release_ok|].
  rewrite release_slot by (done || lia). rewrite S2. unfold held_slots, uninstalled, unlaunched. simpl. lia.
Qed.

Lemma invalidateScript_slots m b : slots_inv m → slots_inv (invalidateScript m b).
Proof.
  intros HI. unfold invalidateScript. destruct b as [b|]; [|done].
  destruct (m_prepared m !! _) eqn:E; [|done]. case_bool_decide; [|done]. by eapply dropPrepared_slots.
Qed.

Lemma scriptPreparation_Some m b now p : scriptPreparation m (Some b) now = Ok p →
  m_prepared m !! ExecutionId b = Some p ∧ ep_Binding (p_response p) = b ∧
  p_enhanced p = true ∧ is_Some (p_script p) ∧ p_scriptComplete p = false.
Proof.
  unfold scriptPreparation. intros H. guards_in H. bool_hyps. split_and!; try done.
  destruct (p_script p); [by eexists|done].
Qed.

Lemma ScriptChunk_slots m b c now write : slots_inv m → slots_inv (ScriptChunk m b c now write).1.
Proof.
  intros HI. unfold ScriptChunk. destruct (match scriptPreparation m b now with Ok _ => _ | _ => _ end) as [p|] eqn:E.
  2:{ by apply invalidateScript_slots. }
  destruct b as [b|]; [|done]. destruct (scriptPreparation m (Some b) now) as [p0|] eqn:Ep; [|done].
  apply scriptPreparation_Some in Ep as [Ep _]. by eapply update_prepared_slots.
Qed.

Lemma ScriptEOF_slots m b c now seal : slots_inv m → slots_inv (ScriptEOF m b c now seal).1.
Proof.
  intros HI. unfold ScriptEOF. destruct (match scriptPreparation m b now with Ok _ => _ | _ => _ end) as [p|] eqn:E.
  2:{ by apply invalidateScript_slots. }
  destruct b as [b|]; [|done]. destruct (scriptPreparation m (Some b) now) as [p0|] eqn:Ep; [|done].
  apply scriptPreparation_Some in Ep as [Ep _]. by eapply update_prepared_slots.
Qed.

Lemma Attach_slots m b now : slots_inv m → slots_inv (Attach m b now).1.
Proof.
  intros HI. unfold Attach. repeat (case_match; simpl; try done). by eapply update_prepared_slots.
Qed.

(** An accepted start. *)
Lemma startBegin_cases m st now io :
  (startBegin m st now io).1 = m ∨
  ∃ s p, st = Some s ∧ m_prepared m !! ExecutionId (s_Binding s) = Some p ∧
    ep_Binding (p_response p) = s_Binding s ∧ s_CommandSha256 s = ep_CommandSha256 (p_response p) ∧
    s_IdentitySha256 s = ei_IdentitySha256 (ep_Identity (p_response p)) ∧
    s_Limits s = Some (ep_Limits (p_response p)) ∧
    (p_enhanced p = true → p_scriptComplete p = true ∧ s_AdmissionReceipt s ≠ "") ∧
    m_closed m = false ∧
    (startBegin m st now io).1 =
      with_launch (with_prepared m (delete (ExecutionId (s_Binding s)) (m_prepared m)))
        (ExecutionId (s_Binding s)) (mkLaunching p s false LResolving).
Proof.
  destruct st as [s|]; [|by left]. unfold startBegin.
  destruct (_ || _ || _); [by left|]. destruct (m_closed m) eqn:Ec; [by left|].
  destruct (Journal.Status _ _ _); [by left|]. destruct (m_prepared m !! _) as [p|] eqn:Ep; [|by left].
  destruct (_ || _) eqn:E1; [by left|]. destruct (_ || _ || _) eqn:E2; [by left|].
  destruct (p_enhanced p && _) eqn:E3; [by left|]. destruct (negb (p_enhanced p) && _); [by left|].
  right. exists s, p. bool_hyps. split_and!; try done. intros He. rewrite He in E3. simpl in E3. bool_hyps.
  split; [done|]. intros Hr. rewrite Hr in *. done.
Qed.

Lemma startBegin_slots m st now io : slots_inv m → slots_inv (startBegin m st now io).1.
Proof.
  intros HI. destruct (startBegin_cases m st now io) as [->|(s & p & _ & Hp & _ & _ & _ & _ & _ & _ & ->)]; [done|].
  pose proof HI as [S1 S2 S3 S4 S5]. set (id := ExecutionId (s_Binding s)) in *.
  destruct (S4 id ltac:(by exists p)) as [Hl Hr]. pose proof (prepared_pos _ _ _ Hp).
  split; simpl; try done.
  - rewrite S2. unfold held_slots, uninstalled, unlaunched. simpl.
    rewrite map_size_delete, Hp. rewrite (size_filter_insert (fun kv : string * launch => waiting kv.2)).
    rewrite delete_id by done. simpl. lia.
  - intros i Hi. destruct (S3 i Hi) as (H1 & ? & ?). rewrite lookup_insert_ne by congruence.
    split_and!; try done. apply lookup_delete_None. by right.
  - intros i [q Hq]. apply lookup_delete_Some in Hq as [Hne Hq]. rewrite lookup_insert_ne by done.
    apply S4. by exists q.
  - intros i la. rewrite lookup_insert_Some. intros [[<- _]|[_ Hi]]; [done|by apply S5].
Qed.

(** Case on the launch the operation is about. *)
Ltac launch_cases E :=
  match goal with
  | |- context [match m_launching ?m !! ?id with _ => _ end] =>
      destruct (m_launching m !! id) as [[p st cancelled ph]|] eqn:E; [|done]; destruct ph; try done
  end.

Lemma startClaim_slots m id i pd io : slots_inv m → slots_inv (startClaim m id i pd io).
Proof.
  intros HI. unfold startClaim. launch_cases E.
  destruct i as [i|]; [|by apply (set_phase_slots m id _ _ HI E)].
  destruct (negb _); [by apply (set_phase_slots m id _ _ HI E)|].
  destruct (cancelled || pd); [by apply (set_phase_slots m id _ _ HI E)|].
  destruct (Claim _ _ _ _ _ _) as [j r]. apply (move_launch_slots' m id _ _ j HI E); [done|].
  by destruct r.
Qed.

Lemma startAuthorize_slots m id pd now io : slots_inv m → slots_inv (startAuthorize m id pd now io).
Proof.
  intros HI. unfold startAuthorize. launch_cases E. destruct (launchAuthorityValid _ _ _).
  - by apply (set_phase_slots m id _ _ HI E).
  - by apply (launchFailure_slots _ _ _ _ _ HI E).
Qed.

Lemma startLaunch_slots m id pd now lio io : slots_inv m → slots_inv (startLaunch m id pd now lio io).
Proof.
  intros HI. unfold startLaunch. launch_cases E.
  destruct (_ && negb (io_script lio)); [by apply (set_phase_slots m id _ _ HI E)|].
  repeat (destruct (negb _); [by apply (launchFailure_slots _ _ _ _ _ HI E)|]).
  by apply (move_launch_slots m id (mkLaunching p st cancelled LAuthorized)
              (mkLaunching p st cancelled LStarted) (m_journal m) _ HI E).
Qed.

Lemma startRecord_slots m id io : slots_inv m → slots_inv (startRecord m id io).
Proof.
  intros HI. unfold startRecord. launch_cases E. destruct (RecordRunning _ _ _) as [j r].
  apply (move_launch_slots' m id _ _ j HI E); [done|]. by destruct r.
Qed.

Lemma startInstall_slots m id : slots_inv m → slots_inv (startInstall m id).
Proof.
  intros HI. unfold startInstall. launch_cases E. pose proof HI as [S1 S2 S3 S4 S5].
  assert (Hr : m_runs m !! id = None) by by apply (S5 id _ E).
  split; simpl; try done.
  - rewrite S2. unfold held_slots. simpl. rewrite map_size_insert_None by done.
    pose proof (unlaunched_update m id _ (mkLaunching p st cancelled (LDone true)) E) as Hu.
    simpl in Hu. unfold unlaunched, uninstalled, set_phase in *. simpl in *. lia.
  - intros k Hk. destruct (S3 k Hk) as (? & ? & ?). rewrite !lookup_insert_ne by congruence. done.
  - intros k Hk. destruct (S4 k Hk) as (? & ?). rewrite !lookup_insert_ne by congruence. done.
  - intros k la. rewrite lookup_insert_Some. intros [[_ <-]|[Hne Hk]] Hw; [by destruct Hw|].
    rewrite lookup_insert_ne by done. by apply (S5 k la).
Qed.

Lemma startEnd_slots m id : slots_inv m → slots_inv (startEnd m id).
Proof.
  intros HI. unfold startEnd. launch_cases E. pose proof HI as [S1 S2 S3 S4 S5].
  assert (Hsz := size_filter_delete (fun kv : string * launch => waiting kv.2) (m_launching m) _ _ E).
  split; simpl; try done.
  - rewrite S2. unfold held_slots, uninstalled, unlaunched. simpl. rewrite Hsz.
    destruct launched; simpl; lia.
  - intros k Hk. destruct (S3 k Hk) as (? & ? & ?). split_and!; try done.
    apply lookup_delete_None. by right.
  - intros k Hk. destruct (S4 k Hk) as (? & ?). split; try done.
    apply lookup_delete_None. by right.
  - intros k la [_ Hk]%lookup_delete_Some. by apply S5.
Qed.

Lemma set_journal_slots m j : slots_inv m → slots_inv (with_journal m j).
Proof. intros [S1 S2 S3 S4 S5]. by split. Qed.

Lemma finish_slots m id : slots_inv m → slots_inv (finish m id).
Proof.
  intros HI. unfold finish. destruct (m_runs m !! id) eqn:E; [|done]. pose proof HI as [S1 S2 S3 S4 S5].
  assert (size (m_runs m) ≠ 0%nat).
  { apply map_size_non_empty_iff. intros He. by rewrite He, lookup_empty in E. }
  split; simpl; try done.
  - rewrite S2. unfold held_slots, uninstalled, unlaunched. simpl. rewrite map_size_delete, E. lia.
  - intros k Hk. destruct (S3 k Hk) as (? & ? & ?). split_and!; try done. apply lookup_delete_None. by right.
  - intros k Hk. destruct (S4 k Hk) as (? & ?). split; try done. apply lookup_delete_None. by right.
  - intros k la Hk Hw. apply lookup_delete_None. right. by apply (S5 k la).
Qed.

(** Replacing the runs by others under the same ids. *)
Lemma set_runs_slots m (rs : gmap string run) :
  slots_inv m → size rs = size (m_runs m) → (∀ id, rs !! id = None ↔ m_runs m !! id = None) →
  slots_inv (with_runs m rs).
Proof.
  intros [S1 S2 S3 S4 S5] Hsz Hrs. split; simpl; try done.
  - rewrite S2. unfold held_slots, uninstalled, unlaunched. simpl. by rewrite Hsz.
  - intros k Hk. rewrite Hrs. by apply S3.
  - intros k Hk. rewrite Hrs. by apply S4.
  - intros k la Hk Hw. rewrite Hrs. by apply (S5 k la).
Qed.

Lemma Cancel_slots m b reason io : slots_inv m → slots_inv (Cancel m b reason io).1.
Proof.
  intros HI. unfold Cancel. destruct b as [b|]; [|done].
  destruct (m_prepared m !! _) eqn:E1. { destruct (negb _); [done|]. by eapply dropPrepared_slots. }
  destruct (m_launching m !! _) as [la|] eqn:E2.
  { destruct (negb _); [done|]. simpl. destruct (decide (waiting la)) as [Hw|Hw].
    - by apply (move_launch_slots' m _ la (set_cancelled la) (m_journal m)).
    - pose proof HI as [S1 S2 S3 S4 S5]. split; simpl; try done.
      + rewrite S2. unfold held_slots. pose proof (unlaunched_update m _ la (set_cancelled la) E2) as Hu.
        rewrite !decide_False in Hu by done. unfold uninstalled, unlaunched in *. simpl in *. lia.
      + intros k Hk. destruct (S3 k Hk) as (? & ? & ?). rewrite lookup_insert_ne by congruence. done.
      + intros k Hk. destruct (S4 k Hk) as (? & ?). rewrite lookup_insert_ne by congruence. done.
      + intros k l. rewrite lookup_insert_Some. intros [[_ <-]|[_ Hk]]; [done|by apply S5]. }
  destruct (m_runs m !! _) as [r|] eqn:E3.
  { destruct (negb _); [done|]. apply set_runs_slots; [done| |].
    - by rewrite map_size_insert_Some by by exists r.
    - intros k. rewrite lookup_insert_None. destruct (decide (k = ExecutionId b)) as [->|]; [|naive_solver].
      rewrite E3. naive_solver. }
  repeat (case_match; simpl; try done).
Qed.

Lemma closeRuns_slots m : slots_inv m → slots_inv (closeRuns m).
Proof.
  intros HI. apply set_runs_slots; [done|by rewrite map_size_fmap|].
  intros k. by rewrite lookup_fmap, fmap_None.
Qed.

Lemma unlaunched_cancelled m :
  size (filter (fun kv : string * launch => waiting kv.2) (set_cancelled <$> m_launching m)) =
  size (filter (fun kv : string * launch => waiting kv.2) (m_launching m)).
Proof.
  assert (H : filter (fun kv : string * launch => waiting kv.2) (set_cancelled <$> m_launching m) =
              set_cancelled <$> filter (fun kv : string * launch => waiting kv.2) (m_launching m));
    [|by rewrite H, map_size_fmap].
  apply map_eq. intros k. apply option_eq. intros la.
  rewrite map_lookup_filter_Some, !lookup_fmap, !fmap_Some. setoid_rewrite map_lookup_filter_Some.
  split.
  - intros [(l & Hl & ->) Hw]. by exists l.
  - intros (l & [Hl Hw] & ->). split; [by exists l|done].
Qed.

Lemma closeBegin_slots m : slots_inv m → slots_inv (closeBegin m).
Proof.
  intros HI. unfold closeBegin. destruct (m_closed m); [done|]. pose proof HI as [S1 S2 S3 S4 S5].
  pose proof (held_nonneg m) as [Hu Hl].
  destruct (releaseN_slots (size (m_prepared m)) (m_budget m) S1) as [R1 R2].
  { rewrite S2. unfold held_slots. lia. }
  split; simpl; try done.
  - rewrite R2, S2. unfold held_slots, uninstalled, unlaunched. simpl.
    rewrite map_size_empty, unlaunched_cancelled. lia.
  - intros k Hk. destruct (S3 k Hk) as (? & Hn & ?). rewrite lookup_fmap, Hn. done.
  - intros k [? Hk]. by rewrite lookup_empty in Hk.
  - intros k la. rewrite lookup_fmap, fmap_Some. intros (l & Hk & ->) Hw. by apply (S5 k l).
Qed.

#[local] Hint Resolve prepareBegin_slots prepareInstall_slots prepareEnd_slots releaseOwed_slots
  ScriptChunk_slots ScriptEOF_slots Attach_slots startBegin_slots startClaim_slots startAuthorize_slots
  startLaunch_slots startRecord_slots startInstall_slots startEnd_slots finish_slots Cancel_slots
  closeRuns_slots closeBegin_slots : veyport.

Lemma mstep_slots m m' : slots_inv m → mstep m m' → slots_inv m'.
Proof.
  intros HI Hst. destruct Hst; auto with veyport.
  - unfold expire. destruct (m_prepared m !! id) eqn:E; [|done]. case_bool_decide; [|done].
    by eapply dropPrepared_slots.
  - unfold runResult. destruct (m_runs m !! id); [|done]. by apply set_journal_slots.
  - destruct (slot_acquire (m_budget m)) as [b ok] eqn:Ea. pose proof HI as [S1 S2 S3 S4 S5].
    destruct (acquire_slot _ _ _ S1 Ea) as [Hok Hs]. split; simpl; try done.
    rewrite Hs, S2. unfold held_slots, uninstalled, unlaunched. simpl. destruct ok; lia.
  - pose proof HI as [S1 S2 S3 S4 S5]. pose proof (held_nonneg m) as [Hu Hl]. unfold held_slots in S2.
    split; simpl; try done; [by apply slot_release_ok|].
    rewrite release_slot by (done || lia). rewrite S2. unfold held_slots, uninstalled, unlaunched. simpl. lia.
  - destruct H as (boot & j & b & _ & Hok & Hz & ->). split; simpl; try done.
Qed.

Lemma initial_slots m : initial m → slots_inv m.
Proof. intros (node & boot & ttl & j & b & _ & Hok & Hz & ->). split; simpl; done. Qed.

(** ** At most one launch *)

(** A step that launches nothing, loses no durable claim and brings no launch
    into a claimed phase. *)
Lemma once_frame m m' : once_inv m → m_launches m' = m_launches m → journal_inv (m_journal m') →
  j_durable (m_journal m) ⊆ j_durable (m_journal m') →
  (∀ id la', m_launching m' !! id = Some la' →
     ExecutionId (s_Binding (la_start la')) = id ∧
     (claim_held (la_phase la') → ∃ la, m_launching m !! id = Some la ∧ claim_held (la_phase la))) →
  once_inv m'.
Proof.
  intros [O1 O2 O3 O4 O5] He Hj Hd Hl. split; rewrite ?He; try done.
  - intros e Hin. apply Hd. by apply O2.
  - intros id la' Hla. by apply Hl.
  - intros id la' Hla Hc. destruct (Hl _ _ Hla) as [_ Hh]. destruct (Hh Hc) as (la & Hla0 & Hc0).
    destruct (O4 _ _ Hla0 Hc0) as [H1 H2]. split; [by apply Hd|done].
Qed.

(** The same, when the launches under way are untouched. *)
Lemma once_same m m' : once_inv m → m_launches m' = m_launches m → m_journal m' = m_journal m →
  m_launching m' = m_launching m → once_inv m'.
Proof.
  intros HO He Hj Hl. apply (once_frame m); rewrite ?Hj, ?Hl; try done; [by destruct HO|].
  intros id la Hla. split; [by apply (o_key _ HO)|]. intros Hc. by exists la.
Qed.

Lemma once_move m id la la' j : once_inv m → m_launching m !! id = Some la →
  la_start la' = la_start la → (claim_held (la_phase la') → claim_held (la_phase la)) →
  journal_inv j → j_durable (m_journal m) ⊆ j_durable j →
  once_inv (with_launch (with_journal m j) id la').
Proof.
  intros HO Hla Hs Hc Hj Hd. apply (once_frame m); simpl; try done.
  intros k l. rewrite lookup_insert_Some. intros [[<- <-]|[_ Hk]].
  - rewrite Hs. split; [by apply (o_key _ HO)|]. intros H. exists la. auto.
  - split; [by apply (o_key _ HO)|]. intros H. by exists l.
Qed.

Lemma once_phase m id la ph : once_inv m → m_launching m !! id = Some la →
  (claim_held ph → claim_held (la_phase la)) → once_inv (with_launch m id (set_phase la ph)).
Proof.
  intros HO Hla Hc. apply (once_move m id la (set_phase la ph) (m_journal m)); try done. by destruct HO.
Qed.

Lemma not_held_done b : ¬ claim_held (LDone b).
Proof. intros [?|?]; done. Qed.

Lemma launchFailure_once m id la reason io : once_inv m → m_launching m !! id = Some la →
  once_inv (launchFailure m id la reason io).
Proof.
  intros HO Hla. apply (once_move m id la); try done; simpl.
  - by intros []%not_held_done.
  - apply update_inv. by destruct HO.
  - apply update_durable.
Qed.

Lemma startClaim_once m id i pd io : once_inv m → once_inv (startClaim m id i pd io).
Proof.
  intros HO. unfold startClaim. launch_cases E.
  destruct i as [i|]; [|by apply (once_phase m id _ _ HO E); intros []%not_held_done].
  destruct (negb _); [by apply (once_phase m id _ _ HO E); intros []%not_held_done|].
  destruct (cancelled || pd); [by apply (once_phase m id _ _ HO E); intros []%not_held_done|].
  destruct (Claim _ _ _ _ _ _) as [j r] eqn:Ec.
  pose proof (Claim_inv (m_journal m) (s_Binding st) (ep_CommandSha256 (p_response p))
    (ei_IdentitySha256 (ep_Identity (p_response p))) (s_PolicyVersion st) io (o_journal _ HO)) as Hj.
  pose proof (Claim_durable (m_journal m) (s_Binding st) (ep_CommandSha256 (p_response p))
    (ei_IdentitySha256 (ep_Identity (p_response p))) (s_PolicyVersion st) io) as Hd.
  rewrite Ec in Hj, Hd. simpl in Hj, Hd. destruct r as [r|e].
  2:{ apply (once_move m id _ _ j HO E); try done. intros []%not_held_done. }
  apply Claim_Ok in Ec as (Hfile & Hcl & _). pose proof (o_key _ HO _ _ E) as Hid. simpl in Hid.
  rewrite Hid in *. destruct HO as [O1 O2 O3 O4 O5].
  assert (Hnew : id ∉ le_id <$> m_launches m).
  { intros (e & -> & He)%list_elem_of_fmap. apply O2 in He. destruct O1 as [O1 _].
    destruct (O1 _ He) as [c Hc]. congruence. }
  split; simpl; try done.
  - intros e He. apply Hd. by apply O2.
  - intros k l. rewrite lookup_insert_Some. intros [[<- <-]|[_ Hk]]; [done|by apply O3].
  - intros k l. rewrite lookup_insert_Some. intros [[<- <-]|[_ Hk]] Hh; [done|].
    destruct (O4 _ _ Hk Hh). split; [by apply Hd|done].
Qed.

Lemma startAuthorize_once m id pd now io : once_inv m → once_inv (startAuthorize m id pd now io).
Proof.
  intros HO. unfold startAuthorize. launch_cases E. destruct (launchAuthorityValid _ _ _).
  - apply (once_phase m id _ _ HO E). by left.
  - by apply (launchFailure_once _ _ _ _ _ HO E).
Qed.

Lemma startLaunch_once m id pd now lio io : once_inv m → once_inv (startLaunch m id pd now lio io).
Proof.
  intros HO. unfold startLaunch. launch_cases E.
  destruct (_ && negb (io_script lio)); [by apply (once_phase m id _ _ HO E); intros []%not_held_done|].
  repeat (destruct (negb _); [by apply (launchFailure_once _ _ _ _ _ HO E)|]).
  destruct HO as [O1 O2 O3 O4 O5]. pose proof (O3 _ _ E) as Hid. simpl in Hid.
  destruct (O4 _ _ E) as [Hcl Hnew]; [by right|]. split; simpl; try done.
  - intros e [->|He]%elem_of_cons; [|by apply O2]. unfold le_id. simpl. by rewrite Hid.
  - intros k l. rewrite lookup_insert_Some. intros [[<- <-]|[_ Hk]]; [done|by apply O3].
  - intros k l. rewrite lookup_insert_Some. intros [[<- <-]|[Hne Hk]] Hh; [by destruct Hh|].
    destruct (O4 _ _ Hk Hh). split; [done|]. rewrite not_elem_of_cons. split; [|done].
    unfold le_id. simpl. congruence.
  - apply NoDup_cons. split; [|done]. unfold le_id at 1. simpl. by rewrite Hid.
Qed.

Lemma startRecord_once m id io : once_inv m → once_inv (startRecord m id io).
Proof.
  intros HO. unfold startRecord. launch_cases E. unfold RecordRunning.
  pose proof (update_inv (m_journal m) (ExecutionId (s_Binding st)) "running" None io (o_journal _ HO)) as Hj.
  pose proof (update_durable (m_journal m) (ExecutionId (s_Binding st)) "running" None io) as Hd.
  destruct (update _ _ _ _ _) as [j r]. apply (once_move m id _ _ j HO E); try done.
  simpl. by destruct r; intros [?|?].
Qed.

Lemma startBegin_once m st now io : once_inv m → once_inv (startBegin m st now io).1.
Proof.
  intros HO. destruct (startBegin_cases m st now io) as [->|(s & p & _ & _ & _ & _ & _ & _ & _ & _ & ->)]; [done|].
  apply (once_frame m); simpl; try done; [by destruct HO|].
  intros k l. rewrite lookup_insert_Some. intros [[<- <-]|[_ Hk]].
  - split; [done|]. by intros [?|?].
  - split; [by apply (o_key _ HO)|]. intros H. by exists l.
Qed.

Lemma Cancel_once m b reason io : once_inv m → once_inv (Cancel m b reason io).1.
Proof.
  intros HO. unfold Cancel. destruct b as [b|]; [|done].
  destruct (m_prepared m !! _) eqn:E1. { destruct (negb _); [done|]. by apply (once_same m). }
  destruct (m_launching m !! _) as [la|] eqn:E2.
  { destruct (negb _); [done|].
    apply (once_move m _ la (set_cancelled la) (m_journal m)); try done. by destruct HO. }
  destruct (m_runs m !! _) as [r|] eqn:E3. { destruct (negb _); [done|]. by apply (once_same m). }
  repeat (case_match; simpl; try done).
Qed.

Lemma startEnd_once m id : once_inv m → once_inv (startEnd m id).
Proof.
  intros HO. unfold startEnd. launch_cases E. apply (once_frame m); simpl; try done; [by destruct HO|].
  intros k l [_ Hk]%lookup_delete_Some. split; [by apply (o_key _ HO)|]. intros H. by exists l.
Qed.

Lemma closeBegin_once m : once_inv m → once_inv (closeBegin m).
Proof.
  intros HO. unfold closeBegin. destruct (m_closed m); [done|].
  apply (once_frame m); simpl; try done; [by destruct HO|].
  intros k l. rewrite lookup_fmap, fmap_Some. intros (l0 & Hk & ->).
  split; [by apply (o_key _ HO _ l0)|]. intros H. by exists l0.
Qed.

Lemma startInstall_once m id : once_inv m → once_inv (startInstall m id).
Proof.
  intros HO. unfold startInstall. launch_cases E.
  pose proof (once_phase m id _ (LDone true) HO E ltac:(intros []%not_held_done)) as H.
  by apply (once_same _ _ H).
Qed.

#[local] Hint Resolve startClaim_once startAuthorize_once startLaunch_once startRecord_once
  startBegin_once Cancel_once startEnd_once closeBegin_once startInstall_once : veyport.

Lemma mstep_once m m' : once_inv m → mstep m m' → once_inv m'.
Proof.
  intros HO Hst. destruct Hst; auto with veyport; try (by apply (once_same m)).
  - apply (once_same m); try done; unfold prepareBegin; repeat (case_match; simpl; try done).
  - apply (once_same m); try done; unfold prepareInstall; repeat (case_match; simpl; try done).
  - apply (once_same m); try done; unfold prepareEnd; repeat (case_match; simpl; try done).
  - apply (once_same m); try done; unfold releaseOwed; repeat (case_match; simpl; try done).
  - apply (once_same m); try done; unfold expire; repeat (case_match; simpl; try done).
  - apply (once_same m); try done; unfold Attach; repeat (case_match; simpl; try done).
  - apply (once_same m); try done; unfold ScriptChunk, invalidateScript; repeat (case_match; simpl; try done).
  - apply (once_same m); try done; unfold ScriptEOF, invalidateScript; repeat (case_match; simpl; try done).
  - unfold runResult. destruct (m_runs m !! id); [|done]. apply (once_frame m); simpl; try done.
    + apply update_inv. by destruct HO.
    + apply update_durable.
    + intros k l Hk. split; [by apply (o_key _ HO)|]. intros H. by exists l.
  - apply (once_same m); try done; unfold finish; repeat (case_match; simpl; try done).
  - destruct (slot_acquire _). by apply (once_same m).
  - destruct H as (boot & j & b & Hcr & _ & _ & ->). destruct HO as [O1 O2 O3 O4 O5].
    pose proof (jstep_inv _ _ O1 (JCrash _ _ Hcr)) as Hj. destruct Hcr as (_ & Hd & _).
    split; simpl; try done. intros e He. unfold claimed. rewrite Hd. by apply O2.
Qed.

Lemma initial_once m : initial m → once_inv m.
Proof.
  intros (node & boot & ttl & j & b & Hj & _ & _ & ->). split; simpl; try done.
  - intros e He. by apply not_elem_of_nil in He.
  - by apply NoDup_nil.
Qed.

Lemma reachable_invs m : reachable m → slots_inv m ∧ once_inv m.
Proof.
  intros (m0 & Hi & Hr). pose proof (initial_slots _ Hi) as H1. pose proof (initial_once _ Hi) as H2.
  clear Hi. induction Hr as [|a b c Hab _ IH]; [done|].
  apply IH; [by apply (mstep_slots a)|by apply (mstep_once a)].
Qed.

(** ** What is launched was prepared and admitted *)

(** A step that only drops preparations and launches. *)
Lemma integ_sub m m' : integ_inv m → m_nodeID m' = m_nodeID m → m_bootID m' = m_bootID m →
  (∀ id p, m_prepared m' !! id = Some p → m_prepared m !! id = Some p) →
  (∀ id la, m_launching m' !! id = Some la → ∃ la0, m_launching m !! id = Some la0 ∧
     la_prep la0 = la_prep la ∧ la_start la0 = la_start la) →
  m_launches m' = m_launches m → integ_inv m'.
Proof.
  intros [G1 G2 G3] Hn Hb Hp Hl He. split; rewrite ?Hn, ?Hb, ?He.
  - intros id p H. by apply G1, Hp.
  - intros id la H. destruct (Hl _ _ H) as (la0 & H0 & <- & <-). by apply G2.
  - done.
Qed.

Lemma integ_same m m' : integ_inv m → m_nodeID m' = m_nodeID m → m_bootID m' = m_bootID m →
  m_prepared m' = m_prepared m → m_launching m' = m_launching m → m_launches m' = m_launches m →
  integ_inv m'.
Proof.
  intros HG Hn Hb Hp Hl He. apply (integ_sub m); rewrite ?Hp, ?Hl; try done. intros id la H. by exists la.
Qed.

Lemma dropPrepared_integ m id : integ_inv m → integ_inv (dropPrepared m id).
Proof.
  intros HG. apply (integ_sub m); simpl; try done.
  - by intros k p [_ Hk]%lookup_delete_Some.
  - intros k la Hk. by exists la.
Qed.

Lemma set_prepared_integ m id p : integ_inv m → prep_ok (m_nodeID m) (m_bootID m) id p →
  integ_inv (with_prepared m (<[id := p]> (m_prepared m))).
Proof.
  intros [G1 G2 G3] Hp. split; simpl; try done.
  intros k q. rewrite lookup_insert_Some. intros [[<- <-]|[_ Hk]]; auto.
Qed.

Lemma with_launch_integ m id la la' j : integ_inv m → m_launching m !! id = Some la →
  la_prep la' = la_prep la → la_start la' = la_start la →
  integ_inv (with_launch (with_journal m j) id la').
Proof.
  intros HG Hla Hp Hs. apply (integ_sub m); simpl; try done.
  intros k l. rewrite lookup_insert_Some. intros [[<- <-]|[_ Hk]]; [by exists la|by exists l].
Qed.

Lemma set_phase_integ m id la ph : integ_inv m → m_launching m !! id = Some la →
  integ_inv (with_launch m id (set_phase la ph)).
Proof. intros HG Hla. by apply (with_launch_integ m id la (set_phase la ph) (m_journal m)). Qed.

Lemma launchFailure_integ m id la reason io : integ_inv m → m_launching m !! id = Some la →
  integ_inv (launchFailure m id la reason io).
Proof. intros HG Hla. by apply (with_launch_integ m id la). Qed.

Lemma checks_length node j ready req io limits : 0 ≤ q_ScriptLength req →
  prepareChecks node j ready req io = Ok limits → q_ScriptLength req ≤ MaxScriptBytes.
Proof.
  intros Hn H. unfold prepareChecks in H. destruct (_ || _ || negb _); [done|].
  destruct (q_Enhanced req && negb ready); [done|]. destruct (q_Enhanced req && _) eqn:E1; [done|].
  destruct (negb (q_Enhanced req) && _) eqn:E2; [done|]. clear H.
  destruct (q_Enhanced req); simpl in *; bool_hyps.
  - by apply Z.ltb_ge.
  - apply Z.eqb_eq in H0. unfold MaxScriptBytes. lia.
Qed.

Lemma prepareInstall_integ m req limits i prepID now spool : integ_inv m → 0 ≤ q_ScriptLength req →
  (∃ j ready io, prepareChecks (m_nodeID m) j ready req io = Ok limits) →
  integ_inv (prepareInstall m req limits i prepID now spool).1.
Proof.
  intros HG Hn (j & ready & io & Hc). apply checks_length in Hc; [|done]. unfold prepareInstall.
  destruct (m_closed m); [done|]. destruct (bool_decide (is_Some (m_prepared _ !! _))); [done|].
  destruct (bool_decide (is_Some (m_runs _ !! _))); [done|]. destruct (_ && negb spool); [done|].
  destruct HG as [G1 G2 G3]. split; simpl; try done.
  intros k q. rewrite lookup_insert_Some. intros [[<- <-]|[_ Hk]]; [|by apply G1].
  split; simpl; try done.
  destruct (q_Enhanced req); simpl; [|done]. by destruct (bool_decide (ScriptInterpreter _ = _)) eqn:Eb; simpl; bool_hyps.
Qed.

Lemma invalidateScript_integ m b : integ_inv m → integ_inv (invalidateScript m b).
Proof.
  intros HG. unfold invalidateScript. repeat (case_match; try done). by apply dropPrepared_integ.
Qed.

Lemma u64_small z : 0 ≤ z ≤ MaxScriptBytes → u64 z = z.
Proof. unfold u64, MaxScriptBytes. intros. apply Z.mod_small. lia. Qed.

Lemma ScriptChunk_integ m b c now write : integ_inv m → integ_inv (ScriptChunk m b c now write).1.
Proof.
  intros HG. unfold ScriptChunk. destruct (match scriptPreparation m b now with Ok _ => _ | _ => _ end) as [p|] eqn:E.
  2:{ by apply invalidateScript_integ. }
  destruct b as [b|]; [|done]. destruct (scriptPreparation m (Some b) now) as [p0|] eqn:Ep; [|done].
  apply scriptPreparation_Some in Ep as (Ep & Hb & He & [data Hd] & Hcomp).
  apply set_prepared_integ; [done|]. destruct (g_prepared _ HG _ _ Ep) as [P1 P2 P3 P4 P5 P6 P7].
  rewrite Hd in *. destruct c as [[off d]|]; [|done]. guards_in E. bool_hyps. destruct P7 as (Q1 & Q2 & _).
  pose proof (len_nonneg data). pose proof (len_nonneg d).
  rewrite Q1 in *. rewrite u64_small in * by lia.
  match goal with H : (p_scriptLength p0 - len data <? len d) = false |- _ => apply Z.ltb_ge in H end.
  split; simpl; try done. rewrite u64_small by lia. rewrite len_app. split_and!; [done|lia|]. by rewrite Hcomp.
Qed.

Lemma ScriptEOF_integ m b c now seal : integ_inv m → integ_inv (ScriptEOF m b c now seal).1.
Proof.
  intros HG. unfold ScriptEOF. destruct (match scriptPreparation m b now with Ok _ => _ | _ => _ end) as [p|] eqn:E.
  2:{ by apply invalidateScript_integ. }
  destruct b as [b|]; [|done]. destruct (scriptPreparation m (Some b) now) as [p0|] eqn:Ep; [|done].
  apply scriptPreparation_Some in Ep as (Ep & Hb & He & [data Hd] & Hcomp).
  apply set_prepared_integ; [done|]. destruct (g_prepared _ HG _ _ Ep) as [P1 P2 P3 P4 P5 P6 P7].
  rewrite Hd in *. destruct c as [[l h]|]; [|done]. guards_in E. bool_hyps. simpl in *.
  destruct P7 as (Q1 & Q2 & _). split; simpl; try done. rewrite Hd. split_and!; try done.
  intros _. split; [done|]. apply Z.eqb_eq. rewrite <- Q1. done.
Qed.

Lemma Attach_integ m b now : integ_inv m → integ_inv (Attach m b now).1.
Proof.
  intros HG. unfold Attach. repeat (case_match; simpl; try done). apply set_prepared_integ; [done|].
  match goal with H : m_prepared m !! _ = Some ?q |- _ => by destruct (g_prepared _ HG _ _ H) end.
Qed.

Lemma startBegin_integ m st now io : integ_inv m → integ_inv (startBegin m st now io).1.
Proof.
  intros HG.
  destruct (startBegin_cases m st now io) as [->|(s & p & _ & Hp & Hb & Hc & Hi & Hl & He & _ & ->)]; [done|].
  pose proof HG as [G1 G2 G3]. split; simpl; try done.
  - intros k q [_ Hk]%lookup_delete_Some. by apply G1.
  - intros k l. rewrite lookup_insert_Some. intros [[<- <-]|[_ Hk]]; [|by apply G2].
    simpl. split; [by apply G1|]. by split.
Qed.

Lemma startLaunch_integ m id pd now lio io : once_inv m → integ_inv m → integ_inv (startLaunch m id pd now lio io).
Proof.
  intros HO HG. unfold startLaunch. launch_cases E.
  destruct (_ && negb (io_script lio)); [by apply (set_phase_integ m id _ _ HG E)|].
  do 3 (destruct (negb _); [by apply (launchFailure_integ _ _ _ _ _ HG E)|]).
  destruct (launchAuthorityValid _ pd now) eqn:Ea; simpl; [|by apply (launchFailure_integ _ _ _ _ _ HG E)].
  destruct (negb _); [by apply (launchFailure_integ _ _ _ _ _ HG E)|].
  pose proof (o_key _ HO _ _ E) as Hid. simpl in Hid.
  pose proof HG as [G1 G2 G3]. destruct (G2 _ _ E) as [Hp Hs]. simpl in *. split; simpl; try done.
  - intros k l. rewrite lookup_insert_Some. intros [[<- <-]|[_ Hk]]; [done|by apply G2].
  - intros e [->|He]%elem_of_cons; [|by apply G3]. unfold le_id. simpl. rewrite Hid. split_and!; try done.
    unfold launchAuthorityValid in Ea. bool_hyps. simpl in *. split; [by apply Z.ltb_lt|].
    intros Hen. rewrite Hen in *. simpl in *. by apply Z.ltb_lt.
Qed.

Lemma mstep_integ m m' : once_inv m → integ_inv m → mstep m m' → integ_inv m'.
Proof.
  intros HO HG Hst. destruct Hst; try (by apply (integ_same m)).
  - apply (integ_same m); try done; unfold prepareBegin; repeat (case_match; simpl; try done).
  - by apply prepareInstall_integ.
  - apply (integ_same m); try done; unfold prepareEnd; repeat (case_match; simpl; try done).
  - apply (integ_same m); try done; unfold releaseOwed; repeat (case_match; simpl; try done).
  - unfold expire. repeat (case_match; try done). by apply dropPrepared_integ.
  - by apply Attach_integ.
  - by apply ScriptChunk_integ.
  - by apply ScriptEOF_integ.
  - by apply startBegin_integ.
  - unfold startClaim. launch_cases E.
    repeat (case_match; try by apply (set_phase_integ m id _ _ HG E)); by apply (with_launch_integ m id _ _ _ HG E).
  - unfold startAuthorize. launch_cases E. destruct (launchAuthorityValid _ _ _).
    + by apply (set_phase_integ m id _ _ HG E).
    + by apply (launchFailure_integ _ _ _ _ _ HG E).
  - by apply startLaunch_integ.
  - unfold startRecord. launch_cases E. destruct (RecordRunning _ _ _). by apply (with_launch_integ m id _ _ _ HG E).
  - unfold startInstall. launch_cases E.
    by apply (integ_same _ _ (set_phase_integ m id _ (LDone true) HG E)).
  - unfold startEnd. launch_cases E. apply (integ_sub m); simpl; try done.
    intros k l [_ Hk]%lookup_delete_Some. by exists l.
  - apply (integ_same m); try done; unfold runResult; repeat (case_match; simpl; try done).
  - apply (integ_same m); try done; unfold finish; repeat (case_match; simpl; try done).
  - unfold Cancel. destruct b as [b|]; [|done].
    destruct (m_prepared m !! _). { destruct (negb _); [done|]. by apply dropPrepared_integ. }
    destruct (m_launching m !! _) as [la|] eqn:E2.
    { destruct (negb _); [done|]. by apply (with_launch_integ m _ la (set_cancelled la) (m_journal m)). }
    destruct (m_runs m !! _). { destruct (negb _); [done|]. by apply (integ_same m). }
    repeat (case_match; simpl; try done).
  - unfold closeBegin. destruct (m_closed m); [done|]. apply (integ_sub m); simpl; try done.
    intros k l. rewrite lookup_fmap, fmap_Some. intros (l0 & Hk & ->). by exists l0.
  - destruct (slot_acquire _). by apply (integ_same m).
  - destruct H as (boot & j & b & _ & _ & _ & ->). destruct HG as [G1 G2 G3]. split; simpl; done.
Qed.

Lemma reachable_integ m : reachable m → integ_inv m.
Proof.
  intros (m0 & Hi & Hr). pose proof (initial_once _ Hi) as H2.
  assert (H3 : integ_inv m0).
  { destruct Hi as (node & boot & ttl & j & b & _ & _ & _ & ->). split; simpl; try done.
    intros e He. by apply not_elem_of_nil in He. }
  clear Hi. induction Hr as [|a b c Hab _ IH]; [done|].
  apply IH; [by apply (mstep_once a)|by apply (mstep_integ a)].
Qed.

(** ** Launching a prepared command *)

Lemma Prepare_Ok m req ready create io resolve stat prepID now m1 resp :
  Prepare m req ready create io resolve stat prepID now = (m1, Ok resp) →
  Journal.Status (m_journal m) (q_ExecutionId req) io = None ∧ m_closed m1 = false ∧
  m_journal m1 = m_journal m ∧ m_launches m1 = m_launches m ∧
  m_launching m1 !! q_ExecutionId req = None ∧ m_runs m1 !! q_ExecutionId req = None ∧
  ∃ p, m_prepared m1 !! q_ExecutionId req = Some p ∧ p_response p = resp ∧
    p_enhanced p = q_Enhanced req ∧ ExecutionId (ep_Binding resp) = q_ExecutionId req ∧
    (q_Enhanced req = false → p_script p = None) ∧ p_command p = q_Command req.
Proof.
  unfold Prepare. destruct (prepareChecks _ _ _ _ _) as [limits|] eqn:Ec; [|done].
  assert (Hst : Journal.Status (m_journal m) (q_ExecutionId req) io = None).
  { unfold prepareChecks in Ec. by guards_in Ec. }
  unfold prepareBegin. destruct (m_closed m) eqn:Ecl; [done|].
  destruct (_ || _ || _ || _) eqn:Eg; [done|]. bool_hyps. rewrite <- !eq_None_not_Some in *.
  destruct (slot_acquire (m_budget m)) as [b []]; [|done].
  destruct (resolveFor _ _ _ _ _ _) as [i|]; [|done]. unfold prepareInstall. simpl. rewrite Ecl.
  rewrite !(bool_decide_eq_false_2 (is_Some _)) by by rewrite <- eq_None_not_Some.
  destruct (_ && negb create); [done|]. unfold prepareEnd. simpl. rewrite lookup_insert_eq. simpl.
  intros [= <- <-]. simpl. split_and!; try done. eexists. rewrite lookup_insert_eq. split; [done|].
  split_and!; try done. simpl. by intros ->.
Qed.

(** Each stage of a launch that meets no failure. *)
Lemma claim_runs m id p st i cio : m_launching m !! id = Some (mkLaunching p st false LResolving) →
  ExecutionId (s_Binding st) = id → Digest i = Digest (p_identity p) →
  j_records (m_journal m) !! id = None → j_files (m_journal m) !! journalName id = None →
  cio = mkClaimIO true (co_len cio) true true true true →
  ∃ j, startClaim m id (Ok i) false cio = with_launch (with_journal m j) id (mkLaunching p st false LClaimed)
       ∧ is_Some (j_records j !! id).
Proof.
  intros Hla Hid Hd Hr Hf ->. unfold startClaim. rewrite Hla, (bool_decide_eq_true_2 _ Hd). simpl.
  unfold Claim. rewrite Hid, Hr, Hf. simpl. eexists. split; [done|]. simpl. rewrite lookup_insert_eq. by eexists.
Qed.

Lemma authorize_runs m id p st now io : m_launching m !! id = Some (mkLaunching p st false LClaimed) →
  launchAuthorityValid (mkLaunching p st false LClaimed) false now = true →
  startAuthorize m id false now io = with_launch m id (mkLaunching p st false LAuthorized).
Proof. intros Hla Ha. unfold startAuthorize. by rewrite Hla, Ha. Qed.

Lemma launch_runs m id p st now io : m_launching m !! id = Some (mkLaunching p st false LAuthorized) →
  launchAuthorityValid (mkLaunching p st false LAuthorized) false now = true → p_script p = None →
  startLaunch m id false now (mkLaunchIO true true true true true) io =
    with_launches (with_launch m id (mkLaunching p st false LStarted))
      (mkEvent p st now (m_bootID m) :: m_launches m).
Proof. intros Hla Ha Hs. unfold startLaunch. rewrite Hla, Hs. simpl. by rewrite Ha. Qed.

Lemma record_runs m id p st uio : m_launching m !! id = Some (mkLaunching p st false LStarted) →
  ExecutionId (s_Binding st) = id → is_Some (j_records (m_journal m) !! id) →
  uio = mkUpdateIO (uo_read uio) true true (uo_len uio) true true true true true →
  ∃ j, startRecord m id uio = with_launch (with_journal m j) id (mkLaunching p st false LRecorded).
Proof.
  intros Hla Hid [r Hr] ->. unfold startRecord. rewrite Hla, Hid.
  unfold RecordRunning, update, lookupRecord. rewrite Hr. simpl. by eexists.
Qed.

Lemma Start_runs m p env i :
  let id := ExecutionId (ep_Binding (p_response p)) in
  m_prepared m !! id = Some p → m_closed m = false →
  Journal.Status (m_journal m) id (se_read env) = None →
  p_enhanced p = false → p_script p = None →
  UnixMilli (se_now env) < ExpiresUnixMilli (ep_Binding (p_response p)) →
  se_identity env = Ok i → Digest i = Digest (p_identity p) → env_ok env →
  ∃ m2, Start m (start_of p) env = (m2, true) ∧
    m_launches m2 = mkEvent p (start_of p) (se_now env) (m_bootID m) :: m_launches m ∧
    m_runs m2 !! id = Some (mkRun (ep_Binding (p_response p)) None) ∧
    m_launching m2 !! id = None ∧ m_prepared m2 !! id = None.
Proof.
  intros id Hp Hcl Hst Hen Hscr Hnow Hi Hdig (E1 & E2 & E3 & E4).
  destruct env as [enow pd eid rd cio lio uio]. simpl in *. subst pd eid.
  destruct (Status_None _ _ _ Hst) as [Hnr Hnf].
  assert (Hauth : ∀ ph, launchAuthorityValid (mkLaunching p (start_of p) false ph) false enow = true).
  { intros ph. unfold launchAuthorityValid. simpl. rewrite Hen. apply andb_true_iff. split; [|done].
    by apply Z.ltb_lt. }
  assert (Hbegin : startBegin m (Some (start_of p)) enow rd =
    (with_launch (with_prepared m (delete id (m_prepared m))) id
       (mkLaunching p (start_of p) false LResolving), Ok tt)).
  { unfold startBegin. simpl. fold id. rewrite Hcl, Hst, Hp, Hen.
    rewrite !(bool_decide_eq_true_2 _ eq_refl). simpl.
    by destruct (Z.leb_spec (ExpiresUnixMilli (ep_Binding (p_response p))) (UnixMilli enow)); [lia|]. }
  unfold Start. cbn [se_now se_read se_identity se_parentDone se_claim se_launch se_update].
  change (ExecutionId (s_Binding (start_of p))) with id. rewrite Hbegin. cbv zeta.
  match goal with |- context [startClaim ?m0 id _ _ _] =>
    destruct (claim_runs m0 id p (start_of p) i cio) as (j1 & -> & Hj1); try done; [apply lookup_insert_eq|] end.
  rewrite (authorize_runs _ id p (start_of p)) by (apply lookup_insert_eq || apply Hauth). rewrite E3.
  rewrite (launch_runs _ id p (start_of p)) by (apply lookup_insert_eq || apply Hauth || done).
  match goal with |- context [startRecord ?m0 id _] =>
    destruct (record_runs m0 id p (start_of p) uio) as (j2 & ->); try done; [apply lookup_insert_eq|] end.
  unfold startInstall. simpl. rewrite lookup_insert_eq. simpl. rewrite lookup_insert_eq. simpl.
  unfold startEnd. simpl. rewrite lookup_insert_eq. simpl.
  eexists. split; [done|]. simpl. split_and!; try done.
  - apply lookup_insert_eq.
  - apply lookup_delete_eq.
  - apply lookup_delete_eq.
Qed.

End manager.

(** ** A concrete history *)

Definition ex_m0 : Manager Budget :=
  mkManager "n1" "boot" Minute empty_journal (Budget.New 8) ∅ ∅ ∅ ∅ false 0 0 0 [].
Definition ex_req : ExecutionPrepare := mkPrepare "e1" "n1" "" "id" "" None false "" 0.
Definition ex_limits : ExecutionLimits := mkLimits MaxFrameBytes MaxBufferBytes 3600 5 60.
Definition ex_ident : Identity := mkIdentity "root" 0 0 None "/root" "/bin/sh" "/root" false.
Definition ex_now : Time := unix_epoch + Hour.
Definition ex_rio : read_io := mkReadIO true true.
Definition ex_lio : launch_io := mkLaunchIO true true true true true.
Definition ex_m1 : Manager Budget := (prepareBegin ex_m0 "e1").1.
Definition ex_m2 : Manager Budget := (prepareInstall ex_m1 ex_req ex_limits ex_ident "p1" ex_now true).1.
Definition ex_m3 : Manager Budget := prepareEnd ex_m2 "e1".
Definition ex_prep : preparation :=
  mkPrep 0 (mkPrepared "e1" (mkBinding "e1" "n1" "p1" "boot" (UnixMilli (ex_now + Minute)))
     (identityMessage ex_ident) (sha256 "id") ex_limits)
    ex_ident "id" "" false false "" 0 0 true None.
Definition ex_start : ExecutionStart := start_of ex_prep.
Definition ex_m4 : Manager Budget := (startBegin ex_m3 (Some ex_start) ex_now ex_rio).1.
Definition ex_m5 : Manager Budget := startClaim ex_m4 "e1" (Ok ex_ident) false io_ok.
Definition ex_m6 : Manager Budget := startAuthorize ex_m5 "e1" false ex_now upd_ok.
Definition ex_m7 : Manager Budget := startLaunch ex_m6 "e1" false ex_now ex_lio upd_ok.
Definition ex_env : start_env := mkStartEnv ex_now false (Ok ex_ident) ex_rio io_ok ex_lio upd_ok.
Definition ex_resolve (user cwd : string) : result Identity := Ok ex_ident.
Definition ex_stat (path : string) : result FileInfo := Err (ErrText "no such file").
Definition ex_prepared : Manager Budget * result ExecutionPrepared :=
  Prepare ex_m0 ex_req false false ex_rio ex_resolve ex_stat "p1" ex_now.

Lemma ex_initial : initial ex_m0.
Proof.
  exists "n1", "boot", Minute, empty_journal, (Budget.New 8). split; [|split; [apply Budget.NewBudget_inv|split; reflexivity]].
  split; intros n; [done|]. simpl. rewrite lookup_empty. by intros [].
Qed.

Lemma ex_m7_reachable : reachable ex_m7.
Proof.
  exists ex_m0. split; [exact ex_initial|].
  eapply rtc_l; [apply (MPrepareBegin ex_m0 "e1")|].
  eapply rtc_l; [apply (MPrepareInstall ex_m1 ex_req ex_limits ex_ident "p1" ex_now true)|].
  { by vm_compute. } { done. } { exists empty_journal, true, ex_rio. by vm_compute. }
  eapply rtc_l; [apply (MPrepareEnd ex_m2 "e1")|].
  eapply rtc_l; [apply (MStartBegin ex_m3 (Some ex_start) ex_now ex_rio)|].
  eapply rtc_l; [apply (MStartClaim ex_m4 "e1" (Ok ex_ident) false io_ok)|].
  eapply rtc_l; [apply (MStartAuthorize ex_m5 "e1" false ex_now upd_ok)|].
  eapply rtc_l; [apply (MStartLaunch ex_m6 "e1" false ex_now ex_lio upd_ok)|].
  apply rtc_refl.
Qed.

(** ** Properties *)

(** C1. No execution is launched twice: whatever the hub sends and however the
    agent's goroutines, failing writes, crashes and restarts interleave, the
    processes the manager has started over the life of its journal directory
    all have different execution ids. *)
Theorem at_most_once {B} `{SlotBudget B} (m : Manager B) :
  reachable m → NoDup (le_id <$> m_launches m).
Proof. intros Hr. destruct (reachable_invs _ Hr) as [_ HO]. apply (o_nodup _ HO). Qed.

Lemma at_most_once_witness : le_id <$> m_launches ex_m7 = ["e1"] ∧ NoDup (le_id <$> m_launches ex_m7).
Proof. split; [by vm_compute|exact (at_most_once ex_m7 ex_m7_reachable)]. Defined.

(** Session slots are neither lost nor duplicated: in every reachable
    state the number of slots taken from the shared budget is exactly the
    number of preparations being made, held preparations, launches in progress
    and runs, plus the slots about to be returned and those of the other users;
    in particular a closed, idle manager holds none. *)
Theorem slots_conserved {B} `{SlotBudget B} (m : Manager B) :
  reachable m →
  slots (m_budget m) =
    uninstalled m + Z.of_nat (size (m_prepared m)) + unlaunched m + Z.of_nat (size (m_runs m))
    + Z.of_nat (m_owed m) + Z.of_nat (m_ext m) ∧
  (m_pending m = ∅ → m_prepared m = ∅ → m_launching m = ∅ → m_runs m = ∅ → m_owed m = 0%nat →
   slots (m_budget m) = Z.of_nat (m_ext m)).
Proof.
  intros Hr. destruct (reachable_invs _ Hr) as [HS _]. pose proof (sl_exact _ HS) as Hs.
  unfold held_slots in Hs. split; [done|]. intros H1 H2 H3 H4 H5. rewrite Hs.
  unfold uninstalled, unlaunched. rewrite H1, H2, H3, H4, H5, !map_filter_empty, !map_size_empty. lia.
Qed.

Lemma slots_conserved_witness :
  b_used (m_budget ex_m7) = 1 ∧ slots (m_budget ex_m7) = held_slots ex_m7.
Proof. split; [by vm_compute|exact (proj1 (slots_conserved ex_m7 ex_m7_reachable))]. Defined.

(** C6. What runs is what was admitted: every process the manager ever started
    was prepared under its execution id on this node and boot; the start request
    named the exact binding, the digest of the very command and identity and the
    prepared limits; it started before the preparation (and, for a protected
    execution, the admission) expired; and a protected script had been delivered
    completely, with the announced length and SHA-256. *)
Theorem launch_integrity {B} `{SlotBudget B} (m : Manager B) (e : launchEvent) :
  reachable m → e ∈ m_launches m →
  let p := le_prep e in let st := le_start e in
  s_Binding st = ep_Binding (p_response p) ∧
  NodeId (s_Binding st) = m_nodeID m ∧ BootId (s_Binding st) = le_boot e ∧
  s_CommandSha256 st = sha256 (p_command p) ∧ s_IdentitySha256 st = Digest (p_identity p) ∧
  s_Limits st = Some (ep_Limits (p_response p)) ∧
  UnixMilli (le_now e) < ExpiresUnixMilli (s_Binding st) ∧
  (p_enhanced p = true →
     s_AdmissionReceipt st ≠ "" ∧ UnixMilli (le_now e) < s_AdmissionExpiresUnixMilli st ∧
     (ScriptInterpreter (p_command p) ≠ "" →
        ∃ data, p_script p = Some data ∧ sha256 data = p_scriptHash p ∧
                len data = p_scriptLength p ∧ len data ≤ MaxScriptBytes)).
Proof.
  intros Hr He p st. destruct (g_events _ (reachable_integ _ Hr) _ He) as (P & S & [T1 T2]).
  fold p in P, S, T1, T2. fold st in S, T1, T2.
  destruct P as [P1 P2 P3 P4 P5 P6 P7], S as [S1 S2 S3 S4 S5].
  rewrite <- S1. split_and!; try congruence. intros Hen.
  destruct (S5 Hen) as [Hc Hrec]. split_and!; [done|by apply T2|]. intros Hi.
  destruct (p_script p) as [data|] eqn:Ep; [|by destruct (Hi (P7 Hen))].
  destruct P7 as (_ & Hl & Hd). destruct (Hd Hc). exists data. split_and!; try done. lia.
Qed.

Lemma launch_integrity_witness :
  s_CommandSha256 ex_start = sha256 "id".
Proof.
  assert (He : mkEvent ex_prep ex_start ex_now "boot" ∈ m_launches ex_m7).
  { replace (m_launches ex_m7) with [mkEvent ex_prep ex_start ex_now "boot"] by by vm_compute.
    apply list_elem_of_singleton. reflexivity. }
  destruct (launch_integrity ex_m7 _ ex_m7_reachable He) as (_ & _ & _ & H & _). exact H.
Defined.

(** A prepared command starts: after [Prepare] succeeds for a standard
    execution, a [Start] that names its binding, digests and limits before the
    expiry, finds the same identity and meets no failing system call, launches
    exactly that preparation, records it and leaves it as the run of its id. *)
Theorem prepare_then_start {B} `{SlotBudget B} (m m1 : Manager B) (req : ExecutionPrepare)
    (ready create : bool) (io : read_io) (resolve : string → string → result Identity)
    (stat : string → result FileInfo) (prepID : string) (now : Time) (resp : ExecutionPrepared)
    (p : preparation) (st : ExecutionStart) (env : start_env) (i : Identity) :
  Prepare m req ready create io resolve stat prepID now = (m1, Ok resp) →
  q_Enhanced req = false → m_prepared m1 !! q_ExecutionId req = Some p →
  s_Binding st = ep_Binding resp → s_CommandSha256 st = ep_CommandSha256 resp →
  s_IdentitySha256 st = ei_IdentitySha256 (ep_Identity resp) → s_Limits st = Some (ep_Limits resp) →
  s_AdmissionReceipt st = "" → s_AdmissionExpiresUnixMilli st = 0 → s_PolicyVersion st = "" →
  UnixMilli (se_now env) < ExpiresUnixMilli (ep_Binding resp) →
  se_identity env = Ok i → Digest i = Digest (p_identity p) → env_ok env → se_read env = io →
  ∃ m2, Start m1 st env = (m2, true) ∧
    m_launches m2 = mkEvent p st (se_now env) (m_bootID m1) :: m_launches m ∧
    m_runs m2 !! q_ExecutionId req = Some (mkRun (ep_Binding resp) None) ∧
    m_launching m2 !! q_ExecutionId req = None ∧ m_prepared m2 !! q_ExecutionId req = None.
Proof.
  intros HP Hstd Hp Hb Hcs His Hl Hrec Hexp Hpol Hnow Hi Hdig Henv Hio.
  destruct (Prepare_Ok _ _ _ _ _ _ _ _ _ _ _ HP)
    as (Hst & Hcl & Hj & Hev & Hla & Hru & p' & Hp' & Hresp & Hen & Hid & Hscr & _).
  assert (p' = p) as -> by congruence. rewrite <- Hid, <- Hev, <- Hj in *. rewrite Hstd in Hen.
  assert (st = mkStart (ep_Binding resp) (ep_CommandSha256 resp)
    (ei_IdentitySha256 (ep_Identity resp)) (Some (ep_Limits resp)) "" "" 0) as ->.
  { destruct st; simpl in *; congruence. }
  subst resp io. by apply (Start_runs m1 p env i); auto.
Qed.

Lemma prepare_then_start_witness :
  ∃ m2, Start (ex_prepared.1) ex_start ex_env = (m2, true) ∧ m_prepared m2 !! "e1" = None.
Proof.
  destruct (prepare_then_start ex_m0 (ex_prepared.1) ex_req false false ex_rio ex_resolve ex_stat "p1" ex_now
     (p_response ex_prep) ex_prep ex_start ex_env ex_ident) as (m2 & H1 & _ & _ & _ & H2);
    try (vm_compute; reflexivity).
  - by vm_compute; split_and!.
  - exact (ex_intro _ m2 (conj H1 H2)).
Defined.
