(* ===== verification/ExecRun.v ===== *)
(** A running process of the agent's execution manager
    (agent/internal/execution/manager.go, type Run): sequenced input, the
    protected script copied to its standard input, sequenced output, and the
    result its lifecycle reports.

    Which channel a [select] takes, what a read or write returns and whether
    the context has ended are inputs. *)

From S2P Require Import Prelude Codec Journal Execution.

(** ** Input frames *)

(** [ri_log] is every frame put on the input channel; [eof] is the last one. *)
Record RunInput := mkRunInput {
  ri_enhanced : bool;
  ri_sequence : Z;
  ri_closed : bool;
  ri_log : list string;
  ri_eof : bool;
}.

(** What the two selects of [Input] and [InputEOF] find: the process or the
    input loop is gone, the channel takes the frame, or the context ended
    (with the process gone or not). *)
Inductive selected := SelGone | SelSent | SelCtx (gone : bool).

Definition errCtx := ErrText "context ended".

Definition Input (r : RunInput) (data : option (Z * string)) (sel : selected) : RunInput * result unit :=
  match data with
  | None => (r, Err (ErrText "invalid execution input sequence or frame"))
  | Some (seq, d) =>
      if ri_enhanced r || ri_closed r || negb (seq =? ri_sequence r) || (MaxFrameBytes <? len d)
      then (r, Err (ErrText "invalid execution input sequence or frame"))
      else
        let next := mkRunInput (ri_enhanced r) (u64 (ri_sequence r + 1)) (ri_closed r) (ri_log r) (ri_eof r) in
        match sel with
        | SelGone | SelCtx true => (next, Ok tt)
        | SelSent => (mkRunInput (ri_enhanced r) (u64 (ri_sequence r + 1)) (ri_closed r)
                        (ri_log r ++ [d]) (ri_eof r), Ok tt)
        | SelCtx false => (r, Err errCtx)
        end
  end.

Definition InputEOF (r : RunInput) (eof : option Z) (sel : selected) : RunInput * result unit :=
  match eof with
  | None => (r, Err (ErrText "invalid execution input EOF"))
  | Some seq =>
      if ri_enhanced r || ri_closed r || negb (seq =? ri_sequence r)
      then (r, Err (ErrText "invalid execution input EOF"))
      else
        match sel with
        | SelGone | SelCtx true =>
            (mkRunInput (ri_enhanced r) (ri_sequence r) true (ri_log r) (ri_eof r), Ok tt)
        | SelSent => (mkRunInput (ri_enhanced r) (ri_sequence r) true (ri_log r) true, Ok tt)
        | SelCtx false => (r, Err errCtx)
        end
  end.

(** The messages of a client, in the order the run receives them. *)
Inductive inputMsg := MsgData (seq : Z) (data : string) | MsgEOF (seq : Z).

Definition inputStep (r : RunInput) (ms : inputMsg * selected) : RunInput * result unit :=
  match ms.1 with
  | MsgData seq d => Input r (Some (seq, d)) ms.2
  | MsgEOF seq => InputEOF r (Some seq) ms.2
  end.

(** The messages accepted, in order, and the final state. *)
Fixpoint inputRun (r : RunInput) (msgs : list (inputMsg * selected)) : RunInput * list inputMsg :=
  match msgs with
  | [] => (r, [])
  | ms :: t =>
      match inputStep r ms with
      | (r1, Ok _) => let '(r2, acc) := inputRun r1 t in (r2, ms.1 :: acc)
      | (r1, Err _) => inputRun r1 t
      end
  end.

Definition newInput : RunInput := mkRunInput false 0 false [] false.

(** The input loop writes the frames it takes until a write fails. *)
Fixpoint inputLoop (frames : list (string * bool)) : list string :=
  match frames with
  | [] => []
  | (d, ok) :: t => d :: (if ok then inputLoop t else [])
  end.

(** ** The protected script *)

Inductive readErr := RNil | REOF | RClosed | ROther.
Inductive writeRes := WAll | WError | WShort.

(** One turn of [copyProtectedInput]: what was read, whether the context had
    ended and the process had exited then, and what a write would do. *)
Record turn := mkTurn {
  t_data : string; t_err : readErr; t_ctx : bool; t_exited : bool; t_write : writeRes;
}.

Inductive copyOutcome := CopyComplete | CopyStopped | CopyFailed.

Definition is_RNil (e : readErr) : bool := match e with RNil => true | _ => false end.
Definition is_REOF (e : readErr) : bool := match e with REOF => true | _ => false end.
Definition is_RClosed (e : readErr) : bool := match e with RClosed => true | _ => false end.

(** [acc] is what was read (its length and digest), [out] what was written;
    [None] means the source has not ended yet. *)
Fixpoint copyProtectedInput (scriptLength : Z) (scriptHash : string) (turns : list turn)
    (acc out : string) (emptyReads : Z) : option (copyOutcome * string) :=
  match turns with
  | [] => None
  | t :: rest =>
      let n := len (t_data t) in
      let emptyReads := if 0 <? n then 0 else if is_RNil (t_err t) then emptyReads + 1 else emptyReads in
      let acc := if 0 <? n then acc +:+ t_data t else acc in
      if t_ctx t then Some (CopyStopped, out)
      else if is_RClosed (t_err t) && t_exited t then Some (CopyStopped, out)
      else if (negb (is_RNil (t_err t)) && negb (is_REOF (t_err t))) || (scriptLength <? len acc)
              || (100 <=? emptyReads)
              || (is_REOF (t_err t) &&
                  (negb (len acc =? scriptLength) || negb (bool_decide (sha256 acc = scriptHash))))
      then Some (CopyFailed, out)
      else
        let finish out := if is_REOF (t_err t) then Some (CopyComplete, out)
                          else copyProtectedInput scriptLength scriptHash rest acc out emptyReads in
        if 0 <? n then
          match t_write t with
          | WError => Some (CopyStopped, out)
          | WShort => Some (CopyFailed, out)
          | WAll => finish (out +:+ t_data t)
          end
        else finish out
  end.

(** ** Output *)

(** [readOutput]'s loop over the reads of one stream; [emits] are the outcomes
    of [emit].  The result is the frames, whether the stream is complete so far
    and the final sequence number; [None] while the stream has not ended. *)
Fixpoint readLoop (reads : list (string * readErr)) (emits : list bool) (seq : Z)
    : option (list (Z * string) * bool * Z) :=
  match reads with
  | [] => None
  | (d, e) :: rest =>
      let continue_ (emits : list bool) (seq : Z) :=
        match e with
        | RNil => readLoop rest emits seq
        | REOF => Some ([], true, seq)
        | _ => Some ([], false, seq)
        end in
      if 0 <? len d then
        match emits with
        | true :: es =>
            match continue_ es (u64 (seq + 1)) with
            | Some (frames, complete, n) => Some ((seq, d) :: frames, complete, n)
            | None => None
            end
        | _ => Some ([], false, seq)
        end
      else continue_ emits seq
  end.

(** The whole of [readOutput]: the frames, then the end-of-file message with
    the sequence number (if it could be sent) and the completeness flag. *)
Definition readOutput (reads : list (string * readErr)) (emits : list bool) (eofSent : bool)
    : option (list (Z * string) * option Z * bool) :=
  '(frames, complete, n) ← readLoop reads emits 0;
  Some (frames, if eofSent then Some n else None, complete && eofSent).

(** ** The result *)

(** [cmd.Wait]'s answer: success, an exit error with its code and signal, or
    another failure. *)
Inductive waitRes := WaitOk | WaitExit (code : Z) (signal : option string) | WaitOther.

Definition int32_of (z : Z) : Z := (z + 2 ^ 31) mod 2 ^ 32 - 2 ^ 31.

Definition finalResult (b : ExecutionBinding) (stdoutComplete stderrComplete backgroundCleaned : bool)
    (wait : waitRes) (ctxDone : bool) (reason : string) (inputFailed : bool) (recorded : bool)
    : ExecutionResult :=
  let '(state, code, signal, why) :=
    let why := if backgroundCleaned then "background_descendants_terminated" else "" in
    match wait with
    | WaitOk => ("exited", 0, "", why)
    | WaitExit c s => ("exited", int32_of c, default "" s, why)
    | WaitOther => ("outcome_unknown", -1, "", "process result unavailable")
    end in
  let '(state, why) :=
    if ctxDone then ("cancelled", if bool_decide (reason = "") then "runtime_or_transport_expired" else reason)
    else (state, why) in
  let '(state, why) := if inputFailed then ("cancelled", "protected_input_incomplete") else (state, why) in
  let '(state, why) :=
    if negb stdoutComplete || negb stderrComplete then
      if bool_decide (state = "exited") then ("transport_lost", "output integrity incomplete") else (state, why)
    else (state, why) in
  let why := if recorded then why else "completion not durable" in
  mkResult b state code signal why stdoutComplete stderrComplete.

(** ** Lemmas *)

Definition is_data (m : inputMsg) : option (Z * string) :=
  match m with MsgData s d => Some (s, d) | MsgEOF _ => None end.

(** The sequence numbers the accepted messages carry. *)
Fixpoint numbered (seq : Z) (msgs : list inputMsg) : Prop :=
  match msgs with
  | [] => True
  | MsgData s d :: t => s = seq ∧ len d ≤ MaxFrameBytes ∧ numbered (seq + 1) t
  | [MsgEOF s] => s = seq
  | MsgEOF s :: _ => False
  end.

(** Everything the source returned, in order. *)
Definition all_read (turns : list turn) : string := foldr (fun t s => t_data t +:+ s) "" turns.

(** Frames numbered from [seq], none of them empty. *)
Fixpoint frames_from (seq : Z) (frames : list (Z * string)) : Prop :=
  match frames with
  | [] => True
  | (s, d) :: t => s = seq ∧ 0 < len d ∧ frames_from (seq + 1) t
  end.

Definition payload (frames : list (Z * string)) : string := foldr (fun f s => f.2 +:+ s) "" frames.

(** What a stream carried up to its first error, and whether that was its end. *)
Fixpoint stream (reads : list (string * readErr)) : string :=
  match reads with
  | [] => ""
  | (d, RNil) :: t => d +:+ stream t
  | (d, _) :: _ => d
  end.

Fixpoint ends_in_EOF (reads : list (string * readErr)) : bool :=
  match reads with
  | [] => false
  | (_, RNil) :: t => ends_in_EOF t
  | (_, e) :: _ => is_REOF e
  end.

Definition ex_script : string := "echo hi".
Definition ex_turns : list turn :=
  [mkTurn "echo" RNil false false WAll; mkTurn "" RNil false false WAll;
   mkTurn " hi" RNil false false WAll; mkTurn "" REOF false false WAll].

Lemma closed_accepts r msgs : ri_closed r = true → inputRun r msgs = (r, []).
Proof.
  intros Hc. induction msgs as [|[m sel] t IH]; [done|]. simpl.
  assert (∃ e, inputStep r (m, sel) = (r, Err e)) as [e ->]; [|done].
  destruct m; unfold inputStep; simpl; rewrite Hc, orb_true_r; by eexists.
Qed.

Lemma inputStep_Err r ms r1 e : inputStep r ms = (r1, Err e) → r1 = r.
Proof.
  destruct ms as [[seq d|seq] sel]; unfold inputStep; simpl; unfold Input, InputEOF;
    repeat (case_match; try done); by intros [= <-].
Qed.

Lemma inputStep_data r seq d sel r1 : 0 ≤ ri_sequence r → ri_sequence r < 2 ^ 64 - 1 →
  inputStep r (MsgData seq d, sel) = (r1, Ok tt) →
  seq = ri_sequence r ∧ len d ≤ MaxFrameBytes ∧ ri_sequence r1 = ri_sequence r + 1 ∧
  (ri_log r1 = ri_log r ∨ ri_log r1 = ri_log r ++ [d]).
Proof.
  intros H0 Hb. unfold inputStep; simpl; unfold Input. destruct (_ || _ || _ || _) eqn:E; [done|].
  bool_hyps. z_hyps. unfold u64.
  destruct sel as [| |[]]; intros [= <-]; simpl; rewrite Z.mod_small by lia; auto.
Qed.

Lemma inputStep_eof r seq sel r1 : inputStep r (MsgEOF seq, sel) = (r1, Ok tt) →
  seq = ri_sequence r ∧ ri_closed r1 = true ∧ ri_log r1 = ri_log r.
Proof.
  unfold inputStep; simpl; unfold InputEOF. destruct (_ || _ || _) eqn:E; [done|].
  bool_hyps. z_hyps. destruct sel as [| |[]]; intros [= <-]; auto.
Qed.

Lemma inputRun_numbered r msgs r' acc :
  0 ≤ ri_sequence r → ri_sequence r + Z.of_nat (length msgs) < 2 ^ 64 →
  inputRun r msgs = (r', acc) →
  numbered (ri_sequence r) acc ∧
  sublist (ri_log r') (ri_log r ++ omap (fun m => snd <$> is_data m) acc).
Proof.
  revert r r' acc. induction msgs as [|[m sel] t IH]; intros r r' acc H0 Hb Hrun.
  { injection Hrun as <- <-. simpl. by rewrite app_nil_r. }
  cbn [inputRun length] in Hrun, Hb. destruct (inputStep r (m, sel)) as [r1 [[]|e]] eqn:Es.
  2:{ apply inputStep_Err in Es. subst r1. apply IH; [done|lia|done]. }
  destruct m as [seq d|seq].
  - apply inputStep_data in Es as (-> & Hd & Hs & Hlog); [|lia..].
    destruct (inputRun r1 t) as [r2 acc2] eqn:Er. injection Hrun as <- <-.
    destruct (IH r1 r2 acc2) as [IH1 IH2]; [lia|lia|done|]. rewrite Hs in IH1. split; [done|].
    simpl. etransitivity; [exact IH2|]. destruct Hlog as [->| ->]; simpl.
    + apply sublist_app; [done|]. by apply sublist_cons.
    + by rewrite <- app_assoc.
  - apply inputStep_eof in Es as (-> & Hc & Hlog). rewrite (closed_accepts _ t Hc) in Hrun.
    injection Hrun as <- <-. simpl. by rewrite Hlog, app_nil_r.
Qed.

(** *** The script copy *)

Lemma app_empty_r s : s +:+ "" = s.
Proof. induction s as [|c s IH]; [done|]. change (String c (s +:+ "") = String c s). by rewrite IH. Qed.

Lemma empty_data s : (0 <? len s) = false → s = "".
Proof. destruct s; [done|]. unfold len. cbn [String.length]. intros H%Z.ltb_ge. lia. Qed.

Lemma copy_spec L h turns acc e o w :
  copyProtectedInput L h turns acc acc e = Some (o, w) →
  (∃ rest, acc +:+ all_read turns = w +:+ rest) ∧ (o = CopyComplete → len w = L ∧ sha256 w = h).
Proof.
  revert acc e. induction turns as [|t rest IH]; intros acc e H; [done|]. cbn [copyProtectedInput] in H.
  set (e' := if 0 <? len (t_data t) then 0 else _) in H. clearbody e'.
  destruct (t_ctx t). { injection H as <- <-. split; [by eexists|done]. }
  destruct (is_RClosed _ && _). { injection H as <- <-. split; [by eexists|done]. }
  destruct (_ || _ || _ || _) eqn:Ef. { injection H as <- <-. split; [by eexists|done]. }
  apply orb_false_iff in Ef as [_ Ef].
  destruct (0 <? len (t_data t)) eqn:En.
  - destruct (t_write t); [|by (injection H as <- <-; split; [by eexists|done])..].
    cbn [all_read foldr]. rewrite <- string_app_assoc. destruct (is_REOF (t_err t)).
    + injection H as <- <-. split; [by eexists|]. intros _. simpl in Ef. bool_hyps. z_hyps. done.
    + by apply (IH _ e').
  - apply empty_data in En. cbn [all_read foldr]. rewrite En. destruct (is_REOF (t_err t)).
    + injection H as <- <-. split; [by eexists|]. intros _. simpl in Ef. bool_hyps. z_hyps. done.
    + by apply (IH _ e').
Qed.

(** Each turn that does not end the copy uses up part of this measure. *)
Lemma copy_terminates L h turns acc out e : 0 ≤ e < 100 → len acc ≤ L →
  (L - len acc) * 100 + (100 - e) ≤ Z.of_nat (length turns) →
  is_Some (copyProtectedInput L h turns acc out e).
Proof.
  revert acc out e. induction turns as [|t rest IH]; intros acc out e He Ha Hm; simpl in Hm; [lia|].
  cbn [copyProtectedInput]. pose proof (len_nonneg (t_data t)).
  destruct (t_ctx t); [by eexists|]. destruct (is_RClosed _ && _); [by eexists|].
  destruct (_ || _ || _ || _) eqn:Ef; [by eexists|].
  apply orb_false_iff in Ef as [Ef _]. apply orb_false_iff in Ef as [Ef E100].
  apply orb_false_iff in Ef as [Eerr EL]. z_hyps.
  assert (Hnil : is_REOF (t_err t) = false → is_RNil (t_err t) = true) by (destruct (t_err t); done).
  destruct (Z.ltb_spec 0 (len (t_data t))).
  - destruct (t_write t); [|by eexists..]. destruct (is_REOF (t_err t)); [by eexists|].
    apply IH; rewrite ?len_app in *; lia.
  - destruct (is_REOF (t_err t)); [by eexists|]. rewrite Hnil in * by done. apply IH; lia.
Qed.

(** *** Output *)

Lemma readLoop_spec reads emits seq frames complete n :
  0 ≤ seq → seq + Z.of_nat (length reads) < 2 ^ 64 →
  readLoop reads emits seq = Some (frames, complete, n) →
  frames_from seq frames ∧ n = seq + Z.of_nat (length frames) ∧
  (∃ rest, stream reads = payload frames +:+ rest) ∧
  (complete = true → payload frames = stream reads ∧ ends_in_EOF reads = true).
Proof.
  revert emits seq frames complete n.
  induction reads as [|[d e] rest IH]; intros emits seq frames complete n H0 Hb H; [done|].
  cbn [readLoop length] in H, Hb. destruct (0 <? len d) eqn:En.
  - destruct emits as [|[] es]; [injection H as <- <- <-; split_and!; [done|simpl; lia|by eexists|done]| |
      injection H as <- <- <-; split_and!; [done|simpl; lia|by eexists|done]].
    assert (Hu : u64 (seq + 1) = seq + 1) by (unfold u64; apply Z.mod_small; lia). rewrite Hu in H.
    destruct (match e with RNil => _ | _ => _ end) as [[[fr c] k]|] eqn:Ec; [|done].
    injection H as <- <- <-. cbn [frames_from payload foldr length snd].
    assert (Hsub : frames_from (seq + 1) fr ∧ k = seq + 1 + Z.of_nat (length fr) ∧
      (∃ r, stream ((d, e) :: rest) = d +:+ payload fr +:+ r) ∧
      (c = true → d +:+ payload fr = stream ((d, e) :: rest) ∧ ends_in_EOF ((d, e) :: rest) = true)).
    { destruct e; [|injection Ec as <- <- <-; split_and!; [done|simpl; lia|exists ""; by rewrite app_empty_r|
        try done; by rewrite app_empty_r]..].
      destruct (IH es (seq + 1) fr c k) as (I1 & I2 & [r I3] & I4); [lia|lia|done|].
      cbn [stream ends_in_EOF]. split_and!; try done.
      - exists r. by rewrite I3.
      - intros Hc. destruct (I4 Hc) as [-> ->]. done. }
    destruct Hsub as (I1 & I2 & [r I3] & I4). z_hyps. split_and!; try done; [lia|].
    exists r. rewrite I3. unfold payload. by rewrite string_app_assoc.
  - apply empty_data in En. subst d. destruct e.
    + destruct (IH emits seq frames complete n) as (I1 & I2 & [r I3] & I4); [lia|lia|done|]. split_and!; try done. by exists r.
    + injection H as <- <- <-. split_and!; [done|simpl; lia|by exists ""|done].
    + injection H as <- <- <-. split_and!; [done|simpl; lia|by exists ""|done].
    + injection H as <- <- <-. split_and!; [done|simpl; lia|by exists ""|done].
Qed.

Lemma readOutput_complete reads emits eofSent frames eof :
  Z.of_nat (length reads) < 2 ^ 64 → readOutput reads emits eofSent = Some (frames, eof, true) →
  frames_from 0 frames ∧ eof = Some (Z.of_nat (length frames)) ∧
  payload frames = stream reads ∧ ends_in_EOF reads = true.
Proof.
  intros Hb H. unfold readOutput in H. destruct (readLoop reads emits 0) as [[[fr c] n]|] eqn:E; [|done].
  simpl in H. injection H as <- <- Hc. apply andb_true_iff in Hc as [-> ->].
  destruct (readLoop_spec _ _ _ _ _ _ ltac:(done) Hb E) as (H1 & H2 & _ & H3).
  destruct (H3 eq_refl). split_and!; try done. by rewrite H2.
Qed.

Lemma finalResult_exited b so se bg wait ctx reason inputFailed recorded :
  r_State (finalResult b so se bg wait ctx reason inputFailed recorded) = "exited" ↔
  wait ≠ WaitOther ∧ ctx = false ∧ inputFailed = false ∧ so = true ∧ se = true.
Proof.
  unfold finalResult. destruct wait, ctx, inputFailed, so, se; simpl; split;
    (by intros (?&?&?&?&?)) || done.
Qed.

(** ** Properties *)

(** The protected script reaches the process whole or the run is failed:
    however its source answers, the copy ends after at most 100 reads per byte;
    what is written to the process is always a prefix of what was read; and the
    copy counts as complete only when exactly the admitted number of bytes with
    the admitted SHA-256 was written. *)
Theorem script_copy_exact (L : Z) (h : string) (turns : list turn) :
  0 ≤ L → 100 * (L + 1) ≤ Z.of_nat (length turns) →
  ∃ o w, copyProtectedInput L h turns "" "" 0 = Some (o, w) ∧
    (∃ rest, all_read turns = w +:+ rest) ∧
    (o = CopyComplete → len w = L ∧ sha256 w = h).
Proof.
  intros HL Hlen. destruct (copy_terminates L h turns "" "" 0) as [[o w] Hc]; [done|done| |].
  { change (len "") with 0. lia. }
  exists o, w. split; [done|]. exact (copy_spec _ _ _ _ _ _ _ Hc).
Qed.

Lemma script_copy_exact_witness :
  let turns := ex_turns ++ replicate 800 (mkTurn "" RNil false false WAll) in
  copyProtectedInput 7 (sha256 ex_script) turns "" "" 0 = Some (CopyComplete, ex_script) ∧
  ∃ o w, copyProtectedInput 7 (sha256 ex_script) turns "" "" 0 = Some (o, w) ∧
    ∃ rest, all_read turns = w +:+ rest.
Proof.
  intros turns. split; [by vm_compute|].
  destruct (script_copy_exact 7 (sha256 ex_script) turns) as (o & w & H1 & H2 & _);
    [done|by vm_compute|]. exact (ex_intro _ o (ex_intro _ w (conj H1 H2))).
Defined.

(** "exited" means the output is whole: a result reports the state
    "exited" exactly when the process's exit status is known, the run was not
    cancelled, its protected input did not fail and both streams are complete;
    and then each stream was sent as non-empty frames numbered 0, 1, 2, ...
    whose concatenation is everything the process wrote up to its end of file,
    followed by an end-of-file message carrying the number of frames. *)
Theorem exited_means_complete (b : ExecutionBinding) (out err : list (string * readErr))
    (outEmits errEmits : list bool) (outEOF errEOF : bool) (f1 f2 : list (Z * string))
    (e1 e2 : option Z) (so se bg : bool) (wait : waitRes) (ctx : bool) (reason : string)
    (inputFailed recorded : bool) :
  Z.of_nat (length out) < 2 ^ 64 → Z.of_nat (length err) < 2 ^ 64 →
  readOutput out outEmits outEOF = Some (f1, e1, so) →
  readOutput err errEmits errEOF = Some (f2, e2, se) →
  r_State (finalResult b so se bg wait ctx reason inputFailed recorded) = "exited" →
  (wait ≠ WaitOther ∧ ctx = false ∧ inputFailed = false) ∧
  (frames_from 0 f1 ∧ e1 = Some (Z.of_nat (length f1)) ∧ payload f1 = stream out ∧ ends_in_EOF out = true) ∧
  (frames_from 0 f2 ∧ e2 = Some (Z.of_nat (length f2)) ∧ payload f2 = stream err ∧ ends_in_EOF err = true).
Proof.
  intros H1 H2 Ho He (Hw & Hc & Hi & -> & ->)%finalResult_exited.
  split_and!; try done; eauto using readOutput_complete.
  all: destruct (readOutput_complete _ _ _ _ _ H1 Ho) as (?&?&?&?);
    destruct (readOutput_complete _ _ _ _ _ H2 He) as (?&?&?&?); done.
Qed.

Lemma exited_means_complete_witness :
  payload [(0, "ab"); (1, "c")] = stream [("ab", RNil); ("c", REOF)].
Proof.
  refine (proj1 (proj2 (proj2 (proj1 (proj2 (exited_means_complete ex_binding
    [("ab", RNil); ("c", REOF)] [("", REOF)] [true; true] [] true true [(0, "ab"); (1, "c")] []
    (Some 2) (Some 0) true true false (WaitExit 3 None) false "" false true _ _ _ _ _))))));
    by vm_compute.
Defined.

(** Input arrives in order: of the messages a client sends to a run, those
    accepted carry the sequence numbers 0, 1, 2, ... without gap or repetition
    and fit a frame, an accepted end of input is the last of them, and what is
    queued for the process is, in that order, a selection of the accepted
    frames (those not discarded because the process no longer reads). *)
Theorem input_in_order (msgs : list (inputMsg * selected)) (r : RunInput) (acc : list inputMsg) :
  Z.of_nat (length msgs) < 2 ^ 64 → inputRun newInput msgs = (r, acc) →
  numbered 0 acc ∧ sublist (ri_log r) (omap (fun m => snd <$> is_data m) acc).
Proof. intros Hb Hr. apply (inputRun_numbered newInput msgs r acc); done. Qed.

Lemma input_in_order_witness :
  numbered 0 [MsgData 0 "a"; MsgData 1 "b"; MsgEOF 2].
Proof.
  refine (proj1 (input_in_order
    [(MsgData 0 "a", SelSent); (MsgData 5 "x", SelSent); (MsgData 1 "b", SelGone); (MsgEOF 2, SelSent)]
    (mkRunInput false 2 true ["a"] true) _ _ _)); by vm_compute.
Defined.
