(* ===== verification/Governance.v ===== *)
(** Governance of the audit policy (hub/internal/authorization and the policy
    reads of hub/internal/store/security.go): live capabilities, the policy in
    force for an execution, typed security changes, the two-person approval
    rule, and the continuity checks that tie the database to the enrollment
    marker and the external anchor.

    The database is a record of the answers its queries give during one call;
    JSON decoding and encoding ([encoding/json] behind [auditrecord.Decode]) is
    a record of functions. *)

From S2P Require Import Prelude Codec Lockout Model Account.

(** ** What the code reads *)

(** [struct{Reason, ExpectedVersion, Change}]: the approved bytes of a change. *)
Record Approved := mkApproved {
  av_Reason : string; av_ExpectedVersion : Z; av_Change : SecurityChangePayload;
}.

Record JSON := mkJSON {
  js_change : string → option SecurityChangePayload;
  js_approved : string → option Approved;
  js_policy : string → option AuditPolicy;
  js_marshal_policy : AuditPolicy → string;
  js_marshal_change : SecurityChangePayload → string;
  js_marshal_proposal : string → Z → string → string;   (* reason, version, change *)
}.

Record DB := mkDB {
  db_user : string → result User;
  db_accountPolicy : result Policy;
  db_roles : string → result (list string);
  db_person : string → result string;
  db_change : string → result SecurityChange;
  db_versionRow : Z → result (string * string * string);      (* payload, digest, request id *)
  db_versions : result (list Z);                               (* the versions stored *)
  db_stateRow : result (Z * string * option Z * string);       (* active, state, pending, change *)
}.

(** [readMarker]'s answer: the marker, its absence, or another failure. *)
Record EnrollmentMarker := mkMarker { mk_InstallationID : string; mk_Version : Z; mk_SHA256 : string }.
Inductive markerRead := MarkerOk (m : EnrollmentMarker) | MarkerAbsent | MarkerError.

(** [Evidence.Anchor]'s answer: the anchor, its authenticated absence, or
    another failure. *)
Record PolicyAnchor := mkAnchor {
  an_InstallationID : string; an_Version : Z; an_SHA256 : string; an_RequestID : string; an_RequestSHA256 : string;
}.
Inductive anchorRead := AnchorOk (a : PolicyAnchor) | AnchorNotFound | AnchorError.

(** [cf_Anchor] is [None] when no evidence service is configured. *)
Record TransitionConfig := mkConfig {
  cf_Anchor : option (string → anchorRead);
  cf_InstallationID : string;
  cf_Marker : markerRead;
  cf_ResolveSecret : option (string → result (string * string));
  cf_PrepareChange : option (SecurityChangePayload → result SecurityChangePayload);
}.

Definition ErrDenied : goerr := Sentinel "ErrDenied".
Definition ErrIndependent : goerr := Sentinel "ErrIndependent".
Definition ErrInteractive : goerr := Sentinel "ErrInteractive".
Definition ErrRecovery : goerr := Sentinel "ErrRecovery".
Definition ErrTransition : goerr := Sentinel "ErrTransition".
Definition ErrNotReady : goerr := Sentinel "ErrNotReady".
Definition ErrSecurityConflict : goerr := Sentinel "ErrSecurityConflict".
Definition ErrProtectedChange : goerr := Sentinel "ErrProtectedChange".
Definition ErrPolicyIntegrity : goerr := Sentinel "ErrPolicyIntegrity".

Definition ActionRequest : string := "security.request".
Definition ActionApprove : string := "security.approve".
Definition ActionApply : string := "security.apply".

(** [store.SecurityDigest] *)
Definition SecurityDigest (raw : string) : string := string_of_bytes (hex_encode (sha256_bytes (bytes raw))).

(** ** Identifiers and payloads *)

Definition id_rune (r : Z) : bool :=
  between 97 122 r || between 65 90 r || between 48 57 r || (r =? 45) || (r =? 95) || (r =? 46) || (r =? 58).

Definition validKey (id : string) : bool :=
  if (len id <? 1) || (128 <? len id) then false else forallb id_rune (runes id).

(** [auditrecord.ValidID] and [auditrecord.ValidHash]. *)
Definition ValidID (s : string) : bool :=
  if (len s =? 0) || (128 <? len s) then false else forallb id_rune (runes s).
Definition hex_lower (b : Z) : bool := between 48 57 b || between 97 102 b.
Definition ValidHash (s : string) : bool := (len s =? 64) && forallb hex_lower (bytes s).

Fixpoint distinct_keys (seen : list string) (l : list string) : bool :=
  match l with
  | [] => true
  | id :: t => validKey id && negb (bool_decide (id ∈ seen)) && distinct_keys (id :: seen) t
  end.

Definition validatePolicy (p : AuditPolicy) : result unit :=
  check! negb (bool_decide (ap_Profile p = "standard")) && negb (bool_decide (ap_Profile p = "enhanced")),
    ErrText "unknown profile";
  check! (ap_RuntimeSeconds p <? 1) || (3600 <? ap_RuntimeSeconds p) || (ap_RetentionHours p <? 24)
         || (24 * 3650 <? ap_RetentionHours p) || (1000 <? Z.of_nat (length (ap_Actors p)))
         || (1000 <? Z.of_nat (length (ap_Nodes p))) || (16 <? Z.of_nat (length (ap_TrustKeyIDs p))),
    ErrText "policy limits exceeded";
  check! negb (distinct_keys [] (ap_Actors p) && distinct_keys [] (ap_Nodes p) && distinct_keys [] (ap_TrustKeyIDs p)),
    ErrText "invalid or duplicate scope/key";
  check! bool_decide (ap_Profile p = "enhanced")
         && (bool_decide (ap_Destination p = "") || bool_decide (ap_CredentialRef p = "")
             || bool_decide (ap_TrustKeyIDs p = []) || negb (len (ap_QualificationSHA256 p) =? 64)),
    ErrNotReady;
  Ok tt.

Definition in_range (lo hi v : Z) (name : string) : result unit :=
  check! (v <? lo) || (hi <? v), ErrText name; Ok tt.

Definition ValidateAuditSettings (s : AuditSettings) : result unit :=
  _ <-! in_range 1 3650 (as_RetentionDays s) "retention_days must be between 1 and 3650";
  _ <-! in_range 1 365 (as_ReviewReminderDays s) "review_reminder_days must be between 1 and 365";
  _ <-! in_range 1 24 (as_PasswordHistoryCount s) "password_history_count must be between 1 and 24";
  _ <-! in_range 1 (24 * 30) (as_TemporaryPasswordTTLHours s) "temporary_password_ttl_hours must be between 1 and 720";
  _ <-! in_range 1 10000 (as_LoginFailuresPerHour s) "login_failures_per_hour must be between 1 and 10000";
  _ <-! in_range 1 10000 (as_RegistrationFailuresPerHour s) "registration_failures_per_hour must be between 1 and 10000";
  in_range 1 10000 (as_PrivilegedActionsPerHour s) "privileged_actions_per_hour must be between 1 and 10000".

Definition count_some {A} (o : option A) : Z := match o with Some _ => 1 | None => 0 end.

(** [strings.TrimSpace(s) == ""] *)
Definition blank (s : string) : bool := bool_decide (TrimSpace_runes s = []).

Definition nominations_absent (p : SecurityChangePayload) : result unit :=
  check! negb (bool_decide (cp_Nominations p = [])), ErrText "unexpected nominations"; Ok tt.

Definition validatePayload (p : SecurityChangePayload) : result unit :=
  let fields := count_some (cp_Policy p) + count_some (cp_Role p) + count_some (cp_Person p)
                + count_some (cp_Recovery p) + count_some (cp_AuditSettings p) + count_some (cp_LDAP p) in
  check! negb (fields =? 1), ErrText "exactly one typed security change required";
  let nominations := Z.of_nat (length (cp_Nominations p)) in
  if bool_decide (cp_Kind p = "bootstrap") || bool_decide (cp_Kind p = "policy") then
    match cp_Policy p with
    | None => Err (ErrText "policy required")
    | Some pol =>
        if bool_decide (cp_Kind p = "bootstrap") then
          check! (nominations <? 3) || (32 <? nominations) || negb (bool_decide (ap_Profile pol = "enhanced")),
            ErrIndependent;
          validatePolicy pol
        else
          check! 0 <? nominations, ErrText "nominations require bootstrap";
          validatePolicy pol
    end
  else if bool_decide (cp_Kind p = "role") then
    match cp_Role p with
    | None => Err (ErrText "security role assignment required")
    | Some r => check! bool_decide (rc_UserID r = "") || negb (IsSecurityRole (rc_Role r)),
                  ErrText "security role assignment required";
                nominations_absent p
    end
  else if bool_decide (cp_Kind p = "person") then
    match cp_Person p with
    | None => Err (ErrText "verified person link required")
    | Some r => check! bool_decide (pc_UserID r = "") || negb (validKey (pc_PersonID r))
                       || blank (pc_Verification r) || (2048 <? len (pc_Verification r)),
                  ErrText "verified person link required";
                nominations_absent p
    end
  else if bool_decide (cp_Kind p = "audit-settings") then
    match cp_AuditSettings p with
    | None => Err (ErrText "audit settings required")
    | Some s => ValidateAuditSettings s
    end
  else if bool_decide (cp_Kind p = "ldap") then
    match cp_LDAP p with
    | None => Err (ErrText "bounded LDAP settings required")
    | Some l =>
        check! (4096 <? len (ld_URL l)) || (32768 <? len (ld_CACertPEM l)), ErrText "bounded LDAP settings required";
        check! ld_Enabled l && negb (HasPrefix (ld_URL l) "ldaps://") && negb (ld_StartTLS l),
          ErrText "LDAP TLS required";
        check! ld_ClearBindPassword l && negb (bool_decide (ld_BindCredentialRef l = "")),
          ErrText "ambiguous LDAP credential reference";
        nominations_absent p
    end
  else if bool_decide (cp_Kind p = "recovery") then
    match cp_Recovery p with
    | None => Err (ErrText "recovery target required")
    | Some r =>
        check! bool_decide (rv_UserID r = ""), ErrText "recovery target required";
        check! negb (bool_decide (rv_Operation r ∈ ["reenable"; "mfa-reset"; "password-reset"])),
          ErrText "unsupported recovery operation";
        check! bool_decide (rv_Operation r = "password-reset") && bool_decide (rv_SecretRef r = ""),
          ErrText "versioned credential reference required";
        nominations_absent p
    end
  else Err (ErrText "unsupported security change").

Definition nominationPerson (ns : list SecurityNomination) (user : string) : string :=
  match list_find (fun n => n_UserID n = user) ns with
  | Some (_, n) => n_PersonID n
  | None => ""
  end.

Section service.
Context (J : JSON) (db : DB) (now : Time).

Definition DecodeChange (raw : string) : result SecurityChangePayload :=
  match js_change J raw with
  | None => Err (ErrText "invalid or ambiguous typed change")
  | Some p => _ <-! validatePayload p; Ok p
  end.

(** ** The policy reads of the store *)

(** The text with its apostrophes as double quotes. *)
Definition dquoted (s : string) : string :=
  string_of_bytes ((fun b => if b =? 39 then 34 else b) <$> bytes s).

Definition initialStandardPolicy : string :=
  dquoted "{'profile':'standard','actors':[],'nodes':[],'runtime_seconds':3600,'retention_hours':24,'destination':'','credential_ref':'','trust_key_ids':[],'qualification_sha256':''}".

Definition decodePolicyVersion (version : Z) (raw sha requestID : string) : result PolicyVersion :=
  let digest := SecurityDigest raw in
  sha' <-! (if bool_decide (sha = "") then
              check! negb (version =? 1) || negb (bool_decide (requestID = ""))
                     || negb (bool_decide (raw = initialStandardPolicy)), ErrPolicyIntegrity;
              Ok digest
            else check! negb (bool_decide (sha = digest)), ErrPolicyIntegrity; Ok sha);
  match js_policy J raw with
  | None => Err ErrPolicyIntegrity
  | Some p => Ok (mkPolicyVersion version p sha' requestID)
  end.

Definition GetPolicyVersion (version : Z) : result PolicyVersion :=
  row <-! db_versionRow db version;
  let '(raw, sha, req) := (row : string * string * string) in decodePolicyVersion version raw sha req.

Fixpoint enrolled_in (versions : list Z) : result bool :=
  match versions with
  | [] => Ok false
  | v :: t =>
      p <-! GetPolicyVersion v;
      rest <-! enrolled_in t;
      Ok ((1 <? pv_Version p) || negb (bool_decide (pv_RequestID p = ""))
          || bool_decide (ap_Profile (pv_Policy p) = "enhanced") || rest)
  end.

Definition GovernanceEnrolled : result bool :=
  versions <-! db_versions db; enrolled_in versions.

Definition GetPolicyState : result PolicyState :=
  row <-! db_stateRow db;
  let '(active, state, pending, change) := (row : Z * string * option Z * string) in
  a <-! GetPolicyVersion active;
  match pending with
  | None => Ok (mkPolicyState a None state None change)
  | Some v =>
      p <-! GetPolicyVersion v;
      c <-! db_change db change;
      old <-! GetPolicyVersion (c_ExpectedVersion c);
      Ok (mkPolicyState a (Some p) state (Some old) change)
  end.

(** ** Capabilities *)

Definition role_caps (r : string) : list string :=
  if bool_decide (r = RoleAdmin) then ["operations.admin"; "audit.read"; "security.bootstrap"]
  else if bool_decide (r = RoleAuditor) then ["audit.read"]
  else if bool_decide (r = RoleSecurityOfficer) then ["security.request"; "security.read"; "security.apply"; "security.test"]
  else if bool_decide (r = RoleSecurityApprover) then ["security.approve"; "security.read"]
  else if bool_decide (r = RoleOriginalReader) then ["audit.original.read"; "audit.read"]
  else [].

Definition all_capabilities : list string :=
  ["nodes.read"; "operations.admin"; "audit.read"; "terminal.execute"; "security.bootstrap"; "security.read";
   "security.request"; "security.approve"; "security.apply"; "security.test"; "audit.original.read"].

Definition Effective (userID : string) : result EffectiveCapabilities :=
  match db_user db userID with
  | Err _ => Err ErrDenied
  | Ok u =>
      match db_accountPolicy db with
      | Err _ => Err ErrDenied
      | Ok policy =>
          check! (Refusal (Account.Evaluate (InputFromUser u) now policy)).2, ErrDenied;
          roles <-! db_roles db userID;
          person <-! db_person db userID;
          let caps := "nodes.read" :: (roles ≫= role_caps) in
          let caps := if bool_decide ("operations.admin" ∈ caps)
                         || (bool_decide (u_AuthProvider u = AuthProviderLDAP) && u_TerminalAccess u)
                      then "terminal.execute" :: caps else caps in
          Ok (mkEffective userID person roles (filter (fun c => c ∈ caps) all_capabilities))
      end
  end.

(** ** The policy in force *)

(** [validate] is the store's continuity check and [configErr] the error of its
    configuration. *)
Definition PolicyForExecution (configErr : option goerr) (validate : PolicyState → result unit)
    (actor node : string) : ExecutionPolicy * option goerr :=
  let none := mkExecutionPolicy 0 "" false 0 false in
  match configErr with
  | Some e => (none, Some e)
  | None =>
      match GetPolicyState with
      | Err e => (none, Some e)
      | Ok state =>
          let a := ps_Active state in
          let recovery := bool_decide (ps_State state = "recovery_required") in
          let runtime0 := ap_RuntimeSeconds (pv_Policy a) in
          match validate state with
          | Err e => (mkExecutionPolicy (pv_Version a) (pv_SHA256 a) false runtime0 recovery, Some e)
          | Ok _ =>
              let covers (v : option PolicyVersion) :=
                match v with Some v => Covers (pv_Policy v) actor node | None => false end in
              let enhanced := Covers (pv_Policy a) actor node || covers (ps_Pending state)
                              || covers (ps_Previous state) in
              let runtime :=
                match ps_Pending state with
                | Some p =>
                    let r := ap_RuntimeSeconds (pv_Policy p) in
                    if (0 <? r) && ((runtime0 <=? 0) || (r <? runtime0)) then r else runtime0
                | None => runtime0
                end in
              let pol := mkExecutionPolicy (pv_Version a) (pv_SHA256 a) enhanced runtime recovery in
              if enhanced && bool_decide (is_Some (ps_Pending state)) then (pol, Some ErrTransition)
              else if recovery then (pol, Some ErrRecovery)
              else (pol, None)
          end
      end
  end.

Definition GuardInteractive (configErr : option goerr) (validate : PolicyState → result unit)
    (actor node : string) : result unit :=
  match PolicyForExecution configErr validate actor node with
  | (_, Some e) => Err e
  | (p, None) => check! xp_Enhanced p, ErrInteractive; Ok tt
  end.

(** The store's own check when no validator is installed. *)
Definition ValidateExecutionPolicy_default (state : PolicyState) : result unit :=
  let a := ps_Active state in
  check! negb (pv_Version a =? 1) || negb (bool_decide (pv_RequestID a = ""))
         || negb (bool_decide (js_marshal_policy J (pv_Policy a) = initialStandardPolicy))
         || negb (bool_decide (pv_SHA256 a = SecurityDigest initialStandardPolicy)), ErrPolicyIntegrity;
  check! bool_decide (is_Some (ps_Pending state)) || bool_decide (is_Some (ps_Previous state))
         || negb (bool_decide (ps_PendingChange state = ""))
         || negb (bool_decide (ps_State state ∈ ["standard"; "setup_pending"; "recovery_required"])),
    ErrPolicyIntegrity;
  match GovernanceEnrolled with
  | Ok false => Ok tt
  | _ => Err ErrPolicyIntegrity
  end.

(** ** Proposing and approving a change *)

Record Preview := mkPreview { pr_Digest : string; pr_Reason : string; pr_ExpectedVersion : Z; pr_Change : string; pr_Bytes : string }.

(** [reason] is the trimmed text of the proposal. *)
Definition Normalize (reason : string) (expectedVersion : Z) (change : string) : result Preview :=
  check! bool_decide (reason = "") || (2048 <? len reason) || (expectedVersion =? 0),
    ErrText "reason and expected version required";
  p <-! DecodeChange change;
  let change' := js_marshal_change J p in
  let raw := js_marshal_proposal J reason expectedVersion change' in
  Ok (mkPreview (SecurityDigest raw) reason expectedVersion change' raw).

(** One nomination; the state is the people and users seen, the number of
    approvers and whether the requester is an officer. *)
Fixpoint distinct_roles (seen : list string) (l : list string) : bool :=
  match l with
  | [] => true
  | r :: t => IsSecurityRole r && negb (bool_decide (r ∈ seen)) && distinct_roles (r :: seen) t
  end.

Fixpoint nominations_ok (people users : list string) (approvers : Z) (officer : bool)
    (ns : list SecurityNomination) (requester : string) : result (Z * bool) :=
  match ns with
  | [] => Ok (approvers, officer)
  | n :: t =>
      check! negb (validKey (n_PersonID n)) || blank (n_Verification n) || (2048 <? len (n_Verification n))
             || bool_decide (n_PersonID n ∈ people) || bool_decide (n_UserID n ∈ users), ErrIndependent;
      match db_user db (n_UserID n) with
      | Err _ => Err (ErrText "nominees require their own completed MFA identities")
      | Ok u =>
          check! negb (u_TOTPEnabled u) || bool_decide (u_TOTPSecret u = None)
                 || bool_decide (is_Some (u_DisabledAt u)) || u_MustChangePassword u,
            ErrText "nominees require their own completed MFA identities";
          linked <-! db_person db (n_UserID n);
          check! negb (bool_decide (linked = "user:" +:+ n_UserID n)) && negb (bool_decide (linked = n_PersonID n)),
            ErrProtectedChange;
          check! negb (distinct_roles [] (n_Roles n)), ErrText "invalid nomination roles";
          let officer' := officer || (bool_decide (n_UserID n = requester)
                                      && bool_decide (RoleSecurityOfficer ∈ n_Roles n)) in
          let approvers' := if negb (bool_decide (n_UserID n = requester))
                               && bool_decide (RoleSecurityApprover ∈ n_Roles n)
                            then approvers + 1 else approvers in
          nominations_ok (n_PersonID n :: people) (n_UserID n :: users) approvers' officer' t requester
      end
  end.

Definition validateNominations (ns : list SecurityNomination) (requester : string) : result unit :=
  counts <-! nominations_ok [] [] 0 false ns requester;
  let '(approvers, officer) := (counts : Z * bool) in
  check! negb officer || (approvers <? 2), ErrIndependent; Ok tt.

Definition ErrLocalPasswordOnly : goerr := Sentinel "ErrLocalPasswordOnly".

Definition ValidateSecurityRecoveryTarget (p : SecurityChangePayload) : result unit :=
  match cp_Recovery p with
  | Some r =>
      if negb (bool_decide (cp_Kind p = "recovery")) || negb (bool_decide (rv_Operation r = "password-reset")) then Ok tt
      else
        u <-! db_user db (rv_UserID r);
        check! negb (bool_decide (u_AuthProvider u = AuthProviderLocal)), ErrLocalPasswordOnly; Ok tt
  | None => Ok tt
  end.

Definition with_person (e : EffectiveCapabilities) (person : string) : EffectiveCapabilities :=
  mkEffective (e_UserID e) person (e_Roles e) (e_Capabilities e).

(** The checks of [Request] and the change it creates; [id] is the drawn UUID. *)
Definition Request (user reason : string) (expectedVersion : Z) (change id : string) : result SecurityChange :=
  preview <-! Normalize reason expectedVersion change;
  match DecodeChange (pr_Change preview) with
  | Err e => Err e
  | Ok payload =>
      e <-! Effective user;
      e' <-! (if bool_decide (cp_Kind payload = "bootstrap") then
                state <-! GetPolicyState;
                enrolled <-! GovernanceEnrolled;
                check! enrolled || negb (bool_decide (ap_Profile (pv_Policy (ps_Active state)) = "standard"))
                       || negb (Can e "security.bootstrap"), ErrDenied;
                _ <-! validateNominations (cp_Nominations payload) user;
                Ok (with_person e (nominationPerson (cp_Nominations payload) user))
              else check! negb (Can e ActionRequest), ErrDenied; Ok e);
      _ <-! ValidateSecurityRecoveryTarget payload;
      u <-! db_user db user;
      Ok (mkChange id 1 user (e_PersonID e') "" "" 0 (u_SecurityRevision u) expectedVersion
            (pr_Digest preview) (pr_Reason preview) (pr_Change preview) (pr_Bytes preview) "requested"
            now (now + 24 * Hour) [] "" "" "")
  end.

Fixpoint nominated_for (action user requester : string) (bootstrap : bool) (ns : list SecurityNomination) : bool :=
  match ns with
  | [] => false
  | n :: t =>
      (bool_decide (n_UserID n = user)
       && existsb (fun r => (bool_decide (action = ActionApprove) && bool_decide (r = RoleSecurityApprover))
                            || (negb (bool_decide (action = ActionApprove)) && bool_decide (r = RoleSecurityOfficer)
                                && bool_decide (user = requester) && bootstrap)) (n_Roles n))
      || nominated_for action user requester bootstrap t
  end.

Definition AuthorityForChange (c : SecurityChange) (user action : string) : result EffectiveCapabilities :=
  e <-! Effective user;
  p <-! DecodeChange (c_Payload c);
  if bool_decide (cp_Kind p = "bootstrap") then
    check! negb (nominated_for action user (c_RequesterID c) (Can e "security.bootstrap") (cp_Nominations p)), ErrDenied;
    Ok (with_person e (nominationPerson (cp_Nominations p) user))
  else check! negb (Can e action), ErrDenied; Ok e.

(** The decision of [Approve]: the approval to add. *)
Definition approveCheck (c : SecurityChange) (user : string) : result SecurityApproval :=
  e <-! AuthorityForChange c user ActionApprove;
  check! bool_decide (user = c_RequesterID c) || bool_decide (e_PersonID e = c_RequesterPersonID c), ErrIndependent;
  check! existsb (fun a => bool_decide (a_PersonID a = e_PersonID e)) (c_Approvals c), ErrIndependent;
  check! After now (c_ExpiresAt c) || negb (bool_decide (SecurityDigest (c_ApprovedBytes c) = c_Digest c)), ErrSecurityConflict;
  u <-! db_user db user;
  Ok (mkApproval user (e_PersonID e) "" now (u_SecurityRevision u) None).

Definition with_approval (c : SecurityChange) (a : SecurityApproval) : SecurityChange :=
  mkChange (c_ID c) (c_Revision c) (c_RequesterID c) (c_RequesterPersonID c) (c_ApplierID c) (c_ApplierPersonID c)
    (c_ApplierRevision c) (c_RequesterGeneration c) (c_ExpectedVersion c) (c_Digest c) (c_Reason c) (c_Payload c)
    (c_ApprovedBytes c) (c_State c) (c_CreatedAt c) (c_ExpiresAt c) (c_Approvals c ++ [a])
    (c_IntentRef c) (c_CommitRef c) (c_ResultRef c).

(** The loop of [ValidateQuorum] over the approvals. *)
Fixpoint quorum_loop (c : SecurityChange) (persons : list string) (valid : Z) (l : list SecurityApproval) : result Z :=
  match l with
  | [] => Ok valid
  | a :: t =>
      if bool_decide (is_Some (a_InvalidatedAt a)) then quorum_loop c persons valid t
      else
        e <-! AuthorityForChange c (a_UserID a) ActionApprove;
        match db_user db (a_UserID a) with
        | Err _ => Err ErrIndependent
        | Ok u =>
            check! negb (u_SecurityRevision u =? a_TokenGeneration a) || negb (bool_decide (e_PersonID e = a_PersonID a))
                   || bool_decide (e_PersonID e ∈ persons), ErrIndependent;
            quorum_loop c (e_PersonID e :: persons) (valid + 1) t
        end
  end.

Definition ValidateQuorum (c : SecurityChange) : result unit :=
  check! negb (Before now (c_ExpiresAt c)) || negb (bool_decide (SecurityDigest (c_ApprovedBytes c) = c_Digest c))
         || (Z.of_nat (length (c_Approvals c)) <? 2), ErrSecurityConflict;
  requester <-! AuthorityForChange c (c_RequesterID c) ActionRequest;
  match db_user db (c_RequesterID c) with
  | Err _ => Err ErrDenied
  | Ok u =>
      check! negb (u_SecurityRevision u =? c_RequesterGeneration c)
             || negb (bool_decide (e_PersonID requester = c_RequesterPersonID c)), ErrDenied;
      valid <-! quorum_loop c [c_RequesterPersonID c] 0 (c_Approvals c);
      check! valid <? 2, ErrIndependent; Ok tt
  end.

(** ** Continuity *)

(** The digest of the policy every installation starts with. *)
Definition initialDigest : string :=
  SecurityDigest (js_marshal_policy J (mkAuditPolicy "standard" [] [] 3600 24 "" "" [] "")).

(** The loop of [validateApprovedPolicy]; [None] means the fuel ran out. *)
Fixpoint approved_loop (fuel : nat) (policy : PolicyVersion) (applying : bool) : option (result unit) :=
  match fuel with
  | O => None
  | S f =>
      if 1 <? pv_Version policy then
        match db_change db (pv_RequestID policy) with
        | Err _ => Some (Err ErrRecovery)
        | Ok change =>
            if negb (u64 (c_ExpectedVersion change + 1) =? pv_Version policy)
               || negb (bool_decide (SecurityDigest (c_ApprovedBytes change) = c_Digest change))
               || (negb (bool_decide (c_State change = "applied"))
                   && negb (applying && bool_decide (c_State change = "applying")))
            then Some (Err ErrRecovery)
            else
              match js_approved J (c_ApprovedBytes change) with
              | None => Some (Err ErrRecovery)
              | Some approved =>
                  if negb (av_ExpectedVersion approved =? c_ExpectedVersion change)
                     || negb (bool_decide (av_Reason approved = c_Reason change))
                     || negb (is_ok (validatePayload (av_Change approved)))
                  then Some (Err ErrRecovery)
                  else
                    match cp_Policy (av_Change approved) with
                    | Some p => Some (if bool_decide (SecurityDigest (js_marshal_policy J p) = pv_SHA256 policy)
                                      then Ok tt else Err ErrRecovery)
                    | None =>
                        match GetPolicyVersion (c_ExpectedVersion change) with
                        | Err _ => Some (Err ErrRecovery)
                        | Ok previous =>
                            if negb (bool_decide (pv_SHA256 previous = pv_SHA256 policy)) then Some (Err ErrRecovery)
                            else approved_loop f previous false
                        end
                    end
              end
        end
      else if negb (pv_Version policy =? 1) || negb (bool_decide (pv_RequestID policy = "")) then Some (Err ErrRecovery)
      else if negb (bool_decide (pv_SHA256 policy = initialDigest)) then Some (Err ErrRecovery)
      else Some (Ok tt)
  end.

(** Each turn goes to a smaller version, so the version number is enough fuel. *)
Definition validateApprovedPolicy (policy : PolicyVersion) (applying : bool) : result unit :=
  default (Err ErrRecovery) (approved_loop (S (Z.to_nat (pv_Version policy))) policy applying).

Definition marker_is (m : EnrollmentMarker) (installation : string) (v : PolicyVersion) : bool :=
  bool_decide (mk_InstallationID m = installation) && (mk_Version m =? pv_Version v)
  && bool_decide (mk_SHA256 m = pv_SHA256 v).

Definition settled_state (state : PolicyState) : bool :=
  let a := ps_Active state in
  if bool_decide (ps_State state = "standard") then bool_decide (ap_Profile (pv_Policy a) = "standard")
  else if bool_decide (ps_State state = "enhanced") then bool_decide (ap_Profile (pv_Policy a) = "enhanced")
  else if bool_decide (ps_State state = "setup_pending")
  then (pv_Version a =? 1) && bool_decide (pv_RequestID a = "") && bool_decide (ap_Profile (pv_Policy a) = "standard")
  else bool_decide (ps_State state = "recovery_required").

Definition validateLocalExecutionPolicy (state : PolicyState) (installation : string) (marker : markerRead)
    : result unit :=
  let a := ps_Active state in
  match ps_Pending state with
  | None =>
      check! negb (bool_decide (ps_PendingChange state = "")) || bool_decide (is_Some (ps_Previous state)), ErrRecovery;
      check! negb (settled_state state), ErrRecovery;
      _ <-! validateApprovedPolicy a false;
      match marker with
      | MarkerAbsent =>
          if pv_Version a =? 1 then
            match GovernanceEnrolled with Ok false => Ok tt | _ => Err ErrRecovery end
          else Err ErrRecovery
      | MarkerError => Err ErrRecovery
      | MarkerOk m => check! negb (marker_is m installation a), ErrRecovery; Ok tt
      end
  | Some pending =>
      match ps_Previous state with
      | None => Err ErrRecovery
      | Some previous =>
          check! negb (bool_decide (ps_State state ∈ ["applying"; "recovery_required"]))
                 || bool_decide (ps_PendingChange state = "")
                 || negb (bool_decide (pv_RequestID pending = ps_PendingChange state))
                 || negb (pv_Version pending =? u64 (pv_Version previous + 1))
                 || (negb (pv_Version a =? pv_Version previous) && negb (pv_Version a =? pv_Version pending)),
            ErrRecovery;
          _ <-! validateApprovedPolicy previous false;
          _ <-! validateApprovedPolicy pending true;
          match db_change db (ps_PendingChange state) with
          | Err _ => Err ErrRecovery
          | Ok change =>
              check! negb (bool_decide (c_State change = "applying"))
                     || negb (c_ExpectedVersion change =? pv_Version previous)
                     || negb (u64 (c_ExpectedVersion change + 1) =? pv_Version pending), ErrRecovery;
              let activated := pv_Version a =? pv_Version pending in
              match marker with
              | MarkerAbsent =>
                  match DecodeChange (c_Payload change) with
                  | Ok payload =>
                      if negb activated && bool_decide (cp_Kind payload = "bootstrap") && (pv_Version previous =? 1)
                      then Ok tt else Err ErrRecovery
                  | Err _ => Err ErrRecovery
                  end
              | MarkerError => Err ErrRecovery
              | MarkerOk m =>
                  check! negb (bool_decide (mk_InstallationID m = installation)), ErrRecovery;
                  if (mk_Version m =? pv_Version pending) && bool_decide (mk_SHA256 m = pv_SHA256 pending) then Ok tt
                  else if negb activated && (mk_Version m =? pv_Version previous)
                          && bool_decide (mk_SHA256 m = pv_SHA256 previous) then Ok tt
                  else Err ErrRecovery
              end
          end
      end
  end.

Definition checkPendingRecovery (c : SecurityChange) (state : PolicyState) (old : PolicyVersion)
    (cfg : TransitionConfig) : result unit :=
  match ps_Pending state with
  | None => Err ErrRecovery
  | Some pending =>
      let a := ps_Active state in
      check! negb (ValidID (cf_InstallationID cfg)) || negb (pv_Version pending =? u64 (c_ExpectedVersion c + 1))
             || negb (bool_decide (pv_RequestID pending = c_ID c))
             || negb (bool_decide (SecurityDigest (c_ApprovedBytes c) = c_Digest c))
             || (negb (pv_Version a =? pv_Version old) && negb (pv_Version a =? pv_Version pending)), ErrRecovery;
      match DecodeChange (c_Payload c) with
      | Err _ => Err ErrRecovery
      | Ok payload =>
          let initial := bool_decide (cp_Kind payload = "bootstrap") && (c_ExpectedVersion c =? 1)
                         && bool_decide (ap_Profile (pv_Policy old) = "standard") in
          let activated := pv_Version a =? pv_Version pending in
          let marker_ok :=
            match cf_Marker cfg with
            | MarkerAbsent => initial && negb activated
            | MarkerError => false
            | MarkerOk m => marker_is m (cf_InstallationID cfg) old || marker_is m (cf_InstallationID cfg) pending
            end in
          check! negb marker_ok, ErrRecovery;
          check! activated && negb (match cf_Marker cfg with MarkerOk m => mk_Version m =? pv_Version pending | _ => false end),
            ErrRecovery;
          match cf_Anchor cfg with
          | None => Err ErrRecovery
          | Some anchor =>
              match anchor (cf_InstallationID cfg) with
              | AnchorNotFound => check! negb (initial && negb activated), ErrRecovery; Ok tt
              | AnchorError => Err ErrRecovery
              | AnchorOk an =>
                  check! negb (bool_decide (an_InstallationID an = cf_InstallationID cfg)), ErrRecovery;
                  if (an_Version an =? pv_Version pending) && bool_decide (an_SHA256 an = pv_SHA256 pending)
                     && bool_decide (an_RequestID an = c_ID c) && bool_decide (an_RequestSHA256 an = c_Digest c)
                  then Ok tt
                  else if negb activated && (an_Version an =? pv_Version old) && bool_decide (an_SHA256 an = pv_SHA256 old)
                          && bool_decide (an_RequestID an = pv_RequestID old) && negb (bool_decide (pv_RequestID old = ""))
                  then match db_change db (pv_RequestID old) with
                       | Ok previous => if bool_decide (an_RequestSHA256 an = c_Digest previous) then Ok tt else Err ErrRecovery
                       | Err _ => Err ErrRecovery
                       end
                  else Err ErrRecovery
              end
          end
      end
  end.

Definition ValidateAnchor (cfg : TransitionConfig) : result unit :=
  state <-! GetPolicyState;
  let a := ps_Active state in
  if bool_decide (is_Some (ps_Pending state)) && negb (bool_decide (ps_PendingChange state = "")) then
    match db_change db (ps_PendingChange state), ps_Previous state, cf_Anchor cfg with
    | Ok change, Some previous, Some _ =>
        match checkPendingRecovery change state previous cfg with Ok _ => Ok tt | Err _ => Err ErrRecovery end
    | _, _, _ => Err ErrRecovery
    end
  else
    enrolled <-! GovernanceEnrolled;
    match cf_Marker cfg, enrolled with
    | MarkerAbsent, false =>
        check! negb (pv_Version a =? 1) || negb (bool_decide (ap_Profile (pv_Policy a) = "standard")), ErrRecovery;
        match cf_Anchor cfg with
        | None => Ok tt
        | Some anchor =>
            check! negb (ValidID (cf_InstallationID cfg)), ErrRecovery;
            match anchor (cf_InstallationID cfg) with AnchorNotFound => Ok tt | _ => Err ErrRecovery end
        end
    | MarkerOk m, _ =>
        match cf_Anchor cfg with
        | None => Err ErrRecovery
        | Some anchor =>
            check! negb (marker_is m (cf_InstallationID cfg) a), ErrRecovery;
            match anchor (mk_InstallationID m) with
            | AnchorOk an =>
                check! negb (bool_decide (an_InstallationID an = mk_InstallationID m)) || (an_Version an <? mk_Version m)
                       || (an_Version an <? pv_Version a), ErrRecovery;
                match db_change db (pv_RequestID a) with
                | Err _ => Err ErrRecovery
                | Ok committed =>
                    check! negb (bool_decide (c_State committed = "applied"))
                           || negb (u64 (c_ExpectedVersion committed + 1) =? pv_Version a)
                           || negb (bool_decide (SecurityDigest (c_ApprovedBytes committed) = c_Digest committed)), ErrRecovery;
                    check! negb (an_Version an =? pv_Version a) || negb (bool_decide (an_SHA256 an = pv_SHA256 a))
                           || negb (bool_decide (an_RequestID an = c_ID committed))
                           || negb (bool_decide (an_RequestSHA256 an = c_Digest committed)), ErrRecovery;
                    Ok tt
                end
            | _ => Err ErrRecovery
            end
        end
    | _, _ => Err ErrRecovery
    end.

Definition EnrollmentMarkerMatches (cfg : TransitionConfig) (state : PolicyState) : bool :=
  match cf_Marker cfg with
  | MarkerOk m =>
      marker_is m (cf_InstallationID cfg) (ps_Active state)
      || match ps_Pending state with Some p => marker_is m (cf_InstallationID cfg) p | None => false end
  | _ => false
  end.

Definition prepareTransitionPayload (p : SecurityChangePayload) (cfg : TransitionConfig) : result SecurityChangePayload :=
  let prepared :=
    match cp_Recovery p with
    | Some r =>
        if bool_decide (rv_Operation r = "password-reset") then
          match cf_ResolveSecret cfg with
          | None => Err ErrNotReady
          | Some resolve =>
              match resolve (rv_SecretRef r) with
              | Ok (kind, value) =>
                  check! negb (bool_decide (kind = "password")), ErrNotReady;
                  Ok (mkPayload (cp_Kind p) (cp_Policy p) (cp_Nominations p) (cp_Role p) (cp_Person p)
                        (cp_AuditSettings p) (cp_LDAP p) (cp_PreparedConfig p)
                        (Some (mkRecovery (rv_UserID r) (rv_Operation r) (rv_SecretRef r) value)))
              | Err _ => Err ErrNotReady
              end
          end
        else Ok p
    | None => Ok p
    end in
  p' <-! prepared;
  match cp_LDAP p' with
  | Some _ => match cf_PrepareChange cfg with None => Err ErrNotReady | Some prep => prep p' end
  | None => Ok p'
  end.

End service.

(** [writeMarker]: [stored] is what [readMarker] finds; the temporary file may
    fail to be written, the rename may fail, and the directory sync after the
    rename may fail.  The result is the marker then in place. *)
Record marker_io := mkMarkerIO { mo_temp : bool; mo_rename : bool; mo_sync : bool }.

Definition errMarkerWrite := ErrText "marker write".

Definition writeMarker (stored : markerRead) (m : EnrollmentMarker) (io : marker_io) : markerRead * result unit :=
  let write :=
    if negb (mo_temp io && mo_rename io) then (stored, Err errMarkerWrite)
    else (MarkerOk m, if mo_sync io then Ok tt else Err errMarkerWrite) in
  match stored with
  | MarkerError => (stored, Err ErrRecovery)
  | MarkerOk old =>
      if negb (bool_decide (mk_InstallationID old = mk_InstallationID m)) || (mk_Version m <? mk_Version old)
         || ((mk_Version old =? mk_Version m) && negb (bool_decide (mk_SHA256 old = mk_SHA256 m)))
      then (stored, Err ErrRecovery)
      else write
  | MarkerAbsent => write
  end.

(** Any number of attempts to write the marker. *)
Definition markerWrites (stored : markerRead) (ws : list (EnrollmentMarker * marker_io)) : markerRead :=
  foldl (fun st w => (writeMarker st w.1 w.2).1) stored ws.

(** Approvals added one after another, each decided against the database and
    clock of its own time. *)
Inductive approving (J : JSON) : SecurityChange → SecurityChange → Prop :=
| ApproveOne db now c user a : approveCheck J db now c user = Ok a → approving J c (with_approval c a).

(** The newest policy version a state names. *)
Definition newest (state : PolicyState) : Z :=
  match ps_Pending state with
  | Some p => Z.max (pv_Version p) (pv_Version (ps_Active state))
  | None => pv_Version (ps_Active state)
  end.

Definition live_approvals (c : SecurityChange) : list SecurityApproval :=
  filter (fun a => a_InvalidatedAt a = None) (c_Approvals c).

Section predicates.
Context (J : JSON) (db : DB) (now : Time).

(** The approver still holds the authority under the recorded person and
    credential revision. *)
Definition approver_ok (c : SecurityChange) (a : SecurityApproval) : Prop :=
  (∃ e, AuthorityForChange J db now c (a_UserID a) ActionApprove = Ok e ∧ e_PersonID e = a_PersonID a) ∧
  (∃ u, db_user db (a_UserID a) = Ok u ∧ u_SecurityRevision u = a_TokenGeneration a).

(** A change whose approved bytes carry the policy with digest [sha]. *)
Definition approves (sha : string) (change : SecurityChange) : Prop :=
  SecurityDigest (c_ApprovedBytes change) = c_Digest change ∧
  (c_State change = "applied" ∨ c_State change = "applying") ∧
  ∃ ap p, js_approved J (c_ApprovedBytes change) = Some ap ∧ is_ok (validatePayload (av_Change ap)) = true ∧
    cp_Policy (av_Change ap) = Some p ∧ SecurityDigest (js_marshal_policy J p) = sha.

End predicates.

(** ** Lemmas *)

Section lemmas.
Context (J : JSON) (db : DB) (now : Time).

(** The person an authority is granted to does not depend on the action. *)
Lemma authority_person c user a1 a2 e1 e2 :
  AuthorityForChange J db now c user a1 = Ok e1 → AuthorityForChange J db now c user a2 = Ok e2 →
  e_PersonID e1 = e_PersonID e2.
Proof.
  unfold AuthorityForChange. destruct (Effective db now user) as [e|]; [|done].
  destruct (DecodeChange J (c_Payload c)) as [p|]; [|done].
  destruct (bool_decide _); repeat case_match; intros [= <-] [= <-]; done.
Qed.

Lemma quorum_loop_spec c persons valid l n :
  quorum_loop J db now c persons valid l = Ok n →
  let live := filter (fun a => a_InvalidatedAt a = None) l in
  n = valid + Z.of_nat (length live) ∧ Forall (approver_ok J db now c) live ∧
  NoDup (a_PersonID <$> live) ∧ (∀ a, a ∈ live → a_PersonID a ∉ persons).
Proof.
  revert persons valid. induction l as [|a l IH]; intros persons valid H; cbn [quorum_loop] in H.
  { injection H as <-. simpl. split_and!; [lia|done|by apply NoDup_nil|]. intros a Ha. by apply not_elem_of_nil in Ha. }
  destruct (a_InvalidatedAt a) as [t|] eqn:Ei.
  { simpl in H. rewrite filter_cons_False by (rewrite Ei; done). by apply IH. }
  simpl in H. rewrite filter_cons_True by done.
  destruct (AuthorityForChange J db now c (a_UserID a) ActionApprove) as [e|] eqn:Ea; [|done].
  destruct (db_user db (a_UserID a)) as [u|] eqn:Eu; [|done].
  destruct (_ || _ || _) eqn:Eg; [done|]. bool_hyps. z_hyps.
  destruct (IH _ _ H) as (H1' & H2' & H3' & H4'). rewrite H2 in *. split_and!.
  - rewrite H1'. simpl. lia.
  - constructor; [|done]. split; [by exists e|by exists u].
  - simpl. apply NoDup_cons. split; [|done]. intros (b & Hb & Hin)%list_elem_of_fmap.
    apply (H4' b Hin). rewrite <- Hb. by left.
  - intros b [->|Hb]%elem_of_cons; [done|]. specialize (H4' b Hb). apply not_elem_of_cons in H4'. tauto.
Qed.

(** Different people have different accounts. *)
Lemma people_users c l e :
  Forall (approver_ok J db now c) l → NoDup (a_PersonID <$> l) →
  AuthorityForChange J db now c (c_RequesterID c) ActionRequest = Ok e → e_PersonID e = c_RequesterPersonID c →
  (∀ a, a ∈ l → a_PersonID a ≠ c_RequesterPersonID c) →
  NoDup (c_RequesterID c :: (a_UserID <$> l)).
Proof.
  intros Hall Hnd He Hp Hr. rewrite Forall_forall in Hall. apply NoDup_cons. split.
  - intros (a & Ha & Hin)%list_elem_of_fmap. apply (Hr a Hin).
    destruct (Hall a Hin) as [(e' & He' & <-) _]. rewrite <- Ha in He'. rewrite <- Hp.
    by apply (authority_person c (c_RequesterID c) ActionApprove ActionRequest).
  - apply NoDup_fmap_2_strong; [|by apply (NoDup_fmap_1 a_PersonID)].
    intros a b Ha Hb Hab.
    assert (Hpp : a_PersonID a = a_PersonID b).
    { destruct (Hall a Ha) as [(ea & Hea & <-) _], (Hall b Hb) as [(eb & Heb & <-) _]. rewrite Hab in Hea. congruence. }
    apply list_elem_of_lookup in Ha as [i Hi], Hb as [j Hj].
    assert (i = j); [|congruence].
    apply (NoDup_lookup (a_PersonID <$> l) i j (a_PersonID a) Hnd); rewrite list_lookup_fmap, ?Hi, ?Hj; simpl; congruence.
Qed.

Lemma GetPolicyVersion_version v p : GetPolicyVersion J db v = Ok p → pv_Version p = v.
Proof.
  unfold GetPolicyVersion, decodePolicyVersion. intros H. destruct (db_versionRow db v) as [[[raw sha] req]|]; [|done].
  destruct (if bool_decide (sha = "") then _ else _); [|done]. destruct (js_policy J raw); [|done].
  by injection H as <-.
Qed.

(** One approved turn of the chain: the version goes down by one. *)
Lemma expected_lt e v : 0 ≤ e < 2 ^ 64 → 1 < v → u64 (e + 1) = v → e = v - 1.
Proof.
  intros He Hv Hu. unfold u64 in Hu. destruct (decide (e = 2 ^ 64 - 1)) as [->|Hne].
  - replace (2 ^ 64 - 1 + 1) with (2 ^ 64) in Hu by lia. rewrite Z.mod_same in Hu; lia.
  - rewrite Z.mod_small in Hu; lia.
Qed.

Hypothesis uint64_versions : ∀ id c, db_change db id = Ok c → 0 ≤ c_ExpectedVersion c < 2 ^ 64.

Lemma approved_loop_total fuel policy applying : (Z.to_nat (pv_Version policy) < fuel)%nat →
  is_Some (approved_loop J db fuel policy applying).
Proof.
  revert policy applying. induction fuel as [|f IH]; intros policy applying Hf; [lia|]. cbn [approved_loop].
  destruct (Z.ltb_spec 1 (pv_Version policy)); [|repeat case_match; by eexists].
  destruct (db_change db (pv_RequestID policy)) as [c|] eqn:Ec; [|by eexists].
  destruct (_ || _ || _) eqn:Eg; [by eexists|]. bool_hyps. z_hyps.
  destruct (js_approved J _) as [ap|]; [|by eexists]. destruct (_ || _ || _); [by eexists|].
  destruct (cp_Policy _); [by eexists|].
  destruct (GetPolicyVersion J db _) as [prev|] eqn:Ep; [|by eexists].
  destruct (negb (bool_decide (pv_SHA256 prev = _))); [by eexists|]. apply IH. rewrite (GetPolicyVersion_version _ _ Ep).
  rewrite (expected_lt (c_ExpectedVersion c) (pv_Version policy)); [|by eapply uint64_versions|lia|done]. lia.
Qed.

Lemma approved_loop_chain fuel policy applying :
  approved_loop J db fuel policy applying = Some (Ok tt) →
  pv_SHA256 policy = initialDigest J ∨ ∃ id change, db_change db id = Ok change ∧ approves J (pv_SHA256 policy) change.
Proof.
  revert policy applying. induction fuel as [|f IH]; intros policy applying H; [done|]. cbn [approved_loop] in H.
  destruct (1 <? pv_Version policy).
  2:{ destruct (_ || _); [done|]. destruct (negb _) eqn:E; [done|]. bool_hyps. by left. }
  destruct (db_change db (pv_RequestID policy)) as [c|] eqn:Ec; [|done].
  destruct (_ || _ || (_ && _)) eqn:Eg; [done|]. apply orb_false_iff in Eg as [Eg Est]. bool_hyps.
  destruct (js_approved J _) as [ap|] eqn:Eap; [|done]. destruct (_ || _ || _) eqn:Eg2; [done|]. bool_hyps.
  destruct (cp_Policy _) as [p|] eqn:Ep.
  - case_bool_decide as Hd; [|done]. right. exists (pv_RequestID policy), c. split; [done|]. split; [done|].
    split; [|by exists ap, p].
    apply andb_false_iff in Est as [Est|Est]; bool_hyps; [by left|]. by right.
  - destruct (GetPolicyVersion J db _) as [prev|]; [|done].
    destruct (negb (bool_decide (pv_SHA256 prev = _))) eqn:Ed; [done|]. apply negb_false_iff, bool_decide_eq_true in Ed.
    destruct (IH _ _ H) as [Hi|(id & ch & Hc1 & Hc2)]; [left; congruence|right].
    exists id, ch. split; [done|]. by rewrite <- Ed.
Qed.
End lemmas.

Lemma writeMarker_forward stored m io old : stored = MarkerOk old →
  ∃ m', (writeMarker stored m io).1 = MarkerOk m' ∧ mk_InstallationID m' = mk_InstallationID old ∧
        mk_Version old ≤ mk_Version m'.
Proof.
  intros ->. unfold writeMarker. destruct (_ || _ || _) eqn:E; [exists old; split_and!; try done; lia|].
  bool_hyps. z_hyps. destruct (negb (mo_temp io && mo_rename io)); simpl; [exists old; split_and!; try done; lia|].
  by exists m.
Qed.

Lemma markerWrites_forward ws old : ∃ m', markerWrites (MarkerOk old) ws = MarkerOk m' ∧
  mk_InstallationID m' = mk_InstallationID old ∧ mk_Version old ≤ mk_Version m'.
Proof.
  revert old. induction ws as [|w ws IH]; intros old; [exists old; split_and!; try done; lia|].
  change (markerWrites (MarkerOk old) (w :: ws)) with (markerWrites (writeMarker (MarkerOk old) w.1 w.2).1 ws).
  destruct (writeMarker_forward (MarkerOk old) w.1 w.2 old eq_refl) as (m1 & -> & H1 & H2).
  destruct (IH m1) as (m2 & -> & H3 & H4). exists m2. split_and!; [done|congruence|lia].
Qed.

(** One accepted approval keeps the people apart. *)
Lemma approve_one J db now c user a : approveCheck J db now c user = Ok a →
  NoDup (c_RequesterPersonID c :: (a_PersonID <$> c_Approvals c)) ∧ c_RequesterID c ∉ (a_UserID <$> c_Approvals c) →
  NoDup (c_RequesterPersonID (with_approval c a) :: (a_PersonID <$> c_Approvals (with_approval c a))) ∧
  c_RequesterID (with_approval c a) ∉ (a_UserID <$> c_Approvals (with_approval c a)).
Proof.
  unfold approveCheck. intros H [Hp Hu].
  destruct (AuthorityForChange J db now c user ActionApprove) as [e|]; [|done].
  destruct (_ || _) eqn:E1; [done|]. destruct (existsb _ _) eqn:E2; [done|]. destruct (_ || negb _); [done|].
  destruct (db_user db user) as [u|]; [|done]. injection H as <-. bool_hyps. simpl.
  rewrite !fmap_app. simpl. split.
  - change (NoDup ((c_RequesterPersonID c :: (a_PersonID <$> c_Approvals c)) ++ [e_PersonID e])).
    apply NoDup_app. split_and!; [done| |apply NoDup_singleton].
    intros x Hx ->%list_elem_of_singleton. apply elem_of_cons in Hx as [Hx|Hx]; [done|].
    rewrite <- not_true_iff_false in E2. apply E2, existsb_exists.
    apply list_elem_of_fmap in Hx as (b & Hb & Hin). exists b. split; [by apply list_elem_of_In|].
    by apply bool_decide_eq_true.
  - rewrite elem_of_app, list_elem_of_singleton. intros [?|?]; congruence.
Qed.

(** A small installation: a requester, two approvers and an outsider. *)
Definition ex_user (id : string) : User :=
  mkUser id id "" "" RoleViewer AuthProviderLocal "" "" "" None false (Some "s") true 1 false 7 0 [] [] "" None
    false None 0 None None None None None None true None "" unix_epoch unix_epoch.
Definition ex_roles (id : string) : result (list string) :=
  Ok (if bool_decide (id = "olga") then [RoleSecurityOfficer]
      else if bool_decide (id ∈ ["ann"; "bob"]) then [RoleSecurityApprover] else []).
Definition ex_policy : AuditPolicy := mkAuditPolicy "enhanced" ["olga"] [] 600 24 "dest" "cred" ["k1"] "".
Definition ex_change_payload : SecurityChangePayload :=
  mkPayload "role" None [] (Some (mkRoleChange "carl" RoleOriginalReader true)) None None None [] None.
Definition ex_json : JSON :=
  mkJSON (fun _ => Some ex_change_payload) (fun _ => None) (fun _ => Some ex_policy)
    (fun _ => "policy") (fun _ => "change") (fun _ _ _ => "proposal").
Definition ex_approval (id : string) : SecurityApproval := mkApproval id ("p:" +:+ id) "" unix_epoch 7 None.
Definition ex_change : SecurityChange :=
  mkChange "c1" 1 "olga" "p:olga" "" "" 0 7 1 (SecurityDigest "proposal") "reason" "change" "proposal" "approved"
    unix_epoch (unix_epoch + 24 * Hour) [ex_approval "ann"; ex_approval "bob"] "" "" "".
Definition ex_db : DB :=
  mkDB (fun id => Ok (ex_user id)) (Ok Lockout.Defaults) ex_roles (fun id => Ok ("p:" +:+ id))
    (fun _ => Ok ex_change) (fun _ => Ok ("raw", SecurityDigest "raw", "c1")) (Ok [1; 2])
    (Ok (2, "enhanced", None, "")).
Definition ex_time : Time := unix_epoch + Hour.

(** ** Properties *)

(** The two-person rule: a change passes the quorum check only if it has
    not expired, its approved bytes match its digest, its requester still holds
    the authority and credential revision of the request, and there are at least
    two approvals in force; their people are pairwise different and different
    from the requester's, so are their user accounts, and every approver still
    holds the approving authority under the recorded person and revision. *)
Theorem quorum_two_independent (J : JSON) (db : DB) (now : Time) (c : SecurityChange) :
  ValidateQuorum J db now c = Ok tt →
  Before now (c_ExpiresAt c) = true ∧ SecurityDigest (c_ApprovedBytes c) = c_Digest c ∧
  (∃ e u, AuthorityForChange J db now c (c_RequesterID c) ActionRequest = Ok e ∧
     e_PersonID e = c_RequesterPersonID c ∧ db_user db (c_RequesterID c) = Ok u ∧
     u_SecurityRevision u = c_RequesterGeneration c) ∧
  (2 ≤ length (live_approvals c))%nat ∧
  NoDup (c_RequesterPersonID c :: (a_PersonID <$> live_approvals c)) ∧
  NoDup (c_RequesterID c :: (a_UserID <$> live_approvals c)) ∧
  Forall (approver_ok J db now c) (live_approvals c).
Proof.
  unfold ValidateQuorum. intros H. destruct (_ || _ || _) eqn:E1; [done|]. bool_hyps.
  destruct (AuthorityForChange J db now c (c_RequesterID c) ActionRequest) as [e|] eqn:Er; [|done].
  destruct (db_user db (c_RequesterID c)) as [u|] eqn:Eu; [|done].
  destruct (_ || _) eqn:E2; [done|]. bool_hyps. z_hyps.
  destruct (quorum_loop J db now c _ 0 _) as [n|] eqn:Eq; [|done]. destruct (n <? 2) eqn:En; [done|]. z_hyps.
  destruct (quorum_loop_spec _ _ _ _ _ _ _ _ Eq) as (Hn & Hall & Hnd & Hnot). fold (live_approvals c) in *.
  split_and!; try done.
  - by exists e, u.
  - lia.
  - apply NoDup_cons. split; [|done]. intros (a & Ha & Hin)%list_elem_of_fmap. apply (Hnot a Hin). rewrite <- Ha. by left.
  - apply (people_users J db now c _ e); try done. intros a Hin Heq. apply (Hnot a Hin). rewrite Heq. by left.
Qed.

Lemma quorum_two_independent_witness :
  ValidateQuorum ex_json ex_db ex_time ex_change = Ok tt ∧ (2 ≤ length (live_approvals ex_change))%nat.
Proof.
  assert (H : ValidateQuorum ex_json ex_db ex_time ex_change = Ok tt) by by vm_compute.
  split; [exact H|]. destruct (quorum_two_independent _ _ _ _ H) as (_ & _ & _ & H2 & _). exact H2.
Defined.

(** Approvals stay independent: starting from a change without approvals,
    however many approvals are accepted one after another, each against the
    database of its own time, their people remain pairwise different and
    different from the requester, and no approver account is the requester's. *)
Theorem approvals_independent (J : JSON) (c c' : SecurityChange) :
  c_Approvals c = [] → rtc (approving J) c c' →
  NoDup (c_RequesterPersonID c' :: (a_PersonID <$> c_Approvals c')) ∧
  (c_RequesterID c' ∉ (a_UserID <$> c_Approvals c')) ∧ c_RequesterID c' = c_RequesterID c.
Proof.
  intros H0 Hr.
  assert (Hinv : NoDup (c_RequesterPersonID c :: (a_PersonID <$> c_Approvals c)) ∧
                 c_RequesterID c ∉ (a_UserID <$> c_Approvals c)).
  { rewrite H0. simpl. split; [apply NoDup_singleton|set_solver]. }
  clear H0. induction Hr as [c|c1 c2 c3 [db now c user a Ha] _ IH]; [by destruct Hinv|].
  apply IH. by apply (approve_one J db now c user a).
Qed.

Lemma approvals_independent_witness :
  let c0 := mkChange "c1" 1 "olga" "p:olga" "" "" 0 7 1 (SecurityDigest "proposal") "reason" "change" "proposal"
              "requested" unix_epoch (unix_epoch + 24 * Hour) [] "" "" "" in
  c_RequesterID c0 ∉ (a_UserID <$> c_Approvals (with_approval c0 (mkApproval "ann" "p:ann" "" ex_time 7 None))).
Proof.
  intros c0.
  refine (proj1 (proj2 (approvals_independent ex_json c0 (with_approval c0 (mkApproval "ann" "p:ann" "" ex_time 7 None)) eq_refl _))).
  apply rtc_once. apply (ApproveOne ex_json ex_db ex_time c0 "ann"). by vm_compute.
Defined.

(** Covered access is never unprotected: when the active policy, a pending
    one or its predecessor covers the actor or the node, the interactive guard
    refuses, whatever the configuration and the continuity check say; and an
    execution is admitted only as an enhanced one, with no transition pending
    and no recovery required. *)
Theorem covered_never_unprotected (J : JSON) (db : DB) (configErr : option goerr)
    (validate : PolicyState → result unit) (actor node : string) (state : PolicyState) (v : PolicyVersion) :
  GetPolicyState J db = Ok state →
  v = ps_Active state ∨ ps_Pending state = Some v ∨ ps_Previous state = Some v →
  Covers (pv_Policy v) actor node = true →
  (∃ e, GuardInteractive J db configErr validate actor node = Err e) ∧
  (∀ p, PolicyForExecution J db configErr validate actor node = (p, None) →
     xp_Enhanced p = true ∧ ps_Pending state = None ∧ ps_State state ≠ "recovery_required").
Proof.
  intros Hs Hv Hc.
  assert (Hcov : Covers (pv_Policy (ps_Active state)) actor node
     || match ps_Pending state with Some v => Covers (pv_Policy v) actor node | None => false end
     || match ps_Previous state with Some v => Covers (pv_Policy v) actor node | None => false end = true).
  { destruct Hv as [<-|[->| ->]]; rewrite Hc, ?orb_true_r; done. }
  unfold GuardInteractive, PolicyForExecution. destruct configErr; [split; [by eexists|done]|].
  rewrite Hs. destruct (validate state); [|split; [by eexists|done]]. rewrite Hcov. cbn [andb].
  destruct (ps_Pending state); simpl; [split; [by eexists|done]|].
  case_bool_decide; simpl; [split; [by eexists|done]|]. split; [by eexists|]. by intros p [= <-].
Qed.

Lemma covered_never_unprotected_witness :
  ∃ e, GuardInteractive ex_json ex_db None (fun _ => Ok tt) "olga" "node-1" = Err e.
Proof.
  refine (proj1 (covered_never_unprotected ex_json ex_db None (fun _ => Ok tt) "olga" "node-1"
     (mkPolicyState (mkPolicyVersion 2 ex_policy (SecurityDigest "raw") "c1") None "enhanced" None "")
     (mkPolicyVersion 2 ex_policy (SecurityDigest "raw") "c1") _ (or_introl eq_refl) _)); by vm_compute.
Defined.

(** C35. Every policy in force was approved.  When the versions in the database are
    unsigned 64-bit numbers, checking a policy version's approval chain always ends (each turn goes to a smaller version), and it
    accepts only a policy whose digest is that of the initial Standard policy
    or of a policy carried by the approved bytes of an applied (or applying)
    change with a valid typed payload and a matching digest. *)
Theorem policy_approved (J : JSON) (db : DB) (policy : PolicyVersion) (applying : bool) :
  (∀ id c, db_change db id = Ok c → 0 ≤ c_ExpectedVersion c < 2 ^ 64) →
  is_Some (approved_loop J db (S (Z.to_nat (pv_Version policy))) policy applying) ∧
  (validateApprovedPolicy J db policy applying = Ok tt →
   pv_SHA256 policy = initialDigest J ∨
   ∃ id change, db_change db id = Ok change ∧ approves J (pv_SHA256 policy) change).
Proof.
  intros Hu. destruct (approved_loop_total J db Hu (S (Z.to_nat (pv_Version policy))) policy applying) as [r Hr]; [lia|].
  split; [by exists r|]. unfold validateApprovedPolicy. rewrite Hr. simpl. intros ->. by eapply approved_loop_chain.
Qed.

(** Three versions: the initial one, a policy brought in by the applied change
    "c1", and the same policy after the applied change "c2" of a role. *)
Definition ap_carried : AuditPolicy := mkAuditPolicy "standard" ["olga"] [] 600 48 "" "" [] "".
Definition ap_json : JSON :=
  mkJSON (fun _ => None)
    (fun raw => if bool_decide (raw = "first")
                then Some (mkApproved "why" 1 (mkPayload "policy" (Some ap_carried) [] None None None None [] None))
                else if bool_decide (raw = "second") then Some (mkApproved "why" 2 ex_change_payload) else None)
    (fun _ => Some ap_carried) (fun p => if ap_RetentionHours p =? 48 then "carried" else "initial")
    (fun _ => "change") (fun _ _ _ => "proposal").
Definition ap_change (id : string) (expected : Z) (raw : string) : SecurityChange :=
  mkChange id 1 "olga" "p:olga" "olga" "p:olga" 7 7 expected (SecurityDigest raw) "why" "change" raw "applied"
    unix_epoch (unix_epoch + 24 * Hour) [ex_approval "ann"; ex_approval "bob"] "" "" "".
Definition ap_db : DB :=
  mkDB (fun id => Ok (ex_user id)) (Ok Lockout.Defaults) ex_roles (fun id => Ok ("p:" +:+ id))
    (fun id => if bool_decide (id = "c1") then Ok (ap_change "c1" 1 "first")
               else if bool_decide (id = "c2") then Ok (ap_change "c2" 2 "second") else Err ErrRecovery)
    (fun v => Ok (if v =? 1 then (initialStandardPolicy, "", "") else ("carried", SecurityDigest "carried", if v =? 3 then "c2" else "c1"))) (Ok [1; 2; 3])
    (Ok (3, "standard", None, "")).
Definition ap_version (sha : string) : PolicyVersion := mkPolicyVersion 3 ap_carried sha "c2".

Lemma policy_approved_witness :
  validateApprovedPolicy ap_json ap_db (ap_version (SecurityDigest "carried")) false = Ok tt ∧
  (SecurityDigest "carried" = initialDigest ap_json ∨
   ∃ id change, db_change ap_db id = Ok change ∧ approves ap_json (SecurityDigest "carried") change) ∧
  is_Some (approved_loop ap_json ap_db 4 (ap_version (SecurityDigest "other")) false) ∧
  validateApprovedPolicy ap_json ap_db (ap_version (SecurityDigest "other")) false = Err ErrRecovery.
Proof.
  assert (Hw : ∀ id c, db_change ap_db id = Ok c → 0 ≤ c_ExpectedVersion c < 2 ^ 64).
  { intros id c. cbn. case_bool_decide; [|case_bool_decide]; intros Hc; try discriminate Hc; injection Hc as <-; cbn; lia. }
  assert (Hv : validateApprovedPolicy ap_json ap_db (ap_version (SecurityDigest "carried")) false = Ok tt) by (vm_compute; reflexivity).
  split; [exact Hv|]. split; [|split; [|vm_compute; reflexivity]].
  - exact (proj2 (policy_approved ap_json ap_db (ap_version (SecurityDigest "carried")) false Hw) Hv).
  - exact (proj1 (policy_approved ap_json ap_db (ap_version (SecurityDigest "other")) false Hw)).
Defined.

(** A restored database is refused: once the enrollment marker records a
    version, no later marker write (failing ones included) takes it back or
    moves it to another installation, and the local continuity check rejects
    every policy state whose newest version is older than it. *)
Theorem rollback_refused (J : JSON) (db : DB) (m : EnrollmentMarker)
    (ws : list (EnrollmentMarker * marker_io)) (state : PolicyState) (installation : string) :
  newest state < mk_Version m →
  (∀ prev, ps_Previous state = Some prev → 0 ≤ pv_Version prev < 2 ^ 64 - 1) →
  ∃ m', markerWrites (MarkerOk m) ws = MarkerOk m' ∧ mk_InstallationID m' = mk_InstallationID m ∧
    mk_Version m ≤ mk_Version m' ∧
    ∃ e, validateLocalExecutionPolicy J db state installation (MarkerOk m') = Err e.
Proof.
  intros Hn Hprev. destruct (markerWrites_forward ws m) as (m' & Hw & Hi & Hv). exists m'. split_and!; try done.
  unfold newest in Hn. unfold validateLocalExecutionPolicy, marker_is.
  destruct (ps_Pending state) as [p|].
  - destruct (ps_Previous state) as [prev|]; [|by eexists]. specialize (Hprev prev eq_refl).
    destruct (_ || _ || _ || _ || _) eqn:Eg; [by eexists|]. bool_hyps. z_hyps.
    assert (pv_Version p = pv_Version prev + 1) by (unfold u64 in *; rewrite Z.mod_small in *; lia).
    destruct (validateApprovedPolicy J db prev false); [|by eexists].
    destruct (validateApprovedPolicy J db p true); [|by eexists].
    destruct (db_change db _); [|by eexists]. destruct (_ || _ || _); [by eexists|].
    destruct (negb (bool_decide (mk_InstallationID m' = installation))); [by eexists|].
    rewrite (proj2 (Z.eqb_neq (mk_Version m') (pv_Version p))) by lia.
    rewrite (proj2 (Z.eqb_neq (mk_Version m') (pv_Version prev))) by lia. rewrite andb_false_r. by eexists.
  - destruct (_ || _); [by eexists|]. destruct (negb (settled_state state)); [by eexists|].
    destruct (validateApprovedPolicy J db _ false); [|by eexists].
    rewrite (proj2 (Z.eqb_neq _ _)) by lia. rewrite andb_false_r. by eexists.
Qed.

Lemma rollback_refused_witness :
  ∃ e, validateLocalExecutionPolicy ex_json ex_db
    (mkPolicyState (mkPolicyVersion 2 ex_policy "sha" "c1") None "enhanced" None "") "inst"
    (MarkerOk (mkMarker "inst" 3 "sha")) = Err e.
Proof.
  destruct (rollback_refused ex_json ex_db (mkMarker "inst" 3 "sha") []
    (mkPolicyState (mkPolicyVersion 2 ex_policy "sha" "c1") None "enhanced" None "") "inst")
    as (m' & H1 & _ & _ & H2); [by vm_compute|discriminate|].
  injection H1 as <-. exact H2.
Defined.
