(* ===== verification/Terminal.v ===== *)
(** The hub's registry of terminals and command sessions
    (hub/internal/grpcserver/terminalsessions.go and the registry part of
    interactive_terminal.go).

    A registration is a heap object: the map [sessions] points to it, and
    callers that captured the pointer before releasing [ts.mu] still act on it
    after it left the map.  Go channels are modelled with their closed state,
    and an operation that would close a closed channel or send on one has no
    result ([None]): that is Go's run-time panic.  Each operation below is one
    critical section under [ts.mu]. *)

From S2P Require Import Prelude ConnMgr.

Definition TerminalKindWeb : string := "web".
Definition TerminalKindSSH : string := "ssh".
Definition TerminalKindExec : string := "exec".
Definition activityThrottle : Duration := Second.
Definition queueCap : nat := 256.

Inductive TerminalEvent :=
| EventData (data : string)
| EventExit (code : Z) (error : string) (forced : bool).

Record terminalSession := mkTS {
  t_serverID : string;
  t_sessionID : string;
  t_userID : string;
  t_executionUser : string;
  t_kind : string;
  t_sid : string;
  t_startedAt : Time;
  t_lastActivity : Time;
  t_conn : option AgentConn;            (* the interactive admission's connection *)
  t_credential : bool;                  (* bound to a credential generation *)
  t_ch : list TerminalEvent;
  t_chClosed : bool;
  t_doneClosed : bool;
  t_removedClosed : bool;
  t_streaming : bool;
  t_closed : bool;
  t_watched : bool;                     (* has the credential watch channels *)
  t_invClosed : bool;
  t_watchStopped : bool;
  t_credentialRevoked : bool;
  t_exit : option TerminalEvent;        (* output.exit *)
}.

Definition set_ch s v := mkTS (t_serverID s) (t_sessionID s) (t_userID s) (t_executionUser s) (t_kind s) (t_sid s) (t_startedAt s) (t_lastActivity s) (t_conn s) (t_credential s) v (t_chClosed s) (t_doneClosed s) (t_removedClosed s) (t_streaming s) (t_closed s) (t_watched s) (t_invClosed s) (t_watchStopped s) (t_credentialRevoked s) (t_exit s).
Definition set_activity s v := mkTS (t_serverID s) (t_sessionID s) (t_userID s) (t_executionUser s) (t_kind s) (t_sid s) (t_startedAt s) v (t_conn s) (t_credential s) (t_ch s) (t_chClosed s) (t_doneClosed s) (t_removedClosed s) (t_streaming s) (t_closed s) (t_watched s) (t_invClosed s) (t_watchStopped s) (t_credentialRevoked s) (t_exit s).
Definition set_streaming s := mkTS (t_serverID s) (t_sessionID s) (t_userID s) (t_executionUser s) (t_kind s) (t_sid s) (t_startedAt s) (t_lastActivity s) (t_conn s) (t_credential s) (t_ch s) (t_chClosed s) (t_doneClosed s) (t_removedClosed s) true (t_closed s) (t_watched s) (t_invClosed s) (t_watchStopped s) (t_credentialRevoked s) (t_exit s).
Definition set_exit s v := mkTS (t_serverID s) (t_sessionID s) (t_userID s) (t_executionUser s) (t_kind s) (t_sid s) (t_startedAt s) (t_lastActivity s) (t_conn s) (t_credential s) (t_ch s) (t_chClosed s) (t_doneClosed s) (t_removedClosed s) (t_streaming s) (t_closed s) (t_watched s) (t_invClosed s) (t_watchStopped s) (t_credentialRevoked s) (Some v).
Definition set_revoked s := mkTS (t_serverID s) (t_sessionID s) (t_userID s) (t_executionUser s) (t_kind s) (t_sid s) (t_startedAt s) (t_lastActivity s) (t_conn s) (t_credential s) (t_ch s) (t_chClosed s) (t_doneClosed s) (t_removedClosed s) (t_streaming s) (t_closed s) (t_watched s) (t_invClosed s) (t_watchStopped s) true (t_exit s).
Definition set_closes s ch done closed := mkTS (t_serverID s) (t_sessionID s) (t_userID s) (t_executionUser s) (t_kind s) (t_sid s) (t_startedAt s) (t_lastActivity s) (t_conn s) (t_credential s) (t_ch s) ch done (t_removedClosed s) (t_streaming s) closed (t_watched s) (t_invClosed s) (t_watchStopped s) (t_credentialRevoked s) (t_exit s).
Definition set_removed s v := mkTS (t_serverID s) (t_sessionID s) (t_userID s) (t_executionUser s) (t_kind s) (t_sid s) (t_startedAt s) (t_lastActivity s) (t_conn s) (t_credential s) (t_ch s) (t_chClosed s) (t_doneClosed s) v (t_streaming s) (t_closed s) (t_watched s) (t_invClosed s) (t_watchStopped s) (t_credentialRevoked s) (t_exit s).
Definition set_watch s inv := mkTS (t_serverID s) (t_sessionID s) (t_userID s) (t_executionUser s) (t_kind s) (t_sid s) (t_startedAt s) (t_lastActivity s) (t_conn s) (t_credential s) (t_ch s) (t_chClosed s) (t_doneClosed s) (t_removedClosed s) (t_streaming s) (t_closed s) (t_watched s) inv true (t_credentialRevoked s) (t_exit s).

Record TerminalSessions := mkRegistry {
  ts_heap : gmap nat terminalSession;
  ts_sessions : gmap string nat;
  ts_maintenance : gmap string string;
  ts_credentialWatchers : Z;
  ts_next : nat;
}.

Definition NewTerminalSessions : TerminalSessions := mkRegistry ∅ ∅ ∅ 0 0.

Definition with_session (ts : TerminalSessions) (p : nat) (s : terminalSession) : TerminalSessions :=
  mkRegistry (<[p := s]> (ts_heap ts)) (ts_sessions ts) (ts_maintenance ts) (ts_credentialWatchers ts) (ts_next ts).
Definition with_map (ts : TerminalSessions) (m : gmap string nat) : TerminalSessions :=
  mkRegistry (ts_heap ts) m (ts_maintenance ts) (ts_credentialWatchers ts) (ts_next ts).
Definition with_maintenance (ts : TerminalSessions) (m : gmap string string) : TerminalSessions :=
  mkRegistry (ts_heap ts) (ts_sessions ts) m (ts_credentialWatchers ts) (ts_next ts).

Definition makeKey (serverID requestID : string) : string := serverID +:+ ":" +:+ requestID.
Definition session_key (s : terminalSession) : string := makeKey (t_serverID s) (t_sessionID s).
Definition maintenance_id (ts : TerminalSessions) (node : string) : string := default "" (ts_maintenance ts !! node).

(** The registration a key points to. *)
Definition find_session (ts : TerminalSessions) (key : string) : option (nat * terminalSession) :=
  p ← ts_sessions ts !! key; s ← ts_heap ts !! p; Some (p, s).

(** ** Counting the live registrations *)

Definition live_match (heap : gmap nat terminalSession) (P : terminalSession → bool) (p : nat) : bool :=
  match heap !! p with
  | Some s => negb (t_closed s) && P s
  | None => false
  end.

(** The loops over [ts.sessions] that skip closed registrations. *)
Definition count_live (ts : TerminalSessions) (P : terminalSession → bool) : Z :=
  Z.of_nat (size (filter (fun kp : string * nat => live_match (ts_heap ts) P kp.2 = true) (ts_sessions ts))).

Definition is_exec (s : terminalSession) : bool := bool_decide (t_kind s = TerminalKindExec).
Definition is_interactive (s : terminalSession) : bool := negb (is_exec s).
Definition exec_of (user : string) (s : terminalSession) : bool := is_exec s && bool_decide (t_userID s = user).
Definition on_node (node : string) (s : terminalSession) : bool := bool_decide (t_serverID s = node).

(** ** Registration *)

(** The options of a registration: kind, owning session, credential binding
    and interactive connection. *)
Record RegisterOptions := mkOptions {
  o_kind : string; o_sid : string; o_credential : bool; o_conn : option AgentConn;
}.

Definition Register (ts : TerminalSessions) (serverID sessionID userID executionUser : string)
    (o : RegisterOptions) (now : Time) : TerminalSessions * bool :=
  let key := makeKey serverID sessionID in
  if negb (bool_decide (maintenance_id ts serverID = "")) then (ts, false)
  else if bool_decide (is_Some (ts_sessions ts !! key)) then (ts, false)
  else
    let exec := bool_decide (o_kind o = TerminalKindExec) in
    let watch := o_credential o && negb exec in
    if (watch && (256 <=? ts_credentialWatchers ts))
       || (negb exec && (256 <=? count_live ts is_interactive))
       || (8 <=? count_live ts (on_node serverID))
       || (exec && ((4 <=? count_live ts (exec_of userID)) || (32 <=? count_live ts is_exec)))
    then (ts, false)
    else
      let p := ts_next ts in
      let s := mkTS serverID sessionID userID executionUser (o_kind o) (o_sid o) now now (o_conn o) (o_credential o)
                 [] false false false false false watch false false false None in
      (mkRegistry (<[p := s]> (ts_heap ts)) (<[key := p]> (ts_sessions ts)) (ts_maintenance ts)
         (if watch then ts_credentialWatchers ts + 1 else ts_credentialWatchers ts) (S p), true).

(** The end of a credential watcher. *)
Definition watcherDone (ts : TerminalSessions) : TerminalSessions :=
  mkRegistry (ts_heap ts) (ts_sessions ts) (ts_maintenance ts) (ts_credentialWatchers ts - 1) (ts_next ts).

(** ** Maintenance *)

Definition ReserveMaintenance (ts : TerminalSessions) (node id : string) : TerminalSessions * result unit :=
  if negb (bool_decide (maintenance_id ts node = ""))
  then (ts, Err (ErrText "node update maintenance is active"))
  else if negb (count_live ts (on_node node) =? 0)
  then (ts, Err (ErrText "node has active terminal or command sessions"))
  else (with_maintenance ts (<[node := id]> (ts_maintenance ts)), Ok tt).

Definition SetMaintenance (ts : TerminalSessions) (node id : string) : TerminalSessions :=
  if bool_decide (id = "") then with_maintenance ts (delete node (ts_maintenance ts))
  else with_maintenance ts (<[node := id]> (ts_maintenance ts)).

Definition ReleaseMaintenance (ts : TerminalSessions) (node id : string) : TerminalSessions :=
  if bool_decide (maintenance_id ts node = id) then with_maintenance ts (delete node (ts_maintenance ts)) else ts.

Definition MaintenanceIdle (ts : TerminalSessions) (node id : string) : bool :=
  if negb (bool_decide (maintenance_id ts node = id)) then false
  else count_live ts (on_node node) =? 0.

(** ** Data *)

Definition AttachStream (ts : TerminalSessions) (serverID sessionID userID : string)
    : TerminalSessions * bool * bool :=
  match find_session ts (makeKey serverID sessionID) with
  | None => (ts, false, false)
  | Some (p, s) =>
      if negb (bool_decide (t_userID s = userID)) then (ts, false, false)
      else if t_streaming s then (ts, true, false)
      else (with_session ts p (set_streaming s), true, true)
  end.

(** Sending on a closed channel panics; a full one takes nothing. *)
Definition deliverDataLocked (s : terminalSession) (data : string) (now : Time) : option (terminalSession * bool) :=
  if t_chClosed s then None
  else if (queueCap <=? length (t_ch s))%nat then Some (s, false)
  else
    let s1 := set_ch s (t_ch s ++ [EventData data]) in
    Some (if activityThrottle <=? time_sub now (t_lastActivity s) then set_activity s1 now else s1, true).

(** [from] is the connection of [DeliverDataFrom]; [None] is [DeliverData]. *)
Definition DeliverData (ts : TerminalSessions) (from : option AgentConn) (serverID sessionID data : string)
    (now : Time) : option (TerminalSessions * bool) :=
  match find_session ts (makeKey serverID sessionID) with
  | None => Some (ts, false)
  | Some (p, s) =>
      if t_closed s || match from with Some c => negb (bool_decide (t_conn s = Some c)) | None => false end
      then Some (ts, false)
      else
        '(s', ok) ← deliverDataLocked s data now;
        Some (with_session ts p s', ok)
  end.

Definition AcceptAgentConnection (ts : TerminalSessions) (serverID sessionID : string) (conn : AgentConn) : bool :=
  match find_session ts (makeKey serverID sessionID) with
  | None => false
  | Some (_, s) => negb (t_closed s) && bool_decide (t_conn s = Some conn)
  end.

(** The transport takes one event from the channel of a captured registration. *)
Definition receive (ts : TerminalSessions) (p : nat) : TerminalSessions * option TerminalEvent :=
  match ts_heap ts !! p with
  | Some s => match t_ch s with
              | [] => (ts, None)
              | e :: rest => (with_session ts p (set_ch s rest), Some e)
              end
  | None => (ts, None)
  end.

(** [ForwardData]: whether the gate of a registration lets a write start. *)
Definition forward (s : terminalSession) : bool := bool_decide (t_exit s = None).

(** ** Ending *)

Definition close_chan (closed : bool) : option bool := if closed then None else Some true.

(** [deliverExit]: the oldest events are evicted while the channel is full. *)
Definition deliverExit (s : terminalSession) (e : TerminalEvent) : option terminalSession :=
  if t_chClosed s then None
  else Some (set_ch s ((if (queueCap <=? length (t_ch s))%nat then tail (t_ch s) else t_ch s) ++ [e])).

Definition stopCredentialWatchLocked (s : terminalSession) : option terminalSession :=
  if negb (t_watched s) || t_watchStopped s then Some s
  else inv ← close_chan (t_invClosed s); Some (set_watch s inv).

Definition close_all (s : terminalSession) : option terminalSession :=
  ch ← close_chan (t_chClosed s);
  done ← close_chan (t_doneClosed s);
  Some (set_closes s ch done true).

Definition endLocked (s : terminalSession) (code : Z) (msg : string) (forced : bool)
    : option (terminalSession * bool) :=
  if t_closed s && (negb forced || bool_decide (is_Some (t_exit s))) then Some (s, false)
  else
    let exit := EventExit code msg forced in
    s1 ← (if forced then s0 ← stopCredentialWatchLocked s; Some (set_ch (set_exit s0 exit) []) else Some s);
    if t_closed s1 then Some (s1, false)
    else
      s2 ← deliverExit s1 exit;
      s3 ← close_all s2;
      Some (s3, true).

(** Ending the captured registration [p], whether or not it is still current
    ([prepareEndAll]'s closure). *)
Definition endCaptured (ts : TerminalSessions) (p : nat) (code : Z) (msg : string) (forced : bool)
    : option (TerminalSessions * bool) :=
  match ts_heap ts !! p with
  | None => Some (ts, false)
  | Some s => '(s', ended) ← endLocked s code msg forced; Some (with_session ts p s', ended)
  end.

(** Ending it only while it is current ([endSession], [endInteractiveExact]). *)
Definition endExact (ts : TerminalSessions) (p : nat) (code : Z) (msg : string) (forced : bool)
    : option (TerminalSessions * bool) :=
  match ts_heap ts !! p with
  | None => Some (ts, false)
  | Some s =>
      if negb (bool_decide (ts_sessions ts !! session_key s = Some p)) then Some (ts, false)
      else endCaptured ts p code msg forced
  end.

Definition endStaleCredential (ts : TerminalSessions) (p : nat) : option TerminalSessions :=
  match ts_heap ts !! p with
  | None => Some ts
  | Some s =>
      if negb (bool_decide (ts_sessions ts !! session_key s = Some p)) || t_credentialRevoked s then Some ts
      else
        '(ts', _) ← endCaptured (with_session ts p (set_revoked s)) p 1
                      "Terminal credentials or authorization revoked." true;
        Some ts'
  end.

Definition EndFrom (ts : TerminalSessions) (conn : AgentConn) (serverID sessionID : string) (code : Z) (msg : string)
    : option (TerminalSessions * bool) :=
  match find_session ts (makeKey serverID sessionID) with
  | None => Some (ts, false)
  | Some (p, s) =>
      if t_closed s || negb (bool_decide (t_conn s = Some conn)) then Some (ts, false)
      else endCaptured ts p code msg false
  end.

(** The registrations [EndAll], [EndByUser] and [EndBySession] capture. *)
Definition captured (ts : TerminalSessions) (P : terminalSession → bool) : list nat :=
  omap (fun kp : string * nat =>
          s ← ts_heap ts !! kp.2; if P s then Some kp.2 else None) (map_to_list (ts_sessions ts)).

Fixpoint endEach (ts : TerminalSessions) (ps : list nat) (code : Z) (msg : string) : option (TerminalSessions * Z) :=
  match ps with
  | [] => Some (ts, 0)
  | p :: t =>
      '(ts1, ended) ← endExact ts p code msg true;
      '(ts2, n) ← endEach ts1 t code msg;
      Some (ts2, if ended : bool then n + 1 else n)
  end.

Definition owned_by (user : string) (s : terminalSession) : bool := bool_decide (t_userID s = user).

Definition EndByUser (ts : TerminalSessions) (user : string) (code : Z) (msg : string) :=
  endEach ts (captured ts (owned_by user)) code msg.

Definition EndBySession (ts : TerminalSessions) (sid : string) (code : Z) (msg : string) :=
  if bool_decide (sid = "") then Some (ts, 0)
  else endEach ts (captured ts (fun s => bool_decide (t_sid s = sid))) code msg.

(** ** Removal *)

Definition hubClosed : TerminalEvent := EventExit (-1) "Terminal closed by the hub." true.

Definition removeLocked (s : terminalSession) : option terminalSession :=
  let s1 := set_ch (set_exit s hubClosed) [] in
  if t_closed s1 then Some s1 else close_all s1.

(** Removing the captured registration [p] while it is current ([Remove],
    [RemoveIfHubInitiated]); [unattached] is [RemoveUnattachedWithClose]. *)
Definition removeExact (ts : TerminalSessions) (p : nat) (unattached : bool) : option (TerminalSessions * bool) :=
  match ts_heap ts !! p with
  | None => Some (ts, false)
  | Some s =>
      if negb (bool_decide (ts_sessions ts !! session_key s = Some p)) || (unattached && t_streaming s)
      then Some (ts, false)
      else
        s1 ← removeLocked s;
        r ← close_chan (t_removedClosed s1);
        Some (with_map (with_session ts p (set_removed s1 r)) (delete (session_key s) (ts_sessions ts)), true)
  end.


(** ** Executions of the registry *)

Inductive top :=
| OpRegister (serverID sessionID userID executionUser : string) (o : RegisterOptions) (now : Time)
| OpWatcherDone
| OpReserve (node id : string)
| OpSet (node id : string)
| OpRelease (node id : string)
| OpAttach (serverID sessionID userID : string)
| OpDeliver (from : option AgentConn) (serverID sessionID data : string) (now : Time)
| OpReceive (p : nat)
| OpEndCaptured (p : nat) (code : Z) (msg : string)
| OpEndExact (p : nat) (code : Z) (msg : string) (forced : bool)
| OpEndStale (p : nat)
| OpEndFrom (conn : AgentConn) (serverID sessionID : string) (code : Z) (msg : string)
| OpRemove (p : nat) (unattached : bool).

(** One critical section; [None] is a panic of the hub. *)
Definition tstep (ts : TerminalSessions) (o : top) : option TerminalSessions :=
  match o with
  | OpRegister node sid user eu opts now => Some (Register ts node sid user eu opts now).1
  | OpWatcherDone => Some (watcherDone ts)
  | OpReserve node id => Some (ReserveMaintenance ts node id).1
  | OpSet node id => Some (SetMaintenance ts node id)
  | OpRelease node id => Some (ReleaseMaintenance ts node id)
  | OpAttach node sid user => Some (AttachStream ts node sid user).1.1
  | OpDeliver from node sid data now => fst <$> DeliverData ts from node sid data now
  | OpReceive p => Some (receive ts p).1
  | OpEndCaptured p code msg => fst <$> endCaptured ts p code msg false
  | OpEndExact p code msg forced => fst <$> endExact ts p code msg forced
  | OpEndStale p => endStaleCredential ts p
  | OpEndFrom conn node sid code msg => fst <$> EndFrom ts conn node sid code msg
  | OpRemove p unattached => fst <$> removeExact ts p unattached
  end.

Fixpoint trun (ts : TerminalSessions) (os : list top) : option TerminalSessions :=
  match os with
  | [] => Some ts
  | o :: t => ts1 ← tstep ts o; trun ts1 t
  end.

Definition is_data (e : TerminalEvent) : bool := match e with EventData _ => true | EventExit _ _ _ => false end.
Definition revoked (s : terminalSession) : bool := bool_decide (is_Some (t_exit s)).

(** The registrations of the map that satisfy [P]. *)
Definition current (ts : TerminalSessions) (p : nat) (s : terminalSession) : Prop :=
  ts_sessions ts !! session_key s = Some p ∧ ts_heap ts !! p = Some s.

(** ** Invariant *)

(** Well-formed registration: the channel states follow [closed], the event
    queue is within its capacity, and a revoked registration holds no output. *)
Definition session_ok (s : terminalSession) : Prop :=
  t_chClosed s = t_closed s ∧ t_doneClosed s = t_closed s ∧ (length (t_ch s) ≤ queueCap)%nat ∧
  (t_watched s = true → t_invClosed s = t_watchStopped s) ∧
  (revoked s = true → t_closed s = true ∧ forallb (fun e => negb (is_data e)) (t_ch s) = true).

Definition registry_ok (ts : TerminalSessions) : Prop :=
  (∀ p s, ts_heap ts !! p = Some s → session_ok s ∧ (p < ts_next ts)%nat) ∧
  (∀ k p, ts_sessions ts !! k = Some p →
     ∃ s, ts_heap ts !! p = Some s ∧ session_key s = k ∧ t_removedClosed s = false).

(** What no later operation may change of a registration. *)
Definition same_registration (s s' : terminalSession) : Prop :=
  t_serverID s' = t_serverID s ∧ t_sessionID s' = t_sessionID s ∧ t_userID s' = t_userID s ∧
  t_kind s' = t_kind s ∧ t_sid s' = t_sid s ∧ t_conn s' = t_conn s ∧
  (t_closed s = true → t_closed s' = true) ∧ (revoked s = true → revoked s' = true).

(** An operation that registers nothing only ends registrations and shrinks
    the map. *)
Definition evolves (ts ts' : TerminalSessions) : Prop :=
  ts_sessions ts' ⊆ ts_sessions ts ∧
  (∀ p s', ts_heap ts' !! p = Some s' → ∃ s, ts_heap ts !! p = Some s ∧ same_registration s s') ∧
  (∀ p s, ts_heap ts !! p = Some s → ∃ s', ts_heap ts' !! p = Some s').

(** A predicate on what never changes. *)
Definition stable (P : terminalSession → bool) : Prop :=
  ∀ s s', same_registration s s' → P s' = P s.

Lemma same_registration_refl s : same_registration s s.
Proof. by repeat split. Qed.

Lemma same_registration_trans s1 s2 s3 :
  same_registration s1 s2 → same_registration s2 s3 → same_registration s1 s3.
Proof. unfold same_registration. intuition congruence. Qed.

#[export] Hint Resolve same_registration_refl : veyport.

Lemma evolves_refl ts : evolves ts ts.
Proof. repeat split; [done|..]; eauto with veyport. Qed.

Lemma evolves_trans a b c : evolves a b → evolves b c → evolves a c.
Proof.
  intros (M1 & H1 & K1) (M2 & H2 & K2). repeat split; [by etrans|..].
  - intros p s Hp. destruct (H2 p s Hp) as (s1 & Hs1 & E1). destruct (H1 p s1 Hs1) as (s0 & Hs0 & E0).
    eauto using same_registration_trans.
  - intros p s Hp. destruct (K1 p s Hp) as [s1 Hs1]. eauto.
Qed.

Lemma with_session_evolves ts p s s' :
  ts_heap ts !! p = Some s → same_registration s s' → evolves ts (with_session ts p s').
Proof.
  intros Hp E. repeat split; [done|..]; simpl; intros q t Hq.
  - destruct (decide (q = p)) as [->|Hne].
    + rewrite lookup_insert_eq in Hq. simplify_eq. eauto.
    + rewrite lookup_insert_ne in Hq by done. eauto with veyport.
  - destruct (decide (q = p)) as [->|Hne].
    + rewrite lookup_insert_eq. eauto.
    + rewrite lookup_insert_ne by done. eauto.
Qed.

Lemma with_session_ok ts p s s' :
  registry_ok ts → ts_heap ts !! p = Some s → same_registration s s' → session_ok s' →
  t_removedClosed s' = t_removedClosed s → registry_ok (with_session ts p s').
Proof.
  intros [Hh Hm] Hp E Hs Hr. split; simpl.
  - intros q t Hq. destruct (decide (q = p)) as [->|Hne].
    + rewrite lookup_insert_eq in Hq. simplify_eq. split; [done|]. by apply (Hh p s).
    + rewrite lookup_insert_ne in Hq by done. eauto.
  - intros k q Hk. destruct (Hm k q Hk) as (t & Ht & Hkey & Hrem).
    destruct (decide (q = p)) as [->|Hne].
    + rewrite Hp in Ht. injection Ht as ->. rewrite lookup_insert_eq. eexists. split; [done|].
      split; [|congruence]. rewrite <- Hkey. unfold session_key. destruct E as (-> & -> & _). done.
    + rewrite lookup_insert_ne by done. eauto.
Qed.

(** ** Counting *)

Lemma live_match_evolves ts ts' P p : stable P → evolves ts ts' →
  live_match (ts_heap ts') P p = true → live_match (ts_heap ts) P p = true.
Proof.
  intros HP (_ & Hh & _). unfold live_match.
  destruct (ts_heap ts' !! p) as [s'|] eqn:Hp; [|done].
  destruct (Hh p s' Hp) as (s & -> & E). intros Hl. bool_hyps.
  rewrite <- (HP s s' E), H0. destruct E as (_ & _ & _ & _ & _ & _ & Hc & _).
  destruct (t_closed s); [|done]. rewrite Hc in H; done.
Qed.

(** Ending and removing never raise a count. *)
Lemma count_live_evolves ts ts' P : stable P → evolves ts ts' → count_live ts' P ≤ count_live ts P.
Proof.
  intros HP E. unfold count_live. apply inj_le, map_subseteq_size, map_subseteq_spec.
  intros k p Hk. apply map_lookup_filter_Some in Hk as [Hk Hl].
  apply map_lookup_filter_Some. split; [|by eapply live_match_evolves].
  destruct E as (Hm & _). by eapply lookup_weaken.
Qed.

Lemma stable_kind : stable is_exec.
Proof. intros s s' (_ & _ & _ & E & _). unfold is_exec. by rewrite E. Qed.
Lemma stable_interactive : stable is_interactive.
Proof. intros s s' E. unfold is_interactive. by rewrite (stable_kind s s' E). Qed.
Lemma stable_exec_of u : stable (exec_of u).
Proof. intros s s' E. unfold exec_of. rewrite (stable_kind s s' E). by destruct E as (_ & _ & -> & _). Qed.
Lemma stable_on_node n : stable (on_node n).
Proof. intros s s' (E & _). unfold on_node. by rewrite E. Qed.
#[export] Hint Resolve stable_kind stable_interactive stable_exec_of stable_on_node : veyport.

(** A new registration counts once. *)
Lemma count_live_register ts P key s w :
  registry_ok ts → ts_sessions ts !! key = None → t_closed s = false →
  count_live (mkRegistry (<[ts_next ts := s]> (ts_heap ts)) (<[key := ts_next ts]> (ts_sessions ts))
                (ts_maintenance ts) w (S (ts_next ts))) P
  = count_live ts P + if P s then 1 else 0.
Proof.
  intros [Hh Hm] Hk Hc. unfold count_live. simpl. rewrite size_filter_insert, delete_id by done.
  assert (Hf : filter (fun kp : string * nat => live_match (<[ts_next ts := s]> (ts_heap ts)) P kp.2 = true) (ts_sessions ts)
             = filter (fun kp : string * nat => live_match (ts_heap ts) P kp.2 = true) (ts_sessions ts)).
  { apply map_filter_ext. intros k p Hkp. simpl. unfold live_match.
    destruct (Hm k p Hkp) as (t & Ht & _). destruct (Hh p t Ht) as [_ Hlt].
    rewrite lookup_insert_ne by lia. done. }
  assert (Hn : live_match (<[ts_next ts := s]> (ts_heap ts)) P (ts_next ts) = P s).
  { unfold live_match. by rewrite lookup_insert_eq, Hc. }
  rewrite Hf. simpl. rewrite Hn. destruct (P s); case_decide; try congruence; lia.
Qed.

(** ** One registration *)

Lemma stopCredentialWatchLocked_total s : session_ok s → ∃ s0, stopCredentialWatchLocked s = Some s0 ∧
  session_ok s0 ∧ same_registration s s0 ∧ t_removedClosed s0 = t_removedClosed s ∧
  t_closed s0 = t_closed s ∧ t_exit s0 = t_exit s ∧ t_ch s0 = t_ch s.
Proof.
  intros Hs. unfold stopCredentialWatchLocked. destruct (negb (t_watched s) || t_watchStopped s) eqn:G.
  - exists s. eauto 10 with veyport.
  - bool_hyps. destruct Hs as (H1 & H2 & H3 & H4 & H5). rewrite H4, H0 by done. simpl.
    eexists. split; [reflexivity|]. repeat split; simpl; try done; by apply H5.
Qed.

Lemma evict_length (l : list TerminalEvent) e : (length l ≤ queueCap)%nat →
  (length ((if (queueCap <=? length l)%nat then tail l else l) ++ [e]) ≤ queueCap)%nat.
Proof.
  intros H. rewrite length_app. change (length [e]) with 1%nat. destruct (queueCap <=? length l)%nat eqn:Q.
  - apply Nat.leb_le in Q. destruct l as [|x l]; simpl length in *; unfold queueCap in *; lia.
  - apply Nat.leb_gt in Q. lia.
Qed.

Lemma endLocked_total s code msg forced : session_ok s → ∃ s', 
  endLocked s code msg forced = Some (s', negb (t_closed s)) ∧ session_ok s' ∧ same_registration s s' ∧
  t_removedClosed s' = t_removedClosed s ∧ t_closed s' = true ∧ (forced = true → revoked s' = true).
Proof.
  intros Hs. unfold endLocked.
  destruct (t_closed s && (negb forced || bool_decide (is_Some (t_exit s)))) eqn:G.
  - apply andb_true_iff in G as [Hc G]. exists s. rewrite Hc.
    split; [done|]. split; [done|]. split; [apply same_registration_refl|]. repeat split.
    intros ->. exact G.
  - set (exit := EventExit code msg forced). destruct forced.
    + destruct (stopCredentialWatchLocked_total s Hs) as (s0 & -> & Hs0 & E & Hr & Hc & _). simpl.
      rewrite <- Hc. destruct Hs0 as (H1 & H2 & H3 & H4 & H5). destruct E as (E1 & E2 & E3 & E4 & E5 & E6 & _).
      destruct (t_closed s0) eqn:C.
      * eexists. split; [reflexivity|]. unfold session_ok, same_registration. simpl. rewrite C.
        repeat split; simpl; try done; lia.
      * unfold deliverExit, close_all, close_chan. simpl. rewrite H1. simpl. rewrite H1, H2. simpl.
        eexists. split; [reflexivity|]. repeat split; simpl; try done. unfold queueCap. lia.
    + simpl. destruct Hs as (H1 & H2 & H3 & H4 & H5). destruct (t_closed s) eqn:C; [done|].
      unfold deliverExit, close_all, close_chan. rewrite H1. simpl. rewrite H1, H2. simpl.
      eexists. split; [reflexivity|]. repeat split; simpl; try done.
      * by apply evict_length.
      * destruct (H5 ltac:(assumption)) as [? _]. done.
Qed.

Lemma removeLocked_total s : session_ok s → ∃ s', removeLocked s = Some s' ∧ session_ok s' ∧
  same_registration s s' ∧ t_removedClosed s' = t_removedClosed s ∧ t_closed s' = true ∧ revoked s' = true.
Proof.
  intros (H1 & H2 & H3 & H4 & H5). unfold removeLocked. simpl. destruct (t_closed s) eqn:C.
  - eexists. split; [reflexivity|]. unfold session_ok, same_registration. simpl. rewrite C.
    repeat split; simpl; try done. lia.
  - unfold close_all, close_chan. simpl. rewrite H1, H2. simpl.
    eexists. split; [reflexivity|]. repeat split; simpl; try done. lia.
Qed.

Lemma deliverDataLocked_total s data now : session_ok s → t_closed s = false → ∃ s' ok,
  deliverDataLocked s data now = Some (s', ok) ∧ session_ok s' ∧ same_registration s s' ∧
  t_removedClosed s' = t_removedClosed s.
Proof.
  intros Hs C. unfold deliverDataLocked. pose proof Hs as (H1 & H2 & H3 & H4 & H5). rewrite H1, C.
  destruct (queueCap <=? length (t_ch s))%nat eqn:Q; [by eauto 10 with veyport|].
  apply Nat.leb_gt in Q. assert (revoked s = true → False) as Hnr.
  { intros Hr. destruct (H5 Hr). congruence. }
  eexists _, _. split; [reflexivity|].
  destruct (_ <=? _); repeat split; simpl; try done; try (exfalso; by apply Hnr); rewrite length_app; simpl; lia.
Qed.

(** ** The registry *)

(** The outcome of an operation that registers nothing. *)
Definition keeps (ts : TerminalSessions) (r : option TerminalSessions) : Prop :=
  ∃ ts', r = Some ts' ∧ registry_ok ts' ∧ evolves ts ts' ∧ ts_maintenance ts' = ts_maintenance ts ∧
         ts_credentialWatchers ts' = ts_credentialWatchers ts.

Lemma keeps_same ts : registry_ok ts → keeps ts (Some ts).
Proof. intros H. exists ts. eauto 6 using evolves_refl. Qed.

Lemma keeps_session ts p s s' : registry_ok ts → ts_heap ts !! p = Some s →
  same_registration s s' → session_ok s' → t_removedClosed s' = t_removedClosed s →
  keeps ts (Some (with_session ts p s')).
Proof.
  intros H Hp E Hs Hr. exists (with_session ts p s'). split; [done|].
  split; [by eapply with_session_ok|]. split; [by eapply with_session_evolves|]. done.
Qed.

Lemma find_session_heap ts k p s : find_session ts k = Some (p, s) →
  ts_sessions ts !! k = Some p ∧ ts_heap ts !! p = Some s.
Proof.
  unfold find_session. intros H. destruct (ts_sessions ts !! k) eqn:E; simpl in H; [|done].
  destruct (ts_heap ts !! n) eqn:E2; simpl in H; [|done]. by simplify_eq.
Qed.

Lemma endCaptured_keeps ts p code msg forced : registry_ok ts →
  keeps ts (fst <$> endCaptured ts p code msg forced).
Proof.
  intros H. unfold endCaptured. destruct (ts_heap ts !! p) as [s|] eqn:Hp; [|by apply keeps_same].
  destruct (endLocked_total s code msg forced (proj1 (proj1 H p s Hp))) as (s' & -> & Hs & E & Hr & _).
  simpl. by apply keeps_session with s.
Qed.

Lemma endExact_keeps ts p code msg forced : registry_ok ts →
  keeps ts (fst <$> endExact ts p code msg forced).
Proof.
  intros H. unfold endExact. destruct (ts_heap ts !! p) as [s|] eqn:Hp; [|by apply keeps_same].
  destruct (negb _); [by apply keeps_same|by apply endCaptured_keeps].
Qed.

Lemma endStaleCredential_keeps ts p : registry_ok ts → keeps ts (endStaleCredential ts p).
Proof.
  intros H. unfold endStaleCredential. destruct (ts_heap ts !! p) as [s|] eqn:Hp; [|by apply keeps_same].
  destruct (negb _ || _); [by apply keeps_same|].
  assert (K : keeps ts (Some (with_session ts p (set_revoked s)))).
  { apply keeps_session with s; try done. exact (proj1 (proj1 H p s Hp)). }
  destruct K as (ts1 & [= <-] & Hok1 & E1 & M1 & W1).
  destruct (endCaptured_keeps (with_session ts p (set_revoked s)) p 1
    "Terminal credentials or authorization revoked." true Hok1) as (ts2 & Heq & Hok2 & E2 & M2 & W2).
  destruct (endCaptured _ _ _ _ _) as [[ts3 b]|]; [|discriminate Heq]. simpl in *. simplify_eq.
  exists ts2. split; [done|]. split; [done|]. split; [by eapply evolves_trans|]. split; congruence.
Qed.

Lemma EndFrom_keeps ts conn node sid code msg : registry_ok ts →
  keeps ts (fst <$> EndFrom ts conn node sid code msg).
Proof.
  intros H. unfold EndFrom. destruct (find_session _ _) as [[p s]|]; [|by apply keeps_same].
  destruct (_ || _); [by apply keeps_same|by apply endCaptured_keeps].
Qed.

Lemma DeliverData_keeps ts from node sid data now : registry_ok ts →
  keeps ts (fst <$> DeliverData ts from node sid data now).
Proof.
  intros H. unfold DeliverData. destruct (find_session _ _) as [[p s]|] eqn:F; [|by apply keeps_same].
  apply find_session_heap in F as [_ Hp]. destruct (t_closed s || _) eqn:G; [by apply keeps_same|].
  apply orb_false_iff in G as [C _].
  destruct (deliverDataLocked_total s data now (proj1 (proj1 H p s Hp)) C) as (s' & ok & -> & Hs & E & Hr).
  simpl. by apply keeps_session with s.
Qed.

Lemma AttachStream_keeps ts node sid user : registry_ok ts → keeps ts (Some (AttachStream ts node sid user).1.1).
Proof.
  intros H. unfold AttachStream. destruct (find_session _ _) as [[p s]|] eqn:F; [|by apply keeps_same].
  apply find_session_heap in F as [_ Hp]. destruct (negb _); [by apply keeps_same|].
  destruct (t_streaming s); [by apply keeps_same|]. simpl.
  apply keeps_session with s; try done. exact (proj1 (proj1 H p s Hp)).
Qed.

Lemma receive_keeps ts p : registry_ok ts → keeps ts (Some (receive ts p).1).
Proof.
  intros H. unfold receive. destruct (ts_heap ts !! p) as [s|] eqn:Hp; [|by apply keeps_same].
  destruct (t_ch s) as [|e rest] eqn:Q; [by apply keeps_same|]. simpl.
  apply keeps_session with s; try done. destruct (proj1 (proj1 H p s Hp)) as (H1 & H2 & H3 & H4 & H5).
  rewrite Q in *. simpl in *. repeat split; simpl; try done; try lia; destruct (H5 ltac:(assumption)); [done|].
  by bool_hyps.
Qed.

Lemma removeExact_keeps ts p unattached : registry_ok ts → keeps ts (fst <$> removeExact ts p unattached).
Proof.
  intros H. unfold removeExact. destruct (ts_heap ts !! p) as [s|] eqn:Hp; [|by apply keeps_same].
  destruct (negb _ || _) eqn:G; [by apply keeps_same|]. apply orb_false_iff in G as [G _]. bool_hyps.
  destruct (removeLocked_total s (proj1 (proj1 H p s Hp))) as (s1 & -> & Hs & E & Hr & C & R).
  destruct (proj2 H _ _ G) as (s0 & Hs0 & _ & Hrem). rewrite Hp in Hs0. injection Hs0 as <-.
  simpl. rewrite Hr, Hrem. simpl. eexists. split; [reflexivity|].
  assert (Es : same_registration s (set_removed s1 true)) by exact E.
  split; [|split; [|done]].
  - split; simpl.
    + intros q t Hq. destruct (decide (q = p)) as [->|Hne].
      * rewrite lookup_insert_eq in Hq. injection Hq as <-. split; [exact Hs|apply (proj1 H p s Hp)].
      * rewrite lookup_insert_ne in Hq by done. by apply (proj1 H).
    + intros k q Hk. apply lookup_delete_Some in Hk as [Hne Hk]. destruct (proj2 H k q Hk) as (t & Ht & Hkey & Hr').
      rewrite lookup_insert_ne; [by eauto|]. intros ->. rewrite Hp in Ht. congruence.
  - destruct (with_session_evolves ts p s (set_removed s1 true) Hp Es) as (M & A & B).
    repeat split; [|exact A|exact B]. simpl. apply delete_subseteq.
Qed.

(** The limits of the common budget. *)
Definition capacity (ts : TerminalSessions) : Prop :=
  (∀ node, count_live ts (on_node node) ≤ 8) ∧ (∀ user, count_live ts (exec_of user) ≤ 4) ∧
  count_live ts is_exec ≤ 32 ∧ count_live ts is_interactive ≤ 256 ∧ ts_credentialWatchers ts ≤ 256.

Lemma capacity_evolves ts ts' : evolves ts ts' → ts_credentialWatchers ts' ≤ ts_credentialWatchers ts →
  capacity ts → capacity ts'.
Proof.
  intros E W (H1 & H2 & H3 & H4 & H5). repeat split; [intros n|intros u|..|lia]; (etrans; [apply (count_live_evolves ts ts'); auto with veyport|]); auto.
Qed.

Definition is_register (o : top) : bool := match o with OpRegister _ _ _ _ _ _ => true | _ => false end.

(** Only the maintenance operations change the reservations. *)
Definition is_maintenance (o : top) : bool :=
  match o with OpReserve _ _ | OpSet _ _ | OpRelease _ _ => true | _ => false end.

(** [keeps], for operations that may change reservations ([maint]) and release
    a watcher slot. *)
Definition progresses (ts : TerminalSessions) (maint : bool) (r : option TerminalSessions) : Prop :=
  ∃ ts', r = Some ts' ∧ registry_ok ts' ∧ evolves ts ts' ∧
         ts_credentialWatchers ts' ≤ ts_credentialWatchers ts ∧
         (maint = false → ts_maintenance ts' = ts_maintenance ts).

Lemma keeps_progresses ts maint r : keeps ts r → progresses ts maint r.
Proof.
  intros (ts' & -> & H1 & H2 & H3 & H4). exists ts'. split; [done|]. split; [done|]. split; [done|].
  split; [lia|done].
Qed.

Lemma rest_progresses ts m w maint : registry_ok ts → w ≤ ts_credentialWatchers ts →
  (maint = false → m = ts_maintenance ts) →
  progresses ts maint (Some (mkRegistry (ts_heap ts) (ts_sessions ts) m w (ts_next ts))).
Proof. intros H Hw Hm. eexists. split; [reflexivity|]. split; [exact H|]. split; [exact (evolves_refl ts)|done]. Qed.

(** Every operation but registration. *)
Lemma tstep_progresses ts o : registry_ok ts → is_register o = false →
  progresses ts (is_maintenance o) (tstep ts o).
Proof.
  intros H Hr.
  destruct o; try discriminate Hr; simpl;
    try (apply keeps_progresses; first
      [ by apply AttachStream_keeps | by apply DeliverData_keeps | by apply receive_keeps
      | by apply endCaptured_keeps | by apply endExact_keeps | by apply endStaleCredential_keeps
      | by apply EndFrom_keeps | by apply removeExact_keeps ]).
  - apply rest_progresses; [done|lia|done].
  - unfold ReserveMaintenance. destruct (negb _); [by apply keeps_progresses, keeps_same|].
    destruct (negb _); [by apply keeps_progresses, keeps_same|]. by apply rest_progresses.
  - unfold SetMaintenance. destruct (bool_decide _); by apply rest_progresses.
  - unfold ReleaseMaintenance. destruct (bool_decide _); [by apply rest_progresses|by apply keeps_progresses, keeps_same].
Qed.

Lemma Register_ok ts node sid user eu o now : registry_ok ts → registry_ok (Register ts node sid user eu o now).1.
Proof.
  intros H. unfold Register. destruct (negb _); [done|]. destruct (bool_decide (is_Some _)) eqn:Hk; [done|].
  apply bool_decide_eq_false in Hk. destruct (_ || _); [done|]. split; simpl.
  - intros p s Hp. destruct (decide (p = ts_next ts)) as [->|Hne].
    + rewrite lookup_insert_eq in Hp. injection Hp as <-. split; [|lia].
      repeat split; simpl; try done. lia.
    + rewrite lookup_insert_ne in Hp by done. destruct (proj1 H p s Hp). split; [done|lia].
  - intros k p Hp. destruct (decide (k = makeKey node sid)) as [->|Hne].
    + rewrite lookup_insert_eq in Hp. injection Hp as <-. rewrite lookup_insert_eq. by eauto.
    + rewrite lookup_insert_ne in Hp by done. destruct (proj2 H k p Hp) as (s & Hs & Hks & Hr).
      destruct (proj1 H p s Hs) as [_ Hlt]. rewrite lookup_insert_ne by lia. eauto.
Qed.

Lemma Register_capacity ts node sid user eu o now : registry_ok ts → capacity ts →
  capacity (Register ts node sid user eu o now).1.
Proof.
  intros H (C1 & C2 & C3 & C4 & C5). unfold Register. destruct (negb _); [done|].
  destruct (bool_decide (is_Some _)) eqn:Hk; [done|]. apply bool_decide_eq_false, eq_None_not_Some in Hk.
  destruct (_ || _) eqn:G; [done|]. simpl. bool_hyps. z_hyps.
  unfold capacity. setoid_rewrite count_live_register; try done.
  set (s := mkTS _ _ _ _ _ _ _ _ _ _ _ _ _ _ _ _ _ _ _ _ _).
  assert (K : is_exec s = bool_decide (o_kind o = TerminalKindExec)) by done.
  rewrite <- K in *. repeat split.
  - intros n. specialize (C1 n). destruct (on_node n s) eqn:E; [|lia].
    apply bool_decide_eq_true in E. simpl in E. subst n. lia.
  - intros u. specialize (C2 u). destruct (exec_of u s) eqn:E; [|lia].
    apply andb_true_iff in E as [E1 E2]. apply bool_decide_eq_true in E2. simpl in E2. subst u.
    rewrite E1 in *. simpl in *. bool_hyps. z_hyps. lia.
  - destruct (is_exec s); simpl in *; bool_hyps; z_hyps; lia.
  - unfold is_interactive at 2. destruct (is_exec s); simpl in *; z_hyps; lia.
  - destruct (o_credential o && negb (is_exec s)); simpl in *; z_hyps; lia.
Qed.

(** *** Runs *)

Lemma tstep_total ts o : registry_ok ts → capacity ts → ∃ ts', tstep ts o = Some ts' ∧ registry_ok ts' ∧ capacity ts'.
Proof.
  intros H C. destruct (is_register o) eqn:R.
  - destruct o; try discriminate R. eexists. split; [reflexivity|].
    split; [by apply Register_ok|by apply Register_capacity].
  - destruct (tstep_progresses ts o H R) as (ts' & -> & H' & E & W & _).
    exists ts'. eauto using capacity_evolves.
Qed.

Lemma trun_total os ts : registry_ok ts → capacity ts → ∃ ts', trun ts os = Some ts' ∧ registry_ok ts' ∧ capacity ts'.
Proof.
  revert ts. induction os as [|o os IH]; intros ts H C; simpl; [by eauto|].
  destruct (tstep_total ts o H C) as (ts1 & -> & H1 & C1). simpl. by apply IH.
Qed.

Lemma new_ok : registry_ok NewTerminalSessions ∧ capacity NewTerminalSessions.
Proof. split; [split; intros ? ? Hx; simpl in Hx; by rewrite lookup_empty in Hx|]. repeat split; intros; vm_compute; discriminate. Qed.

Lemma reachable_ok os ts : trun NewTerminalSessions os = Some ts → registry_ok ts ∧ capacity ts.
Proof.
  intros Hr. destruct (trun_total os _ (proj1 new_ok) (proj2 new_ok)) as (ts' & E & H). congruence.
Qed.

(** A registration persists, and what it was. *)
Lemma tstep_persists ts o ts' p s : registry_ok ts → tstep ts o = Some ts' → ts_heap ts !! p = Some s →
  ∃ s', ts_heap ts' !! p = Some s' ∧ same_registration s s'.
Proof.
  intros H Ho Hp. destruct (is_register o) eqn:R.
  - destruct o; try discriminate R. injection Ho as <-. unfold Register.
    destruct (negb _); [by eauto with veyport|]. destruct (bool_decide (is_Some _)); [by eauto with veyport|].
    destruct (_ || _); [by eauto with veyport|]. simpl. destruct (proj1 H p s Hp) as [_ Hlt].
    rewrite lookup_insert_ne by lia. eauto with veyport.
  - destruct (tstep_progresses ts o H R) as (ts1 & Ho' & _ & (_ & A & B) & _).
    rewrite Ho in Ho'. injection Ho' as <-. destruct (B p s Hp) as [s' Hs']. exists s'. split; [done|].
    destruct (A p s' Hs') as (s0 & Hs0 & E). congruence.
Qed.

Lemma trun_persists os ts ts' p s : registry_ok ts → capacity ts → trun ts os = Some ts' →
  ts_heap ts !! p = Some s → ∃ s', ts_heap ts' !! p = Some s' ∧ same_registration s s'.
Proof.
  revert ts s. induction os as [|o os IH]; intros ts s H C Hr Hp; simpl in Hr; [simplify_eq; by eauto with veyport|].
  destruct (tstep_total ts o H C) as (ts1 & E1 & H1 & C1). rewrite E1 in Hr. simpl in Hr.
  destruct (tstep_persists ts o ts1 p s H E1 Hp) as (s1 & Hp1 & S1).
  destruct (IH ts1 s1 H1 C1 Hr Hp1) as (s2 & Hp2 & S2). eauto using same_registration_trans.
Qed.

(** *** Sweeps *)

Lemma endExact_current ts p s code msg : registry_ok ts → current ts p s → ∃ s',
  endExact ts p code msg true = Some (with_session ts p s', negb (t_closed s)) ∧ session_ok s' ∧
  same_registration s s' ∧ t_removedClosed s' = t_removedClosed s ∧ t_closed s' = true ∧ revoked s' = true.
Proof.
  intros H [Hk Hp]. unfold endExact. rewrite Hp, Hk, bool_decide_eq_true_2 by done. simpl.
  unfold endCaptured. rewrite Hp.
  destruct (endLocked_total s code msg true (proj1 (proj1 H p s Hp))) as (s' & -> & A & B & D & E & F).
  exists s'. eauto 10.
Qed.

(** Whether the captured registration is live. *)
Definition live_ptr (ts : TerminalSessions) (p : nat) : bool :=
  match ts_heap ts !! p with Some s => negb (t_closed s) | None => false end.

Lemma filter_bool_ext {A} (f g : A → bool) (l : list A) : (∀ x, x ∈ l → f x = g x) →
  filter (fun x => f x = true) l = filter (fun x => g x = true) l.
Proof.
  induction l as [|x l IH]; intros H; [done|]. rewrite !filter_cons, IH by set_solver.
  rewrite (H x) by set_solver. by repeat case_decide.
Qed.

Lemma endEach_spec ps ts code msg : registry_ok ts → NoDup ps → (∀ p, p ∈ ps → ∃ s, current ts p s) →
  ∃ ts', endEach ts ps code msg = Some (ts', Z.of_nat (length (filter (fun p => live_ptr ts p = true) ps))) ∧
    registry_ok ts' ∧ ts_sessions ts' = ts_sessions ts ∧
    (∀ q, q ∉ ps → ts_heap ts' !! q = ts_heap ts !! q) ∧
    (∀ p s, p ∈ ps → ts_heap ts !! p = Some s → ∃ s', ts_heap ts' !! p = Some s' ∧ same_registration s s' ∧
       t_closed s' = true ∧ revoked s' = true).
Proof.
  revert ts. induction ps as [|p ps IH]; intros ts H Hn Hc; simpl.
  { exists ts. split; [done|]. split; [done|]. split; [done|]. split; [done|]. intros p s Hp. by apply not_elem_of_nil in Hp. }
  apply NoDup_cons in Hn as [Hnp Hn]. destruct (Hc p ltac:(set_solver)) as [s Hs].
  destruct (endExact_current ts p s code msg H Hs) as (s1 & -> & A & B & D & E & F). simpl.
  pose proof (proj2 Hs) as Hp. set (ts1 := with_session ts p s1).
  assert (H1 : registry_ok ts1) by by eapply with_session_ok.
  assert (Hh : ∀ q, q ≠ p → ts_heap ts1 !! q = ts_heap ts !! q) by (intros q Hq; by apply lookup_insert_ne).
  destruct (IH ts1 H1 Hn) as (ts2 & -> & H2 & M2 & Q2 & P2).
  { intros q Hq. destruct (Hc q ltac:(set_solver)) as (t & Ht1 & Ht2). exists t. split; [done|].
    rewrite Hh; [done|]. intros ->. done. }
  simpl. exists ts2. split; [|split; [done|split; [by rewrite M2|split]]].
  - assert (Hf : filter (fun q => live_ptr ts1 q = true) ps = filter (fun q => live_ptr ts q = true) ps).
    { apply filter_bool_ext. intros q Hq. unfold live_ptr. rewrite Hh; [done|]. intros ->. done. }
    assert (Hl : live_ptr ts p = negb (t_closed s)) by (unfold live_ptr; by rewrite Hp).
    rewrite Hf, filter_cons, Hl. destruct (t_closed s); simpl; [done|].
    f_equal. f_equal. lia.
  - intros q Hq. rewrite Q2 by set_solver. apply Hh. set_solver.
  - intros q t Hq Ht. destruct (decide (q = p)) as [->|Hne].
    + rewrite Q2 by done. simpl. rewrite lookup_insert_eq. rewrite Hp in Ht. injection Ht as <-. eauto 6.
    + apply P2; [set_solver|]. by rewrite Hh.
Qed.

Lemma captured_elem ts P p : p ∈ captured ts P ↔ ∃ k s, ts_sessions ts !! k = Some p ∧ ts_heap ts !! p = Some s ∧ P s = true.
Proof.
  unfold captured. rewrite list_elem_of_omap. split.
  - intros ([k q] & Hkq & Hf). apply elem_of_map_to_list in Hkq. simpl in Hf.
    destruct (ts_heap ts !! q) as [s|] eqn:Hq; simpl in Hf; [|done]. destruct (P s) eqn:HP; [|done].
    injection Hf as ->. eauto.
  - intros (k & s & Hk & Hs & HP). exists (k, p). split; [by apply elem_of_map_to_list|].
    simpl. rewrite Hs. simpl. by rewrite HP.
Qed.

Lemma captured_current ts P p : registry_ok ts → p ∈ captured ts P → ∃ s, current ts p s.
Proof.
  intros H Hp. apply captured_elem in Hp as (k & s & Hk & Hs & _). exists s. split; [|done].
  destruct (proj2 H k p Hk) as (s' & Hs' & <- & _). congruence.
Qed.

Lemma captured_NoDup ts P : registry_ok ts → NoDup (captured ts P).
Proof.
  intros H. unfold captured.
  assert (Hl : ∀ kp, kp ∈ map_to_list (ts_sessions ts) → ∃ s, ts_heap ts !! kp.2 = Some s ∧ session_key s = kp.1).
  { intros [k q] Hkq. apply elem_of_map_to_list in Hkq. destruct (proj2 H k q Hkq) as (s & ? & ? & _). eauto. }
  pose proof (NoDup_map_to_list (ts_sessions ts)) as Hn. revert Hl Hn.
  generalize (map_to_list (ts_sessions ts)). intros l. induction l as [|[k q] l IH]; intros Hl Hn; simpl; [constructor|].
  apply NoDup_cons in Hn as [Hnk Hn]. specialize (IH ltac:(intros; apply Hl; set_solver) Hn).
  destruct (Hl (k, q) ltac:(set_solver)) as (s & Hs & Hk). simpl in *. rewrite Hs. simpl.
  destruct (P s); [|done]. apply NoDup_cons. split; [|done]. intros Hq.
  apply list_elem_of_omap in Hq as ([k' q'] & Hin & Hf). simpl in Hf.
  destruct (Hl (k', q') ltac:(set_solver)) as (s' & Hs' & Hk'). simpl in *. rewrite Hs' in Hf. simpl in Hf.
  destruct (P s'); [|done]. injection Hf as ->. assert (s' = s) as -> by congruence. congruence.
Qed.

Lemma captured_live ts P :
  Z.of_nat (length (filter (fun p => live_ptr ts p = true) (captured ts P))) = count_live ts P.
Proof.
  unfold count_live, captured. f_equal. rewrite map_filter_alt, map_size_list_to_map.
  2:{ apply NoDup_fmap_fst; [|apply NoDup_filter, NoDup_map_to_list].
      intros k p1 p2 H1 H2. apply list_elem_of_filter in H1 as [_ H1], H2 as [_ H2].
      apply elem_of_map_to_list in H1, H2. congruence. }
  generalize (map_to_list (ts_sessions ts)). intros l. induction l as [|[k q] l IH]; simpl; [done|].
  rewrite (filter_cons _ (k, q)). simpl.
  assert (Hm : live_match (ts_heap ts) P q = match ts_heap ts !! q with Some s => negb (t_closed s) && P s | None => false end) by done.
  rewrite Hm. destruct (ts_heap ts !! q) as [s|] eqn:Hq; simpl; [|exact IH].
  assert (Hl : live_ptr ts q = negb (t_closed s)) by (unfold live_ptr; by rewrite Hq).
  destruct (P s) eqn:HP; [|by rewrite andb_false_r].
  rewrite filter_cons, Hl, andb_true_r. destruct (t_closed s); simpl; [exact IH|f_equal; exact IH].
Qed.

(** A sweep ends exactly the registrations it captures. *)
Lemma sweep_spec ts P code msg : registry_ok ts → stable P → ∃ ts',
  endEach ts (captured ts P) code msg = Some (ts', count_live ts P) ∧
  ts_sessions ts' = ts_sessions ts ∧
  (∀ k p s, ts_sessions ts' !! k = Some p → ts_heap ts' !! p = Some s →
     if P s then t_closed s = true ∧ revoked s = true else ts_heap ts !! p = Some s).
Proof.
  intros H HP. destruct (endEach_spec (captured ts P) ts code msg H (captured_NoDup ts P H)) as (ts' & E & _ & M & Q & R).
  { intros p. by apply captured_current. }
  exists ts'. rewrite E, captured_live. split; [done|]. split; [done|]. intros k p s' Hk Hs'. rewrite M in Hk.
  destruct (proj2 H k p Hk) as (s & Hs & _ & _). destruct (P s) eqn:HPs.
  - destruct (R p s) as (s1 & Hs1 & S & C & V); [by apply captured_elem; eauto|done|].
    rewrite Hs' in Hs1. injection Hs1 as ->. by rewrite (HP s s1 S), HPs.
  - assert (Hn : p ∉ captured ts P).
    { intros Hp. apply captured_elem in Hp as (k' & t & _ & Ht & HPt). congruence. }
    rewrite (Q p Hn), Hs in Hs'. injection Hs' as <-. by rewrite HPs.
Qed.

Lemma stable_owned u : stable (owned_by u).
Proof. intros s s' (_ & _ & E & _). unfold owned_by. by rewrite E. Qed.
#[export] Hint Resolve stable_owned : veyport.

(** *** Maintenance *)

Definition releases (node : string) (o : top) : bool :=
  match o with
  | OpSet n _ | OpRelease n _ => bool_decide (n = node)
  | _ => false
  end.

Definition reserved (ts : TerminalSessions) (node id : string) : Prop :=
  maintenance_id ts node = id ∧ count_live ts (on_node node) = 0.

Lemma count_live_zero ts P : (∀ k p, ts_sessions ts !! k = Some p → live_match (ts_heap ts) P p = false) →
  count_live ts P = 0.
Proof.
  intros H. unfold count_live. change 0 with (Z.of_nat 0). f_equal. apply map_size_empty_iff, map_empty. intros k.
  apply map_lookup_filter_None. right. intros p Hk. simpl. by rewrite (H k p Hk).
Qed.

Lemma count_live_nonneg ts P : 0 ≤ count_live ts P.
Proof. unfold count_live. lia. Qed.

Lemma maintenance_id_insert ts node n id : node ≠ n →
  maintenance_id (with_maintenance ts (<[n := id]> (ts_maintenance ts))) node = maintenance_id ts node.
Proof. intros H. unfold maintenance_id. simpl. by rewrite lookup_insert_ne. Qed.

Lemma maintenance_id_delete ts node n : node ≠ n →
  maintenance_id (with_maintenance ts (delete n (ts_maintenance ts))) node = maintenance_id ts node.
Proof. intros H. unfold maintenance_id. simpl. by rewrite lookup_delete_ne. Qed.

Lemma maintenance_id_step ts o ts' node id : registry_ok ts → tstep ts o = Some ts' → releases node o = false →
  id ≠ "" → maintenance_id ts node = id → maintenance_id ts' node = id.
Proof.
  intros H Ho Hr Hid Hm.
  destruct (is_maintenance o) eqn:M.
  - destruct o; try discriminate M; simpl in *; injection Ho as <-.
    + unfold ReserveMaintenance. destruct (negb (bool_decide (maintenance_id ts node0 = ""))) eqn:G; [done|].
      destruct (negb (count_live _ _ =? 0)); [done|]. simpl. bool_hyps. rewrite maintenance_id_insert; [done|]. congruence.
    + bool_hyps. unfold SetMaintenance.
      destruct (bool_decide _); [rewrite maintenance_id_delete|rewrite maintenance_id_insert]; done.
    + bool_hyps. unfold ReleaseMaintenance. destruct (bool_decide _); [rewrite maintenance_id_delete|]; done.
  - destruct (is_register o) eqn:R.
    + destruct o; try discriminate R. injection Ho as <-. unfold Register.
      repeat (destruct (negb _) || destruct (bool_decide (is_Some _)) || destruct (_ || _)); done.
    + destruct (tstep_progresses ts o H R) as (ts1 & Ho' & _ & _ & _ & E). rewrite Ho in Ho'. injection Ho' as <-.
      unfold maintenance_id in *. by rewrite (E M).
Qed.

Lemma reserved_step ts o ts' node id : registry_ok ts → tstep ts o = Some ts' → releases node o = false →
  id ≠ "" → reserved ts node id → reserved ts' node id.
Proof.
  intros H Ho Hr Hid [Hm Hc]. split; [by apply (maintenance_id_step ts o)|].
  destruct (is_register o) eqn:R.
  - destruct o; try discriminate R. injection Ho as <-. unfold Register.
    destruct (negb _) eqn:G; [done|]. destruct (bool_decide (is_Some _)) eqn:K; [done|].
    destruct (_ || _); [done|]. simpl. bool_hyps. apply eq_None_not_Some in K.
    rewrite count_live_register; [|done..]. rewrite Hc. unfold on_node. simpl.
    rewrite bool_decide_eq_false_2; [done|]. intros ->. congruence.
  - destruct (tstep_progresses ts o H R) as (ts1 & Ho' & _ & E & _). rewrite Ho in Ho'. injection Ho' as <-.
    pose proof (count_live_evolves ts ts' (on_node node) (stable_on_node node) E).
    pose proof (count_live_nonneg ts' (on_node node)). lia.
Qed.

Lemma reserved_run os ts ts' node id : registry_ok ts → capacity ts → trun ts os = Some ts' →
  forallb (fun o => negb (releases node o)) os = true → id ≠ "" → reserved ts node id → reserved ts' node id.
Proof.
  revert ts. induction os as [|o os IH]; intros ts H C Hr Hf Hid Hres; simpl in *; [by simplify_eq|].
  bool_hyps. destruct (tstep_total ts o H C) as (ts1 & E1 & H1' & C1). rewrite E1 in Hr. simpl in Hr.
  apply (IH ts1); try done. by apply (reserved_step ts o).
Qed.

(** *** A concrete run *)

Definition sample_options : RegisterOptions := mkOptions TerminalKindWeb "sid-1" true None.
Definition sample_run : list top :=
  [ OpRegister "n1" "t1" "u1" "root" sample_options 0;
    OpRegister "n1" "t2" "u2" "root" sample_options 0;
    OpDeliver None "n1" "t1" "hello" Second ].
Definition run_or_new (ts : TerminalSessions) (os : list top) : TerminalSessions :=
  default ts (trun ts os).
Definition sample : TerminalSessions := run_or_new NewTerminalSessions sample_run.

(** ** Properties *)

(** C33. The registry never panics and never exceeds its budget: every sequence
    of critical sections, registrations, deliveries, ends, revocations and
    removals in any interleaving, is executed without closing or sending on a
    closed channel, and leaves at most 8 live registrations per node, 4
    executions per actor, 32 executions, 256 interactive terminals and 256
    credential watchers. *)
Theorem registry_safe (os : list top) :
  ∃ ts, trun NewTerminalSessions os = Some ts ∧ capacity ts.
Proof. destruct (trun_total os _ (proj1 new_ok) (proj2 new_ok)) as (ts & E & _ & C). eauto. Qed.

(** C23. The revocation boundary: once a registration has been revoked (a forced
    end or a removal stored its exit), it is closed, its gate lets no write
    start, and no output is queued in its channel, then and after every later
    sequence of operations, including ones that reuse its key. *)
Theorem revocation_boundary os ts p s os' ts' :
  trun NewTerminalSessions os = Some ts → ts_heap ts !! p = Some s → revoked s = true →
  trun ts os' = Some ts' →
  ∃ s', ts_heap ts' !! p = Some s' ∧ forward s' = false ∧ t_closed s' = true ∧
        forallb (fun e => negb (is_data e)) (t_ch s') = true.
Proof.
  intros Hr Hp Hv Hr'. destruct (reachable_ok os ts Hr) as [H C].
  destruct (trun_persists os' ts ts' p s H C Hr' Hp) as (s' & Hp' & E). exists s'.
  destruct (trun_total os' ts H C) as (ts1 & Hr1 & H1 & _). rewrite Hr' in Hr1. injection Hr1 as <-.
  assert (V : revoked s' = true) by (by apply E).
  destruct (proj1 (proj1 H1 p s' Hp')) as (_ & _ & _ & _ & H5). split; [done|]. split; [|by apply H5].
  unfold forward. apply bool_decide_eq_false. apply bool_decide_eq_true in V as [e V]. congruence.
Qed.

Definition sample_revoked : TerminalSessions := run_or_new sample [OpEndExact 0 1 "revoked" true].

Definition sample_reuse : list top :=
  [OpRemove 0 false; OpRegister "n1" "t1" "u1" "root" sample_options 0; OpDeliver None "n1" "t1" "again" Second].

Lemma revocation_boundary_witness : ∃ s',
  ts_heap (run_or_new sample_revoked sample_reuse) !! 0%nat = Some s' ∧
  forward s' = false ∧ t_closed s' = true ∧ forallb (fun e => negb (is_data e)) (t_ch s') = true.
Proof.
  destruct (ts_heap sample_revoked !! 0%nat) as [s|] eqn:Hs; [|vm_compute in Hs; discriminate Hs].
  apply (revocation_boundary (sample_run ++ [OpEndExact 0 1 "revoked" true]) sample_revoked 0 s sample_reuse);
    [vm_compute; reflexivity|exact Hs| |vm_compute; reflexivity].
  vm_compute in Hs. injection Hs as <-. vm_compute. reflexivity.
Defined.

(** Disabling an account is complete and exact: [EndByUser] closes and
    revokes every registration of the user that is in the registry, whether it
    was still live or already draining, reports how many were live, and leaves
    every other registration untouched. *)
Theorem EndByUser_complete os ts user code msg :
  trun NewTerminalSessions os = Some ts →
  ∃ ts', EndByUser ts user code msg = Some (ts', count_live ts (owned_by user)) ∧
    ts_sessions ts' = ts_sessions ts ∧ count_live ts' (owned_by user) = 0 ∧
    ∀ k p s, ts_sessions ts' !! k = Some p → ts_heap ts' !! p = Some s →
      if owned_by user s then t_closed s = true ∧ revoked s = true else ts_heap ts !! p = Some s.
Proof.
  intros Hr. destruct (reachable_ok os ts Hr) as [H _].
  destruct (sweep_spec ts (owned_by user) code msg H (stable_owned user)) as (ts' & E & M & Q).
  exists ts'. split; [done|]. split; [done|]. split; [|done].
  apply count_live_zero. intros k p Hk. unfold live_match. destruct (ts_heap ts' !! p) as [s|] eqn:Hp; [|done].
  specialize (Q k p s Hk Hp). destruct (owned_by user s); [|by rewrite andb_false_r].
  destruct Q as [-> _]. done.
Qed.

Lemma EndByUser_complete_witness : ∃ ts', EndByUser sample "u1" 1 "account disabled" = Some (ts', 1) ∧
  count_live ts' (owned_by "u1") = 0 ∧ ts_heap ts' !! 1%nat = ts_heap sample !! 1%nat.
Proof.
  destruct (EndByUser_complete sample_run sample "u1" 1 "account disabled" ltac:(vm_compute; reflexivity))
    as (ts' & E & M & Z & Q).
  exists ts'. split; [rewrite E; vm_compute; reflexivity|]. split; [exact Z|].
  vm_compute in E. injection E as <-. vm_compute. reflexivity.
Defined.

(** Maintenance exclusivity: from a successful reservation of a node until
    an operation clears that node's reservation, the node stays idle under the
    same id and every registration on it is refused, whatever else runs. *)
Theorem terminal_maintenance_exclusive os ts node id ts1 os' ts' sid user eu o now :
  trun NewTerminalSessions os = Some ts → id ≠ "" →
  ReserveMaintenance ts node id = (ts1, Ok tt) →
  forallb (fun op => negb (releases node op)) os' = true → trun ts1 os' = Some ts' →
  MaintenanceIdle ts' node id = true ∧ Register ts' node sid user eu o now = (ts', false).
Proof.
  intros Hr Hid Hres Hf Hr'. destruct (reachable_ok os ts Hr) as [H C].
  destruct (tstep_total ts (OpReserve node id) H C) as (ts2 & E2 & H2 & C2).
  simpl in E2. rewrite Hres in E2. injection E2 as <-.
  assert (R1 : reserved ts1 node id).
  { unfold ReserveMaintenance in Hres. guards_in Hres. bool_hyps. z_hyps. split; [|done].
    unfold maintenance_id. simpl. by rewrite lookup_insert_eq. }
  destruct (reserved_run os' ts1 ts' node id H2 C2 Hr' Hf Hid R1) as [Hm Hc].
  unfold MaintenanceIdle, Register. rewrite Hm, Hc, bool_decide_eq_true_2, bool_decide_eq_false_2 by done. done.
Qed.

Lemma terminal_maintenance_exclusive_witness :
  let ts := run_or_new sample [OpReserve "n2" "upd-1"; OpEndExact 0 1 "end" true] in
  MaintenanceIdle ts "n2" "upd-1" = true ∧
  Register ts "n2" "t9" "u1" "root" sample_options 0 = (ts, false).
Proof.
  intros ts. eapply (terminal_maintenance_exclusive sample_run sample "n2" "upd-1"
    (ReserveMaintenance sample "n2" "upd-1").1 [OpEndExact 0 1 "end" true]);
    [vm_compute; reflexivity|discriminate|vm_compute; reflexivity|vm_compute; reflexivity|vm_compute; reflexivity].
Defined.

