(* ===== verification/FileBrowser.v ===== *)
(** The agent's file browser (agent/internal/filebrowser/filebrowser.go): path
    checks against the blocklist before and after symbolic links are resolved,
    directory listings and bounded reads.  What the file system answers is a
    record [FS]. *)

From stdpp Require Import sorting.
From S2P Require Import Prelude Filepath Order.

Definition MaxReadSize : Z := 1048576.
Definition errCannotReadFile : string := "cannot read file".
Definition errPathRestricted : string := "access to this path is restricted".

Definition blockedPaths : list string :=
  ["/etc/shadow"; "/etc/gshadow"; "/etc/sudoers"; "/etc/sudoers.d"; "/etc/veyport"; "/root/.ssh";
   "/proc/self"; "/proc/kcore"; "/sys/firmware"].

Definition blockedPrefixes : list string := ["/proc/"; "/sys/kernel/"].

(** ** What the code asks the operating system *)

(** [Info] of a directory entry: its mode bits of interest and its size. *)
Record EntryInfo := mkEntryInfo { en_regular : bool; en_dir : bool; en_size : Z }.

(** A directory entry; [None] when its [Info] fails. *)
Record DirEntry := mkDirEntry { de_name : string; de_isDir : bool; de_info : option EntryInfo }.

(** An opened file: the answer of [Stat], whether seeking and reading succeed,
    and the bytes it holds. *)
Record OpenFile := mkOpenFile {
  of_stat : option (bool * Z);      (* directory, size *)
  of_seek : bool; of_read : bool; of_content : string;
}.

Record FS := mkFS {
  fs_eval : string → option string;              (* filepath.EvalSymlinks *)
  fs_readDir : string → option (list DirEntry);
  fs_access : string → bool;                     (* readable by the agent *)
  fs_open : string → option OpenFile;
  fs_isRoot : bool;
}.

(** ** Paths *)

(** [strings.Contains] *)
Fixpoint Contains (s sub : string) : bool :=
  HasPrefix s sub || match s with EmptyString => false | String _ s' => Contains s' sub end.

(** [validatePath]; [None] is acceptance, otherwise the error text. *)
Definition validatePath (path : string) : option string :=
  if Contains path ".." then Some "path traversal not allowed"
  else
    let cleaned := Clean path in
    if negb (IsAbs cleaned) then Some "path must be absolute"
    else if existsb (fun blocked => bool_decide (cleaned = blocked) || HasPrefix cleaned (blocked +:+ "/")) blockedPaths
    then Some errPathRestricted
    else if existsb (fun prefix => HasPrefix cleaned prefix) blockedPrefixes then Some errPathRestricted
    else None.

(** The resolved path, or the error text. *)
Definition resolveAndValidateSymlink (fs : FS) (path : string) : string + string :=
  match fs_eval fs path with
  | None => inr "cannot access path"
  | Some resolved =>
      match validatePath resolved with
      | Some _ => inr errPathRestricted
      | None =>
          let cleanPath := Clean path in
          if negb (bool_decide (resolved = cleanPath)) && negb (HasPrefix resolved (cleanPath +:+ "/"))
          then inr "path resolves outside requested directory"
          else inl resolved
      end
  end.

(** ** Listing *)

Record FileNode := mkNode { n_Name : string; n_Path : string; n_IsDir : bool; n_Size : Z; n_Readable : bool }.

Definition buildFileNode (fs : FS) (e : DirEntry) (basePath resolvedPath : string) : option FileNode :=
  match de_info e with
  | None => None
  | Some info =>
      if negb (en_regular info) && negb (en_dir info) then None
      else Some (mkNode (de_name e) (Join [basePath; de_name e]) (de_isDir e) (en_size info)
                   (fs_isRoot fs || fs_access fs (Join [resolvedPath; de_name e])))
  end.

(** Names in Go's string order. *)
Definition name_le (x y : FileNode) : Prop := strings_Compare (bytes (n_Name x)) (bytes (n_Name y)) ≤ 0.

#[export] Instance name_le_dec : RelDecision name_le.
Proof. intros x y. unfold name_le. apply _. Defined.

(** The nodes of the entries that are not skipped. *)
Definition build_nodes (fs : FS) (path resolved : string) (entries : list DirEntry) : list FileNode :=
  omap (fun e => buildFileNode fs e path resolved) entries.

Definition ListDir (fs : FS) (path : string) : list FileNode + string :=
  match validatePath path with
  | Some err => inr err
  | None =>
      match resolveAndValidateSymlink fs path with
      | inr err => inr err
      | inl resolved =>
          match fs_readDir fs resolved with
          | None => inr "cannot read directory"
          | Some entries =>
              let nodes := build_nodes fs path resolved entries in
              let dirs := filter (fun n => n_IsDir n = true) nodes in
              let files := filter (fun n => n_IsDir n = false) nodes in
              inl (merge_sort name_le dirs ++ merge_sort name_le files)
          end
      end
  end.

(** ** Reading *)

Definition clampLimit (limit : Z) : Z := if (limit <=? 0) || (MaxReadSize <? limit) then MaxReadSize else limit.

Definition computeTailOffset (offset limit totalSize : Z) : Z :=
  if 0 <=? offset then offset else if limit <? totalSize then totalSize - limit else 0.

(** [io.ReadFull] from [offset]: at most [limit] bytes, fewer at the end. *)
Definition readFileData (f : OpenFile) (offset limit : Z) : string + string :=
  if of_read f then inl (String.substring (Z.to_nat offset) (Z.to_nat limit) (of_content f))
  else inr errCannotReadFile.

(** [filepath.Ext] of a name: from its last dot on. *)
Fixpoint Ext_from (s : list Z) (found : list Z) : list Z :=
  match s with
  | [] => found
  | b :: t => if b =? 47 then Ext_from t [] else if b =? 46 then Ext_from t s else Ext_from t found
  end.

(** [strings.ToLower] as far as it can give an ASCII letter: the ASCII upper case
    letters, the Kelvin sign and the capital I with dot. *)
Definition lower_rune (r : Z) : Z :=
  if between 65 90 r then r + 32 else if r =? 8490 then 107 else if r =? 304 then 105 else r.

Definition Ext_lower (filename : string) : list Z :=
  lower_rune <$> (fst <$> runes_sized (Ext_from (bytes filename) [])).

Definition detectMIME (filename : string) : string :=
  let ext := Ext_lower filename in
  let one_of (l : list string) := existsb (fun e => bool_decide (ext = bytes e)) l in
  if one_of [".txt"; ".conf"; ".cfg"; ".ini"; ".log"; ".env"] then "text/plain"
  else if one_of [".json"] then "application/json"
  else if one_of [".md"; ".markdown"] then "text/markdown"
  else if one_of [".yaml"; ".yml"] then "text/yaml"
  else if one_of [".xml"] then "text/xml"
  else if one_of [".html"; ".htm"] then "text/html"
  else if one_of [".css"] then "text/css"
  else if one_of [".js"] then "text/javascript"
  else if one_of [".go"] then "text/x-go"
  else if one_of [".py"] then "text/x-python"
  else if one_of [".rs"] then "text/x-rust"
  else if one_of [".sh"; ".bash"] then "text/x-sh"
  else if one_of [".toml"] then "text/x-toml"
  else if one_of [".sql"] then "text/x-sql"
  else "application/octet-stream".

Record FileReadResponse := mkRead { fr_Data : string; fr_TotalSize : Z; fr_MimeType : string }.

Definition ReadFile (fs : FS) (path : string) (offset limit : Z) : FileReadResponse + string :=
  match validatePath path with
  | Some err => inr err
  | None =>
      let limit := clampLimit limit in
      match resolveAndValidateSymlink fs path with
      | inr err => inr err
      | inl resolved =>
          match fs_open fs resolved with
          | None => inr errCannotReadFile
          | Some f =>
              match of_stat f with
              | None => inr errCannotReadFile
              | Some (isDir, totalSize) =>
                  if isDir : bool then inr "path is a directory"
                  else
                    let offset := computeTailOffset offset limit totalSize in
                    if (0 <? offset) && negb (of_seek f) then inr errCannotReadFile
                    else
                      match readFileData f offset limit with
                      | inr err => inr err
                      | inl result => inl (mkRead result totalSize (detectMIME (Base path)))
                      end
              end
          end
      end
  end.

(** ** Specification *)

(** A clean path the browser must never expose. *)
Definition restricted (cleaned : string) : Prop :=
  (∃ b, b ∈ blockedPaths ∧ (cleaned = b ∨ ∃ r, cleaned = b +:+ "/" +:+ r)) ∨
  (∃ p, p ∈ blockedPrefixes ∧ ∃ r, cleaned = p +:+ r).

(** A path the browser may act on for a request of [path]: absolute, free of
    parent references, not restricted, and [path] itself or something below. *)
Definition confined (path resolved : string) : Prop :=
  Contains resolved ".." = false ∧ IsAbs (Clean resolved) = true ∧ ¬ restricted (Clean resolved) ∧
  (resolved = Clean path ∨ ∃ r, resolved = Clean path +:+ "/" +:+ r).

Lemma string_app_assoc' a b c : (a +:+ b) +:+ c = a +:+ (b +:+ c).
Proof. induction a as [|x a IH]; [done|]. change (String x ((a +:+ b) +:+ c) = String x (a +:+ (b +:+ c))). by rewrite IH. Qed.

Lemma HasPrefix_slash s p : HasPrefix s (p +:+ "/") = true ↔ ∃ r, s = p +:+ "/" +:+ r.
Proof. rewrite HasPrefix_app. split; intros [r ->]; exists r; by rewrite string_app_assoc'. Qed.

Lemma validatePath_sound path : validatePath path = None →
  Contains path ".." = false ∧ IsAbs (Clean path) = true ∧ ¬ restricted (Clean path).
Proof.
  unfold validatePath. intros H. destruct (Contains path ".."); [done|]. destruct (IsAbs (Clean path)) eqn:A; [|done].
  cbn [negb] in H. destruct (existsb _ blockedPaths) eqn:E1; [done|]. destruct (existsb _ blockedPrefixes) eqn:E2; [done|].
  split; [done|]. split; [done|]. intros [(b & Hb & Hc)|(p & Hp & Hc)].
  - rewrite <- not_true_iff_false in E1. apply E1, existsb_exists. exists b. split; [by apply list_elem_of_In|].
    apply orb_true_iff. destruct Hc as [->|Hc]; [left; by apply bool_decide_eq_true_2|right; by apply HasPrefix_slash].
  - rewrite <- not_true_iff_false in E2. apply E2, existsb_exists. exists p. split; [by apply list_elem_of_In|].
    by apply HasPrefix_app.
Qed.

Lemma resolve_confined fs path resolved :
  resolveAndValidateSymlink fs path = inl resolved → fs_eval fs path = Some resolved ∧ confined path resolved.
Proof.
  unfold resolveAndValidateSymlink. intros H. destruct (fs_eval fs path) as [r|]; [|done].
  destruct (validatePath r) eqn:V; [done|]. destruct (negb _ && negb _) eqn:G; [done|]. injection H as <-.
  destruct (validatePath_sound r V) as (H1 & H2 & H3). repeat split; try done.
  apply andb_false_iff in G as [G|G]; bool_hyps; [by left|right; by apply HasPrefix_slash].
Qed.

(** *** Substrings *)

Lemma substring_spec n m s : ∃ pre post, s = pre +:+ String.substring n m s +:+ post ∧
  len (String.substring n m s) = Z.max 0 (Z.min (Z.of_nat m) (len s - Z.of_nat n)) ∧
  (Z.of_nat n ≤ len s → len pre = Z.of_nat n).
Proof.
  revert n m. induction s as [|c s IH]; intros n m.
  - exists "", "". assert (String.substring n m "" = "") as -> by (by destruct n, m). split; [done|]. unfold len. simpl. lia.
  - destruct n as [|n].
    + destruct m as [|m].
      * exists "", (String c s). split; [done|]. unfold len. simpl. lia.
      * destruct (IH 0%nat m) as (pre & post & E & L & P).
        assert (pre = "") as ->. { specialize (P (len_nonneg s)). destruct pre; [done|]. unfold len in P. simpl in P. lia. }
        exists "", post. simpl String.substring. split; [change (String c s = String c (String.substring 0 m s +:+ post)); f_equal; exact E|].
        unfold len in *. simpl String.length. lia.
    + destruct (IH n m) as (pre & post & E & L & P). exists (String c pre), post. simpl String.substring.
      split; [change (String c s = String c (pre +:+ String.substring n m s +:+ post)); f_equal; exact E|].
      unfold len in *. simpl String.length. lia.
Qed.

Lemma app_nil_inv s : len s = 0 → s = "".
Proof. destruct s; [done|]. unfold len. simpl. lia. Qed.

Lemma app_empty s : s +:+ "" = s.
Proof. induction s as [|c s IH]; [done|]. change (String c (s +:+ "") = String c s). by rewrite IH. Qed.

(** *** Name order *)

#[export] Instance name_le_total : Total name_le.
Proof. intros x y. unfold name_le. rewrite (cmp_swap (f := strings_Compare) (bytes (n_Name x)) (bytes (n_Name y))). lia. Qed.

#[export] Instance name_le_trans : Transitive name_le.
Proof. intros x y z. unfold name_le. apply (cmp_le_trans (f := strings_Compare)). Qed.

(** Splitting a list by a test loses nothing. *)
Lemma split_by_perm {A} (f : A → bool) (l : list A) :
  filter (fun x => f x = true) l ++ filter (fun x => f x = false) l ≡ₚ l.
Proof.
  induction l as [|x l IH]; [done|]. rewrite !filter_cons. destruct (f x); simpl.
  - by constructor.
  - rewrite <- Permutation_middle. by constructor.
Qed.

Lemma sorted_filter_all (P : FileNode → Prop) `{∀ n, Decision (P n)} l : Forall P (merge_sort name_le (filter P l)).
Proof. rewrite merge_sort_Permutation. apply Forall_forall. intros n Hn. by apply list_elem_of_filter in Hn as [? _]. Qed.

Lemma clampLimit_range limit : 1 ≤ clampLimit limit ≤ MaxReadSize.
Proof. unfold clampLimit, MaxReadSize. destruct (_ || _) eqn:E; [lia|]. bool_hyps. z_hyps. lia. Qed.

Lemma computeTailOffset_spec offset limit size :
  computeTailOffset offset limit size = if 0 <=? offset then offset else Z.max 0 (size - limit).
Proof. unfold computeTailOffset. destruct (0 <=? offset); [done|]. destruct (Z.ltb_spec limit size); lia. Qed.

Lemma ListDir_inv fs path nodes : ListDir fs path = inl nodes → ∃ resolved entries,
  fs_eval fs path = Some resolved ∧ confined path resolved ∧ fs_readDir fs resolved = Some entries ∧
  nodes = merge_sort name_le (filter (fun n => n_IsDir n = true) (build_nodes fs path resolved entries)) ++
          merge_sort name_le (filter (fun n => n_IsDir n = false) (build_nodes fs path resolved entries)).
Proof.
  unfold ListDir. intros H. destruct (validatePath path); [done|].
  destruct (resolveAndValidateSymlink fs path) as [resolved|] eqn:R; [|done].
  destruct (fs_readDir fs resolved) as [entries|] eqn:D; [|done]. injection H as <-.
  destruct (resolve_confined fs path resolved R) as [E C]. eauto 10.
Qed.

Lemma ReadFile_inv fs path offset limit r : ReadFile fs path offset limit = inl r → ∃ resolved f size,
  fs_eval fs path = Some resolved ∧ confined path resolved ∧ fs_open fs resolved = Some f ∧
  of_stat f = Some (false, size) ∧ fr_TotalSize r = size ∧
  fr_Data r = String.substring (Z.to_nat (computeTailOffset offset (clampLimit limit) size))
                (Z.to_nat (clampLimit limit)) (of_content f).
Proof.
  unfold ReadFile. intros H. destruct (validatePath path); [done|].
  destruct (resolveAndValidateSymlink fs path) as [resolved|] eqn:R; [|done].
  destruct (fs_open fs resolved) as [f|] eqn:O; [|done]. destruct (of_stat f) as [[isDir size]|] eqn:S; [|done].
  destruct isDir; [done|]. destruct (_ && _); [done|]. unfold readFileData in H.
  destruct (of_read f); [|done]. injection H as <-. destruct (resolve_confined fs path resolved R) as [E C].
  exists resolved, f, size. done.
Qed.

(** A browser on a small tree. *)
Definition sample_fs : FS :=
  mkFS (fun p => Some p)
       (fun p => if bool_decide (p = "/srv") then
                   Some [mkDirEntry "b.txt" false (Some (mkEntryInfo true false 5));
                         mkDirEntry "z" true (Some (mkEntryInfo false true 0));
                         mkDirEntry "fifo" false (Some (mkEntryInfo false false 0));
                         mkDirEntry "a.txt" false (Some (mkEntryInfo true false 3))]
                 else None)
       (fun _ => true)
       (fun p => if bool_decide (p = "/srv/b.txt") then Some (mkOpenFile (Some (false, 5)) true true "hello") else None)
       false.

(** ** Properties *)

(** A listing shows what it should and nothing else: a directory that is
    listed is the requested one or one below it after symbolic links, absolute,
    without parent references and not restricted; the answer is, up to order, one
    node for each entry that is a regular file or a directory, with the
    directories before the files and each group in name order. *)
Theorem listing_exact fs path nodes : ListDir fs path = inl nodes → ∃ resolved entries dirs files,
  fs_eval fs path = Some resolved ∧ confined path resolved ∧ fs_readDir fs resolved = Some entries ∧
  nodes = dirs ++ files ∧ nodes ≡ₚ build_nodes fs path resolved entries ∧
  Forall (fun n => n_IsDir n = true) dirs ∧ Forall (fun n => n_IsDir n = false) files ∧
  Sorted name_le dirs ∧ Sorted name_le files.
Proof.
  intros H. destruct (ListDir_inv fs path nodes H) as (resolved & entries & E & C & D & ->).
  eexists resolved, entries, _, _. split; [done|]. split; [done|]. split; [done|]. split; [reflexivity|].
  split; [rewrite !merge_sort_Permutation; apply (split_by_perm n_IsDir)|].
  split; [apply sorted_filter_all|].
  split; [apply sorted_filter_all|].
  split; apply Sorted_merge_sort; apply _.
Qed.

(** A read is bounded and exact: the file that is read is the requested one
    or one below it after symbolic links and never a restricted one; the answer
    holds at most one mebibyte and is exactly the requested slice of the file
    (fewer bytes only at its end); and a tail read of a file of the reported
    size is its last bytes, as many as the limit allows. *)
Theorem read_exact fs path offset limit r : ReadFile fs path offset limit = inl r → ∃ resolved f,
  fs_eval fs path = Some resolved ∧ confined path resolved ∧ fs_open fs resolved = Some f ∧
  len (fr_Data r) ≤ MaxReadSize ∧
  (0 ≤ offset → ∃ pre post, of_content f = pre +:+ fr_Data r +:+ post ∧
     (offset ≤ len (of_content f) → len pre = offset) ∧
     len (fr_Data r) = Z.max 0 (Z.min (clampLimit limit) (len (of_content f) - offset))) ∧
  (offset < 0 → fr_TotalSize r = len (of_content f) →
     ∃ pre, of_content f = pre +:+ fr_Data r ∧ len (fr_Data r) = Z.min (clampLimit limit) (len (of_content f))).
Proof.
  intros H. destruct (ReadFile_inv fs path offset limit r H) as (resolved & f & size & E & C & O & S & T & D).
  exists resolved, f. split; [done|]. split; [done|]. split; [done|].
  pose proof (clampLimit_range limit) as Hl. pose proof (len_nonneg (of_content f)) as Hn.
  pose proof (computeTailOffset_spec offset (clampLimit limit) size) as Hoff.
  set (off := computeTailOffset offset (clampLimit limit) size) in *. clearbody off.
  destruct (substring_spec (Z.to_nat off) (Z.to_nat (clampLimit limit)) (of_content f)) as (pre & post & Es & L & P).
  rewrite <- D in Es, L. rewrite (Z2Nat.id (clampLimit limit)) in L by lia.
  split; [rewrite L; lia|]. split.
  - intros H0. rewrite (proj2 (Z.leb_le 0 offset) H0) in Hoff. rewrite Z2Nat.id in L, P by lia. exists pre, post. split; [done|].
    assert (off = offset) as -> by lia. done.
  - intros H0 Hs. rewrite (proj2 (Z.leb_gt 0 offset) H0) in Hoff. rewrite Z2Nat.id in L, P by lia. exists pre. assert (post = "") as ->.
    { apply app_nil_inv. pose proof (f_equal len Es) as Hlen. rewrite !len_app in Hlen. specialize (P ltac:(lia)).
      pose proof (len_nonneg post). lia. }
    rewrite app_empty in Es. split; [done|]. lia.
Qed.

Lemma listing_exact_witness : ∃ nodes, ListDir sample_fs "/srv" = inl nodes ∧
  n_Name <$> nodes = ["z"; "a.txt"; "b.txt"] ∧ ∃ resolved, confined "/srv" resolved.
Proof.
  destruct (ListDir sample_fs "/srv") as [nodes|e] eqn:E; [|vm_compute in E; discriminate E].
  exists nodes. split; [reflexivity|]. split; [vm_compute in E; injection E as <-; reflexivity|].
  destruct (listing_exact sample_fs "/srv" nodes E) as (resolved & _ & _ & _ & _ & C & _). exists resolved. exact C.
Defined.

Lemma read_exact_witness : ∃ r pre, ReadFile sample_fs "/srv/b.txt" (-1) 3 = inl r ∧ fr_Data r = "llo" ∧
  "hello" = pre +:+ fr_Data r.
Proof.
  destruct (ReadFile sample_fs "/srv/b.txt" (-1) 3) as [r|e] eqn:E; [|vm_compute in E; discriminate E].
  destruct (read_exact sample_fs "/srv/b.txt" (-1) 3 r E) as (resolved & f & Ev & _ & O & _ & _ & T).
  vm_compute in E. injection E as <-. injection Ev as <-. vm_compute in O. injection O as <-.
  destruct T as (pre & Hp & _); [lia|reflexivity|]. exists (mkRead "llo" 5 "text/plain"), pre.
  split; [reflexivity|]. split; [reflexivity|exact Hp].
Defined.
