(* ===== verification/Version.v ===== *)
(** Release versions and their order (proto/updateutil/version.go).  The two
    regular expressions are matched by the deterministic matchers below: every
    repetition is over a class that excludes the character that follows it, so
    the longest match is the only one.  Version texts are byte sequences. *)

From S2P Require Import Prelude Order.

(** ** Matching *)

Definition is_alnum (b : Z) : bool := between 48 57 b || between 65 90 b || between 97 122 b.
Definition is_ident (b : Z) : bool := is_alnum b || (b =? 46) || (b =? 45).   (* . and - *)
Definition is_hex (b : Z) : bool := between 48 57 b || between 97 102 b.

(** The longest prefix in a class, and the rest. *)
Fixpoint take_class (cls : Z → bool) (l : list Z) : list Z * list Z :=
  match l with
  | b :: t => if cls b then let '(m, r) := take_class cls t in (b :: m, r) else ([], l)
  | [] => ([], [])
  end.

Fixpoint strip (p l : list Z) : option (list Z) :=
  match p, l with
  | [], _ => Some l
  | a :: p', b :: l' => if a =? b then strip p' l' else None
  | _ :: _, [] => None
  end.

Fixpoint contains (sub l : list Z) : bool :=
  match strip sub l with
  | Some _ => true
  | None => match l with [] => false | _ :: t => contains sub t end
  end.

(** [0|[1-9][0-9]*] *)
Definition number (l : list Z) : option (list Z * list Z) :=
  let '(d, r) := take_class is_digit l in
  match d with
  | [] => None
  | [_] => Some (d, r)
  | b :: _ => if b =? 48 then None else Some (d, r)
  end.

(** [v?N\.N\.N], with the three groups and the matched text. *)
Definition match_core (l : list Z) : option (list (list Z) * list Z) :=
  let l := match strip [118] l with Some r => r | None => l end in
  '(a, r) ← number l; r ← strip [46] r;
  '(b, r) ← number r; r ← strip [46] r;
  '(c, r) ← number r; Some ([a; b; c], r).

(** An optional group: a separator and a non-empty run of identifier bytes. *)
Definition opt_group (sep : Z) (l : list Z) : option (list Z * list Z) :=
  match strip [sep] l with
  | None => Some ([], l)
  | Some r => let '(g, r') := take_class is_ident r in
              match g with [] => None | _ => Some (g, r') end
  end.

(** [semanticVersion]: the core groups, the prerelease and the build group. *)
Definition semanticVersion (raw : list Z) : option (list (list Z) * list Z * list Z) :=
  '(core, r) ← match_core raw;
  '(pre, r) ← opt_group 45 r;
  '(build, r) ← opt_group 43 r;
  match r with [] => Some (core, pre, build) | _ => None end.

Definition staging : list Z := bytes "-staging".

(** [historicalVersion]: the core groups of the base and the commit count. *)
Definition historicalVersion (raw : list Z) : option (list (list Z) * list Z) :=
  '(core, r) ← match_core raw;
  r ← strip [45] r;
  let '(n, r) := take_class is_digit r in
  match n with
  | [] => None
  | b :: _ =>
      if b =? 48 then None
      else
        r ← strip [45; 103] r;
        let '(h, r) := take_class is_hex r in
        if (zlen h <? 7) || (64 <? zlen h) then None
        else if bool_decide (r = staging) then Some (core, n) else None
  end.

(** ** Parsing *)

Record parsedVersion := mkVersion { v_core : list Z; v_pre : list (list Z); v_ahead : Z }.

(** [strconv.ParseUint(s, 10, 64)] *)
Definition ParseUint64 (l : list Z) : option Z :=
  match l with
  | [] => None
  | _ => v ← digits_value 0 l; if v <? 2 ^ 64 then Some v else None
  end.

Definition isNumeric (s : list Z) : bool := forallb is_digit s && negb (bool_decide (s = [])).

(** [strings.Split(s, ".")] *)
Fixpoint split_dots (l : list Z) : list (list Z) :=
  match l with
  | [] => [[]]
  | b :: t =>
      if b =? 46 then [] :: split_dots t
      else match split_dots t with
           | id :: ids => (b :: id) :: ids
           | [] => [[b]]
           end
  end.

Definition leading_zero (id : list Z) : bool :=
  isNumeric id && (1 <? zlen id) && bool_decide (head id = Some 48).

Definition versionIdentifiers (group : list Z) (prerelease : bool) : option (list (list Z)) :=
  match group with
  | [] => Some []
  | _ =>
      let ids := split_dots group in
      if existsb (fun id => bool_decide (id = []) || (prerelease && leading_zero id)) ids then None else Some ids
  end.

(** The branch of [parseVersion] for a semantic version. *)
Definition parse_semantic (core : list (list Z)) (pre build : list Z) : option parsedVersion :=
  nums ← mapM ParseUint64 core;
  ids ← versionIdentifiers pre true;
  _ ← versionIdentifiers build false;
  Some (mkVersion nums ids 0).

Definition dirty : list Z := bytes "dirty".

(** The recursive call on the base of a historical version parses a text that is
    its three core numbers and nothing else: no prerelease and no build group. *)
Definition parseVersion (raw : string) : option parsedVersion :=
  let l := bytes raw in
  if (128 <? len raw) || contains dirty l then None
  else
    match historicalVersion l with
    | Some (core, n) =>
        base ← parse_semantic core [] [];
        ahead ← ParseUint64 n;
        Some (mkVersion (v_core base) (v_pre base) ahead)
    | None =>
        '(core, pre, build) ← semanticVersion l;
        parse_semantic core pre build
    end.

Definition ValidateVersion (version : string) : bool := bool_decide (is_Some (parseVersion version)).

(** ** The order *)

Definition compareIdentifier (p q : list Z) : Z :=
  let pn := isNumeric p in
  let qn := isNumeric q in
  if pn && qn && negb (zlen p =? zlen q) then Compare (zlen p) (zlen q)
  else if negb (eqb pn qn) then (if pn then -1 else 1)
  else strings_Compare p q.

(** The loop over the common positions; [n] and [m] are the full lengths. *)
Fixpoint compare_from (x y : list (list Z)) (n m : Z) : Z :=
  match x, y with
  | p :: x', q :: y' =>
      let order := compareIdentifier p q in
      if negb (order =? 0) then order else compare_from x' y' n m
  | _, _ => Compare n m
  end.

Definition comparePrerelease (x y : list (list Z)) : Z :=
  if (zlen x =? 0) || (zlen y =? 0) then Compare (zlen y) (zlen x)
  else compare_from x y (zlen x) (zlen y).

(** The loop over the core numbers. *)
Fixpoint compare_core (x y : list Z) (rest : Z) : Z :=
  match x, y with
  | a :: x', b :: y' => let order := Compare a b in
                        if negb (order =? 0) then order else compare_core x' y' rest
  | _, _ => rest
  end.

Definition compare_parsed (x y : parsedVersion) : Z :=
  compare_core (v_core x) (v_core y)
    (if negb (v_ahead x =? 0) || negb (v_ahead y =? 0) then Compare (v_ahead x) (v_ahead y)
     else comparePrerelease (v_pre x) (v_pre y)).

Definition CompareVersions (a b : string) : option Z :=
  x ← parseVersion a; y ← parseVersion b; Some (compare_parsed x y).

(** ** The order of versions *)

Definition ident_key (p : list Z) : Z * Z * list Z :=
  (if isNumeric p then (0, zlen p) else (1, 0), p).

Lemma zlen_ne {A} (p q : list A) : zlen p ≠ zlen q → p ≠ q.
Proof. by intros H ->. Qed.

Lemma compareIdentifier_key p q :
  compareIdentifier p q = prod_cmp (prod_cmp Compare Compare) strings_Compare (ident_key p) (ident_key q).
Proof.
  unfold compareIdentifier, prod_cmp, ident_key, lex.
  destruct (isNumeric p) eqn:Ep, (isNumeric q) eqn:Eq; simpl; try done.
  destruct (Z.eqb_spec (zlen p) (zlen q)) as [->|Hne]; simpl.
  - unfold Compare at 1. rewrite Z.ltb_irrefl. done.
  - unfold Compare at 2 3. destruct (Z.ltb_spec (zlen p) (zlen q)), (Z.ltb_spec (zlen q) (zlen p)); simpl; try lia; unfold Compare.
    + by rewrite (proj2 (Z.ltb_lt _ _)) by lia.
    + rewrite (proj2 (Z.ltb_ge _ _)), (proj2 (Z.ltb_lt _ _)) by lia. done.
Qed.

#[export] Instance ident_key_inj : Inj (=) (=) ident_key.
Proof. unfold ident_key. intros p q H. by injection H. Qed.

#[export] Instance compareIdentifier_order : CmpOrder compareIdentifier.
Proof. eapply CmpOrder_ext; [exact compareIdentifier_key|]. apply pullback_order; apply _. Qed.

Lemma compare_from_list x y n m : n - zlen x = m - zlen y →
  compare_from x y n m = list_cmp compareIdentifier x y.
Proof.
  revert y. induction x as [|p x IH]; intros [|q y] H; unfold zlen in *; simpl in *.
  - unfold Compare. destruct (Z.ltb_spec n m), (Z.ltb_spec m n); lia.
  - unfold Compare. destruct (Z.ltb_spec n m); lia.
  - unfold Compare. destruct (Z.ltb_spec n m), (Z.ltb_spec m n); lia.
  - unfold lex. destruct (negb _); [done|]. apply IH. lia.
Qed.

Definition pre_key (x : list (list Z)) : Z * list (list Z) := (match x with [] => 1 | _ => 0 end, x).

Lemma comparePrerelease_key x y :
  comparePrerelease x y = prod_cmp Compare (list_cmp compareIdentifier) (pre_key x) (pre_key y).
Proof.
  unfold comparePrerelease, prod_cmp, pre_key. destruct x as [|p x], y as [|q y]; try done.
  replace ((zlen (p :: x) =? 0) || (zlen (q :: y) =? 0)) with false.
  - rewrite compare_from_list by lia. done.
  - done.
Qed.

#[export] Instance pre_key_inj : Inj (=) (=) pre_key.
Proof. unfold pre_key. intros x y H. by injection H. Qed.

#[export] Instance comparePrerelease_order : CmpOrder comparePrerelease.
Proof. eapply CmpOrder_ext; [exact comparePrerelease_key|]. apply pullback_order; apply _. Qed.

(** What every parsed version satisfies. *)
Definition version_ok (v : parsedVersion) : Prop :=
  length (v_core v) = 3%nat ∧ 0 ≤ v_ahead v ∧ (v_ahead v ≠ 0 → v_pre v = []).

Definition version_key (v : parsedVersion) : list Z * Z * list (list Z) := (v_core v, v_ahead v, v_pre v).
Definition key_cmp := prod_cmp (prod_cmp (list_cmp Compare) Compare) comparePrerelease.

Lemma compare_core_lex x y rest : length x = length y →
  compare_core x y rest = lex (list_cmp Compare x y) rest.
Proof.
  revert y. induction x as [|a x IH]; intros [|b y] H; try discriminate H; [done|]. simpl.
  unfold lex at 1. destruct (Z.eqb_spec (Compare a b) 0) as [E|E]; simpl.
  - rewrite E. simpl. unfold lex at 2. simpl. apply IH. by injection H.
  - unfold lex. destruct (Z.eqb_spec (Compare a b) 0); [done|]. simpl. destruct (Z.eqb_spec (Compare a b) 0); done.
Qed.

Lemma compare_parsed_key x y : version_ok x → version_ok y →
  compare_parsed x y = key_cmp (version_key x) (version_key y).
Proof.
  intros (Hx & _ & Px) (Hy & _ & Py). unfold compare_parsed, key_cmp, prod_cmp, version_key. simpl.
  rewrite compare_core_lex by congruence. unfold lex at 1 3.
  destruct (Z.eqb_spec (list_cmp Compare (v_core x) (v_core y)) 0) as [E|E]; simpl.
  - unfold lex.
    destruct (Z.eqb_spec (v_ahead x) 0) as [Ax|Ax], (Z.eqb_spec (v_ahead y) 0) as [Ay|Ay]; simpl.
    + rewrite Ax, Ay. done.
    + rewrite Ax. unfold Compare. destruct (Z.ltb_spec 0 (v_ahead y)), (Z.ltb_spec (v_ahead y) 0); simpl; lia.
    + rewrite Ay. unfold Compare. destruct (Z.ltb_spec 0 (v_ahead x)), (Z.ltb_spec (v_ahead x) 0); simpl; lia.
    + rewrite (Px Ax), (Py Ay). destruct (Z.eqb_spec (Compare (v_ahead x) (v_ahead y)) 0) as [->|]; done.
  - unfold lex. destruct (Z.eqb_spec (list_cmp Compare (v_core x) (v_core y)) 0); [done|]. simpl.
    by destruct (Z.eqb_spec (list_cmp Compare (v_core x) (v_core y)) 0).
Qed.

(** ** Parsing lemmas *)

Lemma match_core_length l core r : match_core l = Some (core, r) → length core = 3%nat.
Proof.
  unfold match_core. intros H. repeat (apply bind_Some in H as ([] & _ & H) || apply bind_Some in H as (? & _ & H));
    by simplify_eq.
Qed.

Lemma digits_value_nonneg l acc v : 0 ≤ acc → digits_value acc l = Some v → 0 ≤ v.
Proof.
  revert acc. induction l as [|d l IH]; intros acc Ha H; simpl in H; [by simplify_eq|].
  destruct (is_digit d) eqn:D; [|done]. apply (IH (10 * acc + (d - 48))); [|done].
  unfold is_digit, between in D. bool_hyps. z_hyps. lia.
Qed.

Lemma ParseUint64_nonneg l v : ParseUint64 l = Some v → 0 ≤ v.
Proof.
  unfold ParseUint64. destruct l; [done|]. intros H. apply bind_Some in H as (w & Hw & H).
  destruct (w <? 2 ^ 64); [|done]. simplify_eq. by eapply digits_value_nonneg in Hw.
Qed.

Lemma parse_semantic_ok core pre build v : length core = 3%nat → parse_semantic core pre build = Some v →
  version_ok v ∧ v_ahead v = 0 ∧ (pre = [] → v_pre v = []).
Proof.
  intros Hc H. unfold parse_semantic in H. apply bind_Some in H as (nums & Hn & H).
  apply bind_Some in H as (ids & Hi & H). apply bind_Some in H as (b & _ & H). simplify_eq. unfold version_ok. simpl.
  apply length_mapM in Hn. split; [|split; [done|]].
  - split; [congruence|]. split; [done|]. by intros [].
  - intros ->. by injection Hi.
Qed.

Lemma parseVersion_ok raw v : parseVersion raw = Some v → version_ok v.
Proof.
  unfold parseVersion. intros H. destruct (_ || _); [done|]. destruct (historicalVersion (bytes raw)) as [[core n]|] eqn:E.
  - apply bind_Some in H as (base & Hb & H). apply bind_Some in H as (ahead & Ha & H). simplify_eq.
    assert (Hc : length core = 3%nat).
    { unfold historicalVersion in E. apply bind_Some in E as ([c r] & Hm & E). apply match_core_length in Hm.
      apply bind_Some in E as (r1 & _ & E). destruct (take_class is_digit r1) as [[|b d] r2]; [done|].
      destruct (b =? 48); [done|]. apply bind_Some in E as (r3 & _ & E).
      destruct (take_class is_hex r3) as [h r4]. destruct (_ || _); [done|]. destruct (bool_decide _); by simplify_eq. }
    destruct (parse_semantic_ok core [] [] base Hc Hb) as ((H1 & _ & _) & _ & H4).
    repeat split; simpl; [done|by eapply ParseUint64_nonneg|]. intros _. by apply H4.
  - apply bind_Some in H as ([[core pre] build] & Hs & H). apply (parse_semantic_ok core pre build); [|done].
    unfold semanticVersion in Hs. apply bind_Some in Hs as ([c r] & Hm & Hs). apply match_core_length in Hm.
    apply bind_Some in Hs as ([? ?] & _ & Hs). apply bind_Some in Hs as ([? r3] & _ & Hs). destruct r3; by simplify_eq.
Qed.

Lemma CompareVersions_parsed a b x y : parseVersion a = Some x → parseVersion b = Some y →
  CompareVersions a b = Some (key_cmp (version_key x) (version_key y)).
Proof.
  intros Ha Hb. unfold CompareVersions. rewrite Ha, Hb. simpl. f_equal.
  apply compare_parsed_key; by eapply parseVersion_ok.
Qed.

#[export] Instance key_cmp_order : CmpOrder key_cmp.
Proof. unfold key_cmp. apply _. Qed.

Lemma version_key_inj x y : version_key x = version_key y → x = y.
Proof. destruct x, y. unfold version_key. simpl. by intros [= -> -> ->]. Qed.

(** A run of digits is a number below ten to its length; *)
Lemma digits_value_split l : forallb is_digit l = true →
  ∃ v, 0 ≤ v < 10 ^ zlen l ∧ ∀ acc, digits_value acc l = Some (acc * 10 ^ zlen l + v).
Proof.
  induction l as [|d l IH]; intros H.
  - exists 0. split; [unfold zlen; simpl; lia|]. intros acc. simpl. f_equal. unfold zlen. simpl. lia.
  - simpl in H. apply andb_true_iff in H as [Hd H]. destruct (IH H) as (v & Hv & E).
    assert (Hp : 10 ^ zlen (d :: l) = 10 * 10 ^ zlen l).
    { unfold zlen. simpl length. rewrite Nat2Z.inj_succ, Z.pow_succ_r by lia. done. }
    exists ((d - 48) * 10 ^ zlen l + v). pose proof Hd as Hd'. unfold is_digit, between in Hd'. bool_hyps. z_hyps.
    split; [nia|]. intros acc. simpl. rewrite Hd, E. f_equal. rewrite Hp. lia.
Qed.

(** with as many digits, the bytewise order is the order of the values; *)
Lemma same_length_compare p q : forallb is_digit p = true → forallb is_digit q = true → zlen p = zlen q →
  ∀ v w, digits_value 0 p = Some v → digits_value 0 q = Some w → strings_Compare p q = Compare v w.
Proof.
  revert q. induction p as [|a p IH]; intros [|b q] Hp Hq Hl v w Hv Hw; unfold zlen in Hl; simpl in Hl; try lia.
  { by injection Hv as <-; injection Hw as <-. }
  simpl in Hp, Hq. apply andb_true_iff in Hp as [Ha Hp], Hq as [Hb Hq].
  destruct (digits_value_split p Hp) as (v1 & Hv1 & Ev1). destruct (digits_value_split q Hq) as (w1 & Hw1 & Ew1).
  assert (Hl' : zlen p = zlen q) by (unfold zlen; lia).
  simpl in Hv, Hw. rewrite Ha, Ev1 in Hv. rewrite Hb, Ew1 in Hw. simplify_eq.
  unfold strings_Compare in *. simpl. unfold lex.
  rewrite (IH q Hp Hq Hl' v1 w1) by (rewrite ?Ev1, ?Ew1; f_equal; lia). rewrite Hl' in *.
  unfold Compare. repeat match goal with |- context [?x <? ?y] => destruct (Z.ltb_spec x y) end; simpl; try done; nia.
Qed.

(** without a leading zero, more digits make a larger value. *)
Lemma longer_value p v : isNumeric p = true → leading_zero p = false → 1 < zlen p →
  digits_value 0 p = Some v → 10 ^ (zlen p - 1) ≤ v.
Proof.
  intros Hn Hz Hl Hv. destruct p as [|d p]; [unfold zlen in Hl; simpl in Hl; lia|].
  unfold leading_zero in Hz. rewrite Hn, (proj2 (Z.ltb_lt _ _) Hl) in Hz. simpl in Hz.
  apply bool_decide_eq_false in Hz. unfold isNumeric in Hn. apply andb_true_iff in Hn as [Hd _].
  simpl in Hd. apply andb_true_iff in Hd as [Hd Hp]. destruct (digits_value_split p Hp) as (w & Hw & E).
  simpl in Hv. rewrite Hd, E in Hv. injection Hv as <-.
  replace (zlen (d :: p) - 1) with (zlen p) by (unfold zlen; simpl; lia).
  unfold is_digit, between in Hd. bool_hyps. z_hyps. assert (d ≠ 48) by congruence. nia.
Qed.

Lemma shorter_value p v n : forallb is_digit p = true → digits_value 0 p = Some v → zlen p ≤ n → v < 10 ^ n.
Proof.
  intros Hp Hv Hn. destruct (digits_value_split p Hp) as (w & Hw & E). rewrite E in Hv. injection Hv as <-.
  assert (10 ^ zlen p ≤ 10 ^ n) by (apply Z.pow_le_mono_r; lia). lia.
Qed.

Lemma numeric_lt p q v w : isNumeric p = true → isNumeric q = true → leading_zero q = false →
  digits_value 0 p = Some v → digits_value 0 q = Some w → zlen p < zlen q → v < w.
Proof.
  intros Hp Hq Zq Hv Hw Hl. pose proof Hp as Hp'. unfold isNumeric in Hp'. apply andb_true_iff in Hp' as [Dp Np].
  assert (1 ≤ zlen p) by (destruct p; [done|]; unfold zlen; simpl; lia).
  pose proof (longer_value q w Hq Zq ltac:(lia) Hw). pose proof (shorter_value p v (zlen q - 1) Dp Hv ltac:(lia)). lia.
Qed.

Lemma compareIdentifier_value p q v w : isNumeric p = true → isNumeric q = true →
  leading_zero p = false → leading_zero q = false →
  digits_value 0 p = Some v → digits_value 0 q = Some w → compareIdentifier p q = Compare v w.
Proof.
  intros Hp Hq Zp Zq Hv Hw. unfold compareIdentifier. rewrite Hp, Hq. simpl.
  destruct (Z.eqb_spec (zlen p) (zlen q)) as [El|Nl]; simpl.
  - unfold isNumeric in Hp, Hq. apply andb_true_iff in Hp as [Hp _], Hq as [Hq _]. by apply same_length_compare.
  - unfold Compare. destruct (Z.ltb_spec (zlen p) (zlen q)).
    + pose proof (numeric_lt p q v w Hp Hq Zq Hv Hw ltac:(lia)). by rewrite (proj2 (Z.ltb_lt v w)).
    + pose proof (numeric_lt q p w v Hq Hp Zp Hw Hv ltac:(lia)).
      rewrite (proj2 (Z.ltb_ge v w)), (proj2 (Z.ltb_lt w v)), (proj2 (Z.ltb_lt (zlen q) (zlen p))) by lia. done.
Qed.

(** The versions whose core is [core]: releases, prereleases and staging builds. *)
Lemma key_cmp_core x y : v_core x = v_core y →
  key_cmp (version_key x) (version_key y) =
  lex (Compare (v_ahead x) (v_ahead y)) (comparePrerelease (v_pre x) (v_pre y)).
Proof.
  intros E. unfold key_cmp, prod_cmp, version_key. simpl. rewrite E.
  rewrite (cmp_refl (list_cmp Compare)). unfold lex. simpl. done.
Qed.

Lemma key_cmp_lt x y : list_cmp Compare (v_core x) (v_core y) = -1 → key_cmp (version_key x) (version_key y) = -1.
Proof. intros E. unfold key_cmp, prod_cmp, version_key. simpl. by rewrite E. Qed.

(** ** Properties *)

(** Versions are totally ordered: for texts that parse, the comparison never
    fails, answers -1, 0 or 1, answers the opposite when its arguments are
    swapped, answers 0 exactly for equal precedence (the same core, staging count
    and prerelease; build metadata and the "v" do not matter), and is transitive,
    so "newer than" can be chained across hub, agent and client. *)
Theorem version_total_order a b c x y z :
  parseVersion a = Some x → parseVersion b = Some y → parseVersion c = Some z →
  ∃ ab bc ac, CompareVersions a b = Some ab ∧ CompareVersions b a = Some (- ab) ∧
    CompareVersions b c = Some bc ∧ CompareVersions a c = Some ac ∧
    (ab = -1 ∨ ab = 0 ∨ ab = 1) ∧ (ab = 0 ↔ x = y) ∧ (ab ≤ 0 → bc ≤ 0 → ac ≤ 0).
Proof.
  intros Ha Hb Hc. eexists _, _, _.
  rewrite (CompareVersions_parsed a b x y), (CompareVersions_parsed b a y x), (CompareVersions_parsed b c y z),
    (CompareVersions_parsed a c x z) by done.
  split; [reflexivity|]. split; [by rewrite (cmp_swap (f := key_cmp) (version_key x))|].
  split; [reflexivity|]. split; [reflexivity|]. split; [apply cmp_range|]. split; [|apply cmp_le_trans].
  rewrite (cmp_zero (f := key_cmp)). split; [apply version_key_inj|by intros ->].
Qed.

Lemma version_total_order_witness :
  CompareVersions "v1.2.3-rc.9" "1.2.3-rc.10" = Some (-1) ∧ CompareVersions "1.2.3+build" "v1.2.3" = Some 0 ∧
  ∃ ac, CompareVersions "v1.2.3-rc.9" "1.2.3" = Some ac ∧ ac ≤ 0.
Proof.
  split; [vm_compute; reflexivity|]. split; [vm_compute; reflexivity|].
  destruct (version_total_order "v1.2.3-rc.9" "1.2.3-rc.10" "1.2.3"
    (mkVersion [1; 2; 3] [[114; 99]; [57]] 0) (mkVersion [1; 2; 3] [[114; 99]; [49; 48]] 0) (mkVersion [1; 2; 3] [] 0))
    as (ab & bc & ac & E1 & _ & E3 & E4 & _ & _ & T); [vm_compute; reflexivity..|].
  exists ac. split; [exact E4|]. vm_compute in E1, E3. injection E1 as <-. injection E3 as <-.
  apply T; vm_compute; discriminate.
Defined.

(** The order is the documented precedence: numeric identifiers without a
    leading zero compare by their values, whatever their size; and a staging
    build sorts after its base release and after every prerelease of it, before
    any later patch of it, and among staging builds of one base by the number
    of commits. *)
Theorem version_precedence :
  (∀ p q v w, isNumeric p = true → isNumeric q = true → leading_zero p = false → leading_zero q = false →
     digits_value 0 p = Some v → digits_value 0 q = Some w → compareIdentifier p q = Compare v w) ∧
  (∀ h r s x y z, parseVersion h = Some x → parseVersion r = Some y → parseVersion s = Some z →
     v_ahead x ≠ 0 →
     (v_core y = v_core x → CompareVersions h r = Some (Compare (v_ahead x) (v_ahead y))) ∧
     (∀ major minor patch patch', v_core x = [major; minor; patch] → v_core z = [major; minor; patch'] →
        patch < patch' → CompareVersions h s = Some (-1))).
Proof.
  split; [intros; by apply compareIdentifier_value|].
  intros h r s x y z Hx Hy Hz Ha. split.
  - intros Hc. rewrite (CompareVersions_parsed h r x y) by done. rewrite key_cmp_core by done. f_equal. unfold lex.
    destruct (Z.eqb_spec (Compare (v_ahead x) (v_ahead y)) 0) as [E|]; [|done]. simpl. rewrite E.
    apply (proj1 (cmp_zero (f := Compare) _ _)) in E. destruct (parseVersion_ok h x Hx) as (_ & _ & Px).
    destruct (parseVersion_ok r y Hy) as (_ & _ & Py). rewrite Px, Py by congruence. done.
  - intros ma mi pa pa' Ex Ez Hlt. rewrite (CompareVersions_parsed h s x z) by done. f_equal. apply key_cmp_lt.
    rewrite Ex, Ez. simpl. unfold Compare. rewrite !Z.ltb_irrefl. simpl. unfold lex. simpl.
    by rewrite (proj2 (Z.ltb_lt pa pa')).
Qed.

Lemma version_precedence_witness :
  compareIdentifier [57] [49; 48] = Compare 9 10 ∧
  CompareVersions "1.2.3-5-gabcdef0-staging" "1.2.3-rc.1" = Some 1 ∧
  CompareVersions "1.2.3-5-gabcdef0-staging" "1.2.4-alpha" = Some (-1).
Proof.
  destruct version_precedence as [P Q]. split; [apply P; vm_compute; reflexivity|].
  destruct (Q "1.2.3-5-gabcdef0-staging" "1.2.3-rc.1" "1.2.4-alpha"
    (mkVersion [1; 2; 3] [] 5) (mkVersion [1; 2; 3] [[114; 99]; [49]] 0)
    (mkVersion [1; 2; 4] [[97; 108; 112; 104; 97]] 0)) as [Q1 Q2]; [vm_compute; reflexivity..|discriminate|].
  split; [rewrite Q1; reflexivity|]. apply (Q2 1 2 3 4); [reflexivity..|lia].
Defined.
