(* ===== verification/ExecSessions.v ===== *)
(** The hub's command sessions (hub/internal/grpcserver/exec_sessions.go): the
    capability a node advertised, the registration of a command over the shared
    terminal registry, the acceptance of its preparation, the one-use attachment
    ticket, the one dispatch, the sequenced input and the cancellation.

    A session is a heap object: the map [sessions] points to it and callers keep
    the pointer after it left the map.  Each definition is one critical section
    (under [es.mu], [s.mu] or [s.inputMu]); a method with several sections is
    their composition, and [ExecStream] interleaves the sections freely.  A
    channel is its buffer with its closed state.  Closing a closed channel, and
    sending to a full one while holding a mutex, have no result ([None]): the
    first is a panic of the hub, the second would block every other user of the
    mutex for good.

    [x_handler], [x_sender] and [x_receiver] are the progress of the session's
    stream handler and its two goroutines (exec_stream.go, [ExecStream]);
    [x_wire] is every message given to the stream and [x_results] every result
    delivered: the last two are history. *)

From S2P Require Import Prelude Codec ConnMgr Terminal Journal Execution ExecRun.

(** ** Messages and constants *)

Definition MaxExecutionCommandBytes : Z := 32 * 1024.
Definition MaxExecutionFrameBytes : Z := 64 * 1024.
Definition ExecutionAttachTimeout : Duration := 60 * Second.
Definition executionPreparationClockSkew : Duration := 5 * Second.
Definition executionQueueFrames : nat := 8.
Definition ErrExecutionUnsupported : goerr := Sentinel "ErrExecutionUnsupported".
Definition ErrExecutionInputFinished : goerr := Sentinel "ErrExecutionInputFinished".

Definition DefaultExecutionLimits : ExecutionLimits :=
  mkLimits MaxExecutionFrameBytes (2 * 1024 * 1024) 3600 5 60.

(** [time.Now()]: the wall clock and the monotonic clock.  [Before] on two
    times that carry both compares the monotonic one; [UnixMilli] reads the
    wall clock, which may be set back. *)
Record Instant := mkNow { wall : Time; mono : Time }.

Record ExecutionCapabilities := mkCaps {
  c_ProtocolVersion : Z; c_StandardExec : bool; c_ProtectedScript : bool; c_BootId : string;
}.

(** An [ExecutionPrepared] message as received: every message field may be nil. *)
Record PreparedMsg := mkPreparedMsg {
  pm_ExecutionId : string; pm_Binding : option ExecutionBinding; pm_Identity : option ExecutionIdentity;
  pm_CommandSha256 : string; pm_Limits : option ExecutionLimits; pm_Error : string;
}.

Record AttachRequest := mkAttach { a_Binding : option ExecutionBinding; a_Ticket : string }.

(** The hub's messages of an execution stream; this hub sends no Cancel on it. *)
Inductive HubStream :=
| HAttached (binding : option ExecutionBinding)
| HStart (start : ExecutionStart)
| HInput (msg : inputMsg)
| HScriptChunk (offset : Z) (data : string)
| HScriptEof (length : Z) (sha256 : string)
| HCancel (cancel : option (option ExecutionBinding * string)).

Record executionDispatch := mkDispatch {
  d_start : ExecutionStart;
  d_script : bool;               (* has a script reader *)
  d_beforeStart : bool;          (* has a last authorization check *)
}.

(** An output channel, with the history of what was put on it. *)
Record outChan := mkChan { ch_buf : list string; ch_closed : bool; ch_log : list string }.

(** Where the sole sender of a session's stream is. *)
Inductive sender :=
| SNone                                    (* no stream attached *)
| SAttaching                               (* Attached is to be sent *)
| SWaiting                                 (* waits for a dispatch *)
| SDequeued (d : executionDispatch)        (* first launch check ahead *)
| SScript (d : executionDispatch)          (* protected input to be sent *)
| SReady (d : executionDispatch)           (* [beforeStart] ahead *)
| SAuthorized (d : executionDispatch)      (* last launch check ahead *)
| SStarting (d : executionDispatch)        (* Start is to be sent *)
| SStreaming                               (* forwards input *)
| SEnded (err : bool).

(** The locals of [receiveExecution]; [v_ended] is its return, with an error
    or not. *)
Record receiver := mkRecv {
  v_stdoutSeq : Z; v_stderrSeq : Z; v_stdoutEOF : bool; v_stderrEOF : bool; v_started : bool;
  v_ended : option bool;
}.

(** ** State *)

Record ExecutionSession := mkES {
  x_ID : string; x_NodeID : string; x_ActorID : string; x_RequestedUser : string;
  x_connection : AgentConn;
  x_bootID : string;
  x_commandHash : string;
  x_prepared : option PreparedMsg;
  x_deadline : option Time;                (* monotonic; [None] is the zero time *)
  x_preparedReady : bool;                  (* closed *)
  x_prepareErr : option goerr;
  x_ticket : string;
  x_ticketIssued : bool; x_ticketUsed : bool; x_dispatch : bool;
  x_attached : bool; x_started : bool;     (* closed *)
  x_start : list executionDispatch;
  x_stdin : list inputMsg;
  x_stdout : outChan; x_stderr : outChan;
  x_result : list ExecutionResult;
  x_done : bool;                           (* closed; [cancelOnce] ran *)
  x_transportDone : bool;                  (* closed *)
  x_reason : string;
  x_inputSequence : Z; x_inputClosed : bool;
  x_startAttempted : bool;
  x_enhanced : bool; x_scriptHash : string; x_scriptLength : Z;
  x_limits : ExecutionLimits;
  x_handler : bool; x_sender : sender; x_receiver : receiver;
  x_wire : list HubStream; x_results : list ExecutionResult;
}.

(** Updates of the fields the operations change. *)
Definition upd_preparation (s : ExecutionSession) v0 v1 v2 v3 := mkES (x_ID s) (x_NodeID s) (x_ActorID s) (x_RequestedUser s) (x_connection s) (x_bootID s) (x_commandHash s) v0 v1 v3 v2 (x_ticket s) (x_ticketIssued s) (x_ticketUsed s) (x_dispatch s) (x_attached s) (x_started s) (x_start s) (x_stdin s) (x_stdout s) (x_stderr s) (x_result s) (x_done s) (x_transportDone s) (x_reason s) (x_inputSequence s) (x_inputClosed s) (x_startAttempted s) (x_enhanced s) (x_scriptHash s) (x_scriptLength s) (x_limits s) (x_handler s) (x_sender s) (x_receiver s) (x_wire s) (x_results s).
Definition upd_ticket (s : ExecutionSession) v0 v1 v2 := mkES (x_ID s) (x_NodeID s) (x_ActorID s) (x_RequestedUser s) (x_connection s) (x_bootID s) (x_commandHash s) (x_prepared s) (x_deadline s) (x_preparedReady s) (x_prepareErr s) v0 v1 v2 (x_dispatch s) (x_attached s) (x_started s) (x_start s) (x_stdin s) (x_stdout s) (x_stderr s) (x_result s) (x_done s) (x_transportDone s) (x_reason s) (x_inputSequence s) (x_inputClosed s) (x_startAttempted s) (x_enhanced s) (x_scriptHash s) (x_scriptLength s) (x_limits s) (x_handler s) (x_sender s) (x_receiver s) (x_wire s) (x_results s).
Definition upd_handler (s : ExecutionSession) v0 v1 v2 := mkES (x_ID s) (x_NodeID s) (x_ActorID s) (x_RequestedUser s) (x_connection s) (x_bootID s) (x_commandHash s) (x_prepared s) (x_deadline s) (x_preparedReady s) (x_prepareErr s) (x_ticket s) (x_ticketIssued s) (x_ticketUsed s) (x_dispatch s) (x_attached s) (x_started s) (x_start s) (x_stdin s) (x_stdout s) (x_stderr s) (x_result s) (x_done s) (x_transportDone s) (x_reason s) (x_inputSequence s) (x_inputClosed s) (x_startAttempted s) (x_enhanced s) (x_scriptHash s) (x_scriptLength s) (x_limits s) v0 v1 v2 (x_wire s) (x_results s).
Definition upd_dispatched (s : ExecutionSession) v0 v1 := mkES (x_ID s) (x_NodeID s) (x_ActorID s) (x_RequestedUser s) (x_connection s) (x_bootID s) (x_commandHash s) (x_prepared s) (x_deadline s) (x_preparedReady s) (x_prepareErr s) (x_ticket s) (x_ticketIssued s) (x_ticketUsed s) v0 (x_attached s) (x_started s) v1 (x_stdin s) (x_stdout s) (x_stderr s) (x_result s) (x_done s) (x_transportDone s) (x_reason s) (x_inputSequence s) (x_inputClosed s) (x_startAttempted s) (x_enhanced s) (x_scriptHash s) (x_scriptLength s) (x_limits s) (x_handler s) (x_sender s) (x_receiver s) (x_wire s) (x_results s).
Definition upd_config (s : ExecutionSession) v0 v1 v2 v3 := mkES (x_ID s) (x_NodeID s) (x_ActorID s) (x_RequestedUser s) (x_connection s) (x_bootID s) (x_commandHash s) (x_prepared s) (x_deadline s) (x_preparedReady s) (x_prepareErr s) (x_ticket s) (x_ticketIssued s) (x_ticketUsed s) (x_dispatch s) (x_attached s) (x_started s) (x_start s) (x_stdin s) (x_stdout s) (x_stderr s) (x_result s) (x_done s) (x_transportDone s) (x_reason s) (x_inputSequence s) (x_inputClosed s) (x_startAttempted s) v0 v1 v2 v3 (x_handler s) (x_sender s) (x_receiver s) (x_wire s) (x_results s).
Definition upd_input (s : ExecutionSession) v0 v1 v2 := mkES (x_ID s) (x_NodeID s) (x_ActorID s) (x_RequestedUser s) (x_connection s) (x_bootID s) (x_commandHash s) (x_prepared s) (x_deadline s) (x_preparedReady s) (x_prepareErr s) (x_ticket s) (x_ticketIssued s) (x_ticketUsed s) (x_dispatch s) (x_attached s) (x_started s) (x_start s) v0 (x_stdout s) (x_stderr s) (x_result s) (x_done s) (x_transportDone s) (x_reason s) v1 v2 (x_startAttempted s) (x_enhanced s) (x_scriptHash s) (x_scriptLength s) (x_limits s) (x_handler s) (x_sender s) (x_receiver s) (x_wire s) (x_results s).
Definition upd_cancel (s : ExecutionSession) v0 v1 := mkES (x_ID s) (x_NodeID s) (x_ActorID s) (x_RequestedUser s) (x_connection s) (x_bootID s) (x_commandHash s) (x_prepared s) (x_deadline s) (x_preparedReady s) (x_prepareErr s) (x_ticket s) (x_ticketIssued s) (x_ticketUsed s) (x_dispatch s) (x_attached s) (x_started s) (x_start s) (x_stdin s) (x_stdout s) (x_stderr s) (x_result s) v1 (x_transportDone s) v0 (x_inputSequence s) (x_inputClosed s) (x_startAttempted s) (x_enhanced s) (x_scriptHash s) (x_scriptLength s) (x_limits s) (x_handler s) (x_sender s) (x_receiver s) (x_wire s) (x_results s).
Definition upd_sender (s : ExecutionSession) v := mkES (x_ID s) (x_NodeID s) (x_ActorID s) (x_RequestedUser s) (x_connection s) (x_bootID s) (x_commandHash s) (x_prepared s) (x_deadline s) (x_preparedReady s) (x_prepareErr s) (x_ticket s) (x_ticketIssued s) (x_ticketUsed s) (x_dispatch s) (x_attached s) (x_started s) (x_start s) (x_stdin s) (x_stdout s) (x_stderr s) (x_result s) (x_done s) (x_transportDone s) (x_reason s) (x_inputSequence s) (x_inputClosed s) (x_startAttempted s) (x_enhanced s) (x_scriptHash s) (x_scriptLength s) (x_limits s) (x_handler s) v (x_receiver s) (x_wire s) (x_results s).
Definition upd_wire (s : ExecutionSession) v := mkES (x_ID s) (x_NodeID s) (x_ActorID s) (x_RequestedUser s) (x_connection s) (x_bootID s) (x_commandHash s) (x_prepared s) (x_deadline s) (x_preparedReady s) (x_prepareErr s) (x_ticket s) (x_ticketIssued s) (x_ticketUsed s) (x_dispatch s) (x_attached s) (x_started s) (x_start s) (x_stdin s) (x_stdout s) (x_stderr s) (x_result s) (x_done s) (x_transportDone s) (x_reason s) (x_inputSequence s) (x_inputClosed s) (x_startAttempted s) (x_enhanced s) (x_scriptHash s) (x_scriptLength s) (x_limits s) (x_handler s) (x_sender s) (x_receiver s) v (x_results s).
Definition upd_attached (s : ExecutionSession) v := mkES (x_ID s) (x_NodeID s) (x_ActorID s) (x_RequestedUser s) (x_connection s) (x_bootID s) (x_commandHash s) (x_prepared s) (x_deadline s) (x_preparedReady s) (x_prepareErr s) (x_ticket s) (x_ticketIssued s) (x_ticketUsed s) (x_dispatch s) v (x_started s) (x_start s) (x_stdin s) (x_stdout s) (x_stderr s) (x_result s) (x_done s) (x_transportDone s) (x_reason s) (x_inputSequence s) (x_inputClosed s) (x_startAttempted s) (x_enhanced s) (x_scriptHash s) (x_scriptLength s) (x_limits s) (x_handler s) (x_sender s) (x_receiver s) (x_wire s) (x_results s).
Definition upd_start (s : ExecutionSession) v := mkES (x_ID s) (x_NodeID s) (x_ActorID s) (x_RequestedUser s) (x_connection s) (x_bootID s) (x_commandHash s) (x_prepared s) (x_deadline s) (x_preparedReady s) (x_prepareErr s) (x_ticket s) (x_ticketIssued s) (x_ticketUsed s) (x_dispatch s) (x_attached s) (x_started s) v (x_stdin s) (x_stdout s) (x_stderr s) (x_result s) (x_done s) (x_transportDone s) (x_reason s) (x_inputSequence s) (x_inputClosed s) (x_startAttempted s) (x_enhanced s) (x_scriptHash s) (x_scriptLength s) (x_limits s) (x_handler s) (x_sender s) (x_receiver s) (x_wire s) (x_results s).
Definition upd_attempted (s : ExecutionSession) v := mkES (x_ID s) (x_NodeID s) (x_ActorID s) (x_RequestedUser s) (x_connection s) (x_bootID s) (x_commandHash s) (x_prepared s) (x_deadline s) (x_preparedReady s) (x_prepareErr s) (x_ticket s) (x_ticketIssued s) (x_ticketUsed s) (x_dispatch s) (x_attached s) (x_started s) (x_start s) (x_stdin s) (x_stdout s) (x_stderr s) (x_result s) (x_done s) (x_transportDone s) (x_reason s) (x_inputSequence s) (x_inputClosed s) v (x_enhanced s) (x_scriptHash s) (x_scriptLength s) (x_limits s) (x_handler s) (x_sender s) (x_receiver s) (x_wire s) (x_results s).
Definition upd_stdin (s : ExecutionSession) v := mkES (x_ID s) (x_NodeID s) (x_ActorID s) (x_RequestedUser s) (x_connection s) (x_bootID s) (x_commandHash s) (x_prepared s) (x_deadline s) (x_preparedReady s) (x_prepareErr s) (x_ticket s) (x_ticketIssued s) (x_ticketUsed s) (x_dispatch s) (x_attached s) (x_started s) (x_start s) v (x_stdout s) (x_stderr s) (x_result s) (x_done s) (x_transportDone s) (x_reason s) (x_inputSequence s) (x_inputClosed s) (x_startAttempted s) (x_enhanced s) (x_scriptHash s) (x_scriptLength s) (x_limits s) (x_handler s) (x_sender s) (x_receiver s) (x_wire s) (x_results s).
Definition upd_transport (s : ExecutionSession) v0 v1 := mkES (x_ID s) (x_NodeID s) (x_ActorID s) (x_RequestedUser s) (x_connection s) (x_bootID s) (x_commandHash s) (x_prepared s) (x_deadline s) (x_preparedReady s) (x_prepareErr s) (x_ticket s) (x_ticketIssued s) (x_ticketUsed s) (x_dispatch s) (x_attached s) (x_started s) (x_start s) (x_stdin s) (x_stdout s) (x_stderr s) (x_result s) (x_done s) v0 (x_reason s) (x_inputSequence s) (x_inputClosed s) (x_startAttempted s) (x_enhanced s) (x_scriptHash s) (x_scriptLength s) (x_limits s) v1 (x_sender s) (x_receiver s) (x_wire s) (x_results s).
Definition upd_receiver (s : ExecutionSession) v := mkES (x_ID s) (x_NodeID s) (x_ActorID s) (x_RequestedUser s) (x_connection s) (x_bootID s) (x_commandHash s) (x_prepared s) (x_deadline s) (x_preparedReady s) (x_prepareErr s) (x_ticket s) (x_ticketIssued s) (x_ticketUsed s) (x_dispatch s) (x_attached s) (x_started s) (x_start s) (x_stdin s) (x_stdout s) (x_stderr s) (x_result s) (x_done s) (x_transportDone s) (x_reason s) (x_inputSequence s) (x_inputClosed s) (x_startAttempted s) (x_enhanced s) (x_scriptHash s) (x_scriptLength s) (x_limits s) (x_handler s) (x_sender s) v (x_wire s) (x_results s).
Definition upd_started (s : ExecutionSession) v := mkES (x_ID s) (x_NodeID s) (x_ActorID s) (x_RequestedUser s) (x_connection s) (x_bootID s) (x_commandHash s) (x_prepared s) (x_deadline s) (x_preparedReady s) (x_prepareErr s) (x_ticket s) (x_ticketIssued s) (x_ticketUsed s) (x_dispatch s) (x_attached s) v (x_start s) (x_stdin s) (x_stdout s) (x_stderr s) (x_result s) (x_done s) (x_transportDone s) (x_reason s) (x_inputSequence s) (x_inputClosed s) (x_startAttempted s) (x_enhanced s) (x_scriptHash s) (x_scriptLength s) (x_limits s) (x_handler s) (x_sender s) (x_receiver s) (x_wire s) (x_results s).
Definition upd_stdout (s : ExecutionSession) v := mkES (x_ID s) (x_NodeID s) (x_ActorID s) (x_RequestedUser s) (x_connection s) (x_bootID s) (x_commandHash s) (x_prepared s) (x_deadline s) (x_preparedReady s) (x_prepareErr s) (x_ticket s) (x_ticketIssued s) (x_ticketUsed s) (x_dispatch s) (x_attached s) (x_started s) (x_start s) (x_stdin s) v (x_stderr s) (x_result s) (x_done s) (x_transportDone s) (x_reason s) (x_inputSequence s) (x_inputClosed s) (x_startAttempted s) (x_enhanced s) (x_scriptHash s) (x_scriptLength s) (x_limits s) (x_handler s) (x_sender s) (x_receiver s) (x_wire s) (x_results s).
Definition upd_stderr (s : ExecutionSession) v := mkES (x_ID s) (x_NodeID s) (x_ActorID s) (x_RequestedUser s) (x_connection s) (x_bootID s) (x_commandHash s) (x_prepared s) (x_deadline s) (x_preparedReady s) (x_prepareErr s) (x_ticket s) (x_ticketIssued s) (x_ticketUsed s) (x_dispatch s) (x_attached s) (x_started s) (x_start s) (x_stdin s) (x_stdout s) v (x_result s) (x_done s) (x_transportDone s) (x_reason s) (x_inputSequence s) (x_inputClosed s) (x_startAttempted s) (x_enhanced s) (x_scriptHash s) (x_scriptLength s) (x_limits s) (x_handler s) (x_sender s) (x_receiver s) (x_wire s) (x_results s).
Definition upd_result (s : ExecutionSession) v0 v1 := mkES (x_ID s) (x_NodeID s) (x_ActorID s) (x_RequestedUser s) (x_connection s) (x_bootID s) (x_commandHash s) (x_prepared s) (x_deadline s) (x_preparedReady s) (x_prepareErr s) (x_ticket s) (x_ticketIssued s) (x_ticketUsed s) (x_dispatch s) (x_attached s) (x_started s) (x_start s) (x_stdin s) (x_stdout s) (x_stderr s) v0 (x_done s) (x_transportDone s) (x_reason s) (x_inputSequence s) (x_inputClosed s) (x_startAttempted s) (x_enhanced s) (x_scriptHash s) (x_scriptLength s) (x_limits s) (x_handler s) (x_sender s) (x_receiver s) (x_wire s) v1.

Record ExecutionSessions := mkSessions {
  es_heap : gmap nat ExecutionSession;
  es_sessions : gmap string nat;
  es_capabilities : gmap string (AgentConn * ExecutionCapabilities);
  es_terminals : TerminalSessions;
  es_connections : ConnManager;
  es_rpcSlots : nat;
  es_waiting : nat;              (* stream handlers before their attachment *)
  es_next : nat;
}.

Definition NewExecutionSessions (terminals : TerminalSessions) (connections : ConnManager) : ExecutionSessions :=
  mkSessions ∅ ∅ ∅ terminals connections 0 0 0.

Definition with_es (es : ExecutionSessions) (p : nat) (s : ExecutionSession) : ExecutionSessions :=
  mkSessions (<[p := s]> (es_heap es)) (es_sessions es) (es_capabilities es) (es_terminals es)
    (es_connections es) (es_rpcSlots es) (es_waiting es) (es_next es).
Definition with_capabilities (es : ExecutionSessions) v : ExecutionSessions :=
  mkSessions (es_heap es) (es_sessions es) v (es_terminals es) (es_connections es) (es_rpcSlots es) (es_waiting es) (es_next es).
Definition with_sessions (es : ExecutionSessions) v : ExecutionSessions :=
  mkSessions (es_heap es) v (es_capabilities es) (es_terminals es) (es_connections es) (es_rpcSlots es) (es_waiting es) (es_next es).
Definition with_terminals (es : ExecutionSessions) v : ExecutionSessions :=
  mkSessions (es_heap es) (es_sessions es) (es_capabilities es) v (es_connections es) (es_rpcSlots es) (es_waiting es) (es_next es).
Definition with_connections (es : ExecutionSessions) v : ExecutionSessions :=
  mkSessions (es_heap es) (es_sessions es) (es_capabilities es) (es_terminals es) v (es_rpcSlots es) (es_waiting es) (es_next es).
Definition with_slots (es : ExecutionSessions) v w : ExecutionSessions :=
  mkSessions (es_heap es) (es_sessions es) (es_capabilities es) (es_terminals es) (es_connections es) v w (es_next es).

(** [make([]byte, 32)], and [clear] of the ticket. *)
Definition zeros32 : string := String.concat "" (replicate 32 (String Ascii.zero "")).

Definition newRecv : receiver := mkRecv 0 0 false false false None.
Definition newChan : outChan := mkChan [] false [].

Definition executionConnectionOpen (cm : ConnManager) (c : option AgentConn) : bool :=
  match c with
  | None => false
  | Some c => negb (conn_done cm c)
  end.

(** [connection == connections.GetConn(node) && executionConnectionOpen(connection)] *)
Definition connection_current (cm : ConnManager) (node : string) (c : AgentConn) : bool :=
  bool_decide (GetConn cm node = Some c) && executionConnectionOpen cm (Some c).

(** ** Cancellation *)

Definition Cancel (s : ExecutionSession) (reason : string) : ExecutionSession :=
  if x_done s then s else upd_cancel s reason true.

Definition cancelAt (es : ExecutionSessions) (reason : string) (p : nat) : ExecutionSessions :=
  match es_heap es !! p with
  | Some s => with_es es p (Cancel s reason)
  | None => es
  end.

Definition cancelAll (es : ExecutionSessions) (ps : list nat) (reason : string) : ExecutionSessions :=
  foldl (fun e p => cancelAt e reason p) es ps.

(** The sessions of the map that satisfy [P]. *)
Definition sessions_where (es : ExecutionSessions) (P : ExecutionSession → bool) : list nat :=
  omap (fun kp : string * nat =>
          s ← es_heap es !! kp.2; if P s then Some kp.2 else None) (map_to_list (es_sessions es)).

Definition of_node (node : string) (s : ExecutionSession) : bool := bool_decide (x_NodeID s = node).

(** ** Capabilities *)

Definition validCapabilities (caps : option ExecutionCapabilities) : bool :=
  match caps with
  | None => false
  | Some c => (c_ProtocolVersion c =? 1) && c_StandardExec c && negb (bool_decide (c_BootId c = ""))
              && (len (c_BootId c) <=? 128)
  end.

(** Its critical section, for the connection [conn] captured before it; the
    list is the sessions to cancel after it. *)
Definition setCapabilities (es : ExecutionSessions) (conn : AgentConn) (node : string)
    (caps : option ExecutionCapabilities) : ExecutionSessions * list nat :=
  if negb (connection_current (es_connections es) node conn) then (es, [])
  else
    let valid := validCapabilities caps in
    let boot_changed :=
      match es_capabilities es !! node, caps with
      | Some (_, previous), Some c => negb (bool_decide (c_BootId previous = c_BootId c))
      | _, _ => false
      end in
    let cancelled := if negb valid || boot_changed then sessions_where es (of_node node) else [] in
    (with_capabilities es
       (match caps with
        | Some c => if valid then <[node := (conn, c)]> (es_capabilities es) else delete node (es_capabilities es)
        | None => delete node (es_capabilities es)
        end), cancelled).

Definition SetCapabilities (es : ExecutionSessions) (node : string) (stream : nat)
    (caps : option ExecutionCapabilities) : ExecutionSessions :=
  match GetConn (es_connections es) node with
  | None => es
  | Some conn =>
      if negb (executionConnectionOpen (es_connections es) (Some conn)) || negb (bool_decide (ac_Stream conn = stream))
      then es
      else
        let '(es1, cancelled) := setCapabilities es conn node caps in
        cancelAll es1 cancelled "agent execution capability or boot changed"
  end.

Definition Supports (es : ExecutionSessions) (node : string) : bool :=
  match es_capabilities es !! node with
  | None => false
  | Some (conn, _) => connection_current (es_connections es) node conn
  end.

Definition SupportsProtected (es : ExecutionSessions) (node : string) : bool :=
  match es_capabilities es !! node with
  | None => false
  | Some (conn, c) => c_ProtectedScript c && connection_current (es_connections es) node conn
  end.

(** ** Registration *)

Definition newSession (node id actor runAs : string) (conn : AgentConn) (boot : string) (command : string)
    : ExecutionSession :=
  mkES id node actor runAs conn boot (sha256 command) None None false None zeros32 false false false
    false false [] [] newChan newChan [] false false "" 0 false false false "" 0 DefaultExecutionLimits
    false SNone newRecv [] [].

(** [o] carries the caller's options; the kind is always set. *)
Definition Register (es : ExecutionSessions) (node id actor runAs command : string) (o : RegisterOptions)
    (now : Time) : ExecutionSessions * result nat :=
  if bool_decide (node = "") || bool_decide (id = "") || bool_decide (actor = "") || (128 <? len id)
     || (len command =? 0) || (MaxExecutionCommandBytes <? len command) || negb (ValidUTF8 command)
     || ContainsNUL command
  then (es, Err (ErrText "invalid execution submission"))
  else
    match es_capabilities es !! node with
    | None => (es, Err ErrExecutionUnsupported)
    | Some (conn, caps) =>
        if negb (connection_current (es_connections es) node conn) then (es, Err ErrExecutionUnsupported)
        else if bool_decide (is_Some (es_sessions es !! makeKey node id))
        then (es, Err (ErrText "execution already registered"))
        else
          let opts := mkOptions TerminalKindExec (o_sid o) (o_credential o) (o_conn o) in
          let '(ts, ok) := Terminal.Register (es_terminals es) node id actor runAs opts now in
          if negb ok
          then (with_terminals es ts, Err (ErrText "shared terminal and execution capacity reached"))
          else
            let '(ts1, _, _) := AttachStream ts node id actor in
            let p := es_next es in
            (mkSessions (<[p := newSession node id actor runAs conn (c_BootId caps) command]> (es_heap es))
               (<[makeKey node id := p]> (es_sessions es)) (es_capabilities es) ts1 (es_connections es)
               (es_rpcSlots es) (es_waiting es) (S p), Ok p)
    end.

(** [TerminalSessions.Remove] *)
Definition removeTerminal (ts : TerminalSessions) (node id : string) : option TerminalSessions :=
  match find_session ts (makeKey node id) with
  | None => Some ts
  | Some (p, _) => fst <$> removeExact ts p false
  end.

(** The section of [Remove] that takes the session out of the map. *)
Definition removeSession (es : ExecutionSessions) (node id : string) : ExecutionSessions * option nat :=
  (with_sessions es (delete (makeKey node id) (es_sessions es)), es_sessions es !! makeKey node id).

Definition Remove (es : ExecutionSessions) (node id : string) : option ExecutionSessions :=
  match removeSession es node id with
  | (es1, None) => Some es1
  | (es1, Some p) =>
      let es2 := cancelAt es1 "execution closed" p in
      ts ← removeTerminal (es_terminals es2) node id;
      Some (with_terminals es2 ts)
  end.

(** The section of [endConnection]; [None] is the nil stream of [EndAll]. *)
Definition of_stream (stream : option nat) (c : AgentConn) : bool :=
  match stream with None => true | Some st => bool_decide (ac_Stream c = st) end.

Definition endConnectionLocked (es : ExecutionSessions) (node : string) (stream : option nat)
    : ExecutionSessions * list nat :=
  let ended := sessions_where es (fun s => of_node node s && of_stream stream (x_connection s)) in
  (match es_capabilities es !! node with
   | Some (conn, _) =>
       if of_stream stream conn then with_capabilities es (delete node (es_capabilities es)) else es
   | None => es
   end, ended).

Definition endConnection (es : ExecutionSessions) (node : string) (stream : option nat) (reason : string)
    : ExecutionSessions :=
  let '(es1, ended) := endConnectionLocked es node stream in cancelAll es1 ended reason.

Definition EndAll (es : ExecutionSessions) (node reason : string) : ExecutionSessions :=
  endConnection es node None reason.

Definition EndConnection (es : ExecutionSessions) (node : string) (stream : option nat) (reason : string)
    : ExecutionSessions :=
  match stream with
  | None => es
  | Some _ => endConnection es node stream reason
  end.

(** ** Preparation *)

Definition identityInvalid (requested : string) (i : option ExecutionIdentity) : bool :=
  match i with
  | None => true
  | Some i =>
      bool_decide (ei_Username i = "") || (256 <? len (ei_Username i)) || bool_decide (ei_Shell i = "")
      || (4096 <? len (ei_Shell i)) || bool_decide (ei_Cwd i = "") || (4096 <? len (ei_Cwd i))
      || (4096 <? len (ei_Home i)) || (1024 <? Z.of_nat (length (ei_Groups i)))
      || negb (len (ei_IdentitySha256 i) =? 32) || negb (len (ei_GroupsSha256 i) =? 32)
      || (negb (bool_decide (requested = "")) && negb (bool_decide (ei_Username i = requested)))
  end.

Definition validatePrepared (s : ExecutionSession) (p : PreparedMsg) (now : Time) : result ExecutionBinding :=
  check! negb (bool_decide (pm_Error p = "")), ErrText "agent could not prepare execution";
  match pm_Binding p with
  | None => Err (ErrText "invalid execution preparation binding")
  | Some b =>
      check! negb (bool_decide (ExecutionId b = x_ID s)) || negb (bool_decide (NodeId b = x_NodeID s))
             || bool_decide (PreparationId b = "") || (128 <? len (PreparationId b))
             || negb (bool_decide (BootId b = x_bootID s)),
        ErrText "invalid execution preparation binding";
      check! ExpiresUnixMilli b <=? UnixMilli now, ErrText "execution preparation expired";
      check! UnixMilli (now + (ExecutionAttachTimeout + executionPreparationClockSkew)) <? ExpiresUnixMilli b,
        ErrText "execution preparation expiry exceeds allowed clock skew";
      check! negb (bool_decide (pm_CommandSha256 p = x_commandHash s))
             || negb (bool_decide (pm_Limits p = Some (x_limits s))),
        ErrText "execution preparation content or limits changed";
      check! identityInvalid (x_RequestedUser s) (pm_Identity p), ErrText "invalid prepared execution identity";
      Ok b
  end.

(** [time.UnixMilli(ms)] *)
Definition of_UnixMilli (ms : Z) : Time := unix_epoch + ms * Millisecond.

(** The section of [DeliverPrepared] under [s.mu], after the session was found. *)
Definition deliverPrepared (s : ExecutionSession) (p : PreparedMsg) (now : Instant)
    : option (ExecutionSession * bool) :=
  if bool_decide (is_Some (x_prepared s)) || bool_decide (is_Some (x_prepareErr s)) then Some (s, false)
  else
    ready ← close_chan (x_preparedReady s);
    Some (match validatePrepared s p (wall now) with
          | Err e => (upd_preparation s (x_prepared s) (x_deadline s) (Some e) ready, false)
          | Ok b =>
              let local := mono now + ExecutionAttachTimeout in
              let remote := mono now + time_sub (of_UnixMilli (ExpiresUnixMilli b)) (wall now) in
              (upd_preparation s (Some p) (Some (if Before remote local then remote else local)) None ready, true)
          end).

(** The session a message of [stream] for [id] may address. *)
Definition findPrepared (es : ExecutionSessions) (node : string) (stream : nat) (id : string) : option nat :=
  p ← es_sessions es !! makeKey node id;
  s ← es_heap es !! p;
  if negb (bool_decide (ac_Stream (x_connection s) = stream))
     || negb (connection_current (es_connections es) node (x_connection s))
  then None else Some p.

Definition DeliverPrepared (es : ExecutionSessions) (node : string) (stream : nat) (msg : option PreparedMsg)
    (now : Instant) : option (ExecutionSessions * bool) :=
  match msg with
  | None => Some (es, false)
  | Some p =>
      match findPrepared es node stream (pm_ExecutionId p) with
      | None => Some (es, false)
      | Some ptr =>
          match es_heap es !! ptr with
          | None => Some (es, false)
          | Some s => '(s', ok) ← deliverPrepared s p now; Some (with_es es ptr s', ok)
          end
      end
  end.

Definition hasExecution (es : ExecutionSessions) (node id : string) : bool :=
  bool_decide (is_Some (es_sessions es !! makeKey node id)).

Definition preparationExpired (s : ExecutionSession) (now : Instant) : bool :=
  match x_prepared s, x_deadline s with
  | Some p, Some deadline =>
      match pm_Binding p with
      | None => true
      | Some b => negb (Before (mono now) deadline) || (ExpiresUnixMilli b <=? UnixMilli (wall now))
      end
  | _, _ => true
  end.

(** What [WaitPrepared] returns once [preparedReady] is closed. *)
Definition waitPrepared (s : ExecutionSession) : option (result PreparedMsg) :=
  match x_prepareErr s with
  | Some e => Some (Err e)
  | None => Ok <$> x_prepared s
  end.

Definition Binding (s : ExecutionSession) : option ExecutionBinding :=
  match x_prepared s with
  | None => Some (mkBinding (x_ID s) (x_NodeID s) "" (x_bootID s) 0)
  | Some p => pm_Binding p
  end.

(** [Configure]; [limits] may be nil. *)
Definition Configure (s : ExecutionSession) (enhanced : bool) (hash : string) (length : Z)
    (limits : option ExecutionLimits) : ExecutionSession * result unit :=
  match limits with
  | None => (s, Err (ErrText "invalid execution configuration"))
  | Some l =>
      if bool_decide (is_Some (x_prepared s)) || bool_decide (is_Some (x_prepareErr s))
         || (Z.shiftl 16 20 <? length) || (negb (len hash =? 0) && negb (len hash =? 32))
      then (s, Err (ErrText "invalid execution configuration"))
      else (upd_config s enhanced hash length l, Ok tt)
  end.

(** ** Attachment *)

(** [rnd] is what [rand.Read] left in the ticket and whether it succeeded. *)
Definition IssueAttach (s : ExecutionSession) (now : Instant) (rnd : string * bool)
    : ExecutionSession * result AttachRequest :=
  if x_ticketIssued s || preparationExpired s now
  then (s, Err (ErrText "preparation not available for attachment"))
  else if negb rnd.2 then (upd_ticket s rnd.1 false (x_ticketUsed s), Err (ErrText "random source failed"))
  else (upd_ticket s rnd.1 true (x_ticketUsed s), Ok (mkAttach (Binding s) rnd.1)).

(** The part of [Attach] under [s.mu]. *)
Definition attachSession (s : ExecutionSession) (a : AttachRequest) (now : Instant)
    : ExecutionSession * result unit :=
  if x_done s then (s, Err (ErrText "execution cancelled"))
  else if preparationExpired s now || negb (x_ticketIssued s) || x_ticketUsed s
          || negb (bool_decide (a_Binding a = Binding s)) || negb (bool_decide (a_Ticket a = x_ticket s))
  then (s, Err (ErrText "invalid or consumed execution attachment"))
  else (upd_handler (upd_ticket s zeros32 (x_ticketIssued s) true) true SAttaching newRecv, Ok tt).

(** The whole call runs under [es.mu]; a success starts the stream handler. *)
Definition Attach (es : ExecutionSessions) (node : string) (a : option AttachRequest) (now : Instant)
    : ExecutionSessions * result nat :=
  match a with
  | None => (es, Err (ErrText "invalid execution attachment"))
  | Some a =>
      match a_Binding a with
      | None => (es, Err (ErrText "invalid execution attachment"))
      | Some b =>
          if negb (bool_decide (NodeId b = node)) || negb (len (a_Ticket a) =? 32)
          then (es, Err (ErrText "invalid execution attachment"))
          else
            match es_sessions es !! makeKey node (ExecutionId b) with
            | None => (es, Err (ErrText "execution preparation unavailable"))
            | Some p =>
                match es_heap es !! p with
                | None => (es, Err (ErrText "execution preparation unavailable"))
                | Some s =>
                    if negb (connection_current (es_connections es) node (x_connection s))
                    then (es, Err (ErrText "execution preparation unavailable"))
                    else
                      match attachSession s a now with
                      | (s', Ok _) => (with_es es p s', Ok p)
                      | (s', Err e) => (with_es es p s', Err e)
                      end
                end
            end
      end
  end.

(** ** Dispatch *)

(** The Start built from the accepted preparation. *)
Definition startFor (p : PreparedMsg) (b : ExecutionBinding) (i : ExecutionIdentity) (policy receipt : string)
    (expires : Z) : ExecutionStart :=
  mkStart b (pm_CommandSha256 p) (ei_IdentitySha256 i) (pm_Limits p) policy receipt expires.

(** [s.start <- d] under [s.mu]: the channel holds one. *)
Definition enqueueStart (s : ExecutionSession) (d : executionDispatch) : option ExecutionSession :=
  match x_start s with
  | [] => Some (upd_dispatched s true [d])
  | _ => None
  end.

Definition dispatchWith (s : ExecutionSession) (policy receipt : string) (expires : Z) (script before : bool)
    : option ExecutionSession :=
  p ← x_prepared s; b ← pm_Binding p; i ← pm_Identity p;
  enqueueStart s (mkDispatch (startFor p b i policy receipt expires) script before).

Definition dispatchStandard (cm : ConnManager) (s : ExecutionSession) (beforeStart : bool) (now : Instant)
    : option (ExecutionSession * result unit) :=
  if x_enhanced s || preparationExpired s now || negb (x_ticketUsed s) || x_dispatch s
     || negb (connection_current cm (x_NodeID s) (x_connection s))
  then Some (s, Err (ErrText "execution is not dispatchable"))
  else if x_done s then Some (s, Err (ErrText (x_reason s)))
  else s' ← dispatchWith s "standard-v1" "" 0 false beforeStart; Some (s', Ok tt).

Definition Dispatch cm s now := dispatchStandard cm s false now.

Definition DispatchChecked (cm : ConnManager) (s : ExecutionSession) (beforeStart : bool) (now : Instant)
    : option (ExecutionSession * result unit) :=
  if negb beforeStart then Some (s, Err (ErrText "execution launch authorization check is required"))
  else dispatchStandard cm s true now.

(** [script] and [beforeStart] are whether the arguments are present. *)
Definition DispatchProtected (cm : ConnManager) (s : ExecutionSession) (receipt : string) (receiptExpiry : Z)
    (policy : string) (script beforeStart : bool) (now : Instant) : option (ExecutionSession * result unit) :=
  if negb (x_enhanced s) || preparationExpired s now || negb (x_ticketUsed s) || x_dispatch s
     || (len receipt =? 0) || (Z.shiftl 16 10 <? len receipt) || (receiptExpiry <=? UnixMilli (wall now))
     || match Binding s with Some b => ExpiresUnixMilli b <? receiptExpiry | None => true end
     || negb beforeStart || (negb (len (x_scriptHash s) =? 0) && negb script)
     || negb (connection_current cm (x_NodeID s) (x_connection s))
  then Some (s, Err (ErrText "protected execution is not dispatchable"))
  else if x_done s then Some (s, Err (ErrText (x_reason s)))
  else s' ← dispatchWith s policy receipt receiptExpiry script true; Some (s', Ok tt).

(** ** Input *)

(** Which case of the select in [enqueueInput] was taken. *)
Inductive enqueueSel := EnqSent | EnqCtx | EnqDone | EnqTransport | EnqTimer.

(** A case that is not ready cannot be taken: there the call still waits. *)
Definition enqueueInput (s : ExecutionSession) (sel : enqueueSel) : option (result unit) :=
  match sel with
  | EnqSent => if (length (x_stdin s) <? executionQueueFrames)%nat then Some (Ok tt) else None
  | EnqCtx => Some (Err (ErrText "context ended"))
  | EnqDone => if x_done s then Some (Err (ErrText "execution cancelled")) else None
  | EnqTransport => if x_transportDone s then Some (Err ErrExecutionInputFinished) else None
  | EnqTimer => Some (Err (ErrText "execution input consumer stalled"))
  end.

Definition SendInput (s : ExecutionSession) (data : string) (sel : enqueueSel)
    : ExecutionSession * option (result unit) :=
  if MaxExecutionFrameBytes <? len data then (s, Some (Err (ErrText "execution input frame too large")))
  else if x_inputClosed s then (s, Some (Err (ErrText "execution stdin already closed")))
  else
    match enqueueInput s sel with
    | Some (Ok _) =>
        (upd_input s (x_stdin s ++ [MsgData (x_inputSequence s) data]) (u64 (x_inputSequence s + 1))
           (x_inputClosed s), Some (Ok tt))
    | r => (s, r)
    end.

Definition CloseInput (s : ExecutionSession) (sel : enqueueSel) : ExecutionSession * option (result unit) :=
  if x_inputClosed s then (s, Some (Ok tt))
  else
    match enqueueInput s sel with
    | Some (Ok _) => (upd_input s (x_stdin s ++ [MsgEOF (x_inputSequence s)]) (x_inputSequence s) true, Some (Ok tt))
    | r => (s, r)
    end.
