(* ===== verification/ExecStream.v ===== *)
(** The execution stream of the hub (hub/internal/grpcserver/exec_stream.go):
    the handler with its slot, the sole sender (attachment, protected script,
    the launch checks and Start, then input), the receiver of the agent's
    messages, and every interleaving of these with the sections of
    [ExecSessions].

    Whether a send succeeds, what a read returns, which ready case a [select]
    takes and the clock are inputs of the operations. *)

From S2P Require Import Prelude Codec ConnMgr Terminal Journal Execution ExecRun ExecSessions.

(** ** The node of a stream *)

Record Certificate := mkCert {
  ce_Raw : string; ce_CommonName : string; ce_NotBefore : Time; ce_NotAfter : Time;
}.

(** The fields of a server row the handler reads. *)
Record serverRow := mkServerRow { sv_RegistrationToken : option string; sv_Status : string }.

(** [tls] is the TLS state of the peer, if there is one: the certificates it
    presented and the verified chains. *)
Definition executionNode (tls : option (list Certificate * list (list Certificate))) (now : Time)
    (GetServerByID : string → result serverRow) (cm : ConnManager) : result string :=
  match tls with
  | Some (cert :: _, (leaf :: _) :: _) =>
      check! negb (bool_decide (ce_Raw cert = ce_Raw leaf)) || bool_decide (ce_CommonName cert = "")
             || Before now (ce_NotBefore cert) || negb (Before now (ce_NotAfter cert)),
        ErrText "execution certificate identity is invalid";
      let node := ce_CommonName cert in
      match GetServerByID node with
      | Err _ => Err (ErrText "execution node is not currently enrolled and connected")
      | Ok srv =>
          check! bool_decide (is_Some (sv_RegistrationToken srv)) || negb (bool_decide (sv_Status srv = "online"))
                 || negb (executionConnectionOpen cm (GetConn cm node)),
            ErrText "execution node is not currently enrolled and connected";
          Ok node
      end
  | _ => Err (ErrText "execution requires a verified node certificate")
  end.

(** ** The handler *)

Definition maxStreams : nat := 32.

(** A handler takes a slot, or refuses the stream. *)
Definition executeEnter (es : ExecutionSessions) : ExecutionSessions * result unit :=
  if (maxStreams <=? es_rpcSlots es)%nat then (es, Err (ErrText "execution stream capacity reached"))
  else (with_slots es (S (es_rpcSlots es)) (S (es_waiting es)), Ok tt).

(** It ends without an attachment: time-out, context, transport error, or a
    first message that is not Attach. *)
Definition executeAbandon (es : ExecutionSessions) : ExecutionSessions :=
  match es_waiting es with
  | O => es
  | S n => with_slots es (pred (es_rpcSlots es)) n
  end.

(** Its first message is Attach. *)
Definition executeAttach (es : ExecutionSessions) (node : string) (a : option AttachRequest) (now : Instant)
    : ExecutionSessions :=
  match es_waiting es with
  | O => es
  | S n =>
      match Attach es node a now with
      | (es1, Ok _) => with_slots es1 (es_rpcSlots es1) n
      | (es1, Err _) => executeAbandon es1
      end
  end.

(** Which case of the handler's last select was taken. *)
Inductive finishBy := FReceive | FSend | FDone | FCtx.

(** The error of its return; [None] while that case is not ready. *)
Definition finishErr (s : ExecutionSession) (by_ : finishBy) : option bool :=
  match by_ with
  | FReceive => v_ended (x_receiver s)
  | FSend => match x_sender s with SEnded err => Some err | _ => None end
  | FDone => if x_done s then Some true else None
  | FCtx => Some true
  end.

Definition executeFinish (es : ExecutionSessions) (p : nat) (by_ : finishBy) : option ExecutionSessions :=
  match es_heap es !! p with
  | None => Some es
  | Some s =>
      match finishErr s by_ with
      | None => Some es
      | Some err =>
          if negb (x_handler s) then Some es
          else
            closed ← close_chan (x_transportDone s);
            let s1 := upd_transport s closed false in
            Some (with_slots (with_es es p (if err then Cancel s1 "execution transport lost" else s1))
                    (pred (es_rpcSlots es)) (es_waiting es))
      end
  end.

(** ** The sender *)

Definition validateLaunch (cm : ConnManager) (s : ExecutionSession) (ctxErr : bool) (now : Instant) : result unit :=
  check! ctxErr, ErrText "context ended";
  check! x_done s, ErrText "execution cancelled before launch";
  check! x_transportDone s, ErrText "execution transport completed before launch";
  check! negb (connection_current cm (x_NodeID s) (x_connection s)),
    ErrText "execution control connection changed before launch";
  check! preparationExpired s now, ErrText "execution authority expired before launch";
  Ok tt.

(** One turn of [sendProtectedScript]: the clock before and after the read,
    what was read, whether the send succeeded, and what the last select sees. *)
Record scriptTurn := mkScriptTurn {
  st_before : Instant; st_data : string; st_err : readErr; st_after : Instant;
  st_sendOk : bool; st_done : bool; st_ctx : bool;
}.

(** The messages sent and whether it succeeded; [None] while the reader has not
    ended.  [acc] is what the digest has seen, [eofOk] the outcome of the last
    send.  A read never returns more than the buffer holds: there is no such
    turn. *)
Fixpoint sendProtectedScript (s : ExecutionSession) (turns : list scriptTurn) (offset : Z) (acc : string)
    (eofOk : bool) : option (list HubStream * bool) :=
  match turns with
  | [] => None
  | t :: rest =>
      let n := len (st_data t) in
      if MaxExecutionFrameBytes <? n then None
      else if preparationExpired s (st_before t) then Some ([], false)
      else if preparationExpired s (st_after t) then Some ([], false)
      else if (0 <? n) && (x_scriptLength s <? u64 (offset + n)) then Some ([], false)
      else
        let sent := if 0 <? n then [HScriptChunk offset (st_data t)] else [] in
        if (0 <? n) && negb (st_sendOk t) then Some (sent, false)
        else
          let offset' := if 0 <? n then u64 (offset + n) else offset in
          let acc' := if 0 <? n then acc +:+ st_data t else acc in
          match st_err t with
          | RNil =>
              if st_done t || st_ctx t then Some (sent, false)
              else '(more, ok) ← sendProtectedScript s rest offset' acc' eofOk; Some (sent ++ more, ok)
          | REOF =>
              if negb (offset' =? x_scriptLength s) || negb (bool_decide (sha256 acc' = x_scriptHash s))
              then Some (sent, false)
              else Some (sent ++ [HScriptEof offset' (x_scriptHash s)], eofOk)
          | _ => Some (sent, false)
          end
  end.

(** What the sender does next, with what its environment answers. *)
Inductive senderAct :=
| ActAttached (ok : bool)
| ActDequeue
| ActGiveUp (ctx : bool)
| ActValidate (ctx : bool) (now : Instant)
| ActScript (turns : list scriptTurn) (eofOk : bool)
| ActBeforeStart (ok : bool)
| ActLaunch (ctx : bool) (now : Instant)
| ActStart (ok : bool)
| ActForward (ok : bool).

Definition sendMsg (s : ExecutionSession) (m : HubStream) : ExecutionSession := upd_wire s (x_wire s ++ [m]).

(** The second launch check, with the expiry of the admission. *)
Definition launchCheck (cm : ConnManager) (s : ExecutionSession) (d : executionDispatch) (ctx : bool) (now : Instant)
    : result unit :=
  _ <-! validateLaunch cm s ctx now;
  check! negb (s_AdmissionExpiresUnixMilli (d_start d) =? 0)
         && (s_AdmissionExpiresUnixMilli (d_start d) <=? UnixMilli (wall now)),
    ErrText "execution authority expired before launch";
  Ok tt.

(** [sendExecution], one section or one blocking point at a time. *)
Definition sendExecution (cm : ConnManager) (s : ExecutionSession) (a : senderAct) : option ExecutionSession :=
  match x_sender s, a with
  | SAttaching, ActAttached ok =>
      let s1 := sendMsg s (HAttached (Binding s)) in
      if negb ok then Some (upd_sender s1 (SEnded true))
      else closed ← close_chan (x_attached s); Some (upd_sender (upd_attached s1 closed) SWaiting)
  | SWaiting, ActDequeue =>
      match x_start s with
      | d :: rest => Some (upd_sender (upd_start s rest) (SDequeued d))
      | [] => Some s
      end
  | SWaiting, ActGiveUp ctx =>
      if x_done s || x_transportDone s then Some (upd_sender s (SEnded false))
      else if ctx then Some (upd_sender s (SEnded true)) else Some s
  | SDequeued d, ActValidate ctx now =>
      match validateLaunch cm s ctx now with
      | Err _ => Some (upd_sender s (SEnded true))
      | Ok _ => Some (upd_sender s (if d_script d then SScript d else SReady d))
      end
  | SScript d, ActScript turns eofOk =>
      match sendProtectedScript s turns 0 "" eofOk with
      | None => Some s
      | Some (sent, ok) => Some (upd_sender (upd_wire s (x_wire s ++ sent)) (if ok then SReady d else SEnded true))
      end
  | SReady d, ActBeforeStart ok =>
      Some (upd_sender s (if d_beforeStart d && negb ok then SEnded true else SAuthorized d))
  | SAuthorized d, ActLaunch ctx now =>
      match launchCheck cm s d ctx now with
      | Err _ => Some (upd_sender s (SEnded true))
      | Ok _ => Some (upd_sender (upd_attempted s true) (SStarting d))
      end
  | SStarting d, ActStart ok =>
      Some (upd_sender (sendMsg s (HStart (d_start d))) (if ok then SStreaming else SEnded true))
  | SStreaming, ActGiveUp ctx =>
      if x_done s || x_transportDone s then Some (upd_sender s (SEnded false))
      else if ctx then Some (upd_sender s (SEnded true)) else Some s
  | SStreaming, ActForward ok =>
      match x_stdin s with
      | m :: rest =>
          Some (upd_sender (sendMsg (upd_stdin s rest) (HInput m)) (if ok then SStreaming else SEnded true))
      | [] => Some s
      end
  | _, _ => Some s
  end.

(** ** The receiver *)

(** What [stream.Recv] returns.  A nil payload, or a binding that is missing
    where one is compared, is [None]. *)
Inductive AgentStream :=
| AStarted (binding : option ExecutionBinding)
| AStartFailed (failed : option (ExecutionBinding * string))
| AStdout (data : option (Z * string))
| AStderr (data : option (Z * string))
| AOutputEof (eof : option (Z * Z))
| AResult (r : option ExecutionResult)
| AOther.

Inductive received := RecvEOF | RecvErr | RecvNil | RecvMsg (m : AgentStream).

(** Which case of the select in [deliverExecutionOutput] was taken. *)
Inductive deliverSel := DSent | DCtx | DDone | DTimer.

Definition EXECUTION_OUTPUT_STDOUT : Z := 1.
Definition EXECUTION_OUTPUT_STDERR : Z := 2.

(** [syscall.Signal(n).String()] on Linux. *)
Definition signalNames : list string :=
  ["hangup"; "interrupt"; "quit"; "illegal instruction"; "trace/breakpoint trap"; "aborted"; "bus error";
   "floating point exception"; "killed"; "user defined signal 1"; "segmentation fault"; "user defined signal 2";
   "broken pipe"; "alarm clock"; "terminated"; "stack fault"; "child exited"; "continued"; "stopped (signal)";
   "stopped"; "stopped (tty input)"; "stopped (tty output)"; "urgent I/O condition"; "CPU time limit exceeded";
   "file size limit exceeded"; "virtual timer expired"; "profiling timer expired"; "window changed";
   "I/O possible"; "power failure"; "bad system call"].

Definition signalString (n : nat) : string :=
  match n with
  | O => "signal 0"
  | S k => match signalNames !! k with Some name => name | None => "signal " +:+ string_of_bytes (dec (Z.of_nat n)) end
  end.

Definition redactedExecutionSignal (value : string) : string :=
  if existsb (fun n => bool_decide (signalString n = value)) (seq 1 64) then value else "".

(** Closing an output channel. *)
Definition closeOut (c : outChan) : option outChan :=
  closed ← close_chan (ch_closed c); Some (mkChan (ch_buf c) closed (ch_log c)).

(** [Some (c, Some ok)] is the return; [Some (c, None)] still waits. *)
Definition deliverExecutionOutput (s : ExecutionSession) (c : outChan) (data : string) (sel : deliverSel)
    : option (outChan * option bool) :=
  if MaxExecutionFrameBytes <? len data then Some (c, Some false)
  else
    match sel with
    | DSent =>
        if ch_closed c then None
        else if (length (ch_buf c) <? executionQueueFrames)%nat
        then Some (mkChan (ch_buf c ++ [data]) false (ch_log c ++ [data]), Some true)
        else Some (c, None)
    | DCtx | DTimer => Some (c, Some false)
    | DDone => Some (c, if x_done s then Some false else None)
    end.

(** [s.result <- r]: the channel holds one. *)
Definition putResult (s : ExecutionSession) (r : ExecutionResult) : option ExecutionSession :=
  match x_result s with
  | [] => Some (upd_result s [r] (x_results s ++ [r]))
  | _ => None
  end.

Definition set_ended (v : receiver) (err : bool) : receiver :=
  mkRecv (v_stdoutSeq v) (v_stderrSeq v) (v_stdoutEOF v) (v_stderrEOF v) (v_started v) (Some err).
Definition recvEnd (s : ExecutionSession) (err : bool) : ExecutionSession :=
  upd_receiver s (set_ended (x_receiver s) err).

Definition validExit (r : ExecutionResult) : bool :=
  ((0 <=? r_ExitCode r) && (r_ExitCode r <=? 255) && bool_decide (r_Signal r = ""))
  || ((r_ExitCode r =? -1) && negb (bool_decide (redactedExecutionSignal (r_Signal r) = ""))).

(** The result as the hub keeps it. *)
Definition redactResult (r : ExecutionResult) : ExecutionResult :=
  mkResult (r_Binding r) (r_State r) (r_ExitCode r) (redactedExecutionSignal (r_Signal r))
    (if bool_decide (r_Reason r = "completion not durable") then "completion metadata unconfirmed"
     else if negb (bool_decide (r_Reason r = "")) then "agent reported " +:+ r_State r else r_Reason r)
    (r_StdoutComplete r) (r_StderrComplete r).

Definition recvStarted (s : ExecutionSession) (b : option ExecutionBinding) : option ExecutionSession :=
  let v := x_receiver s in
  if v_started v || bool_decide (b = None) || negb (bool_decide (b = Binding s)) || negb (x_dispatch s)
  then Some (recvEnd s true)
  else
    closed ← close_chan (x_started s);
    Some (upd_receiver (upd_started s closed)
            (mkRecv (v_stdoutSeq v) (v_stderrSeq v) (v_stdoutEOF v) (v_stderrEOF v) true (v_ended v))).

Definition recvStartFailed (s : ExecutionSession) (f : option (ExecutionBinding * string)) : option ExecutionSession :=
  match f with
  | None => Some (recvEnd s true)
  | Some (b, st) =>
      if v_started (x_receiver s) || negb (bool_decide (Some b = Binding s)) || negb (x_dispatch s)
      then Some (recvEnd s true)
      else
        let state := if bool_decide (st = "launch_failed") || bool_decide (st = "cancelled") then st
                     else "outcome_unknown" in
        s1 ← putResult s (mkResult b state 1 "" ("agent reported " +:+ state) false false);
        out ← closeOut (x_stdout s1);
        err ← closeOut (x_stderr s1);
        Some (recvEnd (upd_stderr (upd_stdout s1 out) err) false)
  end.

Definition recvStdout (s : ExecutionSession) (d : option (Z * string)) (sel : deliverSel) : option ExecutionSession :=
  let v := x_receiver s in
  match d with
  | None => Some (recvEnd s true)
  | Some (sequence, data) =>
      if negb (v_started v) || v_stdoutEOF v || negb (sequence =? v_stdoutSeq v) then Some (recvEnd s true)
      else
        '(c, r) ← deliverExecutionOutput s (x_stdout s) data sel;
        match r with
        | None => Some s
        | Some false => Some (recvEnd s true)
        | Some true =>
            Some (upd_receiver (upd_stdout s c)
                    (mkRecv (u64 (v_stdoutSeq v + 1)) (v_stderrSeq v) (v_stdoutEOF v) (v_stderrEOF v)
                       (v_started v) (v_ended v)))
        end
  end.

Definition recvStderr (s : ExecutionSession) (d : option (Z * string)) (sel : deliverSel) : option ExecutionSession :=
  let v := x_receiver s in
  match d with
  | None => Some (recvEnd s true)
  | Some (sequence, data) =>
      if negb (v_started v) || v_stderrEOF v || negb (sequence =? v_stderrSeq v) then Some (recvEnd s true)
      else
        '(c, r) ← deliverExecutionOutput s (x_stderr s) data sel;
        match r with
        | None => Some s
        | Some false => Some (recvEnd s true)
        | Some true =>
            Some (upd_receiver (upd_stderr s c)
                    (mkRecv (v_stdoutSeq v) (u64 (v_stderrSeq v + 1)) (v_stdoutEOF v) (v_stderrEOF v)
                       (v_started v) (v_ended v)))
        end
  end.

Definition recvOutputEof (s : ExecutionSession) (e : option (Z * Z)) : option ExecutionSession :=
  let v := x_receiver s in
  match e with
  | None => Some (recvEnd s true)
  | Some (output, sequence) =>
      if negb (v_started v) then Some (recvEnd s true)
      else if output =? EXECUTION_OUTPUT_STDOUT then
        if v_stdoutEOF v || negb (sequence =? v_stdoutSeq v) then Some (recvEnd s true)
        else
          c ← closeOut (x_stdout s);
          Some (upd_receiver (upd_stdout s c)
                  (mkRecv (v_stdoutSeq v) (v_stderrSeq v) true (v_stderrEOF v) (v_started v) (v_ended v)))
      else if output =? EXECUTION_OUTPUT_STDERR then
        if v_stderrEOF v || negb (sequence =? v_stderrSeq v) then Some (recvEnd s true)
        else
          c ← closeOut (x_stderr s);
          Some (upd_receiver (upd_stderr s c)
                  (mkRecv (v_stdoutSeq v) (v_stderrSeq v) (v_stdoutEOF v) true (v_started v) (v_ended v)))
      else Some (recvEnd s true)
  end.

Definition recvResult (s : ExecutionSession) (r : option ExecutionResult) : option ExecutionSession :=
  let v := x_receiver s in
  match r with
  | None => Some (recvEnd s true)
  | Some r =>
      if negb (v_started v) || negb (v_stdoutEOF v) || negb (v_stderrEOF v)
         || negb (bool_decide (Some (r_Binding r) = Binding s))
         || (bool_decide (r_State r = "exited") && (negb (r_StdoutComplete r) || negb (r_StderrComplete r)))
      then Some (recvEnd s true)
      else if negb (bool_decide (r_State r ∈ ["exited"; "cancelled"; "transport_lost"; "outcome_unknown"]))
      then Some (recvEnd s true)
      else if bool_decide (r_State r = "exited") && negb (validExit r) then Some (recvEnd s true)
      else s1 ← putResult s (redactResult r); Some (recvEnd s1 false)
  end.

Definition attached_stream (s : ExecutionSession) : bool := match x_sender s with SNone => false | _ => true end.

(** One turn of [receiveExecution]; nothing happens once it returned. *)
Definition receiveExecution (s : ExecutionSession) (m : received) (sel : deliverSel) : option ExecutionSession :=
  if negb (attached_stream s) || bool_decide (is_Some (v_ended (x_receiver s))) then Some s
  else
    match m with
    | RecvEOF | RecvErr | RecvNil => Some (recvEnd s true)
    | RecvMsg (AStarted b) => recvStarted s b
    | RecvMsg (AStartFailed f) => recvStartFailed s f
    | RecvMsg (AStdout d) => recvStdout s d sel
    | RecvMsg (AStderr d) => recvStderr s d sel
    | RecvMsg (AOutputEof e) => recvOutputEof s e
    | RecvMsg (AResult r) => recvResult s r
    | RecvMsg AOther => Some (recvEnd s true)
    end.

(** ** Interleavings *)

(** The sections of both files, and the consumers of a session's channels.  The
    connection manager and the terminal registry move on their own. *)
Inductive eop :=
| XConnections (cm : ConnManager)
| XTerminals (ts : TerminalSessions)
| XSetCapabilities (conn : AgentConn) (node : string) (caps : option ExecutionCapabilities)
| XCancel (p : nat) (reason : string)
| XRegister (node id actor runAs command : string) (o : RegisterOptions) (now : Time)
| XRemove (node id : string)
| XEndConnection (node : string) (stream : option nat)
| XDeliverPrepared (p : nat) (msg : PreparedMsg) (now : Instant)
| XConfigure (p : nat) (enhanced : bool) (hash : string) (length : Z) (limits : option ExecutionLimits)
| XIssueAttach (p : nat) (now : Instant) (rnd : string * bool)
| XEnter
| XAbandon
| XAttach (node : string) (a : option AttachRequest) (now : Instant)
| XDispatch (p : nat) (beforeStart : bool) (now : Instant)
| XDispatchProtected (p : nat) (receipt : string) (expiry : Z) (policy : string) (script beforeStart : bool)
    (now : Instant)
| XSendInput (p : nat) (data : string) (sel : enqueueSel)
| XCloseInput (p : nat) (sel : enqueueSel)
| XSend (p : nat) (a : senderAct)
| XReceive (p : nat) (m : received) (sel : deliverSel)
| XTakeStdout (p : nat)
| XTakeStderr (p : nat)
| XTakeResult (p : nat)
| XFinish (p : nat) (by_ : finishBy).

Definition takeOut (c : outChan) : outChan := mkChan (tail (ch_buf c)) (ch_closed c) (ch_log c).

(** An operation on the session at [p]. *)
Definition at_session (es : ExecutionSessions) (p : nat) (f : ExecutionSession → option ExecutionSession)
    : option ExecutionSessions :=
  match es_heap es !! p with
  | None => Some es
  | Some s => s' ← f s; Some (with_es es p s')
  end.

Definition estep (es : ExecutionSessions) (o : eop) : option ExecutionSessions :=
  let cm := es_connections es in
  match o with
  | XConnections cm' => Some (with_connections es cm')
  | XTerminals ts => Some (with_terminals es ts)
  | XSetCapabilities conn node caps => Some (setCapabilities es conn node caps).1
  | XCancel p reason => at_session es p (fun s => Some (Cancel s reason))
  | XRegister node id actor runAs command o now => Some (Register es node id actor runAs command o now).1
  | XRemove node id => Some (removeSession es node id).1
  | XEndConnection node stream => Some (endConnectionLocked es node stream).1
  | XDeliverPrepared p msg now => at_session es p (fun s => fst <$> deliverPrepared s msg now)
  | XConfigure p enhanced hash length limits =>
      at_session es p (fun s => Some (Configure s enhanced hash (u64 length) limits).1)
  | XIssueAttach p now rnd => at_session es p (fun s => Some (IssueAttach s now rnd).1)
  | XEnter => Some (executeEnter es).1
  | XAbandon => Some (executeAbandon es)
  | XAttach node a now => Some (executeAttach es node a now)
  | XDispatch p before now => at_session es p (fun s => fst <$> dispatchStandard cm s before now)
  | XDispatchProtected p receipt expiry policy script before now =>
      at_session es p (fun s => fst <$> DispatchProtected cm s receipt expiry policy script before now)
  | XSendInput p data sel => at_session es p (fun s => Some (SendInput s data sel).1)
  | XCloseInput p sel => at_session es p (fun s => Some (CloseInput s sel).1)
  | XSend p a => at_session es p (fun s => sendExecution cm s a)
  | XReceive p m sel => at_session es p (fun s => receiveExecution s m sel)
  | XTakeStdout p => at_session es p (fun s => Some (upd_stdout s (takeOut (x_stdout s))))
  | XTakeStderr p => at_session es p (fun s => Some (upd_stderr s (takeOut (x_stderr s))))
  | XTakeResult p => at_session es p (fun s => Some (upd_result s [] (x_results s)))
  | XFinish p by_ => executeFinish es p by_
  end.

Fixpoint erun (es : ExecutionSessions) (os : list eop) : option ExecutionSessions :=
  match os with
  | [] => Some es
  | o :: t => es1 ← estep es o; erun es1 t
  end.

(** ** The stream protocol

    What an agent accepts on a stream, as an automaton: Attached with its
    binding, the chunks of a protected script at their offsets and its end with
    the agreed length and digest, one Start, which a command with a script has only
    after the end of it, then input frames numbered from zero and at most one end of
    input, after which nothing follows. *)

(** What both sides agreed on when the command was prepared. *)
Record terms := mkTerms { tm_binding : option ExecutionBinding; tm_scripted : bool; tm_hash : string; tm_length : Z }.

(** [PAttached acc]: [acc] is the script received so far. *)
Inductive pstate := PInit | PAttached (acc : string) | PScripted | PStarted (n : nat) (closed : bool).

#[export] Instance pstate_eq_dec : EqDecision pstate.
Proof. solve_decision. Defined.

Definition pstep (tm : terms) (a : pstate) (m : HubStream) : option pstate :=
  match a, m with
  | PInit, HAttached b => if bool_decide (b = tm_binding tm) then Some (PAttached "") else None
  | PAttached acc, HScriptChunk o data =>
      if (o =? len acc) && (0 <? len data) && (len data <=? MaxExecutionFrameBytes)
         && (len acc + len data <=? tm_length tm)
      then Some (PAttached (acc +:+ data)) else None
  | PAttached acc, HScriptEof n h =>
      if (n =? tm_length tm) && (len acc =? n) && bool_decide (h = tm_hash tm) && bool_decide (sha256 acc = h)
      then Some PScripted else None
  | PAttached acc, HStart st =>
      if bool_decide (acc = "") && negb (tm_scripted tm) && bool_decide (Some (s_Binding st) = tm_binding tm) then Some (PStarted 0 false)
      else None
  | PScripted, HStart st => if bool_decide (Some (s_Binding st) = tm_binding tm) then Some (PStarted 0 false) else None
  | PStarted n false, HInput (MsgData sequence data) =>
      if (sequence =? u64 (Z.of_nat n)) && (len data <=? MaxExecutionFrameBytes) then Some (PStarted (S n) false)
      else None
  | PStarted n false, HInput (MsgEOF sequence) =>
      if sequence =? u64 (Z.of_nat n) then Some (PStarted n true) else None
  | _, _ => None
  end.

Fixpoint prun (tm : terms) (a : pstate) (ms : list HubStream) : option pstate :=
  match ms with
  | [] => Some a
  | m :: t => a1 ← pstep tm a m; prun tm a1 t
  end.

(** The terms of a session.  It has a script when it is protected and was configured
    with the digest of one. *)
Definition terms_of (s : ExecutionSession) : terms :=
  mkTerms (Binding s) (x_enhanced s && negb (bool_decide (x_scriptHash s = ""))) (x_scriptHash s) (x_scriptLength s).

Definition is_start (m : HubStream) : option ExecutionStart := match m with HStart st => Some st | _ => None end.
Definition is_input (m : HubStream) : option inputMsg := match m with HInput i => Some i | _ => None end.

(** The Starts and the input frames of a stream. *)
Definition starts (ms : list HubStream) : list ExecutionStart := omap is_start ms.
Definition inputs (ms : list HubStream) : list inputMsg := omap is_input ms.

(** ** Invariant *)

(** A dispatch agrees with the preparation the session accepted. *)
Definition dispatch_ok (s : ExecutionSession) (d : executionDispatch) : Prop :=
  ∃ p b i policy receipt expires,
    x_prepared s = Some p ∧ pm_Binding p = Some b ∧ pm_Identity p = Some i ∧
    d_start d = startFor p b i policy receipt expires ∧
    (x_enhanced s = false → policy = "standard-v1" ∧ receipt = "" ∧ expires = 0 ∧ d_script d = false) ∧
    (x_enhanced s = true → 0 < len receipt ≤ 16384 ∧ expires ≤ ExpiresUnixMilli b ∧ d_beforeStart d = true ∧
                           (x_scriptHash s ≠ "" → d_script d = true)).

(** What validation established of an accepted preparation. *)
Definition prepared_ok (s : ExecutionSession) (p : PreparedMsg) : Prop :=
  ∃ b i, pm_Binding p = Some b ∧ pm_Identity p = Some i ∧ pm_Limits p = Some (x_limits s) ∧
    pm_CommandSha256 p = x_commandHash s ∧ ExecutionId b = x_ID s ∧ NodeId b = x_NodeID s ∧
    BootId b = x_bootID s ∧ identityInvalid (x_RequestedUser s) (Some i) = false.

Record prep_ok (s : ExecutionSession) : Prop := mkPrepOk {
  so_ready : x_preparedReady s = bool_decide (is_Some (x_prepared s)) || bool_decide (is_Some (x_prepareErr s));
  so_err : is_Some (x_prepared s) → x_prepareErr s = None;
  so_prepared : ∀ p, x_prepared s = Some p → prepared_ok s p;
  so_issued : x_ticketIssued s = true → is_Some (x_prepared s);
  so_used : x_ticketUsed s = true → x_ticketIssued s = true;
  so_dispatched : x_dispatch s = true → x_ticketUsed s = true;
  so_stream : attached_stream s = x_ticketUsed s;
  so_handler : x_handler s = x_ticketUsed s && negb (x_transportDone s);
  so_transport : x_transportDone s = true → x_ticketUsed s = true;
  so_length : 0 ≤ x_scriptLength s ≤ 16777216;
}.

(** The dispatch a sender holds. *)
Definition held (st : sender) : option executionDispatch :=
  match st with
  | SDequeued d | SScript d | SReady d | SAuthorized d | SStarting d => Some d
  | _ => None
  end.

(** Whether the sender can still take a dispatch, or has ended. *)
Definition early (st : sender) : bool := match st with SNone | SAttaching | SWaiting | SEnded _ => true | _ => false end.

(** Whether a Start was attempted when the sender is at [st]. *)
Definition attempted_ok (st : sender) (attempted : bool) : Prop :=
  match st with
  | SEnded _ => True
  | SStarting _ | SStreaming => attempted = true
  | _ => attempted = false
  end.

(** Where the protocol is when the sender is at [st]. *)
Definition phase_ok (st : sender) (a : pstate) : Prop :=
  match st with
  | SNone | SAttaching => a = PInit
  | SWaiting | SDequeued _ => a = PAttached ""
  | SScript d => a = PAttached "" ∧ d_script d = true
  | SReady d | SAuthorized d | SStarting d => a = if d_script d then PScripted else PAttached ""
  | SStreaming => ∃ n c, a = PStarted n c
  | SEnded _ => True
  end.

(** The script of a dispatch is on the stream, whole. *)
Definition script_sent (s : ExecutionSession) (d : executionDispatch) : Prop :=
  d_script d = true → HScriptEof (x_scriptLength s) (x_scriptHash s) ∈ x_wire s.

Record send_ok (s : ExecutionSession) : Prop := mkSendOk {
  sk_start : x_start s = [] ∨ ∃ d, x_start s = [d] ∧ dispatch_ok s d ∧ early (x_sender s) = true;
  sk_dispatch : x_dispatch s = false → x_start s = [] ∧ early (x_sender s) = true;
  sk_held : ∀ d, held (x_sender s) = Some d → dispatch_ok s d;
  sk_attached : (x_sender s = SNone ∨ x_sender s = SAttaching) → x_attached s = false ∧ x_wire s = [];
  sk_attempted : attempted_ok (x_sender s) (x_startAttempted s);
  sk_started : ∀ st, st ∈ starts (x_wire s) →
                 x_startAttempted s = true ∧ x_dispatch s = true ∧
                 ∃ d, d_start d = st ∧ dispatch_ok s d ∧ script_sent s d;
  sk_wire : ∃ a, prun (terms_of s) PInit (x_wire s) = Some a ∧ phase_ok (x_sender s) a ∧
              (x_sender s = SStreaming → prun (terms_of s) (PStarted 0 false) (HInput <$> inputs (x_wire s)) = Some a) ∧
              (held (x_sender s) ≠ None ∨ x_sender s = SWaiting → inputs (x_wire s) = []);
  sk_input : ∃ n, prun (terms_of s) (PStarted 0 false) (HInput <$> (inputs (x_wire s) ++ x_stdin s))
                  = Some (PStarted n (x_inputClosed s)) ∧ u64 (Z.of_nat n) = x_inputSequence s;
}.

Record recv_ok (s : ExecutionSession) : Prop := mkRecvOk {
  sr_started : x_started s = v_started (x_receiver s);
  sr_none : x_sender s = SNone → x_receiver s = newRecv;
  sr_eof : v_stdoutEOF (x_receiver s) = true ∨ v_stderrEOF (x_receiver s) = true → v_started (x_receiver s) = true;
  sr_dispatched : v_started (x_receiver s) = true → x_dispatch s = true;
  sr_running : v_ended (x_receiver s) = None →
     ch_closed (x_stdout s) = v_stdoutEOF (x_receiver s) ∧ ch_closed (x_stderr s) = v_stderrEOF (x_receiver s) ∧
     x_result s = [] ∧ x_results s = [];
  sr_out : v_stdoutSeq (x_receiver s) = u64 (Z.of_nat (length (ch_log (x_stdout s)))) ∧
           v_stderrSeq (x_receiver s) = u64 (Z.of_nat (length (ch_log (x_stderr s))));
  sr_results : (length (x_results s) ≤ 1)%nat ∧ (length (x_result s) ≤ 1)%nat;
  sr_result : ∀ r, r ∈ x_results s → Some (r_Binding r) = Binding s ∧ x_dispatch s = true ∧
     ch_closed (x_stdout s) = true ∧ ch_closed (x_stderr s) = true ∧
     (r_State r = "exited" → r_StdoutComplete r = true ∧ r_StderrComplete r = true ∧
        v_stdoutEOF (x_receiver s) = true ∧ v_stderrEOF (x_receiver s) = true);
}.

Definition sess_ok (s : ExecutionSession) : Prop := prep_ok s ∧ send_ok s ∧ recv_ok s.

(** The invariant is kept by an operation that always has a result. *)
Definition keeps (f : ExecutionSession → option ExecutionSession) : Prop :=
  ∀ s, sess_ok s → ∃ s', f s = Some s' ∧ sess_ok s'.

(** ** Lemmas *)

Lemma prun_app b a l k : prun b a (l ++ k) = a1 ← prun b a l; prun b a1 k.
Proof.
  revert a. induction l as [|m l IH]; intros a; [done|]. simpl.
  destruct (pstep b a m); simpl; [apply IH | done].
Qed.

Lemma inputs_app l k : inputs (l ++ k) = inputs l ++ inputs k.
Proof. apply omap_app. Qed.

Lemma starts_app l k : starts (l ++ k) = starts l ++ starts k.
Proof. apply omap_app. Qed.

(** The script is a run of the protocol; a success ends it. *)
Lemma script_run s turns acc eofOk sent ok :
  0 ≤ x_scriptLength s ≤ 16777216 → len acc ≤ x_scriptLength s →
  sendProtectedScript s turns (len acc) acc eofOk = Some (sent, ok) →
  ∃ a, prun (terms_of s) (PAttached acc) sent = Some a ∧ (ok = true → a = PScripted) ∧ starts sent = [] ∧ inputs sent = [].
Proof.
  intros HL. revert acc sent. induction turns as [|t rest IH]; intros acc sent Hacc H; [discriminate H|].
  cbn [sendProtectedScript] in H. set (n := len (st_data t)) in *.
  destruct (MaxExecutionFrameBytes <? n) eqn:Emax; [discriminate H|].
  destruct (preparationExpired s (st_before t)); [simplify_eq; by eexists|].
  destruct (preparationExpired s (st_after t)); [simplify_eq; by eexists|].
  pose proof (len_nonneg acc) as Hnn. unfold MaxExecutionFrameBytes in Emax. z_hyps.
  destruct (0 <? n) eqn:En; z_hyps.
  - assert (Hu : u64 (len acc + n) = len (acc +:+ st_data t)).
    { unfold u64. rewrite Z.mod_small by lia. by rewrite len_app. }
    rewrite Hu in H. rewrite !andb_true_l in H.
    destruct (x_scriptLength s <? len (acc +:+ st_data t)) eqn:Ele; [simplify_eq; by eexists|]. z_hyps.
    assert (Hc : pstep (terms_of s) (PAttached acc) (HScriptChunk (len acc) (st_data t)) = Some (PAttached (acc +:+ st_data t))).
    { simpl. rewrite Z.eqb_refl. fold n. rewrite len_app in Ele. fold n in Ele.
      unfold MaxExecutionFrameBytes.
      rewrite (proj2 (Z.ltb_lt 0 n)), (proj2 (Z.leb_le n _)), (proj2 (Z.leb_le (len acc + n) _)) by lia. done. }
    assert (Hstop : ∃ a, prun (terms_of s) (PAttached acc) [HScriptChunk (len acc) (st_data t)] = Some a)
      by (eexists; cbn -[pstep]; by rewrite Hc).
    destruct Hstop as [a0 Ha0].
    destruct (negb (st_sendOk t)); [simplify_eq; by eexists|].
    destruct (st_err t); try (simplify_eq; by eexists).
    + destruct (st_done t || st_ctx t); [simplify_eq; by eexists|].
      destruct (sendProtectedScript s rest _ _ eofOk) as [[more ok']|] eqn:E; [|discriminate H].
      simplify_eq/=. destruct (IH _ _ Ele E) as (a & Ha & Hok & Hs & Hi).
      exists a. cbn -[pstep]. rewrite Hc. by split_and!.
    + destruct (_ || _) eqn:E in H; [simplify_eq; by eexists|]. simplify_eq. bool_hyps. z_hyps.
      exists PScripted. split_and!; try done. cbn -[pstep]. rewrite Hc. simpl.
      rewrite !bool_decide_eq_true_2 by done. by rewrite !(proj2 (Z.eqb_eq _ _)).
  - rewrite !andb_false_l in H. destruct (st_err t); try (simplify_eq; by eexists).
    + destruct (st_done t || st_ctx t); [simplify_eq; by eexists|].
      destruct (sendProtectedScript s rest _ _ eofOk) as [[more ok']|] eqn:E; [|discriminate H].
      simplify_eq/=. by apply (IH acc).
    + destruct (_ || _) eqn:E in H; [simplify_eq; by eexists|]. simplify_eq. bool_hyps. z_hyps.
      exists PScripted. split_and!; try done. simpl.
      rewrite !bool_decide_eq_true_2 by done. by rewrite !(proj2 (Z.eqb_eq _ _)).
Qed.

(** A script is complete only with its end. *)
Lemma scripted_eof tm a ms : prun tm a ms = Some PScripted → a ≠ PScripted →
  HScriptEof (tm_length tm) (tm_hash tm) ∈ ms.
Proof.
  revert a. induction ms as [|m ms IH]; intros a H Ha; simpl in H; [by simplify_eq|].
  destruct (pstep tm a m) as [a1|] eqn:E; [|discriminate H].
  destruct (decide (a1 = PScripted)) as [->|Hne]; [|right; by apply (IH a1)].
  destruct a, m as [| |[]| | |]; simpl in E; try discriminate E; try (destruct closed; try discriminate E); guards_in E.
  bool_hyps. z_hyps. subst. left.
Qed.

(** An operation that leaves a group of fields alone keeps its invariant. *)
Ltac frame :=
  match goal with
  | H : prep_ok _ |- prep_ok _ => destruct H; constructor; assumption
  | H : send_ok _ |- send_ok _ => destruct H; constructor; assumption
  | H : recv_ok _ |- recv_ok _ => destruct H; constructor; assumption
  end.

Lemma new_session_ok node id actor runAs conn boot command :
  sess_ok (newSession node id actor runAs conn boot command).
Proof.
  split; [|split]; constructor; simpl; try done; auto; try (intros ? H; by apply not_elem_of_nil in H).
  - exists PInit. by split_and!.
  - by exists 0%nat.
  - by intros [].
Qed.

(** Input frames are accepted whatever the binding. *)
Lemma prun_inputs b b' n c l : prun b (PStarted n c) (HInput <$> l) = prun b' (PStarted n c) (HInput <$> l).
Proof.
  revert n c. induction l as [|m l IH]; intros n c; [done|].
  rewrite !fmap_cons. cbn [prun]. change (pstep b (PStarted n c) (HInput m)) with (pstep b' (PStarted n c) (HInput m)).
  destruct (pstep b' (PStarted n c) (HInput m)) as [a|] eqn:E; [|done]. simpl.
  assert (∃ n' c', a = PStarted n' c') as (n' & c' & ->); [|apply IH].
  clear -E. simpl in E. destruct c, m; try discriminate E; guards_in E; eauto.
Qed.

(** Before its preparation is accepted, a session has done nothing. *)
Lemma unprepared s : sess_ok s → x_prepared s = None →
  x_ticketIssued s = false ∧ x_ticketUsed s = false ∧ x_dispatch s = false ∧ x_transportDone s = false ∧
  x_sender s = SNone ∧ x_start s = [] ∧ x_wire s = [] ∧ x_receiver s = newRecv ∧ x_results s = [].
Proof.
  intros (HP & HS & HR) Ep.
  assert (H1 : x_ticketIssued s = false).
  { destruct (x_ticketIssued s) eqn:E; [|done]. apply (so_issued _ HP) in E as [? ?]. congruence. }
  assert (H2 : x_ticketUsed s = false).
  { destruct (x_ticketUsed s) eqn:E; [|done]. apply (so_used _ HP) in E. congruence. }
  assert (H3 : x_dispatch s = false).
  { destruct (x_dispatch s) eqn:E; [|done]. apply (so_dispatched _ HP) in E. congruence. }
  assert (H4 : x_transportDone s = false).
  { destruct (x_transportDone s) eqn:E; [|done]. apply (so_transport _ HP) in E. congruence. }
  assert (H5 : x_sender s = SNone).
  { pose proof (so_stream _ HP) as E. unfold attached_stream in E. rewrite H2 in E. by destruct (x_sender s). }
  destruct (sk_dispatch _ HS H3) as [H6 _]. destruct (sk_attached _ HS (or_introl H5)) as [_ H7].
  pose proof (sr_none _ HR H5) as H8. destruct (sr_running _ HR) as (_ & _ & _ & H9); [by rewrite H8|].
  by split_and!.
Qed.

Lemma Cancel_keeps reason : keeps (fun s => Some (Cancel s reason)).
Proof.
  intros s (HP & HS & HR). eexists; split; [done|]. unfold Cancel.
  destruct (x_done s); [by split|]. split; [|split]; frame.
Qed.

Lemma prepared_ok_valid s p now b : validatePrepared s p now = Ok b →
  pm_Binding p = Some b ∧ prepared_ok s p.
Proof.
  unfold validatePrepared. intros H. guards_in H. bool_hyps. split; [done|].
  destruct (pm_Identity p) as [i|] eqn:Ei; [|done].
  unfold prepared_ok. exists b, i. by split_and!.
Qed.

(** The sender's invariant of a session without a stream. *)
Lemma send_idle s s' : send_ok s → x_sender s = SNone → x_start s = [] → x_wire s = [] →
  x_sender s' = SNone → x_start s' = [] → x_wire s' = [] → x_attached s' = x_attached s →
  x_startAttempted s' = x_startAttempted s → x_stdin s' = x_stdin s → x_inputClosed s' = x_inputClosed s →
  x_inputSequence s' = x_inputSequence s → send_ok s'.
Proof.
  intros [K1 K2 K3 K4 K5 K6 K7 (n & K8 & K9)] E1 E2 E3 F1 F2 F3 F4 F5 F6 F7 F8.
  rewrite E1 in K4, K5. rewrite E3 in K4, K8.
  constructor; rewrite ?F1, ?F2, ?F3, ?F4, ?F5, ?F6, ?F7, ?F8; try done;
    [by left | by intros st ?%not_elem_of_nil | exists PInit; by split_and! |].
  exists n. by rewrite (prun_inputs _ (terms_of s)).
Qed.

Lemma deliverPrepared_keeps p now : keeps (fun s => fst <$> deliverPrepared s p now).
Proof.
  intros s Hok. unfold deliverPrepared.
  destruct (x_prepared s) as [p0|] eqn:Ep; [by exists s|].
  destruct (x_prepareErr s) as [e0|] eqn:Ee; [by exists s|].
  destruct (unprepared s Hok Ep) as (H1 & H2 & H3 & H4 & H5 & H6 & H7 & H8 & H9).
  destruct Hok as (HP & HS & HR).
  pose proof (so_ready _ HP) as Hr. rewrite Ep, Ee in Hr. rewrite Hr. cbn [bool_decide]. simpl.
  eexists; split; [done|].
  destruct (validatePrepared s p (wall now)) as [b|e] eqn:Ev.
  - apply prepared_ok_valid in Ev as [Hb Hpok]. split; [|split].
    + destruct HP. constructor; simpl; try done; eauto. intros q ?; simplify_eq. exact Hpok.
    + by apply (send_idle s).
    + destruct HR as [R1 R2 R3 R4 R5 R6 R7 R8]. rewrite H8 in *.
      constructor; simpl; rewrite ?H8, ?H9; try done; [by rewrite H9 in R5 | by rewrite H9 in R7 |].
      by intros r ?%not_elem_of_nil.
  - split; [|split].
    + destruct HP. constructor; simpl; try done; by rewrite ?Ep, ?H1.
    + by apply (send_idle s).
    + destruct HR as [R1 R2 R3 R4 R5 R6 R7 R8]. constructor; simpl; try done.
      rewrite H9. by intros r ?%not_elem_of_nil.
Qed.

Lemma Configure_keeps enhanced hash length limits :
  keeps (fun s => Some (Configure s enhanced hash (u64 length) limits).1).
Proof.
  intros s Hok. eexists; split; [done|]. unfold Configure.
  destruct limits as [l|]; [|done]. destruct (x_prepared s) as [p0|] eqn:Ep; [done|].
  cbn [orb]. destruct (_ || _ || _ || _) eqn:E; [done|]. simpl. bool_hyps. z_hyps.
  assert (0 ≤ u64 length ≤ 16777216) as Hlen.
  { change (Z.shiftl 16 20) with 16777216 in *. unfold u64 in *. pose proof (Z.mod_pos_bound length (2 ^ 64)). lia. }
  clear H H0 H1 H2.
  destruct (unprepared s Hok Ep) as (H1 & H2 & H3 & H4 & H5 & H6 & H7 & H8 & H9).
  destruct Hok as (HP & HS & HR). split; [|split].
  - destruct HP. constructor; simpl; try done. intros p. by rewrite Ep.
  - by apply (send_idle s).
  - frame.
Qed.

Lemma not_expired s now : preparationExpired s now = false →
  ∃ p b deadline, x_prepared s = Some p ∧ pm_Binding p = Some b ∧ x_deadline s = Some deadline ∧
    mono now < deadline ∧ UnixMilli (wall now) < ExpiresUnixMilli b.
Proof.
  unfold preparationExpired. intros H. guards_in H. bool_hyps. unfold Before in *. z_hyps. eauto 10.
Qed.

Lemma IssueAttach_keeps now rnd : keeps (fun s => Some (IssueAttach s now rnd).1).
Proof.
  intros s Hok. eexists; split; [done|]. unfold IssueAttach.
  destruct (x_ticketIssued s || preparationExpired s now) eqn:E; [done|]. bool_hyps.
  apply not_expired in H0 as (p & b & dl & Hp & _).
  destruct Hok as (HP & HS & HR).
  assert (Hu : x_ticketUsed s = false).
  { destruct (x_ticketUsed s) eqn:E'; [|done]. apply (so_used _ HP) in E'. congruence. }
  destruct (negb rnd.2); (split; [|split]); [|frame|frame| |frame|frame];
    destruct HP; constructor; simpl; rewrite ?Hu in *; done || eauto.
Qed.

Lemma attachSession_ok s a now : sess_ok s → sess_ok (attachSession s a now).1.
Proof.
  intros Hok. unfold attachSession. destruct (x_done s); [done|].
  destruct (_ || _ || _ || _ || _) eqn:E; [done|]. simpl. bool_hyps.
  destruct Hok as (HP & HS & HR).
  assert (Hn : x_sender s = SNone).
  { pose proof (so_stream _ HP) as Es. unfold attached_stream in Es.
    destruct (x_sender s); congruence. }
  assert (Ht : x_transportDone s = false).
  { destruct (x_transportDone s) eqn:Et; [|done]. apply (so_transport _ HP) in Et. congruence. }
  split; [|split].
  - destruct HP. constructor; simpl; rewrite ?Ht; done || eauto.
  - destruct HS as [K1 K2 K3 K4 K5 K6 (w & W1 & W2 & _ & _) K8]. rewrite Hn in *.
    constructor; simpl; try done; auto.
    exists w. split_and!; try done. by intros [|].
  - destruct HR as [R1 R2 R3 R4 R5 R6 R7 R8]. rewrite (R2 Hn) in *. by constructor.
Qed.

Lemma enqueue_ok s d : sess_ok s → x_dispatch s = false → x_ticketUsed s = true → dispatch_ok s d →
  ∃ s', enqueueStart s d = Some s' ∧ sess_ok s'.
Proof.
  intros (HP & HS & HR) Hd Hu Hok. unfold enqueueStart.
  destruct (sk_dispatch _ HS Hd) as [-> He]. eexists; split; [done|]. split; [|split].
  - destruct HP. by constructor.
  - destruct HS as [K1 K2 K3 K4 K5 K6 K7 K8]. constructor; simpl; try done; eauto.
    intros st Hst. destruct (K6 st Hst) as (_ & ? & _). congruence.
  - destruct HR as [R1 R2 R3 R4 R5 R6 R7 R8]. constructor; simpl; try done.
    intros r Hr. destruct (R8 r Hr) as (_ & ? & _). congruence.
Qed.

Lemma dispatchStandard_keeps cm before now : keeps (fun s => fst <$> dispatchStandard cm s before now).
Proof.
  intros s Hok. unfold dispatchStandard. destruct (_ || _ || _ || _ || _) eqn:E; [by exists s|].
  destruct (x_done s); [by exists s|]. bool_hyps.
  destruct (not_expired s now) as (p & b & dl & Hp & Hb & _); [done|].
  destruct (so_prepared _ (proj1 Hok) p Hp) as (b' & i & Hb' & Hi & _).
  destruct (enqueue_ok s (mkDispatch (startFor p b i "standard-v1" "" 0) false before)) as (s' & Hs & Hok'); try done.
  - exists p, b, i, "standard-v1", "", 0. split_and!; try done. congruence.
  - exists s'. unfold dispatchWith. rewrite Hp. simpl. rewrite Hb, Hi. simpl. by rewrite Hs.
Qed.

Lemma DispatchProtected_keeps cm receipt expiry policy script before now :
  keeps (fun s => fst <$> DispatchProtected cm s receipt expiry policy script before now).
Proof.
  intros s Hok. unfold DispatchProtected.
  destruct (_ || _) eqn:E; [by exists s|].
  destruct (x_done s); [by exists s|]. bool_hyps.
  destruct (not_expired s now) as (p & b & dl & Hp & Hb & _); [done|].
  destruct (so_prepared _ (proj1 Hok) p Hp) as (b' & i & Hb' & Hi & _).
  unfold Binding in *. rewrite Hp, Hb in *. z_hyps.
  destruct (enqueue_ok s (mkDispatch (startFor p b i policy receipt expiry) script true)) as (s' & Hs & Hok'); try done.
  - exists p, b, i, policy, receipt, expiry. split_and!; try done; [congruence|]. intros _.
    change (Z.shiftl 16 10) with 16384 in *.
    assert (0 < len receipt) by (pose proof (len_nonneg receipt); lia).
    split_and!; try lia; try done. intros Hh. destruct script; [done|].
    match goal with H : (negb (len (x_scriptHash s) =? 0) && _) = false |- _ => revert H end.
    simpl. rewrite andb_true_r, negb_false_iff. intros Hz%Z.eqb_eq.
    unfold len in Hz. by destruct (x_scriptHash s).
  - exists s'. unfold dispatchWith. rewrite Hp. simpl. rewrite Hb, Hi. simpl. by rewrite Hs.
Qed.

(** Queuing one more frame. *)
Lemma input_queued s m seq' closed' : send_ok s →
  (∀ n, u64 (Z.of_nat n) = x_inputSequence s →
     ∃ n', pstep (terms_of s) (PStarted n (x_inputClosed s)) (HInput m) = Some (PStarted n' closed') ∧
           u64 (Z.of_nat n') = seq') →
  send_ok (upd_input s (x_stdin s ++ [m]) seq' closed').
Proof.
  intros [K1 K2 K3 K4 K5 K6 K7 (n & K8 & K9)] Hm. constructor; simpl; try done.
  destruct (Hm n K9) as (n' & Hstep & Hn'). exists n'. split; [|done].
  rewrite app_assoc, fmap_app, prun_app.
  change (terms_of (upd_input s (x_stdin s ++ [m]) seq' closed')) with (terms_of s).
  rewrite K8. cbn -[pstep]. by rewrite Hstep.
Qed.

Lemma u64_S n : u64 (u64 (Z.of_nat n) + 1) = u64 (Z.of_nat (S n)).
Proof. unfold u64. rewrite Nat2Z.inj_succ, Z.add_mod_idemp_l by lia. done. Qed.

Lemma SendInput_keeps data sel : keeps (fun s => Some (SendInput s data sel).1).
Proof.
  intros s Hok. eexists; split; [done|]. unfold SendInput.
  destruct (MaxExecutionFrameBytes <? len data) eqn:El; [done|].
  destruct (x_inputClosed s) eqn:Ec; [done|].
  destruct (enqueueInput s sel) as [[[]|]|]; [|done..].
  destruct Hok as (HP & HS & HR). split; [frame|split; [|frame]].
  apply input_queued; [done|]. intros n Hn. exists (S n). rewrite Ec. simpl.
  rewrite Hn, Z.eqb_refl, <- Hn, u64_S. z_hyps. by rewrite (proj2 (Z.leb_le _ _)) by lia.
Qed.

Lemma CloseInput_keeps sel : keeps (fun s => Some (CloseInput s sel).1).
Proof.
  intros s Hok. eexists; split; [done|]. unfold CloseInput.
  destruct (x_inputClosed s) eqn:Ec; [done|].
  destruct (enqueueInput s sel) as [[[]|]|]; [|done..].
  destruct Hok as (HP & HS & HR). split; [frame|split; [|frame]].
  apply input_queued; [done|]. intros n Hn. exists n. rewrite Ec. simpl. by rewrite Hn, Z.eqb_refl.
Qed.

(** The sender moves to [st] after sending [sent], which carries no input. *)
Lemma send_advance s st sent : send_ok s → inputs sent = [] →
  early st = true ∨ x_start s = [] ∧ x_dispatch s = true →
  (∀ d, held st = Some d → dispatch_ok s d) → st ≠ SNone → st ≠ SAttaching →
  attempted_ok st (x_startAttempted s) →
  (∀ x, x ∈ starts sent → x_startAttempted s = true ∧ x_dispatch s = true ∧
     ∃ d, d_start d = x ∧ dispatch_ok s d ∧ script_sent s d) →
  (∃ a, prun (terms_of s) PInit (x_wire s ++ sent) = Some a ∧ phase_ok st a ∧ (st = SStreaming → a = PStarted 0 false)) →
  (∃ err, st = SEnded err) ∨ inputs (x_wire s) = [] →
  send_ok (upd_sender (upd_wire s (x_wire s ++ sent)) st).
Proof.
  intros [K1 K2 K3 K4 K5 K6 K7 (n & K8 & K9)] Hin He Hheld N1 N2 Hat Hst (a & Ha & Hph & Hs0) Hi.
  constructor; simpl; try done.
  - destruct He as [He|[He _]]; [|by left]. destruct K1 as [K1|(d & E & Hd & _)]; [by left|right; eauto].
  - intros Hd. destruct (K2 Hd) as [E _]. split; [done|]. destruct He as [|[_ He]]; congruence.
  - by intros [|].
  - assert (Hmono : ∀ d, script_sent s d → script_sent (upd_sender (upd_wire s (x_wire s ++ sent)) st) d).
    { intros d Hd Hs. simpl. apply elem_of_app. left. by apply Hd. }
    intros x. rewrite starts_app, elem_of_app. intros [Hx|Hx];
      [destruct (K6 x Hx) as (? & ? & d & ? & ? & ?) | destruct (Hst x Hx) as (? & ? & d & ? & ? & ?)];
      (split_and!; try done); exists d; by split_and!; auto.
  - exists a. rewrite inputs_app, Hin, app_nil_r. split_and!; try done.
    + intros ->. destruct Hi as [[? ?]| ->]; [done|]. by rewrite (Hs0 eq_refl).
    + intros Hh. destruct Hi as [[? ->]| ->]; [|done]. by destruct Hh.
  - exists n. by rewrite inputs_app, Hin, app_nil_r.
Qed.

(** [s'] differs from [s] only in what the sender owns. *)
Definition sender_only (s s' : ExecutionSession) : Prop :=
  upd_sender (upd_wire (upd_attached (upd_start (upd_attempted (upd_stdin s' (x_stdin s)) (x_startAttempted s))
    (x_start s)) (x_attached s)) (x_wire s)) (x_sender s) = s.

(** The other two groups do not see the sender move. *)
Lemma sender_moves s s' : prep_ok s → recv_ok s → x_sender s ≠ SNone → x_sender s' ≠ SNone → sender_only s s' →
  send_ok s' → sess_ok s'.
Proof.
  intros HP HR N N' E HS. assert (A : attached_stream s' = attached_stream s).
  { unfold attached_stream. by destruct (x_sender s), (x_sender s'). }
  unfold sender_only in E. destruct s, s'. simpl in *. injection E as; subst. split; [|split; [done|]].
  - destruct HP as [P1 P2 P3 P4 P5 P6 P7 P8 P9]. constructor; try assumption. by rewrite A.
  - destruct HR. by constructor.
Qed.

(** The sender gives up. *)
Lemma sender_ends s err : sess_ok s → x_sender s ≠ SNone → sess_ok (upd_sender s (SEnded err)).
Proof.
  intros (HP & HS & HR) N. apply (sender_moves s); try done; [by destruct s|].
  destruct (sk_wire _ HS) as (a & Ha & _).
  pose proof (send_advance s (SEnded err) [] HS eq_refl (or_introl eq_refl)) as H.
  rewrite app_nil_r in H. replace (upd_wire s (x_wire s)) with s in H by (by destruct s).
  apply H; try done; [by intros x ?%not_elem_of_nil | by exists a | by left; exists err].
Qed.

(** The sender takes its next step without sending. *)
Lemma sender_steps s st d : sess_ok s → x_sender s ≠ SNone → x_start s = [] → x_dispatch s = true →
  dispatch_ok s d → held st = Some d → attempted_ok st (x_startAttempted s) →
  inputs (x_wire s) = [] → (∃ a, prun (terms_of s) PInit (x_wire s) = Some a ∧ phase_ok st a) →
  sess_ok (upd_sender s st).
Proof.
  intros (HP & HS & HR) N Hst Hd Hok Hh Ha Hi (a & Hrun & Hph).
  assert (st ≠ SNone ∧ st ≠ SAttaching ∧ st ≠ SStreaming) as (N1 & N2 & N3) by (by destruct st).
  apply (sender_moves s); try done; [by destruct s|].
  pose proof (send_advance s st [] HS eq_refl (or_intror (conj Hst Hd))) as H.
  rewrite app_nil_r in H. replace (upd_wire s (x_wire s)) with s in H by (by destruct s).
  apply H; try done; [by intros d' ?; simplify_eq | by intros x ?%not_elem_of_nil | by exists a | by right].
Qed.

(** A sender that holds a dispatch has taken it from the queue. *)
Lemma held_ok s d : sess_ok s → held (x_sender s) = Some d →
  x_sender s ≠ SNone ∧ x_start s = [] ∧ x_dispatch s = true ∧ dispatch_ok s d ∧ inputs (x_wire s) = [] ∧
  (∃ a, prun (terms_of s) PInit (x_wire s) = Some a ∧ phase_ok (x_sender s) a).
Proof.
  intros (HP & [K1 K2 K3 K4 K5 K6 (a & Ha & Hph & _ & Hi) K8] & HR) Hh.
  assert (Hne : early (x_sender s) = false) by (by destruct (x_sender s)).
  split_and!; try by eauto.
  - by destruct (x_sender s).
  - destruct K1 as [|(d' & _ & _ & ?)]; congruence.
  - destruct (x_dispatch s); [done|]. destruct (K2 eq_refl). congruence.
  - apply Hi. left. congruence.
Qed.

Lemma sendAttached_keeps cm ok s : sess_ok s → x_sender s = SAttaching →
  ∃ s', sendExecution cm s (ActAttached ok) = Some s' ∧ sess_ok s'.
Proof.
  intros (HP & HS & HR) Es. unfold sendExecution. rewrite Es.
  destruct (sk_attached _ HS (or_intror Es)) as [Ha Hw].
  assert (Hadv : ∀ st, st = SWaiting ∨ (∃ err, st = SEnded err) →
            send_ok (upd_sender (sendMsg s (HAttached (Binding s))) st)).
  { intros st Hst. apply send_advance; try done; rewrite ?Hw.
    - left. by destruct Hst as [->|[? ->]].
    - by destruct Hst as [->|[? ->]].
    - by destruct Hst as [->|[? ->]].
    - by destruct Hst as [->|[? ->]].
    - pose proof (sk_attempted _ HS) as A. rewrite Es in A. by destruct Hst as [->|[? ->]].
    - by intros x ?%not_elem_of_nil.
    - exists (PAttached ""). simpl. rewrite bool_decide_eq_true_2 by done.
      by destruct Hst as [->|[? ->]].
    - by right. }
  destruct ok; simpl.
  - rewrite Ha. simpl. eexists; split; [done|].
    apply (sender_moves s); rewrite ?Es; try done; [unfold sender_only; by destruct s; simpl in *; subst|].
    destruct (Hadv SWaiting (or_introl eq_refl)). constructor; try assumption. by intros [|].
  - eexists; split; [done|].
    apply (sender_moves s); rewrite ?Es; try done; [unfold sender_only; by destruct s; simpl in *; subst|]. eauto.
Qed.

Lemma sendDequeue_keeps cm s : sess_ok s → x_sender s = SWaiting →
  ∃ s', sendExecution cm s ActDequeue = Some s' ∧ sess_ok s'.
Proof.
  intros (HP & HS & HR) Es. unfold sendExecution. rewrite Es.
  destruct (sk_start _ HS) as [->|(d & Ed & Hd & _)]; [by exists s|]. rewrite Ed.
  assert (Hdis : x_dispatch s = true).
  { destruct (x_dispatch s) eqn:E; [done|]. destruct (sk_dispatch _ HS E) as [E' _]. congruence. }
  eexists; split; [done|].
  apply (sender_moves s); rewrite ?Es; try done; [unfold sender_only; by destruct s; simpl in *; subst|].
  destruct HS as [K1 K2 K3 K4 K5 K6 (a & Ha & Hph & _ & Hi) K8]. rewrite Es in *.
  constructor; simpl; try done; [by left | by rewrite Hdis | by intros d' ?; simplify_eq | by intros [|] |].
  exists a. split_and!; try done. intros _. apply Hi. by right.
Qed.

Lemma sendValidate_keeps cm ctx now d s : sess_ok s → x_sender s = SDequeued d →
  ∃ s', sendExecution cm s (ActValidate ctx now) = Some s' ∧ sess_ok s'.
Proof.
  intros Hok Es. unfold sendExecution. rewrite Es.
  destruct (held_ok s d Hok) as (N & Hst & Hd & Hdk & Hi & a & Ha & Hph); [by rewrite Es|].
  destruct (validateLaunch cm s ctx now); (eexists; split; [done|]); [|by apply sender_ends].
  rewrite Es in Hph. simpl in Hph. subst a.
  pose proof (sk_attempted s (proj1 (proj2 Hok))) as Hat. rewrite Es in Hat.
  destruct (d_script d) eqn:Ed; apply (sender_steps s _ d); try done; exists (PAttached ""); simpl; by rewrite ?Ed.
Qed.

Lemma sendScript_keeps cm turns eofOk d s : sess_ok s → x_sender s = SScript d →
  ∃ s', sendExecution cm s (ActScript turns eofOk) = Some s' ∧ sess_ok s'.
Proof.
  intros Hok Es. unfold sendExecution. rewrite Es.
  destruct (held_ok s d Hok) as (N & Hst & Hd & Hdk & Hi & a & Ha & Hph); [by rewrite Es|].
  destruct (sendProtectedScript s turns 0 "" eofOk) as [[sent ok]|] eqn:E; [|by exists s].
  eexists; split; [done|]. rewrite Es in Hph. destruct Hph as [-> Hscr].
  pose proof (so_length _ (proj1 Hok)) as Hlen.
  destruct (script_run s turns "" eofOk sent ok Hlen (proj1 Hlen) E) as (a' & Hrun & Hok' & Hs & Hin).
  pose proof (sk_attempted s (proj1 (proj2 Hok))) as Hat. rewrite Es in Hat.
  destruct Hok as (HP & HS & HR). apply (sender_moves s); try done.
  - by destruct ok.
  - unfold sender_only. by destruct s.
  - apply send_advance; try done; try (by destruct ok).
    + destruct ok; [by right | by left].
    + intros d' Hd'. destruct ok; simplify_eq/=. done.
    + rewrite Hs. by intros x ?%not_elem_of_nil.
    + exists a'. rewrite prun_app, Ha. split; [done|]. destruct ok; [|done]. simpl. by rewrite Hscr, (Hok' eq_refl).
    + by right.
Qed.

Lemma sendBefore_keeps cm ok d s : sess_ok s → x_sender s = SReady d →
  ∃ s', sendExecution cm s (ActBeforeStart ok) = Some s' ∧ sess_ok s'.
Proof.
  intros Hok Es. unfold sendExecution. rewrite Es.
  destruct (held_ok s d Hok) as (N & Hst & Hd & Hdk & Hi & a & Ha & Hph); [by rewrite Es|].
  eexists; split; [done|]. destruct (d_beforeStart d && negb ok); [by apply sender_ends|].
  pose proof (sk_attempted s (proj1 (proj2 Hok))) as Hat. rewrite Es in Hph, Hat.
  apply (sender_steps s _ d); try done. by exists a.
Qed.

Lemma sendLaunch_keeps cm ctx now d s : sess_ok s → x_sender s = SAuthorized d →
  ∃ s', sendExecution cm s (ActLaunch ctx now) = Some s' ∧ sess_ok s'.
Proof.
  intros Hok Es. unfold sendExecution. rewrite Es.
  destruct (held_ok s d Hok) as (N & Hst & Hd & Hdk & Hi & a & Ha & Hph); [by rewrite Es|].
  destruct (launchCheck cm s d ctx now); (eexists; split; [done|]); [|by apply sender_ends].
  rewrite Es in Hph. destruct Hok as (HP & HS & HR).
  apply (sender_moves s); try done; [unfold sender_only; by destruct s|].
  destruct HS as [K1 K2 K3 K4 K5 K6 K7 K8].
  constructor; simpl; try done; [by left | by rewrite Hd | by intros d' ?; simplify_eq | by intros [|] | |].
  - intros st Hx. by destruct (K6 st Hx).
  - exists a. by split_and!.
Qed.

(** A dispatch without a script is that of a command without one. *)
Lemma dispatch_unscripted s d : dispatch_ok s d → d_script d = false → tm_scripted (terms_of s) = false.
Proof.
  intros (p & b & i & po & re & ex & _ & _ & _ & _ & _ & He) Hd. simpl. destruct (x_enhanced s); [|done].
  destruct (He eq_refl) as (_ & _ & _ & Hs). case_bool_decide as Hh; [done|]. rewrite Hs in Hd by done. discriminate.
Qed.

Lemma sendStart_keeps cm ok d s : sess_ok s → x_sender s = SStarting d →
  ∃ s', sendExecution cm s (ActStart ok) = Some s' ∧ sess_ok s'.
Proof.
  intros Hok Es. pose proof (sk_attempted s (proj1 (proj2 Hok))) as Hat. rewrite Es in Hat.
  unfold sendExecution. rewrite Es.
  destruct (held_ok s d Hok) as (N & Hst & Hd & Hdk & Hi & a & Ha & Hph); [by rewrite Es|].
  eexists; split; [done|]. rewrite Es in Hph.
  assert (Hb : Some (s_Binding (d_start d)) = Binding s).
  { destruct Hdk as (p & b & i & po & re & ex & Hp & Hb & _ & Est & _). rewrite Est.
    unfold Binding. by rewrite Hp, Hb. }
  destruct Hok as (HP & HS & HR). apply (sender_moves s); try done; [by destruct ok | unfold sender_only; by destruct s|].
  apply send_advance; try done; try (by destruct ok).
  - destruct ok; [by right | by left].
  - intros x Hx%list_elem_of_singleton. subst x. split_and!; try done. exists d. split_and!; try done.
    intros Hscr. simpl in Hph. rewrite Hscr in Hph. subst a. by apply (scripted_eof (terms_of s) PInit).
  - exists (PStarted 0 false). rewrite prun_app, Ha. cbn -[pstep]. simpl in Hph. rewrite Hph.
    split; [destruct (d_script d) eqn:Ed; simpl; [by rewrite bool_decide_eq_true_2|]|].
    { pose proof (dispatch_unscripted s d Hdk Ed) as Hu. simpl in Hu. rewrite Hu. simpl. by rewrite bool_decide_eq_true_2. }
    destruct ok; [|done]. by split; [exists 0%nat, false|].
  - by right.
Qed.

Lemma sendForward_keeps cm ok s : sess_ok s → x_sender s = SStreaming →
  ∃ s', sendExecution cm s (ActForward ok) = Some s' ∧ sess_ok s'.
Proof.
  intros (HP & HS & HR) Es. unfold sendExecution. rewrite Es.
  destruct (x_stdin s) as [|m rest] eqn:Ein; [by exists s|]. eexists; split; [done|].
  apply (sender_moves s); rewrite ?Es; try done; [by destruct ok | unfold sender_only; destruct s; simpl in *; by subst|].
  destruct HS as [K1 K2 K3 K4 K5 K6 (a & Ha & Hph & Hin & _) (n & K8 & K9)]. rewrite Es in *.
  specialize (Hin eq_refl). rewrite Ein, fmap_app, prun_app, Hin in K8. cbn -[pstep] in K8.
  destruct (pstep (terms_of s) a (HInput m)) as [a'|] eqn:Estep; [|discriminate K8].
  assert (Hst : ∃ n' c', a' = PStarted n' c').
  { destruct Hph as (n0 & c0 & ->). simpl in Estep. destruct c0, m; try discriminate Estep; guards_in Estep; eauto. }
  set (s' := upd_sender _ _). change (x_sender s') with (if ok then SStreaming else SEnded true).
  assert (HB : terms_of s' = terms_of s) by done.
  assert (Hin' : prun (terms_of s) (PStarted 0 false) (HInput <$> inputs (x_wire s')) = Some a').
  { simpl. by rewrite inputs_app, fmap_app, prun_app, Hin; cbn -[pstep]; rewrite Estep. }
  constructor; rewrite ?HB.
  - left. by destruct K1 as [|(d & _ & _ & ?)].
  - intros Hd. by destruct (K2 Hd).
  - simpl. by destruct ok.
  - simpl. by destruct ok; intros [|].
  - simpl. by destruct ok.
  - intros x. simpl. rewrite starts_app. simpl. rewrite app_nil_r. intros Hx.
    destruct (K6 x Hx) as (? & ? & d & ? & ? & Hs). split_and!; try done. exists d. split_and!; try done.
    intros Hd. apply elem_of_app. left. by apply Hs.
  - exists a'. split_and!; [|simpl; by destruct ok | done | simpl; by destruct ok; intros [|]].
    simpl. rewrite prun_app, Ha. cbn -[pstep]. by rewrite Estep.
  - exists n. rewrite fmap_app, prun_app, Hin'. by split.
Qed.

Lemma sendGiveUp_keeps cm ctx s : sess_ok s → x_sender s = SWaiting ∨ x_sender s = SStreaming →
  ∃ s', sendExecution cm s (ActGiveUp ctx) = Some s' ∧ sess_ok s'.
Proof.
  intros Hok Es. assert (N : x_sender s ≠ SNone) by (destruct Es; congruence).
  unfold sendExecution. destruct Es as [-> | ->]; (destruct (x_done s || x_transportDone s); [|destruct ctx]);
    eauto using sender_ends.
Qed.

Lemma sendExecution_keeps cm act : keeps (fun s => sendExecution cm s act).
Proof.
  intros s Hok. assert (Hskip : ∃ s', Some s = Some s' ∧ sess_ok s') by (by exists s).
  destruct (x_sender s) eqn:Es; destruct act;
    first [by eapply sendAttached_keeps | by eapply sendDequeue_keeps | by eapply sendGiveUp_keeps; eauto
          | by eapply sendValidate_keeps | by eapply sendScript_keeps | by eapply sendBefore_keeps
          | by eapply sendLaunch_keeps | by eapply sendStart_keeps | by eapply sendForward_keeps
          | unfold sendExecution; rewrite Es; exact Hskip].
Qed.

(** The receiver's operations leave the other groups alone. *)
Lemma recv_only s s' : prep_ok s → send_ok s → recv_ok s' →
  upd_result (upd_stderr (upd_stdout (upd_started (upd_receiver s' (x_receiver s)) (x_started s)) (x_stdout s))
    (x_stderr s)) (x_result s) (x_results s) = s → sess_ok s'.
Proof.
  intros HP HS HR E. destruct s, s'. simpl in *. injection E as; subst. split; [|split; [|done]]; frame.
Qed.

Lemma recvEnd_ok s err : sess_ok s → x_sender s ≠ SNone → sess_ok (recvEnd s err).
Proof.
  intros (HP & HS & HR) N. apply (recv_only s _ HP HS); [|by destruct s].
  destruct HR. by constructor.
Qed.

Section receiver.
Variables (s : ExecutionSession).
Hypotheses (Hok : sess_ok s) (HN : x_sender s ≠ SNone) (Hrun : v_ended (x_receiver s) = None).

Lemma recvStarted_keeps b : ∃ s', recvStarted s b = Some s' ∧ sess_ok s'.
Proof using Hok HN Hrun.
  unfold recvStarted. destruct (_ || _) eqn:E; [eauto using recvEnd_ok|]. bool_hyps.
  destruct Hok as (HP & HS & [R1 R2 R3 R4 R5 R6 R7 R8]). rewrite R1.
  match goal with H : v_started _ = false |- _ => rewrite H in * end. eexists; split; [done|].
  apply (recv_only s _ HP HS); [|by destruct s]. by constructor.
Qed.

Lemma recvStartFailed_keeps f : ∃ s', recvStartFailed s f = Some s' ∧ sess_ok s'.
Proof using Hok HN Hrun.
  unfold recvStartFailed. destruct f as [[b st]|]; [|eauto using recvEnd_ok].
  destruct (_ || _) eqn:E; [eauto using recvEnd_ok|]. bool_hyps.
  destruct Hok as (HP & HS & [R1 R2 R3 R4 R5 R6 R7 R8]).
  destruct (R5 Hrun) as (C1 & C2 & C3 & C4).
  assert (v_stdoutEOF (x_receiver s) = false ∧ v_stderrEOF (x_receiver s) = false) as [F1 F2].
  { destruct (v_stdoutEOF _), (v_stderrEOF _); intuition congruence. }
  unfold putResult. rewrite C3. simpl. unfold closeOut. rewrite C1, C2, F1, F2. simpl.
  eexists; split; [done|]. apply (recv_only s _ HP HS); [|by destruct s].
  constructor; simpl; try done; rewrite C4; [simpl; lia|].
  intros r Hr%list_elem_of_singleton. subst r. simpl. split_and!; try done.
  intros Hx. exfalso. destruct (bool_decide (st = "launch_failed")) eqn:E1; bool_hyps; [subst; discriminate Hx|].
  destruct (bool_decide (st = "cancelled")) eqn:E2; bool_hyps; [subst; discriminate Hx | discriminate Hx].
Qed.

(** Both streams: the channel, its sequence number and its end are updated
    together. *)
Lemma deliver_ok c data sel : ch_closed c = false →
  ∃ c' r, deliverExecutionOutput s c data sel = Some (c', r) ∧
    (r = Some true → ch_closed c' = false ∧ length (ch_log c') = S (length (ch_log c))).
Proof using.
  intros Hc. unfold deliverExecutionOutput. destruct (_ <? _); [by eexists _, _|].
  destruct sel; [|by eexists _, _..|by destruct (x_done s); eexists _, _|by eexists _, _].
  rewrite Hc. destruct (_ <? _)%nat; eexists _, _; (split; [done|]); [|done].
  intros _. simpl. rewrite length_app. simpl. split; [done|lia].
Qed.

Lemma recvStdout_keeps d sel : ∃ s', recvStdout s d sel = Some s' ∧ sess_ok s'.
Proof using Hok HN Hrun.
  unfold recvStdout. destruct d as [[sq data]|]; [|eauto using recvEnd_ok].
  destruct (_ || _) eqn:E; [eauto using recvEnd_ok|]. bool_hyps. z_hyps.
  destruct Hok as (HP & HS & [R1 R2 R3 R4 R5 R6 R7 R8]).
  destruct (R5 Hrun) as (C1 & C2 & C3 & C4). destruct R6 as [Q1 Q2].
  destruct (deliver_ok (x_stdout s) data sel) as (c & r & -> & Hc); [congruence|]. cbn [mbind option_bind].
  destruct r as [[]|]; [|eauto using recvEnd_ok|by exists s].
  destruct (Hc eq_refl) as [Hc1 Hc2]. eexists; split; [done|].
  apply (recv_only s _ HP HS); [|by destruct s]. constructor; simpl; try done.
  - by rewrite Hc1.
  - by rewrite Q1, u64_S, Hc2.
  - rewrite C4. by intros x ?%not_elem_of_nil.
Qed.

Lemma recvStderr_keeps d sel : ∃ s', recvStderr s d sel = Some s' ∧ sess_ok s'.
Proof using Hok HN Hrun.
  unfold recvStderr. destruct d as [[sq data]|]; [|eauto using recvEnd_ok].
  destruct (_ || _) eqn:E; [eauto using recvEnd_ok|]. bool_hyps. z_hyps.
  destruct Hok as (HP & HS & [R1 R2 R3 R4 R5 R6 R7 R8]).
  destruct (R5 Hrun) as (C1 & C2 & C3 & C4). destruct R6 as [Q1 Q2].
  destruct (deliver_ok (x_stderr s) data sel) as (c & r & -> & Hc); [congruence|]. cbn [mbind option_bind].
  destruct r as [[]|]; [|eauto using recvEnd_ok|by exists s].
  destruct (Hc eq_refl) as [Hc1 Hc2]. eexists; split; [done|].
  apply (recv_only s _ HP HS); [|by destruct s]. constructor; simpl; try done.
  - by rewrite Hc1.
  - by rewrite Q2, u64_S, Hc2.
  - rewrite C4. by intros x ?%not_elem_of_nil.
Qed.

Lemma recvOutputEof_keeps e : ∃ s', recvOutputEof s e = Some s' ∧ sess_ok s'.
Proof using Hok HN Hrun.
  unfold recvOutputEof. destruct e as [[output sq]|]; [|eauto using recvEnd_ok].
  destruct (negb (v_started _)) eqn:Est; [eauto using recvEnd_ok|]. bool_hyps.
  assert (Hk := Hok). destruct Hk as (HP & HS & [R1 R2 R3 R4 R5 R6 R7 R8]).
  destruct (R5 Hrun) as (C1 & C2 & C3 & C4).
  destruct (output =? EXECUTION_OUTPUT_STDOUT); [|destruct (output =? EXECUTION_OUTPUT_STDERR); [|eauto using recvEnd_ok]].
  - destruct (_ || _) eqn:E; [eauto using recvEnd_ok|]. bool_hyps. z_hyps.
    unfold closeOut. rewrite C1. replace (v_stdoutEOF (x_receiver s)) with false. simpl.
    eexists; split; [done|]. apply (recv_only s _ HP HS); [|by destruct s]. constructor; simpl; try done.
    rewrite C4. by intros x ?%not_elem_of_nil.
  - destruct (_ || _) eqn:E; [eauto using recvEnd_ok|]. bool_hyps. z_hyps.
    unfold closeOut. rewrite C2. replace (v_stderrEOF (x_receiver s)) with false. simpl.
    eexists; split; [done|]. apply (recv_only s _ HP HS); [|by destruct s]. constructor; simpl; try done.
    rewrite C4. by intros x ?%not_elem_of_nil.
Qed.

Lemma recvResult_keeps r : ∃ s', recvResult s r = Some s' ∧ sess_ok s'.
Proof using Hok HN Hrun.
  unfold recvResult. destruct r as [r|]; [|eauto using recvEnd_ok].
  destruct (_ || _) eqn:E; [eauto using recvEnd_ok|].
  destruct (negb (bool_decide (r_State r ∈ _))); [eauto using recvEnd_ok|].
  destruct (bool_decide (r_State r = "exited") && negb (validExit r)); [eauto using recvEnd_ok|]. bool_hyps.
  destruct Hok as (HP & HS & [R1 R2 R3 R4 R5 R6 R7 R8]).
  destruct (R5 Hrun) as (C1 & C2 & C3 & C4). unfold putResult. rewrite C3. cbn [mbind option_bind].
  eexists; split; [done|]. apply (recv_only s _ HP HS); [|by destruct s]. constructor; simpl; try done.
  - rewrite C4. simpl. lia.
  - rewrite C4. intros x Hx%list_elem_of_singleton. subst x. simpl. split_and!; [exact H1 | by apply R4 | congruence | congruence |].
    intros Hx. rewrite bool_decide_eq_true_2 in * by done. simpl in *. bool_hyps. done.
Qed.
End receiver.

Lemma receiveExecution_keeps m sel : keeps (fun s => receiveExecution s m sel).
Proof.
  intros s Hok. unfold receiveExecution.
  destruct (_ || _) eqn:E; [by exists s|]. bool_hyps.
  assert (HN : x_sender s ≠ SNone) by (unfold attached_stream in *; by destruct (x_sender s)).
  assert (Hrun : v_ended (x_receiver s) = None) by (destruct (v_ended _); naive_solver).
  destruct m as [| | |[]];
    eauto using recvEnd_ok, recvStarted_keeps, recvStartFailed_keeps, recvStdout_keeps, recvStderr_keeps,
      recvOutputEof_keeps, recvResult_keeps.
Qed.

(** Taking from a channel. *)
Lemma take_keeps s : sess_ok s →
  sess_ok (upd_stdout s (takeOut (x_stdout s))) ∧ sess_ok (upd_stderr s (takeOut (x_stderr s))) ∧
  sess_ok (upd_result s [] (x_results s)).
Proof.
  intros (HP & HS & [R1 R2 R3 R4 R5 R6 R7 R8]). split_and!; apply (recv_only s _ HP HS); try (by destruct s);
    constructor; simpl; try done; [|split; [apply R7|lia]].
  intros Hr. by destruct (R5 Hr) as (? & ? & ? & ?).
Qed.

(** ** The registry *)

Definition handling (ps : nat * ExecutionSession) : Prop := x_handler ps.2 = true.
#[export] Instance handling_dec ps : Decision (handling ps).
Proof. unfold handling. apply _. Defined.

Record reg_ok (es : ExecutionSessions) : Prop := mkRegOk {
  ro_sessions : ∀ p s, es_heap es !! p = Some s → sess_ok s ∧ (p < es_next es)%nat;
  ro_map : ∀ k p, es_sessions es !! k = Some p →
             ∃ s, es_heap es !! p = Some s ∧ k = makeKey (x_NodeID s) (x_ID s);
  ro_slots : es_rpcSlots es = (es_waiting es + size (filter handling (es_heap es)))%nat;
  ro_bound : (es_rpcSlots es ≤ maxStreams)%nat;
}.

(** Replacing a session by a well-formed one of the same name and handler. *)
Lemma with_es_ok es p s s' : reg_ok es → es_heap es !! p = Some s → sess_ok s' →
  x_NodeID s' = x_NodeID s → x_ID s' = x_ID s → x_handler s' = x_handler s → reg_ok (with_es es p s').
Proof.
  intros [R1 R2 R3 R4] Hp Hok E1 E2 E3. constructor; simpl; try done.
  - intros q t Hq. apply lookup_insert_Some in Hq as [[<- <-]|[? Hq]]; [|by apply R1].
    split; [done|]. by destruct (R1 p s Hp).
  - intros k q Hk. destruct (R2 k q Hk) as (t & Ht & ->). destruct (decide (p = q)) as [->|Hne].
    + exists s'. rewrite lookup_insert_eq. split; [done|]. simplify_eq. by rewrite E1, E2.
    + exists t. by rewrite lookup_insert_ne.
  - rewrite R3. f_equal. rewrite size_filter_insert, (size_filter_delete _ _ p s Hp).
    f_equal.
    destruct (decide (handling (p, s))) as [H|H], (decide (handling (p, s'))) as [H'|H'];
      unfold handling in *; simpl in *; congruence.
Qed.

(** What an operation on a session never changes of it. *)
Definition same_session (s s' : ExecutionSession) : Prop :=
  x_NodeID s' = x_NodeID s ∧ x_ID s' = x_ID s ∧ x_RequestedUser s' = x_RequestedUser s ∧
  x_connection s' = x_connection s ∧ x_commandHash s' = x_commandHash s ∧
  (is_Some (x_prepared s) → x_prepared s' = x_prepared s ∧ x_deadline s' = x_deadline s ∧
     x_enhanced s' = x_enhanced s ∧ x_scriptHash s' = x_scriptHash s ∧ x_scriptLength s' = x_scriptLength s) ∧
  (x_done s = true → x_done s' = true ∧ (x_startAttempted s = false → x_startAttempted s' = false)).

Lemma same_session_refl s : same_session s s.
Proof. by split_and!. Qed.

Lemma same_session_trans a b c : same_session a b → same_session b c → same_session a c.
Proof.
  intros (A1 & A2 & A3 & A4 & A5 & A6 & A7) (B1 & B2 & B3 & B4 & B5 & B6 & B7).
  split_and!; try congruence.
  - intros H. destruct (A6 H) as (E1 & E2 & E3 & E4 & E5). rewrite <- E1 in H.
    destruct (B6 H) as (F1 & F2 & F3 & F4 & F5). split_and!; congruence.
  - intros H. destruct (A7 H) as [H1 H2]. destruct (B7 H1) as [H3 H4]. auto.
Qed.

#[export] Hint Resolve same_session_refl : veyport.

(** The frame of an operation on one session. *)
Definition frames (f : ExecutionSession → option ExecutionSession) : Prop :=
  ∀ s s', f s = Some s' → same_session s s' ∧ x_handler s' = x_handler s.

(** The sessions of [es] live on in [es']. *)
Definition persists (es es' : ExecutionSessions) : Prop :=
  ∀ q s, es_heap es !! q = Some s → ∃ s', es_heap es' !! q = Some s' ∧ same_session s s'.

Lemma persists_heap es es' : es_heap es' = es_heap es → persists es es'.
Proof. intros E q s Hq. exists s. rewrite E. auto with veyport. Qed.

Lemma with_es_persists es p s s' : es_heap es !! p = Some s → same_session s s' → persists es (with_es es p s').
Proof.
  intros Hp Hs q t Hq. simpl. destruct (decide (p = q)) as [->|Hne].
  - rewrite lookup_insert_eq. simplify_eq. eauto.
  - rewrite lookup_insert_ne by done. eauto with veyport.
Qed.

Lemma at_session_ok es p f : reg_ok es → keeps f → frames f →
  ∃ es', at_session es p f = Some es' ∧ reg_ok es' ∧ persists es es'.
Proof.
  intros Hes Hk Hf. unfold at_session. destruct (es_heap es !! p) as [s|] eqn:Hp.
  - destruct (Hk s) as (s' & Es & Hs'); [by apply (ro_sessions es Hes p)|]. rewrite Es. eexists; split; [done|].
    destruct (Hf s s' Es) as [Hsame Hh]. pose proof Hsame as (? & ? & _).
    split; [by eapply with_es_ok | by eapply with_es_persists].
  - exists es. split; [done|]. split; [done|]. by apply persists_heap.
Qed.

(** The fields of [same_session], where an update does not touch them. *)
Ltac framed := split; [split_and!; by intros | done].

Lemma Cancel_frames reason : frames (fun s => Some (Cancel s reason)).
Proof. intros s s' H. simplify_eq. unfold Cancel. destruct (x_done s) eqn:E; framed. Qed.

Lemma deliverPrepared_frames p now : frames (fun s => fst <$> deliverPrepared s p now).
Proof.
  intros s s' H. unfold deliverPrepared, close_chan in H.
  destruct (_ || _) eqn:E; [simplify_eq/=; framed|]. bool_hyps.
  destruct (x_preparedReady s); simplify_eq/=. destruct (validatePrepared s p (wall now)); framed.
Qed.

Lemma Configure_frames enhanced hash length limits :
  frames (fun s => Some (Configure s enhanced hash length limits).1).
Proof.
  intros s s' H. simplify_eq. unfold Configure. destruct limits as [l|]; [|framed].
  destruct (_ || _) eqn:E; [framed|]. bool_hyps. framed.
Qed.

Lemma IssueAttach_frames now rnd : frames (fun s => Some (IssueAttach s now rnd).1).
Proof. intros s s' H. simplify_eq. unfold IssueAttach. destruct (_ || _); [framed|]. destruct (negb rnd.2); framed. Qed.

Lemma dispatchWith_frames policy receipt expires script before :
  frames (fun s => dispatchWith s policy receipt expires script before).
Proof. intros s s' H. unfold dispatchWith, enqueueStart in H. simplify_option_eq. guards_in H; framed. Qed.

Lemma dispatchStandard_frames cm before now : frames (fun s => fst <$> dispatchStandard cm s before now).
Proof.
  intros s s' H. unfold dispatchStandard in H.
  destruct (_ || _); [simplify_eq/=; framed|]. destruct (x_done s); [simplify_eq/=; framed|].
  destruct (dispatchWith _ _ _ _ _ _) eqn:E; simplify_eq/=. by eapply dispatchWith_frames.
Qed.

Lemma DispatchProtected_frames cm receipt expiry policy script before now :
  frames (fun s => fst <$> DispatchProtected cm s receipt expiry policy script before now).
Proof.
  intros s s' H. unfold DispatchProtected in H.
  destruct (_ || _); [simplify_eq/=; framed|]. destruct (x_done s); [simplify_eq/=; framed|].
  destruct (dispatchWith _ _ _ _ _ _) eqn:E; simplify_eq/=. by eapply dispatchWith_frames.
Qed.

Lemma SendInput_frames data sel : frames (fun s => Some (SendInput s data sel).1).
Proof.
  intros s s' H. simplify_eq. unfold SendInput.
  destruct (_ <? _), (x_inputClosed s), (enqueueInput s sel) as [[]|]; framed.
Qed.

Lemma CloseInput_frames sel : frames (fun s => Some (CloseInput s sel).1).
Proof. intros s s' H. simplify_eq. unfold CloseInput. destruct (x_inputClosed s), (enqueueInput s sel) as [[]|]; framed. Qed.

Lemma launchCheck_ok cm s d ctx now : launchCheck cm s d ctx now = Ok tt →
  x_done s = false ∧ x_transportDone s = false ∧ connection_current cm (x_NodeID s) (x_connection s) = true ∧
  preparationExpired s now = false ∧
  (s_AdmissionExpiresUnixMilli (d_start d) = 0 ∨ UnixMilli (wall now) < s_AdmissionExpiresUnixMilli (d_start d)).
Proof.
  unfold launchCheck, validateLaunch. intros H.
  destruct ctx; [done|]. destruct (x_done s); [done|]. destruct (x_transportDone s); [done|].
  destruct (connection_current _ _ _); [|done]. destruct (preparationExpired s now); [done|].
  destruct (_ && _) eqn:E; [done|]. split_and!; try done.
  apply andb_false_iff in E as [E|E]; bool_hyps; z_hyps; [by left | by right].
Qed.

Lemma sendExecution_frames cm act : frames (fun s => sendExecution cm s act).
Proof.
  intros s s' H. unfold sendExecution, sendMsg, close_chan in H.
  destruct (x_sender s) eqn:Es; destruct act; try (simplify_eq; framed);
    repeat (simplify_option_eq || guard_in H); try framed.
  destruct a. pose proof (launchCheck_ok _ _ _ _ _ Heqr) as (Hd & _).
  split; [|done]. split_and!; try done. simpl. congruence.
Qed.

Lemma receiveExecution_frames m sel : frames (fun s => receiveExecution s m sel).
Proof.
  intros s s' H. unfold receiveExecution in H. destruct (_ || _); [simplify_eq; framed|].
  destruct m as [| | |[]]; try (simplify_eq; framed);
    unfold recvStarted, recvStartFailed, recvStdout, recvStderr, recvOutputEof, recvResult, putResult, closeOut,
      close_chan in H; repeat (simplify_option_eq || guard_in H); framed.
Qed.

(** The handlers in the heap when one session changes. *)
Lemma handling_insert (h : gmap nat ExecutionSession) p s s' : h !! p = Some s →
  (size (filter handling (<[p := s']> h)) + (if x_handler s then 1 else 0))%nat =
  (size (filter handling h) + (if x_handler s' then 1 else 0))%nat.
Proof.
  intros Hp. rewrite size_filter_insert, (size_filter_delete _ _ p s Hp).
  destruct (decide (handling (p, s))) as [H|H], (decide (handling (p, s'))) as [H'|H'];
    unfold handling in *; simpl in *; destruct (x_handler s), (x_handler s'); try done; lia.
Qed.

(** A session replaced together with the slots. *)
Lemma with_slots_ok es p s s' slots waiting : reg_ok es → es_heap es !! p = Some s → sess_ok s' → same_session s s' →
  slots = (waiting + size (filter handling (<[p := s']> (es_heap es))))%nat → (slots ≤ maxStreams)%nat →
  reg_ok (with_slots (with_es es p s') slots waiting) ∧ persists es (with_slots (with_es es p s') slots waiting).
Proof.
  intros [R1 R2 R3 R4] Hp Hok Hsame Hn Hle. split; [|by apply (with_es_persists es p s s')].
  destruct Hsame as (E1 & E2 & _). constructor; simpl; try done.
  - intros q t Hq. apply lookup_insert_Some in Hq as [[<- <-]|[? Hq]]; [|by apply R1].
    split; [done|]. by destruct (R1 p s Hp).
  - intros k q Hk. destruct (R2 k q Hk) as (t & Ht & ->). destruct (decide (p = q)) as [->|Hne].
    + exists s'. rewrite lookup_insert_eq. split; [done|]. simplify_eq. by rewrite E1, E2.
    + exists t. by rewrite lookup_insert_ne.
Qed.

Lemma executeFinish_ok es p by_ : reg_ok es →
  ∃ es', executeFinish es p by_ = Some es' ∧ reg_ok es' ∧ persists es es'.
Proof.
  intros Hes. assert (Hskip : ∃ es', Some es = Some es' ∧ reg_ok es' ∧ persists es es').
  { exists es. split; [done|]. split; [done|]. by apply persists_heap. }
  unfold executeFinish. destruct (es_heap es !! p) as [s|] eqn:Hp; [|exact Hskip].
  destruct (finishErr s by_) as [err|]; [|exact Hskip]. destruct (x_handler s) eqn:Eh; [|exact Hskip]. simpl.
  pose proof (proj1 (ro_sessions es Hes p s Hp)) as (HP & HS & HR).
  pose proof (so_handler _ HP) as Hh. rewrite Eh in Hh. symmetry in Hh. bool_hyps.
  replace (x_transportDone s) with false. simpl. eexists; split; [done|].
  set (s1 := upd_transport s true false).
  assert (Hok1 : sess_ok s1).
  { split; [|split]; [|frame|frame]. destruct HP. constructor; simpl; try done. by rewrite andb_false_r. }
  set (s2 := if err then Cancel s1 "execution transport lost" else s1).
  assert (H2 : sess_ok s2 ∧ same_session s s2 ∧ x_handler s2 = false).
  { unfold s2. destruct err; [|by split_and!].
    destruct (Cancel_keeps "execution transport lost" s1 Hok1) as (? & ? & ?); simplify_eq.
    split; [done|]. unfold Cancel. destruct (x_done s1) eqn:Ed; by split_and!. }
  destruct H2 as (Hok2 & Hsame & Hh2). pose proof (handling_insert _ p s s2 Hp) as Hn. rewrite Eh, Hh2 in Hn.
  destruct Hes as [R1 R2 R3 R4]. apply (with_slots_ok es p s); try done; lia.
Qed.

Lemma with_es_id es p s : es_heap es !! p = Some s → with_es es p s = es.
Proof. intros Hp. unfold with_es. rewrite insert_id by done. by destruct es. Qed.

(** A refused attachment changes nothing; a granted one is that of a current
    session with a live preparation, the right binding and the unused ticket. *)
Lemma Attach_cases es node a now es1 r : Attach es node a now = (es1, r) →
  match r with
  | Err _ => es1 = es
  | Ok p => ∃ s a', es_heap es !! p = Some s ∧ a = Some a' ∧ attachSession s a' now = ((attachSession s a' now).1, Ok tt) ∧
              connection_current (es_connections es) node (x_connection s) = true ∧
              es1 = with_es es p (attachSession s a' now).1
  end.
Proof.
  unfold Attach. intros H. destruct a as [a|]; [|by simplify_eq]. destruct (a_Binding a) as [b|]; [|by simplify_eq].
  destruct (_ || _); [by simplify_eq|]. destruct (es_sessions es !! _) as [p|]; [|by simplify_eq].
  destruct (es_heap es !! p) as [s|] eqn:Hp; [|by simplify_eq].
  destruct (connection_current (es_connections es) node (x_connection s)) eqn:Ec; cbn [negb] in H;
    [|by simplify_eq].
  destruct (attachSession s a now) as [s' [[]|e]] eqn:Ea; simplify_eq.
  - exists s, a. by rewrite Ea.
  - unfold attachSession in Ea. destruct (x_done s); simplify_eq/=; [by apply with_es_id|].
    destruct (_ || _); simplify_eq/=. by apply with_es_id.
Qed.

Lemma attachSession_frames s a now s' : attachSession s a now = (s', Ok tt) →
  same_session s s' ∧ x_ticketUsed s = false ∧ x_handler s' = true.
Proof.
  unfold attachSession. intros H. guards_in H. bool_hyps. split; [by split_and!; intros|done].
Qed.

Lemma executeAbandon_ok es : reg_ok es → reg_ok (executeAbandon es) ∧ persists es (executeAbandon es).
Proof.
  intros [R1 R2 R3 R4]. unfold executeAbandon. destruct (es_waiting es) as [|n] eqn:Ew.
  - split; [by constructor; rewrite ?Ew | by apply persists_heap].
  - split; [|by apply persists_heap]. constructor; simpl; try done; lia.
Qed.

Lemma executeAttach_ok es node a now : reg_ok es →
  reg_ok (executeAttach es node a now) ∧ persists es (executeAttach es node a now).
Proof.
  intros Hes. unfold executeAttach. destruct (es_waiting es) as [|n] eqn:Ew.
  { split; [done|]. by apply persists_heap. }
  destruct (Attach es node a now) as [es1 [p|e]] eqn:Ea; apply Attach_cases in Ea.
  - destruct Ea as (s & a' & Hp & _ & Ha & _ & ->).
    destruct (attachSession_frames _ _ _ _ Ha) as (Hsame & Hu & Hh).
    pose proof (proj1 (ro_sessions es Hes p s Hp)) as Hok.
    pose proof (so_handler _ (proj1 Hok)) as Hh0. rewrite Hu in Hh0. simpl in Hh0.
    pose proof (handling_insert _ p s (attachSession s a' now).1 Hp) as Hn. rewrite Hh0, Hh in Hn.
    pose proof (attachSession_ok s a' now Hok). pose proof (ro_slots es Hes). pose proof (ro_bound es Hes).
    apply (with_slots_ok es p s); try done. simpl. lia.
  - subst es1. by apply executeAbandon_ok.
Qed.

Lemma registers_ok es node id actor runAs command o now : reg_ok es →
  reg_ok (Register es node id actor runAs command o now).1 ∧
  persists es (Register es node id actor runAs command o now).1.
Proof.
  intros Hes. assert (Hskip : reg_ok es ∧ persists es es) by (split; [done | by apply persists_heap]).
  unfold Register. destruct (_ || _); [exact Hskip|].
  destruct (es_capabilities es !! node) as [[conn caps]|]; [|exact Hskip].
  destruct (negb (connection_current _ _ _)); [exact Hskip|].
  destruct (bool_decide _) eqn:Ek; [exact Hskip|].
  destruct (Terminal.Register _ _ _ _ _ _ _) as [ts ok]. destruct (negb ok).
  { split; [|by apply persists_heap]. destruct Hes. by constructor. }
  destruct (AttachStream ts node id actor) as [[ts1 b1] b2]. simpl.
  destruct Hes as [R1 R2 R3 R4].
  assert (Hfresh : es_heap es !! es_next es = None).
  { destruct (es_heap es !! es_next es) as [s|] eqn:E; [|done]. destruct (R1 _ _ E). lia. }
  split.
  - constructor; simpl; try done.
    + intros q t Hq. apply lookup_insert_Some in Hq as [[<- <-]|[? Hq]].
      * split; [apply new_session_ok | lia].
      * destruct (R1 q t Hq). split; [done|lia].
    + intros k q Hk. apply lookup_insert_Some in Hk as [[<- <-]|[? Hk]].
      * eexists. by rewrite lookup_insert_eq.
      * destruct (R2 k q Hk) as (t & Ht & ->). exists t. rewrite lookup_insert_ne; [done|].
        intros Heq. rewrite <- Heq in Ht. congruence.
    + rewrite R3. f_equal. rewrite size_filter_insert, delete_id by done.
      destruct (decide _) as [H|H]; [discriminate H|lia].
  - intros q t Hq. simpl. exists t. rewrite lookup_insert_ne; [auto with veyport|]. intros <-. congruence.
Qed.

(** Every section has a result and keeps the registry well formed. *)
Lemma estep_ok es o : reg_ok es → ∃ es', estep es o = Some es' ∧ reg_ok es' ∧ persists es es'.
Proof.
  intros Hes. destruct o; simpl;
    try (by eapply at_session_ok; eauto using Cancel_keeps, Cancel_frames, deliverPrepared_keeps, deliverPrepared_frames,
           Configure_keeps, Configure_frames, IssueAttach_keeps, IssueAttach_frames, dispatchStandard_keeps,
           dispatchStandard_frames, DispatchProtected_keeps, DispatchProtected_frames, SendInput_keeps, SendInput_frames,
           CloseInput_keeps, CloseInput_frames, sendExecution_keeps, sendExecution_frames, receiveExecution_keeps,
           receiveExecution_frames);
    try (by apply executeFinish_ok);
    try (eexists; split; [done|]; first [by apply executeAttach_ok | by apply executeAbandon_ok | by apply registers_ok]);
    try (apply at_session_ok; [done | intros s Hs; by eexists; split; [done | apply take_keeps]
         | intros s s' E; simplify_eq; framed]);
    eexists; (split; [done|]).
  - split; [|by apply persists_heap]. destruct Hes. by constructor.
  - split; [|by apply persists_heap]. destruct Hes. by constructor.
  - unfold setCapabilities. destruct (negb _); (split; [|by apply persists_heap]); [done|]. destruct Hes. by constructor.
  - split; [|by apply persists_heap]. destruct Hes as [R1 R2 R3 R4]. constructor; simpl; try done.
    intros k p [_ Hk]%lookup_delete_Some. by apply R2.
  - unfold endConnectionLocked. destruct (es_capabilities es !! node) as [[conn c]|]; simpl;
      [destruct (of_stream stream conn)|]; (split; [|by apply persists_heap]); try done. destruct Hes. by constructor.
  - unfold executeEnter. destruct (_ <=? _)%nat eqn:E; (split; [|by apply persists_heap]); [done|].
    apply Nat.leb_gt in E. destruct Hes. constructor; simpl; try done; lia.
Qed.

Lemma erun_ok es os : reg_ok es → ∃ es', erun es os = Some es' ∧ reg_ok es' ∧ persists es es'.
Proof.
  revert es. induction os as [|o os IH]; intros es Hes; simpl.
  - exists es. split; [done|]. split; [done|]. by apply persists_heap.
  - destruct (estep_ok es o Hes) as (es1 & -> & Hes1 & P1). simpl.
    destruct (IH es1 Hes1) as (es2 & -> & Hes2 & P2). exists es2. split; [done|]. split; [done|].
    intros q s Hq. destruct (P1 q s Hq) as (s1 & Hq1 & E1). destruct (P2 q s1 Hq1) as (s2 & Hq2 & E2).
    eauto using same_session_trans.
Qed.

Lemma fresh_ok ts cm : reg_ok (NewExecutionSessions ts cm).
Proof. constructor; simpl; try done. unfold maxStreams. lia. Qed.

(** No run of the protocol accepts a second Start. *)
Lemma starts_once b a ms a' : prun b a ms = Some a' →
  (length (starts ms) ≤ match a with PStarted _ _ => 0 | _ => 1 end)%nat.
Proof.
  revert a. induction ms as [|m ms IH]; intros a H; [simpl; destruct a; lia|].
  simpl in H. destruct (pstep b a m) as [a1|] eqn:E; [|discriminate H]. specialize (IH a1 H).
  destruct a as [|off| |n c]; destruct m as [bb|st|[]|o data|l h|]; simpl in E; try discriminate E;
    try (destruct c; try discriminate E); guards_in E; simpl in *; unfold starts in *; lia.
Qed.

(** C21. Whatever the interleaving of registrations, capability changes,
    preparations, attachments, dispatches, input, cancellations, stream events
    and changes of the connections, the hub never closes a channel twice nor
    blocks on a queue under a session's mutex, at most 32 streams hold a slot
    and no slot is lost, and what each session has sent on its stream is a word
    of the stream protocol: Attached, then for a protected command with a script
    the whole of it, without which no Start follows, at most one Start, and then
    input numbered from zero. *)
Theorem stream_refines_protocol ts cm os :
  ∃ es, erun (NewExecutionSessions ts cm) os = Some es ∧
    (es_rpcSlots es ≤ maxStreams)%nat ∧
    es_rpcSlots es = (es_waiting es + size (filter handling (es_heap es)))%nat ∧
    ∀ p s, es_heap es !! p = Some s →
      (∃ a, prun (terms_of s) PInit (x_wire s) = Some a) ∧ (length (starts (x_wire s)) ≤ 1)%nat.
Proof.
  destruct (erun_ok _ os (fresh_ok ts cm)) as (es & He & [R1 R2 R3 R4] & _). exists es. split_and!; try done.
  intros p s Hp. destruct (R1 p s Hp) as [(_ & HS & _) _]. destruct (sk_wire _ HS) as (a & Ha & _).
  split; [by exists a|]. by apply (starts_once _ _ _ _ Ha).
Qed.

(** A Start on a session's stream was built from the preparation the
    session accepted for its own command: it carries that binding, the digest of
    the registered command, the prepared identity and the session's limits; the
    session was attached with its ticket and dispatched; and a protected one
    carries an admission receipt that expires no later than the preparation. *)
Theorem start_matches_preparation ts cm os es p s st :
  erun (NewExecutionSessions ts cm) os = Some es → es_heap es !! p = Some s → st ∈ starts (x_wire s) →
  x_ticketUsed s = true ∧ x_dispatch s = true ∧
  ∃ m i, x_prepared s = Some m ∧ pm_Binding m = Some (s_Binding st) ∧ pm_Identity m = Some i ∧
    ExecutionId (s_Binding st) = x_ID s ∧ NodeId (s_Binding st) = x_NodeID s ∧ BootId (s_Binding st) = x_bootID s ∧
    s_CommandSha256 st = x_commandHash s ∧ s_IdentitySha256 st = ei_IdentitySha256 i ∧
    s_Limits st = Some (x_limits s) ∧ (x_RequestedUser s = "" ∨ ei_Username i = x_RequestedUser s) ∧
    (x_enhanced s = true → 0 < len (s_AdmissionReceipt st) ≤ 16384 ∧
                           s_AdmissionExpiresUnixMilli st ≤ ExpiresUnixMilli (s_Binding st)) ∧
    (x_enhanced s = false → s_AdmissionReceipt st = "" ∧ s_AdmissionExpiresUnixMilli st = 0).
Proof.
  intros He Hp Hst. destruct (erun_ok _ os (fresh_ok ts cm)) as (es1 & He1 & [R1 R2 R3 R4] & _). simplify_eq.
  destruct (R1 p s Hp) as [(HP & HS & _) _].
  destruct (sk_started _ HS st Hst) as (_ & Hd & d & <- & (m & b & i & po & re & ex & Hm & Hb & Hi & -> & H0 & H1) & _).
  destruct (so_prepared _ HP m Hm) as (b' & i' & Hb' & Hi' & Hl & Hc & E1 & E2 & E3 & Hv). simplify_eq. simpl in *.
  pose proof (so_dispatched _ HP Hd). bool_hyps.
  split_and!; try done. exists m, i. split_and!; try done.
  - destruct (decide (x_RequestedUser s = "")) as [|Hne]; [by left|]. right.
    rewrite bool_decide_eq_false_2 in * by done. simpl in *. by bool_hyps.
  - intros Hen. by destruct (H1 Hen) as (? & ? & _).
  - intros Hen. by destruct (H0 Hen) as (_ & ? & ? & _).
Qed.

(** A session delivers at most one result, for its own binding; if the
    result says the command exited, both output streams had ended with the
    agent's count of frames and all of them were delivered, and nothing is
    delivered after it. *)
Theorem result_once_complete ts cm os es p s :
  erun (NewExecutionSessions ts cm) os = Some es → es_heap es !! p = Some s →
  (length (x_results s) ≤ 1)%nat ∧
  ∀ r, r ∈ x_results s → Some (r_Binding r) = Binding s ∧
    ch_closed (x_stdout s) = true ∧ ch_closed (x_stderr s) = true ∧
    (r_State r = "exited" → r_StdoutComplete r = true ∧ r_StderrComplete r = true ∧
       v_stdoutEOF (x_receiver s) = true ∧ v_stderrEOF (x_receiver s) = true ∧
       v_stdoutSeq (x_receiver s) = u64 (Z.of_nat (length (ch_log (x_stdout s)))) ∧
       v_stderrSeq (x_receiver s) = u64 (Z.of_nat (length (ch_log (x_stderr s))))).
Proof.
  intros He Hp. destruct (erun_ok _ os (fresh_ok ts cm)) as (es1 & He1 & [R1 R2 R3 R4] & _). simplify_eq.
  destruct (R1 p s Hp) as [(HP & HS & HR) _]. split; [apply (sr_results _ HR)|].
  intros r Hr. destruct (sr_result _ HR r Hr) as (? & ? & ? & ? & Hx). destruct (sr_out _ HR).
  split_and!; try done. intros Hexit. by destruct (Hx Hexit) as (? & ? & ? & ?).
Qed.

(** C32. Once a session is cancelled without a Start attempted (its caller
    went away, its node's connection ended, its capability or boot changed), no
    later interleaving puts a Start on its stream. *)
Theorem withdrawn_never_starts ts cm os es p s os' es' s' :
  erun (NewExecutionSessions ts cm) os = Some es → es_heap es !! p = Some s →
  x_done s = true → x_startAttempted s = false →
  erun es os' = Some es' → es_heap es' !! p = Some s' →
  x_done s' = true ∧ starts (x_wire s') = [].
Proof.
  intros He Hp Hd Ha He' Hp'. destruct (erun_ok _ os (fresh_ok ts cm)) as (es1 & He1 & Hok & _). simplify_eq.
  destruct (erun_ok es os' Hok) as (es2 & He2 & [R1 _ _ _] & P). simplify_eq.
  destruct (P p s Hp) as (s2 & Hp2 & _ & _ & _ & _ & _ & _ & Hdone). simplify_eq.
  destruct (Hdone Hd) as [Hd' Ha']. split; [done|].
  destruct (R1 p s' Hp') as [(_ & HS & _) _]. destruct (starts (x_wire s')) as [|st l] eqn:E; [done|].
  destruct (sk_started _ HS st) as [Hx _]; [rewrite E; by left|]. rewrite Ha' in Hx by done. discriminate Hx.
Qed.

(** The authority of an accepted preparation ends at most sixty seconds of
    the monotonic clock after it was accepted, whatever the agent's expiry and
    however the wall clock is set meanwhile: from then on the session can
    neither be attached nor dispatched, and no Start can be attempted. *)
Theorem authority_is_bounded ts cm os es p s0 s msg now0 os' es' s' now :
  erun (NewExecutionSessions ts cm) os = Some es → es_heap es !! p = Some s →
  deliverPrepared s0 msg now0 = Some (s, true) →
  erun es os' = Some es' → es_heap es' !! p = Some s' →
  mono now0 + ExecutionAttachTimeout ≤ mono now →
  (∀ a, is_ok (attachSession s' a now).2 = false) ∧
  (∀ c before, dispatchStandard c s' before now = Some (s', Err (ErrText "execution is not dispatchable"))) ∧
  (∀ c receipt expiry policy script before,
     DispatchProtected c s' receipt expiry policy script before now
     = Some (s', Err (ErrText "protected execution is not dispatchable"))) ∧
  (∀ c ctx s2, x_startAttempted s' = false → sendExecution c s' (ActLaunch ctx now) = Some s2 →
     x_startAttempted s2 = false).
Proof.
  intros He Hp Hdel He' Hp' Hnow. destruct (erun_ok _ os (fresh_ok ts cm)) as (es1 & He1 & Hok & _). simplify_eq.
  destruct (erun_ok es os' Hok) as (es2 & He2 & _ & P). simplify_eq.
  destruct (P p s Hp) as (s2 & Hp2 & _ & _ & _ & _ & _ & Hprep & _). simplify_eq.
  assert (Hdl : ∃ dl, x_deadline s = Some dl ∧ is_Some (x_prepared s) ∧ dl ≤ mono now).
  { unfold deliverPrepared, close_chan in Hdel. destruct (_ || _); [done|].
    destruct (x_preparedReady s0); [done|]. simpl in Hdel.
    destruct (validatePrepared s0 msg (wall now0)) as [b|]; simplify_eq/=.
    eexists; split; [done|]. split; [done|]. destruct (Before _ _) eqn:E; unfold Before in E; z_hyps; lia. }
  destruct Hdl as (dl & Hdl & Hsome & Hle). destruct (Hprep Hsome) as (Ep & Ed & _).
  assert (Hexp : preparationExpired s' now = true).
  { unfold preparationExpired. rewrite Ep, Ed, Hdl. destruct Hsome as [m ->]. destruct (pm_Binding m); [|done].
    unfold Before. rewrite (proj2 (Z.ltb_ge _ _)) by lia. done. }
  split_and!.
  - intros a. unfold attachSession. destruct (x_done s'); [done|]. by rewrite Hexp.
  - intros c before. unfold dispatchStandard. by rewrite Hexp, orb_true_r.
  - intros c receipt expiry policy script before. unfold DispatchProtected. by rewrite Hexp, orb_true_r.
  - intros c ctx s2 Ha Hs2. unfold sendExecution in Hs2.
    destruct (x_sender s') eqn:Es; simplify_eq; try done.
    destruct (launchCheck c s' d ctx now) as [[]|e] eqn:El; simplify_eq; [|done].
    apply launchCheck_ok in El as (_ & _ & _ & ? & _). congruence.
Qed.

(** ** A concrete session *)

Definition demo_conn : AgentConn := mkConn 0 "n" 1 "g".
Definition demo_cm : ConnManager := set_streams New {[ "n" := demo_conn ]}.
Definition demo_now : Instant := mkNow unix_epoch 0.
Definition demo_binding : ExecutionBinding := mkBinding "x" "n" "prep" "boot" 30000.
Definition demo_digest : string := sha256 "identity".
Definition demo_identity : ExecutionIdentity :=
  mkExecIdentity "root" 0 0 [] demo_digest "/root" "/bin/sh" "/root" demo_digest.
Definition demo_prepared : PreparedMsg :=
  mkPreparedMsg "x" (Some demo_binding) (Some demo_identity) (sha256 "true") (Some DefaultExecutionLimits) "".
Definition demo_ticket : string := sha256 "ticket".

(** Up to the acceptance of the preparation. *)
Definition demo_prepare : list eop :=
  [XSetCapabilities demo_conn "n" (Some (mkCaps 1 true false "boot"));
   XRegister "n" "x" "u" "" "true" (mkOptions "" "" false None) 0;
   XDeliverPrepared 0 demo_prepared demo_now].
Definition demo_launch : list eop :=
  [XIssueAttach 0 demo_now (demo_ticket, true);
   XEnter; XAttach "n" (Some (mkAttach (Some demo_binding) demo_ticket)) demo_now;
   XDispatch 0 true demo_now; XSend 0 (ActAttached true); XSend 0 ActDequeue;
   XSend 0 (ActValidate false demo_now); XSend 0 (ActBeforeStart true);
   XSend 0 (ActLaunch false demo_now); XSend 0 (ActStart true)].
Definition demo_finish : list eop :=
  [XReceive 0 (RecvMsg (AStarted (Some demo_binding))) DSent;
   XReceive 0 (RecvMsg (AStdout (Some (0, "hi")))) DSent;
   XReceive 0 (RecvMsg (AOutputEof (Some (1, 1)))) DSent;
   XReceive 0 (RecvMsg (AOutputEof (Some (2, 0)))) DSent;
   XReceive 0 (RecvMsg (AResult (Some (mkResult demo_binding "exited" 0 "" "" true true)))) DSent].

Definition demo_run (os : list eop) : ExecutionSessions :=
  default (NewExecutionSessions NewTerminalSessions demo_cm) (erun (NewExecutionSessions NewTerminalSessions demo_cm) os).
Definition demo_session (os : list eop) : ExecutionSession :=
  default (newSession "" "" "" "" demo_conn "" "") (es_heap (demo_run os) !! 0%nat).

Definition demo_start : ExecutionStart := startFor demo_prepared demo_binding demo_identity "standard-v1" "" 0.

Lemma demo_run_eq os : bool_decide (is_Some (erun (NewExecutionSessions NewTerminalSessions demo_cm) os)) = true →
  erun (NewExecutionSessions NewTerminalSessions demo_cm) os = Some (demo_run os).
Proof. intros [es E]%bool_decide_eq_true. unfold demo_run. by rewrite E. Qed.

Lemma demo_session_eq os : bool_decide (is_Some (es_heap (demo_run os) !! 0%nat)) = true →
  es_heap (demo_run os) !! 0%nat = Some (demo_session os).
Proof. intros [s E]%bool_decide_eq_true. unfold demo_session. by rewrite E. Qed.

Lemma start_matches_preparation_witness :
  x_ticketUsed (demo_session (demo_prepare ++ demo_launch)) = true ∧
  x_dispatch (demo_session (demo_prepare ++ demo_launch)) = true.
Proof.
  destruct (start_matches_preparation NewTerminalSessions demo_cm (demo_prepare ++ demo_launch)
              (demo_run (demo_prepare ++ demo_launch)) 0 (demo_session (demo_prepare ++ demo_launch)) demo_start)
    as (H1 & H2 & _); [| | |by split].
  - apply demo_run_eq. vm_compute. reflexivity.
  - apply demo_session_eq. vm_compute. reflexivity.
  - replace (starts (x_wire (demo_session (demo_prepare ++ demo_launch)))) with [demo_start]; [left|].
    vm_compute. reflexivity.
Defined.

Lemma result_once_complete_witness :
  x_results (demo_session (demo_prepare ++ demo_launch ++ demo_finish))
    = [mkResult demo_binding "exited" 0 "" "" true true] ∧
  ch_closed (x_stdout (demo_session (demo_prepare ++ demo_launch ++ demo_finish))) = true.
Proof.
  assert (E : x_results (demo_session (demo_prepare ++ demo_launch ++ demo_finish))
                = [mkResult demo_binding "exited" 0 "" "" true true]) by (vm_compute; reflexivity).
  split; [exact E|].
  destruct (result_once_complete NewTerminalSessions demo_cm (demo_prepare ++ demo_launch ++ demo_finish)
              (demo_run (demo_prepare ++ demo_launch ++ demo_finish)) 0
              (demo_session (demo_prepare ++ demo_launch ++ demo_finish))) as [_ H].
  - apply demo_run_eq. vm_compute. reflexivity.
  - apply demo_session_eq. vm_compute. reflexivity.
  - destruct (H (mkResult demo_binding "exited" 0 "" "" true true)) as (_ & H1 & _); [|exact H1]. rewrite E. left.
Defined.

Lemma erun_app es a b : erun es (a ++ b) = es1 ← erun es a; erun es1 b.
Proof. revert es. induction a as [|o a IH]; intros es; [done|]. simpl. destruct (estep es o); simpl; [apply IH | done]. Qed.

Lemma demo_run_app a b : bool_decide (is_Some (erun (NewExecutionSessions NewTerminalSessions demo_cm) (a ++ b))) = true →
  erun (demo_run a) b = Some (demo_run (a ++ b)).
Proof.
  intros H%demo_run_eq. rewrite erun_app in H. unfold demo_run at 1.
  by destruct (erun (NewExecutionSessions NewTerminalSessions demo_cm) a).
Qed.

Definition demo_cancelled : list eop := demo_prepare ++ [XCancel 0 "gone"].

Lemma withdrawn_never_starts_witness :
  x_done (demo_session (demo_cancelled ++ demo_launch)) = true ∧
  starts (x_wire (demo_session (demo_cancelled ++ demo_launch))) = [].
Proof.
  apply (withdrawn_never_starts NewTerminalSessions demo_cm demo_cancelled (demo_run demo_cancelled) 0
           (demo_session demo_cancelled) demo_launch (demo_run (demo_cancelled ++ demo_launch))).
  - apply demo_run_eq. vm_compute. reflexivity.
  - apply demo_session_eq. vm_compute. reflexivity.
  - vm_compute. reflexivity.
  - vm_compute. reflexivity.
  - apply demo_run_app. vm_compute. reflexivity.
  - apply demo_session_eq. vm_compute. reflexivity.
Defined.

(** The session before its preparation arrived. *)
Definition demo_fresh : ExecutionSession := demo_session (take 2 demo_prepare).
Definition demo_later : Instant := mkNow (unix_epoch - Hour) (60 * Second).

Lemma authority_is_bounded_witness :
  deliverPrepared demo_fresh demo_prepared demo_now = Some (demo_session demo_prepare, true) ∧
  is_ok (attachSession (demo_session (demo_prepare ++ take 1 demo_launch))
           (mkAttach (Some demo_binding) demo_ticket) demo_later).2 = false.
Proof.
  assert (E : deliverPrepared demo_fresh demo_prepared demo_now = Some (demo_session demo_prepare, true))
    by (vm_compute; reflexivity).
  split; [exact E|].
  destruct (authority_is_bounded NewTerminalSessions demo_cm demo_prepare (demo_run demo_prepare) 0 demo_fresh
              (demo_session demo_prepare) demo_prepared demo_now (take 1 demo_launch)
              (demo_run (demo_prepare ++ take 1 demo_launch)) (demo_session (demo_prepare ++ take 1 demo_launch))
              demo_later) as [H _]; [| | exact E | | | |apply H].
  - apply demo_run_eq. vm_compute. reflexivity.
  - apply demo_session_eq. vm_compute. reflexivity.
  - apply demo_run_app. vm_compute. reflexivity.
  - apply demo_session_eq. vm_compute. reflexivity.
  - vm_compute. discriminate.
Defined.
