(* ===== verification/ExecProtocol.v ===== *)
(** The agent's side of an execution stream
    (agent/internal/client/execution.go) and its composition with the hub's
    ([ExecSessions], [ExecStream]) and with the execution manager and run of the
    agent ([Execution], [ExecRun]): what one side sends, the other accepts.

    The clock, the storage of the script and the transport are inputs. *)

From S2P Require Import Prelude Codec Identity Budget Journal Execution ExecRun ConnMgr Terminal ExecSessions ExecStream.

(** ** Messages *)

Definition errorText (e : goerr) : string := match e with Sentinel n => n | ErrText t => t end.

(** The message an agent's [Prepare] answers with. *)
Definition preparedMsg (id : string) (r : result ExecutionPrepared) : PreparedMsg :=
  match r with
  | Ok p => mkPreparedMsg (ep_ExecutionId p) (Some (ep_Binding p)) (Some (ep_Identity p)) (ep_CommandSha256 p)
              (Some (ep_Limits p)) ""
  | Err e => mkPreparedMsg id None None "" None (errorText e)
  end.

(** [Manager.Capabilities]; [spool] is whether protected storage is ready. *)
Definition Capabilities (bootID : string) (spool : bool) : ExecutionCapabilities := mkCaps 1 true spool bootID.

(** ** The transport of one execution *)

Section serve.
Context {B : Type} `{SB : SlotBudget B}.
Abbreviation M := (Manager B) (only parsing).

(** What the environment answers while one message is handled: the time and
    whether the storage took the script. *)
Record preEnv := mkPreEnv { pe_now : Time; pe_store : bool }.

(** The loop of [serve] before the launch; [None] while no Start came. *)
Fixpoint prelaunch (m : M) (b : ExecutionBinding) (msgs : list (HubStream * preEnv))
    : M * option (result ExecutionStart) :=
  match msgs with
  | [] => (m, None)
  | (msg, env) :: rest =>
      match msg with
      | HScriptChunk offset data =>
          match ScriptChunk m (Some b) (Some (offset, data)) (pe_now env) (pe_store env) with
          | (m1, Ok _) => prelaunch m1 b rest
          | (m1, Err e) => (m1, Some (Err e))
          end
      | HScriptEof length hash =>
          match ScriptEOF m (Some b) (Some (length, hash)) (pe_now env) (pe_store env) with
          | (m1, Ok _) => prelaunch m1 b rest
          | (m1, Err e) => (m1, Some (Err e))
          end
      | HStart st => (m, Some (Ok st))
      | _ => (m, Some (Err (ErrText "unexpected prelaunch execution message")))
      end
  end.

(** [serve] up to the start of the process, for the attachment with binding
    [b]: the first message must confirm it. *)
Definition serveBegin (m : M) (b : ExecutionBinding) (now : Time) (msgs : list (HubStream * preEnv))
    : M * option (result ExecutionStart) :=
  if of_UnixMilli (ExpiresUnixMilli b) - now <=? 0 then (m, Some (Err (ErrText "execution attachment expired")))
  else
    match msgs with
    | [] => (m, None)
    | (first, _) :: rest =>
        match first with
        | HAttached b' =>
            if negb (bool_decide (b' = Some b))
            then (m, Some (Err (ErrText "execution attachment binding mismatch")))
            else
              match prelaunch m b rest with
              | (m1, Some (Ok st)) =>
                  if negb (bool_decide (s_Binding st = b))
                  then (m1, Some (Err (ErrText "execution start required")))
                  else (m1, Some (Ok st))
              | r => r
              end
        | _ => (m, Some (Err (ErrText "execution attachment binding mismatch")))
        end
    end.

(** The state a failed start is reported with. *)
Definition startFailedState (m : M) (id : string) (io : read_io) : string :=
  let state := (Execution.Status m id io).1.2 in
  if bool_decide (state = "not_found") || bool_decide (state = "prepared") then "launch_failed" else state.

(** [handle] of an Attach request: its checks and the manager's attachment. *)
Definition handleAttach (m : M) (a : option AttachRequest) (now : Time) : M * bool :=
  match a with
  | None => (m, false)
  | Some a =>
      match a_Binding a with
      | None => (m, false)
      | Some b =>
          if (len (a_Ticket a) <? 32) || (256 <? len (a_Ticket a)) then (m, false)
          else match Execution.Attach m (Some b) now with
               | (m1, Ok _) => (m1, true)
               | (m1, Err _) => (m1, false)
               end
      end
  end.

(** [receiveExecutionInput]: an invalid message cancels the run, and what
    follows it is ignored.  The result is the run's input, every reason the run
    was cancelled with, and whether it returned an error of its own ([true]) or
    still receives. *)
Fixpoint receiveExecutionInput (r : RunInput) (b : ExecutionBinding) (msgs : list (HubStream * selected))
    (invalid : bool) : RunInput * list string * bool :=
  match msgs with
  | [] => (r, [], false)
  | (msg, sel) :: rest =>
      if invalid then receiveExecutionInput r b rest true
      else
        let reject r1 :=
          let '(r2, reasons, ended) := receiveExecutionInput r1 b rest true in
          (r2, "invalid_execution_input" :: reasons, ended) in
        match msg with
        | HInput i =>
            match inputStep r (i, sel) with
            | (r1, Ok _) => receiveExecutionInput r1 b rest false
            | (r1, Err _) => reject r1
            end
        | HCancel None => (r, [], true)
        | HCancel (Some (b', reason)) =>
            if negb (bool_decide (b' = Some b)) then (r, [], true)
            else let '(r2, reasons, ended) := receiveExecutionInput r b rest false in (r2, reason :: reasons, ended)
        | _ => reject r
        end
  end.

(** ** A preparation of the agent and the terms of a session *)

(** The agent holds the preparation of a script, [acc] of it received. *)
Definition script_pending (m : M) (b : ExecutionBinding) (tm : terms) (pr : preparation) (acc : string) : Prop :=
  m_closed m = false ∧ m_prepared m !! ExecutionId b = Some pr ∧ ep_Binding (p_response pr) = b ∧
  p_attached pr = true ∧ p_enhanced pr = true ∧ p_scriptComplete pr = false ∧ p_script pr = Some acc ∧
  p_scriptOffset pr = len acc ∧ p_scriptHash pr = tm_hash tm ∧ p_scriptLength pr = tm_length tm ∧
  len acc ≤ tm_length tm < 2 ^ 64.

Lemma with_prepared_lookup (m : M) id p : m_prepared (with_prepared m (<[id := p]> (m_prepared m))) !! id = Some p.
Proof. apply lookup_insert_eq. Qed.

Lemma script_prep m b tm pr acc now : script_pending m b tm pr acc → UnixMilli now < ExpiresUnixMilli b →
  scriptPreparation m (Some b) now = Ok pr.
Proof.
  intros (Hc & Hp & Hb & Ha & He & Hsc & Hs & _) Hnow.
  unfold scriptPreparation. rewrite Hc, Hp, Ha, He, Hsc, Hs. simpl.
  rewrite bool_decide_eq_true_2 by done. by rewrite (proj2 (Z.leb_gt _ _)) by lia.
Qed.

(** One chunk the protocol allows is taken. *)
Lemma chunk_taken m b tm pr acc o data now :
  script_pending m b tm pr acc → UnixMilli now < ExpiresUnixMilli b →
  pstep tm (PAttached acc) (HScriptChunk o data) = Some (PAttached (acc +:+ data)) →
  ∃ m' pr', ScriptChunk m (Some b) (Some (o, data)) now true = (m', Ok tt) ∧
    script_pending m' b tm pr' (acc +:+ data) ∧ p_response pr' = p_response pr ∧
    m_journal m' = m_journal m.
Proof.
  intros HP Hnow Hstep. pose proof (script_prep _ _ _ _ _ _ HP Hnow) as Hprep.
  destruct HP as (Hc & Hp & Hb & Ha & He & Hsc & Hs & Ho & Hh & Hl & Hle).
  simpl in Hstep. destruct (_ && _) eqn:E; [|discriminate Hstep]. bool_hyps. z_hyps. subst o.
  pose proof (len_nonneg acc). unfold MaxExecutionFrameBytes in *.
  unfold ScriptChunk. rewrite Hprep, Ho, Hl, Hs.
  rewrite Z.eqb_refl, (proj2 (Z.eqb_neq _ _)) by lia. simpl.
  unfold MaxFrameBytes. rewrite (proj2 (Z.ltb_ge _ _)) by lia.
  unfold u64. rewrite (Z.mod_small (tm_length tm - len acc)), (Z.mod_small (len acc + len data)) by lia.
  rewrite (proj2 (Z.ltb_ge _ _)) by lia. simpl.
  eexists _, (set_script pr (len acc + len data) (acc +:+ data)). split; [done|]. split; [|done].
  unfold script_pending. simpl. rewrite lookup_insert_eq. rewrite len_app. split_and!; try done; lia.
Qed.

(** So is its end. *)
Lemma eof_taken m b tm pr acc n h now :
  script_pending m b tm pr acc → UnixMilli now < ExpiresUnixMilli b →
  pstep tm (PAttached acc) (HScriptEof n h) = Some PScripted →
  ∃ m' pr', ScriptEOF m (Some b) (Some (n, h)) now true = (m', Ok tt) ∧
    m_closed m' = false ∧ m_prepared m' !! ExecutionId b = Some pr' ∧ p_response pr' = p_response pr ∧
    p_enhanced pr' = true ∧ p_scriptComplete pr' = true ∧ p_script pr' = Some acc ∧ sha256 acc = tm_hash tm ∧
    m_journal m' = m_journal m.
Proof.
  intros HP Hnow Hstep. pose proof (script_prep _ _ _ _ _ _ HP Hnow) as Hprep.
  destruct HP as (Hc & Hp & Hb & Ha & He & Hsc & Hs & Ho & Hh & Hl & Hle).
  simpl in Hstep. destruct (_ && _) eqn:E; [|discriminate Hstep]. bool_hyps. z_hyps. subst.
  unfold ScriptEOF. rewrite Hprep, Ho, Hl, Hs, Hh. cbn [default].
  rewrite !(proj2 (Z.eqb_eq _ _)) by done. simpl. rewrite !bool_decide_eq_true_2 by done. simpl.
  eexists _, (set_complete pr). split; [done|]. simpl. rewrite lookup_insert_eq. by split_and!.
Qed.

(** The environment lets every message be handled in time. *)
Definition env_timely (b : ExecutionBinding) (envs : list preEnv) : Prop :=
  Forall (fun e => UnixMilli (pe_now e) < ExpiresUnixMilli b ∧ pe_store e = true) envs.

(** The preparation is ready for the Start. *)
Definition script_done (m : M) (b : ExecutionBinding) (pr0 pr : preparation) : Prop :=
  m_closed m = false ∧ m_prepared m !! ExecutionId b = Some pr ∧ p_response pr = p_response pr0 ∧
  p_enhanced pr = p_enhanced pr0 ∧ p_scriptComplete pr = true.

Lemma started_no_eof tm n c ms a l h : prun tm (PStarted n c) ms = Some a → HScriptEof l h ∉ ms.
Proof.
  revert n c. induction ms as [|y ms IH]; intros n c Hrun; [apply not_elem_of_nil|].
  cbn -[pstep] in Hrun. destruct (pstep tm (PStarted n c) y) as [a2|] eqn:E2; [|done].
  assert ((∃ i, y = HInput i) ∧ ∃ n' c', a2 = PStarted n' c') as [[i ->] (n' & c' & ->)].
  { destruct c, y as [| |[]| | |]; simpl in E2; try discriminate E2; guards_in E2; eauto. }
  intros [?|Heof]%elem_of_cons; [done|]. by apply (IH n' c').
Qed.

(** A protocol run with a script, as the agent sees it. *)
Lemma prelaunch_script tm b ms : ∀ m pr acc envs a,
  length envs = length ms → env_timely b envs → script_pending m b tm pr acc →
  prun tm (PAttached acc) ms = Some a → starts ms ≠ [] → HScriptEof (tm_length tm) (tm_hash tm) ∈ ms →
  ∃ m' pr' st, prelaunch m b (zip ms envs) = (m', Some (Ok st)) ∧ st ∈ starts ms ∧ script_done m' b pr pr' ∧
    (∃ script, p_script pr' = Some script ∧ sha256 script = tm_hash tm) ∧ m_journal m' = m_journal m.
Proof.
  induction ms as [|x ms IH]; intros m pr acc envs a Hlen Henv HP Hrun Hst Heof; [by apply not_elem_of_nil in Heof|].
  destruct envs as [|e envs]; [discriminate Hlen|]. inversion Henv as [|? ? [Hnow Hstore] Henv']; subst.
  injection Hlen as Hlen. cbn -[pstep prelaunch] in Hrun. destruct (pstep tm (PAttached acc) x) as [a1|] eqn:E; [|done].
  destruct x as [bb|st|[]|o data|n h|]; try (simpl in E; discriminate E).
  - assert (∃ n c, a1 = PStarted n c) as (n & c & ->) by (simpl in E; guards_in E; eauto).
    apply elem_of_cons in Heof as [?|Heof]; [done|]. by apply (started_no_eof tm n c ms a) in Heof.
  - assert (Ea : a1 = PAttached (acc +:+ data)) by (simpl in E; guards_in E; done). subst a1.
    destruct (chunk_taken m b tm pr acc o data (pe_now e) HP Hnow E) as (m1 & pr1 & Hc & HP1 & Hr1 & Hj1).
    apply elem_of_cons in Heof as [?|Heof]; [done|].
    destruct (IH m1 pr1 _ envs a Hlen Henv' HP1 Hrun Hst Heof) as (m' & pr' & st & Hp & Hin & Hd & Hs & Hj).
    exists m', pr', st. split_and!; [|done| |done|congruence].
    + simpl. rewrite Hstore, Hc. exact Hp.
    + destruct Hd as (? & ? & ? & He & ?). destruct HP as (_ & _ & _ & _ & He0 & _), HP1 as (_ & _ & _ & _ & He1 & _).
      split_and!; try done; congruence.
  - assert (Ea : a1 = PScripted) by (simpl in E; guards_in E; done). subst a1.
    destruct (eof_taken m b tm pr acc n h (pe_now e) HP Hnow E)
      as (m1 & pr1 & Hc & Hcl & Hp1 & Hr1 & He1 & Hsc & Hs1 & Hsha & Hj1).
    destruct ms as [|y ms]; [done|]. destruct envs as [|e2 envs]; [discriminate Hlen|].
    cbn -[pstep] in Hrun. destruct y as [|st|[]| | |]; simpl in Hrun; try discriminate Hrun.
    exists m1, pr1, st. split_and!; [simpl; by rewrite Hstore, Hc | left | | by exists acc | done].
    destruct HP as (_ & _ & _ & _ & He0 & _). split_and!; try done. congruence.
Qed.

(** One without. *)
Lemma prelaunch_plain tm b m ms envs acc a : tm_hash tm = "" → length envs = length ms →
  prun tm (PAttached acc) ms = Some a → starts ms ≠ [] →
  acc = "" ∧ ∃ st, prelaunch m b (zip ms envs) = (m, Some (Ok st)) ∧ st ∈ starts ms.
Proof.
  intros Hh. revert acc envs. induction ms as [|x ms IH]; intros acc envs Hlen Hrun Hst; [done|].
  destruct envs as [|e envs]; [discriminate Hlen|]. injection Hlen as Hlen.
  cbn -[pstep prelaunch] in Hrun. destruct (pstep tm (PAttached acc) x) as [a1|] eqn:E; [|done].
  destruct x as [bb|st|[]|o data|n h|]; try (simpl in E; discriminate E).
  - simpl in E. guards_in E. bool_hyps. split; [done|]. exists st. split; [done | left].
  - exfalso. assert (Hd : a1 = PAttached (acc +:+ data) ∧ 0 < len data).
    { simpl in E. guards_in E. bool_hyps. z_hyps. done. }
    destruct Hd as [-> Hd]. destruct (IH _ envs Hlen Hrun Hst) as [Hacc _].
    assert (Hl : len (acc +:+ data) = 0) by (by rewrite Hacc). rewrite len_app in Hl. pose proof (len_nonneg acc). lia.
  - exfalso. simpl in E. guards_in E. bool_hyps. z_hyps. subst. by apply (sha256_nonempty acc); congruence.
Qed.
(** ** The agent and a session of the hub *)

(** The agent holds the attached preparation the hub's session accepted, with
    the session's script terms and nothing of the script received. *)
Definition agent_ready (m : M) (s : ExecutionSession) (pr : preparation) : Prop :=
  m_closed m = false ∧ m_prepared m !! x_ID s = Some pr ∧ p_attached pr = true ∧
  x_prepared s = Some (preparedMsg (x_ID s) (Ok (p_response pr))) ∧
  p_enhanced pr = x_enhanced s ∧ p_scriptHash pr = x_scriptHash s ∧ p_scriptLength pr = x_scriptLength s ∧
  (p_scriptComplete pr = true ∧ x_scriptHash s = "" ∨
   p_scriptComplete pr = false ∧ p_enhanced pr = true ∧ p_script pr = Some "" ∧ p_scriptOffset pr = 0 ∧
   x_scriptHash s ≠ "").

Definition policy_valid (st : ExecutionStart) : Prop :=
  len (s_PolicyVersion st) ≤ 128 ∧ ValidUTF8 (s_PolicyVersion st) = true ∧ ContainsNUL (s_PolicyVersion st) = false.

(** What [startBegin] accepts. *)
Lemma startBegin_accepts (m : M) st pr now io :
  policy_valid st → m_closed m = false → Journal.Status (m_journal m) (ExecutionId (s_Binding st)) io = None →
  m_prepared m !! ExecutionId (s_Binding st) = Some pr → ep_Binding (p_response pr) = s_Binding st →
  UnixMilli now < ExpiresUnixMilli (s_Binding st) →
  s_CommandSha256 st = ep_CommandSha256 (p_response pr) →
  s_IdentitySha256 st = ei_IdentitySha256 (ep_Identity (p_response pr)) →
  s_Limits st = Some (ep_Limits (p_response pr)) →
  (p_enhanced pr = true → 0 < len (s_AdmissionReceipt st) ≤ 16384 ∧ p_scriptComplete pr = true ∧
     UnixMilli now < s_AdmissionExpiresUnixMilli st ≤ ExpiresUnixMilli (s_Binding st)) →
  (p_enhanced pr = false → s_AdmissionReceipt st = "" ∧ s_AdmissionExpiresUnixMilli st = 0) →
  ∃ m', startBegin m (Some st) now io = (m', Ok tt) ∧
    m_launching m' !! ExecutionId (s_Binding st) = Some (mkLaunching pr st false LResolving).
Proof.
  intros (P1 & P2 & P3) Hc Hj Hp Hb Hnow H1 H2 H3 He Hn. unfold startBegin.
  rewrite (proj2 (Z.ltb_ge _ _)), P2, P3, Hc, Hj, Hp, Hb by lia. cbn [negb orb].
  rewrite !bool_decide_eq_true_2 by done. rewrite (proj2 (Z.leb_gt _ _)) by lia. cbn [negb orb].
  destruct (p_enhanced pr).
  - destruct (He eq_refl) as (Hr & -> & Ha). change (16 * 1024) with 16384.
    rewrite (proj2 (Z.eqb_neq _ 0)), !(proj2 (Z.ltb_ge _ _)), (proj2 (Z.leb_gt _ _)) by lia. cbn [andb negb orb].
    eexists; split; [done|]. simpl. apply lookup_insert_eq.
  - destruct (Hn eq_refl) as [-> ->]. cbn [andb negb orb]. change (len "" =? 0) with true. change (0 =? 0) with true.
    cbn [negb orb]. eexists; split; [done|]. simpl. apply lookup_insert_eq.
Qed.

(** The first message of a stream with a Start. *)
Lemma wire_attached tm ms a : prun tm PInit ms = Some a → starts ms ≠ [] →
  ∃ rest, ms = HAttached (tm_binding tm) :: rest ∧ prun tm (PAttached "") rest = Some a ∧ starts rest = starts ms.
Proof.
  destruct ms as [|x rest]; [done|]. cbn -[pstep]. destruct (pstep tm PInit x) as [a1|] eqn:E; [|done].
  destruct x; simpl in E; try discriminate E. guards_in E. bool_hyps. subst. eauto.
Qed.

End serve.

Section composition.
Context {B : Type} `{SB : SlotBudget B}.
Abbreviation M := (Manager B) (only parsing).

Lemma reachable_session ts cm os es p s :
  erun (NewExecutionSessions ts cm) os = Some es → es_heap es !! p = Some s → sess_ok s.
Proof.
  intros He Hp. destruct (erun_ok _ os (fresh_ok ts cm)) as (es1 & He1 & Hok & _). simplify_eq.
  by apply (ro_sessions es Hok p).
Qed.

(** The Start of a session whose preparation came from the agent. *)
Lemma start_for_agent s st resp : sess_ok s → st ∈ starts (x_wire s) →
  x_prepared s = Some (preparedMsg (x_ID s) (Ok resp)) →
  s_Binding st = ep_Binding resp ∧ ExecutionId (ep_Binding resp) = x_ID s ∧
  s_CommandSha256 st = ep_CommandSha256 resp ∧ s_IdentitySha256 st = ei_IdentitySha256 (ep_Identity resp) ∧
  s_Limits st = Some (ep_Limits resp) ∧
  (x_enhanced s = true → 0 < len (s_AdmissionReceipt st) ≤ 16384 ∧
     s_AdmissionExpiresUnixMilli st ≤ ExpiresUnixMilli (ep_Binding resp) ∧
     (x_scriptHash s ≠ "" → HScriptEof (x_scriptLength s) (x_scriptHash s) ∈ x_wire s)) ∧
  (x_enhanced s = false → s_PolicyVersion st = "standard-v1" ∧ s_AdmissionReceipt st = "" ∧
     s_AdmissionExpiresUnixMilli st = 0).
Proof.
  intros (HP & HS & _) Hst Hm.
  destruct (sk_started _ HS st Hst) as (_ & _ & d & <- & (m & b & i & po & re & ex & Hm' & Hb & Hi & -> & H0 & H1) & Hsent).
  destruct (so_prepared _ HP m Hm') as (b' & i' & Hb' & Hi' & _ & _ & E1 & _).
  rewrite Hm in Hm'. simplify_eq/=. split_and!; try done.
  - intros He. destruct (H1 He) as (? & ? & _ & Hs). split_and!; try done; [lia..|]. intros Hh. apply Hsent. by apply Hs.
  - intros He. by destruct (H0 He) as (-> & -> & -> & _).
Qed.

(** The agent reads the stream of a session to its Start. *)
Lemma agent_serves s (m : M) pr envs now : sess_ok s → starts (x_wire s) ≠ [] → agent_ready m s pr →
  length envs = length (x_wire s) → env_timely (ep_Binding (p_response pr)) envs →
  now < of_UnixMilli (ExpiresUnixMilli (ep_Binding (p_response pr))) →
  ∃ m1 pr1 st, serveBegin m (ep_Binding (p_response pr)) now (zip (x_wire s) envs) = (m1, Some (Ok st)) ∧
    st ∈ starts (x_wire s) ∧ script_done m1 (ep_Binding (p_response pr)) pr pr1 ∧ m_journal m1 = m_journal m ∧
    (x_scriptHash s ≠ "" → ∃ script, p_script pr1 = Some script ∧ sha256 script = x_scriptHash s).
Proof.
  intros Hok Hst (Hc & Hp & Ha & Hm & He & Hh & Hl & Hscr) Hlen Henv Hnow.
  destruct (sk_wire _ (proj1 (proj2 Hok))) as (a & Hrun & _).
  destruct (wire_attached _ _ _ Hrun Hst) as (rest & Hw & Hrest & Hst').
  assert (Hb : Binding s = Some (ep_Binding (p_response pr))) by (unfold Binding; by rewrite Hm).
  assert (Hx : ∃ x, x ∈ starts (x_wire s)) by (destruct (starts (x_wire s)) as [|x l]; [done|exists x; left]).
  destruct Hx as [x Hx]. destruct (start_for_agent s x _ Hok Hx Hm) as (_ & Hid & _ & _ & _ & Hen & _).
  rewrite Hw in Hlen |- *. destruct envs as [|e envs]; [discriminate Hlen|]. injection Hlen as Hlen.
  inversion Henv as [|? ? _ Henv']; subst. simpl in Hb.
  assert (Hbind : ∀ st, st ∈ starts rest → s_Binding st = ep_Binding (p_response pr)).
  { intros st Hin. rewrite Hst' in Hin. by destruct (start_for_agent s st _ Hok Hin Hm) as (? & _). }
  unfold serveBegin. simpl. rewrite (proj2 (Z.leb_gt _ _)) by lia. rewrite Hb, bool_decide_eq_true_2 by done. simpl.
  destruct Hscr as [[Hcomp Hno]|(Hcomp & Hen' & Hs & Ho & Hne)].
  - destruct (prelaunch_plain (terms_of s) (ep_Binding (p_response pr)) m rest envs "" a) as (_ & st & -> & Hin);
      [done | done | done | by rewrite Hst' |].
    rewrite bool_decide_eq_true_2 by (by apply Hbind). exists m, pr, st. split_and!; try done.
    unfold script_done. rewrite Hid. by split_and!.
  - rewrite He in Hen'. destruct (Hen Hen') as (_ & _ & Heof). specialize (Heof Hne). rewrite Hw in Heof.
    apply elem_of_cons in Heof as [?|Heof]; [done|].
    pose proof (so_length _ (proj1 Hok)) as HL.
    destruct (prelaunch_script (terms_of s) (ep_Binding (p_response pr)) rest m pr "" envs a)
      as (m1 & pr1 & st & -> & Hin & Hd & Hsha & Hj); try done; [|by rewrite Hst'|].
    { unfold script_pending. rewrite Hid, Hh, Hl, He. simpl. change (len "") with 0. split_and!; try done; lia. }
    rewrite bool_decide_eq_true_2 by (by apply Hbind). exists m1, pr1, st. by split_and!.
Qed.

(** What the hub sends, the agent launches: for any session the hub has
    put a Start on the stream of, and any agent that holds the attached
    preparation the session accepted, the agent's transport reads the stream to
    the Start (taking the whole protected script, whose digest is the one agreed
    on) and its manager accepts the launch, provided nothing expired on the
    agent, its storage works, and the execution was not claimed before. *)
Theorem agent_accepts_stream ts cm os es p s (m : M) pr envs now nowS io :
  erun (NewExecutionSessions ts cm) os = Some es → es_heap es !! p = Some s → starts (x_wire s) ≠ [] →
  agent_ready m s pr → length envs = length (x_wire s) → env_timely (ep_Binding (p_response pr)) envs →
  now < of_UnixMilli (ExpiresUnixMilli (ep_Binding (p_response pr))) →
  UnixMilli nowS < ExpiresUnixMilli (ep_Binding (p_response pr)) →
  Journal.Status (m_journal m) (x_ID s) io = None →
  (x_enhanced s = true → Forall (fun st => policy_valid st ∧ UnixMilli nowS < s_AdmissionExpiresUnixMilli st)
                           (starts (x_wire s))) →
  ∃ m1 m2 pr1 st, serveBegin m (ep_Binding (p_response pr)) now (zip (x_wire s) envs) = (m1, Some (Ok st)) ∧
    st ∈ starts (x_wire s) ∧ startBegin m1 (Some st) nowS io = (m2, Ok tt) ∧
    m_launching m2 !! x_ID s = Some (mkLaunching pr1 st false LResolving) ∧ p_response pr1 = p_response pr ∧
    (x_scriptHash s ≠ "" → ∃ script, p_script pr1 = Some script ∧ sha256 script = x_scriptHash s).
Proof.
  intros He Hp Hst Hready Hlen Henv Hnow HnowS Hj Hadm.
  pose proof (reachable_session _ _ _ _ _ _ He Hp) as Hok.
  destruct (agent_serves s m pr envs now Hok Hst Hready Hlen Henv Hnow)
    as (m1 & pr1 & st & Hserve & Hin & (Hc1 & Hp1 & Hr1 & He1 & Hcomp) & Hj1 & Hscript).
  destruct Hready as (_ & _ & _ & Hm & Hen & _).
  destruct (start_for_agent s st _ Hok Hin Hm) as (Hb & Hid & Hcmd & Hident & Hlim & Hprot & Hstd).
  destruct (startBegin_accepts m1 st pr1 nowS io) as (m2 & Hs & Hl); rewrite ?Hb, ?Hr1, ?Hid, ?Hj1; try done.
  - destruct (x_enhanced s) eqn:E.
    + rewrite Forall_forall in Hadm. by apply (Hadm eq_refl st).
    + destruct (Hstd eq_refl) as (Hpol & _). unfold policy_valid. rewrite Hpol. by vm_compute.
  - rewrite Hid in Hp1. exact Hp1.
  - rewrite He1, Hen. intros E. destruct (Hprot E) as (? & ? & _). rewrite Forall_forall in Hadm.
    destruct (Hadm E st Hin) as [_ ?]. split_and!; try done; lia.
  - rewrite He1, Hen. intros E. by destruct (Hstd E) as (_ & ? & ?).
  - exists m1, m2, pr1, st. rewrite Hb, Hid in Hl. by split_and!.
Qed.

Lemma empty_len h : len h = 0 → h = "".
Proof. unfold len. by destruct h. Qed.

(** The preparation a successful [Prepare] installs. *)
Lemma Prepare_installs (m m1 : M) req ready create io resolve stat prepID now resp :
  Prepare m req ready create io resolve stat prepID now = (m1, Ok resp) →
  ∃ pr l, m_closed m1 = false ∧ m_prepared m1 !! q_ExecutionId req = Some pr ∧ p_response pr = resp ∧
    p_attached pr = false ∧ p_enhanced pr = q_Enhanced req ∧ p_scriptHash pr = q_ScriptSha256 req ∧
    p_scriptLength pr = q_ScriptLength req ∧
    ep_Binding resp = mkBinding (q_ExecutionId req) (q_NodeId req) prepID (m_bootID m) (UnixMilli (now + m_ttl m)) ∧
    ep_CommandSha256 resp = sha256 (q_Command req) ∧ normalizeLimits (q_Limits req) = Ok l ∧ ep_Limits resp = l ∧
    (p_scriptComplete pr = true ∧ q_ScriptSha256 req = "" ∨
     p_scriptComplete pr = false ∧ p_enhanced pr = true ∧ p_script pr = Some "" ∧ p_scriptOffset pr = 0 ∧
     q_ScriptSha256 req ≠ "").
Proof.
  unfold Prepare. intros H. destruct (prepareChecks _ _ _ _ _) as [l|e] eqn:Ec; [|discriminate H].
  destruct (prepareBegin m (q_ExecutionId req)) as [m0 [[]|e]] eqn:Eb; [|discriminate H].
  destruct (resolveFor _ _ _ _ _ _) as [i|e]; [|by simplify_eq].
  destruct (prepareInstall m0 req l i prepID now create) as [m2 r] eqn:Ei. simplify_eq.
  assert (Hm0 : m_nodeID m0 = m_nodeID m ∧ m_bootID m0 = m_bootID m ∧ m_ttl m0 = m_ttl m).
  { unfold prepareBegin in Eb. guards_in Eb. by destruct (slot_acquire _) as [? []]; simplify_eq. }
  destruct Hm0 as (E1 & E2 & E3).
  unfold prepareInstall in Ei. destruct (m_closed m0) eqn:Ecl; [by simplify_eq|].
  destruct (bool_decide _); [by simplify_eq|]. destruct (bool_decide _); [by simplify_eq|].
  destruct (_ && negb create); [by simplify_eq|]. simplify_eq. cbn [m_closed].
  unfold prepareChecks in Ec. destruct (_ || _) eqn:G1 in Ec; [discriminate Ec|].
  destruct (q_Enhanced req && negb ready); [discriminate Ec|].
  destruct (q_Enhanced req && (_ || _ || _)) eqn:G2; [discriminate Ec|].
  destruct (negb (q_Enhanced req) && _) eqn:G3; [discriminate Ec|].
  destruct (_ || _) in Ec; [discriminate Ec|].
  destruct (Journal.Status _ _ _); [discriminate Ec|]. bool_hyps.
  eexists _, l. unfold prepareEnd. cbn [m_pending with_next with_pending with_prepared]. rewrite lookup_insert_eq.
  cbn [m_closed m_prepared with_pending with_next with_prepared]. rewrite lookup_insert_eq.
  split; [done|]. split; [done|].
  cbn [p_response p_attached p_enhanced p_scriptHash p_scriptLength p_scriptComplete p_script p_scriptOffset
       ep_Binding ep_CommandSha256 ep_Limits].
  rewrite E1, E2, E3. split_and!; try done; [congruence|].
  destruct (q_Enhanced req) eqn:Een; cbn [andb negb orb] in *.
  - destruct (bool_decide (ScriptInterpreter (q_Command req) = "")) eqn:Eint; cbn [andb negb orb] in *; bool_hyps; z_hyps.
    + left. split; [done|]. by apply empty_len.
    + right. split_and!; try done. intros E. by rewrite E in *.
  - left. split; [done|]. bool_hyps. z_hyps. by apply empty_len.
Qed.

(** What the agent prepares, the hub accepts: the answer of a successful
    [Prepare] passes the hub's validation of a session registered for the same
    command, as long as the two clocks differ by less than the allowance and the
    identity is within the protocol's limits; and the agent then holds the
    preparation attached, on the terms of that session. *)
Theorem preparation_accepted (m m1 : M) req ready create io resolve stat prepID nowA resp s nowH :
  Prepare m req ready create io resolve stat prepID nowA = (m1, Ok resp) →
  x_prepared s = None → x_prepareErr s = None → x_preparedReady s = false →
  x_ID s = q_ExecutionId req → x_NodeID s = q_NodeId req → x_bootID s = m_bootID m →
  x_commandHash s = sha256 (q_Command req) → normalizeLimits (q_Limits req) = Ok (x_limits s) →
  x_enhanced s = q_Enhanced req → x_scriptHash s = q_ScriptSha256 req → x_scriptLength s = q_ScriptLength req →
  0 < len prepID ≤ 128 → identityInvalid (x_RequestedUser s) (Some (ep_Identity resp)) = false →
  UnixMilli (wall nowH) < UnixMilli (nowA + m_ttl m)
    ≤ UnixMilli (wall nowH + (ExecutionAttachTimeout + executionPreparationClockSkew)) →
  ∃ s1, deliverPrepared s (preparedMsg (x_ID s) (Ok resp)) nowH = Some (s1, true) ∧
    ∀ ticket nowT, 32 ≤ len ticket ≤ 256 → UnixMilli nowT < UnixMilli (nowA + m_ttl m) →
      ∃ m2 pr, handleAttach m1 (Some (mkAttach (Binding s1) ticket)) nowT = (m2, true) ∧ agent_ready m2 s1 pr.
Proof.
  intros HPrep Hp He Hr H1 H2 H3 H4 H5 H6 H7 H8 Hid Hident Hclock.
  destruct (Prepare_installs _ _ _ _ _ _ _ _ _ _ _ HPrep)
    as (pr & l & Hc & Hlk & Hresp & Hat & Hen & Hh & Hl & Hb & Hcmd & Hlim & Hlim' & Hscr).
  rewrite H5 in Hlim. injection Hlim as <-.
  assert (Hv : validatePrepared s (preparedMsg (x_ID s) (Ok resp)) (wall nowH) = Ok (ep_Binding resp)).
  { unfold validatePrepared. cbn [preparedMsg pm_Error pm_Binding pm_CommandSha256 pm_Limits pm_Identity].
    rewrite Hident, Hb, Hcmd, Hlim', H4. cbn [ExecutionId NodeId PreparationId BootId ExpiresUnixMilli].
    assert (prepID ≠ "") by (intros ->; change (len "") with 0 in Hid; lia).
    rewrite (bool_decide_eq_false_2 (prepID = "")) by done. rewrite !bool_decide_eq_true_2 by done.
    rewrite (proj2 (Z.ltb_ge 128 _)), (proj2 (Z.leb_gt _ _)), (proj2 (Z.ltb_ge _ _)) by lia. done. }
  unfold deliverPrepared. rewrite Hp, He, Hr, Hv. cbn [close_chan mbind option_bind]. eexists; split; [done|].
  intros ticket nowT Ht HnowT. unfold handleAttach, Binding. simpl.
  rewrite !(proj2 (Z.ltb_ge _ _)) by lia. simpl. rewrite Hc, Hb. simpl. rewrite Hlk, Hresp, Hb, Hat.
  rewrite bool_decide_eq_true_2 by done. rewrite (proj2 (Z.leb_gt _ _)) by (simpl; lia). simpl.
  eexists _, (set_attached pr). split; [done|]. unfold agent_ready. simpl. rewrite H1, lookup_insert_eq, Hresp.
  rewrite Hen, Hh, Hl, H6, H7, H8. rewrite Hen in Hscr. split_and!; try done. by rewrite Hb.
Qed.
End composition.

(** ** Input *)

(** The frame was taken, or the process is gone; the context did not end first. *)
Definition sel_taken (sel : selected) : bool := match sel with SelCtx false => false | _ => true end.

(** The data of input messages, in order. *)
Definition input_data (l : list inputMsg) : list string := omap (fun m => snd <$> ExecRun.is_data m) l.

Lemma input_accepted tm b l : ∀ n c a r sels,
  prun tm (PStarted n c) (HInput <$> l) = Some a → length sels = length l → forallb sel_taken sels = true →
  ri_enhanced r = false → ri_closed r = c → ri_sequence r = u64 (Z.of_nat n) →
  ∃ r', receiveExecutionInput r b (zip (HInput <$> l) sels) false = (r', [], false) ∧
    (Forall (fun x => x = SelSent) sels → ri_log r' = ri_log r ++ input_data l).
Proof.
  induction l as [|m l IH]; intros n c a r sels Hrun Hlen Hsel He Hc Hs.
  { destruct sels; [|discriminate Hlen]. exists r. split; [done|]. intros _. by rewrite app_nil_r. }
  destruct sels as [|sel sels]; [discriminate Hlen|]. injection Hlen as Hlen. simpl in Hsel. bool_hyps.
  rewrite fmap_cons in Hrun. cbn -[pstep] in Hrun. destruct (pstep tm (PStarted n c) (HInput m)) as [a1|] eqn:E; [|done].
  destruct c; [by destruct m|]. rewrite fmap_cons. cbn [zip zip_with receiveExecutionInput].
  destruct m as [sq d|sq]; simpl in E; guards_in E; bool_hyps; z_hyps; subst.
  - assert (Hstep : ∃ r1, inputStep r (MsgData (u64 (Z.of_nat n)) d, sel) = (r1, Ok tt) ∧ ri_enhanced r1 = false ∧
        ri_closed r1 = false ∧ ri_sequence r1 = u64 (Z.of_nat (S n)) ∧
        (sel = SelSent → ri_log r1 = ri_log r ++ [d])).
    { unfold inputStep, Input. simpl. rewrite He, Hc, <- Hs, Z.eqb_refl. unfold MaxFrameBytes, MaxExecutionFrameBytes in *.
      rewrite (proj2 (Z.ltb_ge _ _)) by lia. simpl. rewrite <- u64_S, <- Hs.
      destruct sel as [| |[]]; try done; eexists; (split; [done|]); by split_and!. }
    destruct Hstep as (r1 & -> & He1 & Hc1 & Hs1 & Hlog).
    destruct (IH (S n) false a r1 sels) as (r' & Hr & Hl); try done. exists r'. split; [done|].
    intros Hall. inversion Hall; subst. rewrite Hl, Hlog by done. by rewrite <- app_assoc.
  - assert (Hstep : ∃ r1, inputStep r (MsgEOF (u64 (Z.of_nat n)), sel) = (r1, Ok tt) ∧ ri_enhanced r1 = false ∧
        ri_closed r1 = true ∧ ri_sequence r1 = u64 (Z.of_nat n) ∧ ri_log r1 = ri_log r).
    { unfold inputStep, InputEOF. simpl. rewrite He, Hc, <- Hs, Z.eqb_refl. simpl.
      destruct sel as [| |[]]; try done; eexists; (split; [done|]); by split_and!. }
    destruct Hstep as (r1 & -> & He1 & Hc1 & Hs1 & Hlog).
    destruct (IH n true a r1 sels) as (r' & Hr & Hl); try done. exists r'. split; [done|].
    intros Hall. inversion Hall; subst. by rewrite Hl, Hlog.
Qed.

(** The agent takes every input frame the hub forwards: whatever was sent
    on a session's stream, in whatever interleaving, the run of a standard
    command never finds a frame out of order nor is cancelled for one, and as long as the process reads
    its input it gets the data in the order the hub's callers sent it. *)
Theorem input_reaches_process ts cm os es p s sels b :
  erun (NewExecutionSessions ts cm) os = Some es → es_heap es !! p = Some s →
  length sels = length (inputs (x_wire s)) → forallb sel_taken sels = true →
  ∃ r, receiveExecutionInput newInput b (zip (HInput <$> inputs (x_wire s)) sels) false = (r, [], false) ∧
    (Forall (fun x => x = SelSent) sels → ri_log r = input_data (inputs (x_wire s))).
Proof.
  intros He Hp Hlen Hsel. destruct (reachable_session _ _ _ _ _ _ He Hp) as (_ & HS & _).
  destruct (sk_input _ HS) as (n & Hrun & _). rewrite fmap_app, prun_app in Hrun.
  destruct (prun (terms_of s) (PStarted 0 false) (HInput <$> inputs (x_wire s))) as [a|] eqn:E; [|discriminate Hrun].
  apply (input_accepted (terms_of s) b _ 0 false a newInput sels E Hlen Hsel); done.
Qed.

(** ** Output *)

(** The messages an agent sends for one output stream, and the ways two
    streams can be mixed. *)
Definition outMsgs (stdout : bool) (frames : list (Z * string)) (n : Z) : list AgentStream :=
  ((fun f => if stdout then AStdout (Some f) else AStderr (Some f)) <$> frames)
  ++ [AOutputEof (Some (if stdout then EXECUTION_OUTPUT_STDOUT else EXECUTION_OUTPUT_STDERR, n))].

Inductive interleave {A : Type} : list A → list A → list A → Prop :=
| il_nil : interleave [] [] []
| il_left x l k r : interleave l k r → interleave (x :: l) k (x :: r)
| il_right x l k r : interleave l k r → interleave l (x :: k) (x :: r).

(** One message is received and the session's callers keep up with the output. *)
Definition recvOne (s : ExecutionSession) (m : AgentStream) : option ExecutionSession :=
  s1 ← receiveExecution s (RecvMsg m) DSent;
  Some (upd_stderr (upd_stdout s1 (takeOut (x_stdout s1))) (takeOut (x_stderr s1))).

Fixpoint recvAll (s : ExecutionSession) (ms : list AgentStream) : option ExecutionSession :=
  match ms with
  | [] => Some s
  | m :: t => s1 ← recvOne s m; recvAll s1 t
  end.

(** A started session between two messages, its buffers empty. *)
Record receiving (s : ExecutionSession) : Prop := mkReceiving {
  rc_stream : attached_stream s = true;
  rc_running : v_ended (x_receiver s) = None;
  rc_started : v_started (x_receiver s) = true;
  rc_bufs : ch_buf (x_stdout s) = [] ∧ ch_buf (x_stderr s) = [];
  rc_closed : ch_closed (x_stdout s) = v_stdoutEOF (x_receiver s) ∧ ch_closed (x_stderr s) = v_stderrEOF (x_receiver s);
  rc_results : x_result s = [] ∧ x_results s = [];
}.

(** What is still to come of one stream: nothing after its end, or frames
    numbered from [seq] that fit the protocol, and the end. *)
Definition pending (stdout eof : bool) (seq : Z) (l : list AgentStream) (data : list string) : Prop :=
  if eof then l = [] ∧ data = []
  else ∃ frames, l = outMsgs stdout frames (seq + Z.of_nat (length frames)) ∧ data = snd <$> frames ∧
         frames_from seq frames ∧ Forall (fun f => len f.2 ≤ MaxExecutionFrameBytes) frames ∧
         0 ≤ seq ∧ seq + Z.of_nat (length frames) < 2 ^ 64.

Definition logs (s : ExecutionSession) : list string * list string := (ch_log (x_stdout s), ch_log (x_stderr s)).
Definition eofs (s : ExecutionSession) : bool * bool := (v_stdoutEOF (x_receiver s), v_stderrEOF (x_receiver s)).
Definition seqs (s : ExecutionSession) : Z * Z := (v_stdoutSeq (x_receiver s), v_stderrSeq (x_receiver s)).

(** The next message of the first stream is delivered. *)
Lemma recv_stdout s x l data : receiving s → pending true (eofs s).1 (seqs s).1 (x :: l) data →
  ∃ s' data', recvOne s x = Some s' ∧ receiving s' ∧ Binding s' = Binding s ∧
    pending true (eofs s').1 (seqs s').1 l data' ∧
    (eofs s').2 = (eofs s).2 ∧ (seqs s').2 = (seqs s).2 ∧
    (logs s').1 ++ data' = (logs s).1 ++ data ∧ (logs s').2 = (logs s).2.
Proof.
  intros [R1 R2 R3 [R4 R5] [R6 R7] [R8 R9]] HP. unfold pending, eofs, seqs, logs in *. simpl in *.
  destruct (v_stdoutEOF (x_receiver s)) eqn:Eeof; [by destruct HP|].
  destruct HP as (frames & Hl & -> & Hfr & Hlen & H0 & Hb).
  unfold recvOne, receiveExecution. rewrite R1, R2. cbn [negb orb is_Some].
  rewrite bool_decide_eq_false_2 by (by intros []).
  destruct frames as [|[sq d] frames]; simpl in Hl; injection Hl as -> ->.
  - unfold recvOutputEof. rewrite R3, Eeof, Z.add_0_r, !Z.eqb_refl. simpl. unfold closeOut. rewrite R6. simpl.
    eexists _, []. split; [done|]. split_and!; try done.
    constructor; simpl; rewrite ?R4, ?R5; done.
  - destruct Hfr as (-> & Hd & Hfr). inversion Hlen as [|? ? Hd1 Hlen']; subst. simpl in Hd1.
    unfold recvStdout. rewrite R3, Eeof, Z.eqb_refl. simpl. unfold deliverExecutionOutput.
    rewrite (proj2 (Z.ltb_ge _ _)) by lia. rewrite R6, R4. simpl.
    simpl in Hb. eexists _, (snd <$> frames). split; [done|]. split_and!; try done.
    + constructor; simpl; rewrite ?R5; done.
    + simpl. exists frames.
      assert (Hu : u64 (v_stdoutSeq (x_receiver s) + 1) = v_stdoutSeq (x_receiver s) + 1).
      { unfold u64. apply Z.mod_small. lia. }
      rewrite Hu. split_and!; try done; try lia.
      by replace (v_stdoutSeq (x_receiver s) + Z.of_nat (S (length frames)))
        with (v_stdoutSeq (x_receiver s) + 1 + Z.of_nat (length frames)) by lia.
    + simpl. by rewrite <- app_assoc.
Qed.

(** And of the second one. *)
Lemma recv_stderr s x l data : receiving s → pending false (eofs s).2 (seqs s).2 (x :: l) data →
  ∃ s' data', recvOne s x = Some s' ∧ receiving s' ∧ Binding s' = Binding s ∧
    pending false (eofs s').2 (seqs s').2 l data' ∧
    (eofs s').1 = (eofs s).1 ∧ (seqs s').1 = (seqs s).1 ∧
    (logs s').2 ++ data' = (logs s).2 ++ data ∧ (logs s').1 = (logs s).1.
Proof.
  intros [R1 R2 R3 [R4 R5] [R6 R7] [R8 R9]] HP. unfold pending, eofs, seqs, logs in *. simpl in *.
  destruct (v_stderrEOF (x_receiver s)) eqn:Eeof; [by destruct HP|].
  destruct HP as (frames & Hl & -> & Hfr & Hlen & H0 & Hb).
  unfold recvOne, receiveExecution. rewrite R1, R2. cbn [negb orb is_Some].
  rewrite bool_decide_eq_false_2 by (by intros []).
  destruct frames as [|[sq d] frames]; simpl in Hl; injection Hl as -> ->.
  - unfold recvOutputEof. rewrite R3, Eeof, Z.add_0_r, Z.eqb_refl.
    change (EXECUTION_OUTPUT_STDERR =? EXECUTION_OUTPUT_STDOUT) with false. cbn [negb orb].
    rewrite Z.eqb_refl. simpl. unfold closeOut. rewrite R7. simpl.
    eexists _, []. split; [done|]. split_and!; try done.
    constructor; simpl; rewrite ?R4, ?R5; done.
  - destruct Hfr as (-> & Hd & Hfr). inversion Hlen as [|? ? Hd1 Hlen']; subst. simpl in Hd1.
    unfold recvStderr. rewrite R3, Eeof, Z.eqb_refl. simpl. unfold deliverExecutionOutput.
    rewrite (proj2 (Z.ltb_ge _ _)) by lia. rewrite R7, R5. simpl.
    simpl in Hb. eexists _, (snd <$> frames). split; [done|]. split_and!; try done.
    + constructor; simpl; rewrite ?R4; done.
    + simpl. exists frames.
      assert (Hu : u64 (v_stderrSeq (x_receiver s) + 1) = v_stderrSeq (x_receiver s) + 1).
      { unfold u64. apply Z.mod_small. lia. }
      rewrite Hu. split_and!; try done; try lia.
      by replace (v_stderrSeq (x_receiver s) + Z.of_nat (S (length frames)))
        with (v_stderrSeq (x_receiver s) + 1 + Z.of_nat (length frames)) by lia.
    + simpl. by rewrite <- app_assoc.
Qed.

Lemma recv_interleaved outs errs ms : interleave outs errs ms → ∀ s d1 d2, receiving s →
  pending true (eofs s).1 (seqs s).1 outs d1 → pending false (eofs s).2 (seqs s).2 errs d2 →
  ∃ s', recvAll s ms = Some s' ∧ receiving s' ∧ Binding s' = Binding s ∧ eofs s' = (true, true) ∧
    (logs s').1 = (logs s).1 ++ d1 ∧ (logs s').2 = (logs s).2 ++ d2.
Proof.
  induction 1 as [|x l k r Hil IH|x l k r Hil IH]; intros s d1 d2 HR P1 P2.
  - exists s. unfold pending in *. destruct (eofs s) as [o e] eqn:E. simpl in *.
    destruct o; [|destruct P1 as ([|] & Hx & _); discriminate Hx].
    destruct e; [|destruct P2 as ([|] & Hx & _); discriminate Hx].
    destruct P1 as [_ ->], P2 as [_ ->]. rewrite !app_nil_r. by split_and!.
  - destruct (recv_stdout s x l d1 HR P1) as (s1 & d1' & Hone & HR1 & HB1 & P1' & E1 & E2 & L1 & L2).
    rewrite <- E1, <- E2 in P2. destruct (IH s1 d1' d2 HR1 P1' P2) as (s' & Hall & HR' & HB' & He & G1 & G2).
    exists s'. cbn [recvAll]. rewrite Hone. split_and!; try done; congruence.
  - destruct (recv_stderr s x k d2 HR P2) as (s1 & d2' & Hone & HR1 & HB1 & P2' & E1 & E2 & L1 & L2).
    rewrite <- E1, <- E2 in P1. destruct (IH s1 d1 d2' HR1 P1 P2') as (s' & Hall & HR' & HB' & He & G1 & G2).
    exists s'. cbn [recvAll]. rewrite Hone. split_and!; try done; congruence.
Qed.

Lemma recvAll_app s a b : recvAll s (a ++ b) = s1 ← recvAll s a; recvAll s1 b.
Proof. revert s. induction a as [|m a IH]; intros s; [done|]. simpl. destruct (recvOne s m); simpl; [apply IH | done]. Qed.

(** A whole result after both ends is delivered. *)
Lemma recv_result s r : receiving s → eofs s = (true, true) → Some (r_Binding r) = Binding s →
  r_State r = "exited" → r_StdoutComplete r = true → r_StderrComplete r = true → validExit r = true →
  ∃ s', recvOne s (AResult (Some r)) = Some s' ∧ x_results s' = [redactResult r] ∧ logs s' = logs s ∧
    v_ended (x_receiver s') = Some false.
Proof.
  intros [R1 R2 R3 [R4 R5] [R6 R7] [R8 R9]] E Hb Hs H1 H2 Hv. unfold eofs in E. injection E as E1 E2.
  unfold recvOne, receiveExecution. rewrite R1, R2. cbn [negb orb is_Some].
  rewrite bool_decide_eq_false_2 by (by intros []). unfold recvResult.
  rewrite R3, E1, E2, Hs, H1, H2, Hv, Hb. rewrite !bool_decide_eq_true_2 by (done || left). simpl.
  unfold putResult. rewrite R8, R9. simpl. eexists; split; [done|]. by split_and!.
Qed.

Lemma frames_payload frames : payload frames = String.concat "" (snd <$> frames).
Proof.
  induction frames as [|[q d] l IH]; [done|]. simpl. destruct l as [|[q2 d2] l]; [apply app_empty_r|].
  unfold payload in *. simpl in *. by rewrite IH.
Qed.

Lemma readLoop_length reads : ∀ emits seq frames c n, readLoop reads emits seq = Some (frames, c, n) →
  (length frames ≤ length reads)%nat.
Proof.
  induction reads as [|[d e] reads IH]; intros emits seq frames c n H; [discriminate H|]. cbn [readLoop] in H.
  destruct (0 <? len d).
  - destruct emits as [|[] es]; [simplify_eq; simpl; lia| |simplify_eq; simpl; lia].
    destruct e; simplify_eq/=; try lia.
    destruct (readLoop reads es (u64 (seq + 1))) as [[[fr c'] k]|] eqn:E; [|discriminate H]. simplify_eq/=.
    apply IH in E. lia.
  - destruct e; simplify_eq/=; try lia. apply IH in H. lia.
Qed.

Lemma readOutput_length reads emits eofSent frames eof c : readOutput reads emits eofSent = Some (frames, eof, c) →
  (length frames ≤ length reads)%nat.
Proof.
  unfold readOutput. destruct (readLoop reads emits 0) as [[[fr c'] n]|] eqn:E; [|done]. intros [= <- _ _].
  by apply readLoop_length in E.
Qed.

(** The caller gets the command's output: when the agent reports that the
    command exited, then whatever the order in which its two streams reached the
    hub, the hub delivers on each channel frames whose concatenation is exactly
    what the process wrote up to its end of file, and then the one result. *)
Theorem output_reaches_caller s out err outEmits errEmits outEOF errEOF f1 f2 e1 e2 so se b bg wait ctx reason
    inputFailed recorded ms :
  receiving s → eofs s = (false, false) → seqs s = (0, 0) → logs s = ([], []) → Binding s = Some b →
  readOutput out outEmits outEOF = Some (f1, Some e1, so) → readOutput err errEmits errEOF = Some (f2, Some e2, se) →
  Z.of_nat (length out) < 2 ^ 63 → Z.of_nat (length err) < 2 ^ 63 →
  Forall (fun f => len f.2 ≤ MaxFrameBytes) (f1 ++ f2) →
  interleave (outMsgs true f1 e1) (outMsgs false f2 e2) ms →
  r_State (finalResult b so se bg wait ctx reason inputFailed recorded) = "exited" →
  validExit (finalResult b so se bg wait ctx reason inputFailed recorded) = true →
  ∃ s', recvAll s (ms ++ [AResult (Some (finalResult b so se bg wait ctx reason inputFailed recorded))]) = Some s' ∧
    x_results s' = [redactResult (finalResult b so se bg wait ctx reason inputFailed recorded)] ∧
    String.concat "" (ch_log (x_stdout s')) = stream out ∧ String.concat "" (ch_log (x_stderr s')) = stream err ∧
    v_ended (x_receiver s') = Some false.
Proof.
  intros HR He Hq Hlg Hb Ho Hr L1 L2 Hlen Hil Hst Hv.
  set (r := finalResult b so se bg wait ctx reason inputFailed recorded) in *.
  assert (Hex := Hst). apply finalResult_exited in Hex as (_ & _ & _ & Eso & Ese). rewrite Eso in Ho. rewrite Ese in Hr.
  pose proof (readOutput_length _ _ _ _ _ _ Ho). pose proof (readOutput_length _ _ _ _ _ _ Hr).
  destruct (readOutput_complete out outEmits outEOF f1 (Some e1)) as (F1 & N1 & P1 & _); [lia|done|].
  destruct (readOutput_complete err errEmits errEOF f2 (Some e2)) as (F2 & N2 & P2 & _); [lia|done|].
  injection N1 as ->. injection N2 as ->.
  apply Forall_app in Hlen as [Hl1 Hl2].
  destruct (recv_interleaved _ _ _ Hil s (snd <$> f1) (snd <$> f2) HR) as (s1 & Hall & HR1 & HB1 & E1 & G1 & G2).
  { rewrite He, Hq. simpl. exists f1. split_and!; try done. lia. }
  { rewrite He, Hq. simpl. exists f2. split_and!; try done. lia. }
  destruct (recv_result s1 r HR1 E1) as (s' & Hone & Hres & Hl' & Hend); try done.
  { rewrite HB1, Hb. f_equal. unfold r, finalResult. by repeat case_match. }
  { unfold r, finalResult. by repeat case_match. }
  { unfold r, finalResult. by repeat case_match. }
  exists s'. rewrite recvAll_app, Hall. cbn [mbind option_bind recvAll]. rewrite Hone.
  unfold logs in *. injection Hl' as -> ->. simpl in G1, G2. rewrite G1, G2.
  injection Hlg as -> ->. simpl. rewrite <- !frames_payload. by split_and!.
Qed.

(** ** Concrete runs *)

(** A protected command: the script is sent, then the Start. *)
Definition demo_script : string := "ls".
Definition demo_protected : list eop :=
  [XSetCapabilities demo_conn "n" (Some (mkCaps 1 true true "boot"));
   XRegister "n" "x" "u" "" "true" (mkOptions "" "" false None) 0;
   XConfigure 0 true (sha256 demo_script) 2 (Some DefaultExecutionLimits);
   XDeliverPrepared 0 demo_prepared demo_now;
   XIssueAttach 0 demo_now (demo_ticket, true);
   XEnter; XAttach "n" (Some (mkAttach (Some demo_binding) demo_ticket)) demo_now;
   XDispatchProtected 0 "receipt" 20000 "v1" true true demo_now;
   XSend 0 (ActAttached true); XSend 0 ActDequeue; XSend 0 (ActValidate false demo_now);
   XSend 0 (ActScript [mkScriptTurn demo_now "l" RNil demo_now true false false;
                       mkScriptTurn demo_now "s" REOF demo_now true false false] true);
   XSend 0 (ActBeforeStart true); XSend 0 (ActLaunch false demo_now); XSend 0 (ActStart true)].

Definition demo_response : ExecutionPrepared :=
  mkPrepared "x" demo_binding demo_identity (sha256 "true") DefaultExecutionLimits.
Definition demo_preparation : preparation :=
  mkPrep 0 demo_response ex_ident "true" "" true true (sha256 demo_script) 2 0 false (Some "").
Definition demo_manager : Manager Budget :=
  mkManager "n" "boot" Minute empty_journal (Budget.New 8) {[ "x" := demo_preparation ]} ∅ ∅ ∅ false 0 0 1 [].

Lemma agent_accepts_stream_witness :
  ∃ m1 m2 pr1 st,
    serveBegin demo_manager demo_binding unix_epoch
      (zip (x_wire (demo_session demo_protected)) (replicate 5 (mkPreEnv unix_epoch true))) = (m1, Some (Ok st)) ∧
    startBegin m1 (Some st) unix_epoch ex_rio = (m2, Ok tt) ∧
    m_launching m2 !! "x" = Some (mkLaunching pr1 st false LResolving).
Proof.
  destruct (agent_accepts_stream NewTerminalSessions demo_cm demo_protected (demo_run demo_protected) 0
              (demo_session demo_protected) demo_manager demo_preparation (replicate 5 (mkPreEnv unix_epoch true))
              unix_epoch unix_epoch ex_rio) as (m1 & m2 & pr1 & st & H1 & _ & H2 & H3 & _).
  - apply demo_run_eq. vm_compute. reflexivity.
  - apply demo_session_eq. vm_compute. reflexivity.
  - vm_compute. discriminate.
  - unfold agent_ready. split_and!; try (vm_compute; reflexivity). right.
    split_and!; try (vm_compute; reflexivity). vm_compute. discriminate.
  - vm_compute. reflexivity.
  - unfold env_timely. repeat constructor; vm_compute; reflexivity.
  - vm_compute. reflexivity.
  - vm_compute. reflexivity.
  - vm_compute. reflexivity.
  - intros _. replace (starts (x_wire (demo_session demo_protected)))
      with [startFor demo_prepared demo_binding demo_identity "v1" "receipt" 20000] by (vm_compute; reflexivity).
    repeat constructor; vm_compute; congruence.
  - exists m1, m2, pr1, st. exact (conj H1 (conj H2 H3)).
Defined.

Lemma preparation_accepted_witness :
  ∃ s1, deliverPrepared (newSession "n1" "e1" "u" "" demo_conn "boot" "id")
          (preparedMsg "e1" (Ok (p_response ex_prep))) (mkNow ex_now 0) = Some (s1, true).
Proof.
  destruct (preparation_accepted ex_m0 ex_prepared.1 ex_req false false ex_rio ex_resolve ex_stat "p1" ex_now
              (p_response ex_prep) (newSession "n1" "e1" "u" "" demo_conn "boot" "id") (mkNow ex_now 0)) as (s1 & H & _);
    [vm_compute; reflexivity.. | vm_compute; split; [reflexivity | discriminate] | vm_compute; reflexivity
    | vm_compute; split; [reflexivity | discriminate] |].
  exists s1. exact H.
Defined.

(** Three frames of input and its end, all forwarded. *)
Definition demo_input : list eop :=
  demo_prepare ++ demo_launch ++
  [XSendInput 0 "a" EnqSent; XSend 0 (ActForward true); XSendInput 0 "b" EnqSent; XSendInput 0 "c" EnqSent;
   XCloseInput 0 EnqSent; XSend 0 (ActForward true); XSend 0 (ActForward true); XSend 0 (ActForward true)].

Lemma input_reaches_process_witness :
  ∃ r, receiveExecutionInput newInput demo_binding
         (zip (HInput <$> inputs (x_wire (demo_session demo_input))) (replicate 4 SelSent)) false
         = (r, [], false) ∧ ri_log r = ["a"; "b"; "c"].
Proof.
  destruct (input_reaches_process NewTerminalSessions demo_cm demo_input (demo_run demo_input) 0
              (demo_session demo_input) (replicate 4 SelSent) demo_binding) as (r & H1 & H2).
  - apply demo_run_eq. vm_compute. reflexivity.
  - apply demo_session_eq. vm_compute. reflexivity.
  - vm_compute. reflexivity.
  - reflexivity.
  - exists r. split; [exact H1|]. rewrite H2 by (repeat constructor). vm_compute. reflexivity.
Defined.

Definition demo_started : ExecutionSession := demo_session (demo_prepare ++ demo_launch ++ take 1 demo_finish).

Lemma output_reaches_caller_witness :
  ∃ s', recvAll demo_started
          [AStdout (Some (0, "ab")); AOutputEof (Some (2, 0)); AStdout (Some (1, "c")); AOutputEof (Some (1, 2));
           AResult (Some (mkResult demo_binding "exited" 3 "" "" true true))] = Some s' ∧
    String.concat "" (ch_log (x_stdout s')) = "abc".
Proof.
  destruct (output_reaches_caller demo_started [("ab", RNil); ("c", REOF)] [("", REOF)] [true; true] [] true true
              [(0, "ab"); (1, "c")] [] 2 0 true true demo_binding false (WaitExit 3 None) false "" false true
              [AStdout (Some (0, "ab")); AOutputEof (Some (2, 0)); AStdout (Some (1, "c")); AOutputEof (Some (1, 2))])
    as (s' & H1 & _ & H2 & _).
  - constructor; vm_compute; auto.
  - vm_compute. reflexivity.
  - vm_compute. reflexivity.
  - vm_compute. reflexivity.
  - vm_compute. reflexivity.
  - vm_compute. reflexivity.
  - vm_compute. reflexivity.
  - vm_compute. reflexivity.
  - vm_compute. reflexivity.
  - repeat constructor; vm_compute; congruence.
  - vm_compute. apply il_left, il_right, il_left, il_left, il_nil.
  - vm_compute. reflexivity.
  - vm_compute. reflexivity.
  - exists s'. split; [exact H1 | exact H2].
Defined.
