(* ===== verification/AuditRecord.v ===== *)
(** The protected audit record (hub/internal/auditrecord): its schema and the
    strict reader of its wire form.

    [scan] walks the tokens [json.Decoder] yields against the Go type they are
    decoded into; a type is what the code asks [reflect] for.  The token list is
    the input: turning bytes into tokens, and tokens into a value, is
    encoding/json. *)

From S2P Require Import Prelude Codec Model Filepath Governance.

(** ** The record (record.go) *)

Definition SchemaVersion : Z := 1.
Definition MaxEnvelopeBytes : Z := Z.shiftl 128 10.
Definition MaxCommandBytes : Z := Z.shiftl 32 10.
Definition MaxAttachmentBytes : Z := Z.shiftl 16 20.
Definition MaxAttachments : Z := 4.
Definition ExecutionAdmission : string := "execution.admission".
Definition ExecutionLifecycle : string := "execution.lifecycle".
Definition ExecutionDenial : string := "execution.denial".
Definition PolicyIntent : string := "policy.intent".
Definition PolicyCommit : string := "policy.commit".
Definition PolicyResult : string := "policy.result".
Definition OriginalReadIntent : string := "original_read.intent".
Definition OriginalReadResult : string := "original_read.result".
Definition PolicyAnchorType : string := "policy.anchor".

Definition ErrSchema : goerr := Sentinel "ErrSchema".

Record Actor := mkActor {
  at_UserID : string; at_PersonID : string; at_Name : string; at_Provider : string; at_Subject : string;
}.

Record Identity := mkIdentity {
  id_Username : string; id_UID : Z; id_GID : Z; id_Groups : list Z; id_GroupsSHA256 : string;
  id_IdentitySHA256 : string; id_Home : string; id_Shell : string; id_CWD : string;
}.

Record Limits := mkLimits {
  li_MaxFrameBytes : Z; li_MaxBufferBytes : Z; li_RuntimeSeconds : Z; li_TermGraceSeconds : Z;
  li_BlockedConsumerSeconds : Z;
}.

Record ExecutionBinding := mkBinding {
  eb_ExecutionID : string; eb_PreparationID : string; eb_BootID : string; eb_NodeID : string; eb_NodeName : string;
  eb_Identity : Identity; eb_CommandSHA256 : string; eb_CommandBytes : Z; eb_ScriptSHA256 : string;
  eb_ScriptBytes : Z; eb_PreparedUntil : Time; eb_Limits : Limits;
}.

Record SubmissionBinding := mkSubmission {
  sb_NodeID : string; sb_NodeName : string; sb_CommandSHA256 : string; sb_CommandBytes : Z;
  sb_ScriptSHA256 : string; sb_ScriptBytes : Z;
}.

Record Attachment := mkAttachment { am_ID : string; am_SHA256 : string; am_Bytes : Z }.

Record OriginalDelivery := mkDelivery { od_BytesWritten : option Z; od_Scope : string }.

Record ApprovalEvidence := mkApprovalEvidence {
  ae_UserID : string; ae_PersonID : string; ae_StepupProofSHA256 : string; ae_ApprovedAt : Time;
}.

Record ObjectRef := mkObjectRef {
  or_Bucket : string; or_Key : string; or_VersionID : string; or_SHA256 : string; or_Bytes : Z; or_RetainUntil : Time;
}.

Record Details := mkDetails {
  dt_Delivery : option OriginalDelivery;
  dt_Submission : option SubmissionBinding;
  dt_InstallationID : string;
  dt_Requester : option Actor;
  dt_CorrelationID : string;
  dt_RequestID : string;
  dt_RequestSHA256 : string;
  dt_ExpectedPolicyVersion : Z;
  dt_NewPolicyVersion : Z;
  dt_SessionSHA256 : string;
  dt_Reason : string;
  dt_State : string;
  dt_ExitCode : option Z;
  dt_Originals : list ObjectRef;
  dt_ApproverPersonIDs : list string;
  dt_ApprovedChange : string;
  dt_Approvals : list ApprovalEvidence;
}.

Record Envelope := mkEnvelope {
  ev_SchemaVersion : Z; ev_EventID : string; ev_EventType : string; ev_Actor : Actor;
  ev_Execution : option ExecutionBinding; ev_PolicyVersion : Z; ev_PolicySHA256 : string; ev_OccurredAt : Time;
  ev_Command : string; ev_Attachments : list Attachment; ev_Details : option Details;
}.

Definition Hash : string → string := SecurityDigest.

Definition bounded (s : string) (n : Z) : bool := (len s <=? n) && ValidUTF8 s && negb (ContainsNUL s).

Definition ObjectRef_Valid (o : ObjectRef) : bool :=
  (0 <? len (or_Bucket o)) && (len (or_Bucket o) <=? 128) && (0 <? len (or_Key o)) && (len (or_Key o) <=? 1024)
  && (0 <? len (or_VersionID o)) && negb (bool_decide (or_VersionID o = "null")) && (len (or_VersionID o) <=? 1024)
  && ValidHash (or_SHA256 o) && (0 <=? or_Bytes o) && negb (IsZeroTime (or_RetainUntil o)).

Definition Actor_Valid (a : Actor) : bool :=
  ValidID (at_UserID a) && ValidID (at_PersonID a) && bounded (at_Name a) 256 && bounded (at_Provider a) 128
  && bounded (at_Subject a) 512.

(** The tests of [Validate], in its order. *)

Definition header_ok (e : Envelope) : bool :=
  (ev_SchemaVersion e =? SchemaVersion) && ValidID (ev_EventID e) && ValidID (at_UserID (ev_Actor e))
  && ValidID (at_PersonID (ev_Actor e)) && bounded (at_Name (ev_Actor e)) 256 && bounded (at_Provider (ev_Actor e)) 128
  && bounded (at_Subject (ev_Actor e)) 512 && negb (ev_PolicyVersion e =? 0) && ValidHash (ev_PolicySHA256 e)
  && negb (IsZeroTime (ev_OccurredAt e)).

Definition known_type (t : string) : bool :=
  bool_decide (t ∈ [ExecutionAdmission; ExecutionLifecycle; ExecutionDenial; PolicyIntent; PolicyCommit; PolicyResult;
                    OriginalReadIntent; OriginalReadResult; PolicyAnchorType]).

Fixpoint attachments_ok (seen : list string) (total : Z) (l : list Attachment) : bool :=
  match l with
  | [] => total <=? MaxAttachmentBytes
  | a :: t =>
      ValidID (am_ID a) && ValidHash (am_SHA256 a) && (0 <=? am_Bytes a) && (am_Bytes a <=? MaxAttachmentBytes)
      && negb (bool_decide (am_ID a ∈ seen)) && attachments_ok (am_ID a :: seen) (total + am_Bytes a) t
  end.

(** A script's digest and size, of an execution or of a submission. *)
Definition script_ok (sha : string) (n : Z) : bool :=
  (0 <=? n) && (n <=? MaxAttachmentBytes) && (bool_decide (sha = "") || ValidHash sha)
  && (negb (bool_decide (sha = "")) || (n =? 0)).

Definition path_ok (s : string) : bool := bounded s 4096 && HasPrefix s "/".

Definition execution_ok (x : ExecutionBinding) : bool :=
  let i := eb_Identity x in let l := eb_Limits x in
  ValidID (eb_ExecutionID x) && ValidID (eb_PreparationID x) && ValidID (eb_BootID x) && ValidID (eb_NodeID x)
  && bounded (eb_NodeName x) 256 && bounded (id_Username i) 128 && negb (bool_decide (id_Username i = ""))
  && ValidHash (id_GroupsSHA256 i) && ValidHash (id_IdentitySHA256 i) && (Z.of_nat (length (id_Groups i)) <=? 1024)
  && path_ok (id_Home i) && path_ok (id_Shell i) && path_ok (id_CWD i)
  && ValidHash (eb_CommandSHA256 x) && (1 <=? eb_CommandBytes x) && (eb_CommandBytes x <=? MaxCommandBytes)
  && negb (IsZeroTime (eb_PreparedUntil x)) && negb (li_MaxFrameBytes l =? 0)
  && (li_MaxFrameBytes l <=? Z.shiftl 64 10) && (li_MaxFrameBytes l <=? li_MaxBufferBytes l)
  && (li_MaxBufferBytes l <=? Z.shiftl 2 20) && negb (li_RuntimeSeconds l =? 0) && negb (li_TermGraceSeconds l =? 0)
  && negb (li_BlockedConsumerSeconds l =? 0)
  && script_ok (eb_ScriptSHA256 x) (eb_ScriptBytes x).

(** The command and its attachments: an admission carries exactly the command
    and script it is bound to, other records carry neither. *)
Definition command_ok (e : Envelope) : bool :=
  if bool_decide (ev_EventType e = ExecutionAdmission) then
    match ev_Execution e with
    | None => false
    | Some x =>
        negb (len (ev_Command e) =? 0) && (len (ev_Command e) =? eb_CommandBytes x)
        && bool_decide (Hash (ev_Command e) = eb_CommandSHA256 x)
        && if negb (bool_decide (eb_ScriptSHA256 x = "")) then
             match ev_Attachments e with
             | [a] => bool_decide (am_ID a = "script") && bool_decide (am_SHA256 a = eb_ScriptSHA256 x)
                      && (am_Bytes a =? eb_ScriptBytes x)
             | _ => false
             end
           else bool_decide (ev_Attachments e = [])
    end
  else (len (ev_Command e) =? 0) && bool_decide (ev_Attachments e = []).

(** Which records may carry an execution, and what a denial must carry. *)
Definition binding_ok (e : Envelope) : bool :=
  negb (HasPrefix (ev_EventType e) "policy." && bool_decide (is_Some (ev_Execution e)))
  && negb (bool_decide (ev_EventType e = ExecutionDenial)
           && (bool_decide (is_Some (ev_Execution e))
               || match ev_Details e with
                  | None => true
                  | Some d => bool_decide (dt_State d = "") || negb (bool_decide (dt_Reason d = ""))
                              || bool_decide (dt_Submission d = None)
                  end))
  && negb (bool_decide (ev_EventType e = ExecutionLifecycle) && bool_decide (ev_Execution e = None)).

Definition delivery_ok (e : Envelope) (d : Details) (v : OriginalDelivery) : bool :=
  bool_decide (ev_EventType e = OriginalReadResult) && bool_decide (ev_Execution e = None)
  && bool_decide (od_Scope v = "hub_response")
  && bool_decide (dt_State d ∈ ["started"; "completed"; "interrupted"; "unconfirmed"; "expired"])
  && match od_BytesWritten v with
     | None => bool_decide (dt_State d = "unconfirmed")
     | Some n => (0 <=? n) && (n <=? MaxAttachmentBytes) && negb (bool_decide (dt_State d = "started") && negb (n =? 0))
     end.

Definition submission_ok (e : Envelope) (x : SubmissionBinding) : bool :=
  bool_decide (ev_EventType e = ExecutionDenial) && ValidID (sb_NodeID x) && bounded (sb_NodeName x) 256
  && ValidHash (sb_CommandSHA256 x) && (1 <=? sb_CommandBytes x) && (sb_CommandBytes x <=? MaxCommandBytes)
  && script_ok (sb_ScriptSHA256 x) (sb_ScriptBytes x).

Definition approval_ok (a : ApprovalEvidence) : bool :=
  ValidID (ae_UserID a) && ValidID (ae_PersonID a) && ValidHash (ae_StepupProofSHA256 a)
  && negb (IsZeroTime (ae_ApprovedAt a)).

Definition details_ok (e : Envelope) (d : Details) : bool :=
  match dt_Delivery d with Some v => delivery_ok e d v | None => true end
  && match dt_Submission d with Some x => submission_ok e x | None => true end
  && match dt_Requester d with Some a => Actor_Valid a | None => true end
  && ValidID (dt_CorrelationID d) && bounded (dt_Reason d) 4096 && bounded (dt_State d) 64
  && (Z.of_nat (length (dt_Originals d)) <=? 16) && (Z.of_nat (length (dt_ApproverPersonIDs d)) <=? 16)
  && (len (dt_ApprovedChange d) <=? Z.shiftl 64 10) && (Z.of_nat (length (dt_Approvals d)) <=? 16)
  && (bool_decide (dt_RequestID d = "") || ValidID (dt_RequestID d))
  && (bool_decide (dt_RequestSHA256 d = "") || ValidHash (dt_RequestSHA256 d))
  && (bool_decide (dt_SessionSHA256 d = "") || ValidHash (dt_SessionSHA256 d))
  && forallb ValidID (dt_ApproverPersonIDs d) && forallb ObjectRef_Valid (dt_Originals d)
  && forallb approval_ok (dt_Approvals d).

(** What the records of a policy change and of a read of an original must say. *)
Definition subject_ok (e : Envelope) : bool :=
  let t := ev_EventType e in
  if bool_decide (t ∈ [PolicyIntent; PolicyCommit; PolicyResult; PolicyAnchorType]) then
    match ev_Details e with
    | None => false
    | Some d =>
        ValidID (dt_RequestID d) && ValidHash (dt_RequestSHA256 d)
        && negb (bool_decide (t = PolicyIntent)
                 && (bool_decide (dt_Requester d = None) || bool_decide (dt_Reason d = "")
                     || (len (dt_ApprovedChange d) =? 0)
                     || negb (bool_decide (Hash (dt_ApprovedChange d) = dt_RequestSHA256 d))
                     || (Z.of_nat (length (dt_Approvals d)) <? 2)))
        && negb (bool_decide (t = PolicyAnchorType)
                 && (negb (ValidID (dt_InstallationID d)) || (dt_ExpectedPolicyVersion d =? 0)
                     || (dt_ExpectedPolicyVersion d =? 2 ^ 64 - 1)
                     || negb (dt_NewPolicyVersion d =? u64 (dt_ExpectedPolicyVersion d + 1))
                     || negb (ev_PolicyVersion e =? dt_NewPolicyVersion d) || negb (len (dt_ApprovedChange d) =? 0)))
    end
  else if bool_decide (t ∈ [OriginalReadIntent; OriginalReadResult]) then
    match ev_Details e with
    | None => false
    | Some d => ValidHash (dt_SessionSHA256 d) && negb (bool_decide (dt_Originals d = []))
                && negb (bool_decide (dt_Reason d = ""))
    end
  else true.

Definition Validate (e : Envelope) : result unit :=
  check! negb (header_ok e), ErrSchema;
  check! negb (known_type (ev_EventType e)), ErrSchema;
  check! negb (bounded (ev_Command e) MaxCommandBytes) || (MaxAttachments <? Z.of_nat (length (ev_Attachments e))), ErrSchema;
  check! negb (attachments_ok [] 0 (ev_Attachments e)), ErrSchema;
  check! negb (match ev_Execution e with Some x => execution_ok x | None => true end), ErrSchema;
  check! negb (command_ok e), ErrSchema;
  check! negb (binding_ok e), ErrSchema;
  check! negb (match ev_Details e with Some d => details_ok e d | None => true end), ErrSchema;
  check! negb (subject_ok e), ErrSchema;
  Ok tt.

(** ** The strict reader (json.go) *)

Inductive gotype :=
| TPointer (t : gotype)
| TStruct (fields : list gofield)
| TTime                                       (* time.Time, a struct *)
| TSlice (t : gotype)
| TArray (t : gotype)
| TOther                                      (* strings, numbers, booleans *)
with gofield := mkField (name pkgPath tag : string) (anonymous : bool) (type : gotype).

(** [json.Token]: a delimiter, or a scalar; object keys are strings. *)
Inductive token := TkOpen | TkClose | TkOpenList | TkCloseList | TkString (s : string) | TkScalar.

(** [d.More()]: there is another element in the current array or object. *)
Definition More (ts : list token) : bool :=
  match ts with TkClose :: _ | TkCloseList :: _ | [] => false | _ => true end.

Definition firstTag (tag : string) : string := List.hd "" (split "," tag).

(** [collectFields]; [None] is the panic of [NumField] on a type that is not a
    struct.  A time has no exported field. *)
Fixpoint collectFields (t : gotype) (out : gmap string gotype) : option (gmap string gotype) :=
  match t with
  | TStruct fields =>
      (fix go fs out :=
         match fs with
         | [] => Some out
         | mkField name pkg tagged anonymous ft :: rest =>
             if negb (bool_decide (pkg = "")) then go rest out
             else
               let tag := firstTag tagged in
               if bool_decide (tag = "-") then go rest out
               else if anonymous && bool_decide (tag = "")
               then match collectFields ft out with Some out' => go rest out' | None => None end
               else go rest (<[(if bool_decide (tag = "") then name else tag) := ft]> out)
         end) fields out
  | TTime => Some out
  | _ => None
  end.

Fixpoint elem (t : gotype) : gotype := match t with TPointer t' => elem t' | _ => t end.

Section reader.
Variable scan : list token → gotype → Z → result (list token).

(** The loop over the members of an object. *)
Fixpoint scanMembers (fuel : nat) (ts : list token) (fields : gmap string gotype) (seen : gset string) (depth : Z)
    : result (list token) :=
  match fuel with
  | O => Err ErrSchema
  | S f =>
      if More ts then
        match ts with
        | TkString s :: rest =>
            match fields !! s with
            | None => Err ErrSchema
            | Some ft =>
                check! bool_decide (s ∈ seen), ErrSchema;
                rest' <-! scan rest ft (depth + 1);
                scanMembers f rest' fields ({[s]} ∪ seen) depth
            end
        | _ => Err ErrSchema
        end
      else Ok ts
  end.

Fixpoint scanElements (fuel : nat) (ts : list token) (t : gotype) (depth : Z) : result (list token) :=
  match fuel with
  | O => Err ErrSchema
  | S f =>
      if More ts then rest <-! scan ts t (depth + 1); scanElements f rest t depth
      else Ok ts
  end.
End reader.

(** [d.Token()] that closes a value. *)
Definition closing (ts : list token) : result (list token) :=
  match ts with [] => Err ErrSchema | _ :: rest => Ok rest end.

(** Each call reads a token; [fuel] over the number of tokens never runs out. *)
Fixpoint scan (fuel : nat) (ts : list token) (t0 : gotype) (depth : Z) : result (list token) :=
  match fuel with
  | O => Err ErrSchema
  | S f =>
      check! 32 <? depth, ErrSchema;
      let t := elem t0 in
      match ts with
      | [] => Err ErrSchema
      | TkOpen :: rest =>
          match t with
          | TStruct _ =>
              match collectFields t ∅ with
              | None => Err ErrSchema
              | Some fields => rest' <-! scanMembers (scan f) (length ts) rest fields ∅ depth; closing rest'
              end
          | _ => Err ErrSchema
          end
      | TkOpenList :: rest =>
          match t with
          | TSlice e | TArray e => rest' <-! scanElements (scan f) (length ts) rest e depth; closing rest'
          | _ => Err ErrSchema
          end
      | TkClose :: _ | TkCloseList :: _ => Err ErrSchema
      | TkString _ :: rest | TkScalar :: rest => Ok rest
      end
  end.

(** [bytes.HasPrefix(bytes.TrimSpace(data), "{")] *)
Definition opens_object (data : string) : bool :=
  match TrimSpace_runes data with r :: _ => r =? 123 | [] => false end.

Section decode.
(** encoding/json: the tokens of the data, [None] when they are malformed, and
    the value [Decode] builds. *)
Context {A : Type} (tokens : string → option (list token)) (unmarshal : string → option A).

Definition Decode (data : string) (t : gotype) (max : Z) : result A :=
  check! (len data =? 0) || (max <? len data) || negb (ValidUTF8 data), ErrSchema;
  check! match t with TStruct _ | TTime => negb (opens_object data) | _ => false end, ErrSchema;
  match tokens data with
  | None => Err ErrSchema
  | Some ts =>
      rest <-! scan (S (length ts)) ts t 0;
      check! negb (bool_decide (length rest = 0%nat)), ErrSchema;
      match unmarshal data with Some a => Ok a | None => Err ErrSchema end
  end.
End decode.

(** ** Records that policy changes archive *)

(** The type [Envelope] as [reflect] sees it. *)
Definition field (name tag : string) (t : gotype) : gofield := mkField name "" tag false t.
Definition typeActor : gotype := TStruct
  [field "UserID" "user_id" TOther; field "PersonID" "person_id" TOther; field "Name" "name" TOther;
   field "Provider" "provider" TOther; field "Subject" "subject" TOther].
Definition typeIdentity : gotype := TStruct
  [field "Username" "username" TOther; field "UID" "uid" TOther; field "GID" "gid" TOther;
   field "Groups" "groups" (TSlice TOther); field "GroupsSHA256" "groups_sha256" TOther;
   field "IdentitySHA256" "identity_sha256" TOther; field "Home" "home" TOther; field "Shell" "shell" TOther;
   field "CWD" "cwd" TOther].
Definition typeLimits : gotype := TStruct
  [field "MaxFrameBytes" "max_frame_bytes" TOther; field "MaxBufferBytes" "max_buffer_bytes" TOther;
   field "RuntimeSeconds" "runtime_seconds" TOther; field "TermGraceSeconds" "term_grace_seconds" TOther;
   field "BlockedConsumerSeconds" "blocked_consumer_seconds" TOther].
Definition typeExecutionBinding : gotype := TStruct
  [field "ExecutionID" "execution_id" TOther; field "PreparationID" "preparation_id" TOther;
   field "BootID" "boot_id" TOther; field "NodeID" "node_id" TOther; field "NodeName" "node_name" TOther;
   field "Identity" "identity" typeIdentity; field "CommandSHA256" "command_sha256" TOther;
   field "CommandBytes" "command_bytes" TOther; field "ScriptSHA256" "script_sha256,omitempty" TOther;
   field "ScriptBytes" "script_bytes,omitempty" TOther; field "PreparedUntil" "prepared_until" TTime;
   field "Limits" "limits" typeLimits].
Definition typeSubmissionBinding : gotype := TStruct
  [field "NodeID" "node_id" TOther; field "NodeName" "node_name" TOther; field "CommandSHA256" "command_sha256" TOther;
   field "CommandBytes" "command_bytes" TOther; field "ScriptSHA256" "script_sha256,omitempty" TOther;
   field "ScriptBytes" "script_bytes,omitempty" TOther].
Definition typeAttachment : gotype := TStruct
  [field "ID" "id" TOther; field "SHA256" "sha256" TOther; field "Bytes" "bytes" TOther].
Definition typeOriginalDelivery : gotype := TStruct
  [field "BytesWritten" "bytes_written" (TPointer TOther); field "Scope" "scope" TOther].
Definition typeApprovalEvidence : gotype := TStruct
  [field "UserID" "user_id" TOther; field "PersonID" "person_id" TOther;
   field "StepupProofSHA256" "stepup_proof_sha256" TOther; field "ApprovedAt" "approved_at" TTime].
Definition typeObjectRef : gotype := TStruct
  [field "Bucket" "bucket" TOther; field "Key" "key" TOther; field "VersionID" "version_id" TOther;
   field "SHA256" "sha256" TOther; field "Bytes" "bytes" TOther; field "RetainUntil" "retain_until" TTime].
Definition typeDetails : gotype := TStruct
  [field "Delivery" "delivery,omitempty" (TPointer typeOriginalDelivery);
   field "Submission" "submission,omitempty" (TPointer typeSubmissionBinding);
   field "InstallationID" "installation_id,omitempty" TOther; field "Requester" "requester,omitempty" (TPointer typeActor);
   field "CorrelationID" "correlation_id" TOther; field "RequestID" "request_id,omitempty" TOther;
   field "RequestSHA256" "request_sha256,omitempty" TOther;
   field "ExpectedPolicyVersion" "expected_policy_version,omitempty" TOther;
   field "NewPolicyVersion" "new_policy_version,omitempty" TOther; field "SessionSHA256" "session_sha256,omitempty" TOther;
   field "Reason" "reason,omitempty" TOther; field "State" "state,omitempty" TOther;
   field "ExitCode" "exit_code,omitempty" (TPointer TOther); field "Originals" "originals,omitempty" (TSlice typeObjectRef);
   field "ApproverPersonIDs" "approver_person_ids,omitempty" (TSlice TOther);
   field "ApprovedChange" "approved_change,omitempty" (TSlice TOther);
   field "Approvals" "approvals,omitempty" (TSlice typeApprovalEvidence)].
Definition typeEnvelope : gotype := TStruct
  [field "SchemaVersion" "schema_version" TOther; field "EventID" "event_id" TOther; field "EventType" "event_type" TOther;
   field "Actor" "actor" typeActor; field "Execution" "execution,omitempty" (TPointer typeExecutionBinding);
   field "PolicyVersion" "policy_version" TOther; field "PolicySHA256" "policy_sha256" TOther;
   field "OccurredAt" "occurred_at" TTime; field "Command" "command,omitempty" (TSlice TOther);
   field "Attachments" "attachments,omitempty" (TSlice typeAttachment);
   field "Details" "details,omitempty" (TPointer typeDetails)].

Record Expected := mkExpected {
  ex_EventID : string; ex_EventType : string; ex_RecordSHA256 : string; ex_ActorSHA256 : string;
  ex_BindingSHA256 : string; ex_PolicyVersion : Z; ex_PolicySHA256 : string; ex_Execution : option ExecutionBinding;
}.

Section expected.
(** encoding/json on these types. *)
Context (tokens : string → option (list token)) (unmarshal : string → option Envelope)
  (marshalActor : Actor → string) (marshalBinding : option ExecutionBinding → option Details → string).

Definition ExpectedFor (data : string) : result (Expected * Envelope) :=
  match Decode tokens unmarshal data typeEnvelope MaxEnvelopeBytes with
  | Err _ => Err ErrSchema
  | Ok e =>
      match Validate e with
      | Err _ => Err ErrSchema
      | Ok _ =>
          Ok (mkExpected (ev_EventID e) (ev_EventType e) (Hash data) (Hash (marshalActor (ev_Actor e)))
                (Hash (marshalBinding (ev_Execution e) (ev_Details e))) (ev_PolicyVersion e) (ev_PolicySHA256 e)
                (ev_Execution e), e)
      end
  end.
End expected.

(** ** Identifiers are ASCII *)

Lemma id_rune_small r : id_rune r = true → 45 ≤ r ≤ 122.
Proof using. unfold id_rune, between. rewrite !orb_true_iff, !andb_true_iff, !Z.leb_le, !Z.eqb_eq. lia. Qed.

Lemma id_bytes l : forallb id_rune (fst <$> runes_sized l) = true → forallb id_rune l = true.
Proof using.
  induction l as [|b l IH]; [done|]. destruct (b <? 128) eqn:Eb.
  - cbn. rewrite Eb. cbn. intros H. apply andb_true_iff in H as [H1 H2]. by rewrite H1, IH.
  - intros H. exfalso. apply Z.ltb_ge in Eb. cbn in H. rewrite (proj2 (Z.ltb_ge _ _) Eb) in H. unfold between, RuneError in H.
    repeat case_match; cbn in H; try discriminate H; apply andb_true_iff in H as [H _]; apply id_rune_small in H; bool_hyps; z_hyps; lia.
Qed.

Lemma id_runes l : forallb id_rune l = true → runes_sized l = (fun b => (b, 1)) <$> l.
Proof using.
  induction l as [|b l IH]; [done|]. cbn. intros H. apply andb_true_iff in H as [H1 H2]. apply id_rune_small in H1.
  rewrite (proj2 (Z.ltb_lt _ _)) by lia. by rewrite IH.
Qed.

Lemma ValidID_iff s : ValidID s = true ↔ 1 ≤ len s ≤ 128 ∧ forallb id_rune (bytes s) = true.
Proof using.
  unfold ValidID, runes. pose proof (len_nonneg s). destruct (len s =? 0) eqn:E1, (128 <? len s) eqn:E2; cbn; z_hyps;
    (split; [|try (intros [] ; lia)]); try done; intros H1.
  - split; [lia|by apply id_bytes].
  - destruct H1 as [_ H1]. rewrite id_runes by done. by rewrite <- list_fmap_compose, list_fmap_id.
Qed.

(** A suffix of identifier characters keeps an identifier valid. *)
Lemma ValidID_suffix s t : ValidID s = true → forallb id_rune (bytes t) = true → len s + len t ≤ 128 → ValidID (s +:+ t) = true.
Proof using.
  rewrite !ValidID_iff. intros [Hl Hs] Ht Hb. rewrite bytes_app, forallb_app, Hs, Ht, len_app. pose proof (len_nonneg t). split; [lia|done].
Qed.

(** ** Digests are valid hashes *)

Lemma hex_digit_lower n : 0 ≤ n < 16 → hex_lower (hex_digit n) = true ∧ 0 ≤ hex_digit n < 256.
Proof using.
  intros H. unfold hex_lower, hex_digit, between. destruct (n <? 10) eqn:E; z_hyps; split; try lia;
    apply orb_true_iff; rewrite !andb_true_iff, !Z.leb_le; lia.
Qed.

Lemma hex_encode_lower l : Forall (fun b => 0 ≤ b < 256) l →
  Forall (fun d => hex_lower d = true ∧ 0 ≤ d < 256) (hex_encode l) ∧ length (hex_encode l) = (2 * length l)%nat.
Proof using.
  unfold hex_encode. intros H. induction H as [|b l Hb H [IH1 IH2]]; [by split|]. rewrite bind_cons. split.
  - cbn. constructor; [|constructor; [|exact IH1]]; apply hex_digit_lower.
    + rewrite Z.shiftr_div_pow2 by lia. split; [apply Z.div_pos; lia|apply Z.div_lt_upper_bound; lia].
    + change 15 with (Z.ones 4). rewrite Z.land_ones by lia. apply Z.mod_pos_bound. lia.
  - rewrite length_app, IH2. cbn. lia.
Qed.

Lemma digest_valid raw : ValidHash (SecurityDigest raw) = true.
Proof using.
  unfold ValidHash, SecurityDigest. destruct (sha256_bytes_range (bytes raw)) as [Hr Hl].
  destruct (hex_encode_lower _ Hr) as [Hh Hn]. rewrite len_bytes, bytes_of_string by (eapply Forall_impl; [exact Hh|]; by intros ? []).
  rewrite Hn, Hl. cbn [andb]. apply Is_true_eq_true, forallb_True. eapply Forall_impl; [exact Hh|]. intros d [-> _]. done.
Qed.

Lemma SecurityDigest_nonempty raw : SecurityDigest raw ≠ "".
Proof using. intros E. pose proof (digest_valid raw) as H. by rewrite E in H. Qed.

(** ** What the strict reader accepts *)

(** A JSON value; the members of an object in the order they are written,
    repetitions included. *)
Inductive json := JScalar | JString (s : string) | JObject (members : list (string * json)) | JArray (elements : list json).

(** Induction that reaches the parts of objects and arrays. *)
Fixpoint json_nested_ind (P : json → Prop) (Hs : P JScalar) (Ht : ∀ s, P (JString s))
    (Ho : ∀ ms, Forall (fun m => P m.2) ms → P (JObject ms)) (Ha : ∀ es, Forall P es → P (JArray es)) (v : json) : P v :=
  match v with
  | JScalar => Hs
  | JString s => Ht s
  | JObject ms => Ho ms ((fix go l : Forall (fun m => P m.2) l :=
      match l with
      | [] => List.Forall_nil _
      | m :: l' => List.Forall_cons _ m l' (json_nested_ind P Hs Ht Ho Ha m.2) (go l')
      end) ms)
  | JArray es => Ha es ((fix go l : Forall P l :=
      match l with
      | [] => List.Forall_nil _
      | e :: l' => List.Forall_cons _ e l' (json_nested_ind P Hs Ht Ho Ha e) (go l')
      end) es)
  end.

Fixpoint tokens_of (v : json) : list token :=
  match v with
  | JScalar => [TkScalar]
  | JString s => [TkString s]
  | JObject ms => TkOpen :: (flat_map (fun m => TkString m.1 :: tokens_of m.2) ms ++ [TkClose])
  | JArray es => TkOpenList :: (flat_map tokens_of es ++ [TkCloseList])
  end.

(** Objects only for structs, with members the struct has and none twice,
    arrays only for slices, at most 32 levels deep. *)
Fixpoint strict (v : json) (t : gotype) (depth : Z) : bool :=
  (depth <=? 32) &&
  match v with
  | JScalar | JString _ => true
  | JObject ms =>
      match elem t, collectFields (elem t) ∅ with
      | TStruct _, Some fields =>
          bool_decide (NoDup (fst <$> ms))
          && forallb (fun m => match fields !! m.1 with Some ft => strict m.2 ft (depth + 1) | None => false end) ms
      | _, _ => false
      end
  | JArray es =>
      match elem t with
      | TSlice e | TArray e => forallb (fun v' => strict v' e (depth + 1)) es
      | _ => false
      end
  end.

Definition members_of (ms : list (string * json)) : list token := flat_map (fun m => TkString m.1 :: tokens_of m.2) ms.

Lemma tokens_of_nonempty v : (1 ≤ length (tokens_of v))%nat.
Proof using. destruct v; simpl; lia. Qed.
Lemma More_value v rest : More (tokens_of v ++ rest) = true.
Proof using. by destruct v. Qed.

(** [scan] reads exactly the value at the head of the tokens. *)
Definition reads (v : json) : Prop := ∀ fuel t depth rest, (length (tokens_of v) ≤ fuel)%nat →
  scan fuel (tokens_of v ++ rest) t depth = if strict v t depth then Ok rest else Err ErrSchema.

Lemma scanMembers_reads ms f fuel fields seen depth rest : Forall (fun m => reads m.2) ms →
  (length (members_of ms) ≤ f)%nat → (length (members_of ms) < fuel)%nat → More rest = false →
  scanMembers (scan f) fuel (members_of ms ++ rest) fields seen depth =
  if bool_decide (NoDup (fst <$> ms)) && forallb (fun m => bool_decide (m.1 ∉ seen)) ms
     && forallb (fun m => match fields !! m.1 with Some ft => strict m.2 ft (depth + 1) | None => false end) ms
  then Ok rest else Err ErrSchema.
Proof using.
  intros HF. revert fuel seen. induction HF as [|[k v] ms Hv HF IH]; intros fuel seen Hf Hfuel Hm.
  - destruct fuel; [simpl in Hfuel; lia|]. simpl. by rewrite Hm.
  - cbn [members_of flat_map] in *. fold (members_of ms) in *. rewrite <- app_assoc.
    rewrite !length_app in *. pose proof (tokens_of_nonempty v). simpl in Hf, Hfuel, Hv.
    destruct fuel as [|fuel]; [lia|]. simpl. destruct (fields !! k) as [ft|]; [|by rewrite !andb_false_r].
    rewrite (Hv _ ft (depth + 1) (members_of ms ++ rest)) by lia.
    destruct (decide (k ∈ seen)) as [Hs|Hs].
    { rewrite (bool_decide_eq_true_2 (k ∈ seen)) by done. rewrite (bool_decide_eq_false_2 (k ∉ seen)) by (by intros []). by rewrite !andb_false_r. }
    rewrite (bool_decide_eq_false_2 (k ∈ seen)), (bool_decide_eq_true_2 (k ∉ seen)) by done. simpl.
    destruct (strict v ft (depth + 1)); [|by rewrite !andb_false_r]. rewrite IH by (done || lia). simpl.
    assert (bool_decide (NoDup (fst <$> ms)) && forallb (fun m : string * json => bool_decide (m.1 ∉ {[k]} ∪ seen)) ms =
            bool_decide (NoDup (k :: (fst <$> ms))) && forallb (fun m : string * json => bool_decide (m.1 ∉ seen)) ms) as ->; [|done].
    clear. apply eq_bool_prop_intro. rewrite !andb_True, !forallb_True, !bool_decide_spec, NoDup_cons.
    setoid_rewrite bool_decide_spec. rewrite !Forall_forall. set_solver.
Qed.

Lemma scanElements_reads es f fuel t depth rest : Forall reads es →
  (length (flat_map tokens_of es) ≤ f)%nat → (length (flat_map tokens_of es) < fuel)%nat → More rest = false →
  scanElements (scan f) fuel (flat_map tokens_of es ++ rest) t depth =
  if forallb (fun v => strict v t (depth + 1)) es then Ok rest else Err ErrSchema.
Proof using.
  intros HF. revert fuel. induction HF as [|v es Hv HF IH]; intros fuel Hf Hfuel Hm.
  - destruct fuel; [simpl in Hfuel; lia|]. simpl. by rewrite Hm.
  - cbn [flat_map] in *. rewrite <- app_assoc. rewrite !length_app in *. pose proof (tokens_of_nonempty v).
    destruct fuel as [|fuel]; [lia|]. cbn [scanElements forallb]. rewrite More_value, (Hv _ t (depth + 1)) by lia.
    destruct (strict v t (depth + 1)); [|done]. apply IH; [lia|lia|done].
Qed.

Lemma scan_reads v : reads v.
Proof using.
  induction v as [|s|ms IH|es IH] using json_nested_ind; intros fuel t depth rest Hf;
    (destruct fuel as [|f]; [simpl in Hf; lia|]); cbn [tokens_of app scan strict]; rewrite Z.leb_antisym;
    (destruct (32 <? depth); [done|]); cbn [negb andb]; try done.
  - cbn [tokens_of] in Hf. fold (members_of ms) in *. simpl in Hf. rewrite length_app in Hf. simpl in Hf.
    destruct (elem t) eqn:Et; try done. rewrite <- Et. destruct (collectFields (elem t) ∅) as [known|]; [|done].
    rewrite <- app_assoc. rewrite scanMembers_reads; [|done|lia|simpl; rewrite !length_app; simpl; lia|done].
    replace (forallb (fun m : string * json => bool_decide (m.1 ∉ (∅ : gset string))) ms) with true.
    2:{ symmetry. apply Is_true_eq_true, forallb_True, Forall_forall. intros m _. apply bool_decide_spec. set_solver. }
    rewrite andb_true_r. by destruct (_ && _).
  - cbn [tokens_of] in Hf. simpl in Hf. rewrite length_app in Hf. simpl in Hf.
    destruct (elem t) eqn:Et; try done;
      (rewrite <- app_assoc; rewrite scanElements_reads; [|done|lia|simpl; rewrite !length_app; simpl; lia|done];
       by destruct (forallb _ es)).
Qed.

(** C31. The reader of protected records is strict: a text that is the JSON value
    [v] is read as the record [e] if and only if it has between 1 and [max] bytes
    of valid UTF-8, opens an object, every object in it, at every level down to
    the limit of 32, stands where its type has a struct and has only members
    the struct declares and none of them twice, every array stands where the
    type has a slice or an array, and encoding/json decodes the text into [e]
    (which it refuses to do for a member of the wrong type); the walk over the
    tokens always ends. *)
Theorem reader_strict (tokens : string → option (list token)) (unmarshal : string → option Envelope) data v e max :
  tokens data = Some (tokens_of v) →
  Decode tokens unmarshal data typeEnvelope max = Ok e ↔
  1 ≤ len data ≤ max ∧ ValidUTF8 data = true ∧ opens_object data = true ∧ strict v typeEnvelope 0 = true ∧
  unmarshal data = Some e.
Proof using.
  intros Ht. unfold Decode. rewrite Ht. pose proof (len_nonneg data).
  rewrite <- (app_nil_r (tokens_of v)) at 2. rewrite scan_reads by lia.
  change (match typeEnvelope with TStruct _ | TTime => negb (opens_object data) | _ => false end) with (negb (opens_object data)).
  destruct (opens_object data); cbn [negb]; [|split; [intros H'; guards_in H'|intros (_ & _ & ? & _)]; done].
  destruct (ValidUTF8 data); cbn [negb].
  2:{ rewrite orb_true_r. split; [done|by intros (_ & ? & _)]. }
  rewrite orb_false_r. destruct (len data =? 0) eqn:E1, (max <? len data) eqn:E2; cbn [orb]; z_hyps;
    try (split; [done|intros ([] & _); lia]).
  destruct (strict v typeEnvelope 0); [|split; [done|by intros (_ & _ & _ & ? & _)]]. cbn.
  destruct (unmarshal data); split; try done; [intros [= ->]; split_and!; (done || lia)|by intros (_ & _ & _ & _ & [= ->])|by intros (_ & _ & _ & _ & ?)].
Qed.

(** A record with a nested object and a list; the same with a member twice; and
    the same with a number for a text. *)
Definition ex_text : string := dquoted "{'event_id':'e1','actor':{'name':'ana'},'attachments':[{'id':'a1'}]}".
Definition ex_text_twice : string := dquoted "{'event_id':'e1','actor':{'name':'ana','name':'ana'},'attachments':[{'id':'a1'}]}".
Definition ex_text_number : string := dquoted "{'event_id':1,'actor':{'name':'ana'},'attachments':[{'id':'a1'}]}".
Definition ex_list : json := JArray [JObject [("id", JString "a1")]].
Definition ex_value : json :=
  JObject [("event_id", JString "e1"); ("actor", JObject [("name", JString "ana")]); ("attachments", ex_list)].
Definition ex_twice : json :=
  JObject [("event_id", JString "e1"); ("actor", JObject [("name", JString "ana"); ("name", JString "ana")]); ("attachments", ex_list)].
Definition ex_number : json :=
  JObject [("event_id", JScalar); ("actor", JObject [("name", JString "ana")]); ("attachments", ex_list)].
Definition ex_envelope : Envelope := mkEnvelope 0 "e1" "" (mkActor "" "" "ana" "" "") None 0 "" 0 "" [mkAttachment "a1" "" 0] None.
(** encoding/json on the three texts: the repetition alone does not stop it, the
    wrong type does. *)
Definition ex_tokens (data : string) : option (list token) :=
  if bool_decide (data = ex_text) then Some (tokens_of ex_value)
  else if bool_decide (data = ex_text_twice) then Some (tokens_of ex_twice)
  else if bool_decide (data = ex_text_number) then Some (tokens_of ex_number) else None.
Definition ex_unmarshal (data : string) : option Envelope :=
  if bool_decide (data = ex_text) || bool_decide (data = ex_text_twice) then Some ex_envelope else None.

Lemma reader_strict_witness :
  Decode ex_tokens ex_unmarshal ex_text typeEnvelope MaxEnvelopeBytes = Ok ex_envelope ∧
  Decode ex_tokens ex_unmarshal ex_text_twice typeEnvelope MaxEnvelopeBytes ≠ Ok ex_envelope ∧
  Decode ex_tokens ex_unmarshal ex_text_number typeEnvelope MaxEnvelopeBytes ≠ Ok ex_envelope.
Proof.
  split; [|split].
  - apply (reader_strict _ _ _ ex_value); [vm_compute; reflexivity|]. vm_compute. repeat split; discriminate.
  - intros H. apply (reader_strict _ _ _ ex_twice) in H; [|vm_compute; reflexivity].
    destruct H as (_ & _ & _ & H & _). vm_compute in H. discriminate H.
  - intros H. apply (reader_strict _ _ _ ex_number) in H; [|vm_compute; reflexivity].
    destruct H as (_ & _ & _ & _ & H). vm_compute in H. discriminate H.
Defined.
