(* ===== verification/SecurityStore.v ===== *)
(** The store side of security changes (hub/internal/store/security.go): the
    step-up proofs that authorize one act, the request, approval and claim of a
    change, its application to the accounts and the policy, and the triggers of
    migrations/025_security_governance.sql that void approvals and proofs when an
    account's credentials change.

    A table is a map from its primary key; a row is a record.  A function
    [Gov → result Gov] is the body of a [BEGIN IMMEDIATE] transaction: an error
    rolls back, so it returns no tables.  The checks and unique and foreign keys
    the migration declares are checks of the insertions.  The clock readings of a
    transaction are a function from their position in it; what SQL itself stamps
    ([unixepoch()], [datetime('now')]) is one more input, [stamp].  Text columns
    that hold times are their parsed value: a time that does not parse is zero,
    or [Some None] where the code tells it from NULL.  The [change] member of the
    approved bytes is decoded by the parameter [proposal], policies by [J]. *)

From stdpp Require Import sorting.
From S2P Require Import Prelude Codec Lockout Model Account Session Governance.

(** ** Tables *)

Inductive ChangeState :=
| ChRequested | ChPartiallyApproved | ChApproved | ChApplying | ChApplied
| ChExpired | ChSuperseded | ChFailed | ChRejected.
#[export] Instance ChangeState_eq_dec : EqDecision ChangeState.
Proof. solve_decision. Defined.

Record ChangeRow := mkChangeRow {
  cr_revision : Z;
  cr_requester : string; cr_requesterPerson : string; cr_requesterGeneration : Z;
  cr_expectedVersion : Z;
  cr_digest : string; cr_reason : string; cr_payload : string;
  cr_state : ChangeState;
  cr_created : Z; cr_expires : Z;
  cr_intent : string; cr_commit : string; cr_result : string;
  cr_applier : string; cr_applierPerson : string; cr_applierRevision : Z;
}.
Definition row_state (s : ChangeRow) v := mkChangeRow (cr_revision s) (cr_requester s) (cr_requesterPerson s) (cr_requesterGeneration s) (cr_expectedVersion s) (cr_digest s) (cr_reason s) (cr_payload s) v (cr_created s) (cr_expires s) (cr_intent s) (cr_commit s) (cr_result s) (cr_applier s) (cr_applierPerson s) (cr_applierRevision s).
Definition row_applier (s : ChangeRow) v0 v1 v2 := mkChangeRow (cr_revision s) (cr_requester s) (cr_requesterPerson s) (cr_requesterGeneration s) (cr_expectedVersion s) (cr_digest s) (cr_reason s) (cr_payload s) (cr_state s) (cr_created s) (cr_expires s) (cr_intent s) (cr_commit s) (cr_result s) v0 v1 v2.
Definition row_intent (s : ChangeRow) v0 v1 := mkChangeRow (cr_revision s) (cr_requester s) (cr_requesterPerson s) (cr_requesterGeneration s) (cr_expectedVersion s) (cr_digest s) (cr_reason s) (cr_payload s) v0 (cr_created s) (cr_expires s) v1 (cr_commit s) (cr_result s) (cr_applier s) (cr_applierPerson s) (cr_applierRevision s).
Definition row_commit (s : ChangeRow) v := mkChangeRow (cr_revision s) (cr_requester s) (cr_requesterPerson s) (cr_requesterGeneration s) (cr_expectedVersion s) (cr_digest s) (cr_reason s) (cr_payload s) (cr_state s) (cr_created s) (cr_expires s) (cr_intent s) v (cr_result s) (cr_applier s) (cr_applierPerson s) (cr_applierRevision s).
Definition row_result (s : ChangeRow) v0 v1 := mkChangeRow (cr_revision s) (cr_requester s) (cr_requesterPerson s) (cr_requesterGeneration s) (cr_expectedVersion s) (cr_digest s) (cr_reason s) (cr_payload s) v0 (cr_created s) (cr_expires s) (cr_intent s) (cr_commit s) v1 (cr_applier s) (cr_applierPerson s) (cr_applierRevision s).

Record NominationRow := mkNominationRow { nr_person : string; nr_roles : list string; nr_verification : string }.

Record VoteRow := mkVote {
  vt_digest : string; vt_user : string; vt_proof : string; vt_generation : Z; vt_at : Z;
  vt_invalidated : option Z;
}.

Record ProofRow := mkProof {
  pf_user : string; pf_session : string; pf_action : string; pf_digest : string;
  pf_created : Z; pf_expires : Z; pf_consumed : option Z; pf_generation : Z;
}.

Inductive PolicyPhase := PhStandard | PhSetupPending | PhEnhanced | PhApplying | PhRecovery.
#[export] Instance PolicyPhase_eq_dec : EqDecision PolicyPhase.
Proof. solve_decision. Defined.

Record PolicyRow := mkPolicyRow {
  pl_active : Z; pl_state : PolicyPhase; pl_pending : option Z; pl_change : string;
}.

Record LinkRow := mkLink { lk_person : string; lk_request : string }.

Record SessionRow := mkSessionRow {
  sn_user : string; sn_kind : string; sn_created : Time; sn_lastSeen : Time;
  sn_expires : option (option Time); sn_ended : option (option Time);
  sn_ip : string; sn_agent : string; sn_reason : option string; sn_by : option string;
  sn_refresh : string;                                   (* refresh_token_sha256 *)
}.
(** [UPDATE sessions SET last_seen_at], [.. refresh_token_sha256, last_seen_at], [.. ended_at, end_reason, ended_by] *)
Definition session_seen (s : SessionRow) v := mkSessionRow (sn_user s) (sn_kind s) (sn_created s) v (sn_expires s) (sn_ended s) (sn_ip s) (sn_agent s) (sn_reason s) (sn_by s) (sn_refresh s).
Definition session_refresh (s : SessionRow) v := mkSessionRow (sn_user s) (sn_kind s) (sn_created s) (sn_lastSeen s) (sn_expires s) (sn_ended s) (sn_ip s) (sn_agent s) (sn_reason s) (sn_by s) v.
Definition session_ended (s : SessionRow) stamp reason by_ := mkSessionRow (sn_user s) (sn_kind s) (sn_created s) (sn_lastSeen s) (sn_expires s) (Some (Some stamp)) (sn_ip s) (sn_agent s) (Some reason) by_ (sn_refresh s).

Record TokenRow := mkToken {
  tk_user : string; tk_hash : string; tk_expires : option Time; tk_lastUsed : option Time; tk_revoked : option Time;
}.
Definition token_used (s : TokenRow) v := mkToken (tk_user s) (tk_hash s) (tk_expires s) (Some v) (tk_revoked s).
Definition token_revoked (s : TokenRow) v := mkToken (tk_user s) (tk_hash s) (tk_expires s) (tk_lastUsed s) (Some v).

(** A credential of a user that can be revoked: an application anchor or session. *)
Record OwnedRow := mkOwned { ow_user : string; ow_anchor : string; ow_ended : option Time }.

Record HistoryRow := mkHistory { hi_user : string; hi_hash : string; hi_at : Z }.

(** The tables of accounts and their authority; [ac_history] is in the order of
    insertion. *)
Record Accounts := mkAccounts {
  ac_users : gmap string User;
  ac_links : gmap string LinkRow;
  ac_persons : gmap string string;                       (* verification *)
  ac_roles : gmap (string * string) string;              (* granting request *)
  ac_config : gmap string string;
  ac_sessions : gmap string SessionRow;
  ac_tokens : gmap string TokenRow;
  ac_anchors : gmap string OwnedRow;
  ac_appSessions : gmap string OwnedRow;
  ac_appVersions : gmap string Z;
  ac_tickets : gmap string string;                       (* user *)
  ac_history : list HistoryRow;
  ac_passwordRecoveries : gmap string (string * string); (* request, hash *)
  ac_mfaRecoveries : gmap string (string * Z);           (* request, generation *)
}.
Definition set_users (s : Accounts) v := mkAccounts v (ac_links s) (ac_persons s) (ac_roles s) (ac_config s) (ac_sessions s) (ac_tokens s) (ac_anchors s) (ac_appSessions s) (ac_appVersions s) (ac_tickets s) (ac_history s) (ac_passwordRecoveries s) (ac_mfaRecoveries s).
Definition set_links (s : Accounts) v := mkAccounts (ac_users s) v (ac_persons s) (ac_roles s) (ac_config s) (ac_sessions s) (ac_tokens s) (ac_anchors s) (ac_appSessions s) (ac_appVersions s) (ac_tickets s) (ac_history s) (ac_passwordRecoveries s) (ac_mfaRecoveries s).
Definition set_persons (s : Accounts) v := mkAccounts (ac_users s) (ac_links s) v (ac_roles s) (ac_config s) (ac_sessions s) (ac_tokens s) (ac_anchors s) (ac_appSessions s) (ac_appVersions s) (ac_tickets s) (ac_history s) (ac_passwordRecoveries s) (ac_mfaRecoveries s).
Definition set_roles (s : Accounts) v := mkAccounts (ac_users s) (ac_links s) (ac_persons s) v (ac_config s) (ac_sessions s) (ac_tokens s) (ac_anchors s) (ac_appSessions s) (ac_appVersions s) (ac_tickets s) (ac_history s) (ac_passwordRecoveries s) (ac_mfaRecoveries s).
Definition set_config (s : Accounts) v := mkAccounts (ac_users s) (ac_links s) (ac_persons s) (ac_roles s) v (ac_sessions s) (ac_tokens s) (ac_anchors s) (ac_appSessions s) (ac_appVersions s) (ac_tickets s) (ac_history s) (ac_passwordRecoveries s) (ac_mfaRecoveries s).
Definition set_sessions (s : Accounts) v := mkAccounts (ac_users s) (ac_links s) (ac_persons s) (ac_roles s) (ac_config s) v (ac_tokens s) (ac_anchors s) (ac_appSessions s) (ac_appVersions s) (ac_tickets s) (ac_history s) (ac_passwordRecoveries s) (ac_mfaRecoveries s).
Definition set_tokens (s : Accounts) v := mkAccounts (ac_users s) (ac_links s) (ac_persons s) (ac_roles s) (ac_config s) (ac_sessions s) v (ac_anchors s) (ac_appSessions s) (ac_appVersions s) (ac_tickets s) (ac_history s) (ac_passwordRecoveries s) (ac_mfaRecoveries s).
Definition set_anchors (s : Accounts) v := mkAccounts (ac_users s) (ac_links s) (ac_persons s) (ac_roles s) (ac_config s) (ac_sessions s) (ac_tokens s) v (ac_appSessions s) (ac_appVersions s) (ac_tickets s) (ac_history s) (ac_passwordRecoveries s) (ac_mfaRecoveries s).
Definition set_appSessions (s : Accounts) v := mkAccounts (ac_users s) (ac_links s) (ac_persons s) (ac_roles s) (ac_config s) (ac_sessions s) (ac_tokens s) (ac_anchors s) v (ac_appVersions s) (ac_tickets s) (ac_history s) (ac_passwordRecoveries s) (ac_mfaRecoveries s).
Definition set_appVersions (s : Accounts) v := mkAccounts (ac_users s) (ac_links s) (ac_persons s) (ac_roles s) (ac_config s) (ac_sessions s) (ac_tokens s) (ac_anchors s) (ac_appSessions s) v (ac_tickets s) (ac_history s) (ac_passwordRecoveries s) (ac_mfaRecoveries s).
Definition set_tickets (s : Accounts) v := mkAccounts (ac_users s) (ac_links s) (ac_persons s) (ac_roles s) (ac_config s) (ac_sessions s) (ac_tokens s) (ac_anchors s) (ac_appSessions s) (ac_appVersions s) v (ac_history s) (ac_passwordRecoveries s) (ac_mfaRecoveries s).
Definition set_history (s : Accounts) v := mkAccounts (ac_users s) (ac_links s) (ac_persons s) (ac_roles s) (ac_config s) (ac_sessions s) (ac_tokens s) (ac_anchors s) (ac_appSessions s) (ac_appVersions s) (ac_tickets s) v (ac_passwordRecoveries s) (ac_mfaRecoveries s).
Definition set_passwordRecoveries (s : Accounts) v := mkAccounts (ac_users s) (ac_links s) (ac_persons s) (ac_roles s) (ac_config s) (ac_sessions s) (ac_tokens s) (ac_anchors s) (ac_appSessions s) (ac_appVersions s) (ac_tickets s) (ac_history s) v (ac_mfaRecoveries s).
Definition set_mfaRecoveries (s : Accounts) v := mkAccounts (ac_users s) (ac_links s) (ac_persons s) (ac_roles s) (ac_config s) (ac_sessions s) (ac_tokens s) (ac_anchors s) (ac_appSessions s) (ac_appVersions s) (ac_tickets s) (ac_history s) (ac_passwordRecoveries s) v.

Record Gov := mkGov {
  gv_changes : gmap string ChangeRow;
  gv_nominations : gmap (string * string) NominationRow; (* request, user *)
  gv_votes : gmap (string * Z * string) VoteRow;         (* request, revision, person *)
  gv_proofs : gmap string ProofRow;                      (* hash *)
  gv_policy : PolicyRow;
  gv_versions : gmap Z (string * string * string);       (* payload, digest, request *)
  gv_secrets : gmap string (string * string * Z);
  gv_evidence : gmap (string * string) (string * string); (* record, reference *)
  gv_accounts : Accounts;
}.
Definition with_changes (s : Gov) v := mkGov v (gv_nominations s) (gv_votes s) (gv_proofs s) (gv_policy s) (gv_versions s) (gv_secrets s) (gv_evidence s) (gv_accounts s).
Definition with_nominations (s : Gov) v := mkGov (gv_changes s) v (gv_votes s) (gv_proofs s) (gv_policy s) (gv_versions s) (gv_secrets s) (gv_evidence s) (gv_accounts s).
Definition with_votes (s : Gov) v := mkGov (gv_changes s) (gv_nominations s) v (gv_proofs s) (gv_policy s) (gv_versions s) (gv_secrets s) (gv_evidence s) (gv_accounts s).
Definition with_proofs (s : Gov) v := mkGov (gv_changes s) (gv_nominations s) (gv_votes s) v (gv_policy s) (gv_versions s) (gv_secrets s) (gv_evidence s) (gv_accounts s).
Definition with_policy (s : Gov) v := mkGov (gv_changes s) (gv_nominations s) (gv_votes s) (gv_proofs s) v (gv_versions s) (gv_secrets s) (gv_evidence s) (gv_accounts s).
Definition with_versions (s : Gov) v := mkGov (gv_changes s) (gv_nominations s) (gv_votes s) (gv_proofs s) (gv_policy s) v (gv_secrets s) (gv_evidence s) (gv_accounts s).
Definition with_secrets (s : Gov) v := mkGov (gv_changes s) (gv_nominations s) (gv_votes s) (gv_proofs s) (gv_policy s) (gv_versions s) v (gv_evidence s) (gv_accounts s).
Definition with_evidence (s : Gov) v := mkGov (gv_changes s) (gv_nominations s) (gv_votes s) (gv_proofs s) (gv_policy s) (gv_versions s) (gv_secrets s) v (gv_accounts s).
Definition with_accounts (s : Gov) v := mkGov (gv_changes s) (gv_nominations s) (gv_votes s) (gv_proofs s) (gv_policy s) (gv_versions s) (gv_secrets s) (gv_evidence s) v.

(** Updates of a user's row. *)
Definition user_generations (s : User) v0 v1 := mkUser (u_ID s) (u_Username s) (u_Email s) (u_PasswordHash s) (u_Role s) (u_AuthProvider s) (u_ExternalID s) (u_LDAPDN s) (u_LDAPUsername s) (u_LDAPLastSyncAt s) (u_TerminalAccess s) (u_TOTPSecret s) (u_TOTPEnabled s) v0 (u_Protected s) v1 (u_SSHCredentialGeneration s) (u_Roles s) (u_Capabilities s) (u_PersonID s) (u_Avatar s) (u_MustChangePassword s) (u_TempPasswordExpiresAt s) (u_FailedLoginCount s) (u_LastFailedLoginAt s) (u_LastLoginAt s) (u_LockedUntil s) (u_DisabledAt s) (u_DisabledBy s) (u_ReactivatedAt s) (u_DormancyExempt s) (u_LastActivityAt s) (u_Status s) (u_CreatedAt s) (u_UpdatedAt s).
Definition user_reenabled (s : User) v0 v1 v2 v3 v4 := mkUser (u_ID s) (u_Username s) (u_Email s) (u_PasswordHash s) (u_Role s) (u_AuthProvider s) (u_ExternalID s) (u_LDAPDN s) (u_LDAPUsername s) (u_LDAPLastSyncAt s) (u_TerminalAccess s) (u_TOTPSecret s) (u_TOTPEnabled s) (u_TokenGeneration s) (u_Protected s) (u_SecurityRevision s) (u_SSHCredentialGeneration s) (u_Roles s) (u_Capabilities s) (u_PersonID s) (u_Avatar s) (u_MustChangePassword s) (u_TempPasswordExpiresAt s) v3 (u_LastFailedLoginAt s) (u_LastLoginAt s) v2 v0 v1 v4 (u_DormancyExempt s) (u_LastActivityAt s) (u_Status s) (u_CreatedAt s) (u_UpdatedAt s).
Definition user_factor (s : User) v0 v1 v2 v3 v4 := mkUser (u_ID s) (u_Username s) (u_Email s) (u_PasswordHash s) (u_Role s) (u_AuthProvider s) (u_ExternalID s) (u_LDAPDN s) (u_LDAPUsername s) (u_LDAPLastSyncAt s) (u_TerminalAccess s) v0 v1 v2 (u_Protected s) (u_SecurityRevision s) v3 (u_Roles s) (u_Capabilities s) (u_PersonID s) (u_Avatar s) (u_MustChangePassword s) (u_TempPasswordExpiresAt s) (u_FailedLoginCount s) (u_LastFailedLoginAt s) (u_LastLoginAt s) (u_LockedUntil s) (u_DisabledAt s) (u_DisabledBy s) (u_ReactivatedAt s) (u_DormancyExempt s) (u_LastActivityAt s) (u_Status s) (u_CreatedAt s) v4.
Definition user_password (s : User) v0 v1 v2 v3 := mkUser (u_ID s) (u_Username s) (u_Email s) v0 (u_Role s) (u_AuthProvider s) (u_ExternalID s) (u_LDAPDN s) (u_LDAPUsername s) (u_LDAPLastSyncAt s) (u_TerminalAccess s) (u_TOTPSecret s) (u_TOTPEnabled s) (u_TokenGeneration s) (u_Protected s) (u_SecurityRevision s) v3 (u_Roles s) (u_Capabilities s) (u_PersonID s) (u_Avatar s) v1 v2 (u_FailedLoginCount s) (u_LastFailedLoginAt s) (u_LastLoginAt s) (u_LockedUntil s) (u_DisabledAt s) (u_DisabledBy s) (u_ReactivatedAt s) (u_DormancyExempt s) (u_LastActivityAt s) (u_Status s) (u_CreatedAt s) (u_UpdatedAt s).

Definition ErrStepup : goerr := Sentinel "ErrStepup".
Definition ErrNoRows : goerr := Sentinel "sql.ErrNoRows".
Definition ErrConstraint : goerr := ErrText "constraint failed".
Definition ErrNilPointer : goerr := ErrText "nil pointer dereference".

(** [t.Unix()]. *)
Definition Unix (t : Time) : Z := (t - unix_epoch) / Second.

(** ** Triggers *)

Definition on_accounts (g : Gov) (f : Accounts → Accounts) : Gov := with_accounts g (f (gv_accounts g)).

(** [UPDATE stepup_proofs SET consumed_at=COALESCE(consumed_at,..) WHERE user_id=..] *)
Definition consume_proof (stamp : Z) (r : ProofRow) : ProofRow :=
  mkProof (pf_user r) (pf_session r) (pf_action r) (pf_digest r) (pf_created r) (pf_expires r)
    (match pf_consumed r with Some t => Some t | None => Some stamp end) (pf_generation r).
Definition consume_proofs (user : string) (stamp : Z) (g : Gov) : Gov :=
  with_proofs g ((fun r => if bool_decide (pf_user r = user) then consume_proof stamp r else r) <$> gv_proofs g).

(** [UPDATE security_approvals SET invalidated_at=.. WHERE user_id=..] *)
Definition invalidate_vote (stamp : Z) (r : VoteRow) : VoteRow :=
  mkVote (vt_digest r) (vt_user r) (vt_proof r) (vt_generation r) (vt_at r) (Some stamp).
Definition invalidate_votes (user : string) (stamp : Z) (g : Gov) : Gov :=
  with_votes g ((fun r => if bool_decide (vt_user r = user) then invalidate_vote stamp r else r) <$> gv_votes g).

(** The rows of [m] that belong to [user] and have not ended, ended. *)
Definition end_owned (user : string) (stamp : Time) (m : gmap string OwnedRow) : gmap string OwnedRow :=
  (fun r => if bool_decide (ow_user r = user) && bool_decide (ow_ended r = None)
            then mkOwned (ow_user r) (ow_anchor r) (Some stamp) else r) <$> m.

(** [UPDATE api_tokens SET revoked_at=.. WHERE user_id=.. AND revoked_at IS NULL] *)
Definition revoke_tokens (user : string) (stamp : Time) (m : gmap string TokenRow) : gmap string TokenRow :=
  (fun r => if bool_decide (tk_user r = user) && bool_decide (tk_revoked r = None) then token_revoked r stamp else r) <$> m.

(** Triggers application_role_added, application_role_removed and
    application_account_changed of migrations/029_application_access.sql. *)
Definition application_changed (user : string) (stamp : Time) (a : Accounts) : Accounts :=
  if bool_decide (is_Some (ac_users a !! user)) then
    set_appSessions
      (set_appVersions a (<[user := match ac_appVersions a !! user with Some n => n + 1 | None => 1 end]> (ac_appVersions a)))
      (end_owned user stamp (ac_appSessions a))
  else set_appSessions a (end_owned user stamp (ac_appSessions a)).

(** An UPDATE of the token generation or the security revision of a user. *)
Definition bump_user (user : string) (tokens revisions : Z) (stamp : Time) (a : Accounts) : Accounts :=
  match ac_users a !! user with
  | None => a
  | Some u =>
      let a1 := set_users a (<[user := user_generations u (u_TokenGeneration u + tokens) (u_SecurityRevision u + revisions)]>
                               (ac_users a)) in
      if (tokens =? 0) && (revisions =? 0) then a1 else application_changed user stamp a1
  end.

(** The common body of the governance triggers: the security revision (and, on
    changes of roles and persons, the token generation) advances, the user's
    proofs are consumed and the user's approvals invalidated. *)
Definition authority_changed (user : string) (tokens : Z) (stamp : Time) (g : Gov) : Gov :=
  invalidate_votes user (Unix stamp) (consume_proofs user (Unix stamp) (on_accounts g (bump_user user tokens 1 stamp))).

(** The columns trigger governance_credentials compares. *)
Definition credentials (u : User) :=
  (u_PasswordHash u, u_TOTPSecret u, u_TOTPEnabled u, u_Role u, u_AuthProvider u, u_ExternalID u,
   (u_DisabledAt u, u_Username u, u_LDAPDN u, u_LDAPUsername u, u_TerminalAccess u, u_MustChangePassword u)).

(** The columns trigger application_account_changed compares. *)
Definition application_columns (u : User) :=
  (u_Role u, u_TokenGeneration u, u_SecurityRevision u, u_DisabledAt u).

(** Trigger governance_legacy_role. *)
Definition replace_legacy_role (user role : string) (stamp : Time) (a : Accounts) : Accounts :=
  let kept := filter (fun kv : (string * string) * string =>
                        negb (bool_decide (kv.1.1 = user) && IsValidRole kv.1.2)) (ac_roles a) in
  application_changed user stamp (set_roles a (<[(user, role) := ""]> kept)).

(** [UPDATE users SET .. WHERE id=user] with its triggers. *)
Definition update_user (user : string) (f : User → User) (stamp : Time) (g : Gov) : Gov :=
  match ac_users (gv_accounts g) !! user with
  | None => g
  | Some u =>
      let u' := f u in
      let g1 := on_accounts g (fun a => set_users a (<[user := u']> (ac_users a))) in
      let g2 := if bool_decide (application_columns u = application_columns u') then g1
                else on_accounts g1 (application_changed user stamp) in
      let g3 := if bool_decide (u_Role u = u_Role u') then g2
                else on_accounts g2 (replace_legacy_role user (u_Role u') stamp) in
      if bool_decide (credentials u = credentials u') then g3 else authority_changed user 0 stamp g3
  end.

(** [INSERT INTO user_roles], optionally [ON CONFLICT DO NOTHING], with trigger
    governance_security_role_grant. *)
Definition insert_role (user role request : string) (orNothing : bool) (stamp : Time) (g : Gov) : result Gov :=
  let a := gv_accounts g in
  check! negb (IsValidRole role || IsSecurityRole role), ErrConstraint;
  if bool_decide (is_Some (ac_roles a !! (user, role)))
  then if orNothing then Ok g else Err ErrConstraint
  else
    check! bool_decide (ac_users a !! user = None), ErrConstraint;
    let g1 := on_accounts g (fun a => application_changed user stamp (set_roles a (<[(user, role) := request]> (ac_roles a)))) in
    Ok (if IsSecurityRole role then authority_changed user 1 stamp g1 else g1).

(** [DELETE FROM user_roles] with trigger governance_security_role_revoke. *)
Definition delete_role (user role : string) (stamp : Time) (g : Gov) : Gov :=
  if bool_decide (is_Some (ac_roles (gv_accounts g) !! (user, role))) then
    let g1 := on_accounts g (fun a => application_changed user stamp (set_roles a (delete (user, role) (ac_roles a)))) in
    if IsSecurityRole role then authority_changed user 1 stamp g1 else g1
  else g.

(** [UPDATE security_identity_links] with trigger governance_person_link; the
    flag is whether a row was updated. *)
Definition update_link (user person request : string) (stamp : Time) (g : Gov) : Gov * bool :=
  match ac_links (gv_accounts g) !! user with
  | None => (g, false)
  | Some l =>
      let g1 := on_accounts g (fun a => set_links a (<[user := mkLink person request]> (ac_links a))) in
      (if bool_decide (lk_person l = person) then g1 else authority_changed user 1 stamp g1, true)
  end.

(** ** Reads *)

(** [accountManagementPolicyStrict]: the account policy as configured. *)
Definition accountManagementPolicyStrict (g : Gov) : Policy :=
  Load (fun key => match ac_config (gv_accounts g) !! key with Some v => Ok v | None => Err ErrNoRows end).

Definition readLiveSession (g : Gov) (id user : string) : result State :=
  match ac_sessions (gv_accounts g) !! id with
  | None => Err ErrSecurityConflict
  | Some r =>
      check! negb (bool_decide (sn_user r = user)), ErrSecurityConflict;
      check! bool_decide (is_Some (sn_ended r)) || IsZeroTime (sn_created r) || IsZeroTime (sn_lastSeen r)
             || bool_decide (sn_expires r = Some None), ErrSecurityConflict;
      Ok (mkState (sn_kind r) 0 (sn_lastSeen r) (mjoin (sn_expires r)) (mjoin (sn_ended r)))
  end.

Definition guardLiveSession (g : Gov) (id user : string) (now : Time) (policy : Policy) : result unit :=
  st <-! readLiveSession g id user;
  match Session.Evaluate st now policy with
  | VerdictOK => Ok tt
  | _ => Err ErrSecurityConflict
  end.

(** ** Step-up proofs *)

(** [rnd] is what the random source gives; the row's hash is that of the
    handle the caller gets. *)
Definition IssueStepup (g : Gov) (user session action digest : string) (now : Time) (rnd : option string)
    : Gov * result string :=
  if bool_decide (user = "") || bool_decide (session = "") || bool_decide (action = "") || negb (len digest =? 64)
  then (g, Err ErrStepup)
  else match rnd with
       | None => (g, Err (ErrText "random source"))
       | Some b =>
           let handle := string_of_bytes (hex_encode (bytes b)) in
           let h := SecurityDigest handle in
           if bool_decide (is_Some (gv_proofs g !! h)) then (g, Err ErrConstraint)
           else
             let generation := match ac_users (gv_accounts g) !! user with Some u => u_TokenGeneration u | None => -1 end in
             (with_proofs g (<[h := mkProof user session action digest (Unix now) (Unix (now + 5 * Minute)) None generation]>
                               (gv_proofs g)), Ok handle)
       end.

(** The WHERE clause of the consuming UPDATE. *)
Definition proof_matches (g : Gov) (r : ProofRow) (user session action digest : string) (now : Z) : bool :=
  bool_decide (pf_user r = user) && bool_decide (pf_session r = session) && bool_decide (pf_action r = action)
  && bool_decide (pf_digest r = digest) && bool_decide (pf_consumed r = None)
  && (pf_created r <=? now) && (now <? pf_expires r)
  && match ac_users (gv_accounts g) !! pf_user r with
     | Some u => pf_generation r =? u_TokenGeneration u
     | None => false
     end.

(** [t1] is the reading the session is judged at, [t2] the one of the update. *)
Definition consumeStepupWithClock (g : Gov) (proof user session action digest : string) (t1 t2 : Time) (policy : Policy)
    : result Gov :=
  check! bool_decide (proof = "") || bool_decide (session = ""), ErrStepup;
  match guardLiveSession g session user t1 policy with
  | Err _ => Err ErrStepup
  | Ok _ =>
      let h := SecurityDigest proof in
      match gv_proofs g !! h with
      | None => Err ErrStepup
      | Some r =>
          check! negb (proof_matches g r user session action digest (Unix t2)), ErrStepup;
          Ok (with_proofs g (<[h := consume_proof (Unix t2) r]> (gv_proofs g)))
      end
  end.

Definition recheckStepupSession (g : Gov) (user session : string) (now : Time) (policy : Policy) : result unit :=
  match guardLiveSession g session user now policy with
  | Err _ => Err ErrStepup
  | Ok _ => Ok tt
  end.

(** [ConsumeStepup], and [consumeStepupWithPolicy] in a transaction that has
    loaded the policy. *)
Definition ConsumeStepup (g : Gov) (proof user session action digest : string) (clk : nat → Time) : result Gov :=
  let policy := accountManagementPolicyStrict g in
  g1 <-! consumeStepupWithClock g proof user session action digest (clk 0%nat) (clk 1%nat) policy;
  _ <-! recheckStepupSession g1 user session (clk 2%nat) policy;
  Ok g1.

(** ** Principals *)

(** A captured dormancy check. *)
Abbreviation securityPrincipalGuard := (Time → result unit) (only parsing).

Definition dormancyGuard (g : Gov) (u : User) : securityPrincipalGuard :=
  let policy := accountManagementPolicyStrict g in
  let input := mkInput None None (u_LastActivityAt u) (u_ReactivatedAt u) (u_CreatedAt u) (u_DormancyExempt u) in
  fun now =>
    check! IsZeroTime (in_CreatedAt input) || IsDormant input now (DormantDays policy), ErrSecurityConflict; Ok tt.

Definition checkSecurityPrincipalDormancy (g : Gov) (u : User) (now : Time) : result securityPrincipalGuard :=
  let guard := dormancyGuard g u in
  _ <-! guard now; Ok guard.

Definition has_role (g : Gov) (user role : string) : bool :=
  bool_decide (is_Some (ac_roles (gv_accounts g) !! (user, role))).

Section store.
Context (J : JSON) (proposal : string → option SecurityChangePayload).

(** The nomination of [user] as [person] for [role], in the approved bytes. *)
Definition nominated (ns : list SecurityNomination) (user person role : string) : bool :=
  existsb (fun n => bool_decide (n_UserID n = user) && bool_decide (n_PersonID n = person)
                    && existsb (fun r => bool_decide (r = role)) (n_Roles n)) ns.

Definition checkSecurityPrincipal (g : Gov) (c : SecurityChange) (user person : string) (generation : Z)
    (action : string) (now : Time) : result securityPrincipalGuard :=
  match ac_users (gv_accounts g) !! user with
  | None => Err ErrNoRows
  | Some u =>
      check! negb (u_SecurityRevision u =? generation) || negb (u_TOTPEnabled u)
             || bool_decide (is_Some (u_DisabledAt u)) || u_MustChangePassword u, ErrSecurityConflict;
      match proposal (c_ApprovedBytes c) with
      | None => Err (ErrText "invalid approved bytes")
      | Some p =>
          let approve := bool_decide (action = ActionApprove) in
          let role := if approve then RoleSecurityApprover else RoleSecurityOfficer in
          if bool_decide (cp_Kind p = "bootstrap") then
            check! negb (nominated (cp_Nominations p) user person role), ErrSecurityConflict;
            check! negb approve && negb (has_role g user RoleAdmin), ErrSecurityConflict;
            checkSecurityPrincipalDormancy g u now
          else
            match ac_links (gv_accounts g) !! user with
            | None => Err ErrSecurityConflict
            | Some l =>
                check! negb (bool_decide (lk_person l = person)), ErrSecurityConflict;
                check! negb (has_role g user role), ErrSecurityConflict;
                checkSecurityPrincipalDormancy g u now
            end
      end
  end.

Definition recheckSecurityPrincipalGuards (guards : list securityPrincipalGuard) (now : Time) : result unit :=
  check! negb (forallb (fun guard : securityPrincipalGuard => is_ok (guard now)) guards), ErrSecurityConflict; Ok tt.

(** ** Requests *)

(** The store's [validateSecurityRecoveryTarget]. *)
Definition recoveryTarget (g : Gov) (p : SecurityChangePayload) : result unit :=
  match cp_Recovery p with
  | None => Ok tt
  | Some r =>
      if negb (bool_decide (cp_Kind p = "recovery")) || negb (bool_decide (rv_Operation r = "password-reset")) then Ok tt
      else match ac_users (gv_accounts g) !! rv_UserID r with
           | None => Err ErrNoRows
           | Some u => check! negb (bool_decide (u_AuthProvider u = AuthProviderLocal)), ErrLocalPasswordOnly; Ok tt
           end
  end.

(** The states in which a change can still take effect. *)
Definition open_state (s : ChangeState) : bool :=
  match s with ChRequested | ChPartiallyApproved | ChApproved | ChApplying => true | _ => false end.

(** Is there an open change with nominations? *)
Definition open_nominations (g : Gov) : bool :=
  existsb (fun kv : (string * string) * NominationRow =>
             match gv_changes g !! kv.1.1 with Some r => open_state (cr_state r) | None => false end)
    (map_to_list (gv_nominations g)).

Definition new_row (c : SecurityChange) : ChangeRow :=
  mkChangeRow (c_Revision c) (c_RequesterID c) (c_RequesterPersonID c) (c_RequesterGeneration c)
    (c_ExpectedVersion c) (c_Digest c) (c_Reason c) (c_ApprovedBytes c) ChRequested
    (Unix (c_CreatedAt c)) (Unix (c_ExpiresAt c)) "" "" "" "" "" 0.

(** [INSERT INTO security_changes] with the checks of the table. *)
Definition insertChange (g : Gov) (c : SecurityChange) : result Gov :=
  check! bool_decide (is_Some (gv_changes g !! c_ID c)) || (c_Revision c <=? 0) || negb (len (c_Digest c) =? 64)
         || bool_decide (c_Reason c = ""), ErrConstraint;
  Ok (with_changes g (<[c_ID c := new_row c]> (gv_changes g))).

(** One nomination: complete, and linked to itself or to the nominated person. *)
Definition insertNomination (g : Gov) (id : string) (n : SecurityNomination) : result Gov :=
  match ac_users (gv_accounts g) !! n_UserID n, ac_links (gv_accounts g) !! n_UserID n with
  | Some u, Some l =>
      let complete := u_TOTPEnabled u && bool_decide (is_Some (u_TOTPSecret u)) && bool_decide (u_DisabledAt u = None)
                      && negb (u_MustChangePassword u) in
      check! negb complete
             || (negb (bool_decide (lk_person l = "user:" +:+ n_UserID n)) && negb (bool_decide (lk_person l = n_PersonID n))),
        ErrSecurityConflict;
      check! bool_decide (is_Some (gv_nominations g !! (id, n_UserID n))), ErrConstraint;
      Ok (with_nominations g (<[(id, n_UserID n) := mkNominationRow (n_PersonID n) (n_Roles n) (n_Verification n)]>
                                (gv_nominations g)))
  | _, _ => Err ErrNoRows
  end.

Fixpoint insertNominations (g : Gov) (id : string) (ns : list SecurityNomination) : result Gov :=
  match ns with
  | [] => Ok g
  | n :: t => g1 <-! insertNomination g id n; insertNominations g1 id t
  end.

Definition set_phase (g : Gov) (s : PolicyPhase) : Gov :=
  let p := gv_policy g in with_policy g (mkPolicyRow (pl_active p) s (pl_pending p) (pl_change p)).

Definition CreateSecurityChange (g : Gov) (c : SecurityChange) (nominations : list SecurityNomination)
    (session proof : string) (clk : nat → Time) : result Gov :=
  check! negb (Before (clk 0%nat) (c_ExpiresAt c)), ErrSecurityConflict;
  match proposal (c_ApprovedBytes c) with
  | None => Err (ErrText "invalid approved bytes")
  | Some p =>
      _ <-! recoveryTarget g p;
      guard <-! checkSecurityPrincipal g c (c_RequesterID c) (c_RequesterPersonID c) (c_RequesterGeneration c)
                  ActionRequest (clk 1%nat);
      let policy := accountManagementPolicyStrict g in
      g1 <-! consumeStepupWithClock g proof (c_RequesterID c) session ActionRequest (c_Digest c) (clk 2%nat) (clk 3%nat) policy;
      let row := gv_policy g1 in
      check! negb (pl_active row =? c_ExpectedVersion c) || bool_decide (pl_state row = PhApplying)
             || bool_decide (pl_state row = PhRecovery), ErrSecurityConflict;
      check! negb (bool_decide (nominations = [])) && open_nominations g1, ErrSecurityConflict;
      g2 <-! insertChange g1 c;
      g3 <-! insertNominations g2 (c_ID c) nominations;
      let g4 := if negb (bool_decide (nominations = [])) && bool_decide (pl_state (gv_policy g3) = PhStandard)
                then set_phase g3 PhSetupPending else g3 in
      check! negb (Before (clk 4%nat) (c_ExpiresAt c)), ErrSecurityConflict;
      _ <-! recheckStepupSession g4 (c_RequesterID c) session (clk 5%nat) policy;
      _ <-! recheckSecurityPrincipalGuards [guard] (clk 6%nat);
      check! negb (Before (clk 7%nat) (c_ExpiresAt c)), ErrSecurityConflict;
      Ok g4
  end.

(** ** Approvals *)

Definition vote_live (id : string) (revision : Z) (kv : (string * Z * string) * VoteRow) : Prop :=
  kv.1.1 = (id, revision) ∧ vt_invalidated kv.2 = None.
#[global] Instance vote_live_dec id revision kv : Decision (vote_live id revision kv) := _.
Definition live_votes (g : Gov) (id : string) (revision : Z) : nat := size (filter (vote_live id revision) (gv_votes g)).

(** The UNIQUE key on the approving user. *)
Definition voted (g : Gov) (id : string) (revision : Z) (user : string) : bool :=
  existsb (fun kv : (string * Z * string) * VoteRow => bool_decide (kv.1.1 = (id, revision)) && bool_decide (vt_user kv.2 = user))
    (map_to_list (gv_votes g)).

Definition insertVote (g : Gov) (c : SecurityChange) (a : SecurityApproval) (proof : string) (now : Z) : result Gov :=
  check! bool_decide (is_Some (gv_votes g !! (c_ID c, c_Revision c, a_PersonID a)))
         || voted g (c_ID c) (c_Revision c) (a_UserID a) || bool_decide (gv_changes g !! c_ID c = None),
    ErrText "independent approval already recorded";
  Ok (with_votes g (<[(c_ID c, c_Revision c, a_PersonID a) :=
        mkVote (c_Digest c) (a_UserID a) (SecurityDigest proof) (a_TokenGeneration a) now None]> (gv_votes g))).

Definition AddSecurityApproval (g : Gov) (c : SecurityChange) (a : SecurityApproval) (session proof : string)
    (clk : nat → Time) : result Gov :=
  guard <-! checkSecurityPrincipal g c (a_UserID a) (a_PersonID a) (a_TokenGeneration a) ActionApprove (clk 0%nat);
  let policy := accountManagementPolicyStrict g in
  g1 <-! consumeStepupWithClock g proof (a_UserID a) session ActionApprove (c_Digest c) (clk 1%nat) (clk 2%nat) policy;
  match gv_changes g1 !! c_ID c with
  | None => Err ErrNoRows
  | Some r =>
      check! negb (cr_revision r =? c_Revision c), ErrNoRows;
      check! negb (bool_decide (cr_digest r = c_Digest c)) || (cr_expires r <=? Unix (clk 3%nat))
             || (negb (bool_decide (cr_state r = ChRequested)) && negb (bool_decide (cr_state r = ChPartiallyApproved))),
        ErrSecurityConflict;
      check! negb (pl_active (gv_policy g1) =? cr_expectedVersion r), ErrSecurityConflict;
      check! cr_expires r <=? Unix (clk 4%nat), ErrSecurityConflict;
      g2 <-! insertVote g1 c a proof (Unix (clk 4%nat));
      check! negb (Unix (clk 5%nat) <? cr_expires r), ErrSecurityConflict;
      let state := if (2 <=? live_votes g2 (c_ID c) (c_Revision c))%nat then ChApproved else ChPartiallyApproved in
      let g3 := with_changes g2 (<[c_ID c := row_state r state]> (gv_changes g2)) in
      _ <-! recheckStepupSession g3 (a_UserID a) session (clk 6%nat) policy;
      _ <-! recheckSecurityPrincipalGuards [guard] (clk 7%nat);
      check! cr_expires r <=? Unix (clk 8%nat), ErrSecurityConflict;
      Ok g3
  end.

(** [UPDATE .. SET invalidated_at=unixepoch() WHERE user_id=?] *)
Definition InvalidateSecurityVotes (g : Gov) (user : string) (stamp : Time) : Gov := invalidate_votes user (Unix stamp) g.

Definition ExpireSecurityChanges (g : Gov) (now : Time) : Gov :=
  let g1 := with_changes g
    ((fun r => if (cr_expires r <=? Unix now) && match cr_state r with
                                                 | ChRequested | ChPartiallyApproved | ChApproved => true
                                                 | _ => false
                                                 end
               then row_state r ChExpired else r) <$> gv_changes g) in
  if bool_decide (pl_state (gv_policy g1) = PhSetupPending) && negb (open_nominations g1)
  then set_phase g1 PhStandard else g1.

Definition ClaimSecurityApplier (g : Gov) (c : SecurityChange) (user person : string) (revision : Z)
    (session proof : string) (clk : nat → Time) : result Gov :=
  guard <-! checkSecurityPrincipal g c user person revision ActionApply (clk 0%nat);
  let policy := accountManagementPolicyStrict g in
  match gv_changes g !! c_ID c with
  | None => Err ErrNoRows
  | Some r0 =>
      check! negb (bool_decide (cr_state r0 = ChApproved)), ErrNoRows;
      let expires := cr_expires r0 in
      g1 <-! consumeStepupWithClock g proof user session ActionApply (c_Digest c) (clk 1%nat) (clk 2%nat) policy;
      match gv_changes g1 !! c_ID c with
      | None => Err ErrSecurityConflict
      | Some r =>
          check! negb ((Unix (clk 3%nat) <? cr_expires r) && bool_decide (cr_state r = ChApproved)
                       && (bool_decide (cr_applier r = "")
                           || (bool_decide (cr_applier r = user) && bool_decide (cr_applierPerson r = person)
                               && (cr_applierRevision r =? revision)))), ErrSecurityConflict;
          let g2 := with_changes g1 (<[c_ID c := row_applier r user person revision]> (gv_changes g1)) in
          _ <-! recheckStepupSession g2 user session (clk 4%nat) policy;
          _ <-! recheckSecurityPrincipalGuards [guard] (clk 5%nat);
          check! expires <=? Unix (clk 6%nat), ErrSecurityConflict;
          Ok g2
      end
  end.

(** ** The quorum *)

(** The live approvals of a change: user, person, revision. *)
Definition quorum_rows (g : Gov) (c : SecurityChange) : list (string * string * Z) :=
  (fun kv : (string * Z * string) * VoteRow => (vt_user kv.2, kv.1.2, vt_generation kv.2)) <$>
    filter (fun kv : (string * Z * string) * VoteRow =>
              kv.1.1 = (c_ID c, c_Revision c) ∧ vt_digest kv.2 = c_Digest c ∧ vt_invalidated kv.2 = None)
      (map_to_list (gv_votes g)).

(** The loop over them; [k] numbers the clock readings. *)
Fixpoint quorum_guards (g : Gov) (c : SecurityChange) (seen : list string) (people : list (string * string * Z))
    (clk : nat → Time) (k : nat) : result (list securityPrincipalGuard) :=
  match people with
  | [] => Ok []
  | (user, person, revision) :: rest =>
      check! bool_decide (person ∈ seen) || bool_decide (user = c_RequesterID c), ErrSecurityConflict;
      guard <-! checkSecurityPrincipal g c user person revision ActionApprove (clk k);
      guards <-! quorum_guards g c (person :: seen) rest clk (S k);
      Ok (guard :: guards)
  end.

(** The last reading, after one for the requester and one per approval. *)
Definition validateSecurityQuorumConn (g : Gov) (c : SecurityChange) (clk : nat → Time)
    : result (list securityPrincipalGuard) :=
  requester <-! checkSecurityPrincipal g c (c_RequesterID c) (c_RequesterPersonID c) (c_RequesterGeneration c)
                  ActionRequest (clk 0%nat);
  let people := quorum_rows g c in
  check! (length people <? 2)%nat, ErrSecurityConflict;
  guards <-! quorum_guards g c [c_RequesterPersonID c] people clk 1;
  let all := requester :: guards in
  _ <-! recheckSecurityPrincipalGuards all (clk (S (length people)));
  Ok all.

(** ** Applying a change *)

Definition readPolicyVersion (g : Gov) (version : Z) : result PolicyVersion :=
  match gv_versions g !! version with
  | None => Err ErrNoRows
  | Some (raw, sha, request) => decodePolicyVersion J version raw sha request
  end.

(** [uint64] plus one. *)
Definition next_version (v : Z) : Z := u64 (v + 1).

(** The insertion of a version: its checks, and the driver's refusal of values
    over 63 bits. *)
Definition insertVersion (g : Gov) (version : Z) (raw request : string) : result Gov :=
  check! bool_decide (is_Some (gv_versions g !! version)) || (version <=? 0) || (int64_max <? version), ErrConstraint;
  Ok (with_versions g (<[version := (raw, SecurityDigest raw, request)]> (gv_versions g))).

(** [qclk] are the readings of the quorum, [clk] the others. *)
Definition beginSecurityApply (g : Gov) (c : SecurityChange) (newPolicy : AuditPolicy) (intentRef : string)
    (clk qclk : nat → Time) : result Gov :=
  let raw := js_marshal_policy J newPolicy in
  _ <-! readPolicyVersion g (c_ExpectedVersion c);
  match gv_changes g !! c_ID c with
  | None => Err ErrNoRows
  | Some r =>
      let expires := cr_expires r in
      check! negb (bool_decide (cr_state r = ChApproved)) || negb (bool_decide (cr_digest r = c_Digest c))
             || negb (bool_decide (SecurityDigest (cr_payload r) = c_Digest c)) || (expires <=? Unix (clk 0%nat))
             || bool_decide (intentRef = ""), ErrSecurityConflict;
      applier <-! checkSecurityPrincipal g c (c_ApplierID c) (c_ApplierPersonID c) (c_ApplierRevision c) ActionApply (clk 1%nat);
      quorum <-! validateSecurityQuorumConn g c qclk;
      let guards := applier :: quorum in
      _ <-! recheckSecurityPrincipalGuards guards (clk 2%nat);
      check! expires <=? Unix (clk 3%nat), ErrSecurityConflict;
      let p := gv_policy g in
      check! negb ((pl_active p =? c_ExpectedVersion c)
                   && match pl_state p with PhStandard | PhEnhanced | PhSetupPending => true | _ => false end
                   && bool_decide (pl_change p = "")), ErrSecurityConflict;
      let next := next_version (c_ExpectedVersion c) in
      g1 <-! insertVersion g next raw (c_ID c);
      let g2 := with_policy g1 (mkPolicyRow (pl_active p) PhApplying (Some next) (c_ID c)) in
      check! negb (Unix (clk 4%nat) <? expires), ErrSecurityConflict;
      let g3 := with_changes g2 (<[c_ID c := row_intent r ChApplying intentRef]> (gv_changes g2)) in
      _ <-! recheckSecurityPrincipalGuards guards (clk 5%nat);
      check! expires <=? Unix (clk 6%nat), ErrSecurityConflict;
      Ok g3
  end.

Definition RecordSecurityCommit (g : Gov) (id reference : string) : Gov * result unit :=
  if bool_decide (reference = "") then (g, Err ErrSecurityConflict)
  else (match gv_changes g !! id with
        | Some r => if bool_decide (cr_state r = ChApplying)
                    then with_changes g (<[id := row_commit r reference]> (gv_changes g)) else g
        | None => g
        end, Ok tt).

(** [strconv.Itoa]. *)
Definition Itoa (z : Z) : string := string_of_bytes (if z <? 0 then 45 :: dec (- z) else dec z).

Definition configAuthPasswordHistoryCount : string := "auth.password_history_count".

Definition AuditSettingsConfig (s : AuditSettings) : list (string * string) :=
  [("audit.retention_days", Itoa (as_RetentionDays s));
   ("audit.review_reminder_days", Itoa (as_ReviewReminderDays s));
   (configAuthPasswordHistoryCount, Itoa (as_PasswordHistoryCount s));
   ("auth.temporary_password_ttl_hours", Itoa (as_TemporaryPasswordTTLHours s));
   ("audit.threshold.login_failures_per_hour", Itoa (as_LoginFailuresPerHour s));
   ("audit.threshold.registration_failures_per_hour", Itoa (as_RegistrationFailuresPerHour s));
   ("audit.threshold.privileged_actions_per_hour", Itoa (as_PrivilegedActionsPerHour s))].

(** The rows of [user] that come before [i] in the order newest first. *)
Definition newer (rows : list HistoryRow) (user : string) (i : nat) (at_ : Z) : nat :=
  length (filter (fun jr : nat * HistoryRow =>
                    hi_user jr.2 = user ∧ (at_ < hi_at jr.2 ∨ (hi_at jr.2 = at_ ∧ (i < jr.1)%nat))) (imap pair rows)).

(** [DELETE .. WHERE user_id=? AND id NOT IN (SELECT .. LIMIT ?)]; a negative
    LIMIT is none. *)
Definition trimHistory (user : string) (limit : Z) (rows : list HistoryRow) : list HistoryRow :=
  if limit <? 0 then rows
  else (filter (fun jr : nat * HistoryRow =>
                  hi_user jr.2 ≠ user ∨ Z.of_nat (newer rows user jr.1 (hi_at jr.2)) < limit) (imap pair rows)).*2.

Definition appendPasswordHistoryConn (user oldHash : string) (temporary : bool) (limit : Z) (now : Time) (a : Accounts)
    : Accounts :=
  let kept := filter (fun r => ¬ (hi_user r = user ∧ hi_hash r = oldHash)) (ac_history a) in
  let added := if temporary then kept else kept ++ [mkHistory user oldHash (Unix now)] in
  set_history a (trimHistory user limit added).

(** The rows of [user] that are open, ended without a refresh digest. *)
Definition end_sessions (user : string) (actor : option string) (now : Time) (reason : string) (m : gmap string SessionRow)
    : gmap string SessionRow :=
  (fun r => if bool_decide (sn_user r = user) && bool_decide (sn_ended r = None)
            then session_refresh (session_ended r now reason actor) "" else r) <$> m.

Definition revokeCredentialAuthorityConn (user : string) (actor : option string) (now : Time) (reason : string) (a : Accounts)
    : Accounts :=
  let a1 := set_tokens a (revoke_tokens user now (ac_tokens a)) in
  let a2 := set_sessions a1 (end_sessions user actor now reason (ac_sessions a1)) in
  let a3 := set_anchors a2 (end_owned user now (ac_anchors a2)) in
  let a4 := set_appSessions a3 (end_owned user now (ac_appSessions a3)) in
  set_tickets a4 (filter (fun kv : string * string => kv.2 ≠ user) (ac_tickets a4)).

Definition removeUserTOTPConn (user : string) (actor : option string) (now : Time) (g : Gov) : result Gov :=
  check! bool_decide (ac_users (gv_accounts g) !! user = None), ErrSecurityConflict;
  let g1 := update_user user
    (fun u => user_factor u None false (u_TokenGeneration u + 1) (u_SSHCredentialGeneration u + 1) now) now g in
  Ok (consume_proofs user (Unix now) (on_accounts g1 (revokeCredentialAuthorityConn user actor now "mfa_reset"))).

(** The closures [invalidate] and [link] of [applySecurityPayload]. *)
Definition invalidateUser (user : string) (stamp : Time) (g : Gov) : Gov :=
  consume_proofs user (Unix stamp)
    (on_accounts g (fun a => let a1 := bump_user user 1 0 stamp a in set_tokens a1 (revoke_tokens user stamp (ac_tokens a1)))).

Definition linkUser (id user person verification : string) (stamp : Time) (g : Gov) : result Gov :=
  let g1 := on_accounts g (fun a =>
    if bool_decide (is_Some (ac_persons a !! person)) then a else set_persons a (<[person := verification]> (ac_persons a))) in
  match update_link user person id stamp g1 with
  | (g2, true) => Ok (invalidateUser user stamp g2)
  | (_, false) => Err ErrSecurityConflict
  end.

Fixpoint grantRoles (id user : string) (roles : list string) (stamp : Time) (g : Gov) : result Gov :=
  match roles with
  | [] => Ok g
  | r :: t => g1 <-! insert_role user r id false stamp g; grantRoles id user t stamp g1
  end.

Fixpoint applyNominations (id : string) (ns : list SecurityNomination) (stamp : Time) (g : Gov) : result Gov :=
  match ns with
  | [] => Ok g
  | n :: t =>
      g1 <-! linkUser id (n_UserID n) (n_PersonID n) (n_Verification n) stamp g;
      g2 <-! grantRoles id (n_UserID n) (n_Roles n) stamp g1;
      applyNominations id t stamp g2
  end.

Definition set_configs (kvs : list (string * string)) (a : Accounts) : Accounts :=
  set_config a (foldl (fun m kv => <[kv.1 := kv.2]> m) (ac_config a) kvs).

(** The three recoveries of an account. *)
Definition reenableUser (user : string) (stamp : Time) (g : Gov) : Gov :=
  update_user user (fun u => user_reenabled u None None None 0 (Some stamp)) stamp g.

Definition resetPassword (p : SecurityChangePayload) (r : SecurityRecovery) (stamp : Time) (g : Gov) : result Gov :=
  let user := rv_UserID r in
  _ <-! recoveryTarget g p;
  check! negb (len (rv_PreparedPasswordHash r) =? 60) || negb (HasPrefix (rv_PreparedPasswordHash r) "$2"), ErrSecurityConflict;
  match ac_users (gv_accounts g) !! user with
  | None => Err ErrNoRows
  | Some u =>
      match match ac_config (gv_accounts g) !! configAuthPasswordHistoryCount with
            | None => Some 5
            | Some v => Atoi (runes v)
            end with
      | None => Err (ErrText "invalid history count")
      | Some history =>
          let g1 := on_accounts g (appendPasswordHistoryConn user (u_PasswordHash u) (u_MustChangePassword u) history stamp) in
          Ok (update_user user
                (fun u => user_password u (rv_PreparedPasswordHash r) true (Some (stamp + 24 * Hour))
                            (u_SSHCredentialGeneration u + 1)) stamp g1)
      end
  end.

(** A live MFA recovery crosses the generation of the password reset. *)
Definition carryRecovery (user : string) (a : Accounts) : Accounts :=
  match ac_users a !! user, ac_mfaRecoveries a !! user with
  | Some u, Some (request, generation) =>
      if generation =? u_TokenGeneration u
      then set_mfaRecoveries a (<[user := (request, generation + 1)]> (ac_mfaRecoveries a)) else a
  | _, _ => a
  end.

Definition applyRecovery (id applier : string) (p : SecurityChangePayload) (r : SecurityRecovery) (stamp : Time) (g : Gov)
    : result Gov :=
  let user := rv_UserID r in
  let op := rv_Operation r in
  g1 <-! (if bool_decide (op = "reenable") then Ok (reenableUser user stamp g)
          else if bool_decide (op = "mfa-reset") then removeUserTOTPConn user (Some applier) stamp g
          else if bool_decide (op = "password-reset") then resetPassword p r stamp g
          else Ok g);
  let g2 := if bool_decide (op = "password-reset") then on_accounts g1 (carryRecovery user) else g1 in
  let g3 := if bool_decide (op = "mfa-reset") then g2 else invalidateUser user stamp g2 in
  if bool_decide (op = "password-reset") then
    check! bool_decide (ac_users (gv_accounts g3) !! user = None), ErrConstraint;
    Ok (on_accounts g3 (fun a => set_passwordRecoveries a (<[user := (id, rv_PreparedPasswordHash r)]> (ac_passwordRecoveries a))))
  else if bool_decide (op = "mfa-reset") then
    match ac_users (gv_accounts g3) !! user with
    | Some u => Ok (on_accounts g3 (fun a => set_mfaRecoveries a (<[user := (id, u_TokenGeneration u)]> (ac_mfaRecoveries a))))
    | None => Ok g3
    end
  else Ok g3.

Definition applySecurityPayload (g : Gov) (c : SecurityChange) (p : SecurityChangePayload) (stamp : Time) : result Gov :=
  let kind := cp_Kind p in
  if bool_decide (kind = "audit-settings") || bool_decide (kind = "ldap") then
    let configs := match cp_AuditSettings p with Some s => AuditSettingsConfig s | None => cp_PreparedConfig p end in
    check! bool_decide (configs = []), ErrSecurityConflict;
    Ok (on_accounts g (set_configs configs))
  else if bool_decide (kind = "bootstrap") then applyNominations (c_ID c) (cp_Nominations p) stamp g
  else if bool_decide (kind = "role") then
    match cp_Role p with
    | None => Err ErrNilPointer
    | Some r =>
        g1 <-! (if rc_Grant r then insert_role (rc_UserID r) (rc_Role r) (c_ID c) true stamp g
                else Ok (delete_role (rc_UserID r) (rc_Role r) stamp g));
        Ok (invalidateUser (rc_UserID r) stamp g1)
    end
  else if bool_decide (kind = "person") then
    match cp_Person p with
    | None => Err ErrNilPointer
    | Some r => linkUser (c_ID c) (pc_UserID r) (pc_PersonID r) (pc_Verification r) stamp g
    end
  else if bool_decide (kind = "recovery") then
    match cp_Recovery p with
    | None => Err ErrNilPointer
    | Some r => applyRecovery (c_ID c) (c_ApplierID c) p r stamp g
    end
  else Ok g.

Definition activateSecurityChange (g : Gov) (c : SecurityChange) (p : SecurityChangePayload) (clk qclk : nat → Time)
    (stamp : Time) : result Gov :=
  let row := gv_policy g in
  check! negb (bool_decide (pl_state row = PhApplying)), ErrNoRows;
  match pl_pending row with
  | None => Err ErrSecurityConflict
  | Some pending =>
      let next := next_version (c_ExpectedVersion c) in
      check! negb (bool_decide (pl_change row = c_ID c)) || negb (pending =? next), ErrSecurityConflict;
      _ <-! readPolicyVersion g (pl_active row);
      _ <-! readPolicyVersion g pending;
      if pl_active row =? next then Ok g
      else
        check! negb (pl_active row =? c_ExpectedVersion c), ErrSecurityConflict;
        match gv_changes g !! c_ID c with
        | None => Err ErrSecurityConflict
        | Some r =>
            check! negb (bool_decide (cr_state r = ChApplying)) || bool_decide (cr_commit r = ""), ErrSecurityConflict;
            applier <-! checkSecurityPrincipal g c (c_ApplierID c) (c_ApplierPersonID c) (c_ApplierRevision c) ActionApply (clk 0%nat);
            quorum <-! validateSecurityQuorumConn g c qclk;
            let guards := applier :: quorum in
            _ <-! recheckSecurityPrincipalGuards guards (clk 1%nat);
            g1 <-! applySecurityPayload g c p stamp;
            let row1 := gv_policy g1 in
            let g2 := if (pl_active row1 =? c_ExpectedVersion c) && bool_decide (pl_change row1 = c_ID c)
                      then with_policy g1 (mkPolicyRow next (pl_state row1) (pl_pending row1) (pl_change row1)) else g1 in
            _ <-! recheckSecurityPrincipalGuards guards (clk 2%nat);
            Ok g2
        end
  end.

Definition finishSecurityChange (g : Gov) (id resultRef : string) : result Gov :=
  check! bool_decide (resultRef = ""), ErrSecurityConflict;
  let row := gv_policy g in
  check! negb (bool_decide (pl_change row = id)) || negb (bool_decide (pl_state row = PhApplying)), ErrNoRows;
  match pl_pending row with
  | None => Err (ErrText "pending version is NULL")
  | Some pending =>
      check! negb (pl_active row =? pending), ErrSecurityConflict;
      policy <-! readPolicyVersion g (pl_active row);
      let state := if bool_decide (ap_Profile (pv_Policy policy) = "enhanced") then PhEnhanced else PhStandard in
      let g1 := match gv_changes g !! id with
                | Some r => if bool_decide (cr_state r = ChApplying)
                            then with_changes g (<[id := row_result r ChApplied resultRef]> (gv_changes g)) else g
                | None => g
                end in
      Ok (with_policy g1 (mkPolicyRow (pl_active row) state None ""))
  end.

Definition requirePolicyRecovery (g : Gov) : Gov := set_phase g PhRecovery.

Definition resumeSecurityApplying (g : Gov) (id : string) : result Gov :=
  let row := gv_policy g in
  check! negb (bool_decide (pl_state row = PhRecovery) && bool_decide (pl_change row = id)
               && bool_decide (is_Some (pl_pending row))
               && match gv_changes g !! id with Some r => bool_decide (cr_state r = ChApplying) | None => false end),
    ErrSecurityConflict;
  Ok (set_phase g PhApplying).

(** ** Secrets and evidence *)

Definition SaveSecuritySecret (g : Gov) (ref encrypted user : string) (now : Time) : result Gov :=
  check! bool_decide (is_Some (gv_secrets g !! ref)), ErrConstraint;
  Ok (with_secrets g (<[ref := (encrypted, user, Unix now)]> (gv_secrets g))).

Definition SecuritySecret (g : Gov) (ref : string) : result string :=
  match gv_secrets g !! ref with Some (b, _, _) => Ok b | None => Err ErrNoRows end.

(** The exact record first stored for the event, with its reference. *)
Definition SecurityEvidenceBytes (g : Gov) (id kind raw : string) : Gov * result (string * string) :=
  match gv_evidence g !! (id, kind) with
  | Some (stored, ref) => (g, Ok (stored, ref))
  | None =>
      if bool_decide (gv_changes g !! id = None) then (g, Err ErrConstraint)
      else (with_evidence g (<[(id, kind) := (raw, "")]> (gv_evidence g)), Ok (raw, ""))
  end.

Definition ConfirmSecurityEvidence (g : Gov) (id kind reference : string) : Gov :=
  match gv_evidence g !! (id, kind) with
  | Some (stored, _) => with_evidence g (<[(id, kind) := (stored, reference)]> (gv_evidence g))
  | None => g
  end.

(** ** Reading a change *)

Definition state_name (s : ChangeState) : string :=
  match s with
  | ChRequested => "requested" | ChPartiallyApproved => "partially_approved" | ChApproved => "approved"
  | ChApplying => "applying" | ChApplied => "applied" | ChExpired => "expired" | ChSuperseded => "superseded"
  | ChFailed => "failed" | ChRejected => "rejected"
  end.

Definition of_Unix (s : Z) : Time := unix_epoch + s * Second.

(** [payload] decodes the raw [change] member of the approved bytes. *)
Definition scanSecurityChange (payload : string → option string) (id : string) (r : ChangeRow)
    (approvals : list SecurityApproval) : result SecurityChange :=
  match payload (cr_payload r) with
  | None => Err (ErrText "invalid approved bytes")
  | Some change =>
      Ok (mkChange id (cr_revision r) (cr_requester r) (cr_requesterPerson r) (cr_applier r) (cr_applierPerson r)
            (cr_applierRevision r) (cr_requesterGeneration r) (cr_expectedVersion r) (cr_digest r) (cr_reason r) change
            (cr_payload r) (state_name (cr_state r)) (of_Unix (cr_created r)) (of_Unix (cr_expires r)) approvals
            (cr_intent r) (cr_commit r) (cr_result r))
  end.

(** Approvals in the order of approval and user. *)
Definition approval_le (x y : SecurityApproval) : Prop :=
  a_ApprovedAt x < a_ApprovedAt y ∨ (a_ApprovedAt x = a_ApprovedAt y ∧ String.leb (a_UserID x) (a_UserID y) = true).
#[global] Instance approval_le_dec x y : Decision (approval_le x y) := _.

Definition approvals_of (g : Gov) (id : string) (r : ChangeRow) : list SecurityApproval :=
  merge_sort approval_le
    ((fun kv : (string * Z * string) * VoteRow =>
        mkApproval (vt_user kv.2) kv.1.2 (vt_proof kv.2) (of_Unix (vt_at kv.2)) (vt_generation kv.2)
          (of_Unix <$> vt_invalidated kv.2)) <$>
     filter (fun kv : (string * Z * string) * VoteRow => kv.1.1 = (id, cr_revision r) ∧ vt_digest kv.2 = cr_digest r)
       (map_to_list (gv_votes g))).

Definition GetSecurityChange (payload : string → option string) (g : Gov) (id : string) : result SecurityChange :=
  match gv_changes g !! id with
  | None => Err ErrNoRows
  | Some r => scanSecurityChange payload id r (approvals_of g id r)
  end.

End store.
