(* ===== verification/SecurityProtocol.v ===== *)
(** The life of a security change over the store's operations
    ([SecurityStore]): any sequence of transactions, with any accounts and any
    clock, keeps the tables consistent and follows a five-step protocol; a
    change takes effect only with two live independent approvals, a vote that is
    lost blocks it for good, and a step-up proof authorizes one act. *)

From S2P Require Import Prelude Codec Lockout Model Account Session Governance SecurityStore.

(** ** Operations *)

(** The transactions of security.go, and two of the rest of the hub: an UPDATE
    of a user's row, with its triggers, and any other change of the accounts'
    tables. *)
Inductive gop :=
| OIssue (user session action digest : string) (now : Time) (rnd : option string)
| OConsume (proof user session action digest : string) (clk : nat → Time)
| OCreate (c : SecurityChange) (ns : list SecurityNomination) (session proof : string) (clk : nat → Time)
| OApprove (c : SecurityChange) (a : SecurityApproval) (session proof : string) (clk : nat → Time)
| OInvalidate (user : string) (stamp : Time)
| OExpire (now : Time)
| OClaim (c : SecurityChange) (user person : string) (revision : Z) (session proof : string) (clk : nat → Time)
| OBegin (c : SecurityChange) (policy : AuditPolicy) (intent : string) (clk qclk : nat → Time)
| OCommit (id reference : string)
| OActivate (c : SecurityChange) (p : SecurityChangePayload) (clk qclk : nat → Time) (stamp : Time)
| OFinish (id reference : string)
| ORecover
| OResume (id : string)
| OSecret (ref encrypted user : string) (now : Time)
| OEvidence (id kind raw : string)
| OConfirm (id kind reference : string)
| OUser (user : string) (f : User → User) (stamp : Time)
| OAccounts (f : Accounts → Accounts).

(** A transaction that fails changes nothing. *)
Definition commit (g : Gov) (r : result Gov) : Gov := match r with Ok g' => g' | Err _ => g end.

(** [c] is what a caller read of the change: the columns that never change. *)
Definition snapshot (g : Gov) (c : SecurityChange) : Prop :=
  ∃ r, gv_changes g !! c_ID c = Some r ∧ c_Revision c = cr_revision r ∧
    c_RequesterID c = cr_requester r ∧ c_RequesterPersonID c = cr_requesterPerson r ∧
    c_RequesterGeneration c = cr_requesterGeneration r ∧ c_ExpectedVersion c = cr_expectedVersion r ∧
    c_Digest c = cr_digest r ∧ c_ApprovedBytes c = cr_payload r.

(** What the callers ensure: the change they pass was read from the store, a new
    one has a drawn id, and a confirmed record has a reference. *)
Definition allowed (g : Gov) (o : gop) : Prop :=
  match o with
  | OCreate c _ _ _ _ => c_ID c ≠ ""
  | OApprove c _ _ _ _ | OClaim c _ _ _ _ _ _ | OBegin c _ _ _ _ | OActivate c _ _ _ _ => snapshot g c
  | OConfirm _ _ reference => reference ≠ ""
  | _ => True
  end.

Section protocol.
Context (J : JSON) (proposal : string → option SecurityChangePayload).

Definition gtry (g : Gov) (o : gop) : result Gov :=
  match o with
  | OIssue user session action digest now rnd =>
      match IssueStepup g user session action digest now rnd with (g', Ok _) => Ok g' | (_, Err e) => Err e end
  | OConsume proof user session action digest clk => ConsumeStepup g proof user session action digest clk
  | OCreate c ns session proof clk => CreateSecurityChange proposal g c ns session proof clk
  | OApprove c a session proof clk => AddSecurityApproval proposal g c a session proof clk
  | OInvalidate user stamp => Ok (InvalidateSecurityVotes g user stamp)
  | OExpire now => Ok (ExpireSecurityChanges g now)
  | OClaim c user person revision session proof clk => ClaimSecurityApplier proposal g c user person revision session proof clk
  | OBegin c policy intent clk qclk => beginSecurityApply J proposal g c policy intent clk qclk
  | OCommit id reference =>
      match RecordSecurityCommit g id reference with (g', Ok _) => Ok g' | (_, Err e) => Err e end
  | OActivate c p clk qclk stamp => activateSecurityChange J proposal g c p clk qclk stamp
  | OFinish id reference => finishSecurityChange J g id reference
  | ORecover => Ok (requirePolicyRecovery g)
  | OResume id => resumeSecurityApplying g id
  | OSecret ref encrypted user now => SaveSecuritySecret g ref encrypted user now
  | OEvidence id kind raw =>
      match SecurityEvidenceBytes g id kind raw with (g', Ok _) => Ok g' | (_, Err e) => Err e end
  | OConfirm id kind reference => Ok (ConfirmSecurityEvidence g id kind reference)
  | OUser user f stamp => Ok (update_user user f stamp g)
  | OAccounts f => Ok (on_accounts g f)
  end.

Definition gstep (g : Gov) (o : gop) : Gov := commit g (gtry g o).

(** A sequence of operations, the last one first. *)
Inductive gsteps (g0 : Gov) : list gop → Gov → Prop :=
| gsteps_nil : gsteps g0 [] g0
| gsteps_step os g o : gsteps g0 os g → allowed g o → gsteps g0 (o :: os) (gstep g o).

(** The tables the migration leaves. *)
Record migrated (g : Gov) : Prop := mkMigrated {
  mg_changes : gv_changes g = ∅;
  mg_nominations : gv_nominations g = ∅;
  mg_votes : gv_votes g = ∅;
  mg_proofs : gv_proofs g = ∅;
  mg_policy : gv_policy g = mkPolicyRow 1 PhStandard None "";
  mg_versions : gv_versions g = {[ 1 := (initialStandardPolicy, "", "") ]};
}.

(** ** The protocol a change follows *)

Inductive stage := Begun | Committed | Activated.
#[export] Instance stage_eq_dec : EqDecision stage.
Proof using. solve_decision. Defined.

(** The version in force and the change in flight. *)
Inductive protocol_step : Z * option (string * stage) → Z * option (string * stage) → Prop :=
| ps_stutter a : protocol_step a a
| ps_begin v id : protocol_step (v, None) (v, Some (id, Begun))
| ps_commit v id : protocol_step (v, Some (id, Begun)) (v, Some (id, Committed))
| ps_activate v id : protocol_step (v, Some (id, Committed)) (v + 1, Some (id, Activated))
| ps_finish v id : protocol_step (v, Some (id, Activated)) (v, None).

Definition stage_of (g : Gov) : stage :=
  if bool_decide (pl_pending (gv_policy g) = Some (pl_active (gv_policy g))) then Activated
  else match gv_changes g !! pl_change (gv_policy g) with
       | Some r => if bool_decide (cr_commit r = "") then Begun else Committed
       | None => Begun
       end.

Definition in_flight (g : Gov) : Z * option (string * stage) :=
  (pl_active (gv_policy g),
   if bool_decide (pl_change (gv_policy g) = "") then None else Some (pl_change (gv_policy g), stage_of g)).

(** ** The invariant of the tables *)

Definition top (p : PolicyRow) : Z := match pl_pending p with Some v => v | None => pl_active p end.

(** No change is in flight; or one is: it is applying, it has the pending
    version, and its predecessor is in force until its commitment is recorded. *)
Definition flight_ok (g : Gov) : Prop :=
  let p := gv_policy g in
  (pl_change p = "" ∧ pl_pending p = None ∧ pl_state p ≠ PhApplying) ∨
  (pl_change p ≠ "" ∧ ∃ r, gv_changes g !! pl_change p = Some r ∧ cr_state r = ChApplying ∧
     pl_pending p = Some (cr_expectedVersion r + 1) ∧
     (pl_active p = cr_expectedVersion r ∨ (pl_active p = cr_expectedVersion r + 1 ∧ cr_commit r ≠ "")) ∧
     (pl_state p = PhApplying ∨ pl_state p = PhRecovery)).

Definition begun (s : ChangeState) : bool := match s with ChApplying | ChApplied => true | _ => false end.
Definition voting (s : ChangeState) : bool := match s with ChRequested | ChPartiallyApproved => true | _ => false end.

Record row_ok (r : ChangeRow) : Prop := mkRowOk {
  ro_revision : 0 < cr_revision r;
  ro_digest : len (cr_digest r) = 64;
  ro_reason : cr_reason r ≠ "";
  ro_begun : begun (cr_state r) = true → SecurityDigest (cr_payload r) = cr_digest r ∧ cr_intent r ≠ "";
  ro_waiting : begun (cr_state r) = false → cr_intent r = "" ∧ cr_commit r = "";
  ro_applied : cr_state r = ChApplied → cr_commit r ≠ "" ∧ cr_result r ≠ "";
}.

Record schema (g : Gov) : Prop := mkSchema {
  sc_flight : flight_ok g;
  sc_applying : ∀ id r, gv_changes g !! id = Some r → cr_state r = ChApplying → pl_change (gv_policy g) = id;
  sc_ids : gv_changes g !! "" = None;
  sc_rows : ∀ id r, gv_changes g !! id = Some r → row_ok r;
  sc_bounds : 1 ≤ pl_active (gv_policy g) ∧ top (gv_policy g) ≤ int64_max;
  sc_versions : ∀ v, is_Some (gv_versions g !! v) ↔ 1 ≤ v ≤ top (gv_policy g);
  sc_first : gv_versions g !! 1 = Some (initialStandardPolicy, "", "");
  sc_origin : ∀ v raw sha req, gv_versions g !! v = Some (raw, sha, req) → 1 < v →
    sha = SecurityDigest raw ∧ ∃ r, gv_changes g !! req = Some r ∧ cr_expectedVersion r = v - 1 ∧ begun (cr_state r) = true;
  sc_votes : ∀ id rev p w, gv_votes g !! (id, rev, p) = Some w →
    ∃ r, gv_changes g !! id = Some r ∧ cr_revision r = rev ∧ vt_digest w = cr_digest r;
  sc_unique : ∀ id rev p p' w w', gv_votes g !! (id, rev, p) = Some w → gv_votes g !! (id, rev, p') = Some w' →
    vt_user w = vt_user w' → p = p';
  sc_count : ∀ id r, gv_changes g !! id = Some r →
    (live_votes g id (cr_revision r) ≤ if voting (cr_state r) then 1 else 2)%nat;
  sc_nominations : ∀ id user n, gv_nominations g !! (id, user) = Some n → is_Some (gv_changes g !! id);
}.

(** ** What the triggers and the payload leave alone *)

Create HintDb fade discriminated.

(** Two states of a table without insertion or deletion of rows. *)
Definition rows_le {K A} `{Countable K} (R : A → A → Prop) (m m' : gmap K A) : Prop :=
  ∀ k, match m !! k, m' !! k with
       | Some x, Some y => R x y
       | None, None => True
       | _, _ => False
       end.

Definition vote_le (x y : VoteRow) : Prop :=
  vt_digest x = vt_digest y ∧ vt_user x = vt_user y ∧ vt_proof x = vt_proof y ∧
  vt_generation x = vt_generation y ∧ vt_at x = vt_at y ∧ (vt_invalidated y = None → vt_invalidated x = None).
Definition proof_le (x y : ProofRow) : Prop :=
  pf_user x = pf_user y ∧ pf_session x = pf_session y ∧ pf_action x = pf_action y ∧ pf_digest x = pf_digest y ∧
  pf_created x = pf_created y ∧ pf_expires x = pf_expires y ∧ (pf_consumed y = None → pf_consumed x = None).

(** Proofs may be consumed and votes invalidated; nothing else of the
    governance tables changes. *)
Record faded (g g' : Gov) : Prop := mkFaded {
  fd_changes : gv_changes g' = gv_changes g;
  fd_nominations : gv_nominations g' = gv_nominations g;
  fd_policy : gv_policy g' = gv_policy g;
  fd_versions : gv_versions g' = gv_versions g;
  fd_evidence : gv_evidence g' = gv_evidence g;
  fd_proofs : rows_le proof_le (gv_proofs g) (gv_proofs g');
  fd_votes : rows_le vote_le (gv_votes g) (gv_votes g');
}.

#[local] Instance vote_le_po : PreOrder vote_le.
Proof using. split; [by intros []|]. unfold vote_le. intros ???. naive_solver congruence. Qed.
#[local] Instance proof_le_po : PreOrder proof_le.
Proof using. split; [by intros []|]. unfold proof_le. intros ???. naive_solver congruence. Qed.
#[local] Instance rows_le_po {K A} `{Countable K} (R : A → A → Prop) `{!PreOrder R} : PreOrder (@rows_le K A _ _ R).
Proof using.
  split.
  - intros m k. destruct (m !! k); [reflexivity|done].
  - intros m1 m2 m3 H1 H2 k. specialize (H1 k). specialize (H2 k).
    destruct (m1 !! k), (m2 !! k), (m3 !! k); try done. by etransitivity.
Qed.
#[local] Instance faded_po : PreOrder faded.
Proof using.
  split.
  - intros g. by split.
  - intros g1 g2 g3 [] []. split; try congruence; by etransitivity.
Qed.

Lemma fmap_rows_le {K A} `{Countable K} (R : A → A → Prop) (f : A → A) (m : gmap K A) :
  (∀ x, R x (f x)) → rows_le R m (f <$> m).
Proof using. intros Hf k. rewrite lookup_fmap. destruct (m !! k); simpl; [apply Hf|done]. Qed.

Lemma insert_rows_le {K A} `{Countable K} (R : A → A → Prop) `{!PreOrder R} (m : gmap K A) k x y :
  m !! k = Some x → R x y → rows_le R m (<[k := y]> m).
Proof using.
  intros Hk Hr j. destruct (decide (j = k)) as [->|Hn].
  - by rewrite lookup_insert_eq, Hk.
  - rewrite lookup_insert_ne by done. destruct (m !! j); [reflexivity|done].
Qed.

Lemma consume_proof_le stamp r : proof_le r (consume_proof stamp r).
Proof using. unfold proof_le. destruct r as [? ? ? ? ? ? [] ?]; simpl; by split_and!. Qed.

Lemma on_accounts_faded g f : faded g (on_accounts g f).
Proof using. by split. Qed.
Lemma consume_proofs_faded user stamp g : faded g (consume_proofs user stamp g).
Proof using.
  split; try done. apply fmap_rows_le. intros r. case_bool_decide; [apply consume_proof_le|reflexivity].
Qed.
Lemma invalidate_votes_faded user stamp g : faded g (invalidate_votes user stamp g).
Proof using.
  split; try done. apply fmap_rows_le. intros r. case_bool_decide; [|reflexivity]. by repeat split.
Qed.
#[local] Hint Resolve on_accounts_faded consume_proofs_faded invalidate_votes_faded : fade.

(** Reduce a chain of updates to its parts. *)
Ltac fade :=
  repeat first [reflexivity | match goal with |- faded _ (if ?b then _ else _) => destruct b end | solve [eauto with fade] | etransitivity; [|solve [eauto with fade]]].

Lemma authority_changed_faded user tokens stamp g : faded g (authority_changed user tokens stamp g).
Proof using. unfold authority_changed. fade. Qed.
#[local] Hint Resolve authority_changed_faded : fade.

Lemma update_user_faded user f stamp g : faded g (update_user user f stamp g).
Proof using. unfold update_user. repeat (case_match; try reflexivity); fade. Qed.
Lemma insert_role_faded user role req nothing stamp g g' : insert_role user role req nothing stamp g = Ok g' → faded g g'.
Proof using. unfold insert_role. intros H. guards_in H; fade. Qed.
Lemma delete_role_faded user role stamp g : faded g (delete_role user role stamp g).
Proof using. unfold delete_role. repeat (case_match; try reflexivity); fade. Qed.
Lemma invalidateUser_faded user stamp g : faded g (invalidateUser user stamp g).
Proof using. unfold invalidateUser. fade. Qed.
#[local] Hint Resolve update_user_faded insert_role_faded delete_role_faded invalidateUser_faded : fade.

Lemma update_link_faded user person req stamp g : faded g (update_link user person req stamp g).1.
Proof using. unfold update_link. case_match; [|reflexivity]. cbn [fst]. fade. Qed.

Lemma linkUser_faded id user person ver stamp g g' : linkUser id user person ver stamp g = Ok g' → faded g g'.
Proof using.
  unfold linkUser. intros H.
  match type of H with context [update_link ?u ?p ?r ?s ?g1] =>
    pose proof (update_link_faded u p r s g1) as Hl; destruct (update_link u p r s g1) as [g2 []] end; [|discriminate H].
  injection H as <-. etransitivity; [|apply invalidateUser_faded]. etransitivity; [apply on_accounts_faded|exact Hl].
Qed.
#[local] Hint Resolve linkUser_faded : fade.

Lemma grantRoles_faded id user roles stamp g g' : grantRoles id user roles stamp g = Ok g' → faded g g'.
Proof using. revert g. induction roles as [|r roles IH]; intros g H; simpl in H; guards_in H; simplify_eq; fade. Qed.
#[local] Hint Resolve grantRoles_faded : fade.
Lemma applyNominations_faded id ns stamp g g' : applyNominations id ns stamp g = Ok g' → faded g g'.
Proof using. revert g. induction ns as [|n ns IH]; intros g H; simpl in H; guards_in H; simplify_eq; fade. Qed.
Lemma removeUserTOTPConn_faded user actor now g g' : removeUserTOTPConn user actor now g = Ok g' → faded g g'.
Proof using. unfold removeUserTOTPConn. intros H. guards_in H; fade. Qed.
Lemma resetPassword_faded p r stamp g g' : resetPassword p r stamp g = Ok g' → faded g g'.
Proof using. unfold resetPassword. intros H. guards_in H; fade. Qed.
#[local] Hint Resolve applyNominations_faded removeUserTOTPConn_faded resetPassword_faded : fade.

Lemma applyRecovery_faded id applier p r stamp g g' : applyRecovery id applier p r stamp g = Ok g' → faded g g'.
Proof using.
  unfold applyRecovery, reenableUser. intros H.
  match type of H with match ?x with _ => _ end = _ => destruct x as [g1|] eqn:E1; [|discriminate H] end.
  assert (H1 : faded g g1) by (guards_in E1; fade).
  etransitivity; [exact H1|]. clear E1 H1. guards_in H; fade.
Qed.
#[local] Hint Resolve applyRecovery_faded : fade.

Lemma applySecurityPayload_faded g c p stamp g' : applySecurityPayload g c p stamp = Ok g' → faded g g'.
Proof using. unfold applySecurityPayload. intros H. guards_in H; fade. Qed.

(** ** Mild steps: those that neither create, approve, begin, activate nor
    finish a change *)

(** The columns of a change that never change. *)
Definition row_keeps (r r' : ChangeRow) : Prop :=
  cr_revision r' = cr_revision r ∧ cr_requester r' = cr_requester r ∧
  cr_requesterPerson r' = cr_requesterPerson r ∧ cr_requesterGeneration r' = cr_requesterGeneration r ∧
  cr_expectedVersion r' = cr_expectedVersion r ∧ cr_digest r' = cr_digest r ∧ cr_payload r' = cr_payload r.

Definition change_le (r r' : ChangeRow) : Prop :=
  row_keeps r r' ∧ begun (cr_state r') = begun (cr_state r) ∧
  (cr_state r' = ChApplying ↔ cr_state r = ChApplying) ∧
  (voting (cr_state r') = true → voting (cr_state r) = true) ∧
  (cr_state r' = ChApproved → cr_state r = ChApproved) ∧
  (row_ok r → row_ok r') ∧ (cr_commit r ≠ "" → cr_commit r' ≠ "").

Definition phase_ok (change : string) (s : PolicyPhase) : Prop :=
  if bool_decide (change = "") then s ≠ PhApplying else s = PhApplying ∨ s = PhRecovery.

Record mild (g g' : Gov) : Prop := mkMild {
  ml_changes : rows_le change_le (gv_changes g) (gv_changes g');
  ml_nominations : gv_nominations g' = gv_nominations g;
  ml_versions : gv_versions g' = gv_versions g;
  ml_votes : rows_le vote_le (gv_votes g) (gv_votes g');
  ml_active : pl_active (gv_policy g') = pl_active (gv_policy g);
  ml_pending : pl_pending (gv_policy g') = pl_pending (gv_policy g);
  ml_change : pl_change (gv_policy g') = pl_change (gv_policy g);
  ml_phase : pl_state (gv_policy g') = pl_state (gv_policy g) ∨
             phase_ok (pl_change (gv_policy g)) (pl_state (gv_policy g'));
}.

Lemma change_le_refl r : change_le r r.
Proof using. unfold change_le, row_keeps. split_and!; done. Qed.

Lemma rows_le_refl_changes (m : gmap string ChangeRow) : rows_le change_le m m.
Proof using. intros k. destruct (m !! k); [apply change_le_refl|done]. Qed.

Lemma rows_le_fwd {K A} `{Countable K} (R : A → A → Prop) (m m' : gmap K A) k x :
  rows_le R m m' → m !! k = Some x → ∃ y, m' !! k = Some y ∧ R x y.
Proof using. intros Hm Hk. specialize (Hm k). rewrite Hk in Hm. destruct (m' !! k); [eauto|done]. Qed.
Lemma rows_le_bwd {K A} `{Countable K} (R : A → A → Prop) (m m' : gmap K A) k y :
  rows_le R m m' → m' !! k = Some y → ∃ x, m !! k = Some x ∧ R x y.
Proof using. intros Hm Hk. specialize (Hm k). rewrite Hk in Hm. destruct (m !! k); [eauto|done]. Qed.
Lemma rows_le_is_Some {K A} `{Countable K} (R : A → A → Prop) (m m' : gmap K A) k :
  rows_le R m m' → is_Some (m' !! k) ↔ is_Some (m !! k).
Proof using.
  intros Hm. specialize (Hm k). destruct (m !! k), (m' !! k); try done; (split; [by intros [? [=]]|by intros [? [=]]]).
Qed.

Lemma live_votes_le g g' id rev : rows_le vote_le (gv_votes g) (gv_votes g') →
  (live_votes g' id rev ≤ live_votes g id rev)%nat.
Proof using.
  intros Hv. unfold live_votes. rewrite <- !size_dom. apply subseteq_size. intros k.
  rewrite !elem_of_dom. intros [w Hw]. apply map_lookup_filter_Some in Hw as [Hk [H1 H2]].
  destruct (rows_le_bwd _ _ _ _ _ Hv Hk) as (w0 & Hk0 & Hle). exists w0.
  apply map_lookup_filter_Some. split; [done|]. split; [done|]. by apply Hle.
Qed.

Lemma faded_mild g g' : faded g g' → mild g g'.
Proof using.
  intros []. split; try congruence; rewrite ?fd_policy0; try done; [|by left].
  rewrite fd_changes0. apply rows_le_refl_changes.
Qed.

Lemma mild_flight g g' : mild g g' → flight_ok g → flight_ok g'.
Proof using.
  intros M. unfold flight_ok. rewrite (ml_active _ _ M), (ml_pending _ _ M), (ml_change _ _ M).
  destruct (ml_phase _ _ M) as [Hs|Hs].
  - rewrite Hs. intros [H|(Hn & r & Hr & H1 & H2 & H3 & H4)]; [by left|right]. split; [done|].
    destruct (rows_le_fwd _ _ _ _ _ (ml_changes _ _ M) Hr) as (r' & Hr' & Hk & _ & Ha & _ & _ & _ & Hc).
    destruct Hk as (_ & _ & _ & _ & He & _). exists r'. rewrite He. split_and!; try done; [by apply Ha|].
    destruct H3 as [?|[? ?]]; [by left|right]. split; [done|by apply Hc].
  - unfold phase_ok in Hs. intros [(H1 & H2 & _)|(Hn & r & Hr & H1 & H2 & H3 & _)].
    + left. rewrite bool_decide_eq_true_2 in Hs by done. done.
    + right. split; [done|]. rewrite bool_decide_eq_false_2 in Hs by done.
      destruct (rows_le_fwd _ _ _ _ _ (ml_changes _ _ M) Hr) as (r' & Hr' & Hk & _ & Ha & _ & _ & _ & Hc).
      destruct Hk as (_ & _ & _ & _ & He & _). exists r'. rewrite He. split_and!; try done; [by apply Ha|].
      destruct H3 as [?|[? ?]]; [by left|right]. split; [done|by apply Hc].
Qed.

Lemma mild_schema g g' : mild g g' → schema g → schema g'.
Proof using.
  intros M S. pose proof (ml_changes _ _ M) as Hc. pose proof (ml_votes _ _ M) as Hv.
  assert (Ht : top (gv_policy g') = top (gv_policy g)).
  { unfold top. by rewrite (ml_pending _ _ M), (ml_active _ _ M). }
  split.
  - by apply (mild_flight g), S.
  - intros id r' Hr' Ha. rewrite (ml_change _ _ M).
    destruct (rows_le_bwd _ _ _ _ _ Hc Hr') as (r & Hr & _ & _ & Hi & _). apply (sc_applying _ S id r Hr). by apply Hi.
  - pose proof (sc_ids _ S) as Hi. rewrite eq_None_not_Some in *. by rewrite (rows_le_is_Some _ _ _ _ Hc).
  - intros id r' Hr'. destruct (rows_le_bwd _ _ _ _ _ Hc Hr') as (r & Hr & Hle). apply Hle. by apply (sc_rows _ S id).
  - rewrite Ht, (ml_active _ _ M). apply S.
  - intros v. rewrite Ht, (ml_versions _ _ M). apply S.
  - rewrite (ml_versions _ _ M). apply S.
  - intros v raw sha req. rewrite (ml_versions _ _ M). intros Hv' Hlt.
    destruct (sc_origin _ S v raw sha req Hv' Hlt) as (Hs & r & Hr & He & Hb). split; [done|].
    destruct (rows_le_fwd _ _ _ _ _ Hc Hr) as (r' & Hr' & Hk & Hb' & _). exists r'.
    destruct Hk as (_ & _ & _ & _ & He' & _). split_and!; [done|by rewrite He'|by rewrite Hb'].
  - intros id rev p w' Hw'. destruct (rows_le_bwd _ _ _ _ _ Hv Hw') as (w & Hw & Hle).
    destruct (sc_votes _ S id rev p w Hw) as (r & Hr & H1 & H2).
    destruct (rows_le_fwd _ _ _ _ _ Hc Hr) as (r' & Hr' & Hk & _). exists r'.
    destruct Hk as (Hk1 & _ & _ & _ & _ & Hk2 & _). destruct Hle as (Hd & _). split_and!; congruence.
  - intros id rev p p' w1 w2 H1 H2 Hu. destruct (rows_le_bwd _ _ _ _ _ Hv H1) as (x1 & Hx1 & L1).
    destruct (rows_le_bwd _ _ _ _ _ Hv H2) as (x2 & Hx2 & L2).
    apply (sc_unique _ S id rev p p' x1 x2 Hx1 Hx2). destruct L1 as (_ & ? & _), L2 as (_ & ? & _). congruence.
  - intros id r' Hr'. destruct (rows_le_bwd _ _ _ _ _ Hc Hr') as (r & Hr & Hk & _ & _ & Hvt & _).
    destruct Hk as (-> & _). pose proof (live_votes_le g g' id (cr_revision r) Hv).
    pose proof (sc_count _ S id r Hr). destruct (voting (cr_state r')), (voting (cr_state r)); try lia.
  - intros id user n. rewrite (ml_nominations _ _ M), (rows_le_is_Some _ _ _ _ Hc). apply S.
Qed.

(** A mild step is invisible to the protocol, or records a commitment. *)
Lemma mild_protocol g g' : mild g g' → schema g → protocol_step (in_flight g) (in_flight g').
Proof using.
  intros M S. unfold in_flight, stage_of. rewrite (ml_active _ _ M), (ml_pending _ _ M), (ml_change _ _ M).
  case_bool_decide as Hn; [constructor|]. case_bool_decide as Hp; [constructor|].
  destruct (sc_flight _ S) as [(? & _)|(_ & r & Hr & _)]; [done|]. rewrite Hr.
  destruct (rows_le_fwd _ _ _ _ _ (ml_changes _ _ M) Hr) as (r' & Hr' & _ & _ & _ & _ & _ & _ & Hc). rewrite Hr'.
  repeat case_bool_decide; try constructor. tauto.
Qed.

(** What a consumed proof was, and the state after. *)
Definition consumes (g g1 : Gov) (proof user session action digest : string) (now : Time) : Prop :=
  ∃ r, gv_proofs g !! SecurityDigest proof = Some r ∧ proof_matches g r user session action digest (Unix now) = true ∧
    g1 = with_proofs g (<[SecurityDigest proof := consume_proof (Unix now) r]> (gv_proofs g)).

Lemma consume_inv g proof user session action digest t1 t2 policy g1 :
  consumeStepupWithClock g proof user session action digest t1 t2 policy = Ok g1 →
  consumes g g1 proof user session action digest t2.
Proof using.
  unfold consumeStepupWithClock. intros H. guards_in H. bool_hyps. eexists. by split_and!.
Qed.

Lemma ConsumeStepup_inv g proof user session action digest clk g1 :
  ConsumeStepup g proof user session action digest clk = Ok g1 →
  consumes g g1 proof user session action digest (clk 1%nat).
Proof using. unfold ConsumeStepup. intros H. guards_in H. by eapply consume_inv. Qed.

Lemma issue_inv g user session action digest now rnd g' handle :
  IssueStepup g user session action digest now rnd = (g', Ok handle) →
  gv_proofs g !! SecurityDigest handle = None ∧
  ∃ generation, g' = with_proofs g
    (<[SecurityDigest handle := mkProof user session action digest (Unix now) (Unix (now + 5 * Minute)) None generation]> (gv_proofs g)).
Proof using.
  unfold IssueStepup. intros H. destruct (_ || _); [discriminate H|]. destruct rnd as [b|]; [|discriminate H].
  case_bool_decide as E; [discriminate H|]. injection H as <- <-. split; [by apply eq_None_not_Some|]. by eexists.
Qed.

(** A step that leaves all but proofs, secrets, evidence and accounts alone. *)
Lemma quiet_mild g g' : gv_changes g' = gv_changes g → gv_nominations g' = gv_nominations g →
  gv_votes g' = gv_votes g → gv_policy g' = gv_policy g → gv_versions g' = gv_versions g → mild g g'.
Proof using.
  intros H1 H2 H3 H4 H5. split; rewrite ?H1, ?H3, ?H4; try done; [apply rows_le_refl_changes|by left].
Qed.

Lemma row_applier_le r user person revision : change_le r (row_applier r user person revision).
Proof using.
  unfold change_le, row_keeps. split_and!; try done. intros [? ? ? ? ? ?]. by split.
Qed.

Lemma row_commit_le r reference : reference ≠ "" → cr_state r = ChApplying → change_le r (row_commit r reference).
Proof using.
  intros Hn Hs. unfold change_le, row_keeps. split_and!; try done. intros [? ? ? ? Hw ?].
  split; try done; cbn [row_commit cr_state]; by rewrite Hs.
Qed.

Lemma row_expired_le r : begun (cr_state r) = false → change_le r (row_state r ChExpired).
Proof using.
  intros Hb. unfold change_le, row_keeps. split_and!; try done.
  - split; [done|]. intros E. by rewrite E in Hb.
  - intros [? ? ? ? Hw ?]. split; try done. intros _. by apply Hw.
Qed.

Lemma insert_change_le (m : gmap string ChangeRow) id r r' :
  m !! id = Some r → change_le r r' → rows_le change_le m (<[id := r']> m).
Proof using.
  intros Hk Hr j. destruct (decide (j = id)) as [->|Hn].
  - by rewrite lookup_insert_eq, Hk.
  - rewrite lookup_insert_ne by done. destruct (m !! j); [apply change_le_refl|done].
Qed.

Lemma expire_mild g now : schema g → mild g (ExpireSecurityChanges g now).
Proof using.
  intros S. unfold ExpireSecurityChanges. set (g1 := with_changes _ _).
  assert (M : mild g g1).
  { split; try done; [|by left]. apply fmap_rows_le. intros r.
    destruct (_ && _) eqn:E; [|apply change_le_refl]. bool_hyps. apply row_expired_le. by destruct (cr_state r). }
  destruct (_ && _) eqn:E; [|done]. bool_hyps. destruct M. split; try done. right.
  assert (Hp : gv_policy g1 = gv_policy g) by done. unfold phase_ok.
  destruct (sc_flight _ S) as [(Hc & _)|(_ & r & _ & _ & _ & _ & Hs)].
  - by rewrite bool_decide_eq_true_2 by done.
  - rewrite Hp in *. destruct Hs; congruence.
Qed.

Lemma claim_mild g c user person revision session proof clk g' :
  ClaimSecurityApplier proposal g c user person revision session proof clk = Ok g' → mild g g'.
Proof using.
  unfold ClaimSecurityApplier. intros H. guards_in H.
  match goal with E : consumeStepupWithClock _ _ _ _ _ _ _ _ _ = Ok _ |- _ => apply consume_inv in E as (r & Hr & Hm & ->) end.
  split; try done; [|by left]. cbn -[row_applier] in *. eapply insert_change_le; [eassumption|].
  apply row_applier_le.
Qed.

Lemma commit_mild g id reference g' u : RecordSecurityCommit g id reference = (g', Ok u) → mild g g'.
Proof using.
  unfold RecordSecurityCommit. intros H. case_bool_decide; [done|]. injection H as <- _.
  destruct (gv_changes g !! id) as [r|] eqn:E; [|by apply quiet_mild]. case_bool_decide; [|by apply quiet_mild].
  split; try done; [|by left]. eapply insert_change_le; [eassumption|]. by apply row_commit_le.
Qed.

Lemma phase_mild g s : phase_ok (pl_change (gv_policy g)) s → mild g (set_phase g s).
Proof using. intros Hs. split; try done; [apply rows_le_refl_changes|by right]. Qed.

Lemma resume_mild g id g' : schema g → resumeSecurityApplying g id = Ok g' → mild g g'.
Proof using.
  intros S. unfold resumeSecurityApplying. intros H. guards_in H. bool_hyps. apply phase_mild.
  unfold phase_ok. case_bool_decide as E; [|by left]. exfalso.
  destruct (sc_flight _ S) as [(_ & Hp & _)|(? & _)]; [|done].
  match goal with K : is_Some (pl_pending _) |- _ => rewrite Hp in K; by destruct K end.
Qed.

Lemma recover_mild g : mild g (requirePolicyRecovery g).
Proof using. apply phase_mild. unfold phase_ok. case_bool_decide; [done|by right]. Qed.

(** Which operations are not mild. *)
Definition sharp (o : gop) : bool :=
  match o with OCreate _ _ _ _ _ | OApprove _ _ _ _ _ | OBegin _ _ _ _ _ | OActivate _ _ _ _ _ | OFinish _ _ => true | _ => false end.

Lemma gtry_mild g o g' : schema g → sharp o = false → gtry g o = Ok g' → mild g g'.
Proof using.
  intros S Hs H. destruct o; try discriminate Hs; simpl in H; simplify_eq.
  - destruct (IssueStepup g user session action digest now rnd) as [g1 [h|e]] eqn:E; simplify_eq.
    apply issue_inv in E as (_ & ? & ->). by apply quiet_mild.
  - apply ConsumeStepup_inv in H as (r & _ & _ & ->). by apply quiet_mild.
  - apply faded_mild, invalidate_votes_faded.
  - by apply expire_mild.
  - by eapply claim_mild.
  - destruct (RecordSecurityCommit g id reference) as [g1 [u|e]] eqn:E; simplify_eq. by eapply commit_mild.
  - apply recover_mild.
  - by eapply resume_mild.
  - unfold SaveSecuritySecret in H. guards_in H. by apply quiet_mild.
  - unfold SecurityEvidenceBytes in H. repeat case_match; simplify_eq; by apply quiet_mild.
  - unfold ConfirmSecurityEvidence. repeat case_match; by apply quiet_mild.
  - apply faded_mild, update_user_faded.
  - apply faded_mild, on_accounts_faded.
Qed.

(** ** The five sharp operations *)

(** A part of the policy row. *)
Definition same_version (p p' : PolicyRow) : Prop :=
  pl_active p' = pl_active p ∧ pl_pending p' = pl_pending p ∧ pl_change p' = pl_change p.

Lemma insertNominations_inv id ns g g' : insertNominations g id ns = Ok g' →
  gv_changes g' = gv_changes g ∧ gv_votes g' = gv_votes g ∧ gv_proofs g' = gv_proofs g ∧
  gv_policy g' = gv_policy g ∧ gv_versions g' = gv_versions g ∧
  ∀ k n, gv_nominations g' !! k = Some n → k.1 = id ∨ is_Some (gv_nominations g !! k).
Proof using.
  revert g. induction ns as [|n ns IH]; intros g H; simpl in H.
  { injection H as <-. split_and!; try done. intros k n H. right. by exists n. }
  destruct (insertNomination g id n) as [g1|] eqn:E; [|discriminate H]. unfold insertNomination in E. guards_in E.
  destruct (IH _ H) as (H1 & H2 & H3 & H4 & H5 & H6).
  split_and!; try done. intros k n' Hk. destruct (H6 k n' Hk) as [?|Hs]; [by left|].
  cbn in Hs. destruct (decide (k = (id, n_UserID n))) as [->|Hne]; [by left|].
  right. by rewrite lookup_insert_ne in Hs by done.
Qed.

Record created (g g' : Gov) (c : SecurityChange) : Prop := mkCreated {
  cd_fresh : gv_changes g !! c_ID c = None;
  cd_checks : 0 < c_Revision c ∧ len (c_Digest c) = 64 ∧ c_Reason c ≠ "";
  cd_changes : gv_changes g' = <[c_ID c := new_row c]> (gv_changes g);
  cd_votes : gv_votes g' = gv_votes g;
  cd_versions : gv_versions g' = gv_versions g;
  cd_policy : same_version (gv_policy g) (gv_policy g');
  cd_phase : pl_state (gv_policy g') = pl_state (gv_policy g) ∨
             (pl_state (gv_policy g) = PhStandard ∧ pl_state (gv_policy g') = PhSetupPending);
  cd_nominations : ∀ k n, gv_nominations g' !! k = Some n → k.1 = c_ID c ∨ is_Some (gv_nominations g !! k);
}.

Lemma create_inv g c ns session proof clk g' : CreateSecurityChange proposal g c ns session proof clk = Ok g' →
  created g g' c ∧
  ∃ g1, consumes g g1 proof (c_RequesterID c) session ActionRequest (c_Digest c) (clk 3%nat) ∧ gv_proofs g' = gv_proofs g1.
Proof using.
  unfold CreateSecurityChange. intros H.
  do 4 head_in H.
  destruct (consumeStepupWithClock _ _ _ _ _ _ _ _ _) as [g1|] eqn:Ec in H; [|discriminate H].
  apply consume_inv in Ec as (r & Hr & Hm & Eg1).
  do 2 head_in H. destruct (insertChange _ c) as [g2|] eqn:E2 in H; [|discriminate H].
  destruct (insertNominations g2 (c_ID c) ns) as [g3|] eqn:E3; [|discriminate H].
  heads_in H. unfold insertChange in E2. guards_in E2. bool_hyps. z_hyps.
  apply insertNominations_inv in E3 as (K1 & K2 & K3 & K4 & K5 & K6). cbn in *.
  match goal with |- created _ ?x _ ∧ _ => set (g4 := x) end.
  assert (Hg4 : gv_changes g4 = gv_changes g3 ∧ gv_votes g4 = gv_votes g3 ∧ gv_proofs g4 = gv_proofs g3 ∧
    gv_versions g4 = gv_versions g3 ∧ gv_nominations g4 = gv_nominations g3 ∧ same_version (gv_policy g3) (gv_policy g4) ∧
    (pl_state (gv_policy g4) = pl_state (gv_policy g3) ∨
     (pl_state (gv_policy g3) = PhStandard ∧ pl_state (gv_policy g4) = PhSetupPending))).
  { unfold g4, same_version. destruct (negb (bool_decide (ns = [])) && bool_decide (pl_state (gv_policy g3) = PhStandard)) eqn:E;
      [bool_hyps; split_and!; try done; by right | split_and!; try done; by left]. }
  destruct Hg4 as (G1 & G2 & G3 & G4 & G5 & G6 & G7). rewrite K4 in G6, G7.
  split; [split; rewrite ?G1, ?G2, ?G4, ?G5; try done; by apply eq_None_not_Some|].
  eexists. split; [exists r; by split_and!|]. by rewrite G3, K3.
Qed.

(** A request that does not exist has no votes. *)
Lemma no_votes g id rev : schema g → gv_changes g !! id = None → live_votes g id rev = 0%nat.
Proof using.
  intros S Hn. apply map_size_empty_iff, map_empty_filter. intros [[id' rev'] p] w Hw [E _]. simpl in E. simplify_eq.
  destruct (sc_votes _ S _ _ _ _ Hw) as (r & Hr & _). congruence.
Qed.

Lemma create_schema g c g' : created g g' c → c_ID c ≠ "" → schema g → schema g'.
Proof using.
  intros C Hid S. destruct C as [Hf (Hk1 & Hk2 & Hk3) Hc Hv Hvs (Hp1 & Hp2 & Hp3) Hph Hn].
  assert (Ht : top (gv_policy g') = top (gv_policy g)) by (unfold top; by rewrite Hp1, Hp2).
  assert (Hold : ∀ id r, gv_changes g !! id = Some r → gv_changes g' !! id = Some r).
  { intros id r Hr. rewrite Hc. rewrite lookup_insert_ne; [done|]. intros <-. congruence. }
  assert (Hnew : ∀ id r, gv_changes g' !! id = Some r → (id = c_ID c ∧ r = new_row c) ∨ gv_changes g !! id = Some r).
  { intros id r. rewrite Hc. intros [[-> ->]|[_ ?]]%lookup_insert_Some; auto. }
  split.
  - destruct (sc_flight _ S) as [(H1 & H2 & H3)|(H1 & r & Hr & H2 & H3 & H4 & H5)]; unfold flight_ok; rewrite Hp1, Hp2, Hp3.
    + left. split_and!; try done. destruct Hph as [->|[_ ->]]; done.
    + right. split; [done|]. exists r. split_and!; auto. destruct Hph as [->|[E _]]; [done|]. rewrite E in H5. by destruct H5.
  - intros id r Hr Ha. rewrite Hp3. destruct (Hnew id r Hr) as [[_ ->]|Hr0]; [done|]. by apply (sc_applying _ S id r).
  - rewrite Hc, lookup_insert_ne by done. apply S.
  - intros id r Hr. destruct (Hnew id r Hr) as [[_ ->]|Hr0]; [|by apply (sc_rows _ S id)]. by split.
  - rewrite Ht, Hp1. apply S.
  - intros v. rewrite Ht, Hvs. apply S.
  - rewrite Hvs. apply S.
  - intros v raw sha req. rewrite Hvs. intros E Hlt. destruct (sc_origin _ S v raw sha req E Hlt) as (? & r & ? & ?); eauto.
  - intros id rev p w. rewrite Hv. intros Hw. destruct (sc_votes _ S id rev p w Hw) as (r & Hr & ?). eauto.
  - intros id rev p p' w w'. rewrite Hv. apply S.
  - intros id r Hr. assert (Hl : ∀ rev, live_votes g' id rev = live_votes g id rev) by (intros; unfold live_votes; by rewrite Hv).
    rewrite Hl. destruct (Hnew id r Hr) as [[-> ->]|Hr0]; [|by apply (sc_count _ S id)]. rewrite no_votes by done. lia.
  - intros id user n Hk. destruct (Hn _ _ Hk) as [E|[n' Hn']]; simpl in *.
    + subst. rewrite Hc, lookup_insert_eq. by eexists.
    + destruct (sc_nominations _ S _ _ _ Hn') as [r Hr]. rewrite (Hold _ _ Hr). by eexists.
Qed.

Lemma create_protocol g c g' : created g g' c → schema g → in_flight g' = in_flight g.
Proof using.
  intros C S. destruct C as [Hf _ Hc _ _ (Hp1 & Hp2 & Hp3) _ _]. unfold in_flight, stage_of. rewrite Hp1, Hp2, Hp3.
  case_bool_decide; [done|]. do 4 f_equal.
  destruct (sc_flight _ S) as [(? & _)|(_ & r & Hr & _)]; [done|]. rewrite Hc, lookup_insert_ne; [by rewrite Hr|].
  intros E. rewrite <- E in Hr. congruence.
Qed.

(** *** Replacing the row of one change *)

(** No request disappears, and none that was begun is forgotten. *)
Definition requests_kept (g g' : Gov) : Prop :=
  ∀ id r, gv_changes g !! id = Some r → ∃ r', gv_changes g' !! id = Some r' ∧ row_keeps r r' ∧
    (begun (cr_state r) = true → begun (cr_state r') = true).

Record replaces (g g' : Gov) (id : string) (r r1 : ChangeRow) : Prop := mkReplaces {
  rp_row : gv_changes g !! id = Some r;
  rp_changes : gv_changes g' = <[id := r1]> (gv_changes g);
  rp_keeps : row_keeps r r1;
  rp_begun : begun (cr_state r) = true → begun (cr_state r1) = true;
}.

Section replaces.
Context (g g' : Gov) (id : string) (r r1 : ChangeRow) (R : replaces g g' id r r1).

Lemma replaces_kept : requests_kept g g'.
Proof using R.
  destruct R as [Hr Hc Hk Hb]. intros id' r0 Hr0. rewrite Hc. destruct (decide (id' = id)) as [->|Hne].
  - exists r1. rewrite lookup_insert_eq. by simplify_eq.
  - exists r0. rewrite lookup_insert_ne by done. unfold row_keeps. by split_and!.
Qed.

Lemma replaces_new id' r' : gv_changes g' !! id' = Some r' → (id' = id ∧ r' = r1) ∨ gv_changes g !! id' = Some r' ∧ id' ≠ id.
Proof using R. rewrite (rp_changes _ _ _ _ _ R). intros [[-> ->]|[? ?]]%lookup_insert_Some; auto. Qed.

Lemma replaces_id : schema g → id ≠ "" ∧ gv_changes g' !! "" = None.
Proof using R.
  intros S. assert (Hn : id ≠ "") by (intros E; pose proof (rp_row _ _ _ _ _ R) as Hr; rewrite E, (sc_ids _ S) in Hr; done).
  split; [done|]. rewrite (rp_changes _ _ _ _ _ R), lookup_insert_ne by done. apply S.
Qed.

Lemma replaces_rows : schema g → row_ok r1 → ∀ id' r', gv_changes g' !! id' = Some r' → row_ok r'.
Proof using R. intros S H1 id' r' Hr'. destruct (replaces_new id' r' Hr') as [[_ ->]|[Hr0 _]]; [done|by apply (sc_rows _ S id')]. Qed.
End replaces.

(** Kept requests keep what refers to them. *)
Lemma kept_origin g g' v raw sha req : requests_kept g g' → schema g → gv_versions g !! v = Some (raw, sha, req) → 1 < v →
  sha = SecurityDigest raw ∧ ∃ r, gv_changes g' !! req = Some r ∧ cr_expectedVersion r = v - 1 ∧ begun (cr_state r) = true.
Proof using.
  intros K S E Hlt. destruct (sc_origin _ S v raw sha req E Hlt) as (Hs & r0 & Hr0 & He & Hb). split; [done|].
  destruct (K req r0 Hr0) as (r' & Hr' & (_ & _ & _ & _ & Hk & _) & Hb'). exists r'. split_and!; [done|congruence|auto].
Qed.
Lemma kept_votes g g' id rev p w : requests_kept g g' → schema g → gv_votes g !! (id, rev, p) = Some w →
  ∃ r, gv_changes g' !! id = Some r ∧ cr_revision r = rev ∧ vt_digest w = cr_digest r.
Proof using.
  intros K S Hw. destruct (sc_votes _ S id rev p w Hw) as (r0 & Hr0 & H1 & H2).
  destruct (K id r0 Hr0) as (r' & Hr' & (Hk1 & _ & _ & _ & _ & Hk2 & _) & _). exists r'. split_and!; congruence.
Qed.
Lemma kept_nominations g g' id user n : requests_kept g g' → schema g → gv_nominations g !! (id, user) = Some n →
  is_Some (gv_changes g' !! id).
Proof using.
  intros K S Hk. destruct (sc_nominations _ S _ _ _ Hk) as [r0 Hr0]. destruct (K id r0 Hr0) as (r' & Hr' & _). by exists r'.
Qed.
Lemma same_votes_count g g' id rev : gv_votes g' = gv_votes g → live_votes g' id rev = live_votes g id rev.
Proof using. intros Hv. unfold live_votes. by rewrite Hv. Qed.

(** *** Approving *)

Record approved (g g' : Gov) (c : SecurityChange) (a : SecurityApproval) (r : ChangeRow) (w : VoteRow) : Prop := mkApprovedStep {
  av_row : gv_changes g !! c_ID c = Some r;
  av_voting : voting (cr_state r) = true;
  av_digest : cr_digest r = c_Digest c;
  av_revision : cr_revision r = c_Revision c;
  av_fresh : gv_votes g !! (c_ID c, c_Revision c, a_PersonID a) = None;
  av_unique : voted g (c_ID c) (c_Revision c) (a_UserID a) = false;
  av_vote : vt_user w = a_UserID a ∧ vt_digest w = c_Digest c ∧ vt_invalidated w = None;
  av_votes : gv_votes g' = <[(c_ID c, c_Revision c, a_PersonID a) := w]> (gv_votes g);
  av_changes : gv_changes g' = <[c_ID c := row_state r
     (if (2 <=? live_votes g' (c_ID c) (c_Revision c))%nat then ChApproved else ChPartiallyApproved)]> (gv_changes g);
  av_nominations : gv_nominations g' = gv_nominations g;
  av_versions : gv_versions g' = gv_versions g;
  av_policy : gv_policy g' = gv_policy g;
}.

Lemma approve_inv g c a session proof clk g' : AddSecurityApproval proposal g c a session proof clk = Ok g' →
  (∃ r w, approved g g' c a r w) ∧
  ∃ g1, consumes g g1 proof (a_UserID a) session ActionApprove (c_Digest c) (clk 2%nat) ∧ gv_proofs g' = gv_proofs g1.
Proof using.
  unfold AddSecurityApproval. intros H. head_in H.
  destruct (consumeStepupWithClock _ _ _ _ _ _ _ _ _) as [g1|] eqn:Ec in H; [|discriminate H].
  apply consume_inv in Ec as (r & Hr & Hm & Eg1).
  destruct (gv_changes g1 !! c_ID c) as [row|] eqn:Erow; [|discriminate H].
  do 4 head_in H. destruct (insertVote _ c a proof _) as [g2|] eqn:E2 in H; [|discriminate H].
  heads_in H. unfold insertVote in E2. guards_in E2. cbn -[live_votes row_state] in *. bool_hyps. z_hyps. simplify_eq.
  split.
  - exists row. eexists. split; cbn -[live_votes row_state]; try done.
    + by destruct (cr_state row).
    + by apply eq_None_not_Some.
    + by split_and!.
  - eexists. split; [exists r; by split_and!|done].
Qed.

Lemma live_votes_other g g' k w id rev : gv_votes g' = <[k := w]> (gv_votes g) → gv_votes g !! k = None → k.1 ≠ (id, rev) →
  live_votes g' id rev = live_votes g id rev.
Proof using.
  intros Hv Hk Hne. unfold live_votes. rewrite Hv, size_filter_insert, delete_id by done.
  rewrite decide_False; [lia|]. intros [E _]. by apply Hne.
Qed.
Lemma live_votes_more g g' k w : gv_votes g' = <[k := w]> (gv_votes g) → gv_votes g !! k = None → vt_invalidated w = None →
  live_votes g' k.1.1 k.1.2 = S (live_votes g k.1.1 k.1.2).
Proof using.
  intros Hv Hk Hw. unfold live_votes. rewrite Hv, size_filter_insert, delete_id by done.
  rewrite decide_True; [lia|]. split; [by destruct k as [[? ?] ?]|done].
Qed.

Lemma voted_false g id rev user p w : voted g id rev user = false → gv_votes g !! (id, rev, p) = Some w → vt_user w ≠ user.
Proof using.
  intros Hv Hw E. assert (voted g id rev user = true); [|congruence]. apply existsb_exists.
  exists ((id, rev, p), w). split; [by apply list_elem_of_In, elem_of_map_to_list|]. simpl.
  by rewrite !bool_decide_eq_true_2.
Qed.

Lemma row_state_ok r s : row_ok r → begun (cr_state r) = false → begun s = false → s ≠ ChApplied → row_ok (row_state r s).
Proof using. intros [] Hb Hs Hn. split; cbn; try done; [by rewrite Hs|auto]. Qed.

Lemma approve_replaces g g' c a r w : approved g g' c a r w → ∃ s, begun s = false ∧ s ≠ ChApplying ∧ s ≠ ChApplied ∧
  replaces g g' (c_ID c) r (row_state r s) ∧ (live_votes g' (c_ID c) (c_Revision c) ≤ if voting s then 1 else live_votes g' (c_ID c) (c_Revision c))%nat.
Proof using.
  intros [Hr Hvt _ _ _ _ _ _ Hc _ _ _]. eexists. split_and!; [..|split; [exact Hr|exact Hc|by repeat split|]|].
  - by case_match.
  - by case_match.
  - by case_match.
  - by destruct (cr_state r).
  - destruct (2 <=? _)%nat eqn:E; cbn; [done|]. apply Nat.leb_gt in E. lia.
Qed.

Lemma approve_schema g g' c a r w : approved g g' c a r w → schema g → schema g'.
Proof using.
  intros A S. destruct (approve_replaces _ _ _ _ _ _ A) as (s & Hs1 & Hs2 & Hs3 & R & Hle).
  pose proof (replaces_kept _ _ _ _ _ R) as K. destruct A as [Hr Hvt Hd Hrev Hf Hu (Hw1 & Hw2 & Hw3) Hv _ Hn Hvs Hp].
  pose proof (live_votes_more _ _ _ _ Hv Hf Hw3) as Hmore. cbn in Hmore.
  split; try (rewrite ?Hp, ?Hvs; apply S).
  - unfold flight_ok. rewrite Hp. destruct (sc_flight _ S) as [?|(H1 & r0 & Hr0 & H2 & H3)]; [by left|right]. split; [done|].
    exists r0. split; [|done]. rewrite (rp_changes _ _ _ _ _ R), lookup_insert_ne; [done|].
    intros E. rewrite <- E in Hr0. simplify_eq. by rewrite H2 in Hvt.
  - intros id r' Hr' Ha. rewrite Hp. destruct (replaces_new _ _ _ _ _ R id r' Hr') as [[_ ->]|[Hr0 _]]; [done|].
    by apply (sc_applying _ S id r').
  - by apply (replaces_id _ _ _ _ _ R).
  - apply (replaces_rows _ _ _ _ _ R S). apply row_state_ok; try done; [by apply (sc_rows _ S (c_ID c))|by destruct (cr_state r)].
  - intros v raw sha req. rewrite Hvs. by apply kept_origin.
  - intros id rev p w'. rewrite Hv. intros [[[= <- <- <-] <-]|[_ Hw']]%lookup_insert_Some; [|by apply (kept_votes g g' id rev p)].
    exists (row_state r s). rewrite (rp_changes _ _ _ _ _ R), lookup_insert_eq. split_and!; try done. by rewrite Hw2, <- Hd.
  - intros id rev p p' w1 w2. rewrite Hv.
    intros [[E1 <-]|[Hk1 H1]]%lookup_insert_Some [[E2 <-]|[Hk2 H2]]%lookup_insert_Some Heq; simplify_eq; try done.
    + exfalso. apply (voted_false _ _ _ _ _ _ Hu H2). congruence.
    + exfalso. apply (voted_false _ _ _ _ _ _ Hu H1). congruence.
    + by apply (sc_unique _ S id rev p p' w1 w2).
  - intros id r' Hr'. destruct (replaces_new _ _ _ _ _ R id r' Hr') as [[-> ->]|[Hr0 Hne]].
    + cbn -[live_votes]. rewrite Hrev. pose proof (sc_count _ S _ _ Hr) as Hcount. rewrite Hvt, Hrev in Hcount.
      destruct (voting s); lia.
    + rewrite (live_votes_other g g' _ w id _ Hv Hf); [by apply (sc_count _ S id)|]. simpl. congruence.
  - intros id user n. rewrite Hn. by apply kept_nominations.
Qed.

Lemma approve_protocol g g' c a r w : approved g g' c a r w → schema g → in_flight g' = in_flight g.
Proof using.
  intros A S. destruct A as [Hr Hvt _ _ _ _ _ _ Hc _ _ Hp]. unfold in_flight, stage_of. rewrite Hp, Hc.
  case_bool_decide; [done|]. do 4 f_equal.
  destruct (sc_flight _ S) as [(? & _)|(_ & r0 & Hr0 & Ha & _)]; [done|]. rewrite lookup_insert_ne; [done|].
  intros E. rewrite <- E in Hr0. simplify_eq. by rewrite Ha in Hvt.
Qed.

(** *** Principals and quorum *)

(** [user], as [person], may act in [role] on the change [c] now: the account is
    enabled with its second factor, unchanged since its security revision was
    [generation], and holds the role; or, before any role exists, is nominated. *)
Definition entitled (g : Gov) (c : SecurityChange) (user person : string) (generation : Z) (role : string) : Prop :=
  ∃ u p, ac_users (gv_accounts g) !! user = Some u ∧ proposal (c_ApprovedBytes c) = Some p ∧
    u_SecurityRevision u = generation ∧ u_TOTPEnabled u = true ∧ u_DisabledAt u = None ∧ u_MustChangePassword u = false ∧
    if bool_decide (cp_Kind p = "bootstrap")
    then nominated (cp_Nominations p) user person role = true ∧ (role = RoleSecurityOfficer → has_role g user RoleAdmin = true)
    else (lk_person <$> ac_links (gv_accounts g) !! user) = Some person ∧ has_role g user role = true.

Definition role_for (action : string) : string :=
  if bool_decide (action = ActionApprove) then RoleSecurityApprover else RoleSecurityOfficer.

Lemma principal_entitled g c user person generation action t guard :
  checkSecurityPrincipal proposal g c user person generation action t = Ok guard →
  entitled g c user person generation (role_for action).
Proof using.
  unfold checkSecurityPrincipal, role_for. intros H. do 3 head_in H. bool_hyps. z_hyps.
  match goal with E : ac_users _ !! user = Some ?u, E' : proposal _ = Some ?p |- _ => exists u, p end.
  assert (Hd : ∀ o : option Time, ¬ is_Some o → o = None) by (intros []; [intros []; eauto|done]).
  split_and!; auto. destruct (bool_decide (cp_Kind _ = "bootstrap")).
  - do 2 head_in H. bool_hyps. split; [done|]. intros E.
    match goal with K : _ && _ = false |- _ => apply andb_false_iff in K as [K|K] end; bool_hyps; [|done].
    match goal with K : action = ActionApprove |- _ => rewrite K in E; discriminate E end.
  - heads_in H. bool_hyps. by simplify_eq.
Qed.

(** Two live votes for the change, of different people, none the requester, all
    still entitled to approve. *)
Definition two_votes (g : Gov) (c : SecurityChange) : Prop :=
  ∃ p1 w1 p2 w2,
    gv_votes g !! (c_ID c, c_Revision c, p1) = Some w1 ∧ gv_votes g !! (c_ID c, c_Revision c, p2) = Some w2 ∧
    p1 ≠ p2 ∧ vt_user w1 ≠ vt_user w2 ∧
    Forall (fun pw : string * VoteRow =>
              vt_digest pw.2 = c_Digest c ∧ vt_invalidated pw.2 = None ∧ pw.1 ≠ c_RequesterPersonID c ∧
              vt_user pw.2 ≠ c_RequesterID c ∧
              entitled g c (vt_user pw.2) pw.1 (vt_generation pw.2) RoleSecurityApprover) [(p1, w1); (p2, w2)].

Lemma quorum_guards_spec g c seen people clk k guards : quorum_guards proposal g c seen people clk k = Ok guards →
  Forall (fun x : string * string * Z => (x.1.2 ∉ seen) ∧ x.1.1 ≠ c_RequesterID c ∧
            entitled g c x.1.1 x.1.2 x.2 RoleSecurityApprover) people ∧
  NoDup ((fun x : string * string * Z => x.1.2) <$> people).
Proof using.
  revert seen k guards. induction people as [|[[user person] revision] rest IH]; intros seen k guards H; simpl in H.
  { split; constructor. }
  heads_in H. bool_hyps. match goal with E : quorum_guards _ _ _ _ rest _ _ = Ok _ |- _ => destruct (IH _ _ _ E) as [HF HN] end.
  split.
  - constructor.
    + split_and!; try done. by eapply (principal_entitled _ _ _ _ _ ActionApprove).
    + eapply Forall_impl; [exact HF|]. intros x (Hx & ? & ?). rewrite not_elem_of_cons in Hx. by destruct Hx.
  - constructor; [|done]. intros (x & E & Hx)%list_elem_of_fmap.
    rewrite Forall_forall in HF. destruct (HF x Hx) as (Hn & _). apply Hn. rewrite <- E. left.
Qed.

Lemma quorum_entitled g c clk guards : schema g → validateSecurityQuorumConn proposal g c clk = Ok guards →
  entitled g c (c_RequesterID c) (c_RequesterPersonID c) (c_RequesterGeneration c) RoleSecurityOfficer ∧ two_votes g c.
Proof using.
  intros S. unfold validateSecurityQuorumConn. intros H. heads_in H. split; [by eapply (principal_entitled _ _ _ _ _ ActionRequest)|].
  match goal with E : quorum_guards _ _ _ _ _ _ _ = Ok _ |- _ => apply quorum_guards_spec in E as [HF HN] end.
  unfold quorum_rows in *. set (rows := filter _ (map_to_list _)) in *.
  assert (Hin : ∀ k w, (k, w) ∈ rows → gv_votes g !! k = Some w ∧ k.1 = (c_ID c, c_Revision c) ∧
            vt_digest w = c_Digest c ∧ vt_invalidated w = None).
  { intros k w Hk. apply list_elem_of_filter in Hk as [Hk1 Hk2]. apply elem_of_map_to_list in Hk2. by split. }
  match goal with E : (length _ <? 2)%nat = false |- _ => apply Nat.ltb_ge in E; rewrite length_fmap in E; rename E into Hlen end.
  destruct rows as [|[[[i1 r1] p1] w1] [|[[[i2 r2] p2] w2] rows']]; simpl in Hlen; try lia.
  destruct (Hin (i1, r1, p1) w1) as (H1 & E1 & D1 & L1); [left|]. simpl in E1. simplify_eq.
  destruct (Hin (i2, r2, p2) w2) as (H2 & E2 & D2 & L2); [right; left|]. simpl in E2. simplify_eq.
  rewrite !fmap_cons in *. inversion HF as [|? ? (A1 & A2 & A3) HF']; subst. inversion HF' as [|? ? (B1 & B2 & B3) _]; subst.
  inversion HN as [|? ? HN1 _]; subst. simpl in *. rewrite list_elem_of_singleton in A1, B1. rewrite elem_of_cons in HN1.
  assert (Hp : p1 ≠ p2) by (intros ->; apply HN1; by left).
  exists p1, w1, p2, w2. split_and!; try done.
  - intros E. apply Hp. by apply (sc_unique _ S _ _ _ _ _ _ H1 H2).
  - repeat constructor; simpl; done.
Qed.

(** *** Beginning *)

Definition applier_entitled (g : Gov) (c : SecurityChange) : Prop :=
  entitled g c (c_ApplierID c) (c_ApplierPersonID c) (c_ApplierRevision c) RoleSecurityOfficer.

Record begins (g g' : Gov) (c : SecurityChange) (r : ChangeRow) : Prop := mkBegins {
  bg_row : gv_changes g !! c_ID c = Some r;
  bg_state : cr_state r = ChApproved;
  bg_payload : SecurityDigest (cr_payload r) = cr_digest r;
  bg_applier : applier_entitled g c;
  bg_quorum : two_votes g c;
  bg_active : pl_active (gv_policy g) = cr_expectedVersion r;
  bg_idle : pl_change (gv_policy g) = "";
  bg_bound : cr_expectedVersion r + 1 ≤ int64_max;
  bg_changes : ∃ intent, intent ≠ "" ∧ gv_changes g' = <[c_ID c := row_intent r ChApplying intent]> (gv_changes g);
  bg_versions : ∃ raw, gv_versions g' = <[cr_expectedVersion r + 1 := (raw, SecurityDigest raw, c_ID c)]> (gv_versions g);
  bg_policy : gv_policy g' = mkPolicyRow (pl_active (gv_policy g)) PhApplying (Some (cr_expectedVersion r + 1)) (c_ID c);
  bg_votes : gv_votes g' = gv_votes g;
  bg_nominations : gv_nominations g' = gv_nominations g;
  bg_proofs : gv_proofs g' = gv_proofs g;
}.

Lemma next_version_exact v : 1 ≤ v ≤ int64_max → next_version v = v + 1.
Proof using. unfold next_version, u64, int64_max. intros H. apply Z.mod_small. lia. Qed.

Lemma begin_inv g c policy intent clk qclk g' : schema g → snapshot g c →
  beginSecurityApply J proposal g c policy intent clk qclk = Ok g' → ∃ r, begins g g' c r.
Proof using.
  intros S (r & Hr & _ & _ & _ & _ & He & Hd & _). unfold beginSecurityApply. intros H. head_in H. rewrite Hr in H.
  do 5 head_in H. bool_hyps. z_hyps.
  destruct (_ && _) eqn:Ep in H; [|discriminate H]. cbn [negb] in H. bool_hyps. z_hyps.
  destruct (insertVersion _ _ _ _) as [g1|] eqn:Ev in H; [|discriminate H]. heads_in H.
  unfold insertVersion in Ev. guards_in Ev. bool_hyps. z_hyps.
  destruct (sc_bounds _ S) as [Hb1 Hb2].
  assert (Ht : top (gv_policy g) = pl_active (gv_policy g)).
  { unfold top. destruct (sc_flight _ S) as [(_ & -> & _)|(? & _)]; done. }
  assert (Hnv : next_version (c_ExpectedVersion c) = cr_expectedVersion r + 1).
  { rewrite <- He. apply next_version_exact. lia. }
  exists r. split; cbn; try done; try (by rewrite Hnv).
  - congruence.
  - by eapply (principal_entitled _ _ _ _ _ ActionApply).
  - by eapply quorum_entitled.
  - lia.
  - lia.
  - by eexists.
  - eexists. by rewrite Hnv.
Qed.

Lemma row_intent_ok r intent : row_ok r → cr_state r = ChApproved → SecurityDigest (cr_payload r) = cr_digest r →
  intent ≠ "" → row_ok (row_intent r ChApplying intent).
Proof using. intros [] Hs Hd Hi. by split. Qed.

Lemma begin_schema g g' c r : begins g g' c r → schema g → schema g'.
Proof using.
  intros B S. destruct B as [Hr Hst Hd _ _ Ha Hi Hbd (intent & Hin & Hc) (raw & Hvs) Hp Hv Hn _].
  set (r1 := row_intent r ChApplying intent) in *. set (v1 := cr_expectedVersion r + 1) in *.
  assert (R : replaces g g' (c_ID c) r r1) by (split; by repeat split).
  pose proof (replaces_kept _ _ _ _ _ R) as K. destruct (replaces_id _ _ _ _ _ R S) as [Hid Hids].
  assert (Hidle : pl_pending (gv_policy g) = None).
  { destruct (sc_flight _ S) as [(_ & ? & _)|(? & _)]; done. }
  assert (Ht : top (gv_policy g) = pl_active (gv_policy g)) by (unfold top; by rewrite Hidle).
  assert (Ht' : top (gv_policy g') = v1) by (rewrite Hp; done).
  destruct (sc_bounds _ S) as [Hb1 Hb2].
  split; try done.
  - right. rewrite Hp. cbn. split; [done|]. exists r1. rewrite Hc, lookup_insert_eq. cbn. split_and!; try done; by left.
  - intros id r' Hr' Ha'. rewrite Hp. cbn. destruct (replaces_new _ _ _ _ _ R id r' Hr') as [[-> _]|[Hr0 _]]; [done|].
    pose proof (sc_applying _ S id r' Hr0 Ha') as E. rewrite Hi in E. subst id. rewrite (sc_ids _ S) in Hr0. done.
  - apply (replaces_rows _ _ _ _ _ R S), row_intent_ok; try done. by apply (sc_rows _ S (c_ID c)).
  - rewrite Ht', Hp. cbn. lia.
  - intros v. rewrite Ht', Hvs, lookup_insert_is_Some', (sc_versions _ S v), Ht. unfold v1. lia.
  - rewrite Hvs, lookup_insert_ne by (unfold v1; lia). apply S.
  - intros v raw' sha req. rewrite Hvs. intros [[<- [= <- <- <-]]|[_ E]]%lookup_insert_Some Hlt; [|by apply (kept_origin g)].
    split; [done|]. exists r1. rewrite Hc, lookup_insert_eq. cbn. split_and!; try done. unfold v1. lia.
  - intros id rev p w. rewrite Hv. by apply kept_votes.
  - intros id rev p p' w w'. rewrite Hv. apply S.
  - intros id r' Hr'. rewrite (same_votes_count g g') by done.
    destruct (replaces_new _ _ _ _ _ R id r' Hr') as [[-> ->]|[Hr0 _]]; [|by apply (sc_count _ S id)].
    cbn. pose proof (sc_count _ S _ _ Hr) as Hcount. by rewrite Hst in Hcount.
  - intros id user n. rewrite Hn. by apply kept_nominations.
Qed.

Lemma begin_protocol g g' c r : begins g g' c r → schema g → protocol_step (in_flight g) (in_flight g').
Proof using.
  intros B S. destruct B as [Hr Hst _ _ _ Ha Hi _ (intent & _ & Hc) _ Hp _ _ _].
  assert (Hid : c_ID c ≠ "") by (intros E; rewrite E, (sc_ids _ S) in Hr; done).
  unfold in_flight, stage_of. rewrite Hp, Hi, Hc, lookup_insert_eq. cbn.
  rewrite (bool_decide_eq_false_2 (c_ID c = "")) by done.
  rewrite (bool_decide_eq_true_2 ("" = "")) by done.
  rewrite bool_decide_eq_false_2 by (intros [= E]; lia).
  destruct (ro_waiting _ (sc_rows _ S _ _ Hr)) as [_ ->]; [by rewrite Hst|]. constructor.
Qed.

(** *** Activating *)

Lemma policy_eq p a s pending id : pl_active p = a → pl_state p = s → pl_pending p = pending → pl_change p = id →
  p = mkPolicyRow a s pending id.
Proof using. destruct p. simpl. congruence. Qed.

Record activates (g g' : Gov) (c : SecurityChange) (r : ChangeRow) : Prop := mkActivates {
  at_row : gv_changes g !! c_ID c = Some r;
  at_state : cr_state r = ChApplying;
  at_commit : cr_commit r ≠ "";
  at_applier : applier_entitled g c;
  at_requester : entitled g c (c_RequesterID c) (c_RequesterPersonID c) (c_RequesterGeneration c) RoleSecurityOfficer;
  at_quorum : two_votes g c;
  at_flight : gv_policy g = mkPolicyRow (cr_expectedVersion r) PhApplying (Some (cr_expectedVersion r + 1)) (c_ID c);
  at_change : ∃ g1, faded g g1 ∧
    g' = with_policy g1 (mkPolicyRow (cr_expectedVersion r + 1) PhApplying (Some (cr_expectedVersion r + 1)) (c_ID c));
}.

Lemma activate_inv g c p clk qclk stamp g' : schema g → snapshot g c →
  activateSecurityChange J proposal g c p clk qclk stamp = Ok g' → g' = g ∨ ∃ r, activates g g' c r.
Proof using.
  intros S (r & Hr & _ & _ & _ & _ & He & _). unfold activateSecurityChange. intros H.
  head_in H. bool_hyps. destruct (pl_pending (gv_policy g)) as [pending|] eqn:Epend; [|discriminate H].
  do 4 head_in H; [by left|]. bool_hyps. z_hyps. right. head_in H. rewrite Hr in H. do 4 head_in H. bool_hyps. z_hyps.
  destruct (applySecurityPayload g c p stamp) as [g1|] eqn:Ea; [|discriminate H]. apply applySecurityPayload_faded in Ea.
  destruct (sc_bounds _ S) as [Hb1 Hb2].
  assert (Hb3 : cr_expectedVersion r ≤ int64_max).
  { destruct (sc_flight _ S) as [(_ & ? & _)|(_ & r0 & Hr0 & _ & Hp & _)]; [congruence|].
    unfold top in Hb2. rewrite Hp in Hb2. match goal with E : pl_change _ = c_ID c |- _ => rewrite E in Hr0 end.
    simplify_eq. lia. }
  assert (Hnv : next_version (c_ExpectedVersion c) = cr_expectedVersion r + 1).
  { rewrite <- He. apply next_version_exact. lia. }
  assert (Hpol : gv_policy g = mkPolicyRow (cr_expectedVersion r) PhApplying (Some (cr_expectedVersion r + 1)) (c_ID c)).
  { apply policy_eq; congruence. }
  heads_in H. exists r. rewrite Hnv, (fd_policy _ _ Ea), Hpol, He, Z.eqb_refl. cbn. rewrite bool_decide_eq_true_2 by done.
  match goal with E : validateSecurityQuorumConn _ _ _ _ = Ok _ |- _ => destruct (quorum_entitled _ _ _ _ S E) as [Q1 Q2] end.
  split; try done; [by eapply (principal_entitled _ _ _ _ _ ActionApply)|by exists g1].
Qed.

Lemma activate_schema g g' c r : activates g g' c r → schema g → schema g'.
Proof using.
  intros A S. destruct A as [Hr Hst Hco _ _ _ Hf (g1 & Fd & ->)].
  pose proof (mild_schema _ _ (faded_mild _ _ Fd) S) as S1.
  assert (Hp : gv_policy g1 = mkPolicyRow (cr_expectedVersion r) PhApplying (Some (cr_expectedVersion r + 1)) (c_ID c)).
  { by rewrite (fd_policy _ _ Fd). }
  assert (Hr1 : gv_changes g1 !! c_ID c = Some r) by by rewrite (fd_changes _ _ Fd).
  assert (Hn : c_ID c ≠ "") by (intros E; rewrite E, (sc_ids _ S) in Hr; done).
  destruct S1 as [Hfl Hap Hid Hrow Hbd Hver Hfst Hor Hvt Hun Hct Hnm]. rewrite Hp in *. cbn -[initialStandardPolicy] in *.
  split; try done; cbn.
  - right. cbn. split; [done|]. exists r. split_and!; try done; [by right|by left].
  - lia.
Qed.

Lemma activate_protocol g g' c r : activates g g' c r → schema g → protocol_step (in_flight g) (in_flight g').
Proof using.
  intros A S. destruct A as [Hr Hst Hco _ _ _ Hf (g1 & Fd & ->)].
  assert (Hid : c_ID c ≠ "") by (intros E; rewrite E, (sc_ids _ S) in Hr; done).
  unfold in_flight, stage_of. rewrite Hf. cbn. rewrite (bool_decide_eq_false_2 (c_ID c = "")) by done. rewrite Hr.
  rewrite (bool_decide_eq_false_2 (Some _ = Some (cr_expectedVersion r))) by (intros [= E]; lia).
  rewrite (bool_decide_eq_false_2 (cr_commit r = "")) by done. rewrite bool_decide_eq_true_2 by done. constructor.
Qed.

(** *** Finishing *)

Record finishes (g g' : Gov) (id : string) (r : ChangeRow) : Prop := mkFinishes {
  fn_row : gv_changes g !! id = Some r;
  fn_state : cr_state r = ChApplying;
  fn_commit : cr_commit r ≠ "";
  fn_flight : gv_policy g = mkPolicyRow (cr_expectedVersion r + 1) PhApplying (Some (cr_expectedVersion r + 1)) id;
  fn_changes : ∃ reference, reference ≠ "" ∧ gv_changes g' = <[id := row_result r ChApplied reference]> (gv_changes g);
  fn_policy : ∃ s, s ≠ PhApplying ∧ gv_policy g' = mkPolicyRow (cr_expectedVersion r + 1) s None "";
  fn_votes : gv_votes g' = gv_votes g;
  fn_versions : gv_versions g' = gv_versions g;
  fn_nominations : gv_nominations g' = gv_nominations g;
  fn_proofs : gv_proofs g' = gv_proofs g;
}.

Lemma finish_inv g id reference g' : schema g → finishSecurityChange J g id reference = Ok g' → ∃ r, finishes g g' id r.
Proof using.
  intros S. unfold finishSecurityChange. intros H. heads_in H. bool_hyps. z_hyps.
  destruct (sc_flight _ S) as [(_ & ? & _)|(Hn & r & Hr & Ha & Hp & Hact & _)]; [congruence|].
  assert (Hz : pl_active (gv_policy g) = cr_expectedVersion r + 1) by congruence.
  match goal with E : pl_change _ = id |- _ => rewrite E in Hr end. rewrite Hr, bool_decide_eq_true_2 by done. exists r. split; try done.
  - destruct Hact as [?|[_ ?]]; [lia|done].
  - by apply policy_eq.
  - by exists reference.
  - eexists. split; [|cbn; by rewrite Hz]. by case_bool_decide.
Qed.

Lemma row_result_ok r reference : row_ok r → cr_state r = ChApplying → cr_commit r ≠ "" → reference ≠ "" →
  row_ok (row_result r ChApplied reference).
Proof using. intros [? ? ? Hb ? ?] Hs Hc Hn. split; try done. intros _. apply Hb. by rewrite Hs. Qed.

Lemma finish_schema g g' id r : finishes g g' id r → schema g → schema g'.
Proof using.
  intros F S. destruct F as [Hr Hst Hco Hf (ref & Href & Hc) (s & Hs & Hp) Hv Hvs Hn _].
  set (r1 := row_result r ChApplied ref) in *.
  assert (R : replaces g g' id r r1) by (split; by repeat split).
  pose proof (replaces_kept _ _ _ _ _ R) as K. destruct (replaces_id _ _ _ _ _ R S) as [Hid Hids].
  assert (Ht : top (gv_policy g') = top (gv_policy g)) by (rewrite Hp, Hf; done).
  split; try (rewrite ?Hvs; apply S); try done.
  - left. rewrite Hp. by cbn.
  - intros id' r' Hr' Ha'. destruct (replaces_new _ _ _ _ _ R id' r' Hr') as [[_ ->]|[Hr0 Hne]]; [done|].
    destruct Hne. symmetry. pose proof (sc_applying _ S id' r' Hr0 Ha') as E. by rewrite Hf in E.
  - apply (replaces_rows _ _ _ _ _ R S), row_result_ok; try done. by apply (sc_rows _ S id).
  - rewrite Ht, Hp. pose proof (sc_bounds _ S) as Hb. rewrite Hf in *. exact Hb.
  - intros v. rewrite Ht, Hvs. apply S.
  - intros v raw sha req. rewrite Hvs. by apply kept_origin.
  - intros id' rev p w. rewrite Hv. by apply kept_votes.
  - intros id' rev p p' w w'. rewrite Hv. apply S.
  - intros id' r' Hr'. rewrite (same_votes_count g g') by done.
    destruct (replaces_new _ _ _ _ _ R id' r' Hr') as [[-> ->]|[Hr0 _]]; [|by apply (sc_count _ S id')].
    pose proof (sc_count _ S _ _ Hr) as Hcount. by rewrite Hst in Hcount.
  - intros id' user n. rewrite Hn. by apply kept_nominations.
Qed.

Lemma finish_protocol g g' id r : finishes g g' id r → schema g → protocol_step (in_flight g) (in_flight g').
Proof using.
  intros F S. destruct F as [Hr Hst Hco Hf _ (s & Hs & Hp) _ _ _ _].
  assert (Hid : id ≠ "") by (intros E; rewrite E, (sc_ids _ S) in Hr; done).
  unfold in_flight, stage_of. rewrite Hf, Hp. cbn. rewrite (bool_decide_eq_false_2 (id = "")) by done.
  rewrite !bool_decide_eq_true_2 by done. constructor.
Qed.

(** ** Every step, every run *)

Lemma gtry_schema g o g' : schema g → allowed g o → gtry g o = Ok g' →
  schema g' ∧ protocol_step (in_flight g) (in_flight g').
Proof using.
  intros S Ha H. destruct (sharp o) eqn:Hs.
  - destruct o; try discriminate Hs; simpl in H, Ha.
    + apply create_inv in H as [C _]. split; [by eapply create_schema|]. rewrite (create_protocol _ _ _ C S). constructor.
    + apply approve_inv in H as [(r & w & A) _]. split; [by eapply approve_schema|]. rewrite (approve_protocol _ _ _ _ _ _ A S). constructor.
    + apply begin_inv in H as [r B]; try done. split; [by eapply begin_schema|by eapply begin_protocol].
    + apply activate_inv in H as [->|[r A]]; try done; [split; [done|constructor]|].
      split; [by eapply activate_schema|by eapply activate_protocol].
    + apply finish_inv in H as [r F]; [|done]. split; [by eapply finish_schema|by eapply finish_protocol].
  - pose proof (gtry_mild _ _ _ S Hs H) as M. split; [by eapply mild_schema|by eapply mild_protocol].
Qed.

Lemma gstep_schema g o : schema g → allowed g o → schema (gstep g o) ∧ protocol_step (in_flight g) (in_flight (gstep g o)).
Proof using.
  intros S Ha. unfold gstep. destruct (gtry g o) as [g'|] eqn:E; [by eapply gtry_schema|]. split; [done|constructor].
Qed.

Lemma migrated_schema g : migrated g → schema g.
Proof using.
  intros [H1 H2 H3 H4 H5 H6]. split; rewrite ?H1, ?H2, ?H3, ?H5, ?H6; try done.
  - left. rewrite H5. by cbn.
  - intros v. unfold top. cbn. split.
    + intros [x [<- _]%lookup_singleton_Some]. lia.
    + intros Hv. assert (v = 1) as -> by lia. rewrite lookup_singleton_eq. by eexists.
  - intros v raw sha req [<- _]%lookup_singleton_Some Hlt. lia.
Qed.

Lemma gsteps_schema g0 os g : migrated g0 → gsteps g0 os g → schema g.
Proof using. intros M. induction 1; [by apply migrated_schema|]. by apply gstep_schema. Qed.

(** ** What no step undoes *)

(** Requests keep their identity, versions stay as they are, the record of an
    event stays the one first stored, and a confirmation is not withdrawn. *)
Record extends (g g' : Gov) : Prop := mkExtends {
  xt_requests : requests_kept g g';
  xt_versions : gv_versions g ⊆ gv_versions g';
  xt_evidence : ∀ k rec ref, gv_evidence g !! k = Some (rec, ref) →
    ∃ ref', gv_evidence g' !! k = Some (rec, ref') ∧ (ref ≠ "" → ref' ≠ "");
}.

Lemma row_keeps_refl r : row_keeps r r.
Proof using. unfold row_keeps. by split_and!. Qed.
Lemma row_keeps_trans r1 r2 r3 : row_keeps r1 r2 → row_keeps r2 r3 → row_keeps r1 r3.
Proof using. unfold row_keeps. intros (?&?&?&?&?&?&?) (?&?&?&?&?&?&?). split_and!; congruence. Qed.

#[export] Instance extends_po : PreOrder extends.
Proof using.
  split.
  - intros g. split; [|done|by eauto]. intros id r Hr. exists r. split_and!; try done.
  - intros g1 g2 g3 [K1 V1 E1] [K2 V2 E2]. split; [|by etransitivity|].
    + intros id r Hr. destruct (K1 id r Hr) as (r' & Hr' & Hk & Hb). destruct (K2 id r' Hr') as (r'' & Hr'' & Hk' & Hb').
      exists r''. split_and!; [done|by eapply row_keeps_trans|auto].
    + intros k rec ref H. destruct (E1 k rec ref H) as (ref' & H' & Hn). destruct (E2 k rec ref' H') as (ref'' & H'' & Hn').
      exists ref''. auto.
Qed.

Lemma mild_kept g g' : mild g g' → requests_kept g g'.
Proof using.
  intros M id r Hr. destruct (rows_le_fwd _ _ _ _ _ (ml_changes _ _ M) Hr) as (r' & Hr' & Hk & Hb & _). exists r'.
  split_and!; try done. by rewrite Hb.
Qed.

(** The evidence table is written by its two operations only. *)
Definition writes_evidence (o : gop) : bool := match o with OEvidence _ _ _ | OConfirm _ _ _ => true | _ => false end.

Lemma insertNominations_evidence id ns g g' : insertNominations g id ns = Ok g' → gv_evidence g' = gv_evidence g.
Proof using.
  revert g. induction ns as [|n ns IH]; intros g H; simpl in H; [by injection H as <-|].
  destruct (insertNomination g id n) as [g1|] eqn:E; [|discriminate H]. rewrite (IH _ H). unfold insertNomination in E. by guards_in E.
Qed.

Lemma gtry_evidence g o g' : writes_evidence o = false → gtry g o = Ok g' → gv_evidence g' = gv_evidence g.
Proof using.
  intros Hw H. destruct o; try discriminate Hw; simpl in H; simplify_eq; try done.
  - destruct (IssueStepup g user session action digest now rnd) as [g1 [h|e]] eqn:E; simplify_eq.
    by apply issue_inv in E as (_ & ? & ->).
  - by apply ConsumeStepup_inv in H as (r & _ & _ & ->).
  - unfold CreateSecurityChange in H. do 4 head_in H.
    destruct (consumeStepupWithClock _ _ _ _ _ _ _ _ _) as [g1|] eqn:Ec in H; [|discriminate H].
    apply consume_inv in Ec as (r & _ & _ & ->). do 2 head_in H.
    destruct (insertChange _ c) as [g2|] eqn:E2 in H; [|discriminate H].
    destruct (insertNominations g2 (c_ID c) ns) as [g3|] eqn:E3; [|discriminate H].
    apply insertNominations_evidence in E3. unfold insertChange in E2. guards_in E2. heads_in H; by case_match.
  - unfold AddSecurityApproval in H. head_in H.
    destruct (consumeStepupWithClock _ _ _ _ _ _ _ _ _) as [g1|] eqn:Ec in H; [|discriminate H].
    apply consume_inv in Ec as (r & _ & _ & ->). cbn -[live_votes row_state] in H. heads_in H.
    match goal with E : insertVote _ _ _ _ _ = Ok _ |- _ => unfold insertVote in E; guards_in E end. done.
  - unfold ExpireSecurityChanges. by case_match.
  - unfold ClaimSecurityApplier in H. do 3 head_in H.
    destruct (consumeStepupWithClock _ _ _ _ _ _ _ _ _) as [g1|] eqn:Ec in H; [|discriminate H].
    apply consume_inv in Ec as (r & _ & _ & ->). by heads_in H.
  - unfold beginSecurityApply in H. heads_in H.
    match goal with E : insertVersion _ _ _ _ = Ok _ |- _ => unfold insertVersion in E; guards_in E end. done.
  - unfold RecordSecurityCommit in H. by repeat case_match; simplify_eq.
  - unfold activateSecurityChange in H. heads_in H; try done.
    all: match goal with E : applySecurityPayload _ _ _ _ = Ok _ |- _ => apply applySecurityPayload_faded in E end.
    all: by case_match; cbn; apply fd_evidence.
  - unfold finishSecurityChange in H. heads_in H; by repeat case_match.
  - unfold resumeSecurityApplying in H. by heads_in H.
  - unfold SaveSecuritySecret in H. by guards_in H.
  - apply fd_evidence, update_user_faded.
Qed.

Lemma gtry_extends g o g' : schema g → allowed g o → gtry g o = Ok g' → extends g g'.
Proof using.
  intros S Ha H. split.
  - destruct (sharp o) eqn:Hs; [|apply mild_kept; by eapply gtry_mild].
    destruct o; try discriminate Hs; simpl in H, Ha.
    + apply create_inv in H as [C _]. intros id r Hr. exists r. rewrite (cd_changes _ _ _ C).
      rewrite lookup_insert_ne by (intros <-; rewrite (cd_fresh _ _ _ C) in Hr; done). by split_and!.
    + apply approve_inv in H as [(r & w & A) _]. destruct (approve_replaces _ _ _ _ _ _ A) as (s & _ & _ & _ & R & _).
      by eapply replaces_kept.
    + apply begin_inv in H as [r B]; try done. destruct (bg_changes _ _ _ _ B) as (intent' & _ & Hc).
      eapply (replaces_kept _ _ (c_ID c) r). split; [apply B|exact Hc|by repeat split|done].
    + apply activate_inv in H as [->|[r A]]; try done; [apply xt_requests; reflexivity|].
      destruct (at_change _ _ _ _ A) as (g1 & Fd & ->). apply (mild_kept g g1), faded_mild, Fd.
    + apply finish_inv in H as [r F]; [|done]. destruct (fn_changes _ _ _ _ F) as (ref & _ & Hc).
      eapply (replaces_kept _ _ id r). split; [apply F|exact Hc|by repeat split|done].
  - destruct (sharp o) eqn:Hs; [|by rewrite (ml_versions _ _ (gtry_mild _ _ _ S Hs H))].
    destruct o; try discriminate Hs; simpl in H, Ha.
    + apply create_inv in H as [C _]. by rewrite (cd_versions _ _ _ C).
    + apply approve_inv in H as [(r & w & A) _]. by rewrite (av_versions _ _ _ _ _ _ A).
    + apply begin_inv in H as [r B]; try done. destruct (bg_versions _ _ _ _ B) as (raw & ->). apply insert_subseteq.
      apply eq_None_not_Some. rewrite (sc_versions _ S). unfold top.
      destruct (sc_flight _ S) as [(_ & -> & _)|(Hn & _)]; [|by rewrite (bg_idle _ _ _ _ B) in Hn].
      rewrite (bg_active _ _ _ _ B). lia.
    + apply activate_inv in H as [->|[r A]]; try done. destruct (at_change _ _ _ _ A) as (g1 & Fd & ->).
      cbn. by rewrite (fd_versions _ _ Fd).
    + apply finish_inv in H as [r F]; [|done]. by rewrite (fn_versions _ _ _ _ F).
  - intros k rec ref Hk. destruct (writes_evidence o) eqn:Hw.
    2:{ rewrite (gtry_evidence _ _ _ Hw H). by exists ref. }
    destruct o; try discriminate Hw; simpl in H.
    + unfold SecurityEvidenceBytes in H. repeat case_match; simplify_eq; [by exists ref|]. exists ref. cbn.
      rewrite lookup_insert_ne; [done|]. congruence.
    + injection H as <-. unfold ConfirmSecurityEvidence. destruct (gv_evidence g !! (id, kind)) as [[stored ref0]|] eqn:E; [|by exists ref].
      cbn. destruct (decide (k = (id, kind))) as [->|Hne].
      * simplify_eq. exists reference. by rewrite lookup_insert_eq.
      * exists ref. by rewrite lookup_insert_ne by done.
Qed.

(** Only an activation moves the version in force. *)
Lemma gtry_active g o g' : schema g → allowed g o → gtry g o = Ok g' →
  pl_active (gv_policy g') = pl_active (gv_policy g) ∨
  ∃ c p clk qclk stamp, o = OActivate c p clk qclk stamp ∧ pl_active (gv_policy g') = next_version (c_ExpectedVersion c).
Proof using.
  intros S Ha H. destruct (sharp o) eqn:Hs; [|left; apply (gtry_mild _ _ _ S Hs H)].
  destruct o; try discriminate Hs; simpl in H, Ha.
  - apply create_inv in H as [C _]. left. apply C.
  - apply approve_inv in H as [(r & w & A) _]. left. by rewrite (av_policy _ _ _ _ _ _ A).
  - apply begin_inv in H as [r B]; try done. left. by rewrite (bg_policy _ _ _ _ B).
  - destruct (activate_inv _ _ _ _ _ _ _ S Ha H) as [->|[r A]]; [by left|]. right. eexists _, _, _, _, _. split; [done|].
    destruct Ha as (r0 & Hr0 & _ & _ & _ & _ & He & _). pose proof (at_row _ _ _ _ A). simplify_eq.
    destruct (at_change _ _ _ _ A) as (g1 & _ & ->). cbn. rewrite He. symmetry. apply next_version_exact.
    destruct (sc_bounds _ S) as [? Hb]. rewrite (at_flight _ _ _ _ A) in *. unfold top in Hb. cbn in *. lia.
  - apply finish_inv in H as [r F]; [|done]. destruct (fn_policy _ _ _ _ F) as (s & _ & ->). left. by rewrite (fn_flight _ _ _ _ F).
Qed.

Lemma gstep_extends g o : schema g → allowed g o → extends g (gstep g o).
Proof using.
  intros S Ha. unfold gstep. destruct (gtry g o) as [g'|] eqn:E; [by eapply gtry_extends|reflexivity].
Qed.

Lemma extends_snapshot g g' c : extends g g' → snapshot g c → snapshot g' c.
Proof using.
  intros X (r & Hr & H). destruct (xt_requests _ _ X _ _ Hr) as (r' & Hr' & (?&?&?&?&?&?&?) & _). exists r'.
  split; [done|]. destruct H as (?&?&?&?&?&?&?). split_and!; congruence.
Qed.

(** ** A lost vote *)

(** A change that is neither begun nor open to votes, and short of two. *)
Definition blocked (g : Gov) (id : string) : Prop :=
  ∃ r, gv_changes g !! id = Some r ∧ begun (cr_state r) = false ∧ voting (cr_state r) = false ∧
    (live_votes g id (cr_revision r) ≤ 1)%nat.

Lemma two_votes_live g c : two_votes g c → (2 ≤ live_votes g (c_ID c) (c_Revision c))%nat.
Proof using.
  intros (p1 & w1 & p2 & w2 & H1 & H2 & Hp & _ & HF). inversion HF as [|? ? (_ & L1 & _) HF']; subst.
  inversion HF' as [|? ? (_ & L2 & _) _]; subst. simpl in *. unfold live_votes. rewrite <- size_dom.
  pose (k1 := (c_ID c, c_Revision c, p1)). pose (k2 := (c_ID c, c_Revision c, p2)).
  transitivity (size ({[ k1; k2 ]} : gset (string * Z * string))).
  { rewrite size_union by set_solver. by rewrite !size_singleton. }
  apply subseteq_size. intros k Hk. apply elem_of_dom. apply elem_of_union in Hk.
  destruct Hk as [->%elem_of_singleton| ->%elem_of_singleton]; eexists; by apply map_lookup_filter_Some.
Qed.

Lemma live_votes_lt g g' id rev p w w' : rows_le vote_le (gv_votes g) (gv_votes g') →
  gv_votes g !! (id, rev, p) = Some w → vt_invalidated w = None →
  gv_votes g' !! (id, rev, p) = Some w' → vt_invalidated w' ≠ None →
  (live_votes g' id rev < live_votes g id rev)%nat.
Proof using.
  intros Hv Hw Hl Hw' Hl'. unfold live_votes. rewrite <- !size_dom. apply subset_size. split.
  - intros k. rewrite !elem_of_dom. intros [x Hx]. apply map_lookup_filter_Some in Hx as [Hk [H1 H2]].
    destruct (rows_le_bwd _ _ _ _ _ Hv Hk) as (x0 & Hk0 & Hle). exists x0.
    apply map_lookup_filter_Some. split; [done|]. split; [done|]. by apply Hle.
  - intros Hsub. assert (Hin : (id, rev, p) ∈ dom (filter (vote_live id rev) (gv_votes g))).
    { apply elem_of_dom. exists w. by apply map_lookup_filter_Some. }
    apply Hsub, elem_of_dom in Hin as [x Hx]. apply map_lookup_filter_Some in Hx as [Hk [_ H2]]. simpl in H2. congruence.
Qed.

Lemma blocked_same g g' id : blocked g id → gv_votes g' = gv_votes g →
  (∀ r, gv_changes g !! id = Some r → begun (cr_state r) = false → gv_changes g' !! id = Some r) → blocked g' id.
Proof using.
  intros (r & Hr & Hb & Hv & Hl) Hvs Hc. exists r. split_and!; auto. unfold live_votes in *. by rewrite Hvs.
Qed.

Lemma gstep_blocked g o id : schema g → allowed g o → blocked g id → blocked (gstep g o) id.
Proof using.
  intros S Ha B. unfold gstep. destruct (gtry g o) as [g'|] eqn:H; [|done]. cbn.
  destruct B as (r & Hr & Hb & Hv & Hl). destruct (sharp o) eqn:Hs.
  - destruct o; try discriminate Hs; simpl in H, Ha.
    + apply create_inv in H as [[Hf _ Hc Hvs _ _ _ _] _]. apply (blocked_same g); [by exists r|done|].
      intros r0 Hr0 _. rewrite Hc, lookup_insert_ne; [done|]. intros E. congruence.
    + apply approve_inv in H as [(r0 & w & [Hr0 Hvt _ _ Hf _ _ Hvs Hc _ _ _]) _].
      assert (Hne : c_ID c ≠ id) by (intros E; congruence). exists r. rewrite Hc, lookup_insert_ne by done. split_and!; try done.
      rewrite (live_votes_other g g' _ _ _ _ Hvs Hf); [done|]. simpl. congruence.
    + destruct Ha as (r0 & Hr0 & Hrev & Ha). apply begin_inv in H as [r1 B]; [|done|by exists r0].
      pose proof (two_votes_live _ _ (bg_quorum _ _ _ _ B)) as H2.
      assert (Hne : c_ID c ≠ id). { intros E. subst id. simplify_eq. rewrite Hrev in H2. lia. }
      destruct (bg_changes _ _ _ _ B) as (? & _ & Hc). apply (blocked_same g); [by exists r|apply B|].
      intros r2 Hr2 _. by rewrite Hc, lookup_insert_ne.
    + apply activate_inv in H as [->|[r0 A]]; try done; [by exists r|].
      destruct (at_change _ _ _ _ A) as (g1 & Fd & ->). exists r. cbn. rewrite (fd_changes _ _ Fd). split_and!; try done.
      etransitivity; [apply (live_votes_le g); apply Fd|done].
    + apply finish_inv in H as [r0 F]; [|done]. destruct (fn_changes _ _ _ _ F) as (ref & _ & Hc).
      apply (blocked_same g); [by exists r|apply F|]. intros r1 Hr1 Hb1. rewrite Hc, lookup_insert_ne; [done|].
      intros ->. pose proof (fn_row _ _ _ _ F). pose proof (fn_state _ _ _ _ F) as E. simplify_eq. by rewrite E in Hb.
  - pose proof (gtry_mild _ _ _ S Hs H) as M.
    destruct (rows_le_fwd _ _ _ _ _ (ml_changes _ _ M) Hr) as (r' & Hr' & Hk & Hb' & _ & Hv' & _).
    exists r'. split_and!; [done|by rewrite Hb'| |].
    + destruct (voting (cr_state r')); [|done]. by rewrite Hv' in Hv.
    + destruct Hk as (-> & _). etransitivity; [apply (live_votes_le g); apply M|done].
Qed.

Lemma gsteps_blocked g os g' id : schema g → blocked g id → gsteps g os g' → blocked g' id ∧ schema g'.
Proof using.
  intros S B. induction 1 as [|os g' o _ [IHB IHS] Ha]; [done|]. split; [by apply gstep_blocked|by apply gstep_schema].
Qed.

(** A change of a user's credentials invalidates the user's votes. *)
Lemma update_user_votes user f stamp g u k w : ac_users (gv_accounts g) !! user = Some u → credentials u ≠ credentials (f u) →
  gv_votes g !! k = Some w → vt_user w = user →
  ∃ w', gv_votes (update_user user f stamp g) !! k = Some w' ∧ vt_invalidated w' ≠ None.
Proof using.
  intros Hu Hc Hk Hw. unfold update_user. rewrite Hu. rewrite (bool_decide_eq_false_2 (credentials _ = _)) by done.
  unfold authority_changed, invalidate_votes. cbn. rewrite lookup_fmap.
  assert (Hsame : ∀ g1, gv_votes g1 = gv_votes g → gv_votes g1 !! k = Some w) by (intros ? ->; done).
  rewrite Hsame by (repeat case_bool_decide; done). cbn. rewrite bool_decide_eq_true_2 by done. by eexists.
Qed.

(** ** Step-up proofs *)

(** One use, or issue, of a proof. *)
Record use := mkUse {
  us_hash : string; us_user : string; us_session : string; us_action : string; us_digest : string; us_at : Z;
}.

Definition uses (g : Gov) (o : gop) : option use :=
  match gtry g o with
  | Err _ => None
  | Ok _ =>
      match o with
      | OConsume proof user session action digest clk =>
          Some (mkUse (SecurityDigest proof) user session action digest (Unix (clk 1%nat)))
      | OCreate c _ session proof clk =>
          Some (mkUse (SecurityDigest proof) (c_RequesterID c) session ActionRequest (c_Digest c) (Unix (clk 3%nat)))
      | OApprove c a session proof clk =>
          Some (mkUse (SecurityDigest proof) (a_UserID a) session ActionApprove (c_Digest c) (Unix (clk 2%nat)))
      | OClaim c user _ _ session proof clk =>
          Some (mkUse (SecurityDigest proof) user session ActionApply (c_Digest c) (Unix (clk 2%nat)))
      | _ => None
      end
  end.

Definition issues (g : Gov) (o : gop) : option use :=
  match o with
  | OIssue user session action digest now rnd =>
      match IssueStepup g user session action digest now rnd with
      | (_, Ok handle) => Some (mkUse (SecurityDigest handle) user session action digest (Unix now))
      | (_, Err _) => None
      end
  | _ => None
  end.

(** The uses and the issues of a sequence of operations, the first one first. *)
Fixpoint ledger (g : Gov) (os : list gop) : list use * list use :=
  match os with
  | [] => ([], [])
  | o :: t => let '(u, i) := ledger (gstep g o) t in (option_list (uses g o) ++ u, option_list (issues g o) ++ i)
  end.

(** The row [r] is what the issue or use [x] names. *)
Definition names (x : use) (r : ProofRow) : Prop :=
  us_user x = pf_user r ∧ us_session x = pf_session r ∧ us_action x = pf_action r ∧ us_digest x = pf_digest r.

Lemma claim_inv g c user person revision session proof clk g' :
  ClaimSecurityApplier proposal g c user person revision session proof clk = Ok g' →
  ∃ g1, consumes g g1 proof user session ActionApply (c_Digest c) (clk 2%nat) ∧ gv_proofs g' = gv_proofs g1.
Proof using.
  unfold ClaimSecurityApplier. intros H. do 3 head_in H.
  destruct (consumeStepupWithClock _ _ _ _ _ _ _ _ _) as [g1|] eqn:Ec in H; [|discriminate H].
  apply consume_inv in Ec. exists g1. split; [done|]. by heads_in H.
Qed.

(** An operation that uses a proof found it unused and leaves it used. *)
Lemma uses_spec g o x : uses g o = Some x → ∃ r, gv_proofs g !! us_hash x = Some r ∧ names x r ∧ pf_consumed r = None ∧
  pf_created r ≤ us_at x < pf_expires r ∧
  gv_proofs (gstep g o) = <[us_hash x := consume_proof (us_at x) r]> (gv_proofs g).
Proof using.
  assert (Hc : ∀ g' g1 proof user session action digest now,
    consumes g g1 proof user session action digest now → gv_proofs g' = gv_proofs g1 →
    ∃ r, gv_proofs g !! SecurityDigest proof = Some r ∧
      names (mkUse (SecurityDigest proof) user session action digest (Unix now)) r ∧ pf_consumed r = None ∧
      pf_created r ≤ Unix now < pf_expires r ∧
      gv_proofs g' = <[SecurityDigest proof := consume_proof (Unix now) r]> (gv_proofs g)).
  { intros g' g1 proof user session action digest now (r & Hr & Hm & ->) Hp. exists r. unfold proof_matches in Hm.
    bool_hyps. z_hyps. by split_and!. }
  unfold uses, gstep. destruct (gtry g o) as [g'|] eqn:E; [|done]. cbn.
  destruct o; try done; simpl in E; intros [= <-]; cbn.
  - apply ConsumeStepup_inv in E. by eapply Hc.
  - apply create_inv in E as [_ (g1 & H1 & H2)]. by eapply Hc.
  - apply approve_inv in E as [_ (g1 & H1 & H2)]. by eapply Hc.
  - apply claim_inv in E as (g1 & H1 & H2). by eapply Hc.
Qed.

Lemma issues_spec g o y : issues g o = Some y → gv_proofs g !! us_hash y = None ∧
  ∃ r, names y r ∧ pf_consumed r = None ∧ pf_created r = us_at y ∧ pf_expires r = us_at y + 300 ∧
    gv_proofs (gstep g o) = <[us_hash y := r]> (gv_proofs g).
Proof using.
  destruct o; try done. simpl. intros H.
  destruct (IssueStepup g user session action digest now rnd) as [g' [h|e]] eqn:E; [|done]. injection H as <-.
  unfold gstep, gtry. rewrite E. apply issue_inv in E as (Hn & gen & ->). split; [done|].
  exists (mkProof user session action digest (Unix now) (Unix (now + 5 * Minute)) None gen). split_and!; try done.
  cbn. unfold Unix, Minute. rewrite <- Z.div_add by done. f_equal. unfold Second. lia.
Qed.

Lemma begin_proofs g c policy intent clk qclk g' :
  beginSecurityApply J proposal g c policy intent clk qclk = Ok g' → gv_proofs g' = gv_proofs g.
Proof using.
  unfold beginSecurityApply. intros H. do 7 head_in H.
  match type of H with (if ?b then _ else _) = _ => destruct b; [discriminate H|] end.
  destruct (insertVersion _ _ _ _) as [g1|] eqn:Ev in H; [|discriminate H]. heads_in H.
  unfold insertVersion in Ev. by guards_in Ev.
Qed.

Lemma activate_proofs g c p clk qclk stamp g' :
  activateSecurityChange J proposal g c p clk qclk stamp = Ok g' → rows_le proof_le (gv_proofs g) (gv_proofs g').
Proof using.
  unfold activateSecurityChange. intros H. do 6 head_in H; [reflexivity|]. do 6 head_in H.
  destruct (applySecurityPayload g c p stamp) as [g1|] eqn:Ea; [|discriminate H]. apply applySecurityPayload_faded in Ea.
  heads_in H. case_match; apply Ea.
Qed.

(** Any other operation only consumes proofs. *)
Lemma other_proofs g o : uses g o = None → issues g o = None → rows_le proof_le (gv_proofs g) (gv_proofs (gstep g o)).
Proof using.
  unfold uses, gstep. destruct (gtry g o) as [g'|] eqn:E; [|reflexivity]. cbn. intros Hu Hi.
  destruct o; try discriminate Hu; simpl in E; simplify_eq.
  - simpl in Hi. by destruct (IssueStepup g user session action digest now rnd) as [g1 []].
  - reflexivity.
  - unfold ExpireSecurityChanges. by case_match.
  - by rewrite (begin_proofs _ _ _ _ _ _ _ E).
  - unfold RecordSecurityCommit in E. repeat case_match; simplify_eq; reflexivity.
  - by eapply activate_proofs.
  - unfold finishSecurityChange in E. heads_in E. repeat case_match; reflexivity.
  - reflexivity.
  - unfold resumeSecurityApplying in E. by heads_in E.
  - unfold SaveSecuritySecret in E. by heads_in E.
  - unfold SecurityEvidenceBytes in E. repeat case_match; simplify_eq; reflexivity.
  - unfold ConfirmSecurityEvidence. repeat case_match; reflexivity.
  - apply update_user_faded.
  - reflexivity.
Qed.

Lemma uses_not_issues g o x : uses g o = Some x → issues g o = None.
Proof using. unfold uses. destruct (gtry g o); [|done]. by destruct o. Qed.

(** No operation gives a proof back. *)
Lemma gstep_proof g o h r : gv_proofs g !! h = Some r → ∃ r', gv_proofs (gstep g o) !! h = Some r' ∧ proof_le r r'.
Proof using.
  intros Hr. destruct (uses g o) as [x|] eqn:Eu.
  - destruct (uses_spec _ _ _ Eu) as (r0 & Hr0 & _ & _ & _ & ->). destruct (decide (h = us_hash x)) as [->|Hne].
    + simplify_eq. rewrite lookup_insert_eq. eexists. split; [done|apply consume_proof_le].
    + rewrite lookup_insert_ne by done. eexists. split; [done|reflexivity].
  - destruct (issues g o) as [y|] eqn:Ei; [|by apply (rows_le_fwd proof_le _ _ _ _ (other_proofs g o Eu Ei))].
    destruct (issues_spec _ _ _ Ei) as (Hn & r0 & _ & _ & _ & _ & ->). rewrite lookup_insert_ne by congruence.
    eexists. split; [done|reflexivity].
Qed.

(** A proof that exists after an operation existed before, or was issued. *)
Lemma gstep_proof_origin g o h r' : gv_proofs (gstep g o) !! h = Some r' →
  (∃ r, gv_proofs g !! h = Some r ∧ proof_le r r') ∨
  (∃ y, issues g o = Some y ∧ us_hash y = h ∧ names y r' ∧ pf_created r' = us_at y ∧ pf_expires r' = us_at y + 300).
Proof using.
  intros Hr'. destruct (gv_proofs g !! h) as [r|] eqn:Hr.
  - left. destruct (gstep_proof g o h r Hr) as (r1 & H1 & H2). simplify_eq. eauto.
  - right. destruct (uses g o) as [x|] eqn:Eu.
    { destruct (uses_spec _ _ _ Eu) as (r0 & Hr0 & _ & _ & _ & E). rewrite E in Hr'.
      apply lookup_insert_Some in Hr' as [[<- _]|[_ ?]]; congruence. }
    destruct (issues g o) as [y|] eqn:Ei.
    + destruct (issues_spec _ _ _ Ei) as (Hn & r0 & Hx & _ & H1 & H2 & E). rewrite E in Hr'.
      apply lookup_insert_Some in Hr' as [[<- <-]|[_ ?]]; [|congruence]. eauto 10.
    + destruct (rows_le_bwd _ _ _ _ _ (other_proofs g o Eu Ei) Hr') as (r & ? & _). congruence.
Qed.

Lemma proof_le_names x r r' : proof_le r r' → names x r' → names x r.
Proof using. unfold proof_le, names. naive_solver congruence. Qed.

(** What the uses of a run are: unused proofs of its first state, or issued in
    it; none twice. *)
Lemma ledger_spec os : ∀ g, let '(u, i) := ledger g os in
  NoDup (us_hash <$> u) ∧
  (∀ x, x ∈ u → (∃ r, gv_proofs g !! us_hash x = Some r ∧ names x r ∧ pf_consumed r = None ∧
                   pf_created r ≤ us_at x < pf_expires r) ∨
                (gv_proofs g !! us_hash x = None ∧ ∃ y, y ∈ i ∧ us_hash y = us_hash x ∧ us_user y = us_user x ∧ us_session y = us_session x ∧
                   us_action y = us_action x ∧ us_digest y = us_digest x ∧ us_at y ≤ us_at x < us_at y + 300)).
Proof using.
  induction os as [|o os IH]; intros g; simpl.
  { split; [constructor|]. intros x Hx. by apply not_elem_of_nil in Hx. }
  specialize (IH (gstep g o)). destruct (ledger (gstep g o) os) as [u i]. destruct IH as [HN HU].
  assert (HU' : ∀ x, x ∈ u → (∃ r, gv_proofs g !! us_hash x = Some r ∧ names x r ∧ pf_consumed r = None ∧
                   pf_created r ≤ us_at x < pf_expires r) ∨
                (gv_proofs g !! us_hash x = None ∧ ∃ y, y ∈ option_list (issues g o) ++ i ∧ us_hash y = us_hash x ∧ us_user y = us_user x ∧
                   us_session y = us_session x ∧ us_action y = us_action x ∧ us_digest y = us_digest x ∧
                   us_at y ≤ us_at x < us_at y + 300)).
  { intros x Hx. destruct (HU x Hx) as [(r' & Hr' & Hn & Hc & Ht)|(Hnone & y & Hy & H1)].
    - destruct (gstep_proof_origin g o _ _ Hr') as [(r & Hr & Hle)|(y & Hi & Hh & Hny & Hc1 & Hc2)].
      + left. exists r. pose proof (proof_le_names _ _ _ Hle Hn). unfold proof_le in Hle.
        destruct Hle as (_ & _ & _ & _ & E1 & E2 & E3). rewrite E1, E2. split_and!; auto; lia.
      + right. split.
        { destruct (gv_proofs g !! us_hash x) as [r|] eqn:E; [|done]. destruct (issues_spec _ _ _ Hi) as [E' _]. congruence. }
        exists y. split; [rewrite Hi; by left|]. unfold names in *. split_and!; try (by intuition congruence); lia.
    - right. split.
      { destruct (gv_proofs g !! us_hash x) as [r|] eqn:E; [|done]. destruct (gstep_proof g o _ _ E) as (? & ? & _). congruence. }
      exists y. split; [apply elem_of_app; by right|done]. }
  split.
  - destruct (uses g o) as [x|] eqn:Eu; [|done]. simpl. constructor; [|done].
    intros (x' & E & Hx')%list_elem_of_fmap. destruct (uses_spec _ _ _ Eu) as (r & Hr & _ & _ & _ & Hp).
    destruct (HU x' Hx') as [(r' & Hr' & _ & Hc & _)|(Hnone & _)]; rewrite Hp, <- E, lookup_insert_eq in *; [|done].
    simplify_eq. by destruct r as [? ? ? ? ? ? [] ?].
  - intros x [Hx|Hx]%elem_of_app; [|by apply HU'].
    destruct (uses g o) as [x0|] eqn:Eu; simpl in Hx; [|by apply not_elem_of_nil in Hx].
    apply list_elem_of_singleton in Hx as ->. left. destruct (uses_spec _ _ _ Eu) as (r & Hr & H1 & H2 & H3 & _). eauto.
Qed.

(** ** What a caller read stays true *)

Lemma gstep_snapshot g o c : schema g → allowed g o → snapshot g c → snapshot (gstep g o) c.
Proof using.
  intros S Ha (r & Hr & Hk). unfold gstep. destruct (gtry g o) as [g'|] eqn:H; [|by exists r]. cbn.
  assert (Hins : ∀ id r0 r1, gv_changes g !! id = Some r0 → row_keeps r0 r1 → gv_changes g' = <[id := r1]> (gv_changes g) →
            snapshot g' c).
  { intros id r0 r1 H0 H1 Hc. unfold snapshot. rewrite Hc. destruct (decide (c_ID c = id)) as [<-|Hne].
    - exists r1. rewrite lookup_insert_eq. unfold row_keeps in H1. simplify_eq. split; [done|]. intuition congruence.
    - exists r. by rewrite lookup_insert_ne by done. }
  destruct (sharp o) eqn:Hs.
  - destruct o as [| |c0 ns session proof clk|c0 a session proof clk| | | |c0 policy intent clk qclk| |c0 p clk qclk stamp|id reference| | | | | | |];
      try discriminate Hs; simpl in H, Ha.
    + apply create_inv in H as [[Hf _ Hc _ _ _ _ _] _]. exists r. rewrite Hc, lookup_insert_ne; [done|]. intros E. congruence.
    + apply approve_inv in H as [(r0 & w & [Hr0 _ _ _ _ _ _ _ Hc _ _ _]) _]. eapply (Hins _ _ _ Hr0); [|exact Hc]. by repeat split.
    + apply begin_inv in H as [r1 B]; try done. destruct (bg_changes _ _ _ _ B) as (? & _ & Hc).
      eapply (Hins _ _ _ (bg_row _ _ _ _ B)); [|exact Hc]. by repeat split.
    + apply activate_inv in H as [->|[r0 A]]; try done; [by exists r|]. destruct (at_change _ _ _ _ A) as (g1 & Fd & ->).
      exists r. cbn. by rewrite (fd_changes _ _ Fd).
    + apply finish_inv in H as [r0 F]; [|done]. destruct (fn_changes _ _ _ _ F) as (? & _ & Hc).
      eapply (Hins _ _ _ (fn_row _ _ _ _ F)); [|exact Hc]. by repeat split.
  - pose proof (gtry_mild _ _ _ S Hs H) as M.
    destruct (rows_le_fwd _ _ _ _ _ (ml_changes _ _ M) Hr) as (r' & Hr' & Hk' & _). exists r'. split; [done|].
    unfold row_keeps in Hk'. intuition congruence.
Qed.

(** A change read with [GetSecurityChange] can be passed to every later
    operation. *)
Lemma read_change_lasts payload g id c os g' : schema g → GetSecurityChange payload g id = Ok c → gsteps g os g' →
  snapshot g' c ∧ schema g'.
Proof using.
  intros S Hget. induction 1 as [|os g' o _ [IH IHS] Ha].
  - split; [|done]. unfold GetSecurityChange, scanSecurityChange in Hget. heads_in Hget. eexists. by split_and!.
  - split; [by apply gstep_snapshot|by apply gstep_schema].
Qed.

(** ** Theorems *)

(** C26. The governance tables stay well-formed under every sequence of
    operations: at most one change is applying and it owns the pending version,
    the versions are exactly 1 to the newest one, each after the first made by
    one change that expected its predecessor, with the digest of its payload,
    votes belong to an existing request at its revision and digest, one per
    person and one per user, at most one live vote while a request is open and
    at most two afterwards, and commitments and results are recorded only where
    the state allows. *)
Theorem tables_consistent g0 os g : migrated g0 → gsteps g0 os g → schema g.
Proof using. apply gsteps_schema. Qed.

(** C24. The store refines the protocol of a security change: whatever the
    operations and their order, what is in force and in flight moves only from
    nothing to begun, to committed, to activated and back to nothing; the active
    version advances by exactly one on activation and never otherwise. *)
Theorem change_refines_protocol g0 os g o : migrated g0 → gsteps g0 os g → allowed g o →
  rtc protocol_step (1, None) (in_flight g) ∧ protocol_step (in_flight g) (in_flight (gstep g o)).
Proof using.
  intros M Hs Ha. pose proof (gsteps_schema _ _ _ M Hs) as S. split; [|by apply gstep_schema].
  clear o Ha. induction Hs as [|os g o Hs IH Ha].
  - unfold in_flight. rewrite (mg_policy _ M). constructor.
  - pose proof (gsteps_schema _ _ _ M Hs) as S'. eapply rtc_r; [by apply IH|]. by apply gstep_schema.
Qed.

(** C5. The active policy version changes only by the activation of a change
    that is applying and committed, whose approved bytes have the approved
    digest, and at that moment two different people other than the requester
    have a live vote for it, under accounts that are enabled, hold the approver
    role (or the nomination of a bootstrap) and have not had a credential
    changed since the vote; requester and applier are entitled officers too. *)
Theorem activation_needs_quorum g0 os g o : migrated g0 → gsteps g0 os g → allowed g o →
  pl_active (gv_policy (gstep g o)) ≠ pl_active (gv_policy g) →
  ∃ c p clk qclk stamp r, o = OActivate c p clk qclk stamp ∧ gv_changes g !! c_ID c = Some r ∧
    cr_state r = ChApplying ∧ cr_commit r ≠ "" ∧ SecurityDigest (c_ApprovedBytes c) = c_Digest c ∧
    pl_active (gv_policy (gstep g o)) = c_ExpectedVersion c + 1 ∧ applier_entitled g c ∧
    entitled g c (c_RequesterID c) (c_RequesterPersonID c) (c_RequesterGeneration c) RoleSecurityOfficer ∧ two_votes g c.
Proof using.
  intros M Hsteps Ha. pose proof (gsteps_schema _ _ _ M Hsteps) as S. unfold gstep.
  destruct (gtry g o) as [g'|] eqn:H; [|done]. cbn. intros Hne. destruct (sharp o) eqn:Hs.
  2:{ destruct Hne. apply (gtry_mild _ _ _ S Hs H). }
  destruct o as [| |c ns session proof clk|c a session proof clk| | | |c policy intent clk qclk| |c p clk qclk stamp|id reference| | | | | | |];
    try discriminate Hs; simpl in H, Ha.
  - apply create_inv in H as [C _]. destruct Hne. apply C.
  - apply approve_inv in H as [(r & w & A) _]. destruct Hne. by rewrite (av_policy _ _ _ _ _ _ A).
  - apply begin_inv in H as [r B]; try done. destruct Hne. by rewrite (bg_policy _ _ _ _ B).
  - apply activate_inv in H as [->|[r A]]; try done. destruct Ha as (r0 & Hr0 & _ & _ & _ & _ & He & Hd & Hb).
    pose proof (at_row _ _ _ _ A) as Hr. simplify_eq. exists c, p, clk, qclk, stamp, r0. split; [done|].
    destruct A as [? Hst ? ? ? ? Hf (g1 & _ & ->)]. split_and!; try done; [|by cbn; rewrite He].
    destruct (ro_begun _ (sc_rows _ S _ _ Hr0)) as [Hdig _]; [by rewrite Hst|congruence].
  - apply finish_inv in H as [r F]; [|done]. destruct Hne. destruct (fn_policy _ _ _ _ F) as (s & _ & ->). by rewrite (fn_flight _ _ _ _ F).
Qed.

(** C25. A vote that is lost blocks its change for good: once an approver of an
    approved change has a credential changed, the change never begins, however
    the other operations follow; a new request is needed. *)
Theorem lost_vote_blocks g0 os g id r person w u f stamp os' g' : migrated g0 → gsteps g0 os g →
  gv_changes g !! id = Some r → cr_state r = ChApproved →
  gv_votes g !! (id, cr_revision r, person) = Some w → vt_invalidated w = None →
  ac_users (gv_accounts g) !! vt_user w = Some u → credentials u ≠ credentials (f u) →
  gsteps (gstep g (OUser (vt_user w) f stamp)) os' g' →
  ∃ r', gv_changes g' !! id = Some r' ∧ cr_state r' ≠ ChApplying ∧ cr_state r' ≠ ChApplied.
Proof using.
  intros M Hs Hr Hst Hw Hl Hu Hc Hs'. pose proof (gsteps_schema _ _ _ M Hs) as S.
  set (g1 := gstep g (OUser (vt_user w) f stamp)) in *. pose proof (update_user_faded (vt_user w) f stamp g) as Fd.
  assert (S1 : schema g1) by by apply gstep_schema.
  assert (B : blocked g1 id).
  { exists r. unfold g1, gstep. cbn. rewrite (fd_changes _ _ Fd), Hst. split_and!; try done.
    destruct (update_user_votes _ _ stamp _ _ _ _ Hu Hc Hw eq_refl) as (w' & Hw' & Hl').
    pose proof (live_votes_lt _ _ _ _ _ _ _ (fd_votes _ _ Fd) Hw Hl Hw' Hl') as Hlt.
    pose proof (sc_count _ S _ _ Hr) as Hcount. rewrite Hst in Hcount. cbn in Hcount. lia. }
  destruct (gsteps_blocked _ _ _ _ S1 B Hs') as [(r' & Hr' & Hb & _) _]. exists r'. split; [done|].
  split; intros E; by rewrite E in Hb.
Qed.

(** A step-up proof authorizes at most one act, the one it was issued for:
    in any run, no two successful operations used the same proof, and each was
    issued in the run to the same user and session for the same action and
    digest, less than five minutes before. *)
Theorem stepup_once g0 os u i : gv_proofs g0 = ∅ → ledger g0 os = (u, i) →
  NoDup (us_hash <$> u) ∧
  ∀ x, x ∈ u → ∃ y, y ∈ i ∧ us_hash y = us_hash x ∧ us_user y = us_user x ∧ us_session y = us_session x ∧
    us_action y = us_action x ∧ us_digest y = us_digest x ∧ us_at y ≤ us_at x < us_at y + 300.
Proof using.
  intros H0 E. pose proof (ledger_spec os g0) as H. rewrite E in H. destruct H as [HN HU]. split; [done|].
  intros x Hx. destruct (HU x Hx) as [(r & Hr & _)|[_ ?]]; [|done]. by rewrite H0, lookup_empty in Hr.
Qed.

(** ** A run *)

(** [allowed], decided. *)
Definition snapshotb (g : Gov) (c : SecurityChange) : bool :=
  match gv_changes g !! c_ID c with
  | None => false
  | Some r => (c_Revision c =? cr_revision r) && bool_decide (c_RequesterID c = cr_requester r)
      && bool_decide (c_RequesterPersonID c = cr_requesterPerson r) && (c_RequesterGeneration c =? cr_requesterGeneration r)
      && (c_ExpectedVersion c =? cr_expectedVersion r) && bool_decide (c_Digest c = cr_digest r)
      && bool_decide (c_ApprovedBytes c = cr_payload r)
  end.
Definition allowedb (g : Gov) (o : gop) : bool :=
  match o with
  | OCreate c _ _ _ _ => negb (bool_decide (c_ID c = ""))
  | OApprove c _ _ _ _ | OClaim c _ _ _ _ _ _ | OBegin c _ _ _ _ | OActivate c _ _ _ _ => snapshotb g c
  | OConfirm _ _ reference => negb (bool_decide (reference = ""))
  | _ => true
  end.

Lemma snapshotb_ok g c : snapshotb g c = true → snapshot g c.
Proof using.
  unfold snapshotb, snapshot. destruct (gv_changes g !! c_ID c) as [r|]; [|done]. intros H. bool_hyps. z_hyps.
  exists r. by split_and!.
Qed.
Lemma allowedb_ok g o : allowedb g o = true → allowed g o.
Proof using. destruct o; simpl; try done; try apply snapshotb_ok; intros H; by bool_hyps. Qed.

Definition grun (g : Gov) (os : list gop) : Gov := foldl gstep g os.
Fixpoint grun_allowed (g : Gov) (os : list gop) : bool :=
  match os with
  | [] => true
  | o :: t => allowedb g o && grun_allowed (gstep g o) t
  end.

Lemma grun_gsteps os : ∀ g0 pre g, gsteps g0 pre g → grun_allowed g os = true → gsteps g0 (rev os ++ pre) (grun g os).
Proof using.
  induction os as [|o os IH]; intros g0 pre g Hs H; simpl in *; [done|]. bool_hyps.
  rewrite <- app_assoc. apply IH; [|done]. constructor; [done|]. by apply allowedb_ok.
Qed.

End protocol.

(** ** Witnesses: a policy change from request to result *)

Definition sd_time : Time := unix_epoch + 1000 * Second.
Definition sd_clk (_ : nat) : Time := sd_time.
Definition sd_payload : SecurityChangePayload := mkPayload "policy" None [] None None None None [] None.
Definition sd_proposal (raw : string) : option SecurityChangePayload :=
  if bool_decide (raw = "bytes") then Some sd_payload else None.
Definition sd_policy : AuditPolicy := mkAuditPolicy "enhanced" ["olga"] [] 600 24 "dest" "cred" ["k1"] "".
Definition sd_json : JSON :=
  mkJSON (fun _ => Some sd_payload) (fun _ => None) (fun _ => Some sd_policy) (fun _ => "policy") (fun _ => "") (fun _ _ _ => "").
Definition sd_user (id : string) : User := 
  mkUser id id "" "hash" "viewer" "local" "" "" "" None true (Some "s") true 3 false 7 0 [] [] ("p:" +:+ id) None false
    None 0 None None None None None None true None "active" sd_time sd_time.
Definition sd_people : list (string * string) :=
  [("olga", RoleSecurityOfficer); ("ana", RoleSecurityApprover); ("bo", RoleSecurityApprover)].
Definition sd_accounts : Accounts :=
  mkAccounts (list_to_map ((fun x => (x.1, sd_user x.1)) <$> sd_people))
    (list_to_map ((fun x => (x.1, mkLink ("p:" +:+ x.1) "")) <$> sd_people)) ∅
    (list_to_map ((fun x => (x, "")) <$> sd_people)) ∅
    (list_to_map ((fun x => ("s:" +:+ x.1, mkSessionRow x.1 "web" sd_time sd_time None None "" "" None None "")) <$> sd_people))
    ∅ ∅ ∅ ∅ ∅ [] ∅ ∅.
Definition sd_initial : Gov :=
  mkGov ∅ ∅ ∅ ∅ (mkPolicyRow 1 PhStandard None "") {[ 1 := (initialStandardPolicy, "", "") ]} ∅ ∅ sd_accounts.

Definition sd_digest : string := SecurityDigest "bytes".
Definition sd_change : SecurityChange :=
  mkChange "chg" 1 "olga" "p:olga" "olga" "p:olga" 7 7 1 sd_digest "audit" "raw" "bytes" "requested"
    sd_time (sd_time + Hour) [] "" "" "".
Definition sd_approval (user : string) : SecurityApproval := mkApproval user ("p:" +:+ user) "" sd_time 7 None.
Definition sd_handle (rnd : string) : string := string_of_bytes (hex_encode (bytes rnd)).

Definition sd_vote (user rnd : string) : list gop :=
  [OIssue user ("s:" +:+ user) ActionApprove sd_digest sd_time (Some rnd);
   OApprove sd_change (sd_approval user) ("s:" +:+ user) (sd_handle rnd) sd_clk].
(** Requested and approved, *)
Definition sd_approve : list gop :=
  [OIssue "olga" "s:olga" ActionRequest sd_digest sd_time (Some "r1");
   OCreate sd_change [] "s:olga" (sd_handle "r1") sd_clk] ++ sd_vote "ana" "r2" ++ sd_vote "bo" "r3".
(** begun and committed, *)
Definition sd_begin : list gop :=
  [OIssue "olga" "s:olga" ActionApply sd_digest sd_time (Some "r4");
   OClaim sd_change "olga" "p:olga" 7 "s:olga" (sd_handle "r4") sd_clk;
   OBegin sd_change sd_policy "intent" sd_clk sd_clk; OCommit "chg" "commit"].
(** activated and finished. *)
Definition sd_activate : gop := OActivate sd_change sd_payload sd_clk sd_clk sd_time.
Definition sd_finish : list gop := [sd_activate; OFinish "chg" "result"].

Abbreviation sd_run := (grun sd_json sd_proposal sd_initial) (only parsing).

Lemma sd_migrated : migrated sd_initial.
Proof. by split. Defined.

Lemma sd_steps os : grun_allowed sd_json sd_proposal sd_initial os = true →
  gsteps sd_json sd_proposal sd_initial (rev os ++ []) (sd_run os).
Proof. apply grun_gsteps. constructor. Defined.

Lemma tables_consistent_witness :
  schema (sd_run (sd_approve ++ sd_begin ++ sd_finish)) ∧
  in_flight (sd_run (sd_approve ++ sd_begin ++ sd_finish)) = (2, None) ∧
  cr_state <$> gv_changes (sd_run (sd_approve ++ sd_begin ++ sd_finish)) !! "chg" = Some ChApplied.
Proof.
  split; [|split; vm_compute; reflexivity].
  apply (tables_consistent sd_json sd_proposal sd_initial (rev (sd_approve ++ sd_begin ++ sd_finish) ++ [])).
  - apply sd_migrated.
  - apply sd_steps. vm_compute. reflexivity.
Defined.

Lemma change_refines_protocol_witness :
  rtc protocol_step (1, None) (1, Some ("chg", Committed)) ∧
  protocol_step (1, Some ("chg", Committed)) (2, Some ("chg", Activated)).
Proof.
  destruct (change_refines_protocol sd_json sd_proposal sd_initial (rev (sd_approve ++ sd_begin) ++ [])
              (sd_run (sd_approve ++ sd_begin)) sd_activate) as [H1 H2].
  - apply sd_migrated.
  - apply sd_steps. vm_compute. reflexivity.
  - apply allowedb_ok. vm_compute. reflexivity.
  - vm_compute in H1, H2. split; [exact H1|exact H2].
Defined.

Lemma activation_needs_quorum_witness : two_votes sd_proposal (sd_run (sd_approve ++ sd_begin)) sd_change.
Proof.
  destruct (activation_needs_quorum sd_json sd_proposal sd_initial (rev (sd_approve ++ sd_begin) ++ [])
              (sd_run (sd_approve ++ sd_begin)) sd_activate) as (c & p & clk & qclk & stamp & r & E & H).
  - apply sd_migrated.
  - apply sd_steps. vm_compute. reflexivity.
  - apply allowedb_ok. vm_compute. reflexivity.
  - vm_compute. discriminate.
  - injection E as <- _ _ _ _. apply H.
Defined.

Definition sd_reset (u : User) : User := user_factor u None false (u_TokenGeneration u + 1) 0 sd_time.

Lemma lost_vote_blocks_witness :
  ∃ r, gv_changes (grun sd_json sd_proposal (gstep sd_json sd_proposal (sd_run sd_approve) (OUser "ana" sd_reset sd_time)) sd_begin) !! "chg"
       = Some r ∧ cr_state r ≠ ChApplying ∧ cr_state r ≠ ChApplied.
Proof.
  set (g := sd_run sd_approve).
  destruct (gv_changes g !! "chg") as [r|] eqn:Hr; [|vm_compute in Hr; discriminate Hr].
  destruct (gv_votes g !! ("chg", cr_revision r, "p:ana")) as [w|] eqn:Hw.
  2:{ vm_compute in Hr. injection Hr as <-. vm_compute in Hw. discriminate Hw. }
  assert (Er : cr_state r = ChApproved) by (vm_compute in Hr; by injection Hr as <-).
  assert (Ew : vt_user w = "ana" ∧ vt_invalidated w = None).
  { vm_compute in Hr. injection Hr as <-. vm_compute in Hw. by injection Hw as <-. }
  destruct Ew as [Eu El].
  destruct (ac_users (gv_accounts g) !! "ana") as [u|] eqn:Hu; [|vm_compute in Hu; discriminate Hu].
  apply (lost_vote_blocks sd_json sd_proposal sd_initial (rev sd_approve ++ []) g "chg" r "p:ana" w u sd_reset sd_time
           (rev sd_begin ++ [])).
  - apply sd_migrated.
  - apply sd_steps. vm_compute. reflexivity.
  - exact Hr.
  - exact Er.
  - exact Hw.
  - exact El.
  - rewrite Eu. exact Hu.
  - vm_compute in Hu. injection Hu as <-. vm_compute. discriminate.
  - rewrite Eu. apply grun_gsteps; [constructor|]. vm_compute. reflexivity.
Defined.

Lemma stepup_once_witness :
  NoDup (us_hash <$> (ledger sd_json sd_proposal sd_initial (sd_approve ++ sd_begin)).1) ∧
  length (ledger sd_json sd_proposal sd_initial (sd_approve ++ sd_begin)).1 = 4%nat.
Proof.
  split; [|vm_compute; reflexivity].
  destruct (ledger sd_json sd_proposal sd_initial (sd_approve ++ sd_begin)) as [u i] eqn:E.
  apply (stepup_once sd_json sd_proposal sd_initial (sd_approve ++ sd_begin) u i); [reflexivity|exact E].
Defined.
