(* ===== verification/Transition.v ===== *)
(** The application of a security change (hub/internal/authorization/transition.go):
    [Apply], [ReconcileChange] and [Startup] as programs of calls to the store,
    the enrollment marker and the evidence service.

    A program is a tree of calls.  Requests run concurrently and the hub can stop
    at any call, so a run interleaves the calls of any number of programs with
    each other, with the other operations of the store, and with crashes.  A call
    is one transaction, one read or one file replacement; reads that a check of
    [Governance] needs together are one call.  What the database, the file system,
    the clock and the evidence service answer is the input [Oracle] of a call.

    [w_written] and [w_preserved] are not state of the program: they remember
    which markers were put in place and which records the evidence service
    acknowledged. *)

From stdpp Require Import sorting.
From S2P Require Import Prelude Prog Codec Filepath Lockout Model Account Session Governance AuditRecord SecurityStore SecurityProtocol.

(** ** Calls and programs *)

Inductive call : Type → Type :=
| CRead : call DB
| CNow : call Time
| CClaim (c : SecurityChange) (user person : string) (revision : Z) (session proof : string) : call (result unit)
| CBegin (c : SecurityChange) (policy : AuditPolicy) (intent : string) : call (result unit)
| CRecover : call (result unit)
| CResume (id : string) : call (result unit)
| CCommit (id reference : string) : call (result unit)
| CActivate (c : SecurityChange) (p : SecurityChangePayload) : call (result unit)
| CFinish (id reference : string) : call (result unit)
| CEvidence (id kind raw : string) : call (result string)
| CConfirm (id kind reference : string) : call (result unit)
| CInstall (key : string) : call (result unit)
| CReadMarker : call markerRead
| CReplaceMarker (m : EnrollmentMarker) : call (result unit)
| CAnchor (installation : string) : call anchorRead
| CReady (p : AuditPolicy) : call (result unit)
| CQualify (p : AuditPolicy) : call (result unit)
| CPreserve (raw : string) : call (result string).

Abbreviation prog := (Prog.prog call).
Local Open Scope prog_scope.

(** encoding/json on envelopes. *)
Record EnvelopeJSON := mkEnvelopeJSON {
  ej_marshal : Envelope → string;
  ej_tokens : string → option (list token);
  ej_unmarshal : string → option Envelope;
  ej_marshalActor : Actor → string;
  ej_marshalBinding : option ExecutionBinding → option Details → string;
}.

Section transition.
Context (J : JSON) (proposal : string → option SecurityChangePayload) (payload : string → option string)
  (EJ : EnvelopeJSON) (path : string) (cfg : TransitionConfig).

(** ** The programs *)

(** The configuration with the marker and the anchor as they were answered. *)
Definition answered (m : markerRead) (a : anchorRead) : TransitionConfig :=
  mkConfig (match cf_Anchor cfg with Some _ => Some (fun _ => a) | None => None end) (cf_InstallationID cfg) m
    (cf_ResolveSecret cfg) (cf_PrepareChange cfg).
Definition no_evidence : bool := match cf_Anchor cfg with Some _ => false | None => true end.

Definition getChange (id : string) : prog (result SecurityChange) := db <- call_ CRead; Ret (db_change db id).
Definition getState : prog (result PolicyState) := db <- call_ CRead; Ret (GetPolicyState J db).
Definition getVersion (v : Z) : prog (result PolicyVersion) := db <- call_ CRead; Ret (GetPolicyVersion J db v).
Definition getUser (id : string) : prog (result User) := db <- call_ CRead; Ret (db_user db id).
Definition authority (c : SecurityChange) (user : string) : prog (result EffectiveCapabilities) :=
  db <- call_ CRead; now <- call_ CNow; Ret (AuthorityForChange J db now c user ActionApply).

(** [checkPendingRecovery]: the marker, the anchor and the previous change are
    read in this order; reads the code skips have no effect. *)
Definition checkPending (c : SecurityChange) (state : PolicyState) (old : PolicyVersion) : prog (result unit) :=
  m <- call_ CReadMarker;
  a <- call_ (CAnchor (cf_InstallationID cfg));
  db <- call_ CRead;
  Ret (checkPendingRecovery J db c state old (answered m a)).

Definition CheckAnchor : prog (result unit) :=
  db <- call_ CRead;
  m <- call_ CReadMarker;
  a <- call_ (CAnchor (cf_InstallationID cfg));
  match ValidateAnchor J db (answered m a) with
  | Ok _ => Ret (Ok tt)
  | Err e => _ <- call_ CRecover; Ret (Err e)
  end.

(** [writeMarker]: the marker in place is read and compared, then replaced. *)
Definition writeMarkerFile (m : EnrollmentMarker) : prog (result unit) :=
  fail! bool_decide (path = ""), ErrNotReady;
  old <- call_ CReadMarker;
  _ <-? Ret (writeMarker old m (mkMarkerIO true true true)).2;
  call_ (CReplaceMarker m).

(** The record [archive] writes. *)
Definition subjectOf (u : User) : string := if bool_decide (u_ExternalID u = "") then u_ID u else u_ExternalID u.

Definition evidenceRecord (c : SecurityChange) (kind : string) (policy : PolicyVersion) (u requester : User) (now : Time)
    : Envelope :=
  let anchor := bool_decide (kind = PolicyAnchorType) in
  let details := mkDetails None None (if anchor then cf_InstallationID cfg else "")
    (Some (mkActor (u_ID requester) (c_RequesterPersonID c) (u_Username requester) (u_AuthProvider requester)
             (subjectOf requester)))
    (if anchor then cf_InstallationID cfg else c_ID c) (c_ID c) (c_Digest c) (c_ExpectedVersion c)
    (u64 (c_ExpectedVersion c + 1)) "" (c_Reason c) kind None [] []
    (if anchor then "" else c_ApprovedBytes c)
    ((fun a => mkApprovalEvidence (a_UserID a) (a_PersonID a) (a_ProofSHA256 a) (a_ApprovedAt a)) <$> c_Approvals c) in
  mkEnvelope 1 (c_ID c +:+ "-" +:+ kind) kind
    (mkActor (u_ID u) (c_ApplierPersonID c) (u_Username u) (u_AuthProvider u) (subjectOf u)) None
    (pv_Version policy) (pv_SHA256 policy) now "" [] (Some details).

Definition archive (c : SecurityChange) (kind : string) (policy : PolicyVersion) : prog (result string) :=
  u <-? getUser (c_ApplierID c);
  requester <-? getUser (c_RequesterID c);
  now <- call_ CNow;
  raw <-? call_ (CEvidence (c_ID c) kind (ej_marshal EJ (evidenceRecord c kind policy u requester now)));
  _ <-? Ret (ExpectedFor (ej_tokens EJ) (ej_unmarshal EJ) (ej_marshalActor EJ) (ej_marshalBinding EJ) raw);
  reference <-? call_ (CPreserve raw);
  fail! bool_decide (reference = ""), ErrRecovery;
  _ <-? call_ (CConfirm (c_ID c) kind reference);
  Ret (Ok reference).

(** The steps of [ReconcileChange] before the activation. *)
Definition activateProg (c : SecurityChange) (old pending : PolicyVersion) (p : SecurityChangePayload) : prog (result unit) :=
  _ <-? archive c PolicyIntent old;
  _ <-? (if bool_decide (ap_Profile (pv_Policy pending) = "enhanced") then call_ (CReady (pv_Policy pending)) else Ret (Ok tt));
  commit <-? archive c PolicyCommit old;
  _ <-? call_ (CCommit (c_ID c) commit);
  _ <-? writeMarkerFile (mkMarker (cf_InstallationID cfg) (pv_Version pending) (pv_SHA256 pending));
  _ <-? archive c PolicyAnchorType pending;
  call_ (CActivate c p).

Definition ReconcileChange (id : string) : prog (result SecurityChange) :=
  c <-? getChange id;
  if bool_decide (c_State c = "applied") then Ret (Ok c)
  else
    fail! negb (bool_decide (c_State c = "applying")) || no_evidence, ErrRecovery;
    read <- getState;
    match read with
    | Ok (mkPolicyState active (Some pending) phase previous change as state) =>
        fail! negb (bool_decide (change = id)), ErrRecovery;
        old <-? getVersion (c_ExpectedVersion c);
        checked <- checkPending c state old;
        match checked with
        | Err e => _ <- call_ CRecover; Ret (Err e)
        | Ok _ =>
            _ <-? (if bool_decide (phase = "recovery_required") then call_ (CResume id) else Ret (Ok tt));
            p <-? Ret (DecodeChange J (c_Payload c));
            p' <-? Ret (prepareTransitionPayload p cfg);
            _ <-? (if pv_Version active =? c_ExpectedVersion c then activateProg c old pending p' else Ret (Ok tt));
            reference <-? archive c PolicyResult pending;
            _ <-? call_ (CFinish id reference);
            getChange id
        end
    | _ => Ret (Err ErrRecovery)
    end.

Definition Apply (id user session proof : string) : prog (result SecurityChange) :=
  c <-? getChange id;
  _ <-? authority c user;
  if bool_decide (c_State c = "applied") then Ret (Ok c)
  else
    fail! bool_decide (c_State c = "applying"), ErrText "transition applying; reconciliation required";
    _ <-? authority c user;
    db <- call_ CRead; now <- call_ CNow;
    _ <-? Ret (ValidateQuorum J db now c);
    applier <-? authority c user;
    applierUser <-? getUser user;
    _ <-? call_ (CClaim c user (e_PersonID applier) (u_SecurityRevision applierUser) session proof);
    c' <-? getChange id;
    state <-? getState;
    fail! negb (pv_Version (ps_Active state) =? c_ExpectedVersion c'), ErrSecurityConflict;
    fail! bool_decide (is_Some (ps_Pending state))
          || negb (bool_decide (ps_State state ∈ ["standard"; "enhanced"; "setup_pending"])), ErrSecurityConflict;
    p <-? Ret (DecodeChange J (c_Payload c'));
    _ <-? Ret (prepareTransitionPayload p cfg);
    let candidate := default (pv_Policy (ps_Active state)) (cp_Policy p) in
    fail! no_evidence || bool_decide (path = "") || negb (ValidID (cf_InstallationID cfg)), ErrNotReady;
    _ <-? (if bool_decide (ap_Profile candidate = "enhanced")
           then _ <-? call_ (CReady candidate); call_ (CQualify candidate) else Ret (Ok tt));
    _ <-? (if bool_decide (ap_Profile (pv_Policy (ps_Active state)) = "enhanced") then CheckAnchor else Ret (Ok tt));
    intent <-? archive c' PolicyIntent (ps_Active state);
    _ <-? call_ (CBegin c' candidate intent);
    ReconcileChange id.

Definition ConfigureExecutionPolicy : prog (result unit) :=
  if bool_decide (cf_InstallationID cfg = "") && bool_decide (path = "") then Ret (Ok tt)
  else
    fail! negb (ValidID (cf_InstallationID cfg)) || bool_decide (path = ""), ErrRecovery;
    call_ (CInstall (cf_InstallationID cfg +:+ String Ascii.zero (Filepath.Clean path))).

Definition Startup : prog (result unit) :=
  _ <-? ConfigureExecutionPolicy;
  state <-? getState;
  _ <-? (if bool_decide (is_Some (ps_Pending state)) && negb (bool_decide (ps_PendingChange state = ""))
         then _ <-? ReconcileChange (ps_PendingChange state); Ret (Ok tt) else Ret (Ok tt));
  CheckAnchor.

(** The call of [NewServer]: a start that fails closes access. *)
Definition startServer : prog (result unit) :=
  started <- Startup;
  match started with Ok _ => Ret (Ok tt) | Err _ => call_ CRecover end.

(** ** The store as the checks read it *)

Definition phase_name (s : PolicyPhase) : string :=
  match s with
  | PhStandard => "standard" | PhSetupPending => "setup_pending" | PhEnhanced => "enhanced"
  | PhApplying => "applying" | PhRecovery => "recovery_required"
  end.

Definition no_rows {A} (o : option A) : result A := match o with Some a => Ok a | None => Err ErrNoRows end.

Definition role_le (x y : string) : Prop := String.leb x y = true.
#[local] Instance role_le_dec x y : Decision (role_le x y).
Proof using. unfold role_le. apply _. Defined.

Definition view (g : Gov) : DB :=
  mkDB (fun user => no_rows (ac_users (gv_accounts g) !! user))
    (Ok (accountManagementPolicyStrict g))
    (fun user => Ok (merge_sort role_le (snd ∘ fst <$> filter (fun kv : (string * string) * string => kv.1.1 = user)
                                           (map_to_list (ac_roles (gv_accounts g))))))
    (fun user => no_rows (lk_person <$> ac_links (gv_accounts g) !! user))
    (GetSecurityChange payload g)
    (fun v => no_rows (gv_versions g !! v))
    (Ok (merge_sort Z.le (fst <$> map_to_list (gv_versions g))))
    (Ok (pl_active (gv_policy g), phase_name (pl_state (gv_policy g)), pl_pending (gv_policy g), pl_change (gv_policy g))).

(** A database that answers nothing. *)
Definition broken (e : goerr) : DB :=
  mkDB (fun _ => Err e) (Err e) (fun _ => Err e) (fun _ => Err e) (fun _ => Err e) (fun _ => Err e) (Err e) (Err e).

(** ** Performing a call *)

Record World := mkWorld {
  w_gov : Gov;
  w_marker : markerRead;
  w_validator : option string;             (* the key of the validator installed *)
  w_written : list EnrollmentMarker;
  w_preserved : list string;
  w_threads : list (option (prog unit));   (* [None] when ended *)
}.
Definition with_gov (w : World) g := mkWorld g (w_marker w) (w_validator w) (w_written w) (w_preserved w) (w_threads w).
Definition with_marker (w : World) m :=
  mkWorld (w_gov w) (MarkerOk m) (w_validator w) (m :: w_written w) (w_preserved w) (w_threads w).
Definition with_validator (w : World) k := mkWorld (w_gov w) (w_marker w) k (w_written w) (w_preserved w) (w_threads w).
Definition with_preserved (w : World) raw :=
  mkWorld (w_gov w) (w_marker w) (w_validator w) (w_written w) (raw :: w_preserved w) (w_threads w).
Definition with_threads (w : World) ts := mkWorld (w_gov w) (w_marker w) (w_validator w) (w_written w) (w_preserved w) ts.

Record Oracle := mkOracle {
  o_fail : option (goerr * bool);          (* the database fails, before or after it committed *)
  o_clk : nat → Time; o_qclk : nat → Time; (* the clock readings of a transaction *)
  o_stamp : Time;                          (* what SQL stamps *)
  o_io : marker_io;
  o_marker : option goerr;                 (* reading the marker fails *)
  o_anchor : anchorRead;
  o_ready : result unit;
  o_preserve : result string;              (* the reference of a receipt *)
}.

(** A transaction of the store: its state after, and whether it succeeded. *)
Definition transact (o : Oracle) (w : World) (op : gop) : World * result unit :=
  match o_fail o with
  | Some (e, true) => (with_gov w (gstep J proposal (w_gov w) op), Err e)
  | Some (e, false) => (w, Err e)
  | None => match gtry J proposal (w_gov w) op with
            | Ok g => (with_gov w g, Ok tt)
            | Err e => (w, Err e)
            end
  end.

Definition install (w : World) (key : string) : World * result unit :=
  if bool_decide (key = "") then (w, Err ErrPolicyIntegrity)
  else match w_validator w with
       | Some k => (w, if bool_decide (k = key) then Ok tt else Err ErrPolicyIntegrity)
       | None => (with_validator w (Some key), Ok tt)
       end.

Definition perform (o : Oracle) (w : World) {B} (c : call B) : World * B :=
  match c in call B return World * B with
  | CRead => (w, match o_fail o with Some (e, _) => broken e | None => view (w_gov w) end)
  | CNow => (w, o_clk o 0%nat)
  | CClaim c user person revision session proof => transact o w (OClaim c user person revision session proof (o_clk o))
  | CBegin c policy intent => transact o w (OBegin c policy intent (o_clk o) (o_qclk o))
  | CRecover => transact o w ORecover
  | CResume id => transact o w (OResume id)
  | CCommit id reference => transact o w (OCommit id reference)
  | CActivate c p => transact o w (OActivate c p (o_clk o) (o_qclk o) (o_stamp o))
  | CFinish id reference => transact o w (OFinish id reference)
  | CEvidence id kind raw =>
      match o_fail o with
      | Some (e, true) => (with_gov w (gstep J proposal (w_gov w) (OEvidence id kind raw)), Err e)
      | Some (e, false) => (w, Err e)
      | None => let '(g, r) := SecurityEvidenceBytes (w_gov w) id kind raw in
                (with_gov w g, stored <-! r; Ok (stored : string * string).1)
      end
  | CConfirm id kind reference => transact o w (OConfirm id kind reference)
  | CInstall key => install w key
  | CReadMarker => (w, if bool_decide (path = "") then MarkerAbsent
                       else match o_marker o with Some _ => MarkerError | None => w_marker w end)
  | CReplaceMarker m =>
      if negb (mo_temp (o_io o) && mo_rename (o_io o)) then (w, Err errMarkerWrite)
      else (with_marker w m, if mo_sync (o_io o) then Ok tt else Err errMarkerWrite)
  | CAnchor _ => (w, o_anchor o)
  | CReady _ | CQualify _ => (w, o_ready o)
  | CPreserve raw => (match o_preserve o with Ok _ => with_preserved w raw | Err _ => w end, o_preserve o)
  end.

(** One program alone: it always ends. *)
Fixpoint run {A} (os : nat → Oracle) (w : World) (p : prog A) : World * A :=
  match p with
  | Ret a => (w, a)
  | Call c k => let '(w', b) := perform (os 0%nat) w c in run (fun n => os (S n)) w' (k b)
  end.

(** ** Runs of the hub *)

Inductive request :=
| RApply (id user session proof : string)
| RReconcile (id : string)
| RStart.
Definition handler (r : request) : prog unit :=
  match r with
  | RApply id user session proof => discard (Apply id user session proof)
  | RReconcile id => discard (ReconcileChange id)
  | RStart => discard startServer
  end.

(** The operations of the store that transition.go alone calls. *)
Definition reserved (op : gop) : bool :=
  match op with
  | OBegin _ _ _ _ _ | OCommit _ _ | OActivate _ _ _ _ _ | OFinish _ _ | OResume _ | OEvidence _ _ _ | OConfirm _ _ _
  | OClaim _ _ _ _ _ _ _ => true
  | _ => false
  end.

Inductive event :=
| EStart (r : request)
| ECall (i : nat) (o : Oracle)             (* the next call of program [i] *)
| EOther (op : gop)
| ECrash.

Definition wstep (w : World) (e : event) : World :=
  match e with
  | EStart r => with_threads w (w_threads w ++ [Some (handler r)])
  | ECall i o =>
      match w_threads w !! i with
      | Some (Some (Call c k)) =>
          let '(w', b) := perform o w c in with_threads w' (<[i := Some (k b)]> (w_threads w'))
      | _ => w
      end
  | EOther op => with_gov w (gstep J proposal (w_gov w) op)
  | ECrash => with_validator (with_threads w []) None
  end.

Definition possible (w : World) (e : event) : Prop :=
  match e with
  | EOther op => reserved op = false ∧ allowed (w_gov w) op
  | _ => True
  end.

Inductive wsteps (w0 : World) : World → Prop :=
| wsteps_nil : wsteps w0 w0
| wsteps_step w e : wsteps w0 w → possible w e → wsteps w0 (wstep w e).

(** ** What a run leaves behind *)

(** A record of the event was acknowledged by the evidence service and its
    reference recorded. *)
Definition archived (w : World) (id kind : string) : Prop :=
  ∃ rec ref, gv_evidence (w_gov w) !! (id, kind) = Some (rec, ref) ∧ ref ≠ "" ∧ rec ∈ w_preserved w.

(** Version [v] has its marker and the records of its change. *)
Definition backed (w : World) (v : Z) : Prop :=
  ∃ raw id, gv_versions (w_gov w) !! v = Some (raw, SecurityDigest raw, id) ∧
    mkMarker (cf_InstallationID cfg) v (SecurityDigest raw) ∈ w_written w ∧
    archived w id PolicyIntent ∧ archived w id PolicyCommit ∧ archived w id PolicyAnchorType.

(** Nothing of this is ever lost. *)
Record ext (w w' : World) : Prop := mkExt {
  ex_gov : extends (w_gov w) (w_gov w');
  ex_written : w_written w ⊆ w_written w';
  ex_preserved : w_preserved w ⊆ w_preserved w';
}.
#[local] Instance ext_po : PreOrder ext.
Proof using.
  split.
  - intros w. split; [reflexivity|done|done].
  - intros w1 w2 w3 [] []. split; by etransitivity.
Qed.

Lemma archived_ext w w' id kind : ext w w' → archived w id kind → archived w' id kind.
Proof using.
  intros X (rec & ref & He & Hn & Hp). destruct (xt_evidence _ _ (ex_gov _ _ X) _ _ _ He) as (ref' & He' & Hn').
  exists rec, ref'. split_and!; [done|auto|by apply X].
Qed.
Lemma backed_ext w w' v : ext w w' → backed w v → backed w' v.
Proof using.
  intros X (raw & id & Hv & Hm & H1 & H2 & H3). exists raw, id.
  split_and!; try by eapply archived_ext. { by eapply lookup_weaken, X. } by apply X.
Qed.

(** ** Calls that respect the protocol *)

Section invariant.
Context (g0 : Gov) (M : migrated g0).

Record inv (w : World) : Prop := mkInv {
  in_steps : ∃ os, gsteps J proposal g0 os (w_gov w);
  in_backed : 1 < pl_active (gv_policy (w_gov w)) → backed w (pl_active (gv_policy (w_gov w)));
}.

Lemma inv_schema w : inv w → schema (w_gov w).
Proof using M. intros [[os Hs] _]. by eapply gsteps_schema. Qed.

(** What a call needs before it is made. *)
Definition pre (w : World) {B} (c : call B) : Prop :=
  match c with
  | CClaim c _ _ _ _ _ | CBegin c _ _ => snapshot (w_gov w) c
  | CActivate c _ => snapshot (w_gov w) c ∧ backed w (next_version (c_ExpectedVersion c))
  | CConfirm _ _ reference => reference ≠ ""
  | _ => True
  end.

Definition activation_backed (w : World) (op : gop) : Prop :=
  match op with OActivate c _ _ _ _ => backed w (next_version (c_ExpectedVersion c)) | _ => True end.

(** Anything but the store changes only what is remembered. *)
Lemma same_gov w w' : inv w → w_gov w' = w_gov w → w_written w ⊆ w_written w' → w_preserved w ⊆ w_preserved w' → inv w' ∧ ext w w'.
Proof using.
  intros [Hs Hb] Hg Hw Hp. assert (X : ext w w') by (split; [by rewrite Hg|done|done]). split; [|done].
  split; rewrite Hg; [done|]. intros Ha. by eapply backed_ext, Hb.
Qed.

Lemma gov_ok w op g : inv w → allowed (w_gov w) op → activation_backed w op → gtry J proposal (w_gov w) op = Ok g →
  inv (with_gov w g) ∧ ext w (with_gov w g).
Proof using M.
  intros I Ha Hb H. pose proof (inv_schema w I) as S.
  assert (X : ext w (with_gov w g)) by (split; cbn; [by eapply gtry_extends|done|done]). split; [|done].
  destruct I as [[os Hs] Hback]. split; cbn.
  - exists (op :: os). replace g with (gstep J proposal (w_gov w) op) by (unfold gstep; by rewrite H). by constructor.
  - destruct (gtry_active _ _ _ _ _ S Ha H) as [E|(c & p & clk & qclk & stamp & -> & E)]; rewrite E; intros Hlt;
      [by eapply backed_ext, Hback|by eapply backed_ext].
Qed.

Lemma gstep_ok w op : inv w → allowed (w_gov w) op → activation_backed w op →
  inv (with_gov w (gstep J proposal (w_gov w) op)) ∧ ext w (with_gov w (gstep J proposal (w_gov w) op)).
Proof using M.
  intros I Ha Hb. unfold gstep. destruct (gtry J proposal (w_gov w) op) as [g|] eqn:E; [by apply (gov_ok w op)|]. cbn.
  by apply same_gov.
Qed.

Lemma transact_ok o w op : inv w → allowed (w_gov w) op → activation_backed w op →
  inv (transact o w op).1 ∧ ext w (transact o w op).1.
Proof using M.
  intros I Ha Hb. unfold transact. destruct (o_fail o) as [[e []]|]; [by apply gstep_ok|by split|].
  destruct (gtry J proposal (w_gov w) op) as [g|] eqn:E; [by apply (gov_ok w op)|by split].
Qed.

Lemma perform_ok o w {B} (c : call B) : inv w → pre w c → inv (perform o w c).1 ∧ ext w (perform o w c).1.
Proof using M.
  intros I Hp. destruct c; cbn in Hp |- *; try (by split); try (by apply transact_ok); try (by destruct Hp; apply transact_ok).
  - destruct (o_fail o) as [[e []]|]; [by apply gstep_ok|by split|].
    destruct (SecurityEvidenceBytes (w_gov w) id kind raw) as [g [x|e]] eqn:E; cbn.
    + apply (gov_ok w (OEvidence id kind raw)); try done. cbn. by rewrite E.
    + unfold SecurityEvidenceBytes in E. repeat case_match; simplify_eq. by apply same_gov.
  - unfold install. repeat case_match; try (by split). by apply same_gov.
  - case_match; [by split|]. apply same_gov; cbn; try done. set_solver.
  - case_match; [|by split]. apply same_gov; cbn; try done. set_solver.
Qed.

(** A program that makes every call in order, whatever others do in between, and
    ends in [Q]. *)
Fixpoint safe {A} (Q : World → A → Prop) (w : World) (p : prog A) : Prop :=
  match p with
  | Ret a => Q w a
  | Call c k => ∀ w1, ext w w1 → inv w1 → pre w1 c ∧ ∀ o, safe Q (perform o w1 c).1 (k (perform o w1 c).2)
  end.

Lemma safe_mono {A} (Q Q' : World → A → Prop) p : ∀ w, (∀ w' a, ext w w' → Q w' a → Q' w' a) → safe Q w p → safe Q' w p.
Proof using M.
  induction p as [a|B c k IH]; intros w HQ H; cbn in *; [by apply HQ|].
  intros w1 X I. destruct (H w1 X I) as [Hp Hk]. split; [done|]. intros o. apply IH; [|done].
  intros w' a X'. apply HQ. etransitivity; [exact X|]. etransitivity; [|exact X']. by apply perform_ok.
Qed.

Lemma safe_bind {A B} (Q : World → B → Prop) (p : prog A) f : ∀ w, safe (fun w' a => safe Q w' (f a)) w p → safe Q w (bind p f).
Proof using.
  induction p as [a|C c k IH]; intros w H; cbn in *; [done|].
  intros w1 X I. destruct (H w1 X I) as [Hp Hk]. split; [done|]. intros o. apply IH, Hk.
Qed.

Lemma safe_ext {A} (Q : World → A → Prop) p w w' : (∀ w1 w2 a, ext w1 w2 → Q w1 a → Q w2 a) → ext w w' → safe Q w p → safe Q w' p.
Proof using.
  intros HQ X. destruct p as [a|B c k]; cbn; [by apply HQ|]. intros H w1 X1. apply H. by etransitivity.
Qed.

(** Success satisfies [P]; errors are free. *)
Definition okp {A} (P : World → A → Prop) (w : World) (r : result A) : Prop := match r with Ok a => P w a | Err _ => True end.

Lemma safe_seq {A B} (P : World → A → Prop) (Q : World → B → Prop) p f w : safe (okp P) w p →
  (∀ w' a, ext w w' → P w' a → safe (okp Q) w' (f a)) → safe (okp Q) w (try_ p f).
Proof using M.
  intros Hp Hf. apply safe_bind. eapply safe_mono; [|exact Hp]. intros w' [a|e] X H; [by apply Hf|done].
Qed.

Lemma safe_call {A} (P : World → A → Prop) (c : call (result A)) w :
  (∀ w1, ext w w1 → inv w1 → pre w1 c ∧ ∀ o, okp P (perform o w1 c).1 (perform o w1 c).2) → safe (okp P) w (call_ c).
Proof using. intros H w1 X I. by apply H. Qed.

(** A read of the store. *)
Lemma safe_read {A} (P : World → A → Prop) (f : DB → result A) w : (∀ e, ∃ e', f (broken e) = Err e') →
  (∀ w1, ext w w1 → inv w1 → okp P w1 (f (view (w_gov w1)))) → safe (okp P) w (bind (call_ CRead) (fun db => Ret (f db))).
Proof using.
  intros He H w1 X I. split; [done|]. intros o. cbn. destruct (o_fail o) as [[e b]|]; [|by apply H].
  by destruct (He e) as [e' ->].
Qed.

(** A call with nothing to ensure, whose answer says nothing. *)
Lemma safe_free {A B} (Q : World → B → Prop) (c : call A) f w : (∀ w1, pre w1 c) →
  (∀ w' a, ext w w' → safe Q w' (f a)) → safe Q w (bind (call_ c) f).
Proof using M.
  intros Hp Hf. apply safe_bind. intros w1 X I. split; [done|]. intros o. cbn. apply Hf. etransitivity; [exact X|]. by apply perform_ok.
Qed.
Lemma safe_try_free {A B} (Q : World → B → Prop) (c : call (result A)) f w : (∀ w1, pre w1 c) →
  (∀ w' a, ext w w' → safe (okp Q) w' (f a)) → safe (okp Q) w (try_ (call_ c) f).
Proof using M. intros Hp Hf. apply safe_free; [done|]. intros w' [a|e] X; [by apply Hf|done]. Qed.

(** A decision without a call. *)
Lemma safe_pure {A B} (Q : World → B → Prop) (r : result A) f w : (∀ a, r = Ok a → safe (okp Q) w (f a)) →
  safe (okp Q) w (try_ (Ret r) f).
Proof using. intros H. destruct r; cbn; [by apply H|done]. Qed.

(** ** The programs are safe *)

Lemma getChange_safe id w : safe (okp (fun w' c => snapshot (w_gov w') c ∧ c_ID c = id)) w (getChange id).
Proof using.
  apply safe_read; [by eexists|]. intros w1 _ _. cbn. unfold GetSecurityChange.
  destruct (gv_changes (w_gov w1) !! id) as [r|] eqn:Hr; [|done]. unfold scanSecurityChange. case_match; [|done]. cbn.
  split; [|done]. exists r. by split_and!.
Qed.

(** The pending version was read from the table. *)
Definition stored (w : World) (p : PolicyVersion) : Prop :=
  ∃ raw sha id, gv_versions (w_gov w) !! pv_Version p = Some (raw, sha, id) ∧ decodePolicyVersion J (pv_Version p) raw sha id = Ok p.

Lemma stored_ext w w' p : ext w w' → stored w p → stored w' p.
Proof using. intros X (raw & sha & id & Hv & Hd). exists raw, sha, id. split; [|done]. by eapply lookup_weaken, X. Qed.

Lemma decode_version v raw sha id p : decodePolicyVersion J v raw sha id = Ok p →
  pv_Version p = v ∧ pv_RequestID p = id ∧ (sha ≠ "" → pv_SHA256 p = sha).
Proof using.
  unfold decodePolicyVersion. intros H. destruct (js_policy J raw) as [x|]; [|by guards_in H].
  case_bool_decide; [|]; guards_in H; by split_and!.
Qed.

Lemma getVersion_stored g v p : GetPolicyVersion J (view g) v = Ok p →
  ∃ raw sha id, gv_versions g !! pv_Version p = Some (raw, sha, id) ∧ decodePolicyVersion J (pv_Version p) raw sha id = Ok p.
Proof using.
  unfold GetPolicyVersion. cbn. destruct (gv_versions g !! v) as [[[raw sha] id]|] eqn:E; [|done]. cbn. intros H.
  destruct (decode_version _ _ _ _ _ H) as (<- & _). by exists raw, sha, id.
Qed.

Lemma getState_safe w : safe (okp (fun w' s => ∀ p, ps_Pending s = Some p → stored w' p)) w getState.
Proof using.
  apply safe_read; [by eexists|]. intros w1 _ _. unfold GetPolicyState. cbn -[view].
  change (db_stateRow (view (w_gov w1))) with (Ok (A := Z * string * option Z * string) (pl_active (gv_policy (w_gov w1)),
    phase_name (pl_state (gv_policy (w_gov w1))), pl_pending (gv_policy (w_gov w1)), pl_change (gv_policy (w_gov w1)))). cbn -[view].
  destruct (GetPolicyVersion J (view (w_gov w1)) (pl_active (gv_policy (w_gov w1)))); [|done].
  destruct (pl_pending (gv_policy (w_gov w1))) as [v|]; [|done].
  destruct (GetPolicyVersion J (view (w_gov w1)) v) as [p|] eqn:Ep; [|done]. case_match; [|done]. case_match; [|done].
  intros p' [= <-]. by apply getVersion_stored in Ep.
Qed.

Lemma evidence_stored g id kind raw g' stored ref : SecurityEvidenceBytes g id kind raw = (g', Ok (stored, ref)) →
  gv_evidence g' !! (id, kind) = Some (stored, ref).
Proof using.
  unfold SecurityEvidenceBytes. intros H. destruct (gv_evidence g !! (id, kind)) as [[s r]|] eqn:E; [by simplify_eq|].
  case_match; simplify_eq. cbn. by rewrite lookup_insert_eq.
Qed.

Definition recorded (w : World) (id kind rec : string) : Prop := ∃ ref, gv_evidence (w_gov w) !! (id, kind) = Some (rec, ref).
Lemma recorded_ext w w' id kind rec : ext w w' → recorded w id kind rec → recorded w' id kind rec.
Proof using. intros X [ref H]. destruct (xt_evidence _ _ (ex_gov _ _ X) _ _ _ H) as (ref' & H' & _). by exists ref'. Qed.

Lemma getUser_safe id w : safe (okp (fun _ _ => True)) w (getUser id).
Proof using. apply safe_read; [by eexists|]. intros w1 _ _. unfold okp. by case_match. Qed.

Lemma archive_safe c kind policy w : safe (okp (fun w' (_ : string) => archived w' (c_ID c) kind)) w (archive c kind policy).
Proof using M.
  unfold archive. eapply safe_seq; [apply getUser_safe|].
  intros w1 u X1 _. eapply safe_seq; [apply getUser_safe|].
  intros w2 requester X2 _. apply safe_free; [done|]. intros w3 now X3.
  eapply (safe_seq (fun w' rec => recorded w' (c_ID c) kind rec)).
  { apply safe_call. intros w4 _ _. split; [done|]. intros o. cbn. destruct (o_fail o) as [[e []]|]; cbn; try done.
    destruct (SecurityEvidenceBytes _ _ _ _) as [g [[s ref]|e]] eqn:E; [|done]. cbn. exists ref. by eapply evidence_stored. }
  intros w4 rec X4 Hrec. apply safe_pure. intros ? _.
  eapply (safe_seq (fun w' _ => rec ∈ w_preserved w')).
  { apply safe_call. intros w5 _ _. split; [done|]. intros o. cbn. destruct (o_preserve o); [|done]. cbn. by left. }
  intros w5 reference X5 Hpres. case_bool_decide as Hne; [done|].
  eapply (safe_seq (fun w' _ => archived w' (c_ID c) kind)); [|done].
  apply safe_call. intros w6 X6 I6. split; [done|]. intros o. cbn. unfold transact. destruct (o_fail o) as [[e []]|]; try done. cbn.
  assert (Hr : recorded w6 (c_ID c) kind rec) by (eapply recorded_ext; [|exact Hrec]; by etransitivity).
  destruct Hr as [ref Hr]. exists rec, reference. unfold ConfirmSecurityEvidence. cbn. rewrite Hr. cbn. rewrite lookup_insert_eq.
  split_and!; [done|done|]. by apply X6.
Qed.

Lemma writeMarkerFile_safe m w : safe (okp (fun w' (_ : unit) => m ∈ w_written w')) w (writeMarkerFile m).
Proof using M.
  unfold writeMarkerFile. case_bool_decide; [done|]. apply safe_free; [done|]. intros w1 old X1. apply safe_pure. intros _ _.
  apply safe_call. intros w2 _ _. split; [done|]. intros o. cbn. case_match; [done|]. cbn. case_match; [|done]. by left.
Qed.

(** The version a checked change is about to activate. *)
Definition activates_next (w : World) (c : SecurityChange) (pending : PolicyVersion) : Prop :=
  snapshot (w_gov w) c ∧ stored w pending ∧ pv_Version pending = next_version (c_ExpectedVersion c) ∧ pv_RequestID pending = c_ID c.

Lemma activates_next_ext w w' c pending : ext w w' → activates_next w c pending → activates_next w' c pending.
Proof using. intros X (H1 & H2 & H3 & H4). split_and!; try done; [by eapply extends_snapshot, H1; apply X|by eapply stored_ext]. Qed.

Lemma next_backed w c pending : inv w → activates_next w c pending →
  mkMarker (cf_InstallationID cfg) (pv_Version pending) (pv_SHA256 pending) ∈ w_written w →
  archived w (c_ID c) PolicyIntent → archived w (c_ID c) PolicyCommit → archived w (c_ID c) PolicyAnchorType →
  backed w (next_version (c_ExpectedVersion c)).
Proof using M.
  intros I ((r & Hr & _) & (raw & sha & id & Hv & Hd) & En & Eid) Hm H1 H2 H3.
  pose proof (inv_schema w I) as S. destruct (decode_version _ _ _ _ _ Hd) as (_ & Ei & Es).
  assert (Hne : c_ID c ≠ "") by (intros E; rewrite E, (sc_ids _ S) in Hr; done).
  assert (Hgt : 1 < pv_Version pending).
  { assert (1 ≤ pv_Version pending) by (apply (sc_versions _ S); by eexists).
    destruct (decide (pv_Version pending = 1)) as [E1|]; [|lia].
    rewrite E1, (sc_first _ S) in Hv. injection Hv as _ _ <-. congruence. }
  destruct (sc_origin _ S _ _ _ _ Hv Hgt) as [-> _].
  rewrite Es in Hm by apply SecurityDigest_nonempty. subst id. rewrite Eid in Hv.
  exists raw, (c_ID c). rewrite <- En. by split_and!.
Qed.

(** The branches of a program. *)
Ltac branch := match goal with |- safe _ _ (if ?b then _ else _) => destruct b end.

Definition anything {A} (_ : World) (_ : A) : Prop := True.
Lemma okp_anything {A} w (r : result A) : okp anything w r.
Proof using. by destruct r. Qed.

Lemma activateProg_safe c old pending p w : activates_next w c pending → safe (okp anything) w (activateProg c old pending p).
Proof using M.
  intros H. unfold activateProg. eapply safe_seq; [apply archive_safe|]. intros w1 ? X1 A1.
  apply (safe_seq anything).
  { branch; [|done]. apply safe_call. intros w' _ _. split; [done|]. intros o. apply okp_anything. }
  intros w2 ? X2 _. eapply safe_seq; [apply archive_safe|]. intros w3 commit X3 A3.
  apply safe_try_free; [done|]. intros w4 _ X4. eapply safe_seq; [apply writeMarkerFile_safe|]. intros w5 ? X5 A5.
  eapply safe_seq; [apply archive_safe|]. intros w6 ? X6 A6. apply safe_call. intros w7 X7 I7.
  assert (E1 : ext w1 w7) by (etransitivity; [exact X2|]; etransitivity; [exact X3|]; etransitivity; [exact X4|];
    etransitivity; [exact X5|]; etransitivity; [exact X6|exact X7]).
  assert (E3 : ext w3 w7) by (etransitivity; [exact X4|]; etransitivity; [exact X5|]; etransitivity; [exact X6|exact X7]).
  assert (N : activates_next w7 c pending) by (eapply activates_next_ext; [|exact H]; by etransitivity).
  split; [|intros o; apply okp_anything]. split; [apply N|]. eapply next_backed; [exact I7|exact N| | | |].
  - apply (ex_written _ _ X7), (ex_written _ _ X6), A5.
  - eapply archived_ext; [exact E1|exact A1].
  - eapply archived_ext; [exact E3|exact A3].
  - eapply archived_ext; [exact X7|exact A6].
Qed.

Lemma checkPending_checked m a db c state old : checkPendingRecovery J db c state old (answered m a) = Ok tt →
  ∃ pending, ps_Pending state = Some pending ∧ pv_Version pending = next_version (c_ExpectedVersion c) ∧ pv_RequestID pending = c_ID c.
Proof using.
  unfold checkPendingRecovery. destruct (ps_Pending state) as [pending|]; [|done]. intros H. head_in H. bool_hyps. z_hyps.
  by exists pending.
Qed.

Lemma checkPending_safe c state old w : safe (okp (fun _ (_ : unit) =>
    ∃ pending, ps_Pending state = Some pending ∧ pv_Version pending = next_version (c_ExpectedVersion c) ∧ pv_RequestID pending = c_ID c))
  w (checkPending c state old).
Proof using M.
  unfold checkPending. apply safe_free; [done|]. intros w1 m X1. apply safe_free; [done|]. intros w2 a X2.
  apply safe_free; [done|]. intros w3 db X3. cbn. destruct (checkPendingRecovery _ _ _ _ _ _) as [[]|] eqn:E; [|done].
  by eapply checkPending_checked.
Qed.

Lemma recover_safe {A} e w : safe (okp (anything (A := A))) w (bind (call_ CRecover) (fun _ => Ret (Err e))).
Proof using M. by apply safe_free. Qed.

Lemma ReconcileChange_safe id w : safe (okp anything) w (ReconcileChange id).
Proof using M.
  unfold ReconcileChange. eapply safe_seq; [apply getChange_safe|]. intros w1 c X1 [Hc Hid].
  branch; [done|]. branch; [done|]. apply safe_bind. eapply safe_mono; [|apply getState_safe].
  intros w2 [[active [pending|] phase previous change]|] X2 HP; try done. cbn in HP. branch; [done|].
  eapply (safe_seq anything).
  { apply safe_read; [by eexists|]. intros ? _ _. apply okp_anything. }
  intros w3 old X3 _. apply safe_bind. eapply safe_mono; [|apply checkPending_safe].
  intros w4 [[]|e] X4 Hck; [|apply recover_safe]. destruct Hck as (pending' & Epend & Ev & Er). injection Epend as <-.
  assert (N : activates_next w4 c pending).
  { split_and!; try done.
    - eapply extends_snapshot, Hc. apply ex_gov. etransitivity; [exact X2|]. by etransitivity.
    - eapply stored_ext; [|by apply HP]. by etransitivity. }
  apply (safe_seq anything).
  { branch; [|done]. apply safe_call. intros ? _ _. split; [done|]. intros o. apply okp_anything. }
  intros w5 ? X5 _. apply safe_pure. intros p _. apply safe_pure. intros p' _.
  apply (safe_seq anything).
  { branch; [|done]. apply activateProg_safe. by eapply activates_next_ext. }
  intros w6 ? X6 _. eapply safe_seq; [apply archive_safe|]. intros w7 reference X7 _.
  apply safe_try_free; [done|]. intros w8 _ X8. eapply safe_mono; [|apply getChange_safe]. intros ? ? _ _. apply okp_anything.
Qed.

Lemma CheckAnchor_safe w : safe (okp anything) w CheckAnchor.
Proof using M.
  unfold CheckAnchor. apply safe_free; [done|]. intros w1 db X1. apply safe_free; [done|]. intros w2 m X2.
  apply safe_free; [done|]. intros w3 a X3. case_match; [done|]. apply recover_safe.
Qed.

Lemma authority_safe c user w : safe (okp anything) w (authority c user).
Proof using M.
  unfold authority. apply safe_free; [done|]. intros w1 db X1. apply safe_free; [done|]. intros w2 now X2. apply okp_anything.
Qed.

Lemma Apply_safe id user session proof w : safe (okp anything) w (Apply id user session proof).
Proof using M.
  unfold Apply. eapply safe_seq; [apply getChange_safe|]. intros w1 c X1 [Hc _].
  eapply safe_seq; [apply authority_safe|]. intros w2 ? X2 _. branch; [done|]. branch; [done|].
  eapply safe_seq; [apply authority_safe|]. intros w3 ? X3 _.
  apply safe_free; [done|]. intros w4 db X4. apply safe_free; [done|]. intros w5 now X5. apply safe_pure. intros _ _.
  eapply safe_seq; [apply authority_safe|]. intros w6 applier X6 _. eapply safe_seq; [apply getUser_safe|]. intros w7 u X7 _.
  apply (safe_seq anything).
  { apply safe_call. intros w8 X8 _. split; [|intros o; apply okp_anything]. eapply extends_snapshot, Hc. apply ex_gov.
    etransitivity; [exact X2|]. etransitivity; [exact X3|]. etransitivity; [exact X4|]. etransitivity; [exact X5|].
    etransitivity; [exact X6|]. by etransitivity. }
  clear dependent w1 c w2 w3 w4 w5 w6. intros w1 ? X1 _. eapply safe_seq; [apply getChange_safe|]. intros w2 c X2 [Hc _].
  eapply safe_seq; [apply getState_safe|]. intros w3 state X3 _. branch; [done|]. branch; [done|].
  apply safe_pure. intros p _. apply safe_pure. intros _ _. branch; [done|].
  apply (safe_seq anything).
  { branch; [|done]. apply safe_try_free; [done|]. intros w' _ _. apply safe_call. intros ? _ _. split; [done|].
    intros o. apply okp_anything. }
  intros w4 ? X4 _. apply (safe_seq anything); [branch; [apply CheckAnchor_safe|done]|]. intros w5 ? X5 _.
  eapply safe_seq; [apply archive_safe|]. intros w6 intent X6 _.
  apply (safe_seq anything); [|intros; apply ReconcileChange_safe].
  apply safe_call. intros w8 X8 _. split; [|intros o; apply okp_anything]. eapply extends_snapshot, Hc. apply ex_gov.
  etransitivity; [exact X3|]. etransitivity; [exact X4|]. etransitivity; [exact X5|]. by etransitivity.
Qed.

Lemma startServer_safe w : safe (okp anything) w startServer.
Proof using M.
  unfold startServer. apply safe_bind. apply (safe_mono (okp anything)).
  { intros w' [[]|e] _ _; [done|]. intros w1 _ _. split; [done|]. intros o. apply okp_anything. }
  unfold Startup. apply (safe_seq anything).
  { unfold ConfigureExecutionPolicy. branch; [done|]. branch; [done|]. apply safe_call. intros ? _ _. split; [done|].
    intros o. apply okp_anything. }
  intros w1 ? X1 _. eapply safe_seq; [apply getState_safe|]. intros w2 state X2 _.
  apply (safe_seq anything); [|intros; apply CheckAnchor_safe]. branch; [|done].
  eapply safe_seq; [apply ReconcileChange_safe|]. done.
Qed.

Lemma handler_safe r w : safe anything w (handler r).
Proof using M.
  assert (D : ∀ A (p : prog (result A)), safe (okp anything) w p → safe anything w (discard p)).
  { intros A p H. apply safe_bind. by eapply safe_mono, H. }
  destruct r; apply D; [apply Apply_safe|apply ReconcileChange_safe|apply startServer_safe].
Qed.

(** ** Every run *)

Record all_safe (w : World) : Prop := mkAllSafe {
  al_inv : inv w;
  al_threads : ∀ i p, w_threads w !! i = Some (Some p) → safe anything w p;
}.

Lemma perform_threads o w {B} (c : call B) : w_threads (perform o w c).1 = w_threads w.
Proof using. destruct c; cbn; unfold transact, install; repeat case_match; done. Qed.

Lemma with_threads_ok w ts : inv w → inv (with_threads w ts) ∧ ext w (with_threads w ts).
Proof using. intros I. by apply same_gov. Qed.

Lemma wstep_safe w e : all_safe w → possible w e → all_safe (wstep w e).
Proof using M.
  intros [I T] Hp. assert (K : ∀ w', inv w' → ext w w' → w_threads w' = w_threads w → all_safe w').
  { intros w' I' X E. split; [done|]. intros i p Hi. rewrite E in Hi. by eapply safe_ext, (T i). }
  destruct e as [r|i o|op|]; cbn.
  - destruct (with_threads_ok w (w_threads w ++ [Some (handler r)]) I) as [I' X]. split; [done|]. intros i p Hi. cbn in Hi.
    apply lookup_app_Some in Hi as [Hi|[_ Hi]]; [by eapply safe_ext, (T i)|].
    apply list_lookup_singleton_Some in Hi as [_ [= <-]]. apply handler_safe.
  - destruct (w_threads w !! i) as [[[a|B c k]|]|] eqn:Hi; try by apply K.
    destruct (T i _ Hi w ltac:(reflexivity) I) as [Hpre Hk]. specialize (Hk o). pose proof (perform_threads o w c) as Et.
    destruct (perform_ok o w c I Hpre) as [I' X]. destruct (perform o w c) as [w' b]. cbn in *.
    destruct (with_threads_ok w' (<[i := Some (k b)]> (w_threads w')) I') as [I'' X'']. split; [done|].
    intros j p Hj. cbn in Hj. rewrite Et in Hj. destruct (decide (i = j)) as [<-|Hne].
    + rewrite list_lookup_insert_eq in Hj by (by eapply lookup_lt_Some). injection Hj as <-. by eapply safe_ext.
    + rewrite list_lookup_insert_ne in Hj by done. eapply safe_ext, (T j); [done|by etransitivity|done].
  - destruct Hp as [Hr Ha]. destruct (gstep_ok w op I Ha) as [I' X]; [by destruct op|]. by apply K.
  - destruct (same_gov w (with_validator (with_threads w []) None) I) as [I' X]; [done..|]. by split.
Qed.

Lemma wsteps_safe w0 w : w_gov w0 = g0 → w_threads w0 = [] → wsteps w0 w → all_safe w.
Proof using M.
  intros Hg Ht. induction 1 as [|w e _ IH Hp]; [|by apply wstep_safe]. split.
  - split; rewrite Hg; [exists []; constructor|]. rewrite (mg_policy _ M). cbn. lia.
  - intros i p Hi. by rewrite Ht in Hi.
Qed.

End invariant.

(** C4. Applying a change is safe under concurrency and crashes: in every run of
    any number of [Apply], [ReconcileChange] and start requests, interleaved with
    each other, with the other operations of the store and with crashes at any
    call, with any answers of the database, the file system, the clock and the
    evidence service, (1) the calls to the store are a sequence its protocol
    allows, and (2) whenever a version after the first is in force, its marker was
    written to the enrollment file and the intent, commit and anchor records of
    its change were acknowledged by the evidence service, with the acknowledgement
    recorded. *)
Theorem version_in_force_is_backed w0 w : migrated (w_gov w0) → w_threads w0 = [] → wsteps w0 w →
  (∃ os, gsteps J proposal (w_gov w0) os (w_gov w)) ∧
  (1 < pl_active (gv_policy (w_gov w)) → backed w (pl_active (gv_policy (w_gov w)))).
Proof using.
  intros M Ht Hs. destruct (wsteps_safe (w_gov w0) M w0 w eq_refl Ht Hs) as [[I1 I2] _]. by split.
Qed.

(** ** Finishing after a crash *)

(** Everything a call depends on answers, and the anchor is [a]. *)
Record answers (a : PolicyAnchor) (o : Oracle) : Prop := mkAnswers {
  gd_fail : o_fail o = None;
  gd_marker : o_marker o = None;
  gd_anchor : o_anchor o = AnchorOk a;
  gd_preserve : ∃ reference, o_preserve o = Ok reference ∧ reference ≠ "";
}.

(** The program ends in [Q] when its calls are answered as in [G]. *)
Fixpoint ends {A} (G : Oracle → Prop) (Q : World → A → Prop) (w : World) (p : prog A) : Prop :=
  match p with
  | Ret a => Q w a
  | Call c k => ∀ o, G o → ends G Q (perform o w c).1 (k (perform o w c).2)
  end.

Lemma ends_run {A} G (Q : World → A → Prop) p : ∀ os w, (∀ n, G (os n)) → ends G Q w p → Q (run os w p).1 (run os w p).2.
Proof using.
  induction p as [a|B c k IH]; intros os w HG H; cbn in *; [done|].
  specialize (H _ (HG 0%nat)). destruct (perform (os 0%nat) w c) as [w' b]. cbn in *. apply IH; [|done]. intros n. apply HG.
Qed.

Lemma ends_bind {A B} G (Q : World → B → Prop) (p : prog A) f : ∀ w, ends G (fun w' a => ends G Q w' (f a)) w p → ends G Q w (bind p f).
Proof using. induction p as [a|C c k IH]; intros w H; cbn in *; [done|]. intros o Ho. apply IH, H, Ho. Qed.

Lemma ends_mono {A} G (Q Q' : World → A → Prop) p : ∀ w, (∀ w' a, Q w' a → Q' w' a) → ends G Q w p → ends G Q' w p.
Proof using. induction p as [a|B c k IH]; intros w HQ H; cbn in *; [auto|]. intros o Ho. apply IH; auto. Qed.

(** It succeeds, with [a] in world [w']. *)
Definition succeeds {A} (G : Oracle → Prop) (P : World → A → Prop) (w : World) (p : prog (result A)) : Prop :=
  ends G (fun w' r => match r with Ok a => P w' a | Err _ => False end) w p.

Lemma succeeds_try {A B} G (P : World → A → Prop) (Q : World → B → Prop) p f w : succeeds G P w p →
  (∀ w' a, P w' a → succeeds G Q w' (f a)) → succeeds G Q w (try_ p f).
Proof using. intros Hp Hf. apply ends_bind. eapply ends_mono; [|exact Hp]. intros w' [a|e] H; [by apply Hf|done]. Qed.

Lemma succeeds_read {A} G (f : DB → result A) (P : World → A → Prop) a w : (∀ o, G o → o_fail o = None) →
  f (view (w_gov w)) = Ok a → P w a → succeeds G P w (bind (call_ CRead) (fun db => Ret (f db))).
Proof using. intros HG E HP o Ho. cbn. by rewrite (HG o Ho), E. Qed.

(** The record a retry archives: the one stored, or a new one. *)
Definition acceptable (g : Gov) (c : SecurityChange) (kind : string) (policy : PolicyVersion) (u requester : User) : Prop :=
  ∀ now rec, match gv_evidence g !! (c_ID c, kind) with
             | Some (stored, _) => rec = stored
             | None => rec = ej_marshal EJ (evidenceRecord c kind policy u requester now)
             end →
  is_ok (ExpectedFor (ej_tokens EJ) (ej_unmarshal EJ) (ej_marshalActor EJ) (ej_marshalBinding EJ) rec) = true.

(** The two tables that archiving writes are the only ones it changes. *)
Definition archives (w w' : World) : Prop :=
  w_marker w' = w_marker w ∧ gv_changes (w_gov w') = gv_changes (w_gov w) ∧ gv_policy (w_gov w') = gv_policy (w_gov w) ∧
  gv_versions (w_gov w') = gv_versions (w_gov w) ∧ gv_accounts (w_gov w') = gv_accounts (w_gov w).

Lemma archive_succeeds a c kind policy u requester w :
  gv_changes (w_gov w) !! c_ID c ≠ None →
  ac_users (gv_accounts (w_gov w)) !! c_ApplierID c = Some u → ac_users (gv_accounts (w_gov w)) !! c_RequesterID c = Some requester →
  acceptable (w_gov w) c kind policy u requester →
  succeeds (answers a) (fun w' reference => reference ≠ "" ∧ archived w' (c_ID c) kind ∧ archives w w') w (archive c kind policy).
Proof using.
  intros Hc Hu Hr Ha. unfold archive. eapply (succeeds_try _ (fun w' x => w' = w ∧ x = u)).
  { eapply succeeds_read; [by apply gd_fail| |by split]. cbn. by rewrite Hu. }
  intros _ _ [-> ->]. eapply (succeeds_try _ (fun w' x => w' = w ∧ x = requester)).
  { eapply succeeds_read; [by apply gd_fail| |by split]. cbn. by rewrite Hr. }
  intros _ _ [-> ->] o1 _. cbn. intros o2 G2. rewrite (gd_fail _ _ G2). set (now := o_clk o1 0%nat).
  assert (E : ∃ rec ref g, SecurityEvidenceBytes (w_gov w) (c_ID c) kind
      (ej_marshal EJ (evidenceRecord c kind policy u requester now)) = (g, Ok (rec, ref)) ∧
    is_ok (ExpectedFor (ej_tokens EJ) (ej_unmarshal EJ) (ej_marshalActor EJ) (ej_marshalBinding EJ) rec) = true ∧
    archives w (with_gov w g)).
  { unfold SecurityEvidenceBytes. pose proof (Ha now) as Ha'. destruct (gv_evidence (w_gov w) !! (c_ID c, kind)) as [[stored ref]|].
    - exists stored, ref, (w_gov w). split; [done|]. split; [by apply Ha'|by split_and!].
    - rewrite bool_decide_eq_false_2 by done. eexists _, _, _. split; [done|]. split; [by apply Ha'|by split_and!]. }
  destruct E as (rec & ref & g & E & Hok & Har). rewrite E. cbn. apply evidence_stored in E.
  destruct (ExpectedFor _ _ _ _ rec); [|done]. cbn. intros o3 G3. destruct (gd_preserve _ _ G3) as (reference & -> & Hne). cbn.
  rewrite bool_decide_eq_false_2 by done. cbn. intros o4 G4. unfold transact. rewrite (gd_fail _ _ G4). cbn.
  unfold ConfirmSecurityEvidence. cbn. rewrite E. cbn. split_and!; [done| |done..].
  exists rec, reference. cbn. rewrite lookup_insert_eq. split_and!; [done|done|by left].
Qed.

Lemma resume_succeeds a id w : schema (w_gov w) → id ≠ "" → pl_change (gv_policy (w_gov w)) = id →
  succeeds (answers a) (fun w' _ => gv_policy (w_gov w') = mkPolicyRow (pl_active (gv_policy (w_gov w))) PhApplying (pl_pending (gv_policy (w_gov w))) id ∧
      w' = with_gov w (with_policy (w_gov w) (gv_policy (w_gov w'))))
    w (if bool_decide (phase_name (pl_state (gv_policy (w_gov w))) = "recovery_required") then call_ (CResume id) else Ret (Ok tt)).
Proof using.
  intros S Hid Hch. destruct (sc_flight _ S) as [(E & _)|(_ & r & Hr & Hst & Hp & _ & Hph)]; [congruence|].
  rewrite Hch in Hr. destruct Hph as [E|E]; rewrite E; cbn.
  - split; [by apply policy_eq|]. destruct w as [[] ? ? ? ? ?]. by cbn.
  - intros o Go. cbn. unfold transact. rewrite (gd_fail _ _ Go). cbn. unfold resumeSecurityApplying.
    rewrite E, Hch, Hp, Hr, Hst. rewrite !bool_decide_eq_true_2 by (done || by eexists). cbn.
    split; [by rewrite Hp, Hch|done].
Qed.

Lemma finish_succeeds a id reference w r policy : reference ≠ "" → gv_changes (w_gov w) !! id = Some r → cr_state r = ChApplying →
  gv_policy (w_gov w) = mkPolicyRow (pl_active (gv_policy (w_gov w))) PhApplying (Some (pl_active (gv_policy (w_gov w)))) id →
  readPolicyVersion J (w_gov w) (pl_active (gv_policy (w_gov w))) = Ok policy → archived w id PolicyResult →
  succeeds (answers a) (fun w' _ => gv_changes (w_gov w') !! id = Some (row_result r ChApplied reference) ∧
      archived w' id PolicyResult ∧ in_flight (w_gov w') = (pl_active (gv_policy (w_gov w)), None) ∧
      gv_accounts (w_gov w') = gv_accounts (w_gov w)) w (call_ (CFinish id reference)).
Proof using.
  intros Hn Hr Hst Hp Hv Ha o Go. cbn. unfold transact. rewrite (gd_fail _ _ Go). cbn. unfold finishSecurityChange.
  rewrite (bool_decide_eq_false_2 (reference = "")) by done. rewrite Hp. cbn.
  rewrite !bool_decide_eq_true_2, Z.eqb_refl by done. cbn. rewrite Hv. cbn. rewrite Hr, bool_decide_eq_true_2 by done. cbn.
  by rewrite lookup_insert_eq.
Qed.

(** The reads of [GetPolicyState], when they succeed. *)
Lemma state_read g st : GetPolicyState J (view g) = Ok st →
  readPolicyVersion J g (pl_active (gv_policy g)) = Ok (ps_Active st) ∧ pv_Version (ps_Active st) = pl_active (gv_policy g) ∧
  ps_State st = phase_name (pl_state (gv_policy g)) ∧ ps_PendingChange st = pl_change (gv_policy g).
Proof using.
  unfold GetPolicyState, GetPolicyVersion, readPolicyVersion. cbn.
  destruct (gv_versions g !! pl_active (gv_policy g)) as [[[raw sha] id]|]; [|done]. cbn.
  destruct (decodePolicyVersion J (pl_active (gv_policy g)) raw sha id) as [p|] eqn:E; [|done].
  destruct (decode_version _ _ _ _ _ E) as (Ev & _ & _). intros H. split; [|guards_in H; by split_and!]. guards_in H; done.
Qed.

Lemma checkPending_ends a c st old w : path ≠ "" →
  checkPendingRecovery J (view (w_gov w)) c st old (answered (w_marker w) (AnchorOk a)) = Ok tt →
  ends (answers a) (fun w' x => w' = w ∧ x = Ok tt) w (checkPending c st old).
Proof using.
  intros Hpath Hck o1 G1. cbn -[view checkPendingRecovery]. intros o2 G2. intros o3 G3.
  rewrite (gd_fail _ _ G3), (gd_anchor _ _ G2), (gd_marker _ _ G1), (bool_decide_eq_false_2 (path = "")) by done. by rewrite Hck.
Qed.

Lemma try_ok {A B} (a : A) (f : A → prog (result B)) : try_ (Ret (Ok a)) f = f a.
Proof using. done. Qed.

(** The end of a reconciliation of an activated change. *)
Lemma finishing a c id r policy pending u requester w ch : id ≠ "" → c_ID c = id → gv_changes (w_gov w) !! id = Some r →
  cr_state r = ChApplying → payload (cr_payload r) = Some ch →
  gv_policy (w_gov w) = mkPolicyRow (pl_active (gv_policy (w_gov w))) PhApplying (Some (pl_active (gv_policy (w_gov w)))) id →
  readPolicyVersion J (w_gov w) (pl_active (gv_policy (w_gov w))) = Ok policy →
  ac_users (gv_accounts (w_gov w)) !! c_ApplierID c = Some u → ac_users (gv_accounts (w_gov w)) !! c_RequesterID c = Some requester →
  acceptable (w_gov w) c PolicyResult pending u requester →
  succeeds (answers a) (fun w' c' => c_State c' = "applied" ∧ archived w' id PolicyResult ∧
      in_flight (w_gov w') = (pl_active (gv_policy (w_gov w)), None) ∧ gv_accounts (w_gov w') = gv_accounts (w_gov w))
    w (reference <-? archive c PolicyResult pending; _ <-? call_ (CFinish id reference); getChange id).
Proof using.
  intros Hid Hcid Hrow Happ Epl Hpol Hread Hu Hr Hacc.
  eapply succeeds_try; [apply (archive_succeeds _ _ _ _ u requester); rewrite ?Hcid, ?Hrow; done|].
  intros w1 reference (Hne & Har & _ & E1 & E2 & E3 & E4). rewrite Hcid in Har.
  eapply succeeds_try; [apply (finish_succeeds _ _ _ _ r policy); rewrite ?E1, ?E2; try done|].
  { unfold readPolicyVersion in *. by rewrite E3. }
  intros w2 _ (Hrow2 & Har2 & Hf & Ha). eapply succeeds_read; [by apply gd_fail| |].
  - cbn. unfold GetSecurityChange. rewrite Hrow2. unfold scanSecurityChange. cbn. by rewrite Epl.
  - cbn. rewrite <- E2. split_and!; try done. congruence.
Qed.

(** C27. A change in force can be finished by a retry.  Take a change whose
    version is already active with the activation still in flight, whatever the
    earlier attempt did after activating (the result archived or not, access
    closed for recovery or not).  Suppose its payload still decodes and still
    passes the preparation, the accounts of its requester and its applier still
    exist, the marker and the anchor pass [checkPendingRecovery] for the version
    in flight (which a marker overwritten by another attempt does not), and the
    archive's reader accepts the record of the result.  Then one
    [ReconcileChange] all of whose calls are answered ends with the change
    applied, its result archived and nothing in flight; no approval is asked
    for again, the version in force and the accounts are left as they are. *)
Theorem reconcile_finishes w id c st old pending p p' u requester a os :
  schema (w_gov w) → id ≠ "" → pl_change (gv_policy (w_gov w)) = id →
  pl_pending (gv_policy (w_gov w)) = Some (pl_active (gv_policy (w_gov w))) →
  no_evidence = false → path ≠ "" →
  GetSecurityChange payload (w_gov w) id = Ok c → GetPolicyState J (view (w_gov w)) = Ok st → ps_Pending st = Some pending →
  GetPolicyVersion J (view (w_gov w)) (c_ExpectedVersion c) = Ok old →
  checkPendingRecovery J (view (w_gov w)) c st old (answered (w_marker w) (AnchorOk a)) = Ok tt →
  DecodeChange J (c_Payload c) = Ok p → prepareTransitionPayload p cfg = Ok p' →
  ac_users (gv_accounts (w_gov w)) !! c_ApplierID c = Some u → ac_users (gv_accounts (w_gov w)) !! c_RequesterID c = Some requester →
  acceptable (w_gov w) c PolicyResult pending u requester → (∀ n, answers a (os n)) →
  ∃ c', (run os w (ReconcileChange id)).2 = Ok c' ∧ c_State c' = "applied" ∧
    archived (run os w (ReconcileChange id)).1 id PolicyResult ∧
    in_flight (w_gov (run os w (ReconcileChange id)).1) = (pl_active (gv_policy (w_gov w)), None) ∧
    gv_accounts (w_gov (run os w (ReconcileChange id)).1) = gv_accounts (w_gov w).
Proof using.
  intros S Hid Hch Hpend Hev Hpath Hc Hst Hsp Hold Hck Hp Hp' Hu Hr Hacc Hos.
  assert (E : succeeds (answers a) (fun w' c' => c_State c' = "applied" ∧ archived w' id PolicyResult ∧
      in_flight (w_gov w') = (pl_active (gv_policy (w_gov w)), None) ∧ gv_accounts (w_gov w') = gv_accounts (w_gov w))
    w (ReconcileChange id)).
  2:{ apply (ends_run _ _ _ os) in E; [|done]. destruct (run os w (ReconcileChange id)) as [w' [c'|]]; [|done]. by exists c'. }
  destruct (sc_flight _ S) as [(E & _)|(_ & r & Hrow & Happ & Hp1 & _)]; [congruence|]. rewrite Hch in Hrow.
  destruct (state_read _ _ Hst) as (Hread & Hact & Hphase & Hchange).
  pose proof Hc as Hscan. unfold GetSecurityChange in Hscan. rewrite Hrow in Hscan. unfold scanSecurityChange in Hscan.
  destruct (payload (cr_payload r)) as [ch|] eqn:Epl; [|done]. injection Hscan as Hscan.
  assert (Hcs : c_State c = "applying") by (rewrite <- Hscan; cbn; by rewrite Happ).
  assert (Hcid : c_ID c = id) by by rewrite <- Hscan.
  assert (Hexp : (pv_Version (ps_Active st) =? c_ExpectedVersion c) = false).
  { apply Z.eqb_neq. rewrite Hact, <- Hscan. cbn. rewrite Hpend in Hp1. injection Hp1 as ->. lia. }
  unfold ReconcileChange. eapply (succeeds_try _ (fun w' x => w' = w ∧ x = c)).
  { by eapply succeeds_read; [by apply gd_fail| |]. }
  intros _ _ [-> ->]. rewrite Hcs, Hev. cbn [bool_decide]. rewrite bool_decide_eq_false_2, bool_decide_eq_true_2 by done. cbn [negb orb].
  apply ends_bind. apply (ends_mono _ (fun w' x => w' = w ∧ x = Ok st)).
  2:{ intros o Go. cbn -[view]. rewrite (gd_fail _ _ Go). cbn -[view]. by rewrite Hst. }
  intros _ _ [-> ->]. destruct st as [active pend phase previous change]. cbn in Hsp, Hact, Hphase, Hchange, Hexp, Hread. subst pend.
  rewrite Hchange, Hch, bool_decide_eq_true_2 by done. cbn [negb].
  eapply (succeeds_try _ (fun w' x => w' = w ∧ x = old)).
  { by eapply succeeds_read; [by apply gd_fail| |]. }
  intros _ _ [-> ->]. apply ends_bind. eapply ends_mono; [|apply checkPending_ends; [done|]; rewrite Hchange, Hch in Hck; exact Hck].
  intros _ _ [-> ->]. rewrite Hphase. eapply succeeds_try; [by apply resume_succeeds|].
  intros w1 _ [Hpol1 Ew1]. rewrite Hpol1, Hpend in Ew1. subst w1. clear Hpol1.
  rewrite Hp, try_ok, Hp', try_ok, Hexp, try_ok. eapply ends_mono; [|apply (finishing a c id r active pending u requester _ ch)]; cbn; try done.
Qed.

(** ** The records are valid *)

(** What the hub knows of a change it archives: identifiers and texts within the
    bounds of the record, the digest of the approved bytes, two approvals. *)
Record archivable (c : SecurityChange) (policy : PolicyVersion) (u requester : User) (now : Time) : Prop := mkArchivable {
  ac_id : ValidID (c_ID c) = true ∧ len (c_ID c) ≤ 100;
  ac_installation : ValidID (cf_InstallationID cfg) = true;
  ac_applier : Actor_Valid (mkActor (u_ID u) (c_ApplierPersonID c) (u_Username u) (u_AuthProvider u) (subjectOf u)) = true;
  ac_requester : Actor_Valid (mkActor (u_ID requester) (c_RequesterPersonID c) (u_Username requester) (u_AuthProvider requester)
                                (subjectOf requester)) = true;
  ac_digest : c_Digest c = SecurityDigest (c_ApprovedBytes c);
  ac_bytes : 0 < len (c_ApprovedBytes c) ≤ 65536;
  ac_reason : bounded (c_Reason c) 4096 = true ∧ c_Reason c ≠ "";
  ac_approvals : (2 ≤ length (c_Approvals c) ≤ 16)%nat;
  ac_each : ∀ a, a ∈ c_Approvals c → ValidID (a_UserID a) = true ∧ ValidID (a_PersonID a) = true ∧
              ValidHash (a_ProofSHA256 a) = true ∧ a_ApprovedAt a ≠ 0;
  ac_version : 1 ≤ c_ExpectedVersion c < 2 ^ 64 - 1;
  ac_policy : pv_Version policy ≠ 0 ∧ ValidHash (pv_SHA256 policy) = true;
  ac_now : now ≠ 0;
}.

Definition kinds : list string := [PolicyIntent; PolicyCommit; PolicyAnchorType; PolicyResult].

Lemma kind_known kind : kind ∈ kinds → known_type kind = true ∧ bounded kind 64 = true ∧ forallb id_rune (bytes ("-" +:+ kind)) = true ∧
  len ("-" +:+ kind) ≤ 28 ∧ HasPrefix kind "policy." = true ∧
  bool_decide (kind ∈ [PolicyIntent; PolicyCommit; PolicyResult; PolicyAnchorType]) = true ∧
  bool_decide (kind = ExecutionAdmission) = false ∧ bool_decide (kind = ExecutionDenial) = false ∧ bool_decide (kind = ExecutionLifecycle) = false.
Proof using. unfold kinds. intros H. repeat (apply elem_of_cons in H as [->|H]; [by vm_compute|]). by apply not_elem_of_nil in H. Qed.

Section records.
Context (c : SecurityChange) (policy : PolicyVersion) (u requester : User) (now : Time) (kind : string).
Context (Ac : archivable c policy u requester now) (Hk : kind ∈ kinds).
Context (Hanchor : kind = PolicyAnchorType → pv_Version policy = c_ExpectedVersion c + 1).
#[local] Abbreviation record := (evidenceRecord c kind policy u requester now) (only parsing).

Lemma record_header : header_ok record = true.
Proof using Ac Hk.
  destruct (kind_known kind Hk) as (_ & _ & Hb & Hl & _). destruct (ac_id _ _ _ _ _ Ac) as [Hid Hlen].
  pose proof (ac_applier _ _ _ _ _ Ac) as Ha. unfold Actor_Valid in Ha. cbn in Ha.
  destruct (ac_policy _ _ _ _ _ Ac) as [Hv Hs]. unfold header_ok, IsZeroTime. cbn -[ValidID].
  rewrite (ValidID_suffix _ _ Hid Hb) by lia. rewrite Hs, (proj2 (Z.eqb_neq _ _) Hv), (proj2 (Z.eqb_neq _ _) (ac_now _ _ _ _ _ Ac)).
  bool_hyps. repeat match goal with E : _ = true |- _ => rewrite E; clear E end. done.
Qed.

Lemma record_approvals :
  forallb approval_ok ((fun a => mkApprovalEvidence (a_UserID a) (a_PersonID a) (a_ProofSHA256 a) (a_ApprovedAt a)) <$> c_Approvals c) = true.
Proof using Ac.
  apply Is_true_eq_true, forallb_True, Forall_forall. intros x Hx. apply list_elem_of_fmap in Hx as (a & -> & Ha).
  destruct (ac_each _ _ _ _ _ Ac a Ha) as (H1 & H2 & H3 & H4). unfold approval_ok, IsZeroTime. cbn.
  by rewrite H1, H2, H3, (proj2 (Z.eqb_neq _ _) H4).
Qed.

Lemma record_details : match ev_Details record with Some d => details_ok record d | None => true end = true.
Proof using Ac Hk.
  destruct (kind_known kind Hk) as (_ & Hb & _). destruct (ac_id _ _ _ _ _ Ac) as [Hid _].
  destruct (ac_reason _ _ _ _ _ Ac) as [Hr _]. pose proof (ac_approvals _ _ _ _ _ Ac) as Hn. pose proof (ac_bytes _ _ _ _ _ Ac) as Hl.
  unfold details_ok. cbn -[ValidID bounded Actor_Valid ValidHash approval_ok forallb].
  rewrite (ac_requester _ _ _ _ _ Ac), Hr, Hb, Hid, record_approvals, length_fmap, (ac_digest _ _ _ _ _ Ac), digest_valid, !orb_true_r.
  assert (E1 : ValidID (if bool_decide (kind = PolicyAnchorType) then cf_InstallationID cfg else c_ID c) = true)
    by (case_bool_decide; [apply Ac|done]).
  assert (E2 : (len (if bool_decide (kind = PolicyAnchorType) then "" else c_ApprovedBytes c) <=? Z.shiftl 64 10) = true).
  { change (Z.shiftl 64 10) with 65536. apply Z.leb_le. case_bool_decide; [change (len "") with 0|]; lia. }
  assert (E3 : (Z.of_nat (length (c_Approvals c)) <=? 16) = true) by (apply Z.leb_le; lia).
  rewrite E1, E2, E3. done.
Qed.

Lemma record_subject : subject_ok record = true.
Proof using Ac Hk Hanchor.
  destruct (kind_known kind Hk) as (_ & _ & _ & _ & _ & Hp & _). destruct (ac_id _ _ _ _ _ Ac) as [Hid _].
  destruct (ac_reason _ _ _ _ _ Ac) as [_ Hr]. pose proof (ac_approvals _ _ _ _ _ Ac) as Hn. pose proof (ac_bytes _ _ _ _ _ Ac) as Hl.
  unfold subject_ok. cbn -[ValidID ValidHash]. rewrite Hp, Hid, length_fmap. rewrite (ac_digest _ _ _ _ _ Ac) at 1. rewrite digest_valid. cbn [andb].
  clear Hp. apply andb_true_iff. split.
  - destruct (decide (kind = PolicyIntent)) as [Ei|Ei]; [|by rewrite (bool_decide_eq_false_2 (kind = PolicyIntent))]. subst kind. rewrite (bool_decide_eq_true_2 (PolicyIntent = PolicyIntent)), (bool_decide_eq_false_2 (PolicyIntent = PolicyAnchorType)) by done.
    cbn. rewrite (bool_decide_eq_false_2 (c_Reason c = "")) by done.
    rewrite (proj2 (Z.eqb_neq (len (c_ApprovedBytes c)) 0)) by lia. unfold Hash. rewrite (ac_digest _ _ _ _ _ Ac).
    rewrite bool_decide_eq_true_2 by done. cbn. apply negb_true_iff, Z.ltb_ge. lia.
  - destruct (decide (kind = PolicyAnchorType)) as [Ea|Ea]; [|by rewrite (bool_decide_eq_false_2 (kind = PolicyAnchorType))].
    rewrite (bool_decide_eq_true_2 (kind = PolicyAnchorType)) by done. pose proof (ac_version _ _ _ _ _ Ac) as Hv. rewrite (ac_installation _ _ _ _ _ Ac).
    rewrite (Hanchor Ea). unfold u64. rewrite Z.mod_small by lia. rewrite !Z.eqb_refl.
    rewrite (proj2 (Z.eqb_neq (c_ExpectedVersion c) 0)), (proj2 (Z.eqb_neq (c_ExpectedVersion c) (2 ^ 64 - 1))) by lia. done.
Qed.
End records.

(** The hub writes no governance record its reader refuses: for a change with
    identifiers and texts within the record's bounds, two approvals and the digest
    of its approved bytes, each of the intent, commit, anchor and result records
    satisfies the schema. *)
Theorem governance_records_valid c policy u requester now kind : archivable c policy u requester now → kind ∈ kinds →
  (kind = PolicyAnchorType → pv_Version policy = c_ExpectedVersion c + 1) →
  AuditRecord.Validate (evidenceRecord c kind policy u requester now) = Ok tt.
Proof using.
  intros Ac Hk Ha. destruct (kind_known kind Hk) as (H1 & H2 & H3 & H4 & H5 & H6 & H7 & H8 & H9).
  unfold AuditRecord.Validate. rewrite (record_header _ _ _ _ _ _ Ac Hk). cbn [negb].
  rewrite (record_details _ _ _ _ _ _ Ac Hk), (record_subject _ _ _ _ _ _ Ac Hk Ha).
  unfold binding_ok, command_ok. cbn -[HasPrefix]. by rewrite H1, H5, H7, H8, H9.
Qed.

End transition.

(** ** Witnesses: the first policy of an installation *)

Fixpoint possibleb (J : JSON) (proposal : string → option SecurityChangePayload) (payload : string → option string) (EJ : EnvelopeJSON)
    (path : string) (cfg : TransitionConfig) (w : World) (es : list event) : bool :=
  match es with
  | [] => true
  | e :: t => match e with EOther op => negb (reserved op) && allowedb (w_gov w) op | _ => true end
              && possibleb J proposal payload EJ path cfg (wstep J proposal payload EJ path cfg w e) t
  end.

Lemma possibleb_wsteps J proposal payload EJ path cfg es : ∀ w0 w,
  wsteps J proposal payload EJ path cfg w0 w → possibleb J proposal payload EJ path cfg w es = true →
  wsteps J proposal payload EJ path cfg w0 (foldl (wstep J proposal payload EJ path cfg) w es).
Proof.
  induction es as [|e es IH]; intros w0 w Hs H; [done|]. cbn [possibleb foldl] in *. apply andb_true_iff in H as [H1 H2].
  apply IH; [|done]. constructor; [done|]. destruct e; try done. apply andb_true_iff in H1 as [H1 H3]. cbn.
  split; [by apply negb_true_iff in H1|by apply allowedb_ok].
Qed.

Definition tr_hash : string := SecurityDigest "qualification".
Definition tr_policy : AuditPolicy := mkAuditPolicy "enhanced" ["olga"] [] 600 24 "dest" "cred" ["k1"] tr_hash.
Definition tr_standard : AuditPolicy := mkAuditPolicy "standard" [] [] 3600 24 "" "" [] "".
Definition tr_nominations : list SecurityNomination :=
  [mkNomination "olga" "p:olga" [RoleSecurityOfficer] "met"; mkNomination "ana" "p:ana" [RoleSecurityApprover] "met";
   mkNomination "bo" "p:bo" [RoleSecurityApprover] "met"].
Definition tr_payload : SecurityChangePayload := mkPayload "bootstrap" (Some tr_policy) tr_nominations None None None None [] None.
(** A later change of the running time. *)
Definition tr_policy2 : AuditPolicy := mkAuditPolicy "enhanced" ["olga"] [] 700 24 "dest" "cred" ["k1"] tr_hash.
Definition tr_payload2 : SecurityChangePayload := mkPayload "policy" (Some tr_policy2) [] None None None None [] None.
Definition tr_json : JSON :=
  mkJSON (fun raw => Some (if bool_decide (raw = "change") then tr_payload else tr_payload2)) (fun _ => None)
    (fun raw => Some (if bool_decide (raw = "policy") then tr_policy else if bool_decide (raw = "policy2") then tr_policy2 else tr_standard))
    (fun p => if ap_RuntimeSeconds p =? 600 then "policy" else "policy2") (fun _ => "") (fun _ _ _ => "").
Definition tr_proposal (raw : string) : option SecurityChangePayload :=
  if bool_decide (raw = "bytes") then Some tr_payload else if bool_decide (raw = "bytes2") then Some tr_payload2 else None.
Definition tr_member (raw : string) : option string :=
  if bool_decide (raw = "bytes") then Some "change" else if bool_decide (raw = "bytes2") then Some "change2" else None.
Definition tr_envelope : Envelope :=
  mkEnvelope 1 "e1" PolicyCommit (mkActor "olga" "p:olga" "olga" "local" "olga") None 1 tr_hash sd_time "" []
    (Some (mkDetails None None "" None "chg" "chg" tr_hash 1 2 "" "" "" None [] [] "" [])).
Definition tr_envelopes : EnvelopeJSON :=
  mkEnvelopeJSON (fun _ => "{}") (fun _ => Some (tokens_of (JObject []))) (fun _ => Some tr_envelope) (fun _ => "") (fun _ _ => "").
Definition tr_config : TransitionConfig := mkConfig (Some (fun _ => AnchorError)) "inst" MarkerAbsent None None.

Definition tr_people : list string := ["olga"; "ana"; "bo"].
Definition tr_accounts : Accounts :=
  mkAccounts (list_to_map ((fun x => (x, sd_user x)) <$> tr_people))
    (list_to_map ((fun x => (x, mkLink ("p:" +:+ x) "")) <$> tr_people)) ∅
    {[ ("olga", RoleAdmin) := "" ]} ∅
    (list_to_map ((fun x => ("s:" +:+ x, mkSessionRow x "web" sd_time sd_time None None "" "" None None "")) <$> tr_people))
    ∅ ∅ ∅ ∅ ∅ [] ∅ ∅.
Definition tr_initial : Gov :=
  mkGov ∅ ∅ ∅ ∅ (mkPolicyRow 1 PhStandard None "") {[ 1 := (initialStandardPolicy, "", "") ]} ∅ ∅ tr_accounts.
Definition tr_world : World := mkWorld tr_initial MarkerAbsent None [] [] [].

Definition tr_requested : list event :=
  EOther <$> [OIssue "olga" "s:olga" ActionRequest sd_digest sd_time (Some "r1");
              OCreate sd_change tr_nominations "s:olga" (sd_handle "r1") sd_clk] ++ sd_vote "ana" "r2" ++ sd_vote "bo" "r3"
           ++ [OIssue "olga" "s:olga" ActionApply sd_digest sd_time (Some "r4")].

Definition tr_oracle (anchor : anchorRead) : Oracle :=
  mkOracle None sd_clk sd_clk sd_time (mkMarkerIO true true true) None anchor (Ok tt) (Ok "receipt").

Abbreviation tr_run := (foldl (wstep tr_json tr_proposal tr_member tr_envelopes "/marker" tr_config)) (only parsing).
Definition tr_calls (i n : nat) (anchor : anchorRead) : list event := replicate n (ECall i (tr_oracle anchor)).
Definition tr_apply (n : nat) : list event := EStart (RApply "chg" "olga" "s:olga" (sd_handle "r4")) :: tr_calls 0 n AnchorNotFound.

(** The next change, requested and approved once the first is in force. *)
Definition tr_digest2 : string := SecurityDigest "bytes2".
Definition tr_change2 : SecurityChange :=
  mkChange "chg2" 1 "olga" "p:olga" "" "" 0 8 2 tr_digest2 "longer" "change2" "bytes2" "requested"
    sd_time (sd_time + Hour) [] "" "" "".
Definition tr_vote2 (user rnd : string) : list gop :=
  [OIssue user ("s:" +:+ user) ActionApprove tr_digest2 sd_time (Some rnd);
   OApprove tr_change2 (mkApproval user ("p:" +:+ user) "" sd_time 8 None) ("s:" +:+ user) (sd_handle rnd) sd_clk].
Definition tr_requested2 : list event :=
  EOther <$> [OIssue "olga" "s:olga" ActionRequest tr_digest2 sd_time (Some "q1");
              OCreate tr_change2 [] "s:olga" (sd_handle "q1") sd_clk] ++ tr_vote2 "ana" "q2" ++ tr_vote2 "bo" "q3"
           ++ [OIssue "olga" "s:olga" ActionApply tr_digest2 sd_time (Some "q4")].

Definition tr_anchor : PolicyAnchor := mkAnchor "inst" 2 (SecurityDigest "policy") "chg" sd_digest.

(** The first request stops just before it replaces the marker; a retry completes
    the change, the next change is applied, and then the first request goes on. *)
Definition tr_race : list event :=
  tr_requested ++ tr_apply 43 ++ [EStart (RReconcile "chg")] ++ tr_calls 1 40 AnchorNotFound ++ tr_requested2
  ++ [EStart (RApply "chg2" "olga" "s:olga" (sd_handle "q4"))] ++ tr_calls 2 70 (AnchorOk tr_anchor)
  ++ tr_calls 0 1 (AnchorOk tr_anchor).

Lemma tr_migrated : migrated (w_gov tr_world).
Proof. by split. Defined.

Lemma tr_steps es : possibleb tr_json tr_proposal tr_member tr_envelopes "/marker" tr_config tr_world es = true →
  wsteps tr_json tr_proposal tr_member tr_envelopes "/marker" tr_config tr_world (tr_run tr_world es).
Proof. apply possibleb_wsteps. constructor. Defined.

(** The hub stops right after the activation and starts again. *)
Definition tr_restart : list event :=
  tr_requested ++ tr_apply 51 ++ [ECrash; EStart RStart] ++ tr_calls 0 40 (AnchorOk tr_anchor).

Lemma version_in_force_is_backed_witness :
  pl_active (gv_policy (w_gov (tr_run tr_world tr_restart))) = 2 ∧ pl_change (gv_policy (w_gov (tr_run tr_world tr_restart))) = "" ∧
  backed tr_config (tr_run tr_world tr_restart) 2.
Proof.
  assert (E : pl_active (gv_policy (w_gov (tr_run tr_world tr_restart))) = 2) by (vm_compute; reflexivity).
  destruct (version_in_force_is_backed tr_json tr_proposal tr_member tr_envelopes "/marker" tr_config tr_world
              (tr_run tr_world tr_restart)) as [_ H].
  - apply tr_migrated.
  - reflexivity.
  - apply tr_steps. vm_compute. reflexivity.
  - rewrite E in *. split; [reflexivity|]. split; [vm_compute; reflexivity|]. apply H. lia.
Defined.

Lemma tr_schema es : possibleb tr_json tr_proposal tr_member tr_envelopes "/marker" tr_config tr_world es = true →
  schema (w_gov (tr_run tr_world es)).
Proof.
  intros H. eapply inv_schema; [apply tr_migrated|]. eapply wsteps_safe; [apply tr_migrated|reflexivity|reflexivity|].
  apply tr_steps, H.
Defined.

Definition tr_stopped : World := tr_run tr_world (tr_requested ++ tr_apply 51 ++ [ECrash]).
Definition tr_read {A} (r : result A) (d : A) : A := match r with Ok a => a | Err _ => d end.
Definition tr_none : PolicyVersion := mkPolicyVersion 0 tr_standard "" "".
Definition tr_c : SecurityChange := tr_read (GetSecurityChange tr_member (w_gov tr_stopped) "chg") sd_change.
Definition tr_state : PolicyState :=
  tr_read (GetPolicyState tr_json (view tr_member (w_gov tr_stopped))) (mkPolicyState tr_none None "" None "").
Definition tr_pending : PolicyVersion := default tr_none (ps_Pending tr_state).
Definition tr_old : PolicyVersion := tr_read (GetPolicyVersion tr_json (view tr_member (w_gov tr_stopped)) 1) tr_none.
Definition tr_user : User := default (sd_user "olga") (ac_users (gv_accounts (w_gov tr_stopped)) !! "olga").

Lemma reconcile_finishes_witness :
  ∃ c', (run tr_json tr_proposal tr_member "/marker" (fun _ => tr_oracle (AnchorOk tr_anchor)) tr_stopped
           (ReconcileChange tr_json tr_envelopes "/marker" tr_config "chg")).2 = Ok c' ∧ c_State c' = "applied".
Proof.
  assert (Hn : gv_evidence (w_gov tr_stopped) !! (c_ID tr_c, PolicyResult) = None) by (vm_compute; reflexivity).
  edestruct (reconcile_finishes tr_json tr_proposal tr_member tr_envelopes "/marker" tr_config tr_stopped "chg" tr_c tr_state
    tr_old tr_pending tr_payload tr_payload tr_user tr_user tr_anchor (fun _ => tr_oracle (AnchorOk tr_anchor)))
    as (c' & H1 & H2 & _).
  16:{ intros now rec. rewrite Hn. intros ->. vm_compute. reflexivity. }
  all: try (vm_compute; reflexivity).
  - apply tr_schema. vm_compute. reflexivity.
  - discriminate.
  - discriminate.
  - intros n. split; try reflexivity. exists "receipt". split; [reflexivity|discriminate].
  - exists c'. split; assumption.
Defined.

Lemma governance_records_valid_witness :
  AuditRecord.Validate (evidenceRecord tr_config tr_c PolicyAnchorType tr_pending tr_user tr_user sd_time) = Ok tt.
Proof.
  apply (governance_records_valid tr_config tr_c tr_pending tr_user tr_user sd_time PolicyAnchorType).
  - split; [split; vm_compute; [reflexivity|discriminate]|vm_compute; reflexivity..| |split; vm_compute; [reflexivity|discriminate]| | | | |].
    + split; vm_compute; [reflexivity|discriminate].
    + vm_compute. lia.
    + assert (E : forallb (fun a => ValidID (a_UserID a) && ValidID (a_PersonID a) && ValidHash (a_ProofSHA256 a)
                                    && negb (a_ApprovedAt a =? 0)) (c_Approvals tr_c) = true) by (vm_compute; reflexivity).
      intros a Ha. apply list_elem_of_In in Ha. apply (proj1 (forallb_forall _ _) E) in Ha. clear E. bool_hyps. z_hyps. by split_and!.
    + split; [vm_compute; discriminate|vm_compute; reflexivity].
    + split; vm_compute; [discriminate|reflexivity].
    + vm_compute. discriminate.
  - apply (bool_decide_eq_true_1 (PolicyAnchorType ∈ kinds)). vm_compute. reflexivity.
  - intros _. vm_compute. reflexivity.
Defined.

(** C37. The replacement of the marker is not atomic with its check: a request that
    stops between the two and goes on after a retry and a later change have
    completed puts the older marker back.  Nothing is in flight, but the next
    check of the anchor fails and closes access, which the marker of the version
    in force would pass. *)
Theorem marker_overtaken :
  wsteps tr_json tr_proposal tr_member tr_envelopes "/marker" tr_config tr_world (tr_run tr_world tr_race) ∧
  let w := tr_run tr_world tr_race in
  let anchor := AnchorOk (mkAnchor "inst" 3 (SecurityDigest "policy2") "chg2" tr_digest2) in
  gv_policy (w_gov w) = mkPolicyRow 3 PhEnhanced None "" ∧
  w_marker w = MarkerOk (mkMarker "inst" 2 (SecurityDigest "policy")) ∧
  ValidateAnchor tr_json (view tr_member (w_gov w)) (answered tr_config (w_marker w) anchor) = Err ErrRecovery ∧
  ValidateAnchor tr_json (view tr_member (w_gov w))
    (answered tr_config (MarkerOk (mkMarker "inst" 3 (SecurityDigest "policy2"))) anchor) = Ok tt.
Proof.
  split; [apply tr_steps; vm_compute; reflexivity|]. split; [vm_compute; reflexivity|]. split; [vm_compute; reflexivity|].
  split; vm_compute; reflexivity.
Qed.
