(* ===== verification/LogTailer.v ===== *)
(** The agent's log tailer (agent/internal/logtailer/tailer.go): the path check,
    the poll that reads what was appended or a file that replaced the old one, and
    the line filter.  What the file system and the selects answer in one poll is
    the record [Poll]; data are byte lists. *)

From S2P Require Import Prelude Filepath FileBrowser.

Definition errStopped : goerr := Sentinel "context.Canceled".
Definition blockedLogPaths : list string :=
  ["/etc/shadow"; "/etc/gshadow"; "/etc/sudoers"; "/etc/sudoers.d"; "/etc/veyport"; "/root/.ssh";
   "/proc/self"; "/proc/kcore"; "/sys/firmware"].
Definition blockedLogPrefixes : list string := ["/proc/"; "/sys/kernel/"].

Definition isBlockedPath (path : string) : bool :=
  existsb (fun blocked => bool_decide (path = blocked) || HasPrefix path (blocked +:+ "/")) blockedLogPaths
  || existsb (fun prefix => HasPrefix path prefix) blockedLogPrefixes.

(** [eval] is [filepath.EvalSymlinks]. *)
Definition validateLogPath (eval : string → option string) (path : string) : result string :=
  check! Contains path "..", ErrText "path traversal not allowed";
  let cleaned := Clean path in
  check! negb (IsAbs cleaned), ErrText "path must be absolute";
  check! isBlockedPath cleaned, ErrText errPathRestricted;
  match eval cleaned with
  | None => Err (ErrText "cannot resolve path")
  | Some resolved =>
      check! isBlockedPath resolved, ErrText errPathRestricted;
      check! negb (bool_decide (resolved = cleaned)) && negb (HasPrefix resolved (cleaned +:+ "/")),
        ErrText "path resolves outside requested directory";
      Ok resolved
  end.

(** ** Sending *)

Record LogChunk := mkLogChunk { lc_Data : list Z; lc_Offset : Z }.

(** What the select of [sendChunk] takes: the channel, the context or the stop. *)
Inductive sent := SendOk | SendDone (e : goerr) | SendStop.

Definition sendChunk (s : sent) (data : list Z) (offset : Z) : result (option LogChunk) :=
  match s with
  | SendOk => Ok (Some (mkLogChunk data offset))
  | SendDone e => Err e
  | SendStop => Err errStopped
  end.

(** [bufio.Scanner] with [ScanLines]: the lines without their terminators, a
    carriage return before it dropped; a line of more than 65535 bytes ends the
    scan. *)
Definition MaxScanTokenSize : Z := 65536.

Fixpoint split_lines (cur : list Z) (data : list Z) : list (list Z) :=
  match data with
  | [] => if bool_decide (cur = []) then [] else [rev cur]
  | b :: t => if b =? 10 then rev cur :: split_lines [] t else split_lines (b :: cur) t
  end.

Definition dropCR (line : list Z) : list Z :=
  match rev line with 13 :: t => rev t | _ => line end.

Fixpoint scanned (lines : list (list Z)) : list (list Z) :=
  match lines with
  | [] => []
  | l :: t => if MaxScanTokenSize <=? Z.of_nat (length l) then [] else dropCR l :: scanned t
  end.

Section tailer.
(** [strings.ToLower], and the lowered search text. *)
Context (ToLower : list Z → list Z) (grepLower : list Z).

Definition contains (l sub : list Z) : bool := existsb (fun n => bool_decide (take (length sub) (drop n l) = sub)) (seq 0 (S (length l))).

Definition filterLines (data : list Z) : list Z :=
  scanned (split_lines [] data) ≫= (fun line => if contains (ToLower line) grepLower then line ++ [10] else []).

Definition sendFilteredContext (s : sent) (data : list Z) (offset : Z) : result (option LogChunk) :=
  let outData := if bool_decide (grepLower = []) then data else filterLines data in
  if bool_decide (outData = []) then Ok None else sendChunk s outData offset.

(** ** Polling *)

Record Poll := mkPoll {
  p_size : option Z;               (* os.Stat *)
  p_reopened : option (list Z);    (* os.Open of the path: the contents then *)
  p_readAll : bool;                (* io.ReadAll succeeds *)
  p_seek : bool;
  p_read : option (list Z);        (* f.Read: the bytes read *)
  p_send : sent;
}.

Definition readLimit : Z := Z.shiftl 1 20.

(** The file is replaced or not, the offset, the error, what was sent. *)
Record Polled := mkPolled { pd_new : bool; pd_offset : Z; pd_err : option goerr; pd_sent : option LogChunk }.

Definition readNewDataContext (p : Poll) (lastOffset : Z) : Polled :=
  match p_size p with
  | None => mkPolled false lastOffset (Some (ErrText "cannot stat log file")) None
  | Some currentSize =>
      if currentSize <? lastOffset then
        match p_reopened p with
        | None => mkPolled false lastOffset (Some (ErrText "cannot reopen log file")) None
        | Some content =>
            if negb (p_readAll p) then mkPolled false lastOffset (Some (ErrText "cannot read log file")) None
            else match sendFilteredContext (p_send p) (take (Z.to_nat readLimit) content) currentSize with
                 | Err e => mkPolled false lastOffset (Some e) None
                 | Ok chunk => mkPolled true currentSize None chunk
                 end
        end
      else if currentSize =? lastOffset then mkPolled false lastOffset None None
      else if negb (p_seek p) then mkPolled false lastOffset (Some (ErrText "cannot seek log file")) None
      else match p_read p with
           | None => mkPolled false lastOffset (Some (ErrText "cannot read log file")) None
           | Some [] => mkPolled false lastOffset None None
           | Some data =>
               let newOffset := lastOffset + Z.of_nat (length data) in
               match sendFilteredContext (p_send p) data newOffset with
               | Err e => mkPolled false newOffset (Some e) None
               | Ok chunk => mkPolled false newOffset None chunk
               end
           end
  end.

(** The size of the buffer of a read. *)
Definition readSize (currentSize lastOffset : Z) : Z :=
  if readLimit <? currentSize - lastOffset then readLimit else currentSize - lastOffset.

(** What the select of the loop takes. *)
Inductive tick := Tick (p : Poll) | TickDone (e : goerr) | TickStop.

(** The loop of [Tail]: the offset, the error it returns, the chunks sent; the
    list is what the selects took so far. *)
Fixpoint tail (ts : list tick) (offset : Z) : Z * option goerr * list LogChunk :=
  match ts with
  | [] => (offset, None, [])
  | TickDone e :: _ => (offset, Some e, [])
  | TickStop :: _ => (offset, None, [])
  | Tick p :: t =>
      let r := readNewDataContext p offset in
      let out := option_list (pd_sent r) in
      match pd_err r with
      | Some e => (pd_offset r, Some e, out)
      | None => let '(o, e, cs) := tail t (pd_offset r) in (o, e, out ++ cs)
      end
  end.

(** [Tail]: the path is checked, the file opened and positioned; [size] is what
    seeking to the end answers, [seek] whether seeking succeeds. *)
Definition Tail (eval : string → option string) (opens : string → bool) (path : string) (size : option Z) (seek : bool)
    (offset : Z) (ts : list tick) : Z * option goerr * list LogChunk :=
  match validateLogPath eval path with
  | Err e => (offset, Some e, [])
  | Ok resolved =>
      if negb (opens resolved) then (offset, Some (ErrText "cannot open log file"), [])
      else if offset <=? 0 then
        match size with
        | None => (offset, Some (ErrText "cannot seek log file"), [])
        | Some pos => tail ts pos
        end
      else if negb seek then (offset, Some (ErrText "cannot seek log file"), [])
      else tail ts offset
  end.

(** ** Following a file that grows *)

(** A poll that sees the contents [c]: nothing fails, and the read returns some
    bytes from the offset on, at most the buffer. *)
Definition sees (c : list Z) (offset : Z) (p : Poll) : Prop :=
  p_size p = Some (Z.of_nat (length c)) ∧ p_seek p = true ∧ p_send p = SendOk ∧
  ∃ k, (k ≤ Z.to_nat (readSize (Z.of_nat (length c)) offset))%nat ∧ p_read p = Some (take k (drop (Z.to_nat offset) c)).

(** Polls of a file that is only appended to, from contents [c] to [c']. *)
Inductive follows : list Z → Z → list tick → list Z → Prop :=
| follows_nil c offset : follows c offset [] c
| follows_cons c c1 offset p ps c' : c `prefix_of` c1 → sees c1 offset p →
    follows c1 (pd_offset (readNewDataContext p offset)) ps c' → follows c offset (Tick p :: ps) c'.

Definition slice (c : list Z) (from upto : Z) : list Z := take (Z.to_nat (upto - from)) (drop (Z.to_nat from) c).

(** The chunks are the contents from [from] on, each with the offset of its end. *)
Fixpoint cover (c : list Z) (from : Z) (cs : list LogChunk) : Prop :=
  match cs with
  | [] => True
  | x :: t => from < lc_Offset x ∧ lc_Data x = slice c from (lc_Offset x) ∧ cover c (lc_Offset x) t
  end.

Lemma slice_prefix c c' from upto : c `prefix_of` c' → 0 ≤ from → upto ≤ Z.of_nat (length c) → slice c from upto = slice c' from upto.
Proof using.
  intros [l ->] Hf Hu. unfold slice. destruct (decide (from < upto)) as [Hlt|Hge].
  - rewrite drop_app_le by lia. rewrite take_app_le; [done|]. rewrite length_drop. lia.
  - by replace (Z.to_nat (upto - from)) with 0%nat by lia.
Qed.

Lemma slice_app c a b d : 0 ≤ a ≤ b → b ≤ d → slice c a b ++ slice c b d = slice c a d.
Proof using.
  intros H1 H2. unfold slice. replace (Z.to_nat (d - a)) with (Z.to_nat (b - a) + Z.to_nat (d - b))%nat by lia.
  rewrite <- take_take_drop, drop_drop. do 3 f_equal. lia.
Qed.

Hypothesis no_grep : grepLower = [].

(** One poll that sees [c]. *)
Lemma poll_reads c offset p : sees c offset p → 0 ≤ offset ≤ Z.of_nat (length c) →
  let r := readNewDataContext p offset in
  pd_err r = None ∧ offset ≤ pd_offset r ≤ Z.of_nat (length c) ∧
  match pd_sent r with
  | None => pd_offset r = offset
  | Some x => lc_Offset x = pd_offset r ∧ offset < pd_offset r ∧ lc_Data x = slice c offset (pd_offset r)
  end.
Proof using no_grep.
  intros (Hs & Hk & Hd & k & Hle & Hr) Ho. unfold readNewDataContext. rewrite Hs, Hk, Hr.
  rewrite (proj2 (Z.ltb_ge _ _)) by lia. destruct (Z.of_nat (length c) =? offset) eqn:E; z_hyps; [cbn; split_and!; (done || lia)|]. cbn [negb].
  set (data := take k (drop (Z.to_nat offset) c)). assert (Hl : length data = k).
  { unfold data. rewrite length_take, length_drop. unfold readSize in Hle. destruct (readLimit <? _) eqn:E2 in Hle; z_hyps;
      [unfold readLimit in *; cbn in *|]; lia. }
  destruct data as [|b d] eqn:Ed; [cbn; split_and!; (done || lia)|]. rewrite <- Ed in *.
  unfold sendFilteredContext. rewrite (bool_decide_eq_true_2 (grepLower = [])) by done.
  rewrite bool_decide_eq_false_2 by (rewrite Ed; done). rewrite Hd. cbn.
  assert (0 < k)%nat by (rewrite <- Hl, Ed; cbn; lia).
  assert (Hb : (k ≤ length c - Z.to_nat offset)%nat) by (rewrite <- length_drop, <- Hl; unfold data; rewrite length_take; lia).
  rewrite Hl. split_and!; try done; try lia. unfold slice. unfold data. f_equal. lia.
Qed.

Lemma follows_prefix c offset ps c' : follows c offset ps c' → c `prefix_of` c'.
Proof using. induction 1; [done|by etransitivity]. Qed.

Lemma tail_covers c offset ps c' : follows c offset ps c' → 0 ≤ offset ≤ Z.of_nat (length c) →
  ∃ o cs, tail ps offset = (o, None, cs) ∧ offset ≤ o ≤ Z.of_nat (length c') ∧ cover c' offset cs ∧
    concat (lc_Data <$> cs) = slice c' offset o.
Proof using no_grep.
  induction 1 as [c offset|c c1 offset p ps c' Hp Hs Hf IH]; intros Ho.
  { exists offset, []. split_and!; try done; try lia. unfold slice. by rewrite Z.sub_diag. }
  assert (Hl : (length c ≤ length c1)%nat) by by apply prefix_length.
  destruct (poll_reads c1 offset p Hs) as (He & Hb & Hsent); [lia|]. destruct (IH ltac:(lia)) as (o & cs & Et & Hoo & Hc & Hcat).
  cbn. rewrite He, Et. eexists o, _. split; [done|]. split; [lia|]. pose proof (follows_prefix _ _ _ _ Hf) as Hpre.
  destruct (pd_sent (readNewDataContext p offset)) as [x|]; cbn.
  - destruct Hsent as (Ex & Hlt & Hdata). rewrite Ex, Hdata, Hcat, (slice_prefix c1 c') by (done || lia).
    split_and!; try done. apply slice_app; lia.
  - rewrite Hsent in *. by split_and!.
Qed.
End tailer.

(** Following a log that is only appended to loses and invents nothing:
    without a search text, whatever the sizes of the reads, the chunks sent are
    exactly the bytes of the file from the starting offset to the offset reached,
    in order, each labelled with the offset of its end. *)
Theorem tail_lossless ToLower c offset ps c' : follows ToLower [] c offset ps c' → 0 ≤ offset ≤ Z.of_nat (length c) →
  ∃ o cs, tail ToLower [] ps offset = (o, None, cs) ∧ offset ≤ o ≤ Z.of_nat (length c') ∧ cover c' offset cs ∧
    concat (lc_Data <$> cs) = slice c' offset o.
Proof. intros H Ho. by apply (tail_covers _ _ eq_refl c). Qed.

(** Three polls: ten bytes, a short read, the rest. *)
Definition lt_poll (size : Z) (read : list Z) : Poll := mkPoll (Some size) None true true (Some read) SendOk.

Lemma tail_lossless_witness :
  ∃ o cs, tail (fun l => l) [] [Tick (lt_poll 3 [2; 3]); Tick (lt_poll 6 [4]); Tick (lt_poll 6 [5; 6])] 1 = (o, None, cs) ∧ o = 6 ∧
    concat (lc_Data <$> cs) = [2; 3; 4; 5; 6].
Proof.
  destruct (tail_lossless (fun l => l) [1] 1 [Tick (lt_poll 3 [2; 3]); Tick (lt_poll 6 [4]); Tick (lt_poll 6 [5; 6])] [1; 2; 3; 4; 5; 6]) as (o & cs & E & H1 & _ & H2).
  - apply (follows_cons _ _ [1] [1; 2; 3]); [by exists [2; 3]| |].
    { split_and!; try reflexivity. exists 2%nat. split; [vm_compute; lia|reflexivity]. }
    apply (follows_cons _ _ [1; 2; 3] [1; 2; 3; 4; 5; 6]); [by exists [4; 5; 6]| |].
    { split_and!; try reflexivity. exists 1%nat. split; [vm_compute; lia|reflexivity]. }
    apply (follows_cons _ _ [1; 2; 3; 4; 5; 6] [1; 2; 3; 4; 5; 6]); [reflexivity| |].
    { split_and!; try reflexivity. exists 2%nat. split; [vm_compute; lia|reflexivity]. }
    apply follows_nil.
  - vm_compute. split; discriminate.
  - vm_compute in E. injection E as <- <-. eexists _, _. split; [reflexivity|]. split; reflexivity.
Defined.

(** A file that replaced the one followed is read only up to 1 MiB, but the
    offset moves to its full size: when it is larger, the bytes in between are
    never sent, without an error. *)
Theorem rotation_skips ToLower p offset content : p_size p = Some (Z.of_nat (length content)) → p_reopened p = Some content →
  p_readAll p = true → p_send p = SendOk → readLimit < Z.of_nat (length content) < offset →
  readNewDataContext ToLower [] p offset =
    mkPolled true (Z.of_nat (length content)) None (Some (mkLogChunk (take (Z.to_nat readLimit) content) (Z.of_nat (length content)))) ∧
  Z.of_nat (length (take (Z.to_nat readLimit) content)) < Z.of_nat (length content).
Proof.
  intros Hs Hr Ha Hd Hl. unfold readNewDataContext. rewrite Hs, Hr, Ha. rewrite (proj2 (Z.ltb_lt _ _)) by lia. cbn [negb].
  assert (Ht : Z.of_nat (length (take (Z.to_nat readLimit) content)) = readLimit).
  { rewrite length_take. change readLimit with 1048576 in *. lia. }
  unfold sendFilteredContext. rewrite (bool_decide_eq_true_2 ([] = [])) by done. rewrite bool_decide_eq_false_2, Hd; [split; [done|lia]|].
  intros E. rewrite E in Ht. discriminate Ht.
Qed.

Lemma rotation_skips_witness : ∃ p content,
  readNewDataContext (fun l => l) [] p (2 * readLimit) =
    mkPolled true (Z.of_nat (length content)) None (Some (mkLogChunk (take (Z.to_nat readLimit) content) (Z.of_nat (length content)))).
Proof.
  set (content := replicate (Z.to_nat (readLimit + 1)) 0).
  assert (E : Z.of_nat (length content) = readLimit + 1).
  { unfold content. rewrite length_replicate. rewrite Z2Nat.id; [reflexivity|discriminate]. }
  exists (mkPoll (Some (Z.of_nat (length content))) (Some content) true true None SendOk), content.
  apply rotation_skips; try reflexivity. rewrite E. split; reflexivity.
Defined.
