(* ===== verification/Dropzone.v ===== *)
(** The agent's drop zone (agent/internal/dropzone/dropzone.go): uploads are
    assembled in a temporary file and renamed when the last chunk arrives.  The
    directory is a map from paths to files, and an open file keeps its contents
    when its path is removed or replaced; there are no directories below it.  The
    activity of an upload is taken from the shared [Budget].  What the system calls answer is the record [Io]. *)

From S2P Require Import Prelude Filepath Budget.

Definition errFileOperation : string := "file operation failed".
Definition MaxUploadSize : Z := 100 * 1024 * 1024.
Definition MaxConcurrentUploads : nat := 10.

(** ** Files *)

Record Fs := mkFs { fs_names : gmap string nat; fs_data : gmap nat (list Z); fs_next : nat }.

(** Which calls succeed; a failing write may have written some bytes. *)
Record Io := mkIo { io_open : bool; io_write : option nat; io_rename : bool; io_remove : bool; io_close : bool }.

(** [os.OpenFile] with O_CREATE and O_EXCL. *)
Definition OpenFile (fs : Fs) (io : Io) (path : string) : option (Fs * nat) :=
  match fs_names fs !! path with
  | Some _ => None
  | None => if io_open io then
              Some (mkFs (<[path := fs_next fs]> (fs_names fs)) (<[fs_next fs := []]> (fs_data fs)) (S (fs_next fs)), fs_next fs)
            else None
  end.

Definition WriteFile (fs : Fs) (io : Io) (ino : nat) (data : list Z) : Fs * bool :=
  let n := default (length data) (io_write io) in
  (mkFs (fs_names fs) (<[ino := default [] (fs_data fs !! ino) ++ take n data]> (fs_data fs)) (fs_next fs),
   bool_decide (io_write io = None)).

Definition Remove (fs : Fs) (ok : bool) (path : string) : Fs :=
  if ok then mkFs (delete path (fs_names fs)) (fs_data fs) (fs_next fs) else fs.

Definition Rename (fs : Fs) (io : Io) (from upto : string) : option Fs :=
  match fs_names fs !! from with
  | Some ino => if io_rename io then Some (mkFs (<[upto := ino]> (delete from (fs_names fs))) (fs_data fs) (fs_next fs)) else None
  | None => None
  end.

Definition contents (fs : Fs) (path : string) : option (list Z) := fs_names fs !! path ≫= fun ino => fs_data fs !! ino.

(** ** Uploads *)

Record uploadState := mkUpload { u_name : string; u_file : nat; u_bytes : Z; u_finalName : string; u_release : nat }.
Record Dropzone := mkDropzone { d_dir : string; d_uploads : gmap string uploadState; d_budget : Budget; d_fs : Fs }.
Record FileUploadAck := mkAck { ack_RequestId : string; ack_Success : bool; ack_Error : string }.

Record FileDeleteResponse := mkDeleted { fd_RequestId : string; fd_Success : bool; fd_Error : string }.

Definition d_with (d : Dropzone) (us : gmap string uploadState) (b : Budget) (fs : Fs) : Dropzone := mkDropzone (d_dir d) us b fs.

Definition NewWithBudget (dir : string) (budget : Budget) (fs : Fs) : Dropzone := mkDropzone dir ∅ budget fs.

Definition sanitizeFilename (name : string) : string :=
  let base := Base name in
  if bool_decide (base = ".") || bool_decide (base = "..") || bool_decide (base = "/") then "" else base.

Definition tmpPath (d : Dropzone) (requestID : string) : string := Join [d_dir d; ".upload-" +:+ requestID].

Definition openNewUpload (d : Dropzone) (io : Io) (requestID filename : string) : Dropzone * (uploadState + FileUploadAck) :=
  if (MaxConcurrentUploads <=? size (d_uploads d))%nat then (d, inr (mkAck requestID false "too many concurrent uploads"))
  else if bool_decide (filename = "") then (d, inr (mkAck requestID false "no filename provided"))
  else
    let safe := sanitizeFilename filename in
    if bool_decide (safe = "") then (d, inr (mkAck requestID false "invalid filename"))
    else match AcquireActivity (d_budget d) with
         | (_, None) => (d, inr (mkAck requestID false "agent maintenance or activity capacity is active"))
         | (b, Some release) =>
             match OpenFile (d_fs d) io (tmpPath d requestID) with
             | None => (d_with d (d_uploads d) (releaseActivity b release) (d_fs d), inr (mkAck requestID false errFileOperation))
             | Some (fs, f) => (d_with d (d_uploads d) b fs, inl (mkUpload (tmpPath d requestID) f 0 safe release))
             end
         end.

(** Closing and removing the temporary file, forgetting the upload and releasing
    its activity. *)
Definition discard (d : Dropzone) (removed : bool) (requestID : string) (state : uploadState) : Dropzone :=
  d_with d (delete requestID (d_uploads d)) (releaseActivity (d_budget d) (u_release state)) (Remove (d_fs d) removed (u_name state)).

(** The part of [HandleChunk] that writes the data. *)
Definition writeChunk (d : Dropzone) (io : Io) (requestID : string) (state : uploadState) (data : list Z) : Dropzone * (uploadState + FileUploadAck) :=
  if bool_decide (data = []) then (d, inl state)
  else if MaxUploadSize <? u_bytes state + Z.of_nat (length data) then
    (discard d (io_remove io) requestID state, inr (mkAck requestID false "file size limit exceeded"))
  else
    let '(fs, ok) := WriteFile (d_fs d) io (u_file state) data in
    let d := d_with d (d_uploads d) (d_budget d) fs in
    if ok then
      let state := mkUpload (u_name state) (u_file state) (u_bytes state + Z.of_nat (length data)) (u_finalName state) (u_release state) in
      (d_with d (<[requestID := state]> (d_uploads d)) (d_budget d) fs, inl state)
    else (discard d (io_remove io) requestID state, inr (mkAck requestID false errFileOperation)).

(** The part that finishes the upload. *)
Definition finishUpload (d : Dropzone) (io : Io) (requestID : string) (state : uploadState) : Dropzone * FileUploadAck :=
  match Rename (d_fs d) io (u_name state) (Join [d_dir d; u_finalName state]) with
  | None => (discard d (io_remove io) requestID state, mkAck requestID false errFileOperation)
  | Some fs => (d_with d (delete requestID (d_uploads d)) (releaseActivity (d_budget d) (u_release state)) fs, mkAck requestID true "")
  end.

Definition HandleChunk (d : Dropzone) (io : Io) (requestID filename : string) (data : list Z) (done : bool) : Dropzone * option FileUploadAck :=
  let opened :=
    match d_uploads d !! requestID with
    | Some state => (d, inl state)
    | None => match openNewUpload d io requestID filename with
              | (d, inl state) => (d_with d (<[requestID := state]> (d_uploads d)) (d_budget d) (d_fs d), inl state)
              | (d, inr ack) => (d, inr ack)
              end
    end in
  match opened with
  | (d, inr ack) => (d, Some ack)
  | (d, inl state) =>
      match writeChunk d io requestID state data with
      | (d, inr ack) => (d, Some ack)
      | (d, inl state) =>
          if done then let '(d, ack) := finishUpload d io requestID state in (d, Some ack)
          else (d, None)
      end
  end.

(** [removed] says for each upload whether removing its file succeeds. *)
Definition Cleanup (d : Dropzone) (removed : string → bool) : Dropzone :=
  foldl (fun d '(id, state) => discard d (removed id) id state) d (map_to_list (d_uploads d)).

Definition Abort (d : Dropzone) (io : Io) (requestID : string) : Dropzone * FileUploadAck :=
  match d_uploads d !! requestID with
  | None => (d, mkAck requestID false "upload aborted")
  | Some state =>
      let missing := bool_decide (fs_names (d_fs d) !! u_name state = None) in
      (discard d (io_remove io) requestID state,
       mkAck requestID false (if negb (io_close io) || (negb (io_remove io) && negb missing) then errFileOperation else "upload aborted"))
  end.

(** ** The agent's handlers around it (agent/internal/client/client.go) *)

Definition dropzonePathAlias : string := "veyport://dropzone".

Definition TrimPrefix (s p : string) : string := if HasPrefix s p then String.substring (String.length p) (String.length s) s else s.

Definition resolveAgentPath (d : Dropzone) (path : string) : string :=
  if bool_decide (path = dropzonePathAlias) then d_dir d
  else
    let prefix := dropzonePathAlias +:+ "/" in
    if HasPrefix path prefix then Join [d_dir d; Clean (TrimPrefix path prefix)] else path.

Definition handleFileDeleteRequest (d : Dropzone) (io : Io) (requestID path : string) : Dropzone * FileDeleteResponse :=
  let cleanPath := Clean (resolveAgentPath d path) in
  let dropzonePrefix := Clean (d_dir d) +:+ "/" in
  if negb (HasPrefix cleanPath dropzonePrefix) then (d, mkDeleted requestID false "deletion only allowed from dropzone directory")
  else if bool_decide (fs_names (d_fs d) !! cleanPath = None) || negb (io_remove io) then (d, mkDeleted requestID false "file operation failed")
  else (d_with d (d_uploads d) (d_budget d) (Remove (d_fs d) true cleanPath), mkDeleted requestID true "").

(** ** Runs *)

(** The handlers, and what other parts of the agent do to the budget. *)
Inductive dev :=
| EChunk (io : Io) (id filename : string) (data : list Z) (done : bool)
| EAbort (io : Io) (id : string)
| ECleanup (removed : string → bool)
| EDelete (io : Io) (id path : string)
| EBudget (o : op).

(** What a handler sends back. *)
Inductive answer := Ack (ack : FileUploadAck) | Deleted (resp : FileDeleteResponse).

Definition dstep (d : Dropzone) (e : dev) : Dropzone * option answer :=
  match e with
  | EChunk io id filename data done => let '(d, ack) := HandleChunk d io id filename data done in (d, Ack <$> ack)
  | EAbort io id => let '(d, ack) := Abort d io id in (d, Some (Ack ack))
  | ECleanup removed => (Cleanup d removed, None)
  | EDelete io id path => let '(d, resp) := handleFileDeleteRequest d io id path in (d, Some (Deleted resp))
  | EBudget o => (d_with d (d_uploads d) (run_op (d_budget d) o) (d_fs d), None)
  end.

Fixpoint druns (d : Dropzone) (es : list dev) : Dropzone * list (option answer) :=
  match es with
  | [] => (d, [])
  | e :: t => let '(d, a) := dstep d e in let '(d, l) := druns d t in (d, a :: l)
  end.

Definition all_good : Io := mkIo true None true true true.

Definition dz_example : Dropzone := NewWithBudget "/tmp/veyport-dropzone" (New 8) (mkFs ∅ ∅ 0).

Example upload_ex :
  let '(d, acks) := druns dz_example [EChunk all_good "r1" "../a.txt" [1; 2] false; EChunk all_good "r1" "" [3] true] in
  acks = [None; Some (Ack (mkAck "r1" true ""))] ∧ contents (d_fs d) "/tmp/veyport-dropzone/a.txt" = Some [1; 2; 3] ∧ ActivityCount (d_budget d) = 0.
Proof. vm_compute. done. Qed.

(** ** Paths of single elements *)

(** A path element: no separator, not empty and neither [.] nor [..]. *)
Definition single (x : string) : Prop := split_at slash x = [x] ∧ x ≠ "" ∧ x ≠ "." ∧ x ≠ "..".

#[export] Instance single_dec x : Decision (single x).
Proof. unfold single. apply _. Defined.

Lemma split_at_nonempty c s : split_at c s ≠ [].
Proof. destruct s as [|a s]; [done|]. cbn. case_bool_decide; [done|]. by destruct (split_at c s). Qed.

Lemma split_at_snoc c s x : split_at c x = [x] → split_at c (s +:+ String c x) = split_at c s ++ [x].
Proof.
  intros Hx. induction s as [|a s IH].
  - change ("" +:+ String c x) with (String c x). cbn. by rewrite bool_decide_eq_true_2, Hx.
  - change (String a s +:+ String c x) with (String a (s +:+ String c x)). cbn. case_bool_decide; [by rewrite IH|]. rewrite IH. by destruct (split_at c s) eqn:E; [destruct (split_at_nonempty c s)|].
Qed.

Lemma split_at_elements c s e : e ∈ split_at c s → split_at c e = [e].
Proof.
  revert e. induction s as [|a s IH]; cbn; intros e.
  - intros ->%list_elem_of_singleton. done.
  - case_bool_decide as Ha.
    + intros [->|H]%elem_of_cons; [done|by apply IH].
    + destruct (split_at c s) as [|h t] eqn:E; [by destruct (split_at_nonempty c s)|].
      intros [->|H]%elem_of_cons; [|apply IH; by right].
      cbn. rewrite bool_decide_eq_false_2 by done. by rewrite (IH h) by by left.
Qed.

Lemma sanitize_single name : sanitizeFilename name ≠ "" → single (sanitizeFilename name).
Proof.
  unfold sanitizeFilename. destruct (_ || _ || _) eqn:E; [done|]. bool_hyps. intros Hne. split_and!; try done.
  unfold Base in *. destruct (filter _ _) as [|h t] eqn:Ef.
  { destruct (bool_decide (name = "")); done. }
  apply (split_at_elements slash name). assert (Hin : List.last (h :: t) "" ∈ h :: t).
  { clear. revert h. induction t as [|x t IH]; intros h; [by left|]. right. apply IH. }
  set (l := List.last _ _) in *. clearbody l. rewrite <- Ef in Hin. by apply list_elem_of_filter in Hin as [_ ?].
Qed.

Lemma upload_single id : split_at slash id = [id] → single (".upload-" +:+ id).
Proof.
  intros H. split_and!; try done. unfold String.append. cbn [split_at]. rewrite H.
  by repeat (rewrite bool_decide_eq_false_2 by done).
Qed.

(** What [Join] puts before a last element depends on the directory only. *)
Definition join_prefix (l : list string) : string := match l with [] => "" | _ => join "/" l +:+ "/" end.

Definition dir_prefix (dir : string) : string :=
  if bool_decide (dir = "") then ""
  else (if IsAbs dir then "/" else "") +:+ join_prefix (clean_elements (IsAbs dir) (split_at slash dir)).

Lemma join_snoc l x : join "/" (l ++ [x]) = join_prefix l +:+ x.
Proof.
  induction l as [|a l IH]; [done|]. destruct l as [|b l]; [cbn; by rewrite string_app_assoc|].
  change (join "/" ((a :: b :: l) ++ [x])) with (a +:+ "/" +:+ join "/" ((b :: l) ++ [x])). rewrite IH.
  change (join_prefix (a :: b :: l)) with ((a +:+ "/" +:+ join "/" (b :: l)) +:+ "/"). change (join_prefix (b :: l)) with (join "/" (b :: l) +:+ "/").
  by rewrite !string_app_assoc.
Qed.

Lemma clean_elements_snoc r l x : single x → clean_elements r (l ++ [x]) = clean_elements r l ++ [x].
Proof.
  intros (_ & H1 & H2 & H3). unfold clean_elements. rewrite foldl_app. cbn. unfold clean_step at 1.
  by rewrite !bool_decide_eq_false_2 by done.
Qed.

Lemma IsAbs_app dir x : dir ≠ "" → IsAbs (dir +:+ x) = IsAbs dir.
Proof. by destruct dir. Qed.

Lemma single_not_abs x : single x → IsAbs x = false.
Proof.
  intros (H & H1 & _). destruct x as [|c x]; [done|]. unfold IsAbs. cbn in *. case_bool_decide as Hc; [done|].
  rewrite andb_true_r. apply bool_decide_eq_false. intros <-. by apply Hc.
Qed.

Lemma string_app_empty (a b : string) : a +:+ b = "" → b = "".
Proof. by destruct a. Qed.

Lemma Join_single dir x : single x → Join [dir; x] = dir_prefix dir +:+ x.
Proof.
  intros Hx. pose proof Hx as (Hs & Hne & _). unfold Join, dir_prefix.
  case_bool_decide as Hd.
  - subst dir. rewrite filter_cons_False, filter_cons_True by naive_solver. rewrite filter_nil. cbn [join]. unfold Clean.
    rewrite (single_not_abs x Hx), Hs. change [x] with ([] ++ [x]). rewrite (clean_elements_snoc false [] x Hx). cbn. by rewrite bool_decide_eq_false_2.
  - rewrite !filter_cons_True, filter_nil by done. cbn [join]. unfold Clean.
    rewrite (IsAbs_app dir) by done. change ("/" +:+ x) with (String slash x). rewrite split_at_snoc, (clean_elements_snoc _ _ x Hx), join_snoc by done.
    destruct (IsAbs dir); [by rewrite string_app_assoc|].
    rewrite bool_decide_eq_false_2; [done|]. intros E%string_app_empty. done.
Qed.

Lemma Join_inj dir x y : single x → single y → Join [dir; x] = Join [dir; y] → x = y.
Proof. intros Hx Hy. rewrite !Join_single by done. apply (inj _). Qed.

(** ** What the drop zone promises *)

(** The live uploads with the name and the data each has so far, and the files
    by path. *)
Record Promise := mkPromise { a_live : gmap string (string * list Z); a_files : gmap string (list Z) }.

Definition a_start (a : Promise) (id filename : string) : string * list Z := default (sanitizeFilename filename, []) (a_live a !! id).

(** A temporary path: the file of a live upload. *)
Definition temporary (dir path : string) : Prop := ∃ id, split_at slash id = [id] ∧ path = Join [dir; ".upload-" +:+ id].

(** The file a path of a request means: one under the alias is in the drop zone,
    any other is the agent's own. *)
Inductive means (dir : string) : string → string → Prop :=
| means_zone : means dir "veyport://dropzone" (Clean dir)
| means_within rest : means dir ("veyport://dropzone/" +:+ rest) (Clean (Join [dir; Clean rest]))
| means_plain path : path ≠ "veyport://dropzone" → HasPrefix path "veyport://dropzone/" = false → means dir path (Clean path).

(** A chunk adds its data to its upload; the last one puts the whole data under
    its name; an upload that fails or is aborted leaves no trace.  A deletion
    that reports success has removed the file the request means, which was in
    the drop zone; one that reports a failure has removed nothing, and fails
    only for a path outside, a file that is not there or a failing call. *)
Inductive astep (dir : string) (a : Promise) : dev → option answer → Promise → Prop :=
| a_more io id filename data name sofar : a_start a id filename = (name, sofar) → single name →
    Z.of_nat (length (sofar ++ data)) ≤ MaxUploadSize →
    astep dir a (EChunk io id filename data false) None (mkPromise (<[id := (name, sofar ++ data)]> (a_live a)) (a_files a))
| a_commit io id filename data name sofar : a_start a id filename = (name, sofar) → single name →
    Z.of_nat (length (sofar ++ data)) ≤ MaxUploadSize →
    astep dir a (EChunk io id filename data true) (Some (Ack (mkAck id true "")))
      (mkPromise (delete id (a_live a)) (<[Join [dir; name] := sofar ++ data]> (a_files a)))
| a_fail io id filename data done text : text ≠ "" →
    astep dir a (EChunk io id filename data done) (Some (Ack (mkAck id false text))) (mkPromise (delete id (a_live a)) (a_files a))
| a_abort io id text : text ≠ "" →
    astep dir a (EAbort io id) (Some (Ack (mkAck id false text))) (mkPromise (delete id (a_live a)) (a_files a))
| a_cleanup removed : astep dir a (ECleanup removed) None (mkPromise ∅ (a_files a))
| a_delete io id path p : means dir path p → HasPrefix p (Clean dir +:+ "/") = true → (¬ temporary dir p → is_Some (a_files a !! p)) →
    astep dir a (EDelete io id path) (Some (Deleted (mkDeleted id true ""))) (mkPromise (a_live a) (delete p (a_files a)))
| a_kept io id path p text : text ≠ "" → means dir path p →
    (HasPrefix p (Clean dir +:+ "/") = true → io_remove io = true → ¬ temporary dir p → a_files a !! p = None) →
    astep dir a (EDelete io id path) (Some (Deleted (mkDeleted id false text))) a
| a_other o : astep dir a (EBudget o) None a.

Inductive aruns (dir : string) : Promise → list dev → list (option answer) → Promise → Prop :=
| aruns_nil a : aruns dir a [] [] a
| aruns_cons a e ack a1 es acks a2 : astep dir a e ack a1 → aruns dir a1 es acks a2 → aruns dir a (e :: es) (ack :: acks) a2.

(** The requests whose names keep out of the temporary paths: ids are generated
    by the hub and have no separator. *)
Definition keeps_out (e : dev) : Prop :=
  match e with
  | EChunk _ id filename _ _ => split_at slash id = [id] ∧ HasPrefix (sanitizeFilename filename) ".upload-" = false
  | _ => True
  end.

(** Every name has a file, and new files are new. *)
Definition fs_ok (fs : Fs) : Prop := ∀ path ino, fs_names fs !! path = Some ino → (ino < fs_next fs)%nat ∧ is_Some (fs_data fs !! ino).

Definition stored (fs : Fs) : gmap string (list Z) := omap (fun ino => fs_data fs !! ino) (fs_names fs).

(** A live upload: its file has the data so far and no path but its own. *)
Record live_ok (d : Dropzone) (a : Promise) (id : string) (u : uploadState) (data : list Z) : Prop := {
  l_data : a_live a !! id = Some (u_finalName u, data);
  l_file : fs_data (d_fs d) !! u_file u = Some data;
  l_bytes : u_bytes u = Z.of_nat (length data) ∧ u_bytes u ≤ MaxUploadSize;
  l_path : u_name u = tmpPath d id ∧ split_at slash id = [id];
  l_final : single (u_finalName u) ∧ HasPrefix (u_finalName u) ".upload-" = false;
  l_only : ∀ p, fs_names (d_fs d) !! p = Some (u_file u) → p = tmpPath d id;
  l_ino : ∀ ino, fs_names (d_fs d) !! tmpPath d id = Some ino → ino = u_file u;
  l_old : (u_file u < fs_next (d_fs d))%nat;
}.

Record shows (d : Dropzone) (a : Promise) : Prop := {
  s_live : ∀ id u, d_uploads d !! id = Some u → ∃ data, live_ok d a id u data;
  s_none : ∀ id, d_uploads d !! id = None → a_live a !! id = None;
  s_inj : ∀ id1 id2 u1 u2, d_uploads d !! id1 = Some u1 → d_uploads d !! id2 = Some u2 → u_file u1 = u_file u2 → id1 = id2;
  s_fs : fs_ok (d_fs d);
  s_files : ∀ p, ¬ temporary (d_dir d) p → contents (d_fs d) p = a_files a !! p;
}.

Lemma tmp_inj d id1 id2 : split_at slash id1 = [id1] → split_at slash id2 = [id2] → tmpPath d id1 = tmpPath d id2 → id1 = id2.
Proof. intros H1 H2 E%Join_inj; [|by apply upload_single..]. by apply (inj _) in E. Qed.

Lemma prefix_upload id : HasPrefix (".upload-" +:+ id) ".upload-" = true.
Proof. done. Qed.

Lemma final_not_temporary dir x : single x → HasPrefix x ".upload-" = false → ¬ temporary dir (Join [dir; x]).
Proof. intros Hx Hp (id & Hs & E%Join_inj); [|done|by apply upload_single]. subst x. by rewrite prefix_upload in Hp. Qed.

Lemma tmp_temporary d id : split_at slash id = [id] → temporary (d_dir d) (tmpPath d id).
Proof. intros H. by exists id. Qed.

Lemma shows_budget d a b : shows d a → shows (d_with d (d_uploads d) b (d_fs d)) a.
Proof. intros [H1 H2 H3 H4 H5]. split; try done. intros id u Hu. destruct (H1 id u Hu) as (data & []). by exists data. Qed.

(** Removing a path, of a live upload or not. *)
Lemma delete_shows d a p : shows d a →
  shows (d_with d (d_uploads d) (d_budget d) (mkFs (delete p (fs_names (d_fs d))) (fs_data (d_fs d)) (fs_next (d_fs d))))
        (mkPromise (a_live a) (delete p (a_files a))).
Proof.
  intros [H1 H2 H3 H4 H5]. split; cbn; try done.
  - intros id u Hu. destruct (H1 id u Hu) as (data & []). exists data. split; cbn; try done.
    + intros q [_ Hq]%lookup_delete_Some. by apply l_only0.
    + intros ino [_ Hq]%lookup_delete_Some. by apply l_ino0.
  - unfold fs_ok. cbn. intros q ino [_ Hq]%lookup_delete_Some. by apply H4 in Hq.
  - intros q Hq. unfold contents. cbn. destruct (decide (p = q)) as [->|]; [by rewrite !lookup_delete_eq|].
    rewrite !lookup_delete_ne by done. by apply H5.
Qed.

Lemma discard_shows d a r id u : shows d a → d_uploads d !! id = Some u → shows (discard d r id u) (mkPromise (delete id (a_live a)) (a_files a)).
Proof.
  intros [H1 H2 H3 H4 H5] Hu. destruct (H1 id u Hu) as (data & L). destruct (l_path _ _ _ _ _ L) as [Hn Hs].
  assert (Hsub : ∀ p ino, fs_names (Remove (d_fs d) r (u_name u)) !! p = Some ino → fs_names (d_fs d) !! p = Some ino).
  { intros p ino. unfold Remove. destruct r; [|done]. cbn. by intros [_ ?]%lookup_delete_Some. }
  assert (Ed : fs_data (Remove (d_fs d) r (u_name u)) = fs_data (d_fs d) ∧ fs_next (Remove (d_fs d) r (u_name u)) = fs_next (d_fs d)) by by destruct r.
  destruct Ed as [Ed En]. split; cbn.
  - intros id' u' [Hne Hu']%lookup_delete_Some. destruct (H1 id' u' Hu') as (data' & []). exists data'. split; cbn; try done.
    + by rewrite lookup_delete_ne.
    + by rewrite Ed.
    + intros p Hp. by apply l_only0, Hsub.
    + intros ino Hp. by apply l_ino0, Hsub.
    + by rewrite En.
  - intros id' Hd. apply lookup_delete_None in Hd as [->|Hd%H2]; [by rewrite lookup_delete_eq|].
    apply lookup_delete_None. by right.
  - intros ???? [_ ?]%lookup_delete_Some [_ ?]%lookup_delete_Some. by eapply H3.
  - intros p ino Hp%Hsub%H4. by rewrite Ed, En.
  - intros p Hp. rewrite <- H5 by done. unfold contents. rewrite Ed. unfold Remove. destruct r; [|done]. cbn.
    rewrite lookup_delete_ne; [done|]. rewrite Hn. intros <-. by apply Hp, tmp_temporary.
Qed.

(** Opening the file of a new upload. *)
Lemma open_shows d a io id filename d' u : shows d a → keeps_out (EChunk io id filename [] false) → d_uploads d !! id = None →
  openNewUpload d io id filename = (d', inl u) →
  shows (d_with d' (<[id := u]> (d_uploads d')) (d_budget d') (d_fs d')) (mkPromise (<[id := (sanitizeFilename filename, [])]> (a_live a)) (a_files a)) ∧
  single (sanitizeFilename filename) ∧ d_dir d' = d_dir d.
Proof.
  intros [H1 H2 H3 H4 H5] [Hid Hpre] Hnew E. unfold openNewUpload in E. destruct (_ <=? _)%nat; [done|]. case_bool_decide; [done|].
  case_bool_decide as Hs; [done|]. apply sanitize_single in Hs. destruct (AcquireActivity _) as [b [tok|]]; [|done].
  unfold OpenFile in E. destruct (fs_names (d_fs d) !! tmpPath d id) eqn:En; [done|]. destruct (io_open io); [|done].
  injection E as <- <-. split; [|done]. split; cbn.
  - intros id' u' [[<- <-]|[Hne Hu']]%lookup_insert_Some.
    + exists []. split; cbn; try done; try by rewrite lookup_insert_eq.
      * intros p [[<- _]|[_ Hp]]%lookup_insert_Some; [done|]. apply H4 in Hp. lia.
      * intros ino Hp. change (tmpPath _ id) with (tmpPath d id) in Hp. rewrite lookup_insert_eq in Hp. by injection Hp.
      * lia.
    + destruct (H1 id' u' Hu') as (data & L). destruct (l_path _ _ _ _ _ L) as [Hn' Hs']. destruct L. exists data. split; cbn; try done.
      * by rewrite lookup_insert_ne.
      * rewrite lookup_insert_ne by lia. done.
      * intros p [[_ E]|[_ Hp]]%lookup_insert_Some; [lia|by apply l_only0].
      * intros ino [[E _]|[_ Hp]]%lookup_insert_Some; [|by apply l_ino0]. by apply (tmp_inj d id id' Hid Hs') in E.
      * lia.
  - intros id' [Hd Hne]%lookup_insert_None. rewrite lookup_insert_ne by done. by apply H2.
  - intros id1 id2 u1 u2 [[<- <-]|[Hn1 Hu1]]%lookup_insert_Some [[<- <-]|[Hn2 Hu2]]%lookup_insert_Some; cbn; try done.
    + intros E. destruct (H1 _ _ Hu2) as (? & []). lia.
    + intros E. destruct (H1 _ _ Hu1) as (? & []). lia.
    + by apply H3.
  - unfold fs_ok. cbn. intros p ino [[<- <-]|[_ Hp]]%lookup_insert_Some; [rewrite lookup_insert_eq; eauto with lia|].
    apply H4 in Hp as [Hlt Hd]. rewrite lookup_insert_ne by lia. eauto with lia.
  - intros p Hp. rewrite <- H5 by done. unfold contents. cbn. rewrite lookup_insert_ne by (intros <-; by apply Hp, tmp_temporary).
    destruct (fs_names (d_fs d) !! p) as [ino|] eqn:Ei; [|done]. cbn. apply H4 in Ei as [Hlt _]. by rewrite lookup_insert_ne by lia.
Qed.

Lemma open_refused d a io id filename d' ack : shows d a → openNewUpload d io id filename = (d', inr ack) →
  shows d' a ∧ d_dir d' = d_dir d ∧ d_uploads d' = d_uploads d ∧ ∃ text, text ≠ "" ∧ ack = mkAck id false text.
Proof.
  intros Hs E. unfold openNewUpload in E. repeat case_match; simplify_eq;
    (split_and!; [by first [done|apply shows_budget]|done|done|eexists; by split; [|reflexivity]]).
Qed.

(** Writing [data] to the file of a live upload. *)
Lemma append_shows d a id u data more : shows d a → d_uploads d !! id = Some u → live_ok d a id u data →
  u_bytes u + Z.of_nat (length more) ≤ MaxUploadSize →
  shows (d_with d (<[id := mkUpload (u_name u) (u_file u) (u_bytes u + Z.of_nat (length more)) (u_finalName u) (u_release u)]> (d_uploads d)) (d_budget d)
           (mkFs (fs_names (d_fs d)) (<[u_file u := data ++ more]> (fs_data (d_fs d))) (fs_next (d_fs d))))
        (mkPromise (<[id := (u_finalName u, data ++ more)]> (a_live a)) (a_files a)).
Proof.
  intros [H1 H2 H3 H4 H5] Hu L Hmax. split; cbn.
  - intros id' u' [[<- <-]|[Hne Hu']]%lookup_insert_Some.
    + destruct L. exists (data ++ more). split; cbn; try done; try by rewrite lookup_insert_eq. rewrite length_app. lia.
    + destruct (H1 id' u' Hu') as (data' & []). exists data'. split; cbn; try done; [by rewrite lookup_insert_ne|].
      rewrite lookup_insert_ne; [done|]. intros E. by apply Hne, (H3 id id' u u').
  - intros id' [Hd Hne]%lookup_insert_None. rewrite lookup_insert_ne by done. by apply H2.
  - intros id1 id2 u1 u2 [[<- <-]|[Hn1 Hu1]]%lookup_insert_Some [[<- <-]|[Hn2 Hu2]]%lookup_insert_Some; cbn; eauto.
  - intros p ino Hp. cbn. destruct (H4 p ino Hp) as [Hlt Hd]. split; [done|]. by apply lookup_insert_is_Some'; right.
  - intros p Hp. rewrite <- H5 by done. unfold contents. cbn. destruct (fs_names (d_fs d) !! p) as [ino|] eqn:Ei; [|done]. cbn.
    destruct L. rewrite lookup_insert_ne; [done|]. intros <-. apply l_only0 in Ei as ->. apply Hp, tmp_temporary. by destruct l_path0.
Qed.

Lemma write_shows d a io id u sofar data d' r : shows d a → d_uploads d !! id = Some u → live_ok d a id u sofar →
  writeChunk d io id u data = (d', r) →
  d_dir d' = d_dir d ∧
  match r with
  | inl u' => shows d' (mkPromise (<[id := (u_finalName u, sofar ++ data)]> (a_live a)) (a_files a)) ∧
              d_uploads d' !! id = Some u' ∧ u_finalName u' = u_finalName u ∧ Z.of_nat (length (sofar ++ data)) ≤ MaxUploadSize
  | inr ack => shows d' (mkPromise (delete id (a_live a)) (a_files a)) ∧ ∃ text, text ≠ "" ∧ ack = mkAck id false text
  end.
Proof.
  intros Hs Hu L E. unfold writeChunk in E. case_bool_decide as Hd.
  { injection E as <- <-. subst data. rewrite app_nil_r. destruct L. rewrite insert_id by done. destruct a. split_and!; try done. lia. }
  destruct (MaxUploadSize <? _) eqn:Em; z_hyps.
  { injection E as <- <-. split_and!; [done|by apply discard_shows|]. eexists. by split; [|reflexivity]. }
  unfold WriteFile in E. cbn in E. rewrite (l_file _ _ _ _ _ L) in E. cbn in E. destruct (io_write io) as [k|]; cbn in E.
  - injection E as <- <-. split; [done|]. split; [|eexists; by split; [|reflexivity]].
    pose proof (append_shows d a id u sofar (take k data) Hs Hu L ltac:(rewrite length_take; lia)) as Ha.
    eapply (discard_shows _ _ (io_remove io) id) in Ha; [|apply lookup_insert_eq]. unfold discard in *. cbn in *.
    rewrite !delete_insert_eq in Ha. exact Ha.
  - rewrite firstn_all in E. injection E as <- <-. split; [done|]. split_and!; [exact (append_shows d a id u sofar data Hs Hu L Em)|apply lookup_insert_eq|done|].
    destruct L as [_ _ [Hb _] _ _ _ _ _]. rewrite length_app. lia.
Qed.

(** Renaming the file of a live upload to its final name. *)
Lemma rename_shows d a id u data b : shows d a → d_uploads d !! id = Some u → live_ok d a id u data →
  shows (d_with d (delete id (d_uploads d)) b
           (mkFs (<[Join [d_dir d; u_finalName u] := u_file u]> (delete (u_name u) (fs_names (d_fs d)))) (fs_data (d_fs d)) (fs_next (d_fs d))))
        (mkPromise (delete id (a_live a)) (<[Join [d_dir d; u_finalName u] := data]> (a_files a))).
Proof.
  intros [H1 H2 H3 H4 H5] Hu L. destruct L as [La Lf _ [Hn Hid] [Hf Hp] Lo Li Ll].
  pose proof (final_not_temporary (d_dir d) _ Hf Hp) as Hnt. split; cbn.
  - intros id' u' [Hne Hu']%lookup_delete_Some. destruct (H1 id' u' Hu') as (data' & L'). destruct (l_path _ _ _ _ _ L') as [_ Hid'].
    destruct L'. exists data'. split; cbn; try done; [by rewrite lookup_delete_ne| |].
    + intros p [[_ E]|[_ [_ Hp']%lookup_delete_Some]]%lookup_insert_Some; [|by apply l_only0]. by destruct Hne; eapply H3.
    + intros ino [[E _]|[_ [_ Hp']%lookup_delete_Some]]%lookup_insert_Some; [|by apply l_ino0].
      destruct Hnt. rewrite E. exact (tmp_temporary d id' Hid').
  - intros id' Hd. apply lookup_delete_None in Hd as [->|Hd%H2]; [by rewrite lookup_delete_eq|]. apply lookup_delete_None. by right.
  - intros ???? [_ ?]%lookup_delete_Some [_ ?]%lookup_delete_Some. by eapply H3.
  - unfold fs_ok. cbn. intros p ino [[_ <-]|[_ [_ Hp']%lookup_delete_Some]]%lookup_insert_Some; [by rewrite Lf|by apply H4 in Hp'].
  - intros p Hp'. unfold contents. cbn. destruct (decide (Join [d_dir d; u_finalName u] = p)) as [<-|Hne]; [by rewrite !lookup_insert_eq|].
    rewrite !lookup_insert_ne, lookup_delete_ne by (try done; rewrite Hn; intros <-; by apply Hp', tmp_temporary). by apply H5.
Qed.

Lemma finish_shows d a io id u data d' ack : shows d a → d_uploads d !! id = Some u → live_ok d a id u data →
  finishUpload d io id u = (d', ack) →
  d_dir d' = d_dir d ∧
  ((ack = mkAck id true "" ∧ shows d' (mkPromise (delete id (a_live a)) (<[Join [d_dir d; u_finalName u] := data]> (a_files a)))) ∨
   ((∃ text, text ≠ "" ∧ ack = mkAck id false text) ∧ shows d' (mkPromise (delete id (a_live a)) (a_files a)))).
Proof.
  intros Hs Hu L E. unfold finishUpload, Rename in E. destruct (fs_names (d_fs d) !! u_name u) as [ino|] eqn:En.
  1: destruct (io_rename io).
  1: { assert (ino = u_file u) as -> by (destruct L as [_ _ _ [Hn _] _ _ Li _]; apply Li; by rewrite <- Hn).
       injection E as <- <-. split; [done|]. left. split; [done|]. by apply rename_shows. }
  all: injection E as <- <-; split; [done|]; right; split; [eexists; by split; [|reflexivity]|by apply discard_shows].
Qed.

(** A chunk of an upload that is open in [d0], after whatever opened it. *)
Lemma continue_shows d a io id filename data (done : bool) d0 a0 u sofar d' ack :
  d_dir d0 = d_dir d → shows d0 a0 → d_uploads d0 !! id = Some u → live_ok d0 a0 id u sofar →
  a_start a id filename = (u_finalName u, sofar) → delete id (a_live a0) = delete id (a_live a) → a_files a0 = a_files a →
  (∀ x, <[id := x]> (a_live a0) = <[id := x]> (a_live a)) →
  match writeChunk d0 io id u data with
  | (d, inr ack) => (d, Some ack)
  | (d, inl state) => if done then let '(d, ack) := finishUpload d io id state in (d, Some ack) else (d, None)
  end = (d', ack) →
  ∃ a', d_dir d' = d_dir d ∧ shows d' a' ∧ astep (d_dir d) a (EChunk io id filename data done) (Ack <$> ack) a'.
Proof.
  intros Hdir Hs0 Hu L Hst Hdel Hfiles Hins E. destruct (writeChunk d0 io id u data) as [d1 r] eqn:Ew.
  destruct (l_final _ _ _ _ _ L) as [Hsf _].
  destruct (write_shows _ _ _ _ _ _ _ _ _ Hs0 Hu L Ew) as [Hd1 Hr]. rewrite Hins, Hdel, Hfiles in Hr. destruct r as [u'|ack'].
  - destruct Hr as (Hs1 & Hu' & Hfin & Hlen). destruct (s_live _ _ Hs1 _ _ Hu') as (data1 & L1). pose proof (l_data _ _ _ _ _ L1) as Ed.
    cbn in Ed. rewrite lookup_insert_eq in Ed. injection Ed as Ef Ed. subst data1. destruct done.
    + destruct (finishUpload d1 io id u') as [d2 ack2] eqn:Efin. injection E as <- <-.
      destruct (finish_shows _ _ _ _ _ _ _ _ Hs1 Hu' L1 Efin) as [Hd2 [[-> Hs2]|[(text & Ht & ->) Hs2]]]; cbn in Hs2; rewrite delete_insert_eq in Hs2;
        (eexists; split; [congruence|]; split; [exact Hs2|]); [|by constructor].
      rewrite Hd1, Hdir, Hfin. by econstructor.
    + injection E as <- <-. eexists. split; [congruence|]. split; [exact Hs1|]. by econstructor.
  - injection E as <- <-. destruct Hr as (Hs1 & text & Ht & ->). eexists. split; [congruence|]. split; [exact Hs1|]. by constructor.
Qed.

(** The first chunk opens the upload; the others find it. *)
Lemma chunk_shows d a io id filename data done d' ack : shows d a → keeps_out (EChunk io id filename data done) →
  HandleChunk d io id filename data done = (d', ack) →
  ∃ a', d_dir d' = d_dir d ∧ shows d' a' ∧ astep (d_dir d) a (EChunk io id filename data done) (Ack <$> ack) a'.
Proof.
  intros Hs Hk E. unfold HandleChunk in E. destruct (d_uploads d !! id) as [u|] eqn:Hu.
  - destruct (s_live _ _ Hs _ _ Hu) as (sofar & L). apply (continue_shows d a io id filename data done d a u sofar); try done.
    unfold a_start. by rewrite (l_data _ _ _ _ _ L).
  - destruct (openNewUpload d io id filename) as [d1 [u|ack1]] eqn:Eo.
    + destruct (open_shows d a io id filename d1 u Hs ltac:(exact Hk) Hu Eo) as (Hs1 & Hsg & Hd1).
      assert (Hu1 : (<[id := u]> (d_uploads d1)) !! id = Some u) by apply lookup_insert_eq.
      destruct (s_live _ _ Hs1 id u Hu1) as (sofar & L).
      pose proof (l_data _ _ _ _ _ L) as Ed. cbn in Ed. rewrite lookup_insert_eq in Ed. injection Ed as Ef <-.
      eapply (continue_shows _ _ _ _ _ _ _ (d_with d1 (<[id := u]> (d_uploads d1)) (d_budget d1) (d_fs d1)) _ u []); [exact Hd1|exact Hs1|exact Hu1|exact L| | | | |exact E].
      * unfold a_start. rewrite (s_none _ _ Hs _ Hu). cbn. by rewrite Ef.
      * cbn. by rewrite delete_insert_eq.
      * done.
      * intros x. cbn. by rewrite insert_insert_eq.
    + injection E as <- <-. destruct (open_refused _ _ _ _ _ _ _ Hs Eo) as (Hs1 & Hd1 & _ & text & Ht & ->).
      eexists. split; [done|]. split; [|by apply a_fail]. rewrite delete_id by by apply (s_none _ _ Hs). by destruct a.
Qed.

(** Cleaning up discards every live upload. *)
Lemma cleanup_shows removed l d a : shows d a → NoDup l.*1 → (∀ id u, (id, u) ∈ l ↔ d_uploads d !! id = Some u) →
  let d' := foldl (fun d '(id, state) => discard d (removed id) id state) d l in
  d_dir d' = d_dir d ∧ shows d' (mkPromise ∅ (a_files a)) ∧ d_uploads d' = ∅.
Proof.
  revert d a. induction l as [|[id u] l IH]; intros d a Hs Hnd Hl; cbn.
  - assert (E : d_uploads d = ∅).
    { apply map_empty. intros id. destruct (d_uploads d !! id) eqn:E; [|done]. by apply Hl, not_elem_of_nil in E. }
    split_and!; try done. replace ∅ with (a_live a); [by destruct a|]. apply map_empty. intros id. apply (s_none _ _ Hs). by rewrite E.
  - inversion_clear Hnd as [|? ? Hni Hnd']. assert (Hu : d_uploads d !! id = Some u) by (apply Hl; by left).
    pose proof (discard_shows d a (removed id) id u Hs Hu) as Hs'. destruct (IH _ _ Hs' Hnd') as (H1 & H2 & H3); [|done].
    intros id' u'. cbn. rewrite lookup_delete_Some. split.
    + intros Hin. split; [|by apply Hl; right]. intros <-. apply Hni. by apply list_elem_of_fmap_2 with (f := fst) in Hin.
    + intros [Hne Hu']. apply Hl in Hu' as [[= -> ->]|Hin]%elem_of_cons; done.
Qed.

Lemma substring_whole r n : (String.length r ≤ n)%nat → String.substring 0 n r = r.
Proof. revert n. induction r as [|c r IH]; intros [|n] H; simpl in *; try done; [lia|]. by rewrite IH by lia. Qed.
Lemma substring_after p r n : (String.length r ≤ n)%nat → String.substring (String.length p) n (p +:+ r) = r.
Proof. induction p as [|c p IH]; intros H; [by apply substring_whole|]. apply IH, H. Qed.
Lemma length_suffix p r : (String.length r ≤ String.length (p +:+ r))%nat.
Proof. induction p as [|c p IH]; [done|]. change (String c p +:+ r) with (String c (p +:+ r)). cbn [String.length]. lia. Qed.

Lemma resolve_means d path : means (d_dir d) path (Clean (resolveAgentPath d path)).
Proof.
  unfold resolveAgentPath, dropzonePathAlias. case_bool_decide as E; [subst; constructor|].
  change ("veyport://dropzone" +:+ "/") with "veyport://dropzone/". destruct (HasPrefix path _) eqn:Hp; [|by apply means_plain].
  unfold TrimPrefix. rewrite Hp. apply HasPrefix_app in Hp as [rest ->].
  rewrite substring_after by apply length_suffix. constructor.
Qed.

(** A deletion removes the file it was asked for and says so. *)
Lemma request_shows d a io id path d' resp : shows d a → handleFileDeleteRequest d io id path = (d', resp) →
  ∃ a', d_dir d' = d_dir d ∧ shows d' a' ∧ astep (d_dir d) a (EDelete io id path) (Some (Deleted resp)) a'.
Proof.
  intros Hs E. unfold handleFileDeleteRequest in E. pose proof (resolve_means d path) as Hm.
  set (p := Clean (resolveAgentPath d path)) in *. clearbody p.
  destruct (HasPrefix p _) eqn:Hp; cbn in E; [|simplify_eq; exists a; split_and!; [done..|]; eapply a_kept; [done..|congruence]].
  case_bool_decide as Hn; cbn in E.
  { simplify_eq. exists a. split_and!; [done..|]. eapply a_kept; [done..|]. intros _ _ Ht.
    rewrite <- (s_files _ _ Hs) by done. unfold contents. by rewrite Hn. }
  destruct (io_remove io) eqn:Hr; cbn in E; simplify_eq; [|exists a; split_and!; [done..|]; eapply a_kept; [done..|congruence]].
  eexists. split; [done|]. split; [by apply delete_shows|]. eapply a_delete; [done..|]. intros Ht.
  rewrite <- (s_files _ _ Hs) by done. destruct (fs_names (d_fs d) !! p) as [ino|] eqn:Hi; [|done].
  unfold contents. rewrite Hi. by apply (s_fs _ _ Hs) in Hi as [_ ?].
Qed.

Lemma dstep_shows d a e d' ack : shows d a → keeps_out e → dstep d e = (d', ack) →
  ∃ a', d_dir d' = d_dir d ∧ shows d' a' ∧ astep (d_dir d) a e ack a'.
Proof.
  intros Hs Hk E. destruct e as [io id filename data done|io id|removed|io id path|o]; cbn in E.
  - destruct (HandleChunk d io id filename data done) as [d1 ack1] eqn:E1. simplify_eq. by eapply chunk_shows.
  - unfold Abort in E. destruct (d_uploads d !! id) as [u|] eqn:Hu; injection E as <- <-.
    + eexists. split; [done|]. split; [by apply discard_shows|]. constructor. by destruct (_ || _).
    + eexists. split; [done|]. split; [|by apply a_abort]. rewrite delete_id by by apply (s_none _ _ Hs). by destruct a.
  - injection E as <- <-. destruct (cleanup_shows removed (map_to_list (d_uploads d)) d a Hs) as (H1 & H2 & _).
    + apply NoDup_fst_map_to_list.
    + intros id u. apply elem_of_map_to_list.
    + eexists. split; [done|]. split; [done|]. constructor.
  - destruct (handleFileDeleteRequest d io id path) as [d1 resp] eqn:E1. simplify_eq. by apply request_shows.
  - injection E as <- <-. exists a. split_and!; [done|by apply shows_budget|constructor].
Qed.

(** ** Activities *)

(** The activities other parts of the agent hold, after an event. *)
Definition others_after (d : Dropzone) (o : gset nat) (e : dev) : gset nat :=
  match e with
  | EBudget OpAcquireActivity => match (AcquireActivity (d_budget d)).2 with Some tok => {[tok]} ∪ o | None => o end
  | EBudget (OpReleaseActivity tok) => o ∖ {[tok]}
  | _ => o
  end.

(** The others release what they acquired, not the activity of an upload. *)
Definition own_release (d : Dropzone) (e : dev) : Prop :=
  match e with
  | EBudget (OpReleaseActivity tok) => ∀ id u, d_uploads d !! id = Some u → u_release u ≠ tok
  | _ => True
  end.

Fixpoint own_releases (d : Dropzone) (es : list dev) : Prop :=
  match es with
  | [] => True
  | e :: t => own_release d e ∧ own_releases (dstep d e).1 t
  end.

Fixpoint others (d : Dropzone) (o : gset nat) (es : list dev) : gset nat :=
  match es with
  | [] => o
  | e :: t => others (dstep d e).1 (others_after d o e) t
  end.

Definition holds (d : Dropzone) (tok : nat) : Prop := ∃ id u, d_uploads d !! id = Some u ∧ u_release u = tok.

Record accounted (d : Dropzone) (o : gset nat) : Prop := {
  ac_budget : budget_inv (d_budget d);
  ac_live : ∀ tok, tok ∈ b_live (d_budget d) ↔ holds d tok ∨ tok ∈ o;
  ac_apart : ∀ tok, holds d tok → tok ∉ o;
  ac_inj : ∀ id1 id2 u1 u2, d_uploads d !! id1 = Some u1 → d_uploads d !! id2 = Some u2 → u_release u1 = u_release u2 → id1 = id2;
  ac_max : (size (d_uploads d) ≤ MaxConcurrentUploads)%nat;
}.

Lemma notify_live b : b_live (notifyActivity b) = b_live b.
Proof. unfold notifyActivity. by destruct (b_observer b). Qed.

Lemma acquire_live b b' tok : AcquireActivity b = (b', Some tok) → b_live b' = {[tok]} ∪ b_live b ∧ tok = b_next b.
Proof. unfold AcquireActivity. destruct (_ || _); [done|]. intros [= <- <-]. by rewrite notify_live. Qed.

Lemma release_live b tok : b_live (releaseActivity b tok) = b_live b ∖ {[tok]}.
Proof. unfold releaseActivity. destruct (decide _); [by rewrite notify_live|]. set_solver. Qed.

Lemma fresh_not_live b : budget_inv b → b_next b ∉ b_live b.
Proof. intros [_ _ _ H _ _] Hin. apply H in Hin. lia. Qed.

(** Forgetting an upload together with its activity. *)
Lemma forget_accounted d o id u fs : accounted d o → d_uploads d !! id = Some u →
  accounted (d_with d (delete id (d_uploads d)) (releaseActivity (d_budget d) (u_release u)) fs) o.
Proof.
  intros [H1 H2 H3 H4 H5] Hu. assert (Hh : ∀ tok, holds (d_with d (delete id (d_uploads d)) (releaseActivity (d_budget d) (u_release u)) fs) tok ↔
    holds d tok ∧ tok ≠ u_release u).
  { intros tok. unfold holds. cbn. split.
    - intros (id' & u' & [Hne Hu']%lookup_delete_Some & <-). split; [eauto|]. intros E. by apply Hne, (H4 id id' u u').
    - intros [(id' & u' & Hu' & <-) Hne]. exists id', u'. split; [|done]. apply lookup_delete_Some. split; [|done]. intros <-. congruence. }
  split; cbn.
  - exact (run_op_inv _ (OpReleaseActivity (u_release u)) H1).
  - intros tok. rewrite release_live, Hh, elem_of_difference, elem_of_singleton, H2. split; [naive_solver|].
    intros [[? ?]|Ho]; [naive_solver|]. split; [by right|]. intros ->. eapply H3; [|done]. by exists id, u.
  - intros tok [Ht _]%Hh. by apply H3.
  - intros ???? [_ ?]%lookup_delete_Some [_ ?]%lookup_delete_Some. by eapply H4.
  - rewrite map_size_delete, Hu. lia.
Qed.

Lemma open_accounted d o io id filename d' r : accounted d o → d_uploads d !! id = None → openNewUpload d io id filename = (d', r) →
  match r with
  | inl u => accounted (d_with d' (<[id := u]> (d_uploads d')) (d_budget d') (d_fs d')) o
  | inr _ => accounted d' o
  end.
Proof.
  intros Ha Hn E. pose proof Ha as [H1 H2 H3 H4 H5]. unfold openNewUpload in E. destruct (_ <=? _)%nat eqn:Em; [by injection E as <- <-|].
  apply Nat.leb_gt in Em. repeat (case_bool_decide; [by injection E as <- <-|]).
  destruct (AcquireActivity (d_budget d)) as [b [tok|]] eqn:Eacq; [|by injection E as <- <-].
  destruct (acquire_live _ _ _ Eacq) as [Hlive Htok]. pose proof (fresh_not_live _ H1) as Hfresh. rewrite <- Htok in Hfresh.
  assert (Hb : budget_inv b) by (pose proof (run_op_inv _ OpAcquireActivity H1) as Hb; cbn in Hb; by rewrite Eacq in Hb).
  destruct (OpenFile _ _ _) as [[fs f]|]; injection E as <- <-; cbn.
  - set (u := mkUpload _ _ _ _ _).
    assert (Hh : ∀ t, holds (d_with d (<[id := u]> (d_uploads d)) b fs) t ↔ holds d t ∨ t = tok).
    { intros t. unfold holds. cbn. split.
      - intros (id' & u' & [[<- <-]|[Hne Hu']]%lookup_insert_Some & <-); [by right|]. left. eauto.
      - intros [(id' & u' & Hu' & <-)| ->]; [|exists id, u; by rewrite lookup_insert_eq]. exists id', u'.
        split; [|done]. rewrite lookup_insert_ne; [done|]. congruence. }
    assert (Hnot : ∀ t, holds d t → t ≠ tok) by (intros t Ht ->; apply Hfresh, H2; by left). split; cbn.
    + done.
    + intros t. change (t ∈ b_live b ↔ holds (d_with d (<[id := u]> (d_uploads d)) b fs) t ∨ t ∈ o).
      rewrite Hlive, Hh, elem_of_union, elem_of_singleton, H2. naive_solver.
    + intros t [Ht| ->]%Hh; [by apply H3|]. intros Ho. apply Hfresh, H2. by right.
    + intros id1 id2 u1 u2 [[<- <-]|[Hn1 Hu1]]%lookup_insert_Some [[<- <-]|[Hn2 Hu2]]%lookup_insert_Some E; try done; [| |by eapply H4].
      * destruct (Hnot (u_release u2)); [by exists id2, u2|done].
      * destruct (Hnot (u_release u1)); [by exists id1, u1|done].
    + rewrite map_size_insert, Hn. lia.
  - split; cbn; try done.
    + exact (run_op_inv _ (OpReleaseActivity tok) Hb).
    + intros t. rewrite release_live, Hlive. rewrite elem_of_difference, elem_of_union, elem_of_singleton. change (holds _ t) with (holds d t).
      rewrite <- H2. split; [naive_solver|]. intros Ht. split; [by right|]. intros ->. done.
Qed.

Lemma write_accounted d o io id u data d' r : accounted d o → d_uploads d !! id = Some u → writeChunk d io id u data = (d', r) →
  accounted d' o ∧ (∀ u', r = inl u' → d_uploads d' !! id = Some u').
Proof.
  intros Ha Hu E. unfold writeChunk in E. case_bool_decide; [injection E as <- <-; naive_solver|].
  destruct (MaxUploadSize <? _); [injection E as <- <-; by split; [apply forget_accounted|]|]. destruct (WriteFile _ _ _ _) as [fs []].
  - injection E as <- <-. cbn. split; [|intros u' [= <-]; apply lookup_insert_eq]. destruct Ha as [H1 H2 H3 H4 H5]. set (u1 := mkUpload _ _ _ _ _).
    assert (Hh : ∀ t, holds (d_with d (<[id := u1]> (d_uploads d)) (d_budget d) fs) t ↔ holds d t).
    { intros t. unfold holds. cbn. split.
      - intros (id' & u' & [[<- <-]|[Hne Hu']]%lookup_insert_Some & <-); [by exists id, u|eauto].
      - intros (id' & u' & Hu' & <-). destruct (decide (id = id')) as [<-|]; [exists id, u1; rewrite lookup_insert_eq; naive_solver|].
        exists id', u'. by rewrite lookup_insert_ne. }
    split; cbn; try done.
    + intros t. change (t ∈ b_live (d_budget d) ↔ holds (d_with d (<[id := u1]> (d_uploads d)) (d_budget d) fs) t ∨ t ∈ o). by rewrite Hh.
    + intros t Ht%Hh. by apply H3.
    + intros id1 id2 v1 v2 [[<- <-]|[Hn1 Hu1]]%lookup_insert_Some [[<- <-]|[Hn2 Hu2]]%lookup_insert_Some; eauto.
    + by rewrite map_size_insert, Hu.
  - injection E as <- <-. split; [|done].
    exact (forget_accounted (d_with d (d_uploads d) (d_budget d) fs) o id u _ ltac:(by destruct Ha; split) Hu).
Qed.

Lemma finish_accounted d o io id u : accounted d o → d_uploads d !! id = Some u → accounted (finishUpload d io id u).1 o.
Proof. intros Ha Hu. unfold finishUpload. destruct (Rename _ _ _ _); by apply forget_accounted. Qed.

Lemma chunk_accounted d o io id filename data done : accounted d o → accounted (HandleChunk d io id filename data done).1 o.
Proof.
  intros Ha. unfold HandleChunk.
  assert (Hc : ∀ d0 u, accounted d0 o → d_uploads d0 !! id = Some u →
    accounted (match writeChunk d0 io id u data with
      | (d, inr ack) => (d, Some ack)
      | (d, inl state) => if done then let '(d, ack) := finishUpload d io id state in (d, Some ack) else (d, None)
      end).1 o).
  { intros d0 u H0 Hu. destruct (writeChunk d0 io id u data) as [d1 r] eqn:Ew. destruct (write_accounted _ _ _ _ _ _ _ _ H0 Hu Ew) as [H1 H2].
    destruct r as [u'|]; [|done]. destruct done; [|done]. pose proof (finish_accounted d1 o io id u' H1 (H2 u' eq_refl)). by destruct (finishUpload _ _ _ _). }
  destruct (d_uploads d !! id) as [u|] eqn:Hu; [by apply Hc|].
  destruct (openNewUpload d io id filename) as [d1 r] eqn:Eo. pose proof (open_accounted _ _ _ _ _ _ _ Ha Hu Eo) as H1.
  destruct r as [u|]; [|done]. apply Hc; [done|apply lookup_insert_eq].
Qed.

Lemma cleanup_accounted removed l d o : accounted d o → NoDup l.*1 → (∀ id u, (id, u) ∈ l → d_uploads d !! id = Some u) →
  accounted (foldl (fun d '(id, state) => discard d (removed id) id state) d l) o.
Proof.
  revert d. induction l as [|[id u] l IH]; intros d Ha Hnd Hl; cbn; [done|]. inversion_clear Hnd as [|? ? Hni Hnd'].
  apply IH; [apply forget_accounted; [done|apply Hl; by left]|done|]. intros id' u' Hin. cbn. rewrite lookup_delete_ne; [apply Hl; by right|].
  intros <-. apply Hni. by apply list_elem_of_fmap_2 with (f := fst) in Hin.
Qed.

Lemma budget_accounted d o op : accounted d o → own_release d (EBudget op) →
  accounted (d_with d (d_uploads d) (run_op (d_budget d) op) (d_fs d)) (others_after d o (EBudget op)).
Proof.
  intros [H1 H2 H3 H4 H5] Hown.
  assert (Hkeep : b_live (run_op (d_budget d) op) = b_live (d_budget d) → others_after d o (EBudget op) = o →
    accounted (d_with d (d_uploads d) (run_op (d_budget d) op) (d_fs d)) (others_after d o (EBudget op))).
  { intros El ->. split; cbn; try done; [by apply run_op_inv|]. intros t. by rewrite El, H2. }
  destruct op; try (apply Hkeep; [|done]; cbn; unfold Acquire, Release, stopObserving, TryMaintenance, ObserveActivities;
    repeat case_match; cbn; by rewrite ?notify_live).
  - cbn in *. pose proof (run_op_inv _ OpAcquireActivity H1) as Hb. cbn in Hb. destruct (AcquireActivity (d_budget d)) as [b [tok|]] eqn:Eacq; cbn in *.
    + destruct (acquire_live _ _ _ Eacq) as [Hlive Htok]. pose proof (fresh_not_live _ H1) as Hfresh. rewrite <- Htok in Hfresh. split; cbn; try done.
      * intros t. change (holds _ t) with (holds d t). rewrite Hlive. set_solver.
      * intros t Ht. change (holds d t) in Ht. pose proof (H3 t Ht). rewrite not_elem_of_union, not_elem_of_singleton. split; [|done].
        intros ->. apply Hfresh, H2. by left.
    + apply Hkeep; [|done]. unfold AcquireActivity in Eacq. destruct (_ || _); [|done]. by injection Eacq as <-.
  - cbn in *. assert (Hh : ∀ t, holds d t → t ≠ tok) by (intros t (id & u & Hu & <-); by eapply Hown). split; cbn; try done.
    + exact (run_op_inv _ (OpReleaseActivity tok) H1).
    + intros t. change (holds _ t) with (holds d t). rewrite release_live. specialize (H2 t). specialize (Hh t). set_solver.
    + intros t Ht. change (holds d t) in Ht. specialize (H3 t Ht). set_solver.
Qed.

Lemma dstep_accounted d o e : accounted d o → own_release d e → accounted (dstep d e).1 (others_after d o e).
Proof.
  intros Ha Hown. destruct e as [io id filename data done|io id|removed|io id path|op]; cbn -[others_after].
  - pose proof (chunk_accounted d o io id filename data done) as H. destruct (HandleChunk d io id filename data done). by apply H.
  - unfold Abort. destruct (d_uploads d !! id) eqn:Hu; [by apply forget_accounted|done].
  - apply cleanup_accounted; [done|apply NoDup_fst_map_to_list|]. intros id u. apply elem_of_map_to_list.
  - unfold handleFileDeleteRequest. repeat case_match; simplify_eq; cbn; try done. by destruct Ha; split.
  - by apply budget_accounted.
Qed.

Lemma druns_accounted d o es : accounted d o → own_releases d es → accounted (druns d es).1 (others d o es).
Proof.
  revert d o. induction es as [|e es IH]; intros d o Ha Hown; [done|]. destruct Hown as [H1 H2]. cbn.
  pose proof (dstep_accounted d o e Ha H1) as Ha'. destruct (dstep d e) as [d1 ack]. cbn in *. specialize (IH d1 _ Ha' H2).
  by destruct (druns d1 es).
Qed.

(** The number of activities is the number of uploads and of what others hold. *)
Lemma accounted_count d o : accounted d o → ActivityCount (d_budget d) = Z.of_nat (size (d_uploads d)) + Z.of_nat (size o).
Proof.
  intros [H1 H2 H3 H4 _]. unfold ActivityCount. rewrite (inv_activities _ H1).
  set (l := (u_release ∘ snd) <$> map_to_list (d_uploads d)).
  assert (Hin : ∀ t, t ∈ l ↔ holds d t).
  { intros t. unfold l, holds. rewrite list_elem_of_fmap. split.
    - intros ([id u] & -> & Hu%elem_of_map_to_list). by exists id, u.
    - intros (id & u & Hu & <-). exists (id, u). split; [done|]. by apply elem_of_map_to_list. }
  assert (Hnd : NoDup l).
  { apply NoDup_fmap_2_strong; [|apply NoDup_map_to_list]. intros [id1 u1] [id2 u2] Hu1%elem_of_map_to_list Hu2%elem_of_map_to_list E.
    cbn in E. assert (id1 = id2) as -> by by eapply H4. congruence. }
  assert (El : b_live (d_budget d) = list_to_set l ∪ o).
  { apply set_eq. intros t. by rewrite elem_of_union, elem_of_list_to_set, Hin, H2. }
  rewrite El, size_union by (intros t; rewrite elem_of_list_to_set, Hin; intros Ht; by apply H3).
  rewrite size_list_to_set by done. unfold l. rewrite length_fmap, length_map_to_list. lia.
Qed.

(** ** Properties *)

Lemma druns_shows d a es d' acks : shows d a → Forall keeps_out es → druns d es = (d', acks) →
  ∃ a', shows d' a' ∧ d_dir d' = d_dir d ∧ aruns (d_dir d) a es acks a'.
Proof.
  revert d a d' acks. induction es as [|e es IH]; intros d a d' acks Hs Hk E; cbn in E.
  - injection E as <- <-. exists a. split_and!; [done|done|constructor].
  - apply Forall_cons in Hk as [He Hk]. destruct (dstep d e) as [d1 ack] eqn:E1. destruct (druns d1 es) as [d2 acks2] eqn:E2. injection E as <- <-.
    destruct (dstep_shows d a e d1 ack Hs He E1) as (a1 & Hd1 & Hs1 & H1). destruct (IH d1 a1 d2 acks2 Hs1 Hk E2) as (a2 & Hs2 & Hd2 & H2).
    rewrite Hd1 in Hd2, H2. exists a2. split_and!; [done|done|]. by econstructor.
Qed.

(** C36. The drop zone implements its promise.  Whatever the order of chunks,
    aborts, deletions, disconnects and failing system calls: every answer is one
    the promise allows; an upload acknowledged as a success is under its name with
    exactly the data of its chunks in order and within the size limit; an upload
    that fails, is aborted or is cut off changes no file; a deletion that reports
    success has removed exactly the file its path means, in the drop zone, and one
    that reports a failure has removed nothing and fails only for a path outside,
    a file that is not there or a failing call; and every path that is not
    temporary has the contents the promise says.  Request ids of uploads are
    taken to have no path separator, and names that begin with .upload- are
    excluded. *)
Theorem uploads_refine dir b fs es d acks : fs_ok fs → Forall keeps_out es → druns (NewWithBudget dir b fs) es = (d, acks) →
  ∃ a, aruns dir (mkPromise ∅ (stored fs)) es acks a ∧
    (∀ path, ¬ temporary dir path → contents (d_fs d) path = a_files a !! path) ∧
    (∀ id, is_Some (d_uploads d !! id) ↔ is_Some (a_live a !! id)).
Proof.
  intros Hfs Hk E. assert (Hs : shows (NewWithBudget dir b fs) (mkPromise ∅ (stored fs))).
  { split; cbn; try done. intros p _. unfold stored. by rewrite lookup_omap. }
  destruct (druns_shows _ _ es d acks Hs Hk E) as (a & Ha & Hd & Hr). exists a. cbn in Hd. split_and!; [done| |].
  - intros p Hp. apply (s_files _ _ Ha). by rewrite Hd.
  - intros id. destruct (d_uploads d !! id) as [u|] eqn:Hu.
    + destruct (s_live _ _ Ha id u Hu) as (data & []). by rewrite l_data0.
    + by rewrite (s_none _ _ Ha id Hu).
Qed.

Definition dz_events : list dev :=
  [EChunk all_good "r1" "../a.txt" [1; 2] false; EChunk all_good "r2" "b" [9] false; EChunk all_good "r1" "" [3] true;
   EChunk (mkIo true (Some 0%nat) true true true) "r2" "" [8] true; EChunk all_good "r3" "c" [7] false; ECleanup (fun _ => true);
   EChunk all_good "r4" "d" [5] true; EDelete all_good "r5" "veyport://dropzone/d"; EDelete all_good "r6" "veyport://dropzone/../a.txt"].

Lemma uploads_refine_witness :
  ∃ d acks a, druns dz_example dz_events = (d, acks) ∧
    acks = [None; None; Some (Ack (mkAck "r1" true "")); Some (Ack (mkAck "r2" false errFileOperation)); None; None;
            Some (Ack (mkAck "r4" true "")); Some (Deleted (mkDeleted "r5" true ""));
            Some (Deleted (mkDeleted "r6" false "deletion only allowed from dropzone directory"))] ∧
    aruns "/tmp/veyport-dropzone" (mkPromise ∅ ∅) dz_events acks a ∧
    a_files a !! "/tmp/veyport-dropzone/a.txt" = contents (d_fs d) "/tmp/veyport-dropzone/a.txt" ∧
    contents (d_fs d) "/tmp/veyport-dropzone/a.txt" = Some [1; 2; 3] ∧ contents (d_fs d) "/tmp/veyport-dropzone/d" = None.
Proof.
  destruct (druns dz_example dz_events) as [d acks] eqn:E.
  destruct (uploads_refine "/tmp/veyport-dropzone" (New 8) (mkFs ∅ ∅ 0) dz_events d acks) as (a & Hr & Hf & _).
  - intros path ino Hp. discriminate Hp.
  - repeat constructor; reflexivity.
  - exact E.
  - exists d, acks, a. split; [reflexivity|]. assert (Hacks : acks = (druns dz_example dz_events).2) by (rewrite E; reflexivity).
    assert (Hd : d = (druns dz_example dz_events).1) by (rewrite E; reflexivity).
    split; [rewrite Hacks; vm_compute; reflexivity|]. split; [exact Hr|]. split.
    + symmetry. apply Hf. change "/tmp/veyport-dropzone/a.txt" with (Join ["/tmp/veyport-dropzone"; "a.txt"]).
      apply final_not_temporary; [|reflexivity]. split_and!; [reflexivity|discriminate..].
    + rewrite Hd. split; vm_compute; reflexivity.
Defined.

(** Every live upload holds exactly one activity of the agent's budget and
    gives it back when it ends, however it ends: in every run, with other parts of
    the agent using the budget too, the count of activities is the number of live
    uploads and of what the others hold, at most ten uploads are live, and the
    count is within its bound. *)
Theorem upload_activities dir maximum fs es : let d0 := NewWithBudget dir (New maximum) fs in
  own_releases d0 es → let d := (druns d0 es).1 in
  ActivityCount (d_budget d) = Z.of_nat (size (d_uploads d)) + Z.of_nat (size (others d0 ∅ es)) ∧
  (size (d_uploads d) ≤ MaxConcurrentUploads)%nat ∧ ActivityCount (d_budget d) ≤ MaxActivities.
Proof.
  intros d0 Hown d. assert (Ha : accounted d0 ∅).
  { split; cbn; try done.
    - apply NewBudget_inv.
    - intros tok. split; [set_solver|]. intros [(id & u & Hu & _)|Ho]; [done|set_solver].
    - rewrite map_size_empty. unfold MaxConcurrentUploads. lia. }
  pose proof (druns_accounted d0 ∅ es Ha Hown) as H. split_and!; [by apply accounted_count|apply H|]. destruct H as [[]]. done.
Qed.

Lemma upload_activities_witness :
  let d := (druns dz_example (EBudget OpAcquireActivity :: take 2 dz_events)).1 in ActivityCount (d_budget d) = 3 ∧ size (d_uploads d) = 2%nat.
Proof.
  destruct (upload_activities "/tmp/veyport-dropzone" 8 (mkFs ∅ ∅ 0) (EBudget OpAcquireActivity :: take 2 dz_events)) as (H1 & _ & _).
  - repeat split.
  - split; [|vm_compute; reflexivity]. etransitivity; [exact H1|]. vm_compute. reflexivity.
Defined.

(** A file whose name is that of a temporary file replaces it: here the upload
    r2, named .upload-r1, is stored over the file of the live upload r1, whose last
    chunk is then acknowledged as a success although the file under its name has
    the data of r2. *)
Theorem upload_clobbered :
  let '(d, acks) := druns dz_example
    [EChunk all_good "r1" "a.txt" [1] false; EChunk all_good "r2" ".upload-r1" [2] true; EChunk all_good "r1" "" [3] true] in
  acks = [None; Some (Ack (mkAck "r2" true "")); Some (Ack (mkAck "r1" true ""))] ∧
  contents (d_fs d) "/tmp/veyport-dropzone/a.txt" = Some [2].
Proof. vm_compute. done. Qed.
