(* ===== verification/AuthTokens.v ===== *)
(** Credentials of the hub (hub/internal/auth and the rate limiter of
    hub/internal/server/middleware.go): the claims of a token, one-time codes and
    the memory of used ones, revoked tokens, the password rules and generated
    passwords, and the limit on attempts per address.

    Signing and checking tokens, one-time codes and bcrypt are libraries: their
    answers are arguments.  So are random numbers and clock readings. *)

From Stdlib Require Import Sorted.
From S2P Require Import Prelude Codec Filepath.

(** ** Tokens (jwt.go, api_token.go) *)

Definition TokenTypeAccess : string := "access".
Definition TokenTypeRefresh : string := "refresh".
Definition TokenTypeSetup : string := "setup".
Definition TokenTypeTOTP : string := "totp".
Definition TokenTypeAPIToken : string := "api_token".
Definition TokenTypePasswordRecovery : string := "password_recovery".
Definition AccessTokenExpiry : Duration := 15 * Minute.
Definition RefreshTokenExpiry : Duration := 7 * 24 * Hour.
Definition SetupTokenExpiry : Duration := 10 * Minute.
Definition TOTPTokenExpiry : Duration := 60 * Second.

Record Claims := mkClaims {
  cl_ID : string; cl_Subject : string; cl_IssuedAt : Time; cl_ExpiresAt : option Time;
  cl_Role : string; cl_TokenType : string; cl_TokenGeneration : Z; cl_SessionID : string;
}.

(** The claims [generateToken] signs; [id] is the generated identifier. *)
Definition generateToken (id : string) (now : Time) (userID role tokenType : string) (expiry : Duration) (tokenGen : Z) (sid : string) : Claims :=
  mkClaims id userID now (Some (now + expiry)) role tokenType tokenGen sid.

Definition APITokenPrefix : string := "adt_".
Definition LooksLikeAPIToken (raw : string) : bool := HasPrefix raw APITokenPrefix.
Definition HashAPIToken (raw : string) : string := string_of_bytes (hex_encode (sha256_bytes (bytes raw))).

(** ** One-time codes (totp.go, totp_cache.go) *)

(** The key ["userID:code"] and when it was used. *)
Abbreviation TOTPUsedCodes := (gmap string Z) (only parsing).
Definition codeKey (userID code : string) : string := userID +:+ ":" +:+ code.

(** The loop over the map: the entry [k] is judged at the reading [clk k]. *)
Definition cleanup_codes (clk : string → Time) (codes : TOTPUsedCodes) : TOTPUsedCodes :=
  filter (fun kt : string * Time => time_sub (clk kt.1) kt.2 ≤ 90 * Second) codes.

Definition MarkUsed (codes : TOTPUsedCodes) (userID code : string) (now : Time) (clk : string → Time) : TOTPUsedCodes :=
  cleanup_codes clk (<[codeKey userID code := now]> codes).

Definition WasUsed (codes : TOTPUsedCodes) (userID code : string) : bool := bool_decide (is_Some (codes !! codeKey userID code)).

Definition CheckAndMark (codes : TOTPUsedCodes) (userID code : string) (now : Time) (clk : string → Time) : TOTPUsedCodes * bool :=
  let key := codeKey userID code in
  match codes !! key with
  | Some _ => (codes, false)
  | None => (cleanup_codes clk (<[key := now]> codes), true)
  end.

(** [valid] is what the library answers for the secret, the code and the time. *)
Definition ValidateTOTPWithReplayAt (valid : string → string → Time → bool) (codes : TOTPUsedCodes) (userID secret code : string)
    (now stamp : Time) (clk : string → Time) : TOTPUsedCodes * bool :=
  if valid secret code now then CheckAndMark codes userID code stamp clk else (codes, false).

(** ** Revoked tokens (blacklist.go) *)

(** The table of the database, when there is one: expiries in whole seconds. *)
Record TokenBlacklist := mkBlacklist { bl_entries : gmap string Time; bl_db : option (gmap string Time) }.

Definition truncSecond (t : Time) : Time := t / Second * Second.

(** [now] is when the statement compares; [reads] whether the query succeeds. *)
Definition loadFromDB (rows : gmap string Time) (now : Time) (reads : bool) : gmap string Time :=
  if reads then filter (fun kt : string * Time => truncSecond now < kt.2) rows else ∅.

Definition NewTokenBlacklist (db : option (gmap string Time)) (now : Time) (reads : bool) : TokenBlacklist :=
  mkBlacklist (match db with Some rows => loadFromDB rows now reads | None => ∅ end) db.

Definition drop_expired (now : Time) (entries : gmap string Time) : gmap string Time :=
  filter (fun kt : string * Time => ¬ kt.2 < now) entries.

Definition cleanup (b : TokenBlacklist) (now : Time) (writes : bool) : TokenBlacklist :=
  mkBlacklist (drop_expired now (bl_entries b))
    (match bl_db b with
     | Some rows => Some (if writes then filter (fun kt : string * Time => ¬ kt.2 ≤ truncSecond now) rows else rows)
     | None => None
     end).

Definition Add (b : TokenBlacklist) (jti : string) (expiry now : Time) (writes : bool) : TokenBlacklist :=
  mkBlacklist (drop_expired now (<[jti := expiry]> (bl_entries b)))
    (match bl_db b with
     | Some rows => Some (if writes then <[jti := truncSecond expiry]> rows else rows)
     | None => None
     end).

Definition IsBlacklisted (b : TokenBlacklist) (jti : string) (now : Time) (reads rereads : bool) : TokenBlacklist * bool :=
  match bl_entries b !! jti with
  | Some _ => (b, true)
  | None =>
      match bl_db b with
      | Some rows =>
          match rows !! jti with
          | Some exp =>
              if reads && (truncSecond now <? exp) then
                (mkBlacklist (if rereads then <[jti := exp]> (bl_entries b) else bl_entries b) (bl_db b), true)
              else (b, false)
          | None => (b, false)
          end
      | None => (b, false)
      end
  end.

(** ** Passwords (password.go) *)

(** The Unicode classes. *)
Record Unicode := mkUnicode { uni_upper : Z → bool; uni_lower : Z → bool; uni_digit : Z → bool; uni_special : Z → bool }.

Inductive charClass := CUpper | CLower | CDigit | CSpecial | COther.
#[export] Instance charClass_eq_dec : EqDecision charClass.
Proof. solve_decision. Defined.

(** The switch of the loop: the first class that applies. *)
Definition classify (U : Unicode) (r : Z) : charClass :=
  if uni_upper U r then CUpper else if uni_lower U r then CLower
  else if uni_digit U r then CDigit else if uni_special U r then CSpecial else COther.

Definition ValidatePasswordPolicy (U : Unicode) (password : string) : result unit :=
  check! len password <? 12, ErrText "password must be at least 12 characters";
  check! 256 <? len password, ErrText "password must be at most 256 characters";
  let has c := existsb (fun r => bool_decide (classify U r = c)) (runes password) in
  check! negb (has CUpper), ErrText "password must include at least one uppercase letter";
  check! negb (has CLower), ErrText "password must include at least one lowercase letter";
  check! negb (has CDigit), ErrText "password must include at least one digit";
  check! negb (has CSpecial), ErrText "password must include at least one special character";
  Ok tt.

Definition pw_length : nat := 20.
Definition pw_upper : list Z := bytes "ABCDEFGHIJKLMNOPQRSTUVWXYZ".
Definition pw_lower : list Z := bytes "abcdefghijklmnopqrstuvwxyz".
Definition pw_digits : list Z := bytes "0123456789".
Definition pw_special : list Z := bytes "!@#$%^&*".
Definition pw_all : list Z := pw_upper ++ pw_lower ++ pw_digits ++ pw_special.

(** [draw n bound] is the [n]th random number, below [bound]. *)
Definition randChar (draw : nat → nat → nat) (n : nat) (charset : list Z) : Z := nth (draw n (length charset)) charset 0.

(** [pw[i], pw[j] = pw[j], pw[i]] *)
Definition swap (i j : nat) (pw : list Z) : list Z := <[i := nth j pw 0]> (<[j := nth i pw 0]> pw).

Fixpoint shuffle (draw : nat → nat → nat) (n i : nat) (pw : list Z) : list Z :=
  match i with
  | O => pw
  | S i' => shuffle draw (S n) i' (swap i (draw n (S i)) pw)
  end.

Definition GenerateTemporaryPassword (draw : nat → nat → nat) : list Z :=
  let pw := [randChar draw 0 pw_upper; randChar draw 1 pw_lower; randChar draw 2 pw_digits; randChar draw 3 pw_special]
            ++ ((fun i => randChar draw i pw_all) <$> seq 4 (pw_length - 4)) in
  shuffle draw pw_length (pw_length - 1) pw.

(** ** Attempts per address (middleware.go) *)

Record rateLimiter := mkLimiter { rl_attempts : gmap string (list Time); rl_limit : Z; rl_window : Duration }.

Definition maxTrackedIPs : Z := 100000.

Definition newRateLimiter (limit : Z) (window : Duration) : rateLimiter := mkLimiter ∅ limit window.

(** The loop of [evictOldest] over the keys in the order [order]. *)
Fixpoint oldest (attempts : gmap string (list Time)) (skipIP : string) (order : list string) (best : option (string * Time)) : option (string * Time) :=
  match order with
  | [] => best
  | k :: t =>
      if bool_decide (k = skipIP) then oldest attempts skipIP t best
      else
        let last := List.last (default [] (attempts !! k)) 0 in
        oldest attempts skipIP t
          (match best with
           | None => Some (k, last)
           | Some (_, time) => if Before last time then Some (k, last) else best
           end)
  end.

Definition evictOldest (rl : rateLimiter) (skipIP : string) (order : list string) : rateLimiter :=
  match oldest (rl_attempts rl) skipIP order None with
  | Some (k, _) => if bool_decide (k = "") then rl else mkLimiter (delete k (rl_attempts rl)) (rl_limit rl) (rl_window rl)
  | None => rl
  end.

Definition allow (rl : rateLimiter) (ip : string) (now : Time) (order : list string) : rateLimiter * bool :=
  let cutoff := now - rl_window rl in
  let valid := filter (fun t => After t cutoff = true) (default [] (rl_attempts rl !! ip)) in
  let rl := mkLimiter (if bool_decide (valid = []) then delete ip (rl_attempts rl) else <[ip := valid]> (rl_attempts rl)) (rl_limit rl) (rl_window rl) in
  if rl_limit rl <=? Z.of_nat (length valid) then (rl, false)
  else
    let rl := if maxTrackedIPs <=? Z.of_nat (size (rl_attempts rl)) then evictOldest rl ip order else rl in
    (mkLimiter (<[ip := valid ++ [now]]> (rl_attempts rl)) (rl_limit rl) (rl_window rl), true).

(** ** One-time codes are used once *)

(** An attempt with a code: the clock of the check, the stamp of the use and the
    readings of the cleanup. *)
Record attempt := mkAttempt {
  at_user : string; at_secret : string; at_code : string; at_now : Time; at_stamp : Time; at_clk : string → Time;
}.

Definition try_code (valid : string → string → Time → bool) (codes : TOTPUsedCodes) (a : attempt) : TOTPUsedCodes * bool :=
  ValidateTOTPWithReplayAt valid codes (at_user a) (at_secret a) (at_code a) (at_now a) (at_stamp a) (at_clk a).

Definition tried (valid : string → string → Time → bool) (codes : TOTPUsedCodes) (l : list attempt) : TOTPUsedCodes :=
  foldl (fun codes a => (try_code valid codes a).1) codes l.

(** The clock does not go back within and between attempts. *)
Definition in_order (a : attempt) : Prop := at_now a ≤ at_stamp a ∧ ∀ k, at_stamp a ≤ at_clk a k.
Definition before (a b : attempt) : Prop := ∀ k, at_clk a k ≤ at_now b.

(** The 30 second step [k] is accepted at [now], one step early or late. *)
Definition in_window (k : Z) (now : Time) : Prop := k - 1 ≤ now / (30 * Second) ≤ k + 1.

Lemma window_span k t1 t2 : in_window k t1 → in_window k t2 → t2 - t1 < 90 * Second.
Proof.
  unfold in_window. intros [H1 _] [_ H2]. unfold Second in *.
  pose proof (Z.mul_div_le t1 (30 * 1000000000) ltac:(lia)). pose proof (Z.mul_succ_div_gt t2 (30 * 1000000000) ltac:(lia)). lia.
Qed.

Lemma time_sub_beyond a b d : 0 ≤ d < int64_max → d < time_sub a b → d < a - b.
Proof. unfold time_sub, int64_max, int64_min. lia. Qed.

(** A use is remembered as long as every reading is within 90 seconds of it. *)
Lemma cleanup_keeps clk codes key t : codes !! key = Some t → clk key - t ≤ 90 * Second → cleanup_codes clk codes !! key = Some t.
Proof.
  intros H Hle. apply map_lookup_filter_Some. split; [done|]. cbn. destruct (decide (time_sub (clk key) t ≤ 90 * Second)); [done|].
  apply Z.nle_gt, time_sub_beyond in n; unfold Second, int64_max in *; lia.
Qed.

Lemma try_keeps valid codes a key t : codes !! key = Some t → at_clk a key - t ≤ 90 * Second → (try_code valid codes a).1 !! key = Some t.
Proof.
  intros H Hle. unfold try_code, ValidateTOTPWithReplayAt, CheckAndMark. destruct (valid _ _ _); [|done].
  destruct (codes !! codeKey _ _) eqn:E; [done|]. cbn. apply cleanup_keeps; [|done].
  rewrite lookup_insert_ne; [done|]. intros <-. congruence.
Qed.

Lemma tried_keeps valid l codes key t upto : codes !! key = Some t → (∀ a, a ∈ l → at_clk a key ≤ upto) → upto - t ≤ 90 * Second →
  tried valid codes l !! key = Some t.
Proof.
  revert codes. induction l as [|a l IH]; intros codes H Hl Hu; [done|]. cbn. apply IH; [|intros b Hb; apply Hl; by right|done].
  apply try_keeps; [done|]. specialize (Hl a ltac:(by left)). lia.
Qed.

(** C34. A one-time code works once: when an attempt with a code was accepted, a
    later attempt of the same user with the same code is refused as long as the
    code is valid for a time step it was valid for then, whatever other attempts
    come between. *)
Theorem code_once valid codes a l b k :
  in_order a → before a b → (∀ x, x ∈ l → before x b) →
  at_user b = at_user a → at_code b = at_code a →
  (try_code valid codes a).2 = true → in_window k (at_now a) → in_window k (at_now b) →
  (try_code valid (tried valid (try_code valid codes a).1 l) b).2 = false.
Proof.
  intros [Ha1 Ha2] Hab Hlb Eu Ec Hacc Wa Wb. pose proof (window_span _ _ _ Wa Wb) as Hspan.
  set (key := codeKey (at_user a) (at_code a)).
  assert (Hkey : (try_code valid codes a).1 !! key = Some (at_stamp a)).
  { unfold try_code, ValidateTOTPWithReplayAt, CheckAndMark in Hacc |- *. destruct (valid _ _ _); [|done].
    destruct (codes !! codeKey _ _) eqn:E; [done|]. cbn. apply cleanup_keeps; [by rewrite lookup_insert_eq|].
    fold key. specialize (Hab key). specialize (Ha2 key). lia. }
  assert (Hl' : tried valid (try_code valid codes a).1 l !! key = Some (at_stamp a)).
  { eapply (tried_keeps _ _ _ _ _ (at_now b)); [done|intros x Hx; by apply Hlb|lia]. }
  unfold try_code at 1, ValidateTOTPWithReplayAt, CheckAndMark. destruct (valid _ _ _); [|done]. rewrite Eu, Ec. fold key. by rewrite Hl'.
Qed.

Definition ct_valid (secret code : string) (now : Time) : bool := bool_decide (TrimSpace code = "123456").
Definition ct_attempt (code : string) (now : Time) : attempt := mkAttempt "u1" "secret" code now now (fun _ => now).

Lemma code_once_witness :
  (try_code ct_valid (tried ct_valid (try_code ct_valid ∅ (ct_attempt "123456" 0)).1 [ct_attempt "000000" (10 * Second)]) (ct_attempt "123456" (59 * Second))).2 = false.
Proof.
  apply (code_once ct_valid ∅ (ct_attempt "123456" 0) [ct_attempt "000000" (10 * Second)] (ct_attempt "123456" (59 * Second)) 0).
  - split; [|intros k]; vm_compute; discriminate.
  - intros k. vm_compute. discriminate.
  - intros x [->|H]%elem_of_cons k; [vm_compute; discriminate|]. by apply not_elem_of_nil in H.
  - reflexivity.
  - reflexivity.
  - vm_compute. reflexivity.
  - split; vm_compute; discriminate.
  - split; vm_compute; discriminate.
Defined.

Lemma cons_neq (c : Ascii.ascii) (s : string) : String c s ≠ s.
Proof. intros E. apply (f_equal String.length) in E. cbn in E. lia. Qed.

(** The memory of used codes compares text, the check does not: when the
    check ignores a space in front of the code, a code that was just accepted is
    accepted again with a space in front. *)
Theorem code_again_with_space valid codes user secret code now stamp clk :
  (∀ s c t, valid s (" " +:+ c) t = valid s c t) →
  codes !! codeKey user (" " +:+ code) = None →
  (ValidateTOTPWithReplayAt valid codes user secret code now stamp clk).2 = true →
  (ValidateTOTPWithReplayAt valid (ValidateTOTPWithReplayAt valid codes user secret code now stamp clk).1 user secret (" " +:+ code) now stamp clk).2 = true.
Proof.
  intros Hv Hn Hacc. unfold ValidateTOTPWithReplayAt, CheckAndMark in *. rewrite Hv. destruct (valid secret code now); [|done].
  destruct (codes !! codeKey user code); [done|]. cbn [fst].
  assert (E : cleanup_codes clk (<[codeKey user code := stamp]> codes) !! codeKey user (" " +:+ code) = None).
  { apply map_lookup_filter_None. left. rewrite lookup_insert_ne; [done|]. unfold codeKey. intros E%(inj _)%(inj _). symmetry in E. by apply cons_neq in E. }
  by rewrite E.
Qed.

Lemma code_again_with_space_witness :
  let codes := (ValidateTOTPWithReplayAt (fun _ c _ => bool_decide (drop_space (bytes c) = bytes "123456")) ∅ "u1" "s" "123456" 0 0 (fun _ => 0)).1 in
  (ValidateTOTPWithReplayAt (fun _ c _ => bool_decide (drop_space (bytes c) = bytes "123456")) codes "u1" "s" " 123456" 0 0 (fun _ => 0)).2 = true.
Proof.
  apply (code_again_with_space (fun _ c _ => bool_decide (drop_space (bytes c) = bytes "123456")) ∅ "u1" "s" "123456" 0 0 (fun _ => 0)).
  - intros s c t. reflexivity.
  - reflexivity.
  - vm_compute. reflexivity.
Defined.

(** ** Revoked tokens stay revoked *)

Inductive bop :=
| BAdd (jti : string) (expiry now : Time) (writes : bool)
| BCleanup (now : Time) (writes : bool)
| BQuery (jti : string) (now : Time) (reads rereads : bool)
| BRestart (now : Time) (reads : bool).

Definition bstep (b : TokenBlacklist) (o : bop) : TokenBlacklist :=
  match o with
  | BAdd jti expiry now writes => Add b jti expiry now writes
  | BCleanup now writes => cleanup b now writes
  | BQuery jti now reads rereads => (IsBlacklisted b jti now reads rereads).1
  | BRestart now reads => NewTokenBlacklist (bl_db b) now reads
  end.

Definition bop_now (o : bop) : Time :=
  match o with BAdd _ _ now _ | BCleanup now _ | BQuery _ now _ _ | BRestart now _ => now end.

(** A token has one expiry: adding it again does not change it. *)
Definition same_expiry (jti : string) (exp : Time) (o : bop) : Prop :=
  match o with BAdd j e _ _ => j = jti → e = exp | _ => True end.

Lemma trunc_le t : truncSecond t ≤ t.
Proof. unfold truncSecond, Second. pose proof (Z.mul_div_le t 1000000000 ltac:(lia)). lia. Qed.

Lemma truncSecond_id t : truncSecond (truncSecond t) = truncSecond t.
Proof. unfold truncSecond. rewrite Z.div_mul; [done|]. unfold Second. lia. Qed.

Lemma bstep_row b o jti exp rows : bl_db b = Some rows → rows !! jti = Some exp → truncSecond exp = exp →
  bop_now o < exp → same_expiry jti exp o → ∃ rows', bl_db (bstep b o) = Some rows' ∧ rows' !! jti = Some exp.
Proof.
  intros Hdb Hr Ht Hn He. destruct o as [j e now w|now w|j now r rr|now r]; cbn in *.
  - rewrite Hdb. eexists. split; [done|]. destruct w; [|done]. destruct (decide (j = jti)) as [->|].
    + rewrite He, Ht by done. by rewrite lookup_insert_eq.
    + by rewrite lookup_insert_ne.
  - rewrite Hdb. eexists. split; [done|]. destruct w; [|done]. apply map_lookup_filter_Some. split; [done|]. cbn.
    pose proof (trunc_le now). lia.
  - exists rows. split; [|done]. rewrite <- Hdb. unfold IsBlacklisted. repeat case_match; cbn; congruence.
  - eauto.
Qed.

(** A revoked token is refused until it expires: once its revocation was
    written, whatever revocations, cleanups, lookups and restarts follow before
    its expiry (a whole second, as in a token), a lookup that can read the
    database finds it. *)
Theorem revoked_until_expiry b jti exp now0 rows os now reread :
  bl_db b = Some rows → truncSecond exp = exp → now0 < exp →
  Forall (fun o => bop_now o < exp ∧ same_expiry jti exp o) os → now < exp →
  (IsBlacklisted (foldl bstep (Add b jti exp now0 true) os) jti now true reread).2 = true.
Proof.
  intros Hdb Ht H0 Hos Hn. assert (Hrow : ∃ rows', bl_db (foldl bstep (Add b jti exp now0 true) os) = Some rows' ∧ rows' !! jti = Some exp).
  { assert (H : ∃ rows', bl_db (Add b jti exp now0 true) = Some rows' ∧ rows' !! jti = Some exp).
    { cbn. rewrite Hdb. eexists. split; [done|]. by rewrite Ht, lookup_insert_eq. }
    revert H. generalize (Add b jti exp now0 true). induction Hos as [|o os [Ho1 Ho2] Hos IH]; intros b' H; [done|].
    cbn. apply IH. destruct H as (rows' & H1 & H2). by eapply bstep_row. }
  destruct Hrow as (rows' & Hdb' & Hr'). unfold IsBlacklisted. destruct (bl_entries _ !! jti); [done|]. rewrite Hdb', Hr'. cbn.
  rewrite (proj2 (Z.ltb_lt _ _)); [done|]. pose proof (trunc_le now). lia.
Qed.

Lemma revoked_until_expiry_witness :
  (IsBlacklisted (foldl bstep (Add (mkBlacklist ∅ (Some ∅)) "j1" (100 * Second) 0 true)
     [BAdd "j2" (50 * Second) Second true; BRestart (60 * Second) false; BCleanup (70 * Second) true]) "j1" (99 * Second) true true).2 = true.
Proof.
  apply (revoked_until_expiry (mkBlacklist ∅ (Some ∅)) "j1" (100 * Second) 0 ∅); try reflexivity.
  repeat constructor; discriminate.
Defined.

(** ** Generated passwords satisfy the rules *)

(** What the Unicode tables say of the characters used. *)
Definition ascii_class (r : Z) : charClass :=
  if between 65 90 r then CUpper else if between 97 122 r then CLower else if between 48 57 r then CDigit
  else if bool_decide (r ∈ pw_special) then CSpecial else COther.
Definition agrees (U : Unicode) : Prop := ∀ r, r ∈ pw_all → classify U r = ascii_class r.

Lemma swap_length i j pw : length (swap i j pw) = length pw.
Proof. unfold swap. by rewrite !length_insert. Qed.

Lemma swap_elem i j pw x : (i < length pw)%nat → (j < length pw)%nat → x ∈ swap i j pw ↔ x ∈ pw.
Proof.
  intros Hi Hj. destruct (lookup_lt_is_Some_2 pw i Hi) as [a Ha], (lookup_lt_is_Some_2 pw j Hj) as [b Hb].
  assert (Hni : nth i pw 0 = a) by (by apply nth_lookup_Some with (d := 0) in Ha). assert (Hnj : nth j pw 0 = b) by (by apply nth_lookup_Some with (d := 0) in Hb).
  unfold swap. rewrite Hni, Hnj. rewrite !list_elem_of_lookup. split.
  - intros [n Hn]. rewrite !list_lookup_insert_Some in Hn. naive_solver.
  - intros [n Hn]. destruct (decide (n = i)) as [->|Hni'].
    + destruct (decide (i = j)) as [->|]; [exists j; rewrite list_lookup_insert_eq by (by rewrite length_insert); congruence|].
      exists j. rewrite list_lookup_insert_ne by done. rewrite list_lookup_insert_eq by done. congruence.
    + destruct (decide (n = j)) as [->|]; [exists i; rewrite list_lookup_insert_eq by (by rewrite length_insert); congruence|].
      exists n. by rewrite !list_lookup_insert_ne by done.
Qed.

Lemma shuffle_spec draw n i pw : (∀ n b, (0 < b)%nat → (draw n b < b)%nat) → (i < length pw)%nat →
  length (shuffle draw n i pw) = length pw ∧ ∀ x, x ∈ shuffle draw n i pw ↔ x ∈ pw.
Proof.
  intros Hd. revert n pw. induction i as [|i IH]; intros n pw Hi; [done|]. cbn [shuffle].
  specialize (Hd n (S (S i)) ltac:(lia)) as Hj.
  destruct (IH (S n) (swap (S i) (draw n (S (S i))) pw)) as [H1 H2]; [rewrite swap_length; lia|].
  split; [by rewrite H1, swap_length|]. intros x. rewrite H2. apply swap_elem; lia.
Qed.

Lemma randChar_elem draw n charset : (∀ n b, (0 < b)%nat → (draw n b < b)%nat) → charset ≠ [] → randChar draw n charset ∈ charset.
Proof.
  intros Hd Hc. unfold randChar. apply list_elem_of_In, nth_In, Hd. destruct charset; [done|cbn; lia].
Qed.

Lemma ascii_runes l : Forall (fun b => 0 ≤ b < 128) l → fst <$> runes_sized l = l.
Proof. induction 1 as [|b l Hb Hl IH]; [done|]. cbn. rewrite (proj2 (Z.ltb_lt _ _)) by lia. cbn. by rewrite IH. Qed.

Lemma all_ascii : Forall (fun b => 0 ≤ b < 128) pw_all.
Proof. apply (bool_decide_unpack _). vm_compute. exact I. Qed.

Lemma all_includes : pw_upper ⊆ pw_all ∧ pw_lower ⊆ pw_all ∧ pw_digits ⊆ pw_all ∧ pw_special ⊆ pw_all.
Proof. unfold pw_all. split_and!; intros x Hx; rewrite !elem_of_app; tauto. Qed.

Lemma class_elem U pw c cs x : agrees U → Forall (fun b => b ∈ pw_all) pw → x ∈ cs → cs ⊆ pw_all → x ∈ pw →
  (∀ y, y ∈ cs → ascii_class y = c) → existsb (fun r => bool_decide (classify U r = c)) pw = true.
Proof.
  intros HU Hpw Hx Hcs Hin Hc. apply existsb_exists. exists x. split; [by apply list_elem_of_In|].
  apply bool_decide_eq_true. rewrite (HU x) by by apply Hcs. by apply Hc.
Qed.

Lemma class_of cs c : bool_decide (Forall (fun y => ascii_class y = c) cs) = true → ∀ y, y ∈ cs → ascii_class y = c.
Proof. intros H%bool_decide_eq_true y Hy. rewrite Forall_forall in H. by apply H. Qed.

Lemma generated_spec draw : (∀ n b, (0 < b)%nat → (draw n b < b)%nat) → let pw := GenerateTemporaryPassword draw in
  length pw = 20%nat ∧ Forall (fun b => b ∈ pw_all) pw ∧
  randChar draw 0 pw_upper ∈ pw ∧ randChar draw 1 pw_lower ∈ pw ∧ randChar draw 2 pw_digits ∈ pw ∧ randChar draw 3 pw_special ∈ pw.
Proof.
  intros Hd. unfold GenerateTemporaryPassword.
  set (l := [_; _; _; _] ++ _). assert (Hl : length l = 20%nat) by (unfold l; rewrite length_app, length_fmap, length_seq; done).
  destruct (shuffle_spec draw pw_length (pw_length - 1) l Hd) as [H1 H2]; [rewrite Hl; cbn; lia|]. cbn zeta. rewrite H1, !H2.
  assert (Hr : ∀ n cs, cs ≠ [] → cs ⊆ pw_all → randChar draw n cs ∈ pw_all) by (intros n cs Hne Hs; by apply Hs, randChar_elem).
  split_and!; [done| |unfold l; apply elem_of_app; left; repeat first [left; reflexivity|right]..]. apply Forall_forall. intros x Hx%H2. unfold l in Hx.
  apply elem_of_app in Hx as [Hx|[i [-> _]]%list_elem_of_fmap]; [|by apply Hr].
  pose proof all_includes as Hsub.
  repeat (apply elem_of_cons in Hx as [->|Hx]; [apply Hr; [done|tauto]|]). by apply not_elem_of_nil in Hx.
Qed.

(** Every generated temporary password satisfies the password rules, whatever
    random numbers are drawn within their bounds. *)
Theorem temporary_password_valid U draw : agrees U → (∀ n b, (0 < b)%nat → (draw n b < b)%nat) →
  ValidatePasswordPolicy U (string_of_bytes (GenerateTemporaryPassword draw)) = Ok tt.
Proof.
  intros HU Hd. destruct (generated_spec draw Hd) as (Hl & Hall & H0 & H1 & H2 & H3). set (pw := GenerateTemporaryPassword draw) in *.
  assert (Ha : Forall (fun b => 0 ≤ b < 128) pw).
  { rewrite Forall_forall in Hall |- *. intros x Hx%Hall. pose proof all_ascii as A. rewrite Forall_forall in A. by apply A. }
  assert (Hb : bytes (string_of_bytes pw) = pw) by (apply bytes_of_string; eapply Forall_impl; [exact Ha|cbn; lia]).
  unfold ValidatePasswordPolicy. rewrite !len_bytes, Hb, Hl. cbn [Z.ltb]. unfold runes. rewrite Hb, ascii_runes by done.
  pose proof all_includes as Hsub.
  destruct Hsub as (S0 & S1 & S2 & S3).
  rewrite (class_elem U pw CUpper pw_upper _ HU Hall (randChar_elem draw 0 pw_upper Hd ltac:(done)) S0 H0) by (by apply class_of).
  rewrite (class_elem U pw CLower pw_lower _ HU Hall (randChar_elem draw 1 pw_lower Hd ltac:(done)) S1 H1) by (by apply class_of).
  rewrite (class_elem U pw CDigit pw_digits _ HU Hall (randChar_elem draw 2 pw_digits Hd ltac:(done)) S2 H2) by (by apply class_of).
  rewrite (class_elem U pw CSpecial pw_special _ HU Hall (randChar_elem draw 3 pw_special Hd ltac:(done)) S3 H3) by (by apply class_of).
  done.
Qed.

Definition ascii_unicode : Unicode :=
  mkUnicode (between 65 90) (between 97 122) (between 48 57) (fun r => bool_decide (r ∈ pw_special)).

Lemma temporary_password_valid_witness :
  ValidatePasswordPolicy ascii_unicode (string_of_bytes (GenerateTemporaryPassword (fun n b => (n * n) mod b)%nat)) = Ok tt.
Proof.
  apply (temporary_password_valid ascii_unicode (fun n b => (n * n) mod b)%nat).
  - intros r _. reflexivity.
  - intros n b Hb. apply Nat.mod_upper_bound. lia.
Defined.

(** ** The limit on attempts *)

Record call_at := mkCallAt { ca_ip : string; ca_now : Time; ca_order : list string }.

(** The times of the allowed calls of [ip], in order. *)
Fixpoint granted (rl : rateLimiter) (l : list call_at) (ip : string) : list Time :=
  match l with
  | [] => []
  | c :: t =>
      let '(rl, ok) := allow rl (ca_ip c) (ca_now c) (ca_order c) in
      (if ok && bool_decide (ca_ip c = ip) then [ca_now c] else []) ++ granted rl t ip
  end.

(** Those in the window that ends at [b]. *)
Definition in_span (window : Duration) (b : Time) (l : list Time) : list Time := filter (fun t => b - window < t ≤ b) l.

(** [hist] is what was granted so far, up to [t]: of every address the limiter
    keeps at least what is later than [t] less the window, and no window has more
    than the limit. *)
Record limited (rl : rateLimiter) (hist : string → list Time) (t : Time) : Prop := {
  lm_kept : ∀ ip, ∃ c, c ≤ t - rl_window rl ∧ default [] (rl_attempts rl !! ip) = filter (fun x => After x c = true) (hist ip);
  lm_past : ∀ ip x, x ∈ hist ip → x ≤ t;
  lm_span : ∀ ip b, Z.of_nat (length (in_span (rl_window rl) b (hist ip))) ≤ rl_limit rl;
}.

Lemma filter_after (l : list Time) a b : a ≤ b →
  filter (fun x => After x b = true) (filter (fun x => After x a = true) l) = filter (fun x => After x b = true) l.
Proof. intros Hab. rewrite list_filter_filter. apply list_filter_iff. intros x. unfold After. rewrite !Z.ltb_lt. lia. Qed.

Lemma filter_le {A} (P Q : A → Prop) `{∀ x, Decision (P x), ∀ x, Decision (Q x)} (l : list A) :
  (∀ x, x ∈ l → P x → Q x) → (length (filter P l) ≤ length (filter Q l))%nat.
Proof.
  induction l as [|x l IH]; intros H'; [done|]. specialize (IH ltac:(intros y Hy; apply H'; by right)). specialize (H' x ltac:(by left)).
  rewrite !filter_cons. repeat case_decide; cbn; try lia. tauto.
Qed.

Definition grant (hist : string → list Time) (ip : string) (now : Time) (ok : bool) (ip' : string) : list Time :=
  if ok && bool_decide (ip = ip') then hist ip' ++ [now] else hist ip'.

(** The entry of an address after [allow], when nothing is evicted. *)
Lemma allow_spec rl ip now order rl' ok : Z.of_nat (size (rl_attempts rl)) < maxTrackedIPs → allow rl ip now order = (rl', ok) →
  let valid := filter (fun x => After x (now - rl_window rl) = true) (default [] (rl_attempts rl !! ip)) in
  rl_limit rl' = rl_limit rl ∧ rl_window rl' = rl_window rl ∧ ok = negb (rl_limit rl <=? Z.of_nat (length valid)) ∧
  default [] (rl_attempts rl' !! ip) = (if ok then valid ++ [now] else valid) ∧
  (∀ ip', ip' ≠ ip → rl_attempts rl' !! ip' = rl_attempts rl !! ip').
Proof.
  intros Hs E. unfold allow in E. cbn zeta in *. set (valid := filter _ _) in *. set (m := if bool_decide _ then _ else _) in E.
  assert (Hm : default [] (m !! ip) = valid ∧ (∀ ip', ip' ≠ ip → m !! ip' = rl_attempts rl !! ip')).
  { unfold m. case_bool_decide as Hv.
    - rewrite lookup_delete_eq. split; [done|]. intros ip' Hn. by rewrite lookup_delete_ne.
    - rewrite lookup_insert_eq. split; [done|]. intros ip' Hn. by rewrite lookup_insert_ne. }
  destruct Hm as (Hm1 & Hm2). cbn [rl_limit rl_attempts rl_window] in E.
  assert (Hsize : Z.of_nat (size m) < maxTrackedIPs).
  { unfold m. case_bool_decide as Hv; [rewrite map_size_delete; destruct (rl_attempts rl !! ip); cbn; lia|].
    rewrite map_size_insert. destruct (rl_attempts rl !! ip) eqn:Ei; cbn; [lia|]. by destruct Hv. }
  destruct (rl_limit rl <=? Z.of_nat (length valid)); cbn in E.
  - injection E as <- <-. split_and!; try done.
  - rewrite (proj2 (Z.leb_gt _ _) Hsize) in E. injection E as <- <-. cbn. split_and!; try done; [by rewrite lookup_insert_eq|].
    intros ip' Hn. rewrite lookup_insert_ne by done. by apply Hm2.
Qed.

Lemma allow_limited rl hist t ip now order rl' ok : limited rl hist t → t ≤ now → 0 < rl_window rl →
  Z.of_nat (size (rl_attempts rl)) < maxTrackedIPs → allow rl ip now order = (rl', ok) → limited rl' (grant hist ip now ok) now.
Proof.
  intros [H1 H2 H3] Ht Hw Hs E. destruct (allow_spec rl ip now order rl' ok Hs E) as (El & Ew & Eok & Eip & Eother). cbn zeta in *.
  destruct (H1 ip) as (c & Hc & Ec). rewrite Ec, filter_after in Eok, Eip by lia. set (valid := filter _ _) in *.
  assert (Hgrant : ∀ ip', grant hist ip now ok ip' = hist ip' ∨ (ip' = ip ∧ ok = true ∧ grant hist ip now ok ip' = hist ip ++ [now])).
  { intros ip'. unfold grant. destruct ok; [|by left]. case_bool_decide; [subst; by right|by left]. }
  split; rewrite ?El, ?Ew.
  - intros ip'. destruct (decide (ip' = ip)) as [->|Hne].
    + exists (now - rl_window rl). split; [lia|]. rewrite Eip. unfold grant. rewrite bool_decide_eq_true_2, andb_true_r by done. destruct ok; [|done].
      rewrite filter_app. unfold valid. f_equal. rewrite filter_cons_True, filter_nil; [done|]. unfold After. apply Z.ltb_lt. lia.
    + unfold grant. rewrite bool_decide_eq_false_2, andb_false_r by done. rewrite Eother by done. destruct (H1 ip') as (c' & Hc' & E'). exists c'. split; [lia|done].
  - intros ip' x. destruct (Hgrant ip') as [->|(-> & _ & ->)]; [intros Hx%H2; lia|]. intros [Hx%H2| ->%list_elem_of_singleton]%elem_of_app; lia.
  - intros ip' b. destruct (Hgrant ip') as [->|(-> & -> & ->)]; [apply H3|]. symmetry in Eok. apply negb_true_iff, Z.leb_gt in Eok.
    unfold in_span. rewrite filter_app, length_app, filter_cons, filter_nil. case_decide as Hb; cbn; [|specialize (H3 ip b); unfold in_span in H3; lia].
    assert (length (in_span (rl_window rl) b (hist ip)) ≤ length valid)%nat; [|unfold in_span in *; lia].
    apply filter_le. intros x _ Hx. unfold After. apply Z.ltb_lt. lia.
Qed.

Lemma allow_dom rl ip now order rl' ok : Z.of_nat (size (rl_attempts rl)) < maxTrackedIPs → allow rl ip now order = (rl', ok) →
  dom (rl_attempts rl') ⊆ {[ip]} ∪ dom (rl_attempts rl).
Proof.
  intros Hs E. destruct (allow_spec rl ip now order rl' ok Hs E) as (_ & _ & _ & _ & Ho). intros ip' Hin. apply elem_of_dom in Hin.
  destruct (decide (ip' = ip)) as [->|Hne]; [set_solver|]. rewrite Ho in Hin by done. apply elem_of_union. right. by apply elem_of_dom.
Qed.

Lemma granted_limited l rl hist t (ips : gset string) : limited rl hist t → 0 < rl_window rl → dom (rl_attempts rl) ⊆ ips →
  list_to_set (ca_ip <$> l) ⊆ ips → Z.of_nat (size ips) < maxTrackedIPs → StronglySorted (fun a b => ca_now a ≤ ca_now b) l →
  Forall (fun c => t ≤ ca_now c) l → ∀ ip b, Z.of_nat (length (in_span (rl_window rl) b (hist ip ++ granted rl l ip))) ≤ rl_limit rl.
Proof.
  revert rl hist t. induction l as [|c l IH]; intros rl hist t Hl Hw Hd Hi Hs Hso Ht ip b; cbn [granted].
  { rewrite app_nil_r. apply Hl. }
  destruct (allow rl (ca_ip c) (ca_now c) (ca_order c)) as [rl' ok] eqn:E.
  assert (Hsize : Z.of_nat (size (rl_attempts rl)) < maxTrackedIPs).
  { rewrite <- size_dom. pose proof (subseteq_size _ _ Hd). lia. }
  apply Forall_cons in Ht as [Ht Htl]. pose proof (allow_limited _ _ _ _ _ _ _ _ Hl Ht Hw Hsize E) as Hl'.
  destruct (allow_spec _ _ _ _ _ _ Hsize E) as (El & Ew & _). apply StronglySorted_inv in Hso as [Hso Hcl].
  specialize (IH rl' _ _ Hl' ltac:(by rewrite Ew) ltac:(pose proof (allow_dom _ _ _ _ _ _ Hsize E); set_solver) ltac:(set_solver) Hs Hso Hcl ip b).
  rewrite Ew, El in IH. replace (hist ip ++ _ ++ granted rl' l ip) with (grant hist (ca_ip c) (ca_now c) ok ip ++ granted rl' l ip); [done|].
  unfold grant. destruct (ok && _); [by rewrite <- app_assoc|done].
Qed.

(** The limit on attempts holds: with fewer addresses than the limiter tracks,
    and a clock that does not go back, no window of time contains more allowed
    calls of one address than the limit. *)
Theorem attempts_bounded limit window l : 0 ≤ limit → 0 < window →
  Z.of_nat (size (list_to_set (ca_ip <$> l) : gset string)) < maxTrackedIPs → StronglySorted (fun a b => ca_now a ≤ ca_now b) l →
  ∀ ip b, Z.of_nat (length (in_span window b (granted (newRateLimiter limit window) l ip))) ≤ limit.
Proof.
  intros Hlim Hw Hs Hso ip b. destruct l as [|c l]; [done|].
  apply (granted_limited (c :: l) (newRateLimiter limit window) (fun _ => []) (ca_now c) (list_to_set (ca_ip <$> c :: l))); try done.
  - split; cbn; [|intros ip' x Hx; by apply not_elem_of_nil in Hx|done]. intros ip'. exists (ca_now c - window). split; [lia|]. by rewrite lookup_empty.
  - apply StronglySorted_inv in Hso as [_ H]. constructor; [lia|done].
Qed.

Lemma attempts_bounded_witness :
  let l := [mkCallAt "a" 0 []; mkCallAt "a" 1 []; mkCallAt "b" 2 []; mkCallAt "a" 3 []; mkCallAt "a" 62 []] in
  granted (newRateLimiter 2 60) l "a" = [0; 1; 62] ∧ Z.of_nat (length (in_span 60 62 (granted (newRateLimiter 2 60) l "a"))) ≤ 2.
Proof.
  split; [vm_compute; reflexivity|]. apply attempts_bounded; [lia|lia|vm_compute; reflexivity|].
  repeat constructor; cbn; lia.
Defined.
