(* ===== verification/AccountStore.v ===== *)
(** The accounts of the hub in the database: sign-in failures, sessions and their
    refresh digests, API tokens, the account lifecycle and password changes
    (hub/internal/store: lockout.go, sessions.go, session_refresh.go, lifecycle.go,
    account_lifecycle_audited.go, account_management.go, api_tokens.go, users.go).

    The tables are those of [SecurityStore]; an UPDATE of users runs with its
    triggers.  Times are stored in whole seconds.  A storage failure changes
    nothing and is the business of the caller; what remains is what the functions
    themselves decide. *)

From stdpp Require Import sorting.
From S2P Require Import Prelude Codec Lockout Model Account Session Governance SecurityStore SecurityProtocol AuthTokens.

Definition errUserNotFound : goerr := ErrText "user not found".
Definition errAPITokenNotFound : goerr := ErrText "api token not found".
Definition ErrSessionNotFound : goerr := Sentinel "ErrSessionNotFound".
Definition ErrSessionRefreshRejected : goerr := Sentinel "ErrSessionRefreshRejected".
Definition ErrLastAdmin : goerr := Sentinel "ErrLastAdmin".
Definition ErrNotAdmin : goerr := Sentinel "ErrNotAdmin".
Definition ErrAccountManagementActor : goerr := Sentinel "ErrAccountManagementActor".
Definition ErrAccountDisabled : goerr := Sentinel "ErrAccountDisabled".
Definition ErrTemporaryPasswordExpired : goerr := Sentinel "ErrTemporaryPasswordExpired".
Definition ErrUserExists : goerr := Sentinel "ErrUserExists".
Definition ErrAudit : goerr := ErrText "audit entry not written".

(** ** Columns *)

Definition user_id (s : User) v := mkUser v (u_Username s) (u_Email s) (u_PasswordHash s) (u_Role s) (u_AuthProvider s) (u_ExternalID s) (u_LDAPDN s) (u_LDAPUsername s) (u_LDAPLastSyncAt s) (u_TerminalAccess s) (u_TOTPSecret s) (u_TOTPEnabled s) (u_TokenGeneration s) (u_Protected s) (u_SecurityRevision s) (u_SSHCredentialGeneration s) (u_Roles s) (u_Capabilities s) (u_PersonID s) (u_Avatar s) (u_MustChangePassword s) (u_TempPasswordExpiresAt s) (u_FailedLoginCount s) (u_LastFailedLoginAt s) (u_LastLoginAt s) (u_LockedUntil s) (u_DisabledAt s) (u_DisabledBy s) (u_ReactivatedAt s) (u_DormancyExempt s) (u_LastActivityAt s) (u_Status s) (u_CreatedAt s) (u_UpdatedAt s).
Definition user_failed (s : User) v0 v1 v2 v3 := mkUser (u_ID s) (u_Username s) (u_Email s) (u_PasswordHash s) (u_Role s) (u_AuthProvider s) (u_ExternalID s) (u_LDAPDN s) (u_LDAPUsername s) (u_LDAPLastSyncAt s) (u_TerminalAccess s) (u_TOTPSecret s) (u_TOTPEnabled s) (u_TokenGeneration s) (u_Protected s) (u_SecurityRevision s) (u_SSHCredentialGeneration s) (u_Roles s) (u_Capabilities s) (u_PersonID s) (u_Avatar s) (u_MustChangePassword s) (u_TempPasswordExpiresAt s) v0 v1 (u_LastLoginAt s) v2 (u_DisabledAt s) (u_DisabledBy s) (u_ReactivatedAt s) (u_DormancyExempt s) (u_LastActivityAt s) (u_Status s) (u_CreatedAt s) v3.
Definition user_signedin (s : User) v0 v1 v2 v3 v4 := mkUser (u_ID s) (u_Username s) (u_Email s) (u_PasswordHash s) (u_Role s) (u_AuthProvider s) (u_ExternalID s) (u_LDAPDN s) (u_LDAPUsername s) (u_LDAPLastSyncAt s) (u_TerminalAccess s) (u_TOTPSecret s) (u_TOTPEnabled s) (u_TokenGeneration s) (u_Protected s) (u_SecurityRevision s) (u_SSHCredentialGeneration s) (u_Roles s) (u_Capabilities s) (u_PersonID s) (u_Avatar s) (u_MustChangePassword s) (u_TempPasswordExpiresAt s) v0 (u_LastFailedLoginAt s) v1 v2 (u_DisabledAt s) (u_DisabledBy s) (u_ReactivatedAt s) (u_DormancyExempt s) v3 (u_Status s) (u_CreatedAt s) v4.
Definition user_disabled (s : User) v0 v1 v2 v3 v4 := mkUser (u_ID s) (u_Username s) (u_Email s) (u_PasswordHash s) (u_Role s) (u_AuthProvider s) (u_ExternalID s) (u_LDAPDN s) (u_LDAPUsername s) (u_LDAPLastSyncAt s) (u_TerminalAccess s) (u_TOTPSecret s) (u_TOTPEnabled s) v2 (u_Protected s) (u_SecurityRevision s) v3 (u_Roles s) (u_Capabilities s) (u_PersonID s) (u_Avatar s) (u_MustChangePassword s) (u_TempPasswordExpiresAt s) (u_FailedLoginCount s) (u_LastFailedLoginAt s) (u_LastLoginAt s) (u_LockedUntil s) v0 v1 (u_ReactivatedAt s) (u_DormancyExempt s) (u_LastActivityAt s) (u_Status s) (u_CreatedAt s) v4.
Definition user_enabled (s : User) v0 v1 v2 v3 v4 v5 := mkUser (u_ID s) (u_Username s) (u_Email s) (u_PasswordHash s) (u_Role s) (u_AuthProvider s) (u_ExternalID s) (u_LDAPDN s) (u_LDAPUsername s) (u_LDAPLastSyncAt s) (u_TerminalAccess s) (u_TOTPSecret s) (u_TOTPEnabled s) (u_TokenGeneration s) (u_Protected s) (u_SecurityRevision s) (u_SSHCredentialGeneration s) (u_Roles s) (u_Capabilities s) (u_PersonID s) (u_Avatar s) (u_MustChangePassword s) (u_TempPasswordExpiresAt s) v3 (u_LastFailedLoginAt s) (u_LastLoginAt s) v2 v0 v1 v4 (u_DormancyExempt s) (u_LastActivityAt s) (u_Status s) (u_CreatedAt s) v5.
Definition user_unlocked (s : User) v0 v1 v2 v3 := mkUser (u_ID s) (u_Username s) (u_Email s) (u_PasswordHash s) (u_Role s) (u_AuthProvider s) (u_ExternalID s) (u_LDAPDN s) (u_LDAPUsername s) (u_LDAPLastSyncAt s) (u_TerminalAccess s) (u_TOTPSecret s) (u_TOTPEnabled s) (u_TokenGeneration s) (u_Protected s) (u_SecurityRevision s) (u_SSHCredentialGeneration s) (u_Roles s) (u_Capabilities s) (u_PersonID s) (u_Avatar s) (u_MustChangePassword s) (u_TempPasswordExpiresAt s) v1 (u_LastFailedLoginAt s) (u_LastLoginAt s) v0 (u_DisabledAt s) (u_DisabledBy s) v2 (u_DormancyExempt s) (u_LastActivityAt s) (u_Status s) (u_CreatedAt s) v3.
Definition user_exempt (s : User) v0 v1 := mkUser (u_ID s) (u_Username s) (u_Email s) (u_PasswordHash s) (u_Role s) (u_AuthProvider s) (u_ExternalID s) (u_LDAPDN s) (u_LDAPUsername s) (u_LDAPLastSyncAt s) (u_TerminalAccess s) (u_TOTPSecret s) (u_TOTPEnabled s) (u_TokenGeneration s) (u_Protected s) (u_SecurityRevision s) (u_SSHCredentialGeneration s) (u_Roles s) (u_Capabilities s) (u_PersonID s) (u_Avatar s) (u_MustChangePassword s) (u_TempPasswordExpiresAt s) (u_FailedLoginCount s) (u_LastFailedLoginAt s) (u_LastLoginAt s) (u_LockedUntil s) (u_DisabledAt s) (u_DisabledBy s) (u_ReactivatedAt s) v0 (u_LastActivityAt s) (u_Status s) (u_CreatedAt s) v1.
Definition user_active (s : User) v := mkUser (u_ID s) (u_Username s) (u_Email s) (u_PasswordHash s) (u_Role s) (u_AuthProvider s) (u_ExternalID s) (u_LDAPDN s) (u_LDAPUsername s) (u_LDAPLastSyncAt s) (u_TerminalAccess s) (u_TOTPSecret s) (u_TOTPEnabled s) (u_TokenGeneration s) (u_Protected s) (u_SecurityRevision s) (u_SSHCredentialGeneration s) (u_Roles s) (u_Capabilities s) (u_PersonID s) (u_Avatar s) (u_MustChangePassword s) (u_TempPasswordExpiresAt s) (u_FailedLoginCount s) (u_LastFailedLoginAt s) (u_LastLoginAt s) (u_LockedUntil s) (u_DisabledAt s) (u_DisabledBy s) (u_ReactivatedAt s) (u_DormancyExempt s) v (u_Status s) (u_CreatedAt s) (u_UpdatedAt s).
Definition user_role (s : User) v0 v1 v2 v3 := mkUser (u_ID s) (u_Username s) (u_Email s) (u_PasswordHash s) v0 (u_AuthProvider s) (u_ExternalID s) (u_LDAPDN s) (u_LDAPUsername s) (u_LDAPLastSyncAt s) (u_TerminalAccess s) (u_TOTPSecret s) (u_TOTPEnabled s) v2 (u_Protected s) (u_SecurityRevision s) (u_SSHCredentialGeneration s) (u_Roles s) (u_Capabilities s) (u_PersonID s) (u_Avatar s) (u_MustChangePassword s) (u_TempPasswordExpiresAt s) (u_FailedLoginCount s) (u_LastFailedLoginAt s) (u_LastLoginAt s) (u_LockedUntil s) (u_DisabledAt s) (u_DisabledBy s) (u_ReactivatedAt s) v1 (u_LastActivityAt s) (u_Status s) (u_CreatedAt s) v3.
Definition user_credential (s : User) v0 v1 v2 v3 v4 v5 := mkUser (u_ID s) (u_Username s) (u_Email s) v0 (u_Role s) (u_AuthProvider s) (u_ExternalID s) (u_LDAPDN s) (u_LDAPUsername s) (u_LDAPLastSyncAt s) (u_TerminalAccess s) (u_TOTPSecret s) (u_TOTPEnabled s) v3 (u_Protected s) (u_SecurityRevision s) v4 (u_Roles s) (u_Capabilities s) (u_PersonID s) (u_Avatar s) v1 v2 (u_FailedLoginCount s) (u_LastFailedLoginAt s) (u_LastLoginAt s) (u_LockedUntil s) (u_DisabledAt s) (u_DisabledBy s) (u_ReactivatedAt s) (u_DormancyExempt s) (u_LastActivityAt s) (u_Status s) (u_CreatedAt s) v5.
Definition user_totp (s : User) v0 v1 v2 := mkUser (u_ID s) (u_Username s) (u_Email s) (u_PasswordHash s) (u_Role s) (u_AuthProvider s) (u_ExternalID s) (u_LDAPDN s) (u_LDAPUsername s) (u_LDAPLastSyncAt s) (u_TerminalAccess s) v0 v1 (u_TokenGeneration s) (u_Protected s) (u_SecurityRevision s) (u_SSHCredentialGeneration s) (u_Roles s) (u_Capabilities s) (u_PersonID s) (u_Avatar s) (u_MustChangePassword s) (u_TempPasswordExpiresAt s) (u_FailedLoginCount s) (u_LastFailedLoginAt s) (u_LastLoginAt s) (u_LockedUntil s) (u_DisabledAt s) (u_DisabledBy s) (u_ReactivatedAt s) (u_DormancyExempt s) (u_LastActivityAt s) (u_Status s) (u_CreatedAt s) v2.
Definition user_tokens (s : User) v0 v1 := mkUser (u_ID s) (u_Username s) (u_Email s) (u_PasswordHash s) (u_Role s) (u_AuthProvider s) (u_ExternalID s) (u_LDAPDN s) (u_LDAPUsername s) (u_LDAPLastSyncAt s) (u_TerminalAccess s) (u_TOTPSecret s) (u_TOTPEnabled s) v0 (u_Protected s) (u_SecurityRevision s) (u_SSHCredentialGeneration s) (u_Roles s) (u_Capabilities s) (u_PersonID s) (u_Avatar s) (u_MustChangePassword s) (u_TempPasswordExpiresAt s) (u_FailedLoginCount s) (u_LastFailedLoginAt s) (u_LastLoginAt s) (u_LockedUntil s) (u_DisabledAt s) (u_DisabledBy s) (u_ReactivatedAt s) (u_DormancyExempt s) (u_LastActivityAt s) (u_Status s) (u_CreatedAt s) v1.
Definition user_reactivated (s : User) v0 v1 := mkUser (u_ID s) (u_Username s) (u_Email s) (u_PasswordHash s) (u_Role s) (u_AuthProvider s) (u_ExternalID s) (u_LDAPDN s) (u_LDAPUsername s) (u_LDAPLastSyncAt s) (u_TerminalAccess s) (u_TOTPSecret s) (u_TOTPEnabled s) (u_TokenGeneration s) (u_Protected s) (u_SecurityRevision s) (u_SSHCredentialGeneration s) (u_Roles s) (u_Capabilities s) (u_PersonID s) (u_Avatar s) (u_MustChangePassword s) (u_TempPasswordExpiresAt s) (u_FailedLoginCount s) (u_LastFailedLoginAt s) (u_LastLoginAt s) (u_LockedUntil s) (u_DisabledAt s) (u_DisabledBy s) v0 (u_DormancyExempt s) (u_LastActivityAt s) (u_Status s) (u_CreatedAt s) v1.
Definition user_directory (s : User) v0 v1 v2 v3 v4 v5 v6 v7 v8 v9 := mkUser (u_ID s) v0 v1 (u_PasswordHash s) v2 v3 v4 v5 v6 v7 v8 (u_TOTPSecret s) (u_TOTPEnabled s) (u_TokenGeneration s) (u_Protected s) (u_SecurityRevision s) (u_SSHCredentialGeneration s) (u_Roles s) (u_Capabilities s) (u_PersonID s) (u_Avatar s) (u_MustChangePassword s) (u_TempPasswordExpiresAt s) (u_FailedLoginCount s) (u_LastFailedLoginAt s) (u_LastLoginAt s) (u_LockedUntil s) (u_DisabledAt s) (u_DisabledBy s) (u_ReactivatedAt s) (u_DormancyExempt s) (u_LastActivityAt s) (u_Status s) (u_CreatedAt s) v9.

Abbreviation users g := (ac_users (gv_accounts g)) (only parsing).
Abbreviation sessions g := (ac_sessions (gv_accounts g)) (only parsing).
Abbreviation tokens g := (ac_tokens (gv_accounts g)) (only parsing).

(** A row of [m] that satisfies [P]: the columns asked for are unique. *)
Definition find_row {A} (P : A → bool) (m : gmap string A) : option (string * A) :=
  head (filter (fun kv : string * A => P kv.2) (map_to_list m)).

(** ** Users (users.go) *)

Definition found {A} (e : goerr) (o : option A) : result A := match o with Some a => Ok a | None => Err e end.
(** [scanUser]: the row with its id. *)
Definition scanUser (kv : string * User) : User := user_id kv.2 kv.1.
Definition GetUserByID (g : Gov) (id : string) : result User := found errUserNotFound ((fun u => scanUser (id, u)) <$> users g !! id).
Definition GetUserByUsername (g : Gov) (username : string) : result User :=
  found errUserNotFound (scanUser <$> find_row (fun u => bool_decide (u_Username u = username)) (users g)).
Definition GetUserByExternalIdentity (g : Gov) (provider externalID : string) : result User :=
  check! bool_decide (externalID = ""), errUserNotFound;
  found errUserNotFound (scanUser <$> find_row (fun u => bool_decide (u_AuthProvider u = provider) && bool_decide (u_ExternalID u = externalID)) (users g)).

Definition UserCount (g : Gov) : Z := Z.of_nat (size (users g)).
Definition InitializedUserCount (g : Gov) : Z :=
  Z.of_nat (length (filter (fun kv : string * User => u_TOTPEnabled kv.2 = true) (map_to_list (users g)))).
Definition configInitialSetupComplete : string := "initial_setup_completed".
Definition InitialSetupComplete (g : Gov) : bool :=
  match ac_config (gv_accounts g) !! configInitialSetupComplete with
  | Some value => bool_decide (value = "true")
  | None => 0 <? InitializedUserCount g
  end.

(** ** Configuration and password history (config.go, audit_controls.go, password_history.go) *)

(** [reads] is false when the configuration cannot be read. *)
Definition GetConfig (g : Gov) (reads : bool) (key : string) : result string :=
  check! negb reads, ErrText "get config";
  found (ErrText "config key not found") (ac_config (gv_accounts g) !! key).
Definition getConfigIntDefault (g : Gov) (reads : bool) (key : string) (fallback : Z) : Z :=
  match GetConfig g reads key with Ok value => default fallback (Atoi (runes value)) | Err _ => fallback end.
Definition defaultPasswordHistoryLimit : Z := 5.
Definition PasswordHistoryCount (g : Gov) (reads : bool) : Z :=
  getConfigIntDefault g reads configAuthPasswordHistoryCount defaultPasswordHistoryLimit.

Definition configAuthTemporaryPasswordTTLHours : string := "auth.temporary_password_ttl_hours".
Definition TemporaryPasswordTTLHours (g : Gov) (reads : bool) : Z := getConfigIntDefault g reads configAuthTemporaryPasswordTTLHours 72.

(** An absent key reads as the empty text. *)
Definition AccountPolicy (g : Gov) (reads : bool) : result Policy :=
  check! negb reads, ErrText "get config";
  Ok (Load (fun key => Ok (default "" (ac_config (gv_accounts g) !! key)))).

(** [compare] is bcrypt.CompareHashAndPassword. *)
Definition PasswordMatchesRecent (compare : string → string → bool) (g : Gov) (userID candidate : string) (limit : Z) : bool :=
  match users g !! userID with
  | None => false
  | Some u =>
      let rows := filter (fun r => hi_user r = userID ∧ hi_hash r ≠ u_PasswordHash u) (ac_history (gv_accounts g)) in
      existsb (fun r => compare (hi_hash r) candidate) (trimHistory userID limit rows)
  end.

(** ** Applications of a sign-in (applications.go) *)

Definition revoke_anchored (user anchor : string) (now : Time) (key : string → OwnedRow → string) (m : gmap string OwnedRow) : gmap string OwnedRow :=
  map_imap (fun id r => Some (if bool_decide (ow_user r = user) && bool_decide (key id r = anchor) && bool_decide (ow_ended r = None)
                              then mkOwned (ow_user r) (ow_anchor r) (Some now) else r)) m.
Definition RevokeUserApplications (g : Gov) (user except : string) (now : Time) : Gov :=
  let others (key : string → OwnedRow → string) (m : gmap string OwnedRow) :=
    map_imap (fun id r => Some (if bool_decide (ow_user r = user) && negb (bool_decide (key id r = except)) && bool_decide (ow_ended r = None)
                                then mkOwned (ow_user r) (ow_anchor r) (Some now) else r)) m in
  on_accounts g (fun a =>
    let a := set_anchors a (others (fun id _ => id) (ac_anchors a)) in
    set_appSessions a (others (fun _ r => ow_anchor r) (ac_appSessions a))).
Definition RevokeApplicationFamily (g : Gov) (user anchor : string) (now : Time) : Gov :=
  on_accounts g (fun a =>
    let a := set_anchors a (revoke_anchored user anchor now (fun id _ => id) (ac_anchors a)) in
    set_appSessions a (revoke_anchored user anchor now (fun _ r => ow_anchor r) (ac_appSessions a))).

Definition IncrementTokenGeneration (g : Gov) (user : string) (stamp : Time) : Gov * result Z :=
  let g' := update_user user (fun u => user_tokens u (u_TokenGeneration u + 1) stamp) stamp g in
  (g', found ErrNoRows (u_TokenGeneration <$> users g' !! user)).

(** [createUserStatement]: the columns it leaves out have their defaults. *)
Definition normalizeUserForCreate (u : User) : User :=
  let provider := if bool_decide (u_AuthProvider u = "") then AuthProviderLocal else u_AuthProvider u in
  let ldap := if bool_decide (u_LDAPUsername u = "") && bool_decide (provider = AuthProviderLDAP) then u_Username u else u_LDAPUsername u in
  user_directory u (u_Username u) (u_Email u) (u_Role u) provider (u_ExternalID u) (u_LDAPDN u) ldap (u_LDAPLastSyncAt u)
    (u_TerminalAccess u) (u_UpdatedAt u).

Definition new_account (u : User) (stamp : Time) : User :=
  mkUser (u_ID u) (u_Username u) (u_Email u) (u_PasswordHash u) (u_Role u) (u_AuthProvider u) (u_ExternalID u) (u_LDAPDN u)
    (u_LDAPUsername u) (truncSecond <$> u_LDAPLastSyncAt u) (u_TerminalAccess u) (u_TOTPSecret u) (u_TOTPEnabled u)
    (u_TokenGeneration u) false 0 0 [] [] "" (u_Avatar u) (u_MustChangePassword u) (truncSecond <$> u_TempPasswordExpiresAt u)
    0 None None None None None None (u_DormancyExempt u) None "" stamp stamp.

(** [INSERT INTO users] with its constraints and trigger governance_new_user;
    [taken] is whether another identity link has the provider and the subject.  A
    person outlives the account, so that an id is never used again. *)
Definition insert_user (g : Gov) (u : User) (stamp : Time) (taken : bool) : result Gov :=
  let a := gv_accounts g in
  let person := "user:" +:+ u_ID u in
  check! bool_decide (is_Some (ac_users a !! u_ID u)) || bool_decide (is_Some (ac_persons a !! person)) || taken
         || negb (IsValidRole (u_Role u))
         || bool_decide (is_Some (find_row (fun v => bool_decide (u_Username v = u_Username u) || bool_decide (u_Email v = u_Email u)
              || (negb (bool_decide (u_ExternalID u = "")) && bool_decide (u_AuthProvider v = u_AuthProvider u)
                  && bool_decide (u_ExternalID v = u_ExternalID u))) (ac_users a))), ErrConstraint;
  let a1 := set_users a (<[u_ID u := new_account u stamp]> (ac_users a)) in
  let a2 := set_links (set_persons a1 (<[person := ""]> (ac_persons a1))) (<[u_ID u := mkLink person ""]> (ac_links a1)) in
  Ok (with_accounts g (application_changed (u_ID u) stamp (set_roles a2 (<[(u_ID u, u_Role u) := ""]> (ac_roles a2))))).

Definition CreateUser (g : Gov) (u : User) (stamp : Time) (taken : bool) : result Gov :=
  insert_user g (normalizeUserForCreate u) stamp taken.

(** [DELETE FROM users], with what the foreign keys and the statements before it
    remove. *)
Definition without_owner {A} (owner : A → string) (user : string) (m : gmap string A) : gmap string A :=
  filter (fun kv : string * A => owner kv.2 ≠ user) m.

Definition delete_rows (user : string) (a : Accounts) : Accounts :=
  mkAccounts (delete user (ac_users a)) (delete user (ac_links a)) (ac_persons a)
    (filter (fun kv : (string * string) * string => kv.1.1 ≠ user) (ac_roles a)) (ac_config a)
    (without_owner sn_user user (ac_sessions a)) (without_owner tk_user user (ac_tokens a))
    (without_owner ow_user user (ac_anchors a)) (without_owner ow_user user (ac_appSessions a))
    (delete user (ac_appVersions a)) (without_owner id user (ac_tickets a))
    (filter (fun r => hi_user r ≠ user) (ac_history a))
    (delete user (ac_passwordRecoveries a)) (delete user (ac_mfaRecoveries a)).

Definition holds_security_role (g : Gov) (user : string) : bool :=
  existsb (fun kv : (string * string) * string => bool_decide (kv.1.1 = user) && IsSecurityRole kv.1.2)
    (map_to_list (ac_roles (gv_accounts g))).

Definition delete_user (user : string) (stamp : Time) (g : Gov) : Gov :=
  let g1 := on_accounts g (delete_rows user) in
  if holds_security_role g user then invalidate_votes user (Unix stamp) (consume_proofs user (Unix stamp) g1) else g1.

(** ** Sign-in results (lockout.go) *)

Record FailureResult := mkFailure { fr_Count : Z; fr_LockedUntil : option Time; fr_NewlyLocked : bool }.

Definition RecordLoginFailure (g : Gov) (userID : string) (now : Time) (p : Policy) : Gov * result FailureResult :=
  match users g !! userID with
  | None => (g, Err errUserNotFound)
  | Some u =>
      let prev := mkLockState (u_FailedLoginCount u) (u_LastFailedLoginAt u) (u_LockedUntil u) in
      let '(next, newlyLocked) := NextState prev now p in
      (update_user userID
         (fun u => user_failed u (Count next) (truncSecond <$> LastFailedAt next) (truncSecond <$> LockedUntil next) (truncSecond now))
         now g,
       Ok (mkFailure (Count next) (LockedUntil next) newlyLocked))
  end.

Definition RecordLoginSuccess (g : Gov) (userID : string) (now : Time) : Gov * result unit :=
  let stamp := truncSecond now in
  match users g !! userID with
  | None => (g, Err errUserNotFound)
  | Some _ => (update_user userID (fun u => user_signedin u 0 (Some stamp) None (Some stamp) stamp) now g, Ok tt)
  end.

(** ** Sessions (sessions.go, session_refresh.go) *)

Definition put_session (g : Gov) (id : string) (r : SessionRow) : Gov :=
  on_accounts g (fun a => set_sessions a (<[id := r]> (ac_sessions a))).

(** The columns [scanSession] reads. *)
Definition scanSession (id : string) (r : SessionRow) : Session :=
  mkSession id (sn_user r) (sn_kind r) (sn_ip r) (sn_agent r) (sn_created r) (sn_lastSeen r) (mjoin (sn_expires r)) None
    (mjoin (sn_ended r)) (default "" (sn_reason r)) (sn_by r) false "" None None.

(** The checks are the primary key, the kinds and the foreign key of the table. *)
Definition CreateSession (g : Gov) (s : Session) : result Gov :=
  check! bool_decide (is_Some (sessions g !! s_ID s))
         || negb (bool_decide (s_Kind s = SessionKindWeb) || bool_decide (s_Kind s = SessionKindCLI))
         || bool_decide (users g !! s_UserID s = None), ErrConstraint;
  Ok (put_session g (s_ID s)
        (mkSessionRow (s_UserID s) (s_Kind s) (truncSecond (s_CreatedAt s)) (truncSecond (s_LastSeenAt s))
           (Some <$> (truncSecond <$> s_ExpiresAt s)) None (s_IP s) (s_UserAgent s) None None "")).

Definition GetSession (g : Gov) (id : string) : result Session :=
  found ErrSessionNotFound (scanSession id <$> sessions g !! id).

(** The order of the listings: the latest first, then by id. *)
Definition live_order (x y : Session) : Prop :=
  s_LastSeenAt y < s_LastSeenAt x ∨ (s_LastSeenAt x = s_LastSeenAt y ∧
    (s_CreatedAt y < s_CreatedAt x ∨ (s_CreatedAt x = s_CreatedAt y ∧ String.leb (s_ID x) (s_ID y) = true))).
Definition ended_order (x y : Session) : Prop :=
  default 0 (s_EndedAt y) < default 0 (s_EndedAt x) ∨ (s_EndedAt x = s_EndedAt y ∧ String.leb (s_ID x) (s_ID y) = true).
#[local] Instance live_order_dec x y : Decision (live_order x y).
Proof. unfold live_order. apply _. Defined.
#[local] Instance ended_order_dec x y : Decision (ended_order x y).
Proof. unfold ended_order. apply _. Defined.
Definition querySessions (g : Gov) (P : SessionRow → bool) : list Session :=
  (fun kv : string * SessionRow => scanSession kv.1 kv.2) <$> filter (fun kv : string * SessionRow => P kv.2) (map_to_list (sessions g)).
Definition ListUserSessions (g : Gov) (userID : string) (includeEnded : bool) (since : Time) : list Session :=
  merge_sort live_order (querySessions g (fun r => bool_decide (sn_user r = userID) && bool_decide (sn_ended r = None)))
  ++ if includeEnded then
       merge_sort ended_order (querySessions g (fun r => bool_decide (sn_user r = userID)
         && match sn_ended r with Some e => truncSecond since <=? default 0 e | None => false end))
     else [].

Definition TouchSession (g : Gov) (id : string) (now : Time) (minInterval : Duration) : Gov :=
  match sessions g !! id with
  | None => g
  | Some r =>
      if bool_decide (sn_ended r = None)
         && ((minInterval <=? 0) || (sn_lastSeen r <? truncSecond (now - minInterval)))
      then put_session g id (session_seen r (truncSecond now)) else g
  end.

(** [EndSession] and [MarkExpired] are [endOne]. *)
Definition endOne (g : Gov) (id reason : string) (by_ : option string) (now : Time) : Gov * result bool :=
  match sessions g !! id with
  | None => (g, Err ErrSessionNotFound)
  | Some r =>
      if bool_decide (sn_ended r = None) then (put_session g id (session_ended r (truncSecond now) reason by_), Ok true)
      else (g, Ok false)
  end.
Definition EndSession (g : Gov) (id reason : string) (by_ : option string) (now : Time) : Gov * result bool :=
  endOne g id reason by_ now.
Definition MarkExpired (g : Gov) (id reason : string) (now : Time) : Gov * result bool := endOne g id reason None now.

Definition live_of (user : string) (exceptID : option string) (kv : string * SessionRow) : Prop :=
  sn_user kv.2 = user ∧ sn_ended kv.2 = None ∧ exceptID ≠ Some kv.1.

Definition EndUserSessions (g : Gov) (userID : string) (exceptID : option string) (reason : string) (by_ : option string) (now : Time)
    : Gov * list string :=
  let stamp := truncSecond now in
  let ids := (filter (live_of userID exceptID) (map_to_list (sessions g))).*1 in
  (on_accounts g (fun a => set_sessions a
     (map_imap (fun id r => Some (if bool_decide (live_of userID exceptID (id, r)) then session_ended r stamp reason by_ else r))
        (ac_sessions a))), ids).

(** Rows that ended before, by the text of the column; the hub writes no other
    text than times. *)
Definition prunable (before : Time) (r : SessionRow) : bool :=
  match sn_ended r with Some (Some t) => t <? truncSecond before | _ => false end.
Definition PruneEndedSessions (g : Gov) (before : Time) : Gov * Z :=
  (on_accounts g (fun a => set_sessions a (filter (fun kv : string * SessionRow => prunable before kv.2 = false) (ac_sessions a))),
   Z.of_nat (size (filter (fun kv : string * SessionRow => prunable before kv.2 = true) (sessions g)))).

(** The WHERE clause of the rotation: the session, *)
Definition rotation_session (r : SessionRow) (userID previous : string) (now : Time) (p : Policy) : bool :=
  let idle := IdleTimeout (sn_kind r) p in
  bool_decide (sn_user r = userID) && bool_decide (sn_ended r = None)
  && match sn_expires r with None => true | Some (Some e) => truncSecond now <? e | Some None => false end
  && ((idle <=? 0) || (truncSecond (now - idle) <=? sn_lastSeen r))
  && (bool_decide (sn_refresh r = previous) || bool_decide (sn_refresh r = "")).
(** and the account. *)
Definition rotation_user (live user : User) : bool :=
  (u_TokenGeneration live =? u_TokenGeneration user) && (u_SecurityRevision live =? u_SecurityRevision user)
  && bool_decide (u_DisabledAt live = None) && u_TOTPEnabled live
  && Bool.eqb (u_MustChangePassword live) (u_MustChangePassword user) && negb (u_MustChangePassword live).

Definition RotateSessionRefresh (g : Gov) (user : User) (sessionID previous next : string) (now : Time) (p : Policy) : result Gov :=
  check! bool_decide (u_ID user = "") || bool_decide (sessionID = "") || negb (ValidHash next)
         || (negb (bool_decide (previous = "")) && (negb (ValidHash previous) || bool_decide (previous = next))),
         ErrSessionRefreshRejected;
  match sessions g !! sessionID, users g !! u_ID user with
  | Some r, Some live =>
      check! negb (rotation_session r (u_ID user) previous now p && rotation_user live user), ErrSessionRefreshRejected;
      let seen := if sn_lastSeen r <? truncSecond now then truncSecond now else sn_lastSeen r in
      Ok (put_session g sessionID (session_refresh (session_seen r seen) next))
  | _, _ => Err ErrSessionRefreshRejected
  end.

(** ** API tokens (api_tokens.go) *)

(** [now] is [datetime('now')]. *)
Definition GetActiveAPITokenByHash (g : Gov) (hash : string) (now : Time) : result (string * TokenRow) :=
  found errAPITokenNotFound
    (find_row (fun r => bool_decide (tk_hash r = hash) && bool_decide (tk_revoked r = None)
                        && match tk_expires r with None => true | Some e => truncSecond now <? e end) (tokens g)).
Definition on_tokens (g : Gov) (f : gmap string TokenRow → gmap string TokenRow) : Gov :=
  on_accounts g (fun a => set_tokens a (f (ac_tokens a))).
Definition UpdateAPITokenLastUsed (g : Gov) (id : string) (usedAt : Time) : Gov :=
  on_tokens g (alter (fun r => token_used r (truncSecond usedAt)) id).
Definition RevokeAllAPITokensByUserID (g : Gov) (user : string) (now : Time) : Gov := on_tokens g (revoke_tokens user (truncSecond now)).
Definition RevokeAPIToken (g : Gov) (id : string) (now : Time) : Gov * result unit :=
  match tokens g !! id with
  | Some r => if bool_decide (tk_revoked r = None) then (on_tokens g (<[id := token_revoked r (truncSecond now)]>), Ok tt)
              else (g, Err errAPITokenNotFound)
  | None => (g, Err errAPITokenNotFound)
  end.
Definition CreateAPIToken (g : Gov) (id : string) (r : TokenRow) : result Gov :=
  check! bool_decide (is_Some (tokens g !! id)) || bool_decide (is_Some (find_row (fun t => bool_decide (tk_hash t = tk_hash r)) (tokens g)))
         || bool_decide (users g !! tk_user r = None), ErrConstraint;
  Ok (on_tokens g (<[id := mkToken (tk_user r) (tk_hash r) (truncSecond <$> tk_expires r) (truncSecond <$> tk_lastUsed r)
                              (truncSecond <$> tk_revoked r)]>)).

(** ** Who may change an account (security.go, account_management.go) *)

Definition open_change (s : ChangeState) : bool := match s with ChRequested | ChPartiallyApproved | ChApproved | ChApplying => true | _ => false end.

Section guards.
(** The accounts [json_extract] finds in the payload of a change. *)
Context (named : string → list string).

(** [protectedPersonSQL]: the person of the account holds a security role under
    some account, or is nominated, or the account is named in an open change. *)
Definition protectedPerson (g : Gov) (user : string) : bool :=
  let a := gv_accounts g in
  let person := lk_person <$> ac_links a !! user in
  existsb (fun kv : (string * string) * string =>
             IsSecurityRole kv.1.2 && bool_decide (is_Some person) && bool_decide (lk_person <$> ac_links a !! kv.1.1 = person))
    (map_to_list (ac_roles a))
  || existsb (fun kv : (string * string) * NominationRow =>
               (bool_decide (kv.1.2 = user) || bool_decide (person = Some (nr_person kv.2)))
               && match gv_changes g !! kv.1.1 with Some c => open_change (cr_state c) | None => false end)
       (map_to_list (gv_nominations g))
  || existsb (fun kv : string * ChangeRow =>
               open_change (cr_state kv.2)
               && (existsb (fun x => bool_decide (x = user)) (named (cr_payload kv.2))
                   || (bool_decide (cr_state kv.2 = ChApplying)
                       && (bool_decide (cr_requester kv.2 = user) || bool_decide (cr_applier kv.2 = user)))))
       (map_to_list (gv_changes g)).

Definition IsProtectedUser (g : Gov) (userID : string) : bool := protectedPerson g userID.
Definition guardSecurityPrincipal (g : Gov) (user : string) : result unit :=
  check! protectedPerson g user, ErrProtectedChange; Ok tt.

Record AccountManagementActor := mkManager {
  am_UserID : string; am_SessionID : string; am_Generation : Z; am_SecurityRevision : Z; am_ExpiresAt : Time; am_APITokenHash : string;
}.

(** [now] is the reading of the clock after all reads. *)
Definition guardAccountManagementActor (g : Gov) (actor : AccountManagementActor) (now : Time) : result unit :=
  match users g !! am_UserID actor with
  | None => Err ErrAccountManagementActor
  | Some u =>
      let policy := accountManagementPolicyStrict g in
      let token := find_row (fun t => bool_decide (tk_hash t = am_APITokenHash actor)) (tokens g) in
      check! negb (bool_decide (am_APITokenHash actor = "")) && bool_decide (token = None), ErrAccountManagementActor;
      match (if bool_decide (am_SessionID actor = "") then Ok None
             else match readLiveSession g (am_SessionID actor) (am_UserID actor) with Ok st => Ok (Some st) | Err e => Err e end) with
      | Err _ => Err ErrAccountManagementActor
      | Ok live =>
          check! negb (bool_decide (is_Some (ac_roles (gv_accounts g) !! (am_UserID actor, RoleAdmin))))
                 || negb (u_TOTPEnabled u && bool_decide (is_Some (u_TOTPSecret u)))
                 || negb (u_TokenGeneration u =? am_Generation actor) || negb (u_SecurityRevision u =? am_SecurityRevision actor)
                 || u_MustChangePassword u || bool_decide (is_Some (u_DisabledAt u))
                 || IsDormant (InputFromUser u) now (DormantDays policy)
                 || (negb (IsZeroTime (am_ExpiresAt actor)) && negb (Before now (am_ExpiresAt actor))), ErrAccountManagementActor;
          check! match token with
                 | Some (_, t) =>
                     negb (bool_decide (am_APITokenHash actor = ""))
                     && (negb (bool_decide (tk_user t = am_UserID actor)) || bool_decide (is_Some (tk_revoked t))
                         || match tk_expires t with Some e => negb (Before now e) | None => false end)
                 | None => false
                 end, ErrAccountManagementActor;
          check! match live with
                 | Some st => match Session.Evaluate st now policy with VerdictOK => false | _ => true end
                 | None => false
                 end, ErrAccountManagementActor;
          Ok tt
      end
  end.

(** The body runs between two checks of the actor in one transaction; its audit
    entry is the last of it. *)
Definition accountManagementWrite {A} (g : Gov) (actor : AccountManagementActor) (clk : nat → Time) (audited : bool)
    (fn : Gov → Time → result (Gov * A)) : result (Gov * A) :=
  _ <-! guardAccountManagementActor g actor (clk 0%nat);
  r <-! fn g (clk 1%nat);
  check! negb audited, ErrAudit;
  _ <-! guardAccountManagementActor r.1 actor (clk 2%nat);
  Ok r.

(** ** The account lifecycle (lifecycle.go, account_lifecycle_audited.go) *)

Definition CountEnabledAdmins (g : Gov) : Z :=
  Z.of_nat (size (filter (fun kv : string * User => u_Role kv.2 = RoleAdmin ∧ u_DisabledAt kv.2 = None) (users g))).
Definition other_admins (g : Gov) (user : string) : Z :=
  Z.of_nat (size (filter (fun kv : string * User => u_Role kv.2 = RoleAdmin ∧ u_DisabledAt kv.2 = None ∧ kv.1 ≠ user) (users g))).

(** The disabling UPDATE and the revocation of API tokens; the number of tokens. *)
Definition disable_account (g : Gov) (user byID : string) (stamp : Time) : Gov * Z :=
  let g1 := update_user user (fun u => user_disabled u (Some stamp) (Some byID) (u_TokenGeneration u + 1) (u_SSHCredentialGeneration u + 1) stamp)
              stamp g in
  (on_tokens g1 (revoke_tokens user stamp),
   Z.of_nat (size (filter (fun kv : string * TokenRow => tk_user kv.2 = user ∧ tk_revoked kv.2 = None) (tokens g1)))).

Definition DisableUserAudited (g : Gov) (userID byID : string) (actor : AccountManagementActor) (clk : nat → Time) (audited : bool)
    : result (Gov * (Z * list string)) :=
  accountManagementWrite g actor clk audited (fun g now =>
    let stamp := truncSecond now in
    match users g !! userID with
    | None => Err errUserNotFound
    | Some u =>
        r <-! (if bool_decide (u_DisabledAt u = None) then
                 check! bool_decide (u_Role u = RoleAdmin) && (other_admins g userID =? 0), ErrLastAdmin;
                 Ok (disable_account g userID byID stamp)
               else Ok (g, 0));
        let '(g2, ids) := EndUserSessions r.1 userID None "revoked_disable" (Some byID) now in
        Ok (g2, (r.2, ids))
    end).

Definition enable_columns (stamp : Time) (u : User) : User :=
  user_enabled u None None None 0 (if bool_decide (u_DisabledAt u = None) then u_ReactivatedAt u else Some stamp) stamp.
Definition EnableUserAudited (g : Gov) (userID : string) (actor : AccountManagementActor) (clk : nat → Time) (audited : bool)
    : result (Gov * bool) :=
  accountManagementWrite g actor clk audited (fun g now =>
    _ <-! guardSecurityPrincipal g userID;
    match users g !! userID with
    | None => Err errUserNotFound
    | Some u => Ok (update_user userID (enable_columns (truncSecond now)) now g, bool_decide (is_Some (u_DisabledAt u)))
    end).

Definition UnlockUserAudited (g : Gov) (userID : string) (actor : AccountManagementActor) (clk : nat → Time) (audited : bool)
    : result (Gov * bool) :=
  accountManagementWrite g actor clk audited (fun g now =>
    _ <-! guardSecurityPrincipal g userID;
    match users g !! userID with
    | None => Err errUserNotFound
    | Some u =>
        let wasLocked := match u_LockedUntil u with Some t => After t now | None => false end in
        Ok (update_user userID
              (fun u => user_unlocked u None 0 (if wasLocked then Some (truncSecond now) else u_ReactivatedAt u) (truncSecond now)) now g,
            wasLocked)
    end).

Definition SetDormancyExemptAudited (g : Gov) (userID : string) (exempt : bool) (actor : AccountManagementActor) (clk : nat → Time)
    (audited : bool) : result (Gov * unit) :=
  accountManagementWrite g actor clk audited (fun g now =>
    _ <-! guardSecurityPrincipal g userID;
    match users g !! userID with
    | None => Err errUserNotFound
    | Some u => check! negb (bool_decide (u_Role u = RoleAdmin)), ErrNotAdmin;
                Ok (update_user userID (fun u => user_exempt u exempt (truncSecond now)) now g, tt)
    end).

Definition UpdateUserRoleAudited (g : Gov) (userID role : string) (actor : AccountManagementActor) (clk : nat → Time) (audited : bool)
    : result (Gov * bool) :=
  accountManagementWrite g actor clk audited (fun g now =>
    _ <-! guardSecurityPrincipal g userID;
    match users g !! userID with
    | None => Err errUserNotFound
    | Some u =>
        check! negb (IsValidRole role), ErrConstraint;
        Ok (update_user userID
              (fun u => user_role u role (if bool_decide (role = RoleAdmin) then u_DormancyExempt u else false)
                          (u_TokenGeneration u + 1) (truncSecond now)) now g,
            u_DormancyExempt u && negb (bool_decide (role = RoleAdmin)))
    end).

Definition DeleteUserAudited (g : Gov) (userID : string) (actor : AccountManagementActor) (clk : nat → Time) (audited : bool)
    : result (Gov * unit) :=
  accountManagementWrite g actor clk audited (fun g now =>
    _ <-! guardSecurityPrincipal g userID;
    check! bool_decide (users g !! userID = None), errUserNotFound;
    Ok (delete_user userID now g, tt)).

(** [DeleteUser], and [DeleteIncompleteUsers], which passes over protected accounts. *)
Definition DeleteUser (g : Gov) (userID : string) (stamp : Time) : result Gov :=
  _ <-! guardSecurityPrincipal g userID;
  check! bool_decide (users g !! userID = None), errUserNotFound;
  Ok (delete_user userID stamp g).
Definition DeleteIncompleteUsers (g : Gov) (stamp : Time) : Gov :=
  foldl (fun g id => match guardSecurityPrincipal g id with Ok _ => delete_user id stamp g | Err _ => g end) g
    ((filter (fun kv : string * User => u_TOTPEnabled kv.2 = false) (map_to_list (users g))).*1).

Definition CreateUserAudited (g : Gov) (user : User) (actor : AccountManagementActor) (clk : nat → Time) (audited taken : bool)
    : result (Gov * unit) :=
  let user := normalizeUserForCreate user in
  accountManagementWrite g actor clk audited (fun g now =>
    check! bool_decide (is_Some (find_row (fun v => bool_decide (u_Username v = u_Username user) || bool_decide (u_Email v = u_Email user))
                                   (users g))), ErrUserExists;
    g' <-! insert_user g user (truncSecond now) taken;
    Ok (g', tt)).

Definition activityThrottle : Duration := 60 * Second.
Definition TouchUserActivity (g : Gov) (userID : string) (now : Time) : Gov :=
  match users g !! userID with
  | None => g
  | Some u =>
      if match u_LastActivityAt u with None => true | Some t => t <? truncSecond (now - activityThrottle) end
      then update_user userID (fun u => user_active u (Some (truncSecond now))) now g else g
  end.

(** ** Passwords and factors (account_management.go, mfa_removal.go) *)

Definition ReactivateUser (g : Gov) (id : string) (actor : AccountManagementActor) (clk : nat → Time) (audited : bool)
    : result (Gov * bool) :=
  accountManagementWrite g actor clk audited (fun g now =>
    _ <-! guardSecurityPrincipal g id;
    match users g !! id with
    | None => Err errUserNotFound
    | Some u =>
        check! bool_decide (is_Some (u_DisabledAt u)), ErrAccountDisabled;
        let changed := IsDormant (InputFromUser u) now (DormantDays (accountManagementPolicyStrict g)) in
        Ok (if changed then update_user id (fun u => user_reactivated u (Some (truncSecond now)) (truncSecond now)) now g else g, changed)
    end).

Definition set_password (g : Gov) (id : string) (u : User) (hash : string) (temporary : option Time) (now : Time) (history : Z) (by_ : option string)
    : Gov :=
  let g1 := on_accounts g (appendPasswordHistoryConn id (u_PasswordHash u) (u_MustChangePassword u) history now) in
  let g2 := update_user id (fun u => user_credential u hash (bool_decide (is_Some temporary)) (truncSecond <$> temporary)
              (u_TokenGeneration u + 1) (u_SSHCredentialGeneration u + 1) (truncSecond now)) now g1 in
  on_accounts g2 (revokeCredentialAuthorityConn id by_ (truncSecond now) "password_changed").

Definition ResetLocalPassword (g : Gov) (id : string) (expected : Z) (hash : string) (expires : Time) (history : Z) (by_ : option string)
    (actor : AccountManagementActor) (clk : nat → Time) (audited : bool) : result (Gov * unit) :=
  accountManagementWrite g actor clk audited (fun g now =>
    _ <-! guardSecurityPrincipal g id;
    match users g !! id with
    | None => Err errUserNotFound
    | Some u =>
        check! negb (bool_decide (u_AuthProvider u = AuthProviderLocal)), ErrLocalPasswordOnly;
        check! negb (u_TokenGeneration u =? expected), ErrSecurityConflict;
        Ok (set_password g id u hash (Some expires) now history by_, tt)
    end).

Record PasswordChangeAuthority := mkPasswordAuthority { pa_Snapshot : User; pa_SessionID : string; pa_Generation : Z; pa_ExpiresAt : Time }.

Definition samePasswordSnapshot (live original : User) : bool :=
  bool_decide (u_ID live = u_ID original) && (u_TokenGeneration live =? u_TokenGeneration original)
  && (u_SecurityRevision live =? u_SecurityRevision original) && bool_decide (u_PasswordHash live = u_PasswordHash original)
  && bool_decide (u_AuthProvider live = u_AuthProvider original) && Bool.eqb (u_TOTPEnabled live) (u_TOTPEnabled original)
  && bool_decide (u_TOTPSecret live = u_TOTPSecret original) && Bool.eqb (u_MustChangePassword live) (u_MustChangePassword original)
  && bool_decide (u_TempPasswordExpiresAt live = u_TempPasswordExpiresAt original).

(** The closure [recheck]: what was read of the account and the session, judged
    at [now]. *)
Definition recheckAuthority (a : PasswordChangeAuthority) (live : User) (policy : Policy) (st : option State) (now : Time) : result unit :=
  check! IsZeroTime (pa_ExpiresAt a) || negb (Before now (pa_ExpiresAt a)) || negb (u_TokenGeneration live =? pa_Generation a)
         || negb (samePasswordSnapshot live (pa_Snapshot a)) || bool_decide (is_Some (u_DisabledAt live))
         || IsDormant (InputFromUser live) now (DormantDays policy), ErrSecurityConflict;
  check! match st with Some s => match Session.Evaluate s now policy with VerdictOK => false | _ => true end | None => false end,
         ErrSecurityConflict;
  Ok tt.

Definition guardPasswordChangeAuthority (g : Gov) (user : string) (a : PasswordChangeAuthority) (now : Time)
    : result (Time → result unit) :=
  live <-! GetUserByID g user;
  let policy := accountManagementPolicyStrict g in
  st <-! (if bool_decide (pa_SessionID a = "") then Ok None
          else match readLiveSession g (pa_SessionID a) user with Ok st => Ok (Some st) | Err e => Err e end);
  _ <-! recheckAuthority a live policy st now;
  Ok (recheckAuthority a live policy st).

Definition temporaryPasswordDeadline (u : User) (required : bool) (now : Time) : result unit :=
  check! required && match u_TempPasswordExpiresAt u with None => true | Some e => negb (Before now e) end, ErrTemporaryPasswordExpired;
  Ok tt.

Definition changeLocalPasswordConn (g : Gov) (user : User) (hash : string) (now : Time) (history : Z) (requireTemporary : bool)
    (by_ : option string) : result Gov :=
  _ <-! guardSecurityPrincipal g (u_ID user);
  live <-! GetUserByID g (u_ID user);
  check! negb (bool_decide (u_AuthProvider live = AuthProviderLocal)), ErrLocalPasswordOnly;
  check! negb (samePasswordSnapshot live user) || bool_decide (is_Some (u_DisabledAt live))
         || IsDormant (InputFromUser live) now (DormantDays (accountManagementPolicyStrict g)), ErrSecurityConflict;
  check! requireTemporary && (negb (u_MustChangePassword live)
         || match u_TempPasswordExpiresAt live with None => true | Some e => negb (Before now e) end), ErrTemporaryPasswordExpired;
  Ok (set_password g (u_ID user) live hash None now history by_).

Definition ChangeLocalPassword (g : Gov) (user : User) (hash : string) (history : Z) (requireTemporary : bool) (by_ : option string)
    (authority : PasswordChangeAuthority) (clk : nat → Time) (audited : bool) : result (Gov * Z) :=
  recheck <-! guardPasswordChangeAuthority g (u_ID user) authority (clk 0%nat);
  _ <-! temporaryPasswordDeadline user requireTemporary (clk 1%nat);
  g1 <-! changeLocalPasswordConn g user hash (clk 1%nat) history requireTemporary by_;
  check! negb audited, ErrAudit;
  live <-! GetUserByID g1 (u_ID user);
  _ <-! temporaryPasswordDeadline user requireTemporary (clk 2%nat);
  _ <-! recheck (clk 2%nat);
  Ok (g1, u_TokenGeneration live).

Definition DisableUserTOTP (g : Gov) (user : string) (actor : AccountManagementActor) (clk : nat → Time) (audited : bool) : result Gov :=
  _ <-! guardSecurityPrincipal g user;
  check! bool_decide (am_SessionID actor = "") || bool_decide (am_UserID actor = user), ErrAccountManagementActor;
  r <-! accountManagementWrite g actor clk audited (fun g now =>
          g1 <-! removeUserTOTPConn user (Some (am_UserID actor)) now g; Ok (g1, tt));
  Ok r.1.
(** ** Accounts of the directory and factors (users.go, totp_completion.go, security.go) *)

(** Another account has the name, the address or the external identity. *)
Definition identity_taken (g : Gov) (userID : string) (u : User) : bool :=
  existsb (fun kv : string * User =>
             negb (bool_decide (kv.1 = userID))
             && (bool_decide (u_Username kv.2 = u_Username u) || bool_decide (u_Email kv.2 = u_Email u)
                 || (negb (bool_decide (u_ExternalID u = "")) && bool_decide (u_AuthProvider kv.2 = AuthProviderLDAP)
                     && bool_decide (u_ExternalID kv.2 = u_ExternalID u))))
    (map_to_list (users g)).

Definition updateLDAPUser (g : Gov) (userID : string) (u : User) (stamp : Time) : result Gov :=
  _ <-! match guardSecurityPrincipal g userID with
        | Ok _ => Ok tt
        | Err e =>
            match users g !! userID with
            | None => Err ErrNoRows
            | Some c => check! negb (bool_decide (u_Role c = u_Role u)) || negb (bool_decide (u_ExternalID c = u_ExternalID u))
                               || negb (bool_decide (u_LDAPUsername c = u_LDAPUsername u))
                               || negb (Bool.eqb (u_TerminalAccess c) (u_TerminalAccess u)), e;
                        Ok tt
            end
        end;
  check! bool_decide (is_Some (users g !! userID)) && (identity_taken g userID u || negb (IsValidRole (u_Role u))), ErrConstraint;
  Ok (update_user userID (fun c => user_directory c (u_Username u) (u_Email u) (u_Role u) AuthProviderLDAP (u_ExternalID u) (u_LDAPDN u)
        (u_LDAPUsername u) (truncSecond <$> u_LDAPLastSyncAt u) (u_TerminalAccess u) stamp) stamp g).

(** A recovery of the factor that governance applied, for the account as it is. *)
Definition mfa_recovery (g : Gov) (user : string) (u : User) : bool :=
  match ac_mfaRecoveries (gv_accounts g) !! user with
  | Some (request, generation) =>
      (generation =? u_TokenGeneration u)
      && match gv_changes g !! request with Some c => bool_decide (cr_state c = ChApplied) && negb (bool_decide (cr_result c = "")) | None => false end
  | None => false
  end.

(** [shell] is the expiry of a live grant of the break-glass command for the
    account, which another table keeps. *)
Definition guardMFASetup (g : Gov) (user : string) (mfaSetup : bool) (shell : option Time) (now : Time) : result unit :=
  match guardSecurityPrincipal g user with
  | Ok _ => Ok tt
  | Err e =>
      check! negb mfaSetup, e;
      match users g !! user with
      | None => Err e
      | Some u => check! u_TOTPEnabled u || bool_decide (is_Some (u_DisabledAt u))
                         || negb (mfa_recovery g user u || match shell with Some t => Unix now <? Unix t | None => false end), e;
                  Ok tt
      end
  end.

Definition mfaSetupDeadline (g : Gov) (user : string) (shell : option Time) (at_ : Time) : result unit :=
  match guardSecurityPrincipal g user with
  | Ok _ => Ok tt
  | Err _ =>
      match users g !! user with
      | None => Err ErrProtectedChange
      | Some u => check! u_TOTPEnabled u || bool_decide (is_Some (u_DisabledAt u)), ErrProtectedChange;
                  check! negb (mfa_recovery g user u) && match shell with Some t => negb (Before at_ t) | None => true end, ErrProtectedChange;
                  Ok tt
      end
  end.

Definition updateUserTOTPConn (g : Gov) (user : string) (secret : option string) (enabled : bool) (setupGeneration : option Z) (now : Time)
    : result Gov :=
  match users g !! user with
  | None => Err ErrNoRows
  | Some u =>
      check! match setupGeneration with Some n => negb (u_TokenGeneration u =? n) || u_TOTPEnabled u | None => false end, ErrSecurityConflict;
      g1 <-! (if (negb enabled && bool_decide (secret = None))
                 || (u_TOTPEnabled u && (negb enabled || bool_decide (secret = None) || negb (bool_decide (secret = u_TOTPSecret u))))
              then removeUserTOTPConn user None now g else Ok g);
      let g2 := update_user user (fun u => user_totp u secret enabled now) now g1 in
      if enabled then
        let recovered := bool_decide (is_Some (ac_mfaRecoveries (gv_accounts g2) !! user)) in
        let g3 := on_accounts g2 (fun a => set_mfaRecoveries a (delete user (ac_mfaRecoveries a))) in
        Ok (if recovered then on_accounts g3 (bump_user user 1 0 now) else g3)
      else Ok g2
  end.

Definition UpdateUserTOTP (g : Gov) (user : string) (secret : option string) (enabled : bool) (setupGeneration : option Z)
    (shell : option Time) (now : Time) : result Gov :=
  _ <-! guardMFASetup g user (bool_decide (is_Some setupGeneration)) shell now;
  updateUserTOTPConn g user secret enabled setupGeneration now.

(** [passwordRecoveryDeadlineRecheck] on the account as it was read. *)
Definition passwordRecoveryDeadline (g : Gov) (snapshot : User) (shell : option Time) (at_ : Time) : result unit :=
  match users g !! u_ID snapshot with
  | None => Err ErrProtectedChange
  | Some u =>
      check! negb (bool_decide (u_AuthProvider u = AuthProviderLocal)) || negb (bool_decide (u_PasswordHash u = u_PasswordHash snapshot))
             || negb (u_SecurityRevision u =? u_SecurityRevision snapshot) || negb (u_TokenGeneration u =? u_TokenGeneration snapshot)
             || negb (u_MustChangePassword u) || bool_decide (is_Some (u_DisabledAt u)), ErrProtectedChange;
      let governed := match ac_passwordRecoveries (gv_accounts g) !! u_ID snapshot with
                      | Some (request, hash) =>
                          bool_decide (hash = u_PasswordHash u)
                          && match gv_changes g !! request with
                             | Some c => bool_decide (cr_state c = ChApplied) && negb (bool_decide (cr_result c = "")) | None => false end
                      | None => false
                      end in
      check! match u_TempPasswordExpiresAt u with Some e => IsZeroTime e || negb (Before at_ e) | None => true end,
             ErrTemporaryPasswordExpired;
      check! negb governed && match shell with Some t => negb (Before at_ t) | None => true end, ErrProtectedChange;
      Ok tt
  end.

Definition completeApprovedPasswordRecoveryConn (g : Gov) (snapshot : User) (newHash : string) (shell : option Time) (now : Time)
    (history : Z) (by_ : option string) : result Gov :=
  let user := u_ID snapshot in
  match users g !! user with
  | None => Err ErrNoRows
  | Some u0 =>
      check! negb (bool_decide (u_AuthProvider u0 = AuthProviderLocal)), ErrLocalPasswordOnly;
      _ <-! passwordRecoveryDeadline g snapshot shell now;
      let g1 := update_user user (fun u => user_credential u newHash false None (u_TokenGeneration u + 1) (u_SSHCredentialGeneration u + 1)
                                             now) now g in
      let g2 := on_accounts g1 (fun a =>
        let a1 := set_passwordRecoveries a (delete user (ac_passwordRecoveries a)) in
        match ac_users a1 !! user, ac_mfaRecoveries a1 !! user with
        | Some u, Some (request, generation) =>
            if generation =? u_TokenGeneration u - 1
            then set_mfaRecoveries a1 (<[user := (request, u_TokenGeneration u)]> (ac_mfaRecoveries a1)) else a1
        | _, _ => a1
        end) in
      let g3 := on_tokens g2 (revoke_tokens user now) in
      let g4 := on_accounts g3 (appendPasswordHistoryConn user (u_PasswordHash snapshot) true history now) in
      Ok (on_accounts g4 (revokeCredentialAuthorityConn user by_ (truncSecond now) "password_changed"))
  end.

Definition CompleteApprovedPasswordRecoveryAudited (g : Gov) (snapshot : User) (newHash : string) (shell : option Time) (history : Z)
    (by_ : option string) (authority : PasswordChangeAuthority) (clk : nat → Time) (audited : bool) : result (Gov * Z) :=
  recheck <-! guardPasswordChangeAuthority g (u_ID snapshot) authority (clk 0%nat);
  g1 <-! completeApprovedPasswordRecoveryConn g snapshot newHash shell (clk 1%nat) history by_;
  check! negb audited, ErrAudit;
  live <-! GetUserByID g1 (u_ID snapshot);
  _ <-! passwordRecoveryDeadline g snapshot shell (clk 2%nat);
  _ <-! recheck (clk 2%nat);
  Ok (g1, u_TokenGeneration live).


Definition CompleteTOTPSetup (g : Gov) (snapshot : User) (encryptedSecret newHash : string) (history : Z) (by_ : option string)
    (shell_password shell_mfa : option Time) (authority : PasswordChangeAuthority) (clk : nat → Time) (audited : bool) : result Gov :=
  check! bool_decide (encryptedSecret = ""), ErrSecurityConflict;
  recheck <-! guardPasswordChangeAuthority g (u_ID snapshot) authority (clk 0%nat);
  let now := clk 1%nat in
  live <-! GetUserByID g (u_ID snapshot);
  check! negb (u_TokenGeneration live =? u_TokenGeneration snapshot) || negb (u_SecurityRevision live =? u_SecurityRevision snapshot)
         || negb (bool_decide (u_PasswordHash live = u_PasswordHash snapshot)) || negb (bool_decide (u_AuthProvider live = u_AuthProvider snapshot))
         || u_TOTPEnabled live || bool_decide (is_Some (u_DisabledAt live)) || bool_decide (u_TOTPSecret live = None)
         || negb (bool_decide (u_TOTPSecret live = u_TOTPSecret snapshot))
         || negb (Bool.eqb (u_MustChangePassword live) (u_MustChangePassword snapshot)), ErrSecurityConflict;
  check! IsDormant (InputFromUser live) now (DormantDays (accountManagementPolicyStrict g)), ErrSecurityConflict;
  _ <-! guardMFASetup g (u_ID live) true shell_mfa now;
  _ <-! mfaSetupDeadline g (u_ID live) shell_mfa now;
  r <-! (if u_MustChangePassword live then
           check! bool_decide (newHash = ""), ErrSecurityConflict;
           match guardSecurityPrincipal g (u_ID live) with
           | Err _ =>
               g1 <-! completeApprovedPasswordRecoveryConn g live newHash shell_password now history by_;
               Ok (g1, passwordRecoveryDeadline g live shell_password)
           | Ok _ =>
               _ <-! temporaryPasswordDeadline live true now;
               g1 <-! changeLocalPasswordConn g live newHash now history true by_;
               Ok (g1, temporaryPasswordDeadline live true)
           end
         else check! negb (bool_decide (newHash = "")), ErrSecurityConflict; Ok (g, fun _ => Ok tt));
  g2 <-! updateUserTOTPConn r.1 (u_ID live) (Some encryptedSecret) true None now;
  let g3 := on_accounts g2 (fun a => set_config a (<[configInitialSetupComplete := "true"]> (ac_config a))) in
  check! negb audited, ErrAudit;
  _ <-! r.2 (clk 2%nat);
  _ <-! mfaSetupDeadline g (u_ID live) shell_mfa (clk 2%nat);
  _ <-! recheck (clk 2%nat);
  Ok g3.
End guards.

(** ** What never comes back *)

Create HintDb age discriminated.

(** A session row later on: it belongs to the same user, stays ended, and keeps
    its refresh digest while it is live. *)
Definition row_aged (r r' : SessionRow) : Prop :=
  sn_user r' = sn_user r ∧ (sn_ended r ≠ None → sn_ended r' = sn_ended r) ∧ (sn_ended r' = None → sn_refresh r' = sn_refresh r).

(** No account or session appears, generations do not decrease, sessions age and
    persons stay. *)
Record aaged (a a' : Accounts) : Prop := mkAaged {
  ag_users : ∀ id u', ac_users a' !! id = Some u' → ∃ u, ac_users a !! id = Some u ∧ u_TokenGeneration u ≤ u_TokenGeneration u';
  ag_sessions : ∀ id r', ac_sessions a' !! id = Some r' → ∃ r, ac_sessions a !! id = Some r ∧ row_aged r r';
  ag_persons : ∀ k, is_Some (ac_persons a !! k) → is_Some (ac_persons a' !! k);
}.
Definition aged (g g' : Gov) : Prop := aaged (gv_accounts g) (gv_accounts g').

(** A live row may end. *)
Lemma row_ended_aged r r' : sn_ended r = None → sn_ended r' ≠ None → sn_user r' = sn_user r → row_aged r r'.
Proof. intros E N U. by split_and!. Qed.
Lemma row_aged_refl r : row_aged r r.
Proof. by repeat split. Qed.
#[local] Instance aaged_po : PreOrder aaged.
Proof.
  split.
  - intros a. split; [intros id u' ->; eexists; split; [done|lia]|intros id r' ->; eexists; split; [done|apply row_aged_refl]|done].
  - intros a1 a2 a3 [U1 S1 P1] [U2 S2 P2]. split.
    + intros id u3 H3. destruct (U2 _ _ H3) as (u2 & H2 & ?). destruct (U1 _ _ H2) as (u1 & H1 & ?). exists u1. split; [done|lia].
    + intros id r3 H3. destruct (S2 _ _ H3) as (r2 & H2 & E2 & F2 & G2). destruct (S1 _ _ H2) as (r1 & H1 & E1 & F1 & G1).
      exists r1. split; [done|]. split_and!; [congruence| |].
      * intros N. rewrite F2; rewrite F1; done.
      * intros N. rewrite G2 by done. apply G1. destruct (decide (sn_ended r2 = None)) as [|N2]; [done|]. rewrite F2 in N; done.
    + eauto.
Qed.
#[local] Instance aged_po : PreOrder aged.
Proof. split; [intros g; red; reflexivity|intros g1 g2 g3; unfold aged; apply transitivity]. Qed.

(** The tables that matter are untouched. *)
Lemma aaged_same a a' : ac_users a' = ac_users a → ac_sessions a' = ac_sessions a → ac_persons a' = ac_persons a → aaged a a'.
Proof. intros U S P. split; rewrite ?U, ?S, ?P; [intros id u' Hu; exists u'; split; [done|lia]|intros id r' Hr; exists r'; split; [done|apply row_aged_refl]|done]. Qed.
Lemma aged_accounts g g' : gv_accounts g' = gv_accounts g → aged g g'.
Proof. unfold aged. intros ->. reflexivity. Qed.

Lemma insert_user_aged a user u u' : ac_users a !! user = Some u → u_TokenGeneration u ≤ u_TokenGeneration u' →
  aaged a (set_users a (<[user := u']> (ac_users a))).
Proof.
  intros Hu Hle. split; [|intros id r' Hr; exists r'; split; [done|apply row_aged_refl]|done].
  intros id v Hv. destruct (decide (id = user)) as [->|Hn].
  - cbn in Hv. rewrite lookup_insert_eq in Hv. injection Hv as <-. by exists u.
  - cbn in Hv. rewrite lookup_insert_ne in Hv by done. by exists v.
Qed.

Lemma application_changed_aged user stamp a : aaged a (application_changed user stamp a).
Proof. unfold application_changed. case_match; by apply aaged_same. Qed.
#[local] Hint Resolve application_changed_aged : age.

(** Reduce a chain of updates to its parts. *)
Ltac age :=
  repeat first
    [ reflexivity
    | match goal with
      | |- aaged _ (if ?b then _ else _) => destruct b
      | |- aged _ (if ?b then _ else _) => destruct b
      end
    | solve [eauto with age]
    | solve [apply aaged_same; reflexivity]
    | solve [apply aged_accounts; reflexivity]
    | etransitivity; [|solve [eauto with age]] ].

Lemma bump_user_aged user n m stamp a : 0 ≤ n → aaged a (bump_user user n m stamp a).
Proof.
  intros Hn. unfold bump_user. destruct (ac_users a !! user) as [u|] eqn:Hu; [|reflexivity].
  assert (aaged a (set_users a (<[user := user_generations u (u_TokenGeneration u + n) (u_SecurityRevision u + m)]> (ac_users a)))).
  { eapply insert_user_aged; [done|]. cbn. lia. }
  case_match; [done|]. etransitivity; [done|]. apply application_changed_aged.
Qed.

Lemma authority_changed_aged user n stamp g : 0 ≤ n → aged g (authority_changed user n stamp g).
Proof. intros Hn. unfold aged. cbn. by apply bump_user_aged. Qed.

Lemma replace_legacy_role_aged user role stamp a : aaged a (replace_legacy_role user role stamp a).
Proof. unfold replace_legacy_role. etransitivity; [|apply application_changed_aged]. by apply aaged_same. Qed.

Lemma on_accounts_aged g f : (∀ a, aaged a (f a)) → aged g (on_accounts g f).
Proof. intros H. apply H. Qed.

Lemma update_user_aged user f stamp g : (∀ u, u_TokenGeneration u ≤ u_TokenGeneration (f u)) → aged g (update_user user f stamp g).
Proof.
  intros Hf. unfold update_user. destruct (ac_users (gv_accounts g) !! user) as [u|] eqn:Hu; [|reflexivity].
  set (g1 := on_accounts g _). assert (H1 : aged g g1) by (eapply insert_user_aged; eauto).
  set (g2 := if bool_decide (application_columns u = application_columns (f u)) then g1 else _).
  assert (H2 : aged g g2).
  { unfold g2. case_match; [done|]. etransitivity; [exact H1|]. apply on_accounts_aged, application_changed_aged. }
  set (g3 := if bool_decide (u_Role u = u_Role (f u)) then g2 else _).
  assert (H3 : aged g g3).
  { unfold g3. case_match; [done|]. etransitivity; [exact H2|]. apply on_accounts_aged. intros a. apply replace_legacy_role_aged. }
  case_match; [done|]. etransitivity; [exact H3|]. by apply authority_changed_aged.
Qed.
#[local] Hint Resolve bump_user_aged authority_changed_aged replace_legacy_role_aged update_user_aged : age.
#[local] Hint Extern 1 (0 ≤ _) => lia : age.
#[local] Hint Extern 1 (∀ u, u_TokenGeneration u ≤ _) => intros; simpl; lia : age.

(** The operations of governance. *)
Lemma roles_changed_aged user f stamp g : aged g (on_accounts g (fun a => application_changed user stamp (set_roles a (f a)))).
Proof. apply on_accounts_aged. intros a. etransitivity; [|apply application_changed_aged]. by apply aaged_same. Qed.

Lemma insert_role_aged user role req nothing stamp g g' : insert_role user role req nothing stamp g = Ok g' → aged g g'.
Proof.
  unfold insert_role. intros H. guards_in H; try reflexivity. case_match; [|apply roles_changed_aged].
  etransitivity; [|apply authority_changed_aged; lia]. apply roles_changed_aged.
Qed.
Lemma delete_role_aged user role stamp g : aged g (delete_role user role stamp g).
Proof.
  unfold delete_role. case_match; [|reflexivity]. case_match; [|apply roles_changed_aged].
  etransitivity; [|apply authority_changed_aged; lia]. apply roles_changed_aged.
Qed.
Lemma invalidateUser_aged user stamp g : aged g (invalidateUser user stamp g).
Proof. unfold invalidateUser, aged. cbn. etransitivity; [apply (bump_user_aged user 1 0 stamp); lia|]. by apply aaged_same. Qed.
Lemma update_link_aged user person req stamp g : aged g (update_link user person req stamp g).1.
Proof.
  unfold update_link. case_match; [|reflexivity]. cbn [fst]. case_match; [by apply aaged_same|].
  etransitivity; [|apply authority_changed_aged; lia]. by apply aaged_same.
Qed.
Lemma linkUser_aged id user person ver stamp g g' : linkUser id user person ver stamp g = Ok g' → aged g g'.
Proof.
  unfold linkUser. intros H.
  match type of H with context [update_link ?u ?p ?r ?s ?g1] =>
    pose proof (update_link_aged u p r s g1) as Hl; destruct (update_link u p r s g1) as [g2 []] end; [|discriminate H].
  injection H as <-. etransitivity; [|apply invalidateUser_aged]. etransitivity; [|exact Hl].
  unfold aged. cbn. case_match; [reflexivity|].
  split; cbn; [intros i u' Hu; exists u'; split; [done|lia]|intros i r' Hr; exists r'; split; [done|apply row_aged_refl]|].
  intros k Hk. apply lookup_insert_is_Some'. by right.
Qed.
#[local] Hint Resolve insert_role_aged delete_role_aged invalidateUser_aged linkUser_aged : age.

Lemma grantRoles_aged id user roles stamp g g' : grantRoles id user roles stamp g = Ok g' → aged g g'.
Proof. revert g. induction roles as [|r roles IH]; intros g H; simpl in H; guards_in H; simplify_eq; age. Qed.
#[local] Hint Resolve grantRoles_aged : age.
Lemma applyNominations_aged id ns stamp g g' : applyNominations id ns stamp g = Ok g' → aged g g'.
Proof. revert g. induction ns as [|n ns IH]; intros g H; simpl in H; guards_in H; simplify_eq; age. Qed.

Lemma map_sessions_aged a a' f : ac_users a' = ac_users a → ac_persons a' = ac_persons a →
  ac_sessions a' = f <$> ac_sessions a → (∀ r, row_aged r (f r)) → aaged a a'.
Proof.
  intros U P S Hf. split; rewrite ?U, ?P; [intros i u' Hu; exists u'; split; [done|lia]| |done].
  intros i r'. rewrite S, lookup_fmap. destruct (ac_sessions a !! i) as [r|]; [|done]. cbn. injection 1 as <-. eauto.
Qed.
Lemma end_sessions_row user actor now reason (r : SessionRow) :
  row_aged r (if bool_decide (sn_user r = user) && bool_decide (sn_ended r = None)
              then session_refresh (session_ended r now reason actor) "" else r).
Proof. case_match; [|apply row_aged_refl]. bool_hyps. by apply row_ended_aged. Qed.
Lemma revoke_aged user actor now reason a : aaged a (revokeCredentialAuthorityConn user actor now reason a).
Proof. eapply map_sessions_aged; [done..|]. apply end_sessions_row. Qed.
Lemma removeUserTOTPConn_aged user actor now g g' : removeUserTOTPConn user actor now g = Ok g' → aged g g'.
Proof.
  unfold removeUserTOTPConn. intros H. guards_in H. etransitivity.
  - apply update_user_aged with (f := fun u => user_factor u None false (u_TokenGeneration u + 1) (u_SSHCredentialGeneration u + 1) now).
    intros u. simpl. lia.
  - apply revoke_aged.
Qed.
Lemma history_aged user old temporary limit now g : aged g (on_accounts g (appendPasswordHistoryConn user old temporary limit now)).
Proof. by apply aaged_same. Qed.
Lemma resetPassword_aged p r stamp g g' : resetPassword p r stamp g = Ok g' → aged g g'.
Proof.
  unfold resetPassword. intros H. guards_in H. etransitivity; [apply history_aged|].
  apply update_user_aged. intros v. simpl. lia.
Qed.
#[local] Hint Resolve applyNominations_aged removeUserTOTPConn_aged resetPassword_aged : age.

Lemma carryRecovery_aged user a : aaged a (carryRecovery user a).
Proof. unfold carryRecovery. repeat case_match; by apply aaged_same. Qed.
Lemma applyRecovery_aged id applier p r stamp g g' : applyRecovery id applier p r stamp g = Ok g' → aged g g'.
Proof.
  unfold applyRecovery, reenableUser. intros H.
  match type of H with match ?x with _ => _ end = _ => destruct x as [g1|] eqn:E1; [|discriminate H] end.
  assert (H1 : aged g g1) by (guards_in E1; simplify_eq; age). clear E1.
  set (g2 := if bool_decide (rv_Operation r = "password-reset") then on_accounts g1 (carryRecovery (rv_UserID r)) else g1) in H.
  assert (H2 : aged g1 g2) by (unfold g2; case_match; [apply on_accounts_aged, carryRecovery_aged|reflexivity]). clearbody g2.
  set (g3 := if bool_decide (rv_Operation r = "mfa-reset") then g2 else invalidateUser (rv_UserID r) stamp g2) in H.
  assert (H3 : aged g2 g3) by (unfold g3; age). clearbody g3.
  etransitivity; [exact H1|]. etransitivity; [exact H2|]. etransitivity; [exact H3|].
  guards_in H; simplify_eq; try reflexivity; by apply aaged_same.
Qed.
Lemma applySecurityPayload_aged g c p stamp g' : applySecurityPayload g c p stamp = Ok g' → aged g g'.
Proof.
  unfold applySecurityPayload. intros H. guards_in H; simplify_eq; try (age; fail); eauto using applyRecovery_aged.
Qed.

Section governance.
Context (J : JSON) (proposal : string → option SecurityChangePayload).

Lemma consume_accounts g proof user session action digest t1 t2 policy g1 :
  consumeStepupWithClock g proof user session action digest t1 t2 policy = Ok g1 → gv_accounts g1 = gv_accounts g.
Proof using. intros (r & _ & _ & ->)%consume_inv. done. Qed.
Lemma nominations_accounts id ns g g' : insertNominations g id ns = Ok g' → gv_accounts g' = gv_accounts g.
Proof using.
  revert g. induction ns as [|n ns IH]; intros g H; simpl in H; [by simplify_eq|].
  destruct (insertNomination g id n) as [g1|] eqn:E; [|done]. unfold insertNomination in E. guards_in E. by rewrite (IH _ H).
Qed.
Lemma create_accounts g c ns session proof clk g' :
  CreateSecurityChange proposal g c ns session proof clk = Ok g' → gv_accounts g' = gv_accounts g.
Proof using.
  unfold CreateSecurityChange. intros H. do 4 head_in H.
  destruct (consumeStepupWithClock _ _ _ _ _ _ _ _ _) as [g1|] eqn:Ec in H; [|discriminate H]. apply consume_accounts in Ec.
  do 2 head_in H. destruct (insertChange g1 c) as [g2|] eqn:Ei; [|discriminate H].
  assert (E2 : gv_accounts g2 = gv_accounts g1) by (unfold insertChange in Ei; by guards_in Ei).
  destruct (insertNominations g2 (c_ID c) ns) as [g3|] eqn:En; [|discriminate H]. apply nominations_accounts in En.
  rewrite <- Ec, <- E2, <- En. do 4 head_in H. by case_match.
Qed.
Lemma approve_accounts g c a session proof clk g' :
  AddSecurityApproval proposal g c a session proof clk = Ok g' → gv_accounts g' = gv_accounts g.
Proof using.
  unfold AddSecurityApproval. intros H. head_in H.
  destruct (consumeStepupWithClock _ _ _ _ _ _ _ _ _) as [g1|] eqn:Ec in H; [|discriminate H]. apply consume_accounts in Ec.
  rewrite <- Ec. destruct (gv_changes g1 !! c_ID c); [|discriminate H]. do 4 head_in H.
  destruct (insertVote _ _ _ _ _) as [g2|] eqn:Ei in H; [|discriminate H].
  assert (E2 : gv_accounts g2 = gv_accounts g1) by (unfold insertVote in Ei; by guards_in Ei).
  rewrite <- E2. heads_in H. by simplify_eq.
Qed.
Lemma claim_accounts g c user person revision session proof clk g' :
  ClaimSecurityApplier proposal g c user person revision session proof clk = Ok g' → gv_accounts g' = gv_accounts g.
Proof using.
  unfold ClaimSecurityApplier. intros H. head_in H. destruct (gv_changes g !! c_ID c); [|discriminate H]. head_in H.
  destruct (consumeStepupWithClock _ _ _ _ _ _ _ _ _) as [g1|] eqn:Ec in H; [|discriminate H]. apply consume_accounts in Ec.
  rewrite <- Ec. heads_in H. by simplify_eq.
Qed.
Lemma begin_accounts g c policy intent clk qclk g' : beginSecurityApply J proposal g c policy intent clk qclk = Ok g' →
  gv_accounts g' = gv_accounts g.
Proof using.
  unfold beginSecurityApply. intros H. heads_in H.
  match goal with E : insertVersion _ _ _ _ = Ok _ |- _ => unfold insertVersion in E; guards_in E end. by simplify_eq.
Qed.
Lemma activate_aged g c p clk qclk stamp g' : activateSecurityChange J proposal g c p clk qclk stamp = Ok g' → aged g g'.
Proof using.
  unfold activateSecurityChange. intros H. guards_in H; simplify_eq; try reflexivity;
    match goal with E : applySecurityPayload _ _ _ _ = Ok _ |- _ => apply applySecurityPayload_aged in E; done end.
Qed.

(** No operation of governance gives authority back. *)
Definition governed (o : gop) : bool := match o with OUser _ _ _ | OAccounts _ => false | _ => true end.
Lemma gtry_aged g o g' : governed o = true → gtry J proposal g o = Ok g' → aged g g'.
Proof using.
  intros Ho H. destruct o; try discriminate Ho; simpl in H;
    eauto using activate_aged, aged_accounts, create_accounts, approve_accounts, claim_accounts, begin_accounts; apply aged_accounts.
  - destruct (IssueStepup g user session action digest now rnd) as [g1 [h|e]] eqn:E; simplify_eq. by apply issue_inv in E as (_ & ? & ->).
  - by apply ConsumeStepup_inv in H as (r & _ & _ & ->).
  - by simplify_eq.
  - unfold ExpireSecurityChanges in H. simplify_eq. by case_match.
  - unfold RecordSecurityCommit in H. repeat case_match; by simplify_eq.
  - unfold finishSecurityChange in H. heads_in H. simplify_eq. by repeat case_match.
  - unfold requirePolicyRecovery in H. by simplify_eq.
  - unfold resumeSecurityApplying in H. heads_in H. by simplify_eq.
  - unfold SaveSecuritySecret in H. heads_in H. by simplify_eq.
  - unfold SecurityEvidenceBytes in H. repeat case_match; by simplify_eq.
  - unfold ConfirmSecurityEvidence in H. simplify_eq. by repeat case_match.
Qed.
End governance.

(** ** Operations *)

Inductive sop :=
| SFailure (user : string) (now : Time) (p : Policy)
| SSuccess (user : string) (now : Time)
| SCreate (s : Session)
| STouch (id : string) (now : Time) (minInterval : Duration)
| SEnd (id reason : string) (by_ : option string) (now : Time)
| SEndUser (user : string) (exceptID : option string) (reason : string) (by_ : option string) (now : Time)
| SPrune (before : Time)
| SRotate (user : User) (id previous next : string) (now : Time) (p : Policy)
| STokenUsed (id : string) (now : Time)
| STokenRevoke (id : string) (now : Time)
| STokenRevokeAll (user : string) (now : Time)
| STokenCreate (id : string) (r : TokenRow)
| SActivity (user : string) (now : Time)
| SIncrement (user : string) (stamp : Time)
| SDisable (user by_ : string) (actor : AccountManagementActor) (clk : nat → Time) (audited : bool)
| SEnable (user : string) (actor : AccountManagementActor) (clk : nat → Time) (audited : bool)
| SUnlock (user : string) (actor : AccountManagementActor) (clk : nat → Time) (audited : bool)
| SExempt (user : string) (exempt : bool) (actor : AccountManagementActor) (clk : nat → Time) (audited : bool)
| SReactivate (user : string) (actor : AccountManagementActor) (clk : nat → Time) (audited : bool)
| SRole (user role : string) (actor : AccountManagementActor) (clk : nat → Time) (audited : bool)
| SDelete (user : string) (actor : AccountManagementActor) (clk : nat → Time) (audited : bool)
| SAdd (user : User) (actor : AccountManagementActor) (clk : nat → Time) (audited taken : bool)
| SRegister (user : User) (stamp : Time) (taken : bool)
| SReset (user : string) (expected : Z) (hash : string) (expires : Time) (history : Z) (by_ : option string)
    (actor : AccountManagementActor) (clk : nat → Time) (audited : bool)
| SChange (user : User) (hash : string) (history : Z) (temporary : bool) (by_ : option string) (authority : PasswordChangeAuthority)
    (clk : nat → Time) (audited : bool)
| SRecover (user : User) (hash : string) (shell : option Time) (history : Z) (by_ : option string) (authority : PasswordChangeAuthority)
    (clk : nat → Time) (audited : bool)
| SRemoveFactor (user : string) (actor : AccountManagementActor) (clk : nat → Time) (audited : bool)
| SFactor (user : string) (secret : option string) (enabled : bool) (generation : option Z) (shell : option Time) (now : Time)
| SSetup (user : User) (secret hash : string) (history : Z) (by_ : option string) (shell1 shell2 : option Time)
    (authority : PasswordChangeAuthority) (clk : nat → Time) (audited : bool)
| SDirectory (id : string) (user : User) (stamp : Time)
| SConfig (key value : string)
| SGov (o : gop)
| SClean (stamp : Time)
| SRemove (user : string) (stamp : Time).

Section operations.
Context (named : string → list string) (J : JSON) (proposal : string → option SecurityChangePayload).

Definition fst_ok {A} (r : result (Gov * A)) : result Gov := match r with Ok x => Ok x.1 | Err e => Err e end.

(** The state a transaction commits. *)
Definition stry (g : Gov) (o : sop) : result Gov :=
  match o with
  | SFailure user now p => Ok (RecordLoginFailure g user now p).1
  | SSuccess user now => Ok (RecordLoginSuccess g user now).1
  | SCreate s => CreateSession g s
  | STouch id now min => Ok (TouchSession g id now min)
  | SEnd id reason by_ now => Ok (EndSession g id reason by_ now).1
  | SEndUser user e reason by_ now => Ok (EndUserSessions g user e reason by_ now).1
  | SPrune t => Ok (PruneEndedSessions g t).1
  | SRotate user id prev next now p => RotateSessionRefresh g user id prev next now p
  | STokenUsed id now => Ok (UpdateAPITokenLastUsed g id now)
  | STokenRevoke id now => Ok (RevokeAPIToken g id now).1
  | STokenRevokeAll user now => Ok (RevokeAllAPITokensByUserID g user now)
  | STokenCreate id r => CreateAPIToken g id r
  | SActivity user now => Ok (TouchUserActivity g user now)
  | SIncrement user stamp => Ok (IncrementTokenGeneration g user stamp).1
  | SDisable user by_ a clk w => fst_ok (DisableUserAudited g user by_ a clk w)
  | SEnable user a clk w => fst_ok (EnableUserAudited named g user a clk w)
  | SUnlock user a clk w => fst_ok (UnlockUserAudited named g user a clk w)
  | SExempt user e a clk w => fst_ok (SetDormancyExemptAudited named g user e a clk w)
  | SReactivate user a clk w => fst_ok (ReactivateUser named g user a clk w)
  | SRole user role a clk w => fst_ok (UpdateUserRoleAudited named g user role a clk w)
  | SDelete user a clk w => fst_ok (DeleteUserAudited named g user a clk w)
  | SAdd u a clk w taken => fst_ok (CreateUserAudited g u a clk w taken)
  | SRegister u stamp taken => CreateUser g u stamp taken
  | SReset user n hash e h by_ a clk w => fst_ok (ResetLocalPassword named g user n hash e h by_ a clk w)
  | SChange u hash h t by_ a clk w => fst_ok (ChangeLocalPassword named g u hash h t by_ a clk w)
  | SRecover u hash sh h by_ a clk w => fst_ok (CompleteApprovedPasswordRecoveryAudited g u hash sh h by_ a clk w)
  | SRemoveFactor user a clk w => DisableUserTOTP named g user a clk w
  | SFactor user sec e gen sh now => UpdateUserTOTP named g user sec e gen sh now
  | SSetup u sec hash h by_ s1 s2 a clk w => CompleteTOTPSetup named g u sec hash h by_ s1 s2 a clk w
  | SDirectory id u stamp => updateLDAPUser named g id u stamp
  | SConfig k v => Ok (on_accounts g (fun a => set_config a (<[k := v]> (ac_config a))))
  | SGov o => if governed o then gtry J proposal g o else Ok g
  | SClean stamp => Ok (DeleteIncompleteUsers named g stamp)
  | SRemove user stamp => DeleteUser named g user stamp
  end.

Definition sstep (g : Gov) (o : sop) : Gov := commit g (stry g o).

(** The operations that add an account or a session, or rotate a digest. *)
Definition adds (o : sop) : bool :=
  match o with SCreate _ | SRotate _ _ _ _ _ _ | SAdd _ _ _ _ _ | SRegister _ _ _ => true | _ => false end.

Lemma put_session_aged g id r r' : sessions g !! id = Some r → row_aged r r' → aged g (put_session g id r').
Proof using.
  intros Hr Ha. split; cbn; [intros i u' Hu; exists u'; split; [done|lia]| |done].
  intros i x Hx. destruct (decide (i = id)) as [->|Hn].
  - rewrite lookup_insert_eq in Hx. injection Hx as <-. by exists r.
  - rewrite lookup_insert_ne in Hx by done. exists x. split; [done|apply row_aged_refl].
Qed.
Lemma on_tokens_aged g f : aged g (on_tokens g f).
Proof using. by apply aaged_same. Qed.
Lemma endOne_aged g id reason by_ now : aged g (endOne g id reason by_ now).1.
Proof using.
  unfold endOne. destruct (sessions g !! id) as [r|] eqn:Hr; [|reflexivity]. case_bool_decide; [|reflexivity].
  eapply put_session_aged; [done|]. by apply row_ended_aged.
Qed.
Lemma EndUserSessions_aged g user e reason by_ now : aged g (EndUserSessions g user e reason by_ now).1.
Proof using.
  split; cbn; [intros i u' Hu; exists u'; split; [done|lia]| |done].
  intros i r'. rewrite map_lookup_imap. destruct (sessions g !! i) as [r|] eqn:Hr; [|done]. cbn. injection 1 as <-.
  exists r. split; [done|]. case_bool_decide as Hl; [apply row_ended_aged; [apply Hl|done|done]|apply row_aged_refl].
Qed.
Lemma delete_rows_aged user a : aaged a (delete_rows user a).
Proof using.
  split; cbn; [intros i u' [_ Hu]%lookup_delete_Some; exists u'; split; [done|lia]| |done].
  intros i r' [Hr _]%map_lookup_filter_Some. exists r'. split; [done|apply row_aged_refl].
Qed.
Lemma delete_user_aged user stamp g : aged g (delete_user user stamp g).
Proof using. unfold delete_user. case_match; apply (on_accounts_aged g), delete_rows_aged. Qed.
Lemma set_password_aged g id u hash t now h by_ : aged g (set_password g id u hash t now h by_).
Proof using.
  unfold set_password. etransitivity; [|apply on_accounts_aged, revoke_aged].
  etransitivity; [apply history_aged|]. apply update_user_aged. intros v. simpl. lia.
Qed.

Lemma fst_ok_inv {A} (r : result (Gov * A)) g' : fst_ok r = Ok g' → ∃ a, r = Ok (g', a).
Proof using. destruct r as [[g a]|]; simpl; [|done]. injection 1 as <-. by exists a. Qed.
Lemma write_inv {A} g actor clk w (fn : Gov → Time → result (Gov * A)) r : accountManagementWrite g actor clk w fn = Ok r →
  guardAccountManagementActor g actor (clk 0%nat) = Ok tt ∧ fn g (clk 1%nat) = Ok r ∧ w = true ∧
  guardAccountManagementActor r.1 actor (clk 2%nat) = Ok tt.
Proof using.
  unfold accountManagementWrite. destruct (guardAccountManagementActor g actor (clk 0%nat)) as [[]|]; [|done].
  destruct (fn g (clk 1%nat)) as [x|]; [|done]. destruct w; [|done]. cbn [negb].
  destruct (guardAccountManagementActor x.1 actor (clk 2%nat)) as [[]|] eqn:E; [|done]. injection 1 as <-. by rewrite E.
Qed.
(** A management write ages the state when its body does. *)
Lemma write_aged {A} g actor clk w (fn : Gov → Time → result (Gov * A)) g' :
  (∀ now x, fn g now = Ok x → aged g x.1) → fst_ok (accountManagementWrite g actor clk w fn) = Ok g' → aged g g'.
Proof using.
  intros Hfn [a H]%fst_ok_inv. apply write_inv in H as (_ & H & _). by apply Hfn in H.
Qed.
Lemma changeLocalPasswordConn_aged g u hash now h t by_ g' : changeLocalPasswordConn named g u hash now h t by_ = Ok g' → aged g g'.
Proof using. unfold changeLocalPasswordConn. intros H. guards_in H. simplify_eq. apply set_password_aged. Qed.
Lemma completeConn_aged g u hash sh now h by_ g' : completeApprovedPasswordRecoveryConn g u hash sh now h by_ = Ok g' → aged g g'.
Proof using.
  unfold completeApprovedPasswordRecoveryConn. intros H. heads_in H. simplify_eq.
  etransitivity; [|apply on_accounts_aged, revoke_aged]. etransitivity; [|apply history_aged]. etransitivity; [|apply on_tokens_aged].
  etransitivity; [|apply on_accounts_aged; intros x; repeat case_match; by apply aaged_same].
  apply update_user_aged. intros v. simpl. lia.
Qed.
Lemma updateUserTOTPConn_aged g user sec e gen now g' : updateUserTOTPConn g user sec e gen now = Ok g' → aged g g'.
Proof using.
  unfold updateUserTOTPConn. intros H. head_in H. head_in H.
  match type of H with match ?x with _ => _ end = _ => destruct x as [g1|] eqn:E1; [|discriminate H] end.
  assert (H1 : aged g g1).
  { match type of E1 with (if ?b then _ else _) = _ => destruct b end; [by eapply removeUserTOTPConn_aged|injection E1 as <-; reflexivity]. }
  clear E1.
  etransitivity; [exact H1|].
  match type of H with context [update_user ?a ?f ?t ?x] =>
    assert (H2 : aged x (update_user a f t x)) by (apply update_user_aged; intros v; simpl; lia); set (g2 := update_user a f t x) in * end.
  etransitivity; [exact H2|]. clearbody g2. clear Heqb. destruct e; simplify_eq; [|reflexivity]. case_match.
  - etransitivity; [|apply on_accounts_aged; intros a; apply bump_user_aged; lia]. by apply aaged_same.
  - by apply aaged_same.
Qed.

Lemma CompleteTOTPSetup_aged g u sec hash h by_ s1 s2 a clk w g' :
  CompleteTOTPSetup named g u sec hash h by_ s1 s2 a clk w = Ok g' → aged g g'.
Proof using.
  unfold CompleteTOTPSetup. intros H. do 7 head_in H.
  match type of H with match ?x with _ => _ end = _ => destruct x as [[g1 deadline]|] eqn:E1; [|discriminate H] end.
  assert (H1 : aged g g1).
  { guards_in E1; simplify_eq; try reflexivity; eauto using completeConn_aged, changeLocalPasswordConn_aged. }
  cbn [fst snd] in H. destruct (updateUserTOTPConn _ _ _ _ _ _) as [g2|] eqn:E2 in H; [|discriminate H].
  apply updateUserTOTPConn_aged in E2. heads_in H. simplify_eq.
  etransitivity; [exact H1|]. etransitivity; [exact E2|]. by apply aaged_same.
Qed.

Ltac management H := revert H; apply write_aged; intros ? ? H; cbv zeta in H; heads_in H; simplify_eq; cbn.

Lemma DisableUserAudited_aged g user by_ a clk w g' : fst_ok (DisableUserAudited g user by_ a clk w) = Ok g' → aged g g'.
Proof using.
  apply write_aged. intros now x H. cbv zeta in H. destruct (users g !! user) as [u|]; [|discriminate H].
  match type of H with match ?x with _ => _ end = _ => destruct x as [[g1 n]|] eqn:E1; [|discriminate H] end.
  cbn [fst snd] in H. destruct (EndUserSessions g1 user None "revoked_disable" (Some by_) now) as [g2 ids] eqn:E2. simplify_eq. cbn.
  change g2 with (g2, ids).1. rewrite <- E2. etransitivity; [|apply EndUserSessions_aged].
  guards_in E1; simplify_eq; [|reflexivity]. etransitivity; [|apply on_tokens_aged]. apply update_user_aged. intros v. simpl. lia.
Qed.

(** An operation that adds nothing ages the state. *)
Lemma stry_aged g o g' : adds o = false → stry g o = Ok g' → aged g g'.
Proof using.
  intros Ho H. destruct o; try discriminate Ho; unfold stry in H.
  all: try (injection H as <-).
  all: try solve [management H; try apply update_user_aged; try reflexivity; intros v; simpl; lia].
  all: try solve [apply on_tokens_aged].
  - unfold RecordLoginFailure. case_match; [|reflexivity]. case_match. apply update_user_aged. done.
  - unfold RecordLoginSuccess. case_match; [|reflexivity]. by apply update_user_aged.
  - unfold TouchSession. case_match; [|reflexivity]. case_match; [|reflexivity]. eapply put_session_aged; [done|]. by repeat split.
  - apply endOne_aged.
  - apply (EndUserSessions_aged g user exceptID reason by_ now).
  - split; cbn; [intros i u' Hu; exists u'; split; [done|lia]| |done].
    intros i r' [Hr _]%map_lookup_filter_Some. exists r'. split; [done|apply row_aged_refl].
  - unfold RevokeAPIToken. repeat case_match; try reflexivity. apply on_tokens_aged.
  - unfold CreateAPIToken in H. heads_in H. simplify_eq. apply on_tokens_aged.
  - unfold TouchUserActivity. repeat case_match; try reflexivity; by apply update_user_aged.
  - apply update_user_aged. intros u. simpl. lia.
  - by eapply DisableUserAudited_aged.
  - management H. case_match; [by apply update_user_aged|reflexivity].
  - management H. apply delete_user_aged.
  - management H. apply set_password_aged.
  - apply fst_ok_inv in H as [x H]. unfold ChangeLocalPassword in H. heads_in H. simplify_eq. by eapply changeLocalPasswordConn_aged.
  - apply fst_ok_inv in H as [x H]. unfold CompleteApprovedPasswordRecoveryAudited in H. heads_in H. simplify_eq. by eapply completeConn_aged.
  - unfold DisableUserTOTP in H. do 2 head_in H.
    match type of H with match ?r with _ => _ end = _ => destruct r as [[g1 []]|] eqn:E; [|discriminate H] end. simplify_eq.
    apply write_inv in E as (_ & E & _). heads_in E. simplify_eq. by eapply removeUserTOTPConn_aged.
  - unfold UpdateUserTOTP in H. head_in H. by eapply updateUserTOTPConn_aged.
  - by eapply CompleteTOTPSetup_aged.
  - unfold updateLDAPUser in H. do 2 head_in H. simplify_eq. by apply update_user_aged.
  - by apply aaged_same.
  - case_match; [by eapply gtry_aged|by simplify_eq].
  - unfold DeleteIncompleteUsers. generalize ((filter (fun kv : string * User => u_TOTPEnabled kv.2 = false) (map_to_list (users g))).*1).
    intros l. revert g. induction l as [|id l IH]; intros g; [reflexivity|]. cbn. etransitivity; [|apply IH].
    case_match; [apply delete_user_aged|reflexivity].
  - unfold DeleteUser in H. do 2 head_in H. simplify_eq. apply delete_user_aged.
Qed.

(** ** Refresh digests *)

Definition srun (g : Gov) (os : list sop) : Gov := foldl sstep g os.

(** The digest [d] of the session is of no use: the session is over or has another. *)
Definition spent (sid d : string) (g : Gov) : Prop :=
  ∀ r, sessions g !! sid = Some r → sn_ended r ≠ None ∨ (sn_refresh r ≠ "" ∧ sn_refresh r ≠ d).

(** The operation creates the session (again) or makes [d] its digest. *)
Definition renews (sid d : string) (o : sop) : bool :=
  match o with
  | SCreate s => bool_decide (s_ID s = sid)
  | SRotate _ id _ next _ _ => bool_decide (id = sid) && bool_decide (next = d)
  | _ => false
  end.

Lemma ValidHash_nonempty h : ValidHash h = true → h ≠ "".
Proof using. by intros H ->. Qed.

Lemma rotate_inv g user sid prev next now p g' : RotateSessionRefresh g user sid prev next now p = Ok g' →
  ValidHash next = true ∧ (prev ≠ "" → prev ≠ next) ∧
  ∃ r live seen, sessions g !! sid = Some r ∧ users g !! u_ID user = Some live ∧ rotation_session r (u_ID user) prev now p = true ∧
    rotation_user live user = true ∧ g' = put_session g sid (session_refresh (session_seen r seen) next).
Proof using.
  unfold RotateSessionRefresh. intros H. heads_in H. simplify_eq. bool_hyps. split; [done|]. split; [|do 3 eexists; by split_and!].
  intros Hp ->. by rewrite bool_decide_eq_false_2, bool_decide_eq_true_2, orb_true_r in * by done.
Qed.

Lemma insert_user_sessions g u stamp taken g' : insert_user g u stamp taken = Ok g' → sessions g' = sessions g.
Proof using. unfold insert_user. intros H. head_in H. simplify_eq. cbn. unfold application_changed. by case_match. Qed.

Lemma aged_spent sid d g g' : aged g g' → spent sid d g → spent sid d g'.
Proof using.
  intros A Hs r' Hr'. destruct (ag_sessions _ _ A _ _ Hr') as (r & Hr & _ & He & Hk).
  destruct (Hs _ Hr) as [?|[? ?]]; [left; by rewrite He|]. destruct (decide (sn_ended r' = None)) as [E|]; [|by left].
  right. by rewrite Hk.
Qed.

Lemma stry_spent sid d g o g' : renews sid d o = false → stry g o = Ok g' → spent sid d g → spent sid d g'.
Proof using.
  intros Hn H Hs. destruct (adds o) eqn:Ho; [|eapply aged_spent; [by eapply stry_aged|done]].
  destruct o; try discriminate Ho; simpl in H, Hn.
  - unfold CreateSession in H. head_in H. simplify_eq. apply bool_decide_eq_false in Hn.
    intros r Hr. cbn in Hr. rewrite lookup_insert_ne in Hr by done. by apply Hs.
  - apply rotate_inv in H as (Hv & _ & r & live & seen & Hr & _ & _ & _ & ->). intros x Hx. cbn in Hx.
    destruct (decide (id = sid)) as [->|Hne]; [|rewrite lookup_insert_ne in Hx by done; by apply Hs].
    rewrite lookup_insert_eq in Hx. injection Hx as <-. cbn. rewrite bool_decide_eq_true_2 in Hn by done. right.
    split; [by apply ValidHash_nonempty|]. by apply bool_decide_eq_false in Hn.
  - apply fst_ok_inv in H as [x H]. apply write_inv in H as (_ & H & _). heads_in H. simplify_eq.
    intros r. erewrite insert_user_sessions by done. apply Hs.
  - intros r. erewrite insert_user_sessions by done. apply Hs.
Qed.

Lemma srun_spent sid d os : ∀ g, (∀ o, o ∈ os → renews sid d o = false) → spent sid d g → spent sid d (srun g os).
Proof using.
  induction os as [|o os IH]; intros g Hn Hs; [done|]. cbn. apply IH; [intros; apply Hn; by right|].
  unfold sstep. destruct (stry g o) as [g'|] eqn:E; [|done]. cbn. eapply stry_spent; [|done..]. apply Hn. by left.
Qed.

Lemma spent_rejected sid d user next now p g : spent sid d g → RotateSessionRefresh g user sid d next now p = Err ErrSessionRefreshRejected.
Proof using.
  intros Hs. destruct (RotateSessionRefresh g user sid d next now p) as [g'|e] eqn:E.
  - apply rotate_inv in E as (_ & _ & r & live & seen & Hr & _ & Hg & _). unfold rotation_session in Hg. bool_hyps.
    destruct (Hs _ Hr) as [?|[? ?]]; [done|]. by rewrite !bool_decide_eq_false_2 in H0 by done.
  - unfold RotateSessionRefresh in E. repeat case_match; congruence.
Qed.

(** C28. A refresh token is good for one rotation: once a session's digest has
    been replaced, no sequence of operations of the store, sign-ins, sign-outs,
    account and governance changes makes the replaced digest, or the empty one of
    a new session, acceptable for that session again, unless a rotation installs
    that very digest anew. *)
Theorem refresh_spent_once g user sid prev next now p g1 os user' next' now' p' :
  RotateSessionRefresh g user sid prev next now p = Ok g1 →
  (∀ o, o ∈ os → renews sid prev o = false) →
  RotateSessionRefresh (srun g1 os) user' sid prev next' now' p' = Err ErrSessionRefreshRejected.
Proof using.
  intros H Hos. apply spent_rejected, srun_spent; [done|].
  apply rotate_inv in H as (Hv & Hne & r & live & seen & _ & _ & _ & _ & ->). intros x Hx. cbn in Hx.
  rewrite lookup_insert_eq in Hx. injection Hx as <-. cbn. right. apply ValidHash_nonempty in Hv. split; [done|].
  destruct (decide (prev = "")) as [->|]; [done|]. intros E. by apply Hne.
Qed.

(** ** The rotation's guard *)

Lemma truncSecond_lt t e : (Second | e) → (truncSecond t < e ↔ t < e).
Proof using.
  intros [k ->]. unfold truncSecond. change Second with 1000000000. pose proof (Z.div_mod t 1000000000). pose proof (Z.mod_pos_bound t 1000000000). nia.
Qed.
Lemma truncSecond_sub t d : (Second | d) → truncSecond (t - d) = truncSecond t - d.
Proof using.
  intros [k ->]. unfold truncSecond. change Second with 1000000000.
  replace (t - k * 1000000000) with (t + (- k) * 1000000000) by lia. rewrite Z.div_add by lia. lia.
Qed.

(** The guard of the rotation is the verdict on the session: in whole
    seconds, the UPDATE applies to a session exactly when the row belongs to the
    account, carries the digest presented or none, and [session.Evaluate] finds
    it live under the same policy. *)
Theorem rotation_guard_is_verdict id r user prev now p :
  sn_expires r ≠ Some None → sn_ended r ≠ Some None →
  (Second | IdleTimeout (sn_kind r) p) → IdleTimeout (sn_kind r) p < int64_max →
  rotation_session r user prev now p =
    bool_decide (sn_user r = user) && (bool_decide (sn_refresh r = prev) || bool_decide (sn_refresh r = ""))
    && bool_decide (Session.Evaluate (StateFromModel (scanSession id r)) (truncSecond now) p = VerdictOK).
Proof using.
  intros Hex Hen Hd Hmax. unfold rotation_session, Session.Evaluate. cbv zeta. cbn [st_Kind st_EndedAt st_ExpiresAt st_LastSeenAt StateFromModel
    scanSession s_Kind s_EndedAt s_ExpiresAt s_LastSeenAt].
  set (idle := IdleTimeout (sn_kind r) p) in *. rewrite truncSecond_sub by done.
  destruct (sn_ended r) as [[e|]|]; [|done|]; cbn.
  { rewrite andb_false_r. cbn. by rewrite andb_false_r. }
  assert (Hi : (0 <? idle) && (idle <? time_sub (truncSecond now) (sn_lastSeen r)) =
               negb ((idle <=? 0) || (truncSecond now - idle <=? sn_lastSeen r))).
  { destruct (Z.leb_spec idle 0); [replace (0 <? idle) with false by lia; done|]. replace (0 <? idle) with true by lia. cbn.
    rewrite time_sub_gt by (unfold int64_min, int64_max in *; lia). cbn. destruct (Z.leb_spec (truncSecond now - idle) (sn_lastSeen r)); cbn; lia. }
  rewrite Hi. unfold Before.
  destruct (bool_decide (sn_user r = user)), (sn_expires r) as [[x|]|]; cbn; try done; try destruct (truncSecond now <? x);
    destruct ((idle <=? 0) || (truncSecond now - idle <=? sn_lastSeen r)); cbn; try done; by rewrite ?andb_true_r, ?andb_false_r.
Qed.
(** ** Revocation *)

(** Nothing the account holds works any more: its sessions are over and its API
    tokens revoked. *)
Definition sessions_over (g : Gov) (user : string) : Prop := ∀ id r, sessions g !! id = Some r → sn_user r = user → sn_ended r ≠ None.
Definition tokens_revoked (g : Gov) (user : string) : Prop := ∀ id t, tokens g !! id = Some t → tk_user t = user → tk_revoked t ≠ None.
Definition powerless (g : Gov) (user : string) : Prop := sessions_over g user ∧ tokens_revoked g user.
Definition generation (g : Gov) (user : string) : option Z := u_TokenGeneration <$> users g !! user.

(** What an UPDATE of users leaves alone. *)
Lemma application_changed_tables user stamp a : ac_sessions (application_changed user stamp a) = ac_sessions a ∧
  ac_tokens (application_changed user stamp a) = ac_tokens a ∧ ac_users (application_changed user stamp a) = ac_users a.
Proof using. unfold application_changed. by case_match. Qed.
Lemma bump_user_tables user n m stamp a u : ac_users a !! user = Some u →
  ac_sessions (bump_user user n m stamp a) = ac_sessions a ∧ ac_tokens (bump_user user n m stamp a) = ac_tokens a ∧
  ac_users (bump_user user n m stamp a) !! user = Some (user_generations u (u_TokenGeneration u + n) (u_SecurityRevision u + m)).
Proof using.
  intros Hu. unfold bump_user. rewrite Hu. case_match; [cbn; by rewrite lookup_insert_eq|].
  destruct (application_changed_tables user stamp (set_users a (<[user := user_generations u (u_TokenGeneration u + n) (u_SecurityRevision u + m)]> (ac_users a))))
    as (-> & -> & ->). cbn. by rewrite lookup_insert_eq.
Qed.
Lemma update_user_tables user f stamp g u : users g !! user = Some u →
  sessions (update_user user f stamp g) = sessions g ∧ tokens (update_user user f stamp g) = tokens g ∧
  ∃ n, users (update_user user f stamp g) !! user = Some (user_generations (f u) (u_TokenGeneration (f u)) n).
Proof using.
  intros Hu. unfold update_user. rewrite Hu. cbv zeta.
  set (g1 := on_accounts g _). set (g2 := if bool_decide (application_columns u = application_columns (f u)) then g1 else _).
  assert (H2 : sessions g2 = sessions g ∧ tokens g2 = tokens g ∧ users g2 !! user = Some (f u)).
  { assert (users g1 !! user = Some (f u)) by (cbn; by rewrite lookup_insert_eq). unfold g2. case_match; [done|]. cbn.
    match goal with |- context [application_changed ?a ?b ?c] => destruct (application_changed_tables a b c) as (-> & -> & ->) end. done. }
  clearbody g2. set (g3 := if bool_decide (u_Role u = u_Role (f u)) then g2 else _).
  assert (H3 : sessions g3 = sessions g ∧ tokens g3 = tokens g ∧ users g3 !! user = Some (f u)).
  { unfold g3. case_match; [done|]. cbn. unfold replace_legacy_role.
    match goal with |- context [application_changed ?a ?b ?c] => destruct (application_changed_tables a b c) as (-> & -> & ->) end. done. }
  clearbody g3. destruct H3 as (E1 & E2 & E3). case_match.
  - split_and!; try done. exists (u_SecurityRevision (f u)). rewrite E3. by destruct (f u).
  - destruct (bump_user_tables user 0 1 stamp _ _ E3) as (F1 & F2 & F3).
    unfold authority_changed. cbn. rewrite F1, F2, F3, E1, E2, Z.add_0_r. split_and!; try done. by eexists.
Qed.

Lemma revoked_powerless user actor now reason g : powerless (on_accounts g (revokeCredentialAuthorityConn user actor now reason)) user.
Proof using.
  split; unfold sessions_over, tokens_revoked; cbn; unfold end_sessions, revoke_tokens; intros id x; rewrite lookup_fmap; (destruct (_ !! id); [|done]); cbn; injection 1 as <-;
    match goal with |- context [if ?b then _ else _] => destruct b eqn:C end; cbn; try done; intros E N;
    by rewrite !bool_decide_eq_true_2 in C by done.
Qed.
Lemma set_password_revokes g id u v hash t now h by_ : users g !! id = Some v →
  powerless (set_password g id u hash t now h by_) id ∧
  generation (set_password g id u hash t now h by_) id = Some (u_TokenGeneration v + 1).
Proof using.
  intros Hu. split; [apply revoked_powerless|]. unfold set_password, generation. cbn.
  match goal with |- context [update_user id ?f now ?g1] =>
    destruct (update_user_tables id f now g1 v Hu) as (_ & _ & n & E) end. by rewrite E.
Qed.
Lemma completeConn_revokes g u hash sh now h by_ g' v : users g !! u_ID u = Some v →
  completeApprovedPasswordRecoveryConn g u hash sh now h by_ = Ok g' →
  powerless g' (u_ID u) ∧ generation g' (u_ID u) = Some (u_TokenGeneration v + 1).
Proof using.
  intros Hu H. unfold completeApprovedPasswordRecoveryConn in H. rewrite Hu in H. heads_in H. simplify_eq.
  split; [apply revoked_powerless|]. unfold generation. cbn.
  match goal with |- context [update_user (u_ID u) ?f now g] =>
    destruct (update_user_tables (u_ID u) f now g v Hu) as (_ & _ & n & E); set (g1 := update_user (u_ID u) f now g) in * end.
  clearbody g1. rewrite E. destruct (ac_mfaRecoveries (gv_accounts g1) !! u_ID u) as [[request gen]|]; [case_match|]; cbn; by rewrite E.
Qed.
Lemma removeUserTOTPConn_revokes user actor now g g' u : users g !! user = Some u → removeUserTOTPConn user actor now g = Ok g' →
  powerless g' user ∧ generation g' user = Some (u_TokenGeneration u + 1).
Proof using.
  intros Hu H. unfold removeUserTOTPConn in H. head_in H. simplify_eq. split; [apply (revoked_powerless user)|]. unfold generation. cbn.
  match goal with |- context [update_user user ?f now g] => destruct (update_user_tables user f now g u Hu) as (_ & _ & n & E) end. by rewrite E.
Qed.

(** The account whose credentials the operation replaces or takes away in [g],
    and whether it ends the session rows itself. *)
Definition revokes (g : Gov) (o : sop) : option (string * bool) :=
  match o with
  | SDisable user _ _ _ _ => u ← users g !! user; if bool_decide (u_DisabledAt u = None) then Some (user, true) else None
  | SReset user _ _ _ _ _ _ _ _ | SRemoveFactor user _ _ _ => Some (user, true)
  | SChange u _ _ _ _ _ _ _ | SRecover u _ _ _ _ _ _ _ => Some (u_ID u, true)
  | SFactor user secret enabled _ _ _ =>
      u ← users g !! user;
      if u_TOTPEnabled u && negb (enabled && bool_decide (secret = u_TOTPSecret u)) then Some (user, true) else None
  | SSetup u _ _ _ _ _ _ _ _ _ => live ← users g !! u_ID u; if u_MustChangePassword live then Some (u_ID u, true) else None
  | SGov (OActivate c p _ _ _) =>
      if (pl_active (gv_policy g) =? next_version (c_ExpectedVersion c)) || negb (bool_decide (cp_Kind p = "recovery")) then None
      else r ← cp_Recovery p;
           if bool_decide (rv_Operation r = "mfa-reset") then Some (rv_UserID r, true)
           else if bool_decide (rv_Operation r = "password-reset") then Some (rv_UserID r, false) else None
  | _ => None
  end.
(** Afterwards the generation of the account's tokens is past [n]. *)
Definition revoked_past (g : Gov) (user : string) (ends : bool) (n : Z) : Prop :=
  (ends = true → sessions_over g user) ∧ tokens_revoked g user ∧ ∃ n', generation g user = Some n' ∧ n < n'.
Lemma revoked_past_next g user n : powerless g user ∧ generation g user = Some (n + 1) → revoked_past g user true n.
Proof using. intros [[? ?] ?]. split_and!; try done. exists (n + 1). split; [done|lia]. Qed.

Lemma EndUserSessions_ends g user reason by_ now id r :
  sessions (EndUserSessions g user None reason by_ now).1 !! id = Some r → sn_user r = user → sn_ended r ≠ None.
Proof using.
  cbn. rewrite map_lookup_imap. destruct (sessions g !! id) as [x|]; [|done]. cbn. injection 1 as <-.
  case_bool_decide as E; [done|]. intros Hu Hn. destruct E. by split_and!.
Qed.
Lemma disable_revokes g user by_ a clk w g' u : users g !! user = Some u → u_DisabledAt u = None →
  fst_ok (DisableUserAudited g user by_ a clk w) = Ok g' → powerless g' user ∧ generation g' user = Some (u_TokenGeneration u + 1).
Proof using.
  intros Hu Hd [x H]%fst_ok_inv. apply write_inv in H as (_ & H & _). cbv zeta in H. rewrite Hu, bool_decide_eq_true_2 in H by done.
  match type of H with match (if ?b then _ else _) with _ => _ end = _ => destruct b; [discriminate H|] end.
  cbn [fst snd] in H. unfold disable_account in H. cbn [fst snd] in H.
  match type of H with context [update_user user ?f ?t g] =>
    destruct (update_user_tables user f t g u Hu) as (E1 & E2 & n & E3); set (g1 := update_user user f t g) in * end.
  match type of H with (let '(_, _) := ?e in _) = _ => destruct e as [g2 ids] eqn:E end. simplify_eq.
  assert (Eg : g' = (g', ids).1) by done. rewrite <- E in Eg. split; [split|].
  - intros id r. rewrite Eg. apply EndUserSessions_ends.
  - intros id t. rewrite Eg. cbn. unfold revoke_tokens. rewrite lookup_fmap. destruct (tokens g1 !! id) as [y|]; [|done]. cbn.
    injection 1 as <-. match goal with |- context [if ?b then _ else _] => destruct b eqn:C end; cbn; [done|].
    intros Ht N. by rewrite !bool_decide_eq_true_2 in C by done.
  - rewrite Eg. unfold generation. cbn. by rewrite E3.
Qed.

(** Setting a second factor restores nothing. *)
Lemma factor_written g user secret enabled now g' v n : users g !! user = Some v → n ≤ u_TokenGeneration v → powerless g user →
  (let g2 := update_user user (fun u => user_totp u secret enabled now) now g in
   if enabled then
     let recovered := bool_decide (is_Some (ac_mfaRecoveries (gv_accounts g2) !! user)) in
     let g3 := on_accounts g2 (fun a => set_mfaRecoveries a (delete user (ac_mfaRecoveries a))) in
     Ok (if recovered then on_accounts g3 (bump_user user 1 0 now) else g3)
   else Ok g2) = Ok g' →
  powerless g' user ∧ ∃ n', generation g' user = Some n' ∧ n ≤ n'.
Proof using.
  intros Hv Hn [Hs Ht] H. cbv zeta in H.
  destruct (update_user_tables user (fun u => user_totp u secret enabled now) now g v Hv) as (E1 & E2 & k & E3).
  set (g2 := update_user user _ now g) in *. clearbody g2.
  assert (Hp2 : powerless g2 user) by (by unfold powerless, sessions_over, tokens_revoked; rewrite E1, E2).
  destruct enabled; simplify_eq; [|split; [done|]; unfold generation; rewrite E3; eexists; by split; [reflexivity|]].
  set (g3 := on_accounts g2 _). assert (Hp3 : powerless g3 user) by exact Hp2. change (users g2) with (users g3) in E3. clearbody g3.
  case_match; [|split; [done|]; unfold generation; rewrite E3; eexists; by split; [reflexivity|]].
  destruct (bump_user_tables user 1 0 now (gv_accounts g3) _ E3) as (F1 & F2 & F3).
  unfold powerless, sessions_over, tokens_revoked, generation. cbn. rewrite F1, F2, F3.
  split; [exact Hp3|]. eexists. split; [reflexivity|]. cbn. lia.
Qed.
Lemma updateUserTOTPConn_keeps g user secret now g' u n : users g !! user = Some u → n ≤ u_TokenGeneration u →
  updateUserTOTPConn g user secret true None now = Ok g' → powerless g user →
  powerless g' user ∧ ∃ n', generation g' user = Some n' ∧ n ≤ n'.
Proof using.
  intros Hu Hn H Hp. unfold updateUserTOTPConn in H. rewrite Hu in H.
  match type of H with (match ?e with _ => _ end) = _ => destruct e as [g1|] eqn:E1; [|discriminate H] end.
  assert (H1 : powerless g1 user ∧ ∃ v, users g1 !! user = Some v ∧ n ≤ u_TokenGeneration v).
  { clear H. match type of E1 with (if ?b then _ else _) = _ => destruct b end; [|simplify_eq; eauto]. destruct (removeUserTOTPConn_revokes _ _ _ _ _ _ Hu E1) as [Hp1 G1]. split; [done|].
    apply fmap_Some in G1 as (v & Hv & E). exists v. split; [done|lia]. }
  destruct H1 as (Hp1 & v & Hv & Hn1). exact (factor_written g1 user secret true now g' v n Hv Hn1 Hp1 H).
Qed.
Lemma updateUserTOTPConn_removes g user secret enabled sg now g' u : users g !! user = Some u → u_TOTPEnabled u = true →
  enabled && bool_decide (secret = u_TOTPSecret u) = false → updateUserTOTPConn g user secret enabled sg now = Ok g' →
  revoked_past g' user true (u_TokenGeneration u).
Proof using.
  intros Hu He Hs H. unfold updateUserTOTPConn in H. rewrite Hu in H. head_in H.
  match type of H with (match (if ?b then _ else _) with _ => _ end) = _ => replace b with true in H end.
  2:{ rewrite He. destruct enabled; [|by destruct (bool_decide (secret = None))]. cbn in *. rewrite Hs. by destruct (bool_decide (secret = None)). }
  destruct (removeUserTOTPConn user None now g) as [g1|] eqn:E1; [|discriminate H].
  destruct (removeUserTOTPConn_revokes _ _ _ _ _ _ Hu E1) as [Hp1 G1]. apply fmap_Some in G1 as (v & Hv & Ev).
  eapply (factor_written _ _ _ _ _ _ v (u_TokenGeneration u + 1)) in H as [[? ?] (n' & ? & ?)]; [|done|lia|done].
  split_and!; try done. exists n'. split; [done|lia].
Qed.

(** Evaluate the comparisons of constant texts. *)
Ltac texts_in H :=
  repeat match type of H with context [bool_decide (?x = ?y :> string)] =>
    let v := eval vm_compute in (bool_decide (x = y)) in
    lazymatch v with true => idtac | false => idtac end; change (bool_decide (x = y)) with v in H end; cbn in H.

(** The two governed recoveries. *)
Lemma applyRecovery_revokes id applier p r stamp g g' u (ends : bool) : users g !! rv_UserID r = Some u →
  rv_Operation r = (if ends then "mfa-reset" else "password-reset") → applyRecovery id applier p r stamp g = Ok g' →
  revoked_past g' (rv_UserID r) ends (u_TokenGeneration u).
Proof using.
  intros Hu Hop H. unfold applyRecovery in H. rewrite Hop in H. destruct ends; texts_in H.
  - destruct (removeUserTOTPConn _ _ _ _) as [g1|] eqn:E1 in H; [|discriminate H].
    destruct (removeUserTOTPConn_revokes _ _ _ _ _ _ Hu E1) as [Hp1 G1]. apply revoked_past_next. by case_match; simplify_eq.
  - destruct (resetPassword _ _ _ _) as [g1|] eqn:E1 in H; [|discriminate H].
    assert (Hg : ∃ v, users g1 !! rv_UserID r = Some v ∧ u_TokenGeneration v = u_TokenGeneration u).
    { unfold resetPassword in E1. rewrite Hu in E1. heads_in E1. simplify_eq.
      match goal with |- context [update_user ?w ?f ?t ?x] => destruct (update_user_tables w f t x u Hu) as (_ & _ & k & E) end.
      eexists. by split; [exact E|]. }
    destruct Hg as (v & Hv & Ev). assert (Hv2 : ac_users (carryRecovery (rv_UserID r) (gv_accounts g1)) !! rv_UserID r = Some v).
    { clear H. unfold carryRecovery. rewrite Hv. destruct (ac_mfaRecoveries _ !! _) as [[]|]; [case_match|]; exact Hv. }
    destruct (bump_user_tables (rv_UserID r) 1 0 stamp _ _ Hv2) as (F1 & F2 & F3). head_in H. simplify_eq. split_and!; [done| |].
    + intros i t. cbn. unfold revoke_tokens. rewrite lookup_fmap. destruct (_ !! i); [|done]. cbn. injection 1 as <-.
      match goal with |- context [if ?b then _ else _] => destruct b eqn:C end; cbn; [done|]. intros Ht N.
      by rewrite !bool_decide_eq_true_2 in C by done.
    + unfold generation. cbn. rewrite F3. eexists. split; [reflexivity|]. cbn. lia.
Qed.

Lemma CompleteTOTPSetup_revokes g s sec hash h by_ s1 s2 a clk w g' u : users g !! u_ID s = Some u → u_MustChangePassword u = true →
  CompleteTOTPSetup named g s sec hash h by_ s1 s2 a clk w = Ok g' → revoked_past g' (u_ID s) true (u_TokenGeneration u).
Proof using.
  intros Hu Hm H. unfold CompleteTOTPSetup, GetUserByID in H. rewrite Hu in H. cbn [fmap option_fmap option_map found scanUser] in H.
  do 6 head_in H. match type of H with (match ?e with _ => _ end) = _ => destruct e as [[g1 re]|] eqn:E1; [|discriminate H] end.
  assert (H1 : powerless g1 (u_ID s) ∧ generation g1 (u_ID s) = Some (u_TokenGeneration u + 1)).
  { clear H. rewrite Hm in E1. heads_in E1; simplify_eq.
    - match goal with E : changeLocalPasswordConn _ _ _ _ _ _ _ _ = Ok _ |- _ => unfold changeLocalPasswordConn in E; heads_in E; simplify_eq end.
      by apply set_password_revokes.
    - by apply (completeConn_revokes g (scanUser (u_ID s, u)) hash s1 (clk 1%nat) h by_ g1 u Hu). }
  destruct H1 as [Hp1 (v & Hv & Ev)%fmap_Some]. heads_in H. simplify_eq.
  match goal with E : updateUserTOTPConn _ _ _ _ _ _ = Ok _ |- _ =>
    eapply (updateUserTOTPConn_keeps _ _ _ _ _ v (u_TokenGeneration u + 1)) in E as [[? ?] (n' & ? & ?)]; [|done|lia|done] end.
  split_and!; try done. exists n'. split; [done|lia].
Qed.
Lemma activate_revokes g c p r clk qclk stamp g' u (ends : bool) : activateSecurityChange J proposal g c p clk qclk stamp = Ok g' →
  (pl_active (gv_policy g) =? next_version (c_ExpectedVersion c)) = false → cp_Kind p = "recovery" → cp_Recovery p = Some r →
  users g !! rv_UserID r = Some u → rv_Operation r = (if ends then "mfa-reset" else "password-reset") →
  revoked_past g' (rv_UserID r) ends (u_TokenGeneration u).
Proof using.
  intros H Hn Hk Hr Hu Hop. unfold activateSecurityChange in H. rewrite Hn in H.
  destruct (applySecurityPayload g c p stamp) as [g1|e] eqn:E; [|guards_in H].
  assert (E' : gv_accounts g' = gv_accounts g1) by (clear E; heads_in H; simplify_eq; by repeat case_match).
  unfold applySecurityPayload in E. rewrite Hk, Hr in E. texts_in E.
  eapply applyRecovery_revokes in E; [|done..]. by unfold revoked_past, sessions_over, tokens_revoked, generation; rewrite E'.
Qed.

(** C29. Revocation is complete.  Take any of these, committed: an enabled account
    is disabled; a password is reset by an administrator, changed, recovered, or
    replaced while a second factor is set up; a second factor is removed by an
    administrator or by its owner, or replaced; a password or a second factor is
    reset by an approved change.  Then in the one transaction that made the
    change every API token of the account has been revoked and its token
    generation advanced, which refuses every token signed before, and every
    session row it had is ended, but for the password reset of an approved
    change, which leaves the rows to the generation. *)
Theorem revocation_complete g o g' user ends u : revokes g o = Some (user, ends) → users g !! user = Some u →
  stry g o = Ok g' → revoked_past g' user ends (u_TokenGeneration u).
Proof using.
  intros Ho Hu H. destruct o; try discriminate Ho; unfold stry in H; cbn -[generation] in Ho.
  - destruct (users g !! user0) as [v|] eqn:Hv; [|discriminate Ho]. cbn in Ho. case_bool_decide; simplify_eq.
    apply revoked_past_next. by eapply disable_revokes.
  - simplify_eq. apply revoked_past_next.
    apply fst_ok_inv in H as [x H]. apply write_inv in H as (_ & H & _). rewrite Hu in H. heads_in H. simplify_eq. by apply set_password_revokes.
  - simplify_eq. apply revoked_past_next. apply fst_ok_inv in H as [x H]. unfold ChangeLocalPassword in H. heads_in H. simplify_eq.
    match goal with E : changeLocalPasswordConn _ _ _ _ _ _ _ _ = Ok _ |- _ => unfold changeLocalPasswordConn in E; heads_in E; simplify_eq end.
    by apply set_password_revokes.
  - simplify_eq. apply revoked_past_next.
    apply fst_ok_inv in H as [x H]. unfold CompleteApprovedPasswordRecoveryAudited in H. heads_in H. simplify_eq. by eapply completeConn_revokes.
  - simplify_eq. apply revoked_past_next. unfold DisableUserTOTP in H. do 2 head_in H.
    match type of H with match ?r with _ => _ end = _ => destruct r as [[g1 []]|] eqn:E; [|discriminate H] end. simplify_eq.
    apply write_inv in E as (_ & E & _). heads_in E. simplify_eq. by eapply removeUserTOTPConn_revokes.
  - destruct (users g !! user0) as [v|] eqn:Hv; [|discriminate Ho]. cbn in Ho. case_match; simplify_eq. bool_hyps.
    unfold UpdateUserTOTP in H. head_in H. by eapply updateUserTOTPConn_removes.
  - destruct (users g !! u_ID user0) as [v|] eqn:Hv; [|discriminate Ho]. cbn in Ho. case_match; simplify_eq.
    by eapply CompleteTOTPSetup_revokes.
  - destruct o; try discriminate Ho. cbn in H. case_match; [discriminate Ho|].
    destruct (cp_Recovery p) as [r|] eqn:Hr; [|discriminate Ho]. cbn in Ho. bool_hyps.
    case_bool_decide; [|case_bool_decide]; simplify_eq; by eapply activate_revokes.
Qed.

(** ** Administrators *)

Definition actor_of (o : sop) : option (AccountManagementActor * Time) :=
  match o with
  | SDisable _ _ a clk _ | SEnable _ a clk _ | SUnlock _ a clk _ | SExempt _ _ a clk _ | SReactivate _ a clk _ | SRole _ _ a clk _
  | SDelete _ a clk _ | SAdd _ a clk _ _ | SReset _ _ _ _ _ _ a clk _ | SRemoveFactor _ a clk _ => Some (a, clk 2%nat)
  | _ => None
  end.
(** An account that can administer the hub at [now]. *)
Definition administers (g : Gov) (user : string) (now : Time) : Prop :=
  ∃ u, users g !! user = Some u ∧ is_Some (ac_roles (gv_accounts g) !! (user, RoleAdmin)) ∧ u_DisabledAt u = None ∧
    u_TOTPEnabled u = true ∧ u_MustChangePassword u = false ∧
    IsDormant (InputFromUser u) now (DormantDays (accountManagementPolicyStrict g)) = false.

Lemma guard_administers g a now : guardAccountManagementActor g a now = Ok tt → administers g (am_UserID a) now.
Proof using.
  unfold guardAccountManagementActor. destruct (users g !! am_UserID a) as [u|] eqn:Hu; [|done]. cbv zeta. intros H. do 3 head_in H. bool_hyps.
  exists u. split_and!; try done. destruct (u_DisabledAt u); [|done]. naive_solver.
Qed.

(** The hub is never left without an administrator by its administrators:
    whatever account management commits (disabling, demoting, deleting or
    resetting an account, the actor's own included), the account that did it is
    still an enabled administrator with a second factor afterwards. *)
Theorem management_keeps_admin g o g' a now : actor_of o = Some (a, now) → stry g o = Ok g' → administers g' (am_UserID a) now.
Proof using.
  intros Ho H. destruct o; try discriminate Ho; injection Ho as -> <-; unfold stry in H.
  1-9: apply fst_ok_inv in H as [x H]; apply write_inv in H as (_ & _ & _ & H); by apply guard_administers in H.
  unfold DisableUserTOTP in H. do 2 head_in H.
  match type of H with match ?r with _ => _ end = _ => destruct r as [[g1 []]|] eqn:E; [|discriminate H] end. simplify_eq.
  apply write_inv in E as (_ & _ & _ & E). by apply guard_administers in E.
Qed.
End operations.

(** ** Witnesses: a session, its rotation and an administrator *)

Definition st_named (_ : string) : list string := [].
Definition st_initial : Gov := on_accounts sd_initial (fun a => set_roles a (<[("olga", RoleAdmin) := ""]> (ac_roles a))).
Abbreviation st_try := (stry st_named sd_json sd_proposal) (only parsing).
Definition st_policy : Policy := accountManagementPolicyStrict st_initial.
Definition st_rotate (prev next : string) : sop :=
  SRotate (sd_user "olga") "s:olga" prev (SecurityDigest next) (sd_time + Minute) st_policy.
Definition st_between : list sop :=
  [st_rotate (SecurityDigest "one") "two"; STouch "s:olga" (sd_time + 5 * Minute) Minute; SSuccess "olga" sd_time].

Lemma refresh_spent_once_witness :
  ∃ g1, RotateSessionRefresh st_initial (sd_user "olga") "s:olga" "" (SecurityDigest "one") (sd_time + Minute) st_policy = Ok g1 ∧
    sn_refresh <$> sessions (srun st_named sd_json sd_proposal g1 st_between) !! "s:olga" = Some (SecurityDigest "two") ∧
    RotateSessionRefresh (srun st_named sd_json sd_proposal g1 st_between) (sd_user "olga") "s:olga" "" (SecurityDigest "three")
      (sd_time + 6 * Minute) st_policy = Err ErrSessionRefreshRejected.
Proof.
  destruct (RotateSessionRefresh st_initial (sd_user "olga") "s:olga" "" (SecurityDigest "one") (sd_time + Minute) st_policy)
    as [g1|e] eqn:E; [|vm_compute in E; discriminate E].
  exists g1. split; [reflexivity|]. split.
  - vm_compute in E. injection E as <-. vm_compute. reflexivity.
  - apply (refresh_spent_once st_named sd_json sd_proposal st_initial (sd_user "olga") "s:olga" "" (SecurityDigest "one") (sd_time + Minute)
             st_policy g1); [exact E|].
    clear E. intros o Ho. repeat (apply elem_of_cons in Ho as [->|Ho]; [vm_compute; reflexivity|]). by apply elem_of_nil in Ho.
Defined.

Definition st_row : SessionRow := mkSessionRow "olga" "web" sd_time sd_time (Some (Some (sd_time + Hour))) None "" "" None None "".
Lemma rotation_guard_is_verdict_witness :
  rotation_session st_row "olga" "" (sd_time + 16 * Minute) st_policy = false ∧
  rotation_session st_row "olga" "" (sd_time + 15 * Minute) st_policy = true.
Proof.
  split; rewrite (rotation_guard_is_verdict "s" st_row "olga" ""); try (vm_compute; reflexivity); try (vm_compute; discriminate).
  all: by exists 900.
Defined.

Definition st_actor : AccountManagementActor := mkManager "olga" "s:olga" 3 7 (sd_time + Hour) "".
Definition st_disable : sop := SDisable "ana" "olga" st_actor (fun _ => sd_time + Minute) true.

(** A session of "ana" and her API token are over once she is disabled, and
    once an approved change has reset her second factor. *)
Definition st_reset : SecurityChangePayload :=
  mkPayload "recovery" None [] None None None None [] (Some (mkRecovery "ana" "mfa-reset" "" "")).
Definition st_token (g : Gov) : Gov := on_tokens g (insert "t" (mkToken "ana" "h" None None None)).
Definition st_committed : Gov := st_token (sd_run (sd_approve ++ sd_begin)).
Definition st_activate : sop := SGov (OActivate sd_change st_reset sd_clk sd_clk sd_time).

Lemma revocation_complete_witness :
  (∃ g', st_try (st_token st_initial) st_disable = Ok g' ∧ revoked_past g' "ana" true 3) ∧
  ∃ g', st_try st_committed st_activate = Ok g' ∧ revoked_past g' "ana" true 3.
Proof.
  split.
  - destruct (st_try (st_token st_initial) st_disable) as [g'|e] eqn:E; [|vm_compute in E; discriminate E].
    exists g'. split; [reflexivity|].
    apply (revocation_complete st_named sd_json sd_proposal (st_token st_initial) st_disable g' "ana" true (sd_user "ana"));
      [vm_compute; reflexivity|vm_compute; reflexivity|exact E].
  - destruct (st_try st_committed st_activate) as [g'|e] eqn:E; [|vm_compute in E; discriminate E].
    exists g'. split; [reflexivity|].
    apply (revocation_complete st_named sd_json sd_proposal st_committed st_activate g' "ana" true (sd_user "ana"));
      [vm_compute; reflexivity|vm_compute; reflexivity|exact E].
Defined.

Lemma management_keeps_admin_witness :
  ∃ g', st_try st_initial st_disable = Ok g' ∧ administers g' "olga" (sd_time + Minute).
Proof.
  destruct (st_try st_initial st_disable) as [g'|e] eqn:E; [|vm_compute in E; discriminate E].
  exists g'. split; [reflexivity|].
  apply (management_keeps_admin st_named sd_json sd_proposal st_initial st_disable g' st_actor (sd_time + Minute)); [reflexivity|exact E].
Defined.
