(* ===== verification/SignIn.v ===== *)
(** Signing in (hub/internal/server: handlers_auth.go, session_helpers.go,
    session_tokens.go, account_helpers.go, lockout_helpers.go, ldap_auth.go,
    handlers_account_management.go and the authentication of middleware.go).

    A handler is a program of calls: one query or transaction of the store, one
    reading of the clock, one use of bcrypt, of the directory, of the one-time
    code or the token library each.  Requests run concurrently, so a run
    interleaves the calls of any number of handlers with each other and with
    every other operation of the store. *)

From S2P Require Import Prelude Prog Codec Filepath Lockout Model Account Session Governance SecurityStore SecurityProtocol AuthTokens AccountStore.

(** ** Requests and answers *)

(** What the handlers read of a request: the client, and the tokens of its
    cookies and headers. *)
Record Request := mkRequest { rq_IP : string; rq_UserAgent : string; rq_Access : string; rq_Refresh : string }.

Record AuditEntry := mkAuditEntry {
  ae_Action : string; ae_UserID : option string; ae_Target : option string; ae_Detail : list (string * string);
  ae_Outcome : string; ae_ActorType : string;
}.

Inductive Body :=
| BError (message : string)
| BRefused (e : goerr)
| BRequired (message code : string)
| BSetup (token : string) (required mustChange : bool)
| BChallenge (token : string)
| BTokens (access refresh : string)
| BRecovery (token : string)
| BSecret (secret : string)
| BStatus (status : string)
| BUser (u : User) (status : Status)
| BCreated (u : User) (password : string) (expires : option Time)
| BSessions (rows : list Session)
| BEnded (ended shells : Z)
| BExclusive (servers : list string)
| BNone.
Record Response := mkResponse { rs_Status : Z; rs_Body : Body }.
Definition respondError (status : Z) (message : string) : Response := mkResponse status (BError message).

Record LDAPIdentity := mkIdentity { id_Username : string; id_Email : string; id_DN : string; id_ExternalID : string; id_Groups : list string }.

(** What a token is signed for. *)
Record TokenSpec := mkSpec { sp_User : string; sp_Role : string; sp_Type : string; sp_Expiry : Duration; sp_Generation : Z; sp_Session : string }.

(** What a transaction finds when it runs: its clock, the current time of the
    database, whether its audit entry is written, whether an identity is taken,
    and the grants of the break-glass command. *)
Record Moment := mkMoment { mo_clk : nat → Time; mo_stamp : Time; mo_audited : bool; mo_taken : bool; mo_shell1 : option Time; mo_shell2 : option Time }.

(** A live shell of the registry (grpcserver.TerminalSessionInfo). *)
Record ShellInfo := mkShell { si_ServerID : string; si_SessionID : string; si_Kind : string; si_StartedAt : Time; si_LastActivity : Time }.

(** ** Calls *)

Inductive call : Type → Type :=
| CNow : call Time
| CUUID : call string
| CUserByID (id : string) : call (result User)
| CUserByName (username : string) : call (result User)
| CUserByExternal (provider externalID : string) : call (result User)
| CPolicy : call (result Policy)
| CLenientPolicy : call Policy
| CConfig (key : string) : call (result (option string))
| CSetupComplete : call (result bool)
| CUserCount : call Z
| CProtected (user : string) : call (result bool)
| CCompare (hash password : string) : call bool
| CHash (password : string) : call (result string)
| CRecent (user password : string) (limit : Z) : call (result bool)
| CHistory : call Z
| CAuthenticate (username password : string) : call (result LDAPIdentity)
| CParse (token : string) : call (result Claims)
| CSign (s : TokenSpec) : call (result string)
| CTOTPSecret (username : string) : call (result string)
| CEncrypt (secret : string) : call (result string)
| CDecrypt (secret : string) : call (result string)
| CCode (user secret code : string) (now : Time) : call bool
| CBlacklisted (jti : string) : call bool
| CBlacklist (jti : string) (expiry : Time) : call unit
| CSession (id : string) : call (result Session)
| CEndSession (id reason : string) (by_ : option string) (now : Time) : call (result bool)
| CFailure (user : string) (now : Time) (p : Policy) : call (result FailureResult)
| CToken (hash : string) : call (result (string * TokenRow))
| CWrite (o : Moment → sop) : call (result unit)
| CManaged (user : string) (o : Moment → sop) : call (result User)
| CRevokeFamily (user session reason : string) (now : Time) : call (result unit)
| CRevokeApplications (user except reason : string) (now : Time) : call (result unit)
| CEffective (user : string) : call (result EffectiveCapabilities)
| CDisable (user by_ : string) (actor : AccountManagementActor) : call (result (list string))
| CEndUserSessions (user : string) (except : option string) (reason : string) (by_ : option string) (now : Time) : call (result (list string))
| CSessions (user : string) (includeEnded : bool) (since : Time) : call (result (list Session))
| CExclusive (user : string) : call (result (list string))
| CTemporaryTTL : call Z
| CTemporaryPassword : call string
| CShells (user : string) : call (list ShellInfo)
| CServerName (server : string) : call string
| CEndShell (server terminal : string) : call bool
| CEndSessionShells (session : string) : call Z
| CEndStale (user : string) : call unit
| CAudit (e : AuditEntry) : call unit
| CNotify (kind username : string) : call unit
| CEndShells (user : string) : call Z
| CServe (user role tokenType session : string) : call unit.

Abbreviation prog := (Prog.prog call).
Local Open Scope prog_scope.

(** [user, err := ..; if err != nil { return answer }]; the answer ends the
    handler, or is itself a program. *)
Definition or_answer {A} (p : prog (result A)) (answer : goerr → prog Response) (k : A → prog Response) : prog Response :=
  bind p (fun r => match r with Ok a => k a | Err e => answer e end).
Notation "x <-? p 'else' a ; k" := (or_answer p%prog a (fun x => k)) (at level 10, p at level 100, a at level 100, k at level 200) : prog_scope.
Notation "'refuse!' b ',' a ; k" := (if b then Ret a else k) (at level 10, b at level 100, a at level 100, k at level 200) : prog_scope.
Definition reply (status : Z) (message : string) (_ : goerr) : prog Response := Ret (respondError status message).

(** ** Accounts and locks (account_helpers.go, lockout_helpers.go) *)

Definition lockedMessage : string := "account temporarily locked — try again later".
Definition lockedDetail : string := "account locked".
Definition detailAccountDisabled : string := "account disabled".
Definition detailAccountDormant : string := "account dormant".
Definition AuditUserLogin : string := "user.login".
Definition AuditUserLoginFailed : string := "user.login_failed".
Definition AuditUserLoginTOTPFailed : string := "user.login_totp_failed".
Definition AuditUserLocked : string := "user.locked".
Definition AuditSessionCreated : string := "session.created".
Definition AuditSessionExpired : string := "session.expired".

Definition accountStatusStrict (u : User) : prog (result Status) :=
  policy <-? call_ CPolicy;
  now <- call_ CNow;
  Ret (Ok (Account.Evaluate (InputFromUser u) now policy)).

Definition accountRefuses (st : Status) : bool := (Refusal st).2.
Definition accountRefusalDetail (st : Status) : string :=
  match st with StatusDisabled => detailAccountDisabled | StatusDormant => detailAccountDormant | _ => "" end.

Definition recordLoginFailure (r : Request) (userID : option string) (username : string) (detail : option string) (notify : bool) : prog unit :=
  _ <- call_ (CAudit (mkAuditEntry AuditUserLoginFailed userID None (match detail with Some d => [("", d)] | None => [] end)
                        (match detail with Some _ => "failure" | None => "" end)
                        (match userID with None => "anonymous" | Some _ => "" end)));
  if notify then call_ (CNotify "security.login_failed" username) else Ret tt.

(** A status that does not refuse would leave an empty answer. *)
Definition refuseAccount (r : Request) (u : User) (st : Status) : prog Response :=
  let '(msg, refuse) := Refusal st in
  if refuse then
    _ <- recordLoginFailure r (Some (u_ID u)) (u_Username u) (Some (accountRefusalDetail st)) false;
    Ret (respondError 403 msg)
  else Ret (mkResponse 200 BNone).

Definition refuseLocked (r : Request) (u : User) : prog Response :=
  _ <- recordLoginFailure r (Some (u_ID u)) (u_Username u) (Some lockedDetail) false;
  Ret (respondError 423 lockedMessage).

Definition accountAccessError (u : User) : prog (result unit) :=
  st <-? accountStatusStrict u;
  let '(msg, refuse) := Refusal st in
  fail! refuse, ErrText msg;
  Ret (Ok tt).

Definition countFailure (u : User) : prog FailureResult :=
  now <- call_ CNow;
  p <- call_ CLenientPolicy;
  r <- call_ (CFailure (u_ID u) now p);
  Ret (match r with Ok res => res | Err _ => mkFailure 0 None false end).

Definition onAccountLocked (r : Request) (u : User) (res : FailureResult) : prog unit :=
  p <- call_ CLenientPolicy;
  _ <- call_ (CAudit (mkAuditEntry AuditUserLocked (Some (u_ID u)) (Some (u_ID u))
                        [("threshold", Itoa (Threshold p)); ("ip", rq_IP r)] "success" "system"));
  call_ (CNotify "security.account_locked" (u_Username u)).

Definition recordFailureAndMaybeLock (r : Request) (u : User) (detail : option string) (notify : bool) : prog FailureResult :=
  res <- countFailure u;
  _ <- recordLoginFailure r (Some (u_ID u)) (u_Username u) detail notify;
  _ <- (if fr_NewlyLocked res then onAccountLocked r u res else Ret tt);
  Ret res.

Definition recordTOTPFailure (r : Request) (u : User) : prog FailureResult :=
  res <- countFailure u;
  _ <- call_ (CAudit (mkAuditEntry AuditUserLoginTOTPFailed (Some (u_ID u)) None [] "" ""));
  _ <- (if fr_NewlyLocked res then onAccountLocked r u res else Ret tt);
  Ret res.

Definition recordLoginSuccess (u : User) : prog unit :=
  now <- call_ CNow;
  discard (call_ (CWrite (fun _ => SSuccess (u_ID u) now))).

(** ** The directory (ldap_auth.go, users.go) *)

Record LDAPGroupMappings := mkMappings { mp_Admin : list string; mp_Auditor : list string; mp_Viewer : list string; mp_Terminal : list string }.
Definition defaultLDAPGroupMappings : LDAPGroupMappings :=
  mkMappings ["veyport-admins"] ["veyport-auditors"] ["veyport-viewers"] ["veyport-terminal-users"].

Definition firstNonEmpty (a b : string) : string := if bool_decide (a = "") then b else a.
Definition hasAnyLDAPGroup (groups allowed : list string) : bool :=
  existsb (fun g => existsb (fun x => bool_decide (x = g)) groups) allowed.
Definition mapLDAPRole (groups : list string) (m : LDAPGroupMappings) : option Role :=
  if hasAnyLDAPGroup groups (mp_Admin m) then Some RoleAdmin
  else if hasAnyLDAPGroup groups (mp_Auditor m) then Some RoleAuditor
  else if hasAnyLDAPGroup groups (mp_Viewer m) then Some RoleViewer
  else None.

(** Trimmed names without blanks and repetitions, in order. *)
Fixpoint normalizeGroups (seen groups : list string) : list string :=
  match groups with
  | [] => []
  | group :: t =>
      let group := TrimSpace group in
      if bool_decide (group = "") || existsb (fun x => bool_decide (x = group)) seen then normalizeGroups seen t
      else group :: normalizeGroups (group :: seen) t
  end.
Definition normalizeLDAPGroupList (groups : list string) : list string := normalizeGroups [] groups.

(** [strings.FieldsFunc] at commas and line ends: the bytes of a field so far, reversed. *)
Definition is_separator (b : Z) : bool := (b =? 44) || (b =? 10) || (b =? 13).
Fixpoint fields (field : list Z) (l : list Z) : list string :=
  match l with
  | [] => if bool_decide (field = []) then [] else [string_of_bytes (rev field)]
  | b :: t => if is_separator b then (if bool_decide (field = []) then fields [] t else string_of_bytes (rev field) :: fields [] t)
              else fields (b :: field) t
  end.
(** [arrays] is encoding/json on a list of strings. *)
Definition parseLDAPGroupList (arrays : string → option (list string)) (value : string) : list string :=
  let trimmed := TrimSpace value in
  if bool_decide (trimmed = "") then []
  else match (if HasPrefix trimmed "[" then arrays trimmed else None) with
       | Some groups => normalizeLDAPGroupList groups
       | None => normalizeLDAPGroupList (fields [] (bytes trimmed))
       end.

Section handlers.
Context (arrays : string → option (list string)).

Definition configLDAPGroupList (key : string) (fallback : list string) : prog (list string) :=
  v <- call_ (CConfig key);
  Ret (match v with Ok (Some value) => parseLDAPGroupList arrays value | _ => fallback end).

Definition loadLDAPGroupMappings : prog LDAPGroupMappings :=
  let d := defaultLDAPGroupMappings in
  admin <- configLDAPGroupList "ldap.admin_groups" (mp_Admin d);
  auditor <- configLDAPGroupList "ldap.auditor_groups" (mp_Auditor d);
  viewer <- configLDAPGroupList "ldap.viewer_groups" (mp_Viewer d);
  terminal <- configLDAPGroupList "ldap.terminal_groups" (mp_Terminal d);
  Ret (mkMappings admin auditor viewer terminal).

(** [normalizeLDAPUser]: [id] is drawn when the account has none. *)
Definition normalizeLDAPUser (u : User) (id : string) (now : Time) : result User :=
  check! bool_decide (u_Username u = ""), ErrText "username is required";
  let email := if bool_decide (u_Email u = "") then u_Username u +:+ "@ldap.local" else u_Email u in
  let ldap := if bool_decide (u_LDAPUsername u = "") then u_Username u else u_LDAPUsername u in
  Ok (mkUser id (u_Username u) email "" (u_Role u) AuthProviderLDAP (u_ExternalID u) (u_LDAPDN u) ldap (Some now) (u_TerminalAccess u)
        (u_TOTPSecret u) (u_TOTPEnabled u) (u_TokenGeneration u) false 0 0 [] [] "" None false None 0 None None None None None None false None
        "" 0 0).

Definition is_not_found (e : goerr) : bool := match e with ErrText m => bool_decide (m = "user not found") | _ => false end.

Definition findExistingLDAPUser (u : User) : prog (result (option User)) :=
  let by_name := r <- call_ (CUserByName (u_Username u));
                 Ret (match r with Ok v => Ok (Some v) | Err e => if is_not_found e then Ok None else Err e end) in
  if bool_decide (u_ExternalID u = "") then by_name
  else r <- call_ (CUserByExternal AuthProviderLDAP (u_ExternalID u));
       match r with Ok v => Ret (Ok (Some v)) | Err e => if is_not_found e then by_name else Ret (Err e) end.

Definition prepareLDAPUserUpdate (existing u : User) : result User :=
  check! negb (bool_decide (u_AuthProvider existing = AuthProviderLDAP)), ErrText "username is reserved by a local user";
  check! negb (bool_decide (u_ExternalID existing = "")) && negb (bool_decide (u_ExternalID u = ""))
         && negb (bool_decide (u_ExternalID existing = u_ExternalID u)), ErrText "LDAP external identity mismatch";
  Ok (user_directory u (u_Username u) (u_Email u) (u_Role u) (u_AuthProvider u)
        (if bool_decide (u_ExternalID u = "") then u_ExternalID existing else u_ExternalID u) (u_LDAPDN u) (u_LDAPUsername u)
        (u_LDAPLastSyncAt u) (u_TerminalAccess u) (u_UpdatedAt u)).

Definition UpsertLDAPUser (u0 : User) : prog (result User) :=
  id <- call_ CUUID;
  now <- call_ CNow;
  u <-? Ret (normalizeLDAPUser u0 id now);
  existing <-? findExistingLDAPUser u;
  match existing with
  | None =>
      _ <-? call_ (CWrite (fun m => SRegister u (mo_stamp m) (mo_taken m)));
      call_ (CUserByID (u_ID u))
  | Some e =>
      u <-? Ret (prepareLDAPUserUpdate e u);
      let rotate := negb (bool_decide (u_Role e = u_Role u)) || negb (Bool.eqb (u_TerminalAccess e) (u_TerminalAccess u)) in
      _ <-? call_ (CWrite (fun m => SDirectory (u_ID e) u (mo_stamp m)));
      _ <-? (if rotate then call_ (CWrite (fun m => SIncrement (u_ID e) (mo_stamp m))) else Ret (Ok tt));
      call_ (CUserByID (u_ID e))
  end.

(** The account the directory vouches for. *)
Definition directory_user (i : LDAPIdentity) (role : Role) (username : string) (terminal : bool) : User :=
  mkUser "" (firstNonEmpty (id_Username i) username) (id_Email i) "" role "" (id_ExternalID i) (id_DN i)
    (firstNonEmpty (id_Username i) username) None terminal None false 0 false 0 0 [] [] "" None false None 0 None None None None None None
    false None "" 0 0.

Definition authenticateLDAPLogin (username password : string) : prog (result User) :=
  i <-? call_ (CAuthenticate username password);
  m <- loadLDAPGroupMappings;
  match mapLDAPRole (id_Groups i) m with
  | None => Ret (Err (ErrText "LDAP user is not authorized for Veyport"))
  | Some role => UpsertLDAPUser (directory_user i role username (hasAnyLDAPGroup (id_Groups i) (mp_Terminal m)))
  end.

(** ** Sessions (session_helpers.go, session_tokens.go) *)

Definition cliUserAgentPrefix : string := "vey/".
Definition maxUserAgentLength : Z := 256.
Definition maxTouchInterval : Duration := 60 * Second.
Definition touchIntervalFraction : Z := 10.

Definition touchInterval (p : Policy) (kind : string) : Duration :=
  let idle := IdleTimeout kind p in
  if idle <=? 0 then maxTouchInterval
  else if Z.quot idle touchIntervalFraction <? maxTouchInterval then Z.quot idle touchIntervalFraction else maxTouchInterval.

Definition clientKind (r : Request) : string := if HasPrefix (rq_UserAgent r) cliUserAgentPrefix then SessionKindCLI else SessionKindWeb.

(** Bytes are dropped from the end until the text is valid. *)
Fixpoint trim_invalid (n : nat) (cut : list Z) : list Z :=
  match n with
  | O => []
  | S n' => if ValidUTF8 (string_of_bytes (take n cut)) then take n cut else trim_invalid n' cut
  end.
Definition truncateUserAgent (ua : string) : string :=
  if len ua <=? maxUserAgentLength then ua else string_of_bytes (trim_invalid (Z.to_nat maxUserAgentLength) (bytes ua)).

Definition newSession (r : Request) (u : User) : prog (result Session) :=
  now <- call_ CNow;
  policy <-? call_ CPolicy;
  id <- call_ CUUID;
  let s := mkSession id (u_ID u) (clientKind r) (rq_IP r) (truncateUserAgent (rq_UserAgent r)) now now
             (if 0 <? SessionMax policy then Some (now + SessionMax policy) else None) None None "" None false "" None None in
  _ <-? call_ (CWrite (fun _ => SCreate s));
  _ <- call_ (CAudit (mkAuditEntry AuditSessionCreated (Some (u_ID u)) (Some (u_ID u)) [("session_id", id); ("kind", clientKind r)]
                        "success" "user"));
  Ret (Ok s).

Definition refreshDigest (token : string) : string := string_of_bytes (hex_encode (sha256_bytes (bytes token))).

Definition session_spec (u : User) (tokenType : string) (expiry : Duration) (sid : string) : TokenSpec :=
  mkSpec (u_ID u) (u_Role u) tokenType expiry (u_TokenGeneration u) sid.

Definition issueSessionTokens (u : User) (sid previous : string) (now : Time) : prog (result (string * string)) :=
  policy <-? call_ CPolicy;
  access <-? call_ (CSign (session_spec u TokenTypeAccess AccessTokenExpiry sid));
  refresh <-? call_ (CSign (session_spec u TokenTypeRefresh RefreshTokenExpiry sid));
  let previousDigest := if bool_decide (previous = "") then "" else refreshDigest previous in
  _ <-? call_ (CWrite (fun _ => SRotate u sid previousDigest (refreshDigest refresh) now policy));
  Ret (Ok (access, refresh)).

Definition SessionEndLogout : string := "logout".
Definition endedSessionMessage (reason : string) : string :=
  if bool_decide (reason = SessionEndExpiredIdle) || bool_decide (reason = SessionEndExpiredAbsolute) then MsgExpired else MsgEnded.
Definition expiryAuditReason (v : Verdict) : string := match v with VerdictExpiredAbsolute => "absolute" | _ => "idle" end.

Definition markSessionExpired (s : Session) (v : Verdict) (now : Time) : prog unit :=
  first <- call_ (CEndSession (s_ID s) (verdict_string v) None now);
  match first with
  | Ok true => call_ (CAudit (mkAuditEntry AuditSessionExpired (Some (s_UserID s)) (Some (s_UserID s))
                                [("session_id", s_ID s); ("reason", expiryAuditReason v)] "failure" "system"))
  | _ => Ret tt
  end.

Definition ErrSessionAccess (msg : string) : goerr := ErrText msg.

Definition checkSessionAccess (claims : Claims) (touch : bool) : prog (result unit) :=
  fail! bool_decide (cl_SessionID claims = ""), ErrSessionAccess MsgExpired;
  r <- call_ (CSession (cl_SessionID claims));
  match r with
  | Err _ => Ret (Err (ErrSessionAccess MsgExpired))
  | Ok s =>
      now <- call_ CNow;
      p <- call_ CPolicy;
      match p with
      | Err _ => Ret (Err (ErrSessionAccess MsgExpired))
      | Ok policy =>
          match Session.Evaluate (StateFromModel s) now policy with
          | VerdictOK =>
              _ <- (if touch then discard (call_ (CWrite (fun _ => STouch (s_ID s) now (touchInterval policy (s_Kind s))))) else Ret tt);
              Ret (Ok tt)
          | VerdictEnded => Ret (Err (ErrSessionAccess (endedSessionMessage (s_EndReason s))))
          | v => _ <- markSessionExpired s v now; Ret (Err (ErrSessionAccess MsgExpired))
          end
      end
  end.
Definition sessionAccessError (claims : Claims) : prog (result unit) := checkSessionAccess claims true.

(** ** Sign-in (handlers_auth.go, handlers_account_management.go) *)

Definition errInvalidCredentials : string := "invalid credentials".
Definition errInvalidRequestBody : string := "invalid request body".
Definition errPolicyUnavailable : string := "account policy temporarily unavailable".
Definition errFailedToGenerateToken : string := "failed to generate token".
Definition errFailedToGenerateTokens : string := "failed to generate tokens".
Definition errFailedToCreateSession : string := "failed to create session".
Definition errPasswordChangeRequired : goerr := Sentinel "errPasswordChangeRequired".
Definition passwordChangeRequired : string := "password change required; complete password recovery in the browser".

Definition temporaryCredentialExpired (u : User) (now : Time) : bool :=
  u_MustChangePassword u && match u_TempPasswordExpiresAt u with None => true | Some t => negb (Before now t) end.

Definition challenge_spec (u : User) (tokenType : string) (expiry : Duration) : TokenSpec :=
  mkSpec (u_ID u) (u_Role u) tokenType expiry (u_TokenGeneration u) "".

Definition respondAfterPrimaryLogin (u : User) : prog Response :=
  if negb (u_TOTPEnabled u) then
    token <-? call_ (CSign (challenge_spec u TokenTypeSetup SetupTokenExpiry)) else reply 500 errFailedToGenerateToken;
    Ret (mkResponse 200 (BSetup token true (u_MustChangePassword u)))
  else
    token <-? call_ (CSign (challenge_spec u TokenTypeTOTP TOTPTokenExpiry)) else reply 500 errFailedToGenerateToken;
    Ret (mkResponse 202 (BChallenge token)).

(** The hash no password has. *)
Definition dummyHash : string := "$2a$12$000000000000000000000000000000000000000000000000000000".

Definition handleUnknownUserLogin (r : Request) (username password : string) : prog Response :=
  l <- authenticateLDAPLogin username password;
  match l with
  | Ok u =>
      st <-? accountStatusStrict u else reply 503 errPolicyUnavailable;
      if accountRefuses st then refuseAccount r u st else respondAfterPrimaryLogin u
  | Err _ =>
      _ <- call_ (CCompare dummyHash "dummy");
      _ <- recordLoginFailure r None username None true;
      Ret (respondError 401 errInvalidCredentials)
  end.

Definition handleLDAPUserLogin (r : Request) (username password : string) (u : User) : prog Response :=
  st <-? accountStatusStrict u else reply 503 errPolicyUnavailable;
  if accountRefuses st then refuseAccount r u st else
  now <- call_ CNow;
  if IsLocked (u_LockedUntil u) now then refuseLocked r u else
  l <- authenticateLDAPLogin username password;
  match l with
  | Err _ => _ <- recordFailureAndMaybeLock r u None true; Ret (respondError 401 errInvalidCredentials)
  | Ok v => respondAfterPrimaryLogin v
  end.

(** [body] is the decoded request: the name and the password. *)
Definition handleLogin (r : Request) (body : option (string * string)) : prog Response :=
  match body with
  | None => Ret (respondError 400 errInvalidRequestBody)
  | Some (username, password) =>
      u <-? call_ (CUserByName username) else (fun _ => handleUnknownUserLogin r username password);
      st <-? accountStatusStrict u else reply 503 errPolicyUnavailable;
      if accountRefuses st then refuseAccount r u st else
      now <- call_ CNow;
      if IsLocked (u_LockedUntil u) now then refuseLocked r u else
      if bool_decide (u_AuthProvider u = AuthProviderLDAP) then handleLDAPUserLogin r username password u else
      ok <- call_ (CCompare (u_PasswordHash u) password);
      if negb ok then _ <- recordFailureAndMaybeLock r u None true; Ret (respondError 401 errInvalidCredentials) else
      now <- call_ CNow;
      if temporaryCredentialExpired u now then
        _ <- recordLoginFailure r (Some (u_ID u)) username (Some "temporary password expired") false;
        Ret (respondError 401 "temporary password expired — contact an administrator")
      else respondAfterPrimaryLogin u
  end.

Definition respondPasswordRecovery (u : User) : prog Response :=
  now <- call_ CNow;
  match (if temporaryCredentialExpired u now then None else u_TempPasswordExpiresAt u) with
  | None => Ret (respondError 401 "temporary password expired — contact your administrator")
  | Some expires =>
      let remaining := time_sub expires now in
      let ttl := if remaining <? SetupTokenExpiry then remaining else SetupTokenExpiry in
      token <-? call_ (CSign (challenge_spec u TokenTypePasswordRecovery ttl)) else reply 500 errFailedToGenerateTokens;
      Ret (mkResponse 200 (BRecovery token))
  end.

(** The secret as it is stored, decrypted when it is encrypted. *)
Definition totpSecretForValidation (secret : option string) : prog (result (option string)) :=
  match secret with
  | Some s => if HasPrefix s "enc:" then d <-? call_ (CDecrypt s); Ret (Ok (Some d)) else Ret (Ok (Some s))
  | None => Ret (Ok None)
  end.

Definition check_code (user : string) (secret : option string) (code : string) : prog bool :=
  match secret with
  | None => Ret false
  | Some s => now <- call_ CNow; call_ (CCode user s code now)
  end.

(** The session and its tokens, once sign-in is complete. *)
Definition completeSignIn (r : Request) (u : User) (audit : prog unit) : prog Response :=
  s <-? newSession r u else reply 500 errFailedToCreateSession;
  now <- call_ CNow;
  t <-? issueSessionTokens u (s_ID s) "" now else reply 500 errFailedToGenerateTokens;
  _ <- audit;
  Ret (mkResponse 200 (BTokens t.1 t.2)).

(** [body]: the token of the password stage and the code. *)
Definition handleLoginTOTP (r : Request) (body : option (string * string)) : prog Response :=
  match body with
  | None => Ret (respondError 400 errInvalidRequestBody)
  | Some (token, code) =>
      c <- call_ (CParse token);
      match c with
      | Err _ => Ret (respondError 401 "invalid or expired TOTP token")
      | Ok claims =>
          refuse! negb (bool_decide (cl_TokenType claims = TokenTypeTOTP)), respondError 401 "invalid or expired TOTP token";
          u <-? call_ (CUserByID (cl_Subject claims)) else reply 401 "user not found";
          now <- call_ CNow;
          refuse! negb (cl_TokenGeneration claims =? u_TokenGeneration u) || temporaryCredentialExpired u now,
            respondError 401 "password-stage credential was revoked";
          st <-? accountStatusStrict u else reply 503 errPolicyUnavailable;
          if accountRefuses st then refuseAccount r u st else
          now <- call_ CNow;
          if IsLocked (u_LockedUntil u) now then refuseLocked r u else
          secret <-? totpSecretForValidation (u_TOTPSecret u) else reply 500 "failed to decrypt TOTP secret";
          ok <- check_code (u_ID u) secret code;
          if negb ok then _ <- recordTOTPFailure r u; Ret (respondError 401 "invalid TOTP code") else
          if u_MustChangePassword u then respondPasswordRecovery u else
          _ <- recordLoginSuccess u;
          completeSignIn r u (call_ (CAudit (mkAuditEntry AuditUserLogin (Some (u_ID u)) None [] "" "")))
      end
  end.

(** The token is that of the cookie, or of the decoded body. *)
Definition handleRefresh (r : Request) (body : option string) : prog Response :=
  match (if bool_decide (rq_Refresh r = "") then body else Some (rq_Refresh r)) with
  | None => Ret (respondError 400 errInvalidRequestBody)
  | Some token =>
      c <- call_ (CParse token);
      match c with
      | Err _ => Ret (respondError 401 "invalid or expired refresh token")
      | Ok claims =>
          refuse! negb (bool_decide (cl_TokenType claims = TokenTypeRefresh)), respondError 401 "invalid or expired refresh token";
          u <-? call_ (CUserByID (cl_Subject claims)) else reply 401 "user no longer exists";
          refuse! u_MustChangePassword u, mkResponse 403 (BRequired passwordChangeRequired "password_change_required");
          _ <-? accountAccessError u else (fun e => Ret (mkResponse 401 (BRefused e)));
          now <- call_ CNow;
          refuse! negb (cl_TokenGeneration claims =? u_TokenGeneration u) || temporaryCredentialExpired u now,
            respondError 401 "token has been revoked";
          _ <-? checkSessionAccess claims false else (fun e => Ret (mkResponse 401 (BRefused e)));
          now <- call_ CNow;
          t <-? issueSessionTokens u (cl_SessionID claims) token now else (fun e =>
            Ret (if bool_decide (e = ErrSessionRefreshRejected) then respondError 401 "invalid or expired refresh token"
                 else respondError 500 errFailedToGenerateTokens));
          Ret (mkResponse 200 (BTokens t.1 t.2))
      end
  end.

Definition endSessionOnLogout (claims : Claims) : prog unit :=
  if bool_decide (cl_SessionID claims = "") then Ret tt
  else now <- call_ CNow;
       discard (call_ (CEndSession (cl_SessionID claims) SessionEndLogout (Some (cl_Subject claims)) now)).

(** One round of the loop over the two tokens; an error ends the handler. *)
Definition logoutToken (token : string) : prog (result unit) :=
  c <- call_ (CParse token);
  match c with
  | Err _ => Ret (Ok tt)
  | Ok claims =>
      if negb (bool_decide (cl_TokenType claims = TokenTypeAccess)) && negb (bool_decide (cl_TokenType claims = TokenTypeRefresh))
      then Ret (Ok tt) else
      _ <- (if bool_decide (cl_TokenType claims = TokenTypeAccess) && negb (bool_decide (cl_ID claims = ""))
            then call_ (CBlacklist (cl_ID claims) (default 0 (cl_ExpiresAt claims))) else Ret tt);
      _ <-? (if bool_decide (cl_SessionID claims = "") then Ret (Ok tt)
             else now <- call_ CNow; call_ (CRevokeFamily (cl_Subject claims) (cl_SessionID claims) SessionEndLogout now));
      _ <- endSessionOnLogout claims;
      Ret (Ok tt)
  end.

Definition handleLogout (r : Request) : prog Response :=
  _ <-? logoutToken (rq_Access r) else reply 500 "logout could not revoke application access";
  _ <-? logoutToken (rq_Refresh r) else reply 500 "logout could not revoke application access";
  Ret (mkResponse 204 BNone).

(** ** Authentication of requests (middleware.go) *)

Definition validateChallengeAuthority (claims : Claims) : prog (result unit) :=
  r <- call_ (CUserByID (cl_Subject claims));
  match r with
  | Err _ => Ret (Err (ErrText "password-stage credential was revoked"))
  | Ok u =>
      now <- call_ CNow;
      fail! negb (u_TokenGeneration u =? cl_TokenGeneration claims) || bool_decide (is_Some (u_DisabledAt u)) || temporaryCredentialExpired u now,
        ErrText "password-stage credential was revoked";
      accountAccessError u
  end.

(** The checks an access token passes, in their order. *)
Definition accessAuthority (claims : Claims) : prog (result unit) :=
  r <- call_ (CUserByID (cl_Subject claims));
  match r with
  | Err _ => Ret (Err (ErrText "token has been revoked"))
  | Ok u =>
      fail! negb (cl_TokenGeneration claims =? u_TokenGeneration u), ErrText "token has been revoked";
      fail! u_MustChangePassword u, errPasswordChangeRequired;
      _ <-? accountAccessError u;
      sessionAccessError claims
  end.

Definition is_challenge (tokenType : string) : bool :=
  bool_decide (tokenType = TokenTypeSetup) || bool_decide (tokenType = TokenTypeTOTP) || bool_decide (tokenType = TokenTypePasswordRecovery).

Record Identity := mkIdentified { if_UserID : string; if_Role : string; if_TokenType : string; if_SessionID : string }.

Definition authenticateAPIToken (token : string) : prog (result Identity) :=
  t <-? call_ (CToken (HashAPIToken token));
  u <-? call_ (CUserByID (tk_user t.2));
  fail! u_MustChangePassword u, errPasswordChangeRequired;
  _ <-? accountAccessError u;
  used <- call_ CNow;
  _ <- call_ (CWrite (fun _ => STokenUsed t.1 used));
  now <- call_ CNow;
  _ <- call_ (CWrite (fun _ => SActivity (u_ID u) now));
  Ret (Ok (mkIdentified (u_ID u) (u_Role u) TokenTypeAPIToken "")).

Definition authenticateRequestToken (token : string) : prog (result Identity) :=
  c <- call_ (CParse token);
  match c with
  | Err e => if LooksLikeAPIToken token then authenticateAPIToken token else Ret (Err e)
  | Ok claims =>
      revoked <- ((if bool_decide (cl_ID claims = "") then Ret false else call_ (CBlacklisted (cl_ID claims))) : prog bool);
      fail! revoked, ErrText "token has been revoked";
      let access := bool_decide (cl_TokenType claims = TokenTypeAccess) in
      _ <-? (if access then accessAuthority claims else Ret (Ok tt));
      _ <-? (if is_challenge (cl_TokenType claims) then validateChallengeAuthority claims else Ret (Ok tt));
      role <-? (if access then u <-? call_ (CUserByID (cl_Subject claims)); Ret (Ok (u_Role u)) else Ret (Ok (cl_Role claims)));
      Ret (Ok (mkIdentified (cl_Subject claims) role (cl_TokenType claims) (cl_SessionID claims)))
  end.

Definition isAllowedTokenType (requiredType tokenType : string) : bool :=
  (bool_decide (requiredType = TokenTypeAccess) && bool_decide (tokenType = TokenTypeAPIToken)) || bool_decide (requiredType = tokenType).

(** What the caller is told of an account or a session that may not be used;
    every other refusal is "invalid token". *)
Definition access_message (e : goerr) : string :=
  match e with
  | ErrText m => if existsb (fun x => bool_decide (x = m)) [MsgDisabled; MsgDormant; MsgExpired; MsgEnded] then m else "invalid token"
  | Sentinel _ => "invalid token"
  end.

Definition authMiddleware (requiredType : string) (r : Request) (next : Identity → prog Response) : prog Response :=
  refuse! bool_decide (rq_Access r = ""), respondError 401 "missing authorization token";
  i <-? authenticateRequestToken (rq_Access r) else (fun e =>
    Ret (if bool_decide (e = errPasswordChangeRequired) then mkResponse 403 (BRequired passwordChangeRequired "password_change_required")
         else respondError 401 (access_message e)));
  refuse! negb (isAllowedTokenType requiredType (if_TokenType i)), respondError 403 "invalid token type for this endpoint";
  next i.

(** Any endpoint behind the middleware. *)
Definition serve (i : Identity) : prog Response :=
  _ <- call_ (CServe (if_UserID i) (if_Role i) (if_TokenType i) (if_SessionID i));
  Ret (mkResponse 200 BNone).

(** ** First sign-in and passwords (handlers_auth.go, handlers_account_management.go) *)

Definition securityError (e : goerr) : Response :=
  let status := if bool_decide (e = ErrProtectedChange) || bool_decide (e = ErrStepup) then 403
                else if bool_decide (e = ErrSecurityConflict) then 409 else 400 in
  mkResponse status (BRefused e).

(** A letter, a digit or an underscore. *)
Definition username_rune (r : Z) : bool := between 97 122 r || between 65 90 r || between 48 57 r || (r =? 95).
Definition validateUsername (username : string) : result unit :=
  check! (len username <? 3) || (32 <? len username), ErrText "username must be 3-32 characters";
  check! negb (forallb username_rune (runes username)), ErrText "username may only contain alphanumeric characters and underscores";
  Ok tt.

Definition first_admin (id username email hash : string) : User :=
  mkUser id username email hash RoleAdmin "" "" "" "" None false None false 0 false 0 0 [] [] "" None false None 0 None None None None None None
    true None "" 0 0.

Definition handleRegister (U : Unicode) (r : Request) (body : option (string * string * string)) : prog Response :=
  done_ <-? call_ CSetupComplete else reply 500 "failed to check setup state";
  refuse! done_, respondError 403 "registration disabled — use admin to create users";
  _ <-? call_ (CWrite (fun m => SClean (mo_stamp m))) else reply 500 "failed to clean up incomplete setup";
  match body with
  | None => Ret (respondError 400 errInvalidRequestBody)
  | Some (username, email, password) =>
      _ <-? Ret (validateUsername username) else (fun e => Ret (mkResponse 400 (BRefused e)));
      _ <-? Ret (ValidatePasswordPolicy U password) else (fun e => Ret (mkResponse 400 (BRefused e)));
      hash <-? call_ (CHash password) else reply 500 "failed to hash password";
      id <- call_ CUUID;
      let u := first_admin id username email hash in
      _ <-? call_ (CWrite (fun m => SRegister u (mo_stamp m) (mo_taken m))) else reply 409 "setup already completed";
      n <- call_ CUserCount;
      if 1 <? n then
        _ <- call_ (CWrite (fun m => SRemove id (mo_stamp m)));
        Ret (respondError 409 "setup already completed")
      else
        _ <- call_ (CAudit (mkAuditEntry "user.registered" (Some id) None [] "" ""));
        token <-? call_ (CSign (challenge_spec u TokenTypeSetup SetupTokenExpiry)) else reply 500 errFailedToGenerateToken;
        Ret (mkResponse 200 (BSetup token false false))
  end.

Definition checkSetupGeneration (r : Request) (u : User) : prog (result unit) :=
  c <- call_ (CParse (rq_Access r));
  Ret (match c with
       | Err _ => Err ErrSecurityConflict
       | Ok claims => if negb (bool_decide (cl_TokenType claims = TokenTypeSetup)) || negb (bool_decide (cl_Subject claims = u_ID u))
                         || negb (cl_TokenGeneration claims =? u_TokenGeneration u) then Err ErrSecurityConflict else Ok tt
       end).

Definition passwordChangeAuthority (r : Request) (u : User) : prog (result PasswordChangeAuthority) :=
  c <- call_ (CParse (rq_Access r));
  Ret (match c with
       | Err _ => Err ErrSecurityConflict
       | Ok claims =>
           match cl_ExpiresAt claims with
           | None => Err ErrSecurityConflict
           | Some e => if negb (bool_decide (cl_Subject claims = u_ID u)) || negb (cl_TokenGeneration claims =? u_TokenGeneration u)
                       then Err ErrSecurityConflict
                       else Ok (mkPasswordAuthority u (cl_SessionID claims) (cl_TokenGeneration claims) e)
           end
       end).

Definition handleTOTPSetup (r : Request) (i : Identity) : prog Response :=
  u <-? call_ (CUserByID (if_UserID i)) else reply 404 "user not found";
  refuse! u_TOTPEnabled u, respondError 409 "TOTP is already enabled";
  _ <-? checkSetupGeneration r u else (fun e => Ret (securityError e));
  secret <-? call_ (CTOTPSecret (u_Username u)) else reply 500 "failed to generate TOTP secret";
  encrypted <-? call_ (CEncrypt secret) else reply 500 "failed to encrypt TOTP secret";
  _ <-? call_ (CWrite (fun m => SFactor (if_UserID i) (Some encrypted) false (Some (u_TokenGeneration u)) (mo_shell2 m) (mo_stamp m)))
    else (fun e => Ret (securityError e));
  _ <- call_ (CAudit (mkAuditEntry "user.totp_setup" (Some (if_UserID i)) None [] "" ""));
  Ret (mkResponse 200 (BSecret secret)).

Definition error_text (e : goerr) : string := match e with Sentinel m | ErrText m => m end.

(** The password a temporary one is replaced with: its hash, or none. *)
Definition prepareTOTPPassword (U : Unicode) (r : Request) (u : User) (newPassword : string) : prog (result string) :=
  if negb (u_MustChangePassword u) then Ret (Ok "") else
  history <- call_ CHistory;
  fail! bool_decide (newPassword = ""), ErrText "bad_request:new_password is required for temporary-password users";
  _ <-? Ret (match ValidatePasswordPolicy U newPassword with Ok x => Ok x | Err e => Err (ErrText ("bad_request:" +:+ error_text e)) end);
  recent <-? (h <- call_ (CRecent (u_ID u) newPassword history);
              Ret (match h with Ok b => Ok b | Err _ => Err (ErrText "internal:failed to validate password history") end));
  same <- ((if (recent : bool) then Ret true else call_ (CCompare (u_PasswordHash u) newPassword)) : prog bool);
  if same then
    _ <- call_ (CAudit (mkAuditEntry "user.password_reuse_rejected" (Some (u_ID u)) None [] "failure" ""));
    Ret (Err (ErrText "bad_request:new password must not match a recent password"))
  else
    h <- call_ (CHash newPassword);
    Ret (match h with Ok hash => Ok hash | Err _ => Err (ErrText "internal:failed to hash password") end).

Definition totpEnablePasswordError (e : goerr) : Response :=
  mkResponse (if HasPrefix (error_text e) "bad_request:" then 400 else 500) (BRefused e).

Definition totpPersistenceError (e : goerr) : Response :=
  if bool_decide (e = ErrSecurityConflict) then respondError 409 "authentication state changed; sign in again"
  else if bool_decide (e = ErrProtectedChange) || bool_decide (e = ErrAccountManagementActor) then
    respondError 403 "authentication change requires current authority"
  else if bool_decide (e = ErrTemporaryPasswordExpired) then respondError 401 "temporary password expired"
  else if bool_decide (e = ErrLocalPasswordOnly) then respondError 400 "password recovery is available for local accounts only"
  else respondError 500 "failed to persist authentication change".

(** [body]: the code and the new password. *)
Definition handleTOTPEnable (U : Unicode) (r : Request) (body : option (string * string)) (i : Identity) : prog Response :=
  u <-? call_ (CUserByID (if_UserID i)) else reply 404 "user not found";
  _ <-? checkSetupGeneration r u else (fun e => Ret (securityError e));
  authority <-? passwordChangeAuthority r u else (fun e => Ret (securityError e));
  match body with
  | None => Ret (respondError 400 errInvalidRequestBody)
  | Some (code, newPassword) =>
      refuse! u_TOTPEnabled u, respondError 409 "TOTP is already enabled";
      refuse! bool_decide (u_TOTPSecret u = None), respondError 400 "TOTP not set up — call /api/auth/totp/setup first";
      secret <-? totpSecretForValidation (u_TOTPSecret u) else reply 500 "failed to decrypt TOTP secret";
      ok <- check_code (if_UserID i) secret code;
      if negb ok then Ret (respondError 401 "invalid TOTP code") else
      encrypted <-? call_ (CEncrypt (default "" secret)) else reply 500 "failed to encrypt TOTP secret";
      hash <-? prepareTOTPPassword U r u newPassword else (fun e => Ret (totpEnablePasswordError e));
      history <- call_ CHistory;
      _ <-? call_ (CWrite (fun m => SSetup u encrypted hash history (Some (if_UserID i)) (mo_shell1 m) (mo_shell2 m) authority (mo_clk m)
                                      (mo_audited m))) else (fun e => Ret (totpPersistenceError e));
      _ <- (if bool_decide (hash = "") then Ret tt else discard (call_ (CEndShells (if_UserID i))));
      _ <- call_ (CNotify "security.totp_changed" (u_Username u));
      _ <- recordLoginSuccess u;
      u <-? call_ (CUserByID (if_UserID i)) else reply 401 "user not found";
      refuse! negb (u_TOTPEnabled u) || u_MustChangePassword u, respondError 401 "user not found";
      completeSignIn r u (Ret tt)
  end.

(** The checks of a new password and its hash. *)
Definition newPasswordHash (U : Unicode) (u : User) (newPassword : string) (k : string → Z → prog Response) : prog Response :=
  _ <-? Ret (ValidatePasswordPolicy U newPassword) else (fun e => Ret (mkResponse 400 (BRefused e)));
  history <- call_ CHistory;
  recent <-? call_ (CRecent (u_ID u) newPassword history) else reply 500 "failed to validate password history";
  same <- ((if (recent : bool) then Ret true else call_ (CCompare (u_PasswordHash u) newPassword)) : prog bool);
  if same then
    _ <- call_ (CAudit (mkAuditEntry "user.password_reuse_rejected" (Some (u_ID u)) None [] "failure" ""));
    Ret (respondError 400 "new password must not match a recent password")
  else
    hash <-? call_ (CHash newPassword) else reply 500 "failed to hash password";
    k hash history.

Definition updateAuthenticatedPassword (i : Identity) (u : User) (hash : string) (authority : PasswordChangeAuthority) : prog (result unit) :=
  protected <-? call_ (CProtected (u_ID u));
  history <- call_ CHistory;
  if negb (protected : bool) then
    call_ (CWrite (fun m => SChange u hash history (u_MustChangePassword u) (Some (u_ID u)) authority (mo_clk m) (mo_audited m)))
  else
    fail! bool_decide (if_TokenType i = TokenTypeAccess) && bool_decide (if_SessionID i = ""), ErrProtectedChange;
    call_ (CWrite (fun m => SRecover u hash (mo_shell1 m) history (Some (u_ID u)) authority (mo_clk m) (mo_audited m))).

(** [body]: the current and the new password. *)
Definition handleChangePassword (U : Unicode) (r : Request) (body : option (string * string)) (i : Identity) : prog Response :=
  u <-? call_ (CUserByID (if_UserID i)) else reply 404 "user not found";
  authority <-? passwordChangeAuthority r u else (fun e => Ret (securityError e));
  g <- call_ (CProtected (if_UserID i));
  match (if u_MustChangePassword u then Ok false else g) with
  | Err e => Ret (securityError e)
  | Ok true => Ret (securityError ErrProtectedChange)
  | Ok false =>
      match body with
      | None => Ret (respondError 400 errInvalidRequestBody)
      | Some (current, newPassword) =>
          ok <- call_ (CCompare (u_PasswordHash u) current);
          refuse! negb ok, respondError 401 "invalid current password";
          newPasswordHash U u newPassword (fun hash _ =>
            _ <-? updateAuthenticatedPassword i u hash authority else (fun e => Ret (securityError e));
            _ <- call_ (CEndShells (if_UserID i));
            _ <- call_ (CNotify "security.password_changed" (u_Username u));
            Ret (mkResponse 200 (BStatus "password updated")))
      end
  end.

Definition accountManagementError (e : goerr) : Response :=
  let status := if bool_decide (e = ErrAccountManagementActor) || bool_decide (e = ErrProtectedChange) then 403
                else if bool_decide (e = ErrSecurityConflict) || bool_decide (e = ErrAccountDisabled) then 409
                else if bool_decide (e = ErrTemporaryPasswordExpired) then 401
                else if bool_decide (e = ErrLocalPasswordOnly) then 400
                else if bool_decide (e = errUserNotFound) then 404 else 500 in
  mkResponse status (BRefused e).

(** [bearer]: the token of the Authorization header; [body]: the new password. *)
Definition handleCompletePasswordRecovery (U : Unicode) (bearer : option string) (body : option string) : prog Response :=
  match bearer with
  | None => Ret (respondError 401 "invalid recovery token")
  | Some token =>
      c <- call_ (CParse token);
      match c with
      | Err _ => Ret (respondError 401 "invalid recovery token")
      | Ok claims =>
          match (if bool_decide (cl_TokenType claims = TokenTypePasswordRecovery) then cl_ExpiresAt claims else None) with
          | None => Ret (respondError 401 "invalid recovery token")
          | Some expires =>
              revoked <- ((if bool_decide (cl_ID claims = "") then Ret false else call_ (CBlacklisted (cl_ID claims))) : prog bool);
              refuse! revoked, respondError 401 "invalid recovery token";
              u <-? call_ (CUserByID (cl_Subject claims)) else reply 401 "recovery credential expired or revoked";
              now <- call_ CNow;
              refuse! negb (u_TokenGeneration u =? cl_TokenGeneration claims) || negb (u_TOTPEnabled u) || negb (u_MustChangePassword u)
                      || temporaryCredentialExpired u now, respondError 401 "recovery credential expired or revoked";
              _ <-? accountAccessError u else (fun e => Ret (mkResponse 401 (BRefused e)));
              let authority := mkPasswordAuthority u "" (cl_TokenGeneration claims) expires in
              match body with
              | None => Ret (respondError 400 errInvalidRequestBody)
              | Some newPassword =>
                  newPasswordHash U u newPassword (fun hash history =>
                    protected <-? call_ (CProtected (u_ID u)) else (fun e => Ret (accountManagementError e));
                    w <- call_ (CWrite (fun m =>
                           if (protected : bool) then SRecover u hash (mo_shell1 m) history (Some (u_ID u)) authority (mo_clk m) (mo_audited m)
                           else SChange u hash history true (Some (u_ID u)) authority (mo_clk m) (mo_audited m)));
                    match w with
                    | Err e => Ret (accountManagementError e)
                    | Ok _ => _ <- call_ (CEndShells (u_ID u)); Ret (mkResponse 200 (BStatus "password updated"))
                    end)
              end
          end
      end
  end.
End handlers.
