(* ===== verification/AccountAdmin.v ===== *)
(** Management of accounts and sessions (hub/internal/server: handlers_users.go,
    handlers_sessions.go, handlers_account_management.go, the removal of a factor
    of handlers_auth.go, the ending of sessions of session_helpers.go and the gates
    of middleware.go), as programs of the calls of SignIn.v.  A handler runs behind
    the authentication of the request and its gates ([route]). *)

From S2P Require Import Prelude Prog Codec Filepath Lockout Model Account Session Governance SecurityStore SecurityProtocol AuthTokens AccountStore SignIn.
Local Open Scope prog_scope.

(** ** Gates (middleware.go) *)

Inductive gate := GInteractive | GAdmin | GTerminal | GAudit.

Definition interactiveOnly (i : Identity) (next : prog Response) : prog Response :=
  refuse! negb (bool_decide (if_TokenType i = TokenTypeAccess)), respondError 403 "interactive login required";
  next.

Definition capability_only (i : Identity) (capability message : string) (next : prog Response) : prog Response :=
  e <- call_ (CEffective (if_UserID i));
  match e with
  | Ok e => if Can e capability then next else Ret (respondError 403 message)
  | Err _ => Ret (respondError 403 message)
  end.
Definition adminOnly (i : Identity) (next : prog Response) : prog Response :=
  capability_only i "operations.admin" "admin access required" next.
Definition auditAccessOnly (i : Identity) (next : prog Response) : prog Response :=
  capability_only i "audit.read" "audit access required" next.
Definition terminalAccessOnly (i : Identity) (next : prog Response) : prog Response :=
  u <-? call_ (CUserByID (if_UserID i)) else reply 403 "terminal access required";
  capability_only (mkIdentified (u_ID u) (if_Role i) (if_TokenType i) (if_SessionID i)) "terminal.execute" "terminal access required" next.

Definition through (g : gate) (i : Identity) (next : prog Response) : prog Response :=
  match g with
  | GInteractive => interactiveOnly i next
  | GAdmin => adminOnly i next
  | GTerminal => terminalAccessOnly i next
  | GAudit => auditAccessOnly i next
  end.

(** A route: the type of token, the gates from the outside in, and the handler. *)
Definition route (requiredType : string) (gates : list gate) (r : Request) (handler : Identity → prog Response) : prog Response :=
  authMiddleware requiredType r (fun i => foldr (fun g next => through g i next) (handler i) gates).

(** ** The actor and its audit (handlers_account_management.go) *)

Definition noActor : AccountManagementActor := mkManager "" "" 0 0 0 "".

Definition accountManagementActor (r : Request) (i : Identity) : prog AccountManagementActor :=
  ru <- call_ (CUserByID (if_UserID i));
  match ru with
  | Err _ => Ret noActor
  | Ok u =>
      if bool_decide (if_TokenType i = TokenTypeAPIToken) then
        if negb (LooksLikeAPIToken (rq_Access r)) then Ret noActor
        else Ret (mkManager (if_UserID i) "" (u_TokenGeneration u) (u_SecurityRevision u) 0 (HashAPIToken (rq_Access r)))
      else
        c <- call_ (CParse (rq_Access r));
        Ret (match c with
             | Ok claims =>
                 match cl_ExpiresAt claims with
                 | Some e => if bool_decide (cl_Subject claims = if_UserID i)
                             then mkManager (cl_Subject claims) (cl_SessionID claims) (cl_TokenGeneration claims) (u_SecurityRevision u) e ""
                             else noActor
                 | None => noActor
                 end
             | Err _ => noActor
             end)
  end.

(** [GuardMutation]: protected accounts are changed by governance only. *)
Definition GuardMutation (user : string) : prog (result unit) :=
  p <-? call_ (CProtected user);
  fail! (p : bool), ErrProtectedChange;
  Ret (Ok tt).

Definition accountStatus (u : User) : prog Status :=
  now <- call_ CNow;
  p <- call_ CLenientPolicy;
  Ret (Account.Evaluate (InputFromUser u) now p).

Definition respondUserWithStatus (userID : string) : prog Response :=
  u <-? call_ (CUserByID userID) else reply 500 "failed to fetch updated user";
  st <- accountStatus u;
  Ret (mkResponse 200 (BUser u st)).

Definition auditAccountManagementRefusal (actor target action : string) (e : goerr) : prog unit :=
  call_ (CAudit (mkAuditEntry action (Some actor) (Some target)
                   [("", if bool_decide (e = ErrSecurityConflict) then "stale account revision" else "account update refused")] "failure" "user")).

Definition errMissingUserID : string := "missing user id".

(** ** Accounts (handlers_users.go, handlers_account_management.go) *)

Definition handleUpdateUserRole (r : Request) (targetID : string) (body : option string) (i : Identity) : prog Response :=
  authority <- accountManagementActor r i;
  _ <-? GuardMutation targetID else (fun e => Ret (securityError e));
  refuse! bool_decide (targetID = ""), respondError 400 errMissingUserID;
  match body with
  | None => Ret (respondError 400 errInvalidRequestBody)
  | Some role =>
      refuse! negb (IsValidRole role), respondError 400 "role must be 'admin', 'auditor', or 'viewer'";
      refuse! bool_decide (if_UserID i = targetID), respondError 400 "cannot change your own role";
      u <-? call_ (CManaged targetID (fun m => SRole targetID role authority (mo_clk m) (mo_audited m))) else (fun e => Ret (accountManagementError e));
      st <- accountStatus u;
      Ret (mkResponse 200 (BUser u st))
  end.

Definition handleDeleteUser (r : Request) (targetID : string) (force : bool) (i : Identity) : prog Response :=
  authority <- accountManagementActor r i;
  _ <-? GuardMutation targetID else (fun e => Ret (securityError e));
  refuse! bool_decide (targetID = ""), respondError 400 errMissingUserID;
  refuse! bool_decide (if_UserID i = targetID), respondError 400 "cannot delete your own account";
  exclusive <- ((if force then Ret [] else x <- call_ (CExclusive targetID); Ret (match x with Ok l => l | Err _ => [] end)) : prog (list string));
  refuse! negb (bool_decide (exclusive = [])), mkResponse 409 (BExclusive exclusive);
  _ <-? call_ (CWrite (fun m => SDelete targetID authority (mo_clk m) (mo_audited m))) else (fun e => Ret (accountManagementError e));
  Ret (mkResponse 200 (BStatus "user deleted")).

(** The account a request asks for, with a password that has to be changed. *)
Definition temporary_user (id username email hash role : string) (expires : Time) : User :=
  mkUser id username email hash role "" "" "" "" None false None false 0 false 0 0 [] [] "" None true (Some expires) 0 None None None None None None
    false None "" 0 0.

(** [time.Duration(hours) * time.Hour] is 64-bit and wraps. *)
Definition ttl_of (hours : Z) : Duration := i64 (hours * Hour).

Definition handleCreateUser (r : Request) (body : option (string * string * string)) (i : Identity) : prog Response :=
  authority <- accountManagementActor r i;
  match body with
  | None => Ret (respondError 400 errInvalidRequestBody)
  | Some (username, email, role) =>
      _ <-? Ret (validateUsername username) else (fun e => Ret (mkResponse 400 (BRefused e)));
      refuse! negb (IsValidRole role), respondError 400 "role must be 'admin', 'auditor', or 'viewer'";
      password <- call_ CTemporaryPassword;
      hash <-? call_ (CHash password) else reply 500 "failed to hash password";
      id <- call_ CUUID;
      hours <- call_ CTemporaryTTL;
      now <- call_ CNow;
      let u := temporary_user id username email hash role (now + ttl_of hours) in
      w <- call_ (CWrite (fun m => SAdd u authority (mo_clk m) (mo_audited m) (mo_taken m)));
      match w with
      | Err e =>
          if bool_decide (e = ErrUserExists) then Ret (respondError 409 "user already exists")
          else _ <- auditAccountManagementRefusal (if_UserID i) id "user.created" e; Ret (accountManagementError e)
      | Ok _ =>
          _ <- call_ (CNotify "security.user_created" username);
          Ret (mkResponse 201 (BCreated u password None))
      end
  end.

(** ** Ending sessions (session_helpers.go) *)

Definition SessionEndRevokedAdmin : string := "revoked_admin".
Definition SessionEndRevokedSelf : string := "revoked_self".
Definition SessionEndRevokedDisable : string := "revoked_disable".

Definition auditSessionRevoked (actorID : option string) (target : User) (sessionID reason : string) : prog unit :=
  s <- call_ (CSession sessionID);
  let kind := match s with Ok s => [("kind", s_Kind s)] | Err _ => [] end in
  call_ (CAudit (mkAuditEntry "session.revoked" (Some (default (u_ID target) actorID)) (Some (u_ID target))
                   ([("session_id", sessionID); ("reason", reason)] ++ kind) "success" "user")).

Fixpoint endSessionRows (ids : list string) (reason : string) (actorID : option string) (now : Time) : prog (list string) :=
  match ids with
  | [] => Ret []
  | id :: t =>
      e <- call_ (CEndSession id reason actorID now);
      rest <- endSessionRows t reason actorID now;
      Ret (match e with Ok true => id :: rest | _ => rest end)
  end.

Fixpoint revoked_each (actorID : option string) (target : User) (reason : string) (ids : list string) : prog Z :=
  match ids with
  | [] => Ret 0
  | id :: t =>
      _ <- auditSessionRevoked actorID target id reason;
      n <- call_ (CEndSessionShells id);
      rest <- revoked_each actorID target reason t;
      Ret (n + rest)
  end.

Fixpoint revoke_families (user reason : string) (now : Time) (ids : list string) : prog unit :=
  match ids with
  | [] => Ret tt
  | id :: t => _ <- call_ (CRevokeFamily user id reason now); revoke_families user reason now t
  end.

(** [ids] are ended, or with [all] every session of the account but [exceptID]. *)
Definition endSessions (actorID : option string) (target : User) (ids : list string) (all : bool) (exceptID : option string) (reason : string)
    : prog (Z * Z) :=
  now <- call_ CNow;
  _ <- (if all then discard (call_ (CRevokeApplications (u_ID target) (default "" exceptID) reason now))
        else revoke_families (u_ID target) reason now ids);
  endedIDs <- (if all then x <- call_ (CEndUserSessions (u_ID target) exceptID reason actorID now);
                           Ret (match x with Ok l => l | Err _ => [] end)
               else endSessionRows ids reason actorID now);
  shells <- revoked_each actorID target reason endedIDs;
  more <- ((if all then call_ (CEndShells (u_ID target)) else Ret 0) : prog Z);
  Ret (Z.of_nat (length endedIDs), shells + more).

(** ** The switch of an account (handlers_users.go) *)

Definition no_user (id : string) : User :=
  mkUser id "" "" "" "" "" "" "" "" None false None false 0 false 0 0 [] [] "" None false None 0 None None None None None None false None "" 0 0.

Definition finishDisabledUserSessions (adminID targetID : string) (endedIDs : list string) : prog unit :=
  t <- call_ (CUserByID targetID);
  let target := match t with Ok u => u | Err _ => no_user targetID end in
  now <- call_ CNow;
  _ <- call_ (CRevokeApplications targetID "" SessionEndRevokedDisable now);
  _ <- revoked_each (Some adminID) target SessionEndRevokedDisable endedIDs;
  discard (call_ (CEndShells targetID)).

Definition disableAccount (adminID targetID : string) (authority : AccountManagementActor) : prog Response :=
  refuse! bool_decide (adminID = targetID), respondError 400 "cannot disable your own account";
  res <- call_ (CDisable targetID adminID authority);
  match res with
  | Err e =>
      Ret (if bool_decide (e = ErrLastAdmin) then respondError 409 "cannot disable the last enabled administrator"
           else if is_not_found e then respondError 404 "user not found" else accountManagementError e)
  | Ok endedIDs => _ <- finishDisabledUserSessions adminID targetID endedIDs; respondUserWithStatus targetID
  end.

(** The answer to a change that may find no account. *)
Definition changed_or (targetID : string) (o : Moment → sop) (other : goerr → option Response) : prog Response :=
  w <- call_ (CWrite o);
  match w with
  | Err e => Ret (default (if is_not_found e then respondError 404 "user not found" else accountManagementError e) (other e))
  | Ok _ => respondUserWithStatus targetID
  end.

Definition enableAccount (targetID : string) (authority : AccountManagementActor) : prog Response :=
  _ <-? GuardMutation targetID else (fun e => Ret (securityError e));
  changed_or targetID (fun m => SEnable targetID authority (mo_clk m) (mo_audited m)) (fun _ => None).

(** [body]: the decoded field, absent when the request leaves it out. *)
Definition handleUpdateUserStatus (r : Request) (targetID : string) (body : option (option bool)) (i : Identity) : prog Response :=
  authority <- accountManagementActor r i;
  refuse! bool_decide (targetID = ""), respondError 400 errMissingUserID;
  match body with
  | None => Ret (respondError 400 errInvalidRequestBody)
  | Some None => Ret (respondError 400 "disabled is required")
  | Some (Some true) => disableAccount (if_UserID i) targetID authority
  | Some (Some false) => enableAccount targetID authority
  end.

Definition handleUnlockUser (r : Request) (targetID : string) (i : Identity) : prog Response :=
  authority <- accountManagementActor r i;
  _ <-? GuardMutation targetID else (fun e => Ret (securityError e));
  refuse! bool_decide (targetID = ""), respondError 400 errMissingUserID;
  changed_or targetID (fun m => SUnlock targetID authority (mo_clk m) (mo_audited m)) (fun _ => None).

Definition handleSetDormancyExempt (r : Request) (targetID : string) (body : option (option bool)) (i : Identity) : prog Response :=
  authority <- accountManagementActor r i;
  _ <-? GuardMutation targetID else (fun e => Ret (securityError e));
  refuse! bool_decide (targetID = ""), respondError 400 errMissingUserID;
  match body with
  | None => Ret (respondError 400 errInvalidRequestBody)
  | Some None => Ret (respondError 400 "exempt is required")
  | Some (Some exempt) =>
      changed_or targetID (fun m => SExempt targetID exempt authority (mo_clk m) (mo_audited m))
        (fun e => if bool_decide (e = ErrNotAdmin) then Some (respondError 400 "dormancy exemption applies to administrator accounts only") else None)
  end.

Definition handleReactivateUser (r : Request) (target : string) (i : Identity) : prog Response :=
  authority <- accountManagementActor r i;
  w <- call_ (CManaged target (fun m => SReactivate target authority (mo_clk m) (mo_audited m)));
  match w with
  | Err e => _ <- auditAccountManagementRefusal (if_UserID i) target "user.reactivated" e; Ret (accountManagementError e)
  | Ok u => st <- accountStatus u; Ret (mkResponse 200 (BUser u st))
  end.

(** [body]: the revision the administrator has seen. *)
Definition handleResetUserPassword (r : Request) (target : string) (body : option (option Z)) (i : Identity) : prog Response :=
  authority <- accountManagementActor r i;
  refuse! bool_decide (if_UserID i = target), respondError 400 "use the self-service password change for your own account";
  match body with
  | Some (Some expected) =>
      refuse! expected <? 0, respondError 400 "expected_revision is required";
      _ <-? GuardMutation target else (fun e => Ret (securityError e));
      current <-? call_ (CUserByID target) else (fun e => Ret (accountManagementError e));
      refuse! negb (bool_decide (u_AuthProvider current = AuthProviderLocal)), accountManagementError ErrLocalPasswordOnly;
      refuse! negb (u_TokenGeneration current =? expected), accountManagementError ErrSecurityConflict;
      password <- call_ CTemporaryPassword;
      hash <-? call_ (CHash password) else reply 500 "failed to hash password";
      hours <- call_ CTemporaryTTL;
      history <- call_ CHistory;
      now <- call_ CNow;
      let expires := truncSecond (now + ttl_of hours) in
      w <- call_ (CManaged target (fun m => SReset target expected hash expires history (Some (if_UserID i)) authority (mo_clk m) (mo_audited m)));
      match w with
      | Err e => _ <- auditAccountManagementRefusal (if_UserID i) target "user.password_reset" e; Ret (accountManagementError e)
      | Ok u =>
          _ <- call_ (CEndShells target);
          _ <- accountStatus u;
          Ret (mkResponse 200 (BCreated u password (Some expires)))
      end
  | _ => Ret (respondError 400 "expected_revision is required")
  end.

(** [body]: the account and the administrator's own code. *)
Definition handleTOTPDisable (r : Request) (body : option (string * string)) (i : Identity) : prog Response :=
  match body with
  | None => Ret (respondError 400 errInvalidRequestBody)
  | Some (userID, code) =>
      _ <-? GuardMutation userID else (fun e => Ret (totpPersistenceError e));
      refuse! bool_decide (userID = if_UserID i), respondError 400 "cannot disable your own 2FA";
      admin <-? call_ (CUserByID (if_UserID i)) else reply 404 "admin user not found";
      c <- call_ (CParse (rq_Access r));
      match c with
      | Err _ => Ret (totpPersistenceError ErrAccountManagementActor)
      | Ok claims =>
          match (if bool_decide (cl_TokenType claims = TokenTypeAccess) && bool_decide (cl_Subject claims = if_UserID i)
                    && (cl_TokenGeneration claims =? u_TokenGeneration admin) && u_TOTPEnabled admin then cl_ExpiresAt claims else None) with
          | None => Ret (totpPersistenceError ErrAccountManagementActor)
          | Some expires =>
              let actor := mkManager (if_UserID i) (cl_SessionID claims) (cl_TokenGeneration claims) (u_SecurityRevision admin) expires "" in
              secret <-? totpSecretForValidation (u_TOTPSecret admin) else reply 500 "failed to decrypt admin TOTP secret";
              ok <- check_code (if_UserID i) secret code;
              refuse! negb ok, respondError 401 "invalid admin TOTP code";
              target <-? call_ (CUserByID userID) else reply 404 "user not found";
              _ <-? call_ (CWrite (fun m => SRemoveFactor userID actor (mo_clk m) (mo_audited m))) else (fun e => Ret (totpPersistenceError e));
              _ <- call_ (CEndStale userID);
              _ <- call_ (CNotify "security.totp_changed" (u_Username target));
              Ret (mkResponse 200 (BStatus "totp disabled"))
          end
      end
  end.

(** ** Sessions (handlers_sessions.go) *)

Definition shellRowPrefix : string := "shell:".
Definition sessionHistoryWindow : Duration := 30 * 24 * Hour.
Definition shellRowID (serverID terminalID : string) : string := shellRowPrefix +:+ serverID +:+ ":" +:+ terminalID.

(** [strings.Cut(s, ":")] *)
Fixpoint cut_colon (s : string) : option (string * string) :=
  match s with
  | EmptyString => None
  | String a t => if bool_decide (a = Ascii.ascii_of_nat 58) then Some ("", t)
                  else match cut_colon t with Some (x, y) => Some (String a x, y) | None => None end
  end.
Fixpoint cut_prefix (s p : string) {struct p} : option string :=
  match p, s with
  | EmptyString, _ => Some s
  | String a p', String b s' => if bool_decide (a = b) then cut_prefix s' p' else None
  | String _ _, EmptyString => None
  end.
Definition parseShellRowID (id : string) : option (string * string) :=
  match cut_prefix id shellRowPrefix with
  | None => None
  | Some rest =>
      match cut_colon rest with
      | Some (server, terminal) => if bool_decide (server = "") || bool_decide (terminal = "") then None else Some (server, terminal)
      | None => None
      end
  end.

Definition shellRowKind (kind : string) : string := if bool_decide (kind = "ssh") then "ssh" else "terminal".

Fixpoint shellRows (userID : string) (infos : list ShellInfo) : prog (list Session) :=
  match infos with
  | [] => Ret []
  | s :: t =>
      name <- call_ (CServerName (si_ServerID s));
      rest <- shellRows userID t;
      Ret (mkSession (shellRowID (si_ServerID s) (si_SessionID s)) userID (shellRowKind (si_Kind s)) "" "" (si_StartedAt s) (si_LastActivity s)
             None None None "" None false name (Some (si_StartedAt s)) (Some (si_LastActivity s)) :: rest)
  end.

(** A stored session as it is listed. *)
Definition listed (currentSID : string) (p : Policy) (s : Session) : Session :=
  mkSession (s_ID s) (s_UserID s) (s_Kind s) (s_IP s) (s_UserAgent s) (s_CreatedAt s) (s_LastSeenAt s) (s_ExpiresAt s)
    (if bool_decide (s_EndedAt s = None) then IdleDeadline (StateFromModel s) p else s_IdleDeadlineAt s)
    (s_EndedAt s) (s_EndReason s) (s_EndedBy s) (negb (bool_decide (currentSID = "")) && bool_decide (s_ID s = currentSID))
    (s_Server s) (s_StartedAt s) (s_LastActivityAt s).

Definition sessionsFor (userID currentSID : string) (includeEnded : bool) : prog (result (list Session)) :=
  p <-? call_ CPolicy;
  now <- call_ CNow;
  stored <-? call_ (CSessions userID includeEnded (now - sessionHistoryWindow));
  infos <- call_ (CShells userID);
  shells <- shellRows userID infos;
  Ret (Ok (map (listed currentSID p) stored ++ shells)).

Definition respondSessionList (userID currentSID : string) (includeEnded : bool) : prog Response :=
  rows <-? sessionsFor userID currentSID includeEnded else reply 500 "failed to list sessions";
  Ret (mkResponse 200 (BSessions rows)).

Definition sessionTargetUser (userID : string) (k : User → prog Response) : prog Response :=
  refuse! bool_decide (userID = ""), respondError 400 errMissingUserID;
  u <-? call_ (CUserByID userID) else (fun e => Ret (if is_not_found e then respondError 404 "user not found" else respondError 500 "failed to load user"));
  k u.

Definition endStatus (wasLive : bool) : string := if wasLive then "ended" else "already_ended".

Definition endOneShell (target : User) (sid : string) : prog Response :=
  match parseShellRowID sid with
  | None => Ret (respondError 404 "session not found")
  | Some (server, terminal) =>
      infos <- call_ (CShells (u_ID target));
      refuse! negb (existsb (fun s => bool_decide (si_ServerID s = server) && bool_decide (si_SessionID s = terminal)) infos),
        respondError 404 "session not found";
      closed <- call_ (CEndShell server terminal);
      Ret (mkResponse 200 (BStatus (endStatus closed)))
  end.

Definition endOneSession (actorID : option string) (target : User) (sid reason : string) : prog Response :=
  if HasPrefix sid shellRowPrefix then endOneShell target sid else
  s <- call_ (CSession sid);
  match s with
  | Err e => Ret (if bool_decide (e = ErrSessionNotFound) then respondError 404 "session not found" else respondError 500 "failed to read session")
  | Ok s =>
      refuse! negb (bool_decide (s_UserID s = u_ID target)), respondError 404 "session not found";
      n <- endSessions actorID target [sid] false None reason;
      Ret (mkResponse 200 (BStatus (if bool_decide (s_EndedAt s = None) then endStatus (0 <? n.1) else "already_ended")))
  end.

Definition handleListUserSessions (id : string) (includeEnded : bool) (i : Identity) : prog Response :=
  sessionTargetUser id (fun u => respondSessionList (u_ID u) (if_SessionID i) includeEnded).
Definition handleEndUserSession (id sid : string) (i : Identity) : prog Response :=
  sessionTargetUser id (fun u => endOneSession (Some (if_UserID i)) u sid SessionEndRevokedAdmin).
Definition handleEndUserSessions (id : string) (i : Identity) : prog Response :=
  sessionTargetUser id (fun u =>
    n <- endSessions (Some (if_UserID i)) u [] true None SessionEndRevokedAdmin; Ret (mkResponse 200 (BEnded n.1 n.2))).
Definition handleMySessions (i : Identity) : prog Response := respondSessionList (if_UserID i) (if_SessionID i) false.
Definition handleEndMySession (sid : string) (i : Identity) : prog Response :=
  refuse! bool_decide (sid = if_SessionID i) && negb (bool_decide (sid = "")), respondError 400 "cannot end the current session here — use logout";
  sessionTargetUser (if_UserID i) (fun u => endOneSession (Some (if_UserID i)) u sid SessionEndRevokedSelf).
Definition handleSignOutOthers (i : Identity) : prog Response :=
  sessionTargetUser (if_UserID i) (fun u =>
    n <- endSessions (Some (if_UserID i)) u [] true (Some (if_SessionID i)) SessionEndRevokedSelf; Ret (mkResponse 200 (BEnded n.1 n.2))).
