(* ===== verification/SignInProtocol.v ===== *)
(** Runs of the hub's sign-in: any number of requests (SignIn.v, AccountAdmin.v)
    interleave, call by call, with each other and with every other operation of the
    store.

    [w_log] is not state of the program: it remembers what calls answered and to
    which request, the latest first, so that theorems can say what preceded what and
    which request it was that learned it ([own]).  The log only grows, which is why
    what a handler has learned is not undone by the other handlers. *)

From S2P Require Import Prelude Prog Codec Filepath Lockout Model Account Session Governance SecurityStore SecurityProtocol Transition AuthTokens AccountStore SignIn AccountAdmin.
Local Open Scope prog_scope.

(** ** What is remembered *)

Inductive fact :=
| FNow (t : Time)
| FDrawn (id : string)
| FPolicy (p : Policy)
| FRead (u : User)
| FSession (s : Session)
| FAccepted (hash password : string)
| FBound (username : string) (i : LDAPIdentity)
| FCode (user secret : string)
| FDecrypted (stored secret : string)
| FSigned (token : string) (c : Claims)
| FParsed (token : string) (c : Claims)
| FToken (hash : string) (row : TokenRow)
| FEffective (e : EffectiveCapabilities)
| FDone (o : Moment → sop)
| FOp (o : sop)
| FShells (user : string)
| FServed (i : Identity).

(** What a handler learns from an answer. *)
Definition learned {B} (c : call B) : B → list fact :=
  match c in call B return B → list fact with
  | CNow => fun t => [FNow t]
  | CUUID => fun id => [FDrawn id]
  | CPolicy => fun r => match r with Ok p => [FPolicy p] | Err _ => [] end
  | CUserByID _ | CUserByName _ | CUserByExternal _ _ => fun r => match r with Ok u => [FRead u] | Err _ => [] end
  | CSession _ => fun r => match r with Ok s => [FSession s] | Err _ => [] end
  | CCompare hash password => fun ok => if ok : bool then [FAccepted hash password] else []
  | CAuthenticate username _ => fun r => match r with Ok i => [FBound username i] | Err _ => [] end
  | CCode user secret _ _ => fun ok => if ok : bool then [FCode user secret] else []
  | CDecrypt stored => fun r => match r with Ok secret => [FDecrypted stored secret] | Err _ => [] end
  | CParse token => fun r => match r with Ok c => [FParsed token c] | Err _ => [] end
  | CToken hash => fun r => match r with Ok t => [FToken hash t.2] | Err _ => [] end
  | CEffective _ => fun r => match r with Ok e => [FEffective e] | Err _ => [] end
  | CWrite o => fun r => match r with Ok _ => [FDone o] | Err _ => [] end
  | CManaged _ o => fun r => match r with Ok _ => [FDone o] | Err _ => [] end
  | CEndShells user => fun _ => [FShells user]
  | CServe user role tokenType session => fun _ => [FServed (mkIdentified user role tokenType session)]
  | _ => fun _ => []
  end.

(** ** The hub *)

Abbreviation Log := (list (nat * fact)) (only parsing).
Record World := mkWorld { w_gov : Gov; w_codes : gmap string Z; w_blacklist : TokenBlacklist; w_log : Log }.
Definition with_gov (w : World) g := mkWorld g (w_codes w) (w_blacklist w) (w_log w).
Definition with_codes (w : World) c := mkWorld (w_gov w) c (w_blacklist w) (w_log w).
Definition with_blacklist (w : World) b := mkWorld (w_gov w) (w_codes w) b (w_log w).
Definition note (n : nat) (w : World) (fs : list fact) := mkWorld (w_gov w) (w_codes w) (w_blacklist w) (map (pair n) fs ++ w_log w).

(** What is not decided by the state: clocks, random texts, the answers of the
    directory and of the libraries, failures. *)
Record Oracle := mkOracle {
  o_fail : option (goerr * bool);          (* the database fails, before or after it committed *)
  o_now : Time; o_id : string;
  o_text : result string;                  (* a hash, a secret, a ciphertext, a signed token *)
  o_claims : result Claims;                (* what the token library reads *)
  o_identity : result LDAPIdentity;
  o_moment : Moment;
  o_clk : string → Time;                   (* the readings of the cleanup of codes *)
  o_reads : bool; o_rereads : bool;        (* queries of the blacklist *)
  o_servers : list string; o_shells : list ShellInfo; o_count : Z;
}.

Section hub.
Context (named : string → list string) (J : JSON) (proposal : string → option SecurityChangePayload) (payload : string → option string).
(** bcrypt and the one-time code library; [arrays] reads a list of strings. *)
Context (compare : string → string → bool) (valid : string → string → Time → bool) (arrays : string → option (list string)) (U : Unicode).

Abbreviation try := (stry named J proposal) (only parsing).

Definition failing {A} (o : Oracle) (r : result A) : result A := match o_fail o with Some (e, _) => Err e | None => r end.

(** A transaction of request [n]: what it commits and whether it succeeded. *)
Definition transact {A} (n : nat) (o : Oracle) (w : World) (r : result (Gov * A)) (f : A → list fact) : World * result A :=
  match r with
  | Err e => (w, Err e)
  | Ok (g, a) =>
      match o_fail o with
      | Some (e, true) => (note n (with_gov w g) (f a), Err e)
      | Some (e, false) => (w, Err e)
      | None => (note n (with_gov w g) (f a), Ok a)
      end
  end.
Definition pure {A} (r : result Gov) (a : A) : result (Gov * A) := g <-! r; Ok (g, a).

(** Tokens cannot be forged: what the library accepts was signed with the same
    claims. *)
Definition authentic (w : World) (token : string) (c : Claims) : bool :=
  existsb (fun f => match f.2 with
                    | FSigned t d => bool_decide (t = token) && bool_decide (cl_Subject d = cl_Subject c) && bool_decide (cl_Role d = cl_Role c)
                                     && bool_decide (cl_TokenType d = cl_TokenType c) && (cl_TokenGeneration d =? cl_TokenGeneration c)
                                     && bool_decide (cl_SessionID d = cl_SessionID c)
                    | _ => false
                    end) (w_log w).

(** The state a call of request [n] leaves and its answer. *)
Definition answer (n : nat) (o : Oracle) (w : World) {B} (c : call B) : World * B :=
  let g := w_gov w in
  match c in call B return World * B with
  | CNow => (w, o_now o)
  | CUUID => (w, o_id o)
  | CUserByID id => (w, failing o (GetUserByID g id))
  | CUserByName name => (w, failing o (GetUserByUsername g name))
  | CUserByExternal p e => (w, failing o (GetUserByExternalIdentity g p e))
  | CPolicy => (w, AccountPolicy g (bool_decide (o_fail o = None)))
  | CLenientPolicy => (w, Load (GetConfig g (bool_decide (o_fail o = None))))
  | CConfig key => (w, failing o (Ok (ac_config (gv_accounts g) !! key)))
  | CSetupComplete => (w, failing o (Ok (InitialSetupComplete g)))
  | CUserCount => (w, if bool_decide (o_fail o = None) then UserCount g else 0)
  | CProtected user => (w, failing o (Ok (IsProtectedUser named g user)))
  | CCompare hash password => (w, compare hash password)
  | CHash _ => (w, o_text o)
  | CRecent user password limit => (w, failing o (Ok (PasswordMatchesRecent compare g user password limit)))
  | CHistory => (w, PasswordHistoryCount g (bool_decide (o_fail o = None)))
  | CAuthenticate _ _ => (w, o_identity o)
  | CParse token => (w, match o_claims o with Ok c => if authentic w token c then Ok c else Err (ErrText "invalid token") | Err e => Err e end)
  | CSign s =>
      match o_text o with
      | Ok token =>
          (note n w [FSigned token (generateToken (o_id o) (o_now o) (sp_User s) (sp_Role s) (sp_Type s) (sp_Expiry s) (sp_Generation s) (sp_Session s))],
           Ok token)
      | Err e => (w, Err e)
      end
  | CTOTPSecret _ | CEncrypt _ | CDecrypt _ => (w, o_text o)
  | CCode user secret code now =>
      let '(codes, ok) := ValidateTOTPWithReplayAt valid (w_codes w) user secret code now (o_now o) (o_clk o) in (with_codes w codes, ok)
  | CBlacklisted jti => let '(b, r) := IsBlacklisted (w_blacklist w) jti (o_now o) (o_reads o) (o_rereads o) in (with_blacklist w b, r)
  | CBlacklist jti expiry => (with_blacklist w (Add (w_blacklist w) jti expiry (o_now o) (o_reads o)), tt)
  | CSession id => (w, failing o (GetSession g id))
  | CEndSession id reason by_ now =>
      let '(g', r) := EndSession g id reason by_ now in transact n o w (a <-! r; Ok (g', a)) (fun _ => [])
  | CFailure user now p => let '(g', r) := RecordLoginFailure g user now p in transact n o w (a <-! r; Ok (g', a)) (fun _ => [])
  | CToken hash => (w, failing o (GetActiveAPITokenByHash g hash (o_now o)))
  | CWrite f => transact n o w (pure (try g (f (o_moment o))) tt) (fun _ => [FDone f; FOp (f (o_moment o))])
  | CManaged user f => transact n o w (g' <-! try g (f (o_moment o)); u <-! GetUserByID g' user; Ok (g', u)) (fun _ => [FDone f; FOp (f (o_moment o))])
  | CRevokeFamily user session _ now => transact n o w (Ok (RevokeApplicationFamily g user session now, tt)) (fun _ => [])
  | CRevokeApplications user except _ now => transact n o w (Ok (RevokeUserApplications g user except now, tt)) (fun _ => [])
  | CEffective user => (w, Governance.Effective (match o_fail o with Some (e, _) => broken e | None => view payload g end) (o_now o) user)
  | CDisable user by_ actor =>
      transact n o w (r <-! DisableUserAudited g user by_ actor (mo_clk (o_moment o)) (mo_audited (o_moment o)); Ok (r.1, r.2.2))
        (fun _ => [FOp (SDisable user by_ actor (mo_clk (o_moment o)) (mo_audited (o_moment o)))])
  | CEndUserSessions user except reason by_ now =>
      let '(g', ids) := EndUserSessions g user except reason by_ now in transact n o w (Ok (g', ids)) (fun _ => [])
  | CSessions user includeEnded since => (w, failing o (Ok (ListUserSessions g user includeEnded since)))
  | CExclusive _ => (w, failing o (Ok (o_servers o)))
  | CTemporaryTTL => (w, TemporaryPasswordTTLHours g (bool_decide (o_fail o = None)))
  | CTemporaryPassword | CServerName _ => (w, o_id o)
  | CShells _ => (w, o_shells o)
  | CEndShell _ _ => (w, 0 <? o_count o)
  | CEndSessionShells _ | CEndShells _ => (w, o_count o)
  | CAudit _ | CNotify _ _ | CEndStale _ | CServe _ _ _ _ => (w, tt)
  end.

(** The transactions note what they commit themselves. *)
Definition noted {B} (c : call B) : bool := match c with CWrite _ | CManaged _ _ | CDisable _ _ _ => true | _ => false end.
Definition perform (n : nat) (o : Oracle) (w : World) {B} (c : call B) : World * B :=
  let r := answer n o w c in
  (if noted c then r.1 else note n r.1 (learned c r.2), r.2).

(** ** Requests (router.go) *)

Inductive request :=
| RqRegister (r : Request) (body : option (string * string * string))
| RqLogin (r : Request) (body : option (string * string))
| RqLoginTOTP (r : Request) (body : option (string * string))
| RqRefresh (r : Request) (body : option string)
| RqLogout (r : Request)
| RqTOTPSetup (r : Request)
| RqTOTPEnable (r : Request) (body : option (string * string))
| RqRecovery (bearer body : option string)
| RqChangePassword (r : Request) (body : option (string * string))
| RqTOTPDisable (r : Request) (body : option (string * string))
| RqMySessions (r : Request)
| RqSignOutOthers (r : Request)
| RqEndMySession (r : Request) (sid : string)
| RqCreateUser (r : Request) (body : option (string * string * string))
| RqUserRole (r : Request) (id : string) (body : option string)
| RqDeleteUser (r : Request) (id : string) (force : bool)
| RqReactivate (r : Request) (id : string)
| RqResetPassword (r : Request) (id : string) (body : option (option Z))
| RqUserStatus (r : Request) (id : string) (body : option (option bool))
| RqUnlock (r : Request) (id : string)
| RqExempt (r : Request) (id : string) (body : option (option bool))
| RqUserSessions (r : Request) (id : string) (includeEnded : bool)
| RqEndUserSessions (r : Request) (id : string)
| RqEndUserSession (r : Request) (id sid : string)
| RqOther (r : Request) (gates : list gate).

Definition handler (rq : request) : prog Response :=
  let access := route TokenTypeAccess in
  match rq with
  | RqRegister r body => handleRegister U r body
  | RqLogin r body => handleLogin arrays r body
  | RqLoginTOTP r body => handleLoginTOTP r body
  | RqRefresh r body => handleRefresh r body
  | RqLogout r => handleLogout r
  | RqTOTPSetup r => route TokenTypeSetup [] r (handleTOTPSetup r)
  | RqTOTPEnable r body => route TokenTypeSetup [] r (handleTOTPEnable U r body)
  | RqRecovery bearer body => handleCompletePasswordRecovery U bearer body
  | RqChangePassword r body => access [GInteractive] r (handleChangePassword U r body)
  | RqTOTPDisable r body => access [GInteractive; GAdmin] r (handleTOTPDisable r body)
  | RqMySessions r => access [GInteractive] r handleMySessions
  | RqSignOutOthers r => access [GInteractive] r handleSignOutOthers
  | RqEndMySession r sid => access [GInteractive] r (handleEndMySession sid)
  | RqCreateUser r body => access [GAdmin] r (handleCreateUser r body)
  | RqUserRole r id body => access [GAdmin] r (handleUpdateUserRole r id body)
  | RqDeleteUser r id force => access [GAdmin] r (handleDeleteUser r id force)
  | RqReactivate r id => access [GInteractive; GAdmin] r (handleReactivateUser r id)
  | RqResetPassword r id body => access [GInteractive; GAdmin] r (handleResetUserPassword r id body)
  | RqUserStatus r id body => access [GAdmin] r (handleUpdateUserStatus r id body)
  | RqUnlock r id => access [GAdmin] r (handleUnlockUser r id)
  | RqExempt r id body => access [GAdmin] r (handleSetDormancyExempt r id body)
  | RqUserSessions r id ended => access [GAdmin] r (handleListUserSessions id ended)
  | RqEndUserSessions r id => access [GAdmin] r (handleEndUserSessions id)
  | RqEndUserSession r id sid => access [GAdmin] r (handleEndUserSession id sid)
  | RqOther r gates => access gates r serve
  end.

(** ** Runs *)

Record Hub := mkHub { h_world : World; h_threads : list (prog Response) }.

Inductive event :=
| EStart (rq : request)
| ECall (thread : nat) (o : Oracle)        (* one call of a request *)
| EStore (o : sop).                        (* anything else that changes the store *)

Definition estep (h : Hub) (e : event) : Hub :=
  match e with
  | EStart rq => mkHub (h_world h) (h_threads h ++ [handler rq])
  | ECall n o =>
      match h_threads h !! n with
      | Some (Call c k) => let '(w, b) := perform n o (h_world h) c in mkHub w (<[n := k b]> (h_threads h))
      | _ => h
      end
  | EStore o => mkHub (with_gov (h_world h) (sstep named J proposal (w_gov (h_world h)) o)) (h_threads h)
  end.
Definition erun (h : Hub) (es : list event) : Hub := foldl estep h es.

(** A hub that has just started: no request, nothing remembered. *)
Definition starting (g : Gov) (b : TokenBlacklist) : Hub := mkHub (mkWorld g ∅ b []) [].
End hub.

(** ** What must precede what *)

Abbreviation K_type := (fact → Prop) (only parsing).

Definition sane {B} (c : call B) : B → Prop :=
  match c in call B return B → Prop with
  | CUserByID id => fun r => match r with Ok u => u_ID u = id | Err _ => True end
  | CUserByName name => fun r => match r with Ok u => u_Username u = name | Err _ => True end
  | CUserByExternal p e => fun r => match r with Ok u => u_AuthProvider u = p ∧ u_ExternalID u = e ∧ e ≠ "" | Err _ => True end
  | CSession id => fun r => match r with Ok s => s_ID s = id | Err _ => True end
  | CEffective user => fun r => match r with Ok e => e_UserID e = user | Err _ => True end
  | _ => fun _ => True
  end.

(** The directory accepted the password and the account is the one it vouches for. *)
Definition vouched (K : K_type) (user : string) : Prop :=
  ∃ username i, K (FBound username i) ∧
    ((∃ e, K (FRead e) ∧ u_ID e = user ∧ u_AuthProvider e = AuthProviderLDAP ∧
           ((u_ExternalID e = id_ExternalID i ∧ id_ExternalID i ≠ "") ∨ u_Username e = firstNonEmpty (id_Username i) username))
     ∨ (∃ u, K (FDone (fun m => SRegister u (mo_stamp m) (mo_taken m))) ∧ u_ID u = user ∧ u_AuthProvider u = AuthProviderLDAP ∧
             u_ExternalID u = id_ExternalID i ∧ u_Username u = firstNonEmpty (id_Username i) username)).

(** The password of the account was accepted, by the hub or by the directory. *)
Definition primary (K : K_type) (user : string) : Prop :=
  (∃ u password, K (FRead u) ∧ u_ID u = user ∧ K (FAccepted (u_PasswordHash u) password)) ∨ vouched K user.

(** The account was registered as the first of the hub. *)
Definition registered (K : K_type) (user : string) : Prop :=
  ∃ username email hash, K (FDone (fun m => SRegister (first_admin user username email hash) (mo_stamp m) (mo_taken m))).

Definition presented (K : K_type) (tokenType user session : string) : Prop :=
  ∃ token c, K (FParsed token c) ∧ cl_TokenType c = tokenType ∧ cl_Subject c = user ∧ cl_SessionID c = session.
(** A one-time code of the account was accepted, checked against the secret that was
    stored for it. *)
Definition checked (K : K_type) (user : string) : Prop :=
  ∃ u stored secret, K (FRead u) ∧ u_ID u = user ∧ u_TOTPSecret u = Some stored ∧ (secret = stored ∨ K (FDecrypted stored secret)) ∧ K (FCode user secret).
(** The second factor of the account was enabled. *)
Definition enabled_factor (K : K_type) (user : string) : Prop :=
  ∃ u encrypted hash history authority, u_ID u = user ∧
    K (FDone (fun m => SSetup u encrypted hash history (Some user) (mo_shell1 m) (mo_shell2 m) authority (mo_clk m) (mo_audited m))).
(** The request came with a token of the password stage: that of an account with a
    second factor, or that of one whose factor the same request has enabled. *)
Definition challenged (K : K_type) (user : string) : Prop :=
  ∃ session, presented K TokenTypeTOTP user session ∨ (presented K TokenTypeSetup user session ∧ enabled_factor K user).
Definition opened (K : K_type) (user session : string) : Prop :=
  ∃ s, K (FDone (fun _ => SCreate s)) ∧ s_ID s = session ∧ s_UserID s = user.

Definition may_sign (K : K_type) (tokenType user session : string) : Prop :=
  if bool_decide (tokenType = TokenTypeTOTP) then primary K user
  else if bool_decide (tokenType = TokenTypeSetup) then primary K user ∨ registered K user
  else if bool_decide (tokenType = TokenTypePasswordRecovery) then checked K user ∧ ∃ session, presented K TokenTypeTOTP user session
  else (tokenType = TokenTypeAccess ∨ tokenType = TokenTypeRefresh) ∧ (opened K user session ∨ presented K TokenTypeRefresh user session).

(** Who a request was authenticated as. *)
Definition access_token (K : K_type) (i : Identity) (token : string) : Prop :=
  ∃ c u s now p,
    K (FParsed token c) ∧ cl_TokenType c = TokenTypeAccess ∧ cl_Subject c = if_UserID i ∧ cl_SessionID c = if_SessionID i ∧
    K (FRead u) ∧ u_ID u = if_UserID i ∧ u_TokenGeneration u = cl_TokenGeneration c ∧ u_MustChangePassword u = false ∧
    K (FSession s) ∧ s_ID s = if_SessionID i ∧ K (FNow now) ∧ K (FPolicy p) ∧ Session.Evaluate (StateFromModel s) now p = VerdictOK.
Definition by_access (K : K_type) (i : Identity) : Prop := ∃ token, access_token K i token.
Definition by_token (K : K_type) (i : Identity) : Prop :=
  ∃ hash row u, K (FToken hash row) ∧ tk_user row = if_UserID i ∧ K (FRead u) ∧ u_ID u = if_UserID i ∧ u_MustChangePassword u = false.
Definition identified (K : K_type) (i : Identity) : Prop :=
  if bool_decide (if_TokenType i = TokenTypeAccess) then by_access K i
  else (if_TokenType i = TokenTypeAPIToken ∧ by_token K i) ∨ presented K (if_TokenType i) (if_UserID i) (if_SessionID i).

(** An authenticated request of a user who may administer, and the actor it stands for. *)
Definition administrator (K : K_type) (i : Identity) : Prop :=
  identified K i ∧ (if_TokenType i = TokenTypeAccess ∨ if_TokenType i = TokenTypeAPIToken) ∧
  ∃ e, K (FEffective e) ∧ e_UserID e = if_UserID i ∧ Can e "operations.admin" = true.
Definition acts (K : K_type) (a : AccountManagementActor) : Prop :=
  ∃ i, administrator K i ∧ (a = noActor ∨ am_UserID a = if_UserID i).

(** The operations an administrator asks for. *)
Definition managed_by (o : sop) : option AccountManagementActor :=
  match o with
  | SDisable _ _ a _ _ | SEnable _ a _ _ | SUnlock _ a _ _ | SExempt _ _ a _ _ | SReactivate _ a _ _ | SRole _ _ a _ _
  | SDelete _ a _ _ | SAdd _ a _ _ _ | SReset _ _ _ _ _ _ a _ _ | SRemoveFactor _ a _ _ => Some a
  | _ => None
  end.
(** The account an operation adds. *)
Definition added (o : sop) : option User := match o with SAdd u _ _ _ _ | SRegister u _ _ => Some u | _ => None end.
Definition op_ok (K : K_type) (o : sop) : Prop :=
  (∀ s, o = SCreate s → checked K (s_UserID s) ∧ challenged K (s_UserID s)) ∧
  (∀ a, managed_by o = Some a → acts K a) ∧
  (∀ user a clk w, o = SRemoveFactor user a clk w → checked K (am_UserID a)) ∧
  (∀ u, added o = Some u → K (FDrawn (u_ID u))).

(** What request [n] has learned. *)
Definition own (n : nat) (log : Log) : K_type := fun f => (n, f) ∈ log.

(** What must have been remembered before request [n] learns [f]: all of it by the same
    request, but for the signature of a token. *)
Definition fact_ok (log : Log) (n : nat) (f : fact) : Prop :=
  let K := own n log in
  match f with
  | FSigned _ c => may_sign K (cl_TokenType c) (cl_Subject c) (cl_SessionID c)
  | FParsed token c => ∃ m d, (m, FSigned token d) ∈ log ∧ cl_Subject d = cl_Subject c ∧ cl_TokenType d = cl_TokenType c
                            ∧ cl_TokenGeneration d = cl_TokenGeneration c ∧ cl_SessionID d = cl_SessionID c
  | FDone o => ∀ m, op_ok K (o m)
  | FOp o => op_ok K o
  | FServed i => identified K i
  | _ => True
  end.

(** What a call asks for. *)
Definition pre {B} (c : call B) (K : K_type) : Prop :=
  match c with
  | CSign s => may_sign K (sp_Type s) (sp_User s) (sp_Session s)
  | CWrite o | CManaged _ o => ∀ m, op_ok K (o m)
  | CDisable _ _ a => acts K a
  | CServe user role tokenType session => identified K (mkIdentified user role tokenType session)
  | _ => True
  end.
Definition post {B} (c : call B) (b : B) (f : fact) : Prop := f ∈ learned c b.

Fixpoint ordered (log : Log) : Prop :=
  match log with [] => True | f :: t => fact_ok t f.1 f.2 ∧ ordered t end.

(** ** More knowledge does no harm *)

Section mono.
Context {K K' : K_type} (H : knows_le K K').

Lemma vouched_mono user : vouched K user → vouched K' user.
Proof using H.
  intros (n & i & Hb & [(e & He & ?)|(u & Hu & ?)]); exists n, i; (split; [by apply H|]).
  - left. exists e. split; [by apply H|done].
  - right. exists u. split; [by apply H|done].
Qed.
Lemma primary_mono user : primary K user → primary K' user.
Proof using H.
  intros [(u & p & ? & ? & ?)|?]; [left; exists u, p; auto|right; by apply vouched_mono].
Qed.
Lemma registered_mono user : registered K user → registered K' user.
Proof using H. intros (? & ? & ? & ?). unfold registered. eauto. Qed.
Lemma presented_mono t user s : presented K t user s → presented K' t user s.
Proof using H. intros (token & c & ? & ?). exists token, c. auto. Qed.
Lemma checked_mono user : checked K user → checked K' user.
Proof using H. intros (u & st & sec & ? & ? & ? & Hd & ?). exists u, st, sec. split_and!; auto. destruct Hd; auto. Qed.
Lemma enabled_mono user : enabled_factor K user → enabled_factor K' user.
Proof using H. intros (u & e & h & k & a & ? & ?). exists u, e, h, k, a. auto. Qed.
Lemma challenged_mono user : challenged K user → challenged K' user.
Proof using H. intros (s & [?|[? ?]]); exists s; [left|right]; auto using presented_mono, enabled_mono. Qed.
Lemma opened_mono user s : opened K user s → opened K' user s.
Proof using H. intros (x & ? & ?). exists x. auto. Qed.
Lemma may_sign_mono t user s : may_sign K t user s → may_sign K' t user s.
Proof using H.
  unfold may_sign. repeat case_match.
  - apply primary_mono.
  - intros [?|?]; [left; by apply primary_mono|right; by apply registered_mono].
  - intros [? [x ?]]. split; [by apply checked_mono|exists x; by apply presented_mono].
  - intros [? [?|?]]; (split; [done|]); [left; by apply opened_mono|right; by apply presented_mono].
Qed.
Lemma by_access_mono i : by_access K i → by_access K' i.
Proof using H.
  intros (token & c & u & s & now & p & ? & ? & ? & ? & ? & ? & ? & ? & ? & ? & ? & ? & ?). exists token, c, u, s, now, p. split_and!; auto.
Qed.
Lemma identified_mono i : identified K i → identified K' i.
Proof using H.
  unfold identified. case_match; [apply by_access_mono|]. intros [(? & hash & row & u & ? & ? & ? & ? & ?)|?].
  - left. split; [done|]. exists hash, row, u. split_and!; auto.
  - right. by apply presented_mono.
Qed.
Lemma administrator_mono i : administrator K i → administrator K' i.
Proof using H. intros (? & ? & e & ? & ?). split_and!; [by apply identified_mono|done|exists e; auto]. Qed.
Lemma acts_mono a : acts K a → acts K' a.
Proof using H. intros (i & ? & ?). exists i. split; [by apply administrator_mono|done]. Qed.
Lemma op_ok_mono o : op_ok K o → op_ok K' o.
Proof using H.
  intros (Hc & Hm & Hr & Ha). split_and!.
  - intros s ->. destruct (Hc s eq_refl). split; [by apply checked_mono|by apply challenged_mono].
  - intros a E. apply acts_mono. auto.
  - intros. eapply checked_mono; eauto.
  - intros. eauto.
Qed.
Lemma pre_mono B (c : call B) : pre c K → pre c K'.
Proof using H. destruct c; cbn; auto using may_sign_mono, acts_mono, identified_mono; intros Ho m; by apply op_ok_mono. Qed.
End mono.

Lemma own_mono n (log log' : Log) : (∀ x, x ∈ log → x ∈ log') → knows_le (own n log) (own n log').
Proof. intros H f Hf. by apply H. Qed.
Lemma fact_ok_mono (log log' : Log) n f : (∀ x, x ∈ log → x ∈ log') → fact_ok log n f → fact_ok log' n f.
Proof.
  intros H. pose proof (own_mono n log log' H) as Hle. destruct f; cbn; try done.
  - by apply (may_sign_mono Hle).
  - intros (m & d & ? & ?). exists m, d. auto.
  - intros Ho m. by apply (op_ok_mono Hle).
  - by apply (op_ok_mono Hle).
  - by apply (identified_mono Hle).
Qed.

(** ** Calls keep the log in order *)

Section calls.
Context (named : string → list string) (J : JSON) (proposal : string → option SecurityChangePayload) (payload : string → option string).
Context (compare : string → string → bool) (valid : string → string → Time → bool) (n : nat).

Abbreviation perform_ := (perform named J proposal payload compare valid n) (only parsing).
Abbreviation answer_ := (answer named J proposal payload compare valid n) (only parsing).

Lemma find_row_spec {A} (P : A → bool) (m : gmap string A) kv : find_row P m = Some kv → m !! kv.1 = Some kv.2 ∧ P kv.2 = true.
Proof using.
  unfold find_row. destruct (filter _ _) as [|x l] eqn:E; [done|]. intros [= ->].
  assert (Hin : kv ∈ filter (fun kv : string * A => P kv.2) (map_to_list m)) by (rewrite E; left).
  apply list_elem_of_filter in Hin as [HP Hin]. destruct kv. apply elem_of_map_to_list in Hin. split; [done|]. by destruct (P _).
Qed.

Lemma failing_ok {A} o (r : result A) a : failing o r = Ok a → r = Ok a.
Proof using. unfold failing. by destruct (o_fail o) as [[]|]. Qed.

Lemma answer_sane o w {B} (c : call B) : sane c (answer_ o w c).2.
Proof using.
  destruct c; cbn; try done; try (repeat case_match; done).
  - destruct (failing o _) as [u|] eqn:E; [|done]. apply failing_ok in E. unfold GetUserByID, found in E. destruct (_ !! id); [|done].
    cbn in E. by simplify_eq.
  - destruct (failing o _) as [u|] eqn:E; [|done]. apply failing_ok in E. unfold GetUserByUsername, found in E.
    destruct (find_row _ _) as [kv|] eqn:Ef; [|done]. apply find_row_spec in Ef as [_ Hn%bool_decide_eq_true]. cbn in E. by simplify_eq.
  - destruct (failing o _) as [u|] eqn:E; [|done]. apply failing_ok in E. unfold GetUserByExternalIdentity, found in E.
    case_bool_decide; [done|]. destruct (find_row _ _) as [kv|] eqn:Ef; [|done].
    apply find_row_spec in Ef as [_ [?%bool_decide_eq_true ?%bool_decide_eq_true]%andb_true_iff]. cbn in E. by simplify_eq.
  - destruct (failing o _) as [u|] eqn:E; [|done]. apply failing_ok in E. unfold GetSession, found in E. destruct (_ !! id); [|done].
    cbn in E. by simplify_eq.
  - destruct (Governance.Effective _ _ _) as [e|] eqn:E; [|done]. unfold Governance.Effective in E.
    repeat (case_match; try done); heads_in E; by simplify_eq.
Qed.

(** What a call adds to the log. *)
Definition extends (w w' : World) (fs : list fact) : Prop := w_log w' = map (pair n) fs ++ w_log w.

Lemma transact_log {A} o w (r : result (Gov * A)) f w' x : transact n o w r f = (w', x) →
  (extends w w' [] ∧ ∃ e, x = Err e) ∨ (∃ g a, r = Ok (g, a) ∧ extends w w' (f a) ∧ w_gov w' = g ∧ (x = Ok a ∨ ∃ e, x = Err e)).
Proof using.
  unfold transact, extends. destruct r as [[g a]|e]; [|intros [= <- <-]; left; eauto].
  destruct (o_fail o) as [[e [|]]|]; intros [= <- <-]; [right; exists g, a|left|right; exists g, a]; cbn; eauto 10.
Qed.

Lemma authentic_signed w token c : authentic w token c = true → ∃ m d, (m, FSigned token d) ∈ w_log w ∧ cl_Subject d = cl_Subject c
  ∧ cl_TokenType d = cl_TokenType c ∧ cl_TokenGeneration d = cl_TokenGeneration c ∧ cl_SessionID d = cl_SessionID c.
Proof using.
  unfold authentic. rewrite existsb_exists. intros ([m f] & Hin%list_elem_of_In & Hf). destruct f; try discriminate.
  cbn in Hf. bool_hyps. exists m, c0. subst. split_and!; [done|done|done|by apply Z.eqb_eq|done].
Qed.

(** Transactions that note nothing, and those that note what they commit. *)
Lemma transact_quiet {A} o w (r : result (Gov * A)) : extends w (transact n o w r (fun _ => [])).1 [].
Proof using.
  destruct (transact _ _ _ _ _) as [w' x] eqn:E. by apply transact_log in E as [[? _]|(? & ? & _ & ? & _)].
Qed.
Lemma transact_noted {A} o w (r : result (Gov * A)) l : ∃ fs, extends w (transact n o w r (fun _ => l)).1 fs
  ∧ (fs = [] ∨ fs = l ∧ is_ok r = true) ∧ ∀ a, (transact n o w r (fun _ => l)).2 = Ok a → fs = l.
Proof using.
  destruct (transact _ _ _ _ _) as [w' x] eqn:E. apply transact_log in E as [[? [e ->]]|(? & ? & -> & ? & _ & _)].
  - exists []. split_and!; [done|by left|done].
  - exists l. split_and!; [done|by right|done].
Qed.

Abbreviation try_op w o := (stry named J proposal (w_gov w) o) (only parsing).
(** What a call may add to the log of [w]. *)
Definition additions {B} (w : World) (c : call B) (b : B) (fs : list fact) : Prop :=
  (pre c (own n (w_log w)) → ∀ f, f ∈ fs → fact_ok (w_log w) n f) ∧ (noted c = true → ∀ f, f ∈ learned c b → f ∈ fs)
  ∧ (∀ s, FOp s ∈ fs → is_ok (try_op w s) = true) ∧ ∀ id, ¬ FDrawn id ∈ fs.

Lemma additions_nil {B} w (c : call B) b : noted c = false → additions w c b [].
Proof using. intros Hn. split_and!; [by intros _ f ?%not_elem_of_nil|by rewrite Hn|by intros f ?%not_elem_of_nil|by intros f ?%not_elem_of_nil]. Qed.

(** A transaction that notes an operation it commits. *)
Lemma transact_additions {A B} o w (r : result (Gov * A)) l (c : call B) (b : B) :
  (pre c (own n (w_log w)) → ∀ f, f ∈ l → fact_ok (w_log w) n f) → (∀ s, FOp s ∈ l → is_ok r = true → is_ok (try_op w s) = true) →
  (∀ f, f ∈ learned c b → f ∈ l ∧ ∃ a, (transact n o w r (fun _ => l)).2 = Ok a) → (∀ id, ¬ FDrawn id ∈ l) →
  ∃ fs, extends w (transact n o w r (fun _ => l)).1 fs ∧ additions w c b fs.
Proof using.
  intros Hp Hs Hl Hd. destruct (transact_noted o w r l) as (fs & He & Hfs & Ha). exists fs. split; [done|]. split_and!.
  - intros Hpre f Hf. destruct Hfs as [->|[-> _]]; [by apply not_elem_of_nil in Hf|auto].
  - intros _ f Hf. destruct (Hl _ Hf) as [Hin [a E]]. by rewrite (Ha _ E).
  - intros s Hin. destruct Hfs as [->|[-> Hr]]; [by apply not_elem_of_nil in Hin|auto].
  - intros id Hin. destruct Hfs as [->|[-> Hr]]; [by apply not_elem_of_nil in Hin|by eapply Hd].
Qed.

(** An answer leaves the log as it is but for what transactions and signatures note. *)
Lemma answer_log o w {B} (c : call B) : ∃ fs, extends w (answer_ o w c).1 fs ∧ additions w c (answer_ o w c).2 fs.
Proof using.
  assert (Hq : ∀ f s s', FOp s ∈ [FDone f; FOp s'] → s = s').
  { intros f s s' [?|[= ?]%list_elem_of_singleton]%elem_of_cons; done. }
  destruct c.
  all: try (cbn [answer]; try match goal with |- context [let '(_, _) := ?x in _] => destruct x as [? ?] end;
            exists []; split; [first [reflexivity|apply transact_quiet]|by apply additions_nil]; fail).
  - cbn. destruct (o_text o) as [a|]; [|exists []; split; [done|by apply additions_nil]].
    exists [FSigned a (generateToken (o_id o) (o_now o) (sp_User s) (sp_Role s) (sp_Type s) (sp_Expiry s) (sp_Generation s) (sp_Session s))].
    split; [reflexivity|]. split_and!; [intros Hp f ->%list_elem_of_singleton; exact Hp|done|by intros s' ?%list_elem_of_singleton|by intros id ?%list_elem_of_singleton].
  - apply transact_additions.
    + intros Hp f [->|[->|[]%not_elem_of_nil]%elem_of_cons]%elem_of_cons; [exact Hp|apply Hp].
    + intros s ->%Hq. by destruct (stry _ _ _ _ _).
    + cbn. destruct (transact _ _ _ _ _) as [w' [x|]]; cbn; intros g Hg; [|by apply not_elem_of_nil in Hg]. apply list_elem_of_singleton in Hg as ->. split; [by left|eauto].
    + by intros id [?|?%list_elem_of_singleton]%elem_of_cons.
  - apply transact_additions.
    + intros Hp f [->|[->|[]%not_elem_of_nil]%elem_of_cons]%elem_of_cons; [exact Hp|apply Hp].
    + intros s ->%Hq. by destruct (stry _ _ _ _ _).
    + cbn. destruct (transact _ _ _ _ _) as [w' [x|]]; cbn; intros g Hg; [|by apply not_elem_of_nil in Hg]. apply list_elem_of_singleton in Hg as ->. split; [by left|eauto].
    + by intros id [?|?%list_elem_of_singleton]%elem_of_cons.
  - apply transact_additions.
    + intros Hp f ->%list_elem_of_singleton. split_and!; [done|by intros a [= <-]|done|done].
    + intros s [= ->]%list_elem_of_singleton. cbn [stry]. destruct (DisableUserAudited _ _ _ _ _ _) as [[]|]; done.
    + by intros f ?%not_elem_of_nil.
    + by intros id ?%list_elem_of_singleton.
Qed.

(** The token library only accepts what was signed. *)
Lemma learned_ok o w {B} (c : call B) : noted c = false → pre c (own n (w_log w)) →
  ∀ f, f ∈ learned c (answer_ o w c).2 → fact_ok (w_log w) n f.
Proof using.
  intros Hn Hp f. destruct c; try discriminate; cbn -[GetUserByID]; try (by intros ?%not_elem_of_nil).
  all: try (by intros ->%list_elem_of_singleton).
  all: try (repeat case_match; first [by intros ->%list_elem_of_singleton|by intros ?%not_elem_of_nil]; fail).
  destruct (o_claims o); [|by intros ?%not_elem_of_nil]. destruct (authentic w token a) eqn:E; [|by intros ?%not_elem_of_nil].
  intros ->%list_elem_of_singleton. by apply authentic_signed.
Qed.

Lemma ordered_app fs log : (∀ f, f ∈ fs → fact_ok log n f) → ordered log → ordered (map (pair n) fs ++ log).
Proof using.
  induction fs as [|f fs IH]; intros Hf Ho; [done|]. cbn. split.
  - eapply fact_ok_mono; [|apply Hf; by left]. intros g Hg. apply elem_of_app. by right.
  - apply IH; [|done]. intros g Hg. apply Hf. by right.
Qed.
Lemma elem_of_noted (f : fact) (fs : list fact) : f ∈ fs → (n, f) ∈ map (pair n) fs.
Proof using. intros Hf. apply list_elem_of_fmap. by exists f. Qed.

Lemma perform_ordered o w {B} (c : call B) w' b : perform_ o w c = (w', b) → pre c (own n (w_log w)) → ordered (w_log w) →
  ordered (w_log w') ∧ (∀ x, x ∈ w_log w → x ∈ w_log w') ∧ (∀ f, f ∈ learned c b → own n (w_log w') f) ∧ sane c b.
Proof using.
  unfold perform. intros [= <- <-] Hp Ho. destruct (answer_log o w c) as (fs & He & Hok & Hl & _ & _). pose proof (learned_ok o w c) as Hlo.
  pose proof (answer_sane o w c) as Hs. unfold extends in He. specialize (Hok Hp). destruct (noted c) eqn:En.
  - unfold own. rewrite He. split_and!; [by apply ordered_app|intros; apply elem_of_app; by right| |done].
    intros; apply elem_of_app; left; by apply elem_of_noted, Hl.
  - unfold own. cbn. rewrite He. split_and!; [|intros; apply elem_of_app; right; apply elem_of_app; by right|intros; apply elem_of_app; left; by apply elem_of_noted|done].
    apply ordered_app; [|by apply ordered_app]. intros f Hf. eapply fact_ok_mono; [|by apply Hlo].
    intros g Hg. apply elem_of_app. by right.
Qed.
End calls.

(** ** Handlers ask for no more than they know *)

Abbreviation just Q K p := (justified (@sane) (@pre) (@post) Q K p).

Lemma just_call {A B} (Q : K_type → A → Prop) (K : K_type) (c : call B) (k : B → prog A) : pre c K →
  (∀ K' b, knows_le K K' → (∀ f, f ∈ learned c b → K' f) → sane c b → just Q K' (k b)) → just Q K (Call c k).
Proof.
  intros Hp Hk. split; [done|]. intros b Hb. apply Hk; [intros f Hf; by left|intros f Hf; by right|done].
Qed.

(** Programs that ask for nothing. *)
Definition quiet {A} (p : prog A) : Prop := ∀ K, just (fun _ _ => True) K p.
Lemma just_quiet {A B} (Q : K_type → B → Prop) K (p : prog A) (f : A → prog B) : quiet p →
  (∀ K' a, knows_le K K' → just Q K' (f a)) → just Q K (bind p f).
Proof. intros Hp Hf. eapply justified_bind; [apply Hp|]. intros K' a Hle _. by apply Hf. Qed.
Lemma quiet_at {A} K (p : prog A) : quiet p → just (fun _ _ => True) K p.
Proof. intros H. apply H. Qed.
Lemma just_spec {A B} (R : K_type → A → Prop) (Q : K_type → B → Prop) K (p : prog A) (f : A → prog B) : just R K p →
  (∀ K' a, knows_le K K' → R K' a → just Q K' (f a)) → just Q K (bind p f).
Proof. intros. by eapply justified_bind. Qed.

Create HintDb quiet.
Ltac expose := unfold try_, or_answer, call_, discard, reply; cbn [bind].
Ltac up :=
  match goal with
  | Hle : knows_le ?K ?K' |- _ =>
      repeat match goal with
             | H : K _ |- _ => apply Hle in H
             | H : primary K _ |- _ => apply (primary_mono Hle) in H
             | H : vouched K _ |- _ => apply (vouched_mono Hle) in H
             | H : registered K _ |- _ => apply (registered_mono Hle) in H
             | H : presented K _ _ _ |- _ => apply (presented_mono Hle) in H
             | H : challenged K _ |- _ => apply (challenged_mono Hle) in H
             | H : checked K _ |- _ => apply (checked_mono Hle) in H
             | H : enabled_factor K _ |- _ => apply (enabled_mono Hle) in H
             | H : opened K _ _ |- _ => apply (opened_mono Hle) in H
             | H : identified K _ |- _ => apply (identified_mono Hle) in H
             | H : administrator K _ |- _ => apply (administrator_mono Hle) in H
             | H : acts K _ |- _ => apply (acts_mono Hle) in H
             end;
      clear Hle; try clear K
  end.
(** What the answer taught. *)
Ltac learn Hl :=
  cbn [learned] in Hl;
  lazymatch type of Hl with
  | ∀ f, f ∈ [] → _ => clear Hl
  | ∀ f, f ∈ [?x] → _ => let H := fresh "HK" in pose proof (Hl x (proj2 (list_elem_of_singleton x x) eq_refl)) as H; clear Hl
  | _ => idtac
  end.
Ltac split_answer b :=
  lazymatch type of b with
  | result _ => destruct b as [b|?]
  | bool => destruct b
  | _ => idtac
  end.
(** A call that asks for nothing. *)
Ltac harmless := first [exact I|by intros ?; split_and!; intros; repeat case_match].
Ltac jstep :=
  expose;
  lazymatch goal with
  | |- just _ _ (Call ?c _) =>
      apply just_call; [try harmless|let b := fresh "b" in let Hle := fresh in let Hl := fresh in let Hs := fresh "Hs" in
                                    intros ? b Hle Hl Hs; up; split_answer b; cbn [sane] in Hs; lazymatch type of Hs with True => clear Hs | _ => idtac end; learn Hl]
  | |- just _ _ (bind (match ?x with _ => _ end) _) => destruct x eqn:?
  | |- just _ _ (bind _ _) => apply just_quiet; [solve [auto with quiet nocore]|intros ? ? ?; up]
  | |- just _ _ (if ?x then _ else _) => let E := fresh "E" in destruct x eqn:E; cbn [negb andb orb] in E; try discriminate E
  | |- just _ _ (match ?x with _ => _ end) => destruct x eqn:?
  | |- just (fun _ _ => True) _ (Ret _) => exact I
  | |- just (fun _ _ => True) _ _ => solve [apply quiet_at; auto with quiet nocore]
  end.
Ltac jrun := repeat jstep.
Ltac quietly := let K := fresh in intros K; jrun.

Lemma accountStatusStrict_quiet u : quiet (accountStatusStrict u).
Proof. unfold accountStatusStrict. quietly. Qed.
Lemma recordLoginFailure_quiet r id name d n : quiet (recordLoginFailure r id name d n).
Proof. unfold recordLoginFailure. quietly. Qed.
#[export] Hint Resolve accountStatusStrict_quiet recordLoginFailure_quiet : quiet.

Lemma refuseAccount_quiet r u st : quiet (refuseAccount r u st).
Proof. unfold refuseAccount. quietly. Qed.
Lemma refuseLocked_quiet r u : quiet (refuseLocked r u).
Proof. unfold refuseLocked. quietly. Qed.
Lemma accountAccessError_quiet u : quiet (accountAccessError u).
Proof. unfold accountAccessError. quietly. Qed.
Lemma countFailure_quiet u : quiet (countFailure u).
Proof. unfold countFailure. quietly. Qed.
Lemma onAccountLocked_quiet r u res : quiet (onAccountLocked r u res).
Proof. unfold onAccountLocked. quietly. Qed.
#[export] Hint Resolve refuseAccount_quiet refuseLocked_quiet accountAccessError_quiet countFailure_quiet onAccountLocked_quiet : quiet.
Lemma maybe_quiet {A} (b : bool) (p q : prog A) : quiet p → quiet q → quiet (if b then p else q).
Proof. by destruct b. Qed.
Lemma ret_quiet {A} (a : A) : quiet (Ret a).
Proof. intros K. exact I. Qed.
#[export] Hint Resolve maybe_quiet ret_quiet : quiet.
Lemma recordFailure_quiet r u d n : quiet (recordFailureAndMaybeLock r u d n).
Proof. unfold recordFailureAndMaybeLock. quietly. Qed.
Lemma recordTOTPFailure_quiet r u : quiet (recordTOTPFailure r u).
Proof. unfold recordTOTPFailure. quietly. Qed.
Lemma loadLDAPGroupMappings_quiet arrays : quiet (loadLDAPGroupMappings arrays).
Proof. unfold loadLDAPGroupMappings, configLDAPGroupList. quietly. Qed.
Lemma markSessionExpired_quiet s v now : quiet (markSessionExpired s v now).
Proof. unfold markSessionExpired. quietly. Qed.
#[export] Hint Resolve recordFailure_quiet recordTOTPFailure_quiet loadLDAPGroupMappings_quiet markSessionExpired_quiet : quiet.

Lemma recordLoginSuccess_quiet u : quiet (recordLoginSuccess u).
Proof. unfold recordLoginSuccess. quietly. Qed.
Lemma endSessionOnLogout_quiet c : quiet (endSessionOnLogout c).
Proof. unfold endSessionOnLogout. quietly. Qed.
#[export] Hint Resolve recordLoginSuccess_quiet endSessionOnLogout_quiet : quiet.
Lemma logoutToken_quiet t : quiet (logoutToken t).
Proof. unfold logoutToken. quietly. Qed.
#[export] Hint Resolve logoutToken_quiet : quiet.

Lemma findExistingLDAPUser_spec u K : just (fun K r => ∀ e, r = Ok (Some e) → K (FRead e)
  ∧ ((u_ExternalID e = u_ExternalID u ∧ u_ExternalID u ≠ "") ∨ u_Username e = u_Username u)) K (findExistingLDAPUser u).
Proof.
  unfold findExistingLDAPUser. jrun; cbn; intros v Ev; try (case_match; discriminate); try discriminate; simplify_eq; eauto; destruct Hs as (? & ? & ?); auto.
Qed.

Lemma normalize_spec u0 id now u : normalizeLDAPUser u0 id now = Ok u → u_AuthProvider u = AuthProviderLDAP
  ∧ u_ExternalID u = u_ExternalID u0 ∧ u_Username u = u_Username u0 ∧ u_ID u = id.
Proof. unfold normalizeLDAPUser. case_bool_decide; [done|]. by intros [= <-]. Qed.
Lemma prepare_spec e u v : prepareLDAPUserUpdate e u = Ok v → u_AuthProvider e = AuthProviderLDAP.
Proof. unfold prepareLDAPUserUpdate. by case_bool_decide. Qed.

Lemma authenticateLDAPLogin_spec arrays username password K :
  just (fun K r => ∀ u, r = Ok u → vouched K (u_ID u)) K (authenticateLDAPLogin arrays username password).
Proof.
  unfold authenticateLDAPLogin. jstep; [|done]. jstep. jstep; [|done].
  unfold UpsertLDAPUser. do 2 jstep. expose. destruct (normalizeLDAPUser _ _ _) as [u|] eqn:En; [|done].
  apply normalize_spec in En as (Hp & Hx & Hn & Hid). cbn in Hx, Hn.
  expose. eapply just_spec; [apply findExistingLDAPUser_spec|]. intros K1 r0 Hle He. up. destruct r0 as [[e|]|]; [| |done].
  - destruct (He e eq_refl) as [HKe Hm]. clear He. expose. destruct (prepareLDAPUserUpdate e u) as [v|] eqn:Ep; [|done].
    apply prepare_spec in Ep. jrun; try done; intros w [= <-]; exists username, b; (split; [done|]); left; exists e;
      (split_and!; [done|done|done|]); rewrite Hx, Hn in Hm; tauto.
  - jrun; try done; [intros m; split_and!; try done; intros v [= <-]; by rewrite Hid|]. intros w [= <-]. exists username, b. split; [done|]. right. exists u. by split_and!.
Qed.

Lemma respondAfterPrimaryLogin_just u K : primary K (u_ID u) → just (fun _ _ => True) K (respondAfterPrimaryLogin u).
Proof.
  intros Hp. unfold respondAfterPrimaryLogin. jrun; unfold pre, may_sign; cbn; [by left|done].
Qed.

(** After the directory has been asked. *)
Lemma directory_just {A} arrays K username password Q (f : result User → prog A) :
  (∀ K' u, knows_le K K' → vouched K' (u_ID u) → just Q K' (f (Ok u))) → (∀ K' e, knows_le K K' → just Q K' (f (Err e))) →
  just Q K (bind (authenticateLDAPLogin arrays username password) f).
Proof. intros Ho Hf. eapply just_spec; [apply authenticateLDAPLogin_spec|]. intros K2 [u|e] Hle Hv; auto. Qed.

Lemma handleUnknown_just arrays r n p K : just (fun _ _ => True) K (handleUnknownUserLogin arrays r n p).
Proof.
  unfold handleUnknownUserLogin. apply directory_just; intros; up; jrun. apply respondAfterPrimaryLogin_just. by right.
Qed.
Lemma handleLDAP_just arrays r n p u K : just (fun _ _ => True) K (handleLDAPUserLogin arrays r n p u).
Proof.
  unfold handleLDAPUserLogin. jrun. apply directory_just; intros; up; jrun. apply respondAfterPrimaryLogin_just. by right.
Qed.
Lemma handleLogin_just arrays r body K : just (fun _ _ => True) K (handleLogin arrays r body).
Proof.
  unfold handleLogin. jrun; [apply handleLDAP_just| |apply handleUnknown_just]. apply respondAfterPrimaryLogin_just. left. by exists b, s0.
Qed.

Lemma newSession_spec r u K : checked K (u_ID u) → challenged K (u_ID u) →
  just (fun K x => ∀ s, x = Ok s → opened K (u_ID u) (s_ID s)) K (newSession r u).
Proof.
  intros Hc Hch. unfold newSession. jrun; try done.
  - intros m. split_and!; [|done|done|done]. intros s [= <-]. done.
  - intros s [= <-]. by exists (mkSession b1 (u_ID u) (clientKind r) (rq_IP r) (truncateUserAgent (rq_UserAgent r)) b b
             (if 0 <? SessionMax b0 then Some (b + SessionMax b0) else None) None None "" None false "" None None).
Qed.

Lemma issue_just u sid prev now K : opened K (u_ID u) sid ∨ presented K TokenTypeRefresh (u_ID u) sid →
  just (fun _ _ => True) K (issueSessionTokens u sid prev now).
Proof.
  intros H. assert (Hm : ∀ K', knows_le K K' → opened K' (u_ID u) sid ∨ presented K' TokenTypeRefresh (u_ID u) sid).
  { intros K' Hle. destruct H; [left; by eapply opened_mono|right; by eapply presented_mono]. }
  unfold issueSessionTokens. expose. apply just_call; [done|]. intros K1 b Hle1 _ _. specialize (Hm _ Hle1).
  clear H Hle1. destruct b as [p|]; [|done]. destruct Hm; jrun; (split; [first [by left|by right]|first [by left|by right]]).
Qed.

Lemma completeSignIn_just r u audit K : checked K (u_ID u) → challenged K (u_ID u) → quiet audit →
  just (fun _ _ => True) K (completeSignIn r u audit).
Proof.
  intros Hc Hch Hq. unfold completeSignIn. expose. eapply just_spec; [by apply newSession_spec|]. intros K1 [s|] Hle Ho; [|done]. up.
  specialize (Ho s eq_refl). jstep. expose. eapply just_spec; [apply issue_just; by left|]. intros K2 [t|] Hle2 _; [|done].
  apply just_quiet; [done|]. intros. exact I.
Qed.

Lemma presented_intro (K : K_type) token c : K (FParsed token c) → presented K (cl_TokenType c) (cl_Subject c) (cl_SessionID c).
Proof. intros H. by exists token, c. Qed.

(** The answer [true] is an accepted code; the secret is the stored one. *)
Lemma check_code_spec user secret code K : just (fun K ok => ok = true → ∃ s, secret = Some s ∧ K (FCode user s)) K (check_code user secret code).
Proof. unfold check_code. jrun; intros ?; try done; eauto. Qed.
Lemma totpSecret_spec stored K :
  just (fun K r => ∀ s, r = Ok (Some s) → ∃ t, stored = Some t ∧ (s = t ∨ K (FDecrypted t s))) K (totpSecretForValidation stored).
Proof. unfold totpSecretForValidation. jrun; intros x Ex; simplify_eq; eauto. Qed.
(** Once the code of an account that was read is checked. *)
Lemma factor_just u user code K (failed : goerr → prog Response) (k : option string → bool → prog Response) : K (FRead u) → u_ID u = user →
  (∀ K' e, just (fun _ _ => True) K' (failed e)) →
  (∀ K' secret ok, knows_le K K' → (ok = true → checked K' user) → just (fun _ _ => True) K' (k secret ok)) →
  just (fun _ _ => True) K (bind (totpSecretForValidation (u_TOTPSecret u)) (fun r => match r with
    | Ok secret => bind (check_code user secret code) (k secret) | Err e => failed e end)).
Proof.
  intros Hu Hid Hf Hk. eapply just_spec; [apply totpSecret_spec|]. intros K1 [secret|e] H1 Hs; [|apply Hf].
  eapply just_spec; [apply check_code_spec|]. intros K2 ok H2 Hok. apply Hk; [intros f Hx; auto|]. intros E. destruct (Hok E) as (s & -> & Hc).
  destruct (Hs s eq_refl) as (t & Et & Hd). exists u, t, s. split_and!; auto. destruct Hd; auto.
Qed.

Lemma respondPasswordRecovery_just u sid K : checked K (u_ID u) → presented K TokenTypeTOTP (u_ID u) sid → just (fun _ _ => True) K (respondPasswordRecovery u).
Proof. intros Hc Hch. unfold respondPasswordRecovery. jrun. split; [done|by exists sid]. Qed.

Lemma handleLoginTOTP_just r body K : just (fun _ _ => True) K (handleLoginTOTP r body).
Proof.
  unfold handleLoginTOTP. jrun. apply factor_just; [done|done|intros; exact I|]. intros K1 secret ok Hle Hok. up.
  apply presented_intro in HK. rewrite <- Hs in HK. apply negb_false_iff, bool_decide_eq_true in E. rewrite E in HK.
  destruct ok; cbn [negb]; [|jrun]. specialize (Hok eq_refl).
  assert (Hch : challenged K1 (u_ID b0)) by (exists (cl_SessionID b); by left).
  jrun; [by eapply respondPasswordRecovery_just|]. apply completeSignIn_just; [done|done|]. quietly.
Qed.

Lemma checkSession_spec c touch K : just (fun K x => ∀ y, x = Ok y → ∃ s now p, K (FSession s) ∧ s_ID s = cl_SessionID c ∧ K (FNow now)
  ∧ K (FPolicy p) ∧ Session.Evaluate (StateFromModel s) now p = VerdictOK) K (checkSessionAccess c touch).
Proof.
  unfold checkSessionAccess. expose. jrun; intros y Ey; try discriminate; exists b, b0, b1; by split_and!.
Qed.

Lemma handleRefresh_just r body K : just (fun _ _ => True) K (handleRefresh r body).
Proof.
  unfold handleRefresh. jrun. eapply just_spec; [apply checkSession_spec|]. intros K1 [x|] Hle _; [|done]. up. jstep. expose.
  apply presented_intro in HK. rewrite <- Hs in HK. apply negb_false_iff, bool_decide_eq_true in E. rewrite E in HK.
  eapply just_spec; [apply issue_just; by right|]. intros K2 [t|] _ _; exact I.
Qed.

Lemma handleLogout_just r K : just (fun _ _ => True) K (handleLogout r).
Proof. unfold handleLogout. jrun. Qed.

Lemma handleRegister_just U r body K : just (fun _ _ => True) K (handleRegister U r body).
Proof.
  unfold handleRegister. jrun; [intros m; split_and!; try done; by intros v [= <-]|]. right. eexists _, _, _. eassumption.
Qed.

Lemma prepareTOTPPassword_quiet U r u p : quiet (prepareTOTPPassword U r u p).
Proof. unfold prepareTOTPPassword. quietly. Qed.
Lemma checkSetupGeneration_spec r u K : just (fun K x => ∀ y, x = Ok y → ∃ sid, presented K TokenTypeSetup (u_ID u) sid) K (checkSetupGeneration r u).
Proof.
  unfold checkSetupGeneration. jrun; intros y Ey; [|discriminate]. repeat (case_match; [discriminate|]).
  apply presented_intro in HK. exists (cl_SessionID b). bool_hyps. subst. by rewrite <- H, <- H1.
Qed.

#[export] Hint Resolve prepareTOTPPassword_quiet : quiet.
Lemma passwordChangeAuthority_quiet r u : quiet (passwordChangeAuthority r u).
Proof. unfold passwordChangeAuthority. quietly. Qed.
#[export] Hint Resolve passwordChangeAuthority_quiet : quiet.

Lemma handleTOTPSetup_just r i K : just (fun _ _ => True) K (handleTOTPSetup r i).
Proof.
  unfold handleTOTPSetup. jrun. eapply just_spec; [apply checkSetupGeneration_spec|]. intros K1 [x|] Hle _; [|done]. up. jrun.
Qed.

Lemma handleTOTPEnable_just U r body i K : just (fun _ _ => True) K (handleTOTPEnable U r body i).
Proof.
  unfold handleTOTPEnable. jrun. eapply just_spec; [apply checkSetupGeneration_spec|]. intros K1 [x|] Hle Hch; [|done]. up.
  destruct (Hch x eq_refl) as [sid Hp]. jrun. apply factor_just; [done|done|intros; exact I|]. intros K2 secret ok Hle Hok. up.
  destruct ok; [|done]. specialize (Hok eq_refl). cbn [negb]. rewrite Hs in Hp. jrun.
  all: apply completeSignIn_just; [by rewrite Hs0| |apply ret_quiet].
  all: rewrite Hs0; exists sid; right; split; [done|]; eexists b, _, _, _, _; split; [done|]; eassumption.
Qed.

Lemma newPasswordHash_just U u p k K : (∀ K' hash n, knows_le K K' → just (fun _ _ => True) K' (k hash n)) →
  just (fun _ _ => True) K (newPasswordHash U u p k).
Proof.
  intros Hk.
  unfold newPasswordHash. expose. destruct (ValidatePasswordPolicy U p); [|done]. expose.
  apply just_call; [done|]. intros K1 h H1 _ _. apply just_call; [done|]. intros K2 [rec|] H2 _ _; [|done]. expose.
  assert (Hrest : ∀ K3 (same : bool), knows_le K2 K3 → just (fun _ _ => True) K3
    (if same then _ <- call_ (CAudit (mkAuditEntry "user.password_reuse_rejected" (Some (u_ID u)) None [] "failure" ""));
                  Ret (respondError 400 "new password must not match a recent password")
     else hash <-? call_ (CHash p) else reply 500 "failed to hash password"; k hash h)).
  { intros K3 [|] H3; expose; (apply just_call; [done|]); [done|]. intros K4 [hash|] H4 _ _; [|done]. expose. apply Hk.
    intros f Hf. auto. }
  destruct rec; expose; [apply (Hrest _ true); by intros f|]. apply just_call; [done|]. intros K3 same H3 _ _. by apply Hrest.
Qed.

Lemma updateAuthenticatedPassword_quiet i u hash a : quiet (updateAuthenticatedPassword i u hash a).
Proof. unfold updateAuthenticatedPassword. quietly. Qed.
#[export] Hint Resolve updateAuthenticatedPassword_quiet : quiet.

Lemma handleChangePassword_just U r body i K : just (fun _ _ => True) K (handleChangePassword U r body i).
Proof. unfold handleChangePassword. jrun; apply newPasswordHash_just; intros; up; jrun. Qed.

Lemma handleRecovery_just U bearer body K : just (fun _ _ => True) K (handleCompletePasswordRecovery U bearer body).
Proof. unfold handleCompletePasswordRecovery. jrun; apply newPasswordHash_just; intros; up; jrun. Qed.

(** ** Who a request is authenticated as *)

Lemma accessAuthority_spec c K : just (fun K x => ∀ y token, x = Ok y → cl_TokenType c = TokenTypeAccess → K (FParsed token c) →
  ∀ role, by_access K (mkIdentified (cl_Subject c) role TokenTypeAccess (cl_SessionID c))) K (accessAuthority c).
Proof.
  unfold accessAuthority, sessionAccessError. jrun; try done.
  eapply justified_mono; [|apply checkSession_spec]. intros K1 x Hle Hx y token -> Ht Hp role. up.
  destruct (Hx y eq_refl) as (s & now & p & Hss & Hid & Hn & Hpo & Hv). exists token, c, b, s, now, p. cbn. apply negb_false_iff, Z.eqb_eq in E.
  by split_and!.
Qed.

Lemma authenticateAPIToken_spec token K : just (fun K x => ∀ i, x = Ok i → identified K i) K (authenticateAPIToken token).
Proof.
  unfold authenticateAPIToken. jrun; intros i Ei; try discriminate; simplify_eq; left; (split; [done|]); exists (HashAPIToken token), b.2, b0; cbn; by split_and!.
Qed.

Lemma validateChallengeAuthority_quiet c : quiet (validateChallengeAuthority c).
Proof. unfold validateChallengeAuthority. quietly. Qed.
#[export] Hint Resolve validateChallengeAuthority_quiet : quiet.

Lemma authenticate_spec token K : just (fun K x => ∀ i, x = Ok i → identified K i) K (authenticateRequestToken token).
Proof.
  unfold authenticateRequestToken. jstep; [|expose; destruct (LooksLikeAPIToken token); [apply authenticateAPIToken_spec|done]].
  expose. eapply just_spec with (R := fun K _ => K (FParsed token b)); [jrun; done|]. intros K1 revoked Hle HK1. up.
  destruct revoked; [done|]. destruct (bool_decide_reflect (cl_TokenType b = TokenTypeAccess)) as [Et|Et].
  - eapply just_spec; [apply accessAuthority_spec|]. intros K2 [x|] Hle Hx; [|done].
    assert (Hi : ∀ role, identified K2 (mkIdentified (cl_Subject b) role (cl_TokenType b) (cl_SessionID b))).
    { intros role. unfold identified. cbn. rewrite Et, bool_decide_eq_true_2 by done. apply (Hx x token eq_refl Et). auto. }
    clear Hx. rewrite Et in *. expose. apply just_call; [done|]. intros K3 [u|] H3 _ _; [|done]. expose. intros i [= <-].
    eapply identified_mono; [done|apply Hi].
  - expose. eapply just_spec with (R := fun K _ => K (FParsed token b)).
    { destruct (is_challenge _); [|done]. eapply justified_mono; [|apply validateChallengeAuthority_quiet]. intros K2 x H2 _. by apply H2. }
    intros K2 [x|] Hle HK2; [|done]. expose. intros i [= <-]. unfold identified. cbn. rewrite bool_decide_eq_false_2 by done. right.
    by eapply presented_intro.
Qed.

(** Behind the authentication and its gates. *)
Definition admitted (K : K_type) (gates : list gate) (i : Identity) : Prop :=
  identified K i ∧ (GInteractive ∈ gates → if_TokenType i = TokenTypeAccess) ∧
  (GAdmin ∈ gates → ∃ e, K (FEffective e) ∧ e_UserID e = if_UserID i ∧ Can e "operations.admin" = true).

Lemma through_just g i next K : (∀ K', knows_le K K' → (g = GInteractive → if_TokenType i = TokenTypeAccess) →
    (g = GAdmin → ∃ e, K' (FEffective e) ∧ e_UserID e = if_UserID i ∧ Can e "operations.admin" = true) → just (fun _ _ => True) K' next) →
  just (fun _ _ => True) K (through g i next).
Proof.
  intros Hn. destruct g; cbn [through].
  - unfold interactiveOnly. case_bool_decide; [|done]. apply Hn; [by intros f|done|done].
  - unfold adminOnly, capability_only. expose. apply just_call; [done|]. intros K1 [e|] H1 Hl Hs; [|done]. destruct (Can e _) eqn:Ec; [|done].
    apply Hn; [done|done|]. intros _. exists e. split_and!; [apply Hl; by left|done|done].
  - unfold terminalAccessOnly, capability_only. expose. apply just_call; [done|]. intros K1 [u|] H1 Hl Hs; [|done]. expose. apply just_call; [done|].
    intros K2 [e|] H2 _ _; [|done]. destruct (Can e _); [|done]. apply Hn; [intros f Hf; auto|done|done].
  - unfold auditAccessOnly, capability_only. expose. apply just_call; [done|]. intros K1 [e|] H1 Hl Hs; [|done]. destruct (Can e _) eqn:Ec; [|done].
    by apply Hn.
Qed.

Lemma gates_just gates i next K : (∀ K', knows_le K K' → (GInteractive ∈ gates → if_TokenType i = TokenTypeAccess) →
    (GAdmin ∈ gates → ∃ e, K' (FEffective e) ∧ e_UserID e = if_UserID i ∧ Can e "operations.admin" = true) → just (fun _ _ => True) K' next) →
  just (fun _ _ => True) K (foldr (fun g next => through g i next) next gates).
Proof.
  revert K. induction gates as [|g gates IH]; intros K Hn; cbn.
  - apply Hn; [by intros f|by intros ?%not_elem_of_nil..].
  - apply through_just. intros K1 H1 Hi Ha. apply IH. intros K2 H2 Hi2 Ha2. apply Hn; [intros f Hf; auto| |].
    + intros [<-|?]%elem_of_cons; auto.
    + intros [<-|?]%elem_of_cons; [|auto]. destruct (Ha eq_refl) as (e & ? & ?). exists e. auto.
Qed.

Lemma route_just required gates r handler K :
  (∀ K' i, knows_le K K' → admitted K' gates i → isAllowedTokenType required (if_TokenType i) = true → just (fun _ _ => True) K' (handler i)) →
  just (fun _ _ => True) K (route required gates r handler).
Proof.
  intros Hh. unfold route, authMiddleware. destruct (bool_decide _); [done|]. expose. eapply just_spec; [apply authenticate_spec|].
  intros K1 [i|] H1 Hi; [|done]. specialize (Hi i eq_refl). destruct (isAllowedTokenType _ _) eqn:Ea; [|done]. cbn [negb].
  apply gates_just. intros K2 H2 Hint Hadm. apply Hh; [intros f Hf; auto| |done]. split_and!; [by eapply identified_mono|done|done].
Qed.

(** ** Management *)

Lemma accountManagementActor_spec r i K : just (fun K a => a = noActor ∨ am_UserID a = if_UserID i) K (accountManagementActor r i).
Proof.
  unfold accountManagementActor. jrun; try (by left); try (by right).
  cbn. destruct (cl_ExpiresAt b0); [|by left]. destruct (bool_decide_reflect (cl_Subject b0 = if_UserID i)); [by right|by left].
Qed.

(** Once the actor is known. *)
Lemma actor_just {A} r i Q (f : AccountManagementActor → prog A) K : administrator K i →
  (∀ K' a, acts K' a → just Q K' (f a)) → just Q K (bind (accountManagementActor r i) f).
Proof.
  intros Ha Hf. eapply just_spec; [apply accountManagementActor_spec|]. intros K1 a Hle Hact. apply Hf. exists i.
  split; [by eapply administrator_mono|done].
Qed.

Lemma GuardMutation_quiet user : quiet (GuardMutation user).
Proof. unfold GuardMutation. quietly. Qed.
Lemma accountStatus_quiet u : quiet (accountStatus u).
Proof. unfold accountStatus. quietly. Qed.
#[export] Hint Resolve GuardMutation_quiet accountStatus_quiet : quiet.
Lemma respondUser_quiet u : quiet (respondUserWithStatus u).
Proof. unfold respondUserWithStatus. quietly. Qed.
Lemma auditRefusal_quiet a t c e : quiet (auditAccountManagementRefusal a t c e).
Proof. unfold auditAccountManagementRefusal. quietly. Qed.
Lemma auditSessionRevoked_quiet a t id r : quiet (auditSessionRevoked a t id r).
Proof. unfold auditSessionRevoked. quietly. Qed.
#[export] Hint Resolve respondUser_quiet auditRefusal_quiet auditSessionRevoked_quiet : quiet.
Lemma endSessionRows_quiet ids r a now : quiet (endSessionRows ids r a now).
Proof. induction ids as [|id ids IH]; cbn [endSessionRows]; [apply ret_quiet|]. quietly. Qed.
Lemma revoked_each_quiet a t r ids : quiet (revoked_each a t r ids).
Proof. induction ids as [|id ids IH]; cbn [revoked_each]; [apply ret_quiet|]. quietly. Qed.
Lemma revoke_families_quiet u r now ids : quiet (revoke_families u r now ids).
Proof. induction ids as [|id ids IH]; cbn [revoke_families]; [apply ret_quiet|]. quietly. Qed.
Lemma shellRows_quiet u l : quiet (shellRows u l).
Proof. induction l as [|s l IH]; cbn [shellRows]; [apply ret_quiet|]. quietly. Qed.
#[export] Hint Resolve endSessionRows_quiet revoked_each_quiet revoke_families_quiet shellRows_quiet : quiet.
Lemma endSessions_quiet a t ids all e r : quiet (endSessions a t ids all e r).
Proof. unfold endSessions. quietly. Qed.
Lemma finishDisabled_quiet a t ids : quiet (finishDisabledUserSessions a t ids).
Proof. unfold finishDisabledUserSessions. quietly. Qed.
Lemma sessionsFor_quiet u c e : quiet (sessionsFor u c e).
Proof. unfold sessionsFor. quietly. Qed.
#[export] Hint Resolve endSessions_quiet finishDisabled_quiet sessionsFor_quiet : quiet.
Lemma respondSessionList_quiet u c e : quiet (respondSessionList u c e).
Proof. unfold respondSessionList. quietly. Qed.
Lemma endOneShell_quiet t sid : quiet (endOneShell t sid).
Proof. unfold endOneShell. quietly. Qed.
#[export] Hint Resolve respondSessionList_quiet endOneShell_quiet : quiet.
Lemma endOneSession_quiet a t sid r : quiet (endOneSession a t sid r).
Proof. unfold endOneSession. quietly. Qed.
Lemma sessionTargetUser_quiet u k : (∀ v, quiet (k v)) → quiet (sessionTargetUser u k).
Proof. intros Hk. unfold sessionTargetUser. quietly. Qed.
#[export] Hint Resolve endOneSession_quiet sessionTargetUser_quiet : quiet.

(** The write of an administrator. *)
Ltac managed := first [assumption|by intros ?; split_and!; intros; simplify_eq/=].

Section management.
Context (r : Request) (i : Identity) (K : K_type) (Hi : administrator K i).

Ltac manage := unfold enableAccount, disableAccount, changed_or; jrun; managed.

Lemma updateRole_just id body : just (fun _ _ => True) K (handleUpdateUserRole r id body i).
Proof using Hi. unfold handleUpdateUserRole. apply actor_just; [done|]. intros K1 a Ha. manage. Qed.
Lemma deleteUser_just id force : just (fun _ _ => True) K (handleDeleteUser r id force i).
Proof using Hi. unfold handleDeleteUser. apply actor_just; [done|]. intros K1 a Ha. manage. Qed.
Lemma createUser_just body : just (fun _ _ => True) K (handleCreateUser r body i).
Proof using Hi. unfold handleCreateUser. apply actor_just; [done|]. intros K1 a Ha. manage. Qed.
Lemma updateStatus_just id body : just (fun _ _ => True) K (handleUpdateUserStatus r id body i).
Proof using Hi. unfold handleUpdateUserStatus. apply actor_just; [done|]. intros K1 a Ha. manage. Qed.
Lemma unlock_just id : just (fun _ _ => True) K (handleUnlockUser r id i).
Proof using Hi. unfold handleUnlockUser. apply actor_just; [done|]. intros K1 a Ha. manage. Qed.
Lemma exempt_just id body : just (fun _ _ => True) K (handleSetDormancyExempt r id body i).
Proof using Hi. unfold handleSetDormancyExempt. apply actor_just; [done|]. intros K1 a Ha. manage. Qed.
Lemma reactivate_just id : just (fun _ _ => True) K (handleReactivateUser r id i).
Proof using Hi. unfold handleReactivateUser. apply actor_just; [done|]. intros K1 a Ha. manage. Qed.
Lemma resetPassword_just id body : just (fun _ _ => True) K (handleResetUserPassword r id body i).
Proof using Hi. unfold handleResetUserPassword. apply actor_just; [done|]. intros K1 a Ha. manage. Qed.
Lemma totpDisable_just body : just (fun _ _ => True) K (handleTOTPDisable r body i).
Proof using Hi.
  unfold handleTOTPDisable. jrun. apply factor_just; [done|done|intros; exact I|]. intros K1 secret ok Hle Hok. up. destruct ok; [|done].
  specialize (Hok eq_refl). cbn [negb]. jrun. intros m. split_and!; [done| | |done].
  - intros act [= <-]. exists i. split; [done|]. by right.
  - by intros user act clk w [= _ <- _ _].
Qed.
End management.

Lemma serve_just i K : identified K i → just (fun _ _ => True) K (serve i).
Proof. intros Hi. unfold serve. destruct i. jrun. done. Qed.

Lemma admitted_administrator K gates i : admitted K gates i → GAdmin ∈ gates → isAllowedTokenType TokenTypeAccess (if_TokenType i) = true →
  administrator K i.
Proof.
  intros (Hi & _ & Ha) Hg Ht. split_and!; [done| |by apply Ha]. unfold isAllowedTokenType in Ht.
  rewrite bool_decide_eq_true_2 in Ht by done. apply orb_true_iff in Ht as [H%bool_decide_eq_true|H%bool_decide_eq_true]; auto.
Qed.

Lemma handler_just arrays U rq K : just (fun _ _ => True) K (handler arrays U rq).
Proof.
  destruct rq; cbn [handler];
    try (apply route_just; intros K1 i Hle Hadm Hty; first [apply admitted_administrator in Hadm; [|set_solver|done]|destruct Hadm as [Hadm _]]).
  all: auto using handleRegister_just, handleLogin_just, handleLoginTOTP_just, handleRefresh_just, handleLogout_just, handleTOTPSetup_just,
         handleTOTPEnable_just, handleRecovery_just, handleChangePassword_just, totpDisable_just, updateRole_just, deleteUser_just,
         createUser_just, updateStatus_just, unlock_just, exempt_just, reactivate_just, resetPassword_just, serve_just.
  all: apply quiet_at; unfold handleMySessions, handleSignOutOthers, handleEndMySession, handleListUserSessions, handleEndUserSessions, handleEndUserSession;
    quietly.
  all: apply sessionTargetUser_quiet; intros v; quietly.
Qed.

(** ** Every run *)

Section runs.
Context (named : string → list string) (J : JSON) (proposal : string → option SecurityChangePayload) (payload : string → option string).
Context (compare : string → string → bool) (valid : string → string → Time → bool) (arrays : string → option (list string)) (U : Unicode).

Abbreviation step_ := (estep named J proposal payload compare valid arrays U) (only parsing).
Abbreviation run_ := (erun named J proposal payload compare valid arrays U) (only parsing).

Definition invariant (h : Hub) : Prop :=
  ordered (w_log (h_world h)) ∧ ∀ n p, h_threads h !! n = Some p → just (fun _ _ => True) (own n (w_log (h_world h))) p.

Lemma just_weaken {A} (K K' : K_type) (p : prog A) : knows_le K K' → just (fun _ _ => True) K p → just (fun _ _ => True) K' p.
Proof using. apply justified_weaken; [intros B c K1 K2 H; apply (pre_mono H)|done]. Qed.

Lemma step_invariant h e : invariant h → invariant (step_ h e).
Proof using.
  intros [Ho Ht]. destruct e as [rq|n o|o]; cbn [estep].
  - split; [done|]. cbn. intros n p [Hp|[_ Hp]]%lookup_app_Some; [by apply Ht|]. apply list_lookup_singleton_Some in Hp as [_ <-]. apply handler_just.
  - destruct (h_threads h !! n) as [p|] eqn:En; [|by split]. destruct p as [a|B c k]; [by split|].
    destruct (perform named J proposal payload compare valid n o (h_world h) c) as [w b] eqn:Ep. destruct (Ht _ _ En) as [Hp Hk].
    destruct (perform_ordered _ _ _ _ _ _ _ _ _ _ _ _ Ep Hp Ho) as (Ho' & Hle & Hl & Hs). split; [done|]. cbn. intros m p.
    intros [(-> & <- & _)|[_ Hm]]%list_lookup_insert_Some.
    + eapply just_weaken; [|by apply Hk]. intros f [Hf|Hf]; [by apply Hle|by apply Hl].
    + eapply just_weaken; [by apply own_mono|by apply Ht].
  - by split.
Qed.

Lemma run_invariant g b es : invariant (run_ (starting g b) es).
Proof using.
  assert (Hs : ∀ h, invariant h → invariant (run_ h es)).
  { induction es as [|e es IH]; [done|]. intros h Hh. cbn. by apply IH, step_invariant. }
  apply Hs. split; [exact I|done].
Qed.
End runs.

Lemma ordered_split log l1 x l2 : ordered log → log = l1 ++ x :: l2 → fact_ok l2 x.1 x.2 ∧ ordered l2.
Proof. revert log. induction l1 as [|y l1 IH]; intros log Ho ->; [exact Ho|]. cbn in Ho. destruct Ho as [_ Ho]. by eapply IH. Qed.

(** A fact of the log and what preceded it. *)
Lemma ordered_elem log x : ordered log → x ∈ log → ∃ l1 l2, log = l1 ++ x :: l2 ∧ fact_ok l2 x.1 x.2 ∧ ordered l2.
Proof.
  intros Ho (l1 & l2 & ->)%list_elem_of_split. destruct (ordered_split _ _ _ _ Ho eq_refl). by exists l1, l2.
Qed.

(** ** The chain of a sign-in *)

(** [token], of a type and a user, was signed by a request of which [P] holds then. *)
Definition signed (log : Log) (token t user : string) (P : nat → Claims → Log → Prop) : Prop :=
  ∃ newer m d older, log = newer ++ (m, FSigned token d) :: older ∧ cl_TokenType d = t ∧ cl_Subject d = user ∧ P m d older.
(** The token of the password stage a sign-in was completed with. *)
Definition password_stage (log : Log) (q : nat) (user : string) : Prop :=
  ∃ token c, own q log (FParsed token c) ∧ cl_Subject c = user ∧
    ((cl_TokenType c = TokenTypeTOTP ∧ signed log token TokenTypeTOTP user (fun m _ older => primary (own m older) user))
     ∨ (cl_TokenType c = TokenTypeSetup ∧ enabled_factor (own q log) user
        ∧ signed log token TokenTypeSetup user (fun m _ older => primary (own m older) user ∨ registered (own m older) user))).
(** One request opened the session, after it had accepted a code and a token of the
    password stage. *)
Definition sign_in (log : Log) (user session : string) : Prop :=
  ∃ newer q s older, log = newer ++ (q, FDone (fun _ => SCreate s)) :: older ∧ s_ID s = session ∧ s_UserID s = user
    ∧ checked (own q older) user ∧ password_stage older q user.
(** Request [n] was authenticated by an access token of a sign-in. *)
Definition signed_in (log : Log) (n : nat) (i : Identity) : Prop :=
  ∃ token, access_token (own n log) i token
    ∧ signed log token TokenTypeAccess (if_UserID i) (fun _ d older => cl_SessionID d = if_SessionID i ∧ sign_in older (if_UserID i) (if_SessionID i)).

Lemma sign_in_app l log user session : sign_in log user session → sign_in (l ++ log) user session.
Proof. intros (newer & q & s & older & -> & H). exists (l ++ newer), q, s, older. by rewrite <- app_assoc. Qed.

(** A token that was accepted was signed for a reason. *)
Lemma parsed_signed log n token c : ordered log → own n log (FParsed token c) →
  ∃ newer m d older, log = newer ++ (m, FSigned token d) :: older ∧ cl_TokenType d = cl_TokenType c ∧ cl_Subject d = cl_Subject c
    ∧ cl_SessionID d = cl_SessionID c ∧ may_sign (own m older) (cl_TokenType c) (cl_Subject c) (cl_SessionID c) ∧ ordered older.
Proof.
  intros Ho Hin. apply ordered_elem in Hin as (l1 & l2 & -> & (m & d & Hd & Es & Et & _ & Ei) & Hol); [|done].
  apply ordered_elem in Hd as (l3 & l4 & -> & Hs & Hol'); [|done]. cbn in Hs. rewrite Es, Et, Ei in Hs.
  exists (l1 ++ (n, FParsed token c) :: l3), m, d, l4. by rewrite <- app_assoc.
Qed.

Lemma challenged_stage log q user : ordered log → challenged (own q log) user → password_stage log q user.
Proof.
  intros Ho (sid & [Hp|[Hp He]]); destruct Hp as (token & c & Hin & Ht & Hu & _); exists token, c; (split_and!; [done|done|]);
    destruct (parsed_signed _ _ _ _ Ho Hin) as (newer & m & d & older & El & Etd & Esd & _ & Hs & _); rewrite Ht, Hu in *.
  - left. split; [done|]. by exists newer, m, d, older.
  - right. split_and!; [done|done|]. by exists newer, m, d, older.
Qed.

(** Every chain of refreshes goes back to a sign-in. *)
Lemma chain_opened log m t user s : ordered log → (t = TokenTypeAccess ∨ t = TokenTypeRefresh) → may_sign (own m log) t user s → sign_in log user s.
Proof.
  remember (length log) as n eqn:En. revert log m t En. induction n as [n IH] using lt_wf_ind. intros log m t -> Ho Ht Hm.
  assert (Hm' : opened (own m log) user s ∨ presented (own m log) TokenTypeRefresh user s) by (destruct Ht; subst t; exact (proj2 Hm)).
  destruct Hm' as [(x & Hin & Hid & Hu)|(token & c & Hin & Hty & Hu & Hid)].
  - apply ordered_elem in Hin as (l1 & l2 & -> & Hok & Hol); [|done]. destruct (Hok (mkMoment (fun _ => 0) 0 true false None None)) as [Hc _].
    destruct (Hc x eq_refl) as [Hcode Hch]. rewrite Hu in *. exists l1, m, x, l2. split_and!; try done. by apply challenged_stage.
  - destruct (parsed_signed _ _ _ _ Ho Hin) as (newer & m' & d & older & -> & _ & _ & _ & Hs & Hol). rewrite Hty, Hu, Hid in Hs.
    rewrite cons_middle, app_assoc. apply sign_in_app. eapply (IH (length older)) with (t := TokenTypeRefresh); [|done|done|by right|exact Hs]. rewrite length_app. cbn. lia.
Qed.

Lemma access_signed_in log n i : ordered log → by_access (own n log) i → signed_in log n i.
Proof.
  intros Ho [token Hb]. exists token. split; [done|]. destruct Hb as (c & u & s & now & p & Hp & Ht & Hu & Hs & _).
  destruct (parsed_signed _ _ _ _ Ho Hp) as (newer & m & d & older & El & Etd & Esd & Eid & Hm & Hol). exists newer, m, d, older.
  rewrite Ht, Hu, Hs in *. split_and!; try done. apply (chain_opened _ m TokenTypeAccess); [done|by left|done].
Qed.

(** An API token is no signed token. *)
Lemma no_signed_api log n user s : ordered log → ¬ presented (own n log) TokenTypeAPIToken user s.
Proof. intros Ho (token & c & Hin & Ht & _). apply parsed_signed in Hin as (? & ? & ? & ? & _ & _ & _ & _ & Hm & _); [|done]. rewrite Ht in Hm. by destruct Hm as [[?|?] _]. Qed.

(** An administrator signed in, or holds an API token. *)
Lemma administrator_why log n i : ordered log → administrator (own n log) i →
  signed_in log n i ∨ (if_TokenType i = TokenTypeAPIToken ∧ by_token (own n log) i).
Proof.
  intros Ho (Hi & Ht & _). unfold identified in Hi. case_bool_decide as Ha; [left; by apply access_signed_in|].
  destruct Ht as [?|Ht]; [done|]. destruct Hi as [Hi|Hi]; [by right|]. rewrite Ht in Hi. by apply no_signed_api in Hi.
Qed.

Section claims.
Context (named : string → list string) (J : JSON) (proposal : string → option SecurityChangePayload) (payload : string → option string).
Context (compare : string → string → bool) (valid : string → string → Time → bool) (arrays : string → option (list string)) (U : Unicode).
Abbreviation run_ := (erun named J proposal payload compare valid arrays U) (only parsing).

(** C2. Served means signed in.  However requests interleave with each other and
    with the other operations of the store, when request [n] is served by an
    endpoint on an access token, then before that the same request had accepted the
    token, read the account with the token's generation and without a pending
    password change, and judged the session live.  The token had been signed for
    this user and session, directly or by a chain of refreshes, after a sign-in had
    opened the session; and the one request that opened it had before accepted a
    one-time code, checked against the secret stored for the account, and a token
    of the password stage: either the token of an account with a second factor,
    which had been signed by a request that had accepted the password of this very
    account, itself or by the directory, or a setup token, which had been signed by
    such a request or by the one that registered the first account of the hub, and
    then the request that opened the session had also enabled the second factor. *)
Theorem served_means_signed_in g b es l1 n i l2 :
  w_log (h_world (run_ (starting g b) es)) = l1 ++ (n, FServed i) :: l2 → if_TokenType i = TokenTypeAccess → signed_in l2 n i.
Proof using.
  intros Hlog Ht. destruct (run_invariant named J proposal payload compare valid arrays U g b es) as [Ho _].
  destruct (ordered_split _ _ _ _ Ho Hlog) as [Hok Hol]. cbn in Hok. unfold identified in Hok. rewrite bool_decide_eq_true_2 in Hok by done.
  by apply access_signed_in.
Qed.

End claims.

(** ** A run *)

Definition sp_compare (hash password : string) : bool := bool_decide (hash = "hash") && bool_decide (password = "pw").
Definition sp_valid (secret code : string) (now : Time) : bool := bool_decide (code = "123456").
Definition sp_moment : Moment := mkMoment (fun _ => sd_time) sd_time true false None None.
Definition sp_claims (token tokenType : string) : Claims :=
  mkClaims "sid" "olga" sd_time (Some (sd_time + Hour)) "viewer" tokenType 3 (if bool_decide (tokenType = TokenTypeTOTP) then "" else "sid").
(** A call of thread [n] at which the library signs [text] and reads [tokenType]. *)
Definition sp_call (text tokenType : string) (n : nat) : event :=
  ECall n (mkOracle None sd_time "sid" (Ok text) (Ok (sp_claims text tokenType)) (Err (ErrText "no directory")) sp_moment (fun _ => sd_time)
             true true [] [] 0).
Definition sp_gov : Gov := on_accounts st_initial (fun a => set_users a (<["cy" := sd_user "cy"]> (ac_users a))).
Definition sp_browser (access : string) : Request := mkRequest "10.0.0.1" "browser" access "".
Definition sp_signIn : list event :=
  [EStart (RqLogin (sp_browser "") (Some ("olga", "pw")))] ++ replicate 7 (sp_call "first" TokenTypeTOTP 0)
  ++ [EStart (RqLoginTOTP (sp_browser "") (Some ("first", "123456")))] ++ replicate 18 (sp_call "access" TokenTypeTOTP 1)
  ++ replicate 3 (sp_call "refresh" TokenTypeTOTP 1).
Definition sp_served : list event :=
  sp_signIn ++ [EStart (RqOther (sp_browser "access") [])] ++ replicate 11 (sp_call "" TokenTypeAccess 2).
Definition sp_managed : list event :=
  sp_signIn ++ [EStart (RqUserRole (sp_browser "access") "cy" (Some "auditor"))] ++ replicate 15 (sp_call "" TokenTypeAccess 2).
Abbreviation sp_run := (erun st_named sd_json sd_proposal (fun _ => None) sp_compare sp_valid (fun _ => None) ascii_unicode
                          (starting sp_gov (mkBlacklist ∅ None))) (only parsing).

Lemma served_means_signed_in_witness :
  signed_in (tl (w_log (h_world (sp_run sp_served)))) 2 (mkIdentified "olga" "viewer" TokenTypeAccess "sid").
Proof.
  apply (served_means_signed_in st_named sd_json sd_proposal (fun _ => None) sp_compare sp_valid (fun _ => None) ascii_unicode sp_gov
           (mkBlacklist ∅ None) sp_served []); [vm_compute; reflexivity|reflexivity].
Defined.
