(* ===== verification/Revocation.v ===== *)
(** Revocation is final: an access token whose session has ended, or that is of an
    earlier generation than its account, is refused by every endpoint from then on,
    however requests interleave (SignInProtocol.v).  The locks of sign-in are here
    too: what a locked account answers, and where the lock is not looked at. *)

From S2P Require Import Prelude Prog Codec Filepath Lockout Model Account Session Governance SecurityStore SecurityProtocol Transition AuthTokens AccountStore SignIn AccountAdmin SignInProtocol.
Local Open Scope prog_scope.

(** The session has ended or is gone. *)
Definition over (sid : string) (g : Gov) : Prop :=
  ∀ r, ac_sessions (gv_accounts g) !! sid = Some r → ∃ t, sn_ended r = Some (Some t).
(** The account has moved on, or is gone for good: its person stays. *)
Definition outdated (user : string) (gen : Z) (g : Gov) : Prop :=
  is_Some (ac_persons (gv_accounts g) !! ("user:" +:+ user)) ∧ ∀ u, ac_users (gv_accounts g) !! user = Some u → gen < u_TokenGeneration u.

Lemma aged_over sid g g' : aged g g' → over sid g → over sid g'.
Proof.
  intros A Ho r' Hr'. destruct (ag_sessions _ _ A _ _ Hr') as (r & Hr & _ & He & _). destruct (Ho _ Hr) as [t Et]. exists t.
  rewrite He; congruence.
Qed.
Lemma aged_outdated user gen g g' : aged g g' → outdated user gen g → outdated user gen g'.
Proof.
  intros A [Hp Ho]. split; [by apply (ag_persons _ _ A)|]. intros u' Hu'. destruct (ag_users _ _ A _ _ Hu') as (u & Hu & Hle).
  specialize (Ho _ Hu). lia.
Qed.

Definition creates (sid : string) (o : sop) : bool := match o with SCreate s => bool_decide (s_ID s = sid) | _ => false end.

Section stored.
Context (named : string → list string) (J : JSON) (proposal : string → option SecurityChangePayload).
Abbreviation try := (stry named J proposal) (only parsing).

Lemma stry_over sid g o g' : creates sid o = false → try g o = Ok g' → over sid g → over sid g'.
Proof using.
  intros Hn H Ho. destruct (adds o) eqn:Ha; [|eapply aged_over; [by eapply stry_aged|done]].
  destruct o; try discriminate Ha; simpl in H, Hn.
  - unfold CreateSession in H. head_in H. simplify_eq. apply bool_decide_eq_false in Hn. intros r Hr. cbn in Hr.
    rewrite lookup_insert_ne in Hr by done. by apply Ho.
  - apply rotate_inv in H as (_ & _ & r & live & seen & Hr & _ & Hg & _ & ->). intros x Hx. cbn in Hx.
    destruct (decide (id = sid)) as [->|Hne]; [|rewrite lookup_insert_ne in Hx by done; by apply Ho].
    destruct (Ho _ Hr) as [t Et]. unfold rotation_session in Hg. bool_hyps. congruence.
  - apply fst_ok_inv in H as [x H]. apply write_inv in H as (_ & H & _). heads_in H. simplify_eq.
    intros r. erewrite insert_user_sessions by done. apply Ho.
  - intros r. erewrite insert_user_sessions by done. apply Ho.
Qed.

Lemma insert_user_outdated user gen g u stamp taken g' : insert_user g u stamp taken = Ok g' → outdated user gen g → outdated user gen g'.
Proof using.
  unfold insert_user. intros H [Hp Ho]. head_in H. bool_hyps. simplify_eq.
  destruct (decide (u_ID u = user)) as [<-|Hne]; [done|].
  assert (Hne' : "user:" +:+ u_ID u ≠ "user:" +:+ user) by (by intros ?%(inj _)).
  unfold outdated. cbn. unfold application_changed. cbn. split.
  - case_match; cbn; by rewrite lookup_insert_ne.
  - intros v Hv. apply Ho. case_match; cbn in Hv; by rewrite lookup_insert_ne in Hv.
Qed.
Lemma stry_outdated user gen g o g' : try g o = Ok g' → outdated user gen g → outdated user gen g'.
Proof using.
  intros H Ho. destruct (adds o) eqn:Ha; [|eapply aged_outdated; [by eapply stry_aged|done]].
  destruct o; try discriminate Ha; simpl in H.
  - unfold CreateSession in H. head_in H. by simplify_eq.
  - by apply rotate_inv in H as (_ & _ & r & live & seen & _ & _ & _ & _ & ->).
  - apply fst_ok_inv in H as [x H]. apply write_inv in H as (_ & H & _). heads_in H. simplify_eq. by eapply insert_user_outdated.
  - by eapply insert_user_outdated.
Qed.
End stored.

(** ** Every call of every request *)

(** What a call writes through [stry]. *)
Definition writes {B} (c : call B) : option (Moment → sop) := match c with CWrite f | CManaged _ f => Some f | _ => None end.

Section calls.
Context (named : string → list string) (J : JSON) (proposal : string → option SecurityChangePayload) (payload : string → option string).
Context (compare : string → string → bool) (valid : string → string → Time → bool) (arrays : string → option (list string)) (U : Unicode).
Abbreviation answer_ := (answer named J proposal payload compare valid) (only parsing).
Abbreviation perform_ := (perform named J proposal payload compare valid) (only parsing).

Lemma aged_refl g : aged g g.
Proof using. by apply aged_accounts. Qed.

Lemma transact_gov {A} n o w (r : result (Gov * A)) f : w_gov (transact n o w r f).1 = w_gov w ∨ ∃ g a, r = Ok (g, a) ∧ w_gov (transact n o w r f).1 = g.
Proof using. destruct (transact n o w r f) as [w' x] eqn:E. unfold transact in E. repeat case_match; simplify_eq/=; eauto. Qed.

Lemma transact_aged {A} n o w (r : result (Gov * A)) f : (∀ g a, r = Ok (g, a) → aged (w_gov w) g) → aged (w_gov w) (w_gov (transact n o w r f).1).
Proof using. intros H. destruct (transact_gov n o w r f) as [->|(g & a & E & ->)]; [apply aged_refl|by eapply H]. Qed.

Lemma answer_gov n o w {B} (c : call B) :
  aged (w_gov w) (w_gov (answer_ n o w c).1) ∨
  ∃ f, writes c = Some f ∧ stry named J proposal (w_gov w) (f (o_moment o)) = Ok (w_gov (answer_ n o w c).1).
Proof using.
  destruct c; try (left; apply aged_refl); cbn [answer writes].
  all: try (left; match goal with |- context [let '(_, _) := ?x in _] => destruct x as [? ?] eqn:Ex end; apply aged_refl).
  all: try (left; case_match; apply aged_refl).
  - left. pose proof (endOne_aged (w_gov w) id reason by_ now) as H. unfold EndSession. destruct (endOne _ _ _ _ _) as [g' r].
    apply transact_aged. intros g a E. destruct r; [|done]. cbn in E. by simplify_eq.
  - left. pose proof (stry_aged named J proposal (w_gov w) (SFailure user now p) _ eq_refl eq_refl) as H. cbn in H.
    destruct (RecordLoginFailure _ _ _ _) as [g' r]. apply transact_aged. intros g a E. destruct r; [|done]. cbn in E. by simplify_eq.
  - destruct (transact_gov n o w (pure (stry named J proposal (w_gov w) (o0 (o_moment o))) tt) (fun _ => [FDone o0; FOp (o0 (o_moment o))])) as [->|(g & a & E & ->)];
      [left; apply aged_refl|]. right. exists o0. split; [done|]. unfold pure in E. destruct (stry _ _ _ _ _); [|done]. cbn in E. by simplify_eq.
  - match goal with |- context [transact n o w ?r ?f] => destruct (transact_gov n o w r f) as [->|(g & a & E & ->)] end; [left; apply aged_refl|].
    right. exists o0. split; [done|]. destruct (stry _ _ _ _ _) as [g1|]; [|done]. cbn in E. destruct (GetUserByID g1 user); [|done]. cbn in E. by simplify_eq.
  - left. apply transact_aged. intros g a [= <- _]. by apply on_accounts_aged; intros x; apply aaged_same.
  - left. apply transact_aged. intros g a [= <- _]. by apply on_accounts_aged; intros x; apply aaged_same.
  - left. apply transact_aged. intros g a E. destruct (DisableUserAudited _ _ _ _ _ _) as [[g1 x]|] eqn:Ed; [|done]. cbn in E. simplify_eq.
    eapply DisableUserAudited_aged. by rewrite Ed.
  - left. pose proof (EndUserSessions_aged (w_gov w) user except reason by_ now) as H. destruct (EndUserSessions _ _ _ _ _ _) as [g' ids].
    apply transact_aged. by intros g a [= <- _].
Qed.

(** ** Refused within a number of calls *)

(** Why the token is revoked: its session is over, or its account has moved on. *)
Inductive reason := ByEnd | ByGeneration.
Definition revoked_for (why : reason) (c : Claims) (g : Gov) : Prop :=
  match why with ByEnd => over (cl_SessionID c) g | ByGeneration => outdated (cl_Subject c) (cl_TokenGeneration c) g end.

Lemma aged_revoked why c g g' : aged g g' → revoked_for why c g → revoked_for why c g'.
Proof using. destruct why; [apply aged_over|apply aged_outdated]. Qed.
Lemma stry_revoked why c g o g' : creates (cl_SessionID c) o = false → stry named J proposal g o = Ok g' → revoked_for why c g → revoked_for why c g'.
Proof using. destruct why; [apply stry_over|intros _; apply stry_outdated]. Qed.

(** What the calls of a request with the token [c] can answer. *)
Definition answers (why : reason) (c : Claims) {B} (k : call B) : B → Prop :=
  match k in call B return B → Prop with
  | CParse _ => fun r => match r with Ok d => d = c | Err _ => True end
  | CSession id => fun r => why = ByEnd → id = cl_SessionID c → match r with Ok s => ∃ t, s_EndedAt s = Some t | Err _ => True end
  | CUserByID id => fun r => why = ByGeneration → id = cl_Subject c → match r with Ok u => cl_TokenGeneration c < u_TokenGeneration u | Err _ => True end
  | _ => fun _ => True
  end.

Definition refusal (a : Response) : Prop :=
  a = mkResponse 403 (BRequired passwordChangeRequired "password_change_required") ∨ ∃ message, a = respondError 401 message.

(** [p] ends with [Q] after at most [n] calls. *)
Fixpoint within {A} (why : reason) (c : Claims) (n : nat) (Q : A → Prop) (p : prog A) {struct p} : Prop :=
  match p with
  | Ret a => Q a
  | Call k f => match n with O => False | S n => ∀ b, answers why c k b → within why c n Q (f b) end
  end.
Lemma within_more {A} why c n m (Q : A → Prop) p : (n ≤ m)%nat → within why c n Q p → within why c m Q p.
Proof using.
  revert n m. induction p as [a|C k g IH]; intros n m Hle; [done|]. destruct n as [|n], m as [|m]; cbn; [done|done|lia|].
  intros Hg b Hb. eapply IH; [|by apply Hg]. lia.
Qed.
Lemma within_ret {A B} why c n (Q : A → Prop) (R : B → Prop) p f : (∀ a, Q a → ∃ b, f a = Ret b ∧ R b) → within why c n Q p → within why c n R (bind p f).
Proof using.
  intros Hf. revert n. induction p as [a|C k g IH]; intros n; cbn.
  - intros Ha. destruct (Hf a Ha) as (b & -> & Hb). exact Hb.
  - destruct n as [|n]; [done|]. intros Hg b Hb. apply IH, Hg, Hb.
Qed.

Lemma ended_verdict s now p t : s_EndedAt s = Some t → Session.Evaluate (StateFromModel s) now p = VerdictEnded.
Proof using. unfold Session.Evaluate, StateFromModel. cbn. by intros ->. Qed.

Lemma refusal_answer e : refusal (if bool_decide (e = errPasswordChangeRequired)
  then mkResponse 403 (BRequired passwordChangeRequired "password_change_required") else respondError 401 (access_message e)).
Proof using. case_bool_decide; [by left|right; eauto]. Qed.

Ltac rstep :=
  expose;
  lazymatch goal with
  | |- within _ _ (S _) _ (Call _ _) => let b := fresh "b" in intros b ?; split_answer b; cbn [answers] in *
  | |- within _ _ _ _ (Ret _) => eexists; reflexivity
  | |- within _ _ _ _ (bind (match ?x with _ => _ end) _) => destruct x eqn:?
  | |- within _ _ _ _ (bind (bind (match ?x with _ => _ end) _) _) => destruct x eqn:?
  | |- within _ _ _ _ (match ?x with _ => _ end) => destruct x eqn:?
  end.

(** An access token that is revoked has no authority. *)
Lemma accessAuthority_refused why c : within why c 7 (fun x => ∃ e, x = Err e) (accessAuthority c).
Proof using.
  unfold accessAuthority, accountAccessError, accountStatusStrict, sessionAccessError, checkSessionAccess.
  destruct why; repeat rstep.
  all: exfalso; match goal with
       | H : ByEnd = ByEnd → _ = _ → _, V : Evaluate _ _ _ = _ |- _ =>
           destruct (H eq_refl eq_refl) as [t Et]; by erewrite ended_verdict in V by exact Et
       | H : ByGeneration = ByGeneration → _ = _ → _, V : negb (_ =? _) = false |- _ =>
           specialize (H eq_refl eq_refl); apply negb_false_iff, Z.eqb_eq in V; lia
       end.
Qed.

(** The token does not authenticate. *)
Lemma authenticate_refused why c token : cl_TokenType c = TokenTypeAccess → LooksLikeAPIToken token = false →
  within why c 9 (fun x => ∃ e, x = Err e) (authenticateRequestToken token).
Proof using.
  intros Ht Hl. unfold authenticateRequestToken. rstep; [|rewrite Hl; rstep]. subst b. rewrite Ht.
  assert (Ha : ∀ n, (7 ≤ n)%nat → within why c n (fun x => ∃ e, x = Err e)
    (if bool_decide (TokenTypeAccess = TokenTypeAccess) then accessAuthority c else Ret (Ok tt))).
  { intros n Hn. rewrite bool_decide_eq_true_2 by done. eapply within_more; [|apply accessAuthority_refused]. done. }
  assert (Hr : ∀ n (p : prog (result unit)) (k : unit → prog (result Identity)), within why c n (fun x => ∃ e, x = Err e) p →
    within why c n (fun x => ∃ e, x = Err e) (try_ p k)).
  { intros n p k. apply within_ret. intros a [e ->]. eauto. }
  destruct (bool_decide (cl_ID c = "")).
  - cbn [bind]. apply Hr, Ha. lia.
  - unfold call_. cbn [bind]. intros [|] _; [rstep|]. apply Hr, Ha. lia.
Qed.

Lemma route_refused why c gates r next : cl_TokenType c = TokenTypeAccess → LooksLikeAPIToken (rq_Access r) = false →
  within why c 9 refusal (route TokenTypeAccess gates r next).
Proof using.
  intros Ht Hl. unfold route, authMiddleware. destruct (bool_decide _); [right; eauto|]. unfold or_answer.
  eapply within_ret; [|by apply authenticate_refused]. intros a [e ->]. eexists. split; [reflexivity|]. apply refusal_answer.
Qed.

(** ** Runs *)

(** The requests behind an access token, with what they carry. *)
Definition behind_access (rq : request) : option Request :=
  match rq with
  | RqRegister _ _ | RqLogin _ _ | RqLoginTOTP _ _ | RqRefresh _ _ | RqLogout _ | RqTOTPSetup _ | RqTOTPEnable _ _ | RqRecovery _ _ => None
  | RqChangePassword r _ | RqTOTPDisable r _ | RqMySessions r | RqSignOutOthers r | RqEndMySession r _ | RqCreateUser r _ | RqUserRole r _ _
  | RqDeleteUser r _ _ | RqReactivate r _ | RqResetPassword r _ _ | RqUserStatus r _ _ | RqUnlock r _ | RqExempt r _ _ | RqUserSessions r _ _
  | RqEndUserSessions r _ | RqEndUserSession r _ _ | RqOther r _ => Some r
  end.

Lemma behind_route rq r : behind_access rq = Some r → ∃ gates next, handler arrays U rq = route TokenTypeAccess gates r next.
Proof using. destruct rq; intros [= <-]; do 2 eexists; reflexivity. Qed.

Abbreviation step_ := (estep named J proposal payload compare valid arrays U) (only parsing).
Abbreviation run_ := (erun named J proposal payload compare valid arrays U) (only parsing).

(** The call, the event and the run open a session under the id [sid]. *)
Definition opens (sid : string) (m : Moment) (p : prog Response) : bool :=
  match p with Ret _ => false | Call c _ => match writes c with Some f => creates sid (f m) | None => false end end.
Definition reopens (sid : string) (h : Hub) (e : event) : bool :=
  match e with
  | EStart _ => false
  | ECall n o => match h_threads h !! n with Some p => opens sid (o_moment o) p | None => false end
  | EStore o => creates sid o
  end.
Fixpoint reopened (sid : string) (h : Hub) (es : list event) : bool :=
  match es with [] => false | e :: t => reopens sid h e || reopened sid (step_ h e) t end.

Lemma step_revoked why c h e : reopens (cl_SessionID c) h e = false → revoked_for why c (w_gov (h_world h)) →
  revoked_for why c (w_gov (h_world (step_ h e))).
Proof using.
  intros Hn Hr. destruct e as [rq|n o|o]; cbn [estep]; [done| |].
  - cbn in Hn. destruct (h_threads h !! n) as [[a|B k f]|]; [done| |done]. destruct (perform_ n o (h_world h) k) as [w b] eqn:Ep.
    assert (Hg : w_gov w = w_gov (answer_ n o (h_world h) k).1) by (unfold perform in Ep; injection Ep as <- _; by destruct (noted k)).
    cbn. rewrite Hg. destruct (answer_gov n o (h_world h) k) as [Ha|(g & Hw & Ht)]; [by eapply aged_revoked|].
    cbn in Hn. rewrite Hw in Hn. by eapply stry_revoked.
  - cbn in Hn. cbn. unfold sstep, commit. destruct (stry _ _ _ _ _) eqn:E; [|done]. by eapply stry_revoked.
Qed.

(** In a state where the token is revoked the calls answer accordingly. *)
Lemma perform_answers why c n o w {B} (k : call B) : revoked_for why c (w_gov w) → (∀ d, o_claims o = Ok d → d = c) →
  answers why c k (perform_ n o w k).2.
Proof using.
  intros Hr Hc. destruct k; try done; cbn.
  - intros -> ->. destruct (failing o _) as [u|] eqn:E; [|done]. apply failing_ok in E. unfold GetUserByID, found in E.
    destruct (ac_users _ !! _) as [v|] eqn:Ev; [|done]. cbn in E. simplify_eq. cbn. by apply Hr.
  - destruct (o_claims o); [|done]. destruct (authentic w token a); [by apply Hc|done].
  - intros -> ->. destruct (failing o _) as [u|] eqn:E; [|done]. apply failing_ok in E. unfold GetSession, found in E.
    destruct (ac_sessions _ !! _) as [v|] eqn:Ev; [|done]. cbn in E. simplify_eq. destruct (Hr _ Ev) as [t Et]. exists t. cbn. by rewrite Et.
Qed.

(** How many calls of the thread a run makes. *)
Definition calls_of (n : nat) (es : list event) : nat :=
  length (filter (fun e => match e with ECall m _ => bool_decide (m = n) | _ => false end = true) es).

Lemma run_refused why c n es : ∀ h k p, h_threads h !! n = Some p → within why c k refusal p → revoked_for why c (w_gov (h_world h)) →
  reopened (cl_SessionID c) h es = false → (∀ o d, ECall n o ∈ es → o_claims o = Ok d → d = c) →
  ∃ p', h_threads (run_ h es) !! n = Some p' ∧ within why c (k - calls_of n es) refusal p'.
Proof using.
  induction es as [|e es IH]; intros h k p Hp Hw Hr Hn Hc.
  - exists p. split; [done|]. cbn. by rewrite Nat.sub_0_r.
  - cbn in Hn. apply orb_false_iff in Hn as [Hn1 Hn2]. pose proof (step_revoked why c h e Hn1 Hr) as Hr'.
    assert (Hc' : ∀ o d, ECall n o ∈ es → o_claims o = Ok d → d = c) by (intros o d Ho; apply (Hc o d); by right).
    destruct e as [rq|m o|o].
    + assert (Hp' : h_threads (step_ h (EStart rq)) !! n = Some p) by (cbn; apply lookup_app_Some; by left).
      destruct (IH _ k p Hp' Hw Hr' Hn2 Hc') as (p' & ? & ?). exists p'. by split.
    + destruct (decide (m = n)) as [->|Hmn].
      * assert (Hk : calls_of n (ECall n o :: es) = S (calls_of n es)) by (unfold calls_of; rewrite filter_cons_True; [done|by apply bool_decide_eq_true]).
        rewrite Hk. replace (k - S (calls_of n es))%nat with ((k - 1) - calls_of n es)%nat by lia.
        assert (Hs : ∃ q, h_threads (step_ h (ECall n o)) !! n = Some q ∧ within why c (k - 1) refusal q).
        { cbn [estep]. destruct (h_threads h !! n) as [p0|] eqn:Ep0; [|discriminate]. injection Hp as ->.
          destruct p as [a|B q f]; [by exists (Ret a)|]. destruct k as [|k]; [done|]. cbn in Hw.
          destruct (perform_ n o (h_world h) q) as [w b] eqn:Ep. exists (f b). cbn. split.
          - apply list_lookup_insert_eq. by eapply lookup_lt_Some.
          - rewrite Nat.sub_0_r. apply Hw. pose proof (perform_answers why c n o (h_world h) q Hr) as Ha. rewrite Ep in Ha. apply Ha.
            intros d. apply (Hc o d). by left. }
        destruct Hs as (q & Hq & Hwq). destruct (IH _ _ _ Hq Hwq Hr' Hn2 Hc') as (p' & ? & ?). by exists p'.
      * assert (Hk : calls_of n (ECall m o :: es) = calls_of n es) by (unfold calls_of; rewrite filter_cons_False; [done|by rewrite bool_decide_eq_false_2]).
        assert (Hp' : h_threads (step_ h (ECall m o)) !! n = Some p).
        { cbn [estep]. destruct (h_threads h !! m) as [[a|B q f]|]; [done| |done]. destruct (perform_ m o (h_world h) q) as [w b].
          cbn. by rewrite list_lookup_insert_ne. }
        destruct (IH _ k p Hp' Hw Hr' Hn2 Hc') as (p' & ? & ?). exists p'. by rewrite Hk.
    + destruct (IH (step_ h (EStore o)) k p Hp Hw Hr' Hn2 Hc') as (p' & ? & ?). by exists p'.
Qed.

(** C3. Revocation is final.  Let the session of an access token be over, or its
    account be of a later generation.  From then on, however requests interleave
    with each other and with every operation of the store, provided that no new
    session is opened under the same id, every request that carries the token to an
    endpoint is refused: after at most nine of its calls it has been answered with
    a refusal, whatever the endpoint would have done. *)
Theorem revoked_token_refused why c h rq r es :
  cl_TokenType c = TokenTypeAccess → revoked_for why c (w_gov (h_world h)) →
  behind_access rq = Some r → LooksLikeAPIToken (rq_Access r) = false →
  reopened (cl_SessionID c) h (EStart rq :: es) = false →
  (∀ o d, ECall (length (h_threads h)) o ∈ es → o_claims o = Ok d → d = c) →
  (∀ a, h_threads (run_ h (EStart rq :: es)) !! length (h_threads h) = Some (Ret a) → refusal a)
  ∧ ((9 ≤ calls_of (length (h_threads h)) es)%nat → ∃ a, h_threads (run_ h (EStart rq :: es)) !! length (h_threads h) = Some (Ret a)).
Proof using.
  intros Ht Hr Hb Hl Hn Hc. destruct (behind_route rq r Hb) as (gates & next & Hh). set (n := length (h_threads h)) in *.
  assert (Hp : h_threads (step_ h (EStart rq)) !! n = Some (route TokenTypeAccess gates r next)).
  { cbn. rewrite Hh. unfold n. by rewrite lookup_app_r, Nat.sub_diag. }
  destruct (run_refused why c n es _ 9 _ Hp) as (p' & Hp' & Hw); [by apply route_refused|done|done|done|].
  cbn [erun foldl]. change (foldl _ _ _) with (run_ (step_ h (EStart rq)) es). split.
  - intros a Ha. rewrite Ha in Hp'. injection Hp' as <-. exact Hw.
  - intros Hle. replace (9 - calls_of n es)%nat with 0%nat in Hw by lia. destruct p' as [a|B q f]; [by exists a|done].
Qed.

(** ** Locks *)

(** One request, with other operations of the store before each of its calls. *)
Fixpoint alone (os : nat → list sop * Oracle) (w : World) (p : prog Response) : World * Response :=
  match p with
  | Ret a => (w, a)
  | Call c k =>
      let '(w', b) := perform_ 0%nat (os 0%nat).2 (with_gov w (srun named J proposal (w_gov w) (os 0%nat).1)) c in
      alone (fun n => os (S n)) w' (k b)
  end.

Lemma alone_call os w {B} (c : call B) k : alone os w (Call c k) =
  alone (fun n => os (S n)) (perform_ 0%nat (os 0%nat).2 (with_gov w (srun named J proposal (w_gov w) (os 0%nat).1)) c).1
    (k (perform_ 0%nat (os 0%nat).2 (with_gov w (srun named J proposal (w_gov w) (os 0%nat).1)) c).2).
Proof using. cbn [alone]. by destruct (perform_ _ _ _ c). Qed.

(** A program that gives one of the statuses, whatever is answered. *)
Fixpoint answers_in (l : list Z) (p : prog Response) : Prop :=
  match p with Ret a => rs_Status a ∈ l | Call c k => ∀ b, answers_in l (k b) end.
Lemma alone_answers l p : ∀ os w, answers_in l p → rs_Status (alone os w p).2 ∈ l.
Proof using.
  induction p as [a|B c k IH]; intros os w Hp; [exact Hp|]. rewrite alone_call. apply IH, Hp.
Qed.

Lemma refuseAccount_answers r u st : accountRefuses st = true → answers_in [403; 423; 503] (refuseAccount r u st).
Proof using.
  unfold accountRefuses, refuseAccount, recordLoginFailure. destruct (Refusal st) as [m b]. cbn. intros ->. expose. cbn. intros. by apply (bool_decide_unpack _).
Qed.

(** C30. A locked account says nothing of the password: while the account found
    under a name is locked, sign-in under that name with any two passwords does
    the same and gives the same answer, the refusal of a locked, disabled or
    dormant account or of an unreadable policy, whatever else happens in between. *)
Theorem locked_answers_alike os w r name p1 p2 u t :
  o_fail (os 0%nat).2 = None → GetUserByUsername (srun named J proposal (w_gov w) (os 0%nat).1) name = Ok u →
  u_LockedUntil u = Some t → (∀ k, o_now (os k).2 < t) →
  alone os w (handleLogin arrays r (Some (name, p1))) = alone os w (handleLogin arrays r (Some (name, p2)))
  ∧ rs_Status (alone os w (handleLogin arrays r (Some (name, p1)))).2 ∈ [403; 423; 503].
Proof using.
  intros Hf Hu Ht Hn. unfold handleLogin. expose. rewrite !alone_call.
  assert (H0 : (perform_ 0%nat (os 0%nat).2 (with_gov w (srun named J proposal (w_gov w) (os 0%nat).1)) (CUserByName name)).2 = Ok u).
  { cbn. unfold failing. by rewrite Hf. }
  rewrite H0. set (w1 := (perform_ _ _ _ _).1). clearbody w1. clear H0. unfold accountStatusStrict. expose. rewrite !alone_call.
  destruct (perform_ _ _ _ CPolicy).2 as [pol|e]; [|split; [done|by apply (bool_decide_unpack _)]]. set (w2 := (perform_ _ _ _ _).1). clearbody w2. expose.
  rewrite !alone_call. set (now1 := (perform_ _ _ _ CNow).2). set (w3 := (perform_ _ _ _ _).1). expose.
  destruct (accountRefuses _) eqn:Er; [split; [done|by apply alone_answers, refuseAccount_answers]|]. rewrite !alone_call.
  assert (Hl : IsLocked (u_LockedUntil u) (perform_ 0%nat (os 3%nat).2 (with_gov w3 (srun named J proposal (w_gov w3) (os 3%nat).1)) CNow).2 = true).
  { rewrite Ht. cbn. apply Z.ltb_lt, Hn. }
  rewrite Hl. split; [done|]. apply alone_answers. unfold refuseLocked, recordLoginFailure. expose. cbn. intros _. by apply (bool_decide_unpack _).
Qed.
End calls.

(** ** Runs *)

(** After the sign-in of [sp_signIn] the session is ended, and its token used. *)
Definition rv_hub : Hub := erun st_named sd_json sd_proposal (fun _ => None) sp_compare sp_valid (fun _ => None) ascii_unicode
  (starting sp_gov (mkBlacklist ∅ None)) (sp_signIn ++ [EStore (SEnd "sid" "revoked_admin" (Some "olga") sd_time)]).
Definition rv_events : list event := replicate 9 (sp_call "" TokenTypeAccess 2).
Definition rv_request : request := RqOther (sp_browser "access") [].

Lemma revoked_token_refused_witness :
  ∃ a, h_threads (erun st_named sd_json sd_proposal (fun _ => None) sp_compare sp_valid (fun _ => None) ascii_unicode rv_hub
                    (EStart rv_request :: rv_events)) !! 2%nat = Some (Ret a) ∧ refusal a.
Proof.
  assert (H1 : revoked_for ByEnd (sp_claims "" TokenTypeAccess) (w_gov (h_world rv_hub))).
  { intros r Hr. vm_compute in Hr. injection Hr as <-. eexists. vm_compute. reflexivity. }
  assert (H2 : length (h_threads rv_hub) = 2%nat) by (vm_compute; reflexivity).
  assert (H3 : ∀ o d, ECall (length (h_threads rv_hub)) o ∈ rv_events → o_claims o = Ok d → d = sp_claims "" TokenTypeAccess).
  { intros o d Ho Hd. rewrite H2 in Ho. unfold rv_events in Ho. apply elem_of_replicate in Ho as [E _]. unfold sp_call in E. injection E as ->. injection Hd as <-. reflexivity. }
  assert (H4 : (9 ≤ calls_of (length (h_threads rv_hub)) rv_events)%nat) by (apply Nat.leb_le; vm_compute; reflexivity).
  destruct (revoked_token_refused st_named sd_json sd_proposal (fun _ => None) sp_compare sp_valid (fun _ => None) ascii_unicode ByEnd
              (sp_claims "" TokenTypeAccess) rv_hub rv_request (sp_browser "access") rv_events eq_refl H1 eq_refl eq_refl
              ltac:(vm_compute; reflexivity) H3) as [Hr He].
  destruct (He H4) as [a Ha]. exists a. rewrite <- H2. split; [exact Ha|]. by apply Hr.
Defined.

(** An account of the directory that is locked for an hour. *)
Definition rv_ana : User :=
  mkUser "a1" "ana" "ana@example.com" "" "viewer" AuthProviderLDAP "x1" "" "ana" None false (Some "s") true 3 false 7 0 [] [] "" None false
    None 5 None None (Some (sd_time + Hour)) None None None true None "" sd_time sd_time.
Definition rv_gov : Gov := on_accounts st_initial (fun a => set_users a {[ "a1" := rv_ana ]}).
Definition rv_world : World := mkWorld rv_gov ∅ (mkBlacklist ∅ None) [].
Definition rv_identity : LDAPIdentity := mkIdentity "ana" "ana@example.com" "" "x1" ["veyport-viewers"].
Definition rv_oracle (right : bool) (_ : nat) : list sop * Oracle :=
  ([], mkOracle None sd_time "id" (Ok "token") (Err (ErrText "invalid")) (if right then Ok rv_identity else Err (ErrText "invalid credentials"))
         sp_moment (fun _ => sd_time) true true [] [] 0).
(** A sign-in at which the directory says whether the password is right. *)
Definition rv_login (name password : string) (right : bool) : World * Response :=
  alone st_named sd_json sd_proposal (fun _ => None) sp_compare sp_valid (rv_oracle right) rv_world
    (handleLogin (fun _ => None) (sp_browser "") (Some (name, password))).

Lemma locked_answers_alike_witness :
  rv_login "ana" "one" true = rv_login "ana" "two" true ∧ rs_Status (rv_login "ana" "one" true).2 ∈ [403; 423; 503].
Proof.
  apply (locked_answers_alike st_named sd_json sd_proposal (fun _ => None) sp_compare sp_valid (fun _ => None) (rv_oracle true) rv_world
           (sp_browser "") "ana" "one" "two" rv_ana (sd_time + Hour)); [reflexivity|vm_compute; reflexivity|reflexivity|].
  intros k. vm_compute. reflexivity.
Defined.

(** C40. The lock is not looked at when an account of the directory is reached under
    a name the hub does not know it by.  The account is locked: under its own name
    every password is answered alike.  Under another spelling that the directory
    resolves to the same account, the right password leads on to the second factor
    and a wrong one is refused, without any failure being counted, so that the
    locked account can be tried without end. *)
Theorem lock_not_seen_under_other_name :
  IsLocked (u_LockedUntil rv_ana) sd_time = true
  ∧ rs_Status (rv_login "ana" "right" true).2 = 423 ∧ rs_Status (rv_login "ana" "wrong" false).2 = 423
  ∧ (rv_login "Ana" "right" true).2 = mkResponse 202 (BChallenge "token")
  ∧ (rv_login "Ana" "wrong" false).2 = respondError 401 errInvalidCredentials
  ∧ w_gov (rv_login "Ana" "wrong" false).1 = rv_gov.
Proof. split_and!; vm_compute; reflexivity. Qed.
