(* ===== verification/Administrators.v ===== *)
(** Who manages accounts: the requests of SignInProtocol.v that change an account on
    behalf of an actor.  An actor that could not be determined is empty, and the store
    refuses it because no account has an empty id, as long as identifiers that are
    drawn are not empty. *)

From S2P Require Import Prelude Prog Codec Filepath Lockout Model Account Session Governance SecurityStore SecurityProtocol Transition AuthTokens AccountStore SignIn AccountAdmin SignInProtocol Revocation.
Local Open Scope prog_scope.

(** No account has an empty id. *)
Definition blank_free (g : Gov) : Prop := ac_users (gv_accounts g) !! "" = None.
(** google/uuid draws no empty identifier, for requests and for the rest of the hub. *)
Definition drawn (e : event) : Prop :=
  match e with EStart _ => True | ECall _ o => o_id o ≠ "" | EStore o => ∀ u, added o = Some u → u_ID u ≠ "" end.

Lemma aged_blank g g' : aged g g' → blank_free g → blank_free g'.
Proof.
  intros A Hb. unfold blank_free in *. destruct (ac_users (gv_accounts g') !! "") as [u'|] eqn:E; [|done].
  destruct (ag_users _ _ A _ _ E) as (u & Hu & _). congruence.
Qed.
Lemma insert_user_blank g u stamp taken g' : insert_user g u stamp taken = Ok g' → u_ID u ≠ "" → blank_free g → blank_free g'.
Proof.
  unfold insert_user, blank_free. intros H Hid Hb. head_in H. bool_hyps. simplify_eq. cbn. unfold application_changed. cbn.
  case_match; cbn; by rewrite lookup_insert_ne.
Qed.

Section runs.
Context (named : string → list string) (J : JSON) (proposal : string → option SecurityChangePayload) (payload : string → option string).
Context (compare : string → string → bool) (valid : string → string → Time → bool) (arrays : string → option (list string)) (U : Unicode).
Abbreviation try := (stry named J proposal) (only parsing).
Abbreviation step_ := (estep named J proposal payload compare valid arrays U) (only parsing).
Abbreviation run_ := (erun named J proposal payload compare valid arrays U) (only parsing).

Lemma stry_blank g o g' : (∀ u, added o = Some u → u_ID u ≠ "") → try g o = Ok g' → blank_free g → blank_free g'.
Proof using.
  intros Hn H Hb. destruct (adds o) eqn:Ha; [|eapply aged_blank; [by eapply stry_aged|done]].
  destruct o; try discriminate Ha; simpl in H.
  - unfold CreateSession in H. head_in H. by simplify_eq.
  - by apply rotate_inv in H as (_ & _ & r & live & seen & _ & _ & _ & _ & ->).
  - apply fst_ok_inv in H as [x H]. apply write_inv in H as (_ & H & _). heads_in H. simplify_eq. eapply insert_user_blank; [done|by apply (Hn user)|done].
  - eapply insert_user_blank; [done|by apply (Hn user)|done].
Qed.

(** What the store commits for an actor, it commits for an account. *)
Lemma guard_exists g a now : guardAccountManagementActor g a now = Ok tt → is_Some (ac_users (gv_accounts g) !! am_UserID a).
Proof using. unfold guardAccountManagementActor. by destruct (users g !! am_UserID a). Qed.
Lemma actor_exists g o a : managed_by o = Some a → is_ok (try g o) = true → is_Some (ac_users (gv_accounts g) !! am_UserID a).
Proof using.
  intros Ho H. destruct (try g o) as [g'|] eqn:E; [|done]. clear H. rename E into H. destruct o; try discriminate Ho; injection Ho as ->; unfold stry in H.
  1-9: apply fst_ok_inv in H as [x H]; apply write_inv in H as (H & _); by eapply guard_exists.
  unfold DisableUserTOTP in H. do 2 head_in H.
  match type of H with match ?r with _ => _ end = _ => destruct r as [[g1 []]|] eqn:E; [|discriminate H] end.
  apply write_inv in E as (E & _). by eapply guard_exists.
Qed.

Definition identified_actors (h : Hub) : Prop :=
  blank_free (w_gov (h_world h)) ∧ (∀ n id, (n, FDrawn id) ∈ w_log (h_world h) → id ≠ "")
  ∧ ∀ n o a, (n, FOp o) ∈ w_log (h_world h) → managed_by o = Some a → am_UserID a ≠ "".

Lemma learned_drawn {B} (c : call B) b id n o w : (answer named J proposal payload compare valid n o w c).2 = b → FDrawn id ∈ learned c b → id = o_id o.
Proof using.
  intros <-. destruct c; cbn -[GetUserByID]; try (by intros ?%not_elem_of_nil); try (by intros [= ->]%list_elem_of_singleton);
    repeat case_match; first [by intros ?%list_elem_of_singleton|by intros ?%not_elem_of_nil].
Qed.
Lemma learned_op {B} (c : call B) b o : ¬ FOp o ∈ learned c b.
Proof using. destruct c; cbn; try (by intros ?%not_elem_of_nil); repeat case_match; first [by intros ?%list_elem_of_singleton|by intros ?%not_elem_of_nil]. Qed.

(** The facts a call adds. *)
Lemma perform_facts n o w {B} (c : call B) w' b m f : perform named J proposal payload compare valid n o w c = (w', b) → (m, f) ∈ w_log w' →
  (m, f) ∈ w_log w ∨ (m = n ∧ ((∃ s, f = FOp s ∧ is_ok (try (w_gov w) s) = true) ∨ (f = FDrawn (o_id o)) ∨ ((∀ s, f ≠ FOp s) ∧ ∀ id, f ≠ FDrawn id))).
Proof using.
  unfold perform. intros [= <- Eb] Hin. destruct (answer_log named J proposal payload compare valid n o w c) as (fs & He & _ & _ & Hop & Hdr). unfold extends in He.
  assert (Hfs : ∀ x, x ∈ map (pair n) fs → x.1 = n ∧ ((∃ s, x.2 = FOp s ∧ is_ok (try (w_gov w) s) = true) ∨ (x.2 = FDrawn (o_id o)) ∨ ((∀ s, x.2 ≠ FOp s) ∧ ∀ id, x.2 ≠ FDrawn id))).
  { intros x (y & -> & Hy)%list_elem_of_fmap. cbn. split; [done|]. destruct y; try (right; right; split; congruence); [by apply Hdr in Hy|left; eauto]. }
  destruct (noted c); cbn in Hin.
  - rewrite He in Hin. apply elem_of_app in Hin as [Hin|Hin]; [right; by apply Hfs in Hin|by left].
  - apply elem_of_app in Hin as [Hin|Hin].
    + right. apply list_elem_of_fmap in Hin as (y & [= -> ->] & Hy). split; [done|]. destruct y; try (right; right; split; congruence).
      * right. left. f_equal. exact (learned_drawn c _ id n o w eq_refl Hy).
      * by apply learned_op in Hy.
    + rewrite He in Hin. apply elem_of_app in Hin as [Hin|Hin]; [right; by apply Hfs in Hin|by left].
Qed.

Lemma step_actors h e : drawn e → invariant h → identified_actors h → identified_actors (step_ h e).
Proof using.
  intros Hd [_ Ht] (Hb & Hn & Ha). destruct e as [rq|n o|o]; cbn [estep]; [done| |].
  - destruct (h_threads h !! n) as [[x|B c k]|] eqn:En; [done| |done]. destruct (perform _ _ _ _ _ _ n o (h_world h) c) as [w b] eqn:Ep.
    destruct (Ht _ _ En) as [Hp _]. split_and!; cbn.
    + assert (Hg : w_gov w = w_gov (answer named J proposal payload compare valid n o (h_world h) c).1)
        by (unfold perform in Ep; injection Ep as <- _; by destruct (noted c)).
      rewrite Hg. destruct (answer_gov named J proposal payload compare valid n o (h_world h) c) as [Hag|(f & Hw & Hs)]; [by eapply aged_blank|].
      eapply stry_blank; [|done|done]. intros u Hu. eapply Hn. destruct c; try discriminate Hw; injection Hw as ->; by apply (Hp (o_moment o)).
    + intros m id Hin. destruct (perform_facts _ _ _ _ _ _ _ _ Ep Hin) as [Hin'|[-> [(s & ? & _)|[[= ->]|[_ Hx]]]]]; [by eapply Hn|done|done|by destruct (Hx id)].
    + intros m s a Hin Hs. destruct (perform_facts _ _ _ _ _ _ _ _ Ep Hin) as [Hin'|[-> [(s' & [= <-] & Hok)|[?|[Hx _]]]]]; [by eapply Ha| |done|by destruct (Hx s)].
      destruct (actor_exists _ _ _ Hs Hok) as [u Hu]. intros E. rewrite E in Hu. unfold blank_free in Hb. congruence.
  - split_and!; [|done|done]. cbn. unfold sstep, commit. destruct (stry _ _ _ _ _) eqn:E; [|done]. by eapply stry_blank.
Qed.

Lemma run_actors g b es : blank_free g → Forall drawn es → identified_actors (run_ (starting g b) es).
Proof using.
  intros Hg Hes. assert (Hs : ∀ h, invariant h → identified_actors h → identified_actors (run_ h es)).
  { induction Hes as [|e es He _ IH]; [done|]. intros h Hi Hh. cbn. apply IH; [by apply step_invariant|by apply step_actors]. }
  apply Hs; [split; [exact I|done]|]. split_and!; [done|by intros ? ? ?%not_elem_of_nil|by intros ? ? ? ?%not_elem_of_nil].
Qed.

(** C7. Only administrators manage accounts.  When request [n] has changed an account
    on behalf of an actor (its role, its status, disabled or enabled, its lock, its
    exemption, its password or its second factor, or created, deleted or reactivated
    it), then the actor is the user as whom this very request had been authenticated
    before, on an access token of a sign-in or by an API token of its user, and whom it
    had found to hold the administrator's capability; and a request that removed a
    second factor had itself accepted a one-time code of the actor, checked against the
    actor's stored secret.  No account has an empty id at the start, and no identifier
    that is drawn is empty. *)
Theorem managed_by_administrator g b es l1 n o l2 a :
  blank_free g → Forall drawn es →
  w_log (h_world (run_ (starting g b) es)) = l1 ++ (n, FOp o) :: l2 → managed_by o = Some a →
  ∃ i, am_UserID a = if_UserID i
    ∧ (signed_in l2 n i ∨ (if_TokenType i = TokenTypeAPIToken ∧ by_token (own n l2) i))
    ∧ (∃ e, own n l2 (FEffective e) ∧ e_UserID e = if_UserID i ∧ Can e "operations.admin" = true)
    ∧ (∀ user clk w, o = SRemoveFactor user a clk w → checked (own n l2) (am_UserID a)).
Proof using.
  intros Hg Hes Hlog Ha. destruct (run_invariant named J proposal payload compare valid arrays U g b es) as [Ho _].
  destruct (run_actors g b es Hg Hes) as (_ & _ & Hne). destruct (ordered_split _ _ _ _ Ho Hlog) as [(_ & Hm & Hr & _) Hol].
  destruct (Hm a Ha) as (i & Hi & Hact). exists i. split_and!; [|by apply administrator_why|apply Hi|intros; by eapply Hr].
  destruct Hact as [->|?]; [|done]. exfalso. apply (Hne n o noActor); [|done|done]. rewrite Hlog. apply elem_of_app. right. by left.
Qed.
End runs.

Definition ad_actor : AccountManagementActor := mkManager "olga" "sid" 3 7 (sd_time + Hour) "".
Definition ad_managed : list event :=
  sp_signIn ++ [EStart (RqUserRole (sp_browser "access") "cy" (Some "auditor"))] ++ replicate 15 (sp_call "" TokenTypeAccess 2).
Abbreviation ad_run := (erun st_named sd_json sd_proposal (fun _ => None) sp_compare sp_valid (fun _ => None) ascii_unicode
                          (starting sp_gov (mkBlacklist ∅ None))) (only parsing).
Definition ad_log : list (nat * fact) := w_log (h_world (ad_run ad_managed)).
Definition ad_role : sop := SRole "cy" "auditor" ad_actor (fun _ => sd_time) true.

Lemma managed_by_administrator_witness :
  ∃ i, am_UserID ad_actor = if_UserID i
    ∧ (signed_in (drop 2 ad_log) 2 i ∨ (if_TokenType i = TokenTypeAPIToken ∧ by_token (own 2 (drop 2 ad_log)) i)).
Proof.
  assert (H1 : blank_free sp_gov) by (vm_compute; reflexivity).
  assert (H2 : Forall drawn ad_managed).
  { apply Forall_forall. intros e He. unfold ad_managed, sp_signIn in He. rewrite !elem_of_app, !elem_of_replicate, !list_elem_of_singleton in He. naive_solver. }
  assert (H : w_log (h_world (ad_run ad_managed)) = take 1 ad_log ++ (2%nat, FOp ad_role) :: drop 2 ad_log) by (vm_compute; reflexivity).
  destruct (managed_by_administrator st_named sd_json sd_proposal (fun _ => None) sp_compare sp_valid (fun _ => None) ascii_unicode sp_gov
              (mkBlacklist ∅ None) ad_managed (take 1 ad_log) 2 ad_role (drop 2 ad_log) ad_actor H1 H2 H eq_refl) as (i & Hi & Hs & _).
  exists i. split; [exact Hi|exact Hs].
Defined.
