(* ===== verification/AgentUpdates.v ===== *)
(** Updates of the agents, hub side (hub/internal/grpcserver/agent_updates.go,
    hub/internal/store/agent_updates.go, hub/internal/model/agent_update.go,
    proto/updateutil/bootstrap.go): an operation is a row that administrators,
    the agent of its node and the clock move from state to state.

    A handler is a program of the calls it makes: the rows, the connection
    manager, the terminal registry and the maps of [AgentUpdates] are reached by
    calls, one per critical section or query.  Mutexes that are held over several
    calls (observationMu, the policy lock, SendMu) are left out: runs of the
    programs interleave more than the code does. *)

From S2P Require Import Prelude Prog Codec Lockout Model Session Governance ConnMgr Version Terminal.
Local Open Scope prog_scope.

(** ** Data *)

Definition MaxAgentArtifactBytes : Z := Z.shiftl 128 20.
Definition ErrAgentUpdateDenied : goerr := Sentinel "ErrAgentUpdateDenied".
Definition ErrAgentUpdateConflict : goerr := Sentinel "ErrAgentUpdateConflict".
Definition ErrNoRows : goerr := Sentinel "sql.ErrNoRows".

Record AgentArtifact := mkArtifact {
  aa_OS : string; aa_Arch : string; aa_Version : string; aa_Revision : string; aa_SHA256 : string; aa_Bytes : Z; aa_BinaryPath : string;
}.
Definition no_artifact : AgentArtifact := mkArtifact "" "" "" "" "" 0 "".

Record BootstrapOriginal := mkOriginal { bo_Version : string; bo_SHA256 : string }.
Definition Present (o : BootstrapOriginal) : bool := negb (bool_decide (bo_Version o = "")) || negb (bool_decide (bo_SHA256 o = "")).
(** Decoding the digest and comparing it with its lower case is [ValidHash]. *)
Definition ValidateOriginal (o : BootstrapOriginal) : result unit :=
  if negb (Present o) then Ok tt else
  check! bool_decide (bo_Version o = "") || (128 <=? len (bo_Version o)) || negb (ValidateVersion (bo_Version o)) || negb (ValidHash (bo_SHA256 o)),
    ErrText "bootstrap original assertion requires a comparable version and exact lowercase SHA256";
  Ok tt.

Record AgentUpdate := mkUpdate {
  au_ID : string;
  au_NodeID : string;
  au_ActorID : string;
  au_SessionID : string;
  au_State : string;
  au_Reason : string;
  au_Target : AgentArtifact;
  au_BootstrapArtifacts : list AgentArtifact;
  au_BootstrapIdleConfirmed : bool;
  au_BootstrapConnectionID : string;
  au_BootstrapOriginal : BootstrapOriginal;
  au_PreviousVersion : string;
  au_PreviousRevision : string;
  au_PreviousSHA256 : string;
  au_PreviousBootID : string;
  au_ObservedVersion : string;
  au_ObservedRevision : string;
  au_ObservedSHA256 : string;
  au_ObservedBootID : string;
  au_TicketHash : string;
  au_ExpiresAt : Z;
  au_CreatedAt : Z;
  au_UpdatedAt : Z;
}.

(** Assignments to fields. *)
Definition set_State (s : AgentUpdate) v0 := mkUpdate (au_ID s) (au_NodeID s) (au_ActorID s) (au_SessionID s) v0 (au_Reason s) (au_Target s) (au_BootstrapArtifacts s) (au_BootstrapIdleConfirmed s) (au_BootstrapConnectionID s) (au_BootstrapOriginal s) (au_PreviousVersion s) (au_PreviousRevision s) (au_PreviousSHA256 s) (au_PreviousBootID s) (au_ObservedVersion s) (au_ObservedRevision s) (au_ObservedSHA256 s) (au_ObservedBootID s) (au_TicketHash s) (au_ExpiresAt s) (au_CreatedAt s) (au_UpdatedAt s).
Definition set_Reason (s : AgentUpdate) v0 := mkUpdate (au_ID s) (au_NodeID s) (au_ActorID s) (au_SessionID s) (au_State s) v0 (au_Target s) (au_BootstrapArtifacts s) (au_BootstrapIdleConfirmed s) (au_BootstrapConnectionID s) (au_BootstrapOriginal s) (au_PreviousVersion s) (au_PreviousRevision s) (au_PreviousSHA256 s) (au_PreviousBootID s) (au_ObservedVersion s) (au_ObservedRevision s) (au_ObservedSHA256 s) (au_ObservedBootID s) (au_TicketHash s) (au_ExpiresAt s) (au_CreatedAt s) (au_UpdatedAt s).
Definition set_Target (s : AgentUpdate) v0 := mkUpdate (au_ID s) (au_NodeID s) (au_ActorID s) (au_SessionID s) (au_State s) (au_Reason s) v0 (au_BootstrapArtifacts s) (au_BootstrapIdleConfirmed s) (au_BootstrapConnectionID s) (au_BootstrapOriginal s) (au_PreviousVersion s) (au_PreviousRevision s) (au_PreviousSHA256 s) (au_PreviousBootID s) (au_ObservedVersion s) (au_ObservedRevision s) (au_ObservedSHA256 s) (au_ObservedBootID s) (au_TicketHash s) (au_ExpiresAt s) (au_CreatedAt s) (au_UpdatedAt s).
Definition set_Artifacts (s : AgentUpdate) v0 := mkUpdate (au_ID s) (au_NodeID s) (au_ActorID s) (au_SessionID s) (au_State s) (au_Reason s) (au_Target s) v0 (au_BootstrapIdleConfirmed s) (au_BootstrapConnectionID s) (au_BootstrapOriginal s) (au_PreviousVersion s) (au_PreviousRevision s) (au_PreviousSHA256 s) (au_PreviousBootID s) (au_ObservedVersion s) (au_ObservedRevision s) (au_ObservedSHA256 s) (au_ObservedBootID s) (au_TicketHash s) (au_ExpiresAt s) (au_CreatedAt s) (au_UpdatedAt s).
Definition set_Bootstrap (s : AgentUpdate) v0 v1 v2 := mkUpdate (au_ID s) (au_NodeID s) (au_ActorID s) (au_SessionID s) (au_State s) (au_Reason s) (au_Target s) (au_BootstrapArtifacts s) v0 v1 v2 (au_PreviousVersion s) (au_PreviousRevision s) (au_PreviousSHA256 s) (au_PreviousBootID s) (au_ObservedVersion s) (au_ObservedRevision s) (au_ObservedSHA256 s) (au_ObservedBootID s) (au_TicketHash s) (au_ExpiresAt s) (au_CreatedAt s) (au_UpdatedAt s).
Definition set_Previous (s : AgentUpdate) v0 v1 v2 v3 := mkUpdate (au_ID s) (au_NodeID s) (au_ActorID s) (au_SessionID s) (au_State s) (au_Reason s) (au_Target s) (au_BootstrapArtifacts s) (au_BootstrapIdleConfirmed s) (au_BootstrapConnectionID s) (au_BootstrapOriginal s) v0 v1 v2 v3 (au_ObservedVersion s) (au_ObservedRevision s) (au_ObservedSHA256 s) (au_ObservedBootID s) (au_TicketHash s) (au_ExpiresAt s) (au_CreatedAt s) (au_UpdatedAt s).
Definition set_Observed (s : AgentUpdate) v0 v1 v2 := mkUpdate (au_ID s) (au_NodeID s) (au_ActorID s) (au_SessionID s) (au_State s) (au_Reason s) (au_Target s) (au_BootstrapArtifacts s) (au_BootstrapIdleConfirmed s) (au_BootstrapConnectionID s) (au_BootstrapOriginal s) (au_PreviousVersion s) (au_PreviousRevision s) (au_PreviousSHA256 s) (au_PreviousBootID s) v0 v1 v2 (au_ObservedBootID s) (au_TicketHash s) (au_ExpiresAt s) (au_CreatedAt s) (au_UpdatedAt s).
Definition set_ObservedBoot (s : AgentUpdate) v0 := mkUpdate (au_ID s) (au_NodeID s) (au_ActorID s) (au_SessionID s) (au_State s) (au_Reason s) (au_Target s) (au_BootstrapArtifacts s) (au_BootstrapIdleConfirmed s) (au_BootstrapConnectionID s) (au_BootstrapOriginal s) (au_PreviousVersion s) (au_PreviousRevision s) (au_PreviousSHA256 s) (au_PreviousBootID s) (au_ObservedVersion s) (au_ObservedRevision s) (au_ObservedSHA256 s) v0 (au_TicketHash s) (au_ExpiresAt s) (au_CreatedAt s) (au_UpdatedAt s).
Definition set_Ticket (s : AgentUpdate) v0 := mkUpdate (au_ID s) (au_NodeID s) (au_ActorID s) (au_SessionID s) (au_State s) (au_Reason s) (au_Target s) (au_BootstrapArtifacts s) (au_BootstrapIdleConfirmed s) (au_BootstrapConnectionID s) (au_BootstrapOriginal s) (au_PreviousVersion s) (au_PreviousRevision s) (au_PreviousSHA256 s) (au_PreviousBootID s) (au_ObservedVersion s) (au_ObservedRevision s) (au_ObservedSHA256 s) (au_ObservedBootID s) v0 (au_ExpiresAt s) (au_CreatedAt s) (au_UpdatedAt s).
Definition set_Updated (s : AgentUpdate) v0 := mkUpdate (au_ID s) (au_NodeID s) (au_ActorID s) (au_SessionID s) (au_State s) (au_Reason s) (au_Target s) (au_BootstrapArtifacts s) (au_BootstrapIdleConfirmed s) (au_BootstrapConnectionID s) (au_BootstrapOriginal s) (au_PreviousVersion s) (au_PreviousRevision s) (au_PreviousSHA256 s) (au_PreviousBootID s) (au_ObservedVersion s) (au_ObservedRevision s) (au_ObservedSHA256 s) (au_ObservedBootID s) (au_TicketHash s) (au_ExpiresAt s) (au_CreatedAt s) v0.
Definition set_Actor (s : AgentUpdate) v0 := mkUpdate (au_ID s) (au_NodeID s) v0 (au_SessionID s) (au_State s) (au_Reason s) (au_Target s) (au_BootstrapArtifacts s) (au_BootstrapIdleConfirmed s) (au_BootstrapConnectionID s) (au_BootstrapOriginal s) (au_PreviousVersion s) (au_PreviousRevision s) (au_PreviousSHA256 s) (au_PreviousBootID s) (au_ObservedVersion s) (au_ObservedRevision s) (au_ObservedSHA256 s) (au_ObservedBootID s) (au_TicketHash s) (au_ExpiresAt s) (au_CreatedAt s) (au_UpdatedAt s).
Definition set_Owner (s : AgentUpdate) v0 v1 := mkUpdate (au_ID s) (au_NodeID s) v0 v1 (au_State s) (au_Reason s) (au_Target s) (au_BootstrapArtifacts s) (au_BootstrapIdleConfirmed s) (au_BootstrapConnectionID s) (au_BootstrapOriginal s) (au_PreviousVersion s) (au_PreviousRevision s) (au_PreviousSHA256 s) (au_PreviousBootID s) (au_ObservedVersion s) (au_ObservedRevision s) (au_ObservedSHA256 s) (au_ObservedBootID s) (au_TicketHash s) (au_ExpiresAt s) (au_CreatedAt s) (au_UpdatedAt s).

Definition Terminal (u : AgentUpdate) : bool :=
  bool_decide (au_State u ∈ ["succeeded"; "failed"; "rolled_back"; "expired"; "recovery_acknowledged"]).
Definition updateInstallationIssued (state : string) : bool :=
  bool_decide (state ∈ ["installing"; "unknown"; "confirmation_pending"; "rollback_confirmation_pending"]).

(** What an agent says of itself (pb.UpdateCapabilities), and of an operation. *)
Record UpdateCapabilities := mkCapabilities {
  uc_ProtocolVersion : Z; uc_Os : string; uc_Arch : string; uc_Version : string; uc_Revision : string; uc_Sha256 : string; uc_BootId : string;
  uc_Supported : bool; uc_Reason : string; uc_ActivityQuiescenceVersion : Z; uc_ActiveActivities : Z;
}.
Record AgentUpdateStatus := mkStatus {
  us_OperationId : string; us_State : string; us_Version : string; us_Revision : string; us_Sha256 : string; us_BootId : string;
}.
Record Server := mkServer { sv_RegistrationToken : option string; sv_Status : string; sv_AgentVersion : option string }.

Record AgentUpdateCheck := mkCheck {
  ck_Supported : bool; ck_Reason : string; ck_Current : option UpdateCapabilities; ck_Target : AgentArtifact; ck_UpdateAvailable : bool;
  ck_BootstrapRequired : bool; ck_ConnectionID : string; ck_Operation : option AgentUpdate;
}.
Record BootstrapIdleAssertion := mkAssertion { ba_Confirmed : bool; ba_ConnectionID : string; ba_Original : BootstrapOriginal }.

(** The messages to the agent. *)
Inductive UpdateMessage :=
| AgentUpdateRequest (operation version revision sha256 : string) (bytes expires : Z)
| UpdateConfirmation (operation state : string).

Definition validUpdateCapabilities (c : option UpdateCapabilities) : bool :=
  match c with
  | None => false
  | Some c =>
      if negb (uc_ProtocolVersion c =? 1) || negb (bool_decide (uc_Os c = "linux"))
         || (negb (bool_decide (uc_Arch c = "amd64")) && negb (bool_decide (uc_Arch c = "arm64")))
         || (len (uc_BootId c) <? 16) || (128 <? len (uc_BootId c)) || (128 <? len (uc_Revision c)) || (256 <? len (uc_Reason c))
         || ContainsAnyByte (uc_BootId c +:+ uc_Revision c) [0; 13; 10] || negb (ValidateVersion (uc_Version c)) then false
      else ValidHash (uc_Sha256 c)
  end.

(** ** Calls *)

(** What reading the artifact answers. *)
Inductive readError := ReadEOF | ReadFailed.

Inductive call : Type → Type :=
| CNow : call Time
| CUUID : call string
| CRandom : call (result string)                                     (* 32 random bytes, as text *)
(* the store, outside the table of operations *)
| CUser (id : string) : call (result User)
| CEffective (id : string) : call (result EffectiveCapabilities)
| CPolicy : call (result Policy)
| CSession (id : string) : call (result Session)
| CEnrolled : call (result bool)
| CGuard (actor node : string) : call (result unit)
| CServer (node : string) : call (result Server)
| CSetVersion (node version : string) : call (result unit)
| CAudit (op : AgentUpdate) (state : string) : call (result unit)
(* the table of operations *)
| CCreate (op : AgentUpdate) : call (result unit)
| CGet (id : string) : call (result AgentUpdate)
| CLatest (node : string) : call (result AgentUpdate)
| CByTicket (hash : string) : call (result AgentUpdate)
| CUpdate (op : AgentUpdate) (previous : string) : call (result unit)
(* the connection manager *)
| CConn (node : string) : call (option AgentConn)
| CConnDone (conn : AgentConn) : call bool
| CMaintenance (node : string) : call string
| CActivityIdle (conn : AgentConn) (manual : bool) : call (result unit)
| CReserve (conn : AgentConn) (id : string) (manual : bool) : call (result unit)
| CRelease (node id : string) : call unit
| CObserve (node : string) (stream : nat) (version count : Z) : call (result unit)
| CSendAdmit (conn : AgentConn) : call (result unit)
| CSend (conn : AgentConn) (msg : UpdateMessage) : call (result unit)
(* the terminal registry *)
| CTermReserve (node id : string) : call (result unit)
| CTermRelease (node id : string) : call unit
| CTermIdle (node id : string) : call bool
(* the maps of AgentUpdates *)
| CCapabilities (node : string) : call (option UpdateCapabilities)
| CCached (node : string) : call (option (AgentConn * UpdateCapabilities))
| CPublish (node : string) (conn : AgentConn) (c : UpdateCapabilities) : call unit
| CForget (node : string) (stream : nat) : call unit
| COriginPut (id : string) (conn : option AgentConn) : call bool      (* false: 32 operations are live *)
| COriginDrop (id : string) : call unit
| COrigin (id : string) : call (option (option AgentConn))
| CTransfer : call bool
| CTransferDone : call unit
(* the distribution and its files *)
| CResolve (os arch : string) : call (result AgentArtifact)
| COpen (path : string) : call (result unit)
| CRead : call (list Z * option readError)
| CChunk (offset : Z) (data : list Z) : call (result unit).

Abbreviation prog := (Prog.prog call).

Definition or_else {c A} (p : Prog.prog c (result A)) (e : goerr) : Prog.prog c (result A) :=
  bind p (fun r => match r with Ok a => Ret (Ok a) | Err _ => Ret (Err e) end).
(** [x <-? p or e ; k]: an error of [p] is answered with [e]. *)
Notation "x <-? p 'or' e ; k" := (try_ (or_else p%prog e) (fun x => k)) (at level 10, p at level 100, e at level 100, k at level 200) : prog_scope.
Definition ErrorText (e : goerr) : string := match e with Sentinel m | ErrText m => m end.
(** [status.Error(code, msg)] *)
Definition status_Error (code msg : string) : goerr := ErrText ("rpc error: code = " +:+ code +:+ " desc = " +:+ msg).

(** ** Authority *)

Definition HasRole (e : EffectiveCapabilities) (role : Role) : bool := bool_decide (role ∈ e_Roles e).

Definition authorizeAdmin (actor sid : string) : prog (result unit) :=
  fail! bool_decide (actor = "") || bool_decide (sid = ""), ErrAgentUpdateDenied;
  user <-? call_ (CUser actor) or ErrAgentUpdateDenied;
  fail! u_MustChangePassword user, ErrAgentUpdateDenied;
  effective <-? call_ (CEffective actor) or ErrAgentUpdateDenied;
  fail! negb (HasRole effective RoleAdmin), ErrAgentUpdateDenied;
  policy <-? call_ CPolicy or ErrAgentUpdateDenied;
  sess <-? call_ (CSession sid) or ErrAgentUpdateDenied;
  fail! negb (bool_decide (s_UserID sess = actor)), ErrAgentUpdateDenied;
  now <- call_ CNow;
  fail! negb (bool_decide (Session.Evaluate (StateFromModel sess) now policy = VerdictOK)), ErrAgentUpdateDenied;
  Ret (Ok tt).

Definition errNotEnrolled : goerr := ErrText "agent is not enrolled and online".
Definition authorize (actor sid node : string) : prog (result unit) :=
  _ <-? authorizeAdmin actor sid;
  enrolled <-? call_ CEnrolled or ErrAgentUpdateDenied;
  fail! (enrolled : bool), ErrAgentUpdateDenied;
  _ <-? call_ (CGuard actor node) or ErrAgentUpdateDenied;
  srv <-? call_ (CServer node) or errNotEnrolled;
  fail! bool_decide (is_Some (sv_RegistrationToken srv)) || negb (bool_decide (sv_Status srv = "online")), errNotEnrolled;
  Ret (Ok tt).

(** ** Operations: their origin, their authority, their end *)

(** [time.UnixMilli] *)
Definition FromUnixMilli (ms : Z) : Time := unix_epoch + ms * Millisecond.

Definition errOriginChanged : goerr := ErrText "update's original enrolled connection changed".
Definition validateOrigin (op : AgentUpdate) : prog (result unit) :=
  origin <- call_ (COrigin (au_ID op));
  match origin with
  | Some (Some conn) =>
      current <- call_ (CConn (au_NodeID op));
      fail! negb (bool_decide (current = Some conn)), errOriginChanged;
      now <- call_ CNow;
      fail! negb (Before now (FromUnixMilli (au_ExpiresAt op))), ErrText "agent update authorization expired";
      Ret (Ok tt)
  | _ => Ret (Err errOriginChanged)
  end.
Definition validateOperation (op : AgentUpdate) : prog (result unit) :=
  _ <-? validateOrigin op;
  authorize (au_ActorID op) (au_SessionID op) (au_NodeID op).

Definition release (op : AgentUpdate) : prog unit :=
  _ <- call_ (CRelease (au_NodeID op) (au_ID op));
  _ <- call_ (CTermRelease (au_NodeID op) (au_ID op));
  call_ (COriginDrop (au_ID op)).

Definition finishBeforeInstall (op : AgentUpdate) (reason : string) : prog unit :=
  r <- call_ (CGet (au_ID op));
  match r with
  | Err _ => Ret tt
  | Ok latest =>
      if Terminal latest || updateInstallationIssued (au_State latest) then Ret tt else
      now <- call_ CNow;
      let failed := set_Updated (set_Reason (set_State latest "failed") reason) (UnixMilli now) in
      r <- call_ (CUpdate failed (au_State latest));
      match r with Ok _ => release failed | Err _ => Ret tt end
  end.

Definition Status (node id : string) : prog (result AgentUpdate) :=
  op <-? (if bool_decide (id = "") then call_ (CLatest node) else call_ (CGet id));
  fail! negb (bool_decide (au_NodeID op = node)), ErrNoRows;
  if Terminal op then Ret (Ok op) else
  now <- call_ CNow;
  if UnixMilli now <? au_ExpiresAt op then Ret (Ok op) else
  let next := if updateInstallationIssued (au_State op)
              then set_Reason (set_State op "unknown") "installation outcome unconfirmed; awaiting enrolled-agent reconciliation"
              else set_Reason (set_State op "expired") "update authorization expired before installation" in
  now <- call_ CNow;
  let next := set_Updated next (UnixMilli now) in
  _ <-? call_ (CUpdate next (au_State op));
  _ <- (if Terminal next then release next else Ret tt);
  Ret (Ok next).

(** ** Capabilities of the agents *)

Definition ObserveCapabilities (node : string) (stream : nat) (c : option UpdateCapabilities) : prog (result unit) :=
  conn <- call_ (CConn node);
  match conn, c with
  | Some conn, Some caps =>
      fail! negb (bool_decide (ac_Stream conn = stream)) || negb (validUpdateCapabilities c), ErrText "invalid update capability or stale agent connection";
      _ <-? (if negb (uc_ActivityQuiescenceVersion caps =? 0)
             then call_ (CObserve node stream (uc_ActivityQuiescenceVersion caps) (uc_ActiveActivities caps)) else Ret (Ok tt));
      previous <- call_ (CCached node);
      let unchangedVersion := match previous with
                              | Some (pc, pv) => bool_decide (pc = conn) && bool_decide (uc_Version pv = uc_Version caps)
                              | None => false
                              end in
      _ <-? (if negb unchangedVersion then call_ (CSetVersion node (uc_Version caps)) else Ret (Ok tt));
      current <- call_ (CConn node);
      fail! negb (bool_decide (current = Some conn)), ErrText "agent connection changed during capability observation";
      done_ <- call_ (CConnDone conn);
      fail! (done_ : bool), ErrText "agent connection closed during capability observation";
      _ <- call_ (CPublish node conn caps);
      Ret (Ok tt)
  | _, _ => Ret (Err (ErrText "invalid update capability or stale agent connection"))
  end.
Definition EndConnection (node : string) (stream : nat) : prog unit := call_ (CForget node stream).

(** Without a resolver of artifacts the call answers an error. *)
Definition artifact (os arch : string) : prog (result AgentArtifact) :=
  a <-? call_ (CResolve os arch);
  fail! (aa_Bytes a <=? 0) || (MaxAgentArtifactBytes <? aa_Bytes a), ErrText "agent artifact exceeds update size bound";
  Ret (Ok a).

(** ** What an administrator may do with a node *)

Definition Check (actor sid node : string) : prog (result AgentUpdateCheck) :=
  _ <-? authorize actor sid node;
  conn <- call_ (CConn node);
  match conn with
  | None => Ret (Err (ErrText "agent is not connected"))
  | Some conn =>
      c <- call_ (CCapabilities node);
      a <-? artifact "linux" (match c with Some c => uc_Arch c | None => "amd64" end);
      let id := ac_GenerationID conn in
      checked <-? (match c with
        | None =>
            Ret (Ok (mkCheck false "agent requires a preserving one-time bootstrap" None
                       (mkArtifact (aa_OS a) "" (aa_Version a) (aa_Revision a) "" 0 "") false true id None))
        | Some c =>
            if negb (uc_Supported c) then Ret (Ok (mkCheck false (uc_Reason c) (Some c) a false false id None)) else
            match CompareVersions (aa_Version a) (uc_Version c) with
            | None => Ret (Err (ErrText "versions are not comparable"))
            | Some cmp =>
                fail! cmp <? 0, ErrText "Hub agent artifact would downgrade this node";
                fail! (cmp =? 0) && negb (bool_decide (aa_SHA256 a = uc_Sha256 c)), ErrText "same-version agent artifact differs; automatic replacement refused";
                if negb (uc_ActivityQuiescenceVersion c =? 1)
                then Ret (Ok (mkCheck false "agent cannot prove complete file/upload/log quiescence; preserving manual bootstrap requires direct SSH idle confirmation"
                                (Some c) a false true id None))
                else Ret (Ok (mkCheck true "" (Some c) a (0 <? cmp) false id None))
            end
        end);
      latest <- call_ (CLatest node);
      match latest with
      | Ok op => Ret (Ok (mkCheck (ck_Supported checked) (ck_Reason checked) (ck_Current checked) (ck_Target checked) (ck_UpdateAvailable checked)
                           (ck_BootstrapRequired checked) (ck_ConnectionID checked) (Some op)))
      | Err e => fail! negb (bool_decide (e = ErrNoRows)), e; Ret (Ok checked)
      end
  end.

Definition errOriginalLegacy : goerr := ErrText "original binary assertion is only valid for a legacy agent without update capabilities".
Definition validateOriginalAssertion (node : string) (original : BootstrapOriginal) : prog (result unit) :=
  c <- call_ (CCapabilities node);
  fail! bool_decide (is_Some c), errOriginalLegacy;
  srv <-? call_ (CServer node);
  fail! match sv_AgentVersion srv with
        | Some v => ValidateVersion v && negb (bool_decide (v = bo_Version original))
        | None => false
        end, ErrText "original version assertion contradicts the enrolled agent's observed version";
  Ret (Ok tt).

Definition updateRequest (op : AgentUpdate) : UpdateMessage :=
  AgentUpdateRequest (au_ID op) (aa_Version (au_Target op)) (aa_Revision (au_Target op)) (aa_SHA256 (au_Target op)) (aa_Bytes (au_Target op)) (au_ExpiresAt op).

(** [SendToConnectionChecked]: a time-out or the end of the connection is an
    error of one of the calls. *)
Definition SendToConnectionChecked (conn : option AgentConn) (msg : UpdateMessage) (check : prog (result unit)) : prog (result unit) :=
  match conn with
  | None => Ret (Err errNotConnected)
  | Some conn =>
      _ <-? call_ (CSendAdmit conn);
      _ <-? check;
      call_ (CSend conn msg)
  end.

(** [ReserveMaintenanceWithIdleAssertion] of the connection manager, a call per section. *)
Definition reserveMaintenance (conn : option AgentConn) (id : string) (manual : bool) (check : prog (result unit)) : prog (result unit) :=
  match conn with
  | None => Ret (Err errNotConnected)
  | Some c =>
      current <- call_ (CConn (ac_ServerID c));
      fail! negb (bool_decide (current = Some c)), ErrText "agent connection changed";
      done_ <- call_ (CConnDone c);
      fail! (done_ : bool), ErrText "agent disconnected";
      active <- call_ (CMaintenance (ac_ServerID c));
      fail! negb (bool_decide (active = "")), errReserved;
      _ <-? call_ (CActivityIdle c manual);
      _ <-? check;
      call_ (CReserve c id manual)
  end.

(** The callback of [Start]: the durable admission of an operation. *)
Definition admitOperation (op : AgentUpdate) (conn : option AgentConn) (idle : BootstrapIdleAssertion) : prog (result unit) :=
  _ <-? authorize (au_ActorID op) (au_SessionID op) (au_NodeID op);
  _ <-? (if Present (ba_Original idle) then validateOriginalAssertion (au_NodeID op) (ba_Original idle) else Ret (Ok tt));
  _ <-? (if ba_Confirmed idle then call_ (CAudit op "manual_bootstrap_idle_confirmed") else Ret (Ok tt));
  put <- call_ (COriginPut (au_ID op) conn);
  fail! negb put, ErrText "agent update capacity reached";
  reserved <- call_ (CTermReserve (au_NodeID op) (au_ID op));
  match reserved with
  | Err e => _ <- call_ (COriginDrop (au_ID op)); Ret (Err e)
  | Ok _ =>
      created <- call_ (CCreate op);
      match created with
      | Err e => _ <- call_ (CTermRelease (au_NodeID op) (au_ID op)); _ <- call_ (COriginDrop (au_ID op)); Ret (Err e)
      | Ok _ => Ret (Ok tt)
      end
  end.

(** The artifacts a bootstrap is bound to. *)
Fixpoint bootstrapArtifacts (target : AgentArtifact) (archs : list string) : prog (result (list AgentArtifact)) :=
  match archs with
  | [] => Ret (Ok [])
  | arch :: rest =>
      a <-? artifact "linux" arch or ErrText "bootstrap requires a complete matching Linux distribution";
      fail! negb (bool_decide (aa_Version a = aa_Version target)) || negb (bool_decide (aa_Revision a = aa_Revision target)),
        ErrText "bootstrap requires a complete matching Linux distribution";
      l <-? bootstrapArtifacts target rest;
      Ret (Ok (a :: l))
  end.

(** What a request for an update must assert, given the check. *)
Definition assertionOk (check : AgentUpdateCheck) (node : string) (idle : BootstrapIdleAssertion) : prog (result unit) :=
  fail! negb (is_ok (ValidateOriginal (ba_Original idle))), ErrText "bootstrap original assertion requires a comparable version and exact lowercase SHA256";
  _ <-? (if Present (ba_Original idle) then
           fail! negb (ck_BootstrapRequired check) || bool_decide (is_Some (ck_Current check)), errOriginalLegacy;
           fail! negb (match CompareVersions (aa_Version (ck_Target check)) (bo_Version (ba_Original idle)) with Some cmp => 0 <? cmp | None => false end),
             ErrText "bootstrap target must advance the operator-asserted original version";
           validateOriginalAssertion node (ba_Original idle)
         else Ret (Ok tt));
  if ck_BootstrapRequired check then
    fail! negb (ba_Confirmed idle) || bool_decide (ba_ConnectionID idle = "") || negb (bool_decide (ba_ConnectionID idle = ck_ConnectionID check)),
      ErrText "preserving bootstrap requires explicit bootstrap_idle_confirmed and the freshly checked connection_id after direct SSH verification of idle agent work";
    Ret (Ok tt)
  else
    fail! ba_Confirmed idle || negb (bool_decide (ba_ConnectionID idle = "")), ErrText "bootstrap idle assertion is only valid for the preserving manual path";
    Ret (Ok tt).

(** The operation a check leads to. *)
Definition newOperation (check : AgentUpdateCheck) (actor sid node id : string) (idle : BootstrapIdleAssertion) (now : Z) : AgentUpdate :=
  let c := ck_Current check in
  let field f := match c with Some c => f c | None => "" end in
  mkUpdate id node actor sid "requested" "" (ck_Target check) [] (ba_Confirmed idle) (ba_ConnectionID idle) (ba_Original idle)
    (field uc_Version) (field uc_Revision) (field uc_Sha256) (field uc_BootId) "" "" "" "" "" (now + 120000) now now.

(** A bootstrap is bound to the artifacts of both platforms and to a ticket. *)
Definition prepareOperation (check : AgentUpdateCheck) (op : AgentUpdate) : prog (result (AgentUpdate * string)) :=
  if ck_BootstrapRequired check then
    l <-? bootstrapArtifacts (au_Target op) ["amd64"; "arm64"];
    ticket <-? call_ CRandom;
    Ret (Ok (set_State (set_Ticket (set_Artifacts op l) (SecurityDigest ticket)) "bootstrap_required", ticket))
  else Ret (Ok (op, "")).

(** The reservation of the node, and the request to the agent unless a ticket is handed out. *)
Definition dispatchOperation (op : AgentUpdate) (ticket : string) (conn : option AgentConn) (idle : BootstrapIdleAssertion)
    : prog (result (AgentUpdate * string)) :=
  reserved <- reserveMaintenance conn (au_ID op) (ba_Confirmed idle) (admitOperation op conn idle);
  match reserved with
  | Err e => _ <- finishBeforeInstall op ("maintenance reservation refused before installation: " +:+ ErrorText e); Ret (Err e)
  | Ok _ =>
      audited <- call_ (CAudit op "requested");
      match audited with
      | Err e => _ <- finishBeforeInstall op "audit persistence failed"; Ret (Err e)
      | Ok _ =>
          if negb (bool_decide (ticket = "")) then Ret (Ok (op, ticket)) else
          sent <- SendToConnectionChecked conn (updateRequest op) (validateOperation op);
          match sent with
          | Err e => _ <- finishBeforeInstall op "update dispatch failed before installation authorization"; Ret (Err e)
          | Ok _ => Ret (Ok (op, ""))
          end
      end
  end.

Definition Start (actor sid node expectedVersion expectedRevision : string) (idle : BootstrapIdleAssertion) : prog (result (AgentUpdate * string)) :=
  check <-? Check actor sid node;
  fail! negb (bool_decide (aa_Version (ck_Target check) = expectedVersion)) || negb (bool_decide (aa_Revision (ck_Target check) = expectedRevision)),
    ErrText "Hub artifact changed; check again";
  _ <-? assertionOk check node idle;
  _ <-? (match ck_Operation check with
         | Some op =>
             if Terminal op then Ret (Ok tt) else
             now <- call_ CNow;
             if UnixMilli now <? au_ExpiresAt op then Ret (Ok tt) else (_ <-? Status node (au_ID op); Ret (Ok tt))
         | None => Ret (Ok tt)
         end);
  fail! negb (ck_BootstrapRequired check) && (negb (ck_Supported check) || negb (ck_UpdateAvailable check)),
    ErrText ("agent update unavailable: " +:+ ck_Reason check);
  conn <- call_ (CConn node);
  fail! ck_BootstrapRequired check && negb (match conn with Some c => bool_decide (ac_GenerationID c = ba_ConnectionID idle) | None => false end),
    ErrText "bootstrap checked connection changed";
  now <- call_ CNow;
  id <- call_ CUUID;
  let op := newOperation check actor sid node id idle (UnixMilli now) in
  prepared <-? prepareOperation check op;
  dispatchOperation (fst prepared) (snd prepared) conn idle.

(** ** What the agent asks *)

Definition unavailable (e : string) : goerr := status_Error "PermissionDenied" e.
Definition denied {A} (p : prog (result A)) : prog (result A) :=
  bind p (fun r => match r with Ok a => Ret (Ok a) | Err e => Ret (Err (unavailable (ErrorText e))) end).
(** The artifact of the distribution is still the one the operation names. *)
Definition sameArtifact (a target : AgentArtifact) : bool :=
  bool_decide (aa_SHA256 a = aa_SHA256 target) && bool_decide (aa_Version a = aa_Version target) && bool_decide (aa_Revision a = aa_Revision target).

(** The loop of the transfer.  A read of a file that gives no byte gives an error,
    so that [fuel] reads are enough for [size] bytes. *)
Fixpoint sendArtifact (fuel : nat) (op : AgentUpdate) (size offset : Z) : prog (result unit) :=
  match fuel with
  | O => Ret (Err (status_Error "DataLoss" "artifact truncated"))
  | S fuel =>
      if size <=? offset then
        extra <- call_ CRead;
        fail! negb (bool_decide (fst extra = [])), status_Error "DataLoss" "artifact grew during download";
        Ret (Ok tt)
      else
        _ <-? denied (validateOperation op);
        r <- call_ CRead;
        let '(data, e) := r in
        let n := Z.of_nat (length data) in
        _ <-? (if 0 <? n then
                 fail! size <? offset + n, status_Error "DataLoss" "artifact length changed";
                 call_ (CChunk offset data)
               else Ret (Ok tt));
        let offset := offset + n in
        match e with
        | None => sendArtifact fuel op size offset
        | Some ReadEOF =>
            fail! negb (offset =? size), status_Error "DataLoss" "artifact truncated";
            extra <- call_ CRead;
            fail! negb (bool_decide (fst extra = [])), status_Error "DataLoss" "artifact grew during download";
            Ret (Ok tt)
        | Some ReadFailed => Ret (Err (status_Error "DataLoss" "artifact truncated"))
        end
  end.

Definition DownloadUpdate (node operation : string) : prog (result unit) :=
  op <-? call_ (CGet operation) or unavailable "update operation is unavailable";
  fail! negb (bool_decide (au_NodeID op = node)) || negb (bool_decide (au_State op ∈ ["requested"; "downloading"])),
    unavailable "update operation is unavailable";
  _ <-? denied (validateOperation op);
  admitted <- call_ CTransfer;
  fail! negb admitted, status_Error "ResourceExhausted" "agent update transfer capacity reached";
  r <- (a <-? artifact (aa_OS (au_Target op)) (aa_Arch (au_Target op)) or status_Error "FailedPrecondition" "Hub update artifact changed";
        fail! negb (sameArtifact a (au_Target op)), status_Error "FailedPrecondition" "Hub update artifact changed";
        _ <-? call_ (COpen (aa_BinaryPath a));
        sendArtifact (S (Z.to_nat (aa_Bytes a))) op (aa_Bytes a) 0);
  _ <- call_ CTransferDone;
  Ret r.

(** The answer: the operation and when its authority ends. *)
Definition AuthorizeUpdate (node operation : string) : prog (result (string * Z)) :=
  op <-? call_ (CGet operation) or unavailable "update operation unavailable";
  fail! negb (bool_decide (au_NodeID op = node)) || negb (bool_decide (au_State op ∈ ["requested"; "downloading"; "installing"])),
    unavailable "update operation unavailable";
  _ <-? denied (validateOperation op);
  a <-? artifact (aa_OS (au_Target op)) (aa_Arch (au_Target op)) or status_Error "FailedPrecondition" "Hub artifact changed";
  fail! negb (sameArtifact a (au_Target op)), status_Error "FailedPrecondition" "Hub artifact changed";
  _ <-? denied (_ <-? validateOrigin op;
                _ <-? authorize (au_ActorID op) (au_SessionID op) (au_NodeID op);
                if bool_decide (au_State op = "installing") then Ret (Ok tt) else
                now <- call_ CNow;
                let next := set_Updated (set_State op "installing") (UnixMilli now) in
                _ <-? call_ (CAudit next "installation_authorized");
                call_ (CUpdate next (au_State op)));
  Ret (Ok (au_ID op, au_ExpiresAt op)).

Definition errRecovery : goerr := ErrText "recovery requires the exact previous hash, an unknown operation and expiry plus190 seconds".
Definition AcknowledgeRecovery (actor sid node id verifiedHash : string) : prog (result AgentUpdate) :=
  _ <-? authorize actor sid node;
  op <-? call_ (CGet id);
  fail! negb (bool_decide (au_NodeID op = node)) || negb (bool_decide (au_State op = "unknown")) || bool_decide (au_PreviousSHA256 op = "")
        || negb (bool_decide (verifiedHash = au_PreviousSHA256 op)), errRecovery;
  now <- call_ CNow;
  fail! UnixMilli now <? au_ExpiresAt op + 190000, errRecovery;
  idle <- call_ (CTermIdle node (au_ID op));
  fail! negb idle, ErrText "node is not idle in the same maintenance operation";
  now <- call_ CNow;
  let next := set_Updated (set_Reason (set_State op "recovery_acknowledged")
                "administrator attested direct SSH verification of the original binary; no remote artifact confirmation") (UnixMilli now) in
  _ <-? call_ (CAudit (set_Actor next actor) "recovery_acknowledged");
  _ <-? call_ (CUpdate next "unknown");
  _ <- release next;
  Ret (Ok next).

(** The last artifact of the list for a platform, or none. *)
Definition boundArtifact (l : list AgentArtifact) (os arch : string) : AgentArtifact :=
  foldl (fun bound a => if bool_decide (aa_OS a = os) && bool_decide (aa_Arch a = arch) then a else bound) no_artifact l.

Definition errTicket : goerr := unavailable "bootstrap ticket unavailable".
Definition errBootstrapArtifact : goerr := status_Error "FailedPrecondition" "bootstrap Hub artifact changed".
Definition BootstrapUpdate (node ticket : string) (c : option UpdateCapabilities) (asserted : bool) : prog (result UpdateMessage) :=
  match c with
  | None => Ret (Err (status_Error "InvalidArgument" "invalid bootstrap request"))
  | Some caps =>
      fail! negb (len ticket =? 64) || negb (validUpdateCapabilities c), status_Error "InvalidArgument" "invalid bootstrap request";
      op <-? call_ (CByTicket (SecurityDigest ticket)) or errTicket;
      fail! negb (bool_decide (au_NodeID op = node)) || negb (au_BootstrapIdleConfirmed op), errTicket;
      _ <-? denied (validateOperation op);
      conn <- call_ (CConn node);
      fail! negb (match conn with Some c => bool_decide (ac_GenerationID c = au_BootstrapConnectionID op) | None => false end),
        unavailable "bootstrap checked connection changed";
      let original := au_BootstrapOriginal op in
      fail! negb (is_ok (ValidateOriginal original)) || negb (Bool.eqb asserted (Present original))
            || (Present original && (negb (bool_decide (uc_Version caps = bo_Version original)) || negb (bool_decide (uc_Sha256 caps = bo_SHA256 original))
                                     || negb (bool_decide (uc_Revision caps = "unknown")))),
        status_Error "FailedPrecondition" "bootstrap original identity does not match the operator assertion bound to this ticket";
      a <-? artifact (uc_Os caps) (uc_Arch caps) or errBootstrapArtifact;
      let bound := boundArtifact (au_BootstrapArtifacts op) (uc_Os caps) (uc_Arch caps) in
      fail! negb (bool_decide (aa_Version a = aa_Version (au_Target op))) || negb (bool_decide (aa_Revision a = aa_Revision (au_Target op)))
            || negb (bool_decide (aa_SHA256 a = aa_SHA256 bound)) || negb (aa_Bytes a =? aa_Bytes bound), errBootstrapArtifact;
      _ <-? (if Present original then
               checked <- validateOriginalAssertion node original;
               match checked with
               | Err e => Ret (Err (status_Error "FailedPrecondition" (ErrorText e)))
               | Ok _ => denied (validateOperation op)
               end
             else Ret (Ok tt));
      fail! match CompareVersions (aa_Version a) (uc_Version caps) with
            | None => true
            | Some cmp => (cmp <? 0) || ((cmp =? 0) && negb (bool_decide (aa_SHA256 a = uc_Sha256 caps)))
            end, status_Error "FailedPrecondition" "bootstrap replacement would downgrade or change same-version artifact";
      now <- call_ CNow;
      let next := set_Updated (set_State (set_Ticket (set_Previous (set_Target op a) (uc_Version caps) (uc_Revision caps) (uc_Sha256 caps) (uc_BootId caps)) "")
                    "requested") (UnixMilli now) in
      _ <-? call_ (CUpdate next (au_State op)) or unavailable "bootstrap ticket already consumed";
      Ret (Ok (updateRequest next))
  end.

(** ** What the agent reports *)

(** The running agent is the target of the operation, or what it replaced, after a
    restart. *)
Definition runsTarget (op : AgentUpdate) (c : UpdateCapabilities) : bool :=
  negb (bool_decide (uc_BootId c = au_PreviousBootID op)) && bool_decide (uc_Version c = aa_Version (au_Target op))
  && bool_decide (uc_Revision c = aa_Revision (au_Target op)) && bool_decide (uc_Sha256 c = aa_SHA256 (au_Target op)).
Definition previousIdentity (op : AgentUpdate) (c : UpdateCapabilities) : bool :=
  bool_decide (uc_Version c = au_PreviousVersion op) && bool_decide (uc_Revision c = au_PreviousRevision op)
  && bool_decide (uc_Sha256 c = au_PreviousSHA256 op).
Definition runsOriginal (op : AgentUpdate) (c : UpdateCapabilities) : bool :=
  negb (bool_decide (uc_BootId c = au_PreviousBootID op)) && previousIdentity op c.

(** The final state a report confirms, if it does. *)
Definition confirmedState (op : AgentUpdate) (c : UpdateCapabilities) (state : string) : option string :=
  if bool_decide (state = "rollback_confirmed") && runsOriginal op c
     && bool_decide (au_State op ∈ ["rollback_confirmation_pending"; "unknown"; "rolled_back"]) && bool_decide (au_ObservedSHA256 op = au_PreviousSHA256 op)
  then Some "rolled_back"
  else if bool_decide (state = "confirmed") && runsTarget op c
          && bool_decide (au_State op ∈ ["confirmation_pending"; "unknown"; "succeeded"]) && bool_decide (au_ObservedSHA256 op = aa_SHA256 (au_Target op))
  then Some "succeeded" else None.
(** The state to be confirmed, and the one in which it waits. *)
Definition reconnectedState (op : AgentUpdate) (c : UpdateCapabilities) (state : string) : option (string * string) :=
  let issued := updateInstallationIssued (au_State op) in
  if bool_decide (state = "rolled_back") && runsOriginal op c && (issued || bool_decide (au_State op ∈ ["succeeded"; "rolled_back"]))
  then Some ("rolled_back", "rollback_confirmation_pending")
  else if bool_decide (state = "reconnecting") && runsTarget op c && (issued || bool_decide (au_State op = "succeeded"))
  then Some ("succeeded", "confirmation_pending") else None.

Definition confirmOperation (op : AgentUpdate) (c : UpdateCapabilities) (final : string) : prog (result unit) :=
  if bool_decide (au_State op = final) then _ <- release op; Ret (Ok tt) else
  now <- call_ CNow;
  let next := set_Updated (set_ObservedBoot (set_Reason (set_State op final)
                "exact enrolled agent durably acknowledged the verified reconnect; supervised outcome confirmed") (uc_BootId c)) (UnixMilli now) in
  _ <-? call_ (CAudit next final);
  _ <-? call_ (CUpdate next (au_State op));
  _ <- release next;
  Ret (Ok tt).

Definition reconnectOperation (conn : AgentConn) (op : AgentUpdate) (c : UpdateCapabilities) (confirmation pending : string) : prog (result unit) :=
  let alreadyFinal := bool_decide (au_State op = confirmation) in
  _ <-? (if negb alreadyFinal && (negb (bool_decide (au_State op = pending)) || negb (bool_decide (au_ObservedBootID op = uc_BootId c))) then
           now <- call_ CNow;
           let next := set_Updated (set_ObservedBoot (set_Observed (set_Reason (set_State op pending)
                         "exact enrolled identity reconnected; awaiting durable agent acknowledgement of Hub confirmation")
                         (uc_Version c) (uc_Revision c) (uc_Sha256 c)) (uc_BootId c)) (UnixMilli now) in
           _ <-? call_ (CAudit next pending);
           call_ (CUpdate next (au_State op))
         else Ret (Ok tt));
  _ <- (if alreadyFinal then release op else Ret tt);
  SendToConnectionChecked (Some conn) (UpdateConfirmation (au_ID op) confirmation) (Ret (Ok tt)).

Definition ObserveStatus (node : string) (stream : nat) (value : option AgentUpdateStatus) : prog (result unit) :=
  match value with
  | None => Ret (Err (ErrText "invalid update status"))
  | Some value =>
      fail! 128 <? len (us_OperationId value), ErrText "invalid update status";
      op <-? call_ (CGet (us_OperationId value)) or ErrText "unknown node update operation";
      fail! negb (bool_decide (au_NodeID op = node)), ErrText "unknown node update operation";
      conn <- call_ (CConn node);
      match conn with
      | None => Ret (Err (ErrText "stale update status connection"))
      | Some conn =>
          fail! negb (bool_decide (ac_Stream conn = stream)), ErrText "stale update status connection";
          c <- call_ (CCapabilities node);
          match c with
          | None => Ret (Err (ErrText "update status does not match the running agent capability"))
          | Some c =>
              fail! negb (bool_decide (us_Version value = uc_Version c)) || negb (bool_decide (us_Revision value = uc_Revision c))
                    || negb (bool_decide (us_Sha256 value = uc_Sha256 c)) || negb (bool_decide (us_BootId value = uc_BootId c)),
                ErrText "update status does not match the running agent capability";
              match confirmedState op c (us_State value), reconnectedState op c (us_State value) with
              | Some final, _ => confirmOperation op c final
              | None, Some (confirmation, pending) => reconnectOperation conn op c confirmation pending
              | None, None =>
                  if Terminal op then Ret (Ok tt) else
                  if bool_decide (us_State value = "installing") && bool_decide (au_State op = "installing") then Ret (Ok tt) else
                  next <-? (if bool_decide (us_State value = "failed") && previousIdentity op c && bool_decide (uc_BootId c = au_PreviousBootID op) then
                              Ret (Ok (if updateInstallationIssued (au_State op)
                                       then set_Reason (set_State op "unknown")
                                              "agent reported failure after installation was authorized; replacement or rollback is unconfirmed"
                                       else set_Reason (set_State op "failed") "agent refused or failed before replacement"))
                            else if bool_decide (us_State value = "downloading") && bool_decide (au_State op = "requested")
                                 then Ret (Ok (set_State op "downloading"))
                                 else Ret (Err (ErrText "invalid update status transition")));
                  now <- call_ CNow;
                  let next := set_Updated next (UnixMilli now) in
                  _ <-? call_ (CAudit next (au_State next));
                  _ <-? call_ (CUpdate next (au_State op));
                  _ <- (if Terminal next then release next else Ret tt);
                  Ret (Ok tt)
              end
          end
      end
  end.

(** ** The table (store/agent_updates.go, migration 027) *)

Abbreviation Updates := (gmap string AgentUpdate) (only parsing).

(** What a row keeps: the path of an artifact is not serialized. *)
Definition no_path (a : AgentArtifact) : AgentArtifact :=
  mkArtifact (aa_OS a) (aa_Arch a) (aa_Version a) (aa_Revision a) (aa_SHA256 a) (aa_Bytes a) "".
Definition stored (u : AgentUpdate) : AgentUpdate := set_Artifacts (set_Target u (no_path (au_Target u))) (no_path <$> au_BootstrapArtifacts u).

(** The unique indexes: one live operation per node, one operation per ticket. *)
Definition clashes (rows : Updates) (u : AgentUpdate) : bool :=
  existsb (fun kv : string * AgentUpdate =>
             negb (bool_decide (kv.1 = au_ID u))
             && ((negb (Terminal u) && negb (Terminal kv.2) && bool_decide (au_NodeID kv.2 = au_NodeID u))
                 || (negb (bool_decide (au_TicketHash u = "")) && bool_decide (au_TicketHash kv.2 = au_TicketHash u)))) (map_to_list rows).
Definition errConstraint : goerr := ErrText "UNIQUE constraint failed".

Definition CreateAgentUpdate (rows : Updates) (u : AgentUpdate) : result Updates :=
  check! bool_decide (is_Some (rows !! au_ID u)) || clashes rows u, errConstraint;
  Ok (<[au_ID u := stored u]> rows).
Definition GetAgentUpdate (rows : Updates) (id : string) : result AgentUpdate :=
  match rows !! id with Some u => Ok u | None => Err ErrNoRows end.
(** The columns node, actor, session and time of creation are not written. *)
Definition UpdateAgentUpdate (rows : Updates) (u : AgentUpdate) (previous : string) : result Updates :=
  match rows !! au_ID u with
  | Some r =>
      check! negb (bool_decide (au_State r = previous)), ErrAgentUpdateConflict;
      check! clashes rows u, errConstraint;
      Ok (<[au_ID u := set_Owner (stored u) (au_ActorID r) (au_SessionID r)]> rows)
  | None => Err ErrAgentUpdateConflict
  end.
Definition AgentUpdateByTicketHash (rows : Updates) (hash : string) : result AgentUpdate :=
  match filter (fun kv : string * AgentUpdate => au_TicketHash kv.2 = hash ∧ au_State kv.2 = "bootstrap_required") (map_to_list rows) with
  | (_, u) :: _ => Ok u
  | [] => Err ErrNoRows
  end.
Definition ActiveAgentUpdates (rows : Updates) : list AgentUpdate :=
  filter (fun u => Terminal u = false) (map_to_list rows).*2.
(** The last operation of a node by its time of creation, then by its row: [order]
    has the rows, the latest first. *)
Definition LatestAgentUpdate (rows : Updates) (order : list string) (node : string) : result AgentUpdate :=
  let newer best u := match best with Some b => if au_CreatedAt b <? au_CreatedAt u then Some u else best | None => Some u end in
  match foldl newer None (filter (fun u => au_NodeID u = node) (omap (fun id => rows !! id) order)) with
  | Some u => Ok u
  | None => Err ErrNoRows
  end.

(** ** The start of a hub *)

(** The operation as a new hub finds it. *)
Definition restarted (op : AgentUpdate) (now : Time) : AgentUpdate :=
  set_Updated
    (if updateInstallationIssued (au_State op)
     then set_Reason (set_State op "unknown") "Hub restarted; awaiting exact enrolled-agent reconciliation"
     else set_Reason (set_State op "failed") "Hub restarted before installation authorization; create a new update") (UnixMilli now).

Record Memory := mkMemory {
  mm_connections : ConnManager; mm_terminals : TerminalSessions;
  mm_capabilities : gmap string (AgentConn * UpdateCapabilities); mm_origins : gmap string (option AgentConn); mm_transfers : Z;
}.
Definition newMemory : Memory := mkMemory ConnMgr.New NewTerminalSessions ∅ ∅ 0.

(** The loop: [written] are the operations the database has accepted, the latest
    first; [None] when it refuses one. *)
Fixpoint restartEach (now : nat → Time) (writes : nat → bool) (n : nat) (active : list AgentUpdate) (rows : Updates) (m : Memory) (written : list AgentUpdate)
    : Updates * list AgentUpdate * option Memory :=
  match active with
  | [] => (rows, written, Some m)
  | op :: rest =>
      let next := restarted op (now n) in
      match (if writes n then UpdateAgentUpdate rows next (au_State op) else Err (ErrText "database")) with
      | Err _ => (rows, written, None)
      | Ok rows' =>
          let m' :=
            if negb (Terminal next)
            then mkMemory (ConnMgr.SetMaintenance (mm_connections m) (au_NodeID next) (au_ID next))
                   (SetMaintenance (mm_terminals m) (au_NodeID next) (au_ID next)) (mm_capabilities m)
                   (<[au_ID next := None]> (mm_origins m)) (mm_transfers m)
            else mkMemory (ConnMgr.ReleaseMaintenance (mm_connections m) (au_NodeID next) (au_ID next))
                   (ReleaseMaintenance (mm_terminals m) (au_NodeID next) (au_ID next)) (mm_capabilities m) (mm_origins m) (mm_transfers m) in
          restartEach now writes (S n) rest rows' m' (next :: written)
      end
  end.
Definition NewAgentUpdates (now : nat → Time) (writes : nat → bool) (rows : Updates) : Updates * list AgentUpdate * option Memory :=
  let active := take 33 (ActiveAgentUpdates rows) in
  if (32 <? length active)%nat then (rows, [], None) else restartEach now writes 0 active rows newMemory [].
