(* ===== verification/UpdateProtocol.v ===== *)
(** Runs of the agent updates: any number of requests of administrators and of
    agents (AgentUpdates.v) interleave, call by call, with each other, with every
    change of the connections and terminals that leaves maintenance alone, and with
    restarts of the hub.

    [w_log] and [w_phase] are not state of the program: the log remembers what calls
    answered, the latest first, and the phases how far the request that created an
    identifier has come. *)

From S2P Require Import Prelude Prog Codec Lockout Model Session Governance ConnMgr Version Terminal AgentUpdates.
Local Open Scope prog_scope.

(** ** What is remembered *)

Inductive fact :=
| FNow (t : Time)
| FUser (id : string) (u : User)
| FEffective (id : string) (e : EffectiveCapabilities)
| FPolicy (p : Policy)
| FSession (s : Session)
| FEnrolled (enrolled : bool)
| FGuard (actor node : string)
| FServer (node : string) (srv : Server)
| FCurrent (node : string) (conn : AgentConn)
| FCapabilities (node : string) (c : UpdateCapabilities)
| FOrigin (id : string) (conn : AgentConn)
| FArtifact (a : AgentArtifact)
| FAudit (op : AgentUpdate) (state : string)
| FIdle (node id : string)
| FRow (op : AgentUpdate)
| FMade (op : AgentUpdate)
| FPut (op : AgentUpdate)
| FId (id : string)
| FRefused (id : string)
| FReserved (id node : string).

Definition ok_fact {A} (f : A → fact) (r : result A) : list fact := match r with Ok a => [f a] | Err _ => [] end.

(** What a program learns from an answer. *)
Definition learned {B} (c : call B) : B → list fact :=
  match c in call B return B → list fact with
  | CNow => fun t => [FNow t]
  | CUUID => fun id => [FId id]
  | CUser id => ok_fact (FUser id)
  | CEffective id => ok_fact (FEffective id)
  | CPolicy => ok_fact FPolicy
  | CSession _ => ok_fact FSession
  | CEnrolled => ok_fact FEnrolled
  | CGuard actor node => ok_fact (fun _ => FGuard actor node)
  | CServer node => ok_fact (FServer node)
  | CAudit op state => ok_fact (fun _ => FAudit op state)
  | CCreate op => fun r => match r with Ok _ => [FMade (stored op)] | Err _ => [FRefused (au_ID op)] end
  | CGet _ | CLatest _ | CByTicket _ => ok_fact FRow
  | CUpdate op _ => ok_fact (fun _ => FPut (stored op))
  | CConn node => fun r => match r with Some conn => [FCurrent node conn] | None => [] end
  | CReserve conn id _ => ok_fact (fun _ => FReserved id (ac_ServerID conn))
  | CTermIdle node id => fun ok => if ok : bool then [FIdle node id] else []
  | CCapabilities node => fun r => match r with Some c => [FCapabilities node c] | None => [] end
  | COrigin id => fun r => match r with Some (Some conn) => [FOrigin id conn] | _ => [] end
  | CResolve _ _ => ok_fact FArtifact
  | _ => fun _ => []
  end.

(** ** The hub *)

(** How far the request that drew an identifier has come: it has drawn it, holds
    the terminals of the node, has the row, was refused the row. *)
Inductive phase := PFresh | PHeld (node : string) | PCreated | PRefused.

Record World := mkWorld { w_rows : gmap string AgentUpdate; w_order : list string; w_memory : Memory; w_log : list fact; w_phase : gmap string phase }.
Definition with_rows (w : World) v := mkWorld v (w_order w) (w_memory w) (w_log w) (w_phase w).
Definition with_memory (w : World) v := mkWorld (w_rows w) (w_order w) v (w_log w) (w_phase w).
Definition with_phase (w : World) id v := mkWorld (w_rows w) (w_order w) (w_memory w) (w_log w) (<[id := v]> (w_phase w)).
Definition note (w : World) (fs : list fact) := mkWorld (w_rows w) (w_order w) (w_memory w) (fs ++ w_log w) (w_phase w).
Definition with_connections (m : Memory) v := mkMemory v (mm_terminals m) (mm_capabilities m) (mm_origins m) (mm_transfers m).
Definition with_terminals (m : Memory) v := mkMemory (mm_connections m) v (mm_capabilities m) (mm_origins m) (mm_transfers m).
Definition with_capabilities (m : Memory) v := mkMemory (mm_connections m) (mm_terminals m) v (mm_origins m) (mm_transfers m).
Definition with_origins (m : Memory) v := mkMemory (mm_connections m) (mm_terminals m) (mm_capabilities m) v (mm_transfers m).
Definition with_transfers (m : Memory) v := mkMemory (mm_connections m) (mm_terminals m) (mm_capabilities m) (mm_origins m) v.

(** What is not decided by this state: clocks, random texts, failures, the rest of
    the store, the distribution and the network. *)
Record Oracle := mkOracle {
  o_fail : option goerr; o_now : Time; o_id : string; o_text : result string;
  o_user : result User; o_effective : result EffectiveCapabilities; o_policy : result Policy; o_session : result Session;
  o_enrolled : result bool; o_server : result Server; o_artifact : result AgentArtifact; o_done : result unit; o_read : list Z * option readError;
}.

Definition failing {A} (o : Oracle) (r : result A) : result A := match o_fail o with Some e => Err e | None => r end.
(** A statement that fails leaves the table as it was. *)
Definition on_table (o : Oracle) (w : World) (r : result (gmap string AgentUpdate)) : World * result unit :=
  match failing o r with Ok rows => (with_rows w rows, Ok tt) | Err e => (w, Err e) end.

(** The state the call leaves and its answer. *)
Definition answer (o : Oracle) (w : World) {B} (c : call B) : World * B :=
  let m := w_memory w in
  match c in call B return World * B with
  | CNow => (w, o_now o)
  | CUUID => (with_phase w (o_id o) PFresh, o_id o)
  | CRandom => (w, o_text o)
  | CUser _ => (w, o_user o)
  | CEffective _ => (w, o_effective o)
  | CPolicy => (w, o_policy o)
  | CSession _ => (w, o_session o)
  | CEnrolled => (w, o_enrolled o)
  | CServer _ => (w, o_server o)
  | CGuard _ _ | CSetVersion _ _ | CAudit _ _ | CSendAdmit _ | CSend _ _ | COpen _ | CChunk _ _ => (w, o_done o)
  | CCreate op =>
      let '(w', r) := on_table o w (CreateAgentUpdate (w_rows w) op) in
      match r with
      | Ok _ => (mkWorld (w_rows w') (au_ID op :: w_order w') (w_memory w') (w_log w') (<[au_ID op := PCreated]> (w_phase w')), r)
      | Err _ => (with_phase w' (au_ID op) PRefused, r)
      end
  | CGet id => (w, failing o (GetAgentUpdate (w_rows w) id))
  | CLatest node => (w, failing o (LatestAgentUpdate (w_rows w) (w_order w) node))
  | CByTicket hash => (w, failing o (AgentUpdateByTicketHash (w_rows w) hash))
  | CUpdate op previous => on_table o w (UpdateAgentUpdate (w_rows w) op previous)
  | CConn node => (w, GetConn (mm_connections m) node)
  | CConnDone conn => (w, conn_done (mm_connections m) conn)
  | CMaintenance node => (w, maintenance_of (mm_connections m) node)
  | CActivityIdle conn manual => (w, activityIdleLocked (mm_connections m) conn manual)
  | CReserve conn id manual =>
      let '(cm, r) := reserveCommit (mm_connections m) conn id manual in
      (with_memory w (with_connections m cm), r)
  | CRelease node id => (with_memory w (with_connections m (ConnMgr.ReleaseMaintenance (mm_connections m) node id)), tt)
  | CObserve node stream version count =>
      let '(cm, r) := ObserveActivityCapabilities (mm_connections m) node stream version count in (with_memory w (with_connections m cm), r)
  | CTermReserve node id =>
      let '(ts, r) := ReserveMaintenance (mm_terminals m) node id in
      let w' := with_memory w (with_terminals m ts) in
      match r with Ok _ => (with_phase w' id (PHeld node), r) | Err _ => (w', r) end
  | CTermRelease node id => (with_memory w (with_terminals m (ReleaseMaintenance (mm_terminals m) node id)), tt)
  | CTermIdle node id => (w, MaintenanceIdle (mm_terminals m) node id)
  | CCapabilities node =>
      (w, match mm_capabilities m !! node with
          | Some (conn, c) => if bool_decide (GetConn (mm_connections m) node = Some conn) then Some c else None
          | None => None
          end)
  | CCached node => (w, mm_capabilities m !! node)
  | CPublish node conn c => (with_memory w (with_capabilities m (<[node := (conn, c)]> (mm_capabilities m))), tt)
  | CForget node stream =>
      (match mm_capabilities m !! node with
       | Some (conn, _) => if bool_decide (ac_Stream conn = stream) then with_memory w (with_capabilities m (delete node (mm_capabilities m))) else w
       | None => w
       end, tt)
  | COriginPut id conn =>
      if (32 <=? size (mm_origins m))%nat then (w, false) else (with_memory w (with_origins m (<[id := conn]> (mm_origins m))), true)
  | COriginDrop id => (with_memory w (with_origins m (delete id (mm_origins m))), tt)
  | COrigin id => (w, mm_origins m !! id)
  | CTransfer => if 16 <=? mm_transfers m then (w, false) else (with_memory w (with_transfers m (mm_transfers m + 1)), true)
  | CTransferDone => (with_memory w (with_transfers m (mm_transfers m - 1)), tt)
  | CResolve _ _ => (w, o_artifact o)
  | CRead => (w, o_read o)
  end.
Definition perform (o : Oracle) (w : World) {B} (c : call B) : World * B :=
  let '(w', b) := answer o w c in (note w' (learned c b), b).

(** Identifiers are random: none is drawn twice. *)
Definition fresh_ok (o : Oracle) (w : World) {B} (c : call B) : bool :=
  match c with
  | CUUID => negb (bool_decide (o_id o = "")) && negb (existsb (fun f => match f with FId id => bool_decide (id = o_id o) | _ => false end) (w_log w))
  | _ => true
  end.

(** ** Requests (handlers_agent_update.go, handler.go, the agent's RPCs) *)

Inductive request :=
| RqCheck (actor sid node : string)
| RqStart (actor sid node version revision : string) (idle : BootstrapIdleAssertion)
| RqStatus (node id : string)
| RqRecovery (actor sid node id hash : string)
| RqDownload (node id : string)
| RqAuthorize (node id : string)
| RqBootstrap (node ticket : string) (c : option UpdateCapabilities) (asserted : bool)
| RqCapabilities (node : string) (stream : nat) (c : option UpdateCapabilities)
| RqReport (node : string) (stream : nat) (value : option AgentUpdateStatus)
| RqDisconnect (node : string) (stream : nat).

Definition handler (rq : request) : prog unit :=
  match rq with
  | RqCheck actor sid node => discard (Check actor sid node)
  | RqStart actor sid node version revision idle => discard (Start actor sid node version revision idle)
  | RqStatus node id => discard (Status node id)
  | RqRecovery actor sid node id hash => discard (AcknowledgeRecovery actor sid node id hash)
  | RqDownload node id => discard (DownloadUpdate node id)
  | RqAuthorize node id => discard (AuthorizeUpdate node id)
  | RqBootstrap node ticket c asserted => discard (BootstrapUpdate node ticket c asserted)
  | RqCapabilities node stream c => discard (ObserveCapabilities node stream c)
  | RqReport node stream value => discard (ObserveStatus node stream value)
  | RqDisconnect node stream => EndConnection node stream
  end.

(** An agent asks to install an operation it was told of: it is told after the
    node was reserved, and identifiers are not guessed. *)
Definition informed (w : World) (rq : request) : bool :=
  match rq with
  | RqAuthorize _ id => existsb (fun f => match f with FReserved i _ => bool_decide (i = id) | _ => false end) (w_log w)
  | _ => true
  end.

(** ** Runs *)

Record Hub := mkHub { h_up : bool; h_world : World; h_threads : list (prog unit) }.

Inductive event :=
| EStart (rq : request)
| ECall (thread : nat) (o : Oracle)                          (* one call of a request *)
| EConnections (cm : ConnManager)                            (* anything else that happens to connections *)
| ETerminals (ts : TerminalSessions)                         (* and to terminals *)
| ERestart (now : nat → Time) (writes : nat → bool).         (* the hub stops and starts again *)

(** The manager files a connection under its node. *)
Definition filed (cm : ConnManager) : bool := bool_decide (map_Forall (fun s c => ac_ServerID c = s) (cm_streams cm)).

Definition restart (now : nat → Time) (writes : nat → bool) (w : World) : Hub :=
  let '(rows, written, m) := NewAgentUpdates now writes (w_rows w) in
  let w' := mkWorld rows (w_order w) (default newMemory m) ((FPut ∘ stored <$> written) ++ w_log w) ∅ in
  mkHub (bool_decide (is_Some m)) w' [].

Definition estep (h : Hub) (e : event) : Hub :=
  match e with
  | ERestart now writes => restart now writes (h_world h)
  | _ =>
      if negb (h_up h) then h else
      let w := h_world h in
      match e with
      | EStart rq => if informed w rq then mkHub true w (h_threads h ++ [handler rq]) else h
      | ECall n o =>
          match h_threads h !! n with
          | Some (Call c k) => if fresh_ok o w c then let '(w', b) := perform o w c in mkHub true w' (<[n := k b]> (h_threads h)) else h
          | _ => h
          end
      | EConnections cm =>
          if bool_decide (cm_maintenance cm = cm_maintenance (mm_connections (w_memory w))) && filed cm
          then mkHub true (with_memory w (with_connections (w_memory w) cm)) (h_threads h) else h
      | ETerminals ts =>
          if bool_decide (ts_maintenance ts = ts_maintenance (mm_terminals (w_memory w)))
          then mkHub true (with_memory w (with_terminals (w_memory w) ts)) (h_threads h) else h
      | ERestart _ _ => h
      end
  end.
Definition erun (h : Hub) (es : list event) : Hub := foldl estep h es.

(** A hub that has never seen an update. *)
Definition starting : Hub := mkHub true (mkWorld ∅ [] newMemory [] ∅) [].

(** ** What must precede what *)

Abbreviation K_type := (fact → Prop) (only parsing).

(** A live interactive administrator, outside governance, on an enrolled node. *)
Definition authorized (K : K_type) (actor sid node : string) : Prop :=
  actor ≠ "" ∧ sid ≠ "" ∧ (∃ u, K (FUser actor u) ∧ u_MustChangePassword u = false)
  ∧ (∃ e, K (FEffective actor e) ∧ HasRole e RoleAdmin = true)
  ∧ (∃ s p now, K (FSession s) ∧ K (FPolicy p) ∧ K (FNow now) ∧ s_UserID s = actor ∧ Session.Evaluate (StateFromModel s) now p = VerdictOK)
  ∧ K (FEnrolled false) ∧ K (FGuard actor node)
  ∧ (∃ srv, K (FServer node srv) ∧ sv_RegistrationToken srv = None ∧ sv_Status srv = "online").

(** The connection the operation was admitted on is the node's, and its time is not over. *)
Definition at_origin (K : K_type) (op : AgentUpdate) : Prop :=
  ∃ conn now, K (FOrigin (au_ID op) conn) ∧ K (FCurrent (au_NodeID op) conn) ∧ K (FNow now) ∧ now < FromUnixMilli (au_ExpiresAt op).

Definition wrote (K : K_type) (op : AgentUpdate) : Prop := K (FMade op) ∨ K (FPut op).
Definition known (K : K_type) (op : AgentUpdate) : Prop := wrote K op ∨ K (FRow op).

(** An operation without its progress. *)
Definition erased (op : AgentUpdate) : AgentUpdate :=
  set_Updated (set_ObservedBoot (set_Observed (set_Reason (set_State op "") "") "" "" "") "") 0.

(** The version advances, or the very artifact stays. *)
Definition advances (target : AgentArtifact) (version sha256 : string) : Prop :=
  ∃ cmp, CompareVersions (aa_Version target) version = Some cmp ∧ (0 < cmp ∨ (cmp = 0 ∧ aa_SHA256 target = sha256)).
Definition op_advances (op : AgentUpdate) : Prop := advances (au_Target op) (au_PreviousVersion op) (au_PreviousSHA256 op).

(** The protocol of an operation: what may follow a state. *)
Definition follows (s s' : string) : bool :=
  if bool_decide (s' ∈ ["failed"; "expired"]) then bool_decide (s ∈ ["bootstrap_required"; "requested"; "downloading"])
  else if bool_decide (s' = "requested") then bool_decide (s = "bootstrap_required")
  else if bool_decide (s' = "downloading") then bool_decide (s = "requested")
  else if bool_decide (s' = "installing") then bool_decide (s ∈ ["requested"; "downloading"])
  else if bool_decide (s' ∈ ["unknown"; "confirmation_pending"]) then updateInstallationIssued s
  else if bool_decide (s' = "rollback_confirmation_pending") then updateInstallationIssued s || bool_decide (s = "succeeded")
  else if bool_decide (s' = "succeeded") then bool_decide (s ∈ ["confirmation_pending"; "unknown"])
  else if bool_decide (s' = "rolled_back") then bool_decide (s ∈ ["rollback_confirmation_pending"; "unknown"])
  else bool_decide (s' = "recovery_acknowledged") && bool_decide (s = "unknown").

(** What each change of an operation rests on. *)
Definition reasons (K : K_type) (op : AgentUpdate) : Prop :=
  let s := au_State op in
  (s = "installing" →
     (∃ node, K (FReserved (au_ID op) node)) ∧ at_origin K op ∧ authorized K (au_ActorID op) (au_SessionID op) (au_NodeID op)
     ∧ (∃ a, K (FArtifact a) ∧ sameArtifact a (au_Target op) = true) ∧ (∃ next, stored next = op ∧ K (FAudit next "installation_authorized")))
  ∧ (s ∈ ["confirmation_pending"; "succeeded"] → ∃ c, K (FCapabilities (au_NodeID op) c) ∧ runsTarget op c = true)
  ∧ (s = "succeeded" → au_ObservedSHA256 op = aa_SHA256 (au_Target op))
  ∧ (s ∈ ["rollback_confirmation_pending"; "rolled_back"] → ∃ c, K (FCapabilities (au_NodeID op) c) ∧ runsOriginal op c = true)
  ∧ (s = "recovery_acknowledged" → K (FIdle (au_NodeID op) (au_ID op)) ∧ ∃ actor sid, authorized K actor sid (au_NodeID op)).

(** The parts that stay: all, or those a ticket is exchanged for. *)
Definition same_operation (old op : AgentUpdate) : Prop :=
  if bool_decide (au_State old = "bootstrap_required") && bool_decide (au_State op = "requested")
  then ∃ a v r s b, erased op = erased (set_Ticket (set_Previous (set_Target old a) v r s b) "")
                    ∧ aa_Version a = aa_Version (au_Target old) ∧ aa_Revision a = aa_Revision (au_Target old) ∧ advances a v s
  else erased op = erased old.

Definition moves (K : K_type) (old op : AgentUpdate) : Prop :=
  follows (au_State old) (au_State op) = true ∧ same_operation old op ∧ reasons K op.

(** How an operation begins. *)
Definition begins (op : AgentUpdate) : Prop :=
  au_State op = "bootstrap_required" ∨ (au_State op = "requested" ∧ op_advances op).

Definition fact_ok (K : K_type) (f : fact) : Prop :=
  match f with
  | FRow op => wrote K op
  | FMade op => begins op
  | FPut op => ∃ old, known K old ∧ au_ID old = au_ID op ∧ moves K old op
  | _ => True
  end.

Definition over (K : K_type) (id : string) : Prop := ∃ op, known K op ∧ au_ID op = id ∧ Terminal op = true.

(** What a call asks for. *)
Definition pre {B} (c : call B) (K : K_type) : Prop :=
  match c with
  | CCreate op => begins (stored op)
  | CUpdate op previous => ∃ old, known K old ∧ au_ID old = au_ID op ∧ au_State old = previous ∧ moves K old (stored op)
  | CReserve conn id _ => ∃ op, K (FMade op) ∧ au_ID op = id ∧ au_NodeID op = ac_ServerID conn
  | CRelease node id => over K id
  | CTermRelease node id => over K id ∨ K (FRefused id)
  | _ => True
  end.
Definition post {B} (c : call B) (b : B) (f : fact) : Prop := f ∈ learned c b.

Definition legal (s : string) : bool :=
  bool_decide (s ∈ ["bootstrap_required"; "requested"; "downloading"; "installing"; "unknown"; "confirmation_pending"; "rollback_confirmation_pending";
                    "succeeded"; "failed"; "rolled_back"; "expired"; "recovery_acknowledged"]).
(** Rows carry their identifier, a state of the protocol and no paths;
    connections their node. *)
Definition row_of (P : AgentUpdate → Prop) (r : result AgentUpdate) : Prop :=
  match r with Ok u => P u ∧ stored u = u ∧ legal (au_State u) = true | Err _ => True end.
Definition sane {B} (c : call B) : B → Prop :=
  match c in call B return B → Prop with
  | CGet id => row_of (fun u => au_ID u = id)
  | CLatest node => row_of (fun u => au_NodeID u = node)
  | CByTicket hash => row_of (fun u => au_State u = "bootstrap_required")
  | CConn node => fun r => match r with Some conn => ac_ServerID conn = node | None => True end
  | _ => fun _ => True
  end.

Fixpoint ordered (log : list fact) : Prop :=
  match log with [] => True | f :: t => fact_ok (fun g => g ∈ t) f ∧ ordered t end.

(** ** More knowledge does no harm *)

Section mono.
Context {K K' : K_type} (H : knows_le K K').

Lemma authorized_mono actor sid node : authorized K actor sid node → authorized K' actor sid node.
Proof using H.
  intros (? & ? & (u & ? & ?) & (e & ? & ?) & (s & p & now & ? & ? & ? & ? & ?) & ? & ? & (srv & ? & ?)).
  split_and!; eauto. exists s, p, now. auto.
Qed.
Lemma at_origin_mono op : at_origin K op → at_origin K' op.
Proof using H. intros (conn & now & ? & ? & ? & ?). exists conn, now. auto. Qed.
Lemma wrote_mono op : wrote K op → wrote K' op.
Proof using H. intros [?|?]; [left|right]; auto. Qed.
Lemma known_mono op : known K op → known K' op.
Proof using H. intros [?|?]; [left; by apply wrote_mono|right; auto]. Qed.
Lemma over_mono id : over K id → over K' id.
Proof using H. intros (op & ? & ?). exists op. split; [by apply known_mono|done]. Qed.
Lemma reasons_mono op : reasons K op → reasons K' op.
Proof using H.
  intros (H1 & H2 & Ho & H3 & H4). split_and!; [| |exact Ho| |].
  - intros Hs. destruct (H1 Hs) as ((node & ?) & ? & ? & (a & ? & ?) & (next & ? & ?)).
    split_and!; eauto using authorized_mono, at_origin_mono.
  - intros Hs. destruct (H2 Hs) as (c & ? & ?). eauto.
  - intros Hs. destruct (H3 Hs) as (c & ? & ?). eauto.
  - intros Hs. destruct (H4 Hs) as (? & actor & sid & ?). split; [auto|]. exists actor, sid. by apply authorized_mono.
Qed.
Lemma moves_mono old op : moves K old op → moves K' old op.
Proof using H. intros (? & ? & ?). split_and!; [done|done|by apply reasons_mono]. Qed.
Lemma fact_ok_more f : fact_ok K f → fact_ok K' f.
Proof using H.
  destruct f; cbn; auto using wrote_mono. intros (old & ? & ? & ?). exists old. split_and!; auto using known_mono, moves_mono.
Qed.
Lemma pre_more B (c : call B) : pre c K → pre c K'.
Proof using H.
  destruct c; cbn; auto using over_mono.
  - intros (old & ? & ? & ? & ?). exists old. split_and!; auto using moves_mono, known_mono.
  - intros (op & ? & ? & ?). exists op. auto.
  - intros [?|?]; [left; by apply over_mono|right; auto].
Qed.
End mono.

(** ** Programs ask for no more than they know *)

Abbreviation just Q K p := (justified (@sane) (@pre) (@post) Q K p).

Lemma just_ask {A B} (Q : K_type → A → Prop) (K : K_type) (c : call B) (k : B → prog A) : pre c K →
  (∀ K' b, knows_le K K' → (∀ f, f ∈ learned c b → K' f) → sane c b → just Q K' (k b)) → just Q K (Call c k).
Proof. intros Hp Hk. split; [done|]. intros b Hb. apply Hk; [intros f Hf; by left|intros f Hf; by right|done]. Qed.
Lemma just_bind {A B} (R : K_type → A → Prop) (Q : K_type → B → Prop) K (p : prog A) (f : A → prog B) : just R K p →
  (∀ K' a, knows_le K K' → R K' a → just Q K' (f a)) → just Q K (bind p f).
Proof. intros. by eapply justified_bind. Qed.
(** A fallible program: nothing is asked of its errors. *)
Lemma just_try {A B} (R : K_type → A → Prop) (Q : K_type → result B → Prop) K (p : prog (result A)) (f : A → prog (result B)) :
  just (fun K r => ∀ a, r = Ok a → R K a) K p → (∀ K' e, knows_le K K' → Q K' (Err e)) →
  (∀ K' a, knows_le K K' → R K' a → just Q K' (f a)) → just Q K (try_ p f).
Proof.
  intros Hp He Hf. eapply justified_try; [exact Hp|intros K' e Hle _; by apply He|]. intros K' a Hle Ha. apply Hf; [done|by apply Ha].
Qed.
Lemma just_or_else {A} (R : K_type → A → Prop) K (p : prog (result A)) e :
  just (fun K r => ∀ a, r = Ok a → R K a) K p → just (fun K r => ∀ a, r = Ok a → R K a) K (or_else p e).
Proof. intros Hp. eapply just_bind; [exact Hp|]. intros K' [a|] Hle Ha; cbn; [done|by intros]. Qed.
Lemma just_denied {A} (R : K_type → A → Prop) K (p : prog (result A)) :
  just (fun K r => ∀ a, r = Ok a → R K a) K p → just (fun K r => ∀ a, r = Ok a → R K a) K (denied p).
Proof. intros Hp. eapply just_bind; [exact Hp|]. intros K' [a|] Hle Ha; cbn; [done|by intros]. Qed.
Lemma just_mono {A} (Q Q' : K_type → A → Prop) K (p : prog A) : (∀ K' a, knows_le K K' → Q K' a → Q' K' a) → just Q K p → just Q' K p.
Proof. apply justified_mono. Qed.

(** Programs that ask for nothing. *)
Definition quiet {A} (p : prog A) : Prop := ∀ K, just (fun _ _ => True) K p.
Lemma just_after_quiet {A B} (Q : K_type → B → Prop) K (p : prog A) (f : A → prog B) : quiet p →
  (∀ K' a, knows_le K K' → just Q K' (f a)) → just Q K (bind p f).
Proof. intros Hp Hf. eapply justified_bind; [apply Hp|]. intros K' a Hle _. by apply Hf. Qed.
Lemma quiet_anywhere {A} K (p : prog A) : quiet p → just (fun _ _ => True) K p.
Proof. intros H. apply H. Qed.

Lemma quiet_bind {A B} (p : prog A) (f : A → prog B) : quiet p → (∀ a, quiet (f a)) → quiet (bind p f).
Proof. intros Hp Hf K. apply just_after_quiet; [done|]. intros K' a _. apply Hf. Qed.
Lemma quiet_ret {A} (a : A) : quiet (Ret a).
Proof. intros K. exact I. Qed.
Lemma quiet_call {A B} (c : call B) (k : B → prog A) : (∀ K, pre c K) → (∀ b, quiet (k b)) → quiet (Call c k).
Proof. intros Hp Hk K. apply just_ask; [apply Hp|]. intros K' b _ _ _. apply Hk. Qed.

Create HintDb updates.
#[export] Hint Resolve quiet_bind quiet_ret : updates.
#[export] Hint Extern 3 (quiet (Call _ _)) => apply quiet_call; [intros ?; exact I|intros ?] : updates.
#[export] Hint Extern 2 (quiet (match ?x with _ => _ end)) => destruct x : updates.
Ltac expose := unfold try_, or_else, denied, call_, discard; cbn [bind].
Ltac up :=
  match goal with
  | Hle : knows_le ?K ?K' |- _ =>
      repeat match goal with
             | H : K _ |- _ => apply Hle in H
             | H : authorized K _ _ _ |- _ => apply (authorized_mono Hle) in H
             | H : at_origin K _ |- _ => apply (at_origin_mono Hle) in H
             | H : over K _ |- _ => apply (over_mono Hle) in H
             | H : wrote K _ |- _ => apply (wrote_mono Hle) in H
             end;
      clear Hle; try clear K
  end.
Ltac learn Hl :=
  cbn [learned ok_fact] in Hl;
  lazymatch type of Hl with
  | ∀ f, f ∈ [] → _ => clear Hl
  | ∀ f, f ∈ [?x] → _ => let H := fresh "HK" in pose proof (Hl x (proj2 (list_elem_of_singleton x x) eq_refl)) as H; clear Hl
  | _ => idtac
  end.
Ltac split_answer b :=
  lazymatch type of b with
  | result _ => destruct b as [b|?]
  | option (option _) => destruct b as [[b|]|]
  | option _ => destruct b as [b|]
  | bool => destruct b
  | _ => idtac
  end.
Ltac harmless := exact I.
Ltac jstep :=
  expose;
  lazymatch goal with
  | |- just _ _ (Call ?c _) =>
      apply just_ask; [try harmless|let b := fresh "b" in let Hle := fresh in let Hl := fresh in let Hs := fresh "Hs" in
                                    intros ? b Hle Hl Hs; up; split_answer b; cbn [sane row_of] in Hs; lazymatch type of Hs with True => clear Hs | _ => idtac end; learn Hl]
  | |- just _ _ (bind (match ?x with _ => _ end) _) => destruct x eqn:?
  | |- just _ _ (bind _ _) => apply just_after_quiet; [solve [auto 12 with updates nocore]|intros ? ? ?; up]
  | |- just _ _ (if ?x then _ else _) => let E := fresh "E" in destruct x eqn:E; cbn [negb andb orb] in E; try discriminate E
  | |- just _ _ (match ?x with _ => _ end) => destruct x eqn:?
  | |- just (fun _ _ => True) _ (Ret _) => exact I
  | |- just (fun _ _ => True) _ _ => solve [apply quiet_anywhere; auto 12 with updates nocore]
  | |- just (fun _ r => ∀ a, r = Ok a → _) _ (Ret (Err _)) => let E := fresh in intros ? E; discriminate E
  end.
Ltac jrun := repeat jstep.
Ltac quietly := let K := fresh in intros K; jrun.

(** *** Authority *)

Lemma authorizeAdmin_spec K actor sid : just (fun K r => ∀ a, r = Ok a → actor ≠ "" ∧ sid ≠ ""
  ∧ (∃ u, K (FUser actor u) ∧ u_MustChangePassword u = false) ∧ (∃ e, K (FEffective actor e) ∧ HasRole e RoleAdmin = true)
  ∧ (∃ s p now, K (FSession s) ∧ K (FPolicy p) ∧ K (FNow now) ∧ s_UserID s = actor ∧ Session.Evaluate (StateFromModel s) now p = VerdictOK))
  K (authorizeAdmin actor sid).
Proof. unfold authorizeAdmin. jrun. intros _ _. bool_hyps. split_and!; eauto 10. Qed.
Lemma authorize_spec K actor sid node : just (fun K r => ∀ a, r = Ok a → authorized K actor sid node) K (authorize actor sid node).
Proof.
  unfold authorize. eapply just_try; [apply authorizeAdmin_spec|by intros|]. intros K1 _ Hle (H1 & H2 & (u & Hu1 & Hu2) & (e & He1 & He2) & (s & p & now & Hs & Hp & Hn & Hus & Hv)).
  clear Hle. jrun. intros _ _. bool_hyps. split_and!; eauto; [exists s, p, now; auto|exists b1; split_and!; [done| |done]].
  destruct (sv_RegistrationToken b1); [|done]. exfalso. eauto.
Qed.
Lemma validateOrigin_spec K op : just (fun K r => ∀ a, r = Ok a → at_origin K op) K (validateOrigin op).
Proof. unfold validateOrigin. jrun. intros _ _. bool_hyps. exists b, b1. unfold Before in *. simplify_eq. z_hyps. auto. Qed.
Lemma validateOperation_spec K op :
  just (fun K r => ∀ a, r = Ok a → at_origin K op ∧ authorized K (au_ActorID op) (au_SessionID op) (au_NodeID op)) K (validateOperation op).
Proof.
  unfold validateOperation. eapply just_try; [apply validateOrigin_spec|by intros|]. intros K1 [] _ Ho. cbn beta in Ho.
  eapply just_mono; [|apply authorize_spec]. intros K2 r Hle Ha x Hx. up. eauto.
Qed.
Lemma quiet_of {A} (R : K_type → A → Prop) (p : prog A) : (∀ K, just R K p) → quiet p.
Proof. intros H K. eapply just_mono; [|apply H]. done. Qed.
Lemma authorize_quiet actor sid node : quiet (authorize actor sid node).
Proof. eapply quiet_of. intros K. apply authorize_spec. Qed.
Lemma validateOperation_quiet op : quiet (validateOperation op).
Proof. eapply quiet_of. intros K. apply validateOperation_spec. Qed.
Lemma artifact_spec K os arch : just (fun K r => ∀ a, r = Ok a → K (FArtifact a)) K (artifact os arch).
Proof. unfold artifact. jrun. by intros _ [= <-]. Qed.
Lemma artifact_quiet os arch : quiet (artifact os arch).
Proof. eapply quiet_of. intros K. apply artifact_spec. Qed.
Lemma validateOriginalAssertion_quiet node o : quiet (validateOriginalAssertion node o).
Proof. unfold validateOriginalAssertion. quietly. Qed.
Lemma denied_quiet {A} (p : prog (result A)) : quiet p → quiet (denied p).
Proof. intros Hp. quietly. Qed.
#[export] Hint Resolve authorize_quiet validateOperation_quiet artifact_quiet validateOriginalAssertion_quiet : updates.
Lemma EndConnection_quiet node stream : quiet (EndConnection node stream).
Proof. unfold EndConnection. quietly. Qed.
Lemma send_quiet conn msg check : quiet check → quiet (SendToConnectionChecked conn msg check).
Proof. intros Hc. unfold SendToConnectionChecked. quietly. Qed.
Lemma ObserveCapabilities_quiet node stream c : quiet (ObserveCapabilities node stream c).
Proof. unfold ObserveCapabilities. quietly. Qed.

(** *** Writes *)

(** Progress leaves the rest of a row. *)
Lemma release_just K op : over K (au_ID op) → just (fun _ _ => True) K (release op).
Proof. intros Ho. unfold release. jrun; [done|by left]. Qed.

Lemma put_over {K : K_type} op : K (FPut (stored op)) → Terminal op = true → over K (au_ID op).
Proof. intros Hp Ht. exists (stored op). split_and!; [left; by right|done|exact Ht]. Qed.

(** Membership in a list of states, as cases. *)
Ltac states :=
  repeat match goal with
         | H : _ ∈ _ :: _ |- _ => apply list_elem_of_In in H
         | H : ¬ (_ ∈ _ :: _) |- _ => rewrite list_elem_of_In in H
         end;
  rewrite ?list_elem_of_In; cbn [In] in *; intuition congruence.

Ltac each_state H :=
  apply list_elem_of_In in H; cbn [In] in H;
  repeat match type of H with _ ∨ _ => destruct H as [H|H] end; [symmetry in H..|destruct H]; rewrite ?H in *; try done.

Lemma early_states op : legal (au_State op) = true → Terminal op = false → updateInstallationIssued (au_State op) = false →
  au_State op ∈ ["bootstrap_required"; "requested"; "downloading"].
Proof.
  unfold legal, Terminal, updateInstallationIssued. intros ?%bool_decide_eq_true ?%bool_decide_eq_false ?%bool_decide_eq_false. states.
Qed.
Lemma reasons_none K op : au_State op ∈ ["failed"; "expired"; "unknown"; "downloading"; "requested"] → reasons K op.
Proof. intros Hs. unfold reasons. split_and!; intros; exfalso; states. Qed.

(** A write of progress, by someone who knows the row. *)
Lemma row_known (K : K_type) u : K (FRow u) → known K u.
Proof. by right. Qed.
#[local] Hint Extern 0 (known _ _) => apply row_known; assumption : core.
Lemma progress_pre (K : K_type) old next : known K old → stored old = old → erased next = erased old → au_State next ≠ "requested" →
  follows (au_State old) (au_State next) = true → reasons K (stored next) → pre (CUpdate next (au_State old)) K.
Proof.
  intros Hr Hs He Hn Hf Hre. exists old. split_and!; [done|by apply (f_equal au_ID) in He|done|]. split_and!; [exact Hf| |done].
  unfold same_operation. change (au_State (stored next)) with (au_State next). rewrite (bool_decide_eq_false_2 (au_State next = _)), andb_false_r by done.
  change (erased (stored next)) with (stored (erased next)). rewrite He. change (stored (erased old)) with (erased (stored old)). by rewrite Hs.
Qed.
Lemma giveup_pre (K : K_type) old next : known K old → stored old = old → legal (au_State old) = true → Terminal old = false →
  updateInstallationIssued (au_State old) = false → erased next = erased old → au_State next ∈ ["failed"; "expired"] → pre (CUpdate next (au_State old)) K.
Proof.
  intros Hr Hs Hl Ht Hi He Hn. apply progress_pre; try done.
  - intros E. rewrite E in Hn. states.
  - unfold follows. rewrite bool_decide_eq_true_2 by done. apply bool_decide_eq_true. by apply early_states.
  - apply reasons_none. change (au_State (stored next)) with (au_State next). states.
Qed.
Lemma lost_pre (K : K_type) old next : known K old → stored old = old → updateInstallationIssued (au_State old) = true → erased next = erased old →
  au_State next = "unknown" → pre (CUpdate next (au_State old)) K.
Proof.
  intros Hr Hs Hi He Hn. apply progress_pre; try done; [by rewrite Hn| |].
  - rewrite Hn. exact Hi.
  - apply reasons_none. change (au_State (stored next)) with (au_State next). rewrite Hn. states.
Qed.

Lemma finishBeforeInstall_quiet op reason : quiet (finishBeforeInstall op reason).
Proof.
  unfold finishBeforeInstall. quietly; destruct Hs as (_ & Hs & Hl); bool_hyps.
  - apply giveup_pre; try done; cbn; states.
  - apply release_just. by apply put_over.
Qed.
Lemma Status_quiet node id : quiet (Status node id).
Proof.
  unfold Status. quietly; destruct Hs as (_ & Hs & Hl); bool_hyps.
  all: try (apply release_just, put_over; done).
  all: destruct (updateInstallationIssued (au_State b)) eqn:Ei; [by apply lost_pre|apply giveup_pre; try done; cbn; states].
Qed.
#[export] Hint Resolve finishBeforeInstall_quiet Status_quiet EndConnection_quiet ObserveCapabilities_quiet : updates.

Lemma AcknowledgeRecovery_quiet actor sid node id hash : quiet (AcknowledgeRecovery actor sid node id hash).
Proof.
  intros K. unfold AcknowledgeRecovery. eapply just_try; [apply authorize_spec|done|]. intros K1 [] Hle Ha. cbn beta in Ha. clear Hle. jrun.
  - destruct Hs as (Hid & Hs & Hl). bool_hyps. rewrite <- H2. apply progress_pre; try done; [by rewrite H2|].
    unfold reasons. split_and!; intros; try discriminate; try (exfalso; cbn in *; states). subst. cbn. eauto.
  - apply release_just. by apply put_over.
Qed.

Lemma AuthorizeUpdate_just K node id : (∃ n, K (FReserved id n)) → just (fun _ _ => True) K (AuthorizeUpdate node id).
Proof.
  intros [n Hn]. unfold AuthorizeUpdate. jstep; [|done]. destruct Hs as (Hid & Hs & Hl). cbn [bind]. jstep; [done|].
  eapply just_try; [apply just_denied, validateOperation_spec|done|]. intros K2 [] Hle _. up.
  eapply just_try; [apply just_or_else, artifact_spec|done|]. intros K3 a Hle Ha. cbn beta in Ha. up. jstep; [done|].
  eapply just_try; [|done|intros K4 [] _ _; exact I]. apply (just_denied (fun _ _ => True)).
  eapply just_try; [apply validateOrigin_spec|done|]. intros K4 [] Hle Ho. cbn beta in Ho. up.
  eapply just_try; [apply authorize_spec|done|]. intros K5 [] Hle Hau. cbn beta in Hau. up.
  bool_hyps. jrun; try done. apply progress_pre; try done.
  - by each_state H0.
  - unfold reasons. split_and!; intros; try discriminate; try (exfalso; cbn in *; states). cbn. subst id. split_and!; eauto.
Qed.

Lemma sendArtifact_quiet fuel op size offset : quiet (sendArtifact fuel op size offset).
Proof. revert offset. induction fuel as [|fuel IH]; intros offset; cbn [sendArtifact]; quietly. Qed.
#[export] Hint Resolve sendArtifact_quiet : updates.
Lemma DownloadUpdate_quiet node id : quiet (DownloadUpdate node id).
Proof. unfold DownloadUpdate. quietly. Qed.

Lemma confirmOperation_just K op c final : K (FRow op) → stored op = op → legal (au_State op) = true → K (FCapabilities (au_NodeID op) c) →
  (∃ state, confirmedState op c state = Some final) → just (fun _ _ => True) K (confirmOperation op c final).
Proof.
  intros Hr Hs Hl Hc [state Hf]. unfold confirmOperation.
  assert (Hcase : (final = "rolled_back" ∧ runsOriginal op c = true ∧ au_State op ∈ ["rollback_confirmation_pending"; "unknown"; "rolled_back"])
                  ∨ (final = "succeeded" ∧ runsTarget op c = true ∧ au_State op ∈ ["confirmation_pending"; "unknown"; "succeeded"]
                     ∧ au_ObservedSHA256 op = aa_SHA256 (au_Target op))).
  { unfold confirmedState in Hf. repeat case_match; simplify_eq; bool_hyps; [left|right]; auto. }
  assert (Ht : ∀ u, au_State u = final → Terminal u = true).
  { intros u Hu. unfold Terminal. apply bool_decide_eq_true. rewrite Hu. destruct Hcase as [[-> _]|[-> _]]; states. }
  jrun.
  - apply release_just. exists op. bool_hyps. split_and!; [by right|done|by apply Ht].
  - bool_hyps. apply progress_pre; try done.
    + cbn. destruct Hcase as [[-> _]|[-> _]]; done.
    + cbn. destruct Hcase as [(-> & _ & Hst)|(-> & _ & Hst & _)]; each_state Hst.
    + unfold reasons. destruct Hcase as [(-> & Hrun & _)|(-> & Hrun & _ & Ho)];
        split_and!; intros; try discriminate; try (exfalso; cbn in *; states); [exists c; split; [done|exact Hrun]..|exact Ho].
  - apply release_just, put_over; [done|by apply Ht].
Qed.

Lemma reconnectOperation_just K conn op c confirmation pending : K (FRow op) → stored op = op → K (FCapabilities (au_NodeID op) c) →
  (∃ state, reconnectedState op c state = Some (confirmation, pending)) → just (fun _ _ => True) K (reconnectOperation conn op c confirmation pending).
Proof.
  intros Hr Hs Hc [state Hf]. unfold reconnectOperation.
  assert (Hcase : (confirmation = "rolled_back" ∧ pending = "rollback_confirmation_pending" ∧ runsOriginal op c = true
                     ∧ (updateInstallationIssued (au_State op) = true ∨ au_State op ∈ ["succeeded"; "rolled_back"]))
                  ∨ (confirmation = "succeeded" ∧ pending = "confirmation_pending" ∧ runsTarget op c = true
                     ∧ (updateInstallationIssued (au_State op) = true ∨ au_State op = "succeeded"))).
  { unfold reconnectedState in Hf. cbv zeta in Hf. repeat case_match; simplify_eq; bool_hyps; [left|right]; split_and!; try done;
      match goal with H : _ || _ = true |- _ => apply orb_true_iff in H as [H|H%bool_decide_eq_true] end; auto. }
  assert (Hp : bool_decide (au_State op = confirmation) = false → ∀ next, erased next = erased op → au_State next = pending →
      pre (CUpdate next (au_State op)) K).
  { intros Hn%bool_decide_eq_false next He Hst. apply progress_pre; try done; rewrite ?Hst.
    - destruct Hcase as [(-> & -> & _)|(-> & -> & _)]; done.
    - destruct Hcase as [(-> & -> & _ & [Hi|Hi])|(-> & -> & _ & [Hi|Hi])].
      + change (updateInstallationIssued (au_State op) || bool_decide (au_State op = "succeeded") = true). by rewrite Hi.
      + each_state Hi.
      + exact Hi.
      + done.
    - assert (Hrun : ∀ x, runsOriginal (stored next) x = runsOriginal op x ∧ runsTarget (stored next) x = runsTarget op x).
      { intros x. change (runsOriginal (stored next) x) with (runsOriginal (stored (erased next)) x).
        change (runsTarget (stored next) x) with (runsTarget (stored (erased next)) x). rewrite He. split; reflexivity. }
      assert (Hnode : au_NodeID (stored next) = au_NodeID op) by (by apply (f_equal au_NodeID) in He).
      unfold reasons. rewrite Hnode. change (au_State (stored next)) with (au_State next). rewrite Hst.
      destruct Hcase as [(-> & -> & Hc' & _)|(-> & -> & Hc' & _)]; split_and!; intros; try discriminate; try (exfalso; states);
        (exists c; split; [done|by rewrite (proj1 (Hrun c)) || rewrite (proj2 (Hrun c))]). }
  assert (Hsend : quiet (SendToConnectionChecked (Some conn) (UpdateConfirmation (au_ID op) confirmation) (Ret (Ok tt)))) by (apply send_quiet, quiet_ret).
  destruct (bool_decide (au_State op = confirmation)) eqn:Ef; cbn [negb andb].
  - expose. eapply just_bind; [apply release_just|intros; apply Hsend]. exists op. apply bool_decide_eq_true in Ef. split_and!; [by right|done|].
    unfold Terminal. apply bool_decide_eq_true. rewrite Ef. destruct Hcase as [(-> & _)|(-> & _)]; states.
  - destruct (_ || _); expose; [|apply Hsend]. apply just_ask; [exact I|]. intros K1 now Hl1 _ _. apply just_ask; [exact I|]. intros K2 [[]|] Hl2 _ _; [|exact I].
    apply just_ask; [apply (pre_more (K := K)); [intros f Hk; auto|by apply Hp]|]. intros K3 [[]|] _ _ _; [apply Hsend|exact I].
Qed.

Lemma ObserveStatus_quiet node stream value : quiet (ObserveStatus node stream value).
Proof.
  intros K. unfold ObserveStatus. destruct value as [v|]; [|exact I]. jstep; [exact I|]. jstep; [|exact I]. destruct Hs as (Hid & Hs & Hl). cbn [bind].
  jstep; [exact I|]. jstep; [|exact I]. jstep; [exact I|]. jstep; [|exact I]. jstep; [exact I|].
  bool_hyps. destruct (confirmedState b b1 (us_State v)) as [final|] eqn:Ec.
  { apply confirmOperation_just; try done; [by subst node|eauto]. }
  destruct (reconnectedState b b1 (us_State v)) as [[confirmation pending]|] eqn:Er.
  { apply reconnectOperation_just; try done; [by subst node|eauto]. }
  assert (Hend : ∀ K next, K (FPut (stored next)) → Terminal next = true → just (fun _ _ => True) K (_ <- release next; Ret (Ok tt))).
  { intros K1 next Hn Ht. eapply just_bind; [by apply release_just, put_over|]. done. }
  jrun; try done.
  - destruct (updateInstallationIssued (au_State b)) eqn:Ei; [by apply lost_pre|apply giveup_pre; try done; cbn; states].
  - by apply Hend.
  - bool_hyps. apply progress_pre; try done; [by rewrite H4|]. apply reasons_none. cbn. states.
Qed.

(** The exchange of a ticket. *)
Lemma bootstrap_pre (K : K_type) op a v r s b now : K (FRow op) → stored op = op → au_State op = "bootstrap_required" →
  aa_Version a = aa_Version (au_Target op) → aa_Revision a = aa_Revision (au_Target op) → advances a v s →
  pre (CUpdate (set_Updated (set_State (set_Ticket (set_Previous (set_Target op a) v r s b) "") "requested") now) (au_State op)) K.
Proof.
  intros Hr Hs Hst Hv Hrev Ha. exists op. split_and!; try done. split_and!; [by rewrite Hst| |apply reasons_none; cbn; states].
  unfold same_operation. rewrite bool_decide_eq_true_2 by done. cbn [andb]. change (au_State (stored _)) with "requested". cbn [andb].
  exists (no_path a), v, r, s, b. split_and!; [|done|done|exact Ha]. rewrite <- Hs at 2. reflexivity.
Qed.

Lemma BootstrapUpdate_quiet node ticket c asserted : quiet (BootstrapUpdate node ticket c asserted).
Proof.
  intros K. unfold BootstrapUpdate. destruct c as [caps|]; [|exact I]. jstep; [exact I|]. jstep; [|exact I]. destruct Hs as (Hst & Hs & Hl). cbn [bind].
  assert (Hadv : ∀ a : AgentArtifact, match CompareVersions (aa_Version a) (uc_Version caps) with
      | Some cmp => (cmp <? 0) || ((cmp =? 0) && negb (bool_decide (aa_SHA256 a = uc_Sha256 caps))) | None => true end = false →
      advances a (uc_Version caps) (uc_Sha256 caps)).
  { intros a Ha. destruct (CompareVersions _ _) as [cmp|] eqn:E'; [|done]. exists cmp. split; [done|]. bool_hyps. z_hyps.
    destruct (decide (cmp = 0)) as [->|]; [right|left; lia]. split; [done|]. destruct (decide (aa_SHA256 a = uc_Sha256 caps)); [done|].
    by rewrite bool_decide_eq_false_2 in * by done. }
  jrun; try done; bool_hyps; apply bootstrap_pre; auto.
Qed.

(** *** The request of an update *)

(** A check that lets an update start shows a version that advances. *)
Definition ready (ck : AgentUpdateCheck) : Prop :=
  ck_BootstrapRequired ck = false → ck_Supported ck = true → ck_UpdateAvailable ck = true →
  ∃ c cmp, ck_Current ck = Some c ∧ CompareVersions (aa_Version (ck_Target ck)) (uc_Version c) = Some cmp ∧ 0 < cmp.

Lemma Check_spec K actor sid node : just (fun _ r => ∀ ck, r = Ok ck → ready ck) K (Check actor sid node).
Proof.
  unfold Check. jrun; try done; intros ck [= <-]; intros ? ? ?; cbn in *; try discriminate;
    (eexists _, _; split_and!; [done|done|by apply Z.ltb_lt]).
Qed.
Lemma Check_quiet actor sid node : quiet (Check actor sid node).
Proof. eapply quiet_of. intros K. apply Check_spec. Qed.

Lemma bootstrapArtifacts_quiet target archs : quiet (bootstrapArtifacts target archs).
Proof. induction archs as [|arch archs IH]; cbn [bootstrapArtifacts]; quietly. Qed.
Lemma assertionOk_quiet ck node idle : quiet (assertionOk ck node idle).
Proof. unfold assertionOk. quietly. Qed.

Lemma admitOperation_spec K op conn idle : begins (stored op) →
  just (fun K r => ∀ x, r = Ok x → K (FMade (stored op))) K (admitOperation op conn idle).
Proof. intros Hb. unfold admitOperation. jrun; first [done|by right|by cbn; intros]. Qed.
Lemma reserveMaintenance_just K op conn manual check : (∀ c, conn = Some c → ac_ServerID c = au_NodeID op) →
  (∀ K, just (fun K r => ∀ x, r = Ok x → K (FMade (stored op))) K check) → just (fun _ _ => True) K (reserveMaintenance conn (au_ID op) manual check).
Proof.
  intros Hn Hc. unfold reserveMaintenance. destruct conn as [c|]; [|exact I]. jrun.
  all: eapply just_bind; [apply Hc|]; intros K2 [x|] _ Hx; [|exact I]; cbn beta in Hx; jstep; try exact I.
  all: exists (stored op); split_and!; [by eapply Hx|done|by rewrite Hn].
Qed.

Lemma prepareOperation_spec K ck op : ck_BootstrapRequired ck = true ∨ (au_State op = "requested" ∧ op_advances op) →
  just (fun _ r => ∀ x, r = Ok x → begins (stored x.1) ∧ au_NodeID x.1 = au_NodeID op) K (prepareOperation ck op).
Proof.
  intros Hck. unfold prepareOperation. destruct (ck_BootstrapRequired ck).
  - expose. apply just_after_quiet; [apply bootstrapArtifacts_quiet|]. intros K1 [l|] _; [|done]. jstep; [|done]. intros x [= <-]. split; [by left|done].
  - intros x [= <-]. split; [right; by destruct Hck|done].
Qed.
Lemma dispatchOperation_just K op ticket conn idle : begins (stored op) → (∀ c, conn = Some c → ac_ServerID c = au_NodeID op) →
  just (fun _ _ => True) K (dispatchOperation op ticket conn idle).
Proof.
  intros Hb Hn. eapply just_bind; [apply reserveMaintenance_just; [done|intros; by apply admitOperation_spec]|]. intros K1 r _ _. apply quiet_anywhere.
  destruct r as [[]|e]; [|auto with updates].
  apply quiet_call; [done|]. intros [[]|]; cbn [bind]; [|auto with updates]. destruct (negb _); [auto with updates|].
  apply quiet_bind; [apply send_quiet, validateOperation_quiet|]. intros [[]|]; auto with updates.
Qed.

Lemma Start_quiet actor sid node version revision idle : quiet (Start actor sid node version revision idle).
Proof.
  intros K. unfold Start. eapply just_try; [apply Check_spec|done|]. intros K1 ck _ Hck. cbn beta in Hck. jstep; [exact I|].
  expose. apply just_after_quiet; [apply assertionOk_quiet|]. intros K2 [[]|] _; [|exact I].
  apply just_after_quiet; [auto 12 with updates|]. intros K3 [[]|] _; [|exact I]. jstep; [exact I|]. jstep; (jstep; [exact I|]); jstep; jstep.
  all: eapply just_try; [apply prepareOperation_spec|done|].
  all: try (intros K4 x _ [Hx Hxn]; apply dispatchOperation_just; [exact Hx|]; intros c Hcc; simplify_eq; by rewrite Hxn).
  all: destruct (ck_BootstrapRequired ck) eqn:Eb; [by left|right]; cbn in E0; bool_hyps; split; [done|].
  all: destruct (Hck Eb) as (c & cmp & Hc & Hv & Hpos); [done|done|]; unfold op_advances; cbn; rewrite Hc; exists cmp; auto.
Qed.

Lemma request_just rq (K : K_type) : (∀ node id, rq = RqAuthorize node id → ∃ n, K (FReserved id n)) → just (fun _ _ => True) K (handler rq).
Proof.
  intros Hi. destruct rq; cbn [handler].
  all: try (apply quiet_anywhere; unfold discard; apply quiet_bind; [|intros; apply quiet_ret];
            solve [auto using Check_quiet, Start_quiet, Status_quiet, AcknowledgeRecovery_quiet, DownloadUpdate_quiet, BootstrapUpdate_quiet,
                   ObserveCapabilities_quiet, ObserveStatus_quiet]).
  - eapply just_bind; [apply AuthorizeUpdate_just; eauto|done].
  - apply EndConnection_quiet.
Qed.

(** ** The table and the log *)

Definition written (f : fact) : option AgentUpdate := match f with FMade op | FPut op => Some op | _ => None end.
Fixpoint last_write (log : list fact) (id : string) : option AgentUpdate :=
  match log with
  | [] => None
  | f :: t => match written f with Some op => if bool_decide (au_ID op = id) then Some op else last_write t id | None => last_write t id end
  end.

(** Every write is a step of the protocol from the row as it is at that moment. *)
Fixpoint chained (log : list fact) : Prop :=
  match log with
  | [] => True
  | f :: t =>
      match f with
      | FMade op => last_write t (au_ID op) = None ∧ begins op
      | FPut op => ∃ cur, last_write t (au_ID op) = Some cur ∧ follows (au_State cur) (au_State op) = true ∧ same_operation cur op
      | _ => True
      end ∧ chained t
  end.

Lemma wrote_written (log : list fact) op : wrote (fun f => f ∈ log) op ↔ ∃ f, f ∈ log ∧ written f = Some op.
Proof.
  split; [intros [?|?]; eauto|]. intros (f & Hf & Hw). destruct f; try discriminate; cbn in Hw; simplify_eq; [by left|by right].
Qed.
Lemma last_write_wrote log id op : last_write log id = Some op → wrote (fun f => f ∈ log) op ∧ au_ID op = id.
Proof.
  rewrite wrote_written. induction log as [|f log IH]; cbn; [done|].
  assert (Ht : last_write log id = Some op → (∃ g, g ∈ f :: log ∧ written g = Some op) ∧ au_ID op = id).
  { intros (( g & ? & ?) & ?)%IH. split; [exists g; split; [by right|done]|done]. }
  destruct (written f) as [u|] eqn:E; [|done]. case_bool_decide; [|done]. intros [= ->]. split; [exists f; split; [by left|done]|done].
Qed.
Lemma wrote_last (log : list fact) op : wrote (fun f => f ∈ log) op → is_Some (last_write log (au_ID op)).
Proof.
  rewrite wrote_written. intros (f & Hf & Hw). induction log as [|g log IH]; [by apply not_elem_of_nil in Hf|]. cbn.
  apply elem_of_cons in Hf as [->|Hf].
  - rewrite Hw, bool_decide_eq_true_2 by done. eauto.
  - destruct (written g); [case_bool_decide|]; eauto.
Qed.
Lemma last_write_quiet (fs log : list fact) id : (∀ f, f ∈ fs → written f = None) → last_write (fs ++ log) id = last_write log id.
Proof.
  induction fs as [|f fs IH]; intros Hf; [done|]. cbn. rewrite (Hf f) by (by left). apply IH. intros g Hg. apply Hf. by right.
Qed.
Lemma chained_quiet (fs log : list fact) : (∀ f, f ∈ fs → written f = None) → chained log → chained (fs ++ log).
Proof.
  induction fs as [|f fs IH]; intros Hf Hc; [done|]. cbn. split; [|apply IH; [intros g Hg; apply Hf; by right|done]].
  specialize (Hf f ltac:(by left)). by destruct f.
Qed.

Definition at_ticket (op : AgentUpdate) : bool := bool_decide (au_State op = "bootstrap_required").
Lemma follows_leaves s s' : follows s s' = true → s' ≠ "bootstrap_required".
Proof. intros H ->. by cbn in H. Qed.

(** What was ever written of an operation agrees with its row. *)
Lemma chained_agree log u cur : chained log → wrote (fun f => f ∈ log) u → last_write log (au_ID u) = Some cur →
  if at_ticket cur then u = cur else at_ticket u = false → erased u = erased cur.
Proof.
  rewrite wrote_written. revert cur. induction log as [|f log IH]; intros cur Hc (g & Hg & Hw) Hl; [by apply not_elem_of_nil in Hg|].
  cbn in Hc, Hl. destruct Hc as [Hf Hc]. specialize (IH) with (1 := Hc).
  destruct (written f) as [op|] eqn:Ef.
  2: { apply IH; [|done]. exists g. split; [|done]. apply elem_of_cons in Hg as [->|?]; [congruence|done]. }
  case_bool_decide as Eid.
  - simplify_eq. destruct f; try discriminate; cbn in Ef; simplify_eq.
    + destruct Hf as [Hn Hb]. apply elem_of_cons in Hg as [->|Hg].
      * cbn in Hw. simplify_eq. by destruct (at_ticket _).
      * exfalso. destruct (wrote_last log u) as [x Hx]; [apply wrote_written; eauto|]. rewrite Eid in Hn. congruence.
    + destruct Hf as (cur' & Hn & Hfo & Hs). assert (Ht : at_ticket cur = false) by (apply bool_decide_eq_false; by apply (follows_leaves (au_State cur'))).
      rewrite Ht. intros Hu. apply elem_of_cons in Hg as [->|Hg]; [cbn in Hw; by simplify_eq|].
      rewrite Eid in Hn. specialize (IH cur' (ex_intro _ g (conj Hg Hw)) Hn). destruct (at_ticket cur') eqn:Et; [subst cur'; congruence|].
      rewrite (IH Hu). unfold same_operation in Hs. unfold at_ticket in Et. rewrite Et in Hs. done.
  - apply IH; [|done]. exists g. split; [|done]. apply elem_of_cons in Hg as [->|?]; [congruence|done].
Qed.

(** ** What holds of every state *)

Record consistent (w : World) : Prop := {
  c_ordered : ordered (w_log w);
  c_chained : chained (w_log w);
  c_table : ∀ id, w_rows w !! id = last_write (w_log w) id;
  c_shape : ∀ u, wrote (fun f => f ∈ w_log w) u → stored u = u ∧ legal (au_State u) = true;
  c_live : ∀ i j u v, w_rows w !! i = Some u → w_rows w !! j = Some v → Terminal u = false → Terminal v = false → au_NodeID u = au_NodeID v → i = j;
  c_filed : filed (mm_connections (w_memory w)) = true;
}.

Lemma stored_twice u : stored (stored u) = stored u.
Proof. unfold stored. cbn. f_equal. rewrite <- list_fmap_compose. apply list_fmap_ext. intros i x _. reflexivity. Qed.
Lemma follows_legal s s' : follows s s' = true → legal s' = true.
Proof.
  unfold follows, legal. intros H. apply bool_decide_eq_true.
  repeat match type of H with (if bool_decide ?P then _ else _) = _ => destruct (bool_decide_reflect P); [states|] end. bool_hyps. states.
Qed.
Lemma begins_legal u : begins u → legal (au_State u) = true.
Proof. intros [H|[H _]]; rewrite H; done. Qed.
Lemma set_Owner_same u v : au_ActorID v = au_ActorID u → au_SessionID v = au_SessionID u → set_Owner u (au_ActorID v) (au_SessionID v) = u.
Proof. intros -> ->. by destruct u. Qed.

(** Changes that do not depend on progress. *)
Lemma same_operation_of old cur op : au_State old = au_State cur → erased old = erased cur → same_operation old op → same_operation cur op.
Proof.
  intros Hs He. unfold same_operation. rewrite Hs. destruct (_ && _); [|by rewrite He].
  intros (a & v & r & s & b & Ho & Hv & Hr & Ha). exists a, v, r, s, b.
  change (erased (set_Ticket (set_Previous (set_Target cur a) v r s b) "")) with (set_Ticket (set_Previous (set_Target (erased cur) a) v r s b) "").
  change (erased (set_Ticket (set_Previous (set_Target old a) v r s b) "")) with (set_Ticket (set_Previous (set_Target (erased old) a) v r s b) "") in Ho.
  rewrite He in Ho. apply (f_equal au_Target) in He. cbn in He. by rewrite <- He.
Qed.
Lemma same_operation_owner cur op : same_operation cur op →
  au_ID op = au_ID cur ∧ au_NodeID op = au_NodeID cur ∧ au_ActorID op = au_ActorID cur ∧ au_SessionID op = au_SessionID cur.
Proof.
  unfold same_operation. destruct (_ && _).
  - intros (a & v & r & s & b & Ho & _). repeat split; [apply (f_equal au_ID) in Ho|apply (f_equal au_NodeID) in Ho|apply (f_equal au_ActorID) in Ho|apply (f_equal au_SessionID) in Ho]; exact Ho.
  - intros Ho. repeat split; [apply (f_equal au_ID) in Ho|apply (f_equal au_NodeID) in Ho|apply (f_equal au_ActorID) in Ho|apply (f_equal au_SessionID) in Ho]; exact Ho.
Qed.

Lemma known_wrote (log : list fact) u : ordered log → known (fun f => f ∈ log) u → wrote (fun f => f ∈ log) u.
Proof.
  intros Ho [H|H]; [done|]. induction log as [|f log IH]; [by apply not_elem_of_nil in H|]. destruct Ho as [Hf Ho].
  apply elem_of_cons in H as [<-|H].
  - cbn in Hf. eapply wrote_mono; [|exact Hf]. intros g Hg. by right.
  - eapply wrote_mono; [|by apply IH]. intros g Hg. by right.
Qed.

(** A write that the table accepts is a step of the protocol from the row as it is. *)
Lemma put_current w op previous rows' : consistent w → pre (CUpdate op previous) (fun f => f ∈ w_log w) →
  UpdateAgentUpdate (w_rows w) op previous = Ok rows' →
  ∃ cur, w_rows w !! au_ID op = Some cur ∧ au_State cur = previous ∧ follows previous (au_State op) = true ∧ same_operation cur (stored op)
         ∧ clashes (w_rows w) op = false ∧ rows' = <[au_ID op := stored op]> (w_rows w).
Proof.
  intros Hc (old & Hr & Hid & Hst & Hf & Hso & _) Hu. unfold UpdateAgentUpdate in Hu. destruct (w_rows w !! au_ID op) as [cur|] eqn:E; [|done].
  guards_in Hu. bool_hyps. simplify_eq. exists cur.
  assert (Hold : wrote (fun f => f ∈ w_log w) old) by (apply known_wrote; [apply Hc|done]).
  assert (Hagree : erased old = erased cur).
  { rewrite (c_table _ Hc), <- Hid in E. pose proof (chained_agree _ _ _ (c_chained _ Hc) Hold E) as Ha.
    unfold at_ticket in Ha. replace (au_State cur) with (au_State old) in Ha by congruence. destruct (bool_decide _); [by subst|by apply Ha]. }
  assert (Hcur : same_operation cur (stored op)) by (apply (same_operation_of old); [congruence|done|done]).
  split_and!; try done. destruct (same_operation_owner _ _ Hcur) as (_ & _ & Ha & Hs). f_equal. apply set_Owner_same; congruence.
Qed.

Lemma clashes_none rows u j v : clashes rows u = false → rows !! j = Some v → j ≠ au_ID u → Terminal u = false → Terminal v = false →
  au_NodeID v ≠ au_NodeID u.
Proof.
  intros Hc Hj Hne Hu Hv Hn. enough (clashes rows u = true) by congruence. unfold clashes. apply existsb_exists. exists (j, v).
  split; [by apply list_elem_of_In, elem_of_map_to_list|]. cbn. by rewrite (bool_decide_eq_false_2 (j = _)), Hu, Hv, (bool_decide_eq_true_2 (au_NodeID v = _)).
Qed.

(** A fact that is not a write. *)
Lemma consistent_note w fs : (∀ f, f ∈ fs → written f = None ∧ fact_ok (fun g => g ∈ w_log w) f) → consistent w → consistent (note w fs).
Proof.
  intros Hf [Ho Hch Ht Hs Hl Hfi]. split; cbn.
  - clear -Hf Ho. induction fs as [|f fs IH]; [done|]. cbn. split; [|apply IH; intros g Hg; apply Hf; by right].
    eapply fact_ok_more; [|apply (Hf f); by left]. intros g Hg. apply elem_of_app. by right.
  - apply chained_quiet; [|done]. intros f Hin. by apply Hf.
  - intros id. rewrite last_write_quiet; [done|]. intros f Hin. by apply Hf.
  - intros u Hu. apply Hs. apply wrote_written in Hu as (f & Hin & Hw). apply wrote_written. exists f. split; [|done].
    apply elem_of_app in Hin as [Hin|?]; [|done]. destruct (Hf f Hin). congruence.
  - done.
  - done.
Qed.

Lemma consistent_put w cur op : consistent w → w_rows w !! au_ID op = Some cur → follows (au_State cur) (au_State op) = true → same_operation cur (stored op) →
  clashes (w_rows w) op = false → fact_ok (fun f => f ∈ w_log w) (FPut (stored op)) →
  consistent (note (with_rows w (<[au_ID op := stored op]> (w_rows w))) [FPut (stored op)]).
Proof.
  intros [Ho Hch Ht Hs Hl Hfi] Hr Hf Hso Hcl Hok. split; cbn.
  - done.
  - split; [|done]. exists cur. split_and!; [by rewrite <- Ht|done|done].
  - intros id. case_bool_decide as Eid; cbn in Eid; [subst id; by rewrite lookup_insert_eq|]. by rewrite lookup_insert_ne.
  - intros u Hu. apply wrote_written in Hu as (f & Hin & Hw). apply elem_of_cons in Hin as [->|Hin]; [|apply Hs, wrote_written; eauto].
    cbn in Hw. simplify_eq. split; [apply stored_twice|by apply (follows_legal (au_State cur))].
  - intros i j u v Hi Hj Hu Hv Hn. apply lookup_insert_Some in Hi as [[<- <-]|[Hni Hi]]; apply lookup_insert_Some in Hj as [[<- <-]|[Hnj Hj]];
      [done| | |by eapply Hl].
    + exfalso. by eapply (clashes_none _ op j v).
    + exfalso. by eapply (clashes_none _ op i u).
  - done.
Qed.

Lemma consistent_made w op rows' order phase : consistent w → CreateAgentUpdate (w_rows w) op = Ok rows' → begins (stored op) →
  consistent (note (mkWorld rows' order (w_memory w) (w_log w) phase) [FMade (stored op)]).
Proof.
  intros [Ho Hch Ht Hs Hl Hfi] Hc Hb. unfold CreateAgentUpdate in Hc. guards_in Hc. bool_hyps. simplify_eq.
  assert (Hnone : w_rows w !! au_ID op = None) by (apply eq_None_not_Some; done). split; cbn.
  - by split.
  - split; [|done]. split; [by rewrite <- Ht|done].
  - intros id. case_bool_decide as Eid; cbn in Eid; [subst id; by rewrite lookup_insert_eq|]. by rewrite lookup_insert_ne.
  - intros u Hu. apply wrote_written in Hu as (f & Hin & Hw). apply elem_of_cons in Hin as [->|Hin]; [|apply Hs, wrote_written; eauto].
    cbn in Hw. simplify_eq. split; [apply stored_twice|by apply begins_legal].
  - intros i j u v Hi Hj Hu Hv Hn. apply lookup_insert_Some in Hi as [[<- <-]|[Hni Hi]]; apply lookup_insert_Some in Hj as [[<- <-]|[Hnj Hj]];
      [done| | |by eapply Hl].
    + exfalso. by eapply (clashes_none _ op j v).
    + exfalso. by eapply (clashes_none _ op i u).
  - done.
Qed.

(** ** A concrete history *)

Module Demo.
Definition node : string := "n".
Definition hash (c : string) : string := String.concat "" (replicate 64 c).
Definition old_version : string := "v1.0.0".
Definition new_version : string := "v1.1.0".
Definition target : AgentArtifact := mkArtifact "linux" "amd64" new_version "rev-2" (hash "b") 1000 "/agents/amd64".
Definition caps (version revision sha boot : string) : UpdateCapabilities :=
  mkCapabilities 1 "linux" "amd64" version revision sha boot true "" 1 0.
Definition conn (n : nat) : AgentConn := mkConn n node n "g".
Definition connected (n : nat) (cm : ConnManager) : ConnManager := set_streams cm {[ node := conn n ]}.
Definition admin : User :=
  mkUser "a" "ann" "" "" "admin" "local" "" "" "" None true None true 0 false 0 0 [] [] "" None false None 0 None None None None None None false None "" 0 0.
Definition session : Session := mkSession "s" "a" SessionKindWeb "" "" unix_epoch unix_epoch None None None "" None true "" None None.
Definition policy : Policy := Defaults.
(** Everything answers, the time is [t] seconds. *)
Definition fine (t : Z) : Oracle :=
  mkOracle None (unix_epoch + t * Second) "op-1" (Ok "ticket") (Ok admin) (Ok (mkEffective "a" "" [RoleAdmin] [])) (Ok policy) (Ok session) (Ok false)
    (Ok (mkServer None "online" (Some old_version))) (Ok target) (Ok tt) ([], None).
(** A request that runs to its end, as the [thread]-th. *)
Definition served (thread : nat) (t : Z) (rq : request) : list event := EStart rq :: replicate 60 (ECall thread (fine t)).
Definition original (boot : string) : UpdateCapabilities := caps old_version "rev-1" (hash "a") boot.
Definition updated (boot : string) : UpdateCapabilities := caps new_version "rev-2" (hash "b") boot.
Definition report (state : string) (c : UpdateCapabilities) : option AgentUpdateStatus :=
  Some (mkStatus "op-1" state (uc_Version c) (uc_Revision c) (uc_Sha256 c) (uc_BootId c)).

(** An update is requested and its installation authorized. *)
Definition installing : list event :=
  EConnections (connected 1 New) :: served 0 0 (RqCapabilities node 1 (Some (original "boot-000000000001")))
  ++ served 1 0 (RqStart "a" "s" node new_version "rev-2" (mkAssertion false "" (mkOriginal "" ""))) ++ served 2 1 (RqAuthorize node "op-1").
(** The agent is back with the target and confirms. *)
Definition succeeding : list event :=
  EConnections (set_maintenance (connected 2 New) {[ node := "op-1" ]}) :: served 3 30 (RqCapabilities node 2 (Some (updated "boot-000000000002")))
  ++ served 4 30 (RqReport node 2 (report "reconnecting" (updated "boot-000000000002")))
  ++ served 5 31 (RqReport node 2 (report "confirmed" (updated "boot-000000000002"))).
(** Later it is back with what it had, and stays silent. *)
Definition reopening : list event :=
  EConnections (connected 3 New) :: served 6 60 (RqCapabilities node 3 (Some (original "boot-000000000003")))
  ++ served 7 60 (RqReport node 3 (report "rolled_back" (original "boot-000000000003"))) ++ served 8 400 (RqStatus node "op-1").
End Demo.
