(* ===== verification/UpdateRuns.v ===== *)
(** What every run of the agent updates shows (UpdateProtocol.v): the table is
    the last write of each operation, every write is a step of the protocol with
    its reasons, and a node is held for as long as an installation is open. *)

From S2P Require Import Prelude Prog Codec Lockout Model Session Governance ConnMgr Version Terminal AgentUpdates UpdateProtocol.
Local Open Scope prog_scope.

(** ** Calls *)

Lemma row_facts w id u : consistent w → w_rows w !! id = Some u →
  wrote (fun f => f ∈ w_log w) u ∧ au_ID u = id ∧ stored u = u ∧ legal (au_State u) = true.
Proof.
  intros Hc. rewrite (c_table _ Hc). intros [Hw Hid]%last_write_wrote. destruct (c_shape _ Hc u Hw). done.
Qed.

Lemma ByTicket_row rows hash u : AgentUpdateByTicketHash rows hash = Ok u →
  ∃ id, rows !! id = Some u ∧ au_TicketHash u = hash ∧ au_State u = "bootstrap_required".
Proof.
  unfold AgentUpdateByTicketHash. destruct (filter _ _) as [|[id v] l] eqn:E; [done|]. intros [= <-].
  assert (H : (id, v) ∈ (id, v) :: l) by (by left). rewrite <- E in H. apply list_elem_of_filter in H as [Hp H].
  apply elem_of_map_to_list in H. eauto.
Qed.
Lemma Latest_row rows order node u : LatestAgentUpdate rows order node = Ok u → ∃ id, rows !! id = Some u ∧ au_NodeID u = node.
Proof.
  unfold LatestAgentUpdate. set (l := filter _ _).
  assert (Hl : ∀ v, v ∈ l → ∃ id, rows !! id = Some v ∧ au_NodeID v = node).
  { intros v [Hn Hv]%list_elem_of_filter. apply list_elem_of_omap in Hv as (id & _ & Hv). eauto. }
  generalize dependent l. intros l Hl.
  assert (Hf : ∀ best v, foldl (fun best u => match best with Some b => if au_CreatedAt b <? au_CreatedAt u then Some u else best | None => Some u end) best l = Some v →
    best = Some v ∨ v ∈ l).
  { clear. induction l as [|x l IH]; cbn; intros best v H; [by left|]. apply IH in H as [H|H]; [|right; by right].
    destruct best as [b|]; [destruct (_ <? _)|]; simplify_eq; [right; by left|by left|right; by left]. }
  destruct (foldl _ _ _) as [v|] eqn:E; [|done]. intros [= <-]. apply Hf in E as [?|?]; [done|auto].
Qed.

Lemma answer_keeps_log o w B (c : call B) : w_log (answer o w c).1 = w_log w.
Proof. destruct c; cbn [answer]; unfold on_table; repeat case_match; simplify_eq; done. Qed.

(** The maps of the connection manager the updates touch. *)
Lemma clearAbandoned_frame cm conn : cm_streams (clearAbandonedActivitiesLocked cm conn) = cm_streams cm
  ∧ cm_maintenance (clearAbandonedActivitiesLocked cm conn) = cm_maintenance cm.
Proof.
  unfold clearAbandonedActivitiesLocked. destruct (clearUncertain_frame (remove_keys cm (abandoned_keys cm conn)) (ac_ServerID conn)) as (-> & _ & -> & _).
  by destruct (remove_keys_frame cm (abandoned_keys cm conn)) as (-> & _ & -> & _).
Qed.
Lemma reserveCommit_frame cm conn id manual cm' r : reserveCommit cm conn id manual = (cm', r) →
  cm_streams cm' = cm_streams cm
  ∧ match r with Ok _ => maintenance_of cm (ac_ServerID conn) = "" ∧ cm_maintenance cm' = <[ac_ServerID conn := id]> (cm_maintenance cm) | Err _ => cm' = cm end.
Proof.
  unfold reserveCommit. intros H. destruct (negb (liveLocked _ _)); [by simplify_eq|]. destruct (negb _) eqn:E; [by simplify_eq|].
  destruct (activityIdleLocked _ _ _); simplify_eq; [|done]. bool_hyps. cbn. destruct manual; [|done].
  destruct (clearAbandoned_frame cm conn) as [H1 H2]. rewrite H2. done.
Qed.
Lemma ObserveActivity_frame cm node stream version count : let cm' := (ObserveActivityCapabilities cm node stream version count).1 in
  cm_streams cm' = cm_streams cm ∧ cm_maintenance cm' = cm_maintenance cm.
Proof.
  unfold ObserveActivityCapabilities, observeLocked. cbv zeta. repeat case_match; cbn; try done.
  match goal with |- context [clearUncertainLocked ?x ?n] => destruct (clearUncertain_frame x n) as (-> & _ & -> & _) end. done.
Qed.
Lemma Release_frame cm node id : cm_streams (ConnMgr.ReleaseMaintenance cm node id) = cm_streams cm.
Proof. unfold ConnMgr.ReleaseMaintenance. by case_bool_decide. Qed.

Lemma filed_same cm cm' : cm_streams cm' = cm_streams cm → filed cm' = filed cm.
Proof. unfold filed. by intros ->. Qed.

(** Only two calls write the table. *)
Definition writes_table {B} (c : call B) : bool := match c with CCreate _ | CUpdate _ _ => true | _ => false end.
Lemma answer_rows o w B (c : call B) : writes_table c = false → w_rows (answer o w c).1 = w_rows w.
Proof. destruct c; intros Hw; try discriminate; cbn [answer]; repeat case_match; simplify_eq; done. Qed.
Lemma answer_filed o w B (c : call B) : filed (mm_connections (w_memory (answer o w c).1)) = filed (mm_connections (w_memory w)).
Proof.
  destruct c; cbn [answer]; unfold on_table; try (repeat case_match; simplify_eq; done).
  - destruct (reserveCommit _ _ _ _) as [cm r] eqn:E. apply reserveCommit_frame in E as [E _]. destruct r; by apply filed_same.
  - apply filed_same, Release_frame.
  - destruct (ObserveActivityCapabilities _ _ _ _ _) as [cm r] eqn:E. apply filed_same. change cm with (cm, r).1. rewrite <- E. apply ObserveActivity_frame.
Qed.

Lemma consistent_frame w w' : w_rows w' = w_rows w → w_log w' = w_log w → filed (mm_connections (w_memory w')) = true →
  consistent w → consistent w'.
Proof. intros Hr Hlo Hf [? ? ? ? ? ?]. split; rewrite ?Hr, ?Hlo; done. Qed.

Lemma not_failing {A} o (r : result A) a : failing o r = Ok a → r = Ok a.
Proof. unfold failing. by destruct (o_fail o). Qed.

(** A row that is read was written and carries what rows carry. *)
Lemma read_facts o w (P : AgentUpdate → Prop) r : consistent w → (∀ u, r = Ok u → ∃ id, w_rows w !! id = Some u ∧ (au_ID u = id → P u)) →
  row_of P (failing o r) ∧ (∀ f, f ∈ ok_fact FRow (failing o r) → written f = None ∧ fact_ok (fun g => g ∈ w_log w) f).
Proof.
  intros Hc Hr. destruct (failing o r) as [u|] eqn:E; cbn; [|split; [done|intros f Hf; by apply not_elem_of_nil in Hf]].
  destruct (Hr u (not_failing _ _ _ E)) as (id & Hi & Hp). destruct (row_facts _ _ _ Hc Hi) as (Hw & Hid & Hs & Hl). split; [auto|].
  intros f ->%list_elem_of_singleton. done.
Qed.

Lemma answer_sound o w B (c : call B) : consistent w → writes_table c = false →
  sane c (answer o w c).2 ∧ (∀ f, f ∈ learned c (answer o w c).2 → written f = None ∧ fact_ok (fun g => g ∈ w_log w) f).
Proof.
  intros Hc Hw. destruct c; try discriminate; cbn [answer snd].
  all: try (apply read_facts; [done|]; intros u Hu).
  all: try (split; [exact I|]; cbn [learned]; unfold ok_fact; repeat case_match; cbn; intros f Hf;
            first [by apply not_elem_of_nil in Hf|apply list_elem_of_singleton in Hf as ->; done]).
  - exists id. unfold GetAgentUpdate in Hu. by case_match; simplify_eq.
  - destruct (Latest_row _ _ _ _ Hu) as (id & ? & ?). eauto.
  - destruct (ByTicket_row _ _ _ Hu) as (id & ? & ? & ?). eauto.
  - split; [|cbn; case_match; cbn; intros f Hf; [apply list_elem_of_singleton in Hf as ->|apply not_elem_of_nil in Hf]; done].
    cbn. unfold GetConn. destruct (cm_streams _ !! node) as [conn|] eqn:E; [|done]. destruct (conn_done _ _); [done|].
    pose proof (c_filed _ Hc) as Hf. apply bool_decide_eq_true in Hf. by apply (Hf node conn).
Qed.

(** A write the table accepts, with what it asks for. *)
Lemma update_consistent w op previous rows' : consistent w → pre (CUpdate op previous) (fun f => f ∈ w_log w) →
  UpdateAgentUpdate (w_rows w) op previous = Ok rows' → consistent (note (with_rows w rows') [FPut (stored op)]).
Proof.
  intros Hc Hp E. destruct (put_current _ _ _ _ Hc Hp E) as (cur & Hr & <- & Hf & Hs & Hcl & ->). apply (consistent_put _ cur); try done.
  destruct Hp as (old & Hold & Hid & _ & Hm). by exists old.
Qed.
Lemma consistent_silent w : consistent w → consistent (note w []).
Proof. apply consistent_note. intros f Hf. by apply not_elem_of_nil in Hf. Qed.

(** A call with what it asks for keeps the state consistent. *)
Lemma perform_consistent o w B (c : call B) : consistent w → pre c (fun f => f ∈ w_log w) → consistent (perform o w c).1.
Proof.
  intros Hc Hp. unfold perform. destruct (writes_table c) eqn:Ew.
  - destruct c; try discriminate; cbn [answer]; unfold on_table.
    + destruct (failing o (CreateAgentUpdate _ _)) as [rows'|e] eqn:E.
      * apply not_failing in E. exact (consistent_made w op rows' _ _ Hc E Hp).
      * eapply consistent_note; [|by eapply consistent_frame; [| |apply (c_filed _ Hc)|exact Hc]]. intros f ->%list_elem_of_singleton. done.
    + destruct (failing o (UpdateAgentUpdate _ _ _)) as [rows'|e] eqn:E; [|by apply consistent_silent].
      apply not_failing in E. by apply (update_consistent w op previous).
  - destruct (answer_sound o w B c Hc Ew) as [_ Hf]. pose proof (answer_keeps_log o w B c) as Hlo. pose proof (answer_rows o w B c Ew) as Hr.
    pose proof (answer_filed o w B c) as Hfi. destruct (answer o w c) as [w' b]. cbn in *. apply consistent_note; [by rewrite Hlo|].
    apply (consistent_frame w); try done. rewrite Hfi. apply (c_filed _ Hc).
Qed.
Lemma perform_sane o w B (c : call B) : consistent w → sane c (perform o w c).2.
Proof.
  intros Hc. unfold perform. destruct (writes_table c) eqn:Ew; [by destruct c|].
  destruct (answer_sound o w B c Hc Ew) as [Hs _]. by destruct (answer o w c).
Qed.
Lemma perform_log o w B (c : call B) : w_log (perform o w c).1 = learned c (perform o w c).2 ++ w_log w.
Proof. unfold perform. pose proof (answer_keeps_log o w B c) as H. destruct (answer o w c) as [w' b]. cbn in *. by rewrite H. Qed.

(** ** Restarts *)

Lemma restarted_pre (K : K_type) op now : known K op → stored op = op → legal (au_State op) = true → Terminal op = false →
  pre (CUpdate (restarted op now) (au_State op)) K.
Proof.
  intros Hk Hs Hl Ht. unfold restarted. destruct (updateInstallationIssued (au_State op)) eqn:E; [by apply lost_pre|].
  apply giveup_pre; try done. cbn. states.
Qed.

Definition restart_log (written : list AgentUpdate) (log : list fact) : list fact := (FPut ∘ stored <$> written) ++ log.

Lemma restartEach_consistent now writes active : ∀ n rows m written order log phase,
  consistent (mkWorld rows order m (restart_log written log) phase) →
  Forall (fun op => wrote (fun f => f ∈ log) op ∧ Terminal op = false) active →
  let '(rows', written', m') := restartEach now writes n active rows m written in
  consistent (mkWorld rows' order (default newMemory m') (restart_log written' log) phase).
Proof.
  induction active as [|op active IH]; intros n rows m written order log phase Hc Ha; cbn [restartEach]; [done|].
  apply Forall_cons in Ha as [[Hw Ht] Ha].
  destruct (if writes n then _ else _) as [rows'|] eqn:E; [|by eapply consistent_frame, Hc].
  destruct (writes n); [|discriminate]. apply IH; [|done].
  assert (Hlog : wrote (fun f => f ∈ restart_log written log) op) by (eapply wrote_mono; [|exact Hw]; intros f Hf; apply elem_of_app; by right).
  destruct (c_shape _ Hc op Hlog) as [Hs Hl].
  pose proof (update_consistent _ _ _ _ Hc (restarted_pre _ op (now n) (or_introl Hlog) Hs Hl Ht) E) as Hc'.
  eapply consistent_frame; [..|exact Hc']; [done|done|]. rewrite <- (c_filed _ Hc'). destruct (negb _); apply filed_same.
  - cbn. unfold ConnMgr.SetMaintenance. by case_bool_decide.
  - apply Release_frame.
Qed.

Lemma restart_consistent now writes w : consistent w → consistent (h_world (restart now writes w)).
Proof.
  intros Hc. unfold restart, NewAgentUpdates. destruct (32 <? _)%nat; cbn [h_world].
  { by eapply consistent_frame, Hc. }
  pose proof (restartEach_consistent now writes (take 33 (ActiveAgentUpdates (w_rows w))) 0 (w_rows w) newMemory [] (w_order w) (w_log w) ∅) as H.
  destruct (restartEach _ _ _ _ _ _ _) as [[rows written] m]. apply H.
  - by eapply consistent_frame, Hc.
  - apply Forall_take, Forall_forall. intros op [Ht Hin]%list_elem_of_filter. apply list_elem_of_fmap in Hin as ([id u] & -> & Hin).
    apply elem_of_map_to_list in Hin. split; [by apply (row_facts w id)|done].
Qed.
Lemma restart_log_grows now writes w : ∃ fs, w_log (h_world (restart now writes w)) = fs ++ w_log w.
Proof. unfold restart. destruct (NewAgentUpdates _ _ _) as [[rows written] m]. cbn. eauto. Qed.

(** ** Runs *)

Record sound (h : Hub) : Prop := {
  so_consistent : consistent (h_world h);
  so_threads : Forall (fun p => just (fun _ _ => True) (fun f => f ∈ w_log (h_world h)) p) (h_threads h);
}.

Lemma just_more {A} (K K' : K_type) (p : prog A) : knows_le K K' → just (fun _ _ => True) K p → just (fun _ _ => True) K' p.
Proof. apply justified_weaken; [|done]. intros B c K1 K2 Hle. by apply pre_more. Qed.

Lemma starting_sound : sound starting.
Proof. split; [|constructor]. split; cbn; try done. intros u [H|H]; by apply not_elem_of_nil in H. Qed.

Lemma estep_sound h e : sound h → sound (estep h e).
Proof.
  intros [Hc Ht]. assert (Hstop : sound h) by done.
  destruct e as [rq|n o|cm|ts|now writes]; cbn [estep]; [..|by split; [apply restart_consistent|unfold restart; destruct (NewAgentUpdates _ _ _) as [[??]?]; constructor]].
  all: destruct (h_up h); [|done]; cbn [negb].
  - destruct (informed _ _) eqn:Ei; [|done]. split; [done|]. apply Forall_app; split; [done|]. apply Forall_singleton, request_just.
    intros node id ->. cbn in Ei. apply existsb_exists in Ei as (f & Hf & Hi). destruct f; try discriminate. bool_hyps. subst. exists node0. by apply list_elem_of_In.
  - destruct (h_threads h !! n) as [[|B c k]|] eqn:En; [done| |done]. destruct (fresh_ok o _ c); [|done].
    destruct (Forall_lookup_1 _ _ _ _ Ht En) as [Hp Hk].
    pose proof (perform_consistent o _ _ c Hc Hp) as Hc'. pose proof (perform_sane o (h_world h) _ c Hc) as Hs. pose proof (perform_log o (h_world h) _ c) as Hl.
    destruct (perform o (h_world h) c) as [w' b]. cbn in *. split; [done|]. cbn. rewrite Hl. apply Forall_insert.
    + eapply Forall_impl; [exact Ht|]. intros p. apply just_more. intros f Hf. apply elem_of_app. by right.
    + eapply just_more; [|by apply Hk]. intros f [Hf|Hf]; apply elem_of_app; auto.
  - destruct (_ && _) eqn:E; [|done]. bool_hyps. split; [|done]. by eapply consistent_frame, Hc.
  - destruct (bool_decide _); [|done]. split; [|done]. by eapply consistent_frame, Hc; [..|apply (c_filed _ Hc)].
Qed.
Lemma erun_sound es : ∀ h, sound h → sound (erun h es).
Proof. induction es as [|e es IH]; intros h Hh; [done|]. cbn. by apply IH, estep_sound. Qed.
Lemma run_consistent es : consistent (h_world (erun starting es)).
Proof. apply erun_sound, starting_sound. Qed.

(** ** The protocol of the table *)

(** The specification: a table of operations, where one begins, or one that is
    there takes a step of the protocol and stays the same operation. *)
Inductive protocol_step (rows : gmap string AgentUpdate) : gmap string AgentUpdate → Prop :=
| Begin op : rows !! au_ID op = None → begins op → protocol_step rows (<[au_ID op := op]> rows)
| Move cur op : rows !! au_ID op = Some cur → follows (au_State cur) (au_State op) = true → same_operation cur op →
    protocol_step rows (<[au_ID op := op]> rows).
Definition one_live (rows : gmap string AgentUpdate) : Prop := ∀ i j u v,
  rows !! i = Some u → rows !! j = Some v → Terminal u = false → Terminal v = false → au_NodeID u = au_NodeID v → i = j.

Definition replay (log : list fact) : gmap string AgentUpdate :=
  foldr (fun f rows => match written f with Some op => <[au_ID op := op]> rows | None => rows end) ∅ log.
Lemma lookup_replay log id : replay log !! id = last_write log id.
Proof.
  induction log as [|f log IH]; [done|]. cbn. destruct (written f) as [op|]; [|done]. case_bool_decide; subst; [by rewrite lookup_insert_eq|].
  by rewrite lookup_insert_ne.
Qed.
Lemma chained_steps fs log : chained (fs ++ log) → rtc protocol_step (replay log) (replay (fs ++ log)).
Proof.
  induction fs as [|f fs IH]; intros Hc; [done|]. destruct Hc as [Hf Hc]. etrans; [by apply IH|]. cbn.
  destruct f; cbn; try done; apply rtc_once.
  - destruct Hf as [Hn Hb]. apply Begin; [by rewrite lookup_replay|done].
  - destruct Hf as (cur & Hn & Hfo & Hs). apply (Move _ cur); [by rewrite lookup_replay|done|done].
Qed.
Lemma consistent_replay w : consistent w → w_rows w = replay (w_log w).
Proof. intros Hc. apply map_eq. intros id. by rewrite lookup_replay, (c_table _ Hc). Qed.

Lemma estep_log h e : ∃ fs, w_log (h_world (estep h e)) = fs ++ w_log (h_world h).
Proof.
  destruct e as [rq|n o|cm|ts|now writes]; cbn [estep]; [..|apply restart_log_grows]. all: destruct (h_up h); [cbn [negb]|by exists []].
  all: try (repeat case_match; by exists []).
  destruct (h_threads h !! n) as [[|B c k]|]; [by exists []| |by exists []]. destruct (fresh_ok _ _ _); [|by exists []].
  pose proof (perform_log o (h_world h) _ c) as Hl. destruct (perform _ _ _) as [w' b]. cbn in *. eauto.
Qed.
Lemma erun_log es : ∀ h, ∃ fs, w_log (h_world (erun h es)) = fs ++ w_log (h_world h).
Proof.
  induction es as [|e es IH]; intros h; [by exists []|]. change (erun h (e :: es)) with (erun (estep h e) es). destruct (IH (estep h e)) as [fs ->], (estep_log h e) as [gs ->].
  exists (fs ++ gs). by rewrite app_assoc.
Qed.
Lemma run_app h es1 es2 : erun h (es1 ++ es2) = erun (erun h es1) es2.
Proof. apply foldl_app. Qed.

(** C9. Whatever the requests, their interleaving, failures and restarts do, the
    table of updates moves by steps of the protocol alone: an operation begins
    with a ticket or with a version that advances, each change is one the protocol
    allows from the state the row is in, the rest of the operation stays, and a
    node never has two live operations. *)
Theorem update_refines_protocol es1 es2 :
  rtc protocol_step (w_rows (h_world (erun starting es1))) (w_rows (h_world (erun starting (es1 ++ es2))))
  ∧ one_live (w_rows (h_world (erun starting (es1 ++ es2)))).
Proof.
  pose proof (run_consistent es1) as H1. pose proof (run_consistent (es1 ++ es2)) as H2. split; [|exact (c_live _ H2)].
  rewrite (consistent_replay _ H1), (consistent_replay _ H2), run_app. rewrite run_app in H2.
  destruct (erun_log es2 (erun starting es1)) as [fs E]. rewrite E. apply chained_steps. rewrite <- E. apply H2.
Qed.

(** ** Installations *)

Lemma ordered_at l1 f l2 : ordered (l1 ++ f :: l2) → fact_ok (fun g => g ∈ l2) f.
Proof. induction l1 as [|g l1 IH]; cbn; [by intros [? _]|intros [_ ?]; auto]. Qed.
Lemma chained_tail l1 l2 : chained (l1 ++ l2) → chained l2.
Proof. induction l1 as [|g l1 IH]; cbn; [done|intros [_ ?]; auto]. Qed.

(** States that come after an installation. *)
Definition installed (s : string) : bool :=
  updateInstallationIssued s || bool_decide (s ∈ ["succeeded"; "rolled_back"; "recovery_acknowledged"]).
Lemma follows_installed s s' : follows s s' = true → installed s' = true → s' ≠ "installing" → installed s = true ∧ s ≠ "bootstrap_required" ∧ s' ≠ "requested".
Proof.
  intros H H' Hn.
  assert (Hs' : s' ∈ ["unknown"; "confirmation_pending"; "rollback_confirmation_pending"; "succeeded"; "rolled_back"; "recovery_acknowledged"]).
  { apply orb_true_iff in H' as [H'|H']; apply bool_decide_eq_true in H'; states. }
  assert (Hs : s ∈ ["installing"; "unknown"; "confirmation_pending"; "rollback_confirmation_pending"; "succeeded"]).
  { clear H' Hn. unfold follows, updateInstallationIssued in H.
    repeat match type of H with (if bool_decide ?P then _ else _) = _ => destruct (bool_decide_reflect P) end.
    all: rewrite ?orb_true_iff, ?andb_true_iff, ?bool_decide_eq_true in H; rewrite ?list_elem_of_In in H; states. }
  split_and!; [each_state Hs|states|states].
Qed.

Lemma was_installed log op : chained log → last_write log (au_ID op) = Some op → installed (au_State op) = true →
  ∃ inst, FPut inst ∈ log ∧ au_State inst = "installing" ∧ erased inst = erased op.
Proof.
  intros Hc Hl Hi. remember (au_ID op) as id eqn:Eid.
  assert (Hgen : ∀ u, last_write log id = Some u → installed (au_State u) = true → ∃ inst, FPut inst ∈ log ∧ au_State inst = "installing" ∧ erased inst = erased u).
  2: { eauto. }
  clear op Hl Hi Eid. induction log as [|f log IH]; intros u Hl Hi; [done|]. destruct Hc as [Hf Hc]. cbn in Hl.
  assert (Hold : last_write log id = Some u → ∃ inst, FPut inst ∈ f :: log ∧ au_State inst = "installing" ∧ erased inst = erased u).
  { intros Hu. destruct (IH Hc u Hu Hi) as (inst & ? & ?). exists inst. split; [by right|done]. }
  destruct (written f) as [op|] eqn:Ef; [|auto]. case_bool_decide; [|auto]. simplify_eq. destruct f; try discriminate; cbn in Ef; simplify_eq.
  - destruct Hf as [_ [E|[E _]]]; rewrite E in Hi; discriminate.
  - destruct Hf as (cur & Hcur & Hfo & Hs). destruct (decide (au_State u = "installing")) as [E|E]; [exists u; split; [by left|done]|].
    destruct (follows_installed _ _ Hfo Hi E) as (Hic & Hnb & Hnr). destruct (IH Hc cur Hcur Hic) as (inst & Hin & Hst & He).
    exists inst. split_and!; [by right|done|]. unfold same_operation in Hs. rewrite bool_decide_eq_false_2 in Hs by done. cbn in Hs. congruence.
Qed.

(** What an agent says it runs is the artifact. *)
Definition runs_exactly (c : UpdateCapabilities) (a : AgentArtifact) : Prop :=
  uc_Version c = aa_Version a ∧ uc_Revision c = aa_Revision a ∧ uc_Sha256 c = aa_SHA256 a.
Lemma runsTarget_exactly op c : runsTarget op c = true → runs_exactly c (au_Target op) ∧ uc_BootId c ≠ au_PreviousBootID op.
Proof. unfold runsTarget. intros H. bool_hyps. done. Qed.

(** C11. An update is reported as done only when the enrolled agent itself runs
    exactly the target - version, revision and digest - after a restart, of an
    operation whose installation was authorized with that target. *)
Theorem success_is_exact es l1 op l2 :
  w_log (h_world (erun starting es)) = l1 ++ FPut op :: l2 → au_State op = "succeeded" →
  (∃ c, FCapabilities (au_NodeID op) c ∈ l2 ∧ runs_exactly c (au_Target op) ∧ uc_BootId c ≠ au_PreviousBootID op) ∧ au_ObservedSHA256 op = aa_SHA256 (au_Target op)
  ∧ ∃ inst, FPut inst ∈ l2 ∧ au_State inst = "installing" ∧ erased inst = erased op.
Proof.
  intros Hl Hs. destruct (run_consistent es) as [Ho Hc _ _ _ _]. rewrite Hl in Ho, Hc. apply ordered_at in Ho as (old & _ & _ & _ & _ & _ & Ht & Hobs & _).
  split_and!; [destruct Ht as (c & ? & ?%runsTarget_exactly); [rewrite Hs; states|eauto]|auto|]. apply chained_tail in Hc.
  destruct (was_installed (FPut op :: l2) op) as (inst & Hin & Hst & He); [done|cbn; by rewrite bool_decide_eq_true_2|by rewrite Hs|].
  exists inst. split_and!; [|done|done]. apply elem_of_cons in Hin as [[= ->]|?]; [congruence|done].
Qed.

Lemma success_is_exact_witness : ∃ op l2, w_log (h_world (erun starting (Demo.installing ++ Demo.succeeding))) = FPut op :: l2 ∧ au_State op = "succeeded"
  ∧ ∃ c, FCapabilities "n" c ∈ l2 ∧ runs_exactly c (au_Target op) ∧ uc_BootId c ≠ au_PreviousBootID op.
Proof.
  eassert (Hl : w_log (h_world (erun starting (Demo.installing ++ Demo.succeeding))) = [] ++ FPut _ :: _) by (vm_compute; reflexivity).
  eexists _, _. split; [exact Hl|]. split; [reflexivity|]. exact (proj1 (success_is_exact (Demo.installing ++ Demo.succeeding) [] _ _ Hl eq_refl)).
Defined.

(** States of an operation that an agent may carry out, or has. *)
Definition offered (s : string) : bool := installed s || bool_decide (s ∈ ["requested"; "downloading"]).
Lemma follows_offered s s' : follows s s' = true → offered s' = true → s' ≠ "requested" → offered s = true.
Proof.
  intros H H' Hn. unfold offered in *. apply orb_true_iff in H' as [H'|H'].
  - destruct (decide (s' = "installing")) as [->|E].
    + apply orb_true_iff. right. exact H.
    + destruct (follows_installed _ _ H H' E) as (-> & _). done.
  - bool_hyps. each_state H'. change (bool_decide (s = "requested") = true) in H. by apply bool_decide_eq_true in H as ->.
Qed.
Lemma advances_erased u v : erased u = erased v → op_advances u → op_advances v.
Proof.
  intros He. unfold op_advances. pose proof (f_equal au_Target He) as H1. pose proof (f_equal au_PreviousVersion He) as H2.
  pose proof (f_equal au_PreviousSHA256 He) as H3. cbn in H1, H2, H3. by rewrite H1, H2, H3.
Qed.
Lemma offered_advances log id u : chained log → last_write log id = Some u → offered (au_State u) = true → op_advances u.
Proof.
  revert u. induction log as [|f log IH]; intros u [Hf Hc] Hl Ho || intros u Hc Hl Ho; [done|]. cbn in Hl.
  destruct (written f) as [op|] eqn:Ef; [|auto]. case_bool_decide; [|auto]. simplify_eq. destruct f; try discriminate; cbn in Ef; simplify_eq.
  - destruct Hf as [_ [E|[_ E]]]; [by rewrite E in Ho|done].
  - destruct Hf as (cur & Hcur & Hfo & Hs). unfold same_operation in Hs. destruct (_ && _) eqn:E.
    + destruct Hs as (a & v & r & s & b & He & _ & _ & Ha). eapply advances_erased; [symmetry; exact He|]. exact Ha.
    + eapply advances_erased; [symmetry; exact Hs|]. apply IH; [done|done|]. eapply follows_offered; [exact Hfo|done|].
      intros E'. rewrite E' in E, Hfo. change (bool_decide (au_State cur = "bootstrap_required") = true) in Hfo. rewrite Hfo in E. discriminate.
Qed.

(** C12. No operation that an agent may carry out lowers the version of a node or
    replaces a version by another build of it. *)
Theorem update_never_downgrades es id u : w_rows (h_world (erun starting es)) !! id = Some u → offered (au_State u) = true → op_advances u.
Proof.
  pose proof (run_consistent es) as Hc. rewrite (c_table _ Hc). apply offered_advances, Hc.
Qed.

Lemma update_never_downgrades_witness : ∃ u, w_rows (h_world (erun starting Demo.installing)) !! "op-1" = Some u ∧ op_advances u.
Proof.
  eexists. split; [vm_compute; reflexivity|]. apply (update_never_downgrades Demo.installing "op-1"); [vm_compute; reflexivity|reflexivity].
Defined.
