(* ===== verification/UpdateAuthority.v ===== *)
(** Who authorizes an installation: the runs of UpdateProtocol.v, watched so that
    every fact is known with the request that learned it.

    A request has a number, which no other request has, also after a restart of the
    hub; [wt_log] is the log of a run with these numbers, and [mine] what one request
    has learned, the latest first. *)

From S2P Require Import Prelude Prog Codec Lockout Model Session Governance ConnMgr Version Terminal AgentUpdates UpdateProtocol UpdateRuns.
Local Open Scope prog_scope.

(** ** Watched runs *)

Record Watched := mkWatched { wt_hub : Hub; wt_ids : list nat; wt_next : nat; wt_log : list (nat * fact) }.

(** The call that an event makes, if it makes one. *)
Definition called (h : Hub) (e : event) : option (nat * list fact) :=
  match e with
  | ECall n o =>
      match (if h_up h then h_threads h !! n else None : option (prog unit)) with
      | Some (Call c k) => if fresh_ok o (h_world h) c then Some (n, learned c (perform o (h_world h) c).2) else None
      | _ => None
      end
  | _ => None
  end.
Definition wstep (t : Watched) (e : event) : Watched :=
  let h := wt_hub t in
  let h' := estep h e in
  match e with
  | ERestart _ _ => mkWatched h' [] (wt_next t) (wt_log t)
  | EStart rq => if h_up h && informed (h_world h) rq then mkWatched h' (wt_ids t ++ [wt_next t]) (S (wt_next t)) (wt_log t) else mkWatched h' (wt_ids t) (wt_next t) (wt_log t)
  | _ =>
      mkWatched h' (wt_ids t) (wt_next t)
        match called h e with
        | Some (n, fs) => match wt_ids t !! n with Some q => map (pair q) fs ++ wt_log t | None => wt_log t end
        | None => wt_log t
        end
  end.
Definition wrun (es : list event) : Watched := foldl wstep (mkWatched starting [] 0 []) es.

(** Watching does not change the run. *)
Lemma watched_same es : wt_hub (wrun es) = erun starting es.
Proof.
  unfold wrun, erun. change starting with (wt_hub (mkWatched starting [] 0 [])) at 2. generalize (mkWatched starting [] 0 []).
  induction es as [|e es IH]; intros t; [done|]. cbn [foldl]. rewrite IH. f_equal. destruct e; cbn [wstep wt_hub]; try done. by destruct (_ && _).
Qed.

(** What request [q] has learned. *)
Definition mine (q : nat) (log : list (nat * fact)) : list fact := (filter (fun x => x.1 = q) log).*2.
Lemma mine_own q fs log : mine q (map (pair q) fs ++ log) = fs ++ mine q log.
Proof.
  unfold mine. induction fs as [|f fs IH]; [done|]. cbn [map app]. rewrite filter_cons_True by done. cbn. by f_equal.
Qed.
Lemma mine_other q r fs log : q ≠ r → mine q (map (pair r) fs ++ log) = mine q log.
Proof. intros Hn. unfold mine. induction fs as [|f fs IH]; [done|]. cbn [map app]. rewrite filter_cons_False by (cbn; congruence). done. Qed.

(** ** What an installation is written with *)

(** The checks of the origin, of its time and of the administrator come after the artifact
    was looked up and compared, and the audit entry was written. *)
Definition certifies (seen : list fact) (op : AgentUpdate) : Prop :=
  ∃ later a earlier, seen = later ++ FArtifact a :: earlier ∧ sameArtifact a (au_Target op) = true
    ∧ at_origin (fun f => f ∈ later) op ∧ authorized (fun f => f ∈ later) (au_ActorID op) (au_SessionID op) (au_NodeID op)
    ∧ ∃ next, stored next = op ∧ FAudit next "installation_authorized" ∈ later.

Definition ask {B} (c : call B) (seen : list fact) : Prop :=
  match c with CUpdate op _ => au_State op = "installing" → certifies seen (stored op) | _ => True end.
(** A program that has learned [seen] writes an installation only when it may. *)
Fixpoint certified {A} (Q : list fact → A → Prop) (seen : list fact) (p : prog A) : Prop :=
  match p with
  | Ret a => Q seen a
  | Call c k => ask c seen ∧ ∀ b, sane c b → certified Q (learned c b ++ seen) (k b)
  end.
Lemma certified_bind {A B} (Q : list fact → A → Prop) (R : list fact → B → Prop) seen (p : prog A) (f : A → prog B) :
  certified Q seen p → (∀ s a, Q s a → certified R s (f a)) → certified R seen (bind p f).
Proof.
  revert seen. induction p as [a|C c k IH]; intros seen; cbn; [auto|]. intros [Ha Hk] Hf. split; [done|]. auto.
Qed.
Lemma certified_mono {A} (Q R : list fact → A → Prop) seen (p : prog A) : (∀ s a, Q s a → R s a) → certified Q seen p → certified R seen p.
Proof. intros HQ. revert seen. induction p as [a|C c k IH]; intros seen; cbn; [auto|]. intros [Ha Hk]. split; [done|]. auto. Qed.

(** Programs that write no installation. *)
Definition harmless_call (B : Type) (c : call B) : bool := match c with CUpdate op _ => negb (bool_decide (au_State op = "installing")) | _ => true end.
Abbreviation plain_ := (plain harmless_call (fun _ => True)) (only parsing).
Lemma harmless_ask {B} (c : call B) seen : harmless_call B c = true → ask c seen.
Proof. destruct c; cbn; try done. intros H E. by rewrite bool_decide_eq_true_2 in H. Qed.
(** What they have learned since. *)
Lemma plain_learned {A} (Q : K_type → A → Prop) (p : prog A) base : plain_ p → (∀ K K' a, knows_le K K' → Q K a → Q K' a) →
  just Q (fun _ => False) p → certified (fun s a => ∃ l, s = l ++ base ∧ Q (fun f => f ∈ l) a) base p.
Proof.
  intros Hp Hm Hj.
  assert (Hgen : ∀ l K, knows_le K (fun f => f ∈ l) → just Q K p → certified (fun s a => ∃ l, s = l ++ base ∧ Q (fun f => f ∈ l) a) (l ++ base) p).
  2: { apply (Hgen [] (fun _ => False)); [by intros f []|done]. }
  clear Hj. induction p as [a|C c k IH]; intros l K Hle Hj; cbn in *; [exists l; split; [done|by eapply Hm]|].
  destruct Hp as [Hc Hk], Hj as [_ Hj]. split; [by apply harmless_ask|]. intros b Hb. rewrite app_assoc. eapply IH; [apply Hk| |by apply Hj].
  intros f [Hf|Hf]; apply elem_of_app; [right; by apply Hle|by left].
Qed.
Lemma plain_certified {A} seen (p : prog A) : plain_ p → certified (fun _ _ => True) seen p.
Proof. revert seen. induction p as [a|C c k IH]; intros seen; cbn; [done|]. intros [Hc Hk]. split; [by apply harmless_ask|]. auto. Qed.

(** ** The programs *)

Lemma plain_after {A B} (p : prog A) (f : A → prog B) : plain_ p → (∀ a, plain_ (f a)) → plain_ (bind p f).
Proof. intros Hp Hf. by eapply plain_bind; [exact Hp|auto]. Qed.
Create HintDb plain.
#[export] Hint Resolve plain_after : plain.
#[export] Hint Extern 1 (plain _ _ (Ret _)) => exact I : plain.
#[export] Hint Extern 3 (plain _ _ (Call _ _)) => split; [first [reflexivity|assumption]|intros ?] : plain.
#[export] Hint Extern 2 (plain _ _ (match ?x with _ => _ end)) => destruct x : plain.
Ltac pstep :=
  expose;
  lazymatch goal with
  | |- plain _ _ (Ret _) => exact I
  | |- plain _ _ (Call _ _) => split; [first [reflexivity|assumption|solve [cbn [harmless_call]; case_match; reflexivity]]|intros ?]
  | |- plain _ _ (bind (match ?x with _ => _ end) _) => destruct x eqn:?
  | |- plain _ _ (bind _ _) => apply plain_after; [solve [auto 12 with plain nocore]|intros ?]
  | |- plain _ _ (match ?x with _ => _ end) => destruct x eqn:?
  | |- plain _ _ _ => solve [auto 12 with plain nocore]
  end.
Ltac plainly := repeat pstep.

Lemma authorizeAdmin_plain actor sid : plain_ (authorizeAdmin actor sid).
Proof. unfold authorizeAdmin. plainly. Qed.
#[export] Hint Resolve authorizeAdmin_plain : plain.
Lemma authorize_plain actor sid node : plain_ (authorize actor sid node).
Proof. unfold authorize. plainly. Qed.
Lemma validateOrigin_plain op : plain_ (validateOrigin op).
Proof. unfold validateOrigin. plainly. Qed.
Lemma artifact_plain os arch : plain_ (artifact os arch).
Proof. unfold artifact. plainly. Qed.
Lemma release_plain op : plain_ (release op).
Proof. unfold release. plainly. Qed.
#[export] Hint Resolve authorize_plain validateOrigin_plain artifact_plain release_plain : plain.
Lemma validateOperation_plain op : plain_ (validateOperation op).
Proof. unfold validateOperation. plainly. Qed.
Lemma finishBeforeInstall_plain op reason : plain_ (finishBeforeInstall op reason).
Proof. unfold finishBeforeInstall. plainly. Qed.
Lemma Status_plain node id : plain_ (Status node id).
Proof. unfold Status. plainly. Qed.
#[export] Hint Resolve validateOperation_plain finishBeforeInstall_plain Status_plain : plain.
Lemma Check_plain actor sid node : plain_ (Check actor sid node).
Proof. unfold Check. plainly. Qed.
Lemma validateOriginalAssertion_plain node o : plain_ (validateOriginalAssertion node o).
Proof. unfold validateOriginalAssertion. plainly. Qed.
#[export] Hint Resolve Check_plain validateOriginalAssertion_plain : plain.
Lemma bootstrapArtifacts_plain target archs : plain_ (bootstrapArtifacts target archs).
Proof. induction archs as [|arch archs IH]; cbn [bootstrapArtifacts]; plainly. Qed.
Lemma assertionOk_plain ck node idle : plain_ (assertionOk ck node idle).
Proof. unfold assertionOk. plainly. Qed.
#[export] Hint Resolve bootstrapArtifacts_plain assertionOk_plain : plain.
Lemma prepareOperation_plain ck op : plain_ (prepareOperation ck op).
Proof. unfold prepareOperation. plainly. Qed.
Lemma admitOperation_plain op conn idle : plain_ (admitOperation op conn idle).
Proof. unfold admitOperation. plainly. Qed.
Lemma reserveMaintenance_plain conn id manual check : plain_ check → plain_ (reserveMaintenance conn id manual check).
Proof. intros Hc. unfold reserveMaintenance. plainly. Qed.
Lemma send_plain conn msg check : plain_ check → plain_ (SendToConnectionChecked conn msg check).
Proof. intros Hc. unfold SendToConnectionChecked. plainly. Qed.
#[export] Hint Resolve prepareOperation_plain admitOperation_plain reserveMaintenance_plain send_plain : plain.
Lemma dispatchOperation_plain op ticket conn idle : plain_ (dispatchOperation op ticket conn idle).
Proof. unfold dispatchOperation. plainly. Qed.
#[export] Hint Resolve dispatchOperation_plain : plain.
Lemma Start_plain actor sid node version revision idle : plain_ (Start actor sid node version revision idle).
Proof. unfold Start. plainly. Qed.
Lemma AcknowledgeRecovery_plain actor sid node id hash : plain_ (AcknowledgeRecovery actor sid node id hash).
Proof. unfold AcknowledgeRecovery. plainly. Qed.
Lemma sendArtifact_plain fuel op size offset : plain_ (sendArtifact fuel op size offset).
Proof. revert offset. induction fuel as [|fuel IH]; intros offset; cbn [sendArtifact]; plainly. Qed.
#[export] Hint Resolve sendArtifact_plain : plain.
Lemma DownloadUpdate_plain node id : plain_ (DownloadUpdate node id).
Proof. unfold DownloadUpdate. plainly. Qed.
Lemma ObserveCapabilities_plain node stream c : plain_ (ObserveCapabilities node stream c).
Proof. unfold ObserveCapabilities. plainly. Qed.
Lemma EndConnection_plain node stream : plain_ (EndConnection node stream).
Proof. unfold EndConnection. plainly. Qed.
Lemma BootstrapUpdate_plain node ticket c asserted : plain_ (BootstrapUpdate node ticket c asserted).
Proof. unfold BootstrapUpdate. plainly. Qed.

Lemma confirmOperation_plain op c final : negb (bool_decide (final = "installing")) = true → plain_ (confirmOperation op c final).
Proof. intros Hf. unfold confirmOperation. plainly. Qed.
Lemma reconnectOperation_plain conn op c confirmation pending : negb (bool_decide (pending = "installing")) = true →
  plain_ (reconnectOperation conn op c confirmation pending).
Proof. intros Hf. unfold reconnectOperation. plainly. Qed.
Lemma ObserveStatus_plain node stream value : plain_ (ObserveStatus node stream value).
Proof.
  unfold ObserveStatus. plainly.
  - apply confirmOperation_plain. unfold confirmedState in *. repeat case_match; by simplify_eq.
  - apply reconnectOperation_plain. unfold reconnectedState in *. repeat case_match; by simplify_eq.
Qed.

(** A fallible program that is plain, and what it has learned when it succeeds. *)
Lemma plain_spec {A} (R : K_type → A → Prop) (p : prog (result A)) base : plain_ p → (∀ K K' a, knows_le K K' → R K a → R K' a) →
  (∀ K, just (fun K r => ∀ a, r = Ok a → R K a) K p) →
  certified (fun s r => ∀ a, r = Ok a → ∃ l, s = l ++ base ∧ R (fun f => f ∈ l) a) base p.
Proof.
  intros Hp Hm Hj. assert (H := plain_learned (fun K r => ∀ a, r = Ok a → R K a) p base Hp ltac:(intros K K' r Hle Hr a Ha; by eapply Hm, Hr) (Hj _)).
  eapply certified_mono; [|exact H]. intros s r (l & -> & Hl) a Ha. exists l. split; [done|by apply Hl].
Qed.

Lemma AuthorizeUpdate_certified seen node id : certified (fun _ _ => True) seen (AuthorizeUpdate node id).
Proof.
  unfold AuthorizeUpdate. expose. split; [exact I|]. intros [op|e] _; [|exact I]. cbn [bind]. case_match; [exact I|].
  eapply certified_bind; [apply plain_certified; auto 12 with plain nocore|]. intros s1 [[]|] _; [|exact I].
  eapply certified_bind with (Q := fun s r => ∀ a, r = Ok a → FArtifact a ∈ s).
  { eapply certified_bind; [apply (plain_spec (fun K a => K (FArtifact a))); [apply artifact_plain|by auto|intros; apply artifact_spec]|].
    intros s [a|e] Ha; cbn; [|done]. intros x [= <-]. destruct (Ha a eq_refl) as (l & -> & Hl). apply elem_of_app. by left. }
  intros s2 [a|e] Ha; [|exact I]. destruct (sameArtifact a (au_Target op)) eqn:Es; [|exact I]. cbn [negb].
  destruct (list_elem_of_split _ _ (Ha a eq_refl)) as (x & y & ->). clear Ha.
  eapply certified_bind with (Q := fun _ _ => True); [|intros s [[]|] _; exact I].
  eapply certified_bind with (Q := fun _ _ => True); [|intros s [[]|] _; exact I].
  eapply certified_bind; [apply (plain_spec (fun K _ => at_origin K op)); [apply validateOrigin_plain|intros K K' _ Hle; apply (at_origin_mono Hle)|intros; apply validateOrigin_spec]|].
  intros s3 [[]|] Ho; [|exact I]. destruct (Ho tt eq_refl) as (lo & -> & Hor). clear Ho.
  eapply certified_bind; [apply (plain_spec (fun K _ => authorized K (au_ActorID op) (au_SessionID op) (au_NodeID op)));
    [apply authorize_plain|intros K K' _ Hle; apply (authorized_mono Hle)|intros; apply authorize_spec]|].
  intros s4 [[]|] Hu; [|exact I]. destruct (Hu tt eq_refl) as (lu & -> & Hau). clear Hu. case_match; [exact I|].
  expose. split; [exact I|]. intros now _. split; [exact I|]. intros [[]|] _; [|exact I]. split; [|by intros].
  intros _. set (next := set_Updated _ _). cbn [learned ok_fact app].
  exists ([FAudit next "installation_authorized"; FNow now] ++ lu ++ lo ++ x), a, y. split_and!.
  - cbn. by rewrite <- !app_assoc.
  - exact Es.
  - eapply (at_origin_mono (K := fun f => f ∈ lo)); [intros f Hf; rewrite !elem_of_app; auto|exact Hor].
  - eapply (authorized_mono (K := fun f => f ∈ lu)); [intros f Hf; rewrite !elem_of_app; auto|exact Hau].
  - exists next. split; [done|]. by left.
Qed.

Lemma handler_certified rq seen : certified (fun _ _ => True) seen (handler rq).
Proof.
  destruct rq; cbn [handler].
  all: try (apply plain_certified; unfold discard; apply plain_after; [|intros; exact I];
            solve [auto using Check_plain, Start_plain, Status_plain, AcknowledgeRecovery_plain, DownloadUpdate_plain, BootstrapUpdate_plain,
                   ObserveCapabilities_plain, ObserveStatus_plain]).
  - eapply certified_bind; [apply AuthorizeUpdate_certified|done].
  - apply plain_certified, EndConnection_plain.
Qed.

(** ** Every run *)

(** Installations of the log were certified by what their request had learned. *)
Fixpoint vouched (log : list (nat * fact)) : Prop :=
  match log with
  | [] => True
  | x :: t => (∀ op, x.2 = FPut op → au_State op = "installing" → certifies (mine x.1 t) op) ∧ vouched t
  end.
Record watching (t : Watched) : Prop := {
  wg_vouched : vouched (wt_log t);
  wg_length : length (wt_ids t) = length (h_threads (wt_hub t));
  wg_fresh : ∀ q, q ∈ wt_ids t → (q < wt_next t)%nat;
  wg_apart : NoDup (wt_ids t);
  wg_threads : ∀ n q p, wt_ids t !! n = Some q → h_threads (wt_hub t) !! n = Some p → certified (fun _ _ => True) (mine q (wt_log t)) p;
}.

Lemma vouched_app q fs log : vouched log → (∀ op, FPut op ∈ fs → au_State op = "installing" → certifies (mine q log) op) → (length fs ≤ 1)%nat →
  vouched (map (pair q) fs ++ log).
Proof.
  intros Hl Hf Hn. destruct fs as [|f [|]]; cbn in *; [done| |lia]. split; [|done]. intros op -> . apply Hf. by left.
Qed.
Lemma learned_one {B} (c : call B) b : (length (learned c b) ≤ 1)%nat.
Proof. destruct c; cbn; unfold ok_fact; repeat case_match; cbn; lia. Qed.
Lemma learned_put {B} (c : call B) b op seen : FPut op ∈ learned c b → ask c seen → au_State op = "installing" → certifies seen op.
Proof.
  destruct c; cbn; unfold ok_fact; repeat case_match; intros Hin; first [by apply not_elem_of_nil in Hin|apply list_elem_of_singleton in Hin; simplify_eq].
  intros Ha. exact Ha.
Qed.

(** The threads of a hub, after an event that is not a restart. *)
Lemma step_watching t e : sound (wt_hub t) → watching t → watching (wstep t e).
Proof.
  intros Hso [Hv Hl Hf Hd Ht]. destruct e as [rq|n o|cm|ts|now writes]; cbn [wstep].
  - cbn [estep]. destruct (h_up (wt_hub t)) eqn:Eu; cbn [negb andb]; [|done]. destruct (informed _ rq) eqn:Ei; [|done]. split; cbn; try done.
    + rewrite !length_app. cbn. lia.
    + intros q [Hq|Hq%list_elem_of_singleton]%elem_of_app; [apply Hf in Hq; lia|lia].
    + apply NoDup_app. split_and!; [done| |apply NoDup_singleton]. intros q Hq ->%list_elem_of_singleton. apply Hf in Hq. lia.
    + intros m q p Hq [Hp|[Hge Hp]]%lookup_app_Some.
      * apply lookup_app_Some in Hq as [Hq|[Hge _]]; [by eapply Ht|]. apply lookup_lt_Some in Hp. lia.
      * apply list_lookup_singleton_Some in Hp as [_ <-]. apply handler_certified.
  - unfold called. cbn [estep]. destruct (h_up (wt_hub t)) eqn:Eu; cbn [negb]; [|done]. destruct (h_threads (wt_hub t) !! n) as [[a|B c k]|] eqn:En; [done| |done].
    destruct (fresh_ok o _ c); [|done]. pose proof (perform_sane o (h_world (wt_hub t)) _ c (so_consistent _ Hso)) as Hs.
    destruct (perform o (h_world (wt_hub t)) c) as [w b]. cbn [snd] in *.
    destruct (lookup_lt_is_Some_2 (wt_ids t) n) as [q Hq]; [rewrite Hl; by eapply lookup_lt_Some|]. rewrite Hq. destruct (Ht _ _ _ Hq En) as [Ha Hk].
    split; cbn [wt_hub wt_ids wt_next wt_log h_threads].
    + apply vouched_app; [done| |apply learned_one]. intros op Hin Hst. by apply (learned_put c b).
    + by rewrite length_insert.
    + done.
    + done.
    + intros m r p Hr [(-> & <- & _)|[Hne Hp]]%list_lookup_insert_Some.
      * rewrite Hr in Hq. injection Hq as ->. rewrite mine_own. by apply Hk.
      * rewrite mine_other; [by eapply Ht|]. intros ->. apply Hne. by eapply NoDup_lookup.
  - cbn [estep called]. destruct (h_up (wt_hub t)); cbn [negb]; [|done]. by destruct (_ && _).
  - cbn [estep called]. destruct (h_up (wt_hub t)); cbn [negb]; [|done]. by destruct (bool_decide _).
  - split; cbn; try done; [|by intros ? ?%not_elem_of_nil|apply NoDup_nil_2]. unfold restart. by destruct (NewAgentUpdates _ _ _) as [[??]?].
Qed.
Lemma wrun_snoc es e : wrun (es ++ [e]) = wstep (wrun es) e.
Proof. unfold wrun. by rewrite foldl_app. Qed.
Lemma wrun_watching es : watching (wrun es).
Proof.
  induction es as [|e es IH] using rev_ind; [split; cbn; try done; [by intros ? ?%not_elem_of_nil|apply NoDup_nil_2]|].
  rewrite wrun_snoc. apply step_watching; [|done]. rewrite watched_same. apply erun_sound, starting_sound.
Qed.
Lemma vouched_at l1 x l2 : vouched (l1 ++ x :: l2) → ∀ op, x.2 = FPut op → au_State op = "installing" → certifies (mine x.1 l2) op.
Proof. induction l1 as [|y l1 IH]; cbn; [by intros [? _]|intros [_ ?]; auto]. Qed.

(** C10. An installation is authorized only by a request that has itself checked
    everything the authorization rests on.  When request [q] writes that the
    installation of an operation is authorized, then of what this request had learned
    before: it had looked up the artifact of the distribution and found it to be the
    target; later than that, it had found the connection the operation was admitted on
    to be the node's current one and the time of the operation not to be over, and the
    administrator to be live, interactive, with the role, outside governance and with
    an enrolled node that is online; and it had written the audit entry of the
    authorization.  This holds whatever other requests did before, the one that
    started the operation included, and across restarts of the hub. *)
Theorem install_is_authorized es l1 q op l2 :
  wt_log (wrun es) = l1 ++ (q, FPut op) :: l2 → au_State op = "installing" →
  ∃ later a earlier, mine q l2 = later ++ FArtifact a :: earlier ∧ sameArtifact a (au_Target op) = true
    ∧ at_origin (fun f => f ∈ later) op ∧ authorized (fun f => f ∈ later) (au_ActorID op) (au_SessionID op) (au_NodeID op)
    ∧ ∃ next, stored next = op ∧ FAudit next "installation_authorized" ∈ later.
Proof.
  intros Hl Hs. pose proof (wg_vouched _ (wrun_watching es)) as Hv. rewrite Hl in Hv. exact (vouched_at _ _ _ Hv op eq_refl Hs).
Qed.

Lemma install_is_authorized_witness : ∃ q op l2, wt_log (wrun Demo.installing) = (q, FPut op) :: l2 ∧ au_ID op = "op-1"
  ∧ ∃ later a earlier, mine q l2 = later ++ FArtifact a :: earlier ∧ sameArtifact a (au_Target op) = true.
Proof.
  eassert (Hl : wt_log (wrun Demo.installing) = [] ++ (_, FPut _) :: _) by (vm_compute; reflexivity).
  eexists _, _, _. split; [exact Hl|]. split; [reflexivity|].
  destruct (install_is_authorized Demo.installing [] _ _ _ Hl eq_refl) as (later & a & earlier & H1 & H2 & _). exists later, a, earlier. split; [exact H1|exact H2].
Defined.
