(* ===== verification/UpdateMaintenance.v ===== *)
(** A node that is being updated does nothing else: as long as an installation is
    open, the connection manager and the terminal registry hold the node for the
    operation.  The argument is one of ownership: the request that drew an
    identifier is the only one to reserve terminals or to create a row with it. *)

From S2P Require Import Prelude Prog Codec Lockout Model Session Governance ConnMgr Version Terminal AgentUpdates UpdateProtocol UpdateRuns.
Local Open Scope prog_scope.

(** ** Ownership of identifiers *)

(** The identifier a request has drawn, and how far it has come. *)
Abbreviation own := (option (string * phase)) (only parsing).

Definition own_pre {B} (c : call B) (m : own) : Prop :=
  match c with
  | CUUID => m = None
  | CTermReserve node id => m = Some (id, PFresh)
  | CCreate op => m = Some (au_ID op, PHeld (au_NodeID op))
  | _ => True
  end.
Definition own_next {B} (c : call B) (m : own) : B → own :=
  match c in call B return B → own with
  | CUUID => fun id => Some (id, PFresh)
  | CTermReserve node id => fun r => match r with Ok _ => Some (id, PHeld node) | Err _ => m end
  | CCreate op => fun r => Some (au_ID op, match r with Ok _ => PCreated | Err _ => PRefused end)
  | _ => fun _ => m
  end.
(** Programs that use no identifier of their own. *)
Definition free {B} (c : call B) : bool := match c with CUUID | CTermReserve _ _ | CCreate _ => false | _ => true end.
Abbreviation owning := (Prog.owning (@own_pre) (@own_next)).
Abbreviation plain := (Prog.plain (@free)).
Abbreviation idle := (Prog.plain (@free) (fun _ => True)).

Lemma free_pre B (c : call B) m : free c = true → own_pre c m.
Proof. by destruct c. Qed.
Lemma free_next B (c : call B) m b : free c = true → own_next c m b = m.
Proof. by destruct c. Qed.
Lemma past {A B} (R : A → Prop) m (p : prog A) (f : A → prog B) : plain R p → (∀ a, R a → owning m (f a)) → owning m (bind p f).
Proof. apply plain_owning; [apply free_pre|apply free_next]. Qed.
Lemma idle_own {A} m (p : prog A) : idle p → owning m p.
Proof. apply Prog.idle_owning; [apply free_pre|apply free_next]. Qed.
Lemma idle_bind {A B} (p : prog A) (f : A → prog B) : idle p → (∀ a, idle (f a)) → idle (bind p f).
Proof. intros. by eapply plain_bind. Qed.

Create HintDb idle.
Ltac idly :=
  repeat (expose;
    lazymatch goal with
    | |- Prog.plain _ _ (Call _ _) => split; [reflexivity|intros ?]
    | |- Prog.plain _ _ (bind _ _) => apply idle_bind; [|intros ?]
    | |- Prog.plain _ _ (match ?x with _ => _ end) => destruct x
    | |- Prog.plain _ (fun _ => True) (Ret _) => exact I
    | |- Prog.plain _ _ _ => solve [auto with idle nocore]
    end).

Lemma authorize_idle actor sid node : idle (authorize actor sid node).
Proof. unfold authorize, authorizeAdmin. idly. Qed.
#[export] Hint Resolve authorize_idle : idle.
Lemma validateOrigin_idle op : idle (validateOrigin op).
Proof. unfold validateOrigin. idly. Qed.
#[export] Hint Resolve validateOrigin_idle : idle.
Lemma validateOperation_idle op : idle (validateOperation op).
Proof. unfold validateOperation. idly. Qed.
Lemma artifact_idle os arch : idle (artifact os arch).
Proof. unfold artifact. idly. Qed.
Lemma validateOriginalAssertion_idle node o : idle (validateOriginalAssertion node o).
Proof. unfold validateOriginalAssertion. idly. Qed.
Lemma release_idle op : idle (release op).
Proof. unfold release. idly. Qed.
#[export] Hint Resolve validateOperation_idle artifact_idle validateOriginalAssertion_idle release_idle : idle.
Lemma finishBeforeInstall_idle op reason : idle (finishBeforeInstall op reason).
Proof. unfold finishBeforeInstall. idly. Qed.
Lemma Status_idle node id : idle (Status node id).
Proof. unfold Status. idly. Qed.
Lemma Check_idle actor sid node : idle (Check actor sid node).
Proof. unfold Check. idly. Qed.
Lemma assertionOk_idle ck node a : idle (assertionOk ck node a).
Proof. unfold assertionOk. idly. Qed.
Lemma bootstrapArtifacts_idle target archs : idle (bootstrapArtifacts target archs).
Proof. induction archs as [|arch archs IH]; cbn [bootstrapArtifacts]; idly. Qed.
Lemma checked_send_idle conn msg check : idle check → idle (SendToConnectionChecked conn msg check).
Proof. intros Hc. unfold SendToConnectionChecked. idly. Qed.
Lemma sendArtifact_idle fuel op size offset : idle (sendArtifact fuel op size offset).
Proof. revert offset. induction fuel as [|fuel IH]; intros offset; cbn [sendArtifact]; idly. Qed.
#[export] Hint Resolve finishBeforeInstall_idle Status_idle Check_idle assertionOk_idle bootstrapArtifacts_idle checked_send_idle sendArtifact_idle : idle.
Lemma confirmOperation_idle op c final : idle (confirmOperation op c final).
Proof. unfold confirmOperation. idly. Qed.
Lemma reconnectOperation_idle conn op c confirmation pending : idle (reconnectOperation conn op c confirmation pending).
Proof. unfold reconnectOperation. cbv zeta. idly. apply checked_send_idle. exact I. Qed.
#[export] Hint Resolve confirmOperation_idle reconnectOperation_idle : idle.
#[export] Hint Extern 1 (Prog.plain _ (fun _ => True) (Ret _)) => exact I : idle.

(** *** The request of an update *)

Lemma prepareOperation_keeps ck op :
  plain (fun r => ∀ x, r = Ok x → au_ID x.1 = au_ID op ∧ au_NodeID x.1 = au_NodeID op) (prepareOperation ck op).
Proof.
  unfold prepareOperation. destruct (ck_BootstrapRequired ck); [|by intros x [= <-]]. expose.
  eapply plain_bind; [apply bootstrapArtifacts_idle|]. intros [l|] _; [|by intros x]. expose. split; [done|]. intros [ticket|]; intros x [= <-]. done.
Qed.
Lemma admitOperation_owning op conn a : owning (Some (au_ID op, PFresh)) (admitOperation op conn a).
Proof.
  unfold admitOperation. expose. eapply past; [apply authorize_idle|]. intros [[]|] _; [|exact I].
  eapply past; [apply (fun H => H : idle _); idly|]. intros [[]|] _; [|exact I].
  eapply past; [apply (fun H => H : idle _); idly|]. intros [[]|] _; [|exact I].
  split; [done|]. intros put. cbn. destruct (negb put); [exact I|]. split; [done|]. intros [[]|]; cbn.
  - split; [done|]. intros [[]|]; cbn; [exact I|]. by repeat split.
  - by repeat split.
Qed.
Lemma Start_owning actor sid node version revision a : owning None (Start actor sid node version revision a).
Proof.
  unfold Start. expose. eapply past; [apply Check_idle|]. intros [ck|] _; [|exact I]. destruct (_ || _); [exact I|].
  eapply past; [apply assertionOk_idle|]. intros [[]|] _; [|exact I].
  eapply past; [apply (fun H => H : idle _); idly|]. intros [[]|] _; [|exact I]. destruct (_ && _); [exact I|].
  split; [done|]. intros conn. cbn. destruct (_ && _); [exact I|]. split; [done|]. intros now. split; [done|]. intros id. cbn.
  eapply past; [apply prepareOperation_keeps|]. intros [x|] Hx; [|exact I]. destruct (Hx x eq_refl) as [Hid _]. cbn in Hid. rewrite <- Hid.
  unfold dispatchOperation. apply owning_bind.
  - unfold reserveMaintenance. destruct conn as [c|]; [|exact I]. split; [done|]. intros cur. cbn. destruct (negb _); [exact I|].
    split; [done|]. intros d. cbn. destruct d; [exact I|]. split; [done|]. intros act. cbn. destruct (negb _); [exact I|].
    split; [done|]. intros [[]|]; cbn; [|exact I]. apply owning_bind; [apply admitOperation_owning|]. intros m [[]|]; [|exact I]. by repeat split.
  - intros m r. apply idle_own. idly.
Qed.

Lemma request_owning rq : owning None (handler rq).
Proof.
  destruct rq; cbn [handler]; try (apply idle_own; unfold discard; idly; fail).
  - apply owning_bind; [apply Start_owning|done].
  - apply idle_own. unfold AcknowledgeRecovery. idly.
  - apply idle_own. unfold DownloadUpdate. idly.
  - apply idle_own. unfold AuthorizeUpdate. idly.
  - apply idle_own. unfold BootstrapUpdate. idly.
  - apply idle_own. unfold ObserveCapabilities. idly.
  - apply idle_own. unfold ObserveStatus. idly.
  - apply idle_own. unfold EndConnection. idly.
Qed.

(** ** What lasts and what is held *)

Definition node_of (w : World) (id : string) : option string := au_NodeID <$> w_rows w !! id.
Definition ended (log : list fact) (id : string) : Prop := ∃ u, wrote (fun f => f ∈ log) u ∧ au_ID u = id ∧ Terminal u = true.

(** Of the table and the identifiers; it outlives the hub. *)
Record lasting (w : World) : Prop := {
  l_drawn : ∀ id ph, w_phase w !! id = Some ph → FId id ∈ w_log w;
  l_name : ∀ id, FId id ∈ w_log w → id ≠ "";
  l_rows : ∀ id n, node_of w id = Some n → FId id ∈ w_log w;
  l_refused : ∀ id, FRefused id ∈ w_log w → FId id ∈ w_log w ∧ node_of w id = None ∧ (w_phase w !! id = None ∨ w_phase w !! id = Some PRefused);
  l_early : ∀ id ph, w_phase w !! id = Some ph → ph = PFresh ∨ (∃ n, ph = PHeld n) → node_of w id = None;
  l_reserved : ∀ id n, FReserved id n ∈ w_log w → node_of w id = Some n;
}.
(** Of the memory of a running hub. *)
Record holding (w : World) : Prop := {
  k_held : ∀ id n, w_phase w !! id = Some (PHeld n) → maintenance_id (mm_terminals (w_memory w)) n = id;
  k_terminals : ∀ id n, node_of w id = Some n → ¬ ended (w_log w) id → maintenance_id (mm_terminals (w_memory w)) n = id;
  k_connections : ∀ id n, FReserved id n ∈ w_log w → ¬ ended (w_log w) id → maintenance_of (mm_connections (w_memory w)) n = id;
}.
(** Each request owns what it has drawn. *)
Abbreviation owned w ms threads := (Prog.owned (@own_pre) (@own_next) (w_phase w) ms threads).

Lemma ended_more fs log id : ended log id → ended (fs ++ log) id.
Proof. intros (u & Hw & ?). exists u. split; [|done]. eapply wrote_mono; [|exact Hw]. intros f Hf. apply elem_of_app. by right. Qed.

(** Writes of rows that are there leave the nodes. *)
Definition makes (f : fact) : bool := match f with FMade _ => true | _ => false end.
Lemma nodes_kept fs log id : chained (fs ++ log) → (∀ f, f ∈ fs → makes f = false) →
  au_NodeID <$> last_write (fs ++ log) id = au_NodeID <$> last_write log id.
Proof.
  induction fs as [|f fs IH]; intros Hc Hm; [done|]. destruct Hc as [Hf Hc]. cbn. rewrite <- IH by (try done; intros g Hg; apply Hm; by right).
  specialize (Hm f ltac:(by left)). destruct f; try done. cbn. case_bool_decide; [|done]. destruct Hf as (cur & Hcur & _ & Hs). subst id. rewrite Hcur. cbn.
  f_equal. apply (same_operation_owner _ _ Hs).
Qed.
Lemma node_of_kept w w' fs : consistent w → consistent w' → w_log w' = fs ++ w_log w → (∀ f, f ∈ fs → makes f = false) → ∀ id, node_of w' id = node_of w id.
Proof.
  intros Hc Hc' Hl Hm id. unfold node_of. rewrite (c_table _ Hc), (c_table _ Hc'), Hl. apply nodes_kept; [|done]. rewrite <- Hl. apply Hc'.
Qed.

(** Facts the invariants speak of. *)
Definition about (f : fact) : bool := match f with FId _ | FRefused _ | FReserved _ _ => true | _ => false end.
Lemma about_old (fs log : list fact) f : (∀ g, g ∈ fs → about g = false) → about f = true → f ∈ fs ++ log → f ∈ log.
Proof. intros Hf Ha [H|H]%elem_of_app; [apply Hf in H; congruence|done]. Qed.

Lemma lasting_frame w w' fs : (∀ id, node_of w' id = node_of w id) → w_phase w' = w_phase w → w_log w' = fs ++ w_log w →
  (∀ f, f ∈ fs → about f = false) → lasting w → lasting w'.
Proof.
  intros Hn Hp Hl Hf [H1 H2 H3 H4 H5 H6]. split; rewrite ?Hp, ?Hl; setoid_rewrite Hn || idtac.
  - intros id ph H. apply elem_of_app. right. eauto.
  - intros id H. apply (H2 id). by eapply about_old.
  - intros id n H. apply elem_of_app. right. eauto.
  - intros id H. destruct (H4 id) as (? & ? & ?); [by eapply about_old|]. split_and!; [apply elem_of_app; by right|done|done].
  - done.
  - intros id n H. apply H6. by eapply about_old.
Qed.
Lemma holding_frame w w' fs : (∀ id, node_of w' id = node_of w id) → w_phase w' = w_phase w → w_log w' = fs ++ w_log w → (∀ f, f ∈ fs → about f = false) →
  (∀ n, maintenance_id (mm_terminals (w_memory w')) n = maintenance_id (mm_terminals (w_memory w)) n) →
  (∀ n, maintenance_of (mm_connections (w_memory w')) n = maintenance_of (mm_connections (w_memory w)) n) → holding w → holding w'.
Proof.
  intros Hn Hp Hl Hf Ht Hm [H1 H2 H3]. split; rewrite ?Hp, ?Hl.
  - intros id n. rewrite Ht. apply H1.
  - intros id n. rewrite Hn, Ht. intros Hi He. apply H2; [done|]. intros Hx. by apply He, ended_more.
  - intros id n Hi He. rewrite Hm. apply H3; [by eapply about_old|]. intros Hx. by apply He, ended_more.
Qed.

Lemma lasting_silent w w' : w_rows w' = w_rows w → w_phase w' = w_phase w → w_log w' = w_log w → lasting w → lasting w'.
Proof. intros Hr Hp Hl. apply (lasting_frame w w' []); try done; [intros id; unfold node_of; by rewrite Hr|]. intros f Hf. by apply not_elem_of_nil in Hf. Qed.
Lemma holding_silent w w' : w_rows w' = w_rows w → w_phase w' = w_phase w → w_log w' = w_log w →
  ts_maintenance (mm_terminals (w_memory w')) = ts_maintenance (mm_terminals (w_memory w)) →
  cm_maintenance (mm_connections (w_memory w')) = cm_maintenance (mm_connections (w_memory w)) → holding w → holding w'.
Proof.
  intros Hr Hp Hl Ht Hm. apply (holding_frame w w' []); try done; [intros id; unfold node_of; by rewrite Hr| | |].
  - intros f Hf. by apply not_elem_of_nil in Hf.
  - intros n. unfold maintenance_id. by rewrite Ht.
  - intros n. unfold maintenance_of. by rewrite Hm.
Qed.

Lemma wrote_node w u : consistent w → wrote (fun f => f ∈ w_log w) u → node_of w (au_ID u) = Some (au_NodeID u).
Proof.
  intros Hc Hw. unfold node_of. rewrite (c_table _ Hc). pose proof (c_chained _ Hc) as Hch. clear Hc. apply wrote_written in Hw as (f & Hf & Hw).
  revert Hf Hch. generalize (w_log w) as log. clear w. induction log as [|g log IH]; intros Hf Hc; [by apply not_elem_of_nil in Hf|].
  apply elem_of_cons in Hf as [->|Hf]; [cbn; by rewrite Hw, bool_decide_eq_true_2|]. destruct Hc as [Hg Hc]. specialize (IH Hf Hc).
  destruct (makes g) eqn:Em.
  - destruct g; try discriminate. destruct Hg as [Hn _]. cbn. case_bool_decide as E; [|done]. rewrite <- E, Hn in IH. discriminate.
  - rewrite (nodes_kept [g] log) ; [done|by split|]. by intros h ->%list_elem_of_singleton.
Qed.
Lemma ended_node w id : consistent w → ended (w_log w) id → node_of w id ≠ None.
Proof. intros Hc (u & Hw & <- & _). by rewrite (wrote_node w u). Qed.
Lemma over_ended w id : consistent w → over (fun f => f ∈ w_log w) id → ended (w_log w) id.
Proof. intros Hc (u & Hk & ? & ?). exists u. split; [apply known_wrote; [apply Hc|done]|done]. Qed.

(** Releases of one node for one operation. *)
Lemma release_of cm node id n : maintenance_of (ConnMgr.ReleaseMaintenance cm node id) n = maintenance_of cm n ∨ (n = node ∧ maintenance_of cm n = id).
Proof.
  unfold ConnMgr.ReleaseMaintenance. case_bool_decide; [|by left]. destruct (decide (n = node)) as [->|]; [by right|left].
  unfold maintenance_of. cbn. by rewrite lookup_delete_ne.
Qed.
Lemma release_id ts node id n : maintenance_id (ReleaseMaintenance ts node id) n = maintenance_id ts n ∨ (n = node ∧ maintenance_id ts n = id).
Proof.
  unfold ReleaseMaintenance. case_bool_decide; [|by left]. destruct (decide (n = node)) as [->|]; [by right|left]. by rewrite maintenance_id_delete.
Qed.
Lemma reserve_of cm conn id manual cm' x n : reserveCommit cm conn id manual = (cm', Ok x) →
  maintenance_of cm' n = if bool_decide (n = ac_ServerID conn) then id else maintenance_of cm n.
Proof.
  intros [_ [_ H]]%reserveCommit_frame. unfold maintenance_of. rewrite H. case_bool_decide; subst; [by rewrite lookup_insert_eq|by rewrite lookup_insert_ne].
Qed.
Lemma reserve_id ts node id ts' x : ReserveMaintenance ts node id = (ts', Ok x) →
  maintenance_id ts node = "" ∧ ∀ n, maintenance_id ts' n = if bool_decide (n = node) then id else maintenance_id ts n.
Proof.
  unfold ReserveMaintenance. intros H. destruct (negb _) eqn:E; [discriminate|]. destruct (negb (_ =? _)); simplify_eq. bool_hyps. split; [done|].
  intros n. unfold maintenance_id at 1. cbn. case_bool_decide; subst; [by rewrite lookup_insert_eq|by rewrite lookup_insert_ne].
Qed.
Lemma reserve_refused ts node id ts' e : ReserveMaintenance ts node id = (ts', Err e) → ts' = ts.
Proof. unfold ReserveMaintenance. intros H. repeat case_match; by simplify_eq. Qed.

(** ** Calls that concern neither *)

Definition touches {B} (c : call B) : bool :=
  match c with CUUID | CCreate _ | CReserve _ _ _ | CRelease _ _ | CTermReserve _ _ | CTermRelease _ _ => true | _ => false end.

Lemma learned_untouched B (c : call B) b f : touches c = false → f ∈ learned c b → about f = false ∧ makes f = false.
Proof.
  destruct c; intros Ht; try discriminate; cbn [learned]; unfold ok_fact; repeat case_match; intros Hf;
    first [by apply not_elem_of_nil in Hf|apply list_elem_of_singleton in Hf as ->; done].
Qed.
Lemma answer_untouched o w B (c : call B) : touches c = false → let w' := (answer o w c).1 in
  w_phase w' = w_phase w ∧ ts_maintenance (mm_terminals (w_memory w')) = ts_maintenance (mm_terminals (w_memory w))
  ∧ cm_maintenance (mm_connections (w_memory w')) = cm_maintenance (mm_connections (w_memory w)).
Proof.
  destruct c; intros Ht; try discriminate; cbn [answer]; unfold on_table; try (repeat case_match; simplify_eq; done).
  pose proof (ObserveActivity_frame (mm_connections (w_memory w)) node stream version count) as [_ H].
  destruct (ObserveActivityCapabilities _ _ _ _ _) as [cm r]. done.
Qed.

Lemma untouched_keeps o w B (c : call B) : consistent w → pre c (fun f => f ∈ w_log w) → touches c = false → lasting w → holding w →
  let w' := (perform o w c).1 in lasting w' ∧ holding w' ∧ w_phase w' = w_phase w.
Proof.
  intros Hc Hp Ht Hl Hh w'. pose proof (perform_consistent o w _ c Hc Hp) as Hc'. pose proof (perform_log o w _ c) as Hlog.
  assert (Hf : ∀ f, f ∈ learned c (perform o w c).2 → about f = false ∧ makes f = false) by (intros f; by apply learned_untouched).
  assert (Hn : ∀ id, node_of w' id = node_of w id) by (intros id; eapply node_of_kept; [exact Hc|exact Hc'|exact Hlog|intros f Hin; by apply Hf]).
  assert (Hm : w_phase w' = w_phase w ∧ ts_maintenance (mm_terminals (w_memory w')) = ts_maintenance (mm_terminals (w_memory w))
    ∧ cm_maintenance (mm_connections (w_memory w')) = cm_maintenance (mm_connections (w_memory w))).
  { pose proof (answer_untouched o w _ c Ht) as H. unfold w', perform. by destruct (answer o w c). }
  destruct Hm as (Hph & Hts & Hcm). split_and!; [| |done].
  - eapply lasting_frame; [exact Hn|done|exact Hlog|intros f Hin; by apply Hf|done].
  - eapply holding_frame; [exact Hn|done|exact Hlog|intros f Hin; by apply Hf|intros n; unfold maintenance_id; by rewrite Hts| |done].
    intros n. unfold maintenance_of. by rewrite Hcm.
Qed.

(** ** Calls that do *)

Ltac in_log := rewrite ?elem_of_cons in *; intuition (try discriminate; eauto).

Lemma fresh_id o w : fresh_ok o w CUUID = true → o_id o ≠ "" ∧ FId (o_id o) ∉ w_log w.
Proof.
  cbn. intros H. bool_hyps. split; [done|]. intros Hin. apply not_true_iff_false in H0. apply H0, existsb_exists. exists (FId (o_id o)).
  split; [by apply list_elem_of_In|by apply bool_decide_eq_true].
Qed.
Lemma uuid_keeps w id : lasting w → holding w → id ≠ "" → FId id ∉ w_log w →
  lasting (note (with_phase w id PFresh) [FId id]) ∧ holding (note (with_phase w id PFresh) [FId id]).
Proof.
  intros [H1 H2 H3 H4 H5 H6] [K1 K2 K3] Hid Hf. split; split; cbn.
  - intros i ph Hi. apply lookup_insert_Some in Hi as [[<- _]|[_ Hi]]; [by left|right; eauto].
  - intros i Hi. apply elem_of_cons in Hi as [[= ->]|Hi]; auto.
  - intros i n Hi. right. by apply (H3 i n).
  - intros i Hi. apply elem_of_cons in Hi as [?|Hi]; [discriminate|]. destruct (H4 i Hi) as (? & ? & Hp). split_and!; [by right|done|].
    rewrite lookup_insert_ne; [done|]. by intros ->.
  - intros i ph Hi Hp. apply lookup_insert_Some in Hi as [[<- <-]|[_ Hi]]; [|by apply (H5 i ph)].
    change (node_of w id = None). apply eq_None_not_Some. intros [n Hn]. by apply Hf, (H3 id n).
  - intros i n Hi. apply elem_of_cons in Hi as [?|Hi]; [discriminate|]. by apply H6.
  - intros i n Hi. apply lookup_insert_Some in Hi as [[_ ?]|[_ Hi]]; [discriminate|]. by apply K1.
  - intros i n Hi He. apply K2; [done|]. intros Hx. by apply He, (ended_more [FId id]).
  - intros i n Hi He. apply elem_of_cons in Hi as [?|Hi]; [discriminate|]. apply K3; [done|]. intros Hx. by apply He, (ended_more [FId id]).
Qed.

(** The node an operation is reserved on is its own. *)
Lemma reserve_keeps w conn id manual cm x : consistent w → lasting w → holding w → pre (CReserve conn id manual) (fun f => f ∈ w_log w) →
  reserveCommit (mm_connections (w_memory w)) conn id manual = (cm, Ok x) →
  let w' := note (with_memory w (with_connections (w_memory w) cm)) [FReserved id (ac_ServerID conn)] in lasting w' ∧ holding w'.
Proof.
  intros Hc [H1 H2 H3 H4 H5 H6] [K1 K2 K3] (op & Hm & <- & Hn) Hr.
  destruct (reserveCommit_frame _ _ _ _ _ _ Hr) as (_ & Hnone & _). pose proof (wrote_node w op Hc (or_introl Hm)) as Hnode. rewrite Hn in Hnode.
  assert (He : ∀ i, ended (w_log w) i → ended (FReserved (au_ID op) (ac_ServerID conn) :: w_log w) i) by (intros i; apply (ended_more [_])).
  split; split; cbn.
  - intros i ph Hi. right. eauto.
  - intros i Hi. apply elem_of_cons in Hi as [?|Hi]; [discriminate|auto].
  - intros i n Hi. right. by apply (H3 i n).
  - intros i Hi. apply elem_of_cons in Hi as [?|Hi]; [discriminate|]. destruct (H4 i Hi) as (? & ? & ?). split_and!; [by right|done|done].
  - exact H5.
  - intros i n Hi. apply elem_of_cons in Hi as [[= -> ->]|Hi]; [exact Hnode|by apply H6].
  - exact K1.
  - intros i n Hi Hx. apply K2; [done|]. auto.
  - intros i n Hi Hx. rewrite (reserve_of _ _ _ _ _ _ n Hr). case_bool_decide as E; subst.
    + apply elem_of_cons in Hi as [[= ->]|Hi]; [done|]. exfalso. apply (H2 i); [by apply (H3 i (ac_ServerID conn)), H6|].
      rewrite <- (K3 i (ac_ServerID conn)); auto.
    + apply elem_of_cons in Hi as [[= -> ->]|Hi]; [done|]. apply K3; auto.
Qed.

(** An operation is released when it has ended. *)
Lemma connections_release_keeps w node id : consistent w → lasting w → holding w → pre (CRelease node id) (fun f => f ∈ w_log w) →
  holding (with_memory w (with_connections (w_memory w) (ConnMgr.ReleaseMaintenance (mm_connections (w_memory w)) node id))).
Proof.
  intros Hc Hl [K1 K2 K3] Ho%over_ended; [|done]. split; [exact K1|exact K2|]. intros i n Hi Hx. cbn in *.
  destruct (release_of (mm_connections (w_memory w)) node id n) as [->|[-> Hm]]; [auto|]. rewrite (K3 i node) in Hm by done. by subst.
Qed.
Lemma terminals_release_keeps w node id : consistent w → lasting w → holding w → pre (CTermRelease node id) (fun f => f ∈ w_log w) →
  holding (with_memory w (with_terminals (w_memory w) (ReleaseMaintenance (mm_terminals (w_memory w)) node id))).
Proof.
  intros Hc Hl [K1 K2 K3] Ho. split; [| |exact K3]; intros i n Hi; cbn in *; destruct (release_id (mm_terminals (w_memory w)) node id n) as [->|[-> Hm]].
  - auto.
  - exfalso. rewrite (K1 i node Hi) in Hm. subst i. destruct Ho as [Ho|Ho].
    + apply (ended_node w id Hc); [by apply over_ended|]. eapply l_early; eauto.
    + destruct (l_refused _ Hl id Ho) as (_ & _ & [Hp|Hp]); congruence.
  - auto.
  - intros Hx. exfalso. rewrite (K2 i node Hi Hx) in Hm. subst i. destruct Ho as [Ho|Ho]; [by apply Hx, over_ended|].
    destruct (l_refused _ Hl id Ho) as (_ & Hp & _). change (node_of w id = Some node) in Hi. congruence.
Qed.

Lemma terminals_reserve_keeps w node id ts x : lasting w → holding w → w_phase w !! id = Some PFresh →
  ReserveMaintenance (mm_terminals (w_memory w)) node id = (ts, Ok x) →
  let w' := with_phase (with_memory w (with_terminals (w_memory w) ts)) id (PHeld node) in lasting w' ∧ holding w'.
Proof.
  intros Hl [K1 K2 K3] Hp Hr. pose proof Hl as [H1 H2 H3 H4 H5 H6]. apply reserve_id in Hr as [Hnone Hnew].
  split; split; cbn; try done.
  - intros i ph Hi. apply lookup_insert_Some in Hi as [[<- _]|[_ Hi]]; eauto.
  - intros i Hi. destruct (H4 i Hi) as (? & ? & Hq). split_and!; [done|done|]. rewrite lookup_insert_ne; [done|]. intros ->. rewrite Hp in Hq. by destruct Hq.
  - intros i ph Hi Hq. apply lookup_insert_Some in Hi as [[<- _]|[_ Hi]]; [apply (H5 id PFresh); auto|by apply (H5 i ph)].
  - intros i n Hi. rewrite Hnew. apply lookup_insert_Some in Hi as [[<- [= ->]]|[_ Hi]]; [by rewrite bool_decide_eq_true_2|].
    case_bool_decide; [|by apply K1]. subst. exfalso. apply (H2 i); [eauto|]. by rewrite <- (K1 i node Hi).
  - intros i n Hi Hx. rewrite Hnew. change (node_of w i = Some n) in Hi. case_bool_decide; [|by apply K2]. subst. exfalso. apply (H2 i); [by apply (H3 i node)|].
    by rewrite <- (K2 i node Hi Hx).
Qed.

Lemma create_keeps w op rows' order : lasting w → holding w → w_phase w !! au_ID op = Some (PHeld (au_NodeID op)) →
  CreateAgentUpdate (w_rows w) op = Ok rows' →
  let w' := note (mkWorld rows' order (w_memory w) (w_log w) (<[au_ID op := PCreated]> (w_phase w))) [FMade (stored op)] in lasting w' ∧ holding w'.
Proof.
  intros [H1 H2 H3 H4 H5 H6] [K1 K2 K3] Hp Hr w'.
  assert (Hnode : ∀ i, node_of w' i = if bool_decide (i = au_ID op) then Some (au_NodeID op) else node_of w i).
  { intros i. unfold node_of, w'. cbn. unfold CreateAgentUpdate in Hr. guards_in Hr. simplify_eq. clear Heqb.
    case_bool_decide; subst; [by rewrite lookup_insert_eq|by rewrite lookup_insert_ne]. }
  assert (Hnone : node_of w (au_ID op) = None) by (eapply H5; eauto).
  assert (He : ∀ i, ended (w_log w) i → ended (w_log w') i) by (intros i; apply (ended_more [_])).
  split; split.
  - cbn. intros i ph Hi. right. apply lookup_insert_Some in Hi as [[<- _]|[_ Hi]]; eauto.
  - cbn. intros i Hi. apply elem_of_cons in Hi as [?|Hi]; [discriminate|auto].
  - intros i n. rewrite Hnode. case_bool_decide; [subst; intros _; right; eauto|intros Hi; right; eauto].
  - intros i Hi. apply elem_of_cons in Hi as [?|Hi]; [discriminate|]. destruct (H4 i Hi) as (? & ? & Hq). rewrite Hnode. cbn.
    assert (i ≠ au_ID op) by (intros ->; rewrite Hp in Hq; by destruct Hq). rewrite bool_decide_eq_false_2, lookup_insert_ne by done. split_and!; [by right|done|done].
  - cbn. intros i ph Hi Hq. rewrite Hnode. apply lookup_insert_Some in Hi as [[<- <-]|[Hne Hi]]; [by destruct Hq as [?|[??]]|].
    rewrite bool_decide_eq_false_2 by done. by apply (H5 i ph).
  - intros i n Hi. apply elem_of_cons in Hi as [?|Hi]; [discriminate|]. rewrite Hnode. case_bool_decide; [subst; apply H6 in Hi; congruence|by apply H6].
  - cbn. intros i n Hi. apply lookup_insert_Some in Hi as [[_ ?]|[_ Hi]]; [discriminate|]. by apply K1.
  - intros i n. rewrite Hnode. case_bool_decide; [subst; intros [= <-] _; by apply K1|]. intros Hi Hx. apply K2; auto.
  - intros i n Hi Hx. apply elem_of_cons in Hi as [?|Hi]; [discriminate|]. apply K3; auto.
Qed.

Lemma refuse_keeps w id n : lasting w → holding w → w_phase w !! id = Some (PHeld n) →
  lasting (note (with_phase w id PRefused) [FRefused id]) ∧ holding (note (with_phase w id PRefused) [FRefused id]).
Proof.
  intros [H1 H2 H3 H4 H5 H6] [K1 K2 K3] Hp. assert (He : ∀ i, ended (w_log w) i → ended (FRefused id :: w_log w) i) by (intros i; apply (ended_more [_])).
  split; split; cbn.
  - intros i ph Hi. right. apply lookup_insert_Some in Hi as [[<- _]|[_ Hi]]; eauto.
  - intros i Hi. apply elem_of_cons in Hi as [?|Hi]; [discriminate|auto].
  - intros i m Hi. right. by apply (H3 i m).
  - intros i Hi. destruct (decide (i = id)) as [->|Hne].
    + rewrite lookup_insert_eq. split_and!; [right; eauto|change (node_of w id = None); eapply H5; eauto|by right].
    + apply elem_of_cons in Hi as [[= ->]|Hi]; [done|]. destruct (H4 i Hi) as (? & ? & ?). rewrite lookup_insert_ne by done. split_and!; [by right|done|done].
  - intros i ph Hi Hq. apply lookup_insert_Some in Hi as [[<- <-]|[_ Hi]]; [by destruct Hq as [?|[??]]|by apply (H5 i ph)].
  - intros i m Hi. apply elem_of_cons in Hi as [?|Hi]; [discriminate|]. by apply H6.
  - intros i m Hi. apply lookup_insert_Some in Hi as [[_ ?]|[_ Hi]]; [discriminate|]. by apply K1.
  - intros i m Hi Hx. apply K2; auto.
  - intros i m Hi Hx. apply elem_of_cons in Hi as [?|Hi]; [discriminate|]. apply K3; auto.
Qed.

(** ** Steps *)

(** What a request does to the identifiers: only its own change. *)
Abbreviation own_step w w' m m' := (Prog.own_step (w_phase w) (w_phase w') m m').

Lemma perform_keeps o w B (c : call B) m : consistent w → pre c (fun f => f ∈ w_log w) → lasting w → holding w → fresh_ok o w c = true →
  own_pre c m → (∀ id ph, m = Some (id, ph) → w_phase w !! id = Some ph) →
  let '(w', b) := perform o w c in lasting w' ∧ holding w' ∧ own_step w w' m (own_next c m b).
Proof.
  intros Hc Hp Hl Hh Hfr Ho Hm. destruct (touches c) eqn:Et.
  2: { pose proof (untouched_keeps o w _ c Hc Hp Et Hl Hh) as (? & ? & Hph). destruct (perform o w c) as [w' b]. split_and!; [done|done|].
       replace (own_next c m b) with m by (by destruct c). by apply own_step_same. }
  destruct c; try discriminate; unfold perform; cbn [answer].
  - apply fresh_id in Hfr as [Hid Hf]. destruct (uuid_keeps w (o_id o) Hl Hh Hid Hf). split_and!; [done|done|]. cbn. apply own_step_insert; [done|].
    right. apply eq_None_not_Some. intros [ph Hph]. by apply Hf, (l_drawn _ Hl _ ph).
  - cbn in Ho. specialize (Hm _ _ Ho). unfold on_table. destruct (failing o (CreateAgentUpdate _ _)) as [rows'|e] eqn:E.
    + apply not_failing in E. destruct (create_keeps w op rows' (au_ID op :: w_order w) Hl Hh Hm E). split_and!; [done|done|]. apply own_step_insert; eauto.
    + destruct (refuse_keeps w (au_ID op) _ Hl Hh Hm). split_and!; [done|done|]. apply own_step_insert; eauto.
  - destruct (reserveCommit _ _ _ _) as [cm [[]|e]] eqn:E.
    + destruct (reserve_keeps w conn id manual cm () Hc Hl Hh Hp E). split_and!; [done|done|]. by apply own_step_same.
    + destruct (reserveCommit_frame _ _ _ _ _ _ E) as [_ ->]. split_and!; [by eapply lasting_silent, Hl|by eapply holding_silent, Hh|by apply own_step_same].
  - split_and!; [by eapply lasting_silent, Hl| |by apply own_step_same]. by eapply holding_silent, (connections_release_keeps w node id).
  - cbn in Ho. specialize (Hm _ _ Ho). destruct (ReserveMaintenance _ _ _) as [ts [[]|e]] eqn:E.
    + destruct (terminals_reserve_keeps w node id ts () Hl Hh Hm E). split_and!; [by eapply lasting_silent|by eapply holding_silent|].
      apply own_step_insert; eauto.
    + apply reserve_refused in E as ->. split_and!; [by eapply lasting_silent, Hl|by eapply holding_silent, Hh|]. apply own_step_same; [|done].
      subst m. by intros ? ? [= <- <-].
  - split_and!; [by eapply lasting_silent, Hl| |by apply own_step_same]. by eapply holding_silent, (terminals_release_keeps w node id).
Qed.

(** ** Restarts *)

Lemma set_of cm node id n : id ≠ "" → maintenance_of (ConnMgr.SetMaintenance cm node id) n = if bool_decide (n = node) then id else maintenance_of cm n.
Proof.
  intros Hid. unfold ConnMgr.SetMaintenance. rewrite bool_decide_eq_false_2 by done. unfold maintenance_of. cbn.
  case_bool_decide; subst; [by rewrite lookup_insert_eq|by rewrite lookup_insert_ne].
Qed.
Lemma set_id ts node id n : id ≠ "" → maintenance_id (SetMaintenance ts node id) n = if bool_decide (n = node) then id else maintenance_id ts n.
Proof.
  intros Hid. unfold SetMaintenance. rewrite bool_decide_eq_false_2 by done. unfold maintenance_id. cbn.
  case_bool_decide; subst; [by rewrite lookup_insert_eq|by rewrite lookup_insert_ne].
Qed.

Definition holds (m : Memory) (node id : string) : Prop := maintenance_of (mm_connections m) node = id ∧ maintenance_id (mm_terminals m) node = id.
Lemma restarted_terminal op now : Terminal (restarted op now) = negb (updateInstallationIssued (au_State op)).
Proof. unfold restarted. by destruct (updateInstallationIssued (au_State op)). Qed.
Lemma restarted_same op now : au_ID (restarted op now) = au_ID op ∧ au_NodeID (restarted op now) = au_NodeID op.
Proof. unfold restarted. by destruct (updateInstallationIssued (au_State op)). Qed.

(** A hub that has started holds the node of every installation it found open, and
    has ended the other operations. *)
Lemma restartEach_holds now writes active : ∀ n rows m written rows' written' m',
  restartEach now writes n active rows m written = (rows', written', Some m') → NoDup (au_NodeID <$> active) → Forall (fun op => au_ID op ≠ "") active →
  (∀ op, op ∈ active → updateInstallationIssued (au_State op) = true → holds m' (au_NodeID op) (au_ID op))
  ∧ (∀ node id, node ∉ au_NodeID <$> active → holds m node id → holds m' node id)
  ∧ (∀ op, op ∈ active → ∃ t, restarted op t ∈ written') ∧ (∀ u, u ∈ written → u ∈ written').
Proof.
  induction active as [|op active IH]; intros n rows m written rows' written' m' H Hnd Hid; cbn [restartEach] in H.
  { simplify_eq. split_and!; try done; intros u Hu; by apply not_elem_of_nil in Hu. }
  destruct (if writes n then _ else _) as [rows1|] eqn:E; [|discriminate]. cbn in Hnd. apply NoDup_cons in Hnd as [Hni Hnd]. apply Forall_cons in Hid as [Hid Hids].
  destruct (IH _ _ _ _ _ _ _ H Hnd Hids) as (I1 & I2 & I3 & I4). rewrite restarted_terminal, negb_involutive in I2.
  destruct (restarted_same op (now n)) as [Hri Hrn]. rewrite Hri, Hrn in I2. split_and!.
  - intros u [->|Hu]%elem_of_cons Hiss; [|auto]. apply I2; [done|]. rewrite Hiss. split; cbn; [rewrite set_of|rewrite set_id]; by rewrite ?bool_decide_eq_true_2.
  - intros node id Hn [Hm1 Hm2]. cbn in Hn. apply not_elem_of_cons in Hn as [Hne Hn]. apply I2; [done|].
    destruct (updateInstallationIssued _); split; cbn; [rewrite set_of|rewrite set_id| |]; rewrite ?bool_decide_eq_false_2; try done.
    + destruct (release_of (mm_connections m) (au_NodeID op) (au_ID op) node) as [->|[? _]]; done.
    + destruct (release_id (mm_terminals m) (au_NodeID op) (au_ID op) node) as [->|[? _]]; done.
  - intros u [->|Hu]%elem_of_cons; [|auto]. exists (now n). apply I4. by left.
  - intros u Hu. apply I4. by right.
Qed.

Lemma live_nodes w : consistent w → NoDup (au_NodeID <$> ActiveAgentUpdates (w_rows w)).
Proof.
  intros Hc. unfold ActiveAgentUpdates. pose proof (NoDup_fst_map_to_list (w_rows w)) as Hnd.
  assert (Hrow : ∀ i u, (i, u) ∈ map_to_list (w_rows w) → w_rows w !! i = Some u) by (intros i u; by rewrite elem_of_map_to_list).
  revert Hnd Hrow. generalize (map_to_list (w_rows w)) as l. induction l as [|[i u] l IH]; intros Hnd Hrow; [constructor|].
  cbn in Hnd. apply NoDup_cons in Hnd as [Hni Hnd]. specialize (IH Hnd ltac:(intros j v Hj; apply Hrow; by right)).
  change ((((i, u) :: l).*2)) with (u :: l.*2). rewrite filter_cons. destruct (decide (Terminal u = false)) as [Hu|]; [|exact IH]. cbn. apply NoDup_cons. split; [|exact IH].
  intros Hin. apply list_elem_of_fmap in Hin as (v & Hn & Hv). apply list_elem_of_filter in Hv as [Hv Hin]. apply list_elem_of_fmap in Hin as ([j v'] & -> & Hj).
  assert (i = j) as ->; [|apply Hni, list_elem_of_fmap; by exists (j, v')].
  apply (c_live _ Hc i j u v'); [apply Hrow; by left|apply Hrow; by right|done|done|done].
Qed.

Lemma active_row w op : consistent w → op ∈ ActiveAgentUpdates (w_rows w) ↔ w_rows w !! au_ID op = Some op ∧ Terminal op = false.
Proof.
  intros Hc. unfold ActiveAgentUpdates. rewrite list_elem_of_filter, list_elem_of_fmap. split.
  - intros [Ht ([id u] & -> & Hin)]. apply elem_of_map_to_list in Hin. destruct (row_facts _ _ _ Hc Hin) as (_ & <- & _). done.
  - intros [Hr Ht]. split; [done|]. exists (au_ID op, op). split; [done|]. by apply elem_of_map_to_list.
Qed.

Lemma restart_lasting now writes w : consistent w → lasting w → lasting (h_world (restart now writes w)).
Proof.
  intros Hc [H1 H2 H3 H4 H5 H6]. destruct (restart_consistent now writes w Hc) as [Ho Hch Htab Hsh Hli Hfi].
  assert (Hs : ∃ fs, w_log (h_world (restart now writes w)) = fs ++ w_log w ∧ (∀ f, f ∈ fs → about f = false ∧ makes f = false)
               ∧ w_phase (h_world (restart now writes w)) = ∅).
  { unfold restart. destruct (NewAgentUpdates _ _ _) as [[rows written] m]. cbn. eexists. split; [done|]. split; [|done].
    intros f Hf. by apply list_elem_of_fmap in Hf as (u & -> & _). }
  destruct Hs as (fs & Hl & Hf & Hp). assert (Hn : ∀ id, node_of (h_world (restart now writes w)) id = node_of w id).
  { eapply node_of_kept; [exact Hc|by apply restart_consistent|exact Hl|intros f Hin; by apply Hf]. }
  assert (Hold : ∀ f, about f = true → f ∈ fs ++ w_log w → f ∈ w_log w) by (intros f; apply about_old; intros g Hg; by apply Hf).
  split; rewrite ?Hp, ?Hl; try (intros id ph Hi; by rewrite lookup_empty in Hi).
  - intros id Hi. apply H2. by apply Hold.
  - intros id n. rewrite Hn. intros Hi. apply elem_of_app. right. eauto.
  - intros id Hi. destruct (H4 id) as (? & ? & _); [by apply Hold|]. rewrite Hn. split_and!; [apply elem_of_app; by right|done|left; apply lookup_empty].
  - intros id n Hi. rewrite Hn. apply H6. by apply Hold.
Qed.

Lemma restart_holding now writes w : consistent w → lasting w → h_up (restart now writes w) = true → holding (h_world (restart now writes w)).
Proof.
  intros Hc Hl Hup. pose proof (restart_lasting now writes w Hc Hl) as Hl'.
  enough (Hall : ∀ id n, node_of w id = Some n → ¬ ended (w_log (h_world (restart now writes w))) id → holds (w_memory (h_world (restart now writes w))) n id).
  { assert (Hn : ∀ id n, node_of (h_world (restart now writes w)) id = Some n → node_of w id = Some n).
    { destruct (restart_log_grows now writes w) as [fs Hfs]. intros id n <-. symmetry. revert Hfs. unfold restart. destruct (NewAgentUpdates _ _ _) as [[rows wr] m] eqn:E.
      intros _. pose proof (restart_consistent now writes w Hc) as Hc'. unfold restart in Hc'. rewrite E in Hc'.
      eapply node_of_kept; [exact Hc|exact Hc'|done|]. intros f Hf. by apply list_elem_of_fmap in Hf as (u & -> & _). }
    split.
    - intros id n Hi. unfold restart in Hi. destruct (NewAgentUpdates _ _ _) as [[??]?]. cbn in Hi. by rewrite lookup_empty in Hi.
    - intros id n Hi He. by apply Hall; [apply Hn|].
    - intros id n Hi He. apply Hall; [apply Hn, (l_reserved _ Hl'), Hi|done]. }
  intros id n Hnode. unfold node_of in Hnode. destruct (w_rows w !! id) as [u|] eqn:Eu; [|discriminate]. cbn in Hnode. injection Hnode as <-.
  destruct (row_facts w id u Hc Eu) as (Hw & <- & Hs & Hleg). unfold restart in *. unfold NewAgentUpdates in *.
  destruct (32 <? length (take 33 _))%nat eqn:E32; cbn in Hup; [discriminate|]. apply Nat.ltb_ge in E32. rewrite length_take in E32. rewrite take_ge in * by lia.
  destruct (restartEach _ _ _ _ _ _ _) as [[rows written] [m|]] eqn:Er; cbn in Hup; [|discriminate]. cbn. intros He.
  assert (Hwl : ∀ f, f ∈ w_log w → f ∈ (FPut ∘ stored <$> written) ++ w_log w) by (intros f Hf; apply elem_of_app; by right).
  destruct (Terminal u) eqn:Et; [exfalso; apply He; exists u; split; [eapply wrote_mono; [exact Hwl|done]|done]|].
  destruct (restartEach_holds _ _ _ _ _ _ _ _ _ _ Er) as (I1 & _ & I3 & _); [by apply live_nodes| |].
  { apply Forall_forall. intros op [Hr _]%active_row; [|done]. apply (l_name _ Hl). apply (l_rows _ Hl _ (au_NodeID op)). unfold node_of. by rewrite Hr. }
  assert (Hact : u ∈ ActiveAgentUpdates (w_rows w)) by (by apply active_row).
  destruct (updateInstallationIssued (au_State u)) eqn:Ei; [by apply I1|]. exfalso. apply He. destruct (I3 u Hact) as [t Ht].
  exists (stored (restarted u t)). split_and!.
  - right. apply elem_of_app. left. apply list_elem_of_fmap. by exists (restarted u t).
  - apply (restarted_same u t).
  - change (Terminal (restarted u t) = true). by rewrite restarted_terminal, Ei.
Qed.

(** ** Runs *)

Record guarded (h : Hub) : Prop := {
  g_sound : sound h;
  g_lasting : lasting (h_world h);
  g_holding : h_up h = true → holding (h_world h) ∧ ∃ ms, owned (h_world h) ms (h_threads h);
}.

Lemma starting_guarded : guarded starting.
Proof.
  split; [apply starting_sound| |intros _; split; [|exists []]].
  all: split; cbn; try done; intros; try (exfalso; by eapply not_elem_of_nil).
Qed.

Lemma estep_guarded h e : guarded h → guarded (estep h e).
Proof.
  intros [Hs Hl Hh]. assert (Hstop : guarded h) by done. pose proof (estep_sound h e Hs) as Hs'.
  destruct e as [rq|n o|cm|ts|now writes]; cbn [estep] in *.
  5: { split; [done|by apply restart_lasting; [apply Hs|]|]. intros Hup. split; [apply restart_holding; [apply Hs|done|done]|].
       exists []. unfold restart. destruct (NewAgentUpdates _ _ _) as [[??]?]. split; cbn; [constructor|done|done]. }
  all: destruct (h_up h); [|done]; cbn [negb] in *; destruct (Hh eq_refl) as (Hho & ms & Ho).
  - destruct (informed _ _); [|done]. split; [done|done|]. intros _. split; [done|]. exists (ms ++ [None]). by apply owned_spawn; [|apply request_owning].
  - destruct (h_threads h !! n) as [[|B c k]|] eqn:En; [done| |done]. destruct (fresh_ok o _ c) eqn:Ef; [|done].
    destruct (Forall_lookup_1 _ _ _ _ (so_threads _ Hs) En) as [Hp _]. destruct (Forall2_lookup_r _ _ _ _ _ (o_threads _ _ _ _ _ Ho) En) as (m & Hm & Hop & Hok).
    pose proof (perform_keeps o (h_world h) _ c m (so_consistent _ Hs) Hp Hl Hho Ef Hop) as Hk.
    specialize (Hk ltac:(intros id ph ->; by eapply (o_phase _ _ _ _ _ Ho))). destruct (perform o (h_world h) c) as [w' b].
    destruct Hk as (Hl' & Hho' & Hst). split; [done|done|]. intros _. split; [done|]. exists (<[n := own_next c m b]> ms). by eapply owned_step.
  - destruct (_ && _) eqn:E; [|done]. bool_hyps. split; [done|by eapply lasting_silent, Hl|]. intros _.
    split; [by eapply holding_silent, Hho|by exists ms].
  - destruct (bool_decide _) eqn:E; [|done]. bool_hyps. split; [done|by eapply lasting_silent, Hl|]. intros _.
    split; [by eapply holding_silent, Hho|by exists ms].
Qed.
Lemma run_guarded es : guarded (erun starting es).
Proof.
  assert (H : ∀ h, guarded h → guarded (erun h es)); [|apply H, starting_guarded].
  induction es as [|e es IH]; intros h Hh; [done|]. by apply IH, estep_guarded.
Qed.

(** An operation that is open was reserved. *)
Lemma open_reserved w id u : consistent w → w_rows w !! id = Some u → updateInstallationIssued (au_State u) = true → ∃ n, FReserved id n ∈ w_log w.
Proof.
  intros Hc Hu Hi. destruct (row_facts w id u Hc Hu) as (_ & <- & _). rewrite (c_table _ Hc) in Hu.
  destruct (was_installed _ u (c_chained _ Hc) Hu) as (inst & Hin & Hst & He); [by apply orb_true_iff; left|].
  apply list_elem_of_split in Hin as (l1 & l2 & Hlog). pose proof (c_ordered _ Hc) as Ho. rewrite Hlog in Ho.
  apply ordered_at in Ho as (old & _ & _ & _ & _ & Hr & _). destruct (Hr Hst) as ((n & Hn) & _). exists n. apply (f_equal au_ID) in He. cbn in He. rewrite <- He, Hlog.
  apply elem_of_app. right. by right.
Qed.

(** C8. From the authorization of an installation until the operation has ended -
    whatever else happens, restarts of the hub included - the node is held for it:
    no remote activity is admitted and no terminal or command session is
    registered on the node. *)
Theorem maintenance_held es id u :
  let h := erun starting es in
  h_up h = true → w_rows (h_world h) !! id = Some u → updateInstallationIssued (au_State u) = true →
  (∀ v, wrote (fun f => f ∈ w_log (h_world h)) v → au_ID v = id → Terminal v = false) →
  holds (w_memory (h_world h)) (au_NodeID u) id
  ∧ (∀ conn rid kind cm key, ac_ServerID conn = au_NodeID u → BeginActivity (mm_connections (w_memory (h_world h))) (Some conn) rid kind ≠ (cm, Ok key))
  ∧ (∀ sid user exec o now, (Register (mm_terminals (w_memory (h_world h))) (au_NodeID u) sid user exec o now).2 = false).
Proof.
  intros h Hup Hu Hi Hne. pose proof (run_guarded es) as Hg. fold h in Hg. clearbody h. destruct Hg as [Hs Hl Hh]. destruct (Hh Hup) as (Hk & _). pose proof (so_consistent _ Hs) as Hc.
  assert (He : ¬ ended (w_log (h_world h)) id) by (intros (v & Hw & Hid & Ht); rewrite (Hne v Hw Hid) in Ht; discriminate).
  assert (Hnode : node_of (h_world h) id = Some (au_NodeID u)) by (unfold node_of; by rewrite Hu).
  destruct (open_reserved _ _ _ Hc Hu Hi) as [n Hn]. pose proof (l_reserved _ Hl id n Hn) as Hn'. assert (n = au_NodeID u) as -> by congruence.
  assert (Hid : id ≠ "") by (apply (l_name _ Hl), (l_rows _ Hl id (au_NodeID u)), Hnode).
  assert (Hh' : holds (w_memory (h_world h)) (au_NodeID u) id) by (split; [by apply (k_connections _ Hk)|by apply (k_terminals _ Hk)]).
  split_and!; [done| |]; destruct Hh' as [H1 H2].
  - intros conn rid kind cm key Hconn. unfold BeginActivity. rewrite Hconn, H1, (bool_decide_eq_false_2 (id = "")) by done. cbn [negb].
    destruct (negb (validActivity _ _)); [done|]. by destruct (negb (liveLocked _ _)).
  - intros. unfold Register. by rewrite H2, (bool_decide_eq_false_2 (id = "")) by done.
Qed.

Lemma never_ended (log : list fact) : forallb (fun f => match written f with Some v => negb (Terminal v) | None => true end) log = true →
  ∀ v, wrote (fun f => f ∈ log) v → Terminal v = false.
Proof.
  intros H v Hv. apply wrote_written in Hv as (f & Hf & Hw). rewrite forallb_forall in H. specialize (H f ltac:(by apply list_elem_of_In)).
  rewrite Hw in H. by apply negb_true_iff in H.
Qed.
Lemma maintenance_held_witness : holds (w_memory (h_world (erun starting Demo.installing))) "n" "op-1".
Proof.
  eassert (Hu : w_rows (h_world (erun starting Demo.installing)) !! "op-1" = Some _) by (vm_compute; reflexivity).
  refine (proj1 (maintenance_held Demo.installing "op-1" _ _ Hu _ _)); [reflexivity|reflexivity|].
  intros v Hv _. revert v Hv. apply never_ended. vm_compute. reflexivity.
Defined.

(** ** Operations that are opened again *)

(** The agent's report of a rollback opens an operation that had succeeded, and so
    released its node, without holding the node again. *)
Definition reopened : Hub := erun starting (Demo.installing ++ Demo.succeeding ++ Demo.reopening).
Definition recovery : request := RqRecovery "a" "s" Demo.node "op-1" (Demo.hash "a").
Definition restarting : list event :=
  [ERestart (fun _ => unix_epoch + 400 * Second) (fun _ => true); EConnections (set_maintenance (Demo.connected 4 New) {[ Demo.node := "op-1" ]})].
Definition state_of (h : Hub) : option string := au_State <$> w_rows (h_world h) !! "op-1".

(** C38. An update that had succeeded and is reported as rolled back is live again,
    but its node is not held: terminals register on it, and, once the outcome is
    unknown, an administrator's recovery is refused although everything it asks for
    is there; after a restart of the hub the same request is accepted. *)
Theorem reopened_update_unheld :
  state_of reopened = Some "unknown" ∧ maintenance_of (mm_connections (w_memory (h_world reopened))) Demo.node = ""
  ∧ (Register (mm_terminals (w_memory (h_world reopened))) Demo.node "t" "u" "" (mkOptions TerminalKindWeb "s" false None) unix_epoch).2 = true
  ∧ w_rows (h_world (erun reopened (Demo.served 9 400 recovery))) = w_rows (h_world reopened)
  ∧ state_of (erun reopened (restarting ++ Demo.served 0 400 recovery)) = Some "recovery_acknowledged".
Proof. split_and!; vm_compute; reflexivity. Qed.
