(* ===== verification/AgentInstaller.v ===== *)
(** Updates of an agent, on the node (agent/internal/update): the journal of an
    operation, the checks of an executable, the download and staging of a candidate
    by the running agent or by the bootstrap helper, and the supervisor that
    replaces the installed binary and puts the original back.

    The running agent, the helper and the supervisor are processes that share
    files: each is a program of calls.  A section under the lock
    agent-update.lock is one call, a function from journal to journal; the lock
    agent-update-supervisor.lock is taken and given back by calls of its own. *)

From S2P Require Import Prelude Prog Codec Filepath Budget Governance Version AgentUpdates.
Local Open Scope prog_scope.

(** ** Data (files.go) *)

Definition MaxArtifactBytes : Z := Z.shiftl 128 20.

Record Metadata := mkMetadata { md_Version : string; md_Revision : string; md_SHA256 : string; md_Bytes : Z }.
Record record := mkRecord {
  rc_Schema : Z; rc_Operation : string; rc_Target : Metadata; rc_Original : Metadata; rc_Expires : Z; rc_State : string; rc_Confirmed : bool;
}.
Definition with_state (r : record) (state : string) (confirmed : bool) : record :=
  mkRecord (rc_Schema r) (rc_Operation r) (rc_Target r) (rc_Original r) (rc_Expires r) state confirmed.

(** operationPattern: a letter or digit, then 7 to 79 of these or dashes. *)
Definition alphanumeric (b : Z) : bool := between 48 57 b || between 65 90 b || between 97 122 b.
Definition operationPattern (op : string) : bool :=
  match bytes op with
  | b :: t => alphanumeric b && forallb (fun c => alphanumeric c || (c =? 45)) t && between 7 79 (Z.of_nat (length t))
  | [] => false
  end.

Definition active (r : record) : bool := negb (rc_Confirmed r) && negb (bool_decide (rc_State r = "failed")).
Definition validMetadata (m : Metadata) : bool :=
  ValidHash (md_SHA256 m) && negb (bool_decide (md_Version m = "")) && (len (md_Version m) <? 128) && negb (bool_decide (md_Revision m = ""))
  && (len (md_Revision m) <? 128) && (0 <? md_Bytes m) && (md_Bytes m <=? MaxArtifactBytes).
Definition validate (r : record) : result unit :=
  check! negb (rc_Schema r =? 1) || negb (operationPattern (rc_Operation r)) || negb (validMetadata (rc_Target r)) || negb (validMetadata (rc_Original r))
         || (rc_Expires r <=? 0), ErrText "invalid update journal binding";
  check! negb (bool_decide (rc_State r ∈ ["downloading"; "staged"; "installing"; "reconnecting"; "rolling_back"; "rolled_back"; "succeeded"; "failed"])),
    ErrText "invalid update journal state";
  check! rc_Confirmed r && negb (bool_decide (rc_State r = "succeeded")) && negb (bool_decide (rc_State r = "rolled_back")),
    ErrText "invalid update confirmation";
  Ok tt.

Definition sameIdentity (a b : Metadata) : bool :=
  bool_decide (md_Version a = md_Version b) && bool_decide (md_Revision a = md_Revision b) && bool_decide (md_SHA256 a = md_SHA256 b).

(** *** Protected directories and files *)

(** What lstat says of a directory: whether it is one, its owner, its mode. *)
Record DirInfo := mkDir { di_dir : bool; di_uid : Z; di_perm : Z }.
Definition protected_dir (uid : Z) (i : DirInfo) : bool := di_dir i && (di_uid i =? uid) && (Z.land (di_perm i) 18 =? 0).

(** The loop over a directory and its ancestors. *)
Fixpoint checkAncestors (fuel : nat) (lstat : string → result DirInfo) (root : string) (uid : Z) (current : string) : result unit :=
  match fuel with
  | O => Err (ErrText "update installation root not found")
  | S fuel =>
      info <-! lstat current;
      check! negb (protected_dir uid info), ErrText "update directory is not protected";
      if bool_decide (current = root) then Ok tt else
      check! bool_decide (Dir current = current), ErrText "update installation root not found";
      checkAncestors fuel lstat root uid (Dir current)
  end.
Definition checkDir (lstat : string → result DirInfo) (root : string) (uid : Z) (dir : string) (private : bool) : result unit :=
  let dir := Clean dir in
  check! negb (IsAbs dir) || (negb (bool_decide (dir = root)) && negb (HasPrefix dir ((if bool_decide (root = "/") then "" else root) +:+ "/"))),
    ErrText "update path outside installation";
  (* the mode of [dir] itself is tested when the loop is at it, before it goes on *)
  info <-! lstat dir;
  check! negb (protected_dir uid info), ErrText "update directory is not protected";
  check! private && negb (Z.land (di_perm info) 63 =? 0), ErrText "update private directory permissions are too broad";
  checkAncestors (S (String.length dir)) lstat root uid dir.

(** A directory that passes is protected, and so is every one above it up to the
    root of the installation. *)
Lemma checkAncestors_protected fuel lstat root uid current x : checkAncestors fuel lstat root uid current = Ok x →
  ∃ n, Nat.iter n Dir current = root ∧ ∀ i, (i ≤ n)%nat → ∃ info, lstat (Nat.iter i Dir current) = Ok info ∧ protected_dir uid info = true.
Proof.
  revert current. induction fuel as [|fuel IH]; intros current H; [done|]. cbn in H. destruct (lstat current) as [info|] eqn:El; [|done]. cbn in H.
  destruct (protected_dir uid info) eqn:Ep; [|done]. cbn in H. case_bool_decide as Er.
  - exists 0%nat. split; [done|]. intros i Hi. replace i with 0%nat by lia. eauto.
  - case_bool_decide; [done|]. destruct (IH _ H) as (n & Hn & Hall). exists (S n). rewrite Nat.iter_succ_r. split; [done|].
    intros [|i] Hi; [eauto|]. rewrite Nat.iter_succ_r. apply Hall. lia.
Qed.
Lemma checkDir_protected lstat root uid dir private x : checkDir lstat root uid dir private = Ok x →
  (∃ info, lstat (Clean dir) = Ok info ∧ (private = true → Z.land (di_perm info) 63 = 0))
  ∧ ∃ n, Nat.iter n Dir (Clean dir) = root ∧ ∀ i, (i ≤ n)%nat → ∃ info, lstat (Nat.iter i Dir (Clean dir)) = Ok info ∧ protected_dir uid info = true.
Proof.
  unfold checkDir. destruct (_ || _); [done|]. destruct (lstat (Clean dir)) as [info|] eqn:El; [|done]. cbn. destruct (negb _) eqn:Ep; [done|]. cbn.
  destruct (private && _) eqn:Epr; [done|]. cbn. intros H. split; [|exact (checkAncestors_protected (S (String.length (Clean dir))) _ _ _ _ _ H)]. exists info. split; [done|]. intros ->.
  cbn in Epr. apply negb_false_iff in Epr. lia.
Qed.

(** What fstat says of an open file. *)
Record FileInfo := mkFile { fi_regular : bool; fi_uid : Z; fi_nlink : Z; fi_mode : Z }.
Definition openAllowed (uid : Z) (i : FileInfo) (private : bool) : bool :=
  fi_regular i && (fi_uid i =? uid) && (fi_nlink i =? 1) && (Z.land (fi_mode i) 18 =? 0) && (negb private || (Z.land (fi_mode i) 63 =? 0)).

(** *** Executables (verify.go, proto/updateutil/build.go) *)

(** What debug/elf and debug/buildinfo read from the bytes of a file. *)
Record Elf := mkElf { el_Class : Z; el_Data : Z; el_Type : Z; el_Machine : Z }.
Record BuildInfo := mkBuild { bi_Path : string; bi_Settings : list (string * string) }.

Definition agentPackage : string := "github.com/wyiu/veyport/agent/cmd/veyport-agent".

Definition verifyELF (e : option Elf) (arch : string) : result unit :=
  match e with
  | None => Err (ErrText "agent artifact is not ELF")
  | Some e =>
      check! negb (el_Class e =? 2) || negb (el_Data e =? 1) || (negb (el_Type e =? 2) && negb (el_Type e =? 3)), ErrText "unsupported agent ELF format";
      check! (bool_decide (arch = "amd64") && negb (el_Machine e =? 62)) || (bool_decide (arch = "arm64") && negb (el_Machine e =? 183))
             || (negb (bool_decide (arch = "amd64")) && negb (bool_decide (arch = "arm64"))), ErrText "agent ELF platform mismatch";
      Ok tt
  end.

(** The map of the settings: the last entry of a key counts, none is empty. *)
Definition setting (settings : list (string * string)) (key : string) : string :=
  foldl (fun v kv => if bool_decide (fst kv = key) then snd kv else v) "" settings.

(** Quotes trimmed from both ends, and the cut at the first equals sign. *)
Definition quote (b : Z) : bool := (b =? 39) || (b =? 34).
Fixpoint trimLeft (l : list Z) : list Z := match l with b :: t => if quote b then trimLeft t else l | [] => [] end.
Definition trimQuotes (s : string) : string := string_of_bytes (rev (trimLeft (rev (trimLeft (bytes s))))).
Fixpoint cutEquals (before rest : list Z) : list Z * list Z * bool :=
  match rest with
  | [] => (rev before, [], false)
  | b :: t => if b =? 61 then (rev before, t, true) else cutEquals (b :: before) t
  end.
Definition Cut (s : string) : string * string * bool :=
  let '(name, value, found) := cutEquals [] (bytes s) in (string_of_bytes name, string_of_bytes value, found).

(** The values of the -X flags, with [None] where a field is something else. *)
Fixpoint linkerValues (fields : list string) : list (option string) :=
  match fields with
  | "-X" :: v :: rest => Some v :: linkerValues rest
  | f :: rest => (if HasPrefix f "-X=" then Some (string_of_bytes (drop 3 (bytes f))) else None) :: linkerValues rest
  | [] => []
  end.

Fixpoint linkerStamps (values : list (option string)) (version revision : string) : result (string * string) :=
  match values with
  | [] => Ok (version, revision)
  | None :: rest => linkerStamps rest version revision
  | Some value :: rest =>
      let '(name, v, found) := Cut (trimQuotes value) in
      if negb found then linkerStamps rest version revision
      else if bool_decide (name = "main.version") then
        check! negb (bool_decide (version = "")), ErrText "duplicate binary version stamp";
        linkerStamps rest v revision
      else if bool_decide (name = "main.revision") then
        check! negb (bool_decide (revision = "")), ErrText "duplicate binary revision stamp";
        linkerStamps rest version v
      else linkerStamps rest version revision
  end.
Definition linkerIdentity (flags : string) : result (string * string) := linkerStamps (linkerValues (fields flags)) "" "".

Definition VerifyBuildIdentity (info : option BuildInfo) (packagePath osName arch version revision : string) : result unit :=
  match info with
  | None => Err (ErrText "read update binary build information")
  | Some info =>
      check! negb (bool_decide (bi_Path info = packagePath)), ErrText "update binary package differs from the approved component";
      check! negb (bool_decide (setting (bi_Settings info) "GOOS" = osName)) || negb (bool_decide (setting (bi_Settings info) "GOARCH" = arch)),
        ErrText "update binary platform differs from approved metadata";
      match linkerIdentity (setting (bi_Settings info) "-ldflags") with
      | Ok (v, r) => check! negb (bool_decide (v = version)) || negb (bool_decide (r = revision)),
                       ErrText "update binary version or revision differs from approved metadata"; Ok tt
      | Err _ => Err (ErrText "update binary version or revision differs from approved metadata")
      end
  end.

(** The two release stamps of the installed binary, [None] while unseen. *)
Fixpoint installedStamps (values : list (option string)) (version revision : option string) : result (option string * option string) :=
  match values with
  | [] => Ok (version, revision)
  | value :: rest =>
      let '(name, stamp, valid) := Cut (trimQuotes (default "" value)) in
      if bool_decide (name = "main.version") then
        check! bool_decide (is_Some version) || negb valid || bool_decide (stamp = ""), ErrText "duplicate installed version";
        installedStamps rest (Some stamp) revision
      else if bool_decide (name = "main.revision") then
        check! bool_decide (is_Some revision) || negb valid || bool_decide (stamp = ""), ErrText "duplicate installed revision";
        installedStamps rest version (Some stamp)
      else installedStamps rest version revision
  end.

(** A file's digest and size. *)
Definition hashFile (content : string) : result (string * Z) :=
  let n := len content in
  check! (n <=? 0) || (MaxArtifactBytes <? n), ErrText "invalid agent executable size";
  Ok (SecurityDigest content, n).

Section executables.
Context (elf_of : string → option Elf) (build_of : string → option BuildInfo) (arch : string).

Definition verify (content : string) (expected : Metadata) (strict : bool) : result unit :=
  hs <-! hashFile content;
  check! negb (bool_decide (fst hs = md_SHA256 expected)) || negb (snd hs =? md_Bytes expected), ErrText "agent artifact checksum or size mismatch";
  _ <-! verifyELF (elf_of content) arch;
  if strict then VerifyBuildIdentity (build_of content) agentPackage "linux" arch (md_Version expected) (md_Revision expected) else Ok tt.

Definition bootstrapMetadata (content : string) (original : BootstrapOriginal) : result Metadata :=
  _ <-! ValidateOriginal original;
  hs <-! hashFile content;
  _ <-! verifyELF (elf_of content) arch;
  match build_of content with
  | None => Err (ErrText "installed binary is not the agent")
  | Some info =>
      check! negb (bool_decide (bi_Path info = agentPackage)), ErrText "installed binary is not the agent";
      check! negb (bool_decide (setting (bi_Settings info) "GOOS" = "linux")) || negb (bool_decide (setting (bi_Settings info) "GOARCH" = arch)),
        ErrText "installed agent platform mismatch";
      stamps <-! installedStamps (linkerValues (fields (setting (bi_Settings info) "-ldflags"))) None None;
      let '(version, revision) := stamps in
      check! Present original && (bool_decide (is_Some version) || bool_decide (is_Some revision) || negb (bool_decide (bo_SHA256 original = fst hs))),
        ErrText "bootstrap original assertion requires the exact binary with both release stamps absent";
      let v := if Present original then bo_Version original else default "" version in
      check! bool_decide (v = ""), ErrText "installed agent has no version stamp";
      Ok (mkMetadata v (default "unknown" revision) (fst hs) (snd hs))
  end.
Definition installedMetadata (content : string) : result Metadata := bootstrapMetadata content (mkOriginal "" "").
End executables.

(** ** Places and copies *)

(** The files of an installation: the canonical binary, and of each operation its
    candidate and its backup. *)
Inductive place := Binary | Candidate (op : string) | Backup (op : string).
#[export] Instance place_eq_dec : EqDecision place.
Proof. solve_decision. Defined.
#[export] Instance place_countable : Countable place.
Proof.
  refine (inj_countable' (fun p => match p with Binary => (0%nat, "") | Candidate op => (1%nat, op) | Backup op => (2%nat, op) end)
            (fun x => match x with (0%nat, _) => Binary | (1%nat, op) => Candidate op | (_, op) => Backup op end) _).
  by intros [].
Defined.
Definition BinaryPath : string := "/usr/local/bin/veyport-agent".
Definition stage (op : string) : string := "/usr/local/bin/.veyport-agent-update-" +:+ op.
Definition path_of (p : place) : string :=
  match p with
  | Binary => BinaryPath
  | Candidate op => stage op +:+ "/candidate"
  | Backup op => "/usr/local/bin/.veyport-agent-backup-" +:+ op
  end.

(** Different places are different files. *)
Lemma append_cancel_r s1 s2 t : s1 +:+ t = s2 +:+ t → s1 = s2.
Proof.
  intros H. apply (f_equal String.list_ascii_of_string) in H.
  assert (Happ : ∀ a b, String.list_ascii_of_string (a +:+ b) = String.list_ascii_of_string a ++ String.list_ascii_of_string b).
  { induction a as [|c a IH]; intros b; [done|]. cbn. by rewrite <- IH. }
  rewrite !Happ in H. apply app_inv_tail in H. rewrite <- (String.string_of_list_ascii_of_string s1), H. apply String.string_of_list_ascii_of_string.
Qed.
Lemma path_of_inj : Inj (=) (=) path_of.
Proof.
  intros [|op|op] [|op'|op'] H; try discriminate H; [done|..]; f_equal.
  - apply append_cancel_r in H. by apply (inj (String.append _)) in H.
  - by apply (inj (String.append _)) in H.
Qed.

(** The three copies of the supervisor. *)
Inductive copy := Preserve (op : string) | Install (op : string) | Restore (op : string).
Definition source (k : copy) : place := match k with Preserve _ => Binary | Install op => Candidate op | Restore op => Backup op end.
Definition destination (k : copy) : place := match k with Preserve op => Backup op | Install _ | Restore _ => Binary end.
Definition replaces (k : copy) : bool := match k with Preserve _ => false | _ => true end.
Definition copied_op (k : copy) : string := match k with Preserve op | Install op | Restore op => op end.

(** ** The journal: sections under its lock *)

Definition requestRecord (req : option UpdateMessage) (original : Metadata) (now1 now2 : Time) : result record :=
  match req with
  | Some (AgentUpdateRequest op version revision sha256 bytes expires) =>
      let r := mkRecord 1 op (mkMetadata version revision sha256 bytes) original expires "downloading" false in
      _ <-! validate r;
      check! (FromUnixMilli expires - now1 <=? 0) || (15 * Minute <? FromUnixMilli expires - now2), ErrText "update operation expired or unbounded";
      match CompareVersions version (md_Version original) with
      | Some cmp => check! cmp <=? 0, ErrText "update does not advance the installed version"; Ok r
      | None => Err (ErrText "update does not advance the installed version")
      end
  | _ => Err (ErrText "missing update request")
  end.

Definition canSupersede (previous : option record) (current : Metadata) (newOperation : string) (now : Time) : bool :=
  match previous with
  | None => false
  | Some p =>
      negb (bool_decide (rc_Operation p = newOperation)) && bool_decide (rc_State p ∈ ["rolled_back"; "rolling_back"; "downloading"; "staged"])
      && negb (rc_Confirmed p) && (rc_Expires p + 190000 <? UnixMilli now) && sameIdentity current (rc_Original p)
  end.

(** A section answers, and may leave a record to write. *)
Definition section (A : Type) : Type := result (option record * A).

(** The intent of [Begin] ([refuse_same]) and of the bootstrap helper. *)
Definition intent (entry : record) (original : Metadata) (refuse_same : bool) (now : Time) (previous : option record) : section unit :=
  check! match previous with
         | Some p => (active p && negb (canSupersede previous original (rc_Operation entry) now)) || (refuse_same && bool_decide (rc_Operation p = rc_Operation entry))
         | None => false
         end, ErrText (if refuse_same then "update journal is active, stale, or requires recovery" else "update journal requires recovery before bootstrap");
  Ok (Some entry, tt).
Definition errJournalChanged : goerr := ErrText "update operation journal changed".
Definition transition (operation state : string) (entry : option record) : section unit :=
  match entry with
  | Some e =>
      check! negb (bool_decide (rc_Operation e = operation)), errJournalChanged;
      check! rc_Confirmed e, ErrText "update operation is already durably confirmed";
      Ok (Some (with_state e state false), tt)
  | None => Err errJournalChanged
  end.
(** The answer: a success is already durable. *)
Definition beginRollback (operation : string) (entry : option record) : section bool :=
  match entry with
  | Some e =>
      check! negb (bool_decide (rc_Operation e = operation)), errJournalChanged;
      if rc_Confirmed e then
        if bool_decide (rc_State e = "succeeded") then Ok (None, true) else Err (ErrText "rollback was already durably confirmed")
      else Ok (Some (with_state e "rolling_back" false), false)
  | None => Err errJournalChanged
  end.
(** The journal part of [Confirm]; the answer: the journal was written. *)
Definition confirm (current : Metadata) (operation state : string) (entry : option record) : section bool :=
  match entry with
  | Some e =>
      check! negb (bool_decide (rc_Operation e = operation)), ErrText "stale update confirmation";
      if rc_Confirmed e
         && ((bool_decide (state = "succeeded") && bool_decide (rc_State e = "succeeded") && sameIdentity current (rc_Target e))
             || (bool_decide (state = "rolled_back") && bool_decide (rc_State e = "rolled_back") && sameIdentity current (rc_Original e)))
      then Ok (None, false)
      else if bool_decide (state = "succeeded") && bool_decide (rc_State e ∈ ["reconnecting"; "installing"]) && sameIdentity current (rc_Target e)
      then Ok (Some (with_state e "succeeded" true), true)
      else if bool_decide (state = "rolled_back") && bool_decide (rc_State e ∈ ["rolling_back"; "rolled_back"]) && sameIdentity current (rc_Original e)
      then Ok (Some (with_state e "rolled_back" true), true)
      else Err (ErrText "update confirmation does not match running artifact")
  | None => Err (ErrText "stale update confirmation")
  end.

(** ** The running agent's view *)

Record Runtime := mkRuntime { rt_capabilities : UpdateCapabilities; rt_budget : Budget; rt_lease : bool }.
Definition identity (c : UpdateCapabilities) : Metadata := mkMetadata (uc_Version c) (uc_Revision c) (uc_Sha256 c) 0.
Definition set_lease (r : Runtime) (budget : Budget) (lease : bool) : Runtime := mkRuntime (rt_capabilities r) budget lease.

Definition releaseLease (r : Runtime) : Runtime := if rt_lease r then set_lease r (EndMaintenance (rt_budget r)) false else r.

(** The first section of [Begin]: the answer is whether the lease was held for an
    operation that may be superseded. *)
Definition admitUpdate (r : Runtime) (previous : result (option record)) (op : string) (now : Time) : Runtime * result bool :=
  let c := rt_capabilities r in
  if negb (uc_Supported c) then (r, Err (ErrText (uc_Reason c))) else
  let previousLease := rt_lease r && match previous with Ok p => canSupersede p (identity c) op now | Err _ => false end in
  if rt_lease r then
    if previousLease then (r, Ok true) else (r, Err (ErrText "agent has active work or another update"))
  else
    let '(b, ok) := TryMaintenance (rt_budget r) in
    if ok then (set_lease r b true, Ok false) else (r, Err (ErrText "agent has active work or another update")).

Definition statusOf (c : UpdateCapabilities) (op state : string) : AgentUpdateStatus :=
  mkStatus op state (uc_Version c) (uc_Revision c) (uc_Sha256 c) (uc_BootId c).

Definition ResumeStatus (r : Runtime) (entry : result (option record)) : Runtime * option AgentUpdateStatus :=
  match entry with
  | Ok (Some e) =>
      let c := rt_capabilities r in
      let current := identity c in
      let status state := Some (statusOf c (rc_Operation e) state) in
      if bool_decide (rc_State e = "failed") && sameIdentity current (rc_Original e) then (releaseLease r, status "failed")
      else if rc_Confirmed e then
        (r, if bool_decide (rc_State e = "succeeded") && sameIdentity current (rc_Target e) then status "confirmed"
            else if bool_decide (rc_State e = "rolled_back") && sameIdentity current (rc_Original e) then status "rollback_confirmed" else None)
      else (r, if bool_decide (rc_State e ∈ ["reconnecting"; "installing"]) && sameIdentity current (rc_Target e) then status "reconnecting"
               else if bool_decide (rc_State e ∈ ["rolled_back"; "rolling_back"]) && sameIdentity current (rc_Original e) then status "rolled_back" else None)
  | _ => (r, None)
  end.

(** The answers of the host to a starting agent. *)
Record Host := mkHost {
  hs_os : string; hs_arch : string; hs_uid : Z; hs_canonical : bool; hs_binary : bool; hs_installation : result unit;
  hs_hash : string; hs_boot : string; hs_installed : result Metadata; hs_journal : result (option record);
}.
Definition newRuntime (version revision : string) (host : Host) (budget : Budget) : Runtime :=
  let caps reason := mkCapabilities 1 (hs_os host) (hs_arch host) version revision (hs_hash host) (hs_boot host) (bool_decide (reason = "")) reason 1 0 in
  let refused reason := mkRuntime (caps reason) budget false in
  if negb (bool_decide (hs_os host = "linux")) || (negb (bool_decide (hs_arch host = "amd64")) && negb (bool_decide (hs_arch host = "arm64")))
  then refused "update requires Linux amd64 or arm64"
  else if negb (hs_uid host =? 0) then refused "update requires a root-owned system service"
  else if negb (hs_canonical host) then refused "update requires the canonical enrolled mTLS installation"
  else if negb (hs_binary host) then refused "agent is not running from the canonical binary path"
  else match hs_installation host with
  | Err e => mkRuntime (mkCapabilities 1 (hs_os host) (hs_arch host) version revision (hs_hash host) (hs_boot host) false (ErrorText e) 1 0) budget false
  | Ok _ =>
      if match hs_installed host with
         | Ok m => negb (bool_decide (md_Version m = version)) || negb (bool_decide (md_Revision m = revision)) || negb (bool_decide (md_SHA256 m = hs_hash host))
         | Err _ => true
         end || bool_decide (revision = "unknown") || bool_decide (hs_boot host = "")
      then refused "installed agent build identity cannot be verified"
      else match hs_journal host with
      | Err _ => refused "update journal requires operator recovery"
      | Ok journal =>
          if match journal with Some e => active e | None => false end then
            let '(b, ok) := TryMaintenance budget in
            if ok then mkRuntime (caps "") b true else refused "update maintenance lease unavailable"
          else mkRuntime (caps "") budget false
      end
  end.
(** The boot identity stays while the process lives. *)
Definition Recheck (r : Runtime) (host : Host) : Runtime :=
  let c := rt_capabilities r in
  if uc_Supported c then r else
  let next := newRuntime (uc_Version c) (uc_Revision c) host (rt_budget r) in
  let n := rt_capabilities next in
  mkRuntime (mkCapabilities (uc_ProtocolVersion n) (uc_Os n) (uc_Arch n) (uc_Version n) (uc_Revision n) (uc_Sha256 n) (uc_BootId c) (uc_Supported n) (uc_Reason n)
               (uc_ActivityQuiescenceVersion n) (uc_ActiveActivities n)) (rt_budget next) (rt_lease next).

(** ** Calls *)

(** A message of the download stream, or its end. *)
Inductive received := Chunk (offset : Z) (data : string) | StreamEnd | StreamError.

Inductive ncall : Type → Type :=
| NNow : ncall Time
| NMetadata (original : BootstrapOriginal) : ncall (result Metadata)      (* of the installed binary *)
| NCheckDir (path : string) (private : bool) : ncall (result unit)
(* the locks and the journal *)
| NOwn : ncall (result unit)
| NDisown : ncall unit
| NRead : ncall (result (option record))
| NIntent (entry : record) (original : Metadata) (refuse_same : bool) : ncall (result unit)
| NStage (entry : record) : ncall (result unit)
| NMark (entry : record) : ncall unit
| NTransition (operation state : string) : ncall (result unit)
| NBeginRollback (operation : string) : ncall (result bool)
(* the running agent *)
| NAdmit (op : string) : ncall (result bool)
| NReleaseLease : ncall unit
| NConfirm (operation state : string) : ncall (result unit)
| NResume : ncall (option AgentUpdateStatus)
| NEmit (op state reason : string) : ncall unit
(* files *)
| NMkdir (op : string) : ncall (result unit)
| NSync : ncall (result unit)
| NCreate (op : string) : ncall (result unit)
| NWrite (op : string) (data : string) : ncall (result unit)
| NChmod (op : string) : ncall (result unit)
| NVerify (p : place) (expected : Metadata) (strict : bool) : ncall (result unit)
| NVerifyBytes (content : string) (expected : Metadata) : ncall (result unit)
| NExists (p : place) : ncall (result bool)
| NReadFile (p : place) (limit : Z) : ncall (result string)
| NReplace (k : copy) (content : string) : ncall (result unit)
| NRemoveStage (op : string) : ncall unit
(* the hub and the service manager *)
| NOpenStream (op : string) : ncall (result unit)
| NRecv : ncall received
| NAuthorize (op : string) : ncall (result (option (string * Z)))
| NBootstrapRPC (ticket : string) (original : Metadata) (asserted : bool) : ncall (result UpdateMessage)
| NLaunch (op : string) : ncall (result unit)
| NService (start : bool) : ncall (result unit)
| NTick : ncall bool.                                                      (* false: the time is over *)

Abbreviation prog := (Prog.prog ncall).

(** [fmt.Errorf("...: %w", err)] *)
Definition wrap {A} (prefix : string) (p : prog (result A)) : prog (result A) :=
  r <- p; Ret (match r with Ok a => Ok a | Err e => Err (ErrText (prefix +:+ ErrorText e)) end).

(** ** The supervisor (supervisor.go) *)

(** The copy hashes what it copies; [NReplace] renames the synced temporary file. *)
Definition copyVerified (k : copy) (expected : Metadata) : prog (result unit) :=
  _ <-? call_ (NVerify (source k) expected (match k with Install _ => true | _ => false end));
  _ <-? call_ (NCheckDir "/usr/local/bin" false);
  exists_ <-? call_ (NExists (destination k));
  fail! negb (replaces k) && exists_, ErrText "rollback destination already exists";
  content <-? call_ (NReadFile (source k) (md_Bytes expected + 1));
  fail! negb (len content =? md_Bytes expected) || negb (bool_decide (SecurityDigest content = md_SHA256 expected)),
    ErrText "agent artifact changed during installation";
  call_ (NReplace k content).

(** The wait until the journal is confirmed: [ticks] is how often the timer fires
    before the time is over. *)
Fixpoint waitConfirmed (ticks : nat) (operation state : string) : prog (result unit) :=
  entry <- call_ NRead;
  match entry with
  | Ok (Some e) =>
      fail! negb (bool_decide (rc_Operation e = operation)), ErrText "update confirmation journal unavailable";
      if rc_Confirmed e && bool_decide (rc_State e = state) then Ret (Ok tt) else
      match ticks with
      | O => Ret (Err (ErrText "Hub did not confirm actual agent reconnection"))
      | S ticks =>
          tick <- call_ NTick;
          if (tick : bool) then waitConfirmed ticks operation state else Ret (Err (ErrText "Hub did not confirm actual agent reconnection"))
      end
  | _ => Ret (Err (ErrText "update confirmation journal unavailable"))
  end.

Definition cleanupStage (operation : string) : prog unit :=
  r <- call_ (NCheckDir (stage operation) true);
  match r with Ok _ => call_ (NRemoveStage operation) | Err _ => Ret tt end.

Definition rollback (ticks : nat) (entry : record) (cause : goerr) : prog (result unit) :=
  let op := rc_Operation entry in
  began <- call_ (NBeginRollback op);
  match began with
  | Err e => Ret (Err (ErrText ("update failed and rollback journal unavailable: " +:+ ErrorText e)))
  | Ok true => Ret (Ok tt)
  | Ok false =>
      _ <-? wrap "update failed and rollback artifact invalid: " (call_ (NVerify (Backup op) (rc_Original entry) false));
      _ <-? wrap "update failed and service stop for rollback failed: " (call_ (NService false));
      _ <-? wrap "update failed and atomic rollback failed: " (copyVerified (Restore op) (rc_Original entry));
      _ <-? call_ (NTransition op "rolled_back");
      _ <-? wrap "original binary restored but service restart failed: " (call_ (NService true));
      _ <-? waitConfirmed ticks op "rolled_back" or ErrText ("original binary restored; reconnection remains unconfirmed: " +:+ ErrorText cause);
      Ret (Err (ErrText ("update failed; Hub confirmed original agent restored: " +:+ ErrorText cause)))
  end.
Definition recoverOperation (ticks : nat) (entry : record) (cause : goerr) : prog (result unit) :=
  r <- rollback ticks entry cause;
  _ <- (if is_ok r then cleanupStage (rc_Operation entry) else Ret tt);
  Ret r.

(** [p], or on an error the transition to failed and the answer [e]. *)
Definition or_failed {A} (operation : string) (p : prog (result A)) (f : A → prog (result unit)) : prog (result unit) :=
  r <- p;
  match r with
  | Ok a => f a
  | Err e => _ <- call_ (NTransition operation "failed"); Ret (Err e)
  end.

(** From the transition to installing on: every error leads to the rollback. *)
Definition replaceBinary (forward back : nat) (entry : record) : prog (result unit) :=
  let op := rc_Operation entry in
  let or_recover p k := (r <- p; match r with Ok _ => k | Err e => recoverOperation back entry e end) in
  or_recover (call_ (NService false))
    (or_recover (copyVerified (Install op) (rc_Target entry))
      (or_recover (call_ (NTransition op "reconnecting"))
        (or_recover (call_ (NService true))
          (or_recover (waitConfirmed forward op "succeeded")
            (_ <- cleanupStage op; Ret (Ok tt)))))).

Definition superviseOwned (forward back : nat) (operation : string) : prog (result unit) :=
  read <- call_ NRead;
  match read with
  | Ok (Some entry) =>
      fail! negb (bool_decide (rc_Operation entry = operation)) || negb (bool_decide (rc_State entry = "staged")) || rc_Confirmed entry,
        ErrText "supervisor operation is not staged";
      or_failed operation (now <- call_ NNow; Ret (if rc_Expires entry <=? UnixMilli now then Err (ErrText "staged update expired") else Ok tt)) (fun _ =>
      or_failed operation (call_ (NVerify (Candidate operation) (rc_Target entry) true)) (fun _ =>
      or_failed operation (call_ (NVerify Binary (rc_Original entry) false)) (fun _ =>
      or_failed operation (answer <- call_ (NAuthorize operation);
                           now <- call_ NNow;
                           Ret (match answer with
                                | Ok (Some (id, expires)) =>
                                    if negb (bool_decide (id = operation)) || (rc_Expires entry <? expires) || (expires <=? UnixMilli now)
                                    then Err (ErrText "live Hub update authorization refused") else Ok expires
                                | _ => Err (ErrText "live Hub update authorization refused")
                                end)) (fun expires =>
      or_failed operation (wrap "cannot preserve update rollback binary: " (copyVerified (Preserve operation) (rc_Original entry))) (fun _ =>
      or_failed operation (now <- call_ NNow; Ret (if expires <=? UnixMilli now then Err (ErrText "live Hub update authorization expired") else Ok tt)) (fun _ =>
      _ <-? call_ (NTransition operation "installing");
      replaceBinary forward back entry))))))
  | _ => Ret (Err (ErrText "supervisor operation is not staged"))
  end.
Definition runOperation (forward back : nat) (operation : string) : prog (result unit) :=
  _ <-? call_ NOwn;
  r <- superviseOwned forward back operation;
  _ <- call_ NDisown;
  Ret r.

(** ** The download and the staging (runtime.go) *)

(** The loop over the stream: every chunk has a byte, so that as many turns as the
    target has bytes, and one for the end, are enough. *)
Fixpoint receiveArtifact (fuel : nat) (op : string) (size got : Z) : prog (result Z) :=
  match fuel with
  | O => Ret (Err (ErrText "invalid update artifact stream"))
  | S fuel =>
      message <- call_ NRecv;
      match message with
      | StreamEnd => Ret (Ok got)
      | StreamError => Ret (Err (ErrText "update download interrupted"))
      | Chunk offset data =>
          fail! (len data =? 0) || (Z.shiftl 64 10 <? len data) || negb (offset =? got) || (size - got <? len data), ErrText "invalid update artifact stream";
          _ <-? call_ (NWrite op data);
          receiveArtifact fuel op size (got + len data)
      end
  end.
Definition download (entry : record) : prog (result unit) :=
  let op := rc_Operation entry in
  let size := md_Bytes (rc_Target entry) in
  _ <-? call_ (NMkdir op) or ErrText "cannot create private update staging directory";
  _ <-? call_ NSync;
  _ <-? call_ (NCreate op);
  _ <-? call_ (NOpenStream op) or ErrText "authenticated update download unavailable";
  got <-? receiveArtifact (S (Z.to_nat size)) op size 0;
  fail! negb (got =? size), ErrText "update download truncated";
  _ <-? call_ NSync;
  call_ (NVerify (Candidate op) (rc_Target entry) true).
Definition finishStaging (entry : record) : prog (result unit) :=
  _ <-? call_ (NVerify (Candidate (rc_Operation entry)) (rc_Target entry) true);
  _ <-? call_ (NChmod (rc_Operation entry));
  _ <-? call_ NSync;
  call_ (NStage (with_state entry "staged" (rc_Confirmed entry))).

(** [markFailed]: the record as this process has it is written, whatever the
    journal holds by now. *)
Definition markFailed (entry : record) (reason : string) : prog unit :=
  _ <- call_ (NMark (with_state entry "failed" (rc_Confirmed entry)));
  call_ (NEmit (rc_Operation entry) "failed" reason).

(** What [Begin] waits for when the supervisor runs. *)
Fixpoint watchSupervisor (ticks : nat) (op : string) : prog unit :=
  entry <- call_ NRead;
  if match entry with Ok (Some e) => bool_decide (rc_Operation e = op) && bool_decide (rc_State e = "failed") | _ => false end
  then _ <- call_ NReleaseLease; call_ (NEmit op "failed" "update supervisor refused installation")
  else match ticks with
       | O => Ret tt
       | S ticks => tick <- call_ NTick; if (tick : bool) then watchSupervisor ticks op else Ret tt
       end.

(** From the intent on; the answer: a supervisor has the operation. *)
Definition stageAndLaunch (entry : record) : prog bool :=
  _ <- call_ (NEmit (rc_Operation entry) "downloading" "");
  got <- download entry;
  match got with
  | Err e => _ <- markFailed entry (ErrorText e); _ <- call_ NDisown; Ret false
  | Ok _ =>
      staged <- finishStaging entry;
      match staged with
      | Err e => _ <- markFailed entry (ErrorText e); _ <- call_ NDisown; Ret false
      | Ok _ =>
          _ <- call_ NDisown;
          launched <- call_ (NLaunch (rc_Operation entry));
          match launched with
          | Err _ => _ <- markFailed entry "cannot start tracked update supervisor"; Ret false
          | Ok _ => Ret true
          end
      end
  end.

(** The answer: the intent was written, and a supervisor has the operation.  A lock,
    a read or a write that fails is reported with its own text. *)
Definition beginOwned (req : option UpdateMessage) (op : string) : prog (bool * bool) :=
  let failed reason := (_ <- call_ (NEmit op "failed" reason); Ret (false, false)) in
  installed <- call_ (NMetadata (mkOriginal "" ""));
  match installed with
  | Err _ => failed "installed binary cannot be verified"
  | Ok original =>
      now1 <- call_ NNow;
      now2 <- call_ NNow;
      match requestRecord req original now1 now2 with
      | Err e => failed (ErrorText e)
      | Ok entry =>
          owner <- call_ NOwn;
          match owner with
          | Err _ => failed "another tracked update supervisor is still active"
          | Ok _ =>
              written <- call_ (NIntent entry original true);
              match written with
              | Err e => _ <- call_ (NEmit op "failed" (ErrorText e)); _ <- call_ NDisown; Ret (false, false)
              | Ok _ => supervised <- stageAndLaunch entry; Ret (true, supervised)
              end
          end
      end
  end.

Definition request_op (req : option UpdateMessage) : string := match req with Some (AgentUpdateRequest op _ _ _ _ _) => op | _ => "" end.
Definition Begin (ticks : nat) (req : option UpdateMessage) : prog unit :=
  let op := request_op req in
  admitted <- call_ (NAdmit op);
  match admitted with
  | Err e => call_ (NEmit op "failed" (ErrorText e))
  | Ok previousLease =>
      r <- beginOwned req op;
      let '(replacedIntent, supervised) := r in
      if (supervised : bool) then watchSupervisor ticks op else
      _ <- (if negb previousLease || replacedIntent then call_ NReleaseLease else Ret tt);
      if replacedIntent && operationPattern op then cleanupStage op else Ret tt
  end.

(** ** The bootstrap helper (bootstrap.go) *)

(** Once the intent is written: the candidate is copied from the helper's own
    executable. *)
Definition bootstrapStage (entry : record) (executable : string) : prog (result unit) :=
  let op := rc_Operation entry in
  _ <-? call_ (NMkdir op);
  _ <-? call_ (NCreate op);
  _ <-? call_ (NWrite op executable);
  _ <-? call_ NSync;
  finishStaging entry.

(** [executable]: the bytes the helper runs from, up to one more than the target
    has; [placed]: it is a private candidate beside the binary. *)
Definition bootstrap (ticket version revision executable : string) (placed : bool) (assertion : BootstrapOriginal) : prog (result unit) :=
  original <-? call_ (NMetadata assertion);
  _ <-? call_ (NCheckDir "/etc/veyport/tls" true);
  req <-? call_ (NBootstrapRPC ticket original (Present assertion)) or ErrText "Hub refused enrolled update bootstrap";
  now1 <- call_ NNow;
  now2 <- call_ NNow;
  match requestRecord (Some req) original now1 now2 with
  | Err e => Ret (Err e)
  | Ok entry =>
      let op := rc_Operation entry in
      fail! negb (bool_decide (md_Version (rc_Target entry) = version)) || negb (bool_decide (md_Revision (rc_Target entry) = revision)),
        ErrText "bootstrap candidate does not match the authorized Hub release";
      fail! negb placed, ErrText "bootstrap candidate must use private canonical staging";
      _ <-? call_ (NVerifyBytes executable (rc_Target entry));
      _ <-? call_ NOwn or ErrText "another tracked update supervisor is still active";
      written <- call_ (NIntent entry original false);
      match written with
      | Err e => _ <- call_ NDisown; Ret (Err e)
      | Ok _ =>
          staged <- bootstrapStage entry executable;
          launched <- (match staged with
                       | Err e => Ret (Err e)
                       | Ok _ => _ <- call_ NDisown; call_ (NLaunch op)
                       end);
          match launched with
          | Ok _ => Ret (Ok tt)
          | Err e =>
              _ <- call_ (NMark (with_state entry "failed" (rc_Confirmed entry)));
              _ <- cleanupStage op;
              _ <- call_ NDisown;
              Ret (Err e)
          end
      end
  end.
