(* ===== verification/InstallerProtocol.v ===== *)
(** Runs of the updater of one node (AgentInstaller.v): the running agent, bootstrap
    helpers and supervisors interleave, call by call; any of them can be killed at
    any point, any call can fail, and a write can report an error although it took
    place.

    [n_log] and [n_phase] are not state of the program: the log remembers what was
    read, checked and written, the latest first, and the phases how far the
    processes of an operation have come. *)

From S2P Require Import Prelude Prog Codec Filepath Budget Governance Version AgentUpdates AgentInstaller.
Local Open Scope prog_scope.

(** ** The node *)

Inductive nfact :=
| FBegan (op : string)
| FEntry (r : record)                                  (* the journal was read *)
| FWrote (r : record)                                  (* and written *)
| FVerified (p : place) (m : Metadata) (strict : bool)
| FTime (now : Time)
| FAuthorized (op : string) (expires : Z)
| FReplaced (k : copy) (content : string).

(** How far the processes of an operation have come: the agent or the helper has
    it, has written its intent, has given up; a supervisor is started; it goes
    forward, goes back, has given up. *)
Inductive nphase := BBegun | BWritten | BStopped | SLaunched | SForward | SRolling | SStopped.

Record Node := mkNode {
  n_files : gmap place string; n_journal : option record; n_owner : option nat; n_runtime : Runtime; n_units : gset string;
  n_log : list nfact; n_phase : gmap string nphase;
}.
Definition on_files (w : Node) v := mkNode v (n_journal w) (n_owner w) (n_runtime w) (n_units w) (n_log w) (n_phase w).
Definition on_journal (w : Node) v := mkNode (n_files w) v (n_owner w) (n_runtime w) (n_units w) (n_log w) (n_phase w).
Definition on_owner (w : Node) v := mkNode (n_files w) (n_journal w) v (n_runtime w) (n_units w) (n_log w) (n_phase w).
Definition on_runtime (w : Node) v := mkNode (n_files w) (n_journal w) (n_owner w) v (n_units w) (n_log w) (n_phase w).
Definition on_units (w : Node) v := mkNode (n_files w) (n_journal w) (n_owner w) (n_runtime w) v (n_log w) (n_phase w).
Definition noted (w : Node) (fs : list nfact) := mkNode (n_files w) (n_journal w) (n_owner w) (n_runtime w) (n_units w) (fs ++ n_log w) (n_phase w).
Definition in_phase (w : Node) (op : string) v := mkNode (n_files w) (n_journal w) (n_owner w) (n_runtime w) (n_units w) (n_log w) (<[op := v]> (n_phase w)).

(** What the node does not decide: an error before the effect of a call, an error
    after it, times, and what the hub and the service manager answer. *)
Record NOracle := mkNOracle {
  no_fail : option goerr; no_late : option goerr; no_now : Time; no_received : received; no_authorized : result (option (string * Z));
  no_request : result UpdateMessage; no_started : bool; no_tick : bool;
}.

Section node.
Context (elf_of : string → option Elf) (build_of : string → option BuildInfo) (arch : string).

Definition nfailing {A} (o : NOracle) (r : result A) : result A := match no_fail o with Some e => Err e | None => r end.
(** The record is written, if it is valid; the directory may not be synced. *)
Definition write (o : NOracle) (w : Node) (r : record) : Node * result unit :=
  match nfailing o (validate r) with
  | Err e => (w, Err e)
  | Ok _ => (noted (on_journal w (Some r)) [FWrote r], match no_late o with Some e => Err e | None => Ok tt end)
  end.
(** A section: the lock or the read may fail. *)
Definition journalled {A} (o : NOracle) (w : Node) (s : option record → section A) : Node * result A :=
  match nfailing o (s (n_journal w)) with
  | Err e => (w, Err e)
  | Ok (None, a) => (w, Ok a)
  | Ok (Some r, a) => let '(w', x) := write o w r in (w', match x with Ok _ => Ok a | Err e => Err e end)
  end.
Definition on_file {A} (o : NOracle) (w : Node) (p : place) (f : string → result A) : result A :=
  nfailing o (match n_files w !! p with Some c => f c | None => Err (ErrText "no such file") end).
Definition to_string (l : list Z) : string := string_of_bytes l.

Definition nanswer (thread : nat) (o : NOracle) (w : Node) {B} (c : ncall B) : Node * B :=
  match c in ncall B return Node * B with
  | NNow => (w, no_now o)
  | NMetadata original => (w, on_file o w Binary (fun c => bootstrapMetadata elf_of build_of arch c original))
  | NCheckDir _ _ | NSync | NChmod _ | NOpenStream _ | NService _ => (w, nfailing o (Ok tt))
  | NOwn => match n_owner w with
            | Some _ => (w, Err (ErrText "another update process owns the installation"))
            | None => match no_fail o with Some e => (w, Err e) | None => (on_owner w (Some thread), Ok tt) end
            end
  | NDisown => (if bool_decide (n_owner w = Some thread) then on_owner w None else w, tt)
  | NRead => (w, nfailing o (Ok (n_journal w)))
  | NIntent entry original refuse_same =>
      let '(w', r) := journalled o w (intent entry original refuse_same (no_now o)) in
      (in_phase w' (rc_Operation entry) (match r with Ok _ => BWritten | Err _ => BStopped end), r)
  | NStage entry => write o w entry
  | NMark entry => ((write o w entry).1, tt)
  | NTransition operation state => journalled o w (transition operation state)
  | NBeginRollback operation =>
      let '(w', r) := journalled o w (beginRollback operation) in
      (in_phase w' operation (match r with Ok false => SRolling | _ => SStopped end), r)
  | NAdmit op => let '(rt, r) := admitUpdate (n_runtime w) (nfailing o (Ok (n_journal w))) op (no_now o) in (on_runtime w rt, r)
  | NReleaseLease => (on_runtime w (releaseLease (n_runtime w)), tt)
  | NConfirm operation state =>
      let '(w', r) := journalled o w (confirm (identity (rt_capabilities (n_runtime w))) operation state) in
      match r with
      | Ok true => (on_runtime w' (releaseLease (n_runtime w')), Ok tt)
      | Ok false => (w', Ok tt)
      | Err e => (w', Err e)
      end
  | NResume => let '(rt, s) := ResumeStatus (n_runtime w) (nfailing o (Ok (n_journal w))) in (on_runtime w rt, s)
  | NEmit _ _ _ => (w, tt)
  | NMkdir op => (w, nfailing o (Ok tt))
  | NCreate op => match nfailing o (if bool_decide (is_Some (n_files w !! Candidate op)) then Err (ErrText "file exists") else Ok tt) with
                  | Ok _ => (on_files w (<[Candidate op := ""]> (n_files w)), Ok tt)
                  | Err e => (w, Err e)
                  end
  | NWrite op data => match no_fail o with
                      | Some e => (w, Err e)
                      | None => (on_files w (<[Candidate op := default "" (n_files w !! Candidate op) +:+ data]> (n_files w)), Ok tt)
                      end
  | NVerify p expected strict => (w, on_file o w p (fun c => verify elf_of build_of arch c expected strict))
  | NVerifyBytes content expected => (w, nfailing o (verify elf_of build_of arch content expected true))
  | NExists p => (w, nfailing o (Ok (bool_decide (is_Some (n_files w !! p)))))
  | NReadFile p limit => (w, on_file o w p (fun c => Ok (to_string (take (Z.to_nat limit) (bytes c)))))
  | NReplace k content =>
      match no_fail o with
      | Some e => (w, Err e)
      | None =>
          let w' := on_files w (<[destination k := content]> (n_files w)) in
          match no_late o with Some e => (noted w' [FReplaced k content], Err e) | None => (w', Ok tt) end
      end
  | NRemoveStage op => (on_files w (delete (Candidate op) (n_files w)), tt)
  | NRecv => (w, no_received o)
  | NAuthorize op => (w, no_authorized o)
  | NBootstrapRPC _ _ _ =>
      (match no_request o with
       | Ok req => noted (in_phase w (request_op (Some req)) BBegun) [FBegan (request_op (Some req))]
       | Err _ => w
       end, no_request o)
  | NLaunch op =>
      match no_fail o with
      | Some e => (if no_started o then on_units w ({[op]} ∪ n_units w) else w, Err e)
      | None => (in_phase (on_units w ({[op]} ∪ n_units w)) op SLaunched, Ok tt)
      end
  | NTick => (w, no_tick o)
  end.

(** What a program learns from an answer. *)
Definition nlearned {B} (c : ncall B) : B → list nfact :=
  match c in ncall B return B → list nfact with
  | NNow => fun now => [FTime now]
  | NRead => fun r => match r with Ok (Some e) => [FEntry e] | _ => [] end
  | NVerify p m strict => fun r => match r with Ok _ => [FVerified p m strict] | Err _ => [] end
  | NAuthorize op => fun r => match r with Ok (Some (id, expires)) => if bool_decide (id = op) then [FAuthorized op expires] else [] | _ => [] end
  | NReplace k content => fun r => match r with Ok _ => [FReplaced k content] | Err _ => [] end
  | _ => fun _ => []
  end.
Definition nperform (thread : nat) (o : NOracle) (w : Node) {B} (c : ncall B) : Node * B :=
  let '(w', b) := nanswer thread o w c in (noted w' (nlearned c b), b).

(** The hub sends an operation once. *)
Definition unbegun (w : Node) (op : string) : bool := bool_decide (n_phase w !! op = None).
Definition once (o : NOracle) (w : Node) {B} (c : ncall B) : bool :=
  match c with
  | NBootstrapRPC _ _ _ => match no_request o with Ok req => unbegun w (request_op (Some req)) | Err _ => true end
  | _ => true
  end.

(** ** Runs *)

Record Machine := mkMachine { mc_node : Node; mc_threads : list (prog unit) }.
Inductive nevent :=
| VBegin (ticks : nat) (req : option UpdateMessage)            (* the hub asks the running agent to update *)
| VConfirm (operation state : string)                          (* the hub confirms *)
| VResume                                                      (* the running agent reconnects *)
| VBootstrap (ticket version revision executable : string) (placed : bool) (assertion : BootstrapOriginal)
| VSupervise (op : string) (forward back : nat)                (* the unit of an operation starts *)
| VCall (thread : nat) (o : NOracle)
| VKill (thread : nat)
| VBoot (version revision : string) (host : Host) (budget : Budget)   (* the agent starts again *)
| VRecheck (host : Host).

Definition nstep (m : Machine) (e : nevent) : Machine :=
  let w := mc_node m in
  let spawn w p := mkMachine w (mc_threads m ++ [p]) in
  match e with
  | VBegin ticks req =>
      let op := request_op req in
      if unbegun w op then spawn (noted (in_phase w op BBegun) [FBegan op]) (Begin ticks req) else m
  | VConfirm operation state => spawn w (discard (call_ (NConfirm operation state)))
  | VResume => spawn w (discard (call_ NResume))
  | VBootstrap ticket version revision executable placed assertion => spawn w (discard (bootstrap ticket version revision executable placed assertion))
  | VSupervise op forward back =>
      if decide (op ∈ n_units w) then spawn (in_phase (on_units w (n_units w ∖ {[op]})) op SForward) (discard (runOperation forward back op)) else m
  | VCall n o =>
      match mc_threads m !! n with
      | Some (Call c k) => if once o w c then let '(w', b) := nperform n o w c in mkMachine w' (<[n := k b]> (mc_threads m)) else m
      | _ => m
      end
  | VKill n => mkMachine (if bool_decide (n_owner w = Some n) then on_owner w None else w) (<[n := Ret tt]> (mc_threads m))
  | VBoot version revision host budget => mkMachine (on_runtime w (newRuntime version revision host budget)) (mc_threads m)
  | VRecheck host => mkMachine (on_runtime w (Recheck (n_runtime w) host)) (mc_threads m)
  end.
Definition nrun (m : Machine) (es : list nevent) : Machine := foldl nstep m es.

(** The service manager that answers an error has not started the unit. *)
Definition honest (e : nevent) : bool := match e with VCall _ o => negb (no_started o) | _ => true end.
End node.

(** A node with an installed binary and no update. *)
Definition fresh_node (binary : string) (rt : Runtime) : Machine := mkMachine (mkNode {[ Binary := binary ]} None None rt ∅ [] ∅) [].

(** ** What must precede what *)

Definition advancing (r : record) : Prop := ∃ cmp, CompareVersions (md_Version (rc_Target r)) (md_Version (rc_Original r)) = Some cmp ∧ 0 < cmp.

(** A copy of the supervisor: the journal had the operation, with a version that
    advances; the candidate was the target and the installed binary the original;
    the hub authorized it and its authority was not over; the copy has the
    digest of the target or of the original, and before the target is installed
    the original has been put aside. *)
Definition copy_ok (K : nfact → Prop) (k : copy) (content : string) : Prop :=
  ∃ e, K (FEntry e) ∧ rc_Operation e = copied_op k ∧ advancing e
    ∧ K (FVerified (Candidate (copied_op k)) (rc_Target e) true) ∧ K (FVerified Binary (rc_Original e) false)
    ∧ (∃ expires now, K (FAuthorized (copied_op k) expires) ∧ K (FTime now) ∧ UnixMilli now < expires ≤ rc_Expires e)
    ∧ match k with
      | Install op => SecurityDigest content = md_SHA256 (rc_Target e)
                      ∧ ∃ saved, K (FReplaced (Preserve op) saved) ∧ SecurityDigest saved = md_SHA256 (rc_Original e)
      | _ => SecurityDigest content = md_SHA256 (rc_Original e)
      end.

Definition npre {B} (c : ncall B) (K : nfact → Prop) : Prop :=
  match c with
  | NReplace k content => copy_ok K k content
  | NIntent entry _ _ | NStage entry | NMark entry => advancing entry
  | _ => True
  end.
Definition npost {B} (c : ncall B) (b : B) (f : nfact) : Prop := f ∈ nlearned c b.
Definition nsane {B} (c : ncall B) : B → Prop :=
  match c in ncall B return B → Prop with
  | NRead => fun r => match r with Ok (Some e) => advancing e | _ => True end
  | _ => fun _ => True
  end.
Abbreviation careful Q K p := (justified (@nsane) (@npre) (@npost) Q K p).

Lemma copy_ok_more (K K' : nfact → Prop) k content : knows_le K K' → copy_ok K k content → copy_ok K' k content.
Proof.
  intros H (e & ? & ? & ? & ? & ? & (expires & now & ? & ? & ?) & Hk). exists e. split_and!; auto; [exists expires, now; auto|].
  destruct k; [done| |done]. destruct Hk as (? & saved & ? & ?). split; [done|]. exists saved. auto.
Qed.
Lemma npre_more B (c : ncall B) K K' : knows_le K K' → npre c K → npre c K'.
Proof. intros H. destruct c; cbn; eauto using copy_ok_more. Qed.

Lemma ask {A B} (Q : (nfact → Prop) → A → Prop) (K : nfact → Prop) (c : ncall B) (k : B → prog A) : npre c K →
  (∀ K' b, knows_le K K' → (∀ f, f ∈ nlearned c b → K' f) → nsane c b → careful Q K' (k b)) → careful Q K (Call c k).
Proof. intros Hp Hk. split; [done|]. intros b Hb. apply Hk; [intros f Hf; by left|intros f Hf; by right|done]. Qed.

(** Programs that only make calls without conditions. *)
Definition mild {B} (c : ncall B) : bool := match c with NReplace _ _ | NIntent _ _ _ | NStage _ | NMark _ => false | _ => true end.
Abbreviation harmless p := (plain (@mild) (fun _ => True) p).
Lemma harmless_careful {A} K (p : prog A) : harmless p → careful (fun _ _ => True) K p.
Proof. revert K. induction p as [a|B c k IH]; cbn; intros K Hp; [done|]. destruct Hp as [Hc Hk]. split; [by destruct c|]. intros b _. by apply IH. Qed.
Lemma harmless_bind {A B} (p : prog A) (f : A → prog B) : harmless p → (∀ a, harmless (f a)) → harmless (bind p f).
Proof. intros. by eapply plain_bind. Qed.
Lemma after_harmless {A B} (Q : (nfact → Prop) → B → Prop) K (p : prog A) (f : A → prog B) : harmless p →
  (∀ K' a, knows_le K K' → careful Q K' (f a)) → careful Q K (bind p f).
Proof. intros Hp Hf. eapply justified_bind; [by apply harmless_careful|]. intros K' a Hle _. by apply Hf. Qed.

Create HintDb harmless.
Ltac bare := unfold try_, or_else, wrap, or_failed, call_, discard; cbn [bind].
Ltac harmlessly :=
  repeat (bare;
    lazymatch goal with
    | |- plain _ _ (Call _ _) => split; [reflexivity|intros ?]
    | |- plain _ _ (bind _ _) => apply harmless_bind; [|intros ?]
    | |- plain _ _ (match ?x with _ => _ end) => destruct x
    | |- plain _ (fun _ => True) (Ret _) => exact I
    | |- plain _ _ _ => solve [auto with harmless nocore]
    end).

Lemma waitConfirmed_harmless ticks op state : harmless (waitConfirmed ticks op state).
Proof. induction ticks as [|ticks IH]; cbn [waitConfirmed]; harmlessly. Qed.
Lemma cleanupStage_harmless op : harmless (cleanupStage op).
Proof. unfold cleanupStage. harmlessly. Qed.
Lemma watchSupervisor_harmless ticks op : harmless (watchSupervisor ticks op).
Proof. induction ticks as [|ticks IH]; cbn [watchSupervisor]; harmlessly. Qed.
Lemma receiveArtifact_harmless fuel op size got : harmless (receiveArtifact fuel op size got).
Proof. revert got. induction fuel as [|fuel IH]; intros got; cbn [receiveArtifact]; harmlessly. Qed.
#[export] Hint Resolve waitConfirmed_harmless cleanupStage_harmless watchSupervisor_harmless receiveArtifact_harmless : harmless.
Lemma download_harmless entry : harmless (download entry).
Proof. unfold download. harmlessly. Qed.
#[export] Hint Resolve download_harmless : harmless.

(** What the supervisor has established when it comes to copy. *)
Definition cleared (K : nfact → Prop) (e : record) : Prop :=
  K (FEntry e) ∧ advancing e ∧ K (FVerified (Candidate (rc_Operation e)) (rc_Target e) true) ∧ K (FVerified Binary (rc_Original e) false)
  ∧ ∃ expires now, K (FAuthorized (rc_Operation e) expires) ∧ K (FTime now) ∧ UnixMilli now < expires ≤ rc_Expires e.
Lemma cleared_more (K K' : nfact → Prop) e : knows_le K K' → cleared K e → cleared K' e.
Proof. intros H (? & ? & ? & ? & expires & now & ? & ? & ?). split_and!; auto. exists expires, now. auto. Qed.

Lemma copyVerified_careful (K : nfact → Prop) k expected : (∀ content, SecurityDigest content = md_SHA256 expected → copy_ok K k content) →
  careful (fun K' r => ∀ x, r = Ok x → ∃ c, K' (FReplaced k c) ∧ SecurityDigest c = md_SHA256 expected) K (copyVerified k expected).
Proof.
  intros Hk. unfold copyVerified. bare.
  apply ask; [exact I|]. intros K1 [[]|] L1 _ _; [|done]. apply ask; [exact I|]. intros K2 [[]|] L2 _ _; [|done].
  apply ask; [exact I|]. intros K3 [ex|] L3 _ _; [|done]. destruct (_ && _); [done|]. bare. apply ask; [exact I|]. intros K4 [content|] L4 _ _; [|done].
  destruct (_ || _) eqn:E; [done|]. bool_hyps. bare. apply ask; [apply (copy_ok_more K); [intros f Hf; auto|by apply Hk]|].
  intros K5 [[]|] L5 Hf _; [|done]. intros x _. exists content. split; [apply Hf; by left|done].
Qed.

Lemma wrapped {A} (R : (nfact → Prop) → A → Prop) K prefix (p : prog (result A)) : careful (fun K' r => ∀ x, r = Ok x → R K' x) K p →
  careful (fun K' r => ∀ x, r = Ok x → R K' x) K (wrap prefix p).
Proof. intros Hp. eapply justified_bind; [exact Hp|]. intros K' [a|e] _ Ha; cbn; [done|by intros]. Qed.

Lemma cleared_restores K e content : cleared K e → SecurityDigest content = md_SHA256 (rc_Original e) → copy_ok K (Restore (rc_Operation e)) content.
Proof. intros (? & ? & ? & ? & ?) Hd. by exists e. Qed.
Lemma cleared_preserves K e content : cleared K e → SecurityDigest content = md_SHA256 (rc_Original e) → copy_ok K (Preserve (rc_Operation e)) content.
Proof. intros (? & ? & ? & ? & ?) Hd. by exists e. Qed.

Lemma rollback_careful K ticks e cause : cleared K e → careful (fun _ _ => True) K (rollback ticks e cause).
Proof.
  intros Hc. unfold rollback. bare. apply ask; [exact I|]. intros K1 [[|]|] L1 _ _; [done| |done]. bare.
  apply ask; [exact I|]. intros K2 [[]|] L2 _ _; [|done]. bare. apply ask; [exact I|]. intros K3 [[]|] L3 _ _; [|done]. bare.
  assert (Hc3 : cleared K3 e) by (apply (cleared_more K); [intros f Hf; auto|done]).
  eapply justified_bind; [eapply wrapped, copyVerified_careful; intros content; by apply cleared_restores|].
  intros K4 r _ _. destruct r as [[]|]; [|done]. apply harmless_careful. harmlessly.
Qed.
Lemma recoverOperation_careful K ticks e cause : cleared K e → careful (fun _ _ => True) K (recoverOperation ticks e cause).
Proof.
  intros Hc. unfold recoverOperation. eapply justified_bind; [by apply rollback_careful|]. intros K1 r _ _. apply harmless_careful. harmlessly.
Qed.

Lemma replaceBinary_careful K forward back e saved : cleared K e → K (FReplaced (Preserve (rc_Operation e)) saved) → SecurityDigest saved = md_SHA256 (rc_Original e) →
  careful (fun _ _ => True) K (replaceBinary forward back e).
Proof.
  intros Hc Hs Hd. unfold replaceBinary. bare.
  assert (Hrec : ∀ (K' : nfact → Prop) cause, knows_le K K' → careful (fun _ _ => True) K' (recoverOperation back e cause)).
  { intros K' cause Hle. apply recoverOperation_careful. by apply (cleared_more K). }
  apply ask; [exact I|]. intros K1 [[]|] L1 _ _; [|by apply Hrec].
  eapply justified_bind.
  { apply copyVerified_careful. intros content Hcon. apply (copy_ok_more K); [done|]. destruct Hc as (? & ? & ? & ? & ?). exists e. split_and!; eauto. }
  intros K2 r L2 _. destruct r as [[]|]; [|apply Hrec; intros f Hf; auto]. bare.
  apply ask; [exact I|]. intros K3 [[]|] L3 _ _; [|apply Hrec; intros f Hf; auto]. bare.
  apply ask; [exact I|]. intros K4 [[]|] L4 _ _; [|apply Hrec; intros f Hf; auto].
  apply after_harmless; [apply waitConfirmed_harmless|]. intros K5 [[]|] L5; [|apply Hrec; intros f Hf; apply L5, L4, L3, L2, L1, Hf].
  apply harmless_careful. harmlessly.
Qed.

Lemma superviseOwned_careful K forward back op : careful (fun _ _ => True) K (superviseOwned forward back op).
Proof.
  unfold superviseOwned. bare. apply ask; [exact I|]. intros K1 read L1 Hf Hs. destruct read as [[e|]|]; [|done..].
  destruct (_ || _ || _) eqn:E; [done|]. bool_hyps. cbn in Hs, Hf. assert (HK : K1 (FEntry e)) by (apply Hf; by left). clear Hf L1 K. subst op.
  assert (Hend : ∀ K (err : goerr), careful (fun _ _ => True) K (Call (NTransition (rc_Operation e) "failed") (fun _ => Ret (Err err : result unit)))).
  { intros K err. by apply harmless_careful. }
  bare. apply ask; [exact I|]. intros K2 t2 L2 _ _. destruct (rc_Expires e <=? _); [apply Hend|].
  apply ask; [exact I|]. intros K3 [[]|] L3 F3 _; [|apply Hend]. assert (V3 : K3 (FVerified (Candidate (rc_Operation e)) (rc_Target e) true)) by (apply F3; by left).
  apply ask; [exact I|]. intros K4 [[]|] L4 F4 _; [|apply Hend]. assert (V4 : K4 (FVerified Binary (rc_Original e) false)) by (apply F4; by left).
  apply ask; [exact I|]. intros K5 answer L5 F5 _. apply ask; [exact I|]. intros K6 now L6 F6 _. cbn [bind].
  destruct answer as [[[id expires]|]|]; [|apply Hend..]. destruct (_ || _ || _) eqn:Ea; [apply Hend|]. bool_hyps. z_hyps. subst id.
  assert (Hc : cleared K6 e).
  { split_and!; [apply L6, L5, L4, L3, L2, HK|done|auto|auto|]. exists expires, now. split_and!; [|apply F6; by left|lia|lia].
    apply L6, F5. cbn. rewrite bool_decide_eq_true_2 by done. by left. }
  eapply justified_bind; [eapply wrapped, copyVerified_careful; intros content; by apply cleared_preserves|].
  intros K7 r L7 Hr. destruct r as [[]|]; [|apply Hend]. destruct (Hr tt eq_refl) as (saved & Hsaved & Hdig).
  bare. apply ask; [exact I|]. intros K8 t8 L8 _ _. cbn [bind]. destruct (expires <=? _); [apply Hend|]. bare.
  apply ask; [exact I|]. intros K9 [[]|] L9 _ _; [|done].
  apply (replaceBinary_careful _ _ _ _ saved); [apply (cleared_more K6); [intros f Hf; apply L9, L8, L7, Hf|done]|auto|done].
Qed.
Lemma runOperation_careful K forward back op : careful (fun _ _ => True) K (runOperation forward back op).
Proof.
  unfold runOperation. bare. apply ask; [exact I|]. intros K1 [[]|] L1 _ _; [|done].
  eapply justified_bind; [apply superviseOwned_careful|]. intros K2 r _ _. apply harmless_careful. harmlessly.
Qed.

(** *** The agent and the helper *)

Lemma requestRecord_advancing req original now1 now2 e : requestRecord req original now1 now2 = Ok e → advancing e ∧ rc_Operation e = request_op req.
Proof.
  unfold requestRecord. destruct req as [[op version revision sha bytes expires|]|]; [|done..]. intros H. guards_in H.
  simplify_eq. z_hyps. split; [|done]. eexists. split; [done|lia].
Qed.
Lemma finishStaging_careful K e : advancing e → careful (fun _ _ => True) K (finishStaging e).
Proof.
  intros He. unfold finishStaging. bare. apply ask; [exact I|]. intros K1 [[]|] _ _ _; [|done]. apply ask; [exact I|]. intros K2 [[]|] _ _ _; [|done].
  apply ask; [exact I|]. intros K3 [[]|] _ _ _; [|done]. by apply ask.
Qed.
Lemma markFailed_careful K e reason : advancing e → careful (fun _ _ => True) K (markFailed e reason).
Proof. intros He. unfold markFailed. bare. apply ask; [exact He|]. intros. by apply ask. Qed.

Lemma stageAndLaunch_careful K e : advancing e → careful (fun _ _ => True) K (stageAndLaunch e).
Proof.
  intros He. unfold stageAndLaunch. bare. apply ask; [exact I|]. intros K1 [] _ _ _.
  assert (Hfail : ∀ K reason, careful (fun _ _ => True) K (_ <- markFailed e reason; Call NDisown (fun _ => Ret false))).
  { intros K0 reason. eapply justified_bind; [by apply markFailed_careful|]. intros K2 [] _ _. by apply harmless_careful. }
  apply after_harmless; [apply download_harmless|]. intros K2 [[]|] _; [|apply Hfail].
  eapply justified_bind; [by apply finishStaging_careful|]. intros K3 r _ _. destruct r as [[]|]; [|apply Hfail].
  apply ask; [exact I|]. intros K4 [] _ _ _. apply ask; [exact I|]. intros K5 [[]|] _ _ _; [done|].
  eapply justified_bind; [by apply markFailed_careful|]. done.
Qed.
Lemma Begin_careful K ticks req : careful (fun _ _ => True) K (Begin ticks req).
Proof.
  unfold Begin. bare. apply ask; [exact I|]. intros K1 [pl|] _ _ _; [|by apply harmless_careful].
  eapply justified_bind with (Q := fun _ _ => True); [|intros K2 [rep sup] _ _; apply harmless_careful; harmlessly].
  unfold beginOwned. bare. apply ask; [exact I|]. intros K2 [original|] _ _ _; [|by apply harmless_careful].
  apply ask; [exact I|]. intros K3 now1 _ _ _. apply ask; [exact I|]. intros K4 now2 _ _ _.
  destruct (requestRecord _ _ _ _) as [e|] eqn:E; [|by apply harmless_careful]. apply requestRecord_advancing in E as [He _].
  apply ask; [exact I|]. intros K5 [[]|] _ _ _; [|by apply harmless_careful]. apply ask; [exact He|]. intros K6 [[]|] _ _ _; [|by apply harmless_careful].
  eapply justified_bind; [by apply stageAndLaunch_careful|]. done.
Qed.
Lemma bootstrap_careful K ticket version revision executable placed assertion :
  careful (fun _ _ => True) K (bootstrap ticket version revision executable placed assertion).
Proof.
  unfold bootstrap. bare. apply ask; [exact I|]. intros K1 [original|] _ _ _; [|done]. apply ask; [exact I|]. intros K2 [[]|] _ _ _; [|done].
  apply ask; [exact I|]. intros K3 [req|] _ _ _; [|done]. bare. apply ask; [exact I|]. intros K4 now1 _ _ _. apply ask; [exact I|]. intros K5 now2 _ _ _.
  destruct (requestRecord _ _ _ _) as [e|] eqn:E; [|done]. apply requestRecord_advancing in E as [He _]. destruct (_ || _); [done|]. destruct (negb placed); [done|].
  apply ask; [exact I|]. intros K6 [[]|] _ _ _; [|done]. bare. apply ask; [exact I|]. intros K7 [[]|] _ _ _; [|done]. bare.
  apply ask; [exact He|]. intros K8 [[]|] _ _ _; [|by apply harmless_careful].
  assert (Hlast : ∀ K (err : goerr), careful (fun _ _ => True) K (Call (NMark (with_state e "failed" (rc_Confirmed e)))
    (fun _ => bind (cleanupStage (rc_Operation e)) (fun _ => Call NDisown (fun _ => Ret (Err err : result unit)))))).
  { intros K0 err. apply ask; [exact He|]. intros K9 [] _ _ _. apply harmless_careful. harmlessly. }
  eapply justified_bind with (Q := fun _ _ => True).
  { unfold bootstrapStage. bare. apply ask; [exact I|]. intros K9 [[]|] _ _ _; [|done]. apply ask; [exact I|]. intros K10 [[]|] _ _ _; [|done].
    apply ask; [exact I|]. intros K11 [[]|] _ _ _; [|done]. apply ask; [exact I|]. intros K12 [[]|] _ _ _; [|done]. by apply finishStaging_careful. }
  intros K9 r _ _. destruct r as [[]|]; bare; [|apply Hlast]. apply ask; [exact I|]. intros K10 [] _ _ _. apply ask; [exact I|].
  intros K11 [[]|] _ _ _; [done|apply Hlast].
Qed.
