(* ===== verification/InstallerRuns.v ===== *)
(** What every run of the updater of a node shows of its binary
    (InstallerProtocol.v): only authorized targets and earlier binaries are ever
    installed. *)

From S2P Require Import Prelude Prog Codec Filepath Budget Governance Version AgentUpdates AgentInstaller InstallerProtocol.
Local Open Scope prog_scope.

(** ** Installed binaries *)

(** The digest of the binary the node began with, or of one that was installed. *)
Definition blessed (c0 : string) (log : list nfact) (d : string) : Prop :=
  d = SecurityDigest c0 ∨ ∃ op c, FReplaced (Install op) c ∈ log ∧ d = SecurityDigest c.
Fixpoint replaced_ok (log : list nfact) : Prop :=
  match log with
  | [] => True
  | f :: t => match f with FReplaced k c => copy_ok (fun g => g ∈ t) k c | _ => True end ∧ replaced_ok t
  end.

Record tracked (c0 : string) (w : Node) : Prop := {
  t_journal : ∀ r, n_journal w = Some r → advancing r;
  t_binary : ∀ c, n_files w !! Binary = Some c → blessed c0 (n_log w) (SecurityDigest c);
  t_verified : ∀ m s, FVerified Binary m s ∈ n_log w → blessed c0 (n_log w) (md_SHA256 m);
  t_replaced : replaced_ok (n_log w);
}.

Lemma blessed_more c0 fs log d : blessed c0 log d → blessed c0 (fs ++ log) d.
Proof. intros [?|(op & c & ? & ?)]; [by left|right]. exists op, c. split; [apply elem_of_app; by right|done]. Qed.

(** Facts that concern no binary. *)
Definition neutral (f : nfact) : bool := match f with FReplaced _ _ | FVerified Binary _ _ => false | _ => true end.
Lemma replaced_neutral fs log : (∀ f, f ∈ fs → neutral f = true) → replaced_ok log → replaced_ok (fs ++ log).
Proof.
  induction fs as [|f fs IH]; intros Hf Hr; [done|]. cbn. split; [|apply IH; [intros g Hg; apply Hf; by right|done]].
  specialize (Hf f ltac:(by left)). by destruct f.
Qed.
Lemma tracked_frame c0 w w' fs : n_log w' = fs ++ n_log w → (∀ f, f ∈ fs → neutral f = true) → n_files w' !! Binary = n_files w !! Binary →
  (∀ r, n_journal w' = Some r → advancing r) → tracked c0 w → tracked c0 w'.
Proof.
  intros Hl Hf Hb Hj [_ H2 H3 H4]. split; rewrite ?Hl, ?Hb; [done| | |].
  - intros c Hc. apply blessed_more. auto.
  - intros m s [Hin|Hin]%elem_of_app; [by apply Hf in Hin|]. by eapply blessed_more, H3.
  - by apply replaced_neutral.
Qed.
Lemma tracked_note c0 w fs : (∀ f, f ∈ fs → neutral f = true) → tracked c0 w → tracked c0 (noted w fs).
Proof. intros Hf Hw. by eapply (tracked_frame c0 w _ fs); [| | |apply Hw|]. Qed.
Lemma tracked_same c0 w w' : n_log w' = n_log w → n_files w' !! Binary = n_files w !! Binary → n_journal w' = n_journal w → tracked c0 w → tracked c0 w'.
Proof. intros Hl Hb Hj Hw. eapply (tracked_frame c0 w _ []); [done| |done|rewrite Hj; apply Hw|done]. intros f Hf. by apply not_elem_of_nil in Hf. Qed.

Lemma write_tracked c0 o w r : advancing r → tracked c0 w → tracked c0 (write o w r).1.
Proof.
  intros Hr Hw. unfold write. destruct (nfailing _ _); [|done]. cbn. eapply (tracked_frame c0 w _ [FWrote r]); try done.
  - by intros f ->%list_elem_of_singleton.
  - by intros r' [= <-].
Qed.
Lemma journalled_tracked c0 {A} o w (s : option record → section A) : (∀ r a, s (n_journal w) = Ok (Some r, a) → advancing r) →
  tracked c0 w → tracked c0 (journalled o w s).1.
Proof.
  intros Hs Hw. unfold journalled, nfailing. destruct (no_fail o); [done|]. destruct (s (n_journal w)) as [[[r|] a]|]; [|done..].
  pose proof (write_tracked c0 o w r (Hs r a eq_refl) Hw). by destruct (write o w r).
Qed.
Lemma transition_keeps op s e r a : (∀ r, e = Some r → advancing r) → transition op s e = Ok (Some r, a) → advancing r.
Proof. unfold transition. intros He H. destruct e as [e|]; [|done]. guards_in H. simplify_eq. by apply (He e). Qed.
Lemma beginRollback_keeps op e r a : (∀ r, e = Some r → advancing r) → beginRollback op e = Ok (Some r, a) → advancing r.
Proof. unfold beginRollback. intros He H. destruct e as [e|]; [|done]. guards_in H; simplify_eq. by apply (He e). Qed.
Lemma confirm_keeps cur op s e r a : (∀ r, e = Some r → advancing r) → confirm cur op s e = Ok (Some r, a) → advancing r.
Proof. unfold confirm. intros He H. destruct e as [e|]; [|done]. guards_in H; simplify_eq; by apply (He e). Qed.
Lemma intent_keeps entry original same now e r a : intent entry original same now e = Ok (Some r, a) → r = entry.
Proof. unfold intent. intros H. guards_in H; by simplify_eq. Qed.

Section runs.
Context (elf_of : string → option Elf) (build_of : string → option BuildInfo) (arch : string).
Abbreviation nanswer := (InstallerProtocol.nanswer elf_of build_of arch).
Abbreviation nperform := (InstallerProtocol.nperform elf_of build_of arch).
Abbreviation nstep := (InstallerProtocol.nstep elf_of build_of arch).
Abbreviation nrun := (InstallerProtocol.nrun elf_of build_of arch).

Lemma verify_digest c m strict x : verify elf_of build_of arch c m strict = Ok x → SecurityDigest c = md_SHA256 m.
Proof using. unfold verify, hashFile. destruct (_ || _); [done|]. cbn. intros H. destruct (negb _ || negb _) eqn:E; [done|]. by bool_hyps. Qed.

(** Calls that write the journal or a binary, or check one. *)
Definition concerns {B} (c : ncall B) : bool :=
  match c with
  | NIntent _ _ _ | NStage _ | NMark _ | NTransition _ _ | NBeginRollback _ | NConfirm _ _ | NVerify _ _ _ | NReplace _ _ => true
  | _ => false
  end.
Lemma unconcerned_tracked c0 n o w B (c : ncall B) : concerns c = false → tracked c0 w → tracked c0 (nperform n o w c).1.
Proof using.
  intros Hc Hw. unfold InstallerProtocol.nperform.
  assert (Hf : ∀ b f, f ∈ nlearned c b → neutral f = true).
  { intros b f. destruct c; try discriminate; cbn; repeat case_match; intros Hf; first [by apply not_elem_of_nil in Hf|apply list_elem_of_singleton in Hf as ->; done]. }
  assert (Ha : tracked c0 (nanswer n o w c).1).
  { destruct c; try discriminate; cbn; try done; try (repeat case_match; cbn; first [done|by eapply tracked_same; [..|exact Hw]]).
    all: try (repeat case_match; cbn; simplify_eq; try done).
    all: try (eapply tracked_same; [..|exact Hw]; cbn; try done; by rewrite ?lookup_insert_ne, ?lookup_delete_ne).
    all: apply tracked_note; [by intros f ->%list_elem_of_singleton|by eapply tracked_same; [..|exact Hw]]. }
  destruct (nanswer n o w c) as [w' b]. cbn in *. apply tracked_note; [by apply Hf|done].
Qed.

Lemma replace_tracked c0 w k content : tracked c0 w → copy_ok (fun f => f ∈ n_log w) k content →
  tracked c0 (noted (on_files w (<[destination k := content]> (n_files w))) [FReplaced k content]).
Proof using.
  intros [H1 H2 H3 H4] Hk. split; cbn; [done| | |done].
  - intros c Hc. destruct (decide (destination k = Binary)) as [E|E].
    + rewrite E, lookup_insert_eq in Hc. injection Hc as <-. destruct k as [op|op|op]; [discriminate|right; exists op, content; split; [by left|done]|].
      destruct Hk as (e & _ & _ & _ & _ & Hv & _ & ->). apply (blessed_more c0 [_]). by eapply H3.
    + rewrite lookup_insert_ne in Hc by done. apply (blessed_more c0 [_]). auto.
  - intros m s Hin. apply elem_of_cons in Hin as [?|Hin]; [discriminate|]. by eapply (blessed_more c0 [_]), H3.
Qed.

Lemma nperform_tracked c0 n o w B (c : ncall B) : tracked c0 w → npre c (fun f => f ∈ n_log w) → tracked c0 (nperform n o w c).1.
Proof using.
  intros Hw Hp. destruct (concerns c) eqn:Ec; [|by apply unconcerned_tracked]. pose proof (t_journal _ _ Hw) as Hj.
  assert (Hn : ∀ w', tracked c0 w' → tracked c0 (noted w' [])) by (intros w' H; apply tracked_note; [intros f Hf; by apply not_elem_of_nil in Hf|done]).
  assert (Hph : ∀ w' op ph, tracked c0 w' → tracked c0 (in_phase w' op ph)) by (intros w' op ph H; by eapply tracked_same; [..|exact H]).
  unfold InstallerProtocol.nperform. destruct c; try discriminate; cbn [InstallerProtocol.nanswer].
  - pose proof (journalled_tracked c0 o w (intent entry original refuse_same (no_now o)) ltac:(by intros r a ->%intent_keeps) Hw) as H.
    destruct (journalled _ _ _) as [w' r]. apply Hn, Hph, H.
  - pose proof (write_tracked c0 o w entry Hp Hw) as H. destruct (write _ _ _) as [w' r]. apply Hn, H.
  - apply Hn. by apply write_tracked.
  - pose proof (journalled_tracked c0 o w (transition operation state) ltac:(intros r a; by apply transition_keeps) Hw) as H.
    destruct (journalled _ _ _) as [w' r]. apply Hn, H.
  - pose proof (journalled_tracked c0 o w (beginRollback operation) ltac:(intros r a; by apply beginRollback_keeps) Hw) as H.
    destruct (journalled _ _ _) as [w' r]. apply Hn, Hph, H.
  - pose proof (journalled_tracked c0 o w (confirm (identity (rt_capabilities (n_runtime w))) operation state) ltac:(intros r a; by apply confirm_keeps) Hw) as H.
    destruct (journalled _ _ _) as [w' [[|]|]]; apply Hn; [|exact H..]. by eapply tracked_same; [..|exact H].
  - unfold on_file, nfailing. destruct (no_fail o); [by apply Hn|]. destruct (n_files w !! p) as [c|] eqn:E; [|by apply Hn].
    destruct (verify _ _ _ _ _ _) as [[]|] eqn:Ev; [|by apply Hn]. destruct (decide (p = Binary)) as [->|Hne].
    + apply verify_digest in Ev. destruct Hw as [H1 H2 H3 H4]. split; cbn; [done| | |done].
      * intros c' Hc'. apply (blessed_more c0 [_]). auto.
      * intros m s Hin. apply elem_of_cons in Hin as [[= -> ->]|Hin]; [|by eapply (blessed_more c0 [_]), H3].
        apply (blessed_more c0 [_]). rewrite <- Ev. auto.
    + apply tracked_note; [|done]. intros f ->%list_elem_of_singleton. by destruct p.
  - destruct (no_fail o); [by apply Hn|]. pose proof (replace_tracked c0 w k content Hw Hp) as H. destruct (no_late o); [apply Hn, H|exact H].
Qed.
Lemma nperform_sane c0 n o w B (c : ncall B) : tracked c0 w → nsane c (nperform n o w c).2.
Proof using.
  intros Hw. unfold InstallerProtocol.nperform. destruct c; cbn; repeat case_match; try done. simplify_eq. unfold nfailing in *.
  destruct (no_fail o); [done|]. simplify_eq. by apply (t_journal _ _ Hw).
Qed.
Lemma nperform_log n o w B (c : ncall B) : ∃ fs, n_log (nperform n o w c).1 = nlearned c (nperform n o w c).2 ++ fs ++ n_log w.
Proof using.
  unfold InstallerProtocol.nperform. assert (H : ∃ fs, n_log (nanswer n o w c).1 = fs ++ n_log w).
  { assert (Hw : ∀ r, ∃ fs, n_log (write o w r).1 = fs ++ n_log w) by (intros r; unfold write; repeat case_match; first [by exists []|by exists [FWrote r]]).
    assert (Hj : ∀ A (s : option record → section A), ∃ fs, n_log (journalled o w s).1 = fs ++ n_log w).
    { intros A s. unfold journalled. destruct (nfailing _ _) as [[[r|] a]|]; [|by exists []..]. destruct (Hw r) as [fs Hfs]. exists fs. by destruct (write o w r). }
    destruct c; cbn [InstallerProtocol.nanswer]; try (by exists []); try (repeat case_match; cbn; by first [exists []|eexists [_]]).
    - destruct (Hj _ (intent entry original refuse_same (no_now o))) as [fs Hfs]. exists fs. by destruct (journalled _ _ _).
    - apply Hw.
    - apply Hw.
    - apply Hj.
    - destruct (Hj _ (beginRollback operation)) as [fs Hfs]. exists fs. by destruct (journalled _ _ _).
    - destruct (Hj _ (confirm (identity (rt_capabilities (n_runtime w))) operation state)) as [fs Hfs]. exists fs. by destruct (journalled _ _ _) as [w' [[|]|]].
    - destruct (no_fail o); [by exists []|]. destruct (no_late o); [by exists [FReplaced k content]|by exists []].
    - destruct (no_request o) as [req|]; [by exists [FBegan (request_op (Some req))]|by exists []]. }
  destruct H as [fs Hfs]. exists fs. destruct (nanswer n o w c) as [w' b]. cbn in *. by rewrite Hfs.
Qed.

(** Processes keep to what they know. *)
Record steady (c0 : string) (m : Machine) : Prop := {
  y_tracked : tracked c0 (mc_node m);
  y_threads : Forall (fun p => careful (fun _ _ => True) (fun f => f ∈ n_log (mc_node m)) p) (mc_threads m);
}.
Lemma careful_more {A} (K K' : nfact → Prop) (p : prog A) : knows_le K K' → careful (fun _ _ => True) K p → careful (fun _ _ => True) K' p.
Proof using. apply justified_weaken; [|done]. intros B c K1 K2 Hle. by apply npre_more. Qed.

Lemma steady_spawn c0 m w p : steady c0 m → tracked c0 w → (∃ fs, n_log w = fs ++ n_log (mc_node m)) → (∀ K, careful (fun _ _ => True) K p) →
  steady c0 (mkMachine w (mc_threads m ++ [p])).
Proof using.
  intros [Ht Hth] Hw [fs Hl] Hp. split; [done|]. cbn. apply Forall_app. split; [|by apply Forall_singleton]. eapply Forall_impl; [exact Hth|].
  intros q. apply careful_more. intros f Hf. rewrite Hl. apply elem_of_app. by right.
Qed.
Lemma nstep_steady c0 m e : steady c0 m → steady c0 (nstep m e).
Proof using.
  intros Hm. pose proof Hm as [Ht Hth]. assert (Hsame : ∃ fs, n_log (mc_node m) = fs ++ n_log (mc_node m)) by (by exists []).
  assert (Hd : ∀ A (p : prog A), (∀ K, careful (fun _ _ => True) K p) → ∀ K, careful (fun _ _ => True) K (discard p)).
  { intros A p Hp K. eapply justified_bind; [apply Hp|]. done. }
  destruct e as [ticks req|op st| |ticket version revision executable placed assertion|op fw bk|thread o|n|version revision host budget|host]; cbn [InstallerProtocol.nstep].
  - destruct (unbegun _ _); [|done]. apply steady_spawn; [done| |by eexists [_]|intros; apply Begin_careful].
    apply tracked_note; [by intros f ->%list_elem_of_singleton|]. by eapply tracked_same; [..|exact Ht].
  - apply steady_spawn; [done|done|done|]. apply Hd. intros K. by apply harmless_careful.
  - apply steady_spawn; [done|done|done|]. apply Hd. intros K. by apply harmless_careful.
  - apply steady_spawn; [done|done|done|]. apply Hd. intros K. apply bootstrap_careful.
  - destruct (decide _); [|done]. apply steady_spawn; [done|by eapply tracked_same; [..|exact Ht]|by exists []|]. apply Hd. intros K. apply runOperation_careful.
  - destruct (mc_threads m !! thread) as [[|B c k]|] eqn:En; [done| |done]. destruct (once _ _ _); [|done].
    destruct (Forall_lookup_1 _ _ _ _ Hth En) as [Hp Hk].
    pose proof (nperform_tracked c0 thread o _ _ c Ht Hp) as Ht'. pose proof (nperform_sane c0 thread o (mc_node m) _ c Ht) as Hs.
    destruct (nperform_log thread o (mc_node m) _ c) as [fs Hl]. destruct (nperform thread o (mc_node m) c) as [w' b]. cbn in *. split; [done|]. cbn. rewrite Hl.
    apply Forall_insert.
    + eapply Forall_impl; [exact Hth|]. intros p. apply careful_more. intros f Hf. rewrite !elem_of_app. auto.
    + eapply careful_more; [|by apply Hk]. intros f [Hf|Hf]; rewrite !elem_of_app; auto.
  - split; [cbn; case_bool_decide; [by eapply tracked_same; [..|exact Ht]|done]|]. cbn. replace (n_log _) with (n_log (mc_node m)) by (by case_bool_decide).
    by apply Forall_insert.
  - split; [by eapply tracked_same; [..|exact Ht]|done].
  - split; [by eapply tracked_same; [..|exact Ht]|done].
Qed.
Lemma nrun_steady c0 rt es : steady c0 (nrun (fresh_node c0 rt) es).
Proof using.
  assert (H0 : steady c0 (fresh_node c0 rt)).
  { split; [|constructor]. split; cbn; [done| |intros m s H; by apply not_elem_of_nil in H|done]. intros c Hc. rewrite lookup_singleton_eq in Hc. injection Hc as <-. by left. }
  revert H0. generalize (fresh_node c0 rt). induction es as [|e es IH]; intros m Hm; [done|]. by apply IH, nstep_steady.
Qed.
Lemma replaced_at l1 k c l2 : replaced_ok (l1 ++ FReplaced k c :: l2) → copy_ok (fun f => f ∈ l2) k c.
Proof using. induction l1 as [|f l1 IH]; cbn; [by intros [? _]|intros [_ ?]; auto]. Qed.

(** C13. The installed binary changes only by the copies of a supervisor, and every
    copy rests on a journal entry whose version advances, on the candidate and the
    installed binary having the digests of its target and its original, and on the
    hub's authorization within its time; before a target is installed the original
    has been put aside.  So the binary is at every moment the one the node began
    with or a target that was installed this way, also when processes are killed
    and writes fail half way. *)
Theorem binary_only_authorized c0 rt es :
  let w := mc_node (nrun (fresh_node c0 rt) es) in
  (∀ l1 k c l2, n_log w = l1 ++ FReplaced k c :: l2 → copy_ok (fun f => f ∈ l2) k c)
  ∧ (∀ c, n_files w !! Binary = Some c → blessed c0 (n_log w) (SecurityDigest c)).
Proof using.
  destruct (nrun_steady c0 rt es) as [[H1 H2 H3 H4] _]. split; [|done]. intros l1 k c l2 Hl. rewrite Hl in H4. by eapply replaced_at.
Qed.
End runs.
