(* ===== verification/InstallerSuccess.v ===== *)
(** A success that is durably confirmed is never rolled back (InstallerProtocol.v).
    The argument is one of ownership: the process that began an operation hands it
    to one supervisor, and only that supervisor writes the journal of the operation
    from then on, apart from the agent that confirms. *)

From S2P Require Import Prelude Prog Codec Filepath Budget Governance Version AgentUpdates AgentInstaller InstallerProtocol.
Local Open Scope prog_scope.

(** ** Ownership of operations *)

Abbreviation turn := (option (string * nphase)) (only parsing).

(** States of the journal before a supervisor has begun. *)
Definition preparing (r : record) : bool := bool_decide (rc_State r ∈ ["downloading"; "staged"; "failed"]).
(** States from which a success can be confirmed. *)
Definition hopeful (r : record) : bool := bool_decide (rc_State r ∈ ["reconnecting"; "installing"]).
Definition succeeded (r : record) : bool := rc_Confirmed r && bool_decide (rc_State r = "succeeded").

Definition turn_pre {B} (c : ncall B) (m : turn) : Prop :=
  match c with
  | NBootstrapRPC _ _ _ => m = None
  | NIntent entry _ _ => m = Some (rc_Operation entry, BBegun) ∧ preparing entry = true
  | NStage entry | NMark entry => m = Some (rc_Operation entry, BWritten) ∧ preparing entry = true
  | NLaunch op => m = Some (op, BWritten)
  | NTransition op state => m = Some (op, SForward) ∨ m = Some (op, SRolling) ∧ state = "rolled_back"
  | NBeginRollback op => m = Some (op, SForward)
  | NReplace (Restore op) _ => m = Some (op, SRolling)
  | _ => True
  end.
Definition turn_next {B} (c : ncall B) (m : turn) : B → turn :=
  match c in ncall B return B → turn with
  | NBootstrapRPC _ _ _ => fun r => match r with Ok req => Some (request_op (Some req), BBegun) | Err _ => m end
  | NIntent entry _ _ => fun r => Some (rc_Operation entry, match r with Ok _ => BWritten | Err _ => BStopped end)
  | NLaunch op => fun r => match r with Ok _ => None | Err _ => m end
  | NBeginRollback op => fun r => Some (op, match r with Ok false => SRolling | _ => SStopped end)
  | _ => fun _ => m
  end.
(** Calls that ask for no operation. *)
Definition loose {B} (c : ncall B) : bool :=
  match c with
  | NBootstrapRPC _ _ _ | NIntent _ _ _ | NStage _ | NMark _ | NLaunch _ | NTransition _ _ | NBeginRollback _ | NReplace (Restore _) _ => false
  | _ => true
  end.
Abbreviation taking m p := (Prog.owning (@turn_pre) (@turn_next) m p).
Abbreviation loosely p := (Prog.plain (@loose) (fun _ => True) p).

Lemma loose_pre B (c : ncall B) m : loose c = true → turn_pre c m.
Proof. destruct c; try done. by destruct k. Qed.
Lemma loose_next B (c : ncall B) m b : loose c = true → turn_next c m b = m.
Proof. by destruct c. Qed.
Lemma past_loose {A B} m (p : prog A) (f : A → prog B) : loosely p → (∀ a, taking m (f a)) → taking m (bind p f).
Proof. intros Hp Hf. eapply plain_owning; [apply loose_pre|apply loose_next|exact Hp|]. auto. Qed.
Lemma loosely_taking {A} m (p : prog A) : loosely p → taking m p.
Proof. apply idle_owning; [apply loose_pre|apply loose_next]. Qed.
Lemma loosely_bind {A B} (p : prog A) (f : A → prog B) : loosely p → (∀ a, loosely (f a)) → loosely (bind p f).
Proof. intros. by eapply plain_bind. Qed.

Create HintDb loose.
Ltac loosen :=
  repeat (bare;
    lazymatch goal with
    | |- plain _ _ (Call _ _) => split; [reflexivity|intros ?]
    | |- plain _ _ (bind _ _) => apply loosely_bind; [|intros ?]
    | |- plain _ _ (match ?x with _ => _ end) => destruct x
    | |- plain _ (fun _ => True) (Ret _) => exact I
    | |- plain _ _ _ => solve [auto with loose nocore]
    end).
(** A call that is loose, or whose condition is plain. *)
Ltac turns := repeat (bare; first [exact I | split; [by auto|intros ?; cbn [turn_next]]]).

Lemma waitConfirmed_loose ticks op state : loosely (waitConfirmed ticks op state).
Proof. induction ticks as [|ticks IH]; cbn [waitConfirmed]; loosen. Qed.
Lemma cleanupStage_loose op : loosely (cleanupStage op).
Proof. unfold cleanupStage. loosen. Qed.
Lemma watchSupervisor_loose ticks op : loosely (watchSupervisor ticks op).
Proof. induction ticks as [|ticks IH]; cbn [watchSupervisor]; loosen. Qed.
Lemma receiveArtifact_loose fuel op size got : loosely (receiveArtifact fuel op size got).
Proof. revert got. induction fuel as [|fuel IH]; intros got; cbn [receiveArtifact]; loosen. Qed.
#[export] Hint Resolve waitConfirmed_loose cleanupStage_loose watchSupervisor_loose receiveArtifact_loose : loose.
Lemma download_loose entry : loosely (download entry).
Proof. unfold download. loosen. Qed.
#[export] Hint Resolve download_loose : loose.
Lemma copyVerified_loose k expected : (∀ op, k ≠ Restore op) → loosely (copyVerified k expected).
Proof. intros Hk. unfold copyVerified. destruct k as [op|op|op]; [loosen..|]. by destruct (Hk op). Qed.

(** ** The supervisor *)

Lemma restore_taking {A} op expected (f : result unit → prog A) : (∀ r, taking (Some (op, SRolling)) (f r)) →
  taking (Some (op, SRolling)) (bind (copyVerified (Restore op) expected) f).
Proof.
  intros Hf. unfold copyVerified. bare. split; [done|]. intros [[]|]; cbn; [|done]. split; [done|]. intros [[]|]; cbn; [|done].
  split; [done|]. intros [ex|]; cbn; [|done]. split; [done|]. intros [content|]; cbn; [|done]. destruct (_ || _); cbn; [done|]. by split.
Qed.
Lemma rollback_taking ticks e cause : taking (Some (rc_Operation e, SForward)) (rollback ticks e cause).
Proof.
  unfold rollback. bare. split; [done|]. intros [[|]|]; [done| |done]. cbn [turn_next]. bare.
  split; [done|]. intros [[]|]; [|done]. bare. split; [done|]. intros [[]|]; [|done]. bare. apply owning_assoc, restore_taking. intros [[]|]; [|done]. bare.
  split; [by right|]. intros [[]|]; [|done]. cbn [turn_next]. apply loosely_taking. loosen.
Qed.
Lemma recoverOperation_taking ticks e cause : taking (Some (rc_Operation e, SForward)) (recoverOperation ticks e cause).
Proof. unfold recoverOperation. apply owning_bind; [apply rollback_taking|]. intros m r. apply loosely_taking. loosen. Qed.

Lemma replaceBinary_taking forward back e : taking (Some (rc_Operation e, SForward)) (replaceBinary forward back e).
Proof.
  unfold replaceBinary. bare. split; [done|]. intros [[]|]; [|apply recoverOperation_taking]. cbn [turn_next].
  apply past_loose; [by apply copyVerified_loose|]. intros [[]|]; [|apply recoverOperation_taking]. bare.
  split; [by left|]. intros [[]|]; [|apply recoverOperation_taking]. bare. split; [done|]. intros [[]|]; [|apply recoverOperation_taking]. bare.
  apply past_loose; [apply waitConfirmed_loose|]. intros [[]|]; [|apply recoverOperation_taking]. apply loosely_taking. loosen.
Qed.
Lemma or_failed_taking {A} op (p : prog (result A)) (f : A → prog (result unit)) : loosely p → (∀ a, taking (Some (op, SForward)) (f a)) →
  taking (Some (op, SForward)) (or_failed op p f).
Proof. intros Hp Hf. unfold or_failed. apply past_loose; [done|]. intros [a|e]; [apply Hf|]. split; [by left|done]. Qed.
Lemma superviseOwned_taking forward back op : taking (Some (op, SForward)) (superviseOwned forward back op).
Proof.
  unfold superviseOwned. apply past_loose; [loosen|]. intros [[e|]|]; [|done..]. destruct (_ || _ || _) eqn:E; [done|]. bool_hyps. subst op.
  repeat (apply or_failed_taking; [unfold wrap; loosen; by apply copyVerified_loose|intros ?]).
  split; [by left|]. intros [[]|]; [|done]. apply replaceBinary_taking.
Qed.
Lemma runOperation_taking forward back op : taking (Some (op, SForward)) (runOperation forward back op).
Proof.
  unfold runOperation. bare. split; [done|]. intros [[]|]; [|done]. apply owning_bind; [apply superviseOwned_taking|]. intros m r. by apply loosely_taking.
Qed.

(** ** The agent and the helper *)

Lemma requestRecord_preparing req original now1 now2 e : requestRecord req original now1 now2 = Ok e →
  rc_Operation e = request_op req ∧ preparing e = true.
Proof. unfold requestRecord. destruct req as [[op version revision sha bytes expires|]|]; [|done..]. intros H. guards_in H. by simplify_eq. Qed.

Lemma finishStaging_taking {A} e (f : result unit → prog A) : (∀ r, taking (Some (rc_Operation e, BWritten)) (f r)) →
  taking (Some (rc_Operation e, BWritten)) (bind (finishStaging e) f).
Proof.
  intros Hf. unfold finishStaging. bare. split; [done|]. intros [[]|]; cbn; [|done]. split; [done|]. intros [[]|]; cbn; [|done].
  split; [done|]. intros [[]|]; cbn; [|done]. by split.
Qed.
Lemma markFailed_taking {A} e reason (f : unit → prog A) : (∀ r, taking (Some (rc_Operation e, BWritten)) (f r)) →
  taking (Some (rc_Operation e, BWritten)) (bind (markFailed e reason) f).
Proof. intros Hf. unfold markFailed. bare. split; [done|]. intros []. cbn. by split. Qed.
Lemma stageAndLaunch_taking e : taking (Some (rc_Operation e, BWritten)) (stageAndLaunch e).
Proof.
  unfold stageAndLaunch. bare. split; [done|]. intros []. cbn [turn_next]. apply past_loose; [apply download_loose|].
  intros [[]|]; [|apply markFailed_taking; intros []; by apply loosely_taking]. apply finishStaging_taking.
  intros [[]|]; [|apply markFailed_taking; intros []; by apply loosely_taking]. split; [done|]. intros []. cbn [turn_next]. split; [done|].
  intros [[]|]; [done|]. cbn [turn_next]. apply markFailed_taking. by intros [].
Qed.
Lemma Begin_taking ticks req : taking (Some (request_op req, BBegun)) (Begin ticks req).
Proof.
  unfold Begin. bare. split; [done|]. intros [pl|]; [|done]. apply owning_bind; [|intros m [rep sup]; apply loosely_taking; loosen].
  unfold beginOwned. bare. split; [done|]. intros [original|]; [|done]. split; [done|]. intros now1. split; [done|]. intros now2. cbn [turn_next].
  destruct (requestRecord _ _ _ _) as [e|] eqn:E; [|done]. apply requestRecord_preparing in E as [<- He].
  split; [done|]. intros [[]|]; [|done]. split; [done|]. intros [[]|]; cbn [turn_next]; [|by apply loosely_taking]. apply owning_bind; [apply stageAndLaunch_taking|done].
Qed.

Lemma bootstrapStage_taking {A} e executable (f : result unit → prog A) : (∀ r, taking (Some (rc_Operation e, BWritten)) (f r)) →
  taking (Some (rc_Operation e, BWritten)) (bind (bootstrapStage e executable) f).
Proof.
  intros Hf. unfold bootstrapStage. bare. split; [done|]. intros [[]|]; cbn; [|done]. split; [done|]. intros [[]|]; cbn; [|done].
  split; [done|]. intros [[]|]; cbn; [|done]. split; [done|]. intros [[]|]; cbn; [|done]. by apply finishStaging_taking.
Qed.
Lemma bootstrap_taking ticket version revision executable placed assertion :
  taking None (bootstrap ticket version revision executable placed assertion).
Proof.
  unfold bootstrap. bare. split; [done|]. intros [original|]; [|done]. split; [done|]. intros [[]|]; [|done]. split; [done|].
  intros [req|]; [|done]. cbn [turn_next]. bare. split; [done|]. intros now1. split; [done|]. intros now2. cbn [turn_next].
  destruct (requestRecord _ _ _ _) as [e|] eqn:E; [|done]. apply requestRecord_preparing in E as [<- He]. destruct (_ || _); [done|]. destruct (negb placed); [done|].
  split; [done|]. intros [[]|]; [|done]. bare. split; [done|]. intros [[]|]; [|done]. bare. split; [done|]. intros [[]|]; cbn [turn_next]; [|by apply loosely_taking].
  assert (Hlast : ∀ err : goerr, taking (Some (rc_Operation e, BWritten)) (Call (NMark (with_state e "failed" (rc_Confirmed e)))
    (fun _ => bind (cleanupStage (rc_Operation e)) (fun _ => Call NDisown (fun _ => Ret (Err err : result unit)))))).
  { intros err. split; [done|]. intros []. apply loosely_taking. loosen. }
  apply bootstrapStage_taking. intros [[]|]; bare; [|apply Hlast]. split; [done|]. intros []. split; [done|]. intros [[]|]; cbn [turn_next]; [done|apply Hlast].
Qed.

(** ** What the journal says *)

Definition late (ph : option nphase) : Prop := ph = Some SForward ∨ ph = Some SStopped.
(** The journal can hold a success to be only while the supervisor goes forward. *)
Definition fits (ph : nphase) (r : record) : Prop :=
  match ph with BBegun => False | SForward | SStopped => True | _ => hopeful r = false end.

Record settled (w : Node) : Prop := {
  s_journal : ∀ r, n_journal w = Some r → ∃ ph, n_phase w !! rc_Operation r = Some ph ∧ fits ph r;
  s_success : ∀ r, FWrote r ∈ n_log w → succeeded r = true →
    late (n_phase w !! rc_Operation r) ∧ ∀ j, n_journal w = Some j → rc_Operation j = rc_Operation r → succeeded j = true;
  s_restore : ∀ op c, FReplaced (Restore op) c ∈ n_log w → n_phase w !! op = Some SRolling;
  s_units : ∀ op, op ∈ n_units w → n_phase w !! op = Some SLaunched;
}.

(** Facts that are no success and no rollback. *)
Definition quiet_fact (f : nfact) : bool := match f with FWrote _ | FReplaced (Restore _) _ => false | _ => true end.
Lemma settled_frame w w' fs : n_log w' = fs ++ n_log w → (∀ f, f ∈ fs → quiet_fact f = true) → n_journal w' = n_journal w → n_phase w' = n_phase w →
  n_units w' ⊆ n_units w → settled w → settled w'.
Proof.
  intros Hl Hf Hj Hp Hu [H1 H2 H3 H4]. assert (Hold : ∀ f, quiet_fact f = false → f ∈ n_log w' → f ∈ n_log w).
  { intros f Hq. rewrite Hl. intros [Hin|Hin]%elem_of_app; [|done]. specialize (Hf f Hin). congruence. }
  split; rewrite ?Hj, ?Hp; [done| | |].
  - intros r Hr. apply H2. by apply Hold.
  - intros op c Hr. eapply H3. by apply Hold, Hr.
  - intros op Hop. by apply H4, Hu.
Qed.
Lemma settled_same w w' : n_log w' = n_log w → n_journal w' = n_journal w → n_phase w' = n_phase w → n_units w' ⊆ n_units w → settled w → settled w'.
Proof. intros Hl ???. apply (settled_frame w w' []); [done| |done..]. intros f Hf. by apply not_elem_of_nil in Hf. Qed.
Lemma settled_note w fs : (∀ f, f ∈ fs → quiet_fact f = true) → settled w → settled (noted w fs).
Proof. intros Hf. by apply (settled_frame w _ fs). Qed.

(** The journal of an operation changes. *)
Lemma settled_written w r ph : settled w → n_phase w !! rc_Operation r = Some ph → fits ph r → (succeeded r = true → late (Some ph)) →
  (succeeded r = true ∨ ∀ r', FWrote r' ∈ n_log w → rc_Operation r' = rc_Operation r → succeeded r' = false) →
  settled (noted (on_journal w (Some r)) [FWrote r]).
Proof.
  intros [H1 H2 H3 H4] Hp Hfit Hlate Hold. split; cbn.
  - intros r' [= <-]. eauto.
  - intros r' Hin Hr'. apply elem_of_cons in Hin as [[= ->]|Hin].
    + rewrite Hp. split; [auto|]. by intros j [= <-].
    + destruct (H2 r' Hin Hr') as [Hl _]. split; [done|]. intros j [= <-] Hop. destruct Hold as [?|Hold]; [done|]. rewrite (Hold r' Hin) in Hr'; done.
  - intros op c Hin. apply elem_of_cons in Hin as [?|Hin]; [done|]. eauto.
  - done.
Qed.
Lemma settled_write o w r ph : settled w → n_phase w !! rc_Operation r = Some ph → fits ph r → (succeeded r = true → late (Some ph)) →
  (succeeded r = true ∨ ∀ r', FWrote r' ∈ n_log w → rc_Operation r' = rc_Operation r → succeeded r' = false) → settled (write o w r).1.
Proof. intros. unfold write. destruct (nfailing _ _); [by eapply settled_written|done]. Qed.
(** An operation comes further. *)
Lemma settled_phase w op ph' : settled w → n_phase w !! op ≠ Some SRolling → (∀ j, n_journal w = Some j → rc_Operation j = op → fits ph' j) →
  (late (Some ph') ∨ ∀ r, FWrote r ∈ n_log w → rc_Operation r = op → succeeded r = false) → op ∉ n_units w → settled (in_phase w op ph').
Proof.
  intros [H1 H2 H3 H4] Hr Hfit Hlate Hu. split; cbn.
  - intros j Hj. destruct (decide (rc_Operation j = op)) as [<-|]; [rewrite lookup_insert_eq; eauto|rewrite lookup_insert_ne by done; auto].
  - intros r Hin Hsr. destruct (H2 r Hin Hsr) as [Hl Hj]. split; [|done]. destruct (decide (rc_Operation r = op)) as [E|]; [|by rewrite lookup_insert_ne].
    rewrite E, lookup_insert_eq. destruct Hlate as [?|Hno]; [done|]. by rewrite (Hno r Hin E) in Hsr.
  - intros op' c Hin. specialize (H3 op' c Hin). rewrite lookup_insert_ne; [done|]. by intros ->.
  - intros op' Hin. rewrite lookup_insert_ne; [auto|]. by intros ->.
Qed.

(** No success before the supervisor and none after it went back. *)
Lemma no_success w op : settled w → ¬ late (n_phase w !! op) → ∀ r, FWrote r ∈ n_log w → rc_Operation r = op → succeeded r = false.
Proof. intros Hs Hl r Hin <-. apply not_true_is_false. intros Hr. by destruct (s_success _ Hs r Hin Hr). Qed.
Lemma no_success_unconfirmed w j : settled w → n_journal w = Some j → succeeded j = false →
  ∀ r, FWrote r ∈ n_log w → rc_Operation r = rc_Operation j → succeeded r = false.
Proof.
  intros Hs Hj Hn r Hin Hop. apply not_true_is_false. intros Hr. destruct (s_success _ Hs r Hin Hr) as [_ H]. rewrite (H j Hj) in Hn; done.
Qed.
Lemma unlaunched w op : settled w → n_phase w !! op ≠ Some SLaunched → op ∉ n_units w.
Proof. intros Hs Hp Hin. by apply Hp, (s_units _ Hs). Qed.

(** *** Sections *)

Lemma settled_journalled {A} o w (s : option record → section A) : settled w →
  (∀ r a, s (n_journal w) = Ok (Some r, a) → settled (write o w r).1) → settled (journalled o w s).1.
Proof.
  intros Hs Hw. unfold journalled, nfailing. destruct (no_fail o); [done|]. destruct (s (n_journal w)) as [[[r|] a]|]; [|done..].
  specialize (Hw r a eq_refl). by destruct (write o w r).
Qed.
Lemma journalled_phase {A} o w (s : option record → section A) : n_phase (journalled o w s).1 = n_phase w ∧ n_units (journalled o w s).1 = n_units w.
Proof. unfold journalled, write. by repeat (case_match; simplify_eq/=). Qed.
Lemma write_phase o w r : n_phase (write o w r).1 = n_phase w.
Proof. unfold write. by case_match. Qed.

Lemma transition_settled o w op s ph : settled w → n_phase w !! op = Some ph → ph = SForward ∨ ph = SRolling ∧ s = "rolled_back" →
  settled (journalled o w (transition op s)).1.
Proof.
  intros Hs Hp Hph. apply settled_journalled; [done|]. intros r a E. unfold transition in E. destruct (n_journal w) as [e|] eqn:Ej; [|done]. guards_in E. simplify_eq. bool_hyps. subst op.
  eapply settled_write; [done|exact Hp| | |].
  - destruct Hph as [->|[-> ->]]; [done|]. reflexivity.
  - unfold succeeded. cbn. done.
  - right. apply (no_success_unconfirmed w e); [done|exact Ej|]. unfold succeeded. by destruct (rc_Confirmed e).
Qed.
Lemma confirm_settled o w cur op s : settled w → settled (journalled o w (confirm cur op s)).1.
Proof.
  intros Hs. apply settled_journalled; [done|]. intros r a E. unfold confirm in E. destruct (n_journal w) as [e|] eqn:Ej; [|done].
  destruct (s_journal _ Hs e Ej) as (ph & Hp & Hfit). guards_in E; simplify_eq; bool_hyps.
  - assert (Hh : hopeful e = true) by (unfold hopeful; by apply bool_decide_eq_true_2). assert (late (Some ph)) by (unfold late; destruct ph; cbn in Hfit; first [done|congruence|auto]).
    eapply settled_write; [done|exact Hp| |done|by left]. destruct ph; cbn in Hfit; first [done|congruence].
  - eapply settled_write; [done|exact Hp|destruct ph; cbn in Hfit; done|done|]. right. apply (no_success_unconfirmed w e); [done|exact Ej|].
    unfold succeeded. rewrite (bool_decide_eq_false_2 (rc_State e = "succeeded")); [apply andb_false_r|]. intros Hst. rewrite Hst in *. set_solver.
Qed.

Section runs.
Context (elf_of : string → option Elf) (build_of : string → option BuildInfo) (arch : string).
Abbreviation nanswer := (InstallerProtocol.nanswer elf_of build_of arch).
Abbreviation nperform := (InstallerProtocol.nperform elf_of build_of arch).
Abbreviation nstep := (InstallerProtocol.nstep elf_of build_of arch).
Abbreviation nrun := (InstallerProtocol.nrun elf_of build_of arch).

(** ** Steps *)

(** What a call must leave: the node settled, and the operations with their owners;
    an operation that waits for its supervisor has none. *)
Definition unwaiting (m : turn) : Prop := ∀ op, m ≠ Some (op, SLaunched).
Definition keeps (w : Node) (m : turn) (x : Node) (m' : turn) : Prop :=
  settled x ∧ Prog.own_step (n_phase w) (n_phase x) m m' ∧ unwaiting m'.
Definition agrees (w : Node) (m : turn) : Prop := ∀ op ph, m = Some (op, ph) → n_phase w !! op = Some ph.

Lemma unmoved_keeps w m x : agrees w m → unwaiting m → settled x → n_phase x = n_phase w → keeps w m x m.
Proof using. intros Hm Hu Hx Hp. split; [done|]. split; [|done]. by apply own_step_same. Qed.
Lemma loose_quiet B (c : ncall B) b f : loose c = true → f ∈ nlearned c b → quiet_fact f = true.
Proof using.
  intros Hc. destruct c; try discriminate; cbn; repeat case_match; intros Hf; try (by apply not_elem_of_nil in Hf); apply list_elem_of_singleton in Hf as ->; try done.
Qed.
Lemma loose_answer n o w B (c : ncall B) : loose c = true → settled w → settled (nanswer n o w c).1 ∧ n_phase (nanswer n o w c).1 = n_phase w.
Proof using.
  intros Hc Hs. assert (Hsame : ∀ x, n_log x = n_log w → n_journal x = n_journal w → n_units x = n_units w → n_phase x = n_phase w → settled x ∧ n_phase x = n_phase w).
  { intros x Hl Hj Hu Hp. split; [|done]. eapply settled_same; [exact Hl|exact Hj|exact Hp|by rewrite Hu|done]. }
  destruct c; try discriminate; cbn [InstallerProtocol.nanswer]; try (repeat case_match; by apply Hsame).
  - set (cur := identity (rt_capabilities (n_runtime w))). pose proof (confirm_settled o w cur operation state Hs) as H.
    destruct (journalled_phase o w (confirm cur operation state)) as [Hp _]. destruct (journalled _ _ _) as [x [[|]|]]; cbn in *; [|done..].
    split; [by eapply settled_same; [..|exact H]|done].
  - destruct (no_fail o); [by apply Hsame|]. destruct (no_late o); cbn [fst]; [|by apply Hsame]. split; [|done].
    apply settled_note; [intros f ->%list_elem_of_singleton; by destruct k|]. by apply Hsame.
Qed.

Lemma loose_keeps n o w B (c : ncall B) m : loose c = true → settled w → agrees w m → unwaiting m →
  let '(x, b) := nperform n o w c in keeps w m x (turn_next c m b).
Proof using.
  intros Hc Hs Hm Hu. unfold InstallerProtocol.nperform. destruct (loose_answer n o w _ c Hc Hs) as [Hx Hp]. destruct (nanswer n o w c) as [x b]. cbn in *.
  rewrite loose_next by done. apply unmoved_keeps; try done. apply settled_note; [|done]. intros f. by apply loose_quiet.
Qed.

Lemma begun_settled w op : settled w → n_phase w !! op = None → settled (noted (in_phase w op BBegun) [FBegan op]).
Proof using.
  intros Hs Hn. apply settled_note; [by intros f ->%list_elem_of_singleton|]. apply settled_phase; [done|by rewrite Hn| | |].
  - intros j Hj Hop. destruct (s_journal _ Hs j Hj) as (ph & Hp & _). congruence.
  - right. apply no_success; [done|]. rewrite Hn. by intros [].
  - apply unlaunched; [done|]. by rewrite Hn.
Qed.
Lemma noted_nil w : settled w → settled (noted w []).
Proof using. apply settled_note. intros f Hf. by apply not_elem_of_nil in Hf. Qed.

(** Records of an operation that is being prepared. *)
Lemma preparing_quiet r : preparing r = true → hopeful r = false ∧ succeeded r = false.
Proof using.
  unfold preparing, hopeful, succeeded. intros H%bool_decide_eq_true. repeat (apply elem_of_cons in H as [-> |H]; [by rewrite andb_false_r|]).
  by apply not_elem_of_nil in H.
Qed.
Lemma prepared_settled w r ph : settled w → n_phase w !! rc_Operation r = Some ph → ph = BWritten ∨ ph = BStopped → preparing r = true →
  settled (noted (on_journal w (Some r)) [FWrote r]).
Proof using.
  intros Hs Hp Hph [Hh Hn]%preparing_quiet. eapply settled_written; [done|exact Hp|by destruct Hph as [-> | ->]|congruence|].
  right. apply no_success; [done|]. rewrite Hp. intros [[= ->]|[= ->]]; by destruct Hph.
Qed.
Lemma intent_settled w entry ph : settled w → n_phase w !! rc_Operation entry = Some BBegun → preparing entry = true → ph = BWritten ∨ ph = BStopped →
  settled (in_phase w (rc_Operation entry) ph) ∧ settled (in_phase (noted (on_journal w (Some entry)) [FWrote entry]) (rc_Operation entry) ph).
Proof using.
  intros Hs Hp He Hph. assert (H1 : settled (in_phase w (rc_Operation entry) ph)).
  { apply settled_phase; [done|by rewrite Hp| | |apply unlaunched; [done|by rewrite Hp]].
    - intros j Hj Hop. destruct (s_journal _ Hs j Hj) as (ph' & Hp' & Hf). rewrite Hop, Hp in Hp'. by injection Hp' as <-.
    - right. apply no_success; [done|]. rewrite Hp. by intros []. }
  split; [done|]. exact (prepared_settled _ entry ph H1 ltac:(cbn; apply lookup_insert_eq) Hph He).
Qed.
Lemma intent_answer o w entry original refuse_same : settled w → n_phase w !! rc_Operation entry = Some BBegun → preparing entry = true →
  let '(x, r) := journalled o w (intent entry original refuse_same (no_now o)) in
  settled (in_phase x (rc_Operation entry) (match r with Ok _ => BWritten | Err _ => BStopped end)).
Proof using.
  intros Hs Hp He. unfold journalled, write, nfailing. destruct (no_fail o); [apply intent_settled; auto|]. unfold intent.
  destruct (match n_journal w with Some _ => _ | None => _ end); cbn; [apply intent_settled; auto|].
  destruct (validate entry); [|apply intent_settled; auto]. destruct (no_late o); apply intent_settled; auto.
Qed.
Lemma rollback_answer o w op : settled w → n_phase w !! op = Some SForward →
  let '(x, r) := journalled o w (beginRollback op) in settled (in_phase x op (match r with Ok false => SRolling | _ => SStopped end)).
Proof using.
  intros Hs Hp.
  assert (Hstop : ∀ x, settled x → n_phase x = n_phase w → settled (in_phase x op SStopped)).
  { intros x Hx Hpx. apply settled_phase; [done|by rewrite Hpx, Hp|done|left; by right|apply unlaunched; [done|by rewrite Hpx, Hp]]. }
  unfold journalled, write, nfailing. destruct (no_fail o); [by apply Hstop|]. unfold beginRollback. destruct (n_journal w) as [e|] eqn:Ej; [|by apply Hstop].
  destruct (negb _) eqn:Eo; cbn; [by apply Hstop|]. bool_hyps. subst op. destruct (rc_Confirmed e) eqn:Ec; [case_bool_decide; by apply Hstop|]. cbn.
  destruct (validate _); [|by apply Hstop].
  assert (Hw : settled (noted (on_journal w (Some (with_state e "rolling_back" false))) [FWrote (with_state e "rolling_back" false)])).
  { eapply settled_written; [done|exact Hp|done|done|]. right. apply (no_success_unconfirmed w e); [done|exact Ej|]. unfold succeeded. by rewrite Ec. }
  destruct (no_late o); [by apply Hstop|]. apply settled_phase; [done|cbn; by rewrite Hp|by intros j [= <-]| |apply unlaunched; [done|cbn; by rewrite Hp]].
  right. intros r Hin Hop. apply not_true_is_false. intros Hr. destruct (s_success _ Hw r Hin Hr) as [_ Hj]. specialize (Hj _ eq_refl). discriminate Hj. done.
Qed.

Lemma nperform_keeps n o w B (c : ncall B) m : settled w → once o w c = true → no_started o = false → turn_pre c m → agrees w m → unwaiting m →
  let '(x, b) := nperform n o w c in keeps w m x (turn_next c m b).
Proof using.
  intros Hs Hon Hst Hpre Hm Hu. destruct (loose c) eqn:Ec; [by apply loose_keeps|].
  assert (Hwr : ∀ r, m = Some (rc_Operation r, BWritten) ∧ preparing r = true → keeps w m (noted (write o w r).1 []) m).
  { intros r [Hr Hpr]. apply unmoved_keeps; try done; [|apply (write_phase o w r)]. apply noted_nil. unfold write. destruct (nfailing _ _); [|done].
    eapply prepared_settled; [done|by apply Hm|by left|done]. }
  destruct c; try discriminate; unfold InstallerProtocol.nperform; cbn [InstallerProtocol.nanswer nlearned turn_next turn_pre] in *.
  - destruct Hpre as [-> Hpr]. specialize (Hm _ _ eq_refl). pose proof (intent_answer o w entry original refuse_same Hs Hm Hpr) as H.
    destruct (journalled_phase o w (intent entry original refuse_same (no_now o))) as [Hp _]. destruct (journalled _ _ _) as [x r]. cbn in Hp.
    split_and!; [by apply noted_nil|apply own_step_insert; [cbn; by rewrite Hp|eauto]|by intros op; destruct r].
  - specialize (Hwr entry Hpre). by destruct (write o w entry).
  - by apply Hwr.
  - assert (H : settled (journalled o w (transition operation state)).1).
    { destruct Hpre as [-> |[-> ->]]; (eapply transition_settled; [done|by apply Hm|auto]). }
    destruct (journalled_phase o w (transition operation state)) as [Hp _]. destruct (journalled _ _ _) as [x r]. apply unmoved_keeps; try done. by apply noted_nil.
  - subst m. specialize (Hm _ _ eq_refl). pose proof (rollback_answer o w operation Hs Hm) as H.
    destruct (journalled_phase o w (beginRollback operation)) as [Hp _]. destruct (journalled _ _ _) as [x r]. cbn in Hp.
    split_and!; [by apply noted_nil|apply own_step_insert; [cbn; by rewrite Hp|eauto]|by intros op; destruct r as [[|]|]].
  - destruct k as [op|op|op]; [discriminate..|]. cbn in Hpre. subst m. specialize (Hm _ _ eq_refl).
    assert (H : settled (noted (on_files w (<[Binary := content]> (n_files w))) [FReplaced (Restore op) content])).
    { destruct Hs as [H1 H2 H3 H4]. split; cbn; [done| | |done].
      - intros r Hin. apply elem_of_cons in Hin as [?|Hin]; [discriminate|]. by apply H2.
      - intros op' c Hin. apply elem_of_cons in Hin as [[= -> _]|Hin]; [done|]. by eapply H3. }
    assert (Hag : agrees w (Some (op, SRolling))) by (by intros ? ? [= <- <-]).
    destruct (no_fail o); [by apply unmoved_keeps; [..|apply noted_nil|]|]. by destruct (no_late o); apply unmoved_keeps.
  - destruct (no_request o) as [req|] eqn:Er; [|apply unmoved_keeps; try done; by apply noted_nil]. subst m. cbn in Hon. rewrite Er in Hon. apply bool_decide_eq_true in Hon.
    split_and!; [by apply noted_nil, begun_settled|apply own_step_insert; [done|by right]|done].
  - subst m. specialize (Hm _ _ eq_refl). rewrite Hst. destruct (no_fail o).
    { apply unmoved_keeps; try done; [by intros ? ? [= <- <-]|by apply noted_nil]. }
    split_and!; [|by eapply own_step_give|done]. apply noted_nil.
    assert (H : settled (in_phase w op SLaunched)).
    { apply settled_phase; [done|by rewrite Hm| | |apply unlaunched; [done|by rewrite Hm]].
      - intros j Hj Hop. destruct (s_journal _ Hs j Hj) as (ph & Hp & Hf). rewrite Hop, Hm in Hp. by injection Hp as <-.
      - right. apply no_success; [done|]. rewrite Hm. by intros []. }
    destruct H as [H1 H2 H3 H4]. split; [done..|]. cbn. intros op' [->%elem_of_singleton|Hin]%elem_of_union; [by rewrite lookup_insert_eq|by apply H4].
Qed.

(** ** Runs *)

Record orderly (m : Machine) : Prop := {
  d_settled : settled (mc_node m);
  d_owned : ∃ ms, Prog.owned (@turn_pre) (@turn_next) (n_phase (mc_node m)) ms (mc_threads m) ∧ ∀ i x, ms !! i = Some x → unwaiting x;
}.

Lemma orderly_spawn m p : orderly m → taking None p → orderly (mkMachine (mc_node m) (mc_threads m ++ [p])).
Proof using.
  intros [Hs (ms & Ho & Hu)] Hp. split; [done|]. exists (ms ++ [None]). split; [by apply owned_spawn|].
  intros i x [Hi|[_ Hi]]%lookup_app_Some; [by eapply Hu|]. destruct (i - length ms)%nat as [|[]]; [|discriminate..]. by injection Hi as <-.
Qed.
Lemma orderly_spawn_with m w op ph p : orderly m → settled w → n_phase w = <[op := ph]> (n_phase (mc_node m)) → ph ≠ SLaunched →
  n_phase (mc_node m) !! op = None ∨ n_phase (mc_node m) !! op = Some SLaunched → taking (Some (op, ph)) p → orderly (mkMachine w (mc_threads m ++ [p])).
Proof using.
  intros [Hs (ms & Ho & Hu)] Hw Hph Hne Hop Hp. split; [done|]. exists (ms ++ [Some (op, ph)]). cbn. rewrite Hph. split.
  - apply owned_spawn_with; [done| |done]. intros i ph' Hi. pose proof (o_phase _ _ _ _ _ Ho i op ph' Hi) as E. destruct Hop as [Hop|Hop]; [congruence|].
    rewrite Hop in E. injection E as <-. by eapply (Hu _ _ Hi).
  - intros i x [Hi|[_ Hi]]%lookup_app_Some; [by eapply Hu|]. destruct (i - length ms)%nat as [|[]]; [|discriminate..]. injection Hi as <-. by intros op' [= _ ?].
Qed.

Lemma nstep_orderly m e : honest e = true → orderly m → orderly (nstep m e).
Proof using.
  intros He Hm. pose proof Hm as [Hs (ms & Ho & Hu)].
  assert (Hd : ∀ A x (p : prog A), taking x p → taking x (discard p)) by (intros A x p Hp; apply owning_bind; [done|by intros]).
  destruct e as [ticks req|op st| |ticket version revision executable placed assertion|op fw bk|thread o|n|version revision host budget|host]; cbn [InstallerProtocol.nstep].
  - destruct (unbegun _ _) eqn:Eb; [|done]. apply bool_decide_eq_true in Eb.
    eapply (orderly_spawn_with m _ (request_op req) BBegun); [done|by apply begun_settled|done|done|by left|apply Begin_taking].
  - apply orderly_spawn; [done|]. by apply Hd, loosely_taking.
  - apply orderly_spawn; [done|]. by apply Hd, loosely_taking.
  - apply orderly_spawn; [done|]. apply Hd, bootstrap_taking.
  - destruct (decide _) as [Hin|]; [|done]. pose proof (s_units _ Hs op Hin) as Hp.
    eapply (orderly_spawn_with m _ op SForward); [done| |done|done|by right|apply Hd, runOperation_taking].
    apply settled_phase; cbn; [|by rewrite Hp|done|left; by left|set_solver]. eapply (settled_same (mc_node m)); [done..| |exact Hs]. cbn. set_solver.
  - destruct (mc_threads m !! thread) as [[|B c k]|] eqn:En; [done| |done]. destruct (once _ _ _) eqn:Eo; [|done].
    destruct (Forall2_lookup_r _ _ _ _ _ (o_threads _ _ _ _ _ Ho) En) as (x & Hx & Hpre & Hk). apply negb_true_iff in He.
    pose proof (nperform_keeps thread o (mc_node m) _ c x Hs Eo He Hpre) as H.
    specialize (H ltac:(intros op ph ->; by eapply (o_phase _ _ _ _ _ Ho)) ltac:(by eapply Hu)). destruct (nperform thread o (mc_node m) c) as [w b].
    destruct H as (Hs' & Hst & Hu'). split; [done|]. exists (<[thread := turn_next c x b]> ms). split; [by eapply owned_step|].
    intros i y Hi. apply list_lookup_insert_Some in Hi as [(_ & <- & _)|[_ Hi]]; [done|by eapply Hu].
  - assert (Hw : settled (if bool_decide (n_owner (mc_node m) = Some n) then on_owner (mc_node m) None else mc_node m)).
    { case_bool_decide; [by eapply settled_same; [..|exact Hs]|done]. }
    split; [done|]. exists ms. cbn. split; [|done]. case_bool_decide; by apply owned_stop.
  - split; [by eapply settled_same; [..|exact Hs]|]. by exists ms.
  - split; [by eapply settled_same; [..|exact Hs]|]. by exists ms.
Qed.
Lemma nrun_orderly c0 rt es : Forall (fun e => honest e = true) es → orderly (nrun (fresh_node c0 rt) es).
Proof using.
  assert (H0 : orderly (fresh_node c0 rt)).
  { split; [|exists []; split; [split; [constructor|done|done]|done]]. split; cbn; [done|intros r H; by apply not_elem_of_nil in H|intros op c H; by apply not_elem_of_nil in H|set_solver]. }
  intros He. revert H0. generalize (fresh_node c0 rt). induction He as [|e es H Hes IH]; intros m Hm; [done|]. by apply IH, nstep_orderly.
Qed.

(** C14. A success that the agent has confirmed in the journal is final: while the
    journal is of that operation it stays a confirmed success, and the original is
    never copied back for it, whatever is killed and whatever fails, as long as a
    unit that reports an error on its start has not started. *)
Theorem success_wins c0 rt es r :
  Forall (fun e => honest e = true) es →
  let w := mc_node (nrun (fresh_node c0 rt) es) in
  FWrote r ∈ n_log w → rc_Confirmed r = true → rc_State r = "succeeded" →
  (∀ j, n_journal w = Some j → rc_Operation j = rc_Operation r → rc_Confirmed j = true ∧ rc_State j = "succeeded")
  ∧ (∀ c, FReplaced (Restore (rc_Operation r)) c ∉ n_log w).
Proof using.
  intros He w Hin Hc Hst. destruct (nrun_orderly c0 rt es He) as [Hs _]. fold w in Hs.
  assert (Hr : succeeded r = true) by (unfold succeeded; by rewrite Hc, bool_decide_eq_true_2). destruct (s_success _ Hs r Hin Hr) as [Hl Hj]. split.
  - intros j Hjj Hop. specialize (Hj j Hjj Hop). unfold succeeded in Hj. by bool_hyps.
  - intros c Hc'. apply (s_restore _ Hs) in Hc'. rewrite Hc' in Hl. by destruct Hl.
Qed.
End runs.

(** ** Runs of one operation *)

Module NodeDemo.
(** Two releases; their bytes are their names, what the tools read of them is this. *)
Definition elf_of (c : string) : option Elf := Some (mkElf 2 1 2 62).
Definition flags (c : string) : string :=
  if bool_decide (c = "old") then "-X main.version=v1.0.0 -X main.revision=r1" else "-X main.version=v1.1.0 -X main.revision=r2".
Definition build_of (c : string) : option BuildInfo :=
  Some (mkBuild agentPackage [("GOOS", "linux"); ("GOARCH", "amd64"); ("-ldflags", flags c)]).
Definition op : string := "operation-1".
Definition now : Time := unix_epoch + 100 * Second.
Definition expires : Z := UnixMilli (unix_epoch + 400 * Second).
Definition target : Metadata := mkMetadata "v1.1.0" "r2" (SecurityDigest "new") 3.
Definition original : Metadata := mkMetadata "v1.0.0" "r1" (SecurityDigest "old") 3.
Definition request : UpdateMessage := AgentUpdateRequest op "v1.1.0" "r2" (SecurityDigest "new") 3 expires.

Definition good : NOracle := mkNOracle None None now StreamEnd (Ok (Some (op, expires))) (Ok request) false true.
(** The service manager started the unit and the caller saw an error. *)
Definition misreported : NOracle := mkNOracle (Some (ErrText "context deadline exceeded")) None now StreamEnd (Ok (Some (op, expires))) (Ok request) true true.
Definition calls (n thread : nat) : list nevent := repeat (VCall thread good) n.

Definition host (m : Metadata) (journal : option record) : Host :=
  mkHost "linux" "amd64" 0 true true (Ok tt) (md_SHA256 m) "boot" (Ok m) (Ok journal).
Definition journal (state : string) (confirmed : bool) : record := mkRecord 1 op target original expires state confirmed.
Definition begin : Machine := fresh_node "old" (newRuntime "v1.0.0" "r1" (host original None) (Budget.New 8)).
Definition run (es : list nevent) : Machine := nrun elf_of build_of "amd64" begin es.

(** The helper stages the candidate and asks for the supervisor. *)
Definition staging : list nevent := VBootstrap "ticket" "v1.1.0" "r2" "new" true (mkOriginal "" "") :: calls 17 0.
(** The supervisor replaces the binary and waits. *)
Definition replacing : list nevent := VSupervise op 3 3 :: calls 22 1.
(** The new agent starts, and the hub confirms. *)
Definition confirming : list nevent :=
  [VBoot "v1.1.0" "r2" (host target (Some (journal "reconnecting" false))) (Budget.New 8); VConfirm op "succeeded"; VCall 2 good].
Definition completed : list nevent := staging ++ calls 1 0 ++ replacing ++ confirming ++ calls 5 1.
(** The helper that saw an error does what it defers, and the supervisor goes on. *)
Definition misled : list nevent := staging ++ [VCall 0 misreported] ++ replacing ++ confirming.
Definition overwritten : list nevent := misled ++ calls 4 0 ++ calls 30 1.
End NodeDemo.

Lemma success_wins_witness :
  n_files (mc_node (NodeDemo.run NodeDemo.completed)) !! Binary = Some "new"
  ∧ ∀ c, FReplaced (Restore NodeDemo.op) c ∉ n_log (mc_node (NodeDemo.run NodeDemo.completed)).
Proof.
  split; [vm_compute; reflexivity|].
  refine (proj2 (success_wins NodeDemo.elf_of NodeDemo.build_of "amd64" "old" _ NodeDemo.completed (NodeDemo.journal "succeeded" true) _ _ _ _)).
  - apply Forall_forall. intros e He. apply (proj1 (forallb_forall honest NodeDemo.completed)); [vm_compute; reflexivity|by apply list_elem_of_In].
  - apply (list_elem_of_lookup_2 _ 1). vm_compute. reflexivity.
  - reflexivity.
  - reflexivity.
Defined.

(** C39. When the helper sees an error from the start of a unit that runs all the
    same, the record it writes when it gives up is its own, not the journal's: it
    overwrites a success that the agent had confirmed, and the supervisor, which
    still waits for the confirmation, puts the original back. *)
Theorem confirmed_update_rolled_back :
  let before := mc_node (NodeDemo.run NodeDemo.misled) in
  let after := mc_node (NodeDemo.run NodeDemo.overwritten) in
  n_journal before = Some (NodeDemo.journal "succeeded" true) ∧ n_files before !! Binary = Some "new"
  ∧ n_journal after = Some (NodeDemo.journal "rolled_back" false) ∧ n_files after !! Binary = Some "old".
Proof. split_and!; vm_compute; reflexivity. Qed.
