(* ===== verification/NetAddr.v ===== *)
(** The parts of Go's net/netip and net that destination checks use: addresses,
    prefixes, how they are parsed, and [net.SplitHostPort]. *)

From S2P Require Import Prelude Filepath Identity.

(** ** Addresses *)

(** [netip.Addr]: the zero value, an IPv4 address, or an IPv6 address with its zone. *)
Inductive Addr := Invalid | IP4 (v : Z) | IP6 (v : Z) (zone : string).
#[export] Instance addr_eq_dec : EqDecision Addr.
Proof. solve_decision. Defined.

Definition IsValid (a : Addr) : bool := match a with Invalid => false | _ => true end.
Definition Is6 (a : Addr) : bool := match a with IP6 _ _ => true | _ => false end.
Definition Zone (a : Addr) : string := match a with IP6 _ z => z | _ => "" end.
Definition BitLen (a : Addr) : Z := match a with Invalid => 0 | IP4 _ => 32 | IP6 _ _ => 128 end.
Definition value (a : Addr) : Z := match a with Invalid => 0 | IP4 v | IP6 v _ => v end.
Definition Unmap (a : Addr) : Addr :=
  match a with
  | IP6 v _ => if Z.shiftr v 32 =? 65535 then IP4 (Z.land v (2 ^ 32 - 1)) else a
  | _ => a
  end.
Definition IsUnspecified (a : Addr) : bool := bool_decide (a = IP4 0) || bool_decide (a = IP6 0 "").
Definition IsMulticast (a : Addr) : bool :=
  match a with Invalid => false | IP4 v => Z.shiftr v 28 =? 14 | IP6 v _ => Z.shiftr v 120 =? 255 end.
Definition IsLinkLocalUnicast (a : Addr) : bool :=
  match a with Invalid => false | IP4 v => Z.shiftr v 16 =? 169 * 256 + 254 | IP6 v _ => Z.shiftr v 118 =? 1018 end.
Definition IsLinkLocalMulticast (a : Addr) : bool :=
  match a with
  | Invalid => false
  | IP4 v => Z.shiftr v 8 =? 224 * 65536
  | IP6 v _ => Z.land (Z.shiftr v 112) 65295 =? 65282
  end.

(** ** Prefixes *)

Record Prefix := mkPrefix { px_Addr : Addr; px_Bits : Z }.
#[export] Instance prefix_eq_dec : EqDecision Prefix.
Proof. solve_decision. Defined.
(** The first [bits] bits. *)
Definition masked_value (width bits v : Z) : Z := Z.shiftl (Z.shiftr v (width - bits)) (width - bits).
Definition Masked (p : Prefix) : Prefix :=
  let bits := px_Bits p in
  mkPrefix (match px_Addr p with
            | Invalid => Invalid
            | IP4 v => IP4 (masked_value 32 bits v)
            | IP6 v _ => IP6 (masked_value 128 bits v) ""
            end) bits.
Definition Contains (p : Prefix) (a : Addr) : bool :=
  let width := BitLen a in
  bool_decide (Zone a = "") && negb (width =? 0) && (BitLen (px_Addr p) =? width)
  && (Z.shiftr (Z.lxor (value a) (value (px_Addr p))) (width - px_Bits p) =? 0).

(** ** Parsing *)

(** A decimal octet: no sign, no leading zero, at most 255. *)
Definition octet (l : list Z) : option Z :=
  match l with
  | [] => None
  | 48 :: _ :: _ => None
  | _ => v ← digits_value 0 l; if v <=? 255 then Some v else None
  end.
(** [parseIPv4Fields]. *)
Definition parseIPv4 (s : string) : option Z :=
  match mapM (fun f => octet (bytes f)) (split "." s) with
  | Some [a; b; c; d] => Some (((a * 256 + b) * 256 + c) * 256 + d)
  | _ => None
  end.

Definition hexval (b : Z) : option Z :=
  if between 48 57 b then Some (b - 48) else if between 97 102 b then Some (b - 87) else if between 65 70 b then Some (b - 55) else None.
(** The digits at the front: how many, their value, and what follows.  More than four
    digits are refused. *)
Fixpoint group_ (n : nat) (acc : Z) (s : list Z) : option (nat * Z * list Z) :=
  match s with
  | [] => Some (n, acc, [])
  | b :: t =>
      match hexval b with
      | None => Some (n, acc, s)
      | Some x => if (3 <? n)%nat then None else group_ (S n) (16 * acc + x) t
      end
  end.
(** The bytes of an IPv4 address at the end. *)
Definition quad (v : Z) : list Z := [Z.land (Z.shiftr v 24) 255; Z.land (Z.shiftr v 16) 255; Z.land (Z.shiftr v 8) 255; Z.land v 255].
(** The loop of [parseIPv6], [turns] groups at most; [ip]: the bytes so far;
    [ellipsis]: where the zeros go.  It gives the bytes, the ellipsis and the rest. *)
Fixpoint groups6 (turns : nat) (ip : list Z) (ellipsis : option nat) (s : list Z) : option (list Z * option nat * list Z) :=
  match turns with
  | O => Some (ip, ellipsis, s)
  | S turns =>
      match group_ 0 0 s with
      | None | Some (O, _, _) => None
      | Some (_, _, 46 :: _) =>
          if (bool_decide (ellipsis = None) && negb (length ip =? 12)%nat) || (12 <? length ip)%nat then None
          else match parseIPv4 (of_runes_bytes s) with Some v => Some (ip ++ quad v, ellipsis, []) | None => None end
      | Some (_, acc, rest) =>
          let ip := ip ++ [acc / 256; acc mod 256] in
          match rest with
          | [] => Some (ip, ellipsis, [])
          | 58 :: 58 :: rest =>
              match ellipsis, rest with
              | Some _, _ => None
              | None, [] => Some (ip, Some (length ip), [])
              | None, _ => groups6 turns ip (Some (length ip)) rest
              end
          | 58 :: ((_ :: _) as rest) => groups6 turns ip ellipsis rest
          | _ => None
          end
      end
  end.
Definition value_of (l : list Z) : Z := foldl (fun v b => v * 256 + b) 0 l.
(** What was parsed, with the ellipsis expanded. *)
Definition expanded (r : option (list Z * option nat * list Z)) : option (list Z) :=
  match r with
  | Some (ip, ellipsis, []) =>
      match ellipsis with
      | None => if (length ip =? 16)%nat then Some ip else None
      | Some e => if (length ip <? 16)%nat then Some (take e ip ++ replicate (16 - length ip) 0 ++ drop e ip) else None
      end
  | _ => None
  end.
Fixpoint cut (sep : Z) (l : list Z) : option (list Z * list Z) :=
  match l with
  | [] => None
  | b :: t => if b =? sep then Some ([], t) else match cut sep t with Some (x, y) => Some (b :: x, y) | None => None end
  end.
Definition parseIPv6 (s : list Z) : option Addr :=
  let '(s, zone) := match cut 37 s with Some (x, z) => (x, Some z) | None => (s, None) end in
  if bool_decide (zone = Some []) then None else
  let parsed := match s with
                | 58 :: 58 :: [] => Some (replicate 16 0)
                | 58 :: 58 :: rest => expanded (groups6 8 [] (Some 0%nat) rest)
                | _ => expanded (groups6 8 [] None s)
                end in
  match parsed with Some ip => Some (IP6 (value_of ip) (of_runes_bytes (default [] zone))) | None => None end.
(** [netip.ParseAddr]: the first of these bytes decides. *)
Fixpoint first_of (l : list Z) : option Z :=
  match l with [] => None | b :: t => if (b =? 46) || (b =? 58) || (b =? 37) then Some b else first_of t end.
Definition ParseAddr (s : string) : option Addr :=
  match first_of (bytes s) with
  | Some 46 => IP4 <$> parseIPv4 s
  | Some 58 => parseIPv6 (bytes s)
  | _ => None
  end.

(** At the last separator. *)
Definition cut_last (sep : Z) (l : list Z) : option (list Z * list Z) :=
  match cut sep (rev l) with Some (x, y) => Some (rev y, rev x) | None => None end.
(** [netip.ParsePrefix]. *)
Definition ParsePrefix (s : string) : option Prefix :=
  match cut_last 47 (bytes s) with
  | None => None
  | Some (addr, bits) =>
      match ParseAddr (of_runes_bytes addr) with
      | None => None
      | Some a =>
          if negb (bool_decide (Zone a = "")) then None
          else if match bits with b :: _ :: _ => negb (between 49 57 b) | _ => false end then None
          else match Atoi bits with Some n => if between 0 (BitLen a) n then Some (mkPrefix a n) else None | None => None end
      end
  end.

(** [net.SplitHostPort]. *)
Definition has (b : Z) (l : list Z) : bool := bool_decide (b ∈ l).
Definition SplitHostPort (s : string) : option (string * string) :=
  match cut_last 58 (bytes s) with
  | None => None
  | Some (host, port) =>
      let out host := if has 91 port || has 93 port then None else Some (of_runes_bytes host, of_runes_bytes port) in
      match host with
      | 91 :: inner =>
          match cut 93 inner with
          | Some (name, []) => if has 91 name then None else out name
          | _ => None
          end
      | _ => if has 58 host || has 91 host || has 93 host then None else out host
      end
  end.
(** [strconv.ParseUint(s, 10, 16)]. *)
Definition ParseUint16 (s : string) : option Z :=
  match bytes s with [] => None | l => v ← digits_value 0 l; if v <? 2 ^ 16 then Some v else None end.

(** [strings.EqualFold] against a text of ASCII bytes: the only other runes that fold
    to such a byte are the long s and the Kelvin sign. *)
Definition fold_rune (r : Z) : Z := if between 65 90 r then r + 32 else if r =? 383 then 115 else if r =? 8490 then 107 else r.
Definition EqualFold (s t : string) : bool := bool_decide (fold_rune <$> runes s = fold_rune <$> runes t).

(** ** Examples *)

Example parse_loopback : ParseAddr "127.0.0.1" = Some (IP4 2130706433). Proof. reflexivity. Qed.
Example parse_leading_zero : ParseAddr "127.0.0.01" = None. Proof. reflexivity. Qed.
Example parse_v6 : ParseAddr "2001:db8::8:800:200c:417a" = Some (IP6 42540766411282592856906245548098208122 ""). Proof. reflexivity. Qed.
Example parse_v6_edges : ParseAddr <$> ["::"; "::1"; "1::"; "::ffff:10.0.0.1"; "1:2:3:4:5:6:7:8"; "1:2:3:4:5:6:7::"; "1:2:3:4:5:6:7:8::"; "1::2::3"; "12345::"; "1:2"; ":1"; "fe80::1%eth0"; "::%"]
  = [Some (IP6 0 ""); Some (IP6 1 ""); Some (IP6 (2 ^ 112) ""); Some (IP6 (65535 * 2 ^ 32 + 167772161) ""); Some (IP6 5192455318486707404433266433261576 "");
     Some (IP6 5192455318486707404433266433261568 ""); None; None; None; None; None; Some (IP6 (65152 * 2 ^ 112 + 1) "eth0"); None].
Proof. reflexivity. Qed.
Example prefixes : (fun s => (fun p => bool_decide (p = Masked p)) <$> ParsePrefix s) <$> ["10.0.0.0/8"; "10.0.0.1/8"; "0.0.0.0/0"; "10.0.0.0/33"; "10.0.0.0/08"; "fd00::/8"; "10.0.0.0"]
  = [Some true; Some false; Some true; None; None; Some true; None].
Proof. reflexivity. Qed.
Example contains : Contains (mkPrefix (IP4 167772160) 8) <$> [IP4 167772161; IP4 184549376; IP6 167772161 ""] = [true; false; false]. Proof. reflexivity. Qed.
Example host_ports : SplitHostPort <$> ["hub:443"; "[::1]:80"; "::1:80"; "hub"; "[::1]"; ":80"]
  = [Some ("hub", "443"); Some ("::1", "80"); None; None; None; Some ("", "80")].
Proof. reflexivity. Qed.

(** ** What a prefix holds *)

Lemma ParsePrefix_bits s p : ParsePrefix s = Some p → 0 ≤ px_Bits p ≤ BitLen (px_Addr p).
Proof.
  unfold ParsePrefix. intros H. repeat case_match; simplify_eq; cbn; match goal with H : between 0 _ _ = true |- _ => unfold between in H; bool_hyps; z_hyps; lia end.
Qed.
(** The addresses of a prefix that has no bits beyond its length are an interval. *)
Lemma Contains_range p a : p = Masked p → 0 ≤ px_Bits p ≤ BitLen (px_Addr p) → Contains p a = true →
  BitLen a = BitLen (px_Addr p) ∧ value (px_Addr p) ≤ value a < value (px_Addr p) + 2 ^ (BitLen a - px_Bits p).
Proof.
  intros Hm Hb H. unfold Contains in H. bool_hyps. z_hyps. split; [lia|].
  assert (Hk : 0 ≤ BitLen a - px_Bits p) by lia. revert Hk. set (k := BitLen a - px_Bits p) in *. intros Hk.
  assert (He : value a / 2 ^ k = value (px_Addr p) / 2 ^ k).
  { rewrite <- !Z.shiftr_div_pow2 by done. apply Z.lxor_eq. rewrite <- Z.shiftr_lxor. lia. }
  assert (Hv : value (px_Addr p) = value (px_Addr p) / 2 ^ k * 2 ^ k).
  { rewrite <- Z.shiftr_div_pow2, <- Z.shiftl_mul_pow2 by done. subst k. rewrite <- H1. destruct p as [[|v|v z] n]; unfold Masked, masked_value in Hm; cbn in *.
    - by rewrite Z.shiftr_0_l, Z.shiftl_0_l.
    - by injection Hm.
    - by injection Hm. }
  pose proof (Z.div_mod (value a) (2 ^ k)). pose proof (Z.mod_pos_bound (value a) (2 ^ k)). nia.
Qed.
