(* ===== verification/AppTarget.v ===== *)
(** The destinations of web applications (proto/applicationproxy/target.go): what a
    target must look like, and which addresses it may reach.

    [DialTarget] is a program of calls: name lookups, attempts to connect, and the
    reading of the context.  Its theorem is about every attempt in every run. *)

From S2P Require Import Prelude Prog Codec Filepath NetAddr.
Local Open Scope prog_scope.

Definition ErrTarget : goerr := Sentinel "application destination is not permitted".

Record Target := mkTarget {
  t_ApplicationID : string; t_ConfigVersion : Z; t_NodeID : string; t_Scheme : string; t_Hostname : string; t_Port : Z; t_AllowedCIDRs : list string;
}.

Definition label_byte (b : Z) : bool := between 97 122 b || between 48 57 b || (b =? 45).
Definition label_ok (label : string) : bool :=
  let l := bytes label in
  negb (bool_decide (label = "")) && (len label <=? 63) && negb (bool_decide (head l = Some 45)) && negb (bool_decide (last l = Some 45)) && forallb label_byte l.
(** The characters of "@/\?#%\x00\r\n\t ". *)
Definition hostname_forbidden : list Z := [64; 47; 92; 63; 35; 37; 0; 13; 10; 9; 32].
Definition hostname_ok (host : string) : bool :=
  match ParseAddr host with
  | Some ip => bool_decide (Zone ip = "")
  | None => negb (existsb (Z.eqb 58) (bytes host)) && negb (bool_decide (head (bytes host) = Some 46)) && negb (bool_decide (last (bytes host) = Some 46))
            && negb (existsb (between 65 90) (bytes host)) && forallb label_ok (split "." host)
  end.
Definition prefix_ok (raw : string) : bool :=
  match ParsePrefix raw with Some p => bool_decide (Zone (px_Addr p) = "") && bool_decide (p = Masked p) | None => false end.
Definition ValidateTarget (t : Target) : result unit :=
  check! bool_decide (t_ApplicationID t = "") || (128 <? len (t_ApplicationID t)) || (t_ConfigVersion t <? 1) || (128 <? len (t_NodeID t))
         || negb (bool_decide (t_Scheme t ∈ ["http"; "https"])) || (t_Port t =? 0) || bool_decide (t_Hostname t = "") || (253 <? len (t_Hostname t))
         || bool_decide (t_AllowedCIDRs t = []) || (32 <? length (t_AllowedCIDRs t))%nat, ErrTarget;
  check! ContainsAnyByte (t_Hostname t) hostname_forbidden || ContainsAnyByte (t_ApplicationID t +:+ t_NodeID t) [0; 13; 10], ErrTarget;
  check! negb (hostname_ok (t_Hostname t)), ErrTarget;
  check! negb (forallb prefix_ok (t_AllowedCIDRs t)), ErrTarget;
  Ok tt.

(** ** Addresses *)

(** 100.100.100.200 and fd00:ec2::254. *)
Definition metadata : list Addr := [IP4 1684300744; IP6 (64768 * 2 ^ 112 + 3778 * 2 ^ 96 + 596) ""].
Definition special (a : Addr) : bool :=
  negb (IsValid a) || IsUnspecified a || IsMulticast a || IsLinkLocalUnicast a || IsLinkLocalMulticast a || negb (bool_decide (Zone a = "")) || bool_decide (a ∈ metadata).
Definition permittedAddress (a : Addr) (prefixes : list Prefix) (forbidden : list (Addr * Z)) (port : Z) : bool :=
  if special a then false
  else if existsb (fun '(e, p) => bool_decide (Unmap e = a) && (p =? port)) forbidden then false
  else existsb (fun p => Contains p a) prefixes.

(** ** Dialing *)

Record Dialer := mkDialer { di_Forbidden : list (Addr * Z); di_ForbiddenAuthorities : list string }.
Inductive dcall : Type → Type :=
| DLookup (host : string) : dcall (result (list Addr))
| DContext : dcall (option goerr)
| DDial (a : Addr) (port : Z) : dcall (result unit).
Abbreviation prog := (Prog.prog dcall).

Definition lookup (host : string) : prog (result (list Addr)) :=
  match ParseAddr host with Some ip => Ret (Ok [ip]) | None => call_ (DLookup host) end.
Definition counted (addresses : list Addr) : bool := negb (bool_decide (addresses = [])) && (length addresses <=? 64)%nat.
(** The loop over the protected authorities. *)
Fixpoint checkAuthorities (authorities : list string) (t : Target) (addresses : list Addr) : prog (result unit) :=
  match authorities with
  | [] => Ret (Ok tt)
  | authority :: authorities =>
      match SplitHostPort authority with
      | None => Ret (Err ErrTarget)
      | Some (host, portText) =>
          match ParseUint16 portText with
          | None => Ret (Err ErrTarget)
          | Some port =>
              if negb (port =? t_Port t) then checkAuthorities authorities t addresses
              else if EqualFold host (t_Hostname t) then Ret (Err ErrTarget)
              else
                found <- lookup host;
                match found with
                | Err _ => Ret (Err ErrTarget)
                | Ok protected =>
                    if negb (counted protected) then Ret (Err ErrTarget)
                    else if existsb (fun c => existsb (fun b => bool_decide (Unmap c = Unmap b)) protected) addresses then Ret (Err ErrTarget)
                    else checkAuthorities authorities t addresses
                end
          end
      end
  end.
(** The address that answered. *)
Fixpoint dialEach (addresses : list Addr) (port : Z) : prog (result Addr) :=
  match addresses with
  | [] => Ret (Err (ErrText "application backend connection failed"))
  | a :: addresses =>
      over <- call_ DContext;
      match over with
      | Some e => Ret (Err e)
      | None =>
          dialed <- call_ (DDial (Unmap a) port);
          match dialed with Ok _ => Ret (Ok (Unmap a)) | Err _ => dialEach addresses port end
      end
  end.
Definition prefixes_of (t : Target) : list Prefix := omap ParsePrefix (t_AllowedCIDRs t).
Definition DialTarget (d : Dialer) (t : Target) : prog (result Addr) :=
  if (512 <? length (di_ForbiddenAuthorities d))%nat || (512 <? length (di_Forbidden d))%nat then Ret (Err ErrTarget) else
  match ValidateTarget t with
  | Err e => Ret (Err e)
  | Ok _ =>
      found <- lookup (t_Hostname t);
      match found with
      | Err _ => Ret (Err ErrTarget)
      | Ok addresses =>
          if negb (counted addresses) then Ret (Err ErrTarget) else
          if existsb (fun a => negb (permittedAddress (Unmap a) (prefixes_of t) (di_Forbidden d) (t_Port t))) addresses then Ret (Err ErrTarget) else
          checked <- checkAuthorities (di_ForbiddenAuthorities d) t addresses;
          match checked with
          | Err e => Ret (Err e)
          | Ok _ => dialEach addresses (t_Port t)
          end
      end
  end.

(** ** Runs *)

(** What the network answers at each moment. *)
Record Network := mkNetwork { nw_lookup : nat → string → result (list Addr); nw_over : nat → option goerr; nw_dial : nat → Addr → Z → result unit }.
Inductive devent := Looked (host : string) (r : result (list Addr)) | Tried (a : Addr) (port : Z).
Definition danswer (nw : Network) (n : nat) {B} (c : dcall B) : B * list devent :=
  match c in dcall B return B * list devent with
  | DLookup host => let r := nw_lookup nw n host in (r, [Looked host r])
  | DContext => (nw_over nw n, [])
  | DDial a port => (nw_dial nw n a port, [Tried a port])
  end.
(** The answer and the events, in their order. *)
Fixpoint drun {A} (nw : Network) (n : nat) (p : prog A) : A * list devent :=
  match p with
  | Ret a => (a, [])
  | Call c k => let '(b, es) := danswer nw n c in let '(a, es') := drun nw (S n) (k b) in (a, es ++ es')
  end.

(** What the names of hosts were found to be. *)
Definition resolved (K : string * list Addr → Prop) (host : string) (l : list Addr) : Prop :=
  match ParseAddr host with Some ip => l = [ip] | None => K (host, l) end.
(** An address that an allowed prefix of the target holds. *)
Definition inside (t : Target) (a : Addr) : Prop :=
  ∃ raw p, raw ∈ t_AllowedCIDRs t ∧ ParsePrefix raw = Some p ∧ BitLen a = BitLen (px_Addr p)
    ∧ value (px_Addr p) ≤ value a < value (px_Addr p) + 2 ^ (BitLen a - px_Bits p).
(** Neither the name nor an address of the authority is the destination. *)
Definition apart (K : string * list Addr → Prop) (t : Target) (a : Addr) (authority : string) : Prop :=
  ∃ host text, SplitHostPort authority = Some (host, text)
    ∧ (ParseUint16 text = Some (t_Port t) → EqualFold host (t_Hostname t) = false ∧ ∃ l, resolved K host l ∧ ∀ b, b ∈ l → Unmap b ≠ a).
Definition reachable (K : string * list Addr → Prop) (d : Dialer) (t : Target) (a : Addr) : Prop :=
  special a = false ∧ inside t a ∧ (∀ e, (e, t_Port t) ∈ di_Forbidden d → Unmap e ≠ a) ∧ ∀ authority, authority ∈ di_ForbiddenAuthorities d → apart K t a authority.
(** All that the name of the target stands for may be reached. *)
Definition dial_ok (K : string * list Addr → Prop) (d : Dialer) (t : Target) (a : Addr) (port : Z) : Prop :=
  ValidateTarget t = Ok tt ∧ port = t_Port t ∧ ∃ l, resolved K (t_Hostname t) l ∧ a ∈ Unmap <$> l ∧ ∀ b, b ∈ l → reachable K d t (Unmap b).

Lemma resolved_more K K' host l : knows_le K K' → resolved K host l → resolved K' host l.
Proof. unfold resolved. intros H. case_match; auto. Qed.
Lemma apart_more K K' t a x : knows_le K K' → apart K t a x → apart K' t a x.
Proof. intros H (host & text & Hs & Ha). exists host, text. split; [done|]. intros Hp. destruct (Ha Hp) as (? & l & ? & ?). split; [done|]. exists l. split; [by eapply resolved_more|done]. Qed.
Lemma reachable_more K K' d t a : knows_le K K' → reachable K d t a → reachable K' d t a.
Proof. intros H (? & ? & ? & Ha). split_and!; try done. intros x Hx. eapply apart_more; eauto. Qed.
Lemma dial_ok_more K K' d t a port : knows_le K K' → dial_ok K d t a port → dial_ok K' d t a port.
Proof. intros H (? & ? & l & ? & ? & Hr). split_and!; try done. exists l. split_and!; [by eapply resolved_more|done|]. intros b Hb. eapply reachable_more; eauto. Qed.

Lemma valid_masked t raw p : ValidateTarget t = Ok tt → raw ∈ t_AllowedCIDRs t → ParsePrefix raw = Some p → p = Masked p.
Proof.
  unfold ValidateTarget. intros Hv Hraw Hp. guards_in Hv. bool_hyps. match goal with H : forallb prefix_ok _ = true |- _ => rewrite forallb_forall in H; specialize (H raw) end.
  unfold prefix_ok in *. rewrite Hp in *. apply list_elem_of_In in Hraw. match goal with H : _ → _ = true |- _ => specialize (H Hraw) end. by bool_hyps.
Qed.
Lemma permitted_spec a t forbidden port : ValidateTarget t = Ok tt → permittedAddress a (prefixes_of t) forbidden port = true →
  special a = false ∧ inside t a ∧ ∀ e, (e, port) ∈ forbidden → Unmap e ≠ a.
Proof.
  unfold permittedAddress. intros Hv H. destruct (special a); [done|]. destruct (existsb _ forbidden) eqn:Ef; [done|]. split_and!; [done| |].
  - apply existsb_exists in H as (p & Hp & Hc). apply list_elem_of_In, list_elem_of_omap in Hp as (raw & Hraw & Hp). exists raw, p. split; [done|]. split; [done|].
    apply (Contains_range p a); [|by eapply ParsePrefix_bits|done]. by eapply valid_masked.
  - intros e He Hu. rewrite <- not_true_iff_false in Ef. apply Ef, existsb_exists. exists (e, port). split; [by apply list_elem_of_In|].
    rewrite bool_decide_eq_true_2 by done. cbn. apply Z.eqb_refl.
Qed.

(** ** What each attempt rests on *)

Section dialing.
Context (d : Dialer) (t : Target).
Implicit Types K : string * list Addr → Prop.

Definition dsane {B} (_ : dcall B) (_ : B) : Prop := True.
Definition dpre {B} (c : dcall B) K : Prop := match c with DDial a port => dial_ok K d t a port | _ => True end.
Definition dpost {B} (c : dcall B) : B → string * list Addr → Prop :=
  match c in dcall B return B → string * list Addr → Prop with
  | DLookup host => fun r f => match r with Ok l => f = (host, l) | Err _ => False end
  | _ => fun _ _ => False
  end.
Abbreviation sober Q K p := (justified (@dsane) (@dpre) (@dpost) Q K p).

Lemma lookup_sober K host : sober (fun K' r => ∀ l, r = Ok l → resolved K' host l) K (lookup host).
Proof using.
  unfold lookup, resolved. destruct (ParseAddr host) as [ip|]; [by intros l [= <-]|]. split; [done|]. intros [l|e] _ l' Hl; [|done]. injection Hl as <-. by right.
Qed.
Lemma authorities_sober authorities addresses K : ValidateTarget t = Ok tt →
  sober (fun K' r => ∀ x, r = Ok x → ∀ b, b ∈ addresses → ∀ authority, authority ∈ authorities → apart K' t (Unmap b) authority) K (checkAuthorities authorities t addresses).
Proof using.
  intros Hv. revert K. induction authorities as [|authority authorities IH]; intros K; cbn [checkAuthorities].
  { intros x _ b _ y Hy. by apply not_elem_of_nil in Hy. }
  destruct (SplitHostPort authority) as [[host text]|] eqn:Es; [|done]. destruct (ParseUint16 text) as [port|] eqn:Ep; [|done].
  assert (Hstep : ∀ K1, (∀ b, b ∈ addresses → apart K1 t (Unmap b) authority) →
    sober (fun K' r => ∀ x, r = Ok x → ∀ b, b ∈ addresses → ∀ y, y ∈ authority :: authorities → apart K' t (Unmap b) y) K1 (checkAuthorities authorities t addresses)).
  { intros K1 H1. eapply justified_mono; [|apply IH]. cbn. intros K' r Hle Hr x Hx b Hb y Hy. apply elem_of_cons in Hy as [->|Hy]; [|by eapply Hr].
    eapply apart_more; [done|by apply H1]. }
  destruct (negb _) eqn:En; [|destruct (EqualFold host (t_Hostname t)) eqn:Ef; [done|]].
  { apply Hstep. intros b _. exists host, text. split; [done|]. bool_hyps. z_hyps. congruence. }
  eapply justified_bind; [apply lookup_sober|]. cbn. intros K1 [l|] L1 Hl; [|done]. destruct (negb (counted l)); [done|]. destruct (existsb _ _) eqn:Ee; [done|].
  apply Hstep. intros b Hb. exists host, text. split; [done|]. intros _. split; [done|]. exists l. split; [by apply Hl|]. intros c Hc Hu.
  rewrite <- not_true_iff_false in Ee. apply Ee, existsb_exists. exists b. split; [by apply list_elem_of_In|]. apply existsb_exists. exists c.
  split; [by apply list_elem_of_In|]. by apply bool_decide_eq_true_2.
Qed.
Lemma dialEach_sober addresses K : (∀ a, a ∈ addresses → dial_ok K d t (Unmap a) (t_Port t)) → sober (fun _ _ => True) K (dialEach addresses (t_Port t)).
Proof using.
  revert K. induction addresses as [|a addresses IH]; intros K H; cbn [dialEach]; [done|]. split; [done|]. intros [e|] _; [done|].
  split; [eapply dial_ok_more; [|apply H; by left]; by left|]. intros [[]|] _; [done|]. apply IH. intros b Hb. eapply dial_ok_more; [|apply H; by right]. intros f Hf. by do 2 left.
Qed.
Lemma DialTarget_sober : sober (fun _ _ => True) (fun _ => False) (DialTarget d t).
Proof using.
  unfold DialTarget. destruct (_ || _); [done|]. destruct (ValidateTarget t) as [[]|] eqn:Hv; [|done].
  eapply justified_bind; [apply lookup_sober|]. cbn. intros K1 [l|] L1 Hl; [|done]. destruct (negb _); [done|]. destruct (existsb _ _) eqn:Ee; [done|].
  eapply justified_bind; [by apply authorities_sober|]. cbn. intros K2 [[]|] L2 Ha; [|done]. apply dialEach_sober. intros a Hin. split_and!; [done..|]. exists l.
  split_and!; [eapply resolved_more; [done|by apply Hl]|by apply list_elem_of_fmap_2|]. intros b Hb. destruct (permitted_spec (Unmap b) t (di_Forbidden d) (t_Port t) Hv) as (?&?&?).
  - destruct (permittedAddress _ _ _ _) eqn:Ep; [done|]. rewrite <- not_true_iff_false in Ee. exfalso. apply Ee, existsb_exists. exists b. split; [by apply list_elem_of_In|]. by rewrite Ep.
  - split_and!; try done. intros authority Hy. by eapply Ha.
Qed.

(** What was looked up, in a run. *)
Definition looked (es : list devent) (f : string * list Addr) : Prop := Looked (fst f) (Ok (snd f)) ∈ es.
Lemma sober_run {A} nw n (p : prog A) K before : knows_le K (looked before) → sober (fun _ _ => True) K p →
  ∀ es a port es', (drun nw n p).2 = es ++ Tried a port :: es' → dial_ok (looked (before ++ es)) d t a port.
Proof using.
  revert n K before. induction p as [x|B c k IH]; intros n K before Hle Hp es a port es' Hr; [by destruct es|]. destruct Hp as [Hpre Hk]. cbn [drun] in Hr.
  destruct c as [host| |b q]; cbn [danswer] in Hr.
  - set (r := nw_lookup nw n host) in *. destruct (drun nw (S n) (k r)) as [y es1] eqn:E. cbn in Hr. destruct es as [|e es]; [done|]. injection Hr as <- Hr.
    replace (before ++ Looked host r :: es) with ((before ++ [Looked host r]) ++ es) by (by rewrite <- app_assoc). eapply (IH r (S n)).
    2: { by apply Hk. } 2: { rewrite E. exact Hr. }
    intros f [Hf|Hf]; unfold looked; apply elem_of_app; [left; by apply Hle|right]. cbn in Hf. destruct r; [|done]. subst f. by left.
  - destruct (drun nw (S n) (k _)) as [y es1] eqn:E. cbn in Hr. eapply (IH _ (S n)); [|by apply (Hk (nw_over nw n))|by rewrite E]. intros f [Hf|[]]. by apply Hle.
  - set (r := nw_dial nw n b q) in *. destruct (drun nw (S n) (k r)) as [y es1] eqn:E. cbn in Hr. destruct es as [|e es]; injection Hr.
    + intros _ <- <-. rewrite app_nil_r. eapply dial_ok_more; [exact Hle|exact Hpre].
    + intros Hr' <-. replace (before ++ Tried b q :: es) with ((before ++ [Tried b q]) ++ es) by (by rewrite <- app_assoc). eapply (IH r (S n)); [|by apply Hk|by rewrite E].
      intros f [Hf|[]]. unfold looked. apply elem_of_app. left. by apply Hle.
Qed.

(** C18. Every attempt to connect to a destination of an application is made to the port
    of a well-formed target, at an address that its host was resolved to just now, and
    only when all the addresses it was resolved to lie in the configured networks, are
    not unspecified, multicast, link-local or of a metadata service, and are none of the
    endpoints and resolved authorities that are forbidden on that port. *)
Theorem dial_only_permitted nw es a port es' :
  (drun nw 0 (DialTarget d t)).2 = es ++ Tried a port :: es' → dial_ok (looked es) d t a port.
Proof using. intros H. eapply (sober_run nw 0 (DialTarget d t) (fun _ => False) []); [intros f []|apply DialTarget_sober|exact H]. Qed.
End dialing.

(** ** A run *)

Module DialDemo.
Definition target : Target := mkTarget "a" 1 "node" "http" "wiki.internal" 8080 ["10.0.0.0/8"].
Definition dialer : Dialer := mkDialer [(IP4 2130706433, 8080)] ["hub.internal:8080"].
Definition network : Network :=
  mkNetwork (fun _ host => Ok [if bool_decide (host = "hub.internal") then IP4 167772161 else IP6 (65535 * 2 ^ 32 + 167772165) ""]) (fun _ => None) (fun _ _ _ => Ok tt).
End DialDemo.

Lemma dial_only_permitted_witness : ∃ es es', (drun DialDemo.network 0 (DialTarget DialDemo.dialer DialDemo.target)).2 = es ++ Tried (IP4 167772165) 8080 :: es'
  ∧ dial_ok (looked es) DialDemo.dialer DialDemo.target (IP4 167772165) 8080.
Proof.
  eexists [_; _], []. split; [vm_compute; reflexivity|]. eapply (dial_only_permitted DialDemo.dialer DialDemo.target DialDemo.network); vm_compute; reflexivity.
Defined.
