(* ===== verification/AppStore.v ===== *)
(** Access to web applications, the store (hub/internal/store/applications.go and
    migrations 029 and 030): applications with their grants and groups, the login
    anchors, launch tickets and sessions that give access, and the triggers that
    end sessions when accounts, roles or memberships change.

    A function of the store is a function from tables to tables.  A stored time is
    what is read back: whole milliseconds.  A value kept as JSON is read back as
    it was written. *)

From stdpp Require Import sorting.
From S2P Require Import Prelude Model.

(** ** Data (model/application.go) *)

Record Application := mkApplication {
  ap_ID : string; ap_Name : string; ap_Slug : string; ap_Description : string; ap_PublicHostname : string; ap_Route : string; ap_NodeID : string;
  ap_BackendURL : string; ap_AllowedCIDRs : list string; ap_CAPEM : string; ap_Enabled : bool; ap_ConfigVersion : Z; ap_CreatedAt : Time; ap_UpdatedAt : Time;
}.
Definition set_version (a : Application) (version : Z) (now : Time) : Application :=
  mkApplication (ap_ID a) (ap_Name a) (ap_Slug a) (ap_Description a) (ap_PublicHostname a) (ap_Route a) (ap_NodeID a) (ap_BackendURL a) (ap_AllowedCIDRs a)
    (ap_CAPEM a) (ap_Enabled a) version (ap_CreatedAt a) now.
Definition set_enabled (a : Application) (enabled : bool) : Application :=
  mkApplication (ap_ID a) (ap_Name a) (ap_Slug a) (ap_Description a) (ap_PublicHostname a) (ap_Route a) (ap_NodeID a) (ap_BackendURL a) (ap_AllowedCIDRs a)
    (ap_CAPEM a) enabled (ap_ConfigVersion a) (ap_CreatedAt a) (ap_UpdatedAt a).

Record ApplicationGrant := mkGrant { gr_Kind : string; gr_SubjectID : string }.
#[export] Instance grant_eq_dec : EqDecision ApplicationGrant.
Proof. solve_decision. Defined.
Record ApplicationGroup := mkGroup { gp_ID : string; gp_Name : string; gp_UserIDs : list string; gp_Version : Z }.
Record ApplicationAnchor := mkAnchor {
  an_ID : string; an_UserID : string; an_CompletedMFAAt : Time; an_TokenGeneration : Z; an_RevokedAt : option Time; an_Reason : string;
}.
Record ApplicationLaunchTicket := mkTicket {
  tk_Digest : string; tk_ApplicationID : string; tk_UserID : string; tk_AnchorID : string; tk_Hostname : string; tk_Path : string;
  tk_DirectoryFingerprint : string; tk_ConfigVersion : Z; tk_AccessRevision : Z; tk_ExpiresAt : Time;
}.
(** A session; [as_audited] is the column audited_at. *)
Record ApplicationSession := mkAppSession {
  as_ID : string; as_CredentialDigest : string; as_ApplicationID : string; as_UserID : string; as_AnchorID : string; as_ConfigVersion : Z;
  as_AccessRevision : Z; as_DirectoryFingerprint : string; as_CreatedAt : Time; as_LastSeenAt : Time; as_ExpiresAt : Time; as_EndedAt : option Time;
  as_EndReason : string; as_audited : bool;
}.
Definition set_ended (s : ApplicationSession) (at_ : Time) (reason : string) : ApplicationSession :=
  mkAppSession (as_ID s) (as_CredentialDigest s) (as_ApplicationID s) (as_UserID s) (as_AnchorID s) (as_ConfigVersion s) (as_AccessRevision s)
    (as_DirectoryFingerprint s) (as_CreatedAt s) (as_LastSeenAt s) (as_ExpiresAt s) (Some at_) reason (as_audited s).
Definition set_seen (s : ApplicationSession) (at_ : Time) : ApplicationSession :=
  mkAppSession (as_ID s) (as_CredentialDigest s) (as_ApplicationID s) (as_UserID s) (as_AnchorID s) (as_ConfigVersion s) (as_AccessRevision s)
    (as_DirectoryFingerprint s) (as_CreatedAt s) at_ (as_ExpiresAt s) (as_EndedAt s) (as_EndReason s) (as_audited s).
Definition set_audited (s : ApplicationSession) : ApplicationSession :=
  mkAppSession (as_ID s) (as_CredentialDigest s) (as_ApplicationID s) (as_UserID s) (as_AnchorID s) (as_ConfigVersion s) (as_AccessRevision s)
    (as_DirectoryFingerprint s) (as_CreatedAt s) (as_LastSeenAt s) (as_ExpiresAt s) (as_EndedAt s) (as_EndReason s) true.
Definition revoke_anchor (a : ApplicationAnchor) (at_ : Time) (reason : string) : ApplicationAnchor :=
  mkAnchor (an_ID a) (an_UserID a) (an_CompletedMFAAt a) (an_TokenGeneration a) (Some at_) reason.

(** A row of applications; [ar_config] is what config_json holds. *)
Record AppRow := mkAppRow {
  ar_slug : string; ar_hostname : string; ar_name : string; ar_version : Z; ar_enabled : bool; ar_config : Application; ar_deleting : bool;
}.
(** The tables.  [d_removed] is none of them: it remembers the audit records that were
    deleted. *)
Record AppDB := mkAppDB {
  d_apps : gmap string AppRow; d_grants : gmap string (list ApplicationGrant); d_groups : gmap string (string * Z); d_members : list (string * string);
  d_revisions : gmap string Z; d_anchors : gmap string ApplicationAnchor; d_tickets : gmap string ApplicationLaunchTicket;
  d_sessions : gmap string ApplicationSession; d_users : gmap string User; d_roles : list (string * Role); d_policy : option (Z * string); d_audits : gset string; d_removed : gset string;
}.
Definition on_apps d v := mkAppDB v (d_grants d) (d_groups d) (d_members d) (d_revisions d) (d_anchors d) (d_tickets d) (d_sessions d) (d_users d) (d_roles d) (d_policy d) (d_audits d) (d_removed d).
Definition on_grants d v := mkAppDB (d_apps d) v (d_groups d) (d_members d) (d_revisions d) (d_anchors d) (d_tickets d) (d_sessions d) (d_users d) (d_roles d) (d_policy d) (d_audits d) (d_removed d).
Definition on_groups d v := mkAppDB (d_apps d) (d_grants d) v (d_members d) (d_revisions d) (d_anchors d) (d_tickets d) (d_sessions d) (d_users d) (d_roles d) (d_policy d) (d_audits d) (d_removed d).
Definition on_members d v := mkAppDB (d_apps d) (d_grants d) (d_groups d) v (d_revisions d) (d_anchors d) (d_tickets d) (d_sessions d) (d_users d) (d_roles d) (d_policy d) (d_audits d) (d_removed d).
Definition on_revisions d v := mkAppDB (d_apps d) (d_grants d) (d_groups d) (d_members d) v (d_anchors d) (d_tickets d) (d_sessions d) (d_users d) (d_roles d) (d_policy d) (d_audits d) (d_removed d).
Definition on_anchors d v := mkAppDB (d_apps d) (d_grants d) (d_groups d) (d_members d) (d_revisions d) v (d_tickets d) (d_sessions d) (d_users d) (d_roles d) (d_policy d) (d_audits d) (d_removed d).
Definition on_tickets d v := mkAppDB (d_apps d) (d_grants d) (d_groups d) (d_members d) (d_revisions d) (d_anchors d) v (d_sessions d) (d_users d) (d_roles d) (d_policy d) (d_audits d) (d_removed d).
Definition on_sessions d v := mkAppDB (d_apps d) (d_grants d) (d_groups d) (d_members d) (d_revisions d) (d_anchors d) (d_tickets d) v (d_users d) (d_roles d) (d_policy d) (d_audits d) (d_removed d).
Definition on_users d v := mkAppDB (d_apps d) (d_grants d) (d_groups d) (d_members d) (d_revisions d) (d_anchors d) (d_tickets d) (d_sessions d) v (d_roles d) (d_policy d) (d_audits d) (d_removed d).
Definition on_roles d v := mkAppDB (d_apps d) (d_grants d) (d_groups d) (d_members d) (d_revisions d) (d_anchors d) (d_tickets d) (d_sessions d) (d_users d) v (d_policy d) (d_audits d) (d_removed d).
Definition on_policy d v := mkAppDB (d_apps d) (d_grants d) (d_groups d) (d_members d) (d_revisions d) (d_anchors d) (d_tickets d) (d_sessions d) (d_users d) (d_roles d) v (d_audits d) (d_removed d).
Definition on_audits d v := mkAppDB (d_apps d) (d_grants d) (d_groups d) (d_members d) (d_revisions d) (d_anchors d) (d_tickets d) (d_sessions d) (d_users d) (d_roles d) (d_policy d) v (d_removed d).
Definition on_removed d v := mkAppDB (d_apps d) (d_grants d) (d_groups d) (d_members d) (d_revisions d) (d_anchors d) (d_tickets d) (d_sessions d) (d_users d) (d_roles d) (d_policy d) (d_audits d) v.

Definition milli (t : Time) : Time := unix_epoch + UnixMilli t * Millisecond.
Definition ErrApplicationConflict : goerr := ErrText "application changed or unavailable".
Definition errConstraint : goerr := ErrText "constraint failed".
Definition errNoRows : goerr := Sentinel "sql.ErrNoRows".

(** ** Sessions that end, and triggers *)

Definition live (s : ApplicationSession) : bool := bool_decide (as_EndedAt s = None).
Definition end_where (P : ApplicationSession → bool) (at_ : Time) (reason : string) (d : AppDB) : AppDB :=
  on_sessions d ((fun s => if live s && P s then set_ended s (milli at_) reason else s) <$> d_sessions d).
Definition of_app (app : string) (s : ApplicationSession) : bool := bool_decide (as_ApplicationID s = app).
Definition of_user (user : string) (s : ApplicationSession) : bool := bool_decide (as_UserID s = user).

Definition revision (d : AppDB) (user : string) : Z := default 0 (d_revisions d !! user).
Definition bump (user : string) (d : AppDB) : AppDB := on_revisions d (<[user := revision d user + 1]> (d_revisions d)).
(** application_role_added and application_membership_added. *)
Definition access_added (clock : Time) (user : string) (d : AppDB) : AppDB := end_where (of_user user) clock "access_changed" (bump user d).
(** application_role_removed and application_membership_removed. *)
Definition access_removed (clock : Time) (user : string) (d : AppDB) : AppDB :=
  end_where (of_user user) clock "access_changed" (if bool_decide (is_Some (d_users d !! user)) then bump user d else d).
(** application_account_changed. *)
Definition account_differs (u v : User) : bool :=
  negb (bool_decide (u_Role u = u_Role v)) || negb (bool_decide (u_TokenGeneration u = u_TokenGeneration v))
  || negb (bool_decide (u_SecurityRevision u = u_SecurityRevision v)) || negb (bool_decide (u_DisabledAt u = u_DisabledAt v)).
Definition account_changed (clock : Time) (user : string) (d : AppDB) : AppDB := end_where (of_user user) clock "account_changed" (bump user d).

(** ** Applications *)

(** The unique columns of another row. *)
Definition clashes (d : AppDB) (id slug host : string) : bool :=
  existsb (fun '(i, r) => negb (bool_decide (i = id)) && (bool_decide (ar_slug r = slug) || bool_decide (ar_hostname r = host))) (map_to_list (d_apps d)).
Definition row_of (a : Application) (deleting : bool) : AppRow :=
  mkAppRow (ap_Slug a) (ap_PublicHostname a) (ap_Name a) (ap_ConfigVersion a) (ap_Enabled a) a deleting.

Definition CreateApplication (a : Application) (now : Time) (d : AppDB) : result AppDB :=
  let a := set_version (mkApplication (ap_ID a) (ap_Name a) (ap_Slug a) (ap_Description a) (ap_PublicHostname a) (ap_Route a) (ap_NodeID a) (ap_BackendURL a)
                          (ap_AllowedCIDRs a) (ap_CAPEM a) (ap_Enabled a) 1 now now) 1 now in
  check! bool_decide (is_Some (d_apps d !! ap_ID a)) || clashes d (ap_ID a) (ap_Slug a) (ap_PublicHostname a), errConstraint;
  Ok (on_apps d (<[ap_ID a := row_of a false]> (d_apps d))).
Definition GetApplication (id : string) (d : AppDB) : result Application :=
  match d_apps d !! id with Some r => Ok (ar_config r) | None => Err errNoRows end.
Definition GetApplicationByHost (host : string) (d : AppDB) : result Application :=
  match filter (fun '(_, r) => ar_hostname r = host) (map_to_list (d_apps d)) with (id, _) :: _ => GetApplication id d | [] => Err errNoRows end.
Definition UpdateApplication (a : Application) (expected : Z) (now : Time) (d : AppDB) : result AppDB :=
  let a := set_version a (i64 (expected + 1)) now in
  match d_apps d !! ap_ID a with
  | Some r =>
      check! negb (ar_version r =? expected) || ar_deleting r, ErrApplicationConflict;
      check! clashes d (ap_ID a) (ap_Slug a) (ap_PublicHostname a), errConstraint;
      Ok (end_where (of_app (ap_ID a)) now "configuration_changed" (on_apps d (<[ap_ID a := row_of a false]> (d_apps d))))
  | None => Err ErrApplicationConflict
  end.
Definition DeleteApplication (id : string) (d : AppDB) : result AppDB :=
  match d_apps d !! id with
  | Some r =>
      check! negb (ar_deleting r) || existsb (fun '(_, s) => of_app id s && (live s || negb (as_audited s))) (map_to_list (d_sessions d)), ErrApplicationConflict;
      let d := on_apps d (delete id (d_apps d)) in
      let d := on_grants d (delete id (d_grants d)) in
      let d := on_tickets d (filter (fun '(_, t) => tk_ApplicationID t ≠ id) (d_tickets d)) in
      Ok (on_sessions d (filter (fun '(_, s) => as_ApplicationID s ≠ id) (d_sessions d)))
  | None => Err ErrApplicationConflict
  end.
(** It takes the writer's lock before it reads. *)
Definition BeginApplicationDeletion (app : string) (now : Time) (d : AppDB) : result AppDB :=
  match d_apps d !! app with
  | Some r =>
      let version := if ar_deleting r then ar_version r else ar_version r + 1 in
      let config := set_enabled (set_version (ar_config r) version now) false in
      let d := on_apps d (<[app := mkAppRow (ar_slug r) (ar_hostname r) (ar_name r) version false config true]> (d_apps d)) in
      let d := on_tickets d (filter (fun '(_, t) => tk_ApplicationID t ≠ app) (d_tickets d)) in
      Ok (end_where (of_app app) now "application_deleted" d)
  | None => Err ErrApplicationConflict
  end.

Definition ApplicationGrants (id : string) (d : AppDB) : list ApplicationGrant := default [] (d_grants d !! id).
Definition grant_kinds : list string := ["user"; "role"; "local_group"; "directory_group"].
(** [a] is the application as [GetApplication] had it. *)
Definition ReplaceApplicationGrants (a : Application) (id : string) (grants : list ApplicationGrant) (expected : Z) (now : Time) (d : AppDB) : result AppDB :=
  let a := set_version a (i64 (expected + 1)) now in
  match d_apps d !! id with
  | Some r =>
      check! negb (ar_version r =? expected) || ar_deleting r, ErrApplicationConflict;
      check! negb (bool_decide (NoDup grants)) || negb (forallb (fun g => bool_decide (gr_Kind g ∈ grant_kinds)) grants), errConstraint;
      let row := mkAppRow (ar_slug r) (ar_hostname r) (ar_name r) (ap_ConfigVersion a) (ar_enabled r) a false in
      Ok (end_where (of_app id) now "grants_changed" (on_grants (on_apps d (<[id := row]> (d_apps d))) (<[id := grants]> (d_grants d))))
  | None => Err ErrApplicationConflict
  end.

(** The applications a page of the portal is drawn from, by name: those that are
    enabled and have one of the claims among their grants. *)
Definition name_order (a b : string * AppRow) : Prop :=
  match String.compare (ar_name (snd a)) (ar_name (snd b)) with Lt => True | Eq => String.compare (fst a) (fst b) ≠ Gt | Gt => False end.
#[export] Instance name_order_dec : RelDecision name_order.
Proof. intros a b. unfold name_order. destruct (String.compare (ar_name (snd a)) (ar_name (snd b))); apply _. Defined.
Definition ListAuthorizedApplications (claims : list ApplicationGrant) (d : AppDB) : list Application :=
  ar_config ∘ snd <$> merge_sort name_order
    (filter (fun '(id, r) => ar_enabled r = true ∧ existsb (fun g => bool_decide (g ∈ claims)) (ApplicationGrants id d) = true) (map_to_list (d_apps d))).

(** ** Groups *)

Definition ApplicationLocalMemberships (user : string) (d : AppDB) : list string := fst <$> filter (fun '(_, u) => u = user) (d_members d).
Definition remove_members (clock : Time) (group : string) (d : AppDB) : AppDB :=
  foldl (fun d u => access_removed clock u d) (on_members d (filter (fun '(g, _) => g ≠ group) (d_members d)))
    (snd <$> filter (fun '(g, _) => g = group) (d_members d)).
Fixpoint insert_members (clock : Time) (group : string) (users : list string) (d : AppDB) : result AppDB :=
  match users with
  | [] => Ok d
  | u :: users =>
      check! negb (bool_decide (is_Some (d_users d !! u))) || bool_decide ((group, u) ∈ d_members d), errConstraint;
      insert_members clock group users (access_added clock u (on_members d (d_members d ++ [(group, u)])))
  end.
Definition name_taken (d : AppDB) (id name : string) : bool :=
  existsb (fun '(i, g) => negb (bool_decide (i = id)) && bool_decide (fst g = name)) (map_to_list (d_groups d)).
Definition PutApplicationGroup (id name : string) (users : list string) (expected : Z) (clock : Time) (d : AppDB) : result AppDB :=
  let put version := insert_members clock id users (remove_members clock id (on_groups d (<[id := (name, version)]> (d_groups d)))) in
  match d_groups d !! id with
  | Some (_, v) => check! expected =? 0, errConstraint; check! negb (v =? expected), ErrApplicationConflict;
                   check! name_taken d id name, errConstraint; put (v + 1)
  | None => check! negb (expected =? 0), ErrApplicationConflict; check! name_taken d id name, errConstraint; put 1
  end.
Definition GetApplicationGroup (id : string) (d : AppDB) : result ApplicationGroup :=
  match d_groups d !! id with
  | Some (name, version) => Ok (mkGroup id name (merge_sort (fun x y => String.compare x y ≠ Gt) (snd <$> filter (fun '(g, _) => g = id) (d_members d))) version)
  | None => Err errNoRows
  end.
(** The rows of its members go with it, and their triggers fire. *)
Definition DeleteApplicationGroup (id : string) (clock : Time) (d : AppDB) : AppDB := remove_members clock id (on_groups d (delete id (d_groups d))).

(** ** Anchors, tickets and sessions *)

Definition ApplicationAccessRevision (user : string) (d : AppDB) : Z := revision d user.
(** The insertion of [EnsureApplicationAnchor]. *)
Definition insertAnchor (a : ApplicationAnchor) (d : AppDB) : result AppDB :=
  match d_anchors d !! an_ID a with
  | Some _ => Ok d
  | None => check! negb (bool_decide (is_Some (d_users d !! an_UserID a))), errConstraint;
            Ok (on_anchors d (<[an_ID a := mkAnchor (an_ID a) (an_UserID a) (milli (an_CompletedMFAAt a)) (an_TokenGeneration a) None ""]> (d_anchors d)))
  end.
Definition GetApplicationAnchor (id : string) (d : AppDB) : result ApplicationAnchor :=
  match d_anchors d !! id with Some a => Ok a | None => Err errNoRows end.
Definition anchorMatches (stored a : ApplicationAnchor) : bool :=
  bool_decide (an_RevokedAt stored = None) && bool_decide (an_UserID stored = an_UserID a) && (an_TokenGeneration stored =? an_TokenGeneration a)
  && (UnixMilli (an_CompletedMFAAt stored) =? UnixMilli (an_CompletedMFAAt a)).

Definition admits (d : AppDB) (app : string) (version : Z) : bool :=
  match d_apps d !! app with Some r => ar_enabled r && negb (ar_deleting r) && (ar_version r =? version) | None => false end.
Definition CreateApplicationTicket (t : ApplicationLaunchTicket) (d : AppDB) : result AppDB :=
  check! negb (match d_anchors d !! tk_AnchorID t with Some a => bool_decide (an_RevokedAt a = None) | None => false end)
         || negb (admits d (tk_ApplicationID t) (tk_ConfigVersion t)), ErrApplicationConflict;
  check! bool_decide (is_Some (d_tickets d !! tk_Digest t)) || negb (bool_decide (is_Some (d_users d !! tk_UserID t))), errConstraint;
  Ok (on_tickets d (<[tk_Digest t := t]> (d_tickets d))).
Definition ticketAt (digest host : string) (now : Time) (d : AppDB) : option ApplicationLaunchTicket :=
  match d_tickets d !! digest with
  | Some t => if bool_decide (tk_Hostname t = host) && (UnixMilli now <? UnixMilli (tk_ExpiresAt t)) then Some t else None
  | None => None
  end.
Definition GetApplicationTicket (digest host : string) (now : Time) (d : AppDB) : result ApplicationLaunchTicket :=
  match ticketAt digest host now d with Some t => Ok t | None => Err errNoRows end.

Definition anchorHolds (d : AppDB) (anchor : string) : bool :=
  match d_anchors d !! anchor with
  | Some a => bool_decide (an_RevokedAt a = None)
              && match d_users d !! an_UserID a with
                 | Some u => (an_TokenGeneration a =? u_TokenGeneration u) && bool_decide (u_DisabledAt u = None)
                 | None => false
                 end
  | None => false
  end.
Definition digest_taken (d : AppDB) (digest : string) : bool := existsb (fun '(_, s) => bool_decide (as_CredentialDigest s = digest)) (map_to_list (d_sessions d)).
(** A refused transaction leaves the ticket. *)
Definition ConsumeApplicationTicket (digest host id credential : string) (expires now : Time) (d : AppDB) : result (AppDB * string) :=
  match ticketAt digest host now d with
  | Some t =>
      check! negb (anchorHolds d (tk_AnchorID t)) || negb (admits d (tk_ApplicationID t) (tk_ConfigVersion t))
             || negb (revision d (tk_UserID t) =? tk_AccessRevision t), ErrApplicationConflict;
      check! bool_decide (is_Some (d_sessions d !! id)) || digest_taken d credential || negb (bool_decide (is_Some (d_users d !! tk_UserID t))), errConstraint;
      let s := mkAppSession id credential (tk_ApplicationID t) (tk_UserID t) (tk_AnchorID t) (tk_ConfigVersion t) (tk_AccessRevision t) (tk_DirectoryFingerprint t)
                 (milli now) (milli now) (milli expires) None "" false in
      Ok (on_sessions (on_tickets d (delete digest (d_tickets d))) (<[id := s]> (d_sessions d)), tk_Path t)
  | None => Err ErrApplicationConflict
  end.

Definition GetApplicationSession (digest : string) (d : AppDB) : result ApplicationSession :=
  match filter (fun '(_, s) => as_CredentialDigest s = digest) (map_to_list (d_sessions d)) with (_, s) :: _ => Ok s | [] => Err errNoRows end.
Definition ApplicationSessionByID (id : string) (d : AppDB) : result ApplicationSession :=
  match d_sessions d !! id with Some s => Ok s | None => Err errNoRows end.
Definition TouchApplicationSession (id : string) (now : Time) (d : AppDB) : AppDB :=
  on_sessions d ((fun s => if bool_decide (as_ID s = id) && live s && (UnixMilli now <? UnixMilli (as_ExpiresAt s)) then set_seen s (milli now) else s) <$> d_sessions d).
Definition EndApplicationSession (id reason : string) (now : Time) (d : AppDB) : AppDB := end_where (fun s => bool_decide (as_ID s = id)) now reason d.

Definition revoke_where (P : ApplicationAnchor → bool) (now : Time) (reason : string) (d : AppDB) : AppDB :=
  on_anchors d ((fun a => if bool_decide (an_RevokedAt a = None) && P a then revoke_anchor a (milli now) reason else a) <$> d_anchors d).
Definition RevokeApplicationFamily (user anchor reason : string) (now : Time) (d : AppDB) : AppDB :=
  end_where (fun s => of_user user s && bool_decide (as_AnchorID s = anchor)) now reason
    (revoke_where (fun a => bool_decide (an_UserID a = user) && bool_decide (an_ID a = anchor)) now reason d).
Definition RevokeUserApplications (user except reason : string) (now : Time) (d : AppDB) : AppDB :=
  end_where (fun s => of_user user s && negb (bool_decide (as_AnchorID s = except))) now reason
    (revoke_where (fun a => bool_decide (an_UserID a = user) && negb (bool_decide (an_ID a = except))) now reason d).
(** The application tables in [revokeCredentialAuthorityConn]. *)
Definition revokeCredentialAuthority (user reason : string) (now : Time) (d : AppDB) : AppDB :=
  let d := end_where (of_user user) now reason (revoke_where (fun a => bool_decide (an_UserID a = user)) now reason d) in
  on_tickets d (filter (fun '(_, t) => tk_UserID t ≠ user) (d_tickets d)).
Definition EndAllApplicationSessions (reason : string) (now : Time) (d : AppDB) : AppDB := on_tickets (end_where (fun _ => true) now reason d) ∅.

(** ** Expiry, audits and retention *)

Definition absoluteEnd (d : AppDB) (max : Duration) (s : ApplicationSession) : option Time :=
  match d_anchors d !! as_AnchorID s with Some a => Some (Z.min (as_ExpiresAt s) (milli (an_CompletedMFAAt a + max))) | None => None end.
Definition ExpireApplicationSessions (now : Time) (idle max : Duration) (d : AppDB) : AppDB :=
  let absolute s := match absoluteEnd d max s with
                    | Some t => if live s && (UnixMilli t <=? UnixMilli now) then set_ended s t "expired_absolute" else s
                    | None => s
                    end in
  let idled s := if live s && (UnixMilli (as_LastSeenAt s + idle) <? UnixMilli now) then set_ended s (milli (as_LastSeenAt s + idle)) "expired_idle" else s in
  on_sessions d (idled <$> (absolute <$> d_sessions d)).
Definition end_order (a b : string * ApplicationSession) : Prop :=
  match as_EndedAt (snd a), as_EndedAt (snd b) with
  | Some x, Some y => x < y ∨ (x = y ∧ String.compare (fst a) (fst b) ≠ Gt)
  | _, _ => True
  end.
#[export] Instance end_order_dec : RelDecision end_order.
Proof. intros a b. unfold end_order. destruct (as_EndedAt (snd a)), (as_EndedAt (snd b)); apply _. Defined.
Definition unaudited (s : ApplicationSession) : bool := negb (live s) && negb (as_audited s).
Definition UnauditedApplicationSessionEnds (limit : nat) (d : AppDB) : list ApplicationSession :=
  take limit (snd <$> merge_sort end_order (filter (fun '(_, s) => unaudited s = true) (map_to_list (d_sessions d)))).
Definition PendingApplicationEndAudits (app : string) (d : AppDB) : nat :=
  length (filter (fun '(_, s) => of_app app s && unaudited s = true) (map_to_list (d_sessions d))).
Definition MarkApplicationEndAudited (id : string) (d : AppDB) : AppDB :=
  on_sessions d ((fun s => if bool_decide (as_ID s = id) && negb (live s) then set_audited s else s) <$> d_sessions d).
Definition PruneApplicationRecords (now : Time) (retention : Duration) (d : AppDB) : AppDB :=
  let cutoff := UnixMilli (now - retention) in
  let d := on_tickets d (filter (fun '(_, t) => UnixMilli now < UnixMilli (tk_ExpiresAt t)) (d_tickets d)) in
  let old s := as_audited s && ((UnixMilli (as_ExpiresAt s) <? cutoff) || match as_EndedAt s with Some t => UnixMilli t <? cutoff | None => false end) in
  let d := on_sessions d (filter (fun '(_, s) => old s = false) (d_sessions d)) in
  let used a := existsb (fun '(_, s) => bool_decide (as_AnchorID s = an_ID a)) (map_to_list (d_sessions d))
                || existsb (fun '(_, t) => bool_decide (tk_AnchorID t = an_ID a)) (map_to_list (d_tickets d)) in
  on_anchors d (filter (fun '(_, a) => (UnixMilli (an_CompletedMFAAt a) <? cutoff) && negb (used a) = false) (d_anchors d)).
(** The deletion of audit records, by their retention or by the cleanup of an incomplete
    setup.  Records carry no time here, so any of them can be deleted. *)
Definition DeleteAuditLogs (ids : gset string) (d : AppDB) : AppDB := on_removed (on_audits d (d_audits d ∖ ids)) (d_removed d ∪ (d_audits d ∩ ids)).
Definition CompareApplicationPolicy (expected version : Z) (value : string) (d : AppDB) : result AppDB :=
  match d_policy d with
  | None => check! negb (expected =? 1), ErrApplicationConflict; Ok (on_policy d (Some (version, value)))
  | Some (v, _) => check! negb (v =? expected), ErrApplicationConflict; Ok (on_policy d (Some (version, value)))
  end.

(** ** Accounts and roles, as these tables see them *)

Definition UserCreated (u : User) (d : AppDB) : AppDB := match d_users d !! u_ID u with Some _ => d | None => on_users d (<[u_ID u := u]> (d_users d)) end.
Definition UserUpdated (u : User) (clock : Time) (d : AppDB) : AppDB :=
  match d_users d !! u_ID u with
  | Some old => let d := on_users d (<[u_ID u := u]> (d_users d)) in if account_differs old u then account_changed clock (u_ID u) d else d
  | None => d
  end.
(** What refers to the account goes with it. *)
Definition UserDeleted (id : string) (d : AppDB) : AppDB :=
  let mine a := match d_anchors d !! a with Some x => bool_decide (an_UserID x = id) | None => false end in
  mkAppDB (d_apps d) (d_grants d) (d_groups d) (filter (fun '(_, u) => u ≠ id) (d_members d)) (delete id (d_revisions d))
    (filter (fun '(_, a) => an_UserID a ≠ id) (d_anchors d)) (filter (fun '(_, t) => tk_UserID t ≠ id ∧ mine (tk_AnchorID t) = false) (d_tickets d))
    (filter (fun '(_, s) => as_UserID s ≠ id ∧ mine (as_AnchorID s) = false) (d_sessions d)) (delete id (d_users d)) (filter (fun '(u, _) => u ≠ id) (d_roles d))
    (d_policy d) (d_audits d) (d_removed d).
Definition RoleAdded (user : string) (role : Role) (clock : Time) (d : AppDB) : AppDB :=
  if bool_decide (is_Some (d_users d !! user)) && negb (bool_decide ((user, role) ∈ d_roles d)) then access_added clock user (on_roles d (d_roles d ++ [(user, role)])) else d.
Definition RoleRemoved (user : string) (role : Role) (clock : Time) (d : AppDB) : AppDB :=
  if bool_decide ((user, role) ∈ d_roles d) then access_removed clock user (on_roles d (filter (fun x => x ≠ (user, role)) (d_roles d))) else d.

(** ** What a live session rests on *)

Record backed (d : AppDB) (s : ApplicationSession) : Prop := {
  bk_app : ∃ r, d_apps d !! as_ApplicationID s = Some r ∧ ar_enabled r = true ∧ ar_deleting r = false ∧ ar_version r = as_ConfigVersion s;
  bk_anchor : ∃ a, d_anchors d !! as_AnchorID s = Some a ∧ an_RevokedAt a = None ∧ an_UserID a = as_UserID s
                   ∧ ∃ u, d_users d !! as_UserID s = Some u ∧ u_TokenGeneration u = an_TokenGeneration a ∧ u_DisabledAt u = None;
  bk_revision : revision d (as_UserID s) = as_AccessRevision s;
}.

Section sound.
Context (owner : string → string).   (* the account of a login session *)

Record sound (d : AppDB) : Prop := {
  v_ids : ∀ id s, d_sessions d !! id = Some s → as_ID s = id;
  v_live : ∀ id s, d_sessions d !! id = Some s → live s = true → backed d s ∧ as_audited s = false;
  v_sessions : ∀ id s, d_sessions d !! id = Some s → as_UserID s = owner (as_AnchorID s);
  v_digests : ∀ i j s t, d_sessions d !! i = Some s → d_sessions d !! j = Some t → as_CredentialDigest s = as_CredentialDigest t → i = j;
  v_anchors : ∀ id a, d_anchors d !! id = Some a → an_ID a = id ∧ an_UserID a = owner id;
  v_tickets : ∀ k t, d_tickets d !! k = Some t → tk_UserID t = owner (tk_AnchorID t);
}.

(** A session that is the same but may have ended. *)
Record follows (s s' : ApplicationSession) : Prop := {
  fo_id : as_ID s' = as_ID s; fo_digest : as_CredentialDigest s' = as_CredentialDigest s; fo_app : as_ApplicationID s' = as_ApplicationID s;
  fo_user : as_UserID s' = as_UserID s; fo_anchor : as_AnchorID s' = as_AnchorID s; fo_version : as_ConfigVersion s' = as_ConfigVersion s;
  fo_revision : as_AccessRevision s' = as_AccessRevision s; fo_live : live s' = true → live s = true ∧ as_audited s' = as_audited s;
}.
Lemma follows_refl s : follows s s.
Proof using. by split. Qed.
Lemma follows_ended s at_ reason : follows s (set_ended s at_ reason).
Proof using. by split. Qed.

(** The tables a session rests on. *)
Definition same_for (d d' : AppDB) (s : ApplicationSession) : Prop :=
  d_apps d' !! as_ApplicationID s = d_apps d !! as_ApplicationID s ∧ d_anchors d' !! as_AnchorID s = d_anchors d !! as_AnchorID s
  ∧ d_users d' !! as_UserID s = d_users d !! as_UserID s ∧ revision d' (as_UserID s) = revision d (as_UserID s).
Lemma backed_same d d' s : same_for d d' s → backed d s → backed d' s.
Proof using. intros (H1 & H2 & H3 & H4) [A B C]. split; rewrite ?H1, ?H2, ?H4; [done| |done]. destruct B as (a & ? & ? & ? & u & ? & ?). exists a. rewrite H3. eauto 10. Qed.

(** Sessions only end, the tables of those that stay are the same, and no anchor
    or ticket is new. *)
Lemma sound_step d d' : sound d →
  (∀ id s', d_sessions d' !! id = Some s' → ∃ s, d_sessions d !! id = Some s ∧ follows s s' ∧ (live s' = true → backed d s → backed d' s)) →
  (∀ id a', d_anchors d' !! id = Some a' → ∃ a, d_anchors d !! id = Some a ∧ an_ID a' = an_ID a ∧ an_UserID a' = an_UserID a) →
  (∀ k t, d_tickets d' !! k = Some t → d_tickets d !! k = Some t) → sound d'.
Proof using.
  intros [H1 H2 H3 H4 H5 H6] Hs Ha Ht. split.
  - intros id s' Hs'. destruct (Hs id s' Hs') as (s & Hd & [-> _ _ _ _ _ _ _] & _). eauto.
  - intros id s' Hs' Hl. destruct (Hs id s' Hs') as (s & Hd & Hf & Hb). destruct (fo_live _ _ Hf Hl) as [Hl' Hau]. destruct (H2 id s Hd Hl') as [Hbk Hn].
    split; [|congruence]. destruct (Hb Hl Hbk) as [A B C]. destruct Hf as [_ _ F3 F4 F5 F6 F7 _]. split; rewrite ?F3, ?F4, ?F5, ?F6, ?F7; done.
  - intros id s' Hs'. destruct (Hs id s' Hs') as (s & Hd & Hf & _). rewrite (fo_user _ _ Hf), (fo_anchor _ _ Hf). eauto.
  - intros i j s' t' Hi Hj He. destruct (Hs i s' Hi) as (s & Hs1 & Hf1 & _). destruct (Hs j t' Hj) as (t & Ht1 & Hf2 & _).
    eapply H4; [exact Hs1|exact Ht1|]. by rewrite <- (fo_digest _ _ Hf1), <- (fo_digest _ _ Hf2).
  - intros id a' Ha'. destruct (Ha id a' Ha') as (a & Hd & E1 & E2). destruct (H5 id a Hd). split; congruence.
  - intros k t Hk. eauto.
Qed.

(** Sessions that end, whatever else happens to the tables they rest on. *)
Lemma ends_sound P at_ reason d d0 : sound d → d_sessions d0 = d_sessions d →
  (∀ s, live s = true → P s = false → ∀ id, d_sessions d !! id = Some s → backed d s → backed d0 s) →
  (∀ id a', d_anchors d0 !! id = Some a' → ∃ a, d_anchors d !! id = Some a ∧ an_ID a' = an_ID a ∧ an_UserID a' = an_UserID a) →
  (∀ k t, d_tickets d0 !! k = Some t → d_tickets d !! k = Some t) → sound (end_where P at_ reason d0).
Proof using.
  intros Hd He Hb Ha Ht. apply (sound_step d); [done| |done|done]. intros id s' Hs'. cbn in Hs'. rewrite He, lookup_fmap_Some in Hs'. destruct Hs' as (s & <- & Hs).
  exists s. split; [done|]. destruct (live s && P s) eqn:E; [split; [apply follows_ended|done]|]. split; [apply follows_refl|].
  intros Hl Hbk. rewrite Hl in E. destruct (Hb s Hl E id Hs Hbk) as [A B C]. by split.
Qed.
Lemma ends_only_sound P at_ reason d : sound d → sound (end_where P at_ reason d).
Proof using. intros Hd. apply (ends_sound P at_ reason d d); eauto. Qed.
Lemma sound_other d d' : sound d → d_sessions d' = d_sessions d → d_anchors d' = d_anchors d → d_tickets d' = d_tickets d → d_apps d' = d_apps d →
  d_users d' = d_users d → d_revisions d' = d_revisions d → sound d'.
Proof using.
  intros Hd E1 E2 E3 E4 E5 E6. apply (sound_step d); [done| |rewrite E2; eauto|by rewrite E3]. intros id s Hs. rewrite E1 in Hs. exists s. split; [done|].
  split; [apply follows_refl|]. intros _. apply backed_same. unfold same_for, revision. by rewrite E2, E4, E5, E6.
Qed.

(** *** Every function of the store *)

Lemma update_app_sound P at_ reason d id r g : sound d → (∀ s, of_app id s = true → P s = true) →
  sound (end_where P at_ reason (on_grants (on_apps d (<[id := r]> (d_apps d))) g)).
Proof using.
  intros Hd HP. apply (ends_sound P at_ reason d); [done|done| |eauto|done]. intros s Hl Hn sid Hs. apply backed_same.
  split_and!; try done. cbn. rewrite lookup_insert_ne; [done|]. intros ->. rewrite HP in Hn; [done|]. unfold of_app. by apply bool_decide_eq_true_2.
Qed.
Lemma CreateApplication_sound a now d d' : sound d → CreateApplication a now d = Ok d' → sound d'.
Proof using.
  unfold CreateApplication. cbn. intros Hd H. destruct (_ || _) eqn:E; [done|]. injection H as <-. bool_hyps.
  apply (sound_step d); [done| |eauto|done]. intros id s Hs. exists s. split; [done|]. split; [apply follows_refl|]. intros _ [A B C]. split; [|done|done].
  destruct A as (r & Hr & ?). exists r. cbn. rewrite lookup_insert_ne; [done|]. intros E. apply H. rewrite E. eauto.
Qed.
Lemma UpdateApplication_sound a expected now d d' : sound d → UpdateApplication a expected now d = Ok d' → sound d'.
Proof using.
  unfold UpdateApplication. cbn. intros Hd H. destruct (d_apps d !! ap_ID a) as [r|]; [|done]. guards_in H. simplify_eq.
  exact (update_app_sound (of_app (ap_ID a)) _ _ d (ap_ID a) _ (d_grants d) Hd (fun s H => H)).
Qed.
Lemma ReplaceApplicationGrants_sound a id grants expected now d d' : sound d → ReplaceApplicationGrants a id grants expected now d = Ok d' → sound d'.
Proof using.
  unfold ReplaceApplicationGrants. cbn. intros Hd H. destruct (d_apps d !! id) as [r|]; [|done]. guards_in H. simplify_eq. by apply update_app_sound.
Qed.
Lemma DeleteApplication_sound id d d' : sound d → DeleteApplication id d = Ok d' → sound d'.
Proof using.
  unfold DeleteApplication. intros Hd H. destruct (d_apps d !! id) as [r|]; [|done]. guards_in H. simplify_eq. apply (sound_step d); [done| |eauto|].
  - intros sid s Hs. cbn in Hs. apply map_lookup_filter_Some in Hs as [Hs Hne]. exists s. split; [done|]. split; [apply follows_refl|]. intros _.
    apply backed_same. split_and!; try done. cbn. by rewrite lookup_delete_ne.
  - intros k t Hk. cbn in Hk. by apply map_lookup_filter_Some in Hk as [? _].
Qed.
Lemma BeginApplicationDeletion_sound app now d d' : sound d → BeginApplicationDeletion app now d = Ok d' → sound d'.
Proof using.
  unfold BeginApplicationDeletion. intros Hd H. destruct (d_apps d !! app) as [r|]; [|done]. cbn in H. injection H as <-.
  apply (ends_sound _ _ _ d); [done|done| |eauto|].
  - intros s Hl Hn sid Hs. apply backed_same. split_and!; try done. cbn. rewrite lookup_insert_ne; [done|]. intros ->. unfold of_app in Hn. by rewrite bool_decide_eq_true_2 in Hn.
  - intros k t Hk. cbn in Hk. by apply map_lookup_filter_Some in Hk as [? _].
Qed.

(** A change of an account's revision ends its sessions. *)
Lemma bumped_sound d d0 user at_ reason : sound d → d_sessions d0 = d_sessions d → d_anchors d0 = d_anchors d → d_tickets d0 = d_tickets d → d_apps d0 = d_apps d →
  (∀ u, u ≠ user → d_users d0 !! u = d_users d !! u ∧ revision d0 u = revision d u) → sound (end_where (of_user user) at_ reason d0).
Proof using.
  intros Hd E1 E2 E3 E4 Hu. apply (ends_sound _ _ _ d); [done|done| |rewrite E2; eauto|by rewrite E3]. intros s Hl Hn sid Hs. apply backed_same.
  assert (Hne : as_UserID s ≠ user) by (intros E; unfold of_user in Hn; by rewrite bool_decide_eq_true_2 in Hn). destruct (Hu _ Hne). unfold same_for. by rewrite E2, E4.
Qed.
Lemma revision_bump user d u : u ≠ user → revision (bump user d) u = revision d u.
Proof using. intros Hne. unfold revision, bump. cbn. by rewrite lookup_insert_ne. Qed.
Lemma access_added_sound d d0 user clock : sound d → d_sessions d0 = d_sessions d → d_anchors d0 = d_anchors d → d_tickets d0 = d_tickets d → d_apps d0 = d_apps d →
  d_users d0 = d_users d → d_revisions d0 = d_revisions d → sound (access_added clock user d0).
Proof using.
  intros Hd E1 E2 E3 E4 E5 E6. apply (bumped_sound d); try done. intros u Hne. split; [by rewrite <- E5|]. rewrite revision_bump by done. unfold revision. by rewrite E6.
Qed.
Lemma access_removed_sound d d0 user clock : sound d → d_sessions d0 = d_sessions d → d_anchors d0 = d_anchors d → d_tickets d0 = d_tickets d → d_apps d0 = d_apps d →
  d_users d0 = d_users d → d_revisions d0 = d_revisions d → sound (access_removed clock user d0).
Proof using.
  intros Hd E1 E2 E3 E4 E5 E6. unfold access_removed. apply (bumped_sound d); try done; case_bool_decide; try done.
  - intros u Hne. split; [by rewrite <- E5|]. rewrite revision_bump by done. unfold revision. by rewrite E6.
  - intros u Hne. split; [by rewrite <- E5|]. unfold revision. by rewrite E6.
Qed.
Lemma remove_members_sound clock group d : sound d → sound (remove_members clock group d).
Proof using.
  intros Hd. unfold remove_members. generalize (snd <$> filter (fun '(g, _) => g = group) (d_members d)) as us. intros us.
  assert (H0 : sound (on_members d (filter (fun '(g, _) => g ≠ group) (d_members d)))) by (by eapply sound_other). revert H0.
  generalize (on_members d (filter (fun '(g, _) => g ≠ group) (d_members d))). induction us as [|u us IH]; intros x Hx; [done|]. cbn. apply IH.
  by apply (access_removed_sound x).
Qed.
Lemma insert_members_sound clock group users d d' : sound d → insert_members clock group users d = Ok d' → sound d'.
Proof using.
  revert d. induction users as [|u users IH]; intros d Hd H; cbn in H; [by simplify_eq|]. destruct (_ || _); [done|]. eapply IH; [|exact H]. by apply (access_added_sound d).
Qed.
Lemma PutApplicationGroup_sound id name users expected clock d d' : sound d → PutApplicationGroup id name users expected clock d = Ok d' → sound d'.
Proof using.
  unfold PutApplicationGroup. intros Hd H. assert (Hp : ∀ v, insert_members clock id users (remove_members clock id (on_groups d (<[id := (name, v)]> (d_groups d)))) = Ok d' → sound d').
  { intros v Hv. eapply insert_members_sound; [|exact Hv]. apply remove_members_sound. by eapply sound_other. }
  destruct (d_groups d !! id) as [[n v]|]; guards_in H; by eapply Hp.
Qed.
Lemma insertAnchor_sound a d d' : owner (an_ID a) = an_UserID a → sound d → insertAnchor a d = Ok d' → sound d'.
Proof using.
  intros Ho Hd H. unfold insertAnchor in H. destruct (d_anchors d !! an_ID a) as [x|] eqn:E; [by simplify_eq|]. guards_in H. simplify_eq.
  destruct Hd as [H1 H2 H3 H4 H5 H6]. split; try done; cbn.
  - intros id s Hs Hl. destruct (H2 id s Hs Hl) as [[A B C] Hau]. split; [|done]. split; [done| |done]. destruct B as (b & Hb & ?). exists b. cbn.
    rewrite lookup_insert_ne; [done|]. intros Heq. rewrite <- Heq, E in Hb. done.
  - intros id b [[<- <-]|[Hne Hb]]%lookup_insert_Some; [done|eauto].
Qed.
Lemma CreateApplicationTicket_sound t d d' : owner (tk_AnchorID t) = tk_UserID t → sound d → CreateApplicationTicket t d = Ok d' → sound d'.
Proof using.
  intros Ho Hd H. unfold CreateApplicationTicket in H. guards_in H. simplify_eq. destruct Hd as [H1 H2 H3 H4 H5 H6]. split; try done; cbn.
  - intros id s Hs Hl. destruct (H2 id s Hs Hl) as [[A B C] Hau]. by repeat split.
  - intros k x [[<- <-]|[Hne Hx]]%lookup_insert_Some; [done|eauto].
Qed.
Lemma admits_row d app v : admits d app v = true → ∃ r, d_apps d !! app = Some r ∧ ar_enabled r = true ∧ ar_deleting r = false ∧ ar_version r = v.
Proof using. unfold admits. destruct (d_apps d !! app) as [r|]; [|done]. intros H. bool_hyps. exists r. split_and!; try done. by apply Z.eqb_eq. Qed.
Lemma anchorHolds_row d id : anchorHolds d id = true → ∃ a u, d_anchors d !! id = Some a ∧ an_RevokedAt a = None ∧ d_users d !! an_UserID a = Some u
  ∧ u_TokenGeneration u = an_TokenGeneration a ∧ u_DisabledAt u = None.
Proof using.
  unfold anchorHolds. destruct (d_anchors d !! id) as [a|]; [|done]. destruct (d_users d !! an_UserID a) as [u|] eqn:E; intros H; bool_hyps; [|done].
  exists a, u. split_and!; try done. symmetry. by apply Z.eqb_eq.
Qed.
Lemma digest_free d digest id s : digest_taken d digest = false → d_sessions d !! id = Some s → as_CredentialDigest s ≠ digest.
Proof using.
  unfold digest_taken. intros H Hs <-. apply not_true_iff_false in H. apply H, existsb_exists. exists (id, s).
  split; [by apply list_elem_of_In, elem_of_map_to_list|by apply bool_decide_eq_true_2].
Qed.
Lemma ConsumeApplicationTicket_sound digest host id credential expires now d d' path :
  sound d → ConsumeApplicationTicket digest host id credential expires now d = Ok (d', path) → sound d'.
Proof using.
  unfold ConsumeApplicationTicket. intros Hd H. destruct (ticketAt digest host now d) as [t|] eqn:Et; [|done]. guards_in H. simplify_eq. bool_hyps.
  match goal with H : anchorHolds _ _ = true |- _ => apply anchorHolds_row in H as (a & u & Ha & Hr & Hu & Hg & Hdis) end.
  match goal with H : admits _ _ _ = true |- _ => apply admits_row in H as (r & Hap & Hen & Hdel & Hv) end.
  assert (Hok : tk_UserID t = owner (tk_AnchorID t)).
  { unfold ticketAt in Et. destruct (d_tickets d !! digest) as [x|] eqn:E; [|done]. guards_in Et. simplify_eq. by apply (v_tickets _ Hd digest). }
  destruct Hd as [V1 V2 V3 V4 V5 V6]. destruct (V5 _ _ Ha) as [_ Hown]. split; cbn.
  - intros i s [[<- <-]|[_ Hs]]%lookup_insert_Some; eauto.
  - intros i s [[<- <-]|[_ Hs]]%lookup_insert_Some Hl.
    + split; [|done]. split; cbn; [eauto 10| |by apply Z.eqb_eq]. exists a. split_and!; try done; [congruence|]. exists u. split_and!; try done. congruence.
    + destruct (V2 i s Hs Hl) as [[A B C] ?]. by repeat split.
  - intros i s [[<- <-]|[_ Hs]]%lookup_insert_Some; eauto.
  - intros i j s x [[<- <-]|[Hi Hs]]%lookup_insert_Some [[<- <-]|[Hj Hx]]%lookup_insert_Some He; [done| | |by eapply V4]; cbn in He; exfalso.
    + by eapply digest_free.
    + by eapply digest_free.
  - done.
  - intros k x Hx. apply lookup_delete_Some in Hx as [_ Hx]. eauto.
Qed.

(** Sessions change one by one. *)
Lemma sound_fmap f d : sound d → (∀ s, follows s (f s)) → sound (on_sessions d (f <$> d_sessions d)).
Proof using.
  intros Hd Hf. apply (sound_step d); [done| |eauto|done]. intros id s' Hs'. cbn in Hs'. rewrite lookup_fmap_Some in Hs'. destruct Hs' as (s & <- & Hs).
  exists s. split_and!; [done|apply Hf|]. intros _. by apply backed_same.
Qed.
Lemma TouchApplicationSession_sound id now d : sound d → sound (TouchApplicationSession id now d).
Proof using. intros Hd. apply sound_fmap; [done|]. intros s. destruct (_ && _ && _); by split. Qed.
Lemma MarkApplicationEndAudited_sound id d : sound d → sound (MarkApplicationEndAudited id d).
Proof using.
  intros Hd. apply sound_fmap; [done|]. intros s. destruct (_ && _) eqn:E; [|apply follows_refl]. bool_hyps. split; try done. intros Hl. unfold live in *. cbn in Hl. congruence.
Qed.
Lemma follows_trans a b c : follows a b → follows b c → follows a c.
Proof using.
  intros [A1 A2 A3 A4 A5 A6 A7 A8] [B1 B2 B3 B4 B5 B6 B7 B8]. split; try congruence. intros Hl. destruct (B8 Hl) as [Hb Hbu]. destruct (A8 Hb). split; [done|congruence].
Qed.
Lemma ExpireApplicationSessions_sound now idle max d : sound d → sound (ExpireApplicationSessions now idle max d).
Proof using.
  intros Hd. unfold ExpireApplicationSessions. rewrite <- map_fmap_compose. apply sound_fmap; [done|]. intros s. cbn. eapply (follows_trans _ _ _).
  - instantiate (1 := match absoluteEnd d max s with Some t => if live s && (UnixMilli t <=? UnixMilli now) then set_ended s t "expired_absolute" else s | None => s end).
    destruct (absoluteEnd d max s); [destruct (_ && _)|]; first [apply follows_ended|apply follows_refl].
  - destruct (live _ && _); first [apply follows_ended|apply follows_refl].
Qed.

(** Anchors that are revoked, and all their sessions with them. *)
Lemma revoked_sound P Q now reason d : sound d → (∀ s a, P s = false → an_ID a = as_AnchorID s → an_UserID a = as_UserID s → Q a = false) →
  sound (end_where P now reason (revoke_where Q now reason d)).
Proof using.
  intros Hd Hpq. apply (ends_sound _ _ _ d); [done|done| | |done].
  - intros s Hl Hn id Hs [A B C]. split; [done| |done]. destruct B as (a & Ha & Hr & Hu & HU). exists a. cbn. rewrite lookup_fmap, Ha. cbn.
    rewrite (Hpq s a), andb_false_r; try done. by apply (v_anchors _ Hd).
  - intros id a' Ha'. cbn in Ha'. rewrite lookup_fmap_Some in Ha'. destruct Ha' as (a & <- & Ha). exists a. split; [done|]. by destruct (_ && _).
Qed.
Lemma RevokeApplicationFamily_sound user anchor reason now d : sound d → sound (RevokeApplicationFamily user anchor reason now d).
Proof using. intros Hd. apply revoked_sound; [done|]. intros s a Hp -> ->. exact Hp. Qed.
Lemma RevokeUserApplications_sound user except reason now d : sound d → sound (RevokeUserApplications user except reason now d).
Proof using. intros Hd. apply revoked_sound; [done|]. intros s a Hp -> ->. exact Hp. Qed.
Lemma fewer_tickets_sound d tickets : sound d → (∀ k t, tickets !! k = Some t → d_tickets d !! k = Some t) → sound (on_tickets d tickets).
Proof using.
  intros Hd Ht. apply (sound_step d); [done| |eauto|done]. intros id s Hs. exists s. split_and!; [done|apply follows_refl|]. intros _. by apply backed_same.
Qed.
Lemma revokeCredentialAuthority_sound user reason now d : sound d → sound (revokeCredentialAuthority user reason now d).
Proof using.
  intros Hd. apply fewer_tickets_sound; [apply revoked_sound; [done|]; intros s a Hp _ ->; exact Hp|]. intros k t Hk. by apply map_lookup_filter_Some in Hk as [? _].
Qed.
Lemma EndAllApplicationSessions_sound reason now d : sound d → sound (EndAllApplicationSessions reason now d).
Proof using. intros Hd. apply fewer_tickets_sound; [by apply ends_only_sound|]. intros k t Hk. by rewrite lookup_empty in Hk. Qed.

Lemma PruneApplicationRecords_sound now retention d : sound d → sound (PruneApplicationRecords now retention d).
Proof using.
  intros Hd. unfold PruneApplicationRecords. set (cut := UnixMilli (now - retention)). apply (sound_step d); [done| | |].
  - intros id s Hs. cbn in Hs. pose proof Hs as Hs0. apply map_lookup_filter_Some in Hs as [Hs Hold]. exists s. split_and!; [done|apply follows_refl|].
    intros Hl [A B C]. split; [done| |done]. destruct B as (a & Ha & HB). exists a. split; [|done]. cbn. apply map_lookup_filter_Some. split; [done|].
    apply andb_false_intro2, negb_false_iff, orb_true_iff. left. apply existsb_exists. exists (id, s). split; [by apply list_elem_of_In, elem_of_map_to_list|].
    apply bool_decide_eq_true_2. symmetry. by apply (v_anchors _ Hd).
  - intros id a Ha. cbn in Ha. apply map_lookup_filter_Some in Ha as [Ha _]. eauto.
  - intros k t Hk. cbn in Hk. by apply map_lookup_filter_Some in Hk as [? _].
Qed.

Lemma UserUpdated_sound u clock d : sound d → sound (UserUpdated u clock d).
Proof using.
  intros Hd. unfold UserUpdated. destruct (d_users d !! u_ID u) as [old|] eqn:E; [|done]. destruct (account_differs old u) eqn:Ed.
  - apply (bumped_sound d); try done. intros v Hne. cbn. rewrite lookup_insert_ne by done. split; [done|]. by rewrite revision_bump.
  - apply (sound_step d); [done| |eauto|done]. intros id s Hs. exists s. split_and!; [done|apply follows_refl|]. intros _ [A B C]. split; [done| |done].
    destruct B as (a & Ha & Hr & Hu & v & Hv & Hg & Hdis). exists a. split_and!; try done. cbn. destruct (decide (u_ID u = as_UserID s)) as [E1|]; [|exists v; by rewrite lookup_insert_ne].
    exists u. rewrite E1, lookup_insert_eq. rewrite <- E1, E in Hv. injection Hv as ->. unfold account_differs in Ed. bool_hyps. split_and!; congruence.
Qed.
Lemma UserCreated_sound u d : sound d → sound (UserCreated u d).
Proof using.
  intros Hd. unfold UserCreated. destruct (d_users d !! u_ID u) eqn:E; [done|]. apply (sound_step d); [done| |eauto|done].
  intros id s Hs. exists s. split_and!; [done|apply follows_refl|]. intros _ [A B C]. split; [done| |done]. destruct B as (a & Ha & Hr & Hu & v & Hv & HB).
  exists a. split_and!; try done. exists v. cbn. rewrite lookup_insert_ne; [done|]. intros Heq. rewrite Heq in E. congruence.
Qed.
Lemma UserDeleted_sound user d : sound d → sound (UserDeleted user d).
Proof using.
  intros Hd. apply (sound_step d); [done| | |].
  - intros id s Hs. cbn in Hs. apply map_lookup_filter_Some in Hs as [Hs [Hne _]]. exists s. split_and!; [done|apply follows_refl|]. intros _ [A B C].
    split; [done| |unfold revision in *; cbn; by rewrite lookup_delete_ne]. destruct B as (a & Ha & Hr & Hu & v & Hv & HB). exists a. split_and!; try done.
    + cbn. apply map_lookup_filter_Some. split; [done|]. by rewrite Hu.
    + exists v. cbn. by rewrite lookup_delete_ne.
  - intros id a Ha. cbn in Ha. apply map_lookup_filter_Some in Ha as [Ha _]. eauto.
  - intros k t Hk. cbn in Hk. by apply map_lookup_filter_Some in Hk as [? _].
Qed.
Lemma RoleAdded_sound user role clock d : sound d → sound (RoleAdded user role clock d).
Proof using. intros Hd. unfold RoleAdded. destruct (_ && _); [by apply (access_added_sound d)|done]. Qed.
Lemma RoleRemoved_sound user role clock d : sound d → sound (RoleRemoved user role clock d).
Proof using. intros Hd. unfold RoleRemoved. destruct (bool_decide _); [by apply (access_removed_sound d)|done]. Qed.
End sound.

(** ** Transactions *)

Inductive store_op :=
| OCreate (a : Application) (now : Time) | OUpdate (a : Application) (expected : Z) (now : Time) | ODelete (id : string) | OBeginDelete (id : string) (now : Time)
| OGrants (a : Application) (id : string) (grants : list ApplicationGrant) (expected : Z) (now : Time)
| OGroup (id name : string) (users : list string) (expected : Z) (clock : Time) | ODeleteGroup (id : string) (clock : Time)
| OAnchor (a : ApplicationAnchor) | OTicket (t : ApplicationLaunchTicket) | OTouch (id : string) (now : Time) | OEnd (id reason : string) (now : Time)
| ORevokeFamily (user anchor reason : string) (now : Time) | ORevokeUser (user except reason : string) (now : Time) | ORevokeCredential (user reason : string) (now : Time)
| OEndAll (reason : string) (now : Time) | OExpire (now : Time) (idle max : Duration) | OMark (id : string) | OPrune (now : Time) (retention : Duration)
| OPolicy (expected version : Z) (value : string) | OAudit (id : string) | ODeleteAudits (ids : gset string)
| OUserCreated (u : User) | OUserUpdated (u : User) (clock : Time) | OUserDeleted (id : string)
| ORoleAdded (user : string) (role : Role) (clock : Time) | ORoleRemoved (user : string) (role : Role) (clock : Time).

Definition transact (op : store_op) (d : AppDB) : result AppDB :=
  match op with
  | OCreate a now => CreateApplication a now d
  | OUpdate a expected now => UpdateApplication a expected now d
  | ODelete id => DeleteApplication id d
  | OBeginDelete id now => BeginApplicationDeletion id now d
  | OGrants a id grants expected now => ReplaceApplicationGrants a id grants expected now d
  | OGroup id name users expected clock => PutApplicationGroup id name users expected clock d
  | ODeleteGroup id clock => Ok (DeleteApplicationGroup id clock d)
  | OAnchor a => insertAnchor a d
  | OTicket t => CreateApplicationTicket t d
  | OTouch id now => Ok (TouchApplicationSession id now d)
  | OEnd id reason now => Ok (EndApplicationSession id reason now d)
  | ORevokeFamily user anchor reason now => Ok (RevokeApplicationFamily user anchor reason now d)
  | ORevokeUser user except reason now => Ok (RevokeUserApplications user except reason now d)
  | ORevokeCredential user reason now => Ok (revokeCredentialAuthority user reason now d)
  | OEndAll reason now => Ok (EndAllApplicationSessions reason now d)
  | OExpire now idle max => Ok (ExpireApplicationSessions now idle max d)
  | OMark id => Ok (MarkApplicationEndAudited id d)
  | OPrune now retention => Ok (PruneApplicationRecords now retention d)
  | OPolicy expected version value => CompareApplicationPolicy expected version value d
  | OAudit id => Ok (on_audits d ({[id]} ∪ d_audits d))
  | ODeleteAudits ids => Ok (DeleteAuditLogs ids d)
  | OUserCreated u => Ok (UserCreated u d)
  | OUserUpdated u clock => Ok (UserUpdated u clock d)
  | OUserDeleted id => Ok (UserDeleted id d)
  | ORoleAdded user role clock => Ok (RoleAdded user role clock d)
  | ORoleRemoved user role clock => Ok (RoleRemoved user role clock d)
  end.
(** An anchor and a ticket are of the account that signed in. *)
Definition rightful (owner : string → string) (op : store_op) : Prop :=
  match op with
  | OAnchor a => owner (an_ID a) = an_UserID a
  | OTicket t => owner (tk_AnchorID t) = tk_UserID t
  | _ => True
  end.

Lemma transact_sound owner op d d' : rightful owner op → sound owner d → transact op d = Ok d' → sound owner d'.
Proof.
  intros Hr Hd H. destruct op; cbn [transact] in H; try (injection H as <-).
  - by eapply CreateApplication_sound.
  - by eapply UpdateApplication_sound.
  - by eapply DeleteApplication_sound.
  - by eapply BeginApplicationDeletion_sound.
  - by eapply ReplaceApplicationGrants_sound.
  - by eapply PutApplicationGroup_sound.
  - unfold DeleteApplicationGroup. apply remove_members_sound. by eapply sound_other.
  - by eapply insertAnchor_sound.
  - by eapply CreateApplicationTicket_sound.
  - by apply TouchApplicationSession_sound.
  - by apply ends_only_sound.
  - by apply RevokeApplicationFamily_sound.
  - by apply RevokeUserApplications_sound.
  - by apply revokeCredentialAuthority_sound.
  - by apply EndAllApplicationSessions_sound.
  - by apply ExpireApplicationSessions_sound.
  - by apply MarkApplicationEndAudited_sound.
  - by apply PruneApplicationRecords_sound.
  - unfold CompareApplicationPolicy in H. destruct (d_policy d) as [[v x]|]; guards_in H; simplify_eq; by eapply sound_other.
  - by eapply sound_other.
  - by eapply sound_other.
  - by apply UserCreated_sound.
  - by apply UserUpdated_sound.
  - by apply UserDeleted_sound.
  - by apply RoleAdded_sound.
  - by apply RoleRemoved_sound.
Qed.

(** *** Sessions are never made nor opened again but by a ticket *)

Definition descends (d d' : AppDB) : Prop := ∀ id s', d_sessions d' !! id = Some s' → ∃ s, d_sessions d !! id = Some s ∧ follows s s'.
Lemma descends_refl d d' : d_sessions d' = d_sessions d → descends d d'.
Proof. intros E id s Hs. rewrite E in Hs. exists s. split; [done|apply follows_refl]. Qed.
Lemma descends_trans a b c : descends a b → descends b c → descends a c.
Proof. intros H1 H2 id s Hs. destruct (H2 id s Hs) as (y & Hy & Hf). destruct (H1 id y Hy) as (x & Hx & Hg). exists x. split; [done|by eapply follows_trans]. Qed.
Lemma descends_fmap d d' f : d_sessions d' = f <$> d_sessions d → (∀ s, follows s (f s)) → descends d d'.
Proof. intros E Hf id s' Hs. rewrite E, lookup_fmap_Some in Hs. destruct Hs as (s & <- & Hs). eauto. Qed.
Lemma descends_end P at_ reason d d0 : d_sessions d0 = d_sessions d → descends d (end_where P at_ reason d0).
Proof.
  intros E. eapply descends_fmap; [cbn; by rewrite E|]. intros s. cbn. destruct (_ && _); first [apply follows_ended|apply follows_refl].
Qed.
Lemma descends_filter (P : string * ApplicationSession → Prop) `{!∀ x, Decision (P x)} d d' : d_sessions d' = filter P (d_sessions d) → descends d d'.
Proof. intros E id s Hs. rewrite E in Hs. apply map_lookup_filter_Some in Hs as [Hs _]. exists s. split; [done|apply follows_refl]. Qed.
Lemma remove_members_descends clock group d : descends d (remove_members clock group d).
Proof.
  unfold remove_members. generalize (snd <$> filter (fun '(g, _) => g = group) (d_members d)) as us. intros us.
  eapply (descends_trans _ (on_members d (filter (fun '(g, _) => g ≠ group) (d_members d)))); [by apply descends_refl|].
  generalize (on_members d (filter (fun '(g, _) => g ≠ group) (d_members d))). induction us as [|u us IH]; intros x; [by apply descends_refl|]. cbn.
  eapply descends_trans; [|apply IH]. unfold access_removed. apply descends_end. by case_bool_decide.
Qed.
Lemma insert_members_descends clock group users d d' : insert_members clock group users d = Ok d' → descends d d'.
Proof.
  revert d. induction users as [|u users IH]; intros d H; cbn in H; [simplify_eq; by apply descends_refl|]. destruct (_ || _); [done|].
  eapply descends_trans; [|by apply IH]. by apply descends_end.
Qed.
Lemma transact_descends op d d' : transact op d = Ok d' → descends d d'.
Proof.
  intros H. destruct op; cbn [transact] in H; try (injection H as <-); try (by apply descends_refl); try (by apply descends_end).
  - unfold CreateApplication in H. cbn in H. destruct (_ || _); [done|]. injection H as <-. by apply descends_refl.
  - unfold UpdateApplication in H. cbn in H. destruct (d_apps d !! ap_ID a); [|done]. guards_in H. simplify_eq. by apply descends_end.
  - unfold DeleteApplication in H. destruct (d_apps d !! id); [|done]. guards_in H. simplify_eq. by eapply descends_filter.
  - unfold BeginApplicationDeletion in H. destruct (d_apps d !! id); [|done]. cbn in H. injection H as <-. by apply descends_end.
  - unfold ReplaceApplicationGrants in H. cbn in H. destruct (d_apps d !! id); [|done]. guards_in H. simplify_eq. by apply descends_end.
  - unfold PutApplicationGroup in H. assert (Hp : ∀ v, insert_members clock id users (remove_members clock id (on_groups d (<[id := (name, v)]> (d_groups d)))) = Ok d' → descends d d').
    { intros v Hv. eapply descends_trans; [|by eapply insert_members_descends]. eapply descends_trans; [|apply remove_members_descends]. by apply descends_refl. }
    destruct (d_groups d !! id) as [[n v]|]; guards_in H; by eapply Hp.
  - unfold DeleteApplicationGroup. eapply descends_trans; [|apply remove_members_descends]. by apply descends_refl.
  - unfold insertAnchor in H. destruct (d_anchors d !! an_ID a); guards_in H; simplify_eq; by apply descends_refl.
  - unfold CreateApplicationTicket in H. guards_in H. simplify_eq. by apply descends_refl.
  - eapply descends_fmap; [done|]. intros s. cbn. destruct (_ && _ && _); by split.
  - unfold ExpireApplicationSessions. eapply descends_fmap; [cbn; by rewrite <- map_fmap_compose|]. intros s. cbn. eapply follows_trans.
    + instantiate (1 := match absoluteEnd d max s with Some t => if live s && (UnixMilli t <=? UnixMilli now) then set_ended s t "expired_absolute" else s | None => s end).
      destruct (absoluteEnd d max s); [destruct (_ && _)|]; first [apply follows_ended|apply follows_refl].
    + destruct (live _ && _); first [apply follows_ended|apply follows_refl].
  - eapply descends_fmap; [done|]. intros s. cbn. destruct (_ && _) eqn:E; [|apply follows_refl]. bool_hyps. split; try done. intros Hl. unfold live in *. cbn in Hl. congruence.
  - by eapply descends_filter.
  - unfold CompareApplicationPolicy in H. destruct (d_policy d) as [[v x]|]; guards_in H; simplify_eq; by apply descends_refl.
  - unfold UserCreated. destruct (d_users d !! u_ID u); by apply descends_refl.
  - unfold UserUpdated. destruct (d_users d !! u_ID u); [|by apply descends_refl]. destruct (account_differs _ _); [by apply descends_end|by apply descends_refl].
  - by eapply descends_filter.
  - unfold RoleAdded. destruct (_ && _); [by apply descends_end|by apply descends_refl].
  - unfold RoleRemoved. destruct (bool_decide _); [|by apply descends_refl]. unfold access_removed. apply descends_end. by case_bool_decide.
Qed.
