(* ===== verification/AppAccess.v ===== *)
(** Access to web applications, the server (hub/internal/server:
    application_authority.go, application_pending_revocation.go,
    application_audit.go, application_proxy.go and handlers_applications.go): the
    launch of an application, the check of a session, the requests it admits and
    the revocations that must not be forgotten while the database cannot be
    written.

    The handlers are programs of calls; a section under the mutex of the pending
    revocations, with the one statement it makes, is one call. *)

From S2P Require Import Prelude Prog Codec Filepath Lockout Model Account Governance AppStore.
Local Open Scope prog_scope.

(** ** Paths and headers *)

Definition errApplicationDenied : goerr := ErrText "application access denied — sign in again".

(** url.PathUnescape, and what url.ParseRequestURI makes of a path that begins
    with one slash: no control bytes, the query cut off, escapes decoded. *)
Definition unhex (b : Z) : option Z :=
  if between 48 57 b then Some (b - 48) else if between 97 102 b then Some (b - 87) else if between 65 70 b then Some (b - 55) else None.
Fixpoint unescape (l : list Z) : option (list Z) :=
  match l with
  | [] => Some []
  | 37 :: h :: i :: t =>
      match unhex h, unhex i, unescape t with Some x, Some y, Some r => Some ((16 * x + y) :: r) | _, _, _ => None end
  | 37 :: _ => None
  | b :: t => match unescape t with Some r => Some (b :: r) | None => None end
  end.
Fixpoint beforeQuery (l : list Z) : list Z := match l with b :: t => if b =? 63 then [] else b :: beforeQuery t | [] => [] end.
Definition control (b : Z) : bool := (b <? 32) || (b =? 127).
Definition forbidden : list Z := [92; 0; 13; 10].
Definition second (l : list Z) : bool := match l with _ :: b :: _ => (b =? 47) || (b =? 92) | _ => false end.
Definition applicationPath (raw : string) : result string :=
  if bool_decide (raw = "") then Ok "/" else
  check! (4096 <? len raw) || negb (HasPrefix raw "/") || second (bytes raw) || ContainsAnyByte raw forbidden, errApplicationDenied;
  check! existsb control (bytes raw), errApplicationDenied;
  match unescape (beforeQuery (bytes raw)) with
  | None => Err errApplicationDenied
  | Some decoded =>
      let d := string_of_bytes decoded in
      check! ContainsAnyByte d forbidden || second decoded || HasPrefix d "/_veyport/", errApplicationDenied;
      check! existsb (fun seg => bool_decide (seg = "..") || bool_decide (seg = ".")) (split "/" d), errApplicationDenied;
      Ok raw
  end.

Definition isMutationMethod (method : string) : bool := negb (bool_decide (method ∈ ["GET"; "HEAD"; "OPTIONS"])).
(** A request to an application; [rq_websocket]: its Upgrade header says websocket;
    [rq_document]: its headers ask for a document. *)
Record AppRequest := mkAppRequest {
  rq_method : string; rq_origin : string; rq_websocket : bool; rq_fetch_site : string; rq_absolute : bool; rq_uri : string; rq_document : bool;
  rq_cookies : list (string * string);
}.
Definition appRequestOriginAllowed (r : AppRequest) (host : string) : bool :=
  if negb (isMutationMethod (rq_method r) || rq_websocket r) then true
  else if negb (bool_decide (rq_origin r = "")) then bool_decide (rq_origin r = "https://" +:+ host)
  else negb (rq_websocket r) && bool_decide (rq_fetch_site r = "same-origin").
Definition applicationCookie : string := "__Host-veyport_app".
Definition uniqueApplicationCookie (r : AppRequest) : result string :=
  match filter (fun c => fst c = applicationCookie) (rq_cookies r) with
  | [(_, value)] => check! 100 <? len value, errApplicationDenied; Ok value
  | _ => Err errApplicationDenied
  end.
Definition reservedApplicationCookie (name : string) : bool := HasPrefix name "__Host-veyport_" || HasPrefix name "veyport_" || HasPrefix name "aerodocs_".
(** The cookies a backend is sent. *)
Definition stripApplicationCredentials (cookies : list (string * string)) : list (string * string) :=
  filter (fun c => reservedApplicationCookie (fst c) = false) cookies.

(** ** Policy and membership *)

Record AppPolicy := mkAppPolicy { po_IdleSeconds : Z; po_MaxSeconds : Z; po_Version : Z }.
(** [decoded]: the JSON value of the configuration, or no value. *)
Definition applicationPolicy (config : result (option AppPolicy)) : AppPolicy :=
  match config with
  | Err _ => mkAppPolicy 2700 43200 1
  | Ok None => mkAppPolicy 60 300 1
  | Ok (Some p) => if (po_IdleSeconds p <? 60) || (po_MaxSeconds p <? 300) then mkAppPolicy 60 300 1 else p
  end.
Record ApplicationMembership := mkMembership { me_Groups : list string; me_Role : string; me_Fingerprint : string }.

Definition directory_role (u : User) (role : string) : bool :=
  bool_decide (u_AuthProvider u = AuthProviderLDAP) && bool_decide (role ∈ [RoleAdmin; RoleAuditor; RoleViewer]).
Definition grant_allows (u : User) (roles groups : list string) (member : ApplicationMembership) (g : ApplicationGrant) : bool :=
  let ldap := bool_decide (u_AuthProvider u = AuthProviderLDAP) in
  if bool_decide (gr_Kind g = "user") then bool_decide (gr_SubjectID g = u_ID u)
  else if bool_decide (gr_Kind g = "local_group") then bool_decide (gr_SubjectID g ∈ groups)
  else if bool_decide (gr_Kind g = "role") then
    existsb (fun role => negb (directory_role u role) && bool_decide (role = gr_SubjectID g)) roles || (ldap && bool_decide (me_Role member = gr_SubjectID g))
  else if bool_decide (gr_Kind g = "directory_group") then ldap && bool_decide (gr_SubjectID g ∈ me_Groups member)
  else false.
Definition granted (u : User) (roles groups : list string) (member : ApplicationMembership) (grants : list ApplicationGrant) : bool :=
  existsb (grant_allows u roles groups member) grants.

(** ** Revocations that are pending *)

Record Revocations := mkRevocations { rv_pending : gmap string Time; rv_quarantine : bool; rv_reason : string; rv_observedAt : Time }.
Definition maxPendingApplicationRevocations : nat := Z.to_nat 1024.
Definition applicationRevocationCleanupBatch : nat := 100.
Definition newApplicationRevocations (now : Time) : Revocations := mkRevocations ∅ true "hub_restart" now.
Definition markLocked (id : string) (now : Time) (r : Revocations) : Revocations :=
  if rv_quarantine r then r
  else if bool_decide (is_Some (rv_pending r !! id)) then r
  else if bool_decide (size (rv_pending r) = maxPendingApplicationRevocations) then mkRevocations (rv_pending r) true "access_changed" now
  else mkRevocations (<[id := now]> (rv_pending r)) false (rv_reason r) (rv_observedAt r).
Definition settle (id : string) (r : Revocations) : Revocations := mkRevocations (delete id (rv_pending r)) (rv_quarantine r) (rv_reason r) (rv_observedAt r).

(** ** Streams *)

(** The session and the application of each stream, and those that were cancelled. *)
Record Streams := mkStreams { st_active : gmap string (string * string); st_cancelled : gset string }.
Definition register (id session app : string) (s : Streams) : Streams * bool :=
  if (128 <=? size (st_active s))%nat then (s, false)
  else if (8 <=? length (filter (fun '(_, v) => fst v = session) (map_to_list (st_active s))))%nat then (s, false)
  else (mkStreams (<[id := (session, app)]> (st_active s)) (st_cancelled s), true).
Definition remove (id : string) (s : Streams) : Streams := mkStreams (delete id (st_active s)) (st_cancelled s).
Definition closeWhere (match_ : string * string → bool) (s : Streams) : Streams :=
  mkStreams (st_active s) (dom (filter (fun '(_, v) => match_ v = true) (st_active s)) ∪ st_cancelled s).
Definition closeApp (id : string) : Streams → Streams := closeWhere (fun v => bool_decide (snd v = id)).
Definition closeSession (id : string) : Streams → Streams := closeWhere (fun v => bool_decide (fst v = id)).
Definition closeAll : Streams → Streams := closeWhere (fun _ => true).

(** ** Calls *)

Inductive pending_answer := PQuarantined | PRevoked (r : result unit) | PCurrent (r : result ApplicationSession).
Inductive acall : Type → Type :=
| ANow : acall Time
| AUUID : acall string
| ASecret : acall (result string)
| ACancelled : acall bool                                      (* the context of the request is over *)
| ATick : acall bool                                           (* false: the stream is over *)
(* reads *)
| AConfig : acall (result (option AppPolicy))
| ALockoutPolicy : acall (result Policy)
| AApplication (id : string) : acall (result Application)
| AByHost (host : string) : acall (result Application)
| AUser (id : string) : acall (result User)
| ASource (sid : string) : acall (result Session)
| AGrants (app : string) : acall (result (list ApplicationGrant))
| ARoles (user : string) : acall (result (list string))
| AGroups (user : string) : acall (result (list string))
| AMembership (u : User) : acall (result ApplicationMembership)
| ARevision (user : string) : acall (result Z)
| AAnchor (id : string) : acall (result ApplicationAnchor)
| ATicket (digest host : string) (now : Time) : acall (result ApplicationLaunchTicket)
| ASession (digest : string) : acall (result ApplicationSession)
| ASessionByID (id : string) : acall (result ApplicationSession)
| AUnaudited : acall (result (list ApplicationSession))
| AAudited (id : string) : acall (result bool)
| APendingAudits (app : string) : acall (result nat)
| AGroup (id : string) : acall (result ApplicationGroup)
| AEnrolled (node : string) : acall bool                         (* the node exists and is enrolled *)
| AListed (claims : list ApplicationGrant) : acall (result (list Application))
(* writes *)
| AStore (op : store_op) : acall (result unit)
| AConsume (digest host id credential : string) (expires now : Time) : acall (result string)
(* sections under the mutex of the revocations *)
| AQuarantine : acall (bool * result unit)
| APending (id : string) : acall pending_answer
| APersist (id : string) (now : Time) : acall (bool * result unit)
| AFlush : acall (nat * result unit)
(* streams *)
| ARegister (id session app : string) : acall bool
| ARemove (id : string) : acall unit
| ACancel (id : string) : acall unit
| ACloseSession (id : string) : acall unit
| ACloseApp (id : string) : acall unit
| AForward (session app : string) : acall unit.               (* the request goes to the backend *)

Abbreviation prog := (Prog.prog acall).

(** ** Audits (application_audit.go) *)

Definition audit_id (s : ApplicationSession) : string := "application-session-end:" +:+ as_ID s.
Fixpoint auditEach (rows : list ApplicationSession) (failure : result unit) : prog (result unit) :=
  match rows with
  | [] => Ret failure
  | s :: rows =>
      ex <- call_ (AAudited (audit_id s));
      match ex with
      | Err e => auditEach rows (Err e)
      | Ok ex =>
          logged <- (if (ex : bool) then Ret (Ok tt) else call_ (AStore (OAudit (audit_id s))));
          match logged with
          | Err e => auditEach rows (Err e)
          | Ok _ =>
              marked <- call_ (AStore (OMark (as_ID s)));
              auditEach rows (match marked with Ok _ => failure | Err e => Err e end)
          end
      end
  end.
Definition auditApplicationSessionEnds : prog (result unit) :=
  rows <-? call_ AUnaudited;
  auditEach rows (Ok tt).
(** [applicationAudit] (handlers_applications.go): the record of the request is written
    elsewhere, and then the ends of sessions. *)
Definition applicationAudit : prog unit := discard auditApplicationSessionEnds.

(** ** Pending revocations (application_pending_revocation.go) *)

(** [errors.Join]: an error. *)
Definition joined (e : goerr) : result unit := Err e.

Definition retryApplicationRevocationQuarantine : prog (bool * result unit) :=
  r <- call_ AQuarantine;
  let '(quarantined, err) := r in
  if negb quarantined then Ret (false, Ok tt) else
  match err with
  | Ok _ => a <- auditApplicationSessionEnds; Ret (true, a)
  | Err e => Ret (true, Err e)
  end.
Definition checkApplicationPendingRevocation (id : string) : prog (result unit) :=
  q <- retryApplicationRevocationQuarantine;
  if fst q then Ret (joined errApplicationDenied) else
  p <- call_ (APending id);
  match p with
  | PQuarantined => Ret (Err errApplicationDenied)
  | PRevoked (Ok _) => _ <- auditApplicationSessionEnds; Ret (joined errApplicationDenied)
  | PRevoked (Err _) => Ret (joined errApplicationDenied)
  | PCurrent (Ok s) => Ret (if live s then Ok tt else joined errApplicationDenied)
  | PCurrent (Err _) => Ret (joined errApplicationDenied)
  end.
Definition persistApplicationAccessChanged (id : string) (now : Time) : prog (result unit) :=
  r <- call_ (APersist id now);
  let '(quarantined, err) := r in
  if (quarantined : bool) then q <- retryApplicationRevocationQuarantine; Ret (snd q) else
  match err with
  | Ok _ => auditApplicationSessionEnds
  | Err e => Ret (Err e)
  end.
Definition retryPendingApplicationRevocations : prog (result unit) :=
  q <- retryApplicationRevocationQuarantine;
  if fst q then Ret (snd q) else
  r <- call_ AFlush;
  let '(count, err) := r in
  match err with
  | Ok _ => if (count =? 0)%nat then Ret (Ok tt) else auditApplicationSessionEnds
  | Err e => Ret (Err e)
  end.

(** ** Authority (application_authority.go) *)

Definition accountAccessError (u : User) : prog (result unit) :=
  policy <-? call_ ALockoutPolicy;
  now <- call_ ANow;
  let '(msg, refuse) := Refusal (Account.Evaluate (InputFromUser u) now policy) in
  fail! refuse, ErrText msg;
  Ret (Ok tt).

Definition applicationAuthorization (u : User) (a : Application) : prog (result (Z * string)) :=
  q <- retryApplicationRevocationQuarantine;
  fail! fst q, errApplicationDenied;
  fail! negb (ap_Enabled a), errApplicationDenied;
  access <- accountAccessError u;
  match access with
  | Err _ => Ret (Err errApplicationDenied)
  | Ok _ =>
      fail! u_MustChangePassword u || negb (u_TOTPEnabled u), errApplicationDenied;
      grants <-? call_ (AGrants (ap_ID a));
      roles <-? call_ (ARoles (u_ID u));
      groups <-? call_ (AGroups (u_ID u));
      member <-? (if bool_decide (u_AuthProvider u = AuthProviderLDAP) then call_ (AMembership u) else Ret (Ok (mkMembership [] "" "")));
      fail! negb (granted u roles groups member grants), errApplicationDenied;
      revision <-? call_ (ARevision (u_ID u));
      Ret (Ok (revision, me_Fingerprint member))
  end.

Definition checkApplicationSession (a : Application) (ss : ApplicationSession) (touch : bool) : prog (result unit) :=
  _ <-? checkApplicationPendingRevocation (as_ID ss);
  now <- call_ ANow;
  fail! negb (live ss) || negb (bool_decide (as_ApplicationID ss = ap_ID a)) || negb (as_ConfigVersion ss =? ap_ConfigVersion a), errApplicationDenied;
  anchor <- call_ (AAnchor (as_AnchorID ss));
  match anchor with
  | Err _ => Ret (Err errApplicationDenied)
  | Ok anchor =>
      fail! negb (bool_decide (an_RevokedAt anchor = None)) || negb (bool_decide (an_UserID anchor = as_UserID ss)), errApplicationDenied;
      user <- call_ (AUser (as_UserID ss));
      match user with
      | Err _ => Ret (Err errApplicationDenied)
      | Ok u =>
          fail! negb (u_TokenGeneration u =? an_TokenGeneration anchor), errApplicationDenied;
          config <- call_ AConfig;
          let policy := applicationPolicy config in
          let max := an_CompletedMFAAt anchor + i64 (po_MaxSeconds policy * Second) in
          let reason := if negb (Before now (as_ExpiresAt ss)) || negb (Before now max) then "expired_absolute"
                        else if i64 (po_IdleSeconds policy * Second) <? time_sub now (as_LastSeenAt ss) then "expired_idle" else "" in
          if negb (bool_decide (reason = "")) then _ <- call_ (AStore (OEnd (as_ID ss) reason now)); Ret (Err errApplicationDenied) else
          auth <- applicationAuthorization u a;
          match auth with
          | Err e =>
              over <- call_ ACancelled;
              if (over : bool) then Ret (Err e) else _ <- persistApplicationAccessChanged (as_ID ss) now; Ret (joined e)
          | Ok (revision, fingerprint) =>
              if negb (revision =? as_AccessRevision ss) || negb (bool_decide (fingerprint = as_DirectoryFingerprint ss))
              then _ <- persistApplicationAccessChanged (as_ID ss) now; Ret (joined errApplicationDenied) else
              _ <-? checkApplicationPendingRevocation (as_ID ss);
              if touch then call_ (AStore (OTouch (as_ID ss) now)) else Ret (Ok tt)
          end
      end
  end.

(** ** Launches (handlers_applications.go, application_proxy.go) *)

(** [ToPortal]: the answer of [applicationPortalRedirect], a redirection to the launch
    of the application with that path in its query. *)
Inductive areply := Refused (status : Z) | Launched (ticket path : string) | Redirected (path credential : string) | ToPortal (app path : string) | Proxied | Ended.

(** The account and the session are those of the authenticated request; [body]: the
    path in its body, if that decodes. *)
Definition handleApplicationLaunch (user sid app : string) (body : option string) : prog areply :=
  found <- call_ (AApplication app);
  match found with
  | Err _ => Ret (Refused 404)
  | Ok a =>
      account <- call_ (AUser user);
      match account with
      | Err _ => Ret (Refused 403)
      | Ok u =>
          auth <- applicationAuthorization u a;
          match auth with
          | Err _ => Ret (Refused 403)
          | Ok (revision, fp) =>
              source <- call_ (ASource sid);
              match source with
              | Err _ => Ret (Refused 403)
              | Ok source =>
                  if negb (bool_decide (s_Kind source = SessionKindWeb)) then Ret (Refused 403) else
                  config <- call_ AConfig;
                  now <- call_ ANow;
                  if negb (Before now (s_CreatedAt source + i64 (po_MaxSeconds (applicationPolicy config) * Second))) then Ret (Refused 401) else
                  match match body with Some path => applicationPath path | None => Err errApplicationDenied end with
                  | Err _ => Ret (Refused 400)
                  | Ok path =>
                      let anchor := mkAnchor sid (u_ID u) (s_CreatedAt source) (u_TokenGeneration u) None "" in
                      inserted <- call_ (AStore (OAnchor anchor));
                      stored <- (match inserted with Ok _ => call_ (AAnchor sid) | Err e => Ret (Err e) end);
                      match stored with
                      | Err _ => Ret (Refused 403)
                      | Ok stored =>
                          if negb (anchorMatches stored anchor) then Ret (Refused 403) else
                          secret <- call_ ASecret;
                          match secret with
                          | Err _ => Ret (Refused 500)
                          | Ok ticket =>
                              now <- call_ ANow;
                              created <- call_ (AStore (OTicket (mkTicket (SecurityDigest ticket) (ap_ID a) (u_ID u) sid (ap_PublicHostname a) path fp (ap_ConfigVersion a)
                                                                   revision (now + 30 * Second))));
                              match created with
                              | Err _ => Ret (Refused 500)
                              | Ok _ => _ <- applicationAudit; Ret (Launched ticket path)
                              end
                          end
                      end
                  end
              end
          end
      end
  end.

Definition ended (id : string) (reply : areply) : prog areply :=
  now <- call_ ANow;
  _ <- call_ (AStore (OEnd id "launch_denied" now));
  _ <- applicationAudit;
  Ret reply.
(** [allowed]: a POST from the portal; [form]: its ticket, if the body is a form. *)
Definition exchangeApplicationLaunch (a : Application) (allowed : bool) (form : option string) : prog areply :=
  if negb allowed then Ret (Refused 403) else
  match form with
  | None => Ret (Refused 400)
  | Some ticket =>
      if negb (len ticket =? 43) then Ret (Refused 403) else
      secret <- call_ ASecret;
      match secret with
      | Err _ => Ret (Refused 500)
      | Ok credential =>
          now <- call_ ANow;
          meta <- call_ (ATicket (SecurityDigest ticket) (ap_PublicHostname a) now);
          match meta with
          | Err _ => Ret (Refused 403)
          | Ok meta =>
              anchor <- call_ (AAnchor (tk_AnchorID meta));
              match anchor with
              | Err _ => Ret (Refused 403)
              | Ok anchor =>
                  if negb (bool_decide (an_RevokedAt anchor = None)) then Ret (Refused 403) else
                  config <- call_ AConfig;
                  let expires := an_CompletedMFAAt anchor + i64 (po_MaxSeconds (applicationPolicy config) * Second) in
                  now <- call_ ANow;
                  if negb (Before now expires) then Ret (Refused 401) else
                  id <- call_ AUUID;
                  now <- call_ ANow;
                  consumed <- call_ (AConsume (SecurityDigest ticket) (ap_PublicHostname a) id (SecurityDigest credential) expires now);
                  match consumed with
                  | Err _ => Ret (Refused 403)
                  | Ok path =>
                      match applicationPath path with
                      | Err _ => ended id (Refused 400)
                      | Ok path =>
                          row <- call_ (ASession (SecurityDigest credential));
                          match row with
                          | Err _ => ended id (Refused 403)
                          | Ok ss =>
                              checked <- checkApplicationSession a ss false;
                              match checked with
                              | Err _ => ended id (Refused 403)
                              | Ok _ => Ret (Redirected path credential)
                              end
                          end
                      end
                  end
              end
          end
      end
  end.

(** ** Requests *)

(** What runs beside a request that is served: every second the authority is
    checked again. *)
Fixpoint watchApplication (ticks : nat) (request app session : string) : prog unit :=
  match ticks with
  | O => Ret tt
  | S ticks =>
      tick <- call_ ATick;
      if negb tick then Ret tt else
      current <- call_ (AApplication app);
      fresh <- call_ (ASessionByID session);
      checked <- (match current, fresh with
                  | Ok a, Ok ss => checkApplicationSession a ss false
                  | Err e, _ | _, Err e => Ret (Err e)
                  end);
      match checked with
      | Ok _ => watchApplication ticks request app session
      | Err _ => _ <- call_ (ACancel request); _ <- auditApplicationSessionEnds; Ret tt
      end
  end.
Definition applicationUnauthenticated (r : AppRequest) (a : Application) : prog areply :=
  _ <- applicationAudit;
  Ret (if bool_decide (rq_method r ∈ ["GET"; "HEAD"]) && rq_document r
       then match applicationPath (rq_uri r) with Err _ => Refused 400 | Ok path => ToPortal (ap_ID a) path end
       else Refused 401).
(** [backend]: none when the hub has no dialer; whether the application's backend is
    configured well. *)
Definition serveApplication (r : AppRequest) (a : Application) (backend : option bool) : prog areply :=
  match uniqueApplicationCookie r with
  | Err _ => applicationUnauthenticated r a
  | Ok credential =>
      row <- call_ (ASession (SecurityDigest credential));
      match row with
      | Err _ => applicationUnauthenticated r a
      | Ok ss =>
          checked <- checkApplicationSession a ss false;
          match checked with
          | Err _ => applicationUnauthenticated r a
          | Ok _ =>
              if negb (appRequestOriginAllowed r (ap_PublicHostname a)) || bool_decide (rq_method r = "CONNECT") || rq_absolute r
              then _ <- applicationAudit; Ret (Refused 403) else
              match applicationPath (rq_uri r) with
              | Err _ => Ret (Refused 400)
              | Ok _ =>
                  match backend with
                  | None => Ret (Refused 503)
                  | Some backend =>
                      request <- call_ AUUID;
                      admitted <- call_ (ARegister request (as_ID ss) (ap_ID a));
                      if negb admitted then Ret (Refused 429) else
                      reply <- (if negb backend then Ret (Refused 502) else
                                now <- call_ ANow;
                                touched <- call_ (AStore (OTouch (as_ID ss) now));
                                match touched with
                                | Err _ => Ret (Refused 503)
                                | Ok _ => _ <- call_ (AForward (as_ID ss) (ap_ID a)); Ret Proxied
                                end);
                      _ <- call_ (ARemove request);
                      Ret reply
                  end
              end
          end
      end
  end.

Definition handleApplicationSessionEnd (user id : string) : prog areply :=
  found <- call_ (ASessionByID id);
  match found with
  | Err _ => Ret (Refused 404)
  | Ok ss =>
      if negb (bool_decide (as_UserID ss = user)) then Ret (Refused 404) else
      now <- call_ ANow;
      done <- call_ (AStore (OEnd id "revoked_self" now));
      match done with
      | Err _ => Ret (Refused 500)
      | Ok _ => _ <- call_ (ACloseSession id); _ <- applicationAudit; Ret Ended
      end
  end.

Definition gatewayPath (r : AppRequest) : bool :=
  match unescape (beforeQuery (bytes (rq_uri r))) with Some path => HasPrefix (string_of_bytes path) "/_veyport/" | None => false end.
(** The part of [applicationHostRouter] behind an application's own host;
    [launch]: the request is for the route of launches. *)
Definition applicationHost (host : string) (launch : option (bool * option string)) (r : AppRequest) (backend : option bool) : prog areply :=
  found <- call_ (AByHost host);
  match found with
  | Err _ => Ret (Refused 404)
  | Ok a =>
      match launch with
      | Some (allowed, form) => exchangeApplicationLaunch a allowed form
      | None => if gatewayPath r then Ret (Refused 404) else serveApplication r a backend
      end
  end.

(** The part of [runSessionPrune] on applications (session_prune.go). *)
Definition runSessionPrune (retention : Duration) : prog (result unit) :=
  _ <-? retryPendingApplicationRevocations;
  config <- call_ AConfig;
  let policy := applicationPolicy config in
  now <- call_ ANow;
  _ <-? call_ (AStore (OExpire now (i64 (po_IdleSeconds policy * Second)) (i64 (po_MaxSeconds policy * Second))));
  _ <- auditApplicationSessionEnds;
  now <- call_ ANow;
  _ <-? call_ (AStore (OPrune now retention));
  _ <- auditApplicationSessionEnds;
  Ret (Ok tt).
