(* ===== verification/AppAdmin.v ===== *)
(** Access to web applications, its administration and its portal page
    (hub/internal/server/handlers_applications.go): applications, grants, groups and
    settings as administrators change them, the deletion of an application, and the
    list of applications an account is shown.

    What net/url, crypto/x509 and strings.ToLower compute is a parameter. *)

From stdpp Require Import sorting.
From S2P Require Import Prelude Prog Codec Filepath Lockout Model Account Governance NetAddr AppTarget AppStore AppAccess.
Local Open Scope prog_scope.

(** [url.Parse]; [ur_Hostname] in lower case. *)
Record URL := mkURL {
  ur_Scheme : string; ur_Host : string; ur_Hostname : string; ur_Port : string; ur_User : bool; ur_RawQuery : string; ur_ForceQuery : bool; ur_Fragment : string;
  ur_Opaque : string; ur_EscapedPath : string;
}.

(** ** The portal page *)

Inductive preply :=
| PRefused (status : Z) | PApplication (a : Application) | PGrants (grants : list ApplicationGrant) (version : Z) | PGroup (g : ApplicationGroup)
| PPolicy (p : AppPolicy) | PDeleted | PList (apps : list Application).

(** The claims of an account. *)
Definition claims_of (u : User) (roles groups : list string) (member : ApplicationMembership) : list ApplicationGrant :=
  mkGrant "user" (u_ID u) :: ((fun g => mkGrant "local_group" g) <$> groups) ++ ((fun r => mkGrant "role" r) <$> filter (fun r => directory_role u r = false) roles)
  ++ (if bool_decide (u_AuthProvider u = AuthProviderLDAP)
      then (if bool_decide (me_Role member = "") then [] else [mkGrant "role" (me_Role member)]) ++ ((fun g => mkGrant "directory_group" g) <$> me_Groups member)
      else []).
Definition handleApplications (user : string) : prog preply :=
  account <- call_ (AUser user);
  match account with
  | Err _ => Ret (PRefused 403)
  | Ok u =>
      access <- accountAccessError u;
      match access with
      | Err _ => Ret (PRefused 403)
      | Ok _ =>
          roles <- call_ (ARoles (u_ID u));
          match roles with
          | Err _ => Ret (PRefused 500)
          | Ok roles =>
              groups <- call_ (AGroups (u_ID u));
              match groups with
              | Err _ => Ret (PRefused 500)
              | Ok groups =>
                  member <- (if bool_decide (u_AuthProvider u = AuthProviderLDAP) then call_ (AMembership u) else Ret (Ok (mkMembership [] "" "")));
                  match member with
                  | Err _ => Ret (PRefused 503)
                  | Ok member =>
                      apps <- call_ (AListed (claims_of u roles groups member));
                      Ret (match apps with Ok apps => PList apps | Err _ => PRefused 500 end)
                  end
              end
          end
      end
  end.

(** ** Administration *)

Section admin.
Context (url_Parse : string → option URL) (certificates : string → bool) (ToLower : string → string).
Context (applicationDomain applicationPortalOrigin : string).

(** ^[a-z0-9](?:[a-z0-9-]{0,61}[a-z0-9])?$ *)
Definition slug_end (b : Z) : bool := between 97 122 b || between 48 57 b.
Definition applicationSlug (slug : string) : bool :=
  let l := bytes slug in
  (len slug <=? 63) && forallb label_byte l
  && match head l, last l with Some x, Some y => slug_end x && slug_end y | _, _ => false end.
Definition applicationTarget (a : Application) : result Target :=
  match url_Parse (ap_BackendURL a) with
  | None => Err (ErrText "parse")
  | Some u =>
      let port := if bool_decide (ur_Port u = "") then if bool_decide (ur_Scheme u = "https") then "443" else "80" else ur_Port u in
      match ParseUint16 port with
      | None => Err (ErrText "strconv.ParseUint")
      | Some n =>
          let t := mkTarget (ap_ID a) (ap_ConfigVersion a) (ap_NodeID a) (ur_Scheme u) (ur_Hostname u) n (ap_AllowedCIDRs a) in
          _ <-! ValidateTarget t; Ok t
      end
  end.
Definition set_host (a : Application) (host : string) : Application :=
  mkApplication (ap_ID a) (ap_Name a) (ap_Slug a) (ap_Description a) host (ap_Route a) (ap_NodeID a) (ap_BackendURL a) (ap_AllowedCIDRs a)
    (ap_CAPEM a) (ap_Enabled a) (ap_ConfigVersion a) (ap_CreatedAt a) (ap_UpdatedAt a).
Definition backend_ok (raw : string) (u : URL) : bool :=
  negb (bool_decide (ur_Host u = "")) && negb (ur_User u) && bool_decide (ur_RawQuery u = "") && negb (ur_ForceQuery u) && bool_decide (ur_Fragment u = "")
  && bool_decide (ur_Opaque u = "") && negb (ContainsAnyByte raw forbidden).
(** The part that needs no store; the application with what was set in it. *)
Definition validateBackend (a : Application) : result Application :=
  match url_Parse (ap_BackendURL a) with
  | None => Err (ErrText "backend URL must be HTTP/HTTPS with an optional path prefix, without credentials, query or fragment")
  | Some u =>
      check! negb (backend_ok (ap_BackendURL a) u), ErrText "backend URL must be HTTP/HTTPS with an optional path prefix, without credentials, query or fragment";
      check! negb (is_ok (applicationPath (ur_EscapedPath u))), ErrText "invalid backend path prefix";
      let a := if ap_ConfigVersion a <? 1 then set_version a 1 (ap_UpdatedAt a) else a in
      check! negb (is_ok (applicationTarget a)), ErrText "invalid backend target or allowed CIDRs";
      check! 65536 <? len (ap_CAPEM a), ErrText "CA exceeds64KiB";
      check! negb (bool_decide (ap_CAPEM a = "")) && (negb (bool_decide (ur_Scheme u = "https")) || negb (certificates (ap_CAPEM a))), ErrText "invalid HTTPS CA trust";
      Ok a
  end.
Definition validateApplication (a : Application) : prog (result Application) :=
  fail! bool_decide (applicationDomain = "") || bool_decide (applicationPortalOrigin = ""), ErrText "application domain and portal origin must be configured";
  fail! (len (ap_Name a) <? 1) || (120 <? len (ap_Name a)) || (1000 <? len (ap_Description a)) || negb (applicationSlug (ap_Slug a)),
        ErrText "invalid application name, description or slug";
  let a := set_host a (ap_Slug a +:+ "." +:+ applicationDomain) in
  fail! negb (bool_decide (ap_Route a ∈ ["hub"; "node"])), ErrText "route must be hub or node";
  routed <- (if bool_decide (ap_Route a = "node")
             then enrolled <- call_ (AEnrolled (ap_NodeID a)); Ret (if (enrolled : bool) then Ok tt else Err (ErrText "select an enrolled node"))
             else Ret (if bool_decide (ap_NodeID a = "") then Ok tt else Err (ErrText "hub route must not specify a node")));
  match routed with
  | Err e => Ret (Err e)
  | Ok _ => Ret (validateBackend a)
  end.

Definition handleApplicationCreate (body : option Application) : prog preply :=
  match body with
  | None => Ret (PRefused 400)
  | Some a =>
      id <- call_ AUUID;
      valid <- validateApplication (mkApplication id (ap_Name a) (ap_Slug a) (ap_Description a) (ap_PublicHostname a) (ap_Route a) (ap_NodeID a) (ap_BackendURL a)
                                      (ap_AllowedCIDRs a) (ap_CAPEM a) (ap_Enabled a) (ap_ConfigVersion a) (ap_CreatedAt a) (ap_UpdatedAt a));
      match valid with
      | Err _ => Ret (PRefused 400)
      | Ok a =>
          now <- call_ ANow;
          created <- call_ (AStore (OCreate a now));
          match created with
          | Err _ => Ret (PRefused 409)
          | Ok _ => _ <- applicationAudit; Ret (PApplication a)
          end
      end
  end.
(** [body]: the application of the body and its expected_version. *)
Definition handleApplicationUpdate (id : string) (body : option (Application * Z)) : prog preply :=
  match body with
  | None => Ret (PRefused 400)
  | Some (req, expected) =>
      found <- call_ (AApplication id);
      match found with
      | Err _ => Ret (PRefused 404)
      | Ok a =>
          let expected := if expected =? 0 then ap_ConfigVersion req else expected in
          valid <- validateApplication (mkApplication (ap_ID a) (ap_Name req) (ap_Slug req) (ap_Description req) (ap_PublicHostname req) (ap_Route req) (ap_NodeID req)
                                          (ap_BackendURL req) (ap_AllowedCIDRs req) (ap_CAPEM req) (ap_Enabled req) (ap_ConfigVersion req) (ap_CreatedAt a) (ap_UpdatedAt req));
          match valid with
          | Err _ => Ret (PRefused 400)
          | Ok req =>
              now <- call_ ANow;
              updated <- call_ (AStore (OUpdate req expected now));
              match updated with
              | Err _ => Ret (PRefused 409)
              | Ok _ => _ <- call_ (ACloseApp (ap_ID a)); _ <- applicationAudit; Ret (PApplication req)
              end
          end
      end
  end.
Definition handleApplicationDelete (id : string) : prog preply :=
  now <- call_ ANow;
  begun <- call_ (AStore (OBeginDelete id now));
  match begun with
  | Err _ => Ret (PRefused 500)
  | Ok _ =>
      _ <- call_ (ACloseApp id);
      audited <- auditApplicationSessionEnds;
      match audited with
      | Err _ => Ret (PRefused 503)
      | Ok _ =>
          pending <- call_ (APendingAudits id);
          match pending with
          | Ok O =>
              deleted <- call_ (AStore (ODelete id));
              match deleted with
              | Err _ => Ret (PRefused 500)
              | Ok _ => _ <- call_ (ACloseApp id); _ <- applicationAudit; Ret PDeleted
              end
          | _ => Ret (PRefused 503)
          end
      end
  end.

(** ** Grants, groups and settings *)

Definition handleApplicationGrants (id : string) : prog preply :=
  found <- call_ (AApplication id);
  match found with
  | Err _ => Ret (PRefused 404)
  | Ok a =>
      g <- call_ (AGrants (ap_ID a));
      Ret (match g with Ok g => PGrants g (ap_ConfigVersion a) | Err _ => PRefused 500 end)
  end.
Definition grant_key (g : ApplicationGrant) : string := gr_Kind g +:+ ":" +:+ gr_SubjectID g.
Definition validGrant (g : ApplicationGrant) : prog bool :=
  if bool_decide (gr_Kind g = "user") then u <- call_ (AUser (gr_SubjectID g)); Ret (is_ok u)
  else if bool_decide (gr_Kind g = "role") then
    Ret (IsValidRole (gr_SubjectID g) || bool_decide (gr_SubjectID g ∈ [RoleSecurityOfficer; RoleSecurityApprover; RoleOriginalReader]))
  else if bool_decide (gr_Kind g = "local_group") then group <- call_ (AGroup (gr_SubjectID g)); Ret (is_ok group)
  else if bool_decide (gr_Kind g = "directory_group") then
    Ret (bool_decide (gr_SubjectID g = ToLower (TrimSpace (gr_SubjectID g))) && negb (ContainsAnyByte (gr_SubjectID g) [0; 13; 10]))
  else Ret false.
Fixpoint validEach (grants : list ApplicationGrant) (seen : list string) : prog bool :=
  match grants with
  | [] => Ret true
  | g :: grants =>
      if bool_decide (gr_SubjectID g = "") || (1024 <? len (gr_SubjectID g)) || bool_decide (grant_key g ∈ seen) then Ret false else
      ok <- validGrant g;
      if (ok : bool) then validEach grants (grant_key g :: seen) else Ret false
  end.
Definition validApplicationGrants (grants : list ApplicationGrant) : prog bool :=
  if (500 <? length grants)%nat then Ret false else validEach grants [].
Definition handleApplicationGrantsUpdate (id : string) (body : option (list ApplicationGrant * Z)) : prog preply :=
  match body with
  | None => Ret (PRefused 400)
  | Some (grants, expected) =>
      valid <- validApplicationGrants grants;
      if negb valid then Ret (PRefused 400) else
      now <- call_ ANow;
      found <- call_ (AApplication id);
      replaced <- (match found with Ok a => call_ (AStore (OGrants a id grants expected now)) | Err e => Ret (Err e) end);
      match replaced with
      | Err _ => Ret (PRefused 409)
      | Ok _ => _ <- call_ (ACloseApp id); _ <- applicationAudit; handleApplicationGrants id
      end
  end.
(** [id]: the group of the path, or none to make one; [body]: name, members and
    expected_version.  The answer has the members as they were sent. *)
Definition putApplicationGroup (id : option string) (body : option (string * list string * Z)) : prog preply :=
  match body with
  | None => Ret (PRefused 400)
  | Some (name, users, expected) =>
      if bool_decide (name = "") || (120 <? len name) || (500 <? length users)%nat then Ret (PRefused 400) else
      gid <- (match id with Some id => Ret id | None => call_ AUUID end);
      let expected := match id with Some _ => expected | None => 0 end in
      clock <- call_ ANow;
      put <- call_ (AStore (OGroup gid name users expected clock));
      match put with
      | Err _ => Ret (PRefused 409)
      | Ok _ => _ <- applicationAudit; Ret (PGroup (mkGroup gid name users (if expected =? 0 then 1 else expected + 1)))
      end
  end.
Definition handleApplicationGroupDelete (id : string) : prog preply :=
  clock <- call_ ANow;
  deleted <- call_ (AStore (ODeleteGroup id clock));
  match deleted with
  | Err _ => Ret (PRefused 500)
  | Ok _ => _ <- applicationAudit; Ret PDeleted
  end.
(** [encoded]: the JSON text of the new policy. *)
Definition handleApplicationSettingsUpdate (body : option (AppPolicy * Z)) (encoded : AppPolicy → string) : prog preply :=
  match body with
  | None => Ret (PRefused 400)
  | Some (req, expected) =>
      if (po_IdleSeconds req <? 60) || (po_MaxSeconds req <? 300) || (86400 <? po_MaxSeconds req) || (po_MaxSeconds req <? po_IdleSeconds req) then Ret (PRefused 400) else
      config <- call_ AConfig;
      let old := applicationPolicy config in
      if negb (po_Version old =? expected) then Ret (PRefused 409) else
      let policy := mkAppPolicy (po_IdleSeconds req) (po_MaxSeconds req) (i64 (po_Version old + 1)) in
      put <- call_ (AStore (OPolicy expected (po_Version policy) (encoded policy)));
      match put with
      | Err _ => Ret (PRefused 409)
      | Ok _ => _ <- applicationAudit; Ret (PPolicy policy)
      end
  end.
End admin.

(** ** Requests *)

(** How a hub is configured, and what the libraries compute there. *)
Record Site := mkSite {
  si_Parse : string → option URL; si_certificates : string → bool; si_ToLower : string → string; si_encoded : AppPolicy → string; si_domain : string; si_portal : string;
}.
Inductive admin_request :=
| RCreate (body : option Application) | RUpdate (id : string) (body : option (Application * Z)) | RDelete (id : string) | RGrants (id : string)
| RGrantsUpdate (id : string) (body : option (list ApplicationGrant * Z)) | RGroup (id : option string) (body : option (string * list string * Z))
| RGroupDelete (id : string) | RSettings (body : option (AppPolicy * Z)) | RApplications (user : string).
Definition admin_handler (s : Site) (r : admin_request) : prog preply :=
  match r with
  | RCreate body => handleApplicationCreate (si_Parse s) (si_certificates s) (si_domain s) (si_portal s) body
  | RUpdate id body => handleApplicationUpdate (si_Parse s) (si_certificates s) (si_domain s) (si_portal s) id body
  | RDelete id => handleApplicationDelete id
  | RGrants id => handleApplicationGrants id
  | RGrantsUpdate id body => handleApplicationGrantsUpdate (si_ToLower s) id body
  | RGroup id body => putApplicationGroup id body
  | RGroupDelete id => handleApplicationGroupDelete id
  | RSettings body => handleApplicationSettingsUpdate body (si_encoded s)
  | RApplications user => handleApplications user
  end.

(** ** The page shows what may be launched *)

Lemma role_held u roles role : existsb (fun r => negb (directory_role u r) && bool_decide (r = role)) roles = bool_decide (directory_role u role = false ∧ role ∈ roles).
Proof.
  apply eq_bool_prop_intro. rewrite !Is_true_true, existsb_exists, bool_decide_eq_true. setoid_rewrite andb_true_iff. setoid_rewrite bool_decide_eq_true.
  setoid_rewrite negb_true_iff. setoid_rewrite <- list_elem_of_In. naive_solver.
Qed.
Lemma grant_in_claims u roles groups member g : gr_SubjectID g ≠ "" → g ∈ claims_of u roles groups member ↔ grant_allows u roles groups member g = true.
Proof.
  destruct g as [kind subject]. cbn. intros Hne. unfold claims_of, grant_allows. cbn [gr_Kind gr_SubjectID]. rewrite role_held.
  rewrite elem_of_cons, !elem_of_app, !list_elem_of_fmap. setoid_rewrite list_elem_of_filter.
  assert (Hd : ∀ x, x ∈ (if bool_decide (u_AuthProvider u = AuthProviderLDAP)
      then (if bool_decide (me_Role member = "") then [] else [mkGrant "role" (me_Role member)]) ++ ((fun g => mkGrant "directory_group" g) <$> me_Groups member) else [])
    ↔ u_AuthProvider u = AuthProviderLDAP ∧ ((me_Role member ≠ "" ∧ x = mkGrant "role" (me_Role member)) ∨ ∃ g, x = mkGrant "directory_group" g ∧ g ∈ me_Groups member)).
  { intros x. case_bool_decide; [|rewrite elem_of_nil; tauto]. rewrite elem_of_app, list_elem_of_fmap. case_bool_decide; rewrite ?elem_of_nil, ?list_elem_of_singleton; tauto. }
  rewrite Hd. clear Hd. repeat case_bool_decide; subst; cbn [orb andb]; naive_solver.
Qed.

(** The portal page of an account shows exactly the enabled applications that the
    authorization of a launch would grant it, for the same roles, groups and directory
    membership. *)
Theorem portal_shows_granted u roles groups member d a :
  (∀ id g, g ∈ ApplicationGrants id d → gr_SubjectID g ≠ "") →
  a ∈ ListAuthorizedApplications (claims_of u roles groups member) d
  ↔ ∃ id r, d_apps d !! id = Some r ∧ ar_config r = a ∧ ar_enabled r = true ∧ granted u roles groups member (ApplicationGrants id d) = true.
Proof.
  intros Hne. unfold ListAuthorizedApplications. rewrite list_elem_of_fmap. unfold granted.
  assert (He : ∀ id, existsb (fun g => bool_decide (g ∈ claims_of u roles groups member)) (ApplicationGrants id d) = existsb (grant_allows u roles groups member) (ApplicationGrants id d)).
  { intros id. apply eq_bool_prop_intro. rewrite !Is_true_true, !existsb_exists. setoid_rewrite bool_decide_eq_true. setoid_rewrite <- list_elem_of_In.
    split; intros (g & Hg & H); exists g; (split; [done|]); by apply (grant_in_claims u roles groups member g (Hne id g Hg)). }
  split.
  - intros ([id r] & -> & Hin). rewrite (merge_sort_Permutation name_order) in Hin. apply list_elem_of_filter in Hin as [[Hen Hg] Hin].
    apply elem_of_map_to_list in Hin. rewrite He in Hg. by exists id, r.
  - intros (id & r & Hd & <- & Hen & Hg). exists (id, r). split; [done|]. rewrite (merge_sort_Permutation name_order), list_elem_of_filter, elem_of_map_to_list.
    by rewrite He.
Qed.

Module PortalDemo.
Definition start : Time := unix_epoch + 1000 * Second.
Definition user : User :=
  mkUser "u" "ann" "" "" "viewer" "local" "" "" "" None false None true 0 false 0 0 [] [] "" None false None 0 None None None None None None true None "" start start.
Definition app : Application := mkApplication "a" "Wiki" "wiki" "" "wiki.apps" "hub" "" "http://wiki" [] "" true 1 start start.
Definition db : AppDB := mkAppDB {["a" := row_of app false]} {["a" := [mkGrant "local_group" "staff"]]} ∅ [] ∅ ∅ ∅ ∅ ∅ [] None ∅ ∅.
End PortalDemo.

Lemma portal_shows_granted_witness : PortalDemo.app ∈ ListAuthorizedApplications (claims_of PortalDemo.user [] ["staff"] (mkMembership [] "" "")) PortalDemo.db.
Proof.
  apply (portal_shows_granted PortalDemo.user [] ["staff"] (mkMembership [] "" "") PortalDemo.db PortalDemo.app).
  - intros id g. unfold ApplicationGrants. cbn. destruct (decide (id = "a")) as [->|Hne].
    + rewrite lookup_singleton_eq. cbn. intros ->%list_elem_of_singleton. done.
    + rewrite lookup_singleton_ne by congruence. intros H. by apply not_elem_of_nil in H.
  - exists "a", (row_of PortalDemo.app false). split_and!; reflexivity.
Defined.
