(* ===== verification/AppProtocol.v ===== *)
(** Runs of the hub's application access (AppAccess.v): any number of requests,
    call by call, with changes of applications, grants, groups, accounts and roles
    in between, with calls that fail, statements that take effect although they
    report an error, and restarts of the hub.

    [h_log] and [h_born] are not state of the program: the log has what was read
    and done, each with the number of the request and the tables of that moment,
    the latest first; [h_born] says what a session identifier was given out for. *)

From S2P Require Import Prelude Prog Codec Filepath Lockout Model Account Governance AppStore AppAccess AppAdmin.
Local Open Scope prog_scope.

(** ** The hub *)

Inductive afact :=
| FSession (s : ApplicationSession)                  (* the row was read *)
| FCleared (id : string)                             (* it was live and not to be revoked *)
| FDenied (id : string)                              (* its access was found to have changed *)
| FForward (session app : string)
| FUser (u : User)
| FGrants (app : string) (grants : list ApplicationGrant)
| FRoles (user : string) (roles : list string)
| FGroups (user : string) (groups : list string)
| FMember (user : string) (m : ApplicationMembership)
| FRevision (user : string) (n : Z).

(** The application, account, login, credential and access revision of a session. *)
Definition ident (s : ApplicationSession) : string * string * string * string * Z :=
  (as_ApplicationID s, as_UserID s, as_AnchorID s, as_CredentialDigest s, as_AccessRevision s).

Record AppHub := mkAppHub {
  h_db : AppDB; h_rev : Revocations; h_streams : Streams; h_born : gmap string (string * string * string * string * Z); h_log : list (nat * afact * AppDB);
}.
Definition on_db (w : AppHub) v := mkAppHub v (h_rev w) (h_streams w) (h_born w) (h_log w).
Definition on_rev (w : AppHub) v := mkAppHub (h_db w) v (h_streams w) (h_born w) (h_log w).
Definition on_streams (w : AppHub) v := mkAppHub (h_db w) (h_rev w) v (h_born w) (h_log w).
Definition born (w : AppHub) id s := mkAppHub (h_db w) (h_rev w) (h_streams w) (<[id := ident s]> (h_born w)) (h_log w).
Definition note (w : AppHub) (request : nat) (fs : list afact) := mkAppHub (h_db w) (h_rev w) (h_streams w) (h_born w) (((fun f => (request, f, h_db w)) <$> fs) ++ h_log w).

Record AOracle := mkAOracle {
  ao_fail : option goerr; ao_late : option goerr; ao_now : Time; ao_id : string; ao_secret : result string; ao_over : bool; ao_tick : bool;
  ao_config : result (option AppPolicy); ao_policy : result Policy; ao_source : result Session; ao_member : result ApplicationMembership; ao_flushed : nat; ao_enrolled : bool;
}.

Definition afailing {A} (o : AOracle) (r : result A) : result A := match ao_fail o with Some e => Err e | None => r end.
Definition reported (o : AOracle) : result unit := match ao_late o with Some e => Err e | None => Ok tt end.
(** A statement that fails leaves the tables; one whose commit is lost has not. *)
Definition stored_op (o : AOracle) (w : AppHub) (op : store_op) : AppHub * result unit :=
  match afailing o (transact op (h_db w)) with
  | Ok d => (on_db w d, reported o)
  | Err e => (w, Err e)
  end.

(** The section that ends the session of a pending revocation. *)
Definition end_pending (o : AOracle) (w : AppHub) (id : string) (at_ : Time) : AppHub * result unit :=
  let w := on_streams w (closeSession id (h_streams w)) in
  let '(w, r) := stored_op o w (OEnd id "access_changed" at_) in
  (match r with Ok _ => on_rev w (settle id (h_rev w)) | Err _ => w end, r).
Definition flushed (w : AppHub) (ids : list (string * Time)) : AppHub :=
  foldl (fun w x => on_rev (on_db w (EndApplicationSession (fst x) "access_changed" (snd x) (h_db w))) (settle (fst x) (h_rev w))) w ids.

Definition aanswer (request : nat) (o : AOracle) (w : AppHub) {B} (c : acall B) : AppHub * B :=
  let d := h_db w in
  match c in acall B return AppHub * B with
  | ANow => (w, ao_now o)
  | AUUID => (w, ao_id o)
  | ASecret => (w, ao_secret o)
  | ACancelled => (w, ao_over o)
  | ATick => (w, ao_tick o)
  | AConfig => (w, ao_config o)
  | ALockoutPolicy => (w, ao_policy o)
  | AApplication id => (w, afailing o (GetApplication id d))
  | AByHost host => (w, afailing o (GetApplicationByHost host d))
  | AUser id => (w, afailing o (match d_users d !! id with Some u => Ok u | None => Err errNoRows end))
  | ASource sid => (w, ao_source o)
  | AGrants app => (w, afailing o (Ok (ApplicationGrants app d)))
  | ARoles user => (w, afailing o (Ok (snd <$> filter (fun '(u, _) => u = user) (d_roles d))))
  | AGroups user => (w, afailing o (Ok (ApplicationLocalMemberships user d)))
  | AMembership u => (w, ao_member o)
  | ARevision user => (w, afailing o (Ok (ApplicationAccessRevision user d)))
  | AAnchor id => (w, afailing o (GetApplicationAnchor id d))
  | ATicket digest host now => (w, afailing o (GetApplicationTicket digest host now d))
  | ASession digest => (w, afailing o (GetApplicationSession digest d))
  | ASessionByID id => (w, afailing o (ApplicationSessionByID id d))
  | AUnaudited => (w, afailing o (Ok (UnauditedApplicationSessionEnds 100 d)))
  | AAudited id => (w, afailing o (Ok (bool_decide (id ∈ d_audits d))))
  | APendingAudits app => (w, afailing o (Ok (PendingApplicationEndAudits app d)))
  | AGroup id => (w, afailing o (GetApplicationGroup id d))
  | AEnrolled node => (w, ao_enrolled o)
  | AListed claims => (w, afailing o (Ok (ListAuthorizedApplications claims d)))
  | AStore op => stored_op o w op
  | AConsume digest host id credential expires now =>
      match afailing o (ConsumeApplicationTicket digest host id credential expires now d) with
      | Ok (d', path) =>
          (match d_sessions d' !! id with Some s => born (on_db w d') id s | None => w end, match ao_late o with Some e => Err e | None => Ok path end)
      | Err e => (w, Err e)
      end
  | AQuarantine =>
      if negb (rv_quarantine (h_rev w)) then (w, (false, Ok tt)) else
      let w := on_streams w (closeAll (h_streams w)) in
      let '(w, r) := stored_op o w (OEndAll (rv_reason (h_rev w)) (rv_observedAt (h_rev w))) in
      (match r with Ok _ => on_rev w (mkRevocations ∅ false (rv_reason (h_rev w)) (rv_observedAt (h_rev w))) | Err _ => w end, (true, r))
  | APending id =>
      if rv_quarantine (h_rev w) then (w, PQuarantined) else
      match rv_pending (h_rev w) !! id with
      | Some at_ => let '(w, r) := end_pending o w id at_ in (w, PRevoked r)
      | None => (w, PCurrent (afailing o (ApplicationSessionByID id d)))
      end
  | APersist id now =>
      let w := note (on_rev w (markLocked id now (h_rev w))) request [FDenied id] in
      if rv_quarantine (h_rev w) then (w, (true, Ok tt)) else
      let '(w, r) := end_pending o w id (default now (rv_pending (h_rev w) !! id)) in (w, (false, r))
  | AFlush =>
      let n := match ao_fail o with Some _ => Nat.min (ao_flushed o) applicationRevocationCleanupBatch | None => applicationRevocationCleanupBatch end in
      let ids := take n (map_to_list (rv_pending (h_rev w))) in
      (flushed w ids, (length ids, afailing o (Ok tt)))
  | ARegister id session app => let '(s, ok) := register id session app (h_streams w) in (on_streams w s, ok)
  | ARemove id => (on_streams w (remove id (h_streams w)), tt)
  | ACancel id => (on_streams w (mkStreams (st_active (h_streams w)) ({[id]} ∪ st_cancelled (h_streams w))), tt)
  | ACloseSession id => (on_streams w (closeSession id (h_streams w)), tt)
  | ACloseApp id => (on_streams w (closeApp id (h_streams w)), tt)
  | AForward session app => (w, tt)
  end.

(** What a program learns from an answer. *)
Definition alearned {B} (c : acall B) : B → list afact :=
  match c in acall B return B → list afact with
  | ASession _ | ASessionByID _ => fun r => match r with Ok s => [FSession s] | Err _ => [] end
  | APending id => fun r => match r with PCurrent (Ok s) => if live s then [FCleared id] else [] | _ => [] end
  | AUser _ => fun r => match r with Ok u => [FUser u] | Err _ => [] end
  | AGrants app => fun r => match r with Ok gs => [FGrants app gs] | Err _ => [] end
  | ARoles user => fun r => match r with Ok l => [FRoles user l] | Err _ => [] end
  | AGroups user => fun r => match r with Ok l => [FGroups user l] | Err _ => [] end
  | AMembership u => fun r => match r with Ok m => [FMember (u_ID u) m] | Err _ => [] end
  | ARevision user => fun r => match r with Ok n => [FRevision user n] | Err _ => [] end
  | AForward session app => fun _ => [FForward session app]
  | _ => fun _ => []
  end.
Definition aperform (request : nat) (o : AOracle) (w : AppHub) {B} (c : acall B) : AppHub * B :=
  let '(w', b) := aanswer request o w c in (note w' request (alearned c b), b).
(** An identifier is given out once. *)
Definition novel (w : AppHub) {B} (c : acall B) : bool :=
  match c with AConsume _ _ id _ _ _ => bool_decide (h_born w !! id = None) | _ => true end.

(** ** Runs *)

(** Each thread has the number of its request; [pt_count] is how many there were. *)
Record Portal := mkPortal { pt_hub : AppHub; pt_threads : list (nat * prog unit); pt_count : nat }.
Inductive aevent :=
| ELaunch (user sid app : string) (body : option string)
| EHost (host : string) (launch : option (bool * option string)) (r : AppRequest) (backend : option bool)
| EWatch (ticks : nat) (request app session : string)
| ESessionEnd (user id : string)
| EHousekeeping (retention : Duration)
| EAdmin (s : Site) (r : admin_request)                         (* administrators, and the portal page *)
| EStore (op : store_op)                                        (* account management, in one transaction *)
| ECloseApp (app : string)
| ECall (thread : nat) (o : AOracle)
| ERestart (now : Time).

Section runs.
Context (owner : string → string).                              (* the account a login session was made for *)

(** The token of a request names the account of its session; anchors and tickets
    are made by launches only, and the audits of ends by auditApplicationSessionEnds. *)
Definition authentic (e : aevent) : bool :=
  match e with
  | ELaunch user sid _ _ => bool_decide (owner sid = user)
  | EStore (OAnchor _ | OTicket _ | OMark _ | OAudit _) => false
  | _ => true
  end.
Definition astep (p : Portal) (e : aevent) : Portal :=
  let w := pt_hub p in
  let spawn q := mkPortal w (pt_threads p ++ [(pt_count p, q)]) (S (pt_count p)) in
  if negb (authentic e) then p else
  match e with
  | ELaunch user sid app path => spawn (discard (handleApplicationLaunch user sid app path))
  | EHost host launch r backend => spawn (discard (applicationHost host launch r backend))
  | EWatch ticks request app session => spawn (watchApplication ticks request app session)
  | ESessionEnd user id => spawn (discard (handleApplicationSessionEnd user id))
  | EHousekeeping retention => spawn (discard (runSessionPrune retention))
  | EAdmin s r => spawn (discard (admin_handler s r))
  | EStore op => mkPortal (match transact op (h_db w) with Ok d => on_db w d | Err _ => w end) (pt_threads p) (pt_count p)
  | ECloseApp app => mkPortal (on_streams w (closeApp app (h_streams w))) (pt_threads p) (pt_count p)
  | ECall n o =>
      match pt_threads p !! n with
      | Some (i, Call c k) => if novel w c then let '(w', b) := aperform i o w c in mkPortal w' (<[n := (i, k b)]> (pt_threads p)) (pt_count p) else p
      | _ => p
      end
  | ERestart now => mkPortal (mkAppHub (h_db w) (newApplicationRevocations now) (mkStreams ∅ ∅) (h_born w) (h_log w)) [] (pt_count p)
  end.
Definition arun (p : Portal) (es : list aevent) : Portal := foldl astep p es.
End runs.

Definition no_tables : AppDB := mkAppDB ∅ ∅ ∅ [] ∅ ∅ ∅ ∅ ∅ [] None ∅ ∅.
Definition opening (now : Time) : Portal := mkPortal (mkAppHub no_tables (newApplicationRevocations now) (mkStreams ∅ ∅) ∅ []) [] 0.

(** ** What must precede what *)

(** The account may use the application, by what was read of its grants, roles and
    groups; [rev] is the revision of its access. *)
Definition authorized (K : afact → Prop) (u : User) (app : string) (rev : Z) : Prop :=
  u_MustChangePassword u = false ∧ u_TOTPEnabled u = true
  ∧ ∃ grants roles groups m, K (FGrants app grants) ∧ K (FRoles (u_ID u) roles) ∧ K (FGroups (u_ID u) groups)
    ∧ (u_AuthProvider u = AuthProviderLDAP → K (FMember (u_ID u) m)) ∧ granted u roles groups m grants = true ∧ K (FRevision (u_ID u) rev).
Definition entitled (K : afact → Prop) (s : ApplicationSession) : Prop :=
  K (FCleared (as_ID s)) ∧ ∃ u, K (FUser u) ∧ u_ID u = as_UserID s ∧ authorized K u (as_ApplicationID s) (as_AccessRevision s).
Definition forward_ok (K : afact → Prop) (session app : string) : Prop :=
  ∃ s, K (FSession s) ∧ as_ID s = session ∧ as_ApplicationID s = app ∧ entitled K s.

Lemma authorized_more (K K' : afact → Prop) u app rev : knows_le K K' → authorized K u app rev → authorized K' u app rev.
Proof. intros H (? & ? & gs & rs & grs & m & ? & ? & ? & ? & ? & ?). split_and!; [done..|]. exists gs, rs, grs, m. split_and!; auto. Qed.
Lemma entitled_more (K K' : afact → Prop) s : knows_le K K' → entitled K s → entitled K' s.
Proof. intros H (? & u & ? & ? & ?). split; [auto|]. exists u. split_and!; auto. by eapply authorized_more. Qed.
Lemma forward_more (K K' : afact → Prop) session app : knows_le K K' → forward_ok K session app → forward_ok K' session app.
Proof. intros H (s & ? & ? & ? & ?). exists s. split_and!; auto. by eapply entitled_more. Qed.

Section knowing.
Context (owner : string → string).

Definition apre {B} (c : acall B) (K : afact → Prop) : Prop :=
  match c with
  | AStore op => rightful owner op
  | APersist id _ => ∃ s, K (FSession s) ∧ as_ID s = id
  | AForward session app => forward_ok K session app
  | _ => True
  end.
Definition apost {B} (c : acall B) (b : B) (f : afact) : Prop := f ∈ alearned c b.
Definition asane {B} (c : acall B) : B → Prop :=
  match c in acall B return B → Prop with
  | AUser id => fun r => match r with Ok u => u_ID u = id | Err _ => True end
  | _ => fun _ => True
  end.
Abbreviation mindful Q K p := (justified (@asane) (@apre) (@apost) Q K p).

Lemma apre_more B (c : acall B) K K' : knows_le K K' → apre c K → apre c K'.
Proof using. intros H. destruct c; cbn; try done; [intros (s & ? & ?); eauto|by apply forward_more]. Qed.
Lemma request_ {A B} (Q : (afact → Prop) → A → Prop) (K : afact → Prop) (c : acall B) (k : B → prog A) : apre c K →
  (∀ K' b, knows_le K K' → (∀ f, f ∈ alearned c b → K' f) → asane c b → mindful Q K' (k b)) → mindful Q K (Call c k).
Proof using. intros Hp Hk. split; [done|]. intros b Hb. apply Hk; [intros f Hf; by left|intros f Hf; by right|done]. Qed.

(** Programs that only make calls without conditions. *)
Definition tame {B} (c : acall B) : bool :=
  match c with AStore (OAnchor _ | OTicket _) | APersist _ _ | AForward _ _ => false | _ => true end.
Abbreviation gentle p := (plain (@tame) (fun _ => True) p).
Lemma gentle_mindful {A} K (p : prog A) : gentle p → mindful (fun _ _ => True) K p.
Proof using.
  revert K. induction p as [a|B c k IH]; cbn; intros K Hp; [done|]. destruct Hp as [Hc Hk]. split; [destruct c; try done; by destruct op|]. intros b _. by apply IH.
Qed.
Lemma gentle_bind {A B} (p : prog A) (f : A → prog B) : gentle p → (∀ a, gentle (f a)) → gentle (bind p f).
Proof using. intros. by eapply plain_bind. Qed.
Lemma after_gentle {A B} (Q : (afact → Prop) → B → Prop) K (p : prog A) (f : A → prog B) : gentle p →
  (∀ K' a, knows_le K K' → mindful Q K' (f a)) → mindful Q K (bind p f).
Proof using. intros Hp Hf. eapply justified_bind; [by apply gentle_mindful|]. intros K' a Hle _. by apply Hf. Qed.
End knowing.

Create HintDb gentle.
Ltac open_ := unfold try_, call_, discard; cbn [bind].
Ltac gently :=
  repeat (open_;
    lazymatch goal with
    | |- plain _ _ (Call _ _) => split; [reflexivity|intros ?]
    | |- plain _ _ (bind _ _) => apply gentle_bind; [|intros ?]
    | |- plain _ _ (match ?x with _ => _ end) => destruct x
    | |- plain _ (fun _ => True) (Ret _) => exact I
    | |- plain _ _ _ => solve [auto with gentle nocore]
    end).
Lemma auditEach_gentle rows failure : plain (@tame) (fun _ => True) (auditEach rows failure).
Proof. revert failure. induction rows as [|s rows IH]; intros failure; cbn [auditEach]; gently. Qed.
#[export] Hint Resolve auditEach_gentle : gentle.
Lemma auditApplicationSessionEnds_gentle : plain (@tame) (fun _ => True) auditApplicationSessionEnds.
Proof. unfold auditApplicationSessionEnds. gently. Qed.
#[export] Hint Resolve auditApplicationSessionEnds_gentle : gentle.
Lemma applicationAudit_gentle : plain (@tame) (fun _ => True) applicationAudit.
Proof. unfold applicationAudit. gently. Qed.
#[export] Hint Resolve applicationAudit_gentle : gentle.
Lemma unauthenticated_gentle r a : plain (@tame) (fun _ => True) (applicationUnauthenticated r a).
Proof. unfold applicationUnauthenticated. gently. Qed.
#[export] Hint Resolve unauthenticated_gentle : gentle.
Lemma retryQuarantine_gentle : plain (@tame) (fun _ => True) retryApplicationRevocationQuarantine.
Proof. unfold retryApplicationRevocationQuarantine. gently. Qed.
#[export] Hint Resolve retryQuarantine_gentle : gentle.
Lemma retryPending_gentle : plain (@tame) (fun _ => True) retryPendingApplicationRevocations.
Proof. unfold retryPendingApplicationRevocations. gently. Qed.
Lemma accountAccessError_gentle u : plain (@tame) (fun _ => True) (accountAccessError u).
Proof. unfold accountAccessError. gently. Qed.
#[export] Hint Resolve retryPending_gentle accountAccessError_gentle : gentle.
Lemma handleApplicationSessionEnd_gentle user id : plain (@tame) (fun _ => True) (handleApplicationSessionEnd user id).
Proof. unfold handleApplicationSessionEnd. gently. Qed.
Lemma runSessionPrune_gentle retention : plain (@tame) (fun _ => True) (runSessionPrune retention).
Proof. unfold runSessionPrune. gently. Qed.

Lemma validEach_gentle lower grants seen : plain (@tame) (fun _ => True) (validEach lower grants seen).
Proof. revert seen. induction grants as [|g grants IH]; intros seen; cbn [validEach]; unfold validGrant; gently. Qed.
Lemma grants_gentle id : plain (@tame) (fun _ => True) (handleApplicationGrants id).
Proof. unfold handleApplicationGrants. gently. Qed.
#[export] Hint Resolve validEach_gentle grants_gentle : gentle.
Lemma validateApplication_gentle parse certificates domain portal a : plain (@tame) (fun _ => True) (validateApplication parse certificates domain portal a).
Proof. unfold validateApplication. cbv zeta. gently. Qed.
#[export] Hint Resolve validateApplication_gentle : gentle.
Lemma admin_gentle s r : plain (@tame) (fun _ => True) (admin_handler s r).
Proof.
  destruct r; cbn [admin_handler]; unfold handleApplicationCreate, handleApplicationUpdate, handleApplicationDelete, handleApplicationGrantsUpdate, validApplicationGrants,
    putApplicationGroup, handleApplicationGroupDelete, handleApplicationSettingsUpdate, handleApplications; cbv zeta; gently.
Qed.

Section handlers.
Context (owner : string → string).
Abbreviation mindful Q K p := (justified (@asane) (@apre owner) (@apost) Q K p).
Implicit Types K : afact → Prop.

Lemma pending_mindful K id : mindful (fun K' r => ∀ x, r = Ok x → K' (FCleared id)) K (checkApplicationPendingRevocation id).
Proof using.
  unfold checkApplicationPendingRevocation. open_. apply after_gentle; [apply retryQuarantine_gentle|]. intros K1 [q err] L1. cbn [fst]. destruct q; [done|].
  apply request_; [exact I|]. intros K2 p L2 F2 _. destruct p as [|[[]|e]|[s|e]]; try done.
  - apply after_gentle; [apply auditApplicationSessionEnds_gentle|]. intros K3 r _. done.
  - destruct (live s) eqn:El; [|done]. intros x _. apply F2. cbn. rewrite El. by left.
Qed.
Lemma persist_mindful K s now : K (FSession s) → mindful (fun _ _ => True) K (persistApplicationAccessChanged (as_ID s) now).
Proof using.
  intros Hs. unfold persistApplicationAccessChanged. open_. apply request_; [by exists s|]. intros K1 [q err] L1 _ _. apply gentle_mindful. gently.
Qed.
Lemma authorization_mindful K u a :
  mindful (fun K' r => ∀ rev fp, r = Ok (rev, fp) → authorized K' u (ap_ID a) rev) K (applicationAuthorization u a).
Proof using.
  unfold applicationAuthorization. apply after_gentle; [apply retryQuarantine_gentle|]. intros K1 [q err] L1. cbn [fst]. destruct q; [done|].
  destruct (negb (ap_Enabled a)); [done|]. apply after_gentle; [apply accountAccessError_gentle|]. intros K2 [[]|] L2; [|done].
  destruct (_ || _) eqn:Eu; [done|]. bool_hyps. open_. apply request_; [exact I|]. intros K3 [gs|] L3 F3 _; [|done].
  apply request_; [exact I|]. intros K4 [rs|] L4 F4 _; [|done]. apply request_; [exact I|]. intros K5 [grs|] L5 F5 _; [|done].
  eapply justified_bind with (Q := fun K' r => ∀ m, r = Ok m → u_AuthProvider u = AuthProviderLDAP → K' (FMember (u_ID u) m)).
  { case_bool_decide as El; [|by intros m _]. apply request_; [exact I|]. intros K6 [m|] L6 F6 _; [|done]. intros m' [= <-] _. apply F6. by left. }
  intros K6 [m|] L6 Hm; [|done]. destruct (negb _) eqn:Eg; [done|]. apply negb_false_iff in Eg. open_. apply request_; [exact I|]. intros K7 [rev|] L7 F7 _; [|done].
  intros rev' fp [= <- <-]. split_and!; [done..|]. exists gs, rs, grs, m. split_and!; try done.
  - apply L7, L6, L5, L4, F3. by left.
  - apply L7, L6, L5, F4. by left.
  - apply L7, L6, F5. by left.
  - intros El. apply L7. by apply Hm.
  - apply F7. by left.
Qed.
Lemma check_mindful K a ss touch : K (FSession ss) →
  mindful (fun K' r => ∀ x, r = Ok x → as_ApplicationID ss = ap_ID a ∧ entitled K' ss) K (checkApplicationSession a ss touch).
Proof using.
  intros Hs. unfold checkApplicationSession. eapply justified_try; [apply pending_mindful|done|]. intros K1 [] L1 _. open_.
  apply request_; [exact I|]. intros K2 now L2 _ _. destruct (_ || _ || _) eqn:Ea; [done|]. bool_hyps. open_.
  apply request_; [exact I|]. intros K3 [anchor|] L3 _ _; [|done]. destruct (_ || _) eqn:Eb; [done|]. bool_hyps. open_.
  apply request_; [exact I|]. intros K4 [u|] L4 F4 Hu; [|done]. cbn in Hu. destruct (negb _); [done|]. open_.
  apply request_; [exact I|]. intros K5 config L5 _ _. cbv zeta. destruct (negb (bool_decide _)).
  { apply request_; [exact I|]. intros K6 r _ _ _. done. }
  assert (Hs5 : K5 (FSession ss)) by (apply L5, L4, L3, L2, L1, Hs). assert (Hu5 : K5 (FUser u)) by (apply L5, F4; by left).
  eapply justified_bind; [apply authorization_mindful|]. intros K6 [[rev fp]|e] L6 Hr.
  - destruct (_ || _) eqn:Ec.
    { eapply justified_bind; [apply persist_mindful; by apply L6|]. intros K7 r _ _. done. }
    bool_hyps. z_hyps. assert (rev = as_AccessRevision ss) as -> by lia. eapply justified_try; [apply pending_mindful|done|]. intros K7 [] L7 Hc.
    assert (He : entitled K7 ss).
    { split; [by apply (Hc tt)|]. exists u. split_and!; [by apply L7, L6|done|]. eapply authorized_more; [exact L7|].
      match goal with H : as_ApplicationID ss = ap_ID a |- _ => rewrite H end. by eapply Hr. }
    destruct touch; [|by intros x _]. apply request_; [exact I|]. intros K8 r L8 _ _ x _. split; [done|]. by eapply entitled_more.
  - open_. apply request_; [exact I|]. intros K7 over L7 _ _. destruct over; [done|]. eapply justified_bind; [apply persist_mindful; by apply L7, L6|]. intros K8 r _ _. done.
Qed.

Lemma launch_mindful K user sid app path : owner sid = user → mindful (fun _ _ => True) K (handleApplicationLaunch user sid app path).
Proof using.
  intros Ho. unfold handleApplicationLaunch. open_. apply request_; [exact I|]. intros K1 [a|] L1 _ _; [|done].
  apply request_; [exact I|]. intros K2 [u|] L2 _ Hu; [|done]. cbn in Hu.
  eapply justified_bind; [apply authorization_mindful|]. intros K3 [[rev fp]|] L3 _; [|done]. apply request_; [exact I|]. intros K4 [src|] L4 _ _; [|done].
  destruct (negb _); [done|]. open_. apply request_; [exact I|]. intros K5 config L5 _ _. apply request_; [exact I|]. intros K6 now L6 _ _. destruct (negb _); [done|].
  destruct (match path with Some _ => _ | None => _ end) as [p|]; [|done]. open_. apply request_; [cbn; congruence|]. intros K7 [[]|] L7 _ _; [|done]. open_.
  apply request_; [exact I|]. intros K8 [st|] L8 _ _; [|done]. destruct (negb _); [done|]. open_. apply request_; [exact I|]. intros K9 [ticket|] L9 _ _; [|done].
  apply request_; [exact I|]. intros K10 now' L10 _ _. apply request_; [cbn; congruence|].
  intros K11 r _ _ _. apply gentle_mindful. gently.
Qed.
Lemma exchange_mindful K a allowed form : mindful (fun _ _ => True) K (exchangeApplicationLaunch a allowed form).
Proof using.
  unfold exchangeApplicationLaunch. destruct (negb allowed); [done|]. destruct form as [ticket|]; [|done]. destruct (negb _); [done|]. open_.
  assert (Hend : ∀ K id r, mindful (fun _ _ => True) K (ended id r)) by (intros; apply gentle_mindful; unfold ended; gently).
  apply request_; [exact I|]. intros K1 [cred|] L1 _ _; [|done]. apply request_; [exact I|]. intros K2 now L2 _ _. apply request_; [exact I|].
  intros K3 [meta|] L3 _ _; [|done]. apply request_; [exact I|]. intros K4 [anchor|] L4 _ _; [|done]. destruct (negb _); [done|]. open_.
  apply request_; [exact I|]. intros K5 config L5 _ _. apply request_; [exact I|]. intros K6 now' L6 _ _. destruct (negb _); [done|]. open_.
  apply request_; [exact I|]. intros K7 id L7 _ _. apply request_; [exact I|]. intros K8 now'' L8 _ _. apply request_; [exact I|].
  intros K9 [path|] L9 _ _; [|done]. destruct (applicationPath path) as [p|]; [|apply Hend]. open_. apply request_; [exact I|]. intros K10 [ss|] L10 F10 _; [|apply Hend].
  eapply justified_bind; [apply check_mindful, F10; by left|]. intros K11 [[]|] _ _; [done|apply Hend].
Qed.
Lemma serve_mindful K r a backend : mindful (fun _ _ => True) K (serveApplication r a backend).
Proof using.
  unfold serveApplication. destruct (uniqueApplicationCookie r) as [cred|]; [|apply gentle_mindful; gently]. open_. apply request_; [exact I|].
  intros K1 [ss|] L1 F1 _; [|apply gentle_mindful; gently].
  assert (Hs : K1 (FSession ss)) by (apply F1; by left). eapply justified_bind; [by apply check_mindful|]. intros K2 [[]|] L2 Hc; [|apply gentle_mindful; gently].
  destruct (Hc tt eq_refl) as [Happ He]. destruct (_ || _ || _); [apply gentle_mindful; gently|]. destruct (applicationPath _); [|done].
  destruct backend as [backend|]; [|done]. open_. apply request_; [exact I|]. intros K3 request L3 _ _. apply request_; [exact I|]. intros K4 adm L4 _ _. destruct (negb adm); [done|].
  eapply justified_bind with (Q := fun _ _ => True); [|intros K5 reply _ _; apply gentle_mindful; gently].
  destruct (negb backend); [done|]. open_. apply request_; [exact I|]. intros K5 now L5 _ _. apply request_; [exact I|]. intros K6 [[]|] L6 _ _; [|done].
  apply request_; [|done]. exists ss. split_and!; [apply L6, L5, L4, L3, L2, Hs|done|done|]. eapply (entitled_more K2); [|done]. intros f Hf. apply L6, L5, L4, L3, Hf.
Qed.
Lemma host_mindful K host launch r backend : mindful (fun _ _ => True) K (applicationHost host launch r backend).
Proof using.
  unfold applicationHost. open_. apply request_; [exact I|]. intros K1 [a|] _ _ _; [|done]. destruct launch as [[allowed form]|]; [apply exchange_mindful|]. destruct (gatewayPath r); [done|apply serve_mindful].
Qed.
Lemma watch_mindful K ticks request app session : mindful (fun _ _ => True) K (watchApplication ticks request app session).
Proof using.
  revert K. induction ticks as [|ticks IH]; intros K; cbn [watchApplication]; [done|]. open_. apply request_; [exact I|]. intros K1 tick L1 _ _. destruct (negb tick); [done|]. open_.
  apply request_; [exact I|]. intros K2 cur L2 _ _. apply request_; [exact I|]. intros K3 fresh L3 F3 _.
  eapply justified_bind with (Q := fun _ _ => True).
  - destruct cur as [a|]; [|done]. destruct fresh as [ss|]; [|done]. eapply justified_mono; [|apply check_mindful, F3; by left]. done.
  - intros K4 [[]|] _ _; [apply IH|]. apply gentle_mindful. gently.
Qed.
End handlers.
