(* ===== verification/AppRuns.v ===== *)
(** What every run of the hub's application access shows (AppProtocol.v): live
    sessions keep what they rest on, a denied session is never admitted again, and
    only authorized requests reach a backend. *)

From S2P Require Import Prelude Prog Codec Filepath Lockout Model Account Governance AppStore AppAccess AppProtocol.
Local Open Scope prog_scope.

(** ** Tables *)

Definition keyed (d : AppDB) : Prop := ∀ id u, d_users d !! id = Some u → u_ID u = id.
Lemma keyed_same d d' : d_users d' = d_users d → keyed d → keyed d'.
Proof. intros E H id u. rewrite E. apply H. Qed.
Lemma remove_members_users clock group d : d_users (remove_members clock group d) = d_users d.
Proof.
  unfold remove_members. transitivity (d_users (on_members d (filter (fun '(g, _) => g ≠ group) (d_members d)))); [|done].
  generalize (snd <$> filter (fun '(g, _) => g = group) (d_members d)) as us. generalize (on_members d (filter (fun '(g, _) => g ≠ group) (d_members d))) as x.
  intros x us. revert x. induction us as [|u us IH]; intros x; [done|]. cbn [foldl]. rewrite IH. unfold access_removed. cbn. by case_bool_decide.
Qed.
Lemma insert_members_users clock group users d d' : insert_members clock group users d = Ok d' → d_users d' = d_users d.
Proof. revert d. induction users as [|u users IH]; intros d H; cbn in H; [by simplify_eq|]. destruct (_ || _); [done|]. by rewrite (IH _ H). Qed.
Lemma transact_keyed op d d' : transact op d = Ok d' → keyed d → keyed d'.
Proof.
  intros H Hk. destruct op; cbn [transact] in H; try (injection H as <-); try (by eapply keyed_same, Hk).
  - unfold CreateApplication in H. cbn in H. destruct (_ || _); [done|]. injection H as <-. by eapply keyed_same, Hk.
  - unfold UpdateApplication in H. cbn in H. destruct (d_apps d !! ap_ID a); [|done]. guards_in H. simplify_eq. by eapply keyed_same, Hk.
  - unfold DeleteApplication in H. destruct (d_apps d !! id); [|done]. guards_in H. simplify_eq. by eapply keyed_same, Hk.
  - unfold BeginApplicationDeletion in H. destruct (d_apps d !! id); [|done]. cbn in H. injection H as <-. by eapply keyed_same, Hk.
  - unfold ReplaceApplicationGrants in H. cbn in H. destruct (d_apps d !! id); [|done]. guards_in H. simplify_eq. by eapply keyed_same, Hk.
  - unfold PutApplicationGroup in H. eapply keyed_same, Hk.
    destruct (d_groups d !! id) as [[n v]|]; guards_in H; apply insert_members_users in H; by rewrite H, remove_members_users.
  - eapply keyed_same, Hk. unfold DeleteApplicationGroup. by rewrite remove_members_users.
  - unfold insertAnchor in H. destruct (d_anchors d !! an_ID a); guards_in H; simplify_eq; by eapply keyed_same, Hk.
  - unfold CreateApplicationTicket in H. guards_in H. simplify_eq. by eapply keyed_same, Hk.
  - unfold CompareApplicationPolicy in H. destruct (d_policy d) as [[v x]|]; guards_in H; simplify_eq; by eapply keyed_same, Hk.
  - unfold UserCreated. destruct (d_users d !! u_ID u); [done|]. intros id v Hv. cbn in Hv. apply lookup_insert_Some in Hv as [[<- <-]|[_ Hv]]; [done|by apply Hk].
  - unfold UserUpdated. destruct (d_users d !! u_ID u); [|done]. intros id v Hv.
    assert (Hv' : <[u_ID u := u]> (d_users d) !! id = Some v) by (by destruct (account_differs _ _)).
    apply lookup_insert_Some in Hv' as [[<- <-]|[_ Hv']]; [done|by apply Hk].
  - intros id' u Hu. cbn in Hu. apply lookup_delete_Some in Hu as [_ Hu]. by apply Hk.
  - unfold RoleAdded. destruct (_ && _); by eapply keyed_same, Hk.
  - unfold RoleRemoved. destruct (bool_decide _); [|done]. eapply keyed_same, Hk. unfold access_removed. cbn. by case_bool_decide.
Qed.

(** The session has ended, or its row is gone. *)
Definition gone (d : AppDB) (id : string) : Prop := ∀ s, d_sessions d !! id = Some s → live s = false.
Lemma gone_descends d d' id : descends d d' → gone d id → gone d' id.
Proof.
  intros Hd Hg s' Hs'. destruct (Hd id s' Hs') as (s & Hs & Hf). apply not_true_is_false. intros Hl. destruct (fo_live _ _ Hf Hl) as [Hl' _]. by rewrite (Hg s Hs) in Hl'.
Qed.
Lemma ended_gone owner d id reason at_ : sound owner d → gone (EndApplicationSession id reason at_ d) id.
Proof.
  intros Hd s Hs. cbn in Hs. rewrite lookup_fmap_Some in Hs. destruct Hs as (x & <- & Hx). rewrite (bool_decide_eq_true_2 (as_ID x = id)) by (by eapply v_ids).
  rewrite andb_true_r. by destruct (live x) eqn:E.
Qed.
Lemma all_gone d id reason at_ : gone (EndAllApplicationSessions reason at_ d) id.
Proof. intros s Hs. cbn in Hs. rewrite lookup_fmap_Some in Hs. destruct Hs as (x & <- & Hx). rewrite andb_true_r. by destruct (live x) eqn:E. Qed.
Lemma follows_ident s s' : follows s s' → ident s' = ident s.
Proof. intros [H1 H2 H3 H4 H5 H6 H7 H8]. unfold ident. congruence. Qed.

Section runs.
Context (owner : string → string).

(** ** The invariant *)

(** What a request has learned. *)
Definition known (request : nat) (log : list (nat * afact * AppDB)) : afact → Prop := fun f => ∃ d, (request, f, d) ∈ log.
Fixpoint orderly_log (log : list (nat * afact * AppDB)) : Prop :=
  match log with
  | [] => True
  | (i, f, d) :: t =>
      match f with
      | FCleared id => ∀ j d', (j, FDenied id, d') ∉ t
      | FForward session app => forward_ok (known i t) session app
      | _ => True
      end ∧ orderly_log t
  end.
Record steady (w : AppHub) : Prop := {
  y_sound : sound owner (h_db w);
  y_keyed : keyed (h_db w);
  y_born : ∀ id s, d_sessions (h_db w) !! id = Some s → h_born w !! id = Some (ident s);
  y_read : ∀ i s d, (i, FSession s, d) ∈ h_log w → h_born w !! as_ID s = Some (ident s);
  y_cleared : ∀ i id d, (i, FCleared id, d) ∈ h_log w → ∃ s, d_sessions d !! id = Some s ∧ live s = true ∧ backed d s ∧ h_born w !! id = Some (ident s);
  y_denied : ∀ i id d, (i, FDenied id, d) ∈ h_log w →
    is_Some (h_born w !! id) ∧ (rv_quarantine (h_rev w) = true ∨ is_Some (rv_pending (h_rev w) !! id) ∨ gone (h_db w) id);
  y_log : orderly_log (h_log w);
}.

(** The tables move on, sessions only end. *)
Lemma steady_db w d' : steady w → sound owner d' → keyed d' → descends (h_db w) d' → steady (on_db w d').
Proof using.
  intros [H1 H2 H3 H4 H5 H6 H7] Hs Hk Hd. split; cbn; try done.
  - intros id s' Hs'. destruct (Hd id s' Hs') as (s & Hx & Hf). rewrite (follows_ident _ _ Hf). eauto.
  - intros i id d Hi. destruct (H6 i id d Hi) as [Hb [?|[?|?]]]; eauto using gone_descends.
Qed.
Lemma steady_op w op d' : steady w → rightful owner op → transact op (h_db w) = Ok d' → steady (on_db w d').
Proof using.
  intros Hw Hr Ht. apply steady_db; [done|eapply transact_sound; [exact Hr|apply Hw|done]|eapply transact_keyed; [done|apply Hw]|by eapply transact_descends].
Qed.
Lemma steady_stored o w op : steady w → rightful owner op → steady (stored_op o w op).1.
Proof using.
  intros Hw Hr. unfold stored_op, afailing. destruct (ao_fail o); [done|]. destruct (transact op (h_db w)) as [d'|] eqn:E; [|done]. by eapply steady_op.
Qed.
Lemma steady_streams w s : steady w → steady (on_streams w s).
Proof using. intros [H1 H2 H3 H4 H5 H6 H7]. by split. Qed.
Lemma steady_rev w r : steady w →
  (∀ id, rv_quarantine (h_rev w) = true ∨ is_Some (rv_pending (h_rev w) !! id) ∨ gone (h_db w) id →
         rv_quarantine r = true ∨ is_Some (rv_pending r !! id) ∨ gone (h_db w) id) → steady (on_rev w r).
Proof using. intros [H1 H2 H3 H4 H5 H6 H7] Hr. split; cbn; try done. intros i id d Hi. destruct (H6 i id d Hi). auto. Qed.

(** A pending revocation that is carried out. *)
Lemma steady_settle w id : steady w → gone (h_db w) id → steady (on_rev w (settle id (h_rev w))).
Proof using.
  intros Hw Hg. apply steady_rev; [done|]. intros id' [?|[Hp|?]]; [by left| |by right; right]. destruct (decide (id' = id)) as [->|]; [by right; right|].
  right. left. cbn. by rewrite lookup_delete_ne.
Qed.
Lemma steady_end_pending o w id at_ : steady w → steady (end_pending o w id at_).1.
Proof using.
  intros Hw. unfold end_pending. assert (Hs : steady (on_streams w (closeSession id (h_streams w)))) by (by apply steady_streams). revert Hs.
  generalize (on_streams w (closeSession id (h_streams w))). intros x Hx. unfold stored_op, afailing. destruct (ao_fail o); [done|]. cbn [transact].
  assert (Hd : steady (on_db x (EndApplicationSession id "access_changed" at_ (h_db x)))) by (by apply (steady_op x (OEnd id "access_changed" at_))).
  unfold reported. destruct (ao_late o); [done|]. cbn [fst]. apply steady_settle; [done|]. eapply ended_gone. apply Hx.
Qed.
Lemma steady_flushed w ids : steady w → steady (flushed w ids).
Proof using.
  revert w. induction ids as [|[id at_] ids IH]; intros w Hw; [done|]. cbn. apply IH.
  assert (Hd : steady (on_db w (EndApplicationSession id "access_changed" at_ (h_db w)))) by (by apply (steady_op w (OEnd id "access_changed" at_))).
  apply (steady_settle _ id) in Hd; [exact Hd|]. eapply ended_gone. apply Hw.
Qed.
Lemma steady_quarantine i o w : steady w → rv_quarantine (h_rev w) = true → steady (aanswer i o w AQuarantine).1.
Proof using.
  intros Hw Hq. cbn. rewrite Hq. cbn [negb]. assert (Hs : steady (on_streams w (closeAll (h_streams w)))) by (by apply steady_streams). unfold stored_op, afailing.
  destruct (ao_fail o); [done|]. cbn [transact]. assert (Hd := steady_op _ (OEndAll (rv_reason (h_rev w)) (rv_observedAt (h_rev w))) _ Hs I eq_refl).
  unfold reported. destruct (ao_late o); [exact Hd|]. cbn. apply (steady_rev _ (mkRevocations ∅ false (rv_reason (h_rev w)) (rv_observedAt (h_rev w)))) in Hd; [exact Hd|].
  intros id _. right. right. apply all_gone.
Qed.

(** ** Calls *)

(** Facts that say nothing of sessions. *)
Definition bare_fact (f : afact) : bool := match f with FSession _ | FCleared _ | FDenied _ | FForward _ _ => false | _ => true end.
Lemma steady_fact w i f : steady w →
  match f with
  | FSession s => h_born w !! as_ID s = Some (ident s)
  | FCleared id => rv_quarantine (h_rev w) = false ∧ rv_pending (h_rev w) !! id = None ∧ ∃ s, d_sessions (h_db w) !! id = Some s ∧ live s = true
  | FDenied id => is_Some (h_born w !! id) ∧ (rv_quarantine (h_rev w) = true ∨ is_Some (rv_pending (h_rev w) !! id) ∨ gone (h_db w) id)
  | FForward session app => forward_ok (known i (h_log w)) session app
  | _ => True
  end → steady (note w i [f]).
Proof using.
  intros [H1 H2 H3 H4 H5 H6 H7] Hf. split; cbn; try done.
  - intros j s d Hin. apply elem_of_cons in Hin as [[= -> <- ->]|Hin]; [done|eauto].
  - intros j id d Hin. apply elem_of_cons in Hin as [[= -> <- ->]|Hin]; [|eauto]. destruct Hf as (_ & _ & s & Hs & Hl). exists s. split_and!; [done|done|by eapply v_live|auto].
  - intros j id d Hin. apply elem_of_cons in Hin as [[= -> <- ->]|Hin]; [done|eauto].
  - split; [|done]. destruct f; try done. destruct Hf as (Hq & Hp & s & Hs & Hl). intros j d' Hin. destruct (H6 _ _ _ Hin) as [_ [?|[[? Hp']|Hg]]]; [congruence|congruence|].
    by rewrite (Hg s Hs) in Hl.
Qed.
Lemma steady_bare w i fs : steady w → (∀ f, f ∈ fs → bare_fact f = true) → (length fs ≤ 1)%nat → steady (note w i fs).
Proof using.
  intros Hw Hf Hl. destruct fs as [|f [|g fs]]; [| |cbn in Hl; lia].
  - destruct Hw as [H1 H2 H3 H4 H5 H6 H7]. by split.
  - apply steady_fact; [done|]. specialize (Hf f ltac:(by left)). by destruct f.
Qed.

Lemma session_row d digest s : GetApplicationSession digest d = Ok s → ∃ id, d_sessions d !! id = Some s.
Proof using.
  unfold GetApplicationSession. destruct (filter _ _) as [|[id x] l] eqn:E; [done|]. intros [= ->]. exists id. apply elem_of_map_to_list.
  assert (Hin : (id, s) ∈ filter (fun '(_, s) => as_CredentialDigest s = digest) (map_to_list (d_sessions d))) by (rewrite E; by left).
  by apply list_elem_of_filter in Hin as [_ ?].
Qed.
Lemma row_born w id s : steady w → d_sessions (h_db w) !! id = Some s → h_born w !! as_ID s = Some (ident s).
Proof using. intros Hw Hs. rewrite (v_ids _ _ (y_sound _ Hw) id s Hs). by apply (y_born _ Hw). Qed.

Lemma consume_steady i o w digest host id credential expires now : steady w → h_born w !! id = None →
  steady (aanswer i o w (AConsume digest host id credential expires now)).1.
Proof using.
  intros Hw Hn. cbn. unfold afailing. destruct (ao_fail o); [done|]. destruct (ConsumeApplicationTicket _ _ _ _ _ _ _) as [[d' path]|] eqn:E; [|done]. cbn [fst].
  pose proof (ConsumeApplicationTicket_sound _ _ _ _ _ _ _ _ _ _ (y_sound _ Hw) E) as Hs'.
  assert (Hd : ∃ s, d_sessions d' = <[id := s]> (d_sessions (h_db w)) ∧ d_users d' = d_users (h_db w)).
  { unfold ConsumeApplicationTicket in E. destruct (ticketAt _ _ _ _); [|done]. guards_in E. simplify_eq. eexists. by split. }
  destruct Hd as (s & Hd & Hu). rewrite Hd, lookup_insert_eq. destruct Hw as [H1 H2 H3 H4 H5 H6 H7].
  assert (Hold : ∀ j x, h_born w !! j = Some x → <[id := ident s]> (h_born w) !! j = Some x) by (intros j x Hi; rewrite lookup_insert_ne; [done|]; congruence).
  split; cbn; try done.
  - by eapply keyed_same.
  - intros j x Hx. rewrite Hd in Hx. apply lookup_insert_Some in Hx as [[<- <-]|[Hne Hx]]; [by rewrite lookup_insert_eq|]. auto.
  - intros j x d Hx. eauto.
  - intros j k d Hi. destruct (H5 j k d Hi) as (x & ? & ? & ? & ?). exists x. auto.
  - intros j k d Hi. destruct (H6 j k d Hi) as [[y Hy] Hc]. split; [eauto|]. destruct Hc as [?|[?|Hg]]; [by left|by right; left|]. right. right. intros x Hx. rewrite Hd in Hx.
    apply lookup_insert_Some in Hx as [[<- <-]|[_ Hx]]; [congruence|by apply Hg].
Qed.
Lemma persist_steady r o w id now : steady w → is_Some (h_born w !! id) → steady (aanswer r o w (APersist id now)).1.
Proof using.
  intros Hw Hb. cbn.
  assert (Hr : steady (on_rev w (markLocked id now (h_rev w)))).
  { apply steady_rev; [done|]. intros i [Hq|[[t Ht]|Hg]]; [|..|by right; right]; unfold markLocked; destruct (rv_quarantine (h_rev w)) eqn:Eq; try (by left); try done.
    case_bool_decide; [right; left; eauto|]. case_bool_decide; [by left|]. right. left. cbn. destruct (decide (i = id)) as [->|]; [rewrite lookup_insert_eq; eauto|].
    rewrite lookup_insert_ne by done. eauto. }
  assert (Hm : rv_quarantine (markLocked id now (h_rev w)) = true ∨ is_Some (rv_pending (markLocked id now (h_rev w)) !! id)).
  { unfold markLocked. destruct (rv_quarantine (h_rev w)) eqn:Eq; [by left|]. case_bool_decide; [by right|]. case_bool_decide; [by left|]. right. cbn. rewrite lookup_insert_eq. eauto. }
  assert (Hn : steady (note (on_rev w (markLocked id now (h_rev w))) r [FDenied id])).
  { apply steady_fact; [done|]. split; [done|]. cbn. destruct Hm; [by left|by right; left]. }
  destruct (rv_quarantine (markLocked id now (h_rev w))); [exact Hn|].
  pose proof (steady_end_pending o _ id (default now (rv_pending (markLocked id now (h_rev w)) !! id)) Hn) as H. by destruct (end_pending _ _ _ _).
Qed.

Lemma aanswer_steady i o w B (c : acall B) : steady w → apre owner c (known i (h_log w)) → novel w c = true → steady (aanswer i o w c).1.
Proof using.
  intros Hw Hp Hn. destruct c; try (exact Hw).
  - by apply steady_stored.
  - apply consume_steady; [done|]. cbn in Hn. by apply bool_decide_eq_true in Hn.
  - destruct (rv_quarantine (h_rev w)) eqn:E; [by apply steady_quarantine|]. cbn. by rewrite E.
  - cbn. destruct (rv_quarantine (h_rev w)); [done|]. destruct (rv_pending (h_rev w) !! id) as [t|]; [|done].
    pose proof (steady_end_pending o w id t Hw) as H. by destruct (end_pending _ _ _ _).
  - apply persist_steady; [done|]. cbn in Hp. destruct Hp as (s & [d Hs] & <-). rewrite (y_read _ Hw _ s _ Hs). eauto.
  - by apply steady_flushed.
  - cbn. destruct (register _ _ _ _). by apply steady_streams.
  - by apply steady_streams.
  - by apply steady_streams.
  - by apply steady_streams.
  - by apply steady_streams.
Qed.
(** Calls whose answers say something of sessions. *)
Definition telling {B} (c : acall B) : bool := match c with ASession _ | ASessionByID _ | APending _ | AForward _ _ => true | _ => false end.
Lemma untold B (c : acall B) b : telling c = false → (∀ f, f ∈ alearned c b → bare_fact f = true) ∧ (length (alearned c b) ≤ 1)%nat.
Proof using.
  intros Hc. destruct c; try discriminate; cbn; repeat case_match;
    (split; [intros f Hf; first [by apply not_elem_of_nil in Hf|by apply list_elem_of_singleton in Hf as ->]|cbn; lia]).
Qed.
Lemma steady_nothing w i : steady w → steady (note w i []).
Proof using. intros Hw. apply steady_bare; [done| |cbn; lia]. intros f Hf. by apply not_elem_of_nil in Hf. Qed.
Lemma aperform_steady i o w B (c : acall B) : steady w → apre owner c (known i (h_log w)) → novel w c = true → steady (aperform i o w c).1.
Proof using.
  intros Hw Hp Hn. pose proof (aanswer_steady i o w _ c Hw Hp Hn) as Ha. unfold aperform. destruct (telling c) eqn:Et.
  2: { destruct (aanswer i o w c) as [w' b]. destruct (untold _ c b Et). by apply steady_bare. }
  destruct c; try discriminate; cbn [aanswer] in *; unfold afailing in *.
  - destruct (ao_fail o); [by apply steady_nothing|]. destruct (GetApplicationSession digest (h_db w)) as [s|] eqn:Es; [|by apply steady_nothing].
    apply steady_fact; [done|]. apply session_row in Es as [id Es]. by eapply row_born.
  - destruct (ao_fail o); [by apply steady_nothing|]. unfold ApplicationSessionByID. destruct (d_sessions (h_db w) !! id) as [s|] eqn:Es; [|by apply steady_nothing].
    apply steady_fact; [done|]. by eapply row_born.
  - destruct (rv_quarantine (h_rev w)) eqn:Eq; [by apply steady_nothing|]. destruct (rv_pending (h_rev w) !! id) as [t|] eqn:Ep.
    { destruct (end_pending o w id t) as [w1 r]. by apply steady_nothing. }
    destruct (ao_fail o); [by apply steady_nothing|]. unfold ApplicationSessionByID. destruct (d_sessions (h_db w) !! id) as [s|] eqn:Es; [|by apply steady_nothing].
    cbn [alearned]. destruct (live s) eqn:El; [|by apply steady_nothing]. apply steady_fact; [done|]. eauto.
  - by apply steady_fact.
Qed.

Lemma aperform_sane i o w B (c : acall B) : steady w → asane c (aperform i o w c).2.
Proof using.
  intros Hw. unfold aperform. destruct (aanswer i o w c) as [w' b] eqn:E. cbn [snd]. destruct c; try exact I. cbn in E. injection E as <- <-. unfold afailing.
  destruct (ao_fail o); [exact I|]. destruct (d_users (h_db w) !! id) as [u|] eqn:Eu; [|exact I]. by apply (y_keyed _ Hw).
Qed.
Lemma flushed_log w ids : h_log (flushed w ids) = h_log w.
Proof using. revert w. induction ids as [|x ids IH]; intros w; [done|]. cbn. by rewrite IH. Qed.
Lemma aanswer_log i o w B (c : acall B) : ∃ fs, h_log (aanswer i o w c).1 = fs ++ h_log w.
Proof using.
  assert (Hst : ∀ x op, h_log (stored_op o x op).1 = h_log x) by (intros x op; unfold stored_op; by case_match).
  assert (Hen : ∀ x id t, h_log (end_pending o x id t).1 = h_log x).
  { intros x id t. unfold end_pending. specialize (Hst (on_streams x (closeSession id (h_streams x))) (OEnd id "access_changed" t)).
    destruct (stored_op _ _ _) as [y [|]]; exact Hst. }
  destruct c; cbn [aanswer]; try (by exists []).
  - destruct (afailing _ _) as [[d' path]|]; [|by exists []]. exists []. cbn. by case_match.
  - destruct (negb _); [by exists []|]. specialize (Hst (on_streams w (closeAll (h_streams w))) (OEndAll (rv_reason (h_rev w)) (rv_observedAt (h_rev w)))). exists [].
    cbn [h_rev on_streams] in *. destruct (stored_op _ _ _) as [y [|]]; exact Hst.
  - destruct (rv_quarantine _); [by exists []|]. destruct (rv_pending _ !! id) as [t|]; [|by exists []]. exists []. specialize (Hen w id t). by destruct (end_pending _ _ _ _).
  - exists [(i, FDenied id, h_db w)]. destruct (rv_quarantine _); [done|]. specialize (Hen (note (on_rev w (markLocked id now (h_rev w))) i [FDenied id]) id).
    match goal with |- context [end_pending o ?x id ?t] => specialize (Hen t); destruct (end_pending o x id t) end. exact Hen.
  - exists []. apply flushed_log.
  - exists []. by destruct (register _ _ _ _).
Qed.
Lemma aperform_log i o w B (c : acall B) : (∀ j, knows_le (known j (h_log w)) (known j (h_log (aperform i o w c).1)))
  ∧ ∀ f, f ∈ alearned c (aperform i o w c).2 → known i (h_log (aperform i o w c).1) f.
Proof using.
  unfold aperform. destruct (aanswer_log i o w _ c) as [fs Hl]. destruct (aanswer i o w c) as [w' b]. cbn in *. unfold known. split.
  - intros j f [d Hf]. exists d. rewrite Hl, !elem_of_app. auto.
  - intros f Hf. exists (h_db w'). rewrite elem_of_app. left. apply list_elem_of_fmap. by exists f.
Qed.

(** ** Runs *)

Abbreviation mindful Q K p := (justified (@asane) (@apre owner) (@apost) Q K p).
Record keeping (p : Portal) : Prop := {
  kp_hub : steady (pt_hub p);
  kp_threads : Forall (fun q => mindful (fun _ _ => True) (known (fst q) (h_log (pt_hub p))) (snd q)) (pt_threads p);
}.
Lemma mindful_more {A} (K K' : afact → Prop) (q : prog A) : knows_le K K' → mindful (fun _ _ => True) K q → mindful (fun _ _ => True) K' q.
Proof using. apply justified_weaken; [|done]. intros B c K1 K2. apply apre_more. Qed.

Lemma astep_keeping p e : keeping p → keeping (astep owner p e).
Proof using.
  intros Hp. pose proof Hp as [Hh Ht]. unfold astep. destruct (negb (authentic owner e)) eqn:Ea; [done|]. apply negb_false_iff in Ea.
  assert (Hsp : ∀ q, mindful (fun _ _ => True) (known (pt_count p) (h_log (pt_hub p))) q → keeping (mkPortal (pt_hub p) (pt_threads p ++ [(pt_count p, q)]) (S (pt_count p)))).
  { intros q Hq. split; [done|]. cbn. apply Forall_app. split; [done|]. by apply Forall_singleton. }
  assert (Hd : ∀ A K (q : prog A), mindful (fun _ _ => True) K q → mindful (fun _ _ => True) K (discard q)) by (intros A K q Hq; by eapply justified_bind).
  destruct e as [user sid app path|host launch r backend|ticks request app session|user id|retention|site r|op|app|n o|now].
  - apply Hsp, Hd, launch_mindful. by apply bool_decide_eq_true in Ea.
  - apply Hsp, Hd, host_mindful.
  - apply Hsp, watch_mindful.
  - apply Hsp, Hd, gentle_mindful, handleApplicationSessionEnd_gentle.
  - apply Hsp, Hd, gentle_mindful, runSessionPrune_gentle.
  - apply Hsp, Hd, gentle_mindful, admin_gentle.
  - destruct (transact op (h_db (pt_hub p))) as [d'|] eqn:E; [|by split]. split; [eapply steady_op; [done| |exact E]; by destruct op|done].
  - split; [by apply steady_streams|done].
  - destruct (pt_threads p !! n) as [[i [|B c k]]|] eqn:En; [done| |done]. destruct (novel _ _) eqn:Ev; [|done].
    destruct (Forall_lookup_1 _ _ _ _ Ht En) as [Hc Hk]. cbn [fst snd] in Hc, Hk. pose proof (aperform_steady i o _ _ c Hh Hc Ev) as Hs. pose proof (aperform_sane i o _ _ c Hh) as Hsa.
    destruct (aperform_log i o (pt_hub p) _ c) as [L1 L2]. destruct (aperform i o (pt_hub p) c) as [w' b]. cbn in *. split; [done|]. cbn. apply Forall_insert.
    + eapply Forall_impl; [exact Ht|]. intros q. by apply mindful_more.
    + eapply mindful_more; [|by apply Hk]. intros f [Hf|Hf]; [by apply L1|by apply L2].
  - split; [|constructor]. destruct Hh as [H1 H2 H3 H4 H5 H6 H7]. split; cbn; try done. intros j id d Hi. split; [by eapply H6|by left].
Qed.
Lemma opening_keeping now : keeping (opening now).
Proof using.
  split; [|constructor]. split; cbn; try done; try (intros ? ? ? H; by apply not_elem_of_nil in H).
Qed.
Lemma arun_keeping now es : keeping (arun owner (opening now) es).
Proof using.
  assert (H : ∀ p, keeping p → keeping (arun owner p es)); [|apply H, opening_keeping]. induction es as [|e es IH]; intros p Hp; [done|]. by apply IH, astep_keeping.
Qed.

(** C17. Whatever is changed, revoked, deleted or expires, and whatever requests run
    beside it, a session that is live in the table rests on an application that is
    enabled at the very version it was opened for, on a login that is not revoked
    and whose account is not disabled and has kept its token generation, and on an
    unchanged revision of the account's access. *)
Theorem live_sessions_backed now es id s :
  let d := h_db (pt_hub (arun owner (opening now) es)) in
  d_sessions d !! id = Some s → as_EndedAt s = None → backed d s.
Proof using.
  intros d Hs Hl. destruct (arun_keeping now es) as [Hh _]. apply (v_live _ _ (y_sound _ Hh) id s Hs). unfold live. by apply bool_decide_eq_true_2.
Qed.

Lemma orderly_at l1 i f d l2 : orderly_log (l1 ++ (i, f, d) :: l2) →
  match f with FCleared id => ∀ j d', (j, FDenied id, d') ∉ l2 | FForward session app => forward_ok (known i l2) session app | _ => True end.
Proof using. induction l1 as [|[[j g] x] l1 IH]; [by intros [? _]|]. intros [_ H]. exact (IH H). Qed.

(** C16. A session whose access was found to have changed is never admitted again,
    by any request, also when the database could not be written then, when the
    memory for such sessions was full, and after a restart of the hub. *)
Theorem denied_never_admitted now es l1 i id d l2 :
  h_log (pt_hub (arun owner (opening now) es)) = l1 ++ (i, FCleared id, d) :: l2 → ∀ j d', (j, FDenied id, d') ∉ l2.
Proof using.
  intros Hl. destruct (arun_keeping now es) as [Hh _]. pose proof (y_log _ Hh) as Ho. rewrite Hl in Ho. by apply orderly_at in Ho.
Qed.

(** C15. A request reaches the backend of an application only for a session of that
    application that was live, at one moment of that request, and rested then on
    everything it must, and whose account holds a grant of the application by the
    grants, roles, groups and directory membership the request itself has read, in
    the revision of its access that the session was opened in. *)
Theorem forwarded_is_authorized now es l1 i session app d l2 :
  h_log (pt_hub (arun owner (opening now) es)) = l1 ++ (i, FForward session app, d) :: l2 →
  ∃ s d' u, (i, FCleared session, d') ∈ l2 ∧ d_sessions d' !! session = Some s ∧ as_EndedAt s = None ∧ as_ApplicationID s = app ∧ backed d' s
    ∧ u_ID u = as_UserID s ∧ authorized (known i l2) u app (as_AccessRevision s).
Proof using.
  intros Hl. destruct (arun_keeping now es) as [Hh _]. pose proof (y_log _ Hh) as Ho. rewrite Hl in Ho. apply orderly_at in Ho.
  destruct Ho as (s0 & [d0 Hs0] & <- & <- & [d' Hc] & u & Hu & Hid & Hau).
  assert (Hin : ∀ x, x ∈ l2 → x ∈ h_log (pt_hub (arun owner (opening now) es))) by (intros x Hx; rewrite Hl; apply elem_of_app; right; by right).
  destruct (y_cleared _ Hh i (as_ID s0) d') as (s & Hs & Hlive & Hb & Hborn); [by apply Hin|]. pose proof (y_read _ Hh i s0 d0 (Hin _ Hs0)) as Hr.
  rewrite Hborn in Hr. injection Hr as Ha Hus _ _ Hrev. exists s, d', u. rewrite Hrev. split_and!; try done; [|congruence]. unfold live in Hlive. by bool_hyps.
Qed.
End runs.

(** ** A run *)

Module AppDemo.
Definition start : Time := unix_epoch + 1000 * Second.
Definition user (totp : bool) : User :=
  mkUser "u" "ann" "" "" "viewer" "local" "" "" "" None false None totp 0 false 0 0 [] [] "" None false None 0 None None None None None None true None "" start start.
Definition app : Application := mkApplication "a" "Wiki" "wiki" "" "wiki.apps" "hub" "" "http://wiki" [] "" true 1 start start.
Definition source : Session := mkSession "sid" "u" SessionKindWeb "" "" start start None None None "" None false "" None None.
Definition ticket : string := "ttttttttttttttttttttttttttttttttttttttttttt".
Definition answering (secret id : string) : AOracle :=
  mkAOracle None None start id (Ok secret) false true (Err errNoRows) (Ok Defaults) (Ok source) (Ok (mkMembership [] "" "")) 0 true.
Definition calls (n thread : nat) (secret id : string) : list aevent := repeat (ECall thread (answering secret id)) n.
Definition request : AppRequest := mkAppRequest "GET" "" false "" false "/" false [(applicationCookie, "credential")].
Definition owner (_ : string) : string := "u".

(** The hub opens, an application is made and granted to the account. *)
Definition preparing : list aevent :=
  EHousekeeping Hour :: calls 30 0 "" "" ++
  [EStore (OUserCreated (user true)); EStore (OCreate app start); EStore (OGrants app "a" [mkGrant "user" "u"] 1 start)].
(** The account launches it, and a request is served. *)
Definition serving : list aevent :=
  ELaunch "u" "sid" "a" (Some "/") :: calls 20 1 ticket "" ++ EHost "wiki.apps" (Some (true, Some ticket)) request (Some true) :: calls 40 2 "credential" "s1" ++
  EHost "wiki.apps" None request (Some true) :: calls 30 3 "" "r1".
(** The account loses its second factor, and the next request finds out. *)
Definition losing : list aevent := EStore (OUserUpdated (user false) start) :: EHost "wiki.apps" None request (Some true) :: calls 30 4 "" "r2".
Definition events : list aevent := preparing ++ serving ++ losing.
Abbreviation log := (h_log (pt_hub (arun owner (opening start) events))).
End AppDemo.

Lemma log_split (log : list (nat * afact * AppDB)) k i f :
  fst <$> log !! k = Some (i, f) → ∃ d, log = take k log ++ (i, f, d) :: drop (S k) log.
Proof.
  destruct (log !! k) as [[[j g] d]|] eqn:H; [|done]. intros [= <- <-]. exists d. symmetry. by apply take_drop_middle.
Qed.

Lemma live_sessions_backed_witness : ∃ s, let d := h_db (pt_hub (arun AppDemo.owner (opening AppDemo.start) (AppDemo.preparing ++ AppDemo.serving))) in
  d_sessions d !! "s1" = Some s ∧ as_EndedAt s = None ∧ backed d s.
Proof.
  eexists. cbv zeta. split; [vm_compute; reflexivity|]. split; [reflexivity|].
  apply (live_sessions_backed AppDemo.owner AppDemo.start (AppDemo.preparing ++ AppDemo.serving) "s1"); vm_compute; reflexivity.
Defined.

Lemma denied_never_admitted_witness : ∃ d, AppDemo.log = take 2 AppDemo.log ++ (4%nat, FCleared "s1", d) :: drop 3 AppDemo.log
  ∧ ∀ j d', (j, FDenied "s1", d') ∉ drop 3 AppDemo.log.
Proof.
  destruct (log_split AppDemo.log 2 4 (FCleared "s1")) as [d H]; [vm_compute; reflexivity|]. exists d. split; [exact H|].
  apply (denied_never_admitted AppDemo.owner AppDemo.start AppDemo.events (take 2 AppDemo.log) 4 "s1" d (drop 3 AppDemo.log)).
  exact H.
Defined.

Lemma forwarded_is_authorized_witness : ∃ d, AppDemo.log = take 4 AppDemo.log ++ (3%nat, FForward "s1" "a", d) :: drop 5 AppDemo.log
  ∧ ∃ s d' u, (3%nat, FCleared "s1", d') ∈ drop 5 AppDemo.log ∧ d_sessions d' !! "s1" = Some s ∧ as_EndedAt s = None ∧ as_ApplicationID s = "a"
    ∧ backed d' s ∧ u_ID u = as_UserID s ∧ authorized (known 3 (drop 5 AppDemo.log)) u "a" (as_AccessRevision s).
Proof.
  destruct (log_split AppDemo.log 4 3 (FForward "s1" "a")) as [d H]; [vm_compute; reflexivity|]. exists d. split; [exact H|].
  apply (forwarded_is_authorized AppDemo.owner AppDemo.start AppDemo.events (take 4 AppDemo.log) 3 "s1" "a" d (drop 5 AppDemo.log)).
  exact H.
Defined.
