(* ===== verification/AppAudits.v ===== *)
(** The audit of ended sessions of web applications: in runs without deletions of
    accounts, a session leaves the table only when the record of its end is written.
    Records are kept until their retention deletes them. *)

From S2P Require Import Prelude Prog Codec Filepath Lockout Model Account Governance AppStore AppAccess AppAdmin AppProtocol AppRuns.
Local Open Scope prog_scope.

(** ** What the store keeps *)

(** The audit records that were ever written. *)
Definition recorded (d : AppDB) : gset string := d_audits d ∪ d_removed d.

Record retains (d d' : AppDB) : Prop := {
  rt_kept : ∀ id s, d_sessions d !! id = Some s → d_sessions d' !! id = None → as_audited s = true;
  rt_marks : ∀ id s', d_sessions d' !! id = Some s' → as_audited s' = true → ∃ s, d_sessions d !! id = Some s ∧ as_audited s = true;
  rt_audits : recorded d ⊆ recorded d';
}.
Lemma retains_refl d : retains d d.
Proof. split; [congruence|eauto|done]. Qed.
Lemma retains_trans d1 d2 d3 : retains d1 d2 → retains d2 d3 → retains d1 d3.
Proof.
  intros [A1 A2 A3] [B1 B2 B3]. split; [|intros id s H Ha; destruct (B2 id s H Ha) as (x & Hx & Hxa); eauto|by trans (recorded d2)].
  intros id s H1 H3. destruct (d_sessions d2 !! id) as [x|] eqn:E; [|eauto]. destruct (A2 id x E (B1 id x E H3)) as (y & Hy & Hya). congruence.
Qed.
Lemma retains_map d d' f : d_sessions d' = f <$> d_sessions d → (∀ s, as_audited (f s) = as_audited s) → recorded d ⊆ recorded d' → retains d d'.
Proof.
  intros E Hf Ha. split; [| |done]; rewrite E.
  - intros id s H. by rewrite lookup_fmap, H.
  - intros id s' H Hs. rewrite lookup_fmap_Some in H. destruct H as (s & <- & H). exists s. by rewrite <- Hf.
Qed.
Lemma retains_same d d' : d_sessions d' = d_sessions d → recorded d ⊆ recorded d' → retains d d'.
Proof. intros E. apply (retains_map d d' id); [by rewrite map_fmap_id|done]. Qed.
Lemma retains_filter d d' (P : string * ApplicationSession → Prop) `{!∀ x, Decision (P x)} : d_sessions d' = filter P (d_sessions d) →
  (∀ id s, d_sessions d !! id = Some s → ¬ P (id, s) → as_audited s = true) → recorded d' = recorded d → retains d d'.
Proof.
  intros E Hr Ha. split; [| |by rewrite Ha]; rewrite E.
  - intros id s Hs Hn. apply (Hr id s Hs). intros HP. by rewrite (map_lookup_filter_Some_2 P _ _ _ Hs HP) in Hn.
  - intros id s [Hs _]%map_lookup_filter_Some. eauto.
Qed.
Lemma end_where_retains P at_ reason d d0 : d_sessions d0 = d_sessions d → recorded d0 = recorded d → retains d (end_where P at_ reason d0).
Proof. intros E1 E2. apply (retains_map d _ (fun s => if live s && P s then set_ended s (milli at_) reason else s)); [by cbn; rewrite E1|intros s; by case_match|rewrite <- E2; reflexivity]. Qed.
Lemma access_added_retains clock u d d0 : d_sessions d0 = d_sessions d → recorded d0 = recorded d → retains d (access_added clock u d0).
Proof. intros E1 E2. by apply end_where_retains. Qed.
Lemma access_removed_retains clock u d d0 : d_sessions d0 = d_sessions d → recorded d0 = recorded d → retains d (access_removed clock u d0).
Proof. intros E1 E2. apply end_where_retains; by case_bool_decide. Qed.
Lemma remove_members_retains clock g d d0 : d_sessions d0 = d_sessions d → recorded d0 = recorded d → retains d (remove_members clock g d0).
Proof.
  intros E1 E2. unfold remove_members. generalize (snd <$> filter (fun '(x, _) => x = g) (d_members d0)). intros l.
  assert (H : retains d (on_members d0 (filter (fun '(x, _) => x ≠ g) (d_members d0)))) by (apply retains_same; [done|rewrite <- E2; reflexivity]). revert H.
  generalize (on_members d0 (filter (fun '(x, _) => x ≠ g) (d_members d0))). induction l as [|u l IH]; intros x Hx; [done|]. apply IH.
  eapply retains_trans; [exact Hx|by apply access_removed_retains].
Qed.
Lemma insert_members_retains clock g users d d' : insert_members clock g users d = Ok d' → retains d d'.
Proof.
  revert d. induction users as [|u users IH]; intros d H; cbn in H; [injection H as <-; apply retains_refl|]. guards_in H. eapply retains_trans; [|by apply IH].
  by apply access_added_retains.
Qed.

Lemma DeleteApplication_retains id d d' : DeleteApplication id d = Ok d' → retains d d'.
Proof.
  unfold DeleteApplication. cbv zeta. destruct (_ !! _) as [r|]; [|done]. intros H. guards_in H; simplify_eq. eapply retains_filter; [reflexivity| |done].
  intros i s Hs Hp. cbn in Hp. apply dec_stable in Hp. bool_hyps. destruct (as_audited s) eqn:Ea; [done|].
  match goal with H : existsb _ _ = false |- _ => rewrite <- not_true_iff_false in H; destruct H end. apply existsb_exists. exists (i, s).
  split; [by apply list_elem_of_In, elem_of_map_to_list|]. rewrite Ea. unfold of_app. rewrite bool_decide_eq_true_2 by done. by rewrite orb_true_r.
Qed.
(** All but marks and deletions of accounts. *)
Definition neutral (op : store_op) : bool := match op with OMark _ | OUserDeleted _ => false | _ => true end.
Lemma transact_retains op d d' : neutral op = true → transact op d = Ok d' → retains d d'.
Proof.
  intros Hn H. destruct op; try discriminate Hn; cbn [transact] in H.
  - unfold CreateApplication in H. cbv zeta in H. guards_in H; simplify_eq. by apply retains_same.
  - unfold UpdateApplication in H. cbv zeta in H. destruct (_ !! _) as [r|]; [|done]. guards_in H; simplify_eq. by apply end_where_retains.
  - by eapply DeleteApplication_retains.
  - unfold BeginApplicationDeletion in H. cbv zeta in H. destruct (_ !! _) as [r|]; [|done]. injection H as <-. by apply end_where_retains.
  - unfold ReplaceApplicationGrants in H. cbv zeta in H. destruct (_ !! _) as [r|]; [|done]. guards_in H; simplify_eq. by apply end_where_retains.
  - unfold PutApplicationGroup in H. cbv zeta in H.
    assert (Hput : ∀ v, insert_members clock id users (remove_members clock id (on_groups d (<[id := (name, v)]> (d_groups d)))) = Ok d' → retains d d').
    { intros v Hi. eapply retains_trans; [|by eapply insert_members_retains]. by apply remove_members_retains. }
    destruct (_ !! _) as [[n v]|]; guards_in H; by eapply Hput.
  - injection H as <-. by apply remove_members_retains.
  - unfold insertAnchor in H. destruct (_ !! _); [injection H as <-; apply retains_refl|]. guards_in H; simplify_eq. by apply retains_same.
  - unfold CreateApplicationTicket in H. guards_in H; simplify_eq. by apply retains_same.
  - injection H as <-. eapply retains_map; [reflexivity| |done]. intros s. cbn. by case_match.
  - injection H as <-. by apply end_where_retains.
  - injection H as <-. by apply end_where_retains.
  - injection H as <-. by apply end_where_retains.
  - injection H as <-. eapply retains_map; [reflexivity| |done]. intros s. cbn. by case_match.
  - injection H as <-. eapply retains_map; [reflexivity| |done]. intros s. cbn. by case_match.
  - injection H as <-. unfold ExpireApplicationSessions. cbv zeta. rewrite <- map_fmap_compose. eapply retains_map; [reflexivity| |done].
    intros s. cbn. by repeat case_match.
  - injection H as <-. eapply retains_filter; [reflexivity| |done]. intros i s _ Hp. cbn in Hp. apply not_false_iff_true in Hp. by bool_hyps.
  - unfold CompareApplicationPolicy in H. destruct (d_policy d) as [[v ?]|]; guards_in H; simplify_eq; by apply retains_same.
  - injection H as <-. apply retains_same; [done|]. cbn. set_solver.
  - injection H as <-. apply retains_same; [done|]. unfold recorded. cbn. intros x. rewrite !elem_of_union, elem_of_difference, elem_of_intersection.
    destruct (decide (x ∈ ids)); tauto.
  - injection H as <-. unfold UserCreated. case_match; [apply retains_refl|by apply retains_same].
  - injection H as <-. unfold UserUpdated. case_match; [|apply retains_refl]. cbv zeta. case_match; [by apply end_where_retains|by apply retains_same].
  - injection H as <-. unfold RoleAdded. case_match; [by apply access_added_retains|apply retains_refl].
  - injection H as <-. unfold RoleRemoved. case_match; [by apply access_removed_retains|apply retains_refl].
Qed.

(** ** Who marks a session *)

Definition end_record (id : string) : string := "application-session-end:" +:+ id.
Definition csane {B} (_ : acall B) (_ : B) : Prop := True.
Definition cpre {B} (c : acall B) (K : string → Prop) : Prop :=
  match c with AStore (OMark id) => K (end_record id) | AStore (OUserDeleted _) => False | _ => True end.
Definition cpost {B} (c : acall B) : B → string → Prop :=
  match c in acall B return B → string → Prop with
  | AAudited id => fun r f => r = Ok true ∧ f = id
  | AStore (OAudit id) => fun r f => r = Ok tt ∧ f = id
  | _ => fun _ _ => False
  end.
(** The program marks only what it knows to be recorded. *)
Abbreviation careful K p := (justified (@csane) (@cpre) (@cpost) (fun _ _ => True) K p).
Lemma cpre_more B (c : acall B) K K' : knows_le K K' → cpre c K → cpre c K'.
Proof. intros H. destruct c; try done. destruct op; cbn; auto. Qed.
Lemma recorded_more {A} K K' (p : prog A) : knows_le K K' → careful K p → careful K' p.
Proof. by apply justified_weaken; [apply cpre_more|]. Qed.
Lemma careful_bind {A B} K (p : prog A) (f : A → prog B) : careful K p → (∀ K' a, careful K' (f a)) → careful K (bind p f).
Proof. intros Hp Hf. eapply justified_bind; [exact Hp|]. intros K' a _ _. apply Hf. Qed.

Create HintDb careful.
Ltac carefully :=
  repeat (open_;
    lazymatch goal with
    | |- justified _ _ _ _ _ (Call _ _) => split; [exact I|intros ? _]
    | |- justified _ _ _ _ _ (bind _ _) => apply careful_bind; [|intros ? ?]
    | |- justified _ _ _ _ _ (match ?x with _ => _ end) => destruct x
    | |- justified _ _ _ (fun _ _ => True) _ (Ret _) => exact I
    | |- justified _ _ _ _ _ _ => solve [auto with careful nocore]
    end).
Lemma auditEach_careful K rows failure : careful K (auditEach rows failure).
Proof.
  revert K failure. induction rows as [|s rows IH]; intros K failure; cbn [auditEach]; [done|]. open_. split; [exact I|]. intros [[]|e] _; [| |apply IH]; open_.
  - split; [by right|]. intros r _. apply IH.
  - split; [exact I|]. intros [[]|e] _; [|apply IH]. split; [by right|]. intros r _. apply IH.
Qed.
#[export] Hint Resolve auditEach_careful : careful.
Lemma auditEnds_careful K : careful K auditApplicationSessionEnds.
Proof. unfold auditApplicationSessionEnds. carefully. Qed.
#[export] Hint Resolve auditEnds_careful : careful.
Lemma applicationAudit_careful K : careful K applicationAudit.
Proof. unfold applicationAudit. carefully. Qed.
#[export] Hint Resolve applicationAudit_careful : careful.
Lemma retryQuarantine_careful K : careful K retryApplicationRevocationQuarantine.
Proof. unfold retryApplicationRevocationQuarantine. carefully. Qed.
#[export] Hint Resolve retryQuarantine_careful : careful.
Lemma checkPending_careful K id : careful K (checkApplicationPendingRevocation id).
Proof. unfold checkApplicationPendingRevocation. carefully. Qed.
Lemma persist_careful K id now : careful K (persistApplicationAccessChanged id now).
Proof. unfold persistApplicationAccessChanged. carefully. Qed.
Lemma retryPending_careful K : careful K retryPendingApplicationRevocations.
Proof. unfold retryPendingApplicationRevocations. carefully. Qed.
Lemma accountAccess_careful K u : careful K (accountAccessError u).
Proof. unfold accountAccessError. carefully. Qed.
#[export] Hint Resolve checkPending_careful persist_careful retryPending_careful accountAccess_careful : careful.
Lemma authorization_careful K u a : careful K (applicationAuthorization u a).
Proof. unfold applicationAuthorization. carefully. Qed.
#[export] Hint Resolve authorization_careful : careful.
Lemma checkSession_careful K a ss touch : careful K (checkApplicationSession a ss touch).
Proof. unfold checkApplicationSession. cbv zeta. carefully. Qed.
#[export] Hint Resolve checkSession_careful : careful.
Lemma launch_careful K user sid app body : careful K (handleApplicationLaunch user sid app body).
Proof. unfold handleApplicationLaunch. cbv zeta. carefully. Qed.
Lemma ended_careful K id reply : careful K (ended id reply).
Proof. unfold ended. carefully. Qed.
#[export] Hint Resolve ended_careful : careful.
Lemma exchange_careful K a allowed form : careful K (exchangeApplicationLaunch a allowed form).
Proof. unfold exchangeApplicationLaunch. cbv zeta. carefully. Qed.
Lemma unauthenticated_careful K r a : careful K (applicationUnauthenticated r a).
Proof. unfold applicationUnauthenticated. carefully. Qed.
#[export] Hint Resolve unauthenticated_careful : careful.
Lemma serve_careful K r a backend : careful K (serveApplication r a backend).
Proof. unfold serveApplication. carefully. Qed.
#[export] Hint Resolve exchange_careful serve_careful : careful.
Lemma host_careful K host launch r backend : careful K (applicationHost host launch r backend).
Proof. unfold applicationHost. carefully. Qed.
Lemma watch_careful K ticks request app session : careful K (watchApplication ticks request app session).
Proof. revert K. induction ticks as [|ticks IH]; intros K; cbn [watchApplication]; carefully. Qed.
Lemma sessionEnd_careful K user id : careful K (handleApplicationSessionEnd user id).
Proof. unfold handleApplicationSessionEnd. carefully. Qed.
Lemma prune_careful K retention : careful K (runSessionPrune retention).
Proof. unfold runSessionPrune. cbv zeta. carefully. Qed.
Lemma validEach_careful K lower grants seen : careful K (validEach lower grants seen).
Proof. revert K seen. induction grants as [|g grants IH]; intros K seen; cbn [validEach]; unfold validGrant; carefully. Qed.
Lemma grants_careful K id : careful K (handleApplicationGrants id).
Proof. unfold handleApplicationGrants. carefully. Qed.
Lemma validateApplication_careful K parse certificates domain portal a : careful K (validateApplication parse certificates domain portal a).
Proof. unfold validateApplication. cbv zeta. carefully. Qed.
#[export] Hint Resolve validEach_careful grants_careful validateApplication_careful : careful.
Lemma admin_careful K s r : careful K (admin_handler s r).
Proof.
  destruct r; cbn [admin_handler]; unfold handleApplicationCreate, handleApplicationUpdate, handleApplicationDelete, handleApplicationGrantsUpdate, validApplicationGrants,
    putApplicationGroup, handleApplicationGroupDelete, handleApplicationSettingsUpdate, handleApplications; cbv zeta; carefully.
Qed.

(** ** Runs *)

Record accounted (w : AppHub) : Prop := {
  ac_marked : ∀ id s, d_sessions (h_db w) !! id = Some s → as_audited s = true → end_record id ∈ recorded (h_db w);
  ac_gone : ∀ id, is_Some (h_born w !! id) → d_sessions (h_db w) !! id = None → end_record id ∈ recorded (h_db w);
}.
(** No row is lost, and what was given out since has a row. *)
Definition advances_to (w w' : AppHub) : Prop :=
  retains (h_db w) (h_db w') ∧ ∀ id, is_Some (h_born w' !! id) → is_Some (h_born w !! id) ∨ is_Some (d_sessions (h_db w') !! id).
Lemma advances_refl w : advances_to w w.
Proof. split; [apply retains_refl|auto]. Qed.
Lemma advances_db w d' w' : h_born w' = h_born w → h_db w' = d' → retains (h_db w) d' → advances_to w w'.
Proof. intros E <- H. split; [done|]. rewrite E. auto. Qed.
Lemma accounted_step w w' : accounted w → advances_to w w' → accounted w'.
Proof.
  intros [Hm Hg] [[R1 R2 R3] Hb]. split.
  - intros id s' Hs' Ha. destruct (R2 id s' Hs' Ha) as (s & Hs & Hsa). apply R3. by eapply Hm.
  - intros id Hi Hn. apply R3. destruct (Hb id Hi) as [Hi'|[s Hs]]; [|congruence]. destruct (d_sessions (h_db w) !! id) as [s|] eqn:E; [|by apply Hg].
    apply (Hm id s E). by eapply R1.
Qed.
Lemma stored_advances o w op : neutral op = true → advances_to w (stored_op o w op).1.
Proof.
  intros Hn. unfold stored_op, afailing. destruct (ao_fail o); [apply advances_refl|]. destruct (transact op (h_db w)) as [d'|] eqn:E; [|apply advances_refl].
  by eapply advances_db; [| |eapply transact_retains].
Qed.
Lemma end_pending_advances o w id at_ : advances_to w (end_pending o w id at_).1.
Proof.
  unfold end_pending. pose proof (stored_advances o (on_streams w (closeSession id (h_streams w))) (OEnd id "access_changed" at_) eq_refl) as H.
  destruct (stored_op _ _ _) as [y [|]]; exact H.
Qed.
Lemma flushed_advances w ids : advances_to w (flushed w ids).
Proof.
  assert (H : retains (h_db w) (h_db (flushed w ids)) ∧ h_born (flushed w ids) = h_born w).
  { revert w. induction ids as [|x ids IH]; intros w; [split; [apply retains_refl|done]|]. cbn. destruct (IH (on_rev (on_db w (EndApplicationSession x.1 "access_changed" x.2 (h_db w))) (settle x.1 (h_rev w)))) as [H1 H2].
    split; [|done]. eapply retains_trans; [|exact H1]. by apply end_where_retains. }
  destruct H. by eapply advances_db.
Qed.
Lemma consume_advances w d d' digest host id credential expires now path : d = h_db w → ConsumeApplicationTicket digest host id credential expires now d = Ok (d', path) →
  advances_to w (match d_sessions d' !! id with Some s => born (on_db w d') id s | None => w end).
Proof.
  intros -> H. unfold ConsumeApplicationTicket in H. destruct (ticketAt _ _ _ _) as [t|]; [|done]. guards_in H. simplify_eq. bool_hyps. cbn. rewrite lookup_insert_eq. split.
  - split; cbn; [| |done].
    + intros i s Hs. by destruct (decide (i = id)) as [->|Hne]; [rewrite lookup_insert_eq|rewrite lookup_insert_ne, Hs].
    + intros i s'. destruct (decide (i = id)) as [->|Hne]; [rewrite lookup_insert_eq; by intros [= <-]|rewrite lookup_insert_ne by done; eauto].
  - intros i. cbn. destruct (decide (i = id)) as [->|Hne]; [rewrite !lookup_insert_eq; eauto|rewrite !lookup_insert_ne by done; auto].
Qed.
Definition marking {B} (c : acall B) : bool := match c with AStore (OMark _) => true | _ => false end.
Lemma aanswer_advances i o w B (c : acall B) : cpre c (fun f => f ∈ recorded (h_db w)) → marking c = false → advances_to w (aanswer i o w c).1.
Proof.
  intros Hp Hm. destruct c; try (apply advances_refl).
  - apply stored_advances. by destruct op.
  - cbn [aanswer]. unfold afailing. destruct (ao_fail o); [apply advances_refl|]. destruct (ConsumeApplicationTicket _ _ _ _ _ _ _) as [[d' path]|] eqn:E; [|apply advances_refl].
    by eapply consume_advances.
  - cbn [aanswer]. destruct (negb _); [apply advances_refl|].
    pose proof (stored_advances o (on_streams w (closeAll (h_streams w))) (OEndAll (rv_reason (h_rev w)) (rv_observedAt (h_rev w))) eq_refl) as H.
    cbn [h_rev on_streams] in *. destruct (stored_op _ _ _) as [y [|]]; exact H.
  - cbn [aanswer]. destruct (rv_quarantine _); [apply advances_refl|]. destruct (_ !! _) as [t|]; [|apply advances_refl].
    pose proof (end_pending_advances o w id t) as H. by destruct (end_pending _ _ _ _).
  - cbn [aanswer]. destruct (rv_quarantine _); [by eapply advances_db; [| |apply retains_refl]|].
    match goal with |- context [end_pending o ?x id ?t] => pose proof (end_pending_advances o x id t) as H; destruct (end_pending o x id t) end. exact H.
  - apply flushed_advances.
  - cbn. destruct (register _ _ _ _). by eapply advances_db; [| |apply retains_refl].
  - by eapply advances_db; [| |apply retains_refl].
  - by eapply advances_db; [| |apply retains_refl].
  - by eapply advances_db; [| |apply retains_refl].
  - by eapply advances_db; [| |apply retains_refl].
Qed.
Lemma mark_accounted w id owner : steady owner w → accounted w → end_record id ∈ recorded (h_db w) → accounted (on_db w (MarkApplicationEndAudited id (h_db w))).
Proof.
  intros Hw [Hm Hg] Hr. split; cbn.
  - intros i s'. rewrite lookup_fmap_Some. intros (s & <- & Hs). destruct (_ && _) eqn:E; [|by eapply Hm]. intros _. bool_hyps. pose proof (v_ids _ _ (y_sound _ _ Hw) i s Hs). change (end_record i ∈ recorded (h_db w)). congruence.
  - intros i Hi. rewrite lookup_fmap, fmap_None. by apply Hg.
Qed.

Section runs.
Context (owner : string → string).

Lemma aperform_accounted i o w B (c : acall B) : steady owner w → accounted w → cpre c (fun f => f ∈ recorded (h_db w)) → accounted (aperform i o w c).1.
Proof using.
  intros Hs Hw Hp. unfold aperform. assert (Ha : accounted (aanswer i o w c).1).
  { destruct (marking c) eqn:Em; [|eapply accounted_step; [done|by apply aanswer_advances]]. destruct c; try discriminate. destruct op; try discriminate. cbn [aanswer].
    unfold stored_op, afailing. destruct (ao_fail o); [done|]. by eapply mark_accounted. }
  destruct (aanswer i o w c) as [w' b]. destruct Ha as [H1 H2]. by split.
Qed.
Lemma aperform_audits i o w B (c : acall B) : cpre c (fun f => f ∈ recorded (h_db w)) →
  recorded (h_db w) ⊆ recorded (h_db (aperform i o w c).1) ∧ ∀ f, cpost c (aperform i o w c).2 f → f ∈ recorded (h_db (aperform i o w c).1).
Proof using.
  intros Hp. unfold aperform. assert (H : recorded (h_db w) ⊆ recorded (h_db (aanswer i o w c).1) ∧ ∀ f, cpost c (aanswer i o w c).2 f → f ∈ recorded (h_db (aanswer i o w c).1)).
  { split.
    - destruct (marking c) eqn:Em; [|exact (rt_audits _ _ (proj1 (aanswer_advances i o w _ c Hp Em)))]. destruct c; try discriminate. destruct op; try discriminate. cbn [aanswer].
      unfold stored_op, afailing. by destruct (ao_fail o).
    - destruct c; try (by intros f []).
      + cbn. unfold afailing. destruct (ao_fail o); intros f [H ->]; [done|]. injection H as H%bool_decide_eq_true. by apply elem_of_union_l.
      + destruct op; try (by intros f []). cbn [aanswer]. unfold stored_op, afailing. destruct (ao_fail o); intros f [H ->]; [done|]. cbn. by apply elem_of_union_l, elem_of_union_l, elem_of_singleton_2. }
  destruct (aanswer i o w c) as [w' b]. exact H.
Qed.

Record audited_run (p : Portal) : Prop := {
  au_hub : accounted (pt_hub p);
  au_threads : Forall (fun q => careful (fun f => f ∈ recorded (h_db (pt_hub p))) (snd q)) (pt_threads p);
}.
Lemma careful_hub p w' : audited_run p → accounted w' → recorded (h_db (pt_hub p)) ⊆ recorded (h_db w') → audited_run (mkPortal w' (pt_threads p) (pt_count p)).
Proof using. intros [Hh Ht] Hw Hle. split; [done|]. cbn. eapply Forall_impl; [exact Ht|]. intros q. apply recorded_more. intros f Hf. by apply Hle. Qed.
(** Everything but the deletion of an account. *)
Definition sparing (e : aevent) : bool := match e with EStore (OUserDeleted _) => false | _ => true end.
Lemma astep_audited p e : keeping owner p → audited_run p → sparing e = true → audited_run (astep owner p e).
Proof using.
  intros Hk Hp He. pose proof Hp as [Hh Ht]. unfold astep. destruct (negb (authentic owner e)) eqn:Ea; [done|]. apply negb_false_iff in Ea.
  assert (Hsp : ∀ q, (∀ K, careful K q) → audited_run (mkPortal (pt_hub p) (pt_threads p ++ [(pt_count p, q)]) (S (pt_count p)))).
  { intros q Hq. split; [done|]. cbn. apply Forall_app. split; [done|]. by apply Forall_singleton. }
  assert (Hd : ∀ A (q : prog A), (∀ K, careful K q) → ∀ K, careful K (discard q)) by (intros A q Hq K; by apply careful_bind).
  destruct e as [user sid app path|host launch r backend|ticks request app session|user id|retention|site r|op|app|n o|now].
  - apply Hsp, Hd. intros K. apply launch_careful.
  - apply Hsp, Hd. intros K. apply host_careful.
  - apply Hsp. intros K. apply watch_careful.
  - apply Hsp, Hd. intros K. apply sessionEnd_careful.
  - apply Hsp, Hd. intros K. apply prune_careful.
  - apply Hsp, Hd. intros K. apply admin_careful.
  - destruct (transact op (h_db (pt_hub p))) as [d'|] eqn:E; [|by split]. assert (Hr : retains (h_db (pt_hub p)) d') by (eapply transact_retains; [|exact E]; by destruct op).
    apply careful_hub; [done| |by apply rt_audits]. eapply accounted_step; [exact Hh|by eapply advances_db].
  - apply careful_hub; [done| |done]. destruct Hh as [H1 H2]. by split.
  - destruct (pt_threads p !! n) as [[i [|B c k]]|] eqn:En; [done| |done]. destruct (novel _ _) eqn:Ev; [|done].
    destruct (Forall_lookup_1 _ _ _ _ Ht En) as [Hc Hk']. cbn [fst snd] in Hc, Hk'. pose proof (aperform_accounted i o _ _ c (kp_hub _ _ Hk) Hh Hc) as Hs.
    destruct (aperform_audits i o (pt_hub p) _ c Hc) as [L1 L2]. destruct (aperform i o (pt_hub p) c) as [w' b]. cbn in *. destruct (careful_hub p w' Hp Hs L1) as [_ Ht'].
    split; [done|]. cbn. apply Forall_insert; [exact Ht'|]. cbn. eapply recorded_more; [|by apply Hk']. intros f [Hf|Hf]; [by apply L1|by apply L2].
  - split; [|constructor]. destruct Hh as [H1 H2]. by split.
Qed.
Lemma arun_audited now es : Forall (fun e => sparing e = true) es → audited_run (arun owner (opening now) es).
Proof using.
  intros Hes. unfold arun. assert (H : keeping owner (opening now) ∧ audited_run (opening now)).
  { split; [apply opening_keeping|]. split; [|constructor]. split; cbn; [done|]. intros id [x Hx]. done. }
  revert H. generalize (opening now). induction Hes as [|e es He Hes IH]; intros p [H1 H2]; [done|]. cbn. apply IH. split; [by apply astep_keeping|by apply astep_audited].
Qed.

(** C19. Unless accounts are deleted, no session of an application disappears without a
    trace: each one that was ever opened is in the table, or the record of its end has
    been written to the audit log and is there still, unless the log's own retention has
    deleted it; however requests, failed and lost writes, deletions of applications,
    housekeeping, the retention of audit records and restarts of the hub interleave. *)
Theorem session_ends_recorded now es id :
  Forall (fun e => sparing e = true) es →
  let w := pt_hub (arun owner (opening now) es) in
  is_Some (h_born w !! id) → d_sessions (h_db w) !! id = None → end_record id ∈ d_audits (h_db w) ∨ end_record id ∈ d_removed (h_db w).
Proof using. intros Hes w Hb Hn. apply elem_of_union. by apply (ac_gone w (au_hub _ (arun_audited now es Hes))). Qed.
End runs.

(** ** Runs *)

Module AuditDemo.
Definition site : Site := mkSite (fun _ => None) (fun _ => false) (fun s => s) (fun _ => "") "apps" "https://hub".
(** The application of [AppDemo] is deleted while a session of it is live. *)
Definition deleting : list aevent := AppDemo.preparing ++ AppDemo.serving ++ EAdmin site (RDelete "a") :: AppDemo.calls 40 4 "" "".
(** The account is deleted instead. *)
Definition dropping : list aevent := AppDemo.preparing ++ AppDemo.serving ++ EStore (OUserDeleted "u") :: EHousekeeping Hour :: AppDemo.calls 40 4 "" "".
End AuditDemo.

Lemma session_ends_recorded_witness :
  let w := pt_hub (arun AppDemo.owner (opening AppDemo.start) AuditDemo.deleting) in
  is_Some (h_born w !! "s1") ∧ d_sessions (h_db w) !! "s1" = None ∧ (end_record "s1" ∈ d_audits (h_db w) ∨ end_record "s1" ∈ d_removed (h_db w)).
Proof.
  cbv zeta. split_and!; [vm_compute; by eexists|vm_compute; reflexivity|].
  apply (session_ends_recorded AppDemo.owner AppDemo.start AuditDemo.deleting "s1"); [|vm_compute; by eexists|vm_compute; reflexivity].
  apply Forall_forall. intros e He. apply list_elem_of_In in He. revert e He. apply forallb_forall. vm_compute. reflexivity.
Defined.

(** Deleting an account takes its sessions with it, live ones too, and nothing records
    their ends. *)
Example dropped_account_unrecorded :
  let w := pt_hub (arun AppDemo.owner (opening AppDemo.start) AuditDemo.dropping) in
  is_Some (h_born w !! "s1") ∧ d_sessions (h_db w) !! "s1" = None ∧ end_record "s1" ∉ recorded (h_db w).
Proof. cbv zeta. split_and!; [vm_compute; by eexists|vm_compute; reflexivity|]. apply (bool_decide_eq_false_1 (_ ∈ _)). vm_compute. reflexivity. Qed.
