(* ===== verification/AppConn.v ===== *)
(** The byte stream of a web application between the hub and a node
    (proto/applicationproxy/conn.go): writers, the one sender, the reception of frames
    and readers, each step a turn of its goroutine.

    A [Tunnel] is one direction: connection [t_a] writes, the frames it sends travel
    in order, connection [t_b] reads.  The other direction runs over the same two
    connections with its own halves, and can only close them as far as this one can
    see, which events do at any time. *)

From S2P Require Import Prelude.

Definition ErrFrame : goerr := Sentinel "invalid application byte frame".
Definition ErrClosed : goerr := Sentinel "net.ErrClosed".
Definition MaxFrameBytes : Z := 65536.
Definition frameBytes : nat := Z.to_nat MaxFrameBytes.
#[global] Arguments frameBytes : simpl never.
Record Frame := mkFrame { f_Sequence : Z; f_Data : list Z; f_EOF : bool }.

(** ** A connection *)

(** The sender: at the top of its loop, in its select, with a request it has not checked,
    in a call of send, after a failed one, and gone. *)
Inductive sender := Top | Select | Holding (id : nat) (f : Frame) | Sending (id : nat) (f : Frame) | Failing | Stopped.
(** The call that holds writeMu: the request it waits for and what is still to be written. *)
Record wcall := mkWcall { w_id : nat; w_frame : Frame; w_rest : list Z; w_written : Z; w_queued : bool }.
Record WriteHalf := mkWriteHalf {
  h_outgoing : option (nat * Frame); h_results : gmap nat (option goerr); h_sender : sender; h_writer : option wcall; h_next : nat; h_writeEOF : bool; h_sendSequence : Z;
}.
Record ReadHalf := mkReadHalf { r_incoming : option Frame; r_readData : list Z; r_readEOF : bool; r_receiveEOF : bool; r_receiveSequence : Z }.
Record Conn := mkConn { c_done : bool; c_write : WriteHalf; c_read : ReadHalf }.
Definition NewConn : Conn := mkConn false (mkWriteHalf None ∅ Top None 0 false 0) (mkReadHalf None [] false false 0).
Definition Close (c : Conn) : Conn := mkConn true (c_write c) (c_read c).
Definition on_write (c : Conn) (h : WriteHalf) : Conn := mkConn (c_done c) h (c_read c).
Definition on_read (c : Conn) (r : ReadHalf) : Conn := mkConn (c_done c) (c_write c) r.

Definition set_sender (h : WriteHalf) (s : sender) : WriteHalf := mkWriteHalf (h_outgoing h) (h_results h) s (h_writer h) (h_next h) (h_writeEOF h) (h_sendSequence h).
Definition set_outgoing (h : WriteHalf) (o : option (nat * Frame)) : WriteHalf := mkWriteHalf o (h_results h) (h_sender h) (h_writer h) (h_next h) (h_writeEOF h) (h_sendSequence h).
Definition set_result (h : WriteHalf) (id : nat) (r : option goerr) : WriteHalf := mkWriteHalf (h_outgoing h) (<[id := r]> (h_results h)) (h_sender h) (h_writer h) (h_next h) (h_writeEOF h) (h_sendSequence h).
Definition set_writer (h : WriteHalf) (w : option wcall) : WriteHalf := mkWriteHalf (h_outgoing h) (h_results h) (h_sender h) w (h_next h) (h_writeEOF h) (h_sendSequence h).

(** ** Writing *)

(** The request of a frame, with a result of its own. *)
Definition writeFrame (h : WriteHalf) (f : Frame) (rest : list Z) (written : Z) : WriteHalf :=
  mkWriteHalf (h_outgoing h) (h_results h) (h_sender h) (Some (mkWcall (h_next h) f rest written false)) (S (h_next h)) (h_writeEOF h) (h_sendSequence h).
(** One turn of the loop of [Write]; the call is over when nothing is left. *)
Definition writeTurn (h : WriteHalf) (data : list Z) (written : Z) : WriteHalf :=
  match data with
  | [] => set_writer h None
  | _ => writeFrame h (mkFrame (h_sendSequence h) (take frameBytes data) false) (drop frameBytes data) written
  end.
Definition Write (c : Conn) (data : list Z) : Conn := if h_writeEOF (c_write c) then c else on_write c (writeTurn (c_write c) data 0).
Definition CloseWrite (c : Conn) : Conn :=
  let h := c_write c in if h_writeEOF h then c else on_write c (writeFrame h (mkFrame (h_sendSequence h) [] true) [] 0).
(** The request goes into the channel, which holds one. *)
Definition queueTurn (h : WriteHalf) : WriteHalf :=
  match h_writer h, h_outgoing h with
  | Some w, None => if w_queued w then h else
      set_writer (set_outgoing h (Some (w_id w, w_frame w))) (Some (mkWcall (w_id w) (w_frame w) (w_rest w) (w_written w) true))
  | _, _ => h
  end.
(** The result of the request arrives. *)
Definition resultTurn (h : WriteHalf) : WriteHalf :=
  match h_writer h with
  | Some w =>
      if negb (w_queued w) then h else
      match h_results h !! w_id w with
      | Some None =>
          let h := mkWriteHalf (h_outgoing h) (h_results h) (h_sender h) (h_writer h) (h_next h) (h_writeEOF h || f_EOF (w_frame w)) (u64 (h_sendSequence h + 1)) in
          writeTurn h (w_rest w) (w_written w + Z.of_nat (length (f_Data (w_frame w))))
      | Some (Some _) => set_writer h None
      | None => h
      end
  | None => h
  end.
(** The connection is closed, or the write stalls and closes it. *)
Definition abandonTurn (c : Conn) (stalled : bool) : Conn :=
  match h_writer (c_write c) with
  | Some _ => if c_done c then on_write c (set_writer (c_write c) None) else if stalled then Close (on_write c (set_writer (c_write c) None)) else c
  | None => c
  end.

(** ** Sending *)

(** [closing]: the select prefers done; [failed]: what send answers.  The frame that was
    sent, if one was. *)
Definition sendTurn (c : Conn) (closing : bool) (failed : option goerr) : Conn * option Frame :=
  let h := c_write c in
  match h_sender h with
  | Top => (on_write c (set_sender h (if c_done c then Stopped else Select)), None)
  | Select =>
      if closing && c_done c then (on_write c (set_sender h Stopped), None) else
      match h_outgoing h with
      | Some (id, f) => (on_write c (set_sender (set_outgoing h None) (Holding id f)), None)
      | None => (c, None)
      end
  | Holding id f =>
      (on_write c (if c_done c then set_sender (set_result h id (Some ErrClosed)) Stopped else set_sender h (Sending id f)), None)
  | Sending id f =>
      match failed with
      | None => (on_write c (set_sender (set_result h id None) Top), Some f)
      | Some e => (on_write c (set_sender (set_result h id (Some e)) Failing), None)
      end
  | Failing => (Close (on_write c (set_sender h Stopped)), None)
  | Stopped => (c, None)
  end.

(** ** Receiving and reading *)

Definition frame_ok (r : ReadHalf) (f : Frame) : bool :=
  negb (r_receiveEOF r) && (f_Sequence f =? r_receiveSequence r) && (Z.of_nat (length (f_Data f)) <=? MaxFrameBytes)
  && (if f_EOF f then bool_decide (f_Data f = []) else negb (bool_decide (f_Data f = []))).
(** [None]: it waits. *)
Definition Deliver (c : Conn) (f : Frame) (closing : bool) : option (Conn * result unit) :=
  let r := c_read c in
  if negb (frame_ok r f) then Some (Close c, Err ErrFrame) else
  if c_done c && (closing || negb (bool_decide (r_incoming r = None))) then Some (c, Err ErrClosed) else
  match r_incoming r with
  | Some _ => None
  | None => Some (on_read c (mkReadHalf (Some f) (r_readData r) (r_readEOF r) (f_EOF f) (u64 (r_receiveSequence r + 1))), Ok tt)
  end.
Inductive ranswer := RBytes (l : list Z) | REOF | RClosed | RWait.
(** One turn of the loop of [Read], for [n] bytes. *)
Definition readTurn (c : Conn) (n : nat) : Conn * ranswer :=
  let r := c_read c in
  if c_done c then (c, RClosed) else
  match r_readData r with
  | _ :: _ => (on_read c (mkReadHalf (r_incoming r) (drop n (r_readData r)) (r_readEOF r) (r_receiveEOF r) (r_receiveSequence r)), RBytes (take n (r_readData r)))
  | [] =>
      if r_readEOF r then (c, REOF) else
      match r_incoming r with
      | Some f => (on_read c (mkReadHalf None (f_Data f) (f_EOF f) (r_receiveEOF r) (r_receiveSequence r)), RWait)
      | None => (c, RWait)
      end
  end.

(** ** A direction of a tunnel *)

(** [t_receiving]: the loop that receives frames runs.  Not of the program: [t_offered], the
    bytes given to [Write] while the connection was open for writing; [t_sent], the frames
    that were sent; [t_got], the bytes that were read. *)
Record Tunnel := mkTunnel { t_a : Conn; t_link : list Frame; t_receiving : bool; t_b : Conn; t_offered : list Z; t_sent : list Frame; t_got : list Z; t_ended : bool }.
Inductive tevent :=
| EWrite (data : list Z) | ECloseWrite | EQueue | EResult | EAbandon (stalled : bool) | ESend (closing : bool) (failed : option goerr)
| EReceive (closing : bool) | ERead (n : nat) | ECloseA | ECloseB.
Definition with_a (t : Tunnel) (a : Conn) : Tunnel := mkTunnel a (t_link t) (t_receiving t) (t_b t) (t_offered t) (t_sent t) (t_got t) (t_ended t).
Definition with_b (t : Tunnel) (b : Conn) : Tunnel := mkTunnel (t_a t) (t_link t) (t_receiving t) b (t_offered t) (t_sent t) (t_got t) (t_ended t).
Definition free (c : Conn) : bool := match h_writer (c_write c) with None => true | Some _ => false end.
Definition tstep (t : Tunnel) (e : tevent) : Tunnel :=
  let a := t_a t in let b := t_b t in
  match e with
  | EWrite data =>
      if negb (free a) then t else
      let offered := if c_done a || h_writeEOF (c_write a) then t_offered t else t_offered t ++ data in
      mkTunnel (Write a data) (t_link t) (t_receiving t) b offered (t_sent t) (t_got t) (t_ended t)
  | ECloseWrite => if negb (free a) then t else with_a t (CloseWrite a)
  | EQueue => with_a t (on_write a (queueTurn (c_write a)))
  | EResult => with_a t (on_write a (resultTurn (c_write a)))
  | EAbandon stalled => with_a t (abandonTurn a stalled)
  | ESend closing failed =>
      match sendTurn a closing failed with
      | (a, Some f) => mkTunnel a (t_link t ++ [f]) (t_receiving t) b (t_offered t) (t_sent t ++ [f]) (t_got t) (t_ended t)
      | (a, None) => with_a t a
      end
  | EReceive closing =>
      match t_link t with
      | f :: link =>
          if negb (t_receiving t) then t else
          match Deliver b f closing with
          | Some (b, r) => mkTunnel a link (is_ok r) b (t_offered t) (t_sent t) (t_got t) (t_ended t)
          | None => t
          end
      | [] => t
      end
  | ERead n =>
      match readTurn b n with
      | (b, RBytes l) => mkTunnel a (t_link t) (t_receiving t) b (t_offered t) (t_sent t) (t_got t ++ l) (t_ended t)
      | (b, REOF) => mkTunnel a (t_link t) (t_receiving t) b (t_offered t) (t_sent t) (t_got t) true
      | (b, _) => with_b t b
      end
  | ECloseA => with_a t (Close a)
  | ECloseB => with_b t (Close b)
  end.
Definition trun (t : Tunnel) (es : list tevent) : Tunnel := foldl tstep t es.
Definition opened : Tunnel := mkTunnel NewConn [] true NewConn [] [] [] false.

(** ** The invariant *)

Definition payload (fs : list Frame) : list Z := concat (f_Data <$> fs).
Lemma payload_app fs gs : payload (fs ++ gs) = payload fs ++ payload gs.
Proof. unfold payload. by rewrite fmap_app, concat_app. Qed.
Lemma payload_one f : payload [f] = f_Data f.
Proof. unfold payload. cbn. apply app_nil_r. Qed.

Definition shaped (f : Frame) : Prop := (f_EOF f = true → f_Data f = []) ∧ (f_EOF f = false → f_Data f ≠ []) ∧ Z.of_nat (length (f_Data f)) ≤ MaxFrameBytes.
Definition numbered (n : nat) (f : Frame) : Prop := f_Sequence f = u64 (Z.of_nat n) ∧ shaped f.
Definition open_ended (fs : list Frame) : Prop := Forall (fun f => f_EOF f = false) fs.
Definition idle (s : sender) : Prop := s = Top ∨ s = Select.
Definition sound_sender (s : sender) : Prop := s ≠ Failing ∧ s ≠ Stopped.

(** The frame of a call of [Write] that is not yet sent, or that is. *)
Definition unsent (h : WriteHalf) (w : wcall) (sent : list Frame) (offered : list Z) : Prop :=
  h_sendSequence h = u64 (Z.of_nat (length sent)) ∧ open_ended sent ∧ offered = payload sent ++ f_Data (w_frame w) ++ w_rest w ∧ h_results h !! w_id w = None
  ∧ if w_queued w then (h_outgoing h = Some (w_id w, w_frame w) ∧ idle (h_sender h))
                       ∨ (h_outgoing h = None ∧ (h_sender h = Holding (w_id w) (w_frame w) ∨ h_sender h = Sending (w_id w) (w_frame w)))
    else h_outgoing h = None ∧ idle (h_sender h).
Definition just_sent (h : WriteHalf) (w : wcall) (sent : list Frame) (offered : list Z) : Prop :=
  w_queued w = true ∧ h_results h !! w_id w = Some None ∧ h_outgoing h = None ∧ idle (h_sender h)
  ∧ ∃ before, sent = before ++ [w_frame w] ∧ h_sendSequence h = u64 (Z.of_nat (length before)) ∧ open_ended before ∧ offered = payload sent ++ w_rest w.
Definition exact_ (h : WriteHalf) (sent : list Frame) (offered : list Z) : Prop :=
  match h_writer h with
  | None => h_outgoing h = None ∧ idle (h_sender h) ∧ h_sendSequence h = u64 (Z.of_nat (length sent)) ∧ payload sent = offered ∧ (h_writeEOF h = false → open_ended sent)
  | Some w => h_writeEOF h = false ∧ f_Sequence (w_frame w) = h_sendSequence h ∧ shaped (w_frame w) ∧ (f_EOF (w_frame w) = true → w_rest w = [])
              ∧ (unsent h w sent offered ∨ just_sent h w sent offered)
  end.

Record writing (c : Conn) (sent : list Frame) (offered : list Z) : Prop := {
  wr_sent : ∀ k f, sent !! k = Some f → numbered k f ∧ (f_EOF f = true → S k = length sent);
  wr_prefix : payload sent `prefix_of` offered;
  wr_eof : ¬ open_ended sent → payload sent = offered;
  wr_sending : ∀ id f, h_sender (c_write c) = Sending id f → numbered (length sent) f ∧ open_ended sent ∧ payload sent ++ f_Data f `prefix_of` offered
                 ∧ (f_EOF f = true → payload sent = offered);
  wr_failing : h_sender (c_write c) = Failing → open_ended sent;
  wr_stopped : h_sender (c_write c) = Stopped → c_done c = true;
  wr_fresh : (∀ id, is_Some (h_results (c_write c) !! id) → (id < h_next (c_write c))%nat) ∧ ∀ w, h_writer (c_write c) = Some w → (w_id w < h_next (c_write c))%nat;
  wr_held : ∀ id f, h_sender (c_write c) = Holding id f ∨ h_sender (c_write c) = Sending id f ∨ h_outgoing (c_write c) = Some (id, f) → (id < h_next (c_write c))%nat;
  wr_exact : c_done c = false → sound_sender (h_sender (c_write c)) → exact_ (c_write c) sent offered;
}.
Record reading (r : ReadHalf) (accepted : list Frame) (got : list Z) : Prop := {
  rd_sequence : r_receiveSequence r = u64 (Z.of_nat (length accepted));
  rd_payload : payload accepted = got ++ r_readData r ++ default [] (f_Data <$> r_incoming r);
  rd_eof : r_receiveEOF r = true → ¬ open_ended accepted;
  rd_incoming : ∀ f, r_incoming r = Some f → f_EOF f = true → r_receiveEOF r = true;
  rd_readEOF : r_readEOF r = true → r_receiveEOF r = true ∧ r_incoming r = None;
}.
Record flowing (t : Tunnel) : Prop := {
  fl_write : writing (t_a t) (t_sent t) (t_offered t);
  fl_read : ∃ n, (n ≤ length (t_sent t))%nat ∧ (t_receiving t = true → t_link t = drop n (t_sent t)) ∧ reading (c_read (t_b t)) (take n (t_sent t)) (t_got t);
  fl_ended : t_ended t = true → r_readEOF (c_read (t_b t)) = true ∧ r_readData (c_read (t_b t)) = [];
}.

(** *** The side that writes *)


Lemma take_shaped seq data : data ≠ [] → shaped (mkFrame seq (take frameBytes data) false).
Proof.
  intros Hd. unfold shaped, frameBytes. assert (Hp : 0 < MaxFrameBytes) by done. revert Hp. generalize MaxFrameBytes. intros m Hp. split_and!; cbn; [done| |].
  - intros _. destruct data as [|x data]; [done|]. destruct (Z.to_nat m) eqn:E; [lia|done].
  - rewrite length_take. lia.
Qed.
#[local] Opaque frameBytes.
Lemma writing_done c c' sent offered : writing c sent offered → c_write c' = c_write c → c_done c' = true → writing c' sent offered.
Proof. intros [H1 H2 H3 H4 H5 H6 H7 H8 H9] E Hd. split; rewrite ?E; try done. congruence. Qed.
Lemma no_result h id : (∀ i, is_Some (h_results h !! i) → (i < h_next h)%nat) → (h_next h ≤ id)%nat → h_results h !! id = None.
Proof. intros H Hle. destruct (h_results h !! id) eqn:E; [|done]. assert (id < h_next h)%nat by eauto. lia. Qed.
Lemma frames_end c sent offered : writing c sent offered → c_done c = false → h_writer (c_write c) = None → h_writeEOF (c_write c) = false →
  open_ended sent ∧ ∀ id f, h_sender (c_write c) ≠ Sending id f.
Proof.
  intros Hw Hd Hn He. destruct (h_sender (c_write c)) eqn:Es; try (split; [|congruence]).
  all: try (by apply (wr_failing _ _ _ Hw)). all: try (by rewrite (wr_stopped _ _ _ Hw Es) in Hd).
  all: pose proof (wr_exact _ _ _ Hw Hd) as Hx; unfold exact_ in Hx; rewrite Hn, Es in Hx; destruct Hx as (_ & Hi & _ & _ & Ho); [by split|].
  all: try (by apply Ho). all: by destruct Hi.
Qed.
(** A new request, when the sender waits for one. *)
Lemma request_writing c sent offered f rest written data : writing c sent offered → h_writer (c_write c) = None → h_writeEOF (c_write c) = false →
  f_Sequence f = h_sendSequence (c_write c) → shaped f → data = f_Data f ++ rest → (f_EOF f = true → rest = []) →
  writing (on_write c (writeFrame (c_write c) f rest written)) sent (if c_done c then offered else offered ++ data).
Proof.
  intros Hw Hn He Hs Hf Hd Hr. pose proof (frames_end c sent offered Hw) as Hfe. destruct Hw as [H1 H2 H3 H4 H5 H6 [H7 H7'] H8 H9]. split; cbn; try done.
  - destruct (c_done c); [done|]. by apply prefix_app_r.
  - intros Ho. destruct (c_done c) eqn:Ed; [by apply H3|]. destruct (Hfe eq_refl Hn He). done.
  - intros id g Hg. destruct (H4 id g Hg) as (A & B & C & D). destruct (c_done c) eqn:Ed; [done|]. destruct (Hfe eq_refl Hn He) as [_ Hns]. by destruct (Hns id g).
  - split; [intros id Hid; specialize (H7 id Hid); lia|]. intros w [= <-]. cbn. lia.
  - intros id g Hg. specialize (H8 id g Hg). lia.
  - intros Ed Hss. rewrite Ed. specialize (H9 Ed Hss). unfold exact_ in H9. rewrite Hn in H9. destruct H9 as (A & B & C & D & E). unfold exact_. cbn. split_and!; try done. left.
    unfold unsent. cbn. split_and!; try done; [by apply E|by rewrite D, Hd|]. by apply no_result.
Qed.
Lemma writing_same c h' sent offered : writing c sent offered → h_sender h' = h_sender (c_write c) → h_outgoing h' = h_outgoing (c_write c) →
  h_results h' = h_results (c_write c) → h_next h' = h_next (c_write c) → (∀ w, h_writer h' = Some w → (w_id w < h_next (c_write c))%nat) →
  (c_done c = false → sound_sender (h_sender (c_write c)) → exact_ h' sent offered) → writing (on_write c h') sent offered.
Proof. intros [H1 H2 H3 H4 H5 H6 [H7 H7'] H8 H9] E1 E2 E3 E4 Hw Hx. split; cbn; rewrite ?E1, ?E2, ?E3, ?E4; done. Qed.

Lemma Write_writing c sent offered data : writing c sent offered → h_writer (c_write c) = None →
  writing (Write c data) sent (if c_done c || h_writeEOF (c_write c) then offered else offered ++ data).
Proof.
  intros Hw Hn. unfold Write. destruct (h_writeEOF (c_write c)) eqn:He; [by rewrite orb_true_r|]. rewrite orb_false_r. destruct data as [|x data].
  - rewrite app_nil_r. replace (if c_done c then offered else offered) with offered by (by destruct (c_done c)). apply writing_same; try done. intros Hd Hs.
    pose proof (wr_exact _ _ _ Hw Hd Hs) as Hx. unfold exact_ in *. cbn. by rewrite Hn in Hx.
  - cbn [writeTurn]. cbv zeta. eapply request_writing; try done; [by apply take_shaped|]. cbn [f_Data]. symmetry. apply take_drop.
Qed.
Lemma CloseWrite_writing c sent offered : writing c sent offered → h_writer (c_write c) = None → writing (CloseWrite c) sent offered.
Proof.
  intros Hw Hn. unfold CloseWrite. cbv zeta. destruct (h_writeEOF (c_write c)) eqn:He; [done|].
  pose proof (request_writing c sent offered (mkFrame (h_sendSequence (c_write c)) [] true) [] 0 [] Hw Hn He eq_refl) as H. rewrite (app_nil_r offered) in H.
  destruct (c_done c); apply H; done.
Qed.
Lemma queue_writing c sent offered : writing c sent offered → writing (on_write c (queueTurn (c_write c))) sent offered.
Proof.
  intros Hw. unfold queueTurn. destruct (h_writer (c_write c)) as [w|] eqn:Ew; [|by destruct c]. destruct (h_outgoing (c_write c)) as [q|] eqn:Eo; [by destruct c|].
  destruct (w_queued w) eqn:Eq; [by destruct c|]. destruct Hw as [H1 H2 H3 H4 H5 H6 [H7 H7'] H8 H9]. split; cbn; try done.
  - split; [done|]. intros w' [= <-]. cbn. by apply H7'.
  - intros id f [H|[H|H]]; [apply (H8 id f); auto..|]. injection H as <- <-. by apply H7'.
  - intros Hd Hs. specialize (H9 Hd Hs). unfold exact_ in *. rewrite Ew in H9. cbn. destruct H9 as (A & B & C & D & [E|E]); [|destruct E; congruence].
    split_and!; try done. left. unfold unsent in *. rewrite Eq in E. cbn. destruct E as (E1 & E2 & E3 & E4 & E5 & E6). split_and!; try done. by left.
Qed.
Lemma result_writing c sent offered : writing c sent offered → writing (on_write c (resultTurn (c_write c))) sent offered.
Proof.
  intros Hw. unfold resultTurn. destruct (h_writer (c_write c)) as [w|] eqn:Ew; [|by destruct c]. destruct (w_queued w) eqn:Eq; cbn [negb]; [|by destruct c].
  destruct (h_results (c_write c) !! w_id w) as [[e|]|] eqn:Er; [| |by destruct c].
  { apply writing_same; try done. intros Hd Hs. pose proof (wr_exact _ _ _ Hw Hd Hs) as Hx. unfold exact_ in Hx. rewrite Ew in Hx.
    destruct Hx as (_ & _ & _ & _ & [(_ & _ & _ & E & _)|(_ & E & _)]); congruence. }
  cbv zeta. set (h := mkWriteHalf (h_outgoing (c_write c)) (h_results (c_write c)) (h_sender (c_write c)) None (h_next (c_write c))
                        (h_writeEOF (c_write c) || f_EOF (w_frame w)) (u64 (h_sendSequence (c_write c) + 1))).
  assert (Hx : c_done c = false → sound_sender (h_sender (c_write c)) → exact_ h sent (payload sent) ∧ offered = payload sent ++ w_rest w ∧ (f_EOF (w_frame w) = true → w_rest w = [])
    ∧ open_ended (take (pred (length sent)) sent) ∧ h_writeEOF (c_write c) = false).
  { intros Hd Hs. pose proof (wr_exact _ _ _ Hw Hd Hs) as Hx. unfold exact_ in Hx. rewrite Ew in Hx. destruct Hx as (A & B & C & D & [(_ & _ & _ & E & _)|E]); [congruence|].
    destruct E as (_ & _ & E1 & E2 & before & -> & E3 & E4 & E5). rewrite length_app, Nat.add_comm. cbn [pred length Nat.add]. rewrite take_app_length. split_and!; try done.
    unfold exact_. cbn. split_and!; try done.
    - rewrite E3, length_app. cbn. unfold u64. rewrite Zplus_mod_idemp_l. f_equal. lia.
    - rewrite A. cbn. intros Hf. apply Forall_app. by split; [|apply Forall_singleton]. }
  destruct (w_rest w) as [|x rest] eqn:Erest.
  - cbn [writeTurn]. apply writing_same; try done. intros Hd Hs. destruct (Hx Hd Hs) as (A & B & _). rewrite app_nil_r in B. subst offered. exact A.
  - cbn [writeTurn]. cbv zeta. cbn [h_sendSequence]. set (f := mkFrame _ _ _).
    destruct Hw as [H1 H2 H3 H4 H5 H6 [H7 H7'] H8 H9]. split; cbn; try done.
    + split; [intros id Hid; specialize (H7 id Hid); lia|]. intros w' [= <-]. cbn. lia.
    + intros id g Hg. specialize (H8 id g Hg). lia.
    + intros Hd Hs. destruct (Hx Hd Hs) as (A & B & C & D & E). destruct (f_EOF (w_frame w)) eqn:Ef; [by specialize (C eq_refl)|]. unfold exact_ in A. cbn in A.
      destruct A as (A1 & A2 & A3 & A4 & A5). rewrite E in A5. unfold exact_. cbn. split_and!; try done; [by rewrite E|by apply take_shaped|]. left. unfold unsent. cbn.
      split_and!; try done; [by apply A5|by rewrite take_drop|]. by apply no_result.
Qed.
Lemma abandon_writing c sent offered stalled : writing c sent offered → writing (abandonTurn c stalled) sent offered.
Proof.
  intros Hw. unfold abandonTurn. destruct (h_writer (c_write c)); [|done]. destruct (c_done c) eqn:Ed; [apply writing_same; try done; congruence|].
  destruct stalled; [|done]. change (Close (on_write c (set_writer (c_write c) None))) with (on_write (Close c) (set_writer (c_write (Close c)) None)).
  apply writing_same; try done. by eapply writing_done.
Qed.
Lemma exact_idle h s sent offered : exact_ h sent offered → idle (h_sender h) → idle s → exact_ (set_sender h s) sent offered.
Proof.
  unfold exact_. cbn. destruct (h_writer h) as [w|]; [|naive_solver]. intros (A & B & C & D & E) Hi Hs. split_and!; try done. destruct E as [E|E]; [left|right].
  - unfold unsent in *. cbn. destruct E as (E1 & E2 & E3 & E4 & E5). split_and!; try done. destruct (w_queued w); [|naive_solver]. left. destruct E5 as [[? ?]|[_ [E|E]]]; [done|..]; destruct Hi; congruence.
  - unfold just_sent in *. cbn. naive_solver.
Qed.
(** What the sender holds is the request of the call that waits. *)
Lemma exact_held h sent offered id f : exact_ h sent offered → h_outgoing h = Some (id, f) ∨ h_sender h = Holding id f ∨ h_sender h = Sending id f →
  ∃ w, h_writer h = Some w ∧ id = w_id w ∧ f = w_frame w ∧ w_queued w = true ∧ h_writeEOF h = false ∧ f_Sequence f = h_sendSequence h ∧ shaped f ∧ (f_EOF f = true → w_rest w = []) ∧ unsent h w sent offered.
Proof.
  unfold exact_. destruct (h_writer h) as [w|]; [|intros (A & [B|B] & _) Hh; destruct Hh as [Hh|[Hh|Hh]]; congruence]. intros (A & B & C & D & E) Hh.
  destruct E as [E|(_ & _ & E1 & [E2|E2] & _)]; [|destruct Hh as [Hh|[Hh|Hh]]; congruence..]. exists w. pose proof E as (_ & _ & _ & _ & E5).
  assert (id = w_id w ∧ f = w_frame w ∧ w_queued w = true) as (-> & -> & Eq); [|by split_and!].
  destruct (w_queued w); [destruct E5 as [[E5 [E6|E6]]|[E5 [E6|E6]]]|destruct E5 as [E5 [E6|E6]]]; destruct Hh as [Hh|[Hh|Hh]]; split_and!; congruence.
Qed.
Lemma sent_writing c id f sent offered : writing c sent offered → h_sender (c_write c) = Sending id f →
  writing (on_write c (set_sender (set_result (c_write c) id None) Top)) (sent ++ [f]) offered.
Proof.
  intros Hw Es. destruct (wr_sending _ _ _ Hw id f Es) as (A & B & C & D). pose proof (wr_held _ _ _ Hw id f (or_intror (or_introl Es))) as Hid.
  pose proof (wr_exact _ _ _ Hw) as Hx. destruct Hw as [H1 H2 H3 H4 H5 H6 [H7 H7'] H8 H9]. split; cbn; try done.
  - intros k g Hk. apply lookup_app_Some in Hk as [Hk|[Hle Hk]].
    + destruct (H1 k g Hk) as [Hn _]. split; [done|]. intros Hg. by rewrite (Forall_lookup_1 _ _ _ _ B Hk) in Hg.
    + apply list_lookup_singleton_Some in Hk as [Hz <-]. assert (k = length sent) as -> by lia. split; [done|]. intros _. rewrite length_app. cbn. lia.
  - by rewrite payload_app, payload_one.
  - intros Ho. rewrite payload_app, payload_one. destruct (f_EOF f) eqn:Ef; [|destruct Ho; apply Forall_app; by split; [|apply Forall_singleton]].
    destruct A as [_ [Ha _]]. rewrite Ha, app_nil_r by done. by apply D.
  - split; [|done]. intros i. destruct (decide (i = id)) as [->|Hne]; [done|rewrite lookup_insert_ne by done; auto].
  - intros i g [?|[?|Hg]]; [done..|]. by apply (H8 i g); auto.
  - intros Hd _. destruct (exact_held (c_write c) sent offered id f) as (w & Ew & -> & -> & Eq & X1 & X2 & X3 & X4 & X5); [apply Hx; [done|by rewrite Es]|auto|].
    unfold exact_. cbn. rewrite Ew. split_and!; try done. right. unfold just_sent. cbn. rewrite lookup_insert_eq. unfold unsent in X5. rewrite Eq, Es in X5. destruct X5 as (Y1 & Y2 & Y3 & Y4 & Y5).
    split_and!; try done; [destruct Y5 as [[_ [?|?]]|[? _]]; done|by left|]. exists sent. split_and!; try done. by rewrite payload_app, payload_one, <- app_assoc.
Qed.
Lemma send_writing c closing failed sent offered : writing c sent offered →
  let '(c', f) := sendTurn c closing failed in writing c' (sent ++ option_list f) offered.
Proof.
  intros Hw. pose proof (wr_held _ _ _ Hw) as Hid. pose proof (wr_exact _ _ _ Hw) as Hx. unfold sendTurn. cbv zeta. destruct (h_sender (c_write c)) as [| |id f|id f| |] eqn:Es.
  - cbn. rewrite app_nil_r. destruct Hw as [H1 H2 H3 H4 H5 H6 H7 H8 H9]. split; cbn; try done; destruct (c_done c) eqn:Ed; try done.
    + intros i g [?|[?|Hg]]; [done..|]. apply (H8 i g). auto.
    + intros i g [?|[?|Hg]]; [done..|]. apply (H8 i g). auto.
    + intros _ _. apply exact_idle; [by apply Hx|rewrite Es; by left|by right].
  - destruct (closing && c_done c) eqn:Ec; [|destruct (h_outgoing (c_write c)) as [[id f]|] eqn:Eo]; cbn; rewrite app_nil_r; [| |done].
    + bool_hyps. destruct Hw as [H1 H2 H3 H4 H5 H6 H7 H8 H9]. split; cbn; try done; [intros i g [?|[?|Hg]]; [done..|]; apply (H8 i g); auto|congruence].
    + destruct Hw as [H1 H2 H3 H4 H5 H6 H7 H8 H9]. split; cbn; try done.
      * intros i g [Hg|[?|Hg]]; [|done|done]. injection Hg as <- <-. apply (H8 id f). auto.
      * intros Hd _. destruct (exact_held (c_write c) sent offered id f) as (w & Ew & -> & -> & Eq & X1 & X2 & X3 & X4 & X5); [by apply Hx|auto|].
        unfold exact_. cbn. rewrite Ew. split_and!; try done. left. unfold unsent in *. cbn. rewrite Eq in *. naive_solver.
  - cbn. rewrite app_nil_r. pose proof (Hid id f (or_introl eq_refl)) as Hlt. destruct (c_done c) eqn:Ed.
    + destruct Hw as [H1 H2 H3 H4 H5 H6 [H7 H7'] H8 H9]. split; cbn; try done; [|intros i g [?|[?|Hg]]; [done..|]; apply (H8 i g); auto|congruence].
      split; [|done]. intros i. destruct (decide (i = id)) as [->|Hne]; [done|rewrite lookup_insert_ne by done; auto].
    + destruct (exact_held (c_write c) sent offered id f) as (w & Ew & -> & -> & Eq & X1 & X2 & X3 & X4 & X5); [by apply Hx|auto|].
      pose proof X5 as (Y1 & Y2 & Y3 & Y4 & Y5). destruct Hw as [H1 H2 H3 H4 H5 H6 H7 H8 H9]. split; cbn; try done.
      * intros i g [= <- <-]. split; [split; [by rewrite X2|done]|]. split; [done|]. split.
        -- rewrite Y3, app_assoc. by apply prefix_app_r.
        -- intros He. destruct X3 as [Hd _]. by rewrite Y3, (Hd He), (X4 He), app_nil_r.
      * intros i g [?|[Hg|Hg]]; [done| |by apply (H8 i g); auto]. injection Hg as <- <-. done.
      * intros _ _. unfold exact_. cbn. rewrite Ew. split_and!; try done. left. unfold unsent in *. cbn. rewrite Eq in *. rewrite Es in Y5. unfold idle in Y5. naive_solver.
  - pose proof (Hid id f (or_intror (or_introl eq_refl))) as Hlt. destruct failed as [e|]; cbn; [|by apply sent_writing]. rewrite app_nil_r.
    destruct (wr_sending _ _ _ Hw id f Es) as (A & B & _). destruct Hw as [H1 H2 H3 H4 H5 H6 [H7 H7'] H8 H9]. split; cbn; try done.
    + split; [|done]. intros i. destruct (decide (i = id)) as [->|Hne]; [done|rewrite lookup_insert_ne by done; auto].
    + intros i g [?|[?|Hg]]; [done..|]. apply (H8 i g). auto.
    + intros _ [Hf _]. done.
  - cbn. rewrite app_nil_r. destruct Hw as [H1 H2 H3 H4 H5 H6 H7 H8 H9]. split; cbn; try done. intros i g [?|[?|Hg]]; [done..|]. apply (H8 i g). auto.
  - cbn. by rewrite app_nil_r.
Qed.

(** *** The side that reads *)

Lemma eof_last c sent offered n : writing c sent offered → (n ≤ length sent)%nat → ¬ open_ended (take n sent) → n = length sent ∧ payload sent = offered.
Proof.
  intros Hw Hn Ho. assert (He : ∃ k f, take n sent !! k = Some f ∧ f_EOF f = true).
  { unfold open_ended in Ho. apply not_Forall_Exists in Ho; [|intros f; apply bool_eq_dec]. apply Exists_exists in Ho as (f & Hf & He). apply list_elem_of_lookup in Hf as [k Hk].
    exists k, f. split; [done|]. by apply not_false_iff_true. }
  destruct He as (k & f & Hk & Hf). pose proof Hk as Hk'. apply lookup_take_Some in Hk as [Hk Hlt]. destruct (wr_sent _ _ _ Hw k f Hk) as [_ Hlast]. specialize (Hlast Hf).
  assert (n = length sent) as -> by lia. split; [done|]. apply (wr_eof _ _ _ Hw). by rewrite firstn_all in Ho.
Qed.
Lemma next_frame_ok c sent offered n f r got : writing c sent offered → (n < length sent)%nat → sent !! n = Some f → reading r (take n sent) got → frame_ok r f = true.
Proof.
  intros Hw Hn Hf Hr. destruct (wr_sent _ _ _ Hw n f Hf) as [[Hs (S1 & S2 & S3)] _]. unfold frame_ok. rewrite (rd_sequence _ _ _ Hr), length_take, Nat.min_l by lia. rewrite !andb_true_iff. split_and!.
  - apply negb_true_iff. destruct (r_receiveEOF r) eqn:E; [|done]. destruct (eof_last c sent offered n Hw) as [-> _]; [lia|by apply (rd_eof _ _ _ Hr)|lia].
  - lia.
  - lia.
  - destruct (f_EOF f); [apply bool_decide_eq_true_2; by apply S1|apply negb_true_iff, bool_decide_eq_false_2; by apply S2].
Qed.
Lemma deliver_reading r accepted got f : reading r accepted got → frame_ok r f = true → r_incoming r = None →
  reading (mkReadHalf (Some f) (r_readData r) (r_readEOF r) (f_EOF f) (u64 (r_receiveSequence r + 1))) (accepted ++ [f]) got.
Proof.
  intros [H1 H2 H3 H4 H5] Hf Hi. unfold frame_ok in Hf. bool_hyps. split; cbn.
  - rewrite H1, length_app. unfold u64. rewrite Zplus_mod_idemp_l. f_equal. cbn. lia.
  - rewrite payload_app, payload_one, H2, Hi. cbn. by rewrite app_nil_r, <- app_assoc.
  - intros He Ho. apply Forall_app in Ho as [_ Ho]. rewrite Forall_singleton in Ho. congruence.
  - by intros g [= <-].
  - intros He. destruct (H5 He). congruence.
Qed.
Lemma read_reading c n accepted got : reading (c_read c) accepted got →
  let '(c', x) := readTurn c n in
  c_write c' = c_write c ∧ c_done c' = c_done c ∧ reading (c_read c') accepted (match x with RBytes l => got ++ l | _ => got end)
  ∧ (match x with REOF => c' = c ∧ r_readEOF (c_read c) = true ∧ r_readData (c_read c) = [] | _ => True end)
  ∧ (r_readEOF (c_read c) = true → r_readData (c_read c) = [] → c_read c' = c_read c).
Proof.
  intros Hr. unfold readTurn. cbv zeta. destruct (c_done c) eqn:Ed; [by cbn|]. destruct (r_readData (c_read c)) as [|x l] eqn:El.
  - destruct (r_readEOF (c_read c)) eqn:Ee; [by cbn|]. destruct (r_incoming (c_read c)) as [f|] eqn:Ei; [|by cbn]. cbn. split_and!; try done.
    destruct Hr as [H1 H2 H3 H4 H5]. split; cbn; try done.
    + rewrite H2, El, Ei. cbn. by rewrite app_nil_r.
    + intros He. split; [by eapply H4|done].
  - cbn [c_write c_done on_read c_read fst snd]. split_and!; try done. destruct Hr as [H1 H2 H3 H4 H5]. split; cbn [r_receiveSequence r_readData r_incoming r_receiveEOF r_readEOF]; try done.
    rewrite H2, El. rewrite <- !app_assoc. f_equal. by rewrite app_assoc, take_drop.
Qed.

(** ** Runs *)

Lemma with_a_flowing t a : flowing t → writing a (t_sent t) (t_offered t) → flowing (with_a t a).
Proof. intros [H1 H2 H3] Ha. by split. Qed.
Lemma tstep_flowing t e : flowing t → flowing (tstep t e).
Proof.
  intros Ht. pose proof Ht as [Hw (n & Hn & Hl & Hr) He]. destruct e as [data| | | |stalled|closing failed|closing|m| |]; cbn [tstep]; cbv zeta.
  - unfold free. destruct (h_writer (c_write (t_a t))) eqn:Ew; [done|]. cbn [negb]. split; cbn; [|by exists n|done]. by apply Write_writing.
  - unfold free. destruct (h_writer (c_write (t_a t))) eqn:Ew; [done|]. by apply with_a_flowing, CloseWrite_writing.
  - by apply with_a_flowing, queue_writing.
  - by apply with_a_flowing, result_writing.
  - by apply with_a_flowing, abandon_writing.
  - pose proof (send_writing (t_a t) closing failed _ _ Hw) as Hs. destruct (sendTurn (t_a t) closing failed) as [a [f|]]; cbn [option_list] in Hs; [|rewrite app_nil_r in Hs; by apply with_a_flowing].
    split; cbn; [done| |done]. exists n. rewrite length_app. split; [lia|]. rewrite take_app_le by lia. split; [|done]. intros Hx. rewrite drop_app_le by lia. by rewrite (Hl Hx).
  - destruct (t_link t) as [|f link] eqn:El; [done|]. destruct (t_receiving t) eqn:Er; [|done]. cbn [negb]. specialize (Hl eq_refl).
    assert (Hf : t_sent t !! n = Some f) by (by rewrite <- (Nat.add_0_r n), <- lookup_drop, <- Hl). assert (Hlt : (n < length (t_sent t))%nat) by (by eapply lookup_lt_Some).
    unfold Deliver. cbv zeta. rewrite (next_frame_ok _ _ _ n f _ _ Hw Hlt Hf Hr). cbn [negb]. destruct (c_done (t_b t) && _) eqn:Ec.
    { split; cbn; [done|by exists n|done]. }
    destruct (r_incoming (c_read (t_b t))) eqn:Ei; [done|]. split; cbn; [done| |].
    + exists (S n). split; [lia|]. rewrite (take_S_r _ _ f Hf). split; [|apply deliver_reading; try done; by eapply next_frame_ok]. intros _.
      rewrite (drop_S _ f) in Hl by done. by injection Hl.
    + done.
  - pose proof (read_reading (t_b t) m _ _ Hr) as Hx. destruct (readTurn (t_b t) m) as [b x]. destruct Hx as (X1 & X2 & X3 & X4 & X5).
    destruct x; split; cbn; try done; try (by exists n); try (intros Hd; destruct (He Hd) as [Y1 Y2]; by rewrite (X5 Y1 Y2)). intros _. destruct X4 as (-> & ?). done.
  - apply with_a_flowing; [done|]. by eapply writing_done.
  - split; cbn; [done|by exists n|done].
Qed.
Lemma opened_flowing : flowing opened.
Proof.
  split; cbn; [|exists 0%nat; split_and!; [lia|done|by split]|done]. split; cbn; try done.
  - split; [|done]. intros id [x Hx]. by rewrite lookup_empty in Hx.
  - intros id f [?|[?|?]]; done.
  - intros _ _. unfold exact_. cbn. split_and!; try done; [by left|]. intros _. constructor.
Qed.
Lemma trun_flowing es : flowing (trun opened es).
Proof. unfold trun. pose proof opened_flowing as H. revert H. generalize opened. induction es as [|e es IH]; intros t H; [done|]. cbn. apply IH. by apply tstep_flowing. Qed.

(** C20. Whatever writes, stalls, failed sends and closings interleave, the bytes read at one
    end of the tunnel of an application are a prefix of those written at the other; when
    the reader sees the end, they are all of them; and no frame is ever refused. *)
Theorem tunnel_preserves_bytes es :
  let t := trun opened es in
  t_got t `prefix_of` t_offered t ∧ (t_ended t = true → t_got t = t_offered t)
  ∧ ∀ f link, t_receiving t = true → t_link t = f :: link → frame_ok (c_read (t_b t)) f = true.
Proof.
  cbv zeta. destruct (trun_flowing es) as [Hw (n & Hn & Hl & Hr) He]. set (t := trun opened es) in *. split_and!.
  - trans (payload (take n (t_sent t))); [rewrite (rd_payload _ _ _ Hr); by apply prefix_app_r|]. trans (payload (t_sent t)); [|apply (wr_prefix _ _ _ Hw)].
    rewrite <- (take_drop n (t_sent t)) at 2. rewrite payload_app. by apply prefix_app_r.
  - intros Hd. destruct (He Hd) as [H1 H2]. destruct (rd_readEOF _ _ _ Hr H1) as [H3 H4]. destruct (eof_last _ _ _ n Hw Hn (rd_eof _ _ _ Hr H3)) as [-> Hp].
    pose proof (rd_payload _ _ _ Hr) as Hx. rewrite H2, H4, firstn_all in Hx. cbn in Hx. rewrite app_nil_r in Hx. congruence.
  - intros f link Hrec Hlink. assert (Hf : t_sent t !! n = Some f) by (by rewrite <- (Nat.add_0_r n), <- lookup_drop, <- Hl, Hlink).
    eapply next_frame_ok; [done|by eapply lookup_lt_Some|done|done].
Qed.

(** Five bytes and the end of the stream arrive. *)
Example five_bytes :
  let send := [EQueue; ESend false None; ESend false None; ESend false None; ESend false None; EResult] in
  let t := trun opened (EWrite [104; 101; 108; 108; 111] :: send ++ ECloseWrite :: send ++ [EReceive false; ERead 3; EReceive false; ERead 3; ERead 3; EReceive false; ERead 9; ERead 9]) in
  (t_got t, t_ended t, h_writeEOF (c_write (t_a t))) = ([104; 101; 108; 108; 111], true, true).
Proof. vm_compute. reflexivity. Qed.
